(* ===== verification/_CoqProject ===== *)
-Q . S2P
Prelude.v
Mem.v
Ringbuf.v
RingbufByte.v
RingbufNoSplit.v
RingbufCases.v
EspFlash.v
Partition.v
BootFlash.v
OtaData.v
Bootloader.v
OtaOps.v
OtaBoot.v
OtaUpdate.v
Heap.v
HeapInv.v
HeapOps.v
HeapCalls.v
HeapClient.v
HeapCheck.v
MemoryLayout.v
HeapCaps.v
HeapCapsClient.v
HeapCapsCalls.v
HeapCapsHistory.v
HeapCapsEsp32.v
Log.v
LogCache.v
Timer.v
TimerProofs.v
TimerHistory.v
EventLoop.v
EventProofs.v
EventHistory.v
ImageFormat.v
ImageProofs.v
ImageVerify.v
ImageLoad.v
ImageBoot.v
Efuse.v
EfuseBits.v
EfuseField.v
EfuseRead.v
EfuseCode.v
EfuseBurn.v
EfuseWrite.v
EfuseCnt.v
EfuseCalls.v
EfuseClient.v
EfuseExamples.v
FlashMmap.v
FlashMmapProofs.v
FlashMmapClient.v
FlashMmapHistory.v
FlashMmapRead.v
CString.v
SplitArgv.v
Console.v
ConsoleProofs.v
ConsoleHistory.v
Vfs.v
VfsPath.v
VfsClient.v
VfsHistory.v
VfsCalls.v
VfsExamples.v
VfsSelect.v
VfsWait.v
VfsWaitExamples.v
Httpd.v
HttpdTxrx.v
HttpdUri.v
HttpdUriProofs.v
HttpdUriHistory.v
HttpdParse.v
HttpdResponse.v
HttpdHeaders.v
HttpdSess.v
HttpdRound.v
HttpdExamples.v
