(* ===== verification/Prelude.v ===== *)
(** * ESP-IDF system components

    A verification library for the C components of ESP-IDF that carry its own
    logic.  It follows the code: a function of the C source is a Definition of the
    same name, a struct a Record with the fields of the struct, an enum an
    Inductive type or the constants of the header, and a global variable a field
    of the state of its component.

    ** Conventions

    Integers are [Z]; [u8], [u32], [u64] and [s32] wrap a value to the width
    of its C type and are written where the code's arithmetic can leave it.  A
    call that reads and changes a state takes it as its last argument and returns
    its result with the new state.  What can go wrong in C is explicit: a function
    returns an [outcome], with [Ok] for a return, [Abort] for a failed assertion,
    [Fault] for an undefined access, and [OutOfFuel] for a loop whose bound is too
    small.  Errors of the API are values, as they are in the code.  Memory is byte
    addressed ([Mem]).  Hardware, ROM, compiler and third-party code are arguments:
    type classes such as [PartitionEnv], [BootRom], [OtaConfig] and [ImageEnv],
    each with a concrete instance that the witnesses use.

    ** The parts and how they work together

    - Ring buffer, [components/esp_ringbuf/ringbuf.c].  [Ringbuf]: [Ringbuffer_t],
      sending, acquiring, receiving and returning for the three kinds of buffer.
      [RingbufByte]: a byte buffer is a bounded queue of bytes.  [RingbufNoSplit]:
      a no-split buffer is a queue of items for a client that holds one at a time,
      and its free size is exact.  [RingbufCases]: two histories with several items
      held on a full buffer, where the code goes wrong.  Other tasks that run while
      a call blocks are a schedule of state changes ([wake]).
    - Flash chip, [components/spi_flash/esp_flash_api.c].  [EspFlash]: a NOR memory
      whose driver operations may fail by a schedule; reading, writing and erasing
      cut a range into chunks, sectors and blocks.
    - Partitions, [components/spi_flash/partition.c] and
      [bootloader_support/src/flash_partitions.c].  [Partition]: the table is
      parsed into the list of partitions once; iterators, and calls confined to a
      partition.  It calls [EspFlash].
    - Bootloader.  [BootFlash] ([bootloader_flash.c]) maps, writes and erases.
      [OtaData] ([bootloader_common.c], [esp_efuse_fields.c]) is the pair of
      selection entries and the secure version.  [Bootloader]
      ([bootloader_utility.c]) selects what to boot and tries the images in order;
      it is proved against the interface [ImageLoader].
    - Images, [esp_image_format.c].  [ImageFormat]: headers, segments, checksum,
      hash, loading under a mask.  [ImageProofs] and [ImageVerify]: verification
      accepts exactly the valid images.  [ImageLoad]: what is in RAM afterwards, and
      when loading succeeds.  [ImageBoot]: the instance of [ImageLoader], and with
      it that only valid images are started.
    - OTA updates, [components/app_update/esp_ota_ops.c].  [OtaOps]: choosing,
      writing and confirming, on [Partition] and [OtaData].  [OtaBoot]: what the
      choice of the application does in the bootloader after a restart, also when
      the power fails.  [OtaUpdate]: the slot to write and the stream of the image.
    - Heap, [components/heap/multi_heap.c].  [Heap]: the calls on the bytes of the
      heap.  [HeapInv]: the bytes represent a list of blocks and the free list.
      [HeapOps], [HeapCalls]: each call on that list.  [HeapClient]: every history
      of a client.  [HeapCheck]: inspection, and the calls one by one.
    - Heaps by capability, [components/heap/heap_caps.c], [heap_caps_init.c] and
      [components/soc/src/memory_layout_utils.c].  [MemoryLayout]: the memory that is
      not reserved, and the address ranges, which images use too.  [HeapCaps]: the
      heaps made of it, each a [Heap] with its capabilities, and the calls that choose
      one; the alias of D/IRAM.  [HeapCapsClient], [HeapCapsCalls]: the buffers of a
      client in several heaps, and each call on them.  [HeapCapsHistory]: every history
      of calls from start-up on, and when there is no memory.  [HeapCapsEsp32]: the
      tables of the ESP32, and runs.
    - Log library, [components/log/log.c].  [Log]: tags, levels and the cache, a
      binary heap.  [LogCache]: the cache never shows.
    - Timers, [components/esp_common/src/esp_timer.c].  [Timer]: the sorted list of
      armed timers and the processing of an alarm.  [TimerProofs], [TimerHistory]:
      one alarm, and every history against a table of timers.
    - Event loops, [components/esp_event].  [EventLoop]: nested lists of handlers,
      the queue of events, the copies of their data.  [EventProofs],
      [EventHistory]: every history against a list of registrations and a queue,
      termination, and errors that change nothing.
    - Flash mapping, [components/spi_flash/flash_mmap.c].  [FlashMmap]: the MMU
      tables of both processors, the reference counts and the list of mappings.
      [FlashMmapProofs]: the search for a window, start-up.  [FlashMmapClient],
      [FlashMmapHistory]: every history of mapping and unmapping against a list of
      mappings.  [FlashMmapRead]: what a mapping reads, and address translation.
    - Console, [components/console].  [SplitArgv] ([split_argv.c]) cuts a command
      line into its arguments, in place; [Console] ([commands.c]) is the list of
      commands and runs a line with it.  [ConsoleProofs], [ConsoleHistory]: one
      line, and every history of calls against a table of commands.
    - Virtual file system, [components/vfs/vfs.c].  [Vfs]: the table of drivers, the
      table of descriptors and every call on files, paths and directories; the
      drivers are arguments.  [VfsPath]: which driver a path belongs to.
      [VfsClient], [VfsHistory], [VfsCalls]: every history of calls against open
      files that belong to drivers.  [VfsSelect], [VfsWait]: waiting for several
      descriptors.  [VfsExamples], [VfsWaitExamples]: concrete drivers, and the calls
      where the code goes wrong.
    - HTTP server, [components/esp_http_server/src].  [Httpd]: the structures of
      [esp_httpd_priv.h], and the contexts of a session.  [HttpdTxrx]
      ([httpd_txrx.c]): sending, receiving, responses.  [HttpdUri] ([httpd_uri.c]):
      the table of handlers.  [HttpdParse] ([httpd_parse.c]): the callbacks of the
      HTTP parser, the life of a request, queries and headers.  [HttpdSess]
      ([httpd_sess.c], [httpd_main.c]): the sessions, the rounds of the server, its
      start and end.  [HttpdUriProofs], [HttpdUriHistory]: templates, and every
      history of the table.  [HttpdResponse], [HttpdHeaders], [HttpdRound]: what is
      sent, what is found in a request, what a round serves.  [HttpdExamples]: a
      small network, and the calls where the code goes wrong.  The parser, the
      sockets and the application are arguments ([HttpParser], [HttpdEnv]).
    - Strings of the C library, which the console and the server use: [CString].
    - eFuse manager, [components/efuse].  [Efuse]: fields of bits over the four
      blocks, staging, coding and burning, the API.  [EfuseBits], [EfuseField],
      [EfuseCode], [EfuseBurn]: bits and registers, the pieces of a field, the
      coding schemes, the end of a call.  [EfuseRead], [EfuseWrite], [EfuseCnt]: the
      calls one by one.  [EfuseCalls]: any sequence of calls.  [EfuseClient]: batches
      and the round trip.  [EfuseExamples]: the theorems on a chip with burned bits.

    ** What the theorems show

    - Refinement: [heap_serves_clients], [heap_caps_serve_clients], [bytebuf_refines_queue],
      [nosplit_refines_queue], [event_loop_refines], [timer_history_refines],
      [log_cache_transparent], [mmap_history_refines],
      [vfs_history_refines], [console_history_refines] and [uri_history_exact] take every finite history of calls that is
      legal in the sense each of them states (what the client holds, ranges, resources) and state that
      the code answers as an abstract specification does.
    - Equivalence with a definition on bytes: [image_verify_exact] and
      [image_load_exact]; [flash_write_correct] and [flash_read_correct];
      [ota_write_any_pieces]; [boot_partition_agrees]; the eFuses bit by bit
      ([efuse_batch_exact], [efuse_write_field_exact], [efuse_write_cnt_exact],
      [efuse_read_field_exact]), with the type safety of any sequence of calls in
      [efuse_calls_safe]; [split_argv_exact] with [split_quoted_roundtrip];
      [vfs_path_exact], [select_split_exact] and [select_ready_exact];
      [available_memory_exact]; [wildcard_exact], [headers_exact], [query_value_exact], [response_exact] and
      [chunked_roundtrip].
    - Composition of components: [set_boot_partition_boots],
      [set_boot_partition_power_safe] and [confirmed_image_stays] run the
      application and then the bootloader; [boot_starts_only_valid_images] runs the
      boot selection on the loading of images.
    - Termination and progress: [event_loop_run_terminates], [timer_process_exact],
      [sessions_served_once];
      every other theorem that gives a result gives [Ok], so that the code does
      return.
    - The remaining theorems are about one operation each: its result on every
      branch ([heap_caps_malloc_null], [malloc_best_fit], [realloc_correct], [erase_region_correct],
      [partition_find_enumerates]), an invariant it keeps ([heap_check_passes],
      [register_keeps_disjoint], [secure_version_monotone]), errors
      ([event_errors_change_nothing]), machine widths ([wrapped_sizes]:
      what the heap does for sizes near [2^32]).

    ** Fuel

    A loop without a structural argument takes fuel.  Where a bound follows from
    the state or from a constant of the code the definition computes it, and the
    theorems show that it is enough: the walks over the blocks of a heap take the
    size of the heap in words, since every block is larger; the walks over the
    items of a ring buffer its size; the chunks, sectors and blocks of a flash range
    the length of the range; the sinking of a cache entry the size of the cache;
    the parts of a segment six, since a segment has less than 16 MB and a part at
    least 49 pages; [verify_load_addresses] two, since it recurses once.  The loops
    that wait for other tasks are structural in the schedule of wake-ups.  The
    processing of a timer alarm and the loop of [esp_event_loop_run] take the fuel
    as an argument, since callbacks decide how long they run: the theorems give a
    bound, from the due times of the timers and from the ranks of the queued events.  In the
    HTTP server one bound of the loops is an argument: a pass over the sessions
    needs their number, and a response the bytes of its longest part, since the
    network takes at least one byte at a time; a loop that waits for the peer has no
    bound ([purge_never_ends]).

    ** Not modelled

    - Of the parts above: the poisoned heap and heap tracing, that IRAM only takes
      accesses to whole words, a region added inside of a heap, profiling options, allow-split
      theorems (the operations are there), signature checks and the secure boot
      and flash encryption steps of the bootloader, the application build of
      [esp_image_format.c], the preemption of a call inside its critical section,
      other tasks in the virtual file system while a call runs, calls of other tasks
      on the HTTP server, its socket options but one, the thread check of
      [CONFIG_HTTPD_VALIDATE_REQ].
    - The stopping of the caches and of the other processor ([cache_utils.c]), which
      is a sequence of register accesses that two processors interleave.
    - C++ ([nvs_flash], [wear_levelling]), drivers and register level code, network
      clients and provisioning (they are glue over sockets and cryptographic
      libraries), FreeRTOS, lwIP, Bluedroid, FatFs, SPIFFS, mbedTLS and other
      vendored code, tools, tests and examples. *)
From stdpp Require Export base option list gmap numbers.
From stdpp Require Export strings.
From Stdlib Require Export ZArith Lia.

#[global] Open Scope Z_scope.

(** ** Record update: [r <| f := v |>]

    A record type declares how to rebuild itself from its projections
    ([Rebuild]); the setter of a projection is then computed by abstracting that
    projection in the rebuilt value. *)
Class Rebuild (T : Type) := rebuild : T -> T.
Class Upd {T E : Type} (proj : T -> E) := upd_fun : (E -> E) -> T -> T.

#[global] Hint Extern 1 (@Upd ?T _ ?proj) =>
  (let e := constr:(_ : Rebuild T) in
   let e := eval hnf in e in
   exact (fun g (r : T) => ltac:(
    let body := eval cbv beta in (e r) in
    let abs := eval pattern (proj r) in body in
    lazymatch abs with
    | ?h _ => let out := eval cbv beta in (h (g (proj r))) in exact out
    end))) : typeclass_instances.

Definition upd {T E} (proj : T -> E) {u : Upd proj} (g : E -> E) (r : T) : T := u g r.
Arguments upd {T E} proj {u} g r /.

Declare Scope esp_scope.
Delimit Scope esp_scope with esp.
#[global] Open Scope esp_scope.
Notation "r <| f := v |>" := (upd f (fun _ => v) r)
  (at level 1, left associativity, f at next level, v at level 99) : esp_scope.


(** ** Outcomes of C code

    [Ok] is a normal return.  [Abort] is a failed [assert], [configASSERT],
    [MULTI_HEAP_ASSERT] or a call of [abort()], after which the program does not
    continue.  [Fault] is an access the C standard leaves undefined (a null
    pointer, a read of memory that is not there).  [OutOfFuel] is a loop whose
    bound in the model was too small; the theorems show it does not occur. *)
Inductive outcome (A : Type) : Type :=
  | Ok (a : A)
  | Abort
  | Fault
  | OutOfFuel.
Arguments Ok {A} a.
Arguments Abort {A}.
Arguments Fault {A}.
Arguments OutOfFuel {A}.

#[global] Instance outcome_ret : MRet outcome := fun A a => Ok a.
#[global] Instance outcome_bind : MBind outcome := fun A B f o =>
  match o with Ok a => f a | Abort => Abort | Fault => Fault | OutOfFuel => OutOfFuel end.

(** [assert(c)]. *)
Definition cassert (c : bool) : outcome unit := if c then Ok tt else Abort.

Lemma outcome_bind_Ok {A B} (a : A) (f : A -> outcome B) : (Ok a ≫= f) = f a.
Proof. reflexivity. Qed.

Lemma cassert_true c : c = true -> cassert c = Ok tt.
Proof. by intros ->. Qed.

Lemma cassert_bind c {B} (k : unit -> outcome B) : c = true -> (cassert c ≫= k) = k tt.
Proof. by intros ->. Qed.

(** Run a computation: [ostep] returns from its leading [Ok], [oassert tac]
    passes its leading assertion, whose condition [tac] solves. *)
Ltac ostep := rewrite outcome_bind_Ok; cbv beta.
Ltac oassert tac :=
  lazymatch goal with
  | |- context [mbind ?k (cassert ?c)] => rewrite (cassert_bind c k) by tac; cbv beta
  end.

(** ** Machine integers *)

(** [size_t], [uint32_t] and [uintptr_t] arithmetic: reduction modulo [2^32]. *)
Definition u32 (x : Z) : Z := x mod 2 ^ 32.
(** Reinterpretation of a 32-bit word as [int32_t] ([BaseType_t], [intptr_t]). *)
Definition s32 (x : Z) : Z := let y := u32 x in if y <? 2 ^ 31 then y else y - 2 ^ 32.
(** [uint8_t]. *)
Definition u8 (x : Z) : Z := x mod 2 ^ 8.

Definition is_u32 (x : Z) : Prop := 0 <= x < 2 ^ 32.

Lemma u32_small x : is_u32 x -> u32 x = x.
Proof. apply Z.mod_small. Qed.
Lemma u32_range x : is_u32 (u32 x).
Proof. apply Z.mod_pos_bound. lia. Qed.
Lemma s32_small x : 0 <= x < 2 ^ 31 -> s32 x = x.
Proof. intros. unfold s32. rewrite u32_small by (unfold is_u32; lia). case_match; lia. Qed.
Lemma s32_neg x : - 2 ^ 31 <= x < 0 -> s32 x = x.
Proof.
  intros. unfold s32, u32. replace (x mod 2 ^ 32) with (x + 2 ^ 32).
  - case_match; lia.
  - rewrite <- (Z.mod_small (x + 2 ^ 32) (2 ^ 32)) by lia.
    by rewrite <- Z.add_mod_idemp_r, Z_mod_same_full, Z.add_0_r by lia.
Qed.
Lemma s32_id x : - 2 ^ 31 <= x < 2 ^ 31 -> s32 x = x.
Proof. intros. destruct (decide (x < 0)); [apply s32_neg | apply s32_small]; lia. Qed.

(** Reading a word as signed and back. *)
Lemma u32_s32 x : is_u32 x -> u32 (s32 x) = x.
Proof.
  intros Hx. unfold s32. rewrite (u32_small x Hx). destruct (Z.ltb_spec x (2 ^ 31)); [by apply u32_small|].
  unfold u32. rewrite <- (Z_mod_plus_full (x - 2 ^ 32) 1). replace (x - 2 ^ 32 + 1 * 2 ^ 32) with x by lia. by apply Z.mod_small.
Qed.

(** Alignment to a power of two, [(x + a - 1) & ~(a - 1)], as the C macros
    compute it on a 32-bit word. *)
Definition align_down (a x : Z) : Z := Z.ldiff x (a - 1).
Definition align_up (a x : Z) : Z := align_down a (u32 (x + (a - 1))).

Lemma align_down_pow2 n x : 0 <= n -> align_down (2 ^ n) x = x - x mod 2 ^ n.
Proof.
  intros. unfold align_down. replace (2 ^ n - 1) with (Z.ones n) by (rewrite Z.ones_equiv; lia).
  rewrite Z.ldiff_ones_r, Z.shiftl_mul_pow2, Z.shiftr_div_pow2 by lia.
  pose proof (Z.div_mod x (2 ^ n)). lia.
Qed.

(** Word alignment, used by the heap and the ring buffer. *)
Lemma align_up_4 x : 0 <= x <= 2 ^ 32 - 4 ->
  align_up 4 x = x + (- x) mod 4.
Proof.
  intros. unfold align_up. rewrite u32_small by (unfold is_u32; lia).
  change 4 with (2 ^ 2) at 1. rewrite align_down_pow2 by lia.
  change (2 ^ 2) with 4. Z.to_euclidean_division_equations. lia.
Qed.

(** [(p & 3) == 0]. *)
Definition word_aligned (p : Z) : bool := Z.land p 3 =? 0.
Lemma word_aligned_mod p : word_aligned p = true <-> p mod 4 = 0.
Proof.
  unfold word_aligned. change 3 with (Z.ones 2). rewrite Z.land_ones by lia.
  apply Z.eqb_eq.
Qed.

(** Bits of a flag word. *)
Definition flag (w m : Z) : bool := negb (Z.land w m =? 0).

(** ** Lists *)
Definition lenZ {A} (l : list A) : Z := Z.of_nat (length l).
Arguments lenZ : simpl never.

Lemma lenZ_nonneg {A} (l : list A) : 0 <= lenZ l.
Proof. unfold lenZ. lia. Qed.
Lemma lenZ_app {A} (l k : list A) : lenZ (l ++ k) = lenZ l + lenZ k.
Proof. unfold lenZ. rewrite length_app. lia. Qed.
Lemma lenZ_cons {A} (x : A) l : lenZ (x :: l) = 1 + lenZ l.
Proof. unfold lenZ. simpl. lia. Qed.

Lemma lookup_update {A} (l : list A) (i j : nat) (x : A) :
  (i < length l)%nat -> <[i := x]> l !! j = if decide (i = j) then Some x else l !! j.
Proof.
  intros. case_decide; subst; [by apply list_lookup_insert_eq | by apply list_lookup_insert_ne].
Qed.

(** ** Flag words

    The flags of the C code are single bits. *)
Lemma flag_testbit w n : 0 <= n -> flag w (2 ^ n) = Z.testbit w n.
Proof.
  intros Hn. unfold flag. destruct (Z.testbit w n) eqn:E; destruct (Z.land w (2 ^ n) =? 0) eqn:F;
    simpl; try done; exfalso.
  - apply Z.eqb_eq in F. apply (f_equal (fun z => Z.testbit z n)) in F.
    rewrite Z.land_spec, E, Z.pow2_bits_true, Z.bits_0 in F by lia. done.
  - apply Z.eqb_neq in F. apply F. apply Z.bits_inj'. intros k Hk.
    rewrite Z.land_spec, Z.bits_0, Z.pow2_bits_eqb by lia.
    destruct (Z.eqb_spec n k); subst; rewrite ?E; [done|]. by rewrite andb_false_r.
Qed.
Lemma flag_lor w m n : 0 <= n -> 0 <= m -> flag (Z.lor w (2 ^ m)) (2 ^ n) = flag w (2 ^ n) || (m =? n).
Proof.
  intros. rewrite !flag_testbit by done. rewrite Z.lor_spec, Z.pow2_bits_eqb by lia. done.
Qed.
Lemma flag_ldiff w m n : 0 <= n -> 0 <= m -> flag (Z.ldiff w (2 ^ m)) (2 ^ n) = flag w (2 ^ n) && negb (m =? n).
Proof.
  intros. rewrite !flag_testbit by done. rewrite Z.ldiff_spec, Z.pow2_bits_eqb by lia. done.
Qed.

Lemma is_u32_lor a b : is_u32 a -> is_u32 b -> is_u32 (Z.lor a b).
Proof.
  intros Ha Hb. unfold is_u32 in *.
  assert (H0 : 0 <= Z.lor a b) by (apply Z.lor_nonneg; lia). split; [done|].
  assert (L : forall x, 0 <= x < 2 ^ 32 -> Z.log2 x < 32).
  { intros x Hx. destruct (decide (x = 0)) as [->|]; [simpl; lia|]. apply Z.log2_lt_pow2; lia. }
  destruct (decide (Z.lor a b = 0)) as [->|]; [lia|].
  apply Z.log2_lt_pow2; [lia|]. rewrite Z.log2_lor by lia.
  pose proof (L a Ha). pose proof (L b Hb). lia.
Qed.

Lemma is_u32_ldiff a b : is_u32 a -> is_u32 (Z.ldiff a b).
Proof.
  intros Ha. assert (E : u32 (Z.ldiff a b) = Z.ldiff a b).
  { unfold u32. apply Z.bits_inj'. intros k Hk. rewrite Z.testbit_mod_pow2 by lia.
    destruct (Z.ltb_spec k 32); [done|]. simpl. rewrite Z.ldiff_spec.
    rewrite <- (u32_small a Ha). unfold u32. rewrite Z.mod_pow2_bits_high by lia. done. }
  rewrite <- E. apply u32_range.
Qed.

(** ** Closing tactics *)

(** Case analysis on every boolean comparison of the goal, by its reflection,
    innermost first. *)
Ltac if_free t := lazymatch t with context [if _ then _ else _] => fail | _ => idtac end.
Ltac case_cmp :=
  repeat match goal with
    | |- context [?a =? ?b] => if_free a; if_free b; destruct (Z.eqb_spec a b)
    | |- context [?a <? ?b] => if_free a; if_free b; destruct (Z.ltb_spec a b)
    | |- context [?a <=? ?b] => if_free a; if_free b; destruct (Z.leb_spec a b)
    end.
(** Decide a boolean goal built from comparisons. *)
Ltac bsolve := repeat (apply andb_true_intro; split); case_cmp; simpl; try done; try lia.
(** Membership in a list given by its cells. *)
Ltac in_list :=
  first
    [ solve [rewrite ?elem_of_cons, ?elem_of_app, ?elem_of_cons, ?elem_of_app, ?elem_of_cons; auto 8]
    | match goal with H : ?x ∈ _ |- ?x ∈ _ => revert H; clear; rewrite ?elem_of_cons, ?elem_of_app, ?elem_of_cons, ?elem_of_app, ?elem_of_cons; tauto end ].
(** Equality of values built from constructors and arithmetic. *)
Ltac eq_arith := repeat first [reflexivity | lia | progress f_equal].
