(* ===== verification/Mem.v ===== *)
(** * Byte-addressed memory

    The memory the C code of the ring buffer and of the heap works on: a finite
    map from addresses to bytes, with the little-endian 32-bit accesses of the
    Xtensa cores, [memcpy]/[memmove] and [memset].  A byte never written reads
    as 0. *)
From S2P Require Import Prelude.

Abbreviation mem := (gmap Z Z).

Definition load8 (m : mem) (a : Z) : Z := u8 (default 0 (m !! a)).
Definition store8 (m : mem) (a v : Z) : mem := <[a := u8 v]> m.

Definition load32 (m : mem) (a : Z) : Z :=
  load8 m a + 2 ^ 8 * load8 m (a + 1) + 2 ^ 16 * load8 m (a + 2) + 2 ^ 24 * load8 m (a + 3).
Definition store32 (m : mem) (a v : Z) : mem :=
  store8 (store8 (store8 (store8 m a v) (a + 1) (v / 2 ^ 8)) (a + 2) (v / 2 ^ 16)) (a + 3) (v / 2 ^ 24).

Fixpoint read_bytes (m : mem) (a : Z) (n : nat) : list Z :=
  match n with
  | O => []
  | S n => load8 m a :: read_bytes m (a + 1) n
  end.
Fixpoint write_bytes (m : mem) (a : Z) (l : list Z) : mem :=
  match l with
  | [] => m
  | v :: l => write_bytes (store8 m a v) (a + 1) l
  end.

(** [memcpy]; the bytes are read before any is written, so that it is also
    [memmove]. *)
Definition memcpy (m : mem) (dst src : Z) (n : Z) : mem :=
  write_bytes m dst (read_bytes m src (Z.to_nat n)).
Definition memset (m : mem) (dst v n : Z) : mem :=
  write_bytes m dst (replicate (Z.to_nat n) v).

Definition is_byte (v : Z) : Prop := 0 <= v < 2 ^ 8.

Section bytes.
Implicit Types (m : mem) (a b v : Z) (l : list Z).

Lemma load8_range m a : is_byte (load8 m a).
Proof. apply Z.mod_pos_bound. lia. Qed.

Lemma load8_store8 m a b v :
  load8 (store8 m a v) b = if decide (a = b) then u8 v else load8 m b.
Proof.
  unfold load8, store8. rewrite lookup_insert. case_decide; [|done]. simpl.
  unfold u8. by rewrite Z.mod_mod by lia.
Qed.

Lemma load32_range m a : is_u32 (load32 m a).
Proof.
  unfold load32, is_u32.
  pose proof (load8_range m a). pose proof (load8_range m (a + 1)).
  pose proof (load8_range m (a + 2)). pose proof (load8_range m (a + 3)).
  unfold is_byte in *. lia.
Qed.

Lemma load8_store32_ne m a b v :
  b < a \/ a + 4 <= b -> load8 (store32 m a v) b = load8 m b.
Proof.
  intros. unfold store32. rewrite !load8_store8. repeat case_decide; try lia; done.
Qed.

Lemma load32_store32_eq m a v : is_u32 v -> load32 (store32 m a v) a = v.
Proof.
  intros Hv. unfold load32, store32. rewrite !load8_store8.
  repeat case_decide; try lia. unfold u8, is_u32 in *.
  Z.to_euclidean_division_equations. lia.
Qed.

Lemma load32_ext m m' a :
  (forall b, a <= b < a + 4 -> load8 m b = load8 m' b) -> load32 m a = load32 m' a.
Proof. intros E. unfold load32. rewrite !E by lia. done. Qed.

Lemma load32_store32_ne m a b v :
  b + 4 <= a \/ a + 4 <= b -> load32 (store32 m a v) b = load32 m b.
Proof. intros. apply load32_ext. intros. apply load8_store32_ne. lia. Qed.

Lemma length_read_bytes m a n : length (read_bytes m a n) = n.
Proof. revert a. induction n; simpl; auto. Qed.

Lemma read_bytes_ext m m' a n :
  (forall b, a <= b < a + Z.of_nat n -> load8 m b = load8 m' b) ->
  read_bytes m a n = read_bytes m' a n.
Proof.
  revert a. induction n as [|n IH]; intros a E; simpl; [done|].
  rewrite E by lia. f_equal. apply IH. intros. apply E. lia.
Qed.

Lemma read_bytes_app m a n k :
  read_bytes m a (n + k) = read_bytes m a n ++ read_bytes m (a + Z.of_nat n) k.
Proof.
  revert a. induction n as [|n IH]; intros a; simpl; [by rewrite Z.add_0_r|].
  rewrite IH. do 3 f_equal. lia.
Qed.

Lemma read_bytes_is_byte m a n : Forall is_byte (read_bytes m a n).
Proof. revert a. induction n; constructor; auto using load8_range. Qed.

Lemma load8_write_bytes_ne m a l b :
  b < a \/ a + Z.of_nat (length l) <= b -> load8 (write_bytes m a l) b = load8 m b.
Proof.
  revert m a. induction l as [|v l IH]; intros m a Hb; simpl in *; [done|].
  rewrite IH by lia. rewrite load8_store8. case_decide; [lia|done].
Qed.

Lemma load8_write_bytes m a l b :
  load8 (write_bytes m a l) b =
  if decide (a <= b < a + Z.of_nat (length l)) then u8 (nth (Z.to_nat (b - a)) l 0) else load8 m b.
Proof.
  revert m a. induction l as [|v l IH]; intros m a; cbn [write_bytes length].
  - case_decide; [lia|done].
  - rewrite IH, load8_store8. repeat case_decide; try lia; try done.
    + replace (Z.to_nat (b - a)) with (S (Z.to_nat (b - (a + 1)))) by lia. done.
    + subst. by rewrite Z.sub_diag.
Qed.

Lemma read_write_bytes m a l :
  Forall is_byte l -> read_bytes (write_bytes m a l) a (length l) = l.
Proof.
  revert m a. induction l as [|v l IH]; intros m a Hl; simpl; [done|].
  inversion Hl as [|?? Hv Hl']; subst. rewrite IH by done. f_equal.
  rewrite load8_write_bytes_ne by lia. rewrite load8_store8, decide_True by done.
  apply Z.mod_small, Hv.
Qed.

Lemma read_bytes_write_ne m a n b l :
  a + Z.of_nat n <= b \/ b + Z.of_nat (length l) <= a ->
  read_bytes (write_bytes m b l) a n = read_bytes m a n.
Proof. intros. apply read_bytes_ext. intros. apply load8_write_bytes_ne. lia. Qed.

Lemma read_bytes_store32_ne m a n b v :
  a + Z.of_nat n <= b \/ b + 4 <= a ->
  read_bytes (store32 m b v) a n = read_bytes m a n.
Proof. intros. apply read_bytes_ext. intros. apply load8_store32_ne. lia. Qed.

Lemma load32_write_bytes_ne m a l b :
  b + 4 <= a \/ a + Z.of_nat (length l) <= b ->
  load32 (write_bytes m a l) b = load32 m b.
Proof. intros. apply load32_ext. intros. apply load8_write_bytes_ne. lia. Qed.

Lemma read_bytes_eq m a l :
  (forall i v, l !! i = Some v -> load8 m (a + Z.of_nat i) = v) -> read_bytes m a (length l) = l.
Proof.
  revert a. induction l as [|v l IH]; intros a H; simpl; [done|]. f_equal.
  - rewrite <- (Z.add_0_r a). by apply (H 0%nat).
  - apply IH. intros i w Hi. specialize (H (S i) w Hi). rewrite <- H. f_equal. lia.
Qed.

Lemma lookup_read_bytes m a n i v :
  read_bytes m a n !! i = Some v <-> (i < n)%nat /\ load8 m (a + Z.of_nat i) = v.
Proof.
  revert a i. induction n as [|n IH]; intros a i; simpl; [split; [done|lia]|].
  destruct i as [|i]; simpl.
  - rewrite Z.add_0_r. split; [intros [= <-]; split; [lia|done]|by intros [_ ->]].
  - rewrite IH. replace (a + 1 + Z.of_nat i) with (a + Z.of_nat (S i)) by lia.
    split; intros [? ?]; (split; [lia|done]).
Qed.

Lemma take_read_bytes m a n k : (k <= n)%nat -> take k (read_bytes m a n) = read_bytes m a k.
Proof.
  revert a n. induction k as [|k IH]; intros a n Hk; [done|]. destruct n as [|n]; [lia|]. cbn. by rewrite IH by lia.
Qed.
Lemma drop_read_bytes m a n k : (k <= n)%nat -> drop k (read_bytes m a n) = read_bytes m (a + Z.of_nat k) (n - k).
Proof.
  intros Hk. replace n with (k + (n - k))%nat at 1 by lia. rewrite read_bytes_app.
  by rewrite drop_app_length' by (by rewrite length_read_bytes).
Qed.
Lemma read_bytes_at m m' a a' n : (forall i, 0 <= i < Z.of_nat n -> load8 m (a + i) = load8 m' (a' + i)) ->
  read_bytes m a n = read_bytes m' a' n.
Proof.
  revert a a'. induction n as [|n IH]; intros a a' E; [done|]. cbn. f_equal.
  - specialize (E 0 ltac:(lia)). by rewrite !Z.add_0_r in E.
  - apply IH. intros i Hi. specialize (E (1 + i) ltac:(lia)). by rewrite !Z.add_assoc in E.
Qed.

(** [memcpy] out of a caller's buffer. *)
Lemma load8_memcpy_ne m dst src n b :
  b < dst \/ dst + n <= b -> 0 <= n -> load8 (memcpy m dst src n) b = load8 m b.
Proof.
  intros. unfold memcpy. apply load8_write_bytes_ne. rewrite length_read_bytes. lia.
Qed.

Lemma read_bytes_memcpy m dst src n :
  0 <= n ->
  read_bytes (memcpy m dst src n) dst (Z.to_nat n) = read_bytes m src (Z.to_nat n).
Proof.
  intros. unfold memcpy.
  rewrite <- (length_read_bytes m src (Z.to_nat n)) at 2.
  apply read_write_bytes, read_bytes_is_byte.
Qed.
End bytes.
