(* ===== verification/Ringbuf.v ===== *)
(** * Ring buffer ([components/esp_ringbuf/ringbuf.c])

    The three kinds of ring buffer: no-split, allow-split and byte buffer.  The
    control structure is the record [Ringbuffer_t]; the storage area is the part
    [pucHead .. pucTail) of the byte memory [rb_mem], with the item headers laid
    out in it as the code does.  The function pointers of the control structure
    are represented by the buffer type they are chosen by ([xType]).  The two
    binary semaphores are booleans; blocking on them is modelled by a schedule
    (see [wake]). *)
From S2P Require Import Prelude Mem.

Inductive RingbufferType_t := RINGBUF_TYPE_NOSPLIT | RINGBUF_TYPE_ALLOWSPLIT | RINGBUF_TYPE_BYTEBUF.

Definition rbALIGN_SIZE (xSize : Z) : Z := align_up 4 xSize.
Definition rbCHECK_ALIGNED (p : Z) : bool := word_aligned p.

Definition rbALLOW_SPLIT_FLAG := 1.
Definition rbBYTE_BUFFER_FLAG := 2.
Definition rbBUFFER_FULL_FLAG := 4.
Definition rbBUFFER_STATIC_FLAG := 8.

Definition rbITEM_FREE_FLAG := 1.
Definition rbITEM_DUMMY_DATA_FLAG := 2.
Definition rbITEM_SPLIT_FLAG := 4.
Definition rbITEM_WRITTEN_FLAG := 8.

Definition rbHEADER_SIZE := 8.

Record Ringbuffer_t := mkRingbuffer {
  xSize : Z;
  xMaxItemSize : Z;
  uxRingbufferFlags : Z;
  xType : RingbufferType_t;
  pucAcquire : Z;
  pucWrite : Z;
  pucRead : Z;
  pucFree : Z;
  pucHead : Z;
  pucTail : Z;
  xItemsWaiting : Z;
  xTransSem : bool;
  xRecvSem : bool;
  rb_mem : mem
}.
#[export] Instance rebuild_Ringbuffer : Rebuild Ringbuffer_t := fun r =>
  mkRingbuffer (xSize r) (xMaxItemSize r) (uxRingbufferFlags r) (xType r) (pucAcquire r)
    (pucWrite r) (pucRead r) (pucFree r) (pucHead r) (pucTail r) (xItemsWaiting r)
    (xTransSem r) (xRecvSem r) (rb_mem r).

(** ItemHeader_t at address [p] *)
Definition xItemLen (rb : Ringbuffer_t) (p : Z) : Z := load32 (rb_mem rb) p.
Definition uxItemFlags (rb : Ringbuffer_t) (p : Z) : Z := load32 (rb_mem rb) (p + 4).
Definition set_xItemLen (p v : Z) (rb : Ringbuffer_t) : Ringbuffer_t :=
  rb <| rb_mem := store32 (rb_mem rb) p v |>.
Definition set_uxItemFlags (p v : Z) (rb : Ringbuffer_t) : Ringbuffer_t :=
  rb <| rb_mem := store32 (rb_mem rb) (p + 4) v |>.

Definition rb_full (rb : Ringbuffer_t) : bool := flag (uxRingbufferFlags rb) rbBUFFER_FULL_FLAG.
Definition set_full (rb : Ringbuffer_t) : Ringbuffer_t :=
  rb <| uxRingbufferFlags := Z.lor (uxRingbufferFlags rb) rbBUFFER_FULL_FLAG |>.
Definition clear_full (rb : Ringbuffer_t) : Ringbuffer_t :=
  rb <| uxRingbufferFlags := Z.ldiff (uxRingbufferFlags rb) rbBUFFER_FULL_FLAG |>.

(** ** Initialisation *)

Definition prvInitializeNewRingbuffer (xBufferSize : Z) (xBufferType : RingbufferType_t)
    (pucRingbufferStorage : Z) (m : mem) : Ringbuffer_t :=
  {| xSize := xBufferSize;
     xMaxItemSize :=
       match xBufferType with
       | RINGBUF_TYPE_NOSPLIT => u32 (rbALIGN_SIZE (xBufferSize / 2) - rbHEADER_SIZE)
       | RINGBUF_TYPE_ALLOWSPLIT => u32 (xBufferSize - rbHEADER_SIZE * 2)
       | RINGBUF_TYPE_BYTEBUF => xBufferSize
       end;
     uxRingbufferFlags :=
       match xBufferType with
       | RINGBUF_TYPE_NOSPLIT => 0
       | RINGBUF_TYPE_ALLOWSPLIT => Z.lor 0 rbALLOW_SPLIT_FLAG
       | RINGBUF_TYPE_BYTEBUF => Z.lor 0 rbBYTE_BUFFER_FLAG
       end;
     xType := xBufferType;
     pucAcquire := pucRingbufferStorage;
     pucWrite := pucRingbufferStorage;
     pucRead := pucRingbufferStorage;
     pucFree := pucRingbufferStorage;
     pucHead := pucRingbufferStorage;
     pucTail := pucRingbufferStorage + xBufferSize;
     xItemsWaiting := 0;
     xTransSem := true;   (* xSemaphoreGive *)
     xRecvSem := false;
     rb_mem := m |}.

(** [xRingbufferCreate]; [malloc n] is the address of a fresh block of [n] bytes
    or 0. *)
Definition xRingbufferCreate (ctrl : Z) (malloc : Z -> Z) (m : mem)
    (xBufferSize : Z) (xBufferType : RingbufferType_t) : outcome (option Ringbuffer_t) :=
  cassert (0 <? xBufferSize);;
  let xBufferSize :=
    match xBufferType with
    | RINGBUF_TYPE_BYTEBUF => xBufferSize
    | _ => rbALIGN_SIZE xBufferSize
    end in
  let pucRingbufferStorage := malloc xBufferSize in
  if (ctrl =? 0) || (pucRingbufferStorage =? 0) then Ok None
  else Ok (Some (prvInitializeNewRingbuffer xBufferSize xBufferType pucRingbufferStorage m)).

Definition xRingbufferCreateNoSplit (ctrl : Z) (malloc : Z -> Z) (m : mem)
    (xItemSize xItemNum : Z) : outcome (option Ringbuffer_t) :=
  xRingbufferCreate ctrl malloc m
    (u32 (u32 (rbALIGN_SIZE xItemSize + rbHEADER_SIZE) * xItemNum)) RINGBUF_TYPE_NOSPLIT.

Definition xRingbufferCreateStatic (m : mem) (xBufferSize : Z) (xBufferType : RingbufferType_t)
    (pucRingbufferStorage : Z) (pxStaticRingbuffer : Z) : outcome Ringbuffer_t :=
  cassert (0 <? xBufferSize);;
  cassert (negb (pucRingbufferStorage =? 0) && negb (pxStaticRingbuffer =? 0));;
  (match xBufferType with
   | RINGBUF_TYPE_BYTEBUF => Ok tt
   | _ => cassert (rbCHECK_ALIGNED xBufferSize)
   end);;
  let rb := prvInitializeNewRingbuffer xBufferSize xBufferType pucRingbufferStorage m in
  Ok (rb <| uxRingbufferFlags := Z.lor (uxRingbufferFlags rb) rbBUFFER_STATIC_FLAG |>).

(** ** Free space *)

Definition prvGetFreeSize (rb : Ringbuffer_t) : outcome Z :=
  let xReturn :=
    if rb_full rb then 0
    else
      let xFreeSize := s32 (pucFree rb - pucAcquire rb) in
      if xFreeSize <=? 0 then u32 (xFreeSize + xSize rb) else u32 xFreeSize in
  cassert (xReturn <=? xSize rb);;
  Ok xReturn.

Definition acquire_in_bounds (rb : Ringbuffer_t) : bool :=
  (pucHead rb <=? pucAcquire rb) && (pucAcquire rb <? pucTail rb).

Definition prvCheckItemFitsDefault (rb : Ringbuffer_t) (xItemSize : Z) : outcome bool :=
  cassert (rbCHECK_ALIGNED (pucAcquire rb));;
  cassert (acquire_in_bounds rb);;
  let xTotalItemSize := u32 (rbALIGN_SIZE xItemSize + rbHEADER_SIZE) in
  Ok (if pucAcquire rb =? pucFree rb then negb (rb_full rb)
      else if pucAcquire rb <? pucFree rb then
        xTotalItemSize <=? u32 (pucFree rb - pucAcquire rb)
      else if xTotalItemSize <=? u32 (pucTail rb - pucAcquire rb) then true
      else if flag (uxRingbufferFlags rb) rbALLOW_SPLIT_FLAG then
        u32 (xTotalItemSize + rbHEADER_SIZE) <=? u32 (xSize rb - (pucAcquire rb - pucFree rb))
      else xTotalItemSize <=? u32 (pucFree rb - pucHead rb)).

Definition prvCheckItemFitsByteBuffer (rb : Ringbuffer_t) (xItemSize : Z) : outcome bool :=
  cassert (acquire_in_bounds rb);;
  Ok (if pucAcquire rb =? pucFree rb then negb (rb_full rb)
      else if pucAcquire rb <? pucFree rb then
        xItemSize <=? u32 (pucFree rb - pucAcquire rb)
      else xItemSize <=? u32 (xSize rb - (pucAcquire rb - pucFree rb))).

Definition xCheckItemFits (rb : Ringbuffer_t) (xItemSize : Z) : outcome bool :=
  match xType rb with
  | RINGBUF_TYPE_BYTEBUF => prvCheckItemFitsByteBuffer rb xItemSize
  | _ => prvCheckItemFitsDefault rb xItemSize
  end.

(** ** Sending *)

(** Wrap a pointer to the head of the buffer when no header fits behind it. *)
Definition wraps (rb : Ringbuffer_t) (p : Z) : bool := u32 (pucTail rb - p) <? rbHEADER_SIZE.

Definition check_full (rb : Ringbuffer_t) : Ringbuffer_t :=
  if pucAcquire rb =? pucFree rb then set_full rb else rb.

Definition prvAcquireItemNoSplit (xItemSize : Z) (rb : Ringbuffer_t) : outcome (Z * Ringbuffer_t) :=
  let xAlignedItemSize := rbALIGN_SIZE xItemSize in
  let xRemLen := u32 (pucTail rb - pucAcquire rb) in
  cassert (rbCHECK_ALIGNED (pucAcquire rb));;
  cassert (acquire_in_bounds rb);;
  cassert (rbHEADER_SIZE <=? xRemLen);;
  let rb :=
    if xRemLen <? u32 (xAlignedItemSize + rbHEADER_SIZE) then
      let rb := set_uxItemFlags (pucAcquire rb) rbITEM_DUMMY_DATA_FLAG rb in
      let rb := set_xItemLen (pucAcquire rb) 0 rb in
      rb <| pucAcquire := pucHead rb |>
    else rb in
  let rb := set_xItemLen (pucAcquire rb) xItemSize rb in
  let rb := set_uxItemFlags (pucAcquire rb) 0 rb in
  let item_address := pucAcquire rb + rbHEADER_SIZE in
  let rb := rb <| pucAcquire := pucAcquire rb + (rbHEADER_SIZE + xAlignedItemSize) |> in
  let rb := if wraps rb (pucAcquire rb) then rb <| pucAcquire := pucHead rb |> else rb in
  Ok (item_address, check_full rb).

(** The loop of [prvSendItemDoneNoSplit] that moves [pucWrite] over the items
    that are written and over dummy data. *)
Fixpoint advance_write (fuel : nat) (rb : Ringbuffer_t) : outcome Ringbuffer_t :=
  match fuel with
  | O => OutOfFuel
  | S fuel =>
      let fl := uxItemFlags rb (pucWrite rb) in
      if (flag fl rbITEM_WRITTEN_FLAG || flag fl rbITEM_DUMMY_DATA_FLAG)
         && negb (pucWrite rb =? pucAcquire rb) then
        rb ← (if flag fl rbITEM_DUMMY_DATA_FLAG then
                let rb := set_uxItemFlags (pucWrite rb) (Z.lor fl rbITEM_WRITTEN_FLAG) rb in
                Ok (rb <| pucWrite := pucHead rb |>)
              else
                let xAlignedItemSize := rbALIGN_SIZE (xItemLen rb (pucWrite rb)) in
                let rb := rb <| pucWrite := pucWrite rb + (xAlignedItemSize + rbHEADER_SIZE) |> in
                cassert (pucWrite rb <=? pucHead rb + xSize rb);;
                Ok rb);
        advance_write fuel
          (if wraps rb (pucWrite rb) then rb <| pucWrite := pucHead rb |> else rb)
      else Ok rb
  end.

(** Every turn of the loop moves the pointer by at least a header or wraps it,
    so a turn per word of the buffer is enough. *)
Definition rb_fuel (rb : Ringbuffer_t) : nat := Z.to_nat (xSize rb) + 2.

Definition prvSendItemDoneNoSplit (pucItem : Z) (rb : Ringbuffer_t) : outcome Ringbuffer_t :=
  cassert (rbCHECK_ALIGNED pucItem);;
  cassert (pucHead rb <=? pucItem);;
  cassert (pucItem <=? pucTail rb);;
  let pxCurHeader := pucItem - rbHEADER_SIZE in
  cassert (xItemLen rb pxCurHeader <=? xMaxItemSize rb);;
  cassert (negb (flag (uxItemFlags rb pxCurHeader) rbITEM_DUMMY_DATA_FLAG));;
  cassert (negb (flag (uxItemFlags rb pxCurHeader) rbITEM_WRITTEN_FLAG));;
  let rb := set_uxItemFlags pxCurHeader (Z.ldiff (uxItemFlags rb pxCurHeader) rbITEM_SPLIT_FLAG) rb in
  let rb := set_uxItemFlags pxCurHeader (Z.lor (uxItemFlags rb pxCurHeader) rbITEM_WRITTEN_FLAG) rb in
  let rb := rb <| xItemsWaiting := xItemsWaiting rb + 1 |> in
  advance_write (rb_fuel rb) rb.

(** An item is given by its bytes; [memcpy(dst, pucItem, n)]. *)
Definition copy_in (dst : Z) (bytes : list Z) (rb : Ringbuffer_t) : Ringbuffer_t :=
  rb <| rb_mem := write_bytes (rb_mem rb) dst bytes |>.

Definition prvCopyItemNoSplit (pucItem : list Z) (rb : Ringbuffer_t) : outcome Ringbuffer_t :=
  '(item_addr, rb) ← prvAcquireItemNoSplit (Z.of_nat (length pucItem)) rb;
  prvSendItemDoneNoSplit item_addr (copy_in item_addr pucItem rb).

Definition prvCopyItemAllowSplit (pucItem : list Z) (rb : Ringbuffer_t) : outcome Ringbuffer_t :=
  let xItemSize := Z.of_nat (length pucItem) in
  let xAlignedItemSize := rbALIGN_SIZE xItemSize in
  let xRemLen := u32 (pucTail rb - pucAcquire rb) in
  cassert (rbCHECK_ALIGNED (pucAcquire rb));;
  cassert (acquire_in_bounds rb);;
  cassert (rbHEADER_SIZE <=? xRemLen);;
  let '(rb, pucItem, xItemSize, xAlignedItemSize) :=
    if xRemLen <? u32 (xAlignedItemSize + rbHEADER_SIZE) then
      let pxFirstHeader := pucAcquire rb in
      let rb := set_uxItemFlags pxFirstHeader 0 rb in
      let rb := set_xItemLen pxFirstHeader (xRemLen - rbHEADER_SIZE) rb in
      let rb := rb <| pucAcquire := pucAcquire rb + rbHEADER_SIZE |> in
      let xRemLen := xRemLen - rbHEADER_SIZE in
      let '(rb, pucItem, xItemSize, xAlignedItemSize) :=
        if 0 <? xRemLen then
          let rb := copy_in (pucAcquire rb) (take (Z.to_nat xRemLen) pucItem) rb in
          let rb := rb <| xItemsWaiting := xItemsWaiting rb + 1 |> in
          let rb := set_uxItemFlags pxFirstHeader
                      (Z.lor (uxItemFlags rb pxFirstHeader) rbITEM_SPLIT_FLAG) rb in
          (rb, drop (Z.to_nat xRemLen) pucItem, u32 (xItemSize - xRemLen),
           u32 (xAlignedItemSize - xRemLen))
        else
          (set_uxItemFlags pxFirstHeader
             (Z.lor (uxItemFlags rb pxFirstHeader) rbITEM_DUMMY_DATA_FLAG) rb,
           pucItem, xItemSize, xAlignedItemSize) in
      (rb <| pucAcquire := pucHead rb |>, pucItem, xItemSize, xAlignedItemSize)
    else (rb, pucItem, xItemSize, xAlignedItemSize) in
  let pxSecondHeader := pucAcquire rb in
  let rb := set_xItemLen pxSecondHeader xItemSize rb in
  let rb := set_uxItemFlags pxSecondHeader 0 rb in
  let rb := rb <| pucAcquire := pucAcquire rb + rbHEADER_SIZE |> in
  let rb := copy_in (pucAcquire rb) pucItem rb in
  let rb := rb <| xItemsWaiting := xItemsWaiting rb + 1 |> in
  let rb := rb <| pucAcquire := pucAcquire rb + xAlignedItemSize |> in
  let rb := if wraps rb (pucAcquire rb) then rb <| pucAcquire := pucHead rb |> else rb in
  let rb := check_full rb in
  Ok (rb <| pucWrite := pucAcquire rb |>).

Definition prvCopyItemByteBuf (pucItem : list Z) (rb : Ringbuffer_t) : outcome Ringbuffer_t :=
  let xItemSize := Z.of_nat (length pucItem) in
  cassert (acquire_in_bounds rb);;
  let xRemLen := u32 (pucTail rb - pucAcquire rb) in
  let '(rb, pucItem, xItemSize) :=
    if xRemLen <? xItemSize then
      let rb := copy_in (pucAcquire rb) (take (Z.to_nat xRemLen) pucItem) rb in
      let rb := rb <| xItemsWaiting := xItemsWaiting rb + xRemLen |> in
      (rb <| pucAcquire := pucHead rb |>, drop (Z.to_nat xRemLen) pucItem, xItemSize - xRemLen)
    else (rb, pucItem, xItemSize) in
  let rb := copy_in (pucAcquire rb) pucItem rb in
  let rb := rb <| xItemsWaiting := xItemsWaiting rb + xItemSize |> in
  let rb := rb <| pucAcquire := pucAcquire rb + xItemSize |> in
  let rb := if pucAcquire rb =? pucTail rb then rb <| pucAcquire := pucHead rb |> else rb in
  let rb := check_full rb in
  Ok (rb <| pucWrite := pucAcquire rb |>).

Definition vCopyItem (rb : Ringbuffer_t) (pucItem : list Z) : outcome Ringbuffer_t :=
  match xType rb with
  | RINGBUF_TYPE_NOSPLIT => prvCopyItemNoSplit pucItem rb
  | RINGBUF_TYPE_ALLOWSPLIT => prvCopyItemAllowSplit pucItem rb
  | RINGBUF_TYPE_BYTEBUF => prvCopyItemByteBuf pucItem rb
  end.

(** ** Receiving and returning *)

Definition data_waiting (rb : Ringbuffer_t) : bool :=
  (0 <? xItemsWaiting rb) && (negb (pucRead rb =? pucWrite rb) || rb_full rb).

Definition prvCheckItemAvail (rb : Ringbuffer_t) : bool :=
  if flag (uxRingbufferFlags rb) rbBYTE_BUFFER_FLAG && negb (pucRead rb =? pucFree rb)
  then false
  else data_waiting rb.

(** The retrieved item: its address and size, and whether it is the first part
    of a split item. *)
Record item := mkItem { it_addr : Z; it_size : Z; it_split : bool }.

(** [prvGetItemDefault] from the point where [pucRead] is known not to rest on
    dummy data. *)
Definition get_item_at_read (rb : Ringbuffer_t) : outcome (item * Ringbuffer_t) :=
  let pxHeader := pucRead rb in
  let pcReturn := pucRead rb + rbHEADER_SIZE in
  cassert (if xItemLen rb pxHeader =? 0
           then (pucHead rb <=? pcReturn) && (pcReturn <=? pucTail rb)
           else (pucHead rb <=? pcReturn) && (pcReturn <? pucTail rb));;
  let it := {| it_addr := pcReturn; it_size := xItemLen rb pxHeader;
               it_split := flag (uxItemFlags rb pxHeader) rbITEM_SPLIT_FLAG |} in
  let rb := rb <| xItemsWaiting := xItemsWaiting rb - 1 |> in
  let rb := rb <| pucRead := pucRead rb + (rbHEADER_SIZE + rbALIGN_SIZE (xItemLen rb pxHeader)) |> in
  let rb := if wraps rb (pucRead rb) then rb <| pucRead := pucHead rb |> else rb in
  Ok (it, rb).

Definition prvGetItemDefault (rb : Ringbuffer_t) : outcome (item * Ringbuffer_t) :=
  cassert (data_waiting rb);;
  cassert (rbCHECK_ALIGNED (pucRead rb));;
  cassert ((pucHead rb <=? pucRead rb) && (pucRead rb <? pucTail rb));;
  cassert ((xItemLen rb (pucRead rb) <=? xMaxItemSize rb)
           || flag (uxItemFlags rb (pucRead rb)) rbITEM_DUMMY_DATA_FLAG);;
  if flag (uxItemFlags rb (pucRead rb)) rbITEM_DUMMY_DATA_FLAG then
    let rb := rb <| pucRead := pucHead rb |> in
    cassert (xItemLen rb (pucRead rb) <=? xMaxItemSize rb);;
    get_item_at_read rb
  else get_item_at_read rb.

Definition prvGetItemByteBuf (xMaxSize : Z) (rb : Ringbuffer_t) : outcome (item * Ringbuffer_t) :=
  cassert (data_waiting rb);;
  cassert ((pucHead rb <=? pucRead rb) && (pucRead rb <? pucTail rb));;
  cassert (pucRead rb =? pucFree rb);;
  let ret := pucRead rb in
  if (pucWrite rb <? pucRead rb) || rb_full rb then
    let n := u32 (pucTail rb - pucRead rb) in
    if (xMaxSize =? 0) || (n <=? xMaxSize) then
      Ok (mkItem ret n false,
          rb <| xItemsWaiting := xItemsWaiting rb - n |> <| pucRead := pucHead rb |>)
    else
      Ok (mkItem ret xMaxSize false,
          rb <| xItemsWaiting := xItemsWaiting rb - xMaxSize |> <| pucRead := pucRead rb + xMaxSize |>)
  else
    let n := u32 (pucWrite rb - pucRead rb) in
    if (xMaxSize =? 0) || (n <=? xMaxSize) then
      Ok (mkItem ret n false,
          rb <| xItemsWaiting := xItemsWaiting rb - n |> <| pucRead := pucWrite rb |>)
    else
      Ok (mkItem ret xMaxSize false,
          rb <| xItemsWaiting := xItemsWaiting rb - xMaxSize |> <| pucRead := pucRead rb + xMaxSize |>).

Definition pvGetItem (rb : Ringbuffer_t) (xMaxSize : Z) : outcome (item * Ringbuffer_t) :=
  match xType rb with
  | RINGBUF_TYPE_BYTEBUF => prvGetItemByteBuf xMaxSize rb
  | _ => prvGetItemDefault rb
  end.

(** The loop of [prvReturnItemDefault] that moves [pucFree] over the items that
    are returned and over dummy data. *)
Fixpoint advance_free (fuel : nat) (rb : Ringbuffer_t) : outcome Ringbuffer_t :=
  match fuel with
  | O => OutOfFuel
  | S fuel =>
      let fl := uxItemFlags rb (pucFree rb) in
      if (flag fl rbITEM_FREE_FLAG || flag fl rbITEM_DUMMY_DATA_FLAG)
         && negb (pucFree rb =? pucRead rb) then
        rb ← (if flag fl rbITEM_DUMMY_DATA_FLAG then
                let rb := set_uxItemFlags (pucFree rb) (Z.lor fl rbITEM_FREE_FLAG) rb in
                Ok (rb <| pucFree := pucHead rb |>)
              else
                let xAlignedItemSize := rbALIGN_SIZE (xItemLen rb (pucFree rb)) in
                let rb := rb <| pucFree := pucFree rb + (xAlignedItemSize + rbHEADER_SIZE) |> in
                cassert (pucFree rb <=? pucHead rb + xSize rb);;
                Ok rb);
        advance_free fuel
          (if wraps rb (pucFree rb) then rb <| pucFree := pucHead rb |> else rb)
      else Ok rb
  end.

Definition prvReturnItemDefault (pucItem : Z) (rb : Ringbuffer_t) : outcome Ringbuffer_t :=
  cassert (rbCHECK_ALIGNED pucItem);;
  cassert (pucHead rb <=? pucItem);;
  cassert (pucItem <=? pucTail rb);;
  let pxCurHeader := pucItem - rbHEADER_SIZE in
  cassert (xItemLen rb pxCurHeader <=? xMaxItemSize rb);;
  cassert (negb (flag (uxItemFlags rb pxCurHeader) rbITEM_DUMMY_DATA_FLAG));;
  cassert (negb (flag (uxItemFlags rb pxCurHeader) rbITEM_FREE_FLAG));;
  let rb := set_uxItemFlags pxCurHeader (Z.ldiff (uxItemFlags rb pxCurHeader) rbITEM_SPLIT_FLAG) rb in
  let rb := set_uxItemFlags pxCurHeader (Z.lor (uxItemFlags rb pxCurHeader) rbITEM_FREE_FLAG) rb in
  rb ← advance_free (rb_fuel rb) rb;
  Ok (if rb_full rb then
        if negb (pucFree rb =? pucAcquire rb) then clear_full rb
        else if (pucFree rb =? pucAcquire rb) && (pucFree rb =? pucRead rb) then clear_full rb
        else rb
      else rb).

Definition prvReturnItemByteBuf (pucItem : Z) (rb : Ringbuffer_t) : outcome Ringbuffer_t :=
  cassert (pucHead rb <=? pucItem);;
  cassert (pucItem <? pucTail rb);;
  let rb := rb <| pucFree := pucRead rb |> in
  Ok (if rb_full rb then clear_full rb else rb).

Definition vReturnItem (rb : Ringbuffer_t) (pucItem : Z) : outcome Ringbuffer_t :=
  match xType rb with
  | RINGBUF_TYPE_BYTEBUF => prvReturnItemByteBuf pucItem rb
  | _ => prvReturnItemDefault pucItem rb
  end.

(** ** Current maximum item size *)

(** [xFreeSize] is a signed [BaseType_t]; it is compared with the unsigned
    [xMaxItemSize] only when it is not negative. *)
Definition clamp_max (xFreeSize xMaxItemSize : Z) : Z :=
  if xFreeSize <? 0 then 0
  else if xMaxItemSize <? u32 xFreeSize then xMaxItemSize
  else u32 xFreeSize.

Definition prvGetCurMaxSizeNoSplit (rb : Ringbuffer_t) : Z :=
  if rb_full rb then 0
  else
    let xFreeSize :=
      if pucAcquire rb <? pucFree rb then s32 (pucFree rb - pucAcquire rb)
      else
        let xSize1 := u32 (pucTail rb - pucAcquire rb) in
        let xSize2 := u32 (pucFree rb - pucHead rb) in
        s32 (if xSize2 <? xSize1 then xSize1 else xSize2) in
    clamp_max (s32 (xFreeSize - rbHEADER_SIZE)) (xMaxItemSize rb).

Definition prvGetCurMaxSizeAllowSplit (rb : Ringbuffer_t) : Z :=
  if rb_full rb then 0
  else
    let xFreeSize :=
      if (pucAcquire rb =? pucHead rb) && (pucFree rb =? pucHead rb) then
        s32 (xSize rb - rbHEADER_SIZE)
      else if pucAcquire rb <? pucFree rb then
        s32 ((pucFree rb - pucAcquire rb) - rbHEADER_SIZE)
      else
        s32 ((pucFree rb - pucHead rb) + (pucTail rb - pucAcquire rb) - rbHEADER_SIZE * 2) in
    clamp_max xFreeSize (xMaxItemSize rb).

Definition prvGetCurMaxSizeByteBuf (rb : Ringbuffer_t) : Z :=
  if rb_full rb then 0
  else
    let xFreeSize := s32 (pucFree rb - pucAcquire rb) in
    u32 (if xFreeSize <=? 0 then s32 (xFreeSize + xSize rb) else xFreeSize).

Definition xRingbufferGetCurFreeSize (rb : Ringbuffer_t) : Z :=
  match xType rb with
  | RINGBUF_TYPE_NOSPLIT => prvGetCurMaxSizeNoSplit rb
  | RINGBUF_TYPE_ALLOWSPLIT => prvGetCurMaxSizeAllowSplit rb
  | RINGBUF_TYPE_BYTEBUF => prvGetCurMaxSizeByteBuf rb
  end.

Definition xRingbufferGetMaxItemSize (rb : Ringbuffer_t) : Z := xMaxItemSize rb.

(** [vRingbufferGetInfo]: free, read, write and acquire offsets, items waiting. *)
Definition vRingbufferGetInfo (rb : Ringbuffer_t) : Z * Z * Z * Z * Z :=
  (u32 (pucFree rb - pucHead rb), u32 (pucRead rb - pucHead rb), u32 (pucWrite rb - pucHead rb),
   u32 (pucAcquire rb - pucHead rb), u32 (xItemsWaiting rb)).

(** ** Critical sections of the API

    What one pass through the critical section of a send or a receive does once
    the semaphore has been obtained. *)

Definition give_tx (rb : Ringbuffer_t) : Ringbuffer_t := rb <| xTransSem := true |>.
Definition give_rx (rb : Ringbuffer_t) : Ringbuffer_t := rb <| xRecvSem := true |>.

(** Receive: the first item, and the second part when the caller asked for both
    parts of a split item ([want_split] is [pvItem2 != NULL && xItemSize2 != NULL]). *)
Definition receive_items (want_split : bool) (xMaxSize : Z) (rb : Ringbuffer_t)
    : outcome (item * option item * Ringbuffer_t) :=
  '(it1, rb) ← (if flag (uxRingbufferFlags rb) rbBYTE_BUFFER_FLAG
                then pvGetItem rb xMaxSize else pvGetItem rb 0);
  if flag (uxRingbufferFlags rb) rbALLOW_SPLIT_FLAG && want_split then
    if it_split it1 then
      '(it2, rb) ← pvGetItem rb 0;
      cassert (it_addr it2 <? it_addr it1);;
      cassert (negb (it_split it2));;
      Ok (it1, Some it2, rb)
    else Ok (it1, None, rb)
  else Ok (it1, None, rb).

Definition prvReceiveGenericFromISR (want_split : bool) (xMaxSize : Z) (rb : Ringbuffer_t)
    : outcome (option (item * option item) * Ringbuffer_t) :=
  if prvCheckItemAvail rb then
    '(it1, it2, rb) ← receive_items want_split xMaxSize rb;
    Ok (Some (it1, it2), if 0 <? xItemsWaiting rb then give_rx rb else rb)
  else Ok (None, rb).

Definition xRingbufferSendFromISR (pvItem : list Z) (rb : Ringbuffer_t)
    : outcome (bool * Ringbuffer_t) :=
  let xItemSize := Z.of_nat (length pvItem) in
  if xMaxItemSize rb <? xItemSize then Ok (false, rb)
  else if flag (uxRingbufferFlags rb) rbBYTE_BUFFER_FLAG && (xItemSize =? 0) then Ok (true, rb)
  else
    fits ← xCheckItemFits rb xItemSize;
    if fits : bool then
      rb ← vCopyItem rb pvItem;
      free ← prvGetFreeSize rb;
      Ok (true, give_rx (if 0 <? free then give_tx rb else rb))
    else Ok (false, rb).

(** ** Blocking

    A task that waits on a semaphore is woken by other tasks.  A [wake] is one
    successful [xSemaphoreTake]: what the other tasks did to the ring buffer
    since the caller last left the critical section, and the tick count read
    when the caller leaves it again.  When the list is exhausted the take times
    out. *)
Record wake := mkWake { w_env : Ringbuffer_t -> Ringbuffer_t; w_tick : Z }.
Definition portMAX_DELAY : Z := 2 ^ 32 - 1.

Definition ticks_left (xTicksToWait xTicksEnd now xTicksRemaining : Z) : Z :=
  if xTicksToWait =? portMAX_DELAY then xTicksRemaining else u32 (xTicksEnd - now).

Fixpoint receive_loop (ws : list wake) (want_split : bool) (xMaxSize : Z)
    (xTicksToWait xTicksEnd xTicksRemaining : Z) (rb : Ringbuffer_t)
    : outcome (option (item * option item) * Ringbuffer_t) :=
  if xTicksRemaining <=? xTicksToWait then
    match ws with
    | [] => Ok (None, rb)
    | w :: ws =>
        let rb := (w_env w rb) <| xRecvSem := false |> in
        if prvCheckItemAvail rb then
          '(it1, it2, rb) ← receive_items want_split xMaxSize rb;
          Ok (Some (it1, it2), if 0 <? xItemsWaiting rb then give_rx rb else rb)
        else
          receive_loop ws want_split xMaxSize xTicksToWait xTicksEnd
            (ticks_left xTicksToWait xTicksEnd (w_tick w) xTicksRemaining) rb
    end
  else Ok (None, rb).

Definition prvReceiveGeneric (now : Z) (ws : list wake) (want_split : bool) (xMaxSize : Z)
    (xTicksToWait : Z) (rb : Ringbuffer_t) : outcome (option (item * option item) * Ringbuffer_t) :=
  receive_loop ws want_split xMaxSize xTicksToWait (u32 (now + xTicksToWait)) xTicksToWait rb.

(** The loop of [xRingbufferSend] and [xRingbufferSendAcquire]; [put] is what is
    done when the item fits. *)
Fixpoint send_loop {A} (put : Ringbuffer_t -> outcome (A * Ringbuffer_t)) (ws : list wake)
    (xItemSize xTicksToWait xTicksEnd xTicksRemaining : Z) (rb : Ringbuffer_t)
    : outcome (option A * Ringbuffer_t) :=
  if xTicksRemaining <=? xTicksToWait then
    match ws with
    | [] => Ok (None, rb)
    | w :: ws =>
        let rb := (w_env w rb) <| xTransSem := false |> in
        fits ← xCheckItemFits rb xItemSize;
        if fits : bool then
          '(a, rb) ← put rb;
          free ← prvGetFreeSize rb;
          Ok (Some a, if 0 <? free then give_tx rb else rb)
        else
          send_loop put ws xItemSize xTicksToWait xTicksEnd
            (ticks_left xTicksToWait xTicksEnd (w_tick w) xTicksRemaining) rb
    end
  else Ok (None, rb).

Definition xRingbufferSend (now : Z) (ws : list wake) (pvItem : list Z) (xTicksToWait : Z)
    (rb : Ringbuffer_t) : outcome (bool * Ringbuffer_t) :=
  let xItemSize := Z.of_nat (length pvItem) in
  if xMaxItemSize rb <? xItemSize then Ok (false, rb)
  else if flag (uxRingbufferFlags rb) rbBYTE_BUFFER_FLAG && (xItemSize =? 0) then Ok (true, rb)
  else
    '(r, rb) ← send_loop (fun rb => rb ← vCopyItem rb pvItem; Ok (tt, rb)) ws xItemSize
                 xTicksToWait (u32 (now + xTicksToWait)) xTicksToWait rb;
    Ok (match r with Some _ => (true, give_rx rb) | None => (false, rb) end).

Definition xRingbufferSendAcquire (now : Z) (ws : list wake) (xItemSize xTicksToWait : Z)
    (rb : Ringbuffer_t) : outcome (option Z * Ringbuffer_t) :=
  cassert (Z.land (uxRingbufferFlags rb) (Z.lor rbBYTE_BUFFER_FLAG rbALLOW_SPLIT_FLAG) =? 0);;
  if xMaxItemSize rb <? xItemSize then Ok (None, rb)
  else if flag (uxRingbufferFlags rb) rbBYTE_BUFFER_FLAG && (xItemSize =? 0) then Ok (None, rb)
  else send_loop (prvAcquireItemNoSplit xItemSize) ws xItemSize
         xTicksToWait (u32 (now + xTicksToWait)) xTicksToWait rb.

Definition xRingbufferSendComplete (pvItem : Z) (rb : Ringbuffer_t) : outcome Ringbuffer_t :=
  cassert (negb (pvItem =? 0));;
  cassert (Z.land (uxRingbufferFlags rb) (Z.lor rbBYTE_BUFFER_FLAG rbALLOW_SPLIT_FLAG) =? 0);;
  rb ← prvSendItemDoneNoSplit pvItem rb;
  Ok (give_rx rb).

(** Address and size of the (first) item received. *)
Definition first_item (r : option (item * option item)) : option (Z * Z) :=
  match r with Some (it, _) => Some (it_addr it, it_size it) | None => None end.

Definition xRingbufferReceive (now : Z) (ws : list wake) (xTicksToWait : Z) (rb : Ringbuffer_t)
    : outcome (option (Z * Z) * Ringbuffer_t) :=
  '(r, rb) ← prvReceiveGeneric now ws false 0 xTicksToWait rb;
  Ok (first_item r, rb).

Definition xRingbufferReceiveFromISR (rb : Ringbuffer_t) : outcome (option (Z * Z) * Ringbuffer_t) :=
  '(r, rb) ← prvReceiveGenericFromISR false 0 rb;
  Ok (first_item r, rb).

Definition xRingbufferReceiveSplit (now : Z) (ws : list wake) (xTicksToWait : Z) (rb : Ringbuffer_t)
    : outcome (option (item * option item) * Ringbuffer_t) :=
  cassert (flag (uxRingbufferFlags rb) rbALLOW_SPLIT_FLAG);;
  prvReceiveGeneric now ws true 0 xTicksToWait rb.

Definition xRingbufferReceiveSplitFromISR (rb : Ringbuffer_t)
    : outcome (option (item * option item) * Ringbuffer_t) :=
  cassert (flag (uxRingbufferFlags rb) rbALLOW_SPLIT_FLAG);;
  prvReceiveGenericFromISR true 0 rb.

Definition xRingbufferReceiveUpTo (now : Z) (ws : list wake) (xTicksToWait xMaxSize : Z)
    (rb : Ringbuffer_t) : outcome (option (Z * Z) * Ringbuffer_t) :=
  cassert (flag (uxRingbufferFlags rb) rbBYTE_BUFFER_FLAG);;
  if xMaxSize =? 0 then Ok (None, rb)
  else
    '(r, rb) ← prvReceiveGeneric now ws false xMaxSize xTicksToWait rb;
    Ok (first_item r, rb).

Definition xRingbufferReceiveUpToFromISR (xMaxSize : Z) (rb : Ringbuffer_t)
    : outcome (option (Z * Z) * Ringbuffer_t) :=
  cassert (flag (uxRingbufferFlags rb) rbBYTE_BUFFER_FLAG);;
  if xMaxSize =? 0 then Ok (None, rb)
  else
    '(r, rb) ← prvReceiveGenericFromISR false xMaxSize rb;
    Ok (first_item r, rb).

Definition vRingbufferReturnItem (pvItem : Z) (rb : Ringbuffer_t) : outcome Ringbuffer_t :=
  cassert (negb (pvItem =? 0));;
  rb ← vReturnItem rb pvItem;
  Ok (give_tx rb).
