(* ===== verification/RingbufByte.v ===== *)
(** * Byte buffers refine a bounded byte queue

    The abstract queue holds the bytes lent to the reader and the bytes still
    queued; [BB rb lent q] says that the ring buffer [rb] represents it. *)
From S2P Require Import Prelude Mem Ringbuf.

(** The bytes at ring offsets [o], [o + 1], ... of the storage. *)
Definition ring_at (rb : Ringbuffer_t) (o : Z) : Z :=
  load8 (rb_mem rb) (pucHead rb + o mod xSize rb).
Definition ring_holds (rb : Ringbuffer_t) (o : Z) (l : list Z) : Prop :=
  forall i v, l !! i = Some v -> ring_at rb (o + Z.of_nat i) = v.

(** Geometry and configuration that no operation changes. *)
Record rb_geom (rb : Ringbuffer_t) : Prop := {
  g_size : 0 < xSize rb < 2 ^ 31;
  g_head : 0 < pucHead rb;
  g_tail : pucTail rb = pucHead rb + xSize rb;
  g_top : pucTail rb < 2 ^ 32
}.

Record BB (rb : Ringbuffer_t) (lent q : list Z) : Prop := {
  bb_geom : rb_geom rb;
  bb_type : xType rb = RINGBUF_TYPE_BYTEBUF;
  bb_max : xMaxItemSize rb = xSize rb;
  bb_byte : flag (uxRingbufferFlags rb) rbBYTE_BUFFER_FLAG = true;
  bb_split : flag (uxRingbufferFlags rb) rbALLOW_SPLIT_FLAG = false;
  bb_free : pucHead rb <= pucFree rb < pucTail rb;
  bb_read : pucRead rb = pucHead rb + (pucFree rb - pucHead rb + lenZ lent) mod xSize rb;
  bb_acq : pucAcquire rb = pucHead rb + (pucFree rb - pucHead rb + lenZ lent + lenZ q) mod xSize rb;
  bb_write : pucWrite rb = pucAcquire rb;
  bb_fill : lenZ lent + lenZ q <= xSize rb;
  bb_full : rb_full rb = (lenZ lent + lenZ q =? xSize rb);
  bb_wait : xItemsWaiting rb = lenZ q;
  bb_data : ring_holds rb (pucFree rb - pucHead rb) (lent ++ q)
}.

(** ** The abstract queue *)
Record bqueue := mkBqueue { bq_lent : list Z; bq_data : list Z }.

(** Where a call comes from: an interrupt handler, or a task that calls at tick
    [now] with a timeout of [ticks] and is given the semaphore it waits for once
    per element of [woken], at those ticks, before it times out. *)
Inductive caller := FromISR | FromTask (now ticks : Z) (woken : list Z).

(** A call gets at the buffer unless it times out first. *)
Definition gets_turn (c : caller) : bool := match c with FromTask _ _ [] => false | _ => true end.

Inductive bop := BSend (c : caller) (bytes : list Z) | BReceive (c : caller) (max : option Z) | BReturn.
Inductive bres := RSent (ok : bool) | RNone | RGot (bytes : list Z) | RReturned.

Definition at_most (d : list Z) (max : option Z) : Prop := from_option (fun n => lenZ d <= n) True max.

(** A byte buffer of capacity [cap]: a send is taken whole, or refused when it
    does not fit or times out; a receive lends a non-empty prefix (of at most [max]
    bytes), and gives nothing only when bytes are lent already, nothing is queued,
    nothing is asked for or it times out; a return gives the lent bytes back. *)
Inductive bspec (cap : Z) : bqueue -> bop -> bres -> bqueue -> Prop :=
  | bs_send l q c b :
      b <> [] -> gets_turn c = true -> lenZ l + lenZ q + lenZ b <= cap ->
      bspec cap (mkBqueue l q) (BSend c b) (RSent true) (mkBqueue l (q ++ b))
  | bs_refuse l q c b :
      b <> [] -> cap < lenZ l + lenZ q + lenZ b \/ gets_turn c = false ->
      bspec cap (mkBqueue l q) (BSend c b) (RSent false) (mkBqueue l q)
  | bs_send_nil l q c :
      bspec cap (mkBqueue l q) (BSend c []) (RSent true) (mkBqueue l q)
  | bs_receive d q c max :
      d <> [] -> gets_turn c = true -> at_most d max ->
      bspec cap (mkBqueue [] (d ++ q)) (BReceive c max) (RGot d) (mkBqueue d q)
  | bs_empty l q c max :
      l <> [] \/ q = [] \/ max = Some 0 \/ gets_turn c = false ->
      bspec cap (mkBqueue l q) (BReceive c max) RNone (mkBqueue l q)
  | bs_return l q :
      l <> [] ->
      bspec cap (mkBqueue l q) BReturn RReturned (mkBqueue [] q).

(** ** Lemmas on the ring *)
Section ring.
Context (rb : Ringbuffer_t) (G : rb_geom rb).

Lemma mod_once o : 0 <= o < 2 * xSize rb ->
  o mod xSize rb = if o <? xSize rb then o else o - xSize rb.
Proof.
  intros. destruct (g_size _ G). case_cmp; [apply Z.mod_small; lia|].
  rewrite <- (Z.mod_small (o - xSize rb) (xSize rb)) by lia.
  rewrite <- (Z_mod_plus_full (o - xSize rb) 1). f_equal. lia.
Qed.

Lemma ring_at_next o : 0 <= o < xSize rb -> ring_at rb o = load8 (rb_mem rb) (pucHead rb + o).
Proof. intros. unfold ring_at. by rewrite Z.mod_small by lia. Qed.

Lemma ring_holds_app o l1 l2 :
  ring_holds rb o (l1 ++ l2) <-> ring_holds rb o l1 /\ ring_holds rb (o + lenZ l1) l2.
Proof.
  unfold ring_holds, lenZ. split.
  - intros H. split; intros i v Hi.
    + apply H. by apply lookup_app_l_Some.
    + replace (o + Z.of_nat (length l1) + Z.of_nat i) with (o + Z.of_nat (length l1 + i)) by lia.
      apply H. rewrite lookup_app_r by lia. rewrite <- Hi. f_equal. lia.
  - intros [H1 H2] i v [Hi|[Hl Hi]]%lookup_app_Some; [by apply H1|].
    apply H2 in Hi. rewrite <- Hi. f_equal. lia.
Qed.

(** Reading a run of the ring that does not wrap. *)
Lemma ring_read o l :
  0 <= o -> o + lenZ l <= xSize rb -> ring_holds rb o l ->
  read_bytes (rb_mem rb) (pucHead rb + o) (length l) = l.
Proof.
  revert o. unfold lenZ. induction l as [|v l IH]; intros o Ho Hl H; simpl in *; [done|].
  f_equal.
  - rewrite <- ring_at_next by lia. rewrite <- (Z.add_0_r o). by apply (H 0%nat).
  - rewrite <- Z.add_assoc. apply IH; try lia. intros i v' Hi.
    replace (o + 1 + Z.of_nat i) with (o + Z.of_nat (S i)) by lia. by apply (H (S i)).
Qed.

Lemma nth_byte (b : list Z) i v : Forall is_byte b -> b !! i = Some v -> u8 (nth i b 0) = v.
Proof.
  intros Hb Hi. rewrite (nth_lookup_Some _ _ _ _ Hi).
  apply Z.mod_small, (Forall_lookup_1 _ _ _ _ Hb Hi).
Qed.

(** The two writes of [prvCopyItemByteBuf]: up to the tail, then from the head. *)
Definition ring_write (a : Z) (b : list Z) : mem :=
  if xSize rb - a <? lenZ b then
    write_bytes (write_bytes (rb_mem rb) (pucHead rb + a) (take (Z.to_nat (xSize rb - a)) b))
      (pucHead rb) (drop (Z.to_nat (xSize rb - a)) b)
  else write_bytes (rb_mem rb) (pucHead rb + a) b.

Lemma ring_write_new a b i v :
  0 <= a < xSize rb -> lenZ b <= xSize rb -> Forall is_byte b -> b !! i = Some v ->
  load8 (ring_write a b) (pucHead rb + (a + Z.of_nat i) mod xSize rb) = v.
Proof.
  intros Ha Hb HF Hi. pose proof (lookup_lt_Some _ _ _ Hi) as Hlt. unfold lenZ in *.
  rewrite <- (nth_byte _ _ _ HF Hi). rewrite mod_once by lia.
  unfold ring_write, lenZ. case_cmp; rewrite !load8_write_bytes;
    rewrite ?length_take, ?length_drop; repeat case_decide; try lia.
  - f_equal. replace (Z.to_nat _) with i by lia.
    rewrite <- (take_drop (Z.to_nat (xSize rb - a)) b) at 2.
    by rewrite app_nth1 by (rewrite length_take; lia).
  - f_equal. rewrite <- (take_drop (Z.to_nat (xSize rb - a)) b) at 2.
    rewrite app_nth2 by (rewrite length_take; lia). f_equal. rewrite length_take. lia.
  - f_equal. f_equal. lia.
Qed.

Lemma ring_write_old a b o :
  0 <= a < xSize rb -> lenZ b <= xSize rb -> 0 <= o < xSize rb ->
  (if a + lenZ b <=? xSize rb then o < a \/ a + lenZ b <= o
   else a + lenZ b - xSize rb <= o < a) ->
  load8 (ring_write a b) (pucHead rb + o) = load8 (rb_mem rb) (pucHead rb + o).
Proof.
  intros Ha Hb Ho. unfold ring_write, lenZ in *.
  case_cmp; intros Hor; rewrite !load8_write_bytes;
    rewrite ?length_take, ?length_drop; repeat case_decide; try lia; done.
Qed.

Lemma ring_write_outside a b p :
  0 <= a < xSize rb -> lenZ b <= xSize rb ->
  p < pucHead rb \/ pucTail rb <= p -> load8 (ring_write a b) p = load8 (rb_mem rb) p.
Proof.
  intros Ha Hb Hp. rewrite (g_tail _ G) in Hp. unfold ring_write, lenZ in *.
  case_cmp; rewrite !load8_write_bytes;
    rewrite ?length_take, ?length_drop; repeat case_decide; try lia; done.
Qed.
End ring.

Lemma ptr_diff x : 0 <= x < 2 ^ 32 -> u32 x = x.
Proof. apply Z.mod_small. Qed.

Lemma full_set w : flag (Z.lor w rbBUFFER_FULL_FLAG) rbBUFFER_FULL_FLAG = true.
Proof. unfold rbBUFFER_FULL_FLAG. change 4 with (2 ^ 2). rewrite flag_lor by lia. apply orb_true_r. Qed.
Lemma full_set_other w n : 0 <= n -> n <> 2 ->
  flag (Z.lor w rbBUFFER_FULL_FLAG) (2 ^ n) = flag w (2 ^ n).
Proof.
  intros. unfold rbBUFFER_FULL_FLAG. change 4 with (2 ^ 2). rewrite flag_lor by lia.
  case_cmp; [lia|]. apply orb_false_r.
Qed.
Lemma full_clear w : flag (Z.ldiff w rbBUFFER_FULL_FLAG) rbBUFFER_FULL_FLAG = false.
Proof. unfold rbBUFFER_FULL_FLAG. change 4 with (2 ^ 2). rewrite flag_ldiff by lia. apply andb_false_r. Qed.
Lemma full_clear_other w n : 0 <= n -> n <> 2 ->
  flag (Z.ldiff w rbBUFFER_FULL_FLAG) (2 ^ n) = flag w (2 ^ n).
Proof.
  intros. unfold rbBUFFER_FULL_FLAG. change 4 with (2 ^ 2). rewrite flag_ldiff by lia.
  case_cmp; [lia|]. apply andb_true_r.
Qed.

(** The fields of a ring buffer that no operation changes. *)
Definition same_frame (rb rb' : Ringbuffer_t) : Prop :=
  xSize rb' = xSize rb /\ pucHead rb' = pucHead rb /\ pucTail rb' = pucTail rb /\
  xType rb' = xType rb /\ xMaxItemSize rb' = xMaxItemSize rb /\
  (forall p, p < pucHead rb \/ pucTail rb <= p -> load8 (rb_mem rb') p = load8 (rb_mem rb) p).

Section operations.
Context (rb : Ringbuffer_t) (lent q : list Z) (B : BB rb lent q).
#[local] Abbreviation G := (bb_geom _ _ _ B).
#[local] Abbreviation size := (xSize rb).
#[local] Abbreviation f := (pucFree rb - pucHead rb).

Lemma bb_bounds :
  0 < size < 2 ^ 31 /\ 0 < pucHead rb /\ pucTail rb = pucHead rb + size /\ pucTail rb < 2 ^ 32
  /\ 0 <= f < size /\ 0 <= lenZ lent /\ 0 <= lenZ q /\ lenZ lent + lenZ q <= size.
Proof.
  destruct (bb_geom _ _ _ B). pose proof (bb_free _ _ _ B). pose proof (bb_fill _ _ _ B).
  unfold lenZ in *. lia.
Qed.

Lemma bb_acquire_off :
  pucAcquire rb = pucHead rb + (if f + lenZ lent + lenZ q <? size then f + lenZ lent + lenZ q
                                else f + lenZ lent + lenZ q - size).
Proof.
  pose proof bb_bounds. rewrite (bb_acq _ _ _ B).  f_equal.
  apply mod_once; [exact G|]. lia.
Qed.
Lemma bb_read_off :
  pucRead rb = pucHead rb + (if f + lenZ lent <? size then f + lenZ lent
                             else f + lenZ lent - size).
Proof.
  pose proof bb_bounds. rewrite (bb_read _ _ _ B).  f_equal.
  apply mod_once; [exact G|]. lia.
Qed.

Lemma bb_acquire_in_bounds : acquire_in_bounds rb = true.
Proof.
  pose proof bb_bounds. unfold acquire_in_bounds. rewrite bb_acquire_off.
  destruct (Z.ltb_spec (f + lenZ lent + lenZ q) size); bsolve.
Qed.

(** The free-space test is exact. *)
Lemma bb_fits n : 0 < n <= size ->
  prvCheckItemFitsByteBuffer rb n = Ok (lenZ lent + lenZ q + n <=? size).
Proof.
  intros Hn. pose proof bb_bounds. unfold prvCheckItemFitsByteBuffer.
  oassert ltac:(apply bb_acquire_in_bounds). cbn. f_equal.
  pose proof (bb_full _ _ _ B) as HF. 
  rewrite HF, bb_acquire_off. 
  destruct (Z.ltb_spec (f + lenZ lent + lenZ q) size);
    repeat match goal with |- context [u32 ?x] => rewrite (ptr_diff x) by lia end;
    case_cmp; simpl; lia.
Qed.

Lemma bb_free_size : prvGetFreeSize rb = Ok (size - lenZ lent - lenZ q).
Proof.
  pose proof bb_bounds. unfold prvGetFreeSize.
  pose proof (bb_full _ _ _ B) as HF. rewrite HF, bb_acquire_off. 
  destruct (Z.ltb_spec (f + lenZ lent + lenZ q) size);
    rewrite s32_id by lia;
    repeat match goal with |- context [u32 ?x] => rewrite (ptr_diff x) by lia end;
    case_cmp; simpl; try lia; f_equal; lia.
Qed.

#[local] Abbreviation a := (pucAcquire rb - pucHead rb).

Lemma bb_a_mod : 0 <= a < size /\ (f + lenZ lent + lenZ q) mod size = a.
Proof.
  pose proof bb_bounds. rewrite (bb_acq _ _ _ B). 
  pose proof (Z.mod_pos_bound (f + lenZ lent + lenZ q) size). lia.
Qed.

(** Nothing lent or queued is overwritten by a write of [b] that fits. *)
Lemma ring_write_keeps b :
  lenZ lent + lenZ q + lenZ b <= size -> forall i v, (lent ++ q) !! i = Some v ->
  load8 (ring_write rb a b) (pucHead rb + (f + Z.of_nat i) mod size) = v.
Proof.
  intros Hb i v Hi. pose proof bb_bounds. pose proof bb_a_mod as [Ha Ham].
  pose proof (lookup_lt_Some _ _ _ Hi) as Hlt. rewrite length_app in Hlt.
  rewrite <- (bb_data _ _ _ B i v Hi). unfold ring_at. 
  rewrite (mod_once rb G (f + lenZ lent + lenZ q)) in Ham by (lia). 
  rewrite (mod_once rb G (f + Z.of_nat i)) by (unfold lenZ in *; lia). 
  unfold lenZ in *. destruct (Z.ltb_spec (f + Z.of_nat (length lent) + Z.of_nat (length q)) size);
  destruct (Z.ltb_spec (f + Z.of_nat i) size);
    apply ring_write_old; try done; unfold lenZ; try lia; case_cmp; lia.
Qed.

(** The memory and the write pointers after [prvCopyItemByteBuf], before the
    full flag is set. *)
Lemma copy_bytebuf_run b :
  0 < lenZ b -> lenZ lent + lenZ q + lenZ b <= size ->
  prvCopyItemByteBuf b rb =
    let acq := pucHead rb + (a + lenZ b) mod size in
    let rb1 := rb <| rb_mem := ring_write rb a b |>
                  <| xItemsWaiting := xItemsWaiting rb + lenZ b |> <| pucAcquire := acq |> in
    Ok ((check_full rb1) <| pucWrite := acq |>).
Proof.
  intros H0 Hb. pose proof bb_bounds. pose proof bb_a_mod as [Ha _].
  unfold prvCopyItemByteBuf. oassert ltac:(apply bb_acquire_in_bounds).
  fold (lenZ b).
  assert (E : u32 (pucTail rb - pucAcquire rb) = size - a) by (rewrite ptr_diff; lia).
  rewrite E. unfold ring_write. 
  replace (pucHead rb + a) with (pucAcquire rb) by lia.
  rewrite (mod_once rb G) by (lia). 
  destruct (Z.ltb_spec (size - a) (lenZ b)); cbn.
  - destruct (Z.eqb_spec (pucHead rb + (lenZ b - (size - a))) (pucTail rb)); [lia|].
    destruct (Z.ltb_spec (a + lenZ b) size); [lia|].
    unfold check_full, set_full, copy_in; cbn.
    replace (pucHead rb + (lenZ b - (size - a))) with (pucHead rb + (a + lenZ b - size)) by lia.
    replace (xItemsWaiting rb + (size - a) + (lenZ b - (size - a))) with (xItemsWaiting rb + lenZ b) by lia.
    case_cmp; done.
  - unfold check_full, set_full, copy_in; cbn.
    destruct (Z.eqb_spec (pucAcquire rb + lenZ b) (pucTail rb)); cbn.
    + destruct (Z.ltb_spec (a + lenZ b) size); [lia|].
      replace (pucHead rb + (a + lenZ b - size)) with (pucHead rb) by (lia).
      case_cmp; done.
    + destruct (Z.ltb_spec (a + lenZ b) size); [|lia].
      replace (pucHead rb + (a + lenZ b)) with (pucAcquire rb + lenZ b) by (lia).
      case_cmp; done.
Qed.

Lemma acquire_after b :
  0 < lenZ b -> lenZ lent + lenZ q + lenZ b <= size ->
  (a + lenZ b) mod size = (f + lenZ lent + lenZ (q ++ b)) mod size /\
  (pucHead rb + (a + lenZ b) mod size =? pucFree rb) = (lenZ lent + lenZ (q ++ b) =? size).
Proof.
  intros H0 Hb. pose proof bb_bounds. pose proof bb_a_mod as [Ha Ham].
  unfold lenZ in *. rewrite length_app, Nat2Z.inj_add.
  assert (E : (a + Z.of_nat (length b)) mod size
              = (f + Z.of_nat (length lent) + (Z.of_nat (length q) + Z.of_nat (length b))) mod size).
  { rewrite <- Ham, Z.add_mod_idemp_l by lia. f_equal. lia. }
  split; [exact E|]. rewrite E.
  destruct (Z.eqb_spec (Z.of_nat (length lent) + (Z.of_nat (length q) + Z.of_nat (length b))) size) as [F|F].
  - apply Z.eqb_eq. replace (f + _ + _) with (f + 1 * size) by lia.
    rewrite Z_mod_plus_full, Z.mod_small by lia. lia.
  - apply Z.eqb_neq. intros C. apply F.
    set (k := Z.of_nat (length lent) + (Z.of_nat (length q) + Z.of_nat (length b))) in *.
    replace (f + _ + _) with (f + k) in C by lia.
    destruct (Z.ltb_spec (f + k) size).
    + rewrite Z.mod_small in C by lia. lia.
    + rewrite (mod_once rb G) in C by lia. destruct (Z.ltb_spec (f + k) size); lia.
Qed.

Lemma copy_bytebuf_ok b :
  0 < lenZ b -> lenZ lent + lenZ q + lenZ b <= size -> Forall is_byte b ->
  exists rb', prvCopyItemByteBuf b rb = Ok rb' /\ BB rb' lent (q ++ b) /\ same_frame rb rb' /\
    xTransSem rb' = xTransSem rb /\ xRecvSem rb' = xRecvSem rb.
Proof.
  intros H0 Hb HF. rewrite copy_bytebuf_run by done. cbv zeta.
  pose proof bb_bounds as Hbd. pose proof bb_a_mod as [Ha Ham].
  destruct (acquire_after b H0 Hb) as [Eacq Efull].
  assert (Hnf : rb_full rb = false) by (rewrite (bb_full _ _ _ B); bsolve).
  assert (Hdata : forall rb', rb_mem rb' = ring_write rb a b -> pucHead rb' = pucHead rb ->
            xSize rb' = size -> ring_holds rb' f (lent ++ (q ++ b))).
  { intros rb' Em Eh Es. rewrite app_assoc. intros i v [Hi|[Hl Hi]]%lookup_app_Some;
      unfold ring_at; rewrite Em, Eh, Es; [by apply ring_write_keeps|].
    rewrite <- (ring_write_new rb G a b _ v Ha ltac:(unfold lenZ in *; lia) HF Hi). f_equal. f_equal.
    rewrite <- Ham, Z.add_mod_idemp_l by lia. f_equal.
    rewrite length_app in *. unfold lenZ. lia. }
  eexists. split; [reflexivity|]. split.
  2:{ unfold check_full, set_full. repeat split; try (destruct (_ =? _); reflexivity).
      intros p Hp. cbn. destruct (_ =? _); cbn; apply (ring_write_outside rb G); unfold lenZ in *; lia || done. }
  unfold check_full. cbn [pucAcquire pucFree upd]. cbn.
  rewrite Efull. destruct B, Hbd as (?&?&?&?&?&?).
  destruct (Z.eqb_spec (lenZ lent + lenZ (q ++ b)) size) as [E|E]; cbn;
    (split; cbn; try done; try (by rewrite Eacq)).
  all: try (by rewrite (full_set_other _ 1) by lia).
  all: try (by rewrite (full_set_other _ 0) by lia).
  all: try (unfold lenZ in *; rewrite length_app in *; lia).
  all: try (by apply Hdata).
  - unfold rb_full; cbn. rewrite full_set. symmetry. by apply Z.eqb_eq.
  - unfold rb_full in *; cbn. rewrite Hnf. symmetry. by apply Z.eqb_neq.
Qed.

(** ** Retrieval *)

Lemma bb_available : prvCheckItemAvail rb = (lenZ lent =? 0) && (0 <? lenZ q).
Proof.
  pose proof bb_bounds. unfold prvCheckItemAvail, data_waiting.
  rewrite (bb_byte _ _ _ B), (bb_wait _ _ _ B), (bb_full _ _ _ B), (bb_write _ _ _ B).
  rewrite bb_read_off, bb_acquire_off.
  destruct (Z.ltb_spec (f + lenZ lent) size), (Z.ltb_spec (f + lenZ lent + lenZ q) size);
    case_cmp; simpl; try done; lia.
Qed.

(** The contiguous run of queued bytes, and the part of it a receive with
    maximum [n] takes. *)
Definition run_length : Z := if f + lenZ q <? size then lenZ q else size - f.
Definition taken (n : Z) : Z := if (n =? 0) || (run_length <=? n) then run_length else n.

Lemma taken_bounds n : 0 < lenZ q <= size -> 0 <= n ->
  0 < taken n <= lenZ q /\ f + taken n <= size /\ (n = 0 \/ taken n <= n).
Proof. intros. pose proof bb_bounds. unfold taken, run_length. case_cmp; simpl; lia. Qed.

Lemma get_bytebuf_run n :
  lenZ lent = 0 -> 0 < lenZ q -> 0 <= n < 2 ^ 32 ->
  prvGetItemByteBuf n rb =
    Ok (mkItem (pucFree rb) (taken n) false,
        rb <| xItemsWaiting := lenZ q - taken n |>
           <| pucRead := pucHead rb + (f + taken n) mod size |>).
Proof.
  intros Hl Hq Hn. pose proof bb_bounds as Hbd. pose proof bb_read_off as Hr.
  pose proof bb_acquire_off as Haq. rewrite Hl in Hr, Haq.
  destruct (Z.ltb_spec (f + 0) size) as [_|]; [|lia].
  pose proof bb_available as Hav. rewrite Hl in Hav.
  replace (0 <? lenZ q) with true in Hav by bsolve.
  pose proof (taken_bounds n ltac:(lia) ltac:(lia)) as Hk.
  assert (Hdw : data_waiting rb = true).
  { unfold prvCheckItemAvail in Hav. by destruct (flag _ _ && _). }
  unfold prvGetItemByteBuf. oassert assumption. do 2 oassert bsolve.
  assert (Hcase : (pucWrite rb <? pucRead rb) || rb_full rb = negb (f + lenZ q <? size)).
  { rewrite (bb_full _ _ _ B), (bb_write _ _ _ B), Hl, Hr, Haq. case_cmp; simpl; try done; lia. }
  rewrite Hcase, (bb_wait _ _ _ B), (bb_write _ _ _ B), Hr, Haq, (mod_once rb G) by lia.
  unfold taken, run_length in *.
  destruct (Z.ltb_spec (f + lenZ q) size), (Z.ltb_spec (f + 0 + lenZ q) size);
    try lia; cbn [negb]; cbv zeta; rewrite ptr_diff by lia;
    case_cmp; cbn; case_cmp; cbn; try lia; eq_arith.
Qed.

(** What a receive leaves behind: the bytes taken are lent, in place. *)
Lemma get_bytebuf_ok n :
  lenZ lent = 0 -> 0 < lenZ q -> 0 <= n < 2 ^ 32 ->
  let d := take (Z.to_nat (taken n)) q in
  let q' := drop (Z.to_nat (taken n)) q in
  exists rb', prvGetItemByteBuf n rb = Ok (mkItem (pucFree rb) (lenZ d) false, rb') /\
    0 < lenZ d /\ (n = 0 \/ lenZ d <= n) /\
    read_bytes (rb_mem rb') (pucFree rb) (length d) = d /\ BB rb' d q' /\ same_frame rb rb' /\
    rb_mem rb' = rb_mem rb.
Proof.
  intros Hl Hq Hn. pose proof bb_bounds as Hbd.
  pose proof (taken_bounds n ltac:(lia) ltac:(lia)) as Hk. rewrite get_bytebuf_run by done.
  intros d q'.
  assert (Hd : lenZ d = taken n) by (unfold d, lenZ in *; rewrite length_take; lia).
  assert (Hq' : lenZ q' = lenZ q - taken n) by (unfold q', lenZ in *; rewrite length_drop; lia).
  assert (Eq : q = d ++ q') by (symmetry; apply take_drop).
  assert (El : lent = []) by (apply nil_length_inv; unfold lenZ in *; lia).
  pose proof (bb_data _ _ _ B) as HD. rewrite El in HD. simpl in HD. rewrite Eq in HD.
  eexists. split; [by rewrite Hd|]. do 2 (split; [lia|]). cbn. split.
  { apply ring_holds_app in HD as [HD _]. replace (pucFree rb) with (pucHead rb + f) by lia.
    apply ring_read; [lia|lia|done]. }
  split; [|repeat split; done].
  destruct B. split; cbn; try done; try lia.
  - by destruct bb_geom0.
  - by rewrite Hd.
  - rewrite bb_acq0. f_equal. f_equal. lia.
  - change (rb_full rb = (lenZ d + lenZ q' =? size)). rewrite bb_full0. f_equal. lia.
Qed.

(** ** Return *)
Lemma return_bytebuf_ok p :
  0 < lenZ lent -> pucHead rb <= p < pucTail rb ->
  exists rb', prvReturnItemByteBuf p rb = Ok rb' /\ BB rb' [] q /\ same_frame rb rb' /\
    rb_mem rb' = rb_mem rb.
Proof.
  intros Hl Hp. pose proof bb_bounds as Hbd. pose proof bb_read_off as Hr.
  unfold prvReturnItemByteBuf. do 2 oassert bsolve.
  eexists. split; [reflexivity|].
  assert (Hnf : (0 + lenZ q =? size) = false) by bsolve.
  pose proof (bb_data _ _ _ B) as HD. apply ring_holds_app in HD as [_ HD].
  assert (Hrange : 0 <= pucRead rb - pucHead rb < size)
    by (rewrite Hr; destruct (Z.ltb_spec (f + lenZ lent) size); lia).
  assert (Hmod : pucRead rb - pucHead rb = (f + lenZ lent) mod size)
    by (rewrite (bb_read _ _ _ B); lia).
  assert (HD' : ring_holds rb (pucRead rb - pucHead rb) q).
  { intros i v Hi. rewrite <- (HD i v Hi). unfold ring_at. do 2 f_equal.
    rewrite Hmod, Z.add_mod_idemp_l by lia. done. }
  assert (Hacq : pucAcquire rb = pucHead rb + (pucRead rb - pucHead rb + 0 + lenZ q) mod size).
  { rewrite (bb_acq _ _ _ B), Hmod, Z.add_0_r, Z.add_mod_idemp_l by lia. done. }
  split; [|unfold rb_full, clear_full; cbn; split; [repeat split|]; try (by destruct (flag _ _))].
  destruct B. unfold rb_full in *; cbn.
  destruct (flag (uxRingbufferFlags rb) rbBUFFER_FULL_FLAG) eqn:Ef; split; cbn; try done; try lia.
  all: try (by destruct bb_geom0).
  all: unfold rb_full; cbn; rewrite ?full_clear.
  all: try (by rewrite (full_clear_other _ 1) by lia).
  all: try (by rewrite (full_clear_other _ 0) by lia).
  all: try (unfold lenZ in *; simpl; congruence).
  all: change (lenZ []) with 0; rewrite ?Z.add_0_r, ?Z.mod_small by done; try lia.
  by rewrite Ef, Hnf.
Qed.
End operations.

(** ** The API on byte buffers *)

Lemma BB_sems rb lent q t r : BB rb lent q -> BB (rb <| xTransSem := t |> <| xRecvSem := r |>) lent q.
Proof. intros []. split; try done. by destruct bb_geom0. Qed.
Lemma BB_tx rb lent q t : BB rb lent q -> BB (rb <| xTransSem := t |>) lent q.
Proof. intros B. exact (BB_sems rb lent q t (xRecvSem rb) B). Qed.
Lemma BB_rx rb lent q r : BB rb lent q -> BB (rb <| xRecvSem := r |>) lent q.
Proof. intros B. exact (BB_sems rb lent q (xTransSem rb) r B). Qed.

Lemma same_frame_refl rb : same_frame rb rb.
Proof. by repeat split. Qed.

Lemma same_frame_trans rb1 rb2 rb3 : same_frame rb1 rb2 -> same_frame rb2 rb3 -> same_frame rb1 rb3.
Proof.
  intros (A1 & A2 & A3 & A4 & A5 & A6) (B1 & B2 & B3 & B4 & B5 & B6).
  repeat split; try congruence. intros p Hp. rewrite B6 by by rewrite A2, A3. auto.
Qed.

Create HintDb ringbuf.
#[export] Hint Resolve BB_tx BB_rx same_frame_refl : ringbuf.

(** ** Calls of tasks

    A task that finds the semaphore given while no other call comes in between:
    the wake-up changes nothing. *)
Definition calm (tick : Z) : wake := mkWake id tick.

Definition take_rx (c : caller) (rb : Ringbuffer_t) : Ringbuffer_t :=
  match c with FromISR => rb | FromTask _ _ _ => rb <| xRecvSem := false |> end.
Definition take_tx (c : caller) (rb : Ringbuffer_t) : Ringbuffer_t :=
  match c with FromISR => rb | FromTask _ _ _ => rb <| xTransSem := false |> end.

(** The send and receive calls, from an interrupt or from a task. *)
Definition send_call (c : caller) (b : list Z) (rb : Ringbuffer_t) : outcome (bool * Ringbuffer_t) :=
  match c with
  | FromISR => xRingbufferSendFromISR b rb
  | FromTask now ticks woken => xRingbufferSend now (map calm woken) b ticks rb
  end.
Definition receive_call (c : caller) (max : option Z) (rb : Ringbuffer_t) : outcome (option (Z * Z) * Ringbuffer_t) :=
  match c, max with
  | FromISR, None => xRingbufferReceiveFromISR rb
  | FromISR, Some n => xRingbufferReceiveUpToFromISR n rb
  | FromTask now ticks woken, None => xRingbufferReceive now (map calm woken) ticks rb
  | FromTask now ticks woken, Some n => xRingbufferReceiveUpTo now (map calm woken) ticks n rb
  end.

Lemma receive_loop_again woken split n ticks tend trem rb :
  xRecvSem rb = false -> prvCheckItemAvail rb = false ->
  receive_loop (map calm woken) split n ticks tend trem rb = Ok (None, rb).
Proof.
  intros Es Ea. assert (Erb : rb <| xRecvSem := false |> = rb) by (destruct rb; simpl in Es; by subst).
  revert trem. induction woken as [|t woken IH]; intros trem; cbn [receive_loop map calm w_env w_tick];
    destruct (_ <=? _); try done.
  change (id rb) with rb. rewrite Erb, Ea. apply IH.
Qed.

(** A task's receive that gets its turn is one attempt with the semaphore taken. *)
Lemma receive_generic_calm now woken split n ticks rb :
  prvReceiveGeneric now (map calm woken) split n ticks rb
  = match woken with
    | [] => Ok (None, rb)
    | _ => prvReceiveGenericFromISR split n (rb <| xRecvSem := false |>)
    end.
Proof.
  unfold prvReceiveGeneric, prvReceiveGenericFromISR. destruct woken as [|t woken]; simpl; rewrite Z.leb_refl; [done|].
  change (id rb) with rb. destruct (prvCheckItemAvail _) eqn:Ea; [done|]. by apply receive_loop_again.
Qed.

Lemma send_loop_again {A} (put : Ringbuffer_t -> outcome (A * Ringbuffer_t)) woken sz ticks tend trem rb :
  xTransSem rb = false -> xCheckItemFits rb sz = Ok false ->
  send_loop put (map calm woken) sz ticks tend trem rb = Ok (None, rb).
Proof.
  intros Es Ea. assert (Erb : rb <| xTransSem := false |> = rb) by (destruct rb; simpl in Es; by subst).
  revert trem. induction woken as [|t woken IH]; intros trem; cbn [send_loop map calm w_env w_tick];
    destruct (_ <=? _); try done.
  change (id rb) with rb. rewrite Erb, Ea. apply IH.
Qed.

(** A task's send that gets its turn is a send from an interrupt with the
    semaphore taken; an item too long, or nothing at all, needs no turn. *)
Lemma send_calm now woken b ticks rb :
  xRingbufferSend now (map calm woken) b ticks rb
  = if (xMaxItemSize rb <? lenZ b) || (flag (uxRingbufferFlags rb) rbBYTE_BUFFER_FLAG && (lenZ b =? 0))
    then xRingbufferSendFromISR b rb
    else match woken with
         | [] => Ok (false, rb)
         | _ => xRingbufferSendFromISR b (rb <| xTransSem := false |>)
         end.
Proof.
  unfold xRingbufferSend, xRingbufferSendFromISR. fold (lenZ b). cbn [xMaxItemSize uxRingbufferFlags].
  destruct (xMaxItemSize rb <? lenZ b) eqn:E1; [done|]. cbn [orb].
  destruct (flag _ _ && _) eqn:E2; [done|].
  destruct woken as [|t woken]; simpl; rewrite Z.leb_refl; [done|]. change (id rb) with rb.
  simpl in E2. rewrite E1, ?E2. destruct (xCheckItemFits _ _) as [[]| | |] eqn:Ef; try done; simpl.
  - destruct (vCopyItem _ _); try done. simpl. destruct (prvGetFreeSize _); try done.
  - by rewrite send_loop_again.
Qed.

(** One operation of a client on the C ring buffer, with what it observes: a
    send reports success, a receive reports the bytes it reads at the returned
    address, a return hands back the address received last. *)
Definition bop_run (op : bop) (addr : Z) (rb : Ringbuffer_t) : outcome (bres * Z * Ringbuffer_t) :=
  match op with
  | BSend c b => '(ok, rb) ← send_call c b rb; Ok (RSent ok, addr, rb)
  | BReceive c max =>
      '(r, rb) ← receive_call c max rb;
      Ok (match r with
          | None => (RNone, addr)
          | Some (p, sz) => (RGot (read_bytes (rb_mem rb) p (Z.to_nat sz)), p)
          end, rb)
  | BReturn => rb ← vRingbufferReturnItem addr rb; Ok (RReturned, addr, rb)
  end.

Definition bytes_ok (l : list Z) : bool := forallb (fun v => (0 <=? v) && (v <? 2 ^ 8)) l.
Lemma bytes_ok_Forall l : bytes_ok l = true -> Forall is_byte l.
Proof.
  unfold bytes_ok. rewrite forallb_forall. intros H. apply List.Forall_forall. intros v Hv.
  apply H, andb_prop in Hv as [?%Z.leb_le ?%Z.ltb_lt]. done.
Qed.

(** What a client may do: send bytes, receive with a 32-bit maximum, return only
    what it holds. *)
Definition bop_ok (holds : bool) (op : bop) : bool :=
  match op with
  | BSend _ b => bytes_ok b && (lenZ b <? 2 ^ 32)
  | BReceive _ max => from_option (fun n => (0 <=? n) && (n <? 2 ^ 32)) true max
  | BReturn => holds
  end.

(** The ring buffer represents the queue, and [addr] is an address inside the
    storage (the item held, when there is one). *)
Definition bsim (rb : Ringbuffer_t) (addr : Z) (s : bqueue) : Prop :=
  BB rb (bq_lent s) (bq_data s) /\ pucHead rb <= addr < pucTail rb.

Lemma lenZ_pos {A} (l : list A) : l <> [] <-> 0 < lenZ l.
Proof. destruct l; unfold lenZ; simpl; split; try done; try lia. Qed.

Lemma bsim_sems rb addr s t r : bsim rb addr s -> bsim (rb <| xTransSem := t |> <| xRecvSem := r |>) addr s.
Proof. intros [B Ha]. split; [by apply BB_sems|done]. Qed.

Lemma send_isr_refines rb addr s b c :
  bsim rb addr s -> Forall is_byte b -> lenZ b < 2 ^ 32 -> gets_turn c = true ->
  exists ok s' rb', xRingbufferSendFromISR b rb = Ok (ok, rb') /\
    bspec (xSize rb) s (BSend c b) (RSent ok) s' /\ bsim rb' addr s' /\ same_frame rb rb'.
Proof.
  intros [B Ha] HF Hb32 Hc. destruct s as [l q]. simpl in B.
  unfold xRingbufferSendFromISR. rewrite (bb_max _ _ _ B), (bb_byte _ _ _ B). fold (lenZ b).
  pose proof (bb_bounds _ _ _ B) as Hbd.
  destruct (Z.eqb_spec (lenZ b) 0) as [E|E].
  { destruct b; [|unfold lenZ in E; simpl in E; lia]. rewrite (proj2 (Z.ltb_ge _ _)) by (change (lenZ []) with 0; lia).
    cbn. eexists _, _, _. split; [done|]. split; [apply bs_send_nil|]. by split; [split|apply same_frame_refl]. }
  assert (Hb : 0 < lenZ b) by (unfold lenZ in *; lia). assert (Hne : b <> []) by by apply lenZ_pos.
  destruct (Z.ltb_spec (xSize rb) (lenZ b)).
  { cbn. eexists _, _, _. split; [done|]. split; [apply bs_refuse; [done|left; lia]|].
    by split; [split|apply same_frame_refl]. }
  cbn [andb].
  unfold xCheckItemFits, vCopyItem. rewrite (bb_type _ _ _ B), (bb_fits _ _ _ B) by lia. ostep.
  destruct (Z.leb_spec (lenZ l + lenZ q + lenZ b) (xSize rb)) as [Hfit|Hfit].
  - destruct (copy_bytebuf_ok _ _ _ B b) as (rb1 & E1 & B1 & F1 & _); [lia..|done|].
    rewrite E1. ostep. rewrite (bb_free_size _ _ _ B1). ostep. cbn.
    eexists _, _, _. split; [done|].
    split; [by apply bs_send|].
    destruct F1 as (Es & Eh & Et & Ety & Em & Hout).
    split; [split|].
    + simpl. apply BB_rx. destruct (0 <? _); [apply BB_tx|]; done.
    + destruct (0 <? _); cbn; lia.
    + destruct (0 <? _); repeat split; done.
  - eexists _, _, _. split; [done|]. split; [apply bs_refuse; [done|left; lia]|]. by split; [split|apply same_frame_refl].
Qed.

Lemma send_call_refines rb addr s b c :
  bsim rb addr s -> Forall is_byte b -> lenZ b < 2 ^ 32 ->
  exists ok s' rb', send_call c b rb = Ok (ok, rb') /\
    bspec (xSize rb) s (BSend c b) (RSent ok) s' /\ bsim rb' addr s' /\ same_frame rb rb'.
Proof.
  intros S HF Hb. destruct c as [|now ticks woken]; [by apply send_isr_refines|].
  cbn [send_call]. rewrite send_calm. destruct (_ || _) eqn:E.
  { destruct (send_isr_refines rb addr s b FromISR S HF Hb eq_refl) as (ok & s' & rb' & E' & Hs & H).
    exists ok, s', rb'. split; [done|]. split; [|done]. rewrite (bb_max _ _ _ (proj1 S)) in E.
    inversion Hs; subst; try constructor; try done; destruct S as [B _]; pose proof (bb_bounds _ _ _ B); simpl in *.
    - exfalso. apply orb_prop in E as [E%Z.ltb_lt|[_ E%Z.eqb_eq]%andb_prop].
      + lia.
      + by destruct b; [|unfold lenZ in E; simpl in E; lia].
    - left. match goal with H : _ \/ _ |- _ => destruct H; done end. }
  apply orb_false_elim in E as [E1%Z.ltb_ge E2]. rewrite (bb_byte _ _ _ (proj1 S)) in E2. apply Z.eqb_neq in E2.
  assert (b <> []) by by intros ->. destruct woken as [|t woken].
  - destruct s as [l q]. eexists _, _, _. split; [done|]. split; [apply bs_refuse; [done|by right]|].
    split; [done|apply same_frame_refl].
  - destruct (send_isr_refines (rb <| xTransSem := false |>) addr s b (FromTask now ticks (t :: woken)))
      as (ok & s' & rb' & E' & Hs & Hb' & Hf); [|done..|].
    { apply (bsim_sems rb addr s false (xRecvSem rb)) in S. by destruct rb. }
    exists ok, s', rb'. split; [done|]. split; [done|]. split; [done|]. exact Hf.
Qed.

Lemma receive_isr_refines rb l q n :
  BB rb l q -> 0 <= n < 2 ^ 32 ->
  exists rb', same_frame rb rb' /\
  ((prvReceiveGenericFromISR false n rb = Ok (None, rb') /\ (l <> [] \/ q = []) /\ BB rb' l q) \/
   (exists d q', prvReceiveGenericFromISR false n rb
                 = Ok (Some (mkItem (pucFree rb) (lenZ d) false, None), rb') /\
     l = [] /\ q = d ++ q' /\ 0 < lenZ d /\ (n = 0 \/ lenZ d <= n) /\
     read_bytes (rb_mem rb') (pucFree rb) (length d) = d /\ BB rb' d q')).
Proof.
  intros B Hn. unfold prvReceiveGenericFromISR. rewrite (bb_available _ _ _ B).
  pose proof (bb_bounds _ _ _ B) as Hbd.
  destruct (Z.eqb_spec (lenZ l) 0) as [E|E]; [|exists rb; split; [apply same_frame_refl|]].
  2:{ left. split; [done|]. split; [|done]. left. intros ->. by apply E. }
  destruct (Z.ltb_spec 0 (lenZ q)) as [E'|E']; [|exists rb; split; [apply same_frame_refl|]].
  2:{ left. split; [done|]. split; [|done]. right. apply nil_length_inv. unfold lenZ in *. lia. }
  destruct (get_bytebuf_ok _ _ _ B n) as (rb1 & E1 & Hd & Hdn & Hr & B1 & F1 & Em); [lia..|].
  cbn [andb]. unfold receive_items, pvGetItem.
  rewrite (bb_byte _ _ _ B), (bb_type _ _ _ B), E1. ostep. cbn beta iota.
  rewrite (bb_split _ _ _ B1). cbn [andb]. ostep.
  eexists. split; [|right; eexists _, _; split; [reflexivity|]].
  { destruct F1 as (?&?&?&?&?&?), (0 <? xItemsWaiting rb1); by repeat split. }
  split; [apply nil_length_inv; unfold lenZ in *; lia|]. split; [symmetry; apply take_drop|].
  split; [done|]. split; [done|].
  split; [by destruct (0 <? _)|]. destruct (0 <? _); [apply BB_rx|]; done.
Qed.

Definition limit (max : option Z) : Z := default 0 max.

Lemma receive_call_generic c max rb :
  flag (uxRingbufferFlags rb) rbBYTE_BUFFER_FLAG = true ->
  receive_call c max rb
  = if bool_decide (max = Some 0) || negb (gets_turn c) then Ok (None, rb)
    else '(r, rb) ← prvReceiveGenericFromISR false (limit max) (take_rx c rb); Ok (first_item r, rb).
Proof.
  intros Hf. destruct c as [|now ticks woken], max as [n|]; simpl;
    unfold xRingbufferReceiveFromISR, xRingbufferReceiveUpToFromISR, xRingbufferReceive, xRingbufferReceiveUpTo;
    rewrite ?cassert_bind by done; rewrite ?receive_generic_calm; try done.
  - destruct (Z.eqb_spec n 0) as [->|]; [by rewrite bool_decide_eq_true_2|].
    by rewrite bool_decide_eq_false_2 by congruence.
  - destruct (Z.eqb_spec n 0) as [->|]; [by rewrite bool_decide_eq_true_2|].
    rewrite bool_decide_eq_false_2 by congruence. by destruct woken.
  - by destruct woken.
Qed.

Lemma receive_refines rb addr s c max :
  bsim rb addr s -> 0 <= limit max < 2 ^ 32 ->
  exists res addr' s' rb', bop_run (BReceive c max) addr rb = Ok (res, addr', rb') /\
    bspec (xSize rb) s (BReceive c max) res s' /\ bsim rb' addr' s' /\ same_frame rb rb'.
Proof.
  intros [B Ha] Hn. destruct s as [l q]. simpl in B. cbn [bop_run].
  rewrite receive_call_generic by apply (bb_byte _ _ _ B). destruct (_ || _) eqn:E0.
  { cbn. eexists _, _, _, _. split; [done|]. split; [apply bs_empty|by split; [split|apply same_frame_refl]].
    apply orb_prop in E0 as [E0%bool_decide_eq_true_1|E0%negb_true_iff]; auto. }
  apply orb_false_elim in E0 as [E0%bool_decide_eq_false_1 Ec%negb_false_iff].
  assert (B' : BB (take_rx c rb) l q) by (destruct c; [done|by apply BB_rx]).
  assert (Fr : same_frame rb (take_rx c rb) /\ pucFree (take_rx c rb) = pucFree rb) by (by destruct c).
  destruct Fr as [Fr Efr]. pose proof (bb_free _ _ _ B) as Hf.
  destruct (receive_isr_refines _ _ _ _ B' Hn) as (rb' & F & [(E & H & B1)|(d & q' & E & -> & -> & Hd & Hdn & Hr & B1)]);
    rewrite E; cbn; eexists _, _, _, _; (split; [reflexivity|]);
    pose proof (same_frame_trans _ _ _ Fr F) as F'; destruct F' as (Es & Eh & Et & _).
  - split; [apply bs_empty; tauto|]. split; [split; [done|]; simpl; lia|]. by eapply same_frame_trans.
  - unfold lenZ at 1. rewrite Nat2Z.id, Hr.
    split; [apply bs_receive; [by apply lenZ_pos|done|]|].
    { destruct max as [n|]; [|done]. simpl in *. destruct Hdn as [->|]; done. }
    split; [split; [done|]; simpl; lia|]. by eapply same_frame_trans.
Qed.

Lemma return_refines rb addr s :
  bsim rb addr s -> bq_lent s <> [] ->
  exists s' rb', bop_run BReturn addr rb = Ok (RReturned, addr, rb') /\
    bspec (xSize rb) s BReturn RReturned s' /\ bsim rb' addr s' /\ same_frame rb rb'.
Proof.
  intros [B Ha] Hl. destruct s as [l q]. simpl in *. pose proof (bb_bounds _ _ _ B) as Hbd.
  destruct (return_bytebuf_ok _ _ _ B addr) as (rb1 & E1 & B1 & F1 & _); [by apply lenZ_pos|lia|].
  unfold vRingbufferReturnItem. oassert bsolve. unfold vReturnItem.
  rewrite (bb_type _ _ _ B), E1. do 2 ostep. eexists _, _. split; [reflexivity|].
  destruct F1 as (Es & Eh & Et & F).
  split; [by apply bs_return|]. split; [split; [by apply BB_tx|]; cbn; lia|unfold same_frame; cbn; tauto].
Qed.

(** ** Whole runs *)

Fixpoint bops_run (ops : list bop) (addr : Z) (rb : Ringbuffer_t) : outcome (list bres * Z * Ringbuffer_t) :=
  match ops with
  | [] => Ok ([], addr, rb)
  | op :: ops =>
      '(r, addr, rb) ← bop_run op addr rb;
      '(rs, addr, rb) ← bops_run ops addr rb;
      Ok (r :: rs, addr, rb)
  end.

Inductive bspecs (cap : Z) : bqueue -> list bop -> list bres -> bqueue -> Prop :=
  | bspecs_nil s : bspecs cap s [] [] s
  | bspecs_cons s op r s' ops rs s'' :
      bspec cap s op r s' -> bspecs cap s' ops rs s'' -> bspecs cap s (op :: ops) (r :: rs) s''.

(** A history is legal when every call is, given what the client holds after the
    answers it got. *)
Definition holds_after (holds : bool) (r : bres) : bool :=
  match r with RGot _ => true | RReturned => false | _ => holds end.

Fixpoint client_ok (holds : bool) (ops : list bop) (addr : Z) (rb : Ringbuffer_t) : bool :=
  match ops with
  | [] => true
  | op :: ops =>
      bop_ok holds op &&
      match bop_run op addr rb with
      | Ok (r, addr, rb) => client_ok (holds_after holds r) ops addr rb
      | _ => true
      end
  end.

(** The client holds something exactly when bytes are lent. *)
Definition bholds (holds : bool) (s : bqueue) : Prop := holds = true <-> bq_lent s <> [].

Lemma bholds_after cap holds s op r s' : bholds holds s -> bspec cap s op r s' -> bholds (holds_after holds r) s'.
Proof. unfold bholds. intros H HS. inversion HS; subst; simpl in *; try done; tauto || by split. Qed.

Lemma bop_refines rb addr s holds op :
  bsim rb addr s -> bholds holds s -> bop_ok holds op = true ->
  exists res addr' s' rb', bop_run op addr rb = Ok (res, addr', rb') /\
    bspec (xSize rb) s op res s' /\ bsim rb' addr' s' /\ same_frame rb rb'.
Proof.
  intros S Hh Hop. destruct op as [c b|c max|]; simpl in Hop.
  - apply andb_prop in Hop as [HF%bytes_ok_Forall Hb%Z.ltb_lt].
    destruct (send_call_refines rb addr s b c S HF Hb) as (ok & s' & rb' & E & H). cbn [bop_run]. rewrite E. ostep.
    eauto 10.
  - apply receive_refines; [done|]. destruct max as [n|]; simpl in *; lia.
  - destruct (return_refines rb addr s S) as (?&?&?); [by apply Hh|]. eauto 10.
Qed.

Lemma bops_refine ops : forall rb addr s holds,
  bsim rb addr s -> bholds holds s -> client_ok holds ops addr rb = true ->
  exists rs addr' s' rb', bops_run ops addr rb = Ok (rs, addr', rb') /\
    bspecs (xSize rb) s ops rs s' /\ bsim rb' addr' s'.
Proof.
  induction ops as [|op ops IH]; intros rb addr s holds S Hh Hc; simpl.
  { eexists _, _, _, _. split; [done|]. split; [constructor|done]. }
  cbn [client_ok] in Hc. apply andb_prop in Hc as [Hop Hc].
  destruct (bop_refines _ _ _ _ _ S Hh Hop) as (r & a1 & s1 & rb1 & E & Hs & S1 & Hf).
  rewrite E in Hc |- *. cbn.
  destruct (IH rb1 a1 s1 _ S1 (bholds_after _ _ _ _ _ _ Hh Hs) Hc) as (rs & a2 & s2 & rb2 & E2 & Hs2 & S2).
  rewrite E2. cbn. eexists _, _, _, _. split; [reflexivity|].
  split; [|done]. econstructor; [done|]. by destruct Hf as [<- _].
Qed.

Lemma BB_init size head m :
  0 < size < 2 ^ 31 -> 0 < head -> head + size < 2 ^ 32 ->
  BB (prvInitializeNewRingbuffer size RINGBUF_TYPE_BYTEBUF head m) [] [].
Proof.
  intros. assert (E : (head - head + lenZ (@nil Z)) mod size = 0)
    by (change (lenZ []) with 0; rewrite Z.sub_diag; apply Z.mod_0_l; lia).
  split; simpl; rewrite ?E; try done; try lia.
  - change (lenZ (@nil Z)) with 0 in *. rewrite Z.add_0_r, E. lia.
  - change (lenZ []) with 0. lia.
  - destruct size; first [lia | reflexivity].
Qed.

(** C3. A byte buffer is a bounded queue of bytes.  From the freshly initialised
    buffer of any size below 2 GiB placed anywhere in the address space, every
    sequence of sends, receives (whole runs or up to a maximum), from interrupts
    and from tasks, and returns in which the client returns only what it holds
    runs to completion with no failed assertion and with the waiting loops
    terminated, and answers as the abstract byte queue: unless the call times out
    waiting for its semaphore, a send is taken whole exactly when it fits beside the
    bytes queued and lent, the bytes a receive finds at the address it is given are
    the oldest bytes sent, and nothing is received twice or while bytes are lent.
    The calls come one at a time: while a task waits in one of them no other call
    is made ([bytebuf_receive_blocking] is about a receive that waits while others
    act). *)
Theorem bytebuf_refines_queue (size head : Z) (m : mem) (ops : list bop)
    (Hsize : 0 < size < 2 ^ 31) (Hhead : 0 < head) (Htop : head + size < 2 ^ 32)
    (Hclient : client_ok false ops head (prvInitializeNewRingbuffer size RINGBUF_TYPE_BYTEBUF head m) = true) :
  let rb := prvInitializeNewRingbuffer size RINGBUF_TYPE_BYTEBUF head m in
  exists rs addr s rb', bops_run ops head rb = Ok (rs, addr, rb') /\
    bspecs size (mkBqueue [] []) ops rs s /\ BB rb' (bq_lent s) (bq_data s).
Proof.
  intros rb. destruct (bops_refine ops rb head (mkBqueue [] []) false) as (rs & a & s & rb' & E & Hs & [B _]).
  - split; [by apply BB_init|]. simpl. lia.
  - by unfold bholds.
  - done.
  - eauto 10.
Qed.

(** Sends and receives over a five-byte buffer, wrapping once, with a send that
    does not fit, a receive while bytes are lent, and a send that times out. *)
Definition demo_ops : list bop :=
  [BSend FromISR [1; 2; 3; 4]; BSend (FromTask 7 10 [8]) [5; 6]; BReceive (FromTask 20 5 [20]) (Some 2); BReceive FromISR None;
   BReturn; BSend (FromTask 30 5 [31]) [5; 6; 7]; BSend (FromTask 40 5 []) [8]; BReceive FromISR None; BReturn;
   BReceive FromISR None; BReturn].

Lemma bytebuf_refines_queue_witness :
  client_ok false demo_ops 4096 (prvInitializeNewRingbuffer 5 RINGBUF_TYPE_BYTEBUF 4096 ∅) = true /\
  exists rs addr s rb',
    bops_run demo_ops 4096 (prvInitializeNewRingbuffer 5 RINGBUF_TYPE_BYTEBUF 4096 ∅) = Ok (rs, addr, rb') /\
    bspecs 5 (mkBqueue [] []) demo_ops rs s /\ BB rb' (bq_lent s) (bq_data s).
Proof.
  split; [vm_compute; reflexivity|].
  apply (bytebuf_refines_queue 5 4096 ∅ demo_ops); [lia|lia|lia|vm_compute; reflexivity].
Defined.

(** ** Blocking calls *)

(** What other tasks do while the caller waits keeps the ring buffer a byte
    buffer over the same storage. *)
Definition env_ok (w : wake) : Prop :=
  forall rb l q, BB rb l q -> exists l' q', BB (w_env w rb) l' q'.

(** A blocking receive on a byte buffer: whatever the other tasks do between
    wake-ups, and whenever the tick counter wraps, the call returns; either it
    times out with the buffer intact, or it returns the oldest run of queued
    bytes, which are then the bytes lent. *)
Theorem bytebuf_receive_blocking (now n ticks : Z) (ws : list wake) (rb : Ringbuffer_t) (l q : list Z)
    (B : BB rb l q) (Henv : Forall env_ok ws) (Hn : 0 <= n < 2 ^ 32) :
  exists r rb', prvReceiveGeneric now ws false n ticks rb = Ok (r, rb') /\
    ((r = None /\ exists l' q', BB rb' l' q') \/
     (exists it d q', r = Some (it, None) /\ it_size it = lenZ d /\ d <> [] /\
        (n = 0 \/ lenZ d <= n) /\ read_bytes (rb_mem rb') (it_addr it) (length d) = d /\ BB rb' d q')).
Proof.
  unfold prvReceiveGeneric. generalize (u32 (now + ticks)) as tend. generalize ticks at 2 as trem.
  intros trem tend. revert trem rb l q B.
  induction Henv as [|w ws Hw Henv IH]; intros trem rb l q B; simpl.
  { destruct (_ <=? _); eauto 10. }
  destruct (trem <=? ticks); [|eauto 10].
  destruct (Hw _ _ _ B) as (l1 & q1 & B1%(BB_rx _ _ _ false)).
  destruct (receive_isr_refines _ _ _ n B1 Hn) as (rb2 & F & [(E & Hno & B2)|(d & q' & E & -> & -> & Hd & Hdn & Hr & B2)]);
    unfold prvReceiveGenericFromISR in E; simpl in E.
  - destruct (prvCheckItemAvail _) eqn:Ea.
    + destruct (receive_items _ _ _) as [[[? ?] ?]| | |]; discriminate.
    + eapply IH, B1.
  - destruct (prvCheckItemAvail _); [|discriminate].
    rewrite E. eexists _, _. split; [reflexivity|]. right. eexists _, d, q'.
    split; [reflexivity|]. by rewrite lenZ_pos.
Qed.

(** A task that waits while another task's send comes in. *)
Definition other_sends (b : list Z) : wake :=
  mkWake (fun rb => match xRingbufferSendFromISR b rb with Ok (_, rb') => rb' | _ => rb end) 1.

Lemma other_sends_ok b : Forall is_byte b -> lenZ b < 2 ^ 32 -> env_ok (other_sends b).
Proof.
  intros Hb Hl rb l q B. simpl. pose proof (bb_bounds _ _ _ B).
  destruct (send_isr_refines rb (pucHead rb) (mkBqueue l q) b FromISR) as (ok & s' & rb' & E & _ & [B' _] & _);
    [split; [done|simpl; lia]|done|done|done|].
  rewrite E. eauto.
Qed.

Lemma bytebuf_receive_blocking_witness :
  let rb := prvInitializeNewRingbuffer 8 RINGBUF_TYPE_BYTEBUF 4096 ∅ in
  BB rb [] [] /\
  exists r rb', prvReceiveGeneric 0 [other_sends [7; 8]] false 0 10 rb = Ok (r, rb') /\
    ((r = None /\ exists l' q', BB rb' l' q') \/
     (exists it d q', r = Some (it, None) /\ it_size it = lenZ d /\ d <> [] /\
        (0 = 0 \/ lenZ d <= 0) /\ read_bytes (rb_mem rb') (it_addr it) (length d) = d /\ BB rb' d q')).
Proof.
  assert (B : BB (prvInitializeNewRingbuffer 8 RINGBUF_TYPE_BYTEBUF 4096 ∅) [] []) by (apply BB_init; lia).
  split; [exact B|].
  apply (bytebuf_receive_blocking 0 0 10 [other_sends [7; 8]] _ [] []); [exact B| |lia].
  constructor; [|constructor]. apply other_sends_ok; [repeat constructor; lia|reflexivity].
Defined.
