(* ===== verification/RingbufNoSplit.v ===== *)
(** * No-split ring buffers refine a queue of items

    The items in the storage are laid out in at most two contiguous runs: one
    from the free pointer, and, once the buffer has wrapped, one from the head.
    [NS rb s1 s2 lent] says that the ring buffer holds the items [s1 ++ s2] and
    that the first of them is lent to the reader when [lent] is true. *)
From S2P Require Import Prelude Mem Ringbuf RingbufByte.

(** ** Item sizes *)
Definition al (n : Z) : Z := rbALIGN_SIZE n.
Definition span {A} (d : list A) : Z := 8 + al (lenZ d).

Lemma al_bounds n : 0 <= n <= 2 ^ 32 - 4 -> n <= al n < n + 4 /\ al n mod 4 = 0.
Proof.
  intros. unfold al, rbALIGN_SIZE. rewrite align_up_4 by done.
  Z.to_euclidean_division_equations. lia.
Qed.

(** ** Contiguous runs of written items *)
Definition item_at (rb : Ringbuffer_t) (p : Z) (d : list Z) : Prop :=
  xItemLen rb p = lenZ d /\ flag (uxItemFlags rb p) rbITEM_WRITTEN_FLAG = true /\
  flag (uxItemFlags rb p) rbITEM_DUMMY_DATA_FLAG = false /\
  flag (uxItemFlags rb p) rbITEM_FREE_FLAG = false /\
  flag (uxItemFlags rb p) rbITEM_SPLIT_FLAG = false /\
  read_bytes (rb_mem rb) (p + 8) (length d) = d /\ lenZ d <= xMaxItemSize rb.

Fixpoint run (rb : Ringbuffer_t) (p : Z) (ds : list (list Z)) (e : Z) : Prop :=
  match ds with
  | [] => p = e
  | d :: ds => item_at rb p d /\ run rb (p + span d) ds e
  end.

(** A pointer with no room for a header behind it is moved to the head. *)
Definition norm (rb : Ringbuffer_t) (p : Z) : Z := if pucTail rb - p <? 8 then pucHead rb else p.

Record ns_geom (rb : Ringbuffer_t) : Prop := {
  ng_rb : rb_geom rb;
  ng_type : xType rb = RINGBUF_TYPE_NOSPLIT;
  ng_byte : flag (uxRingbufferFlags rb) rbBYTE_BUFFER_FLAG = false;
  ng_split : flag (uxRingbufferFlags rb) rbALLOW_SPLIT_FLAG = false;
  ng_head : pucHead rb mod 4 = 0;
  ng_size : xSize rb mod 4 = 0 /\ 12 <= xSize rb;
  ng_max : xMaxItemSize rb = al (xSize rb / 2) - 8
}.

Lemma span_bounds {A} (d : list A) : lenZ d <= 2 ^ 31 ->
  8 + lenZ d <= span d < 12 + lenZ d /\ span d mod 4 = 0.
Proof.
  intros. unfold span. destruct (al_bounds (lenZ d)) as [? ?]; [unfold lenZ in *; lia|].
  Z.to_euclidean_division_equations. lia.
Qed.

Definition dummy_at (rb : Ringbuffer_t) (p : Z) : Prop :=
  flag (uxItemFlags rb p) rbITEM_DUMMY_DATA_FLAG = true.

(** One run from the free pointer to the acquire pointer. *)
Definition unwrapped (rb : Ringbuffer_t) (s1 s2 : list (list Z)) : Prop :=
  s2 = [] /\ run rb (pucFree rb) s1 (pucAcquire rb) /\ rb_full rb = false.

(** A run from the free pointer to the tail, closed by dummy data when a header
    fits there, and a run from the head to the acquire pointer. *)
Definition wrapped (rb : Ringbuffer_t) (s1 s2 : list (list Z)) : Prop :=
  s1 ++ s2 <> [] /\
  (exists e, run rb (pucFree rb) s1 e /\ e <= pucTail rb /\
     (pucTail rb - e < 8 \/ (8 <= pucTail rb - e /\ dummy_at rb e /\ s2 <> []))) /\
  run rb (pucHead rb) s2 (pucAcquire rb) /\ pucAcquire rb <= pucFree rb /\
  rb_full rb = (pucAcquire rb =? pucFree rb).

(** The pointer past the first item. *)
Definition after_first (rb : Ringbuffer_t) (s1 s2 : list (list Z)) : Z :=
  match s1, s2 with
  | d :: _, _ => norm rb (pucFree rb + span d)
  | [], d :: _ => norm rb (pucHead rb + span d)
  | [], [] => pucFree rb
  end.

Definition ptr_ok (rb : Ringbuffer_t) (p : Z) : Prop :=
  pucHead rb <= p /\ 8 <= pucTail rb - p /\ p mod 4 = 0.

Record NS (rb : Ringbuffer_t) (s1 s2 : list (list Z)) (lent : bool) : Prop := {
  ns_g : ns_geom rb;
  ns_free : ptr_ok rb (pucFree rb);
  ns_acq : ptr_ok rb (pucAcquire rb);
  ns_write : pucWrite rb = pucAcquire rb;
  ns_layout : unwrapped rb s1 s2 \/ wrapped rb s1 s2;
  ns_read : pucRead rb = if lent then after_first rb s1 s2 else pucFree rb;
  ns_wait : xItemsWaiting rb = lenZ (s1 ++ s2) - (if lent then 1 else 0);
  ns_lent : lent = true -> s1 ++ s2 <> []
}.

(** ** Runs *)
Section runs.
Context (rb : Ringbuffer_t).

Lemma item_at_frame rb' p d :
  (forall b, p <= b < p + 8 + lenZ d -> load8 (rb_mem rb') b = load8 (rb_mem rb) b) ->
  xMaxItemSize rb' = xMaxItemSize rb -> item_at rb p d -> item_at rb' p d.
Proof.
  intros Hm Hx (H1 & H2 & H3 & H4 & H5 & H6 & H7). unfold lenZ in *.
  assert (E1 : xItemLen rb' p = xItemLen rb p) by (apply load32_ext; intros; apply Hm; lia).
  assert (E2 : uxItemFlags rb' p = uxItemFlags rb p) by (apply load32_ext; intros; apply Hm; lia).
  unfold item_at. rewrite E1, E2, Hx. repeat (split; [done|]). split; [|done].
  rewrite <- H6 at 2. apply read_bytes_ext. intros. apply Hm. lia.
Qed.

Lemma run_bounds p ds e :
  xMaxItemSize rb < 2 ^ 31 -> run rb p ds e -> p <= e /\ (p mod 4 = 0 -> e mod 4 = 0) /\ (ds <> [] -> p + 8 <= e).
Proof.
  intros Hx. revert p. induction ds as [|d ds IH]; intros p; simpl.
  { intros ->. split; [lia|]. by split. }
  intros [Hi Hr]. destruct (IH _ Hr) as (? & Hm & _).
  destruct Hi as (_&_&_&_&_&_&Hl).
  destruct (span_bounds d ltac:(lia)). unfold lenZ in *.
  split; [lia|]. split; [|lia]. intros. apply Hm. Z.to_euclidean_division_equations. lia.
Qed.

Lemma run_frame rb' p ds e :
  xMaxItemSize rb < 2 ^ 31 -> xMaxItemSize rb' = xMaxItemSize rb ->
  (forall b, p <= b < e -> load8 (rb_mem rb') b = load8 (rb_mem rb) b) ->
  run rb p ds e -> run rb' p ds e.
Proof.
  intros Hx Hx'. revert p. induction ds as [|d ds IH]; intros p Hm; simpl; [done|].
  intros [Hi Hr]. pose proof (run_bounds _ _ _ Hx Hr) as [Hle _].
  pose proof Hi as (_&_&_&_&_&_&Hl). destruct (span_bounds d ltac:(lia)). unfold lenZ in *.
  split; [|apply IH; [|done]; intros; apply Hm; lia].
  apply item_at_frame; [|done|done]. intros. apply Hm. unfold lenZ in *. lia.
Qed.

Lemma run_snoc p ds e d :
  run rb p ds e -> item_at rb e d -> run rb p (ds ++ [d]) (e + span d).
Proof.
  revert p. induction ds as [|d' ds IH]; intros p; simpl.
  - intros -> Hi. done.
  - intros [Hi Hr] Hd. split; [done|]. by apply IH.
Qed.
End runs.

Lemma layout_ext rb rb' s1 s2 :
  xMaxItemSize rb < 2 ^ 31 -> xMaxItemSize rb' = xMaxItemSize rb -> rb_mem rb' = rb_mem rb ->
  pucFree rb' = pucFree rb -> pucAcquire rb' = pucAcquire rb -> pucHead rb' = pucHead rb ->
  pucTail rb' = pucTail rb -> uxRingbufferFlags rb' = uxRingbufferFlags rb ->
  unwrapped rb s1 s2 \/ wrapped rb s1 s2 -> unwrapped rb' s1 s2 \/ wrapped rb' s1 s2.
Proof.
  intros Hx Ex Em Ef Ea Eh Et Efl.
  assert (R : forall p ds e, run rb p ds e -> run rb' p ds e)
    by (intros; apply (run_frame rb); [done|done|by rewrite Em|done]).
  unfold unwrapped, wrapped, dummy_at, uxItemFlags, rb_full. rewrite Em, Ef, Ea, Eh, Et, Efl.
  intros [(?&?&?)|(?&(e&?&?&?)&?&?&?)]; [left|right]; repeat split; auto.
  exists e. auto.
Qed.

(** ** Geometry *)
Section geometry.
Context (rb : Ringbuffer_t) (G : ns_geom rb).

Lemma ng_bounds :
  0 < pucHead rb /\ pucTail rb = pucHead rb + xSize rb /\ pucTail rb < 2 ^ 32 /\
  12 <= xSize rb < 2 ^ 31 /\ 0 <= xMaxItemSize rb /\ xMaxItemSize rb mod 4 = 0 /\
  2 * (xMaxItemSize rb + 8) <= xSize rb + 4.
Proof.
  destruct (ng_rb _ G), (ng_size _ G). rewrite (ng_max _ G).
  destruct (al_bounds (xSize rb / 2)) as [? ?]; [Z.to_euclidean_division_equations; lia|].
  repeat (split; [done || lia|]). Z.to_euclidean_division_equations. lia.
Qed.

Lemma al_max n : 0 <= n <= xMaxItemSize rb -> n <= al n <= xMaxItemSize rb /\ al n mod 4 = 0.
Proof.
  intros. pose proof ng_bounds. destruct (al_bounds n) as [? ?]; [lia|].
  split; [|done]. Z.to_euclidean_division_equations. lia.
Qed.

(** An item of at most the maximum size fits on one side of any pointer: the
    worst case of the comment in [prvInitializeNewRingbuffer]. *)
Lemma max_fits_somewhere p n :
  ptr_ok rb p -> 0 <= n <= xMaxItemSize rb ->
  al n + 8 <= pucTail rb - p \/ al n + 8 <= p - pucHead rb.
Proof.
  intros (? & ? & ?) Hn. pose proof ng_bounds. pose proof (al_max n Hn).
  pose proof (ng_head _ G). destruct (ng_size _ G).
  Z.to_euclidean_division_equations. lia.
Qed.

Lemma norm_ptr_ok p : pucHead rb <= p <= pucTail rb -> p mod 4 = 0 -> ptr_ok rb (norm rb p).
Proof.
  intros. pose proof ng_bounds. pose proof (ng_head _ G). unfold norm, ptr_ok.
  case_cmp; repeat split; lia || done.
Qed.

Lemma wraps_norm rb' p :
  pucTail rb' = pucTail rb -> pucHead rb <= p <= pucTail rb ->
  wraps rb' p = (pucTail rb - p <? 8).
Proof.
  intros E ?. pose proof ng_bounds. unfold wraps, rbHEADER_SIZE. rewrite E, ptr_diff by lia. done.
Qed.
End geometry.

(** ** Writing an item *)

Definition acquired_mem (m : mem) (w n : Z) : mem := store32 (store32 m w n) (w + 4) 0.

(** Where the next item goes: at the acquire pointer, or at the head when it
    does not fit before the tail. *)
Definition place (rb : Ringbuffer_t) (n : Z) : Z :=
  if pucTail rb - pucAcquire rb <? al n + 8 then pucHead rb else pucAcquire rb.
(** Dummy data is left at the acquire pointer when the item goes to the head. *)
Definition dummied (rb : Ringbuffer_t) (n : Z) : mem :=
  if pucTail rb - pucAcquire rb <? al n + 8
  then store32 (store32 (rb_mem rb) (pucAcquire rb + 4) rbITEM_DUMMY_DATA_FLAG) (pucAcquire rb) 0
  else rb_mem rb.

Section send.
Context (rb : Ringbuffer_t) (G : ns_geom rb) (Ha : ptr_ok rb (pucAcquire rb)).

Lemma acquire_checks :
  rbCHECK_ALIGNED (pucAcquire rb) = true /\ acquire_in_bounds rb = true.
Proof.
  destruct Ha as (? & ? & ?). split; [by apply word_aligned_mod|].
  unfold acquire_in_bounds. bsolve.
Qed.

Lemma total_size n : 0 <= n <= xMaxItemSize rb -> u32 (rbALIGN_SIZE n + rbHEADER_SIZE) = al n + 8.
Proof.
  intros Hn. pose proof (ng_bounds _ G). pose proof (al_max _ G n Hn). unfold rbHEADER_SIZE. fold (al n).
  rewrite ptr_diff; lia.
Qed.

Lemma acquire_run n :
  0 <= n <= xMaxItemSize rb -> place rb n + (al n + 8) <= pucTail rb ->
  prvAcquireItemNoSplit n rb =
    Ok (place rb n + 8,
        check_full (rb <| rb_mem := acquired_mem (dummied rb n) (place rb n) n |>
                       <| pucAcquire := norm rb (place rb n + (al n + 8)) |>)).
Proof.
  intros Hn Hp. pose proof (ng_bounds _ G) as Hb. pose proof (al_max _ G n Hn) as Hal.
  destruct acquire_checks as [C1 C2]. destruct Ha as (? & ? & ?).
  unfold prvAcquireItemNoSplit. oassert assumption. oassert assumption.
  rewrite total_size by done. rewrite ptr_diff by lia.
  oassert ltac:(unfold rbHEADER_SIZE; bsolve).
  unfold place, dummied in *. fold (al n).
  destruct (Z.ltb_spec (pucTail rb - pucAcquire rb) (al n + 8)); cbn;
    rewrite (wraps_norm _ G) by (unfold rbHEADER_SIZE; (reflexivity || lia));
    unfold norm, rbHEADER_SIZE; do 2 f_equal; f_equal;
    repeat match goal with |- context [?x + (8 + al n)] => replace (x + (8 + al n)) with (x + (al n + 8)) by lia end;
    destruct (_ <? 8); reflexivity.
Qed.
End send.

(** Fields the geometry depends on. *)
Definition same_geom (rb rb' : Ringbuffer_t) : Prop :=
  xSize rb' = xSize rb /\ pucHead rb' = pucHead rb /\ pucTail rb' = pucTail rb /\
  xType rb' = xType rb /\ xMaxItemSize rb' = xMaxItemSize rb /\
  flag (uxRingbufferFlags rb') (2 ^ 1) = flag (uxRingbufferFlags rb) (2 ^ 1) /\
  flag (uxRingbufferFlags rb') (2 ^ 0) = flag (uxRingbufferFlags rb) (2 ^ 0).

Lemma ns_geom_ext rb rb' : same_geom rb rb' -> ns_geom rb -> ns_geom rb'.
Proof.
  intros (E1 & E2 & E3 & E4 & E5 & E6 & E7) [[] ? Hb Hs ? ? ?].
  split; rewrite ?E1, ?E2, ?E3, ?E4, ?E5; try done.
  - split; by rewrite ?E1, ?E2, ?E3.
  - by rewrite <- Hb.
  - by rewrite <- Hs.
Qed.
Lemma same_geom_refl rb : same_geom rb rb.
Proof. by repeat split. Qed.
Lemma same_geom_full rb : same_geom rb (set_full rb).
Proof.
  repeat split; simpl.
  - by rewrite (full_set_other _ 1) by lia.
  - by rewrite (full_set_other _ 0) by lia.
Qed.
Lemma same_geom_clear rb : same_geom rb (clear_full rb).
Proof.
  repeat split; simpl.
  - by rewrite (full_clear_other _ 1) by lia.
  - by rewrite (full_clear_other _ 0) by lia.
Qed.
Lemma check_full_flags rb :
  check_full rb = rb <| uxRingbufferFlags :=
    if pucAcquire rb =? pucFree rb then Z.lor (uxRingbufferFlags rb) rbBUFFER_FULL_FLAG
    else uxRingbufferFlags rb |>.
Proof. unfold check_full, set_full. destruct rb; cbn. by destruct (_ =? _). Qed.

(** ** The write pointer catches up *)
Section advance.
Context (rb : Ringbuffer_t) (G : ns_geom rb).

Lemma advance_write_stop k : pucWrite rb = pucAcquire rb -> advance_write (S k) rb = Ok rb.
Proof. intros E. simpl. rewrite E, Z.eqb_refl. by rewrite andb_false_r. Qed.

Lemma advance_write_item k n :
  flag (uxItemFlags rb (pucWrite rb)) rbITEM_WRITTEN_FLAG = true ->
  flag (uxItemFlags rb (pucWrite rb)) rbITEM_DUMMY_DATA_FLAG = false ->
  xItemLen rb (pucWrite rb) = n -> 0 <= n <= xMaxItemSize rb ->
  pucHead rb <= pucWrite rb -> pucWrite rb + (al n + 8) <= pucTail rb ->
  norm rb (pucWrite rb + (al n + 8)) = pucAcquire rb ->
  advance_write (S (S k)) rb = Ok (rb <| pucWrite := pucAcquire rb |>).
Proof.
  intros F1 F2 En Hn Hh Ht Ea. pose proof (ng_bounds _ G). pose proof (al_max _ G n Hn).
  destruct (Z.eqb_spec (pucWrite rb) (pucAcquire rb)) as [E|E].
  { rewrite advance_write_stop by done. rewrite <- E. by destruct rb. }
  cbn [advance_write]. rewrite F1, F2. destruct (Z.eqb_spec (pucWrite rb) (pucAcquire rb)); [done|].
  cbn [andb orb negb]. rewrite En. fold (al n). cbn. unfold rbHEADER_SIZE in *.
  destruct (Z.leb_spec (pucWrite rb + (al n + 8)) (pucHead rb + xSize rb)); [|lia]. cbn.
  rewrite (wraps_norm _ G) by (done || lia). unfold norm in Ea.
  destruct (_ <? 8); cbn; rewrite Ea, Z.eqb_refl, andb_false_r; done.
Qed.

Lemma advance_write_dummy k :
  flag (uxItemFlags rb (pucWrite rb)) rbITEM_DUMMY_DATA_FLAG = true ->
  pucWrite rb <> pucAcquire rb ->
  advance_write (S k) rb =
    advance_write k
      (rb <| rb_mem := store32 (rb_mem rb) (pucWrite rb + 4)
                         (Z.lor (uxItemFlags rb (pucWrite rb)) rbITEM_WRITTEN_FLAG) |>
          <| pucWrite := pucHead rb |>).
Proof.
  intros F E. pose proof (ng_bounds _ G). cbn [advance_write]. rewrite F, orb_true_r.
  destruct (Z.eqb_spec (pucWrite rb) (pucAcquire rb)); [done|]. cbn.
  rewrite (wraps_norm _ G) by (done || lia). destruct (Z.ltb_spec (pucTail rb - pucHead rb) 8); [lia|done].
Qed.
End advance.

(** ** A whole send *)

Lemma uxItemFlags_set p v rb : is_u32 v -> uxItemFlags (set_uxItemFlags p v rb) p = v.
Proof. intros. by apply load32_store32_eq. Qed.

Definition written_mem (m : mem) (w : Z) : mem := store32 (store32 m (w + 4) 0) (w + 4) 8.

Lemma send_done_run rb w n (G : ns_geom rb) :
  xItemLen rb w = n -> 0 <= n <= xMaxItemSize rb -> uxItemFlags rb w = 0 ->
  pucHead rb <= w -> w + (al n + 8) <= pucTail rb -> w mod 4 = 0 ->
  prvSendItemDoneNoSplit (w + 8) rb =
    advance_write (rb_fuel rb) (rb <| rb_mem := written_mem (rb_mem rb) w |>
                                   <| xItemsWaiting := xItemsWaiting rb + 1 |>).
Proof.
  intros En Hn Ef Hh Ht Hw. pose proof (ng_bounds _ G). pose proof (al_max _ G n Hn).
  unfold prvSendItemDoneNoSplit, rbHEADER_SIZE. replace (w + 8 - 8) with w by lia.
  oassert ltac:(apply word_aligned_mod; rewrite Z.add_mod, Hw by lia; done).
  do 2 oassert bsolve. rewrite En, Ef. oassert bsolve. do 2 oassert done.
  change (Z.ldiff 0 rbITEM_SPLIT_FLAG) with 0.
  rewrite uxItemFlags_set by (unfold is_u32; lia). done.
Qed.

(** The memory after a send: the item is written at [w], and dummy data has been
    left at the acquire pointer when the item went to the head. *)
Record sent (rb : Ringbuffer_t) (b : list Z) (m' : mem) : Prop := {
  sent_len : load32 m' (place rb (lenZ b)) = lenZ b;
  sent_flags : load32 m' (place rb (lenZ b) + 4) = rbITEM_WRITTEN_FLAG;
  sent_data : read_bytes m' (place rb (lenZ b) + 8) (length b) = b;
  sent_dummy : place rb (lenZ b) <> pucAcquire rb ->
    flag (load32 m' (pucAcquire rb + 4)) rbITEM_DUMMY_DATA_FLAG = true;
  sent_frame : forall p,
    (p < place rb (lenZ b) \/ place rb (lenZ b) + 8 + lenZ b <= p) ->
    (place rb (lenZ b) <> pucAcquire rb -> p < pucAcquire rb \/ pucAcquire rb + 8 <= p) ->
    load8 m' p = load8 (rb_mem rb) p
}.

Section send_all.
Context (rb : Ringbuffer_t) (G : ns_geom rb) (Ha : ptr_ok rb (pucAcquire rb))
  (Ew : pucWrite rb = pucAcquire rb) (b : list Z) (HF : Forall is_byte b)
  (Hn : lenZ b <= xMaxItemSize rb) (Hp : place rb (lenZ b) + (al (lenZ b) + 8) <= pucTail rb)
  (Hd : place rb (lenZ b) <> pucAcquire rb -> pucHead rb + (al (lenZ b) + 8) <= pucAcquire rb).

#[local] Abbreviation n := (lenZ b).
#[local] Abbreviation w := (place rb (lenZ b)).
#[local] Abbreviation a := (pucAcquire rb).

Lemma place_cases :
  (w = a /\ dummied rb n = rb_mem rb) \/
  (w = pucHead rb /\ w <> a /\ w + (al n + 8) <= a /\
   dummied rb n = store32 (store32 (rb_mem rb) (a + 4) rbITEM_DUMMY_DATA_FLAG) a 0).
Proof.
  revert Hd Hp. unfold place, dummied. destruct Ha as (? & ? & ?).
  destruct (_ <? _) eqn:E; [|by left].
  intros Hd' Hp'. destruct (decide (pucHead rb = a)) as [F|F].
  - exfalso. apply Z.ltb_lt in E. rewrite F in Hp'. lia.
  - right. specialize (Hd' F). by repeat split; try lia.
Qed.

(** The memory just after [prvSendItemDoneNoSplit] has marked the item. *)
Definition marked : mem :=
  written_mem (write_bytes (acquired_mem (dummied rb n) w n) (w + 8) b) w.

Lemma n_bounds : 0 <= n < 2 ^ 32 /\ n <= al n /\ 8 <= w + 8.
Proof.
  pose proof (ng_bounds _ G). pose proof (lenZ_nonneg b). pose proof (al_max _ G n ltac:(lia)).
  destruct Ha as (?&?&?). destruct place_cases as [[-> _]|[-> _]]; lia.
Qed.

Ltac out := repeat first
  [rewrite load32_store32_ne by (unfold lenZ in *; lia)
  |rewrite load32_write_bytes_ne by (unfold lenZ in *; lia)
  |rewrite load8_store32_ne by (unfold lenZ in *; lia)
  |rewrite load8_write_bytes_ne by (unfold lenZ in *; lia)
  |rewrite read_bytes_store32_ne by (unfold lenZ in *; lia)
  |rewrite load32_store32_eq by (cbv [is_u32 rbITEM_DUMMY_DATA_FLAG]; lia)].

Lemma marked_sent : sent rb b marked.
Proof.
  pose proof n_bounds. pose proof (ng_bounds _ G). destruct Ha as (?&?&?).
  unfold marked, written_mem, acquired_mem. split.
  - out. done.
  - out. done.
  - out. by apply read_write_bytes.
  - intros Hne. destruct place_cases as [[? _]|(E1 & E2 & E3 & E4)]; [done|].
    out. rewrite E4. out. done.
  - intros p Hp1 Hp2. out. destruct place_cases as [[E ->]|(E1 & E2 & E3 & ->)]; [done|].
    specialize (Hp2 E2). out. done.
Qed.

#[local] Abbreviation acq' := (norm rb (w + (al n + 8))).

(** The ring buffer with its acquire pointer moved, and memory [m]. *)
Definition moved (m : mem) : Ringbuffer_t :=
  (check_full (rb <| pucAcquire := acq' |>)) <| rb_mem := m |>.

#[local] Arguments moved m : simpl never.

Definition after_send (m' : mem) : Ringbuffer_t :=
  (moved m') <| pucWrite := acq' |> <| xItemsWaiting := xItemsWaiting rb + 1 |>.

Lemma moved_fields m :
  pucWrite (moved m) = a /\ pucAcquire (moved m) = acq' /\ pucHead (moved m) = pucHead rb /\
  pucTail (moved m) = pucTail rb /\ xMaxItemSize (moved m) = xMaxItemSize rb /\
  rb_mem (moved m) = m /\ pucFree (moved m) = pucFree rb /\ pucRead (moved m) = pucRead rb /\
  xItemsWaiting (moved m) = xItemsWaiting rb /\
  rb_full (moved m) = (rb_full rb || (acq' =? pucFree rb)).
Proof.
  unfold moved. rewrite check_full_flags. repeat (split; [done|]).
  unfold rb_full. cbn. destruct (_ =? _); [by rewrite full_set, orb_true_r|by rewrite orb_false_r].
Qed.

Lemma same_geom_moved m : same_geom rb (moved m).
Proof.
  unfold moved, check_full. cbn.
  destruct (_ =? _); [apply (same_geom_full rb)|apply (same_geom_refl rb)].
Qed.
Lemma moved_geom m : ns_geom (moved m).
Proof. apply (ns_geom_ext rb); [apply same_geom_moved|done]. Qed.

Lemma moved_geom_write m x p : ns_geom ((moved m) <| xItemsWaiting := x |> <| pucWrite := p |>).
Proof. apply (ns_geom_ext (moved m)); [by repeat split|apply moved_geom]. Qed.
Lemma moved_geom_wait m x : ns_geom ((moved m) <| xItemsWaiting := x |>).
Proof. apply (ns_geom_ext (moved m)); [by repeat split|apply moved_geom]. Qed.

Definition copied : mem := write_bytes (acquired_mem (dummied rb n) w n) (w + 8) b.

Lemma place_bounds : pucHead rb <= w /\ w mod 4 = 0.
Proof.
  pose proof (ng_head _ G). destruct Ha as (?&?&?).
  destruct place_cases as [[-> _]|[-> _]]; lia.
Qed.

Lemma copy_run_marked :
  prvCopyItemNoSplit b rb =
    advance_write (rb_fuel rb) ((moved marked) <| xItemsWaiting := xItemsWaiting rb + 1 |>).
Proof.
  pose proof n_bounds as Hnb. destruct place_bounds as [Hw Hw4].
  unfold prvCopyItemNoSplit. fold n. rewrite acquire_run by (done || lia). ostep. cbn beta iota.
  transitivity (prvSendItemDoneNoSplit (w + 8) (moved copied)).
  { unfold moved. by rewrite !check_full_flags. }
  destruct (moved_fields copied) as (F1 & F2 & F3 & F4 & F5 & F6 & _ & _ & F7 & _).
  rewrite (send_done_run _ w n (moved_geom copied)); rewrite ?F3, ?F4, ?F5; try lia.
  - rewrite F6, F7. unfold moved. rewrite !check_full_flags. done.
  - unfold xItemLen. rewrite F6. unfold copied, acquired_mem.
    rewrite load32_write_bytes_ne, load32_store32_ne, load32_store32_eq by (unfold is_u32; lia). done.
  - unfold uxItemFlags. rewrite F6. unfold copied, acquired_mem.
    rewrite load32_write_bytes_ne, load32_store32_eq by (unfold is_u32; lia). done.
Qed.

(** Marking the dummy data again, as the loop does, changes nothing else. *)
Lemma sent_mark_dummy m v :
  w <> a -> sent rb b m -> is_u32 v -> flag v rbITEM_DUMMY_DATA_FLAG = true ->
  sent rb b (store32 m (a + 4) v).
Proof.
  intros Hne [] Hv Hf. pose proof n_bounds. destruct Ha as (?&?&?).
  destruct place_cases as [[? _]|(E1 & E2 & E3 & E4)]; [done|].
  split.
  - by rewrite load32_store32_ne by lia.
  - by rewrite load32_store32_ne by lia.
  - unfold lenZ in *. by rewrite read_bytes_store32_ne by lia.
  - intros _. by rewrite load32_store32_eq.
  - intros p Hp1 Hp2. rewrite load8_store32_ne; [by apply sent_frame0|]. specialize (Hp2 Hne). lia.
Qed.

Lemma advance_marked k m :
  sent rb b m ->
  advance_write (S (S k)) ((moved m) <| xItemsWaiting := xItemsWaiting rb + 1 |> <| pucWrite := w |>)
  = Ok (after_send m).
Proof.
  intros S. pose proof n_bounds. destruct place_bounds as [Hw Hw4].
  destruct (moved_fields m) as (F1 & F2 & F3 & F4 & F5 & F6 & _).
  rewrite (advance_write_item _ (moved_geom_write m _ _) k n).
  1: unfold after_send; cbn; by rewrite F2.
  all: unfold uxItemFlags, xItemLen; cbn; rewrite ?F3, ?F4, ?F5, ?F6; try lia.
  - by rewrite (sent_flags _ _ _ S).
  - by rewrite (sent_flags _ _ _ S).
  - by rewrite (sent_len _ _ _ S).
  - by rewrite F2.
Qed.

Lemma copy_nosplit_run :
  exists m', prvCopyItemNoSplit b rb = Ok (after_send m') /\ sent rb b m'.
Proof.
  rewrite copy_run_marked.
  assert (Hfuel : exists k, rb_fuel rb = S (S (S k))).
  { destruct (ng_size _ G). unfold rb_fuel. exists (Z.to_nat (xSize rb) - 1)%nat. lia. }
  destruct Hfuel as [k ->].
  destruct (moved_fields marked) as (F1 & F2 & F3 & F4 & F5 & F6 & _ & _ & F7 & _).
  destruct place_cases as [[Ew2 _]|(Ew2 & Hne & Hle & _)].
  - exists marked. split; [|apply marked_sent].
    rewrite <- (advance_marked (S k)) by auto using marked_sent. f_equal.
    rewrite Ew2, <- F1. by destruct (moved marked).
  - destruct (decide (a = acq')) as [Hna|Hna].
    { exists marked. split; [|apply marked_sent]. rewrite advance_write_stop.
      - f_equal. unfold after_send. rewrite <- Hna, <- F1. by destruct (moved marked).
      - cbn. by rewrite F1, F2. }
    pose proof (sent_dummy _ _ _ marked_sent Hne) as Hdm.
    rewrite (advance_write_dummy _ (moved_geom_wait _ _)).
    2,3: unfold uxItemFlags; cbn; by rewrite F1, ?F2, ?F6.
    set (v := Z.lor (load32 marked (a + 4)) rbITEM_WRITTEN_FLAG).
    assert (S : sent rb b (store32 marked (a + 4) v)).
    { apply sent_mark_dummy; [done|apply marked_sent| |].
      - apply is_u32_lor; [apply load32_range|done].
      - unfold v. rewrite (flag_lor _ 3 1) by lia. change (2 ^ 1) with rbITEM_DUMMY_DATA_FLAG.
        by rewrite Hdm. }
    eexists. split; [|exact S]. rewrite <- (advance_marked k) by exact S. f_equal.
    unfold moved, uxItemFlags. rewrite !check_full_flags. cbn. by rewrite Ew, Ew2.
Qed.
End send_all.
Arguments moved : simpl never.
Arguments after_send : simpl never.

Lemma sent_item_at rb rb' b m' :
  sent rb b m' -> rb_mem rb' = m' -> lenZ b <= xMaxItemSize rb' ->
  item_at rb' (place rb (lenZ b)) b.
Proof.
  intros [] Em Hx. unfold item_at, xItemLen, uxItemFlags. rewrite Em, sent_len0, sent_flags0.
  by repeat split.
Qed.

(** Where the oldest item starts. *)
Definition first_start (rb : Ringbuffer_t) (s1 : list (list Z)) : Z :=
  match s1 with [] => pucHead rb | _ => pucFree rb end.

Section ns_ops.
Context (rb : Ringbuffer_t) (s1 s2 : list (list Z)) (lent : bool) (N : NS rb s1 s2 lent).
#[local] Abbreviation G := (ns_g _ _ _ _ N).
#[local] Abbreviation a := (pucAcquire rb).
#[local] Abbreviation f := (pucFree rb).

Lemma ns_bounds :
  0 < pucHead rb /\ pucTail rb < 2 ^ 32 /\ 12 <= xSize rb < 2 ^ 31 /\ pucTail rb = pucHead rb + xSize rb /\
  pucHead rb <= f /\ 8 <= pucTail rb - f /\ f mod 4 = 0 /\
  pucHead rb <= a /\ 8 <= pucTail rb - a /\ a mod 4 = 0 /\
  0 <= xMaxItemSize rb < 2 ^ 31 /\ pucHead rb mod 4 = 0.
Proof.
  pose proof (ng_bounds _ G). destruct (ns_free _ _ _ _ N) as (?&?&?), (ns_acq _ _ _ _ N) as (?&?&?).
  pose proof (ng_head _ G). lia.
Qed.

(** What the free-space test answers, in the two layouts. *)
Lemma ns_fits n : 0 <= n <= xMaxItemSize rb ->
  prvCheckItemFitsDefault rb n =
    Ok (if a =? f then negb (rb_full rb)
        else if a <? f then al n + 8 <=? f - a
        else (al n + 8 <=? pucTail rb - a) || (al n + 8 <=? f - pucHead rb)).
Proof.
  intros Hn. pose proof ns_bounds. destruct (acquire_checks rb (ns_acq _ _ _ _ N)) as [C1 C2].
  unfold prvCheckItemFitsDefault. oassert assumption. oassert assumption.
  rewrite (total_size rb G n Hn). f_equal.
  pose proof (ng_split _ G) as Hs. rewrite Hs.
  case_cmp; try lia; try done;
    repeat match goal with H : context [u32 ?x] |- _ => rewrite (ptr_diff x) in H by lia end;
    simpl; try lia; try done.
Qed.

(** An empty buffer takes any item up to the maximum size. *)
Lemma ns_empty_fits n : s1 ++ s2 = [] -> 0 <= n <= xMaxItemSize rb ->
  prvCheckItemFitsDefault rb n = Ok true.
Proof.
  intros E Hn. rewrite ns_fits by done.
  destruct (ns_layout _ _ _ _ N) as [(_ & Hr & Hf)|(Hne & _)]; [|done].
  apply app_eq_nil in E as [-> _]. simpl in Hr. rewrite Hr, Z.eqb_refl, Hf. done.
Qed.

Lemma ns_place n : 0 <= n <= xMaxItemSize rb -> prvCheckItemFitsDefault rb n = Ok true ->
  place rb n + (al n + 8) <= pucTail rb /\
  (place rb n <> a -> pucHead rb + (al n + 8) <= f /\ f <= a /\ place rb n = pucHead rb) /\
  (a < f -> place rb n = a /\ a + (al n + 8) <= f) /\
  (place rb n = a \/ pucHead rb + (al n + 8) <= a) /\
  (rb_full rb = false).
Proof.
  intros Hn. pose proof ns_bounds. rewrite ns_fits by done. intros [= Hfit].
  pose proof (max_fits_somewhere rb G a n (ns_acq _ _ _ _ N) Hn).
  pose proof (al_max rb G n Hn) as Hal.
  assert (Hfull : rb_full rb = false).
  { destruct (ns_layout _ _ _ _ N) as [(_ & _ & ?)|(_ & _ & _ & Hle & Hf)]; [done|].
    rewrite Hf in *. revert Hfit. case_cmp; try done. }
  revert Hfit. unfold place. case_cmp; simpl; intros Hfit; try done; repeat split; try done; try lia.
  all: try (intros; exfalso; lia).
Qed.

(** ** A send that fits appends the item *)
Section appended.
Context (b : list Z) (m' : mem) (S : sent rb b m') (Hn : lenZ b <= xMaxItemSize rb)
  (Hfit : prvCheckItemFitsDefault rb (lenZ b) = Ok true).
#[local] Abbreviation w := (place rb (lenZ b)).
#[local] Abbreviation rb' := (after_send rb b m').

Lemma span_al : span b = al (lenZ b) + 8.
Proof. unfold span. lia. Qed.

Lemma after_send_fields :
  pucWrite rb' = norm rb (w + span b) /\ pucAcquire rb' = norm rb (w + span b) /\
  pucHead rb' = pucHead rb /\ pucTail rb' = pucTail rb /\ xMaxItemSize rb' = xMaxItemSize rb /\
  rb_mem rb' = m' /\ pucFree rb' = f /\ pucRead rb' = pucRead rb /\
  xItemsWaiting rb' = xItemsWaiting rb + 1 /\
  rb_full rb' = (rb_full rb || (norm rb (w + span b) =? f)).
Proof.
  rewrite span_al. destruct (moved_fields rb (ns_write _ _ _ _ N) b m') as (F1&F2&F3&F4&F5&F6&F7&F8&F9&F10).
  unfold after_send. cbn. rewrite F2, F3, F4, F5, F6, F7, F8. repeat (split; [done|]).
  rewrite <- F10. done.
Qed.

Lemma appended_item : item_at rb' w b.
Proof.
  destruct after_send_fields as (_&_&_&_&F5&F6&_).
  apply (sent_item_at _ _ _ _ S F6). by rewrite F5.
Qed.

(** Runs that do not meet the bytes written are kept. *)
Lemma appended_run p ds e :
  run rb p ds e -> (e <= w \/ w + span b <= p) -> (w <> a -> e <= a \/ a + 8 <= p) ->
  run rb' p ds e.
Proof.
  intros Hr Hw Hwa. destruct after_send_fields as (_&_&_&_&F5&F6&_). pose proof ns_bounds.
  pose proof (lenZ_nonneg b). destruct (span_bounds b ltac:(lia)).
  apply (run_frame rb); [lia|done| |done]. intros p' Hp'. rewrite F6.
  apply (sent_frame _ _ _ S); [lia|]. intros Hne. specialize (Hwa Hne). lia.
Qed.

Lemma appended_layout :
  exists t1 t2, t1 ++ t2 = (s1 ++ s2) ++ [b] /\ (unwrapped rb' t1 t2 \/ wrapped rb' t1 t2) /\
    (s1 <> [] -> exists u, t1 = s1 ++ u) /\ (s1 = [] -> s2 <> [] -> t1 = [] /\ exists u, t2 = s2 ++ u).
Proof.
  pose proof ns_bounds as Hb. pose proof (lenZ_nonneg b).
  destruct (ns_place (lenZ b) ltac:(lia) Hfit) as (P1 & P2 & P3 & P4 & P5).
  destruct after_send_fields as (F1&F2&F3&F4&F5&F6&F7&F8&F9&F10).
  destruct (span_bounds b ltac:(lia)) as [Hsp Hsp4]. rewrite <- span_al in *.
  replace (al (lenZ b) + 8) with (span b) in * by (unfold span; lia).
  pose proof appended_item as Hi. rewrite P5 in F10. simpl in F10.
  destruct (ns_layout _ _ _ _ N) as [(Es2 & Hr & _)|(Hne & (e & Hr & He & Hed) & Hr2 & Hle & Hf)].
  - pose proof (run_bounds rb _ _ _ ltac:(lia) Hr) as [Hfa _]. rewrite Es2, app_nil_r.
    destruct (decide (w = a)) as [Ew|Ew].
    + exists (s1 ++ [b]), []. rewrite app_nil_r. split; [done|]. split; [|split; [eauto|done]].
      assert (Hrun : run rb' f (s1 ++ [b]) (a + span b)).
      { rewrite <- Ew in *. apply run_snoc; [|done]. apply appended_run; [done|lia|done]. }
      unfold unwrapped, wrapped. rewrite F2, F3, F4, F7, F10, Ew. unfold norm.
      destruct (Z.ltb_spec (pucTail rb - (a + span b)) 8); [right|left].
      * rewrite app_nil_r. split; [by destruct s1|]. split; [|simpl; split; [done|split; [lia|done]]].
        exists (a + span b). split; [done|]. lia.
      * split; [done|]. split; [done|]. bsolve.
    + destruct (P2 Ew) as (Q1 & Q2 & Q3). exists s1, [b].
      split; [done|]. split; [right|split; [intros; exists []; by rewrite app_nil_r|]].
      2:{ intros _ Hx. by destruct Hx. }
      assert (En : norm rb (w + span b) = pucHead rb + span b).
      { rewrite Q3. unfold norm. case_cmp; lia. }
      unfold wrapped. rewrite F2, F3, F4, F7, F10, En.
      split; [by destruct s1|]. split; [|split; [rewrite <- Q3; by split|split; [lia|done]]].
      exists a. split; [apply appended_run; [done|lia|lia]|]. split; [lia|]. right. split; [lia|]. split; [|done].
      unfold dummy_at, uxItemFlags. rewrite F6. by apply (sent_dummy _ _ _ S).
  - assert (Haf : a < f).
    { rewrite P5 in Hf. symmetry in Hf. apply Z.eqb_neq in Hf. lia. }
    destruct (P3 Haf) as [Ew Hroom]. pose proof (run_bounds rb _ _ _ ltac:(lia) Hr) as [Hfe _].
    pose proof (run_bounds rb _ _ _ ltac:(lia) Hr2) as [Hha _].
    exists s1, (s2 ++ [b]). split; [apply app_assoc|].
    split; [right|split; [intros; exists []; by rewrite app_nil_r|eauto]].
    assert (En : norm rb (w + span b) = a + span b).
    { rewrite Ew. unfold norm. case_cmp; lia. }
    unfold wrapped. rewrite F2, F3, F4, F7, F10, En.
    split; [intros [_ E]%app_eq_nil; by destruct s2|].
    split; [|split; [|split; [lia|done]]].
    + exists e. split; [apply appended_run; [done|lia|by intros]|]. split; [done|].
      destruct Hed as [?|(? & Hdm & ?)]; [by left|right]. split; [done|].
      split; [|by destruct s2].
      unfold dummy_at, uxItemFlags in *. rewrite F6. erewrite load32_ext; [exact Hdm|].
      intros p Hp. apply (sent_frame _ _ _ S); [lia|by intros].
    + replace (a + span b) with (w + span b) by (by rewrite Ew). apply run_snoc; [|done]. rewrite Ew. apply appended_run; [done|lia|by intros].
Qed.
End appended.

Lemma after_send_geom b m' : ns_geom (after_send rb b m').
Proof.
  apply (ns_geom_ext (moved rb b m')); [by repeat split|]. apply moved_geom, G.
Qed.

Lemma send_ns b :
  Forall is_byte b -> lenZ b <= xMaxItemSize rb ->
  prvCheckItemFitsDefault rb (lenZ b) = Ok true ->
  exists rb' t1 t2, prvCopyItemNoSplit b rb = Ok rb' /\ NS rb' t1 t2 lent /\
    t1 ++ t2 = (s1 ++ s2) ++ [b] /\ same_geom rb rb' /\
    (lent = true -> first_start rb' t1 = first_start rb s1).
Proof.
  intros HF Hn Hfit. pose proof ns_bounds as Hb. pose proof (lenZ_nonneg b).
  destruct (ns_place (lenZ b) ltac:(lia) Hfit) as (P1 & P2 & P3 & P4 & P5).
  destruct (span_bounds b ltac:(lia)) as [Hsp _].
  destruct (copy_nosplit_run rb G (ns_acq _ _ _ _ N) (ns_write _ _ _ _ N) b HF Hn P1)
    as (m' & E & S).
  { intros Hne. destruct P4; [done|lia]. }
  destruct (appended_layout b m' S Hn Hfit) as (t1 & t2 & Et & L & Hk1 & Hk2).
  destruct (after_send_fields b m') as (F1&F2&F3&F4&F5&F6&F7&F8&F9&F10).
  destruct (place_bounds rb G (ns_acq _ _ _ _ N) b P1 ltac:(intros; destruct P4; done || lia)) as [Hw Hw4].
  exists (after_send rb b m'), t1, t2. split; [done|].
  assert (Hptr : ptr_ok rb (norm rb (place rb (lenZ b) + span b))).
  { apply norm_ptr_ok; [apply G|unfold span in *; lia|].
    destruct (span_bounds b ltac:(lia)) as [_ ?]. Z.to_euclidean_division_equations. lia. }
  split; [split|].
  - apply after_send_geom.
  - unfold ptr_ok. rewrite F3, F4, F7. apply (ns_free _ _ _ _ N).
  - unfold ptr_ok. rewrite F2, F3, F4. apply Hptr.
  - by rewrite F1, F2.
  - done.
  - rewrite F8, F7, (ns_read _ _ _ _ N). destruct lent eqn:El; [|done].
    unfold after_first, norm. rewrite F3, F4, F7. pose proof (ns_lent _ _ _ _ N eq_refl) as Hl.
    destruct s1 as [|x s1'].
    + destruct s2 as [|y s2']; [done|]. destruct (Hk2 eq_refl ltac:(done)) as [-> [u ->]]. done.
    + destruct (Hk1 ltac:(done)) as [u ->]. done.
  - rewrite F9, (ns_wait _ _ _ _ N), Et, !lenZ_app. change (lenZ [b]) with 1. lia.
  - intros Hl. rewrite Et. by destruct (s1 ++ s2).
  - split; [done|]. split; [apply (same_geom_moved rb b m')|].
    intros Hl. pose proof (ns_lent _ _ _ _ N Hl) as Hne. unfold first_start. rewrite F3, F7.
    destruct s1 as [|x s1'].
    + by destruct (Hk2 eq_refl ltac:(done)) as [-> _].
    + by destruct (Hk1 ltac:(done)) as [u ->].
Qed.

(** ** Retrieval of the first item *)

Lemma first_item_at d rest : s1 ++ s2 = d :: rest ->
  item_at rb (first_start rb s1) d /\ pucHead rb <= (first_start rb s1) /\ (first_start rb s1) mod 4 = 0 /\
  (first_start rb s1) + span d <= pucTail rb /\ after_first rb s1 s2 = norm rb ((first_start rb s1) + span d) /\
  (s1 = [] -> dummy_at rb f /\ a <= f).
Proof.
  intros E. pose proof ns_bounds. unfold first_start, after_first.
  destruct (ns_layout _ _ _ _ N) as [(Es2 & Hr & _)|(Hne & (e & Hr & He & Hed) & Hr2 & Hle & Hf)].
  - rewrite Es2, app_nil_r in E. rewrite E in *. simpl in Hr. destruct Hr as [Hi Hr].
    pose proof (run_bounds rb _ _ _ ltac:(lia) Hr). repeat (split; [done || lia|]). done.
  - destruct s1 as [|x s1'].
    + simpl in E. rewrite E in *. simpl in Hr, Hr2. destruct Hr2 as [Hi Hr2].
      pose proof (run_bounds rb _ _ _ ltac:(lia) Hr2). repeat (split; [done || lia|]).
      intros _. rewrite <- Hr in *. destruct Hed as [?|(_ & ? & _)]; [lia|]. done.
    + simpl in E. injection E as -> _. simpl in Hr. destruct Hr as [Hi Hr].
      pose proof (run_bounds rb _ _ _ ltac:(lia) Hr). repeat (split; [done || lia|]). done.
Qed.

Lemma ns_available : lent = false -> prvCheckItemAvail rb = bool_decide (s1 ++ s2 <> []).
Proof.
  intros Hl. pose proof ns_bounds. unfold prvCheckItemAvail, data_waiting.
  pose proof (ng_byte _ G) as Hby. rewrite Hby. cbn [andb].
  pose proof (ns_wait _ _ _ _ N) as Hw. pose proof (ns_read _ _ _ _ N) as Hr.
  rewrite Hl in Hw, Hr. rewrite Z.sub_0_r in Hw. rewrite Hw, Hr, (ns_write _ _ _ _ N).
  case_bool_decide as E.
  - assert (0 < lenZ (s1 ++ s2)) by (destruct (s1 ++ s2); unfold lenZ; simpl; [done|lia]).
    destruct (ns_layout _ _ _ _ N) as [(Es2 & Hru & Hf)|(_ & _ & _ & _ & Hf)].
    + rewrite Es2, app_nil_r in E. pose proof (run_bounds rb _ _ _ ltac:(lia) Hru) as (_ & _ & Hlt).
      specialize (Hlt E). case_cmp; simpl; done || lia.
    + rewrite Hf. case_cmp; simpl; done || lia.
  - by rewrite E.
Qed.

Lemma get_at_first d rest : s1 ++ s2 = d :: rest ->
  get_item_at_read (rb <| pucRead := (first_start rb s1) |>) =
    Ok (mkItem ((first_start rb s1) + 8) (lenZ d) false,
        rb <| xItemsWaiting := xItemsWaiting rb - 1 |> <| pucRead := after_first rb s1 s2 |>).
Proof.
  intros E. pose proof ns_bounds as Hb.
  destruct (first_item_at d rest E) as ((I1 & I2 & I3 & I4 & I5 & I6 & I7) & Hs & Hs4 & Hse & Haf & _).
  pose proof (lenZ_nonneg d). destruct (span_bounds d ltac:(lia)) as [Hsp Hsp4].
  unfold get_item_at_read, rbHEADER_SIZE, xItemLen, uxItemFlags in *. cbn. rewrite I1, I5.
  oassert ltac:(idtac; destruct (Z.eqb_spec (lenZ d) 0); bsolve).
  rewrite Haf. fold (al (lenZ d)).
  rewrite (wraps_norm rb G) by (done || unfold span in *; lia).
  unfold norm, span. by destruct (_ <? 8).
Qed.

Lemma get_ns d rest :
  lent = false -> s1 ++ s2 = d :: rest ->
  exists rb', prvGetItemDefault rb = Ok (mkItem ((first_start rb s1) + 8) (lenZ d) false, rb') /\
    NS rb' s1 s2 true /\ same_geom rb rb' /\ rb_mem rb' = rb_mem rb /\ pucFree rb' = f /\
    read_bytes (rb_mem rb') ((first_start rb s1) + 8) (length d) = d.
Proof.
  intros Hl E. pose proof ns_bounds as Hb.
  destruct (first_item_at d rest E) as (Hi & Hs & Hs4 & Hse & Haf & Hd1).
  pose proof Hi as (I1 & I2 & I3 & I4 & I5 & I6 & I7).
  pose proof (ns_available Hl) as Hav. rewrite bool_decide_eq_true_2 in Hav by (by rewrite E).
  unfold prvCheckItemAvail in Hav. pose proof (ng_byte _ G) as Hby. rewrite Hby in Hav.
  cbn [andb] in Hav.
  pose proof (ns_read _ _ _ _ N) as Hrd. rewrite Hl in Hrd. cbn in Hrd.
  exists (rb <| xItemsWaiting := xItemsWaiting rb - 1 |> <| pucRead := after_first rb s1 s2 |>).
  split; [|split; [|by repeat split]].
  2:{ destruct N. split; try done.
      - apply (ns_geom_ext rb); [by repeat split|done].
      - apply (layout_ext rb); done || lia.
      - cbn. rewrite ns_wait0, Hl. cbn. lia.
      - intros _. by rewrite E. }
  rewrite <- (get_at_first d rest E).
  unfold prvGetItemDefault. oassert assumption. rewrite Hrd.
  oassert ltac:(apply word_aligned_mod; lia). oassert bsolve.
  revert I1 I3 Hs. unfold first_start. destruct s1 as [|x s1'].
  - destruct (Hd1 eq_refl) as [Hdm _]. intros I1 _ _. unfold dummy_at in Hdm.
    rewrite Hdm, orb_true_r. unfold xItemLen in *. cbn. rewrite I1.
    by rewrite cassert_bind by bsolve.
  - intros I1 I3 _. rewrite I1, I3. rewrite cassert_bind by bsolve. f_equal. rewrite <- Hrd. by destruct rb.
Qed.

(** ** Return of the item lent *)
Lemma advance_free_stop k r : pucFree r = pucRead r -> advance_free (S k) r = Ok r.
Proof. intros E. simpl. rewrite E, Z.eqb_refl. by rewrite andb_false_r. Qed.

Lemma advance_free_item k r n :
  same_geom rb r -> flag (uxItemFlags r (pucFree r)) rbITEM_FREE_FLAG = true ->
  flag (uxItemFlags r (pucFree r)) rbITEM_DUMMY_DATA_FLAG = false ->
  xItemLen r (pucFree r) = n -> 0 <= n <= xMaxItemSize rb ->
  pucHead rb <= pucFree r -> pucFree r + (al n + 8) <= pucTail rb ->
  norm rb (pucFree r + (al n + 8)) = pucRead r ->
  advance_free (S (S k)) r = Ok (r <| pucFree := pucRead r |>).
Proof.
  intros (E1 & E2 & E3 & _) F1 F2 En Hn Hh Ht Ea. pose proof (ng_bounds _ G).
  pose proof (al_max _ G n Hn).
  destruct (Z.eqb_spec (pucFree r) (pucRead r)) as [E|E].
  { rewrite advance_free_stop by done. rewrite <- E. by destruct r. }
  cbn [advance_free]. rewrite F1, F2. destruct (Z.eqb_spec (pucFree r) (pucRead r)); [done|].
  cbn [andb orb negb]. rewrite En. fold (al n). cbn. unfold rbHEADER_SIZE in *.
  destruct (Z.leb_spec (pucFree r + (al n + 8)) (pucHead r + xSize r)); [|lia]. cbn.
  rewrite (wraps_norm _ G) by (done || lia). unfold norm in Ea.
  destruct (_ <? 8); cbn; rewrite ?E2, Ea, Z.eqb_refl, andb_false_r; done.
Qed.

Lemma advance_free_dummy k r :
  same_geom rb r -> flag (uxItemFlags r (pucFree r)) rbITEM_DUMMY_DATA_FLAG = true ->
  pucFree r <> pucRead r ->
  advance_free (S k) r =
    advance_free k
      (r <| rb_mem := store32 (rb_mem r) (pucFree r + 4)
                        (Z.lor (uxItemFlags r (pucFree r)) rbITEM_FREE_FLAG) |>
         <| pucFree := pucHead r |>).
Proof.
  intros (E1 & E2 & E3 & _) F E. pose proof (ng_bounds _ G). cbn [advance_free]. rewrite F, orb_true_r.
  destruct (Z.eqb_spec (pucFree r) (pucRead r)); [done|]. cbn.
  rewrite (wraps_norm _ G) by (cbn; lia). destruct (Z.ltb_spec (pucTail rb - pucHead r) 8); [lia|done].
Qed.

(** The item's header after it is marked free. *)
Definition freed_mem (p : Z) : mem :=
  let fl := Z.ldiff (uxItemFlags rb p) rbITEM_SPLIT_FLAG in
  store32 (store32 (rb_mem rb) (p + 4) fl) (p + 4) (Z.lor fl rbITEM_FREE_FLAG).

Lemma freed_header p :
  load32 (freed_mem p) p = xItemLen rb p /\
  load32 (freed_mem p) (p + 4) = Z.lor (Z.ldiff (uxItemFlags rb p) rbITEM_SPLIT_FLAG) rbITEM_FREE_FLAG /\
  (forall b, b < p + 4 \/ p + 8 <= b -> load8 (freed_mem p) b = load8 (rb_mem rb) b).
Proof.
  assert (U : is_u32 (Z.ldiff (uxItemFlags rb p) rbITEM_SPLIT_FLAG))
    by apply is_u32_ldiff, load32_range.
  unfold freed_mem. split; [|split].
  - by rewrite !load32_store32_ne by lia.
  - rewrite load32_store32_eq; [done|]. apply is_u32_lor; [done|]. unfold is_u32, rbITEM_FREE_FLAG. lia.
  - intros b Hb. rewrite !load8_store32_ne by lia. done.
Qed.

(** The ring buffer with memory [m] and the free pointer past the first item. *)
Definition freed (m : mem) : Ringbuffer_t :=
  rb <| rb_mem := m |> <| pucFree := after_first rb s1 s2 |>.

(** Only the returned item's header and dummy data at the free pointer change. *)
Definition freed_frame (m : mem) : Prop :=
  forall b, (b < (first_start rb s1) + 4 \/ (first_start rb s1) + 8 <= b) -> (s1 = [] -> b < f + 4 \/ f + 8 <= b) ->
  load8 m b = load8 (rb_mem rb) b.

Lemma return_loop d rest k : lent = true -> s1 ++ s2 = d :: rest ->
  exists m, advance_free (S (S (S k))) (rb <| rb_mem := freed_mem (first_start rb s1) |>) = Ok (freed m) /\
    freed_frame m.
Proof.
  intros Hl E. pose proof ns_bounds as Hb.
  destruct (first_item_at d rest E) as ((I1 & I2 & I3 & I4 & I5 & I6 & I7) & Hs & Hs4 & Hse & Haf & Hd1).
  pose proof (lenZ_nonneg d). destruct (span_bounds d ltac:(lia)) as [Hsp Hsp4].
  pose proof (ns_read _ _ _ _ N) as Hrd. rewrite Hl in Hrd. cbn in Hrd.
  destruct (freed_header (first_start rb s1)) as (L1 & L2 & L3).
  assert (Hfree : flag (Z.lor (Z.ldiff (uxItemFlags rb (first_start rb s1)) rbITEM_SPLIT_FLAG) rbITEM_FREE_FLAG)
                    rbITEM_FREE_FLAG = true)
    by (rewrite (flag_lor _ 0 0) by lia; apply orb_true_r).
  assert (Hnd : flag (Z.lor (Z.ldiff (uxItemFlags rb (first_start rb s1)) rbITEM_SPLIT_FLAG) rbITEM_FREE_FLAG)
                    rbITEM_DUMMY_DATA_FLAG = false).
  { rewrite (flag_lor _ 0 1), (flag_ldiff _ 2 1) by lia. change (2 ^ 1) with rbITEM_DUMMY_DATA_FLAG.
    by rewrite I3. }
  destruct (decide (f = (first_start rb s1))) as [Ef|Ef].
  - exists (freed_mem (first_start rb s1)). split; [|intros b Hb1 _; by apply L3].
    rewrite (advance_free_item _ _ (lenZ d)); unfold uxItemFlags, xItemLen; cbn; rewrite ?Ef; try done; try lia.
    + unfold freed. cbn. by rewrite Hrd.
    + by rewrite L2.
    + by rewrite L2.
    + unfold span in *. lia.
    + unfold span in *. rewrite Hrd, Haf. f_equal. lia.
  - assert (Es1 : s1 = []) by (unfold first_start in Ef; by destruct s1).
    destruct (Hd1 Es1) as [Hdm Haf']. assert (Efs : (first_start rb s1) = pucHead rb) by (unfold first_start; by rewrite Es1).
    unfold dummy_at, uxItemFlags in Hdm.
    assert (Hfar : (first_start rb s1) + span d <= f).
    { pose proof (ns_layout _ _ _ _ N) as [(Es2 & _)|(_ & _ & Hr2 & Hle & _)].
      - rewrite Es1, Es2 in E. done.
      - rewrite Es1 in E. simpl in E. rewrite E in Hr2. destruct Hr2 as [_ Hr2].
        pose proof (run_bounds rb _ _ _ ltac:(lia) Hr2). lia. }
    assert (Eld : load32 (freed_mem (first_start rb s1)) (f + 4) = load32 (rb_mem rb) (f + 4))
      by (apply load32_ext; intros; apply L3; lia).
    assert (Hne : f <> after_first rb s1 s2 \/ f = after_first rb s1 s2) by lia.
    destruct Hne as [Hne|Heq].
    + rewrite advance_free_dummy; [|by repeat split|unfold uxItemFlags; cbn; by rewrite Eld|cbn; by rewrite Hrd].
      set (v := Z.lor _ _). set (m := store32 (freed_mem (first_start rb s1)) (f + 4) v).
      assert (Hm : forall p, p + 4 <= f + 4 \/ f + 8 <= p -> load32 m p = load32 (freed_mem (first_start rb s1)) p)
        by (intros; apply load32_store32_ne; lia).
      exists m. split.
      * rewrite (advance_free_item _ _ (lenZ d)); unfold uxItemFlags, xItemLen; cbn; rewrite <- ?Efs, ?Hm by lia;
          try (by repeat split); try done; try lia.
        -- unfold freed, m. cbn. by rewrite Hrd, <- Efs.
        -- by rewrite L2.
        -- by rewrite L2.
        -- unfold span in *. lia.
        -- unfold span in *. rewrite Hrd, Haf. f_equal. lia.
      * intros b Hb1 Hb2. specialize (Hb2 Es1). unfold m. rewrite load8_store32_ne by lia. by apply L3.
    + exists (freed_mem (first_start rb s1)). split; [|intros b Hb1 _; by apply L3].
      rewrite advance_free_stop by (cbn; by rewrite Hrd). unfold freed. rewrite <- Heq. by destruct rb.
Qed.

Section freed_layout.
Context (d : list Z) (rest : list (list Z)) (E : s1 ++ s2 = d :: rest) (m : mem) (FF : freed_frame m)
  (rb' : Ringbuffer_t) (Hfull : rb_full rb' = false) (Em : rb_mem rb' = m)
  (Ef : pucFree rb' = after_first rb s1 s2) (Ea : pucAcquire rb' = a) (Eh : pucHead rb' = pucHead rb)
  (Et : pucTail rb' = pucTail rb) (Ex : xMaxItemSize rb' = xMaxItemSize rb).

Lemma freed_run p ds e :
  run rb p ds e -> (e <= (first_start rb s1) \/ (first_start rb s1) + span d <= p) -> (s1 = [] -> e <= f \/ f + 8 <= p) ->
  run rb' p ds e.
Proof.
  intros Hr Hp Hp'. pose proof ns_bounds.
  destruct (first_item_at d rest E) as ((_&_&_&_&_&_&I7) & _).
  pose proof (lenZ_nonneg d). destruct (span_bounds d ltac:(lia)).
  apply (run_frame rb); [lia|done| |done]. intros b Hb. rewrite Em. apply FF; [lia|].
  intros Es. specialize (Hp' Es). lia.
Qed.

End freed_layout.
End ns_ops.

Section returned.
Context (rb : Ringbuffer_t) (m : mem) (rb' : Ringbuffer_t) (Hfull : rb_full rb' = false)
  (Em : rb_mem rb' = m) (Ea : pucAcquire rb' = pucAcquire rb) (Eh : pucHead rb' = pucHead rb)
  (Et : pucTail rb' = pucTail rb) (Ex : xMaxItemSize rb' = xMaxItemSize rb).
#[local] Abbreviation f := (pucFree rb).

(** The item returned was in the only run. *)
Lemma freed_unwrapped d rest lent (N : NS rb (d :: rest) [] lent)
    (FF : freed_frame rb (d :: rest) m) (Ef : pucFree rb' = after_first rb (d :: rest) []) :
  run rb f (d :: rest) (pucAcquire rb) -> unwrapped rb' rest [].
Proof.
  intros Hr. pose proof (ns_bounds _ _ _ _ N) as Hb.
  destruct (first_item_at _ _ _ _ N d rest ltac:(by rewrite app_nil_r)) as ((_&_&_&_&_&_&I7) & Hs & _ & Hse & Haf & _).
  pose proof (lenZ_nonneg d). destruct (span_bounds d ltac:(lia)) as [Hsp Hsp4].
  simpl in Hr, Haf, Hs. destruct Hr as [_ Hr]. pose proof (run_bounds rb _ _ _ ltac:(lia) Hr) as (Hle & _).
  assert (En : after_first rb (d :: rest) [] = f + span d) by (simpl; unfold norm; case_cmp; lia).
  split; [done|]. rewrite Ef, Ea, En. split; [|done].
  apply (freed_run _ _ _ _ N d rest ltac:(by rewrite app_nil_r) m FF rb' Em Ex); [done|simpl; lia|done].
Qed.

(** The free pointer was on the dummy data that closed an exhausted run. *)
Lemma freed_past_dummy d rest lent (N : NS rb [] (d :: rest) lent)
    (FF : freed_frame rb [] m) (Ef : pucFree rb' = after_first rb [] (d :: rest)) :
  run rb (pucHead rb) (d :: rest) (pucAcquire rb) -> pucAcquire rb <= f -> unwrapped rb' rest [].
Proof.
  intros Hr Hle. pose proof (ns_bounds _ _ _ _ N) as Hb.
  destruct (first_item_at _ _ _ _ N d rest eq_refl) as ((_&_&_&_&_&_&I7) & Hs & _ & Hse & Haf & _).
  pose proof (lenZ_nonneg d). destruct (span_bounds d ltac:(lia)) as [Hsp Hsp4].
  simpl in Hr, Haf, Hs. destruct Hr as [_ Hr]. pose proof (run_bounds rb _ _ _ ltac:(lia) Hr) as (Hle2 & _).
  assert (En : after_first rb [] (d :: rest) = pucHead rb + span d) by (simpl; unfold norm; case_cmp; lia).
  split; [done|]. rewrite Ef, Ea, En. split; [|done].
  apply (freed_run _ _ _ _ N d rest eq_refl m FF rb' Em Ex); [done|simpl; lia|lia].
Qed.

(** The item returned was in the first of two runs. *)
Lemma freed_wrapped d t1 s2 lent e (N : NS rb (d :: t1) s2 lent)
    (FF : freed_frame rb (d :: t1) m) (Ef : pucFree rb' = after_first rb (d :: t1) s2) :
  run rb f (d :: t1) e -> e <= pucTail rb ->
  (pucTail rb - e < 8 \/ (8 <= pucTail rb - e /\ dummy_at rb e /\ s2 <> [])) ->
  run rb (pucHead rb) s2 (pucAcquire rb) -> pucAcquire rb <= f ->
  exists u1 u2, u1 ++ u2 = t1 ++ s2 /\ (unwrapped rb' u1 u2 \/ wrapped rb' u1 u2).
Proof.
  intros Hr He Hed Hr2 Hle. pose proof (ns_bounds _ _ _ _ N) as Hb.
  destruct (first_item_at _ _ _ _ N d (t1 ++ s2) eq_refl) as ((_&_&_&_&_&_&I7) & Hs & _ & Hse & Haf & _).
  pose proof (lenZ_nonneg d). destruct (span_bounds d ltac:(lia)) as [Hsp Hsp4].
  simpl in Hr, Haf, Hs, Hse. destruct Hr as [_ Hr].
  pose proof (run_bounds rb _ _ _ ltac:(lia) Hr) as (Hle1 & _ & Hlt1).
  pose proof (run_bounds rb _ _ _ ltac:(lia) Hr2) as (Hle2 & _).
  pose proof (freed_run _ _ _ _ N d (t1 ++ s2) eq_refl m FF rb' Em Ex) as FR. simpl in FR.
  destruct (decide (pucTail rb - (f + span d) < 8)) as [Hn|Hn].
  - (* the first run is used up and the free pointer wraps *)
    assert (t1 = []) as -> by (destruct t1; [done|]; specialize (Hlt1 ltac:(done)); lia).
    exists s2, []. rewrite app_nil_r. split; [done|]. left. split; [done|].
    rewrite Ef, Ea. simpl. unfold norm. destruct (Z.ltb_spec (pucTail rb - (f + span d)) 8); [|lia].
    split; [apply FR; [done|lia|done]|done].
  - assert (En : norm rb (f + span d) = f + span d) by (unfold norm; case_cmp; lia).
    exists t1, s2. split; [done|]. right. unfold wrapped. rewrite Ef, Ea, Eh, Et, Hfull. simpl. rewrite En.
    split; [|split; [|split; [apply FR; [done|lia|done]|split; [lia|bsolve]]]].
    + intros [-> ->]%app_eq_nil. simpl in Hr. destruct Hed as [?|(_ & _ & ?)]; [lia|done].
    + exists e. split; [apply FR; [done|lia|done]|]. split; [done|].
      destruct Hed as [?|(? & Hdm & ?)]; [by left|right]. split; [done|]. split; [|done].
      unfold dummy_at, uxItemFlags in *. rewrite Em. erewrite load32_ext; [exact Hdm|].
      intros b Hbb. apply FF; [simpl; lia|done].
Qed.
End returned.

Lemma freed_layout rb s1 s2 lent (N : NS rb s1 s2 lent) d rest m rb' :
  s1 ++ s2 = d :: rest -> freed_frame rb s1 m -> rb_full rb' = false -> rb_mem rb' = m ->
  pucFree rb' = after_first rb s1 s2 -> pucAcquire rb' = pucAcquire rb -> pucHead rb' = pucHead rb ->
  pucTail rb' = pucTail rb -> xMaxItemSize rb' = xMaxItemSize rb ->
  exists t1 t2, t1 ++ t2 = rest /\ (unwrapped rb' t1 t2 \/ wrapped rb' t1 t2).
Proof.
  intros E FF Hfull Em Ef Ea Eh Et Ex.
  destruct (ns_layout _ _ _ _ N) as [(Es2 & Hr & _)|(Hne & (e & Hr & He & Hed) & Hr2 & Hle & _)].
  - subst s2. rewrite app_nil_r in E. subst s1. exists rest, []. rewrite app_nil_r. split; [done|]. left.
    eapply (freed_unwrapped rb m); eauto.
  - destruct s1 as [|x t1]; simpl in E.
    + subst s2. exists rest, []. rewrite app_nil_r. split; [done|]. left.
      eapply (freed_past_dummy rb m); eauto.
    + injection E as -> <-. eapply (freed_wrapped rb m); eauto.
Qed.

Lemma return_ns rb s1 s2 (N : NS rb s1 s2 true) d rest :
  s1 ++ s2 = d :: rest ->
  exists rb' t1 t2, prvReturnItemDefault (first_start rb s1 + 8) rb = Ok rb' /\
    NS rb' t1 t2 false /\ t1 ++ t2 = rest /\ same_geom rb rb'.
Proof.
  intros E. pose proof (ns_bounds _ _ _ _ N) as Hb.
  destruct (first_item_at _ _ _ _ N d rest E) as ((I1 & I2 & I3 & I4 & I5 & I6 & I7) & Hs & Hs4 & Hse & Haf & _).
  pose proof (lenZ_nonneg d). destruct (span_bounds d ltac:(lia)) as [Hsp Hsp4].
  destruct (return_loop _ _ _ _ N d rest (Z.to_nat (xSize rb) - 1)%nat eq_refl E) as (m & El & FF).
  pose proof (ns_read _ _ _ _ N) as Hrd. simpl in Hrd.
  set (rb' := if rb_full rb then clear_full (freed rb s1 s2 m) else freed rb s1 s2 m).
  assert (Hg : same_geom rb rb').
  { unfold rb'. destruct (rb_full rb); [apply (same_geom_clear (freed rb s1 s2 m))|by repeat split]. }
  assert (Hf' : rb_full rb' = false).
  { unfold rb'. destruct (rb_full rb) eqn:Efl; [apply full_clear|exact Efl]. }
  assert (Hfields : pucFree rb' = after_first rb s1 s2 /\ pucAcquire rb' = pucAcquire rb /\
    pucRead rb' = pucRead rb /\ pucWrite rb' = pucWrite rb /\ rb_mem rb' = m /\
    xItemsWaiting rb' = xItemsWaiting rb) by (unfold rb'; by destruct (rb_full rb)).
  destruct Hfields as (F1 & F2 & F3 & F4 & F5 & F6). pose proof Hg as (G1 & G2 & G3 & _ & G5 & _).
  destruct (freed_layout _ _ _ _ N d rest m rb' E FF Hf' F5 F1 F2 G2 G3 G5) as (t1 & t2 & Et & L).
  exists rb', t1, t2. split; [|split; [split|by split]].
  - unfold prvReturnItemDefault, rbHEADER_SIZE. replace (first_start rb s1 + 8 - 8) with (first_start rb s1) by lia.
    oassert ltac:(apply word_aligned_mod; Z.to_euclidean_division_equations; lia).
    do 2 oassert bsolve. rewrite I1, I3, I4. oassert bsolve. do 2 oassert done.
    rewrite uxItemFlags_set by apply is_u32_ldiff, load32_range.
    change (set_uxItemFlags _ _ (set_uxItemFlags _ _ rb)) with (rb <| rb_mem := freed_mem rb (first_start rb s1) |>).
    replace (rb_fuel _) with (S (S (S (Z.to_nat (xSize rb) - 1)))) by (unfold rb_fuel; cbn; lia).
    rewrite El. ostep. f_equal. unfold rb'.
    change (rb_full (freed rb s1 s2 m)) with (rb_full rb).
    change (pucRead (freed rb s1 s2 m)) with (pucRead rb). change (pucFree (freed rb s1 s2 m)) with (after_first rb s1 s2).
    rewrite Hrd, Z.eqb_refl, andb_true_r.
    destruct (rb_full rb); [by destruct (after_first rb s1 s2 =? _)|done].
  - by apply (ns_geom_ext rb), (ns_g _ _ _ _ N).
  - unfold ptr_ok. rewrite F1, G2, G3. rewrite Haf. apply (norm_ptr_ok rb (ns_g _ _ _ _ N)); [lia|].
    Z.to_euclidean_division_equations. lia.
  - unfold ptr_ok. rewrite F2, G2, G3. apply (ns_acq _ _ _ _ N).
  - rewrite F4, F2. apply (ns_write _ _ _ _ N).
  - done.
  - by rewrite F3, F1, Hrd.
  - rewrite F6, (ns_wait _ _ _ _ N), E, Et, lenZ_cons. lia.
  - done.
Qed.

(** ** The semaphores do not matter to the representation *)
Lemma NS_sems rb s1 s2 lent t r : NS rb s1 s2 lent -> NS (rb <| xTransSem := t |> <| xRecvSem := r |>) s1 s2 lent.
Proof.
  intros N. pose proof (ns_bounds _ _ _ _ N). destruct N. split; try done.
  - by apply (ns_geom_ext rb).
  - by apply (layout_ext rb); [lia|..].
Qed.
Lemma NS_tx rb s1 s2 lent : NS rb s1 s2 lent -> NS (give_tx rb) s1 s2 lent.
Proof. intros N. apply (NS_sems _ _ _ _ true (xRecvSem rb)) in N. by destruct rb. Qed.
Lemma NS_rx rb s1 s2 lent b : NS rb s1 s2 lent -> NS (rb <| xRecvSem := b |>) s1 s2 lent.
Proof. intros N. apply (NS_sems _ _ _ _ (xTransSem rb) b) in N. by destruct rb. Qed.

Lemma ns_free_size rb s1 s2 lent : NS rb s1 s2 lent -> exists k, prvGetFreeSize rb = Ok k.
Proof.
  intros N. pose proof (ns_bounds _ _ _ _ N) as Hb. unfold prvGetFreeSize.
  destruct (rb_full rb); [oassert bsolve; eauto|].
  rewrite s32_id by lia. destruct (_ <=? 0) eqn:E; [apply Z.leb_le in E|apply Z.leb_gt in E];
    rewrite u32_small by (unfold is_u32; lia); oassert bsolve; eauto.
Qed.

(** ** The abstract queue of items *)
Record nqueue := mkNqueue { nq_lent : bool; nq_items : list (list Z) }.

Inductive nop := NSend (c : caller) (bytes : list Z) | NReceive (c : caller) | NReturn.

(** A queue of items of at most [max] bytes: a send appends an item or refuses
    it, and never refuses an item of at most [max] bytes when the queue is empty
    and the call does not time out; a receive lends the oldest item, if there is
    one and the call does not time out; a return removes it. *)
Inductive nspec (max : Z) : nqueue -> nop -> bres -> nqueue -> Prop :=
  | nspec_send l q c b :
      lenZ b <= max -> gets_turn c = true ->
      nspec max (mkNqueue l q) (NSend c b) (RSent true) (mkNqueue l (q ++ [b]))
  | nspec_refuse l q c b :
      max < lenZ b \/ q <> [] \/ gets_turn c = false ->
      nspec max (mkNqueue l q) (NSend c b) (RSent false) (mkNqueue l q)
  | nspec_receive d q c :
      gets_turn c = true ->
      nspec max (mkNqueue false (d :: q)) (NReceive c) (RGot d) (mkNqueue true (d :: q))
  | nspec_empty q c :
      q = [] \/ gets_turn c = false ->
      nspec max (mkNqueue false q) (NReceive c) RNone (mkNqueue false q)
  | nspec_return d q : nspec max (mkNqueue true (d :: q)) NReturn RReturned (mkNqueue false q).

(** What a client may do: send bytes, hold one item at a time. *)
Definition nop_ok (holds : bool) (op : nop) : bool :=
  match op with
  | NSend _ b => bytes_ok b
  | NReceive _ => negb holds
  | NReturn => holds
  end.

Definition nop_run (op : nop) (addr : Z) (rb : Ringbuffer_t) : outcome (bres * Z * Ringbuffer_t) :=
  match op with
  | NSend c b => '(ok, rb) ← send_call c b rb; Ok (RSent ok, addr, rb)
  | NReceive c =>
      '(r, rb) ← receive_call c None rb;
      Ok (match r with
          | None => (RNone, addr)
          | Some (p, sz) => (RGot (read_bytes (rb_mem rb) p (Z.to_nat sz)), p)
          end, rb)
  | NReturn => rb ← vRingbufferReturnItem addr rb; Ok (RReturned, addr, rb)
  end.

(** The ring buffer represents the queue, and [addr] is the address of the item
    lent, when one is. *)
Definition nsim (rb : Ringbuffer_t) (addr : Z) (s : nqueue) : Prop :=
  exists s1 s2, NS rb s1 s2 (nq_lent s) /\ s1 ++ s2 = nq_items s /\
    (nq_lent s = true -> addr = first_start rb s1 + 8).

Lemma nsim_sems rb addr s t r : nsim rb addr s -> nsim (rb <| xTransSem := t |> <| xRecvSem := r |>) addr s.
Proof. intros (s1 & s2 & N & E & Ha). exists s1, s2. split; [by apply NS_sems|]. by split. Qed.

Lemma nsend_isr_refines rb addr s c b :
  nsim rb addr s -> Forall is_byte b -> gets_turn c = true ->
  exists ok s' rb', xRingbufferSendFromISR b rb = Ok (ok, rb') /\
    nspec (xMaxItemSize rb) s (NSend c b) (RSent ok) s' /\ nsim rb' addr s' /\ same_geom rb rb'.
Proof.
  intros (s1 & s2 & N & Es & Ha) HF Hc. destruct s as [l q]. simpl in *. subst q.
  unfold xRingbufferSendFromISR. fold (lenZ b).
  destruct (Z.ltb_spec (xMaxItemSize rb) (lenZ b)) as [Hm|Hm].
  { cbn. eexists _, _, _. split; [done|]. split; [apply nspec_refuse; by left|].
    split; [by exists s1, s2|apply same_geom_refl]. }
  pose proof (ng_byte _ (ns_g _ _ _ _ N)) as Hby. rewrite Hby. cbn [andb].
  unfold xCheckItemFits, vCopyItem. rewrite (ng_type _ (ns_g _ _ _ _ N)).
  pose proof (lenZ_nonneg b).
  destruct (prvCheckItemFitsDefault rb (lenZ b)) as [[]| | |] eqn:Efit;
    try (rewrite (ns_fits _ _ _ _ N) in Efit by lia; discriminate).
  - ostep. destruct (send_ns _ _ _ _ N b HF Hm Efit) as (rb1 & t1 & t2 & E1 & N1 & Et & Hg & Hl).
    rewrite E1. ostep. destruct (ns_free_size _ _ _ _ N1) as [k Ek]. rewrite Ek. cbn.
    eexists _, _, _. split; [done|]. split; [by apply nspec_send|].
    split; [|by destruct (0 <? k)].
    exists t1, t2. split; [apply NS_rx; destruct (0 <? k); [by apply NS_tx|done]|]. split; [done|].
    intros Hl'. specialize (Hl Hl'). rewrite Ha by done. rewrite <- Hl. by destruct (0 <? k).
  - ostep. eexists _, _, _. split; [done|]. split; [apply nspec_refuse; right; left|].
    { intros E0. rewrite (ns_empty_fits _ _ _ _ N) in Efit by (done || lia). done. }
    split; [by exists s1, s2|apply same_geom_refl].
Qed.

Lemma nsend_refines rb addr s c b :
  nsim rb addr s -> Forall is_byte b ->
  exists r s' rb', nop_run (NSend c b) addr rb = Ok (r, addr, rb') /\
    nspec (xMaxItemSize rb) s (NSend c b) r s' /\ nsim rb' addr s' /\ same_geom rb rb'.
Proof.
  intros S HF. cbn [nop_run].
  cut (exists ok s' rb', send_call c b rb = Ok (ok, rb') /\
    nspec (xMaxItemSize rb) s (NSend c b) (RSent ok) s' /\ nsim rb' addr s' /\ same_geom rb rb').
  { intros (ok & s' & rb' & E & H). rewrite E. ostep. eauto. }
  destruct c as [|now ticks woken]; [by apply nsend_isr_refines|]. cbn [send_call]. rewrite send_calm.
  assert (Hby : flag (uxRingbufferFlags rb) rbBYTE_BUFFER_FLAG = false).
  { destruct S as (s1 & s2 & N & _). apply (ng_byte _ (ns_g _ _ _ _ N)). }
  rewrite Hby, andb_false_l, orb_false_r. destruct (Z.ltb_spec (xMaxItemSize rb) (lenZ b)) as [Hm|Hm].
  { unfold xRingbufferSendFromISR. fold (lenZ b). rewrite (proj2 (Z.ltb_lt _ _) Hm). destruct s as [l q].
    eexists _, _, _. split; [done|]. split; [apply nspec_refuse; by left|]. split; [done|apply same_geom_refl]. }
  destruct woken as [|t woken].
  - destruct s as [l q]. eexists _, _, _. split; [done|]. split; [apply nspec_refuse; auto|].
    split; [done|apply same_geom_refl].
  - destruct (nsend_isr_refines (rb <| xTransSem := false |>) addr s (FromTask now ticks (t :: woken)) b)
      as (ok & s' & rb' & E' & Hs & Hb' & Hf); [|done..|by exists ok, s', rb'].
    apply (nsim_sems rb addr s false (xRecvSem rb)) in S. by destruct rb.
Qed.

Lemma receive_call_items c rb :
  receive_call c None rb
  = if gets_turn c then '(r, rb) ← prvReceiveGenericFromISR false 0 (take_rx c rb); Ok (first_item r, rb)
    else Ok (None, rb).
Proof.
  destruct c as [|now ticks woken]; [done|]. simpl. unfold xRingbufferReceive. rewrite receive_generic_calm.
  by destruct woken.
Qed.

Lemma nreceive_isr_refines rb addr s c :
  nsim rb addr s -> nq_lent s = false -> gets_turn c = true ->
  exists r addr' s' rb',
    ('(r, rb) ← prvReceiveGenericFromISR false 0 rb;
     Ok (match first_item r with
         | None => (RNone, addr)
         | Some (p, sz) => (RGot (read_bytes (rb_mem rb) p (Z.to_nat sz)), p)
         end, rb)) = Ok (r, addr', rb') /\
    nspec (xMaxItemSize rb) s (NReceive c) r s' /\ nsim rb' addr' s' /\ same_geom rb rb'.
Proof.
  intros (s1 & s2 & N & Es & Ha) Hl Hc. destruct s as [l q]. simpl in *. subst l q.
  unfold prvReceiveGenericFromISR. rewrite (ns_available _ _ _ _ N eq_refl).
  destruct (s1 ++ s2) as [|d rest] eqn:E.
  - rewrite bool_decide_eq_false_2 by auto. cbn. eexists _, _, _, _. split; [done|].
    split; [apply nspec_empty; by left|]. split; [by exists s1, s2|apply same_geom_refl].
  - rewrite bool_decide_eq_true_2 by done.
    destruct (get_ns _ _ _ _ N d rest eq_refl E) as (rb1 & E1 & N1 & Hg & Em & Ef & Hd).
    unfold receive_items, pvGetItem. pose proof (ng_byte _ (ns_g _ _ _ _ N)) as Hby.
    pose proof (ng_split _ (ns_g _ _ _ _ N1)) as Hsp.
    rewrite Hby, (ng_type _ (ns_g _ _ _ _ N)), E1. ostep. cbn beta iota. rewrite Hsp. cbn.
    eexists _, _, _, _. split; [done|].
    replace (rb_mem (if 0 <? xItemsWaiting rb1 then give_rx rb1 else rb1)) with (rb_mem rb1)
      by by destruct (0 <? _).
    unfold lenZ. rewrite Nat2Z.id, Hd. split; [by apply nspec_receive|].
    split; [|by destruct (0 <? _)]. exists s1, s2.
    split; [destruct (0 <? _); [by apply NS_rx|done]|]. split; [done|]. intros _.
    destruct Hg as (_ & Hh & _). unfold first_start. destruct (0 <? _); cbn; by rewrite Hh, Ef.
Qed.

Lemma nreceive_refines rb addr s c :
  nsim rb addr s -> nq_lent s = false ->
  exists r addr' s' rb', nop_run (NReceive c) addr rb = Ok (r, addr', rb') /\
    nspec (xMaxItemSize rb) s (NReceive c) r s' /\ nsim rb' addr' s' /\ same_geom rb rb'.
Proof.
  intros S Hl. cbn [nop_run]. rewrite receive_call_items. destruct (gets_turn c) eqn:Ec.
  - destruct (nreceive_isr_refines (take_rx c rb) addr s c) as (r & a' & s' & rb' & E & H); [|done..|].
    { destruct c; [done|]. apply (nsim_sems rb addr s (xTransSem rb) false) in S. by destruct rb. }
    exists r, a', s', rb'. split; [|by destruct c].
    destruct (prvReceiveGenericFromISR _ _ _) as [[? ?]| | |]; [exact E|discriminate..].
  - destruct s as [l q]. simpl in Hl. subst l. eexists _, _, _, _. split; [done|].
    split; [apply nspec_empty; by right|]. split; [done|apply same_geom_refl].
Qed.

Lemma nreturn_refines rb addr s :
  nsim rb addr s -> nq_lent s = true ->
  exists s' rb', nop_run NReturn addr rb = Ok (RReturned, addr, rb') /\
    nspec (xMaxItemSize rb) s NReturn RReturned s' /\ nsim rb' addr s' /\ same_geom rb rb'.
Proof.
  intros (s1 & s2 & N & Es & Ha) Hl. destruct s as [l q]. simpl in *. subst l. rewrite Ha by done.
  destruct q as [|d rest]; [by pose proof (ns_lent _ _ _ _ N eq_refl)|].
  destruct (return_ns _ _ _ N d rest Es) as (rb1 & t1 & t2 & E1 & N1 & Et & Hg).
  pose proof (ns_bounds _ _ _ _ N) as Hb.
  destruct (first_item_at _ _ _ _ N d rest Es) as (_ & Hs & _).
  unfold vRingbufferReturnItem, vReturnItem. oassert bsolve.
  rewrite (ng_type _ (ns_g _ _ _ _ N)), E1. cbn. eexists _, _. split; [done|].
  split; [apply nspec_return|]. split; [|done]. exists t1, t2.
  split; [by apply NS_tx|]. by split.
Qed.

(** ** Whole runs *)
Fixpoint nops_run (ops : list nop) (addr : Z) (rb : Ringbuffer_t) : outcome (list bres * Z * Ringbuffer_t) :=
  match ops with
  | [] => Ok ([], addr, rb)
  | op :: ops =>
      '(r, addr, rb) ← nop_run op addr rb;
      '(rs, addr, rb) ← nops_run ops addr rb;
      Ok (r :: rs, addr, rb)
  end.

Inductive nspecs (max : Z) : nqueue -> list nop -> list bres -> nqueue -> Prop :=
  | nspecs_nil s : nspecs max s [] [] s
  | nspecs_cons s op r s' ops rs s'' :
      nspec max s op r s' -> nspecs max s' ops rs s'' -> nspecs max s (op :: ops) (r :: rs) s''.

(** A history is legal when every call is, given what the client holds after the
    answers it got. *)
Fixpoint nclient_ok (holds : bool) (ops : list nop) (addr : Z) (rb : Ringbuffer_t) : bool :=
  match ops with
  | [] => true
  | op :: ops =>
      nop_ok holds op &&
      match nop_run op addr rb with
      | Ok (r, addr, rb) => nclient_ok (holds_after holds r) ops addr rb
      | _ => true
      end
  end.

Lemma nholds_after max s op r s' : nspec max s op r s' -> nq_lent s' = holds_after (nq_lent s) r.
Proof. by intros []. Qed.

Lemma nop_refines rb addr s op :
  nsim rb addr s -> nop_ok (nq_lent s) op = true ->
  exists r addr' s' rb', nop_run op addr rb = Ok (r, addr', rb') /\
    nspec (xMaxItemSize rb) s op r s' /\ nsim rb' addr' s' /\ same_geom rb rb'.
Proof.
  intros S Hop. destruct op as [c b|c|]; simpl in Hop.
  - destruct (nsend_refines rb addr s c b S (bytes_ok_Forall _ Hop)) as (?&?&?&?). eauto 10.
  - apply nreceive_refines; [done|]. by apply negb_true_iff.
  - destruct (nreturn_refines rb addr s S Hop) as (?&?&?). eauto 10.
Qed.

Lemma nops_refine ops : forall rb addr s,
  nsim rb addr s -> nclient_ok (nq_lent s) ops addr rb = true ->
  exists rs addr' s' rb', nops_run ops addr rb = Ok (rs, addr', rb') /\
    nspecs (xMaxItemSize rb) s ops rs s' /\ nsim rb' addr' s'.
Proof.
  induction ops as [|op ops IH]; intros rb addr s S Hc; simpl.
  { eexists _, _, _, _. split; [done|]. split; [constructor|done]. }
  cbn [nclient_ok] in Hc. apply andb_prop in Hc as [Hop Hc].
  destruct (nop_refines _ _ _ _ S Hop) as (r & a1 & s1 & rb1 & E & Hs & S1 & Hf).
  rewrite E in Hc |- *. cbn. destruct Hf as (_&_&_&_&Em&_).
  rewrite <- (nholds_after _ _ _ _ _ Hs) in Hc.
  destruct (IH rb1 a1 s1 S1 Hc) as (rs & a2 & s2 & rb2 & E2 & Hs2 & S2).
  rewrite E2. cbn. eexists _, _, _, _. split; [reflexivity|].
  split; [|done]. econstructor; [done|]. by rewrite <- Em.
Qed.

Lemma NS_init size head m :
  12 <= size < 2 ^ 31 -> size mod 4 = 0 -> 0 < head -> head mod 4 = 0 -> head + size < 2 ^ 32 ->
  NS (prvInitializeNewRingbuffer size RINGBUF_TYPE_NOSPLIT head m) [] [] false.
Proof.
  intros. destruct (al_bounds (size / 2)); [Z.to_euclidean_division_equations; lia|].
  split; simpl; try done; unfold ptr_ok; simpl; try lia.
  - split; simpl; try done; try (by split; simpl; lia).
    unfold rbHEADER_SIZE. fold (al (size / 2)). apply u32_small.
    unfold is_u32. Z.to_euclidean_division_equations. lia.
  - by left.
Qed.

(** C4. A no-split buffer is a queue of whole items.  From the freshly initialised
    buffer of any word-aligned size between 12 bytes and 2 GiB placed on a word
    boundary anywhere in the address space, every sequence of sends, receives (from
    interrupts and from tasks) and returns of a client that holds at most one item
    at a time runs to completion with no failed assertion and with its loops
    terminated, and answers as the abstract queue: items come out whole and in
    order, an item lent keeps its bytes until it is returned whatever is sent
    meanwhile, an item longer than the maximum is refused, and an item of at most
    the maximum is never refused when the buffer is empty and the call does not
    time out waiting for its semaphore.  The calls come one at a time: while a task
    waits in one of them no other call is made. *)
Theorem nosplit_refines_queue (size head : Z) (m : mem) (ops : list nop)
    (Hsize : 12 <= size < 2 ^ 31) (Hal : size mod 4 = 0) (Hhead : 0 < head) (Hhal : head mod 4 = 0)
    (Htop : head + size < 2 ^ 32)
    (Hclient : nclient_ok false ops head (prvInitializeNewRingbuffer size RINGBUF_TYPE_NOSPLIT head m) = true) :
  let rb := prvInitializeNewRingbuffer size RINGBUF_TYPE_NOSPLIT head m in
  exists rs addr s rb', nops_run ops head rb = Ok (rs, addr, rb') /\
    nspecs (rbALIGN_SIZE (size / 2) - rbHEADER_SIZE) (mkNqueue false []) ops rs s /\
    (nq_lent s = true -> forall d rest, nq_items s = d :: rest ->
       read_bytes (rb_mem rb') addr (length d) = d).
Proof.
  intros rb. pose proof (NS_init size head m Hsize Hal Hhead Hhal Htop) as N. fold rb in N.
  pose proof (ng_max _ (ns_g _ _ _ _ N)) as Em. change (xSize rb) with size in Em.
  destruct (nops_refine ops rb head (mkNqueue false [])) as (rs & a & s & rb' & E & Hs & S).
  - exists [], []. by split.
  - exact Hclient.
  - rewrite Em in Hs. exists rs, a, s, rb'. split; [done|]. split; [done|].
    intros Hl d rest Ed. destruct S as (s1 & s2 & N' & Es & Ha). rewrite Ha by done.
    destruct (first_item_at _ _ _ _ N' d rest) as ((_&_&_&_&_&Hd&_)&_); [by rewrite Es|done].
Qed.

(** A 48-byte buffer that fills up, wraps over dummy data and drains; two items
    are queued and taken out in turn, and a task's receive times out. *)
Definition demo_nops : list nop :=
  [NSend FromISR [1; 2; 3]; NSend (FromTask 3 9 [3]) [4; 5; 6; 7; 8]; NReceive FromISR;
   NSend FromISR [9; 10; 11; 12; 13; 14; 15; 16]; NReturn;
   NSend (FromTask 9 9 [9]) [9; 10; 11; 12]; NReceive (FromTask 12 0 [12]); NReturn; NReceive FromISR; NReturn;
   NReceive (FromTask 12 5 []); NSend FromISR [1]; NReceive FromISR].

Lemma nosplit_refines_queue_witness :
  nclient_ok false demo_nops 4096 (prvInitializeNewRingbuffer 48 RINGBUF_TYPE_NOSPLIT 4096 ∅) = true /\
  let rb := prvInitializeNewRingbuffer 48 RINGBUF_TYPE_NOSPLIT 4096 ∅ in
  exists rs addr s rb', nops_run demo_nops 4096 rb = Ok (rs, addr, rb') /\
    nspecs 16 (mkNqueue false []) demo_nops rs s /\
    (nq_lent s = true -> forall d rest, nq_items s = d :: rest ->
       read_bytes (rb_mem rb') addr (length d) = d).
Proof.
  split; [vm_compute; reflexivity|].
  apply (nosplit_refines_queue 48 4096 ∅ demo_nops); [lia|reflexivity|lia|reflexivity|lia|vm_compute; reflexivity].
Defined.

(** ** The reported free size *)

Section free_size.
Context (rb : Ringbuffer_t) (s1 s2 : list (list Z)) (lent : bool) (N : NS rb s1 s2 lent).
#[local] Abbreviation a := (pucAcquire rb).
#[local] Abbreviation f := (pucFree rb).

Lemma clamp_max_pos k m : 0 <= m -> 0 <= k < 2 ^ 31 -> clamp_max k m = Z.min k m.
Proof.
  intros. unfold clamp_max. rewrite u32_small by (unfold is_u32; lia). case_cmp; lia.
Qed.

(** The free run before the reader, or the larger of the two free runs. *)
Definition largest_run : Z :=
  if rb_full rb then 0 else if a <? f then f - a else Z.max (pucTail rb - a) (f - pucHead rb).

Lemma cur_free_nosplit :
  xRingbufferGetCurFreeSize rb = Z.max 0 (Z.min (largest_run - 8) (xMaxItemSize rb)).
Proof.
  pose proof (ns_bounds _ _ _ _ N) as Hb. unfold xRingbufferGetCurFreeSize, prvGetCurMaxSizeNoSplit, largest_run.
  rewrite (ng_type _ (ns_g _ _ _ _ N)). destruct (rb_full rb); [lia|]. unfold rbHEADER_SIZE.
  destruct (Z.ltb_spec a f).
  - rewrite !s32_id by (rewrite ?s32_id; lia). unfold clamp_max.
    destruct (Z.ltb_spec (f - a - 8) 0); [lia|].
    rewrite u32_small by (unfold is_u32; lia). case_cmp; lia.
  - rewrite !u32_small by (unfold is_u32; lia).
    replace (if _ <? _ then _ else _) with (Z.max (pucTail rb - a) (f - pucHead rb)) by (case_cmp; lia).
    rewrite !s32_id by (rewrite ?s32_id; lia). rewrite clamp_max_pos by lia. lia.
Qed.
End free_size.

(** The size a no-split buffer reports is exact: in every state the queue
    theorem reaches, an item of [n] bytes, [0 < n], can be sent at once if and
    only if [n] is at most what [xRingbufferGetCurFreeSize] returns. *)
Theorem cur_free_size_exact (rb : Ringbuffer_t) (s1 s2 : list (list Z)) (lent : bool) (n : Z)
    (N : NS rb s1 s2 lent) (Hn : 0 < n <= xMaxItemSize rb) :
  prvCheckItemFitsDefault rb n = Ok (n <=? xRingbufferGetCurFreeSize rb).
Proof.
  rewrite (cur_free_nosplit _ _ _ _ N), (ns_fits _ _ _ _ N) by lia. f_equal.
  pose proof (ns_bounds _ _ _ _ N) as Hb. pose proof (al_max _ (ns_g _ _ _ _ N) n ltac:(lia)) as Hal.
  pose proof (max_fits_somewhere _ (ns_g _ _ _ _ N) _ (xMaxItemSize rb) (ns_acq _ _ _ _ N) ltac:(lia)) as Hmax.
  pose proof (al_max _ (ns_g _ _ _ _ N) (xMaxItemSize rb) ltac:(lia)) as Halm.
  assert (R : al n < n + 4) by (apply al_bounds; lia).
  assert (Hf : rb_full rb = true -> pucAcquire rb = pucFree rb).
  { intros E. destruct (ns_layout _ _ _ _ N) as [(_ & _ & ?)|(_ & _ & _ & _ & Hfu)]; [congruence|].
    rewrite E in Hfu. by apply Z.eqb_eq. }
  unfold largest_run. destruct (rb_full rb).
  - rewrite Hf by done. rewrite Z.eqb_refl. bsolve.
  - clear Hf. destruct (Z.eqb_spec (pucAcquire rb) (pucFree rb)) as [E|E].
    + rewrite E, Z.ltb_irrefl in *. simpl. bsolve.
    + destruct (Z.ltb_spec (pucAcquire rb) (pucFree rb)).
      * apply eq_true_iff_eq. rewrite !Z.leb_le. Z.to_euclidean_division_equations. lia.
      * apply eq_true_iff_eq. rewrite orb_true_iff, !Z.leb_le. destruct (ng_size _ (ns_g _ _ _ _ N)). clear Hmax.
        Z.to_euclidean_division_equations. lia.
Qed.

Lemma cur_free_size_exact_witness :
  let rb := prvInitializeNewRingbuffer 48 RINGBUF_TYPE_NOSPLIT 4096 ∅ in
  NS rb [] [] false /\ prvCheckItemFitsDefault rb 16 = Ok (16 <=? xRingbufferGetCurFreeSize rb).
Proof.
  assert (N : NS (prvInitializeNewRingbuffer 48 RINGBUF_TYPE_NOSPLIT 4096 ∅) [] [] false)
    by (apply NS_init; lia || reflexivity).
  split; [exact N|]. apply (cur_free_size_exact _ [] [] false); [exact N|]. vm_compute. split; congruence.
Defined.
