(* ===== verification/RingbufCases.v ===== *)
(** * Ring buffers: histories outside the queue theorems

    The queue theorem of no-split buffers is about clients that hold one item at
    a time.  This file runs the model on histories with several items held, and
    several acquired, at once, shows what the code does on a full buffer, and what
    a call that times out leaves of the semaphores. *)
From S2P Require Import Prelude Mem Ringbuf RingbufByte RingbufNoSplit.

(** ** Histories with several items held *)

Definition fresh48 : Ringbuffer_t := prvInitializeNewRingbuffer 48 RINGBUF_TYPE_NOSPLIT 1000 ∅.

Definition isr_send (b : list Z) (rb : Ringbuffer_t) : outcome Ringbuffer_t :=
  '(_, rb) ← xRingbufferSendFromISR b rb; Ok rb.
Definition isr_recv (rb : Ringbuffer_t) : outcome Ringbuffer_t :=
  '(_, rb) ← xRingbufferReceiveFromISR rb; Ok rb.

(** Fill the buffer, receive its three items, return the first of them. *)
Definition three_held_one_returned : outcome Ringbuffer_t :=
  rb ← isr_send (replicate 8 1) fresh48; rb ← isr_send (replicate 8 2) rb; rb ← isr_send (replicate 8 3) rb;
  rb ← isr_recv rb; rb ← isr_recv rb; rb ← isr_recv rb;
  vRingbufferReturnItem 1008 rb.

(** With the buffer full and every item received, [pucFree] and [pucRead] meet;
    returning one item clears the full flag although two items are still held.
    The two sends that follow are accepted and the second overwrites the item
    held at 1024. *)
Example return_on_full_releases_held_items :
  exists rb1 rb2, three_held_one_returned = Ok rb1 /\ read_bytes (rb_mem rb1) 1024 8 = replicate 8 2 /\
    (rb ← isr_send (replicate 8 4) rb1; isr_send (replicate 8 5) rb) = Ok rb2 /\
    read_bytes (rb_mem rb2) 1024 8 = replicate 8 5.
Proof.
  eexists _, _. split; [vm_compute; reflexivity|]. split; [vm_compute; reflexivity|].
  split; vm_compute; reflexivity.
Qed.

(** With the buffer filled by three acquired items, completing the second one
    makes the first one, which was never written, available to the reader. *)
Example complete_on_full_exposes_unwritten_item :
  (rb ← ('(_, rb) ← prvAcquireItemNoSplit 8 fresh48; Ok rb);
   rb ← ('(_, rb) ← prvAcquireItemNoSplit 8 rb; Ok rb);
   rb ← ('(_, rb) ← prvAcquireItemNoSplit 8 rb; Ok rb);
   rb ← xRingbufferSendComplete 1024 rb;
   '(r, _) ← xRingbufferReceiveFromISR rb;
   Ok r) = Ok (Some (1008, 8)).
Proof. vm_compute. reflexivity. Qed.

(** [xRingbufferCreate] has no minimum size: the maximum item size of a no-split
    buffer of four bytes, and of an allow-split one of twelve, wraps around. *)
Example create_without_minimum :
  (rb ← xRingbufferCreate 1 (fun _ => 1000) ∅ 4 RINGBUF_TYPE_NOSPLIT; Ok (option_map xMaxItemSize rb)) = Ok (Some 4294967292) /\
  (rb ← xRingbufferCreate 1 (fun _ => 1000) ∅ 12 RINGBUF_TYPE_ALLOWSPLIT; Ok (option_map xMaxItemSize rb)) = Ok (Some 4294967292).
Proof. split; vm_compute; reflexivity. Qed.

(** A task's send that times out keeps the semaphore it took: with room for eight
    bytes, a send of sixteen times out, and the next task that sends eight bytes
    finds the semaphore taken and waits although its item fits. *)
Example timed_out_send_keeps_semaphore :
  exists rb1 rb2,
    (rb ← isr_send (replicate 8 1) fresh48; isr_send (replicate 8 2) rb) = Ok rb1 /\ xTransSem rb1 = true /\
    xRingbufferSend 0 [calm 0] (replicate 16 3) 10 rb1 = Ok (false, rb2) /\
    xTransSem rb2 = false /\ prvCheckItemFitsDefault rb2 8 = Ok true.
Proof.
  eexists _, _. split; [vm_compute; reflexivity|]. split; [reflexivity|]. split; [vm_compute; reflexivity|].
  split; vm_compute; reflexivity.
Qed.

(** The same on the other side of a byte buffer: a task's receive that times out
    while bytes are lent keeps the semaphore, and after the return the next task
    that receives waits although bytes are queued. *)
Example timed_out_receive_keeps_semaphore :
  exists rb1 rb2 rb3 p n,
    (rb ← isr_send [1; 2] (prvInitializeNewRingbuffer 8 RINGBUF_TYPE_BYTEBUF 1000 ∅);
     xRingbufferReceive 0 [calm 0] 10 rb) = Ok (Some (p, n), rb1) /\
    (rb ← isr_send [3] rb1; xRingbufferReceive 0 [calm 0] 10 rb) = Ok (None, rb2) /\
    vRingbufferReturnItem p rb2 = Ok rb3 /\ xRecvSem rb3 = false /\ prvCheckItemAvail rb3 = true.
Proof.
  eexists _, _, _, _, _. split; [vm_compute; reflexivity|]. split; [vm_compute; reflexivity|].
  split; [vm_compute; reflexivity|]. split; vm_compute; reflexivity.
Qed.
