(* ===== verification/EspFlash.v ===== *)
(** * Flash chip access ([components/spi_flash/esp_flash_api.c])

    A NOR flash chip: erasing sets bytes to 0xFF, programming clears bits.  The
    contents are the memory [fl_mem]; the chip driver operations ([chip_drv]) are
    the erase, program and read of that memory.  A driver operation can fail:
    the schedule [fl_faults] says which of the coming operations do, and what a
    failed one leaves in the range it worked on.  The read, write and erase
    calls of the API cut their range into chunks, sectors and blocks. *)
From S2P Require Import Prelude Mem.

(** ** Error codes *)
Definition ESP_OK := 0.
Definition ESP_FAIL := -1.
Definition ESP_ERR_NO_MEM := 0x101.
Definition ESP_ERR_INVALID_ARG := 0x102.
Definition ESP_ERR_INVALID_STATE := 0x103.
Definition ESP_ERR_INVALID_SIZE := 0x104.
Definition ESP_ERR_NOT_FOUND := 0x105.
Definition ESP_ERR_NOT_SUPPORTED := 0x106.
Definition ESP_ERR_FLASH_OP_FAIL := 0x6001.
Definition ESP_ERR_FLASH_OP_TIMEOUT := 0x6002.
Definition ESP_ERR_FLASH_NOT_INITIALISED := 0x6003.
Definition ESP_ERR_FLASH_PROTECTED := 0x6006.

(** ** The chip *)

(** A failed driver operation: its error, and what it leaves at the start of its
    range. *)
Inductive fault := OpFail (torn : list Z) | OpTimeout (torn : list Z).
Definition fault_err (f : fault) : Z :=
  match f with OpFail _ => ESP_ERR_FLASH_OP_FAIL | OpTimeout _ => ESP_ERR_FLASH_OP_TIMEOUT end.
Definition fault_torn (f : fault) : list Z := match f with OpFail l | OpTimeout l => l end.

Record esp_flash_t := mkFlash {
  chip_size : Z;
  sector_size : Z;
  block_erase_size : Z;
  protected_regions : list (Z * Z);        (* (offset, size) of the regions protected now *)
  region_protected : Z -> Z -> bool;       (* os_func->region_protected *)
  supports_direct_read : bool;
  supports_direct_write : bool;
  fl_mem : mem;
  fl_faults : list (option fault)
}.
#[export] Instance rebuild_flash : Rebuild esp_flash_t := fun r =>
  mkFlash (chip_size r) (sector_size r) (block_erase_size r) (protected_regions r) (region_protected r)
    (supports_direct_read r) (supports_direct_write r) (fl_mem r) (fl_faults r).

(** Programming: bits are only cleared. *)
Fixpoint program (m : mem) (a : Z) (l : list Z) : mem :=
  match l with
  | [] => m
  | v :: l => program (store8 m a (Z.land (load8 m a) v)) (a + 1) l
  end.

(** One driver operation on [n] bytes at [a], between [spiflash_start] and
    [spiflash_end]. *)
Definition driver_op (a n : Z) (effect : mem -> mem) (c : esp_flash_t) : Z * esp_flash_t :=
  match fl_faults c with
  | Some f :: fs =>
      (fault_err f, c <| fl_mem := write_bytes (fl_mem c) a (take (Z.to_nat n) (fault_torn f)) |> <| fl_faults := fs |>)
  | None :: fs => (ESP_OK, c <| fl_mem := effect (fl_mem c) |> <| fl_faults := fs |>)
  | [] => (ESP_OK, c <| fl_mem := effect (fl_mem c) |>)
  end.

Definition drv_erase (a n : Z) : esp_flash_t -> Z * esp_flash_t := driver_op a n (fun m => memset m a 0xFF n).
Definition drv_write (a : Z) (l : list Z) : esp_flash_t -> Z * esp_flash_t := driver_op a (lenZ l) (fun m => program m a l).
(** A failed read leaves the chip alone. *)
Definition drv_read (a n : Z) (c : esp_flash_t) : Z * list Z * esp_flash_t :=
  let '(err, c) := driver_op a 0 (fun m => m) c in
  (err, read_bytes (fl_mem c) a (Z.to_nat n), c).

(** ** Configuration *)
Inductive dangerous_write := WRITE_ABORTS | WRITE_FAILS | WRITE_ALLOWED.
Class FlashConfig := {
  SPI_FLASH_DANGEROUS_WRITE : dangerous_write;
  SPI_FLASH_BYPASS_BLOCK_ERASE : bool
}.

Definition MAX_WRITE_CHUNK := 8192.
Definition MAX_READ_CHUNK := 16384.

Section api.
Context {cfg : FlashConfig}.

(** The macro [CHECK_WRITE_ADDRESS]: [true] when the write may go on, [false]
    when the function returns [ESP_ERR_INVALID_ARG]. *)
Definition CHECK_WRITE_ADDRESS (c : esp_flash_t) (addr size : Z) : outcome bool :=
  match SPI_FLASH_DANGEROUS_WRITE with
  | WRITE_ALLOWED => Ok true
  | WRITE_FAILS => Ok (negb (region_protected c addr size))
  | WRITE_ABORTS => if region_protected c addr size then Abort else Ok true
  end.

Definition regions_overlap (a_start a_len b_start b_len : Z) : bool :=
  let a_end := u32 (a_start + a_len) in
  let b_end := u32 (b_start + b_len) in
  (a_start <? b_end) && (b_start <? a_end).

Fixpoint erase_loop (fuel : nat) (start len : Z) (c : esp_flash_t) : outcome (Z * esp_flash_t) :=
  if sector_size c <=? len then
    match fuel with
    | O => OutOfFuel
    | S fuel =>
        let n :=
          if negb SPI_FLASH_BYPASS_BLOCK_ERASE && (0 <? block_erase_size c)
             && (block_erase_size c <=? len) && (start mod block_erase_size c =? 0)
          then block_erase_size c else sector_size c in
        let '(err, c) := drv_erase start n c in
        if err =? ESP_OK then erase_loop fuel (u32 (start + n)) (u32 (len - n)) c
        else Ok (err, c)
    end
  else Ok (ESP_OK, c).

(** Each turn erases at least one sector. *)
Definition erase_fuel (len : Z) (c : esp_flash_t) : nat := Z.to_nat (len / sector_size c).

Definition esp_flash_erase_region (start len : Z) (c : esp_flash_t) : outcome (Z * esp_flash_t) :=
  ok ← CHECK_WRITE_ADDRESS c start len;
  if negb ok then Ok (ESP_ERR_INVALID_ARG, c)
  else if (sector_size c =? 0) || negb (block_erase_size c mod sector_size c =? 0)
  then Ok (ESP_ERR_FLASH_NOT_INITIALISED, c)
  else if (chip_size c <? start) || (chip_size c <? u32 (start + len)) then Ok (ESP_ERR_INVALID_ARG, c)
  else if negb (start mod sector_size c =? 0) || negb (len mod sector_size c =? 0)
  then Ok (ESP_ERR_INVALID_ARG, c)
  else if existsb (fun r => regions_overlap start len r.1 r.2) (protected_regions c)
  then Ok (ESP_ERR_FLASH_PROTECTED, c)
  else erase_loop (erase_fuel len c) start len c.

(** The temporary buffer of [esp_flash_read]: each try is the largest free block
    and whether the allocation of the size chosen succeeds. *)
Fixpoint alloc_temp (retries : nat) (tries : list (Z * bool)) (chunk : Z) : option Z :=
  match retries, tries with
  | S retries, (largest, ok) :: tries =>
      let chunk := Z.min chunk largest in
      let chunk := align_up 4 chunk in
      if (0 <? chunk) && ok then Some chunk else alloc_temp retries tries chunk
  | _, _ => None
  end.

(** The chunks of a read: the bytes put in the buffer so far are returned with
    an error. *)
Fixpoint read_loop (fuel : nat) (read_chunk_size address length : Z) (c : esp_flash_t)
    : outcome (Z * list Z * esp_flash_t) :=
  match fuel with
  | O => OutOfFuel
  | S fuel =>
      let length_to_read := Z.min read_chunk_size length in
      let '(err, data, c) := drv_read address length_to_read c in
      if negb (err =? ESP_OK) then Ok (err, [], c)
      else
        let length := u32 (length - length_to_read) in
        if 0 <? length then
          '(err, rest, c) ← read_loop fuel read_chunk_size (u32 (address + length_to_read)) length c;
          Ok (err, data ++ rest, c)
        else Ok (err, data, c)
  end.

Definition esp_flash_read (tries : list (Z * bool)) (address length : Z) (c : esp_flash_t)
    : outcome (Z * list Z * esp_flash_t) :=
  if length =? 0 then Ok (ESP_OK, [], c)
  else if (chip_size c <? address) || (chip_size c <? u32 (address + length))
  then Ok (ESP_ERR_INVALID_ARG, [], c)
  else
    let read_chunk_size := Z.min MAX_READ_CHUNK length in
    match (if supports_direct_read c then Some read_chunk_size else alloc_temp 5 tries read_chunk_size) with
    | None => Ok (ESP_ERR_NO_MEM, [], c)
    | Some chunk => read_loop (Z.to_nat length) chunk address length c
    end.

Fixpoint write_loop (fuel : nat) (write_addr : Z) (buffer : list Z) (c : esp_flash_t)
    : outcome (Z * esp_flash_t) :=
  match fuel with
  | O => OutOfFuel
  | S fuel =>
      let len_remain := lenZ buffer in
      let write_len := Z.min len_remain (if supports_direct_write c then MAX_WRITE_CHUNK else 32) in
      let final := len_remain =? write_len in
      let '(err, c) := drv_write write_addr (take (Z.to_nat write_len) buffer) c in
      if negb (err =? ESP_OK) || final then Ok (err, c)
      else write_loop fuel (u32 (write_addr + write_len)) (drop (Z.to_nat write_len) buffer) c
  end.

Definition esp_flash_write (buffer : list Z) (address : Z) (c : esp_flash_t) : outcome (Z * esp_flash_t) :=
  let length := lenZ buffer in
  if length =? 0 then Ok (ESP_OK, c)
  else
    ok ← CHECK_WRITE_ADDRESS c address length;
    if negb ok then Ok (ESP_ERR_INVALID_ARG, c)
    else if (chip_size c <? address) || (chip_size c <? u32 (address + length))
    then Ok (ESP_ERR_INVALID_ARG, c)
    else write_loop (Z.to_nat length) address buffer c.
End api.

(** ** Programming *)
Lemma land_byte_range v x : is_byte v -> is_byte x -> is_byte (Z.land v x).
Proof.
  unfold is_byte. intros [H1 H2] [H3 H4]. split; [apply Z.land_nonneg; by left|].
  pose proof (Z.land_nonneg v x) as [_ Hn].
  destruct (decide (Z.land v x = 0)) as [->|]; [lia|].
  apply Z.log2_lt_pow2; [specialize (Hn ltac:(by left)); lia|].
  eapply Z.le_lt_trans; [apply Z.log2_land; lia|].
  destruct (decide (v = 0)) as [->|]; [simpl; lia|].
  apply Z.min_lt_iff. left. apply Z.log2_lt_pow2; lia.
Qed.

Lemma load8_program m a l b :
  Forall is_byte l ->
  load8 (program m a l) b =
  if decide (a <= b < a + lenZ l) then Z.land (load8 m b) (nth (Z.to_nat (b - a)) l 0) else load8 m b.
Proof.
  unfold lenZ. intros Hl. revert m a. induction Hl as [|v l Hv Hl IH]; intros m a; cbn [program length].
  - case_decide; [lia|done].
  - rewrite IH, load8_store8. repeat case_decide; try lia; try done.
    + replace (Z.to_nat (b - a)) with (S (Z.to_nat (b - (a + 1)))) by lia. done.
    + subst. rewrite Z.sub_diag. simpl. apply Z.mod_small, land_byte_range; [apply load8_range|done].
Qed.

Lemma program_app m a l k : program m a (l ++ k) = program (program m a l) (a + lenZ l) k.
Proof.
  revert m a. induction l as [|v l IH]; intros m a; simpl; [by rewrite Z.add_0_r|].
  rewrite IH, lenZ_cons. f_equal. lia.
Qed.

(** Programming an erased range stores the bytes. *)
Lemma read_program_erased m a l :
  Forall is_byte l -> (forall b, a <= b < a + lenZ l -> load8 m b = 0xFF) ->
  read_bytes (program m a l) a (length l) = l.
Proof.
  intros Hl He. apply read_bytes_eq. intros i v Hi. pose proof (lookup_lt_Some _ _ _ Hi).
  rewrite load8_program, decide_True, He by (done || (unfold lenZ; lia)).
  replace (Z.to_nat (a + Z.of_nat i - a)) with i by lia. rewrite (nth_lookup_Some _ _ _ _ Hi).
  rewrite Z.land_comm. change 0xFF with (Z.ones 8). rewrite Z.land_ones by lia.
  apply Z.mod_small, (Forall_lookup_1 _ _ _ _ Hl Hi).
Qed.

Lemma load8_memset m a v n b :
  0 <= n -> is_byte v -> load8 (memset m a v n) b = if decide (a <= b < a + n) then v else load8 m b.
Proof.
  intros Hn Hv. unfold memset. rewrite load8_write_bytes, length_replicate, Z2Nat.id by done.
  case_decide; [|done]. rewrite nth_lookup, lookup_replicate_2 by lia. simpl. by apply Z.mod_small.
Qed.

(** ** What an operation may change *)

(** The configuration of the chip. *)
Definition same_chip (c c' : esp_flash_t) : Prop :=
  chip_size c' = chip_size c /\ sector_size c' = sector_size c /\ block_erase_size c' = block_erase_size c /\
  protected_regions c' = protected_regions c /\ region_protected c' = region_protected c /\
  supports_direct_read c' = supports_direct_read c /\ supports_direct_write c' = supports_direct_write c.

(** The bytes outside [a .. a + n) are untouched. *)
Definition outside_same (a n : Z) (c c' : esp_flash_t) : Prop :=
  forall b, b < a \/ a + n <= b -> load8 (fl_mem c') b = load8 (fl_mem c) b.

#[export] Instance same_chip_preorder : PreOrder same_chip.
Proof.
  split; [by repeat split|]. intros x y z (?&?&?&?&?&?&?) (?&?&?&?&?&?&?). repeat split; congruence.
Qed.
#[export] Instance outside_same_preorder a n : PreOrder (outside_same a n).
Proof. split; [done|]. intros x y z H1 H2 b Hb. by rewrite H2, H1. Qed.

Lemma outside_same_sub a n a' n' c c' :
  a <= a' -> a' + n' <= a + n -> outside_same a' n' c c' -> outside_same a n c c'.
Proof. intros ? ? H b Hb. apply H. lia. Qed.

Lemma driver_op_spec a n eff c err c' :
  0 <= n -> (forall b, b < a \/ a + n <= b -> load8 (eff (fl_mem c)) b = load8 (fl_mem c) b) ->
  driver_op a n eff c = (err, c') ->
  same_chip c c' /\ outside_same a n c c' /\ (err = ESP_OK -> fl_mem c' = eff (fl_mem c)) /\
  (fl_faults c = [] -> err = ESP_OK /\ fl_faults c' = []).
Proof.
  intros Hn He. unfold driver_op. destruct (fl_faults c) as [|[f|] fs] eqn:Ef; intros [= <- <-];
    (split; [by repeat split|]).
  - by split; [intros b Hb; apply He|].
  - split; [|by split; [destruct f|]].
    intros b Hb. cbn. apply load8_write_bytes_ne. rewrite length_take. lia.
  - by split; [intros b Hb; apply He|].
Qed.

(** ** Erase *)
Section erase.
Context {cfg : FlashConfig}.

(** Geometry of a chip whose driver is initialised. *)
Record chip_ok (c : esp_flash_t) : Prop := {
  co_size : 0 <= chip_size c < 2 ^ 32;
  co_sector : 0 < sector_size c;
  co_block : 0 <= block_erase_size c /\ block_erase_size c mod sector_size c = 0
}.

Lemma chip_ok_same c c' : same_chip c c' -> chip_ok c -> chip_ok c'.
Proof. intros (E1 & E2 & E3 & _) []. split; by rewrite ?E1, ?E2, ?E3. Qed.

Definition erased (a n : Z) (c : esp_flash_t) : Prop := forall b, a <= b < a + n -> load8 (fl_mem c) b = 0xFF.

Lemma drv_erase_spec a n c err c' :
  0 <= n -> drv_erase a n c = (err, c') ->
  same_chip c c' /\ outside_same a n c c' /\ (err = ESP_OK -> erased a n c') /\
  (fl_faults c = [] -> err = ESP_OK /\ fl_faults c' = []).
Proof.
  intros Hn E. apply driver_op_spec in E as (H1 & H2 & H3 & H4); [|done|].
  - repeat (split; [done|]). split; [|done]. intros Eo b Hb. rewrite H3 by done.
    by rewrite load8_memset, decide_True.
  - intros b Hb. rewrite load8_memset by done. by rewrite decide_False by lia.
Qed.

Lemma mod_sub_multiple x y s : s <> 0 -> x mod s = 0 -> y mod s = 0 -> (x - y) mod s = 0.
Proof. intros Hs Hx Hy. by rewrite Zminus_mod, Hx, Hy, Z.sub_0_r, Z.mod_0_l. Qed.
Lemma mod_add_multiple x y s : s <> 0 -> x mod s = 0 -> y mod s = 0 -> (x + y) mod s = 0.
Proof. intros Hs Hx Hy. by rewrite Zplus_mod, Hx, Hy, Z.mod_0_l. Qed.
Lemma multiple_le x s : 0 < s -> 0 < x -> x mod s = 0 -> s <= x.
Proof. intros. apply Z.divide_pos_le; [lia|]. apply Z.mod_divide; lia. Qed.

Lemma erase_loop_spec fuel : forall start len c,
  chip_ok c -> 0 <= start -> 0 <= len -> start + len <= chip_size c ->
  len mod sector_size c = 0 -> len <= Z.of_nat fuel * sector_size c ->
  exists err c', erase_loop fuel start len c = Ok (err, c') /\ same_chip c c' /\ outside_same start len c c' /\
    (err = ESP_OK -> erased start len c') /\ (fl_faults c = [] -> err = ESP_OK /\ fl_faults c' = []).
Proof.
  induction fuel as [|fuel IH]; intros start len c G Hs Hl Hb Hm Hf; simpl; pose proof (co_sector _ G).
  { destruct (Z.leb_spec (sector_size c) len); [lia|]. exists ESP_OK, c. repeat (split; [done|]).
    split; [|done]. intros _ b. lia. }
  destruct (Z.leb_spec (sector_size c) len) as [Hle|Hlt].
  2:{ exists ESP_OK, c. repeat (split; [done|]). split; [|done]. intros _ b Hbb.
      destruct (decide (len = 0)); [lia|]. pose proof (multiple_le len (sector_size c)). lia. }
  set (n := if _ && _ && _ && _ then _ else _).
  assert (Hn : sector_size c <= n <= len /\ n mod sector_size c = 0).
  { unfold n. destruct (_ && _ && _ && _) eqn:E; [|split; [lia|apply Z_mod_same_full]].
    apply andb_prop in E as [[[_ E1%Z.ltb_lt]%andb_prop E2%Z.leb_le]%andb_prop _].
    pose proof (co_block _ G) as [_ E3]. split; [|done]. split; [|done]. by apply multiple_le. }
  destruct Hn as [Hn Hnm]. destruct (drv_erase start n c) as [err c1] eqn:E.
  apply drv_erase_spec in E as (S1 & O1 & E1 & F1); [|lia].
  destruct (Z.eqb_spec err ESP_OK) as [->|Hne].
  - pose proof (co_size _ G). pose proof S1 as (Ez & Es & _).
    rewrite !u32_small by (unfold is_u32; lia).
    destruct (IH (start + n) (len - n) c1) as (err2 & c2 & Er & S2 & O2 & E2 & F2);
      rewrite ?Ez, ?Es; try lia; [by eapply chip_ok_same|by apply mod_sub_multiple; [lia|..]|].
    exists err2, c2. split; [done|]. split; [by etrans|].
    split; [etrans; [apply (outside_same_sub start len start n); [lia..|done]|
                     apply (outside_same_sub start len (start + n) (len - n)); [lia..|done]]|].
    split; [|intros Hfl; destruct F1; [done|]; by apply F2].
    intros Eo b Hbb. destruct (decide (b < start + n)); [|apply E2; [done|lia]].
    rewrite O2 by lia. apply E1; [done|lia].
  - exists err, c1. split; [done|]. split; [done|].
    split; [apply (outside_same_sub start len start n); [lia..|done]|].
    split; [done|]. intros Hfl. by destruct F1.
Qed.

(** What an erase promises: the chip keeps its configuration, no byte outside the
    region changes, success means every byte of the region is 0xFF, and an
    aligned, unprotected region inside a chip that does not fail succeeds. *)
Definition erase_post (start len : Z) (c : esp_flash_t) (err : Z) (c' : esp_flash_t) : Prop :=
  same_chip c c' /\ outside_same start len c c' /\
  (err = ESP_OK -> erased start len c' /\ start + len <= chip_size c) /\
  (fl_faults c = [] -> start + len <= chip_size c -> start mod sector_size c = 0 -> len mod sector_size c = 0 ->
   existsb (fun r => regions_overlap start len r.1 r.2) (protected_regions c) = false ->
   err = ESP_OK /\ fl_faults c' = []).

Lemma erase_region_spec (start len : Z) (c : esp_flash_t)
    (G : chip_ok c) (Hs : 0 <= start) (Hl : 0 <= len) (Hb : start + len < 2 ^ 32)
    (Hp : region_protected c start len = false) :
  exists err c', esp_flash_erase_region start len c = Ok (err, c') /\ erase_post start len c err c'.
Proof.
  unfold esp_flash_erase_region, erase_post.
  assert (Ec : CHECK_WRITE_ADDRESS c start len = Ok true)
    by (unfold CHECK_WRITE_ADDRESS; rewrite Hp; by destruct SPI_FLASH_DANGEROUS_WRITE).
  rewrite Ec. ostep. cbn [negb]. pose proof (co_sector _ G). pose proof (co_block _ G) as [_ Hbm].
  destruct (Z.eqb_spec (sector_size c) 0); [lia|]. rewrite Hbm, Z.eqb_refl. cbn [orb negb].
  rewrite u32_small by (unfold is_u32; lia).
  destruct (Z.ltb_spec (chip_size c) start), (Z.ltb_spec (chip_size c) (start + len)); cbn [orb];
    try (exists ESP_ERR_INVALID_ARG, c; repeat (split; [done|]); lia).
  destruct (Z.eqb_spec (start mod sector_size c) 0), (Z.eqb_spec (len mod sector_size c) 0); cbn [orb negb];
    try (exists ESP_ERR_INVALID_ARG, c; repeat (split; [done|]); intros; congruence).
  destruct (existsb _ _) eqn:Ep.
  { exists ESP_ERR_FLASH_PROTECTED, c. repeat (split; [done|]). intros; congruence. }
  destruct (erase_loop_spec (erase_fuel len c) start len c) as (err & c' & E & S & O & Er & F); try done.
  - unfold erase_fuel. rewrite Z2Nat.id by (apply Z.div_pos; lia).
    pose proof (Z.div_mod len (sector_size c)). lia.
  - exists err, c'. repeat (split; [done|]). split; [|auto]. intros Eo. by split; [apply Er|].
Qed.

(** Erasing a region of the flash.  For any chip geometry and any schedule of
    driver failures, and whatever the pattern of blocks and sectors chosen, the
    call terminates and touches no byte outside the region; when it reports
    success every byte of the region is 0xFF; and on a chip that does not fail
    it succeeds on every aligned, unprotected region inside the chip. *)
Theorem erase_region_correct (start len : Z) (c : esp_flash_t)
    (G : chip_ok c) (Hs : 0 <= start) (Hl : 0 <= len) (Hb : start + len < 2 ^ 32)
    (Hp : region_protected c start len = false) :
  exists err c', esp_flash_erase_region start len c = Ok (err, c') /\ erase_post start len c err c'.
Proof. by apply erase_region_spec. Qed.
End erase.

(** ** Write *)
Section write.
Context {cfg : FlashConfig}.

Lemma drv_write_spec a l c err c' :
  Forall is_byte l -> drv_write a l c = (err, c') ->
  same_chip c c' /\ outside_same a (lenZ l) c c' /\ (err = ESP_OK -> fl_mem c' = program (fl_mem c) a l) /\
  (fl_faults c = [] -> err = ESP_OK /\ fl_faults c' = []).
Proof.
  intros Hl E. apply driver_op_spec in E; [done|apply lenZ_nonneg|].
  intros b Hb. rewrite load8_program by done. by rewrite decide_False by lia.
Qed.

Lemma write_loop_spec fuel : forall a l c,
  Forall is_byte l -> (0 < length l <= fuel)%nat -> 0 <= a -> a + lenZ l < 2 ^ 32 ->
  exists err c', write_loop fuel a l c = Ok (err, c') /\ same_chip c c' /\ outside_same a (lenZ l) c c' /\
    (err = ESP_OK -> fl_mem c' = program (fl_mem c) a l) /\ (fl_faults c = [] -> err = ESP_OK /\ fl_faults c' = []).
Proof.
  induction fuel as [|fuel IH]; intros a l c Hl Hf Ha Hb; [lia|]. cbn [write_loop].
  set (n := Z.min (lenZ l) _).
  assert (Hn : 0 < n <= lenZ l) by (unfold n, MAX_WRITE_CHUNK, lenZ; case_match; lia).
  assert (Hnl : lenZ (take (Z.to_nat n) l) = n) by (unfold lenZ in *; rewrite length_take; lia).
  destruct (drv_write a (take (Z.to_nat n) l) c) as [err c1] eqn:E.
  apply drv_write_spec in E as (S1 & O1 & E1 & F1); [|by apply Forall_take]. rewrite Hnl in O1.
  assert (O1' : outside_same a (lenZ l) c c1) by (apply (outside_same_sub _ _ a n); [lia..|done]).
  destruct (Z.eqb_spec err ESP_OK) as [->|Hne]; [destruct (Z.eqb_spec (lenZ l) n) as [El|El]|]; cbn [negb orb].
  - exists ESP_OK, c1. repeat (split; [done|]). split; [|done].
    intros _. rewrite E1 by done. rewrite take_ge by (unfold lenZ in El; lia). done.
  - rewrite u32_small by (unfold is_u32; lia).
    destruct (IH (a + n) (drop (Z.to_nat n) l) c1) as (err & c2 & Er & S2 & O2 & E2 & F2);
      [by apply Forall_drop|unfold lenZ in *; rewrite length_drop; lia|lia|
       unfold lenZ in *; rewrite length_drop; lia|].
    assert (Hd : lenZ (drop (Z.to_nat n) l) = lenZ l - n) by (unfold lenZ in *; rewrite length_drop; lia).
    rewrite Hd in O2. exists err, c2. split; [done|]. split; [by etrans|].
    split; [etrans; [done|apply (outside_same_sub _ _ (a + n) (lenZ l - n)); [lia..|done]]|].
    split; [|intros Hfl; destruct F1; [done|]; by apply F2].
    intros Eo. rewrite E2, E1 by done. rewrite <- (take_drop (Z.to_nat n) l) at 3.
    by rewrite program_app, Hnl.
  - exists err, c1. repeat (split; [done|]). intros Hfl. by destruct F1.
Qed.

(** What a write promises. *)
Definition write_post (buffer : list Z) (address : Z) (c : esp_flash_t) (err : Z) (c' : esp_flash_t) : Prop :=
  same_chip c c' /\ outside_same address (lenZ buffer) c c' /\
  (err = ESP_OK -> fl_mem c' = program (fl_mem c) address buffer) /\
  (fl_faults c = [] -> address + lenZ buffer <= chip_size c -> err = ESP_OK /\ fl_faults c' = []).

Lemma flash_write_spec (buffer : list Z) (address : Z) (c : esp_flash_t)
    (G : chip_ok c) (Hbuf : Forall is_byte buffer) (Ha : 0 <= address) (Hb : address + lenZ buffer < 2 ^ 32)
    (Hp : region_protected c address (lenZ buffer) = false) :
  exists err c', esp_flash_write buffer address c = Ok (err, c') /\ write_post buffer address c err c'.
Proof.
  unfold esp_flash_write, write_post. pose proof (lenZ_nonneg buffer).
  destruct (Z.eqb_spec (lenZ buffer) 0) as [E0|E0].
  { exists ESP_OK, c. repeat (split; [done|]). split; [|done].
    destruct buffer; [done|]. unfold lenZ in E0. simpl in E0. lia. }
  assert (Ec : CHECK_WRITE_ADDRESS c address (lenZ buffer) = Ok true)
    by (unfold CHECK_WRITE_ADDRESS; rewrite Hp; by destruct SPI_FLASH_DANGEROUS_WRITE).
  rewrite Ec. ostep. cbn [negb]. rewrite u32_small by (unfold is_u32; lia).
  destruct (Z.ltb_spec (chip_size c) address), (Z.ltb_spec (chip_size c) (address + lenZ buffer)); cbn [orb];
    try (exists ESP_ERR_INVALID_ARG, c; repeat (split; [done|]); lia).
  destruct (write_loop_spec (Z.to_nat (lenZ buffer)) address buffer c) as (err & c' & E & S & O & Er & F);
    [done|unfold lenZ in *; lia|done|done|].
  exists err, c'. repeat (split; [done|]). auto.
Qed.

(** C36. Writing to the flash.  Whatever the chunking and whatever the schedule of
    driver failures, the call terminates and touches no byte outside its range;
    when it reports success the chip holds what programming the whole buffer at
    once would leave (each byte the conjunction of the old and the new one); and
    on a chip that does not fail it succeeds on every range inside the chip. *)
Theorem flash_write_correct (buffer : list Z) (address : Z) (c : esp_flash_t)
    (G : chip_ok c) (Hbuf : Forall is_byte buffer) (Ha : 0 <= address) (Hb : address + lenZ buffer < 2 ^ 32)
    (Hp : region_protected c address (lenZ buffer) = false) :
  exists err c', esp_flash_write buffer address c = Ok (err, c') /\ write_post buffer address c err c'.
Proof. by apply flash_write_spec. Qed.
End write.

(** ** Read *)
Section read.

Lemma drv_read_spec a n c err data c' :
  drv_read a n c = (err, data, c') ->
  same_chip c c' /\ (forall b, load8 (fl_mem c') b = load8 (fl_mem c) b) /\
  data = read_bytes (fl_mem c) a (Z.to_nat n) /\ (fl_faults c = [] -> err = ESP_OK /\ fl_faults c' = []).
Proof.
  unfold drv_read. destruct (driver_op a 0 _ c) as [e c1] eqn:E. intros [= <- <- <-].
  apply driver_op_spec in E as (S & O & _ & F); [|lia|done].
  assert (Hs : forall b, load8 (fl_mem c1) b = load8 (fl_mem c) b) by (intros b; apply O; lia).
  repeat (split; [done|]). split; [|done]. by apply read_bytes_ext.
Qed.

Lemma read_loop_spec chunk fuel : 0 < chunk -> forall a n c,
  0 < n <= Z.of_nat fuel -> 0 <= a -> a + n < 2 ^ 32 ->
  exists err data c', read_loop fuel chunk a n c = Ok (err, data, c') /\ same_chip c c' /\
    (forall b, load8 (fl_mem c') b = load8 (fl_mem c) b) /\
    (err = ESP_OK -> data = read_bytes (fl_mem c) a (Z.to_nat n)) /\
    (fl_faults c = [] -> err = ESP_OK /\ fl_faults c' = []).
Proof.
  intros Hc. induction fuel as [|fuel IH]; intros a n c Hn Ha Hb; [lia|]. cbn [read_loop].
  set (k := Z.min chunk n). assert (Hk : 0 < k <= n) by lia.
  destruct (drv_read a k c) as [[err data] c1] eqn:E. apply drv_read_spec in E as (S1 & M1 & -> & F1).
  destruct (Z.eqb_spec err ESP_OK) as [->|Hne]; cbn [negb].
  2:{ exists err, [], c1. repeat (split; [done|]). intros Hfl. by destruct F1. }
  rewrite !u32_small by (unfold is_u32; lia).
  destruct (Z.ltb_spec 0 (n - k)).
  - destruct (IH (a + k) (n - k) c1) as (err & rest & c2 & Er & S2 & M2 & E2 & F2); [lia..|].
    rewrite Er. ostep. exists err, (read_bytes (fl_mem c) a (Z.to_nat k) ++ rest), c2.
    split; [done|]. split; [by etrans|]. split; [intros b; by rewrite M2, M1|].
    split; [|intros Hfl; destruct F1; [done|]; by apply F2].
    intros Eo. rewrite E2 by done. replace (Z.to_nat n) with (Z.to_nat k + Z.to_nat (n - k))%nat by lia.
    rewrite read_bytes_app, Z2Nat.id by lia. f_equal. by apply read_bytes_ext.
  - replace k with n by lia. exists ESP_OK, (read_bytes (fl_mem c) a (Z.to_nat n)), c1. repeat (split; [done|]). by apply F1.
Qed.

Lemma alloc_temp_pos retries : forall tries chunk k, alloc_temp retries tries chunk = Some k -> 0 < k.
Proof.
  induction retries as [|r IH]; intros [|[lg ok] tries] chunk k; simpl; try done.
  destruct (Z.ltb_spec 0 (align_up 4 (Z.min chunk lg))); cbn [andb]; [destruct ok|]; [by intros [= <-]|apply IH..].
Qed.

(** What a read promises. *)
Definition read_post (address length : Z) (c : esp_flash_t) (err : Z) (data : list Z) (c' : esp_flash_t) : Prop :=
  same_chip c c' /\ (forall b, load8 (fl_mem c') b = load8 (fl_mem c) b) /\
  (err = ESP_OK -> data = read_bytes (fl_mem c) address (Z.to_nat length)) /\
  (fl_faults c = [] -> supports_direct_read c = true -> address + length <= chip_size c ->
   err = ESP_OK /\ fl_faults c' = []).

Lemma flash_read_spec (tries : list (Z * bool)) (address length : Z) (c : esp_flash_t)
    (G : chip_ok c) (Ha : 0 <= address) (Hl : 0 <= length) (Hb : address + length < 2 ^ 32) :
  exists err data c', esp_flash_read tries address length c = Ok (err, data, c') /\
    read_post address length c err data c'.
Proof.
  unfold esp_flash_read, read_post. destruct (Z.eqb_spec length 0) as [->|E0].
  { exists ESP_OK, [], c. by repeat (split; [done|]). }
  rewrite u32_small by (unfold is_u32; lia).
  destruct (Z.ltb_spec (chip_size c) address), (Z.ltb_spec (chip_size c) (address + length)); cbn [orb];
    try (exists ESP_ERR_INVALID_ARG, [], c; repeat (split; [done|]); lia).
  destruct (if supports_direct_read c then _ else _) as [chunk|] eqn:Ec.
  2:{ exists ESP_ERR_NO_MEM, [], c. repeat (split; [done|]). intros _ Hd. by rewrite Hd in Ec. }
  assert (Hc : 0 < chunk).
  { destruct (supports_direct_read c); [injection Ec as <-; unfold MAX_READ_CHUNK; lia|].
    by eapply alloc_temp_pos. }
  destruct (read_loop_spec chunk (Z.to_nat length) Hc address length c) as (err & data & c' & E & S & M & Er & F); [lia..|].
  exists err, data, c'. repeat (split; [done|]). auto.
Qed.

(** Reading from the flash.  Whatever temporary buffer can be had and whatever
    the schedule of driver failures, the call terminates and leaves the contents
    alone; when it reports success the buffer holds the bytes of the range; it
    succeeds on every range inside the chip when no driver operation fails and
    the buffer can be read into directly. *)
Theorem flash_read_correct (tries : list (Z * bool)) (address length : Z) (c : esp_flash_t)
    (G : chip_ok c) (Ha : 0 <= address) (Hl : 0 <= length) (Hb : address + length < 2 ^ 32) :
  exists err data c', esp_flash_read tries address length c = Ok (err, data, c') /\
    read_post address length c err data c'.
Proof. by apply flash_read_spec. Qed.
End read.

(** ** A small chip *)
Definition demo_config : FlashConfig := {| SPI_FLASH_DANGEROUS_WRITE := WRITE_ABORTS; SPI_FLASH_BYPASS_BLOCK_ERASE := false |}.

(** Four sectors of 4096 bytes erased in blocks of two; writes from sector 1 on
    are allowed; the second driver operation fails. *)
Definition demo_chip : esp_flash_t :=
  {| chip_size := 16384; sector_size := 4096; block_erase_size := 8192; protected_regions := [];
     region_protected := fun a n => a <? 4096; supports_direct_read := false; supports_direct_write := false;
     fl_mem := ∅; fl_faults := [None; Some (OpTimeout [1; 2; 3])] |}.

Lemma demo_chip_ok : chip_ok demo_chip.
Proof. split; cbn; try lia. split; [lia|reflexivity]. Qed.

Lemma erase_region_correct_witness :
  exists err c', @esp_flash_erase_region demo_config 4096 12288 demo_chip = Ok (err, c') /\
    erase_post 4096 12288 demo_chip err c'.
Proof.
  apply (@erase_region_correct demo_config 4096 12288 demo_chip); [apply demo_chip_ok|lia|lia|lia|reflexivity].
Defined.

Lemma flash_write_correct_witness :
  exists err c', @esp_flash_write demo_config (replicate 40 7) 4100 demo_chip = Ok (err, c') /\
    write_post (replicate 40 7) 4100 demo_chip err c'.
Proof.
  apply (@flash_write_correct demo_config (replicate 40 7) 4100 demo_chip);
    [apply demo_chip_ok|apply Forall_replicate; unfold is_byte; lia|lia|vm_compute; reflexivity|reflexivity].
Defined.

Lemma flash_read_correct_witness :
  exists err data c', esp_flash_read [(100, true)] 8000 300 demo_chip = Ok (err, data, c') /\
    read_post 8000 300 demo_chip err data c'.
Proof. apply (flash_read_correct [(100, true)] 8000 300 demo_chip); [apply demo_chip_ok|lia|lia|lia]. Defined.
