(* ===== verification/Partition.v ===== *)
(** * Partitions ([components/spi_flash/partition.c] and
      [components/bootloader_support/src/flash_partitions.c])

    The list of partitions an application sees, loaded once from the partition
    table in flash, the iterators over it, and the read, write, erase and map
    calls that stay inside a partition.  A pointer to a partition is its address
    with the structure found there; the structures do not change once they are
    in the list. *)
From S2P Require Import Prelude Mem EspFlash.

(** ** Layout of the table in flash *)
Definition ESP_PARTITION_MAGIC := 0x50AA.
Definition ESP_PARTITION_MAGIC_MD5 := 0xEBEB.
Definition PART_TYPE_APP := 0x00.
Definition PART_SUBTYPE_FACTORY := 0x00.
Definition PART_SUBTYPE_OTA_FLAG := 0x10.
Definition PART_SUBTYPE_OTA_MASK := 0x0f.
Definition PART_SUBTYPE_TEST := 0x20.
Definition PART_TYPE_DATA := 0x01.
Definition PART_SUBTYPE_DATA_OTA := 0x00.
Definition PART_SUBTYPE_DATA_NVS_KEYS := 0x04.
Definition PART_TYPE_END := 0xff.
Definition PART_SUBTYPE_END := 0xff.
Definition PART_FLAG_ENCRYPTED := 1.
Definition ESP_PARTITION_MD5_OFFSET := 16.
Definition ESP_PARTITION_TABLE_MAX_LEN := 0xC00.
Definition SPI_FLASH_SEC_SIZE := 4096.
Definition ESP_PARTITION_SUBTYPE_ANY := 0xff.

Record esp_partition_pos_t := mkPos { offset : Z; pos_size : Z }.

Record esp_partition_info_t := mkInfo {
  magic : Z;
  pi_type : Z;
  pi_subtype : Z;
  pos : esp_partition_pos_t;
  pi_label : list Z;
  flags : Z
}.
Definition sizeof_partition_info := 32.
Definition ESP_PARTITION_TABLE_MAX_ENTRIES := ESP_PARTITION_TABLE_MAX_LEN / sizeof_partition_info.

Definition load16 (m : mem) (a : Z) : Z := load8 m a + 2 ^ 8 * load8 m (a + 1).

(** The table entry at address [a]. *)
Definition partition_info_at (m : mem) (a : Z) : esp_partition_info_t :=
  {| magic := load16 m a; pi_type := load8 m (a + 2); pi_subtype := load8 m (a + 3);
     pos := mkPos (load32 m (a + 4)) (load32 m (a + 8));
     pi_label := read_bytes m (a + 12) 16; flags := load32 m (a + 28) |}.

(** A C string kept in an array: the bytes before the first NUL. *)
Fixpoint c_string (l : list Z) : list Z :=
  match l with
  | [] => []
  | v :: l => if v =? 0 then [] else v :: c_string l
  end.

(** ** External code *)
Class PartitionEnv := {
  ESP_PARTITION_TABLE_OFFSET : Z;
  CONFIG_PARTITION_TABLE_MD5 : bool;
  CONFIG_SPI_FLASH_ENABLE_ENCRYPTED_READ_WRITE : bool;
  MD5 : list Z -> list Z;                                  (* ROM code *)
  esp_flash_encryption_enabled : bool;                     (* eFuse *)
  esp_flash_default_chip : Z;
  (* hardware decryption of the cached view, and encrypted writing *)
  cache_view : mem -> mem;
  spi_flash_write_encrypted : Z -> list Z -> esp_flash_t -> outcome (Z * esp_flash_t);
  (* MMU: the error a mapping request meets *)
  spi_flash_mmap_err : Z -> Z -> Z
}.

(** ** Table verification *)
Section verify.
Context {env : PartitionEnv}.

(** The loop of [esp_partition_table_verify] from entry [num_parts] on, with
    [n_left] entries left to look at. *)
Fixpoint table_verify_loop (n_left : nat) (m : mem) (table chip_size num_parts : Z) (md5_found : bool) : Z * Z :=
  match n_left with
  | O => (ESP_ERR_INVALID_STATE, 0)
  | S n_left =>
      let a := table + num_parts * sizeof_partition_info in
      let part := partition_info_at m a in
      if magic part =? ESP_PARTITION_MAGIC then
        if (chip_size <? offset (pos part)) || (chip_size <? u32 (offset (pos part) + pos_size (pos part)))
        then (ESP_ERR_INVALID_SIZE, 0)
        else table_verify_loop n_left m table chip_size (num_parts + 1) md5_found
      else if magic part =? ESP_PARTITION_MAGIC_MD5 then
        if md5_found then (ESP_ERR_INVALID_STATE, 0)
        else
          let digest := MD5 (read_bytes m table (Z.to_nat (num_parts * sizeof_partition_info))) in
          if bool_decide (read_bytes m (a + ESP_PARTITION_MD5_OFFSET) 16 = digest)
          then table_verify_loop n_left m table chip_size (num_parts + 1) true
          else (ESP_ERR_INVALID_STATE, 0)
      else if (magic part =? 0xFFFF) && (pi_type part =? PART_TYPE_END) && (pi_subtype part =? PART_SUBTYPE_END)
      then (ESP_OK, num_parts - (if md5_found then 1 else 0))
      else (ESP_ERR_INVALID_STATE, 0)
  end.

(** The error and the number of partitions. *)
Definition esp_partition_table_verify (m : mem) (table chip_size : Z) : Z * Z :=
  table_verify_loop (Z.to_nat ESP_PARTITION_TABLE_MAX_ENTRIES) m table chip_size 0 false.
End verify.

(** ** Partitions of the application *)
Record esp_partition_t := mkPartition {
  flash_chip : Z;
  type : Z;
  subtype : Z;
  address : Z;
  size : Z;
  label : list Z;
  encrypted : bool
}.
#[export] Instance esp_partition_eq_dec : EqDecision esp_partition_t.
Proof. solve_decision. Defined.

Record partition_list_item_t := mkItem {
  item_addr : Z;
  info : esp_partition_t;
  user_registered : bool
}.

(** [const esp_partition_t *]. *)
Definition partition_ptr : Type := Z * esp_partition_t.
Definition info_ptr (i : partition_list_item_t) : partition_ptr := (item_addr i, info i).

(** The static state of the module, the flash chips by address, and the addresses
    the coming calls of [calloc] return (0, or an empty list: out of memory). *)
Record part_state := mkPart {
  s_partition_list : list partition_list_item_t;
  chips : gmap Z esp_flash_t;
  callocs : list Z
}.
#[export] Instance rebuild_part : Rebuild part_state := fun r =>
  mkPart (s_partition_list r) (chips r) (callocs r).

Definition pop_calloc (cs : list Z) : Z * list Z :=
  match cs with [] => (0, []) | a :: cs => (a, cs) end.

Section partition.
Context {cfg : FlashConfig} {env : PartitionEnv}.

Definition default_chip (st : part_state) : outcome esp_flash_t :=
  match chips st !! esp_flash_default_chip with Some c => Ok c | None => Fault end.

(** What a read through the cache sees. *)
Definition mapped (c : esp_flash_t) : mem :=
  if esp_flash_encryption_enabled then cache_view (fl_mem c) else fl_mem c.

(** ** Loading *)

Definition load_item (a : Z) (entry : esp_partition_info_t) : partition_list_item_t :=
  {| item_addr := a;
     info :=
       {| flash_chip := esp_flash_default_chip; type := pi_type entry; subtype := pi_subtype entry;
          address := offset (pos entry); size := pos_size (pos entry);
          label := c_string (pi_label entry);
          encrypted :=
            if negb esp_flash_encryption_enabled then false
            else if (pi_type entry =? PART_TYPE_APP)
                 || ((pi_type entry =? PART_TYPE_DATA) && (pi_subtype entry =? PART_SUBTYPE_DATA_OTA))
                 || ((pi_type entry =? PART_TYPE_DATA) && (pi_subtype entry =? PART_SUBTYPE_DATA_NVS_KEYS))
            then true
            else flag (flags entry) PART_FLAG_ENCRYPTED |};
     user_registered := false |}.

(** The loop of [load_partitions] over the entries from [p_entry] on: the error,
    the items appended, the address of the MD5 entry if one was met, and the
    entry bytes given to the MD5 computation. *)
Fixpoint load_loop (n_left : nat) (m : mem) (p_entry : Z) (cs : list Z)
    : Z * list partition_list_item_t * option Z * list Z * list Z :=
  match n_left with
  | O => (ESP_OK, [], None, [], cs)
  | S n_left =>
      let entry := partition_info_at m p_entry in
      if CONFIG_PARTITION_TABLE_MD5 && (magic entry =? ESP_PARTITION_MAGIC_MD5)
      then (ESP_OK, [], Some p_entry, [], cs)
      else if negb (magic entry =? ESP_PARTITION_MAGIC) then (ESP_OK, [], None, [], cs)
      else
        let bytes := read_bytes m p_entry (Z.to_nat sizeof_partition_info) in
        let '(item, cs) := pop_calloc cs in
        if item =? 0 then (ESP_ERR_NO_MEM, [], None, bytes, cs)
        else
          let '(err, items, md5_part, hashed, cs) := load_loop n_left m (p_entry + sizeof_partition_info) cs in
          (err, load_item item entry :: items, md5_part, bytes ++ hashed, cs)
  end.

Definition load_partitions (st : part_state) : outcome (Z * part_state) :=
  let err := spi_flash_mmap_err (Z.land ESP_PARTITION_TABLE_OFFSET 0xffff0000) SPI_FLASH_SEC_SIZE in
  if negb (err =? ESP_OK) then Ok (err, st)
  else
    c ← default_chip st;
    let m := mapped c in
    let '(err, items, md5_part, hashed, cs) :=
      load_loop (Z.to_nat (SPI_FLASH_SEC_SIZE / sizeof_partition_info)) m ESP_PARTITION_TABLE_OFFSET (callocs st) in
    let err :=
      if CONFIG_PARTITION_TABLE_MD5 then
        match md5_part with
        | None => ESP_ERR_NOT_FOUND
        | Some a =>
            if bool_decide (MD5 hashed = read_bytes m (a + ESP_PARTITION_MD5_OFFSET) 16) then err
            else ESP_ERR_INVALID_STATE
        end
      else err in
    let st := st <| callocs := cs |> in
    Ok (err, if err =? ESP_OK then st <| s_partition_list := items |> else st).

Definition ensure_partitions_loaded (st : part_state) : outcome (Z * part_state) :=
  match s_partition_list st with
  | [] => load_partitions st
  | _ => Ok (ESP_OK, st)
  end.

(** ** Iterators *)
Record esp_partition_iterator := mkIterator {
  it_type : Z;
  it_subtype : Z;
  it_label : option (list Z);
  next_item : option Z;
  it_info : option partition_ptr
}.
#[local] Instance rebuild_iterator : Rebuild esp_partition_iterator := fun r =>
  mkIterator (it_type r) (it_subtype r) (it_label r) (next_item r) (it_info r).

(** [SLIST_FIRST] of the list or of a tail of it. *)
Definition slist_first (l : list partition_list_item_t) : option Z := item_addr <$> head l.

(** The constraints of an iterator. *)
Definition it_matches (it : esp_partition_iterator) (p : esp_partition_t) : bool :=
  if negb (it_type it =? type p) then false
  else if negb (it_subtype it =? 0xff) && negb (it_subtype it =? subtype p) then false
  else match it_label it with Some l => bool_decide (l = label p) | None => true end.

(** The list from the item at address [a] on. *)
Fixpoint list_from (l : list partition_list_item_t) (a : Z) : option (list partition_list_item_t) :=
  match l with
  | [] => None
  | i :: l' => if item_addr i =? a then Some l else list_from l' a
  end.

(** The loop of [esp_partition_next]: the first item that matches and the list
    after it. *)
Fixpoint skip_to_match (it : esp_partition_iterator) (l : list partition_list_item_t)
    : option (partition_list_item_t * list partition_list_item_t) :=
  match l with
  | [] => None
  | i :: l => if it_matches it (info i) then Some (i, l) else skip_to_match it l
  end.

(** [None]: the iterator is released and [NULL] returned.  An iterator that
    points to an item removed from the list is a fault. *)
Definition esp_partition_next (it : esp_partition_iterator) (st : part_state)
    : outcome (option esp_partition_iterator) :=
  match next_item it with
  | None => Ok None
  | Some a =>
      match list_from (s_partition_list st) a with
      | None => Fault
      | Some l =>
          match skip_to_match it l with
          | None => Ok None
          | Some (i, rest) => Ok (Some (it <| it_info := Some (info_ptr i) |> <| next_item := slist_first rest |>))
          end
      end
  end.

Definition iterator_create (ty sub : Z) (lbl : option (list Z)) (st : part_state) : esp_partition_iterator :=
  {| it_type := ty; it_subtype := sub; it_label := lbl;
     next_item := slist_first (s_partition_list st); it_info := None |}.

Definition esp_partition_find (ty sub : Z) (lbl : option (list Z)) (st : part_state)
    : outcome (option esp_partition_iterator * part_state) :=
  '(err, st) ← ensure_partitions_loaded st;
  if negb (err =? ESP_OK) then Ok (None, st)
  else
    it ← esp_partition_next (iterator_create ty sub lbl st) st;
    Ok (it, st).

Definition esp_partition_get (it : esp_partition_iterator) : option partition_ptr := it_info it.

Definition esp_partition_find_first (ty sub : Z) (lbl : option (list Z)) (st : part_state)
    : outcome (option partition_ptr * part_state) :=
  '(it, st) ← esp_partition_find ty sub lbl st;
  Ok (match it with Some it => esp_partition_get it | None => None end, st).

(** The loop of [esp_partition_verify]. *)
Fixpoint verify_loop (fuel : nat) (p : esp_partition_t) (it : option esp_partition_iterator) (st : part_state)
    : outcome (option partition_ptr) :=
  match it with
  | None => Ok None
  | Some it =>
      match fuel with
      | O => OutOfFuel
      | S fuel =>
          match esp_partition_get it with
          | None => Fault
          | Some q =>
              if (flash_chip q.2 =? flash_chip p) && (address q.2 =? address p)
                 && (size q.2 =? size p) && eqb (encrypted q.2) (encrypted p)
              then Ok (Some q)
              else it ← esp_partition_next it st; verify_loop fuel p it st
          end
      end
  end.

Definition esp_partition_verify (p : esp_partition_t) (st : part_state)
    : outcome (option partition_ptr * part_state) :=
  let lbl := match label p with [] => None | l => Some l end in
  '(it, st) ← esp_partition_find (type p) (subtype p) lbl st;
  r ← verify_loop (S (length (s_partition_list st))) p it st;
  Ok (r, st).

(** ** Registration of partitions on external chips *)

Definition bootloader_util_regions_overlap (start1 end1 start2 end2 : Z) : outcome bool :=
  cassert (s32 start1 <? s32 end1);;
  cassert (s32 start2 <? s32 end2);;
  Ok ((s32 start2 <? s32 end1) && (s32 start1 <? s32 end2)).

(** [true] when the new partition overlaps none of the list. *)
Fixpoint overlap_loop (chip off sz : Z) (l : list partition_list_item_t) : outcome bool :=
  match l with
  | [] => Ok true
  | it :: l =>
      if flash_chip (info it) =? chip then
        ov ← bootloader_util_regions_overlap off (u32 (off + sz)) (address (info it))
               (u32 (address (info it) + size (info it)));
        if ov : bool then Ok false else overlap_loop chip off sz l
      else overlap_loop chip off sz l
  end.

(** The new pointer is [*out_partition]. *)
Definition esp_partition_register_external (chip off sz : Z) (lbl : list Z) (ty sub : Z) (st : part_state)
    : outcome (Z * option partition_ptr * part_state) :=
  match chips st !! chip with
  | None => Fault
  | Some c =>
      if chip_size c <? u32 (off + sz) then Ok (ESP_ERR_INVALID_SIZE, None, st)
      else
        '(err, st) ← ensure_partitions_loaded st;
        if negb (err =? ESP_OK) then Ok (err, None, st)
        else
          let '(a, cs) := pop_calloc (callocs st) in
          let st := st <| callocs := cs |> in
          if a =? 0 then Ok (ESP_ERR_NO_MEM, None, st)
          else
            let item :=
              {| item_addr := a;
                 info := {| flash_chip := chip; type := ty; subtype := sub; address := off; size := sz;
                            label := take 16 (c_string lbl); encrypted := false |};
                 user_registered := true |} in
            free ← overlap_loop chip off sz (s_partition_list st);
            if free : bool
            then Ok (ESP_OK, Some (info_ptr item), st <| s_partition_list := s_partition_list st ++ [item] |>)
            else Ok (ESP_ERR_INVALID_ARG, None, st)
  end.

(** [SLIST_REMOVE] of the item at address [a]. *)
Fixpoint deregister (a : Z) (l : list partition_list_item_t) : Z * list partition_list_item_t :=
  match l with
  | [] => (ESP_ERR_NOT_FOUND, [])
  | i :: l' =>
      if item_addr i =? a then
        if negb (user_registered i) then (ESP_ERR_INVALID_ARG, l) else (ESP_OK, l')
      else let '(err, r) := deregister a l' in (err, i :: r)
  end.

Definition esp_partition_deregister_external (partition : Z) (st : part_state) : Z * part_state :=
  let '(err, l) := deregister partition (s_partition_list st) in
  (err, st <| s_partition_list := l |>).

(** ** Access *)

(** Run an operation of the flash API on the chip a partition is on. *)
Definition on_chip {A} (chip : Z) (op : esp_flash_t -> outcome (A * esp_flash_t)) (st : part_state)
    : outcome (A * part_state) :=
  match chips st !! chip with
  | None => Fault
  | Some c => '(r, c) ← op c; Ok (r, st <| chips := <[chip := c]> (chips st) |>)
  end.

Definition check_range (p : esp_partition_t) (off n : Z) : option Z :=
  if size p <? off then Some ESP_ERR_INVALID_ARG
  else if size p <? u32 (off + n) then Some ESP_ERR_INVALID_SIZE
  else None.

(** The error and the bytes seen through the mapping. *)
Definition esp_partition_mmap (p : esp_partition_t) (off n : Z) (st : part_state) : outcome (Z * list Z) :=
  match check_range p off n with
  | Some err => Ok (err, [])
  | None =>
      if negb (flash_chip p =? esp_flash_default_chip) then Ok (ESP_ERR_NOT_SUPPORTED, [])
      else
        let phys_addr := u32 (address p + off) in
        let region_offset := Z.land phys_addr 0xffff in
        let mmap_addr := Z.land phys_addr 0xffff0000 in
        let rc := spi_flash_mmap_err mmap_addr (u32 (n + region_offset)) in
        if rc =? ESP_OK then
          c ← default_chip st;
          Ok (ESP_OK, read_bytes (mapped c) (mmap_addr + region_offset) (Z.to_nat n))
        else Ok (rc, [])
  end.

Definition esp_partition_read (tries : list (Z * bool)) (p : esp_partition_t) (src_offset n : Z) (st : part_state)
    : outcome (Z * list Z * part_state) :=
  match check_range p src_offset n with
  | Some err => Ok (err, [], st)
  | None =>
      if negb (encrypted p) then
        on_chip (flash_chip p) (esp_flash_read tries (u32 (address p + src_offset)) n) st
      else if CONFIG_SPI_FLASH_ENABLE_ENCRYPTED_READ_WRITE then
        if negb (flash_chip p =? esp_flash_default_chip) then Ok (ESP_ERR_NOT_SUPPORTED, [], st)
        else '(err, buf) ← esp_partition_mmap p src_offset n st; Ok (err, buf, st)
      else Ok (ESP_ERR_NOT_SUPPORTED, [], st)
  end.

Definition esp_partition_write (p : esp_partition_t) (dst_offset : Z) (src : list Z) (st : part_state)
    : outcome (Z * part_state) :=
  match check_range p dst_offset (lenZ src) with
  | Some err => Ok (err, st)
  | None =>
      let dst_offset := u32 (address p + dst_offset) in
      if negb (encrypted p) then on_chip (flash_chip p) (esp_flash_write src dst_offset) st
      else if CONFIG_SPI_FLASH_ENABLE_ENCRYPTED_READ_WRITE then
        if negb (flash_chip p =? esp_flash_default_chip) then Ok (ESP_ERR_NOT_SUPPORTED, st)
        else on_chip esp_flash_default_chip (spi_flash_write_encrypted dst_offset src) st
      else Ok (ESP_ERR_NOT_SUPPORTED, st)
  end.

Definition esp_partition_erase_range (p : esp_partition_t) (off n : Z) (st : part_state)
    : outcome (Z * part_state) :=
  match check_range p off n with
  | Some err => Ok (err, st)
  | None =>
      if negb (n mod SPI_FLASH_SEC_SIZE =? 0) then Ok (ESP_ERR_INVALID_SIZE, st)
      else if negb (off mod SPI_FLASH_SEC_SIZE =? 0) then Ok (ESP_ERR_INVALID_ARG, st)
      else on_chip (flash_chip p) (esp_flash_erase_region (u32 (address p + off)) n) st
  end.

(** [p] is the running partition. *)
Definition esp_partition_main_flash_region_safe (p : esp_partition_t) (addr n : Z) : bool :=
  if addr <=? ESP_PARTITION_TABLE_OFFSET + ESP_PARTITION_TABLE_MAX_LEN then false
  else if (address p <=? addr) && (addr <? u32 (address p + size p)) then false
  else if (addr <? address p) && (address p <? u32 (addr + n)) then false
  else true.
End partition.

(** ** Iteration *)
Section iteration.
Context {cfg : FlashConfig} {env : PartitionEnv}.

(** The loop of a client: every partition the iterator gives. *)
Fixpoint collect (fuel : nat) (it : option esp_partition_iterator) (st : part_state)
    : outcome (list partition_ptr) :=
  match it, fuel with
  | None, _ => Ok []
  | Some _, O => OutOfFuel
  | Some it, S fuel =>
      next ← esp_partition_next it st;
      rest ← collect fuel next st;
      Ok (match esp_partition_get it with Some p => p :: rest | None => rest end)
  end.

Definition partition_enumerate (ty sub : Z) (lbl : option (list Z)) (st : part_state) : outcome (list partition_ptr) :=
  '(it, st) ← esp_partition_find ty sub lbl st;
  collect (length (s_partition_list st)) it st.

(** What a client asks for. *)
Definition wanted (ty sub : Z) (lbl : option (list Z)) (p : esp_partition_t) : Prop :=
  type p = ty /\ (sub = ESP_PARTITION_SUBTYPE_ANY \/ subtype p = sub) /\
  (forall l, lbl = Some l -> label p = l).
#[export] Instance wanted_dec ty sub lbl p : Decision (wanted ty sub lbl p).
Proof.
  unfold wanted. apply and_dec; [apply _|]. apply and_dec; [apply _|].
  destruct lbl as [l|]; [|left; done].
  destruct (decide (label p = l)) as [E|E]; [left; by intros ? [= <-]|right; intros H; by apply E, H].
Defined.

Lemma it_matches_wanted it p :
  it_matches it p = bool_decide (wanted (it_type it) (it_subtype it) (it_label it) p).
Proof.
  unfold it_matches, wanted, ESP_PARTITION_SUBTYPE_ANY. symmetry.
  destruct (Z.eqb_spec (it_type it) (type p)) as [E|E]; cbn [negb];
    [|apply bool_decide_eq_false; intros [H _]; congruence].
  destruct (Z.eqb_spec (it_subtype it) 255) as [E1|E1], (Z.eqb_spec (it_subtype it) (subtype p)) as [E2|E2];
    cbn [negb andb].
  4: apply bool_decide_eq_false; intros (_ & [?|?] & _); congruence.
  all: destruct (it_label it) as [l|];
    [|apply bool_decide_eq_true; split_and!; [done|first [by left|by right]|done]].
  all: apply bool_decide_ext; split; [intros (_ & _ & H); symmetry; by apply H|].
  all: intros ->; split_and!; [done|first [by left|by right]|by intros ? [= <-]].
Qed.

Lemma list_from_suffix l k i r :
  NoDup (item_addr <$> l) -> l = k ++ i :: r -> list_from l (item_addr i) = Some (i :: r).
Proof.
  intros Hd ->. induction k as [|j k IH]; simpl in *.
  - by rewrite Z.eqb_refl.
  - apply NoDup_cons in Hd as [Hn Hd]. destruct (Z.eqb_spec (item_addr j) (item_addr i)) as [E|]; [|auto].
    exfalso. apply Hn. rewrite E, fmap_app. apply elem_of_app. right. left.
Qed.

Lemma skip_to_match_spec it l :
  match skip_to_match it l with
  | None => filter (fun i => wanted (it_type it) (it_subtype it) (it_label it) (info i)) l = []
  | Some (i, r) => exists k, l = k ++ i :: r /\
      filter (fun i => wanted (it_type it) (it_subtype it) (it_label it) (info i)) l =
      i :: filter (fun i => wanted (it_type it) (it_subtype it) (it_label it) (info i)) r
  end.
Proof.
  induction l as [|i l IH]; cbn [skip_to_match]; [done|].
  rewrite it_matches_wanted, filter_cons. case_bool_decide as E.
  - exists []. split; [done|]. by rewrite decide_True.
  - destruct (skip_to_match it l) as [[j r]|].
    + destruct IH as (k & -> & IH). exists (i :: k). split; [done|]. by rewrite decide_False.
    + by rewrite decide_False.
Qed.

(** [esp_partition_next] from an iterator that has the list [r] still to visit. *)
Lemma next_spec it st k r :
  NoDup (item_addr <$> s_partition_list st) -> s_partition_list st = k ++ r -> next_item it = slist_first r ->
  match filter (fun i => wanted (it_type it) (it_subtype it) (it_label it) (info i)) r with
  | [] => esp_partition_next it st = Ok None
  | i :: fr => exists it' k' r', esp_partition_next it st = Ok (Some it') /\ it_info it' = Some (info_ptr i) /\
      it_type it' = it_type it /\ it_subtype it' = it_subtype it /\ it_label it' = it_label it /\
      s_partition_list st = k' ++ r' /\ next_item it' = slist_first r' /\
      filter (fun i => wanted (it_type it) (it_subtype it) (it_label it) (info i)) r' = fr
  end.
Proof.
  intros Hd El En. unfold esp_partition_next. rewrite En. destruct r as [|i r]; [done|]. simpl.
  rewrite (list_from_suffix _ k i r Hd El).
  pose proof (skip_to_match_spec it (i :: r)) as H. destruct (skip_to_match it (i :: r)) as [[j s]|].
  - destruct H as (k' & E & ->). eexists _, (k ++ k' ++ [j]), s. split; [done|].
    repeat (split; [done|]). rewrite El, E. by rewrite <- !app_assoc.
  - by rewrite H.
Qed.

Lemma collect_spec fuel : forall it st k r,
  NoDup (item_addr <$> s_partition_list st) -> s_partition_list st = k ++ r -> next_item it = slist_first r ->
  (length (filter (fun i => wanted (it_type it) (it_subtype it) (it_label it) (info i)) r) <= fuel)%nat ->
  (next ← esp_partition_next it st; collect fuel next st) =
    Ok (info_ptr <$> filter (fun i => wanted (it_type it) (it_subtype it) (it_label it) (info i)) r).
Proof.
  induction fuel as [|fuel IH]; intros it st k r Hd El En Hf; pose proof (next_spec it st k r Hd El En) as H;
    destruct (filter _ r) as [|i fr]; try (by rewrite H); simpl in Hf; try lia.
  destruct H as (it' & k' & r' & -> & Hi & E1 & E2 & E3 & El' & En' & Efr). ostep. cbn [collect].
  specialize (IH it' st k' r' Hd El' En'). rewrite E1, E2, E3, Efr in IH. specialize (IH ltac:(lia)).
  destruct (esp_partition_next it' st) as [nx| | |]; cbn in IH |- *; [rewrite IH; cbn|discriminate..].
  by unfold esp_partition_get; rewrite Hi.
Qed.

Lemma find_first_run (ty sub : Z) (lbl : option (list Z)) (st : part_state) :
  s_partition_list st <> [] -> NoDup (item_addr <$> s_partition_list st) ->
  esp_partition_find_first ty sub lbl st =
    Ok (info_ptr <$> head (filter (fun i => wanted ty sub lbl (info i)) (s_partition_list st)), st).
Proof.
  intros Hl Hd. unfold esp_partition_find_first, esp_partition_find, ensure_partitions_loaded.
  destruct (s_partition_list st) as [|i0 l0] eqn:El; [done|]. ostep. cbn [negb Z.eqb ESP_OK]. rewrite <- El in *.
  pose proof (next_spec (iterator_create ty sub lbl st) st [] (s_partition_list st) Hd eq_refl eq_refl) as H.
  cbn [iterator_create it_type it_subtype it_label] in H.
  destruct (filter _ (s_partition_list st)) as [|i fr]; [by rewrite H|].
  destruct H as (it' & _ & _ & E & Hi & _). rewrite E. cbn. unfold esp_partition_get. by rewrite Hi.
Qed.

(** Iterating over the partitions.  On a loaded list, [esp_partition_find]
    followed by [esp_partition_next] until it gives [NULL] visits exactly the
    partitions of the wanted type, subtype (or any) and label (or any), each
    once, in table order, and never follows a stale pointer. *)
Theorem partition_find_enumerates (ty sub : Z) (lbl : option (list Z)) (st : part_state)
    (Hl : s_partition_list st <> []) (Hd : NoDup (item_addr <$> s_partition_list st)) :
  partition_enumerate ty sub lbl st =
    Ok (info_ptr <$> filter (fun i => wanted ty sub lbl (info i)) (s_partition_list st)).
Proof.
  unfold partition_enumerate, esp_partition_find, ensure_partitions_loaded.
  destruct (s_partition_list st) as [|i0 l0] eqn:El; [done|]. ostep. cbn [negb Z.eqb ESP_OK]. rewrite <- El in *.
  pose proof (collect_spec (length (s_partition_list st)) (iterator_create ty sub lbl st) st [] (s_partition_list st)
    Hd eq_refl eq_refl) as H. cbn [iterator_create it_type it_subtype it_label] in H.
  specialize (H (length_filter _ _)).
  destruct (esp_partition_next _ st); cbn in H |- *; [by rewrite H|discriminate..].
Qed.
End iteration.

(** ** Access stays inside the partition *)
Section access.
Context {cfg : FlashConfig} {env : PartitionEnv}.

(** Only the bytes [a .. a + n) of the chip at [chip] may differ. *)
Definition only_changes (chip a n : Z) (st st' : part_state) : Prop :=
  s_partition_list st' = s_partition_list st /\ callocs st' = callocs st /\
  (forall k, k <> chip -> chips st' !! k = chips st !! k) /\
  (forall c, chips st !! chip = Some c -> exists c', chips st' !! chip = Some c' /\ same_chip c c' /\ outside_same a n c c').

Lemma only_changes_refl chip a n st : only_changes chip a n st st.
Proof. repeat (split; [done|]). intros c Hc. exists c. split; [done|]. split; reflexivity. Qed.

Lemma only_changes_insert chip a n st c c' :
  chips st !! chip = Some c -> same_chip c c' -> outside_same a n c c' ->
  only_changes chip a n st (st <| chips := <[chip := c']> (chips st) |>).
Proof.
  intros Hc S O. split; [done|]. split; [done|]. cbn. split; [intros k Hk; by rewrite lookup_insert_ne|].
  intros c0 E. assert (c0 = c) as -> by congruence. exists c'. by rewrite lookup_insert_eq.
Qed.

(** A partition that lies in its chip, and whose chip is initialised. *)
Record partition_ok (p : esp_partition_t) (c : esp_flash_t) (st : part_state) : Prop := {
  po_chip : chips st !! flash_chip p = Some c;
  po_geom : chip_ok c;
  po_addr : 0 <= address p;
  po_size : 0 <= size p;
  po_end : address p + size p <= chip_size c
}.

Lemma check_range_inside p off n : 0 <= off -> 0 <= n -> off + n < 2 ^ 32 ->
  check_range p off n = None <-> off + n <= size p.
Proof.
  intros. unfold check_range. rewrite u32_small by (unfold is_u32; lia).
  destruct (Z.ltb_spec (size p) off), (Z.ltb_spec (size p) (off + n)); split; intros; try done; lia.
Qed.

Lemma write_in_range p c st off src :
  partition_ok p c st -> encrypted p = false -> Forall is_byte src -> 0 <= off -> off + lenZ src <= size p ->
  region_protected c (address p + off) (lenZ src) = false ->
  exists err st' c', esp_partition_write p off src st = Ok (err, st') /\ chips st' !! flash_chip p = Some c' /\
    only_changes (flash_chip p) (address p + off) (lenZ src) st st' /\
    (err = ESP_OK -> fl_mem c' = program (fl_mem c) (address p + off) src) /\
    (fl_faults c = [] -> err = ESP_OK /\ fl_faults c' = []).
Proof.
  intros [] He Hs Ho Hb Hp. pose proof (lenZ_nonneg src). pose proof (co_size _ po_geom0).
  unfold esp_partition_write. rewrite (proj2 (check_range_inside p off (lenZ src) Ho ltac:(done) ltac:(lia)) Hb).
  rewrite He, u32_small by (unfold is_u32; lia). cbn [negb]. unfold on_chip. rewrite po_chip0.
  destruct (flash_write_spec src (address p + off) c po_geom0 Hs) as (err & c' & E & S & O & Em & F); [lia|lia|done|].
  rewrite E. ostep. eexists err, _, c'. split; [done|].
  split; [cbn; by rewrite lookup_insert_eq|]. split; [by eapply only_changes_insert|]. split; [done|].
  intros Hf. apply F; [done|lia].
Qed.

Lemma erase_in_range p c st off n :
  partition_ok p c st -> 0 <= off -> 0 <= n -> off + n <= size p ->
  n mod SPI_FLASH_SEC_SIZE = 0 -> off mod SPI_FLASH_SEC_SIZE = 0 ->
  region_protected c (address p + off) n = false ->
  exists err st' c', esp_partition_erase_range p off n st = Ok (err, st') /\ chips st' !! flash_chip p = Some c' /\
    only_changes (flash_chip p) (address p + off) n st st' /\
    (err = ESP_OK -> erased (address p + off) n c') /\
    (fl_faults c = [] -> sector_size c = SPI_FLASH_SEC_SIZE -> address p mod SPI_FLASH_SEC_SIZE = 0 ->
     protected_regions c = [] -> err = ESP_OK /\ fl_faults c' = []).
Proof.
  intros [] Ho Hn Hb Hnm Hom Hp. pose proof (co_size _ po_geom0).
  unfold esp_partition_erase_range. rewrite (proj2 (check_range_inside p off n Ho Hn ltac:(lia)) Hb).
  rewrite Hnm, Hom. cbn [negb Z.eqb]. rewrite u32_small by (unfold is_u32; lia).
  unfold on_chip. rewrite po_chip0.
  destruct (erase_region_spec (address p + off) n c po_geom0) as (err & c' & E & S & O & Em & F); [lia|lia|lia|done|].
  rewrite E. ostep. eexists err, _, c'. split; [done|].
  split; [cbn; by rewrite lookup_insert_eq|]. split; [by eapply only_changes_insert|]. split; [intros Eo; by apply Em|].
  intros Hf Hse Ha Hpr. rewrite Hse, Hpr in F. apply F; try done; [lia|].
  by apply mod_add_multiple.
Qed.

(** Writes and erases stay inside the partition.  For a partition that lies in
    its chip, and a range whose end does not wrap around 32 bits, neither call
    ever changes a byte outside the partition, on its chip or on another,
    whatever the driver failures and whatever the offset and length; a range
    that leaves the partition is refused and changes nothing. *)
Theorem partition_isolation (p : esp_partition_t) (c : esp_flash_t) (st : part_state) (off n : Z) (src : list Z)
    (P : partition_ok p c st) (He : encrypted p = false) (Hsrc : Forall is_byte src)
    (Hprot : forall a k, address p <= a -> a + k <= address p + size p -> region_protected c a k = false)
    (Ho : 0 <= off) (Hn : 0 <= n) (Hnw : off + n < 2 ^ 32) (Hsw : off + lenZ src < 2 ^ 32) :
  (exists err st', esp_partition_write p off src st = Ok (err, st') /\
     only_changes (flash_chip p) (address p) (size p) st st' /\ (size p < off + lenZ src -> err <> ESP_OK /\ st' = st)) /\
  (exists err st', esp_partition_erase_range p off n st = Ok (err, st') /\
     only_changes (flash_chip p) (address p) (size p) st st' /\ (size p < off + n -> err <> ESP_OK /\ st' = st)).
Proof.
  assert (W : forall a k s s', address p <= a -> a + k <= address p + size p ->
    only_changes (flash_chip p) a k s s' -> only_changes (flash_chip p) (address p) (size p) s s').
  { intros a k s s' H1 H2 (O1 & O2 & O3 & O4). repeat (split; [done|]). intros c0 Hc0.
    destruct (O4 c0 Hc0) as (c' & ? & ? & ?). exists c'. repeat (split; [done|]). by eapply outside_same_sub. }
  assert (R : forall k, 0 <= k -> off + k < 2 ^ 32 -> size p < off + k ->
    exists e, check_range p off k = Some e /\ e <> ESP_OK).
  { intros k Hk Hw Hlt. unfold check_range. rewrite u32_small by (unfold is_u32; lia).
    destruct (Z.ltb_spec (size p) off); [by eexists|]. destruct (Z.ltb_spec (size p) (off + k)); [by eexists|lia]. }
  pose proof (lenZ_nonneg src). split.
  - destruct (Z.le_gt_cases (off + lenZ src) (size p)).
    + destruct (write_in_range p c st off src P He Hsrc Ho) as (err & st' & c' & E & _ & O & _); [done|apply Hprot; lia|].
      exists err, st'. split; [done|]. split; [eapply W; [| |done]; lia|lia].
    + destruct (R (lenZ src)) as (e & Ec & Hne); [lia..|]. exists e, st. unfold esp_partition_write. rewrite Ec.
      split; [done|]. by split; [apply only_changes_refl|].
  - destruct (Z.le_gt_cases (off + n) (size p)).
    + destruct (decide (n mod SPI_FLASH_SEC_SIZE = 0 /\ off mod SPI_FLASH_SEC_SIZE = 0)) as [[Hm1 Hm2]|Hm].
      * destruct (erase_in_range p c st off n P Ho Hn) as (err & st' & c' & E & _ & O & _); [done..|apply Hprot; lia|].
        exists err, st'. split; [done|]. split; [eapply W; [| |done]; lia|lia].
      * unfold esp_partition_erase_range. rewrite (proj2 (check_range_inside p off n Ho Hn ltac:(lia)) ltac:(done)).
        destruct (Z.eqb_spec (n mod SPI_FLASH_SEC_SIZE) 0), (Z.eqb_spec (off mod SPI_FLASH_SEC_SIZE) 0);
          cbn [negb]; try tauto; (eexists _, st; split; [done|]; split; [apply only_changes_refl|lia]).
    + destruct (R n) as (e & Ec & Hne); [lia..|]. exists e, st. unfold esp_partition_erase_range. rewrite Ec.
      split; [done|]. by split; [apply only_changes_refl|].
Qed.

(** What is written is read back.  On a chip that does not fail, data written
    over an erased range of an unencrypted partition is what a read of the range
    returns, at any offset and length inside the partition. *)
Theorem partition_write_read (p : esp_partition_t) (c : esp_flash_t) (st : part_state) (off : Z) (src : list Z)
    (tries : list (Z * bool)) (P : partition_ok p c st) (He : encrypted p = false) (Hsrc : Forall is_byte src)
    (Ho : 0 <= off) (Hb : off + lenZ src <= size p) (Hprot : region_protected c (address p + off) (lenZ src) = false)
    (Hers : erased (address p + off) (lenZ src) c) (Hf : fl_faults c = []) (Hd : supports_direct_read c = true) :
  exists st' st'', esp_partition_write p off src st = Ok (ESP_OK, st') /\
    esp_partition_read tries p off (lenZ src) st' = Ok (ESP_OK, src, st'').
Proof.
  pose proof (co_size _ (po_geom _ _ _ P)). pose proof (lenZ_nonneg src). destruct P as [Pc Pg Pa Psz Pe].
  destruct (write_in_range p c st off src (Build_partition_ok p c st Pc Pg Pa Psz Pe) He Hsrc Ho Hb Hprot)
    as (err & st' & c' & E & Hc' & (_ & _ & _ & S) & Em & F).
  destruct (F Hf) as [-> Hf']. destruct (S c Pc) as (c2 & Ec2 & Sc & _).
  assert (c2 = c') as -> by congruence. pose proof Sc as (Hz & _ & _ & _ & _ & Hdr & _).
  destruct (flash_read_spec tries (address p + off) (lenZ src) c') as (err & data & c3 & Er & _ & _ & Ed & Fr);
    [by eapply chip_ok_same|lia..|].
  destruct Fr as [-> _]; [done|congruence|rewrite Hz; lia|].
  exists st', (st' <| chips := <[flash_chip p := c3]> (chips st') |>). split; [done|].
  unfold esp_partition_read. rewrite (proj2 (check_range_inside p off (lenZ src) Ho ltac:(done) ltac:(lia)) Hb).
  rewrite He, u32_small by (unfold is_u32; lia). cbn [negb]. unfold on_chip. rewrite Hc', Er. ostep.
  rewrite Ed, Em by done. unfold lenZ. rewrite Nat2Z.id. by rewrite read_program_erased.
Qed.
End access.

(** ** Registration keeps the partitions disjoint *)
Section registration.
Context {cfg : FlashConfig} {env : PartitionEnv}.

Definition regions_disjoint (p q : esp_partition_t) : Prop :=
  flash_chip p = flash_chip q -> address p + size p <= address q \/ address q + size q <= address p.

(** A non-empty region below 2 GiB. *)
Definition region_small (p : esp_partition_t) : Prop := 0 <= address p /\ 0 < size p /\ address p + size p < 2 ^ 31.

(** The list is loaded, its regions are disjoint, and its addresses and those of
    the blocks [calloc] will give are distinct. *)
Record partitions_inv (st : part_state) : Prop := {
  pi_loaded : s_partition_list st <> [];
  pi_small : Forall (fun i => region_small (info i)) (s_partition_list st);
  pi_disjoint : ForallOrdPairs (fun i j => regions_disjoint (info i) (info j)) (s_partition_list st);
  pi_fresh : NoDup ((item_addr <$> s_partition_list st) ++ filter (fun a => a <> 0) (callocs st))
}.

Lemma overlap_loop_spec chip off sz l :
  0 <= off -> 0 < sz -> off + sz < 2 ^ 31 -> Forall (fun i => region_small (info i)) l ->
  exists b, overlap_loop chip off sz l = Ok b /\
    (b = true -> Forall (fun i => flash_chip (info i) = chip ->
       off + sz <= address (info i) \/ address (info i) + size (info i) <= off) l).
Proof.
  intros Ho Hs Hb. induction 1 as [|i l (Ha & Hz & He) Hl (b & IH & IHb)]; [by exists true|].
  cbn [overlap_loop]. destruct (Z.eqb_spec (flash_chip (info i)) chip) as [Ec|Ec].
  2:{ exists b. split; [done|]. intros Eb. constructor; [done|auto]. }
  unfold bootloader_util_regions_overlap. rewrite !u32_small by (unfold is_u32; lia).
  rewrite !s32_small by lia. do 2 oassert bsolve. ostep.
  destruct (Z.ltb_spec (address (info i)) (off + sz)), (Z.ltb_spec off (address (info i) + size (info i))); cbn [andb];
    try (exists false; done); (exists b; split; [done|]; intros Eb; constructor; [lia|auto]).
Qed.

Lemma ForallOrdPairs_snoc {A} (R : A -> A -> Prop) l x :
  ForallOrdPairs R l -> Forall (fun y => R y x) l -> ForallOrdPairs R (l ++ [x]).
Proof.
  induction 1 as [|y l Hy Hl IH]; intros Hx; simpl; [by repeat constructor|].
  inversion Hx; subst. constructor; [apply Forall_app; by repeat constructor|auto].
Qed.

(** Registration on a chip.  With disjoint partitions loaded, registering a
    non-empty region below 2 GiB returns without a failed assertion and keeps the
    partitions pairwise disjoint and their addresses distinct; it appends the
    partition exactly when it reports success, and then the region lies in its
    chip; otherwise the list is unchanged. *)
Theorem register_keeps_disjoint (chip off sz ty sub : Z) (lbl : list Z) (c : esp_flash_t) (st : part_state)
    (I : partitions_inv st) (Hc : chips st !! chip = Some c) (Ho : 0 <= off) (Hs : 0 < sz) (Hb : off + sz < 2 ^ 31) :
  exists err out st', esp_partition_register_external chip off sz lbl ty sub st = Ok (err, out, st') /\
    partitions_inv st' /\
    (if err =? ESP_OK then
       off + sz <= chip_size c /\ exists i, out = Some (info_ptr i) /\
         s_partition_list st' = s_partition_list st ++ [i] /\ address (info i) = off /\ size (info i) = sz
     else out = None /\ s_partition_list st' = s_partition_list st).
Proof.
  destruct I as [Il Ism Id If]. unfold esp_partition_register_external. rewrite Hc, u32_small by (unfold is_u32; lia).
  destruct (Z.ltb_spec (chip_size c) (off + sz)); [by eexists _, _, st; split|].
  unfold ensure_partitions_loaded. destruct (s_partition_list st) as [|i0 l0] eqn:El; [done|]. rewrite <- El in *. clear El.
  ostep. cbn [negb Z.eqb ESP_OK].
  destruct (pop_calloc (callocs st)) as [a cs] eqn:Ep.
  assert (Hfresh : NoDup ((item_addr <$> s_partition_list st) ++ filter (fun a => a <> 0) cs) /\
    (a <> 0 -> NoDup (((item_addr <$> s_partition_list st) ++ [a]) ++ filter (fun a => a <> 0) cs))).
  { destruct (callocs st) as [|a' cs']; simpl in Ep; injection Ep as <- <-; [done|].
    rewrite filter_cons in If. case_decide as Ha; [|done]. split; [|by rewrite <- app_assoc].
    apply NoDup_app in If as (N1 & N2 & N3). apply NoDup_cons in N3 as [_ N3].
    apply NoDup_app. split; [done|]. split; [|done]. intros x Hx Hx'. apply (N2 x Hx). by right. }
  destruct Hfresh as [Hf0 Hf1]. destruct (Z.eqb_spec a 0) as [Ea|Ea].
  { eexists _, _, _. split; [done|]. by split; [split|]. }
  destruct (overlap_loop_spec chip off sz (s_partition_list st) Ho Hs Hb Ism) as (b & Eo & Hfree). cbn.
  rewrite Eo. ostep. destruct b.
  - eexists _, _, _. split; [done|]. split.
    + split; cbn; [by destruct (s_partition_list st)| | |by rewrite fmap_app; apply Hf1].
      * apply Forall_app. split; [done|]. by repeat constructor.
      * apply ForallOrdPairs_snoc; [done|]. eapply Forall_impl; [by apply Hfree|].
        intros i Hi E. cbn in *. specialize (Hi E). lia.
    + split; [done|]. eexists. by repeat (split; [reflexivity|]).
  - eexists _, _, _. split; [done|]. by split; [split|].
Qed.
End registration.

(** ** The table is read back *)
Section table.
Context {cfg : FlashConfig} {env : PartitionEnv}.

Definition le16 (v : Z) : list Z := [v mod 256; v / 256].
Definition le32 (v : Z) : list Z := [v mod 256; v / 256 mod 256; v / 65536 mod 256; v / 16777216].

(** The bytes of a table entry, as the table generator lays them out. *)
Definition encode_info (e : esp_partition_info_t) : list Z :=
  le16 (magic e) ++ [pi_type e; pi_subtype e] ++ le32 (offset (pos e)) ++ le32 (pos_size (pos e)) ++
  pi_label e ++ le32 (flags e).

Record info_valid (e : esp_partition_info_t) : Prop := {
  iv_magic : magic e = ESP_PARTITION_MAGIC;
  iv_offset : is_u32 (offset (pos e));
  iv_size : is_u32 (pos_size (pos e));
  iv_label : length (pi_label e) = 16%nat;
  iv_flags : is_u32 (flags e)
}.

Lemma load32_le m a v :
  is_u32 v -> (forall i w, le32 v !! i = Some w -> load8 m (a + Z.of_nat i) = w) -> load32 m a = v.
Proof.
  unfold is_u32. intros Hv H. pose proof (H 0%nat _ eq_refl) as H0. pose proof (H 1%nat _ eq_refl) as H1.
  pose proof (H 2%nat _ eq_refl) as H2. pose proof (H 3%nat _ eq_refl) as H3.
  cbv [Z.of_nat Pos.of_succ_nat Pos.succ] in *. rewrite Z.add_0_r in H0.
  unfold load32. rewrite H0, H1, H2, H3. Z.to_euclidean_division_equations. lia.
Qed.

Lemma bytes_at m a l : read_bytes m a (length l) = l -> forall i v, l !! i = Some v -> load8 m (a + Z.of_nat i) = v.
Proof. intros E i v Hi. rewrite <- E in Hi. by apply lookup_read_bytes in Hi as [_ ?]. Qed.

Lemma encode_info_length e : length (pi_label e) = 16%nat -> length (encode_info e) = 32%nat.
Proof. intros H. unfold encode_info. rewrite !length_app, H. done. Qed.

Lemma partition_info_at_encode m a e :
  info_valid e -> read_bytes m a 32 = encode_info e -> partition_info_at m a = e.
Proof.
  intros [V1 V2 V3 V4 V5] E. rewrite <- (encode_info_length e V4) in E. pose proof (bytes_at _ _ _ E) as H.
  assert (F : forall k l r, encode_info e = k ++ l ++ r -> forall i v, l !! i = Some v ->
    load8 m (a + Z.of_nat (length k) + Z.of_nat i) = v).
  { intros k l r Ee i v Hi. rewrite <- Z.add_assoc, <- Nat2Z.inj_add. apply H. rewrite Ee.
    rewrite lookup_app_r by lia. rewrite lookup_app_l; [rewrite <- Hi; f_equal; lia|].
    pose proof (lookup_lt_Some _ _ _ Hi). lia. }
  unfold partition_info_at, load16.
  pose proof (H 0%nat _ eq_refl) as H0. pose proof (H 1%nat _ eq_refl) as H1.
  pose proof (H 2%nat _ eq_refl) as H2. pose proof (H 3%nat _ eq_refl) as H3.
  cbv [Z.of_nat Pos.of_succ_nat Pos.succ] in H0, H1, H2, H3. rewrite Z.add_0_r in H0. rewrite H0, H1, H2, H3.
  rewrite (load32_le m (a + 4) (offset (pos e)) V2)
    by apply (F (le16 (magic e) ++ [pi_type e; pi_subtype e]) (le32 (offset (pos e))) _ eq_refl).
  rewrite (load32_le m (a + 8) (pos_size (pos e)) V3)
    by apply (F (le16 (magic e) ++ [pi_type e; pi_subtype e] ++ le32 (offset (pos e))) (le32 (pos_size (pos e))) _ eq_refl).
  assert (El : read_bytes m (a + 12) 16 = pi_label e).
  { rewrite <- V4. apply read_bytes_eq.
    apply (F (le16 (magic e) ++ [pi_type e; pi_subtype e] ++ le32 (offset (pos e)) ++ le32 (pos_size (pos e))) (pi_label e) _ eq_refl). }
  rewrite El, (load32_le m (a + 28) (flags e) V5).
  - destruct e as [mg ty sub [o s] lb fl]. cbn in *. by subst mg.
  - pose proof (F (le16 (magic e) ++ [pi_type e; pi_subtype e] ++ le32 (offset (pos e)) ++ le32 (pos_size (pos e)) ++ pi_label e)
      (le32 (flags e)) []) as F'. rewrite !length_app, V4 in F'. apply F'.
    unfold encode_info. by rewrite app_nil_r, <- !app_assoc.
Qed.

(** The entry that closes the partitions: their MD5 sum, or erased flash. *)
Definition table_end (entries : list Z) : list Z :=
  if CONFIG_PARTITION_TABLE_MD5 then [0xEB; 0xEB] ++ replicate 14 0xFF ++ MD5 entries else replicate 32 0xFF.

Definition table_bytes (es : list esp_partition_info_t) : list Z :=
  let entries := concat (map encode_info es) in entries ++ table_end entries.

Lemma load_loop_spec m es : forall n p addrs rest,
  Forall info_valid es -> (length es < n)%nat -> length addrs = length es -> Forall (fun a => a <> 0) addrs ->
  (forall i e, es !! i = Some e -> read_bytes m (p + 32 * Z.of_nat i) 32 = encode_info e) ->
  read_bytes m (p + 32 * Z.of_nat (length es)) 2 = (if CONFIG_PARTITION_TABLE_MD5 then [0xEB; 0xEB] else [0xFF; 0xFF]) ->
  load_loop n m p (addrs ++ rest) =
    (ESP_OK, zip_with load_item addrs es,
     (if CONFIG_PARTITION_TABLE_MD5 then Some (p + 32 * Z.of_nat (length es)) else None),
     concat (map encode_info es), rest).
Proof.
  induction es as [|e es IH]; intros n p addrs rest V Hn Hl Ha Ht He; (destruct n as [|n]; [simpl in Hn; lia|]).
  - destruct addrs; [|done]. simpl in He. rewrite Z.add_0_r in He.
    cbn [load_loop app length]. rewrite Z.add_0_r.
    assert (Em : magic (partition_info_at m p) = if CONFIG_PARTITION_TABLE_MD5 then ESP_PARTITION_MAGIC_MD5 else 0xFFFF).
    { cbn. unfold load16. destruct CONFIG_PARTITION_TABLE_MD5; injection He as -> ->; reflexivity. }
    rewrite Em. by destruct CONFIG_PARTITION_TABLE_MD5.
  - destruct addrs as [|a addrs]; [done|]. inversion V as [|?? Ve V']; subst. inversion Ha as [|?? Hane Ha']; subst.
    pose proof (Ht 0%nat e eq_refl) as E0. rewrite Z.add_0_r in E0.
    pose proof (partition_info_at_encode m p e Ve E0) as Ei. cbn [load_loop app].
    rewrite Ei, (iv_magic _ Ve). replace (CONFIG_PARTITION_TABLE_MD5 && (ESP_PARTITION_MAGIC =? ESP_PARTITION_MAGIC_MD5))
      with false by (by rewrite andb_false_r). cbn [negb Z.eqb pop_calloc].
    destruct (Z.eqb_spec a 0); [done|].
    change (p + sizeof_partition_info) with (p + 32).
    rewrite (IH n (p + 32) addrs rest V'); [|simpl in Hn; lia|by injection Hl|done| |].
    + cbn [length]. change (Z.to_nat sizeof_partition_info) with 32%nat. rewrite E0.
      replace (p + 32 + 32 * Z.of_nat (length es)) with (p + 32 * Z.of_nat (S (length es))) by lia. done.
    + intros i e' Hi. rewrite <- (Ht (S i) e' Hi). f_equal. lia.
    + rewrite <- He. f_equal. cbn [length]. lia.
Qed.

Lemma encode_entries_length es :
  Forall info_valid es -> length (concat (map encode_info es)) = (32 * length es)%nat.
Proof.
  induction 1 as [|e es Ve]; [done|]. cbn [map concat length].
  rewrite length_app, (encode_info_length e (iv_label _ Ve)). lia.
Qed.

Lemma encode_entries_lookup es i e j v :
  Forall info_valid es -> es !! i = Some e -> encode_info e !! j = Some v ->
  concat (map encode_info es) !! (32 * i + j)%nat = Some v.
Proof.
  revert i. induction es as [|e0 es IH]; intros [|i] Hv Hi Hj; try done.
  - injection Hi as ->. cbn [map concat]. by apply lookup_app_l_Some.
  - inversion Hv as [|?? Ve Hv']; subst. cbn [map concat]. rewrite lookup_app_r;
      rewrite (encode_info_length e0 (iv_label _ Ve)); [|lia]. rewrite <- (IH i Hv' Hi Hj). f_equal. lia.
Qed.

(** Loading reads the table that was written.  When the flash holds, from the
    table offset on, the encoding of a list of valid entries and its closing
    entry (with the MD5 sum when that is configured), the list loaded is exactly
    one partition per entry, in order, with the position, type, subtype and
    label of the entry. *)
Theorem load_partitions_roundtrip (es : list esp_partition_info_t) (addrs rest : list Z) (c : esp_flash_t) (st : part_state)
    (Hv : Forall info_valid es) (Hn : (length es < 128)%nat)
    (Hmd5 : forall l, length (MD5 l) = 16%nat)
    (Hmap : spi_flash_mmap_err (Z.land ESP_PARTITION_TABLE_OFFSET 0xffff0000) SPI_FLASH_SEC_SIZE = ESP_OK)
    (Hc : chips st !! esp_flash_default_chip = Some c)
    (Ht : read_bytes (mapped c) ESP_PARTITION_TABLE_OFFSET (length (table_bytes es)) = table_bytes es)
    (Hcs : callocs st = addrs ++ rest) (Hl : length addrs = length es) (Ha : Forall (fun a => a <> 0) addrs) :
  load_partitions st = Ok (ESP_OK, st <| callocs := rest |> <| s_partition_list := zip_with load_item addrs es |>).
Proof.
  pose proof (encode_entries_length es Hv) as Hlen.
  pose proof (bytes_at _ _ _ Ht) as H.
  assert (He : forall i e, es !! i = Some e -> read_bytes (mapped c) (ESP_PARTITION_TABLE_OFFSET + 32 * Z.of_nat i) 32 = encode_info e).
  { intros i e Hi. pose proof (encode_info_length e (iv_label _ (Forall_lookup_1 _ _ _ _ Hv Hi))) as Le.
    rewrite <- Le at 1. apply read_bytes_eq. intros j v Hj.
    replace (_ + 32 * Z.of_nat i + Z.of_nat j) with (ESP_PARTITION_TABLE_OFFSET + Z.of_nat (32 * i + j)) by lia.
    apply H. unfold table_bytes. apply lookup_app_l_Some. by apply (encode_entries_lookup es i e). }
  assert (Hend : forall i v, table_end (concat (map encode_info es)) !! i = Some v ->
    load8 (mapped c) (ESP_PARTITION_TABLE_OFFSET + 32 * Z.of_nat (length es) + Z.of_nat i) = v).
  { intros i v Hi. replace (_ + 32 * _ + Z.of_nat i) with (ESP_PARTITION_TABLE_OFFSET + Z.of_nat (32 * length es + i)) by lia.
    apply H. unfold table_bytes. rewrite lookup_app_r; rewrite Hlen; [|lia]. rewrite <- Hi. f_equal. lia. }
  unfold load_partitions. rewrite Hmap. cbn [negb Z.eqb ESP_OK]. unfold default_chip. rewrite Hc. ostep.
  change (Z.to_nat (SPI_FLASH_SEC_SIZE / sizeof_partition_info)) with 128%nat.
  rewrite Hcs, (load_loop_spec (mapped c) es 128 _ addrs rest Hv Hn Hl Ha He).
  - destruct CONFIG_PARTITION_TABLE_MD5 eqn:Em; [|reflexivity].
    rewrite bool_decide_eq_true_2; [reflexivity|]. rewrite <- (Hmd5 (concat (map encode_info es))) at 1. symmetry.
    apply read_bytes_eq. intros i v Hi. unfold ESP_PARTITION_MD5_OFFSET.
    rewrite <- (Hend (16 + i)%nat v); [f_equal; lia|]. unfold table_end. rewrite Em.
    rewrite app_assoc, lookup_app_r by (simpl; lia). rewrite <- Hi. f_equal. simpl. lia.
  - unfold table_end in Hend. destruct CONFIG_PARTITION_TABLE_MD5;
      [apply (read_bytes_eq _ _ [0xEB; 0xEB])|apply (read_bytes_eq _ _ [0xFF; 0xFF])];
      intros [|[|i]] v Hi; try done; (apply Hend; injection Hi as <-; reflexivity).
Qed.
End table.

(** ** An example: two application partitions and the OTA data *)
Definition demo_env (md5 : bool) : PartitionEnv :=
  {| ESP_PARTITION_TABLE_OFFSET := 0x8000; CONFIG_PARTITION_TABLE_MD5 := md5;
     CONFIG_SPI_FLASH_ENABLE_ENCRYPTED_READ_WRITE := false; MD5 := fun l => replicate 16 (lenZ l mod 256);
     esp_flash_encryption_enabled := false; esp_flash_default_chip := 1; cache_view := fun m => m;
     spi_flash_write_encrypted := fun _ _ c => Ok (ESP_FAIL, c); spi_flash_mmap_err := fun _ _ => ESP_OK |}.

Definition demo_label (c : Z) : list Z := [c] ++ replicate 15 0.
Definition demo_entry (ty sub off sz c : Z) : esp_partition_info_t :=
  {| magic := ESP_PARTITION_MAGIC; pi_type := ty; pi_subtype := sub; pos := mkPos off sz; pi_label := demo_label c; flags := 0 |}.
Definition demo_entries : list esp_partition_info_t :=
  [demo_entry 1 0 0xd000 0x2000 111; demo_entry 0 0x10 0x10000 0x10000 97; demo_entry 0 0x11 0x20000 0x10000 98].

Definition demo_flash (m : mem) : esp_flash_t :=
  {| chip_size := 0x400000; sector_size := 4096; block_erase_size := 65536; protected_regions := [];
     region_protected := fun _ _ => false; supports_direct_read := true; supports_direct_write := true;
     fl_mem := m; fl_faults := [] |}.
Definition demo_table : mem := write_bytes ∅ 0x8000 (@table_bytes (demo_env true) demo_entries).
Definition demo_state : part_state := mkPart [] {[ 1 := demo_flash demo_table ]} [100; 200; 300; 400].
(** The state once the table is loaded. *)
Definition demo_loaded : part_state :=
  mkPart (zip_with (@load_item (demo_env true)) [100; 200; 300] demo_entries) {[ 1 := demo_flash demo_table ]} [400].

Lemma load_partitions_roundtrip_witness :
  Forall info_valid demo_entries /\ @load_partitions (demo_env true) demo_state = Ok (ESP_OK, demo_loaded).
Proof.
  assert (V : Forall info_valid demo_entries) by (repeat constructor; cbn; lia).
  split; [exact V|].
  apply (@load_partitions_roundtrip (demo_env true) demo_entries [100; 200; 300] [400] (demo_flash demo_table) demo_state);
    [exact V|cbn; lia|reflexivity|reflexivity|reflexivity|vm_compute; reflexivity|reflexivity|reflexivity|repeat constructor; lia].
Defined.

Lemma demo_nodup : NoDup (item_addr <$> s_partition_list demo_loaded).
Proof. by apply (bool_decide_eq_true_1 (NoDup _)); vm_compute. Qed.

Lemma partition_find_enumerates_witness :
  @partition_enumerate (demo_env true) PART_TYPE_APP ESP_PARTITION_SUBTYPE_ANY None demo_loaded =
    Ok (info_ptr <$> filter (fun i => wanted PART_TYPE_APP ESP_PARTITION_SUBTYPE_ANY None (info i)) (s_partition_list demo_loaded)).
Proof.
  apply (@partition_find_enumerates (demo_env true) PART_TYPE_APP ESP_PARTITION_SUBTYPE_ANY None demo_loaded);
    [discriminate|apply demo_nodup].
Defined.

Definition demo_ota_1 : esp_partition_t := mkPartition 1 0 0x11 0x20000 0x10000 [98] false.
Lemma demo_ota_1_ok m : partition_ok demo_ota_1 (demo_flash m) (mkPart [] {[ 1 := demo_flash m ]} []).
Proof. split; cbn; try lia; [done|]. split; cbn; try lia. by split; [|vm_compute]. Qed.

Lemma partition_isolation_witness :
  let st := mkPart [] {[ 1 := demo_flash ∅ ]} [] in
  partition_ok demo_ota_1 (demo_flash ∅) st /\
  (exists err st', @esp_partition_write demo_config (demo_env true) demo_ota_1 0xfff0 (replicate 40 3) st = Ok (err, st') /\
     only_changes (flash_chip demo_ota_1) (address demo_ota_1) (size demo_ota_1) st st' /\
     (size demo_ota_1 < 0xfff0 + lenZ (replicate 40 3) -> err <> ESP_OK /\ st' = st)) /\
  (exists err st', @esp_partition_erase_range demo_config demo_ota_1 0xfff0 0x1000 st = Ok (err, st') /\
     only_changes (flash_chip demo_ota_1) (address demo_ota_1) (size demo_ota_1) st st' /\
     (size demo_ota_1 < 0xfff0 + 0x1000 -> err <> ESP_OK /\ st' = st)).
Proof.
  split; [apply demo_ota_1_ok|].
  apply (@partition_isolation demo_config (demo_env true) demo_ota_1 (demo_flash ∅)
           (mkPart [] {[ 1 := demo_flash ∅ ]} []) 0xfff0 0x1000 (replicate 40 3));
    [apply demo_ota_1_ok|reflexivity|apply Forall_replicate; unfold is_byte; lia|reflexivity|lia|lia|lia|vm_compute; reflexivity].
Defined.

Definition demo_erased : mem := memset ∅ 0x20000 0xFF 64.
Lemma partition_write_read_witness :
  let st := mkPart [] {[ 1 := demo_flash demo_erased ]} [] in
  exists st' st'', @esp_partition_write demo_config (demo_env true) demo_ota_1 8 [1; 2; 3] st = Ok (ESP_OK, st') /\
    @esp_partition_read (demo_env true) [] demo_ota_1 8 (lenZ [1; 2; 3]) st' = Ok (ESP_OK, [1; 2; 3], st'').
Proof.
  apply (@partition_write_read demo_config (demo_env true) demo_ota_1 (demo_flash demo_erased)
           (mkPart [] {[ 1 := demo_flash demo_erased ]} []) 8 [1; 2; 3] []);
    [apply demo_ota_1_ok|reflexivity|repeat constructor; lia|lia|vm_compute; congruence|reflexivity| |reflexivity|reflexivity].
  intros b Hb. change (lenZ [1; 2; 3]) with 3 in Hb. cbn in Hb.
  unfold demo_flash, fl_mem, demo_erased. rewrite load8_memset by (unfold is_byte; lia). by rewrite decide_True by lia.
Defined.

Lemma demo_inv : partitions_inv demo_loaded.
Proof.
  split.
  - discriminate.
  - repeat constructor; cbn; lia.
  - repeat (apply FOP_cons; [repeat (apply Forall_cons; split; [intros _; cbn; lia|]); apply Forall_nil; done|]).
    apply FOP_nil.
  - by apply (bool_decide_eq_true_1 (NoDup _)); vm_compute.
Qed.

Lemma register_keeps_disjoint_witness :
  exists err out st', @esp_partition_register_external (demo_env true) 1 0x30000 0x10000 [120] 1 0x99 demo_loaded = Ok (err, out, st') /\
    partitions_inv st' /\
    (if err =? ESP_OK then
       0x30000 + 0x10000 <= chip_size (demo_flash demo_table) /\ exists i, out = Some (info_ptr i) /\
         s_partition_list st' = s_partition_list demo_loaded ++ [i] /\ address (info i) = 0x30000 /\ size (info i) = 0x10000
     else out = None /\ s_partition_list st' = s_partition_list demo_loaded).
Proof.
  apply (@register_keeps_disjoint (demo_env true) 1 0x30000 0x10000 1 0x99 [120] (demo_flash demo_table) demo_loaded);
    [apply demo_inv|reflexivity|lia|lia|lia].
Defined.
