(* ===== verification/BootFlash.v ===== *)
(** * Flash access of the bootloader
      ([components/bootloader_support/src/bootloader_flash.c])

    The bootloader build of the file: mapping through the cache, and writing and
    erasing with the ROM functions, which are the driver operations of
    [EspFlash]. *)
From S2P Require Import Prelude Mem EspFlash Partition.

Definition FLASH_SECTOR_SIZE := 4096.
Definition FLASH_BLOCK_SIZE := 65536.
Definition MMU_SIZE := 0x320000.

(** ROM and hardware behind the bootloader. *)
Class BootRom := {
  cache_flash_mmu_set : Z -> Z -> bool;                  (* source address, size: pages mapped *)
  bootloader_flash_unlock : Z;                           (* its error *)
  esp_rom_spiflash_write_encrypted : Z -> list Z -> esp_flash_t -> Z * esp_flash_t
}.

(** The flash chip and the single mapping of the bootloader. *)
Record boot_flash := mkBootFlash { bf_chip : esp_flash_t; bf_mapped : bool }.
#[export] Instance rebuild_boot_flash : Rebuild boot_flash := fun r => mkBootFlash (bf_chip r) (bf_mapped r).

Section boot_flash.
Context {env : PartitionEnv} {rom : BootRom}.

(** Whether a mapping is made; what it shows is [mapped_bytes]. *)
Definition bootloader_mmap (src_addr sz : Z) (bf : boot_flash) : bool * boot_flash :=
  if bf_mapped bf then (false, bf)
  else if MMU_SIZE <? sz then (false, bf)
  else if cache_flash_mmu_set src_addr sz then (true, bf <| bf_mapped := true |>)
  else (false, bf).

Definition bootloader_munmap (bf : boot_flash) : boot_flash := bf <| bf_mapped := false |>.

(** [n] bytes of the flash as the mapping shows them. *)
Definition mapped_bytes (a n : Z) (bf : boot_flash) : list Z := read_bytes (mapped (bf_chip bf)) a (Z.to_nat n).

Definition bootloader_flash_write (dest_addr : Z) (src : list Z) (write_encrypted : bool) (bf : boot_flash) : Z * boot_flash :=
  let alignment := if write_encrypted then 32 else 4 in
  if negb (dest_addr mod alignment =? 0) then (ESP_FAIL, bf)
  else if negb (lenZ src mod alignment =? 0) then (ESP_FAIL, bf)
  else if negb (bootloader_flash_unlock =? ESP_OK) then (bootloader_flash_unlock, bf)
  else
    let '(err, c) :=
      if write_encrypted then esp_rom_spiflash_write_encrypted dest_addr src (bf_chip bf)
      else drv_write dest_addr src (bf_chip bf) in
    (err, bf <| bf_chip := c |>).

Definition bootloader_flash_erase_sector (sector : Z) (bf : boot_flash) : Z * boot_flash :=
  let '(err, c) := drv_erase (sector * FLASH_SECTOR_SIZE) FLASH_SECTOR_SIZE (bf_chip bf) in
  (err, bf <| bf_chip := c |>).

Definition sectors_per_block := FLASH_BLOCK_SIZE / FLASH_SECTOR_SIZE.

(** The loop of [bootloader_flash_erase_range]. *)
Fixpoint erase_sectors (fuel : nat) (sector end_ : Z) (c : esp_flash_t) : outcome (Z * esp_flash_t) :=
  if sector =? end_ then Ok (ESP_OK, c)
  else
    match fuel with
    | O => OutOfFuel
    | S fuel =>
        let '(rc, c, sector) :=
          if (sector mod sectors_per_block =? 0) && (sectors_per_block <=? end_ - sector) then
            let '(rc, c) := drv_erase (sector / sectors_per_block * FLASH_BLOCK_SIZE) FLASH_BLOCK_SIZE c in
            (rc, c, sector + sectors_per_block)
          else
            let '(rc, c) := drv_erase (sector * FLASH_SECTOR_SIZE) FLASH_SECTOR_SIZE c in
            (rc, c, sector + 1) in
        if rc =? ESP_OK then erase_sectors fuel sector end_ c else Ok (rc, c)
    end.

Definition bootloader_flash_erase_range (start_addr sz : Z) (bf : boot_flash) : outcome (Z * boot_flash) :=
  if negb (start_addr mod FLASH_SECTOR_SIZE =? 0) then Ok (ESP_ERR_INVALID_ARG, bf)
  else if negb (sz mod FLASH_SECTOR_SIZE =? 0) then Ok (ESP_ERR_INVALID_SIZE, bf)
  else
    let start := start_addr / FLASH_SECTOR_SIZE in
    let end_ := start + sz / FLASH_SECTOR_SIZE in
    '(err, c) ← erase_sectors (Z.to_nat (sz / FLASH_SECTOR_SIZE)) start end_ (bf_chip bf);
    Ok (err, bf <| bf_chip := c |>).

(** ** Erase *)
Lemma erase_sectors_spec fuel : forall s e c,
  0 <= s <= e -> e - s <= Z.of_nat fuel ->
  exists err c', erase_sectors fuel s e c = Ok (err, c') /\ same_chip c c' /\
    outside_same (s * FLASH_SECTOR_SIZE) ((e - s) * FLASH_SECTOR_SIZE) c c' /\
    (err = ESP_OK -> erased (s * FLASH_SECTOR_SIZE) ((e - s) * FLASH_SECTOR_SIZE) c') /\
    (fl_faults c = [] -> err = ESP_OK /\ fl_faults c' = []).
Proof.
  unfold FLASH_SECTOR_SIZE. induction fuel as [|fuel IH]; intros s e c Hs Hf; cbn [erase_sectors];
    (destruct (Z.eqb_spec s e) as [->|Hne];
     [exists ESP_OK, c; repeat (split; [done|]); split; [|done]; intros _ b; lia|]); [lia|].
  destruct ((s mod sectors_per_block =? 0) && (sectors_per_block <=? e - s)) eqn:Ec.
  - apply andb_prop in Ec as [Em%Z.eqb_eq Hle%Z.leb_le]. change sectors_per_block with 16 in *.
    unfold FLASH_BLOCK_SIZE. replace (s / 16 * 65536) with (s * 4096) by (Z.to_euclidean_division_equations; lia).
    destruct (drv_erase (s * 4096) 65536 c) as [rc c1] eqn:E. apply drv_erase_spec in E as (S1 & O1 & E1 & F1); [|lia].
    destruct (Z.eqb_spec rc ESP_OK) as [->|Hrc].
    + destruct (IH (s + 16) e c1) as (err & c2 & Er & S2 & O2 & E2 & F2); [lia..|].
      exists err, c2. split; [done|]. split; [by etrans|].
      split; [etrans; eapply outside_same_sub; [| |exact O1| | |exact O2]; lia|].
      split; [|intros Hfl; apply F2; by apply F1]. intros Eo b Hb.
      destruct (decide (b < s * 4096 + 65536)); [rewrite O2 by lia; apply E1; [done|lia]|apply E2; [done|lia]].
    + exists rc, c1. split; [done|]. split; [done|]. split; [eapply outside_same_sub; [| |exact O1]; lia|].
      split; [done|]. intros Hfl. by destruct F1.
  - unfold FLASH_SECTOR_SIZE. destruct (drv_erase (s * 4096) 4096 c) as [rc c1] eqn:E. apply drv_erase_spec in E as (S1 & O1 & E1 & F1); [|lia].
    destruct (Z.eqb_spec rc ESP_OK) as [->|Hrc].
    + destruct (IH (s + 1) e c1) as (err & c2 & Er & S2 & O2 & E2 & F2); [lia..|].
      exists err, c2. split; [done|]. split; [by etrans|].
      split; [etrans; eapply outside_same_sub; [| |exact O1| | |exact O2]; lia|].
      split; [|intros Hfl; apply F2; by apply F1]. intros Eo b Hb.
      destruct (decide (b < s * 4096 + 4096)); [rewrite O2 by lia; apply E1; [done|lia]|apply E2; [done|lia]].
    + exists rc, c1. split; [done|]. split; [done|]. split; [eapply outside_same_sub; [| |exact O1]; lia|].
      split; [done|]. intros Hfl. by destruct F1.
Qed.
End boot_flash.

Section range.
Context {env : PartitionEnv} {rom : BootRom}.

(** Erasing a range from the bootloader.  Whatever the mix of blocks and
    sectors and whatever the driver failures, the loop ends, nothing outside the
    range changes, and success means the whole range is 0xFF; an aligned range is
    erased when the chip does not fail. *)
Theorem bootloader_erase_range_correct (start sz : Z) (bf : boot_flash) (Hs : 0 <= start) (Hz : 0 <= sz) :
  exists err bf', bootloader_flash_erase_range start sz bf = Ok (err, bf') /\ bf_mapped bf' = bf_mapped bf /\
    outside_same start sz (bf_chip bf) (bf_chip bf') /\ (err = ESP_OK -> erased start sz (bf_chip bf')) /\
    (fl_faults (bf_chip bf) = [] -> start mod FLASH_SECTOR_SIZE = 0 -> sz mod FLASH_SECTOR_SIZE = 0 -> err = ESP_OK).
Proof.
  unfold bootloader_flash_erase_range.
  destruct (Z.eqb_spec (start mod FLASH_SECTOR_SIZE) 0) as [E1|E1];
    [|by exists ESP_ERR_INVALID_ARG, bf; repeat (split; [done|])].
  destruct (Z.eqb_spec (sz mod FLASH_SECTOR_SIZE) 0) as [E2|E2];
    [|by exists ESP_ERR_INVALID_SIZE, bf; repeat (split; [done|])]. cbn [negb].
  destruct (erase_sectors_spec (Z.to_nat (sz / FLASH_SECTOR_SIZE)) (start / FLASH_SECTOR_SIZE)
    (start / FLASH_SECTOR_SIZE + sz / FLASH_SECTOR_SIZE) (bf_chip bf)) as (err & c' & E & _ & O & Er & F).
  { split; [apply Z.div_pos; unfold FLASH_SECTOR_SIZE; lia|].
    pose proof (Z.div_pos sz FLASH_SECTOR_SIZE Hz). unfold FLASH_SECTOR_SIZE in *. lia. }
  { rewrite Z2Nat.id; [lia|]. apply Z.div_pos; unfold FLASH_SECTOR_SIZE; lia. }
  replace (start / FLASH_SECTOR_SIZE * FLASH_SECTOR_SIZE) with start in *
    by (unfold FLASH_SECTOR_SIZE in *; Z.to_euclidean_division_equations; lia).
  replace ((start / FLASH_SECTOR_SIZE + sz / FLASH_SECTOR_SIZE - start / FLASH_SECTOR_SIZE) * FLASH_SECTOR_SIZE) with sz in *
    by (unfold FLASH_SECTOR_SIZE in *; Z.to_euclidean_division_equations; lia).
  rewrite E. ostep. eexists _, _. split; [done|]. split; [done|]. split; [done|]. split; [done|].
  intros Hf _ _. by apply F.
Qed.
End range.

Definition demo_rom : BootRom :=
  {| cache_flash_mmu_set := fun _ _ => true; bootloader_flash_unlock := ESP_OK;
     esp_rom_spiflash_write_encrypted := fun _ _ c => (ESP_FAIL, c) |}.

Lemma bootloader_erase_range_correct_witness :
  let bf := mkBootFlash (demo_flash ∅) false in
  exists err bf', bootloader_flash_erase_range 0xf000 0x12000 bf = Ok (err, bf') /\ bf_mapped bf' = bf_mapped bf /\
    outside_same 0xf000 0x12000 (bf_chip bf) (bf_chip bf') /\ (err = ESP_OK -> erased 0xf000 0x12000 (bf_chip bf')) /\
    (fl_faults (bf_chip bf) = [] -> 0xf000 mod FLASH_SECTOR_SIZE = 0 -> 0x12000 mod FLASH_SECTOR_SIZE = 0 -> err = ESP_OK).
Proof. apply (bootloader_erase_range_correct 0xf000 0x12000 (mkBootFlash (demo_flash ∅) false)); lia. Defined.
