(* ===== verification/OtaData.v ===== *)
(** * OTA selection data and the anti-rollback counter
      ([components/bootloader_support/src/bootloader_common.c],
       [components/efuse/src/esp_efuse_fields.c])

    The two copies of the OTA selection entry, which the bootloader and the
    application both read and write, and how the active one is chosen; the
    secure version kept in eFuses as a count of burned bits. *)
From S2P Require Import Prelude Mem EspFlash Partition.

Definition UINT32_MAX : Z := 2 ^ 32 - 1.

Definition ESP_OTA_IMG_NEW := 0.
Definition ESP_OTA_IMG_PENDING_VERIFY := 1.
Definition ESP_OTA_IMG_VALID := 2.
Definition ESP_OTA_IMG_INVALID := 3.
Definition ESP_OTA_IMG_ABORTED := 4.
Definition ESP_OTA_IMG_UNDEFINED := UINT32_MAX.

Record esp_ota_select_entry_t := mkEntry {
  ota_seq : Z;
  seq_label : list Z;
  ota_state : Z;
  crc : Z
}.
#[export] Instance rebuild_entry : Rebuild esp_ota_select_entry_t := fun r =>
  mkEntry (ota_seq r) (seq_label r) (ota_state r) (crc r).
Definition sizeof_ota_select_entry := 32.

(** The entry at an address, and the bytes of an entry. *)
Definition entry_at (m : mem) (a : Z) : esp_ota_select_entry_t :=
  mkEntry (load32 m a) (read_bytes m (a + 4) 20) (load32 m (a + 24)) (load32 m (a + 28)).
Definition entry_bytes (e : esp_ota_select_entry_t) : list Z :=
  le32 (ota_seq e) ++ seq_label e ++ le32 (ota_state e) ++ le32 (crc e).

(** The two copies, one per sector of the OTA data partition. *)
Definition two_otadata : Type := esp_ota_select_entry_t * esp_ota_select_entry_t.
Definition otadata_at (m : mem) (a : Z) : two_otadata := (entry_at m a, entry_at m (a + SPI_FLASH_SEC_SIZE)).
Definition otadata_nth (two : two_otadata) (i : Z) : esp_ota_select_entry_t := if i =? 0 then two.1 else two.2.
Definition otadata_set (two : two_otadata) (i : Z) (e : esp_ota_select_entry_t) : two_otadata :=
  if i =? 0 then (e, two.2) else (two.1, e).

Class OtaConfig := {
  crc32_le : Z -> list Z -> Z;                                   (* ROM code *)
  CONFIG_BOOTLOADER_APP_ROLLBACK_ENABLE : bool;
  CONFIG_BOOTLOADER_APP_ANTI_ROLLBACK : bool;
  CONFIG_BOOTLOADER_APP_SEC_VER_SIZE_EFUSE_FIELD : Z;
  efuse_coding_scheme_none : bool            (* EFUSE_CODING_SCHEME_NONE in the block of the field *)
}.

Section otadata.
Context {ota : OtaConfig}.

Definition bootloader_common_ota_select_crc (s : esp_ota_select_entry_t) : Z :=
  crc32_le UINT32_MAX (le32 (ota_seq s)).

Definition bootloader_common_ota_select_invalid (s : esp_ota_select_entry_t) : bool :=
  (ota_seq s =? UINT32_MAX) || (ota_state s =? ESP_OTA_IMG_INVALID) || (ota_state s =? ESP_OTA_IMG_ABORTED).

Definition bootloader_common_ota_select_valid (s : esp_ota_select_entry_t) : bool :=
  negb (bootloader_common_ota_select_invalid s) && (crc s =? bootloader_common_ota_select_crc s).

(** [condition] is an [int] that is compared with an unsigned number. *)
Definition bootloader_common_select_otadata (two : two_otadata) (valid : bool * bool) (max : bool) : Z :=
  if valid.1 && valid.2 then
    let condition := s32 (if max then Z.max (ota_seq two.1) (ota_seq two.2) else Z.min (ota_seq two.1) (ota_seq two.2)) in
    if u32 condition =? ota_seq two.1 then 0 else 1
  else if valid.1 then 0
  else if valid.2 then 1
  else -1.

Definition both_valid (two : two_otadata) : bool * bool :=
  (bootloader_common_ota_select_valid two.1, bootloader_common_ota_select_valid two.2).

Definition bootloader_common_get_active_otadata (two : two_otadata) : Z :=
  bootloader_common_select_otadata two (both_valid two) true.

(** The copy that is not active: [(~active) & 1]. *)
Definition other_otadata (active : Z) : Z := Z.land (Z.lnot active) 1.
End otadata.

(** ** Secure version

    [secure_bits] is the eFuse field; reading counts its burned bits. *)
Fixpoint popcount (n : nat) (w : Z) : Z :=
  match n with
  | O => 0
  | S n => (if Z.testbit w (Z.of_nat n) then 1 else 0) + popcount n w
  end.

Section efuse.
Context {ota : OtaConfig}.

Definition efuse_field_size : Z := 32.    (* esp_efuse_get_field_size(ESP_EFUSE_SECURE_VERSION) *)

Definition esp_efuse_read_secure_version (secure_bits : Z) : Z :=
  if CONFIG_BOOTLOADER_APP_ANTI_ROLLBACK then
    let size := Z.min CONFIG_BOOTLOADER_APP_SEC_VER_SIZE_EFUSE_FIELD efuse_field_size in
    popcount 32 (Z.land secure_bits (Z.shiftl 1 size - 1))
  else 0.

Definition esp_efuse_check_secure_version (secure_version secure_bits : Z) : bool :=
  esp_efuse_read_secure_version secure_bits <=? secure_version.

(** Burning can only set bits, and only those of the field. *)
Definition write_anti_rollback (new_bits secure_bits : Z) : Z :=
  let size := Z.min CONFIG_BOOTLOADER_APP_SEC_VER_SIZE_EFUSE_FIELD efuse_field_size in
  Z.lor secure_bits (Z.land new_bits (Z.shiftl 1 size - 1)).

Definition esp_efuse_update_secure_version (secure_version secure_bits : Z) : Z * Z :=
  if CONFIG_BOOTLOADER_APP_ANTI_ROLLBACK then
    if CONFIG_BOOTLOADER_APP_SEC_VER_SIZE_EFUSE_FIELD <? secure_version then (ESP_ERR_INVALID_ARG, secure_bits)
    else if negb efuse_coding_scheme_none then (ESP_ERR_NOT_SUPPORTED, secure_bits)
    else
      let sec_ver_hw := esp_efuse_read_secure_version secure_bits in
      if sec_ver_hw <? secure_version then
        let num_bit_hw := u32 (Z.shiftl 1 sec_ver_hw - 1) in
        let num_bit_app := u32 (Z.shiftl 1 secure_version - 1) in
        let new_bits := u32 (num_bit_app - num_bit_hw) in
        (ESP_OK, write_anti_rollback new_bits secure_bits)
      else if secure_version <? sec_ver_hw then (ESP_FAIL, secure_bits)
      else (ESP_OK, secure_bits)
  else (ESP_OK, secure_bits).
End efuse.

(** ** Entries in flash *)

Definition entry_ok (e : esp_ota_select_entry_t) : Prop :=
  is_u32 (ota_seq e) /\ length (seq_label e) = 20%nat /\ Forall is_byte (seq_label e) /\
  is_u32 (ota_state e) /\ is_u32 (crc e).

Lemma entry_at_ok m a : entry_ok (entry_at m a).
Proof.
  split; [apply load32_range|]. split; [apply length_read_bytes|]. split; [apply read_bytes_is_byte|].
  split; apply load32_range.
Qed.

Lemma le32_bytes v : is_u32 v -> Forall is_byte (le32 v).
Proof.
  unfold is_u32. intros. unfold le32, is_byte. repeat (constructor; [Z.to_euclidean_division_equations; lia|]). constructor.
Qed.

Lemma entry_bytes_length e : entry_ok e -> length (entry_bytes e) = 32%nat.
Proof. intros (_ & H & _). unfold entry_bytes. by rewrite !length_app, H. Qed.
Lemma entry_bytes_is_byte e : entry_ok e -> Forall is_byte (entry_bytes e).
Proof.
  intros (H1 & _ & H2 & H3 & H4). unfold entry_bytes. rewrite !Forall_app. auto using le32_bytes.
Qed.

Lemma entry_at_bytes m a e : entry_ok e -> read_bytes m a 32 = entry_bytes e -> entry_at m a = e.
Proof.
  intros Hok E. pose proof Hok as (V1 & V2 & V3 & V4 & V5). rewrite <- (entry_bytes_length e Hok) in E.
  pose proof (bytes_at _ _ _ E) as H.
  assert (F : forall k l r, entry_bytes e = k ++ l ++ r -> forall i v, l !! i = Some v ->
    load8 m (a + Z.of_nat (length k) + Z.of_nat i) = v).
  { intros k l r Ee i v Hi. rewrite <- Z.add_assoc, <- Nat2Z.inj_add. apply H. rewrite Ee.
    rewrite lookup_app_r by lia. rewrite lookup_app_l; [rewrite <- Hi; f_equal; lia|].
    pose proof (lookup_lt_Some _ _ _ Hi). lia. }
  unfold entry_at.
  rewrite (load32_le m a _ V1); [|intros i w Hi; rewrite <- (F [] (le32 (ota_seq e)) _ eq_refl i w Hi); f_equal; cbn; lia].
  assert (El : read_bytes m (a + 4) 20 = seq_label e)
    by (rewrite <- V2; apply read_bytes_eq, (F (le32 (ota_seq e)) (seq_label e) _ eq_refl)).
  pose proof (F (le32 (ota_seq e) ++ seq_label e) (le32 (ota_state e)) (le32 (crc e))) as F1.
  pose proof (F (le32 (ota_seq e) ++ seq_label e ++ le32 (ota_state e)) (le32 (crc e)) []) as F2.
  rewrite length_app, V2 in F1. rewrite !length_app, V2 in F2.
  rewrite El, (load32_le m (a + 24) _ V4), (load32_le m (a + 28) _ V5); [by destruct e| |].
  - apply F2. unfold entry_bytes. by rewrite app_nil_r, <- !app_assoc.
  - apply F1. unfold entry_bytes. by rewrite <- !app_assoc.
Qed.

Lemma entry_at_ext m m' a :
  (forall b, a <= b < a + 32 -> load8 m b = load8 m' b) -> entry_at m a = entry_at m' a.
Proof.
  intros E. unfold entry_at. f_equal; try apply load32_ext; try apply read_bytes_ext; intros; apply E; lia.
Qed.

(** Erased flash holds an invalid entry. *)
Lemma erased_entry_seq m a : (forall b, a <= b < a + 32 -> load8 m b = 0xFF) -> ota_seq (entry_at m a) = UINT32_MAX.
Proof. intros E. cbn. unfold load32. by rewrite !E by lia. Qed.

(** ** The secure version only grows *)
Section secure_version.
Context {ota : OtaConfig}.

Lemma upto_32 (P : Z -> bool) : forallb P (seqZ 0 33) = true -> forall k, 0 <= k <= 32 -> P k = true.
Proof. intros H k Hk. rewrite forallb_forall in H. apply H, list_elem_of_In, elem_of_seqZ. lia. Qed.

Lemma popcount_ones k s : 0 <= k <= s -> s <= 32 -> popcount 32 (Z.land (Z.ones k) (Z.shiftl 1 s - 1)) = k.
Proof.
  intros Hk Hs. apply Z.eqb_eq.
  pose proof (upto_32 (fun s => forallb (fun k => (s <? k) || (popcount 32 (Z.land (Z.ones k) (Z.shiftl 1 s - 1)) =? k)) (seqZ 0 33))
    ltac:(vm_compute; reflexivity) s ltac:(lia)) as H.
  pose proof (upto_32 _ H k ltac:(lia)) as H'. cbv beta in H'. apply orb_prop in H' as [H'|H']; [apply Z.ltb_lt in H'; lia|done].
Qed.

(** Burning the bits between two counts gives the larger count. *)
Lemma burn_ones k v s : 0 <= k < v -> v <= s -> s <= 32 ->
  Z.lor (Z.ones k) (Z.land (u32 (u32 (Z.shiftl 1 v - 1) - u32 (Z.shiftl 1 k - 1))) (Z.shiftl 1 s - 1)) = Z.ones v.
Proof.
  intros Hk Hv Hs. rewrite !Z.shiftl_1_l.
  assert (Hkv : 2 ^ k < 2 ^ v) by (apply Z.pow_lt_mono_r; lia).
  assert (Hvs : 2 ^ v <= 2 ^ 32) by (apply Z.pow_le_mono_r; lia). assert (0 < 2 ^ k) by lia.
  rewrite !(u32_small (2 ^ _ - 1)) by (unfold is_u32; lia). rewrite u32_small by (unfold is_u32; lia).
  replace (2 ^ v - 1 - (2 ^ k - 1)) with (Z.shiftl (Z.ones (v - k)) k).
  2:{ rewrite Z.shiftl_mul_pow2, Z.ones_equiv by lia. replace (2 ^ v) with (2 ^ (v - k) * 2 ^ k); [lia|].
      rewrite <- Z.pow_add_r by lia. f_equal. lia. }
  replace (2 ^ s - 1) with (Z.ones s) by (rewrite Z.ones_equiv; lia).
  apply Z.bits_inj'. intros i Hi. rewrite Z.lor_spec, Z.land_spec, Z.shiftl_spec by lia.
  rewrite !Z.testbit_ones by lia.
  destruct (Z.leb_spec 0 i), (Z.ltb_spec i k), (Z.ltb_spec i s), (Z.ltb_spec i v), (Z.leb_spec 0 (i - k)), (Z.ltb_spec (i - k) (v - k));
    simpl; lia || reflexivity.
Qed.

(** The secure version is monotone.  With the first [k] bits of the field
    burned the version reads [k]; an update to a version the field can hold
    leaves exactly [max k v] bits burned, so the version read afterwards is
    [max k v] and every image below it is refused; an update to a smaller or to
    an unrepresentable version burns nothing and reports an error. *)
Theorem secure_version_monotone (k v : Z) (Hen : CONFIG_BOOTLOADER_APP_ANTI_ROLLBACK = true)
    (Hcs : efuse_coding_scheme_none = true) (Hsz : CONFIG_BOOTLOADER_APP_SEC_VER_SIZE_EFUSE_FIELD <= 32)
    (Hk : 0 <= k <= CONFIG_BOOTLOADER_APP_SEC_VER_SIZE_EFUSE_FIELD) (Hv : 0 <= v) :
  let '(err, bits) := esp_efuse_update_secure_version v (Z.ones k) in
  esp_efuse_read_secure_version (Z.ones k) = k /\
  (if v <=? CONFIG_BOOTLOADER_APP_SEC_VER_SIZE_EFUSE_FIELD then
     bits = Z.ones (Z.max k v) /\ esp_efuse_read_secure_version bits = Z.max k v /\
     (forall w, esp_efuse_check_secure_version w bits = (Z.max k v <=? w)) /\ (err = ESP_OK <-> k <= v)
   else err = ESP_ERR_INVALID_ARG /\ bits = Z.ones k).
Proof.
  set (s := CONFIG_BOOTLOADER_APP_SEC_VER_SIZE_EFUSE_FIELD) in *.
  assert (R : forall j, 0 <= j <= s -> esp_efuse_read_secure_version (Z.ones j) = j).
  { intros j Hj. unfold esp_efuse_read_secure_version. rewrite Hen. fold s. unfold efuse_field_size.
    rewrite Z.min_l by lia. by apply popcount_ones. }
  unfold esp_efuse_update_secure_version. rewrite Hen, Hcs. fold s. cbn [negb]. rewrite (R k Hk).
  destruct (Z.ltb_spec s v), (Z.leb_spec v s); try lia.
  destruct (Z.ltb_spec k v); [|destruct (Z.ltb_spec v k)].
  - unfold write_anti_rollback, efuse_field_size. fold s. rewrite (Z.min_l s 32) by lia. rewrite burn_ones by lia.
    rewrite Z.max_r by lia. split; [done|]. split; [done|]. split; [apply R; lia|].
    split; [intros w; unfold esp_efuse_check_secure_version; by rewrite R by lia|]. split; [lia|done].
  - rewrite Z.max_l by lia. split; [done|]. split; [done|]. split; [by apply R|].
    split; [intros w; unfold esp_efuse_check_secure_version; by rewrite R|]. split; [done|lia].
  - rewrite Z.max_l by lia. split; [done|]. split; [done|]. split; [by apply R|].
    split; [intros w; unfold esp_efuse_check_secure_version; by rewrite R|]. split; [lia|done].
Qed.
End secure_version.

Definition demo_ota : OtaConfig :=
  {| crc32_le := fun c l => fold_left (fun a b => (a * 31 + b) mod 2 ^ 32) l c;
     CONFIG_BOOTLOADER_APP_ROLLBACK_ENABLE := true; CONFIG_BOOTLOADER_APP_ANTI_ROLLBACK := true;
     CONFIG_BOOTLOADER_APP_SEC_VER_SIZE_EFUSE_FIELD := 32; efuse_coding_scheme_none := true |}.

Lemma secure_version_monotone_witness :
  let '(err, bits) := @esp_efuse_update_secure_version demo_ota 5 (Z.ones 3) in
  @esp_efuse_read_secure_version demo_ota (Z.ones 3) = 3 /\
  (if 5 <=? 32 then
     bits = Z.ones (Z.max 3 5) /\ @esp_efuse_read_secure_version demo_ota bits = Z.max 3 5 /\
     (forall w, @esp_efuse_check_secure_version demo_ota w bits = (Z.max 3 5 <=? w)) /\ (err = ESP_OK <-> 3 <= 5)
   else err = ESP_ERR_INVALID_ARG /\ bits = Z.ones 3).
Proof. apply (@secure_version_monotone demo_ota 3 5); [reflexivity|reflexivity|cbn; lia|cbn; lia|lia]. Defined.
