(* ===== verification/Bootloader.v ===== *)
(** * Boot selection ([components/bootloader_support/src/bootloader_utility.c])

    The second-stage bootloader: it reads the partition table, picks a boot index
    from the two OTA selection entries, and starts the first image that loads,
    falling back to the other slots.  Checking and starting an image are the
    interface [ImageLoader]. *)
From S2P Require Import Prelude Mem EspFlash Partition BootFlash OtaData.

Definition SPI_SEC_SIZE := 0x1000.
Definition MAX_OTA_SLOTS := 16.
Definition FACTORY_INDEX := -1.
Definition TEST_APP_INDEX := -2.
Definition INVALID_INDEX := -99.
Definition ESP_APP_DESC_MAGIC_WORD := 0xABCD5432.
Definition PART_SUBTYPE_DATA_EFUSE_EM := 0x05.

Record bootloader_state_t := mkBootState {
  ota_info : esp_partition_pos_t;
  factory : esp_partition_pos_t;
  test : esp_partition_pos_t;
  ota : list esp_partition_pos_t;
  app_count : Z
}.
#[export] Instance rebuild_bootstate : Rebuild bootloader_state_t := fun r =>
  mkBootState (ota_info r) (factory r) (test r) (ota r) (app_count r).
Definition no_partition : esp_partition_pos_t := mkPos 0 0.
(** The state [call_start_cpu0] begins with. *)
Definition empty_state : bootloader_state_t :=
  mkBootState no_partition no_partition no_partition (replicate 16 no_partition) 0.

(** What the bootloader can change: the flash, its flag, the eFuse bits. *)
Record boot := mkBoot {
  bt_flash : boot_flash;
  ota_has_initial_contents : bool;
  secure_bits : Z
}.
#[export] Instance rebuild_boot : Rebuild boot := fun r => mkBoot (bt_flash r) (ota_has_initial_contents r) (secure_bits r).

(** What the boot code relies on for images: whether the image of a partition is
    there and verifies, and whether starting it does start it (the security
    steps of [load_image] may return). *)
Class ImageLoader := {
  bootloader_load_image : esp_flash_t -> esp_partition_pos_t -> bool;
  load_image_starts : esp_partition_pos_t -> bool
}.

Section bootloader.
Context {env : PartitionEnv} {rom : BootRom} {otac : OtaConfig} {img : ImageLoader}.

Definition bt_mem (b : boot) : mem := mapped (bf_chip (bt_flash b)).

(** [read_otadata]: the error and the two entries. *)
Definition read_otadata (pos : esp_partition_pos_t) (b : boot) : Z * option two_otadata * boot :=
  if offset pos =? 0 then (ESP_ERR_NOT_FOUND, None, b)
  else if pos_size pos <? 2 * SPI_SEC_SIZE then (ESP_FAIL, None, b)
  else
    let '(ok, bf) := bootloader_mmap (offset pos) (pos_size pos) (bt_flash b) in
    if negb ok then (ESP_FAIL, None, b <| bt_flash := bf |>)
    else (ESP_OK, Some (otadata_at (bt_mem b) (offset pos)), b <| bt_flash := bootloader_munmap bf |>).

(** ** The partition table *)

Fixpoint list_set {A} (l : list A) (i : nat) (x : A) : list A :=
  match l, i with
  | [], _ => []
  | _ :: l, O => x :: l
  | y :: l, S i => y :: list_set l i x
  end.

Definition load_entry (p : esp_partition_info_t) (bs : bootloader_state_t) : bootloader_state_t :=
  if pi_type p =? PART_TYPE_APP then
    if pi_subtype p =? PART_SUBTYPE_FACTORY then bs <| factory := pos p |>
    else if pi_subtype p =? PART_SUBTYPE_TEST then bs <| test := pos p |>
    else if Z.ldiff (pi_subtype p) PART_SUBTYPE_OTA_MASK =? PART_SUBTYPE_OTA_FLAG then
      bs <| ota := list_set (ota bs) (Z.to_nat (Z.land (pi_subtype p) PART_SUBTYPE_OTA_MASK)) (pos p) |>
         <| app_count := u32 (app_count bs + 1) |>
    else bs
  else if pi_type p =? PART_TYPE_DATA then
    if pi_subtype p =? PART_SUBTYPE_DATA_OTA then bs <| ota_info := pos p |> else bs
  else bs.

Fixpoint load_entries (n : nat) (m : mem) (a : Z) (bs : bootloader_state_t) : bootloader_state_t :=
  match n with
  | O => bs
  | S n => load_entries n m (a + sizeof_partition_info) (load_entry (partition_info_at m a) bs)
  end.

Definition bootloader_utility_load_partition_table (bs : bootloader_state_t) (b : boot) : bool * bootloader_state_t * boot :=
  let '(ok, bf) := bootloader_mmap ESP_PARTITION_TABLE_OFFSET ESP_PARTITION_TABLE_MAX_LEN (bt_flash b) in
  let b := b <| bt_flash := bf |> in
  if negb ok then (false, bs, b)
  else
    let '(err, num_partitions) :=
      esp_partition_table_verify (bt_mem b) ESP_PARTITION_TABLE_OFFSET (chip_size (bf_chip bf)) in
    if negb (err =? ESP_OK) then (false, bs, b)
    else (true, load_entries (Z.to_nat num_partitions) (bt_mem b) ESP_PARTITION_TABLE_OFFSET bs,
          b <| bt_flash := bootloader_munmap bf |>).

(** [index < bs->app_count] is a comparison of unsigned numbers. *)
Definition index_to_partition (bs : bootloader_state_t) (index : Z) : esp_partition_pos_t :=
  if index =? FACTORY_INDEX then factory bs
  else if index =? TEST_APP_INDEX then test bs
  else if (0 <=? index) && (index <? MAX_OTA_SLOTS) && (u32 index <? app_count bs)
  then nth (Z.to_nat index) (ota bs) no_partition
  else no_partition.

(** ** Selection *)

Definition write_otadata (e : esp_ota_select_entry_t) (off : Z) (write_encrypted : bool) (b : boot) : Z * boot :=
  let '(err, bf) := bootloader_flash_erase_sector (off / FLASH_SECTOR_SIZE) (bt_flash b) in
  if err =? ESP_OK then
    let '(err, bf) := bootloader_flash_write off (entry_bytes e) write_encrypted bf in
    (err, b <| bt_flash := bf |>)
  else (err, b <| bt_flash := bf |>).

(** [bootloader_common_get_partition_description]: the secure version of the
    application description, which follows the image and segment headers. *)
Definition get_secure_version (p : esp_partition_pos_t) (b : boot) : option Z * boot :=
  if offset p =? 0 then (None, b)
  else
    let app_desc_offset := 24 + 8 in
    let '(ok, bf) := bootloader_mmap (offset p) (app_desc_offset + 256) (bt_flash b) in
    if negb ok then (None, b <| bt_flash := bf |>)
    else
      let m := bt_mem b in
      let b := b <| bt_flash := bootloader_munmap bf |> in
      if negb (load32 m (offset p + app_desc_offset) =? ESP_APP_DESC_MAGIC_WORD) then (None, b)
      else (Some (load32 m (offset p + app_desc_offset + 4)), b).

Definition check_anti_rollback (p : esp_partition_pos_t) (b : boot) : bool * boot :=
  if CONFIG_BOOTLOADER_APP_ANTI_ROLLBACK then
    let '(v, b) := get_secure_version p b in
    (match v with Some v => esp_efuse_check_secure_version v (secure_bits b) | None => false end, b)
  else (true, b).

Definition update_anti_rollback (p : esp_partition_pos_t) (b : boot) : boot :=
  let '(v, b) := get_secure_version p b in
  match v with
  | Some v => b <| secure_bits := (esp_efuse_update_secure_version v (secure_bits b)).2 |>
  | None => b
  end.

(** The slot of a sequence number; a remainder by zero is undefined. *)
Definition ota_slot (bs : bootloader_state_t) (seq : Z) : outcome Z :=
  if app_count bs =? 0 then Fault else Ok (u32 (seq - 1) mod app_count bs).

(** [&bs->ota[slot]]. *)
Definition ota_nth (bs : bootloader_state_t) (i : Z) : outcome esp_partition_pos_t :=
  match ota bs !! Z.to_nat i with Some p => Ok p | None => Fault end.

Definition sec_ver_valid (bs : bootloader_state_t) (e : esp_ota_select_entry_t) (b : boot) : outcome (bool * boot) :=
  if bootloader_common_ota_select_valid e then
    slot ← ota_slot bs (ota_seq e);
    p ← ota_nth bs slot;
    Ok (check_anti_rollback p b)
  else Ok (false, b).

Definition get_active_otadata_with_check_anti_rollback (bs : bootloader_state_t) (two : two_otadata) (b : boot)
    : outcome (Z * boot) :=
  '(v0, b) ← sec_ver_valid bs two.1 b;
  '(v1, b) ← sec_ver_valid bs two.2 b;
  Ok (bootloader_common_select_otadata two (v0, v1) true, b).

(** The rollback step: an entry still pending was not confirmed. *)
Definition abort_pending (pos : esp_partition_pos_t) (i : Z) (two : two_otadata) (b : boot) : two_otadata * boot :=
  if ota_state (otadata_nth two i) =? ESP_OTA_IMG_PENDING_VERIFY then
    let e := (otadata_nth two i) <| ota_state := ESP_OTA_IMG_ABORTED |> in
    (otadata_set two i e,
     (write_otadata e (u32 (offset pos + FLASH_SECTOR_SIZE * i)) esp_flash_encryption_enabled b).2)
  else (two, b).

(** Never written, or with a wrong checksum. *)
Definition entry_initial (e : esp_ota_select_entry_t) : bool :=
  (ota_seq e =? UINT32_MAX) || negb (crc e =? bootloader_common_ota_select_crc e).

(** The branch of [bootloader_utility_get_selected_boot_partition] that follows
    an active entry. *)
Definition boot_from_active (bs : bootloader_state_t) (active : Z) (two : two_otadata) (b : boot) : outcome (Z * boot) :=
  if negb (active =? -1) then
    let e := otadata_nth two active in
    boot_index ← ota_slot bs (ota_seq e);
    let '(e, b) :=
      if CONFIG_BOOTLOADER_APP_ROLLBACK_ENABLE && (ota_state e =? ESP_OTA_IMG_NEW) then
        let e := e <| ota_state := ESP_OTA_IMG_PENDING_VERIFY |> in
        (e, (write_otadata e (u32 (offset (ota_info bs) + FLASH_SECTOR_SIZE * active)) esp_flash_encryption_enabled b).2)
      else (e, b) in
    if CONFIG_BOOTLOADER_APP_ANTI_ROLLBACK && (ota_state e =? ESP_OTA_IMG_VALID) then
      p ← ota_nth bs boot_index;
      Ok (boot_index, update_anti_rollback p b)
    else Ok (boot_index, b)
  else Ok (FACTORY_INDEX, b).

Definition bootloader_utility_get_selected_boot_partition (bs : bootloader_state_t) (b : boot) : outcome (Z * boot) :=
  if offset (ota_info bs) =? 0 then Ok (FACTORY_INDEX, b)
  else
    let '(err, two, b) := read_otadata (ota_info bs) b in
    match two with
    | None => Ok (INVALID_INDEX, b)
    | Some two =>
        let b := b <| ota_has_initial_contents := false |> in
        let '(two, b) :=
          if CONFIG_BOOTLOADER_APP_ROLLBACK_ENABLE then
            let '(two, b) := abort_pending (ota_info bs) 0 two b in
            abort_pending (ota_info bs) 1 two b
          else (two, b) in
        if negb CONFIG_BOOTLOADER_APP_ANTI_ROLLBACK then
          if (bootloader_common_ota_select_invalid two.1 && bootloader_common_ota_select_invalid two.2)
             || (app_count bs =? 0) then
            if negb (offset (factory bs) =? 0) then Ok (FACTORY_INDEX, b)
            else if entry_initial two.1 && entry_initial two.2
            then Ok (0, b <| ota_has_initial_contents := true |>)
            else Ok (0, b)
          else boot_from_active bs (bootloader_common_get_active_otadata two) two b
        else
          if entry_initial two.1 && entry_initial two.2
          then Ok (FACTORY_INDEX, b <| ota_has_initial_contents := true |>)
          else
            '(active, b) ← get_active_otadata_with_check_anti_rollback bs two b;
            boot_from_active bs active two b
    end.

(** ** Starting an image *)

Definition try_load_partition (p : esp_partition_pos_t) (b : boot) : bool :=
  if pos_size p =? 0 then false else bootloader_load_image (bf_chip (bt_flash b)) p.

Definition set_actual_ota_seq (bs : bootloader_state_t) (index : Z) (b : boot) : outcome boot :=
  if (FACTORY_INDEX <? index) && ota_has_initial_contents b then
    let e := mkEntry (u32 (index + 1)) (replicate 20 0xFF) ESP_OTA_IMG_VALID UINT32_MAX in
    let e := e <| crc := bootloader_common_ota_select_crc e |> in
    let b := (write_otadata e (u32 (offset (ota_info bs) + FLASH_SECTOR_SIZE * 0)) esp_flash_encryption_enabled b).2 in
    if CONFIG_BOOTLOADER_APP_ANTI_ROLLBACK then
      p ← ota_nth bs index;
      Ok (update_anti_rollback p b)
    else Ok b
  else Ok b.

Inductive boot_result := Started (index : Z) | Reset_chip.

(** One turn of the two loops of [bootloader_utility_load_boot_image]: [Some] when
    the image is started. *)
Definition try_index (bs : bootloader_state_t) (index : Z) (b : boot) : outcome (option boot_result * boot) :=
  let part := index_to_partition bs index in
  if pos_size part =? 0 then Ok (None, b)
  else
    let '(ok, b) := check_anti_rollback part b in
    if ok && try_load_partition part b then
      b ← set_actual_ota_seq bs index b;
      Ok (if load_image_starts part then Some (Started index) else None, b)
    else Ok (None, b).

Fixpoint try_indexes (bs : bootloader_state_t) (idx : list Z) (b : boot) : outcome (option boot_result * boot) :=
  match idx with
  | [] => Ok (None, b)
  | i :: idx =>
      '(r, b) ← try_index bs i b;
      match r with
      | Some r => Ok (Some r, b)
      | None => try_indexes bs idx b
      end
  end.

(** [for (index = start; index >= FACTORY_INDEX; index--)] *)
Definition indexes_down (start : Z) : list Z := reverse (seqZ FACTORY_INDEX (start - FACTORY_INDEX + 1)).
(** [for (index = start + 1; index < bs->app_count; index++)]: a negative index is a
    large unsigned number. *)
Definition indexes_up (start count : Z) : list Z :=
  if start + 1 <? 0 then [] else seqZ (start + 1) (count - (start + 1)).

Definition bootloader_utility_load_boot_image (bs : bootloader_state_t) (start_index : Z) (b : boot)
    : outcome (boot_result * boot) :=
  if (start_index =? TEST_APP_INDEX) && negb (try_load_partition (test bs) b) then Ok (Reset_chip, b)
  else if (start_index =? TEST_APP_INDEX) && load_image_starts (test bs) then Ok (Started TEST_APP_INDEX, b)
  else
    '(r, b) ← try_indexes bs (indexes_down start_index) b;
    match r with
    | Some r => Ok (r, b)
    | None =>
        '(r, b) ← try_indexes bs (indexes_up start_index (app_count bs)) b;
        match r with
        | Some r => Ok (r, b)
        | None =>
            if try_load_partition (test bs) b && load_image_starts (test bs)
            then Ok (Started TEST_APP_INDEX, b)
            else Ok (Reset_chip, b)
        end
    end.
End bootloader.

(** ** The order in which images are tried *)
Section order.
Context {env : PartitionEnv} {rom : BootRom} {otac : OtaConfig} {img : ImageLoader}.

Lemma get_secure_version_state p b : bf_mapped (bt_flash b) = false -> (get_secure_version p b).2 = b.
Proof.
  intros Hm. unfold get_secure_version, bootloader_mmap, bootloader_munmap.
  destruct b as [[c mp] ini sb]. cbn in Hm. subst mp. destruct (offset p =? 0); [done|]. cbn.
  destruct (cache_flash_mmu_set _ _); cbn; [|done]. by destruct (_ =? _).
Qed.
Lemma check_anti_rollback_state p b : bf_mapped (bt_flash b) = false -> (check_anti_rollback p b).2 = b.
Proof.
  intros Hm. unfold check_anti_rollback. destruct CONFIG_BOOTLOADER_APP_ANTI_ROLLBACK; [|done].
  pose proof (get_secure_version_state p b Hm). by destruct (get_secure_version p b).
Qed.

(** The image at an index may be started. *)
Definition bootable (bs : bootloader_state_t) (b : boot) (i : Z) : bool :=
  let part := index_to_partition bs i in
  negb (pos_size part =? 0) && (check_anti_rollback part b).1 && try_load_partition part b.

Lemma try_index_run bs i b :
  bf_mapped (bt_flash b) = false -> (forall p, load_image_starts p = true) ->
  try_index bs i b =
    if bootable bs b i then (b ← set_actual_ota_seq bs i b; Ok (Some (Started i), b)) else Ok (None, b).
Proof.
  intros Hm Hs. unfold try_index, bootable.
  destruct (pos_size _ =? 0); [done|]. cbn [negb andb].
  pose proof (check_anti_rollback_state (index_to_partition bs i) b Hm) as Hb.
  destruct (check_anti_rollback _ b) as [ok b']. cbn in *. subst b'. destruct (ok && _); [|done]. by rewrite Hs.
Qed.

Lemma try_indexes_run bs b idx :
  bf_mapped (bt_flash b) = false -> (forall p, load_image_starts p = true) ->
  try_indexes bs idx b =
    match List.find (bootable bs b) idx with
    | Some i => b ← set_actual_ota_seq bs i b; Ok (Some (Started i), b)
    | None => Ok (None, b)
    end.
Proof.
  intros Hm Hs. induction idx as [|i idx IH]; [done|]. cbn [try_indexes List.find]. rewrite try_index_run by done.
  destruct (bootable bs b i); [|done]. by destruct (set_actual_ota_seq bs i b).
Qed.

Lemma find_app {A} (P : A -> bool) l k :
  List.find P (l ++ k) = match List.find P l with Some x => Some x | None => List.find P k end.
Proof. induction l as [|x l IH]; simpl; [done|]. by destruct (P x). Qed.

(** The factory image and every slot, the wanted one first. *)
Definition boot_order (start count : Z) : list Z := indexes_down start ++ indexes_up start count.

(** The fallback order.  Unless the test image was asked for, the bootloader
    tries the wanted index, then the indexes below it down to the factory image,
    then those above it: every slot and the factory image once.  It starts the
    first one in that order that is present, not older than the secure version
    and loads; when there is none it starts the test image if that loads, and
    otherwise resets. *)
Theorem load_boot_image_order (bs : bootloader_state_t) (start : Z) (b : boot)
    (Hm : bf_mapped (bt_flash b) = false) (Hl : forall p, load_image_starts p = true)
    (Hs : FACTORY_INDEX <= start) (Hc : start < app_count bs \/ start = FACTORY_INDEX) (Hn : 0 <= app_count bs) :
  head (boot_order start (app_count bs)) = Some start /\
  Permutation (boot_order start (app_count bs)) (seqZ FACTORY_INDEX (app_count bs + 1)) /\
  bootloader_utility_load_boot_image bs start b =
    match List.find (bootable bs b) (boot_order start (app_count bs)) with
    | Some i => b ← set_actual_ota_seq bs i b; Ok (Started i, b)
    | None => if try_load_partition (test bs) b then Ok (Started TEST_APP_INDEX, b) else Ok (Reset_chip, b)
    end.
Proof.
  unfold boot_order, indexes_down, indexes_up, FACTORY_INDEX in *.
  destruct (Z.ltb_spec (start + 1) 0); [lia|]. split; [|split].
  - replace (start - -1 + 1) with (start + 2) by lia.
    rewrite <- (Z2Nat.id (start + 2)) by lia. replace (Z.to_nat (start + 2)) with (S (Z.to_nat (start + 1))) by lia.
    rewrite seqZ_S, reverse_snoc. simpl. f_equal. lia.
  - rewrite reverse_Permutation. replace (start + 1) with (-1 + (start - -1 + 1)) at 1 by lia.
    rewrite <- seqZ_app by lia. f_equiv. lia.
  - unfold bootloader_utility_load_boot_image. destruct (Z.eqb_spec start TEST_APP_INDEX) as [E|_];
      [unfold TEST_APP_INDEX in E; lia|]. cbn [andb].
    unfold indexes_down, indexes_up, FACTORY_INDEX. destruct (Z.ltb_spec (start + 1) 0); [lia|].
    rewrite !try_indexes_run by done. rewrite find_app.
    destruct (List.find _ (reverse _)) as [i|]; [by destruct (set_actual_ota_seq bs i b)|]. ostep. cbn beta iota.
    rewrite try_indexes_run by done.
    destruct (List.find _ (seqZ _ _)) as [i|]; [by destruct (set_actual_ota_seq bs i b)|]. ostep. cbn beta iota.
    rewrite Hl, andb_true_r. done.
Qed.
End order.

(** ** Selection entries in flash *)
Section entries.
Context {env : PartitionEnv} {rom : BootRom} {otac : OtaConfig}.
Context (Henc : esp_flash_encryption_enabled = false) (Hun : bootloader_flash_unlock = ESP_OK)
  (Hmmu : forall a n, cache_flash_mmu_set a n = true).

Definition boot_chip (b : boot) : esp_flash_t := bf_chip (bt_flash b).

(** [b'] is [b] with the entry [e] in the sector at [off]. *)
Record entry_written (off : Z) (e : esp_ota_select_entry_t) (b b' : boot) : Prop := {
  ew_faults : fl_faults (boot_chip b') = [];
  ew_mapped : bf_mapped (bt_flash b') = bf_mapped (bt_flash b);
  ew_bits : secure_bits b' = secure_bits b;
  ew_initial : ota_has_initial_contents b' = ota_has_initial_contents b;
  ew_entry : entry_at (bt_mem b') off = e;
  ew_other : forall a, a + 32 <= off \/ off + SPI_SEC_SIZE <= a -> entry_at (bt_mem b') a = entry_at (bt_mem b) a
}.

Lemma write_otadata_run e off b :
  entry_ok e -> 0 <= off -> off mod SPI_SEC_SIZE = 0 -> fl_faults (boot_chip b) = [] ->
  exists b', write_otadata e off false b = (ESP_OK, b') /\ entry_written off e b b'.
Proof.
  intros He Ho Hm Hf. unfold write_otadata, bootloader_flash_erase_sector, FLASH_SECTOR_SIZE.
  unfold SPI_SEC_SIZE in *. replace (off / 4096 * 4096) with off by (Z.to_euclidean_division_equations; lia).
  destruct (drv_erase off 4096 (bf_chip (bt_flash b))) as [err c1] eqn:E.
  apply drv_erase_spec in E as (S1 & O1 & E1 & F1); [|lia]. destruct (F1 Hf) as [-> Hf1]. cbn [Z.eqb ESP_OK].
  assert (Hl : lenZ (entry_bytes e) = 32) by (unfold lenZ; by rewrite (entry_bytes_length e He)).
  unfold bootloader_flash_write. rewrite Hl.
  replace (off mod 4) with 0 by (Z.to_euclidean_division_equations; lia). cbn [Z.eqb negb].
  rewrite Hun. cbn [Z.eqb negb ESP_OK]. cbn [bf_chip upd].
  destruct (drv_write off (entry_bytes e) _) as [err c2] eqn:E2.
  apply drv_write_spec in E2 as (S2 & O2 & E2 & F2); [|by apply entry_bytes_is_byte].
  destruct (F2 Hf1) as [-> Hf2]. eexists. split; [done|].
  assert (Em : forall b0 c, bf_chip (bt_flash b0) = c -> bt_mem b0 = fl_mem c) by (intros b0 c <-; unfold bt_mem, mapped; by rewrite Henc).
  split; cbn; try done.
  - erewrite Em by reflexivity. cbn. rewrite E2 by done. apply entry_at_bytes; [done|].
    rewrite <- (entry_bytes_length e He) at 1. apply read_program_erased; [by apply entry_bytes_is_byte|].
    intros a Ha. rewrite Hl in Ha. apply E1; [done|lia].
  - intros a Ha. rewrite (Em _ _ eq_refl), (Em b _ eq_refl). unfold SPI_SEC_SIZE in Ha. apply entry_at_ext. intros x Hx. cbn.
    rewrite Hl in O2. rewrite O2, O1 by lia. done.
Qed.

Lemma read_otadata_run p b :
  offset p <> 0 -> 2 * SPI_SEC_SIZE <= pos_size p <= MMU_SIZE -> bf_mapped (bt_flash b) = false ->
  read_otadata p b = (ESP_OK, Some (otadata_at (bt_mem b) (offset p)), b).
Proof.
  intros Ho Hs Hm. unfold read_otadata, bootloader_mmap. destruct (Z.eqb_spec (offset p) 0); [done|].
  destruct (Z.ltb_spec (pos_size p) (2 * SPI_SEC_SIZE)); [lia|]. rewrite Hm.
  destruct (Z.ltb_spec MMU_SIZE (pos_size p)); [lia|]. rewrite Hmmu. cbn [negb].
  destruct b as [[c mp] ini sb]. cbn in *. by subst mp.
Qed.

(** The state of an entry does not enter its checksum. *)
Definition with_state (st : Z) (e : esp_ota_select_entry_t) : esp_ota_select_entry_t := e <| ota_state := st |>.

Lemma select_valid_spec e :
  bootloader_common_ota_select_valid e = true <->
  ota_seq e <> UINT32_MAX /\ ota_state e <> ESP_OTA_IMG_INVALID /\ ota_state e <> ESP_OTA_IMG_ABORTED /\
  crc e = bootloader_common_ota_select_crc e.
Proof.
  unfold bootloader_common_ota_select_valid, bootloader_common_ota_select_invalid.
  rewrite andb_true_iff, negb_true_iff, !orb_false_iff, !Z.eqb_neq, Z.eqb_eq. tauto.
Qed.

Lemma valid_with_state st e :
  bootloader_common_ota_select_valid e = true -> st <> ESP_OTA_IMG_INVALID -> st <> ESP_OTA_IMG_ABORTED ->
  bootloader_common_ota_select_valid (with_state st e) = true.
Proof. rewrite !select_valid_spec. intros (H1 & _ & _ & H2) H3 H4. done. Qed.
Lemma aborted_not_valid e : bootloader_common_ota_select_valid (with_state ESP_OTA_IMG_ABORTED e) = false.
Proof. apply not_true_iff_false. rewrite select_valid_spec. intros (_ & _ & H & _). by apply H. Qed.

Lemma entry_ok_with_state st e : is_u32 st -> entry_ok e -> entry_ok (with_state st e).
Proof. intros Hst (?&?&?&?&?). by split_and!. Qed.

(** The copy with the larger sequence number is active. *)
Lemma active_newer two i :
  i = 0 \/ i = 1 -> bootloader_common_ota_select_valid (otadata_nth two i) = true ->
  entry_ok two.1 -> entry_ok two.2 ->
  bootloader_common_ota_select_valid (otadata_nth two (1 - i)) = false \/
    ota_seq (otadata_nth two (1 - i)) < ota_seq (otadata_nth two i) \/
    (i = 0 /\ ota_seq (otadata_nth two (1 - i)) = ota_seq (otadata_nth two i)) ->
  bootloader_common_get_active_otadata two = i.
Proof.
  intros Hi Hv (Q1 & _) (Q2 & _) Ho. unfold bootloader_common_get_active_otadata, bootloader_common_select_otadata, both_valid.
  rewrite u32_s32 by (unfold is_u32 in *; lia).
  unfold otadata_nth in *. destruct Hi as [-> | ->]; [change (1 - 0) with 1 in Ho|change (1 - 1) with 0 in Ho]; cbn in Hv, Ho |- *; rewrite Hv; destruct Ho as [Ho|[Ho|[Hi Ho]]]; try rewrite Ho; cbn [andb]; try done;
    match goal with |- context [bootloader_common_ota_select_valid ?x] => destruct (bootloader_common_ota_select_valid x) end;
    cbn [andb]; try done; case_cmp; lia.
Qed.
End entries.

(** ** Selection with rollback *)
Section selection.
Context {env : PartitionEnv} {rom : BootRom} {otac : OtaConfig}.
Context (Henc : esp_flash_encryption_enabled = false) (Hun : bootloader_flash_unlock = ESP_OK)
  (Hmmu : forall a n, cache_flash_mmu_set a n = true)
  (Hanti : CONFIG_BOOTLOADER_APP_ANTI_ROLLBACK = false).

(** The OTA data partition is usable and the flash does not fail. *)
Record ota_ready (bs : bootloader_state_t) (b : boot) : Prop := {
  or_off : 0 < offset (ota_info bs) /\ offset (ota_info bs) mod SPI_SEC_SIZE = 0;
  or_end : offset (ota_info bs) + 2 * SPI_SEC_SIZE < 2 ^ 32;
  or_size : 2 * SPI_SEC_SIZE <= pos_size (ota_info bs) <= MMU_SIZE;
  or_mapped : bf_mapped (bt_flash b) = false;
  or_faults : fl_faults (boot_chip b) = []
}.

(** The entries in flash. *)
Definition ota_entries (bs : bootloader_state_t) (b : boot) : two_otadata := otadata_at (bt_mem b) (offset (ota_info bs)).

(** What a boot does to an entry, and to the one it boots from. *)
Definition aborted (e : esp_ota_select_entry_t) : esp_ota_select_entry_t :=
  if CONFIG_BOOTLOADER_APP_ROLLBACK_ENABLE && (ota_state e =? ESP_OTA_IMG_PENDING_VERIFY)
  then with_state ESP_OTA_IMG_ABORTED e else e.
Definition promoted (e : esp_ota_select_entry_t) : esp_ota_select_entry_t :=
  if CONFIG_BOOTLOADER_APP_ROLLBACK_ENABLE && (ota_state e =? ESP_OTA_IMG_NEW)
  then with_state ESP_OTA_IMG_PENDING_VERIFY e else e.

Lemma otadata_set_nth two i : i = 0 \/ i = 1 -> otadata_set two i (otadata_nth two i) = two.
Proof. destruct two. by intros [-> | ->]. Qed.

(** Writing an entry to sector [i]. *)
Lemma write_sector bs b i e :
  ota_ready bs b -> i = 0 \/ i = 1 -> entry_ok e ->
  exists b', write_otadata e (u32 (offset (ota_info bs) + FLASH_SECTOR_SIZE * i)) esp_flash_encryption_enabled b = (ESP_OK, b') /\
    ota_ready bs b' /\ ota_entries bs b' = otadata_set (ota_entries bs b) i e /\
    secure_bits b' = secure_bits b /\ ota_has_initial_contents b' = ota_has_initial_contents b.
Proof.
  intros [[Ho Hm] He Hs Hmp Hf] Hi Hok. rewrite Henc. unfold FLASH_SECTOR_SIZE, SPI_SEC_SIZE in *.
  rewrite u32_small by (unfold is_u32; lia).
  destruct (write_otadata_run Henc Hun e (offset (ota_info bs) + 4096 * i) b Hok) as (b' & E & W);
    [lia|unfold SPI_SEC_SIZE; Z.to_euclidean_division_equations; lia|done|].
  destruct W as [W1 W2 W3 W4 W5 W6]. exists b'. split; [done|]. split; [split; unfold SPI_SEC_SIZE; congruence || done|].
  split; [|done]. unfold ota_entries, otadata_at, otadata_set, SPI_FLASH_SEC_SIZE, SPI_SEC_SIZE in *.
  destruct Hi as [-> | ->]; cbn [Z.eqb fst snd].
  - rewrite Z.mul_0_r, Z.add_0_r in *. rewrite W5. f_equal. apply W6. lia.
  - rewrite Z.mul_1_r in *. rewrite W5. f_equal. apply W6. lia.
Qed.

Lemma entry_of_ok bs b i : entry_ok (otadata_nth (ota_entries bs b) i).
Proof. unfold otadata_nth. destruct (i =? 0); apply entry_at_ok. Qed.

Lemma abort_pending_run bs b i :
  CONFIG_BOOTLOADER_APP_ROLLBACK_ENABLE = true -> ota_ready bs b -> i = 0 \/ i = 1 ->
  exists b', abort_pending (ota_info bs) i (ota_entries bs b) b = (ota_entries bs b', b') /\ ota_ready bs b' /\
    ota_entries bs b' = otadata_set (ota_entries bs b) i (aborted (otadata_nth (ota_entries bs b) i)) /\
    secure_bits b' = secure_bits b /\ ota_has_initial_contents b' = ota_has_initial_contents b.
Proof.
  intros Hr R Hi. unfold abort_pending, aborted. rewrite Hr. cbn [andb].
  destruct (ota_state _ =? ESP_OTA_IMG_PENDING_VERIFY).
  - fold (with_state ESP_OTA_IMG_ABORTED (otadata_nth (ota_entries bs b) i)).
    destruct (write_sector bs b i (with_state ESP_OTA_IMG_ABORTED (otadata_nth (ota_entries bs b) i)) R Hi) as (b' & E & R' & En & F).
    { apply entry_ok_with_state, entry_of_ok. unfold is_u32, ESP_OTA_IMG_ABORTED. lia. }
    exists b'. rewrite E. by rewrite <- En.
  - exists b. rewrite otadata_set_nth by done. done.
Qed.

Lemma boot_from_active_run bs b i :
  ota_ready bs b -> i = 0 \/ i = 1 -> 0 < app_count bs ->
  exists b', boot_from_active bs i (ota_entries bs b) b =
      Ok (u32 (ota_seq (otadata_nth (ota_entries bs b) i) - 1) mod app_count bs, b') /\ ota_ready bs b' /\
    ota_entries bs b' = otadata_set (ota_entries bs b) i (promoted (otadata_nth (ota_entries bs b) i)).
Proof.
  intros R Hi Hc. unfold boot_from_active, promoted. rewrite Hanti.
  replace (i =? -1) with false by (symmetry; apply Z.eqb_neq; lia). cbn [negb].
  unfold ota_slot. destruct (Z.eqb_spec (app_count bs) 0); [lia|]. ostep.
  destruct (CONFIG_BOOTLOADER_APP_ROLLBACK_ENABLE && _).
  - fold (with_state ESP_OTA_IMG_PENDING_VERIFY (otadata_nth (ota_entries bs b) i)).
    destruct (write_sector bs b i (with_state ESP_OTA_IMG_PENDING_VERIFY (otadata_nth (ota_entries bs b) i)) R Hi) as (b' & E & R' & En & F).
    { apply entry_ok_with_state, entry_of_ok. unfold is_u32, ESP_OTA_IMG_PENDING_VERIFY. lia. }
    exists b'. rewrite E. done.
  - exists b. rewrite otadata_set_nth by done. done.
Qed.

(** A boot: the entries left pending are aborted; when a copy is then the newest
    valid one its slot is booted and it goes from new to pending. *)
Lemma select_run bs b i :
  ota_ready bs b -> 0 < app_count bs -> i = 0 \/ i = 1 ->
  let e := aborted (otadata_nth (ota_entries bs b) i) in
  let o := aborted (otadata_nth (ota_entries bs b) (1 - i)) in
  bootloader_common_ota_select_valid e = true ->
  bootloader_common_ota_select_valid o = false \/ ota_seq o < ota_seq e \/ (i = 0 /\ ota_seq o = ota_seq e) ->
  exists b', bootloader_utility_get_selected_boot_partition bs b = Ok (u32 (ota_seq e - 1) mod app_count bs, b') /\
    ota_ready bs b' /\ otadata_nth (ota_entries bs b') i = promoted e /\ otadata_nth (ota_entries bs b') (1 - i) = o.
Proof.
  intros R Hc Hi e o Hv Ho. unfold bootloader_utility_get_selected_boot_partition. rewrite Hanti.
  pose proof R as [[Hoff _] _ Hs Hmp _]. destruct (Z.eqb_spec (offset (ota_info bs)) 0); [lia|].
  rewrite (read_otadata_run Hmmu (ota_info bs) b) by (done || lia). fold (ota_entries bs b).
  set (b0 := b <| ota_has_initial_contents := false |>). change (ota_entries bs b) with (ota_entries bs b0) in *.
  assert (R0 : ota_ready bs b0) by (destruct R; by split).
  (* the entries after the rollback step *)
  assert (A : exists b1, (if CONFIG_BOOTLOADER_APP_ROLLBACK_ENABLE then
      let '(two, b) := abort_pending (ota_info bs) 0 (ota_entries bs b0) b0 in abort_pending (ota_info bs) 1 two b
      else (ota_entries bs b0, b0)) = (ota_entries bs b1, b1) /\ ota_ready bs b1 /\
      otadata_nth (ota_entries bs b1) i = e /\ otadata_nth (ota_entries bs b1) (1 - i) = o).
  { subst e o. destruct CONFIG_BOOTLOADER_APP_ROLLBACK_ENABLE eqn:Er.
    - destruct (abort_pending_run bs b0 0 Er R0 ltac:(by left)) as (b1 & E1 & R1 & En1 & _). rewrite E1.
      destruct (abort_pending_run bs b1 1 Er R1 ltac:(by right)) as (b2 & E2 & R2 & En2 & _).
      exists b2. split; [done|]. split; [done|]. rewrite En2, En1. by destruct Hi as [-> | ->].
    - exists b0. split; [done|]. split; [done|]. unfold aborted. rewrite Er. done. }
  destruct A as (b1 & -> & R1 & Ee & Eo). cbv beta iota.
  assert (Hact : bootloader_common_get_active_otadata (ota_entries bs b1) = i).
  { apply active_newer; [done|by rewrite Ee|apply entry_at_ok|apply entry_at_ok|by rewrite Ee, Eo]. }
  assert (Hinv : bootloader_common_ota_select_invalid (otadata_nth (ota_entries bs b1) i) = false).
  { rewrite Ee. unfold bootloader_common_ota_select_valid in Hv. by apply andb_prop in Hv as [?%negb_true_iff _]. }
  replace (bootloader_common_ota_select_invalid (ota_entries bs b1).1 && bootloader_common_ota_select_invalid (ota_entries bs b1).2)
    with false by (unfold otadata_nth in Hinv; destruct Hi as [-> | ->]; cbn [Z.eqb] in Hinv; rewrite Hinv, ?andb_false_r; done).
  destruct (Z.eqb_spec (app_count bs) 0); [lia|]. cbn [orb negb]. rewrite Hact.
  destruct (boot_from_active_run bs b1 i R1 Hi Hc) as (b2 & E2 & R2 & En2). rewrite Ee in E2, En2.
  exists b2. split; [done|]. split; [done|]. rewrite En2. by destruct Hi as [-> | ->].
Qed.
End selection.

(** ** Rollback of an unconfirmed image *)
Section rollback.
Context {env : PartitionEnv} {rom : BootRom} {otac : OtaConfig}.

(** C22. An unconfirmed image is rolled back.  With rollback enabled, two valid
    entries in flash and the newer one [i] just written (state new): the first
    boot starts the slot of the newer entry; if the application does not confirm
    it, the next boot marks it aborted and starts the slot of the older entry,
    whatever else the flash holds. *)
Theorem unconfirmed_image_rolls_back (bs : bootloader_state_t) (b : boot) (i : Z)
    (Henc : esp_flash_encryption_enabled = false) (Hun : bootloader_flash_unlock = ESP_OK)
    (Hmmu : forall a n, cache_flash_mmu_set a n = true)
    (Hanti : CONFIG_BOOTLOADER_APP_ANTI_ROLLBACK = false) (Hroll : CONFIG_BOOTLOADER_APP_ROLLBACK_ENABLE = true)
    (R : ota_ready bs b) (Hc : 0 < app_count bs) (Hi : i = 0 \/ i = 1)
    (Hnew : bootloader_common_ota_select_valid (otadata_nth (ota_entries bs b) i) = true)
    (Hold : bootloader_common_ota_select_valid (otadata_nth (ota_entries bs b) (1 - i)) = true)
    (Hst : ota_state (otadata_nth (ota_entries bs b) i) = ESP_OTA_IMG_NEW)
    (Hst' : ota_state (otadata_nth (ota_entries bs b) (1 - i)) <> ESP_OTA_IMG_PENDING_VERIFY)
    (Hseq : ota_seq (otadata_nth (ota_entries bs b) (1 - i)) < ota_seq (otadata_nth (ota_entries bs b) i)) :
  exists b1 b2,
    bootloader_utility_get_selected_boot_partition bs b =
      Ok (u32 (ota_seq (otadata_nth (ota_entries bs b) i) - 1) mod app_count bs, b1) /\
    bootloader_utility_get_selected_boot_partition bs b1 =
      Ok (u32 (ota_seq (otadata_nth (ota_entries bs b) (1 - i)) - 1) mod app_count bs, b2) /\
    ota_state (otadata_nth (ota_entries bs b2) i) = ESP_OTA_IMG_ABORTED.
Proof.
  set (e := otadata_nth (ota_entries bs b) i) in *. set (o := otadata_nth (ota_entries bs b) (1 - i)) in *.
  assert (Ee : aborted e = e) by (unfold aborted; rewrite Hst, andb_false_r; done).
  assert (Eo : aborted o = o) by (unfold aborted; apply Z.eqb_neq in Hst'; rewrite Hst', andb_false_r; done).
  destruct (select_run Henc Hun Hmmu Hanti bs b i R Hc Hi) as (b1 & E1 & R1 & En1 & Eo1).
  { fold e. by rewrite Ee. } { fold e o. rewrite Ee, Eo. by right; left. } fold e o in E1, En1, Eo1. rewrite Ee in E1, En1. rewrite Eo in Eo1.
  unfold promoted in En1. rewrite Hroll, Hst in En1. cbn [andb Z.eqb ESP_OTA_IMG_NEW] in En1.
  assert (Ea : aborted (otadata_nth (ota_entries bs b1) i) = with_state ESP_OTA_IMG_ABORTED e)
    by (rewrite En1; unfold aborted; rewrite Hroll; done).
  destruct (select_run Henc Hun Hmmu Hanti bs b1 (1 - i) R1 Hc ltac:(lia)) as (b2 & E2 & _ & _ & Eo2).
  { by rewrite Eo1, Eo. }
  { left. replace (1 - (1 - i)) with i by lia. rewrite Ea. apply aborted_not_valid. }
  replace (1 - (1 - i)) with i in Eo2 by lia. rewrite Eo1, Eo in E2.
  exists b1, b2. split; [done|]. split; [done|]. by rewrite Eo2, Ea.
Qed.
End rollback.

(** ** An example: a device with a factory image and two slots *)
Definition demo_otac : OtaConfig :=
  {| crc32_le := fun c l => u32 (fold_left (fun a b => a * 31 + b) l c);
     CONFIG_BOOTLOADER_APP_ROLLBACK_ENABLE := true; CONFIG_BOOTLOADER_APP_ANTI_ROLLBACK := false;
     CONFIG_BOOTLOADER_APP_SEC_VER_SIZE_EFUSE_FIELD := 32; efuse_coding_scheme_none := true |}.
(** Only the image of slot 1 loads. *)
Definition demo_loader : ImageLoader :=
  {| bootloader_load_image := fun _ p => offset p =? 0x20000; load_image_starts := fun _ => true |}.

Definition demo_select (seq state : Z) : esp_ota_select_entry_t :=
  let e := mkEntry seq (replicate 20 0xFF) state 0 in
  e <| crc := @bootloader_common_ota_select_crc demo_otac e |>.
(** The OTA data at [0xd000]: slot 0 confirmed, slot 1 just written. *)
Definition demo_otadata : mem :=
  write_bytes (write_bytes ∅ 0xd000 (entry_bytes (demo_select 1 ESP_OTA_IMG_VALID)))
    0xe000 (entry_bytes (demo_select 2 ESP_OTA_IMG_NEW)).
Definition demo_bs : bootloader_state_t :=
  mkBootState (mkPos 0xd000 0x2000) (mkPos 0 0) (mkPos 0 0)
    (mkPos 0x10000 0x10000 :: mkPos 0x20000 0x10000 :: replicate 14 no_partition) 2.
Definition demo_boot : boot := mkBoot (mkBootFlash (demo_flash demo_otadata) false) false 0.

Lemma load_boot_image_order_witness :
  head (boot_order 0 2) = Some 0 /\
  Permutation (boot_order 0 2) (seqZ FACTORY_INDEX (2 + 1)) /\
  @bootloader_utility_load_boot_image (demo_env true) demo_rom demo_otac demo_loader demo_bs 0 demo_boot =
    match List.find (@bootable (demo_env true) demo_rom demo_otac demo_loader demo_bs demo_boot) (boot_order 0 2) with
    | Some i => b ← @set_actual_ota_seq (demo_env true) demo_rom demo_otac demo_bs i demo_boot; Ok (Started i, b)
    | None => if @try_load_partition demo_loader (test demo_bs) demo_boot
              then Ok (Started TEST_APP_INDEX, demo_boot) else Ok (Reset_chip, demo_boot)
    end.
Proof.
  apply (@load_boot_image_order (demo_env true) demo_rom demo_otac demo_loader demo_bs 0 demo_boot);
    [reflexivity|reflexivity|unfold FACTORY_INDEX; lia|cbn; lia|cbn; lia].
Defined.

Lemma demo_ready : @ota_ready demo_bs demo_boot.
Proof. split; cbn; unfold SPI_SEC_SIZE, MMU_SIZE; try done; lia. Qed.

Lemma unconfirmed_image_rolls_back_witness :
  exists b1 b2,
    @bootloader_utility_get_selected_boot_partition (demo_env true) demo_rom demo_otac demo_bs demo_boot = Ok (1, b1) /\
    @bootloader_utility_get_selected_boot_partition (demo_env true) demo_rom demo_otac demo_bs b1 = Ok (0, b2) /\
    ota_state (otadata_nth (@ota_entries (demo_env true) demo_bs b2) 1) = ESP_OTA_IMG_ABORTED.
Proof.
  apply (@unconfirmed_image_rolls_back (demo_env true) demo_rom demo_otac demo_bs demo_boot 1);
    [reflexivity|reflexivity|reflexivity|reflexivity|reflexivity|apply demo_ready|reflexivity|by right|
     vm_compute; reflexivity|vm_compute; reflexivity|vm_compute; reflexivity|vm_compute; discriminate|vm_compute; reflexivity].
Defined.
