(* ===== verification/OtaOps.v ===== *)
(** * OTA updates from the application ([components/app_update/esp_ota_ops.c])

    Writing a new image, choosing the partition to boot next, and confirming or
    rolling back the running image.  The module works on the partitions of
    [Partition] and on the same OTA data the bootloader reads. *)
From S2P Require Import Prelude Mem EspFlash Partition BootFlash OtaData Bootloader.

Definition ESP_ERR_OTA_PARTITION_CONFLICT := 0x1501.
Definition ESP_ERR_OTA_VALIDATE_FAILED := 0x1503.
Definition ESP_ERR_OTA_SMALL_SEC_VER := 0x1504.
Definition ESP_ERR_OTA_ROLLBACK_FAILED := 0x1505.
Definition ESP_ERR_OTA_ROLLBACK_INVALID_STATE := 0x1506.
Definition OTA_SIZE_UNKNOWN := 0xffffffff.
Definition ESP_IMAGE_HEADER_MAGIC := 0xE9.

Definition ESP_PARTITION_TYPE_APP := 0x00.
Definition ESP_PARTITION_TYPE_DATA := 0x01.
Definition ESP_PARTITION_SUBTYPE_APP_FACTORY := 0x00.
Definition ESP_PARTITION_SUBTYPE_APP_OTA_MIN := 0x10.
Definition ESP_PARTITION_SUBTYPE_APP_OTA_0 := 0x10.
Definition ESP_PARTITION_SUBTYPE_APP_OTA_MAX := 0x20.
Definition ESP_PARTITION_SUBTYPE_APP_TEST := 0x20.
Definition ESP_PARTITION_SUBTYPE_DATA_OTA := 0x00.

Definition SUB_TYPE_ID (i : Z) : Z := Z.land i 0x0F.

Record ota_ops_entry_t := mkOps {
  handle : Z;
  part : partition_ptr;
  erased_size : Z;
  wrote_size : Z;
  partial_bytes : Z;
  partial_data : list Z
}.
#[export] Instance rebuild_ops : Rebuild ota_ops_entry_t := fun r =>
  mkOps (handle r) (part r) (erased_size r) (wrote_size r) (partial_bytes r) (partial_data r).

Record ota_st := mkOta {
  parts : part_state;
  s_ota_ops_entries : list ota_ops_entry_t;
  s_ota_ops_last_handle : Z;
  curr_partition : option partition_ptr;
  ota_secure_bits : Z
}.
#[export] Instance rebuild_ota : Rebuild ota_st := fun r =>
  mkOta (parts r) (s_ota_ops_entries r) (s_ota_ops_last_handle r) (curr_partition r) (ota_secure_bits r).

(** What the application relies on: the verifier of images, the flash address its
    code runs from, whether [calloc] has memory for an update, and the secure
    version of its own description. *)
Class AppEnv := {
  esp_image_verify : part_state -> esp_partition_pos_t -> bool;
  running_phys_offs : Z;
  ota_calloc_ok : bool;
  read_tries : list (Z * bool);
  own_secure_version : Z
}.

Section ota.
Context {cfg : FlashConfig} {env : PartitionEnv} {otac : OtaConfig} {app : AppEnv}.

(** Run a partition call in the OTA state. *)
Definition with_parts {A} (f : part_state -> outcome (A * part_state)) (st : ota_st) : outcome (A * ota_st) :=
  '(r, p) ← f (parts st); Ok (r, st <| parts := p |>).

Definition find_first (ty sub : Z) : ota_st -> outcome (option partition_ptr * ota_st) :=
  with_parts (esp_partition_find_first ty sub None).

Definition is_ota_partition (p : esp_partition_t) : bool :=
  (type p =? ESP_PARTITION_TYPE_APP) && (ESP_PARTITION_SUBTYPE_APP_OTA_0 <=? subtype p)
  && (subtype p <? ESP_PARTITION_SUBTYPE_APP_OTA_MAX).

(** [read_otadata]: the OTA data partition and its two entries. *)
Definition ota_read_otadata (st : ota_st) : outcome (option (partition_ptr * two_otadata) * ota_st) :=
  '(p, st) ← find_first ESP_PARTITION_TYPE_DATA ESP_PARTITION_SUBTYPE_DATA_OTA st;
  match p with
  | None => Ok (None, st)
  | Some p =>
      '(err, _) ← esp_partition_mmap p.2 0 (size p.2) (parts st);
      if negb (err =? ESP_OK) then Ok (None, st)
      else
        c ← default_chip (parts st);
        Ok (Some (p, otadata_at (mapped c) (address p.2)), st)
  end.

Definition image_validate (p : esp_partition_t) (st : ota_st) : bool :=
  esp_image_verify (parts st) (mkPos (address p) (size p)).

Definition set_new_state_otadata : Z :=
  if CONFIG_BOOTLOADER_APP_ROLLBACK_ENABLE then ESP_OTA_IMG_NEW else ESP_OTA_IMG_UNDEFINED.

(** ** The boot selection *)

Definition rewrite_ota_seq (two : two_otadata) (seq sec_id : Z) (p : esp_partition_t) (st : ota_st) : outcome (Z * ota_st) :=
  if 1 <? sec_id then Ok (ESP_ERR_INVALID_ARG, st)
  else
    let e := (otadata_nth two sec_id) <| ota_seq := seq |> in
    let e := e <| crc := bootloader_common_ota_select_crc e |> in
    '(ret, st) ← with_parts (esp_partition_erase_range p (sec_id * SPI_FLASH_SEC_SIZE) SPI_FLASH_SEC_SIZE) st;
    if negb (ret =? ESP_OK) then Ok (ret, st)
    else with_parts (esp_partition_write p (SPI_FLASH_SEC_SIZE * sec_id) (entry_bytes e)) st.

(** The loop of [get_ota_partition_count]; its assertion bounds it. *)
Fixpoint count_loop (fuel : nat) (ota_app_count : Z) (st : ota_st) : outcome (Z * ota_st) :=
  match fuel with
  | O => OutOfFuel
  | S fuel =>
      '(p, st) ← find_first ESP_PARTITION_TYPE_APP (ESP_PARTITION_SUBTYPE_APP_OTA_MIN + ota_app_count) st;
      match p with
      | None => Ok (u8 ota_app_count, st)
      | Some _ => cassert (ota_app_count <? 16);; count_loop fuel (ota_app_count + 1) st
      end
  end.
Definition get_ota_partition_count : ota_st -> outcome (Z * ota_st) := count_loop 18 0.

(** [while (seq > base + i * ota_app_count) i++], in unsigned arithmetic. *)
Fixpoint next_seq (fuel : nat) (seq base count i : Z) : outcome Z :=
  match fuel with
  | O => OutOfFuel
  | S fuel =>
      if u32 (base + u32 (i * count)) <? seq then next_seq fuel seq base count (u32 (i + 1))
      else Ok (u32 (base + u32 (i * count)))
  end.

Definition esp_rewrite_ota_data (sub : Z) (st : ota_st) : outcome (Z * ota_st) :=
  '(r, st) ← ota_read_otadata st;
  match r with
  | None => Ok (ESP_ERR_NOT_FOUND, st)
  | Some (p, two) =>
      '(ota_app_count, st) ← get_ota_partition_count st;
      if ota_app_count <=? SUB_TYPE_ID sub then Ok (ESP_ERR_INVALID_ARG, st)
      else
        let active := bootloader_common_get_active_otadata two in
        if negb (active =? -1) then
          let seq := ota_seq (otadata_nth two active) in
          new_seq ← next_seq (S (Z.to_nat seq)) seq ((SUB_TYPE_ID sub + 1) mod ota_app_count) ota_app_count 0;
          let next := other_otadata active in
          let two := otadata_set two next ((otadata_nth two next) <| ota_state := set_new_state_otadata |>) in
          rewrite_ota_seq two new_seq next p.2 st
        else
          let two := otadata_set two 0 ((otadata_nth two 0) <| ota_state := set_new_state_otadata |>) in
          rewrite_ota_seq two (SUB_TYPE_ID sub + 1) 0 p.2 st
  end.

(** [esp_ota_get_partition_description]: the error and the secure version. *)
Definition esp_ota_get_partition_description (p : esp_partition_t) (st : ota_st) : outcome (Z * Z * ota_st) :=
  if negb (type p =? ESP_PARTITION_TYPE_APP) then Ok (ESP_ERR_NOT_SUPPORTED, 0, st)
  else
    '(err, desc, ps) ← esp_partition_read read_tries p (24 + 8) 256 (parts st);
    let st := st <| parts := ps |> in
    if negb (err =? ESP_OK) then Ok (err, 0, st)
    else
      let m := write_bytes ∅ 0 desc in
      if negb (load32 m 0 =? ESP_APP_DESC_MAGIC_WORD) then Ok (ESP_ERR_NOT_FOUND, 0, st)
      else Ok (ESP_OK, load32 m 4, st).

Definition esp_ota_set_boot_partition (p : esp_partition_t) (st : ota_st) : outcome (Z * ota_st) :=
  if negb (image_validate p st) then Ok (ESP_ERR_OTA_VALIDATE_FAILED, st)
  else if type p =? ESP_PARTITION_TYPE_APP then
    if subtype p =? ESP_PARTITION_SUBTYPE_APP_FACTORY then
      '(q, st) ← find_first ESP_PARTITION_TYPE_DATA ESP_PARTITION_SUBTYPE_DATA_OTA st;
      match q with
      | Some q => with_parts (esp_partition_erase_range q.2 0 (size q.2)) st
      | None => Ok (ESP_ERR_NOT_FOUND, st)
      end
    else if CONFIG_BOOTLOADER_APP_ANTI_ROLLBACK then
      '(err, v, st) ← esp_ota_get_partition_description p st;
      if negb (err =? ESP_OK) then Ok (err, st)
      else if negb (esp_efuse_check_secure_version v (ota_secure_bits st)) then
        '(err, st) ← with_parts (esp_partition_erase_range p 0 (size p)) st;
        Ok (if err =? ESP_OK then ESP_ERR_OTA_SMALL_SEC_VER else err, st)
      else esp_rewrite_ota_data (subtype p) st
    else esp_rewrite_ota_data (subtype p) st
  else Ok (ESP_ERR_INVALID_ARG, st).

(** The first of some subtypes of application partitions that is present. *)
Fixpoint first_present (subs : list Z) (st : ota_st) : outcome (option partition_ptr * ota_st) :=
  match subs with
  | [] => Ok (None, st)
  | s :: subs =>
      '(p, st) ← find_first ESP_PARTITION_TYPE_APP s st;
      match p with Some p => Ok (Some p, st) | None => first_present subs st end
  end.

(** Factory, then [OTA_MIN .. OTA_MAX), then the test application. *)
Definition find_default_boot_partition : ota_st -> outcome (option partition_ptr * ota_st) :=
  first_present ([ESP_PARTITION_SUBTYPE_APP_FACTORY] ++ seqZ ESP_PARTITION_SUBTYPE_APP_OTA_MIN 16 ++ [ESP_PARTITION_SUBTYPE_APP_TEST]).

Definition esp_ota_get_boot_partition (st : ota_st) : outcome (option partition_ptr * ota_st) :=
  '(r, st) ← ota_read_otadata st;
  match r with
  | None => Ok (None, st)
  | Some (_, two) =>
      '(count, st) ← get_ota_partition_count st;
      if (bootloader_common_ota_select_invalid two.1 && bootloader_common_ota_select_invalid two.2) || (count =? 0)
      then find_default_boot_partition st
      else
        let active := bootloader_common_get_active_otadata two in
        if negb (active =? -1) then
          let slot := u32 (ota_seq (otadata_nth two active) - 1) mod count in
          find_first ESP_PARTITION_TYPE_APP (ESP_PARTITION_SUBTYPE_APP_OTA_MIN + slot) st
        else find_default_boot_partition st
  end.

(** The iteration of [esp_ota_get_running_partition]. *)
Fixpoint find_running (fuel : nat) (it : option esp_partition_iterator) (ps : part_state) : outcome partition_ptr :=
  match it with
  | None => Abort
  | Some it =>
      match fuel, esp_partition_get it with
      | O, _ => OutOfFuel
      | _, None => Fault
      | S fuel, Some p =>
          if (address p.2 <=? running_phys_offs) && (running_phys_offs <? u32 (address p.2 + size p.2)) then Ok p
          else it ← esp_partition_next it ps; find_running fuel it ps
      end
  end.

Definition esp_ota_get_running_partition (st : ota_st) : outcome (partition_ptr * ota_st) :=
  match curr_partition st with
  | Some p => Ok (p, st)
  | None =>
      '(it, ps) ← esp_partition_find ESP_PARTITION_TYPE_APP ESP_PARTITION_SUBTYPE_ANY None (parts st);
      cassert (match it with Some _ => true | None => false end);;
      p ← find_running (S (length (s_partition_list ps))) it ps;
      Ok (p, st <| parts := ps |> <| curr_partition := Some p |>)
  end.

(** Pointers are compared. *)
Definition same_ptr (p q : partition_ptr) : bool := p.1 =? q.1.

(** The loop of [esp_ota_get_next_update_partition]. *)
Fixpoint next_update_loop (subs : list Z) (start_from : partition_ptr) (default_ota : option partition_ptr)
    (next_is_result : bool) (st : ota_st) : outcome (option partition_ptr * ota_st) :=
  match subs with
  | [] => Ok (default_ota, st)
  | t :: subs =>
      '(p, st) ← find_first ESP_PARTITION_TYPE_APP t st;
      match p with
      | None => next_update_loop subs start_from default_ota next_is_result st
      | Some p =>
          let default_ota := match default_ota with None => Some p | d => d end in
          if same_ptr p start_from then next_update_loop subs start_from default_ota true st
          else if next_is_result then Ok (Some p, st)
          else next_update_loop subs start_from default_ota next_is_result st
      end
  end.

Definition esp_ota_get_next_update_partition (start_from : option esp_partition_t) (st : ota_st)
    : outcome (option partition_ptr * ota_st) :=
  '(start, st) ←
    match start_from with
    | None => '(p, st) ← esp_ota_get_running_partition st; Ok (Some p, st)
    | Some p => with_parts (esp_partition_verify p) st
    end;
  match start with
  | None => Abort
  | Some start =>
      next_update_loop (seqZ ESP_PARTITION_SUBTYPE_APP_OTA_0 16) start None false st
  end.
End ota.

Section update.
Context {cfg : FlashConfig} {env : PartitionEnv} {otac : OtaConfig} {app : AppEnv}.

(** ** Confirmation and rollback *)

Definition esp_ota_check_rollback_is_possible (st : ota_st) : outcome (bool * ota_st) :=
  '(r, st) ← ota_read_otadata st;
  match r with
  | None => Ok (false, st)
  | Some (_, two) =>
      '(count, st) ← get_ota_partition_count st;
      if count =? 0 then Ok (false, st)
      else
        let valid := both_valid two in
        let active := bootloader_common_select_otadata two valid true in
        if active =? -1 then Ok (false, st)
        else
          let last := other_otadata active in
          let last_valid := if last =? 0 then valid.1 else valid.2 in
          '(factory_ok, st) ←
            (if negb CONFIG_BOOTLOADER_APP_ANTI_ROLLBACK && negb last_valid then
               '(p, st) ← find_first ESP_PARTITION_TYPE_APP ESP_PARTITION_SUBTYPE_APP_FACTORY st;
               Ok (match p with Some p => image_validate p.2 st | None => false end, st)
             else Ok (false, st));
          if factory_ok : bool then Ok (true, st)
          else if last_valid then
            let slot := u32 (ota_seq (otadata_nth two last) - 1) mod count in
            '(p, st) ← find_first ESP_PARTITION_TYPE_APP (ESP_PARTITION_SUBTYPE_APP_OTA_MIN + slot) st;
            match p with
            | None => Ok (false, st)
            | Some p =>
                if image_validate p.2 st then
                  if CONFIG_BOOTLOADER_APP_ANTI_ROLLBACK then
                    '(err, v, st) ← esp_ota_get_partition_description p.2 st;
                    Ok ((err =? ESP_OK) && esp_efuse_check_secure_version v (ota_secure_bits st), st)
                  else Ok (true, st)
                else Ok (false, st)
            end
          else Ok (false, st)
  end.

(** [None]: the chip restarts. *)
Definition esp_ota_current_ota_is_workable (valid : bool) (st : ota_st) : outcome (option Z * ota_st) :=
  '(r, st) ← ota_read_otadata st;
  match r with
  | None => Ok (Some ESP_ERR_NOT_FOUND, st)
  | Some (p, two) =>
      let active := bootloader_common_get_active_otadata two in
      '(count, st) ← (if negb (active =? -1) then get_ota_partition_count st else Ok (0, st));
      if negb (active =? -1) && negb (count =? 0) then
        let e := otadata_nth two active in
        if valid && negb (ota_state e =? ESP_OTA_IMG_VALID) then
          let two := otadata_set two active (e <| ota_state := ESP_OTA_IMG_VALID |>) in
          '(err, st) ← rewrite_ota_seq two (ota_seq e) active p.2 st;
          if CONFIG_BOOTLOADER_APP_ANTI_ROLLBACK && (err =? ESP_OK) then
            let '(err, bits) := esp_efuse_update_secure_version own_secure_version (ota_secure_bits st) in
            Ok (Some err, st <| ota_secure_bits := bits |>)
          else Ok (Some err, st)
        else if negb valid then
          '(possible, st) ← esp_ota_check_rollback_is_possible st;
          if negb possible then Ok (Some ESP_ERR_OTA_ROLLBACK_FAILED, st)
          else
            let two := otadata_set two active (e <| ota_state := ESP_OTA_IMG_INVALID |>) in
            '(err, st) ← rewrite_ota_seq two (ota_seq e) active p.2 st;
            if negb (err =? ESP_OK) then Ok (Some err, st) else Ok (None, st)
        else Ok (Some ESP_OK, st)
      else Ok (Some ESP_FAIL, st)
  end.

Definition esp_ota_mark_app_valid_cancel_rollback := esp_ota_current_ota_is_workable true.
Definition esp_ota_mark_app_invalid_rollback_and_reboot := esp_ota_current_ota_is_workable false.

Definition check_invalid_otadata (s : esp_ota_select_entry_t) : bool :=
  negb (ota_seq s =? UINT32_MAX) && (crc s =? bootloader_common_ota_select_crc s)
  && ((ota_state s =? ESP_OTA_IMG_INVALID) || (ota_state s =? ESP_OTA_IMG_ABORTED)).

Definition get_last_invalid_otadata (two : two_otadata) : Z :=
  bootloader_common_select_otadata two (check_invalid_otadata two.1, check_invalid_otadata two.2) false.

Definition esp_ota_get_last_invalid_partition (st : ota_st) : outcome (option partition_ptr * ota_st) :=
  '(r, st) ← ota_read_otadata st;
  match r with
  | None => Ok (None, st)
  | Some (_, two) =>
      let invalid := get_last_invalid_otadata two in
      '(count, st) ← get_ota_partition_count st;
      if negb (invalid =? -1) && negb (count =? 0) then
        let slot := u32 (ota_seq (otadata_nth two invalid) - 1) mod count in
        '(p, st) ← find_first ESP_PARTITION_TYPE_APP (ESP_PARTITION_SUBTYPE_APP_OTA_MIN + slot) st;
        match p with
        | Some p => Ok (if image_validate p.2 st then Some p else None, st)
        | None => Ok (None, st)
        end
      else Ok (None, st)
  end.

(** The error and the state found. *)
Definition esp_ota_get_state_partition (p : esp_partition_t) (st : ota_st) : outcome (Z * Z * ota_st) :=
  if negb (is_ota_partition p) then Ok (ESP_ERR_NOT_SUPPORTED, 0, st)
  else
    '(count, st) ← get_ota_partition_count st;
    '(r, st) ← ota_read_otadata st;
    match r with
    | None => Ok (ESP_ERR_NOT_FOUND, 0, st)
    | Some (_, two) =>
        if count =? 0 then Ok (ESP_ERR_NOT_FOUND, 0, st)
        else
          let req_ota_slot := subtype p - ESP_PARTITION_SUBTYPE_APP_OTA_MIN in
          let found e := (u32 (ota_seq e - 1) mod count =? req_ota_slot) && (crc e =? bootloader_common_ota_select_crc e) in
          Ok (if found two.1 then (ESP_OK, ota_state two.1, st)
              else if found two.2 then (ESP_OK, ota_state two.2, st)
              else (ESP_ERR_NOT_FOUND, 0, st))
    end.

Definition esp_ota_erase_last_boot_app_partition (st : ota_st) : outcome (Z * ota_st) :=
  '(r, st) ← ota_read_otadata st;
  match r with
  | None => Ok (ESP_FAIL, st)
  | Some (data, two) =>
      let active := bootloader_common_get_active_otadata two in
      '(count, st) ← get_ota_partition_count st;
      if (active =? -1) || (count =? 0) then Ok (ESP_FAIL, st)
      else
        let inactive := other_otadata active in
        let e := otadata_nth two inactive in
        if entry_initial e then Ok (ESP_FAIL, st)
        else
          let slot := u32 (ota_seq e - 1) mod count in
          '(last, st) ← find_first ESP_PARTITION_TYPE_APP (ESP_PARTITION_SUBTYPE_APP_OTA_MIN + slot) st;
          match last with
          | None => Ok (ESP_FAIL, st)
          | Some last =>
              '(running, st) ← esp_ota_get_running_partition st;
              if same_ptr last running then Ok (ESP_FAIL, st)
              else
                '(err, st) ← with_parts (esp_partition_erase_range last.2 0 (size last.2)) st;
                if negb (err =? ESP_OK) then Ok (err, st)
                else with_parts (esp_partition_erase_range data.2 (inactive * SPI_FLASH_SEC_SIZE) SPI_FLASH_SEC_SIZE) st
          end
  end.

(** ** Writing an image *)

(** The handle is [*out_handle]. *)
Definition esp_ota_begin (partition : esp_partition_t) (image_size : Z) (st : ota_st) : outcome (Z * Z * ota_st) :=
  '(p, st) ← with_parts (esp_partition_verify partition) st;
  match p with
  | None => Ok (ESP_ERR_NOT_FOUND, 0, st)
  | Some p =>
      if negb (is_ota_partition p.2) then Ok (ESP_ERR_INVALID_ARG, 0, st)
      else
        '(running, st) ← esp_ota_get_running_partition st;
        if same_ptr p running then Ok (ESP_ERR_OTA_PARTITION_CONFLICT, 0, st)
        else
          '(pending, st) ←
            (if CONFIG_BOOTLOADER_APP_ROLLBACK_ENABLE then
               '(err, s, st) ← esp_ota_get_state_partition running.2 st;
               Ok ((err =? ESP_OK) && (s =? ESP_OTA_IMG_PENDING_VERIFY), st)
             else Ok (false, st));
          if pending : bool then Ok (ESP_ERR_OTA_ROLLBACK_INVALID_STATE, 0, st)
          else
            let whole := (image_size =? 0) || (image_size =? OTA_SIZE_UNKNOWN) in
            let aligned_erase_size := Z.ldiff (u32 (image_size + SPI_FLASH_SEC_SIZE - 1)) (SPI_FLASH_SEC_SIZE - 1) in
            '(ret, st) ← with_parts (esp_partition_erase_range p.2 0 (if whole then size p.2 else aligned_erase_size)) st;
            if negb (ret =? ESP_OK) then Ok (ret, 0, st)
            else if negb ota_calloc_ok then Ok (ESP_ERR_NO_MEM, 0, st)
            else
              let h := u32 (s_ota_ops_last_handle st + 1) in
              let e := {| handle := h; part := p; erased_size := if whole then size p.2 else image_size;
                          wrote_size := 0; partial_bytes := 0; partial_data := replicate 16 0 |} in
              Ok (ESP_OK, h, st <| s_ota_ops_entries := e :: s_ota_ops_entries st |> <| s_ota_ops_last_handle := h |>)
  end.

(** [memcpy] into a buffer at an offset. *)
Definition blit (buf : list Z) (off : Z) (l : list Z) : list Z :=
  take (Z.to_nat off) buf ++ l ++ drop (Z.to_nat off + length l) buf.

(** The steps of [esp_ota_write] for the entry found.  With encryption the flash
    takes blocks of 16 bytes: the data left over from the last call is completed
    and written first; [Some] is an early return. *)
Definition flush_partial (it : ota_ops_entry_t) (data : list Z) (st : ota_st)
    : outcome (option Z * ota_ops_entry_t * list Z * ota_st) :=
  if negb (partial_bytes it =? 0) then
    let copy_len := Z.min (16 - partial_bytes it) (lenZ data) in
    let it := it <| partial_data := blit (partial_data it) (partial_bytes it) (take (Z.to_nat copy_len) data) |>
                 <| partial_bytes := partial_bytes it + copy_len |> in
    if negb (partial_bytes it =? 16) then Ok (Some ESP_OK, it, data, st)
    else
      '(ret, st) ← with_parts (esp_partition_write (part it).2 (wrote_size it) (partial_data it)) st;
      if negb (ret =? ESP_OK) then Ok (Some ret, it, data, st)
      else
        let it := it <| partial_bytes := 0 |> <| partial_data := replicate 16 0xFF |>
                     <| wrote_size := u32 (wrote_size it + 16) |> in
        Ok (None, it, drop (Z.to_nat copy_len) data, st)
  else Ok (None, it, data, st).

(** [ret = esp_partition_write(...); if (ret == ESP_OK) wrote_size += size] *)
Definition write_and_count (it : ota_ops_entry_t) (data : list Z) (st : ota_st) : outcome (Z * ota_ops_entry_t * ota_st) :=
  '(ret, st) ← with_parts (esp_partition_write (part it).2 (wrote_size it) data) st;
  Ok (ret, if ret =? ESP_OK then it <| wrote_size := u32 (wrote_size it + lenZ data) |> else it, st).

Definition keep_tail (it : ota_ops_entry_t) (data : list Z) : ota_ops_entry_t * list Z :=
  let tail := lenZ data mod 16 in
  let size := lenZ data - tail in
  let it := it <| partial_bytes := tail |> in
  (if negb (tail =? 0)
   then it <| partial_data := blit (partial_data it) 0 (drop (Z.to_nat size) data) |> else it,
   take (Z.to_nat size) data).

Definition ota_write_entry (it : ota_ops_entry_t) (data : list Z) (st : ota_st)
    : outcome (Z * ota_ops_entry_t * ota_st) :=
  cassert (0 <? erased_size it);;
  if (wrote_size it =? 0) && (partial_bytes it =? 0) && (0 <? lenZ data)
     && negb (nth 0 data 0 =? ESP_IMAGE_HEADER_MAGIC)
  then Ok (ESP_ERR_OTA_VALIDATE_FAILED, it, st)
  else if esp_flash_encryption_enabled then
    '(ret, it, data, st) ← flush_partial it data st;
    match ret with
    | Some ret => Ok (ret, it, st)
    | None => let '(it, data) := keep_tail it data in write_and_count it data st
    end
  else write_and_count it data st.

(** The search for a handle: the entries before it, itself, those after it. *)
Fixpoint find_handle (h : Z) (l : list ota_ops_entry_t) : option (list ota_ops_entry_t * ota_ops_entry_t * list ota_ops_entry_t) :=
  match l with
  | [] => None
  | it :: l =>
      if handle it =? h then Some ([], it, l)
      else match find_handle h l with Some (k, e, r) => Some (it :: k, e, r) | None => None end
  end.

Definition esp_ota_write (h : Z) (data : list Z) (st : ota_st) : outcome (Z * ota_st) :=
  match find_handle h (s_ota_ops_entries st) with
  | None => Ok (ESP_ERR_INVALID_ARG, st)
  | Some (k, it, r) =>
      '(ret, it, st) ← ota_write_entry it data st;
      Ok (ret, st <| s_ota_ops_entries := k ++ it :: r |>)
  end.

Definition esp_ota_end (h : Z) (st : ota_st) : outcome (Z * ota_st) :=
  match find_handle h (s_ota_ops_entries st) with
  | None => Ok (ESP_ERR_NOT_FOUND, st)
  | Some (k, it, r) =>
      let cleanup (ret : Z) (st : ota_st) := Ok (ret, st <| s_ota_ops_entries := k ++ r |>) in
      if (erased_size it =? 0) || (wrote_size it =? 0) then cleanup ESP_ERR_INVALID_ARG st
      else
        '(ret, st) ←
          (if 0 <? partial_bytes it
           then with_parts (esp_partition_write (part it).2 (wrote_size it) (partial_data it)) st
           else Ok (ESP_OK, st));
        if negb (ret =? ESP_OK) then cleanup ESP_ERR_INVALID_STATE st
        else if negb (image_validate (part it).2 st) then cleanup ESP_ERR_OTA_VALIDATE_FAILED st
        else cleanup ESP_OK st
  end.
End update.
