(* ===== verification/OtaBoot.v ===== *)
(** * What the application's choice does at the next boot

    Theorems that join [esp_ota_ops.c] to [bootloader_utility.c]: both sides read
    and write the two selection entries, the application through the partition
    and flash layers, the bootloader on its own. *)
From S2P Require Import Prelude Mem EspFlash Partition BootFlash OtaData Bootloader OtaOps.

(** ** Partitions present *)
Section layout.
Context {cfg : FlashConfig} {env : PartitionEnv} {otac : OtaConfig} {app : AppEnv}.

(** The first partition in the list of a type and subtype. *)
Definition present (ty sub : Z) (st : ota_st) : option partition_ptr :=
  info_ptr <$> head (filter (fun i => wanted ty sub None (info i)) (s_partition_list (parts st))).

Definition slot_present (k : Z) (st : ota_st) : option partition_ptr :=
  present ESP_PARTITION_TYPE_APP (ESP_PARTITION_SUBTYPE_APP_OTA_MIN + k) st.

(** A device with [n] OTA slots and its OTA data in the partition [d] of the main
    flash chip, which is [c]. *)
Record ota_layout (st : ota_st) (d : partition_ptr) (c : esp_flash_t) (n : Z) : Prop := {
  ol_loaded : s_partition_list (parts st) <> [];
  ol_nodup : NoDup (item_addr <$> s_partition_list (parts st));
  ol_data : present ESP_PARTITION_TYPE_DATA ESP_PARTITION_SUBTYPE_DATA_OTA st = Some d;
  ol_ok : partition_ok d.2 c (parts st);
  ol_chip : flash_chip d.2 = esp_flash_default_chip;
  ol_plain : encrypted d.2 = false;
  ol_addr : 0 < address d.2;
  ol_size : size d.2 = 2 * SPI_FLASH_SEC_SIZE;
  ol_aligned : address d.2 mod SPI_FLASH_SEC_SIZE = 0;
  ol_sector : sector_size c = SPI_FLASH_SEC_SIZE;
  ol_unlocked : protected_regions c = [];
  ol_writable : forall a k, address d.2 <= a -> a + k <= address d.2 + size d.2 -> region_protected c a k = false;
  ol_count : 0 < n <= 16;
  ol_slots : forall k, 0 <= k < n -> exists p, slot_present k st = Some p;
  ol_last : slot_present n st = None
}.

Lemma find_first_present ty sub st :
  s_partition_list (parts st) <> [] -> NoDup (item_addr <$> s_partition_list (parts st)) ->
  find_first ty sub st = Ok (present ty sub st, st).
Proof.
  intros Hl Hd. unfold find_first, with_parts. rewrite find_first_run by done. by destruct st.
Qed.

Lemma count_loop_spec st n fuel k :
  s_partition_list (parts st) <> [] -> NoDup (item_addr <$> s_partition_list (parts st)) ->
  (forall j, k <= j < n -> exists p, slot_present j st = Some p) -> slot_present n st = None ->
  0 <= k <= n -> n <= 16 -> n - k < Z.of_nat fuel ->
  count_loop fuel k st = Ok (n, st).
Proof.
  revert k. induction fuel as [|fuel IH]; intros k Hl Hd Hs Hn Hk H16 Hf; [lia|]. cbn [count_loop].
  rewrite find_first_present by done. ostep. fold (slot_present k st).
  destruct (decide (k = n)) as [->|].
  - rewrite Hn. unfold u8. by rewrite Z.mod_small by lia.
  - destruct (Hs k ltac:(lia)) as [p ->]. oassert ltac:(apply Z.ltb_lt; lia).
    apply IH; try done; try lia. intros j Hj. apply Hs. lia.
Qed.

Lemma partition_count_run st d c n : ota_layout st d c n -> get_ota_partition_count st = Ok (n, st).
Proof.
  intros L. pose proof (ol_count _ _ _ _ L). apply count_loop_spec; try apply L; lia.
Qed.

(** ** The next sequence number *)

(** The least number from [seq] on that selects slot [k]. *)
Lemma next_seq_spec k n seq fuel i :
  0 <= k < n -> 1 <= seq -> seq + n < 2 ^ 32 -> 0 <= i ->
  i = 0 \/ (k + 1) mod n + (i - 1) * n < seq -> seq - i < Z.of_nat fuel ->
  exists v, next_seq fuel seq ((k + 1) mod n) n i = Ok v /\ seq <= v < seq + n /\ (v - 1) mod n = k.
Proof.
  intros Hk Hs Hw. revert i. induction fuel as [|fuel IH]; intros i Hi Hb Hf.
  { assert (i <> 0) by lia. pose proof (Z.mod_pos_bound (k + 1) n). nia. }
  cbn [next_seq]. pose proof (Z.mod_pos_bound (k + 1) n).
  assert (Hin : (k + 1) mod n + i * n < seq + n) by (destruct Hb as [->|]; lia).
  assert (0 <= i * n) by nia.
  rewrite (u32_small (i * n)), u32_small by (unfold is_u32; lia).
  destruct (Z.ltb_spec ((k + 1) mod n + i * n) seq).
  - rewrite u32_small by (unfold is_u32; nia). apply IH; [lia| |lia]. right. replace (i + 1 - 1) with i by lia. done.
  - eexists. split; [done|]. split; [lia|].
    rewrite <- (Z.mod_small k n) at 2 by lia.
    replace ((k + 1) mod n + i * n - 1) with ((k + 1) mod n - 1 + i * n) by lia.
    rewrite Z_mod_plus_full, Zminus_mod_idemp_l. f_equal. lia.
Qed.

Lemma next_seq_run k n seq :
  0 <= k < n -> 1 <= seq -> seq + n < 2 ^ 32 ->
  exists v, next_seq (S (Z.to_nat seq)) seq ((k + 1) mod n) n 0 = Ok v /\ seq <= v < seq + n /\ (v - 1) mod n = k.
Proof. intros. apply next_seq_spec; lia. Qed.

(** ** Rewriting an entry *)

(** [c] is the main flash chip. *)
Definition main_chip (st : ota_st) (c : esp_flash_t) : Prop := chips (parts st) !! esp_flash_default_chip = Some c.

Definition new_entry (two : two_otadata) (i seq : Z) : esp_ota_select_entry_t :=
  let e := (otadata_nth two i) <| ota_seq := seq |> in e <| crc := bootloader_common_ota_select_crc e |>.

(** The address of sector [i] of the OTA data. *)
Definition ota_sector (d : partition_ptr) (i : Z) : Z := address d.2 + i * SPI_FLASH_SEC_SIZE.

(** [st'] is [st], and [c'] is [c], but for the bytes of sector [i]. *)
Record sector_rewritten (d : partition_ptr) (i : Z) (st : ota_st) (c : esp_flash_t) (st' : ota_st) (c' : esp_flash_t) : Prop := {
  sr_chip : main_chip st' c';
  sr_parts : only_changes (flash_chip d.2) (ota_sector d i) SPI_FLASH_SEC_SIZE (parts st) (parts st');
  sr_rest : st' = st <| parts := parts st' |>;
  sr_same : same_chip c c';
  sr_bytes : outside_same (ota_sector d i) SPI_FLASH_SEC_SIZE c c'
}.

Lemma layout_chip st d c n : ota_layout st d c n -> main_chip st c.
Proof. intros L. unfold main_chip. rewrite <- (ol_chip _ _ _ _ L). apply (po_chip _ _ _ (ol_ok _ _ _ _ L)). Qed.

Lemma only_changes_chip chip a n p p' c c' :
  chips p !! chip = Some c -> chips p' !! chip = Some c' -> only_changes chip a n p p' ->
  same_chip c c' /\ outside_same a n c c'.
Proof.
  intros Hc Hc' (_ & _ & _ & H). destruct (H c Hc) as (c2 & E & S & O). by assert (c2 = c') as -> by congruence.
Qed.

Lemma rewrite_spec st d c n two seq i :
  ota_layout st d c n -> i = 0 \/ i = 1 -> entry_ok (new_entry two i seq) ->
  exists err st' c', rewrite_ota_seq two seq i d.2 st = Ok (err, st') /\
    sector_rewritten d i st c st' c' /\
    (err = ESP_OK -> entry_at (fl_mem c') (ota_sector d i) = new_entry two i seq) /\
    (fl_faults c = [] -> err = ESP_OK /\ fl_faults c' = []).
Proof.
  intros L Hi He. unfold rewrite_ota_seq. destruct (Z.ltb_spec 1 i); [lia|].
  fold (new_entry two i seq). set (e := new_entry two i seq) in *. unfold ota_sector.
  pose proof L as [L1 L2 L3 L4 L5 L6 L0 L7 L8 L9 L10 L11 L12 _ _]. pose proof (entry_bytes_length e He) as Le.
  assert (Hin : 0 <= i * SPI_FLASH_SEC_SIZE /\ i * SPI_FLASH_SEC_SIZE + SPI_FLASH_SEC_SIZE <= size d.2)
    by (unfold SPI_FLASH_SEC_SIZE in *; lia).
  destruct (erase_in_range d.2 c (parts st) (i * SPI_FLASH_SEC_SIZE) SPI_FLASH_SEC_SIZE L4)
    as (err1 & p1 & c1 & E1 & Hc1 & O1 & Er1 & F1);
    [lia|done|lia|done|by rewrite Z_mod_mult|apply L11; lia|].
  rewrite L5 in Hc1. pose proof (layout_chip _ _ _ _ L) as Hc.
  destruct (only_changes_chip _ _ _ _ p1 _ c1 (po_chip _ _ _ L4) ltac:(by rewrite L5) O1) as [S1 B1].
  rewrite (Z.mul_comm SPI_FLASH_SEC_SIZE i). unfold with_parts. rewrite E1. do 2 ostep. cbn beta iota.
  destruct (Z.eqb_spec err1 ESP_OK) as [->|]; cbn [negb].
  2:{ exists err1, (st <| parts := p1 |>), c1. split; [done|]. split; [by split|]. split; [done|].
      intros Hf. by destruct (F1 Hf L9 L8 L10). }
  assert (P1 : partition_ok d.2 c1 p1).
  { destruct L4 as [? G ? ? ?]. split; try done; [by rewrite L5|by eapply chip_ok_same|]. by rewrite (proj1 S1). }
  assert (Hl : lenZ (entry_bytes e) = 32) by (unfold lenZ; rewrite Le; done).
  destruct (write_in_range d.2 c1 p1 (i * SPI_FLASH_SEC_SIZE) (entry_bytes e) P1 L6)
    as (err2 & p2 & c2 & E2 & Hc2 & O2 & Ew & F2).
  { by apply entry_bytes_is_byte. } { lia. } { rewrite Hl. unfold SPI_FLASH_SEC_SIZE in *. lia. }
  { destruct S1 as (_ & _ & _ & _ & -> & _). apply L11; unfold SPI_FLASH_SEC_SIZE in *; lia. }
  destruct (only_changes_chip _ _ _ p1 p2 c1 c2 (po_chip _ _ _ P1) Hc2 O2) as [S2 B2]. rewrite L5 in Hc2.
  cbn [parts upd]. rewrite E2. ostep.
  assert (B2' : outside_same (address d.2 + i * SPI_FLASH_SEC_SIZE) SPI_FLASH_SEC_SIZE c1 c2)
    by (eapply outside_same_sub; [reflexivity| |done]; rewrite Hl; unfold SPI_FLASH_SEC_SIZE; lia).
  eexists err2, _, c2. split; [done|]. split; [split; cbn|split].
  - done.
  - destruct O1 as (A1 & A2 & A3 & A4), O2 as (D1 & D2 & D3 & D4).
    split; [congruence|]. split; [congruence|]. split; [intros k Hk; by rewrite D3, A3|].
    intros c0 Hc0. rewrite L5 in Hc0. assert (c0 = c) as -> by (unfold main_chip in Hc; congruence).
    exists c2. split; [by rewrite L5|]. split; [by etrans|by etrans].
  - done.
  - by etrans.
  - by etrans.
  - intros ->. apply entry_at_bytes; [done|]. rewrite <- Le. rewrite Ew by done.
    apply read_program_erased; [by apply entry_bytes_is_byte|].
    intros b Hb. apply Er1; [done|]. rewrite Hl in Hb. unfold SPI_FLASH_SEC_SIZE in *. lia.
  - intros Hf. destruct (F1 Hf L9 L8 L10) as [_ Hf1]. by apply F2.
Qed.
End layout.

(** ** Reading and choosing *)
Section choice.
Context {cfg : FlashConfig} {env : PartitionEnv} {otac : OtaConfig} {app : AppEnv}.
Context (Henc : esp_flash_encryption_enabled = false) (Hmap : forall a k, spi_flash_mmap_err a k = ESP_OK)
  (Hcrc : forall i l, is_u32 (crc32_le i l)).

(** The entries in the flash chip [c]. *)
Definition chip_entries (d : partition_ptr) (c : esp_flash_t) : two_otadata := otadata_at (fl_mem c) (address d.2).

Lemma chip_entries_nth d c i : i = 0 \/ i = 1 -> otadata_nth (chip_entries d c) i = entry_at (fl_mem c) (ota_sector d i).
Proof. unfold ota_sector, SPI_FLASH_SEC_SIZE. intros [-> | ->]; cbn; f_equal; unfold SPI_FLASH_SEC_SIZE; lia. Qed.

Lemma other_sector_same d c c' i :
  i = 0 \/ i = 1 -> outside_same (ota_sector d i) SPI_FLASH_SEC_SIZE c c' ->
  otadata_nth (chip_entries d c') (1 - i) = otadata_nth (chip_entries d c) (1 - i).
Proof.
  intros Hi O. rewrite !chip_entries_nth by lia. apply entry_at_ext. intros b Hb. apply O.
  unfold ota_sector, SPI_FLASH_SEC_SIZE in *. lia.
Qed.

Lemma ota_read_run st d c n :
  ota_layout st d c n -> ota_read_otadata st = Ok (Some (d, chip_entries d c), st).
Proof.
  intros L. pose proof L as [L1 L2 L3 L4 L5 L6 L0 L7 L8 L9 L10 L11 L12 _ _]. pose proof (po_end _ _ _ L4).
  pose proof (co_size _ (po_geom _ _ _ L4)).
  unfold ota_read_otadata. rewrite find_first_present by done. ostep. rewrite L3. unfold esp_partition_mmap.
  rewrite (proj2 (check_range_inside d.2 0 (size d.2) ltac:(lia) (po_size _ _ _ L4) ltac:(lia)) ltac:(lia)).
  rewrite L5, Z.eqb_refl, Hmap. cbn [negb Z.eqb ESP_OK].
  assert (Ec : default_chip (parts st) = Ok c) by (unfold default_chip; rewrite <- L5; by rewrite (po_chip _ _ _ L4)).
  rewrite Ec. do 3 ostep. cbn [negb Z.eqb ESP_OK]. unfold mapped. by rewrite Henc.
Qed.

(** The active entry is valid, and no valid entry is newer. *)
Lemma active_spec two :
  entry_ok two.1 -> entry_ok two.2 -> bootloader_common_get_active_otadata two <> -1 ->
  let i := bootloader_common_get_active_otadata two in
  (i = 0 \/ i = 1) /\ bootloader_common_ota_select_valid (otadata_nth two i) = true /\
  (bootloader_common_ota_select_valid (otadata_nth two (1 - i)) = true ->
   ota_seq (otadata_nth two (1 - i)) < ota_seq (otadata_nth two i) \/
   (i = 0 /\ ota_seq (otadata_nth two (1 - i)) = ota_seq (otadata_nth two i))).
Proof.
  intros (Q1 & _) (Q2 & _). unfold bootloader_common_get_active_otadata, bootloader_common_select_otadata, both_valid.
  rewrite u32_s32 by (unfold is_u32 in *; lia). cbn [fst snd].
  destruct (bootloader_common_ota_select_valid two.1) eqn:V1, (bootloader_common_ota_select_valid two.2) eqn:V2; cbn [andb]; intros Ha.
  - destruct (Z.eqb_spec (Z.max (ota_seq two.1) (ota_seq two.2)) (ota_seq two.1)); [change (1 - 0) with 1|change (1 - 1) with 0];
      cbn; (split; [lia|]); (split; [done|]); intros _; lia.
  - change (1 - 0) with 1. cbn. split; [lia|]. split; [done|]. by rewrite V2.
  - change (1 - 1) with 0. cbn. split; [lia|]. split; [done|]. by rewrite V1.
  - done.
Qed.

Lemma active_none two i :
  bootloader_common_get_active_otadata two = -1 -> i = 0 \/ i = 1 -> entry_ok two.1 -> entry_ok two.2 ->
  bootloader_common_ota_select_valid (otadata_nth two i) = false.
Proof.
  intros Ha Hi (Q1 & _) (Q2 & _). revert Ha. unfold bootloader_common_get_active_otadata, bootloader_common_select_otadata, both_valid. cbn [fst snd].
  destruct (bootloader_common_ota_select_valid two.1) eqn:V1, (bootloader_common_ota_select_valid two.2) eqn:V2; cbn [andb];
    try done; [case_match; done|]. by destruct Hi as [-> | ->].
Qed.

Lemma sub_type_id k : 0 <= k < 16 -> SUB_TYPE_ID (ESP_PARTITION_SUBTYPE_APP_OTA_MIN + k) = k.
Proof.
  intros. unfold SUB_TYPE_ID, ESP_PARTITION_SUBTYPE_APP_OTA_MIN. change 0x0F with (Z.ones 4). rewrite Z.land_ones by lia.
  rewrite Z.add_comm, <- (Z.mul_1_l 0x10), Z_mod_plus_full. by apply Z.mod_small.
Qed.

(** Sequence numbers that can go on growing. *)
Definition seqs_small (two : two_otadata) (n : Z) : Prop :=
  forall i, i = 0 \/ i = 1 -> bootloader_common_ota_select_valid (otadata_nth two i) = true ->
  1 <= ota_seq (otadata_nth two i) /\ ota_seq (otadata_nth two i) + n < UINT32_MAX.

(** The entry [e] selects slot [k]. *)
Record selects (e : esp_ota_select_entry_t) (k n : Z) : Prop := {
  se_seq : 1 <= ota_seq e < UINT32_MAX;
  se_slot : (ota_seq e - 1) mod n = k;
  se_valid : bootloader_common_ota_select_valid e = true;
  se_state : ota_state e <> ESP_OTA_IMG_PENDING_VERIFY
}.

Lemma set_new_state_ok : is_u32 set_new_state_otadata /\ set_new_state_otadata <> ESP_OTA_IMG_INVALID /\
  set_new_state_otadata <> ESP_OTA_IMG_ABORTED /\ set_new_state_otadata <> ESP_OTA_IMG_PENDING_VERIFY.
Proof. unfold set_new_state_otadata. destruct CONFIG_BOOTLOADER_APP_ROLLBACK_ENABLE; by vm_compute. Qed.

Lemma new_entry_selects two i seq k n :
  (i = 0 \/ i = 1) -> entry_ok (otadata_nth two i) -> 1 <= seq < UINT32_MAX -> (seq - 1) mod n = k ->
  let e := new_entry (otadata_set two i ((otadata_nth two i) <| ota_state := set_new_state_otadata |>)) i seq in
  entry_ok e /\ ota_seq e = seq /\ selects e k n.
Proof.
  intros Hi (_ & Hl & Hb & _ & _) Hs Hk. destruct set_new_state_ok as (S1 & S2 & S3 & S4).
  unfold new_entry. replace (otadata_nth (otadata_set two i _) i) with ((otadata_nth two i) <| ota_state := set_new_state_otadata |>)
    by (by destruct Hi as [-> | ->]).
  cbv zeta. assert (is_u32 seq) by (unfold is_u32, UINT32_MAX in *; lia).
  split; [split_and!; cbn; try done; apply Hcrc|]. split; [done|].
  split; cbn; try done. apply select_valid_spec. cbn. split; [lia|]. done.
Qed.

(** [esp_rewrite_ota_data]: whatever the faults, it changes one sector only, the
    one that is not active; when it succeeds that sector selects the slot asked
    for and is the newest; without faults it does succeed. *)
Lemma rewrite_ota_data_spec st d c n k :
  ota_layout st d c n -> 0 <= k < n -> seqs_small (chip_entries d c) n ->
  exists err st' c' i e, esp_rewrite_ota_data (ESP_PARTITION_SUBTYPE_APP_OTA_MIN + k) st = Ok (err, st') /\
    (i = 0 \/ i = 1) /\ sector_rewritten d i st c st' c' /\ selects e k n /\
    (bootloader_common_get_active_otadata (chip_entries d c) <> -1 ->
     i = 1 - bootloader_common_get_active_otadata (chip_entries d c)) /\
    (bootloader_common_ota_select_valid (otadata_nth (chip_entries d c) (1 - i)) = true ->
     ota_seq (otadata_nth (chip_entries d c) (1 - i)) <= ota_seq e) /\
    (err = ESP_OK -> otadata_nth (chip_entries d c') i = e) /\
    (fl_faults c = [] -> err = ESP_OK /\ fl_faults c' = []).
Proof.
  intros L Hk Hs. pose proof (ol_count _ _ _ _ L) as Hn. unfold esp_rewrite_ota_data. rewrite (ota_read_run _ _ _ _ L). ostep.
  rewrite (partition_count_run _ _ _ _ L). ostep. rewrite sub_type_id by lia. destruct (Z.leb_spec n k); [lia|].
  set (two := chip_entries d c) in *. set (a := bootloader_common_get_active_otadata two).
  assert (K1 : entry_ok two.1) by apply entry_at_ok. assert (K2 : entry_ok two.2) by apply entry_at_ok.
  assert (Kn : forall i, entry_ok (otadata_nth two i)) by (intros i; unfold otadata_nth; by destruct (i =? 0)).
  destruct (Z.eqb_spec a (-1)) as [Ea|Ea]; cbn [negb].
  - assert (U : 1 <= k + 1 < UINT32_MAX) by (unfold UINT32_MAX; lia).
    assert (M : (k + 1 - 1) mod n = k) by (rewrite Z.mod_small; lia).
    destruct (new_entry_selects two 0 (k + 1) k n ltac:(by left) (Kn 0) U M) as (E1 & E2 & E3).
    destruct (rewrite_spec st d c n _ (k + 1) 0 L ltac:(by left) E1) as (err & st' & c' & Er & R & Ro & Rf).
    eexists err, st', c', 0, _. split; [done|]. split; [by left|]. split; [done|]. split; [done|]. split; [done|].
    split; [|split; [|done]].
    + pose proof (active_none two (1 - 0) Ea ltac:(lia) K1 K2) as V. by rewrite V.
    + intros Eo. rewrite <- Ro by done. by apply chip_entries_nth; left.
  - destruct (active_spec two K1 K2 Ea) as (Hi & Hv & Hle). fold a in Hi, Hv, Hle.
    destruct (Hs a Hi Hv) as [Hs1 Hs2]. set (seq := ota_seq (otadata_nth two a)) in *.
    destruct (next_seq_run k n seq) as (v & Ev & Hv1 & Hv2); [lia|lia|unfold UINT32_MAX in *; lia|].
    rewrite Ev. ostep.
    assert (Ho : other_otadata a = 1 - a) by (by destruct Hi as [-> | ->]). rewrite Ho.
    destruct (new_entry_selects two (1 - a) v k n ltac:(lia) (Kn _) ltac:(lia) Hv2) as (E1 & E2 & E3).
    destruct (rewrite_spec st d c n _ v (1 - a) L ltac:(lia) E1) as (err & st' & c' & Er & R & Ro & Rf).
    eexists err, st', c', (1 - a), _. split; [done|]. split; [lia|]. split; [done|]. split; [done|]. split; [done|].
    replace (1 - (1 - a)) with a by lia. split; [|split; [|done]].
    + rewrite E2. fold seq. lia.
    + intros Eo. rewrite <- Ro by done. apply chip_entries_nth. lia.
Qed.
End choice.

(** ** The next boot *)
Section reboot.
Context {cfg : FlashConfig} {env : PartitionEnv} {otac : OtaConfig} {app : AppEnv} {rom : BootRom}.
Context (Henc : esp_flash_encryption_enabled = false) (Hmap : forall a k, spi_flash_mmap_err a k = ESP_OK)
  (Hcrc : forall i l, is_u32 (crc32_le i l)) (Hun : bootloader_flash_unlock = ESP_OK)
  (Hmmu : forall a n, cache_flash_mmu_set a n = true) (Hanti : CONFIG_BOOTLOADER_APP_ANTI_ROLLBACK = false).

(** A restart: the bootloader, with [n] slots in its table, finds in flash what
    the application left in [c], and its own flash operations succeed. *)
Record restarted (d : partition_ptr) (n : Z) (c : esp_flash_t) (bs : bootloader_state_t) (b : boot) : Prop := {
  rs_data : ota_info bs = mkPos (address d.2) (size d.2);
  rs_count : app_count bs = n;
  rs_mem : fl_mem (boot_chip b) = fl_mem c;
  rs_idle : bf_mapped (bt_flash b) = false;
  rs_faults : fl_faults (boot_chip b) = []
}.

Lemma restarted_ready st d c0 c n bs b :
  ota_layout st d c0 n -> restarted d n c bs b ->
  ota_ready bs b /\ ota_entries bs b = chip_entries d c /\ 0 < app_count bs.
Proof.
  intros L [R1 R2 R3 R4 R5]. pose proof L as [L1 L2 L3 L4 L5 L6 L0 L7 L8 L9 L10 L11 L12 _ _].
  pose proof (po_end _ _ _ L4). pose proof (co_size _ (po_geom _ _ _ L4)).
  split; [|split; [|lia]].
  - split; rewrite ?R1; cbn; unfold SPI_SEC_SIZE, SPI_FLASH_SEC_SIZE, MMU_SIZE in *; try done; lia.
  - unfold ota_entries, chip_entries, bt_mem, mapped. rewrite Henc, R1. unfold boot_chip in R3. by rewrite R3.
Qed.

Lemma aborted_valid e :
  bootloader_common_ota_select_valid (aborted e) = true -> aborted e = e.
Proof.
  unfold aborted. destruct (_ && _); [|done]. by rewrite aborted_not_valid.
Qed.

(** The bootloader follows the newest valid entry that is not pending. *)
Lemma boots_newest st d c0 c n bs b i e k :
  ota_layout st d c0 n -> restarted d n c bs b -> i = 0 \/ i = 1 ->
  otadata_nth (chip_entries d c) i = e -> selects e k n ->
  (bootloader_common_ota_select_valid (otadata_nth (chip_entries d c) (1 - i)) = true ->
   ota_seq (otadata_nth (chip_entries d c) (1 - i)) <= ota_seq e) ->
  exists b', bootloader_utility_get_selected_boot_partition bs b = Ok (k, b').
Proof.
  intros L R Hi Ee [S1 S2 S3 S4] Ho. destruct (restarted_ready _ _ _ _ _ _ _ L R) as (Rd & En & Hc).
  assert (Ea : aborted e = e) by (unfold aborted; apply Z.eqb_neq in S4; by rewrite S4, andb_false_r).
  assert (Es : u32 (ota_seq e - 1) mod app_count bs = k)
    by (rewrite (rs_count _ _ _ _ _ R), u32_small by (unfold is_u32, UINT32_MAX in *; lia); done).
  set (o := otadata_nth (chip_entries d c) (1 - i)) in *.
  pose proof (select_run Henc Hun Hmmu Hanti bs b i Rd Hc Hi) as H. rewrite En, Ee, Ea in H. fold o in H. cbv zeta in H.
  destruct (bootloader_common_ota_select_valid (aborted o)) eqn:Vo.
  - pose proof (aborted_valid _ Vo) as Ao. rewrite Ao in H, Vo. specialize (Ho Vo).
    destruct (decide (ota_seq o < ota_seq e \/ i = 0)) as [Hd|Hd].
    + destruct H as (b' & E & _); [done|right; lia|]. exists b'. by rewrite E, Es.
    + (* equal numbers: the bootloader takes the other copy, with the same slot *)
      assert (i = 1) as -> by lia. assert (Eq : ota_seq o = ota_seq e) by lia.
      pose proof (select_run Henc Hun Hmmu Hanti bs b 0 Rd Hc ltac:(by left)) as H0.
      change (1 - 0) with 1 in H0. change (1 - 1) with 0 in *. rewrite En, Ee, Ea in H0. fold o in H0.
      cbv zeta in H0. change (otadata_nth (chip_entries d c) 0) with o in H0. rewrite Ao in H0.
      destruct H0 as (b' & E & _); [done|right; right; by split|]. exists b'. by rewrite E, Eq, Es.
  - destruct H as (b' & E & _); [done|by left|]. exists b'. by rewrite E, Es.
Qed.

Lemma set_boot_run p k st :
  type p = ESP_PARTITION_TYPE_APP -> subtype p = ESP_PARTITION_SUBTYPE_APP_OTA_MIN + k -> 0 <= k ->
  image_validate p st = true ->
  esp_ota_set_boot_partition p st = esp_rewrite_ota_data (ESP_PARTITION_SUBTYPE_APP_OTA_MIN + k) st.
Proof.
  intros Ht Hs Hk Hv. unfold esp_ota_set_boot_partition. rewrite Hv, Ht, Hs, Hanti. cbn [negb].
  rewrite Z.eqb_refl. destruct (Z.eqb_spec (ESP_PARTITION_SUBTYPE_APP_OTA_MIN + k) ESP_PARTITION_SUBTYPE_APP_FACTORY) as [E|]; [|done].
  unfold ESP_PARTITION_SUBTYPE_APP_OTA_MIN, ESP_PARTITION_SUBTYPE_APP_FACTORY in E. lia.
Qed.

(** The slot an entry selects. *)
Definition slot_of (e : esp_ota_select_entry_t) (n : Z) : Z := (ota_seq e - 1) mod n.
End reboot.

Section boot_choice.
Context {cfg : FlashConfig} {env : PartitionEnv} {otac : OtaConfig} {app : AppEnv} {rom : BootRom}.

(** What the theorems below assume of the configuration and of the ROM: no flash
    encryption, no anti-rollback, mappings that succeed, 32-bit checksums. *)
Record plain_setup : Prop := {
  ps_plain : esp_flash_encryption_enabled = false;
  ps_map : forall a k, spi_flash_mmap_err a k = ESP_OK;
  ps_crc : forall i l, is_u32 (crc32_le i l);
  ps_unlock : bootloader_flash_unlock = ESP_OK;
  ps_mmu : forall a n, cache_flash_mmu_set a n = true;
  ps_anti : CONFIG_BOOTLOADER_APP_ANTI_ROLLBACK = false
}.

(** C14. The boot partition chosen is the one booted.  On a device with [n] OTA
    slots whose flash does not fail, for an application partition [p] of slot [k]
    whose image verifies and any contents of the two selection entries (none
    valid, one, both, pending or not) in which the sequence number of a valid entry is
    at least 1 and more than [n] below [UINT32_MAX], [esp_ota_set_boot_partition] succeeds, and
    the bootloader started on the resulting flash selects slot [k]. *)
Theorem set_boot_partition_boots (d : partition_ptr) (p : esp_partition_t) (c : esp_flash_t) (n k : Z) (st : ota_st)
    (U : plain_setup) (L : ota_layout st d c n) (Hf : fl_faults c = []) (Hk : 0 <= k < n)
    (Ht : type p = ESP_PARTITION_TYPE_APP) (Hsub : subtype p = ESP_PARTITION_SUBTYPE_APP_OTA_MIN + k)
    (Hv : image_validate p st = true) (Hs : seqs_small (chip_entries d c) n) :
  exists st' c', esp_ota_set_boot_partition p st = Ok (ESP_OK, st') /\ main_chip st' c' /\
    forall bs b, restarted d n c' bs b ->
    exists b', bootloader_utility_get_selected_boot_partition bs b = Ok (k, b').
Proof.
  destruct U as [U1 U2 U3 U4 U5 U6]. rewrite (set_boot_run U6 p k st Ht Hsub ltac:(lia) Hv).
  destruct (rewrite_ota_data_spec U1 U2 U3 st d c n k L Hk Hs) as (err & st' & c' & i & e & E & Hi & R & Se & _ & Ho & Hok & F).
  destruct (F Hf) as [-> _]. exists st', c'. split; [done|]. split; [apply R|]. intros bs b Rs.
  apply (boots_newest U1 U4 U5 U6 st d c c' n bs b i e k L Rs Hi (Hok eq_refl) Se).
  by rewrite (other_sector_same d c c' i Hi (sr_bytes _ _ _ _ _ _ R)).
Qed.

(** C19. Changing the boot partition is safe against flash failures and power loss.
    For an application partition of an OTA slot, with an active entry that is not
    pending and sequence numbers that can grow, whatever the driver operations do
    (fail, time out, leave any bytes in the
    sector they work on), the call returns, never touches the sector of the
    active entry, and the device still boots: the slot asked for when the new
    entry [e] is complete, which success guarantees, and the slot booted so far
    when the sector holds the entry it had or one that is not valid.  (Bytes that
    happen to be another valid entry are not covered.) *)
Theorem set_boot_partition_power_safe (d : partition_ptr) (p : esp_partition_t) (c : esp_flash_t) (n k : Z) (st : ota_st)
    (U : plain_setup) (L : ota_layout st d c n) (Hk : 0 <= k < n)
    (Ht : type p = ESP_PARTITION_TYPE_APP) (Hsub : subtype p = ESP_PARTITION_SUBTYPE_APP_OTA_MIN + k)
    (Hv : image_validate p st = true) (Hs : seqs_small (chip_entries d c) n)
    (Ha : bootloader_common_get_active_otadata (chip_entries d c) <> -1)
    (Hp : ota_state (otadata_nth (chip_entries d c) (bootloader_common_get_active_otadata (chip_entries d c))) <> ESP_OTA_IMG_PENDING_VERIFY) :
  let a := bootloader_common_get_active_otadata (chip_entries d c) in
  exists err st' c' e, esp_ota_set_boot_partition p st = Ok (err, st') /\ main_chip st' c' /\ slot_of e n = k /\
    otadata_nth (chip_entries d c') a = otadata_nth (chip_entries d c) a /\
    let t := otadata_nth (chip_entries d c') (1 - a) in
    (err = ESP_OK -> t = e) /\
    forall bs b, restarted d n c' bs b ->
      (t = e -> exists b', bootloader_utility_get_selected_boot_partition bs b = Ok (k, b')) /\
      (t = otadata_nth (chip_entries d c) (1 - a) \/ bootloader_common_ota_select_valid t = false ->
       exists b', bootloader_utility_get_selected_boot_partition bs b = Ok (slot_of (otadata_nth (chip_entries d c) a) n, b')).
Proof.
  intros a. destruct U as [U1 U2 U3 U4 U5 U6]. rewrite (set_boot_run U6 p k st Ht Hsub ltac:(lia) Hv).
  destruct (rewrite_ota_data_spec U1 U2 U3 st d c n k L Hk Hs) as (err & st' & c' & i & e & E & Hi & R & Se & Hia & Ho & Hok & _).
  specialize (Hia Ha). fold a in Hia, Hp. set (two := chip_entries d c) in *.
  destruct (active_spec two (entry_at_ok _ _) (entry_at_ok _ _) Ha) as (Ha01 & Hva & Hle). fold a in Ha01, Hva, Hle.
  pose proof (other_sector_same d c c' i Hi (sr_bytes _ _ _ _ _ _ R)) as Hsame.
  assert (Ei : 1 - i = a) by lia. rewrite Ei in *. subst i.
  exists err, st', c', e. split; [done|]. split; [apply R|]. split; [apply Se|]. split; [done|]. split; [done|].
  intros bs b Rs. split.
  - intros Et. apply (boots_newest U1 U4 U5 U6 st d c c' n bs b (1 - a) e k L Rs ltac:(lia) Et Se).
    rewrite Ei, Hsame. done.
  - intros Ht'. apply (boots_newest U1 U4 U5 U6 st d c c' n bs b a (otadata_nth two a) _ L Rs Ha01 Hsame).
    + destruct (Hs a Ha01 Hva). pose proof (ol_count _ _ _ _ L). split; try done; lia.
    + destruct Ht' as [Et|Et]; rewrite Et; [|discriminate]. intros V. specialize (Hle V). lia.
Qed.

(** [m] restarts in a row: the slots selected. *)
Fixpoint boots (m : nat) (bs : bootloader_state_t) (b : boot) : outcome (list Z) :=
  match m with
  | O => Ok []
  | S m =>
      '(i, b) ← bootloader_utility_get_selected_boot_partition bs b;
      l ← boots m bs b; Ok (i :: l)
  end.

Lemma boots_confirmed (U : plain_setup) m bs b i e :
  ota_ready bs b -> 0 < app_count bs -> i = 0 \/ i = 1 -> otadata_nth (ota_entries bs b) i = e ->
  bootloader_common_ota_select_valid e = true -> ota_state e = ESP_OTA_IMG_VALID ->
  (bootloader_common_ota_select_valid (otadata_nth (ota_entries bs b) (1 - i)) = true ->
   ota_seq (otadata_nth (ota_entries bs b) (1 - i)) < ota_seq e \/
   (i = 0 /\ ota_seq (otadata_nth (ota_entries bs b) (1 - i)) = ota_seq e)) ->
  boots m bs b = Ok (replicate m (u32 (ota_seq e - 1) mod app_count bs)).
Proof.
  destruct U as [U1 U2 U3 U4 U5 U6]. intros R Hc Hi. revert b R. induction m as [|m IH]; intros b R Ee Hv Hst Ho; [done|].
  cbn [boots replicate].
  assert (Ea : aborted e = e) by (unfold aborted; by rewrite Hst, andb_false_r).
  assert (Ep : promoted e = e) by (unfold promoted; by rewrite Hst, andb_false_r).
  set (o := otadata_nth (ota_entries bs b) (1 - i)) in *.
  destruct (select_run U1 U4 U5 U6 bs b i R Hc Hi) as (b' & E & R' & Ee' & Eo').
  { by rewrite Ee, Ea. }
  { fold o. rewrite Ee, Ea. destruct (bootloader_common_ota_select_valid (aborted o)) eqn:Vo; [|by left].
    pose proof (aborted_valid _ Vo) as Ao. rewrite Ao in Vo |- *. right. by apply Ho. }
  fold o in Eo'. rewrite Ee, Ea in E, Ee'. rewrite Ep in Ee'. rewrite E. ostep.
  rewrite (IH b' R' Ee' Hv Hst); [done|]. rewrite Eo'. intros Vo. pose proof (aborted_valid _ Vo) as Ao. rewrite Ao in Vo |- *. by apply Ho.
Qed.

(** C20. A confirmed image stays.  On a device whose flash does not fail, with an
    active entry in any state, [esp_ota_mark_app_valid_cancel_rollback] succeeds,
    leaves the other entry and the sequence number alone and marks the entry
    valid; from then on every boot, however many, selects its slot. *)
Theorem confirmed_image_stays (d : partition_ptr) (c : esp_flash_t) (n : Z) (st : ota_st)
    (U : plain_setup) (L : ota_layout st d c n) (Hf : fl_faults c = []) (Hs : seqs_small (chip_entries d c) n)
    (Ha : bootloader_common_get_active_otadata (chip_entries d c) <> -1) :
  let a := bootloader_common_get_active_otadata (chip_entries d c) in
  exists st' c', esp_ota_mark_app_valid_cancel_rollback st = Ok (Some ESP_OK, st') /\ main_chip st' c' /\
    ota_state (otadata_nth (chip_entries d c') a) = ESP_OTA_IMG_VALID /\
    ota_seq (otadata_nth (chip_entries d c') a) = ota_seq (otadata_nth (chip_entries d c) a) /\
    otadata_nth (chip_entries d c') (1 - a) = otadata_nth (chip_entries d c) (1 - a) /\
    forall bs b m, restarted d n c' bs b -> boots m bs b = Ok (replicate m (slot_of (otadata_nth (chip_entries d c) a) n)).
Proof.
  intros a. pose proof U as [U1 U2 U3 U4 U5 U6]. pose proof (ol_count _ _ _ _ L) as Hn. set (two := chip_entries d c) in *.
  destruct (active_spec two (entry_at_ok _ _) (entry_at_ok _ _) Ha) as (Ha01 & Hva & Hle). fold a in Ha01, Hva, Hle.
  destruct (Hs a Ha01 Hva) as [Hs1 Hs2]. set (e := otadata_nth two a) in *.
  assert (Fin : forall c' e', otadata_nth (chip_entries d c') a = e' -> otadata_nth (chip_entries d c') (1 - a) = otadata_nth two (1 - a) ->
    bootloader_common_ota_select_valid e' = true -> ota_state e' = ESP_OTA_IMG_VALID -> ota_seq e' = ota_seq e ->
    forall bs b m, restarted d n c' bs b -> boots m bs b = Ok (replicate m (slot_of e n))).
  { intros c' e' He' Ho' Hv' Hst' Hq bs b m Rs. destruct (restarted_ready U1 _ _ _ _ _ _ _ L Rs) as (Rd & En & Hc).
    rewrite (boots_confirmed U m bs b a e') by (done || rewrite En, ?He', ?Ho', ?Hq; done).
    unfold slot_of. rewrite (rs_count _ _ _ _ _ Rs), Hq, u32_small by (unfold is_u32, UINT32_MAX in *; lia). done. }
  unfold esp_ota_mark_app_valid_cancel_rollback, esp_ota_current_ota_is_workable.
  rewrite (ota_read_run U1 U2 _ _ _ _ L). ostep. fold two. fold a.
  destruct (Z.eqb_spec a (-1)) as [|_]; [lia|]. cbn [negb]. rewrite (partition_count_run _ _ _ _ L). ostep.
  destruct (Z.eqb_spec n 0); [lia|]. cbn [negb andb]. fold e.
  destruct (Z.eqb_spec (ota_state e) ESP_OTA_IMG_VALID) as [Hst|Hst]; cbn [negb].
  - exists st, c. split; [done|]. split; [by eapply layout_chip|]. do 3 (split; [done|]). by apply (Fin c e).
  - set (two' := otadata_set two a (e <| ota_state := ESP_OTA_IMG_VALID |>)).
    assert (En : otadata_nth two' a = e <| ota_state := ESP_OTA_IMG_VALID |>) by (by unfold two'; destruct Ha01 as [-> | ->]).
    assert (Ok' : entry_ok (new_entry two' a (ota_seq e))).
    { assert (entry_ok e) as (?&?&?&?&?) by (unfold e, otadata_nth; destruct (a =? 0); apply entry_at_ok).
      unfold new_entry. rewrite En. split_and!; cbn; try done. apply U3. }
    destruct (rewrite_spec st d c n two' (ota_seq e) a L Ha01 Ok') as (err & st' & c' & Er & R & Ro & Rf).
    destruct (Rf Hf) as [-> _]. rewrite Er. ostep. rewrite U6. cbn [andb].
    specialize (Ro eq_refl). rewrite <- chip_entries_nth in Ro by done.
    assert (Eo : otadata_nth (chip_entries d c') (1 - a) = otadata_nth two (1 - a))
      by (apply (other_sector_same d c c' a Ha01 (sr_bytes _ _ _ _ _ _ R))).
    exists st', c'. split; [done|]. split; [apply R|]. rewrite Ro. unfold new_entry at 1 2. rewrite En.
    split; [done|]. split; [done|]. split; [done|]. apply (Fin c' _ Ro Eo); unfold new_entry; rewrite En; try done.
    apply select_valid_spec. cbn. split; [lia|]. done.
Qed.

(** The application and the bootloader agree on the boot partition.  When the
    active entry is not waiting for confirmation, [esp_ota_get_boot_partition]
    returns the partition of exactly the slot the bootloader selects on the same
    flash, and changes nothing. *)
Theorem boot_partition_agrees (d : partition_ptr) (c : esp_flash_t) (n : Z) (st : ota_st)
    (U : plain_setup) (L : ota_layout st d c n) (Hs : seqs_small (chip_entries d c) n)
    (Ha : bootloader_common_get_active_otadata (chip_entries d c) <> -1)
    (Hp : ota_state (otadata_nth (chip_entries d c) (bootloader_common_get_active_otadata (chip_entries d c))) <> ESP_OTA_IMG_PENDING_VERIFY) :
  exists k p, slot_present k st = Some p /\ 0 <= k < n /\ esp_ota_get_boot_partition st = Ok (Some p, st) /\
    forall bs b, restarted d n c bs b ->
    exists b', bootloader_utility_get_selected_boot_partition bs b = Ok (k, b').
Proof.
  destruct U as [U1 U2 U3 U4 U5 U6]. pose proof (ol_count _ _ _ _ L) as Hn.
  set (two := chip_entries d c) in *. set (a := bootloader_common_get_active_otadata two) in *.
  destruct (active_spec two (entry_at_ok _ _) (entry_at_ok _ _) Ha) as (Ha01 & Hva & Hle). fold a in Ha01, Hva, Hle.
  destruct (Hs a Ha01 Hva) as [Hs1 Hs2]. set (k := slot_of (otadata_nth two a) n).
  assert (Hk : 0 <= k < n) by (apply Z.mod_pos_bound; lia).
  destruct (ol_slots _ _ _ _ L k Hk) as [p Hpk]. exists k, p. split; [done|]. split; [done|]. split.
  - unfold esp_ota_get_boot_partition. rewrite (ota_read_run U1 U2 _ _ _ _ L). ostep. fold two.
    rewrite (partition_count_run _ _ _ _ L). ostep. fold a.
    replace (bootloader_common_ota_select_invalid two.1 && bootloader_common_ota_select_invalid two.2) with false.
    2:{ unfold bootloader_common_ota_select_valid, otadata_nth in Hva. apply andb_prop in Hva as [Hi%negb_true_iff _].
        symmetry. destruct Ha01 as [E|E]; rewrite E in Hi; cbn [Z.eqb] in Hi; by rewrite Hi, ?andb_false_r. }
    destruct (Z.eqb_spec n 0); [lia|]. cbn [orb]. destruct (Z.eqb_spec a (-1)); [lia|]. cbn [negb].
    rewrite u32_small by (unfold is_u32, UINT32_MAX in *; lia). fold (slot_of (otadata_nth two a) n). fold k.
    rewrite find_first_present by apply L. fold (slot_present k st). by rewrite Hpk.
  - intros bs b Rs. apply (boots_newest U1 U4 U5 U6 st d c c n bs b a (otadata_nth two a) k L Rs Ha01 eq_refl).
    + split; try done; lia.
    + intros V. specialize (Hle V). fold two. lia.
Qed.
End boot_choice.

(** ** An example: slot 0 confirmed and slot 1 just written *)
Section demo.
#[local] Instance demo_cfg_i : FlashConfig := demo_config.
#[local] Instance demo_env_i : PartitionEnv := demo_env true.
#[local] Instance demo_otac_i : OtaConfig := demo_otac.
#[local] Instance demo_rom_i : BootRom := demo_rom.
#[local] Instance demo_app_i : AppEnv :=
  {| esp_image_verify := fun _ p => offset p =? 0x10000; running_phys_offs := 0x20000; ota_calloc_ok := true;
     read_tries := []; own_secure_version := 0 |}.

Definition demo_data : partition_ptr := (100, mkPartition 1 1 0 0xd000 0x2000 [111] false).
Definition demo_app0 : esp_partition_t := mkPartition 1 0 0x10 0x10000 0x10000 [97] false.
Definition demo_st (seq1 seq2 : Z) : ota_st :=
  let m := write_bytes (write_bytes ∅ 0xd000 (entry_bytes (demo_select seq1 ESP_OTA_IMG_VALID)))
             0xe000 (entry_bytes (demo_select seq2 ESP_OTA_IMG_NEW)) in
  mkOta (mkPart (s_partition_list demo_loaded) {[ 1 := demo_flash m ]} [400]) [] 0 None 0.
Definition demo_main (seq1 seq2 : Z) : esp_flash_t := default (demo_flash ∅) (chips (parts (demo_st seq1 seq2)) !! 1).

Lemma demo_setup : plain_setup.
Proof. split; try done. intros i l. apply u32_range. Qed.

Lemma demo_layout seq1 seq2 : ota_layout (demo_st seq1 seq2) demo_data (demo_main seq1 seq2) 2.
Proof.
  split; try done; try (cbn; lia).
  - apply demo_nodup.
  - intros k Hk. assert (k = 0 \/ k = 1) as [-> | ->] by lia; eexists; vm_compute; reflexivity.
Qed.

Lemma demo_seqs : seqs_small (chip_entries demo_data (demo_main 1 2)) 2.
Proof. intros i [-> | ->] _; vm_compute; split; congruence. Qed.
Lemma demo_seqs_eq : seqs_small (chip_entries demo_data (demo_main 2 2)) 2.
Proof. intros i [-> | ->] _; vm_compute; split; congruence. Qed.

(** Slot 0 is chosen again while slot 1 is active. *)
Lemma set_boot_partition_boots_witness :
  exists st' c', esp_ota_set_boot_partition demo_app0 (demo_st 1 2) = Ok (ESP_OK, st') /\ main_chip st' c' /\
    forall bs b, restarted demo_data 2 c' bs b ->
    exists b', bootloader_utility_get_selected_boot_partition bs b = Ok (0, b').
Proof.
  apply (set_boot_partition_boots demo_data demo_app0 (demo_main 1 2) 2 0 (demo_st 1 2));
    [apply demo_setup|apply demo_layout|reflexivity|lia|reflexivity|reflexivity|reflexivity|apply demo_seqs].
Defined.

Lemma set_boot_partition_power_safe_witness :
  bootloader_common_get_active_otadata (chip_entries demo_data (demo_main 1 2)) = 1 /\
  exists err st' c' e, esp_ota_set_boot_partition demo_app0 (demo_st 1 2) = Ok (err, st') /\ main_chip st' c' /\ slot_of e 2 = 0 /\
    otadata_nth (chip_entries demo_data c') 1 = otadata_nth (chip_entries demo_data (demo_main 1 2)) 1 /\
    let t := otadata_nth (chip_entries demo_data c') (1 - 1) in
    (err = ESP_OK -> t = e) /\
    forall bs b, restarted demo_data 2 c' bs b ->
      (t = e -> exists b', bootloader_utility_get_selected_boot_partition bs b = Ok (0, b')) /\
      (t = otadata_nth (chip_entries demo_data (demo_main 1 2)) (1 - 1) \/ bootloader_common_ota_select_valid t = false ->
       exists b', bootloader_utility_get_selected_boot_partition bs b =
         Ok (slot_of (otadata_nth (chip_entries demo_data (demo_main 1 2)) 1) 2, b')).
Proof.
  assert (E : bootloader_common_get_active_otadata (chip_entries demo_data (demo_main 1 2)) = 1) by (vm_compute; reflexivity).
  split; [exact E|].
  pose proof (set_boot_partition_power_safe demo_data demo_app0 (demo_main 1 2) 2 0 (demo_st 1 2) demo_setup (demo_layout 1 2)
    ltac:(lia) eq_refl eq_refl eq_refl demo_seqs) as H. rewrite E in H.
  apply H; [discriminate|vm_compute; discriminate].
Defined.

Lemma confirmed_image_stays_witness :
  bootloader_common_get_active_otadata (chip_entries demo_data (demo_main 2 2)) = 0 /\
  exists st' c', esp_ota_mark_app_valid_cancel_rollback (demo_st 2 2) = Ok (Some ESP_OK, st') /\ main_chip st' c' /\
    ota_state (otadata_nth (chip_entries demo_data c') 0) = ESP_OTA_IMG_VALID /\
    ota_seq (otadata_nth (chip_entries demo_data c') 0) = ota_seq (otadata_nth (chip_entries demo_data (demo_main 2 2)) 0) /\
    otadata_nth (chip_entries demo_data c') (1 - 0) = otadata_nth (chip_entries demo_data (demo_main 2 2)) (1 - 0) /\
    forall bs b m, restarted demo_data 2 c' bs b ->
      boots m bs b = Ok (replicate m (slot_of (otadata_nth (chip_entries demo_data (demo_main 2 2)) 0) 2)).
Proof.
  assert (E : bootloader_common_get_active_otadata (chip_entries demo_data (demo_main 2 2)) = 0) by (vm_compute; reflexivity).
  split; [exact E|].
  pose proof (confirmed_image_stays demo_data (demo_main 2 2) 2 (demo_st 2 2) demo_setup (demo_layout 2 2) eq_refl demo_seqs_eq) as H.
  rewrite E in H. apply H. discriminate.
Defined.

Lemma boot_partition_agrees_witness :
  exists k p, slot_present k (demo_st 1 2) = Some p /\ 0 <= k < 2 /\ esp_ota_get_boot_partition (demo_st 1 2) = Ok (Some p, demo_st 1 2) /\
    forall bs b, restarted demo_data 2 (demo_main 1 2) bs b ->
    exists b', bootloader_utility_get_selected_boot_partition bs b = Ok (k, b').
Proof.
  apply (boot_partition_agrees demo_data (demo_main 1 2) 2 (demo_st 1 2) demo_setup (demo_layout 1 2) demo_seqs);
    vm_compute; discriminate.
Defined.
End demo.
