(* ===== verification/OtaUpdate.v ===== *)
(** * Receiving an update: the slot to write and the image stream
      ([components/app_update/esp_ota_ops.c])

    Which partition an update goes to, and the effect of the calls of
    [esp_ota_write] on the flash, however the image is cut into pieces. *)
From S2P Require Import Prelude Mem EspFlash Partition BootFlash OtaData Bootloader OtaOps OtaBoot.

(** ** The next slot *)
Section next_update.
Context {cfg : FlashConfig} {env : PartitionEnv} {otac : OtaConfig} {app : AppEnv}.

(** The OTA application partitions, in the order of their slots. *)
Definition ota_partitions (st : ota_st) : list partition_ptr :=
  omap (fun t => present ESP_PARTITION_TYPE_APP t st) (seqZ ESP_PARTITION_SUBTYPE_APP_OTA_0 16).

Lemma present_item ty sub st p :
  present ty sub st = Some p ->
  exists i, i ∈ s_partition_list (parts st) /\ p = info_ptr i /\ wanted ty sub None (info i).
Proof.
  unfold present. destruct (filter _ _) as [|i l] eqn:E; [done|]. intros [= <-].
  exists i. assert (H : i ∈ filter (fun i => wanted ty sub None (info i)) (s_partition_list (parts st))) by (rewrite E; left).
  apply list_elem_of_filter in H as [H1 H2]. done.
Qed.

Lemma present_inj ty s1 s2 st p q :
  NoDup (item_addr <$> s_partition_list (parts st)) -> s1 <> ESP_PARTITION_SUBTYPE_ANY -> s2 <> ESP_PARTITION_SUBTYPE_ANY ->
  present ty s1 st = Some p -> present ty s2 st = Some q -> p.1 = q.1 -> s1 = s2.
Proof.
  intros Hd N1 N2 (i & Hi & -> & _ & Hs1 & _)%present_item (j & Hj & -> & _ & Hs2 & _)%present_item E. cbn in E.
  apply list_elem_of_lookup in Hi as [x Hx]. apply list_elem_of_lookup in Hj as [y Hy].
  assert (x = y) as ->.
  { apply (NoDup_lookup _ _ _ (item_addr i) Hd); rewrite list_lookup_fmap; [by rewrite Hx|by rewrite Hy, E]. }
  assert (i = j) as -> by congruence. destruct Hs1 as [?|<-]; [done|]. by destruct Hs2.
Qed.

Lemma omap_fst_nodup {A B} (f : B -> option (Z * A)) l :
  NoDup l -> (forall x y p q, x ∈ l -> y ∈ l -> f x = Some p -> f y = Some q -> p.1 = q.1 -> x = y) ->
  NoDup ((omap f l).*1).
Proof.
  induction 1 as [|x l Hx Hl IH]; intros Hf; cbn; [constructor|].
  assert (NoDup ((omap f l).*1)) by (apply IH; intros; eapply Hf; eauto; by right).
  destruct (f x) as [p|] eqn:E; cbn; [|done]. constructor; [|done].
  intros (q & Eq & Hq)%list_elem_of_fmap. apply list_elem_of_omap in Hq as (y & Hy & Ey).
  apply Hx. rewrite (Hf x y p q); [done|left|by right|done|done|done].
Qed.

Lemma ota_partitions_nodup st :
  NoDup (item_addr <$> s_partition_list (parts st)) -> NoDup ((ota_partitions st).*1).
Proof.
  intros Hd. apply omap_fst_nodup; [apply NoDup_seqZ|]. intros x y p q Hx Hy Ex Ey E.
  apply elem_of_seqZ in Hx, Hy. unfold ESP_PARTITION_SUBTYPE_APP_OTA_0 in *.
  eapply present_inj; eauto; unfold ESP_PARTITION_SUBTYPE_ANY; lia.
Qed.

(** The loop walks over the partitions present. *)
Fixpoint next_walk (ps : list partition_ptr) (start : partition_ptr) (default_ota : option partition_ptr) (next_is_result : bool)
    : option partition_ptr :=
  match ps with
  | [] => default_ota
  | p :: ps =>
      let default_ota := match default_ota with None => Some p | d => d end in
      if same_ptr p start then next_walk ps start default_ota true
      else if next_is_result then Some p else next_walk ps start default_ota next_is_result
  end.

Lemma next_update_loop_spec subs start st :
  s_partition_list (parts st) <> [] -> NoDup (item_addr <$> s_partition_list (parts st)) ->
  forall dflt nxt, next_update_loop subs start dflt nxt st =
    Ok (next_walk (omap (fun t => present ESP_PARTITION_TYPE_APP t st) subs) start dflt nxt, st).
Proof.
  intros Hl Hd. induction subs as [|t subs IH]; intros dflt nxt; [done|].
  cbn [next_update_loop omap list_omap]. rewrite find_first_present by done. ostep.
  destruct (present ESP_PARTITION_TYPE_APP t st) as [p|]; [|apply IH]. cbn [next_walk].
  destruct (same_ptr p start); [apply IH|]. destruct nxt; [done|]. apply IH.
Qed.

Lemma next_walk_absent ps start dflt :
  Forall (fun p => p.1 <> start.1) ps -> next_walk ps start dflt false = match dflt with None => head ps | d => d end.
Proof.
  intros H. revert dflt. induction H as [|p ps Hp H IH]; intros dflt; [by destruct dflt|]. cbn [next_walk].
  unfold same_ptr. destruct (Z.eqb_spec p.1 start.1); [done|]. rewrite IH. by destruct dflt.
Qed.

Lemma next_walk_after ps start d :
  Forall (fun p => p.1 <> start.1) ps -> next_walk ps start (Some d) true = head (ps ++ [d]).
Proof.
  destruct 1 as [|p ps Hp H]; [done|]. cbn. unfold same_ptr. by destruct (Z.eqb_spec p.1 start.1).
Qed.

Lemma next_walk_cycle ps q qs start dflt :
  q.1 = start.1 -> Forall (fun p => p.1 <> start.1) ps -> Forall (fun p => p.1 <> start.1) qs ->
  next_walk (ps ++ q :: qs) start dflt false = head (qs ++ match dflt with Some d => [d] | None => ps ++ [q] end).
Proof.
  intros Hq Hps Hqs. revert dflt. induction Hps as [|p ps Hp Hps IH]; intros dflt; simpl; unfold same_ptr.
  - rewrite Hq, Z.eqb_refl. destruct dflt; by apply next_walk_after.
  - destruct (Z.eqb_spec p.1 start.1); [done|]. rewrite IH. destruct dflt; [done|]. by destruct qs.
Qed.

(** The update slot.  [esp_ota_get_next_update_partition(NULL)] on a device
    running from [r] returns, when [r] is an OTA slot, the OTA partition that
    follows it cyclically (with two slots or more, never the running one), and
    otherwise the first OTA partition; it returns nothing only when there is no
    OTA partition. *)
Theorem next_update_is_cyclic (r : partition_ptr) (st : ota_st)
    (Hl : s_partition_list (parts st) <> []) (Hd : NoDup (item_addr <$> s_partition_list (parts st)))
    (Hr : curr_partition st = Some r) :
  (forall ps q qs, ota_partitions st = ps ++ q :: qs -> q.1 = r.1 ->
     esp_ota_get_next_update_partition None st = Ok (head (qs ++ ps ++ [q]), st) /\
     ((1 < length (ota_partitions st))%nat -> exists p, head (qs ++ ps ++ [q]) = Some p /\ p.1 <> r.1)) /\
  (Forall (fun p => p.1 <> r.1) (ota_partitions st) ->
     esp_ota_get_next_update_partition None st = Ok (head (ota_partitions st), st)).
Proof.
  assert (Run : esp_ota_get_next_update_partition None st = Ok (next_walk (ota_partitions st) r None false, st)).
  { unfold esp_ota_get_next_update_partition, esp_ota_get_running_partition. rewrite Hr. do 2 ostep. by rewrite next_update_loop_spec. }
  rewrite Run. split.
  - intros ps q qs E Eq. pose proof (ota_partitions_nodup st Hd) as N. rewrite E in N |- *.
    rewrite fmap_app in N. apply NoDup_app in N as (_ & N1 & N2). cbn in N2. apply NoDup_cons in N2 as [N2 _].
    assert (Hps : Forall (fun p => p.1 <> r.1) ps).
    { apply Forall_forall. intros p Hp Ep. apply (N1 p.1); [by apply list_elem_of_fmap_2|]. rewrite Ep, <- Eq. left. }
    assert (Hqs : Forall (fun p => p.1 <> r.1) qs).
    { apply Forall_forall. intros p Hp Ep. apply N2. rewrite Eq, <- Ep. by apply list_elem_of_fmap_2. }
    rewrite next_walk_cycle by done. split; [done|]. intros Hlen.
    destruct Hqs as [|p qs Hp _]; [|by exists p]. destruct Hps as [|p ps Hp _]; [simpl in Hlen; lia|by exists p].
  - intros H. by rewrite next_walk_absent.
Qed.
End next_update.

(** ** The image stream *)
Section stream.
Context {cfg : FlashConfig} {env : PartitionEnv} {otac : OtaConfig} {app : AppEnv}.

(** The calls of [esp_ota_write], one per piece: their results. *)
Fixpoint ota_write_all (h : Z) (pieces : list (list Z)) (st : ota_st) : outcome (list Z * ota_st) :=
  match pieces with
  | [] => Ok ([], st)
  | l :: pieces =>
      '(ret, st) ← esp_ota_write h l st;
      '(rets, st) ← ota_write_all h pieces st;
      Ok (ret :: rets, st)
  end.

Lemma find_handle_Some h l k it r :
  find_handle h l = Some (k, it, r) ->
  handle it = h /\ forall it', handle it' = h -> find_handle h (k ++ it' :: r) = Some (k, it', r).
Proof.
  revert k it r. induction l as [|e l IH]; intros k it r; cbn; [done|].
  destruct (Z.eqb_spec (handle e) h) as [E|E].
  - intros [= <- <- <-]. split; [done|]. intros it' Hit'. cbn. by rewrite Hit', Z.eqb_refl.
  - destruct (find_handle h l) as [[[k' e'] r']|] eqn:F; [|done]. intros [= <- <- <-].
    destruct (IH _ _ _ eq_refl) as [H1 H2]. split; [done|]. intros it' Hit'. cbn.
    destruct (Z.eqb_spec (handle e) h); [done|]. by rewrite H2.
Qed.

(** How a piece of the image is stored at an address of the flash; without
    encryption, as it is. *)
Class Cipher := { cipher : Z -> list Z -> list Z }.
Context {ci : Cipher}.

(** The documented behaviour of the encrypted write: it needs 16-byte alignment of
    its address and length, and stores the encryption of each 16-byte block. *)
Record encrypted_write_ok : Prop := {
  ew_write : forall a l c, a mod 16 = 0 -> lenZ l mod 16 = 0 -> fl_faults c = [] ->
    spi_flash_write_encrypted a l c = Ok (ESP_OK, c <| fl_mem := program (fl_mem c) a (cipher a l) |>);
  ew_app : forall a l k, a mod 16 = 0 -> lenZ l mod 16 = 0 -> cipher a (l ++ k) = cipher a l ++ cipher (a + lenZ l) k;
  ew_length : forall a l, lenZ (cipher a l) = lenZ l
}.

Definition stored (a : Z) (l : list Z) : list Z := if esp_flash_encryption_enabled then cipher a l else l.
(** The part of a stream that is in flash: whole blocks, with encryption. *)
Definition flushed (n : Z) : Z := if esp_flash_encryption_enabled then n - n mod 16 else n.

(** An update in progress: [w] was received since the flash was [m0]. *)
Record streaming (m0 : mem) (w : list Z) (it : ota_ops_entry_t) (c : esp_flash_t) (ps : part_state) : Prop := {
  sm_ok : partition_ok (part it).2 c ps;
  sm_faults : fl_faults c = [];
  sm_writable : forall a k, region_protected c a k = false;
  sm_mode : encrypted (part it).2 = esp_flash_encryption_enabled;
  sm_chip : flash_chip (part it).2 = esp_flash_default_chip;
  sm_aligned : address (part it).2 mod 16 = 0;
  sm_erased : 0 < erased_size it;
  sm_bytes : Forall is_byte w;
  sm_wrote : wrote_size it = flushed (lenZ w);
  sm_partial : partial_bytes it = lenZ w - flushed (lenZ w);
  sm_buffer : length (partial_data it) = 16%nat;
  sm_data : take (Z.to_nat (partial_bytes it)) (partial_data it) = drop (Z.to_nat (wrote_size it)) w;
  sm_mem : fl_mem c = program m0 (address (part it).2) (stored (address (part it).2) (take (Z.to_nat (wrote_size it)) w))
}.

Context (Hcfg : CONFIG_SPI_FLASH_ENABLE_ENCRYPTED_READ_WRITE = true)
  (Hew : esp_flash_encryption_enabled = true -> encrypted_write_ok).

(** Writing the bytes that follow those in flash. *)
Lemma stream_write p c ps off l m0 w :
  partition_ok p c ps -> fl_faults c = [] -> (forall a k, region_protected c a k = false) ->
  encrypted p = esp_flash_encryption_enabled -> flash_chip p = esp_flash_default_chip -> address p mod 16 = 0 ->
  Forall is_byte l -> lenZ w = off -> off + lenZ l <= size p ->
  (esp_flash_encryption_enabled = true -> off mod 16 = 0 /\ lenZ l mod 16 = 0) ->
  fl_mem c = program m0 (address p) (stored (address p) w) ->
  exists ps' c', esp_partition_write p off l ps = Ok (ESP_OK, ps') /\ partition_ok p c' ps' /\ fl_faults c' = [] /\
    region_protected c' = region_protected c /\
    fl_mem c' = program m0 (address p) (stored (address p) (w ++ l)).
Proof.
  intros P Hf Hpr Henc Hch Hal Hl Hw Hb Hmod Hm. pose proof (lenZ_nonneg l). pose proof (lenZ_nonneg w).
  pose proof P as [Pc Pg Pa Ps Pe]. pose proof (co_size _ Pg).
  destruct esp_flash_encryption_enabled eqn:En.
  - destruct (Hmod eq_refl) as [Ho Hlm]. destruct (Hew eq_refl) as [W1 W2 W3].
    unfold esp_partition_write. rewrite (proj2 (check_range_inside p off (lenZ l) ltac:(lia) ltac:(lia) ltac:(lia)) Hb).
    rewrite Henc, Hcfg, Hch, Z.eqb_refl, u32_small by (unfold is_u32; lia). cbn [negb].
    unfold on_chip. rewrite <- Hch, Pc.
    assert (A : (address p + off) mod 16 = 0) by (Z.to_euclidean_division_equations; lia).
    rewrite (W1 _ _ c A Hlm Hf). ostep. eexists _, _. split; [done|].
    split; [split; cbn; [by rewrite lookup_insert_eq|by destruct Pg; split|done..]|].
    split; [done|]. split; [done|]. cbn. unfold stored in *. rewrite En in Hm |- *.
    rewrite Hm, W2 by (done || by rewrite Hw). rewrite program_app, W3. by rewrite Hw.
  - destruct (write_in_range p c ps off l P Henc Hl ltac:(lia) Hb (Hpr _ _)) as (err & ps' & c' & E & Hc' & O & Em & F).
    destruct (F Hf) as [-> Hf']. exists ps', c'. split; [done|].
    destruct O as (O1 & O2 & O3 & O4). destruct (O4 c Pc) as (c2 & E2 & S & _). assert (c2 = c') as -> by congruence.
    split; [split; try done; [by eapply chip_ok_same|by rewrite (proj1 S)]|].
    split; [done|]. split; [apply S|]. rewrite Em by done. unfold stored in *. rewrite En in Hm |- *. by rewrite Hm, program_app, Hw.
Qed.

Lemma blit_length buf off (l : list Z) :
  0 <= off -> off + lenZ l <= lenZ buf -> length (blit buf off l) = length buf.
Proof. unfold blit, lenZ. intros. rewrite !length_app, length_take, length_drop. lia. Qed.
Lemma blit_take buf off (l : list Z) :
  0 <= off -> off + lenZ l <= lenZ buf ->
  take (Z.to_nat (off + lenZ l)) (blit buf off l) = take (Z.to_nat off) buf ++ l.
Proof.
  unfold blit, lenZ. intros. rewrite app_assoc, take_app_le, take_ge; [done| |];
    rewrite length_app, length_take; lia.
Qed.

Lemma flushed_enc n : esp_flash_encryption_enabled = true -> flushed n = n - n mod 16.
Proof. unfold flushed. by intros ->. Qed.

(** Bytes received that stay in the buffer of 16. *)
Lemma stream_buffer m0 w it c ps l :
  esp_flash_encryption_enabled = true -> streaming m0 w it c ps -> Forall is_byte l ->
  partial_bytes it + lenZ l < 16 ->
  streaming m0 (w ++ l) (it <| partial_data := blit (partial_data it) (partial_bytes it) l |>
                            <| partial_bytes := partial_bytes it + lenZ l |>) c ps.
Proof.
  intros En [] Hl Hn. rewrite (flushed_enc _ En) in sm_wrote0, sm_partial0. pose proof (lenZ_nonneg l). pose proof (lenZ_nonneg w).
  assert (Hb : 0 <= partial_bytes it) by (rewrite sm_partial0; Z.to_euclidean_division_equations; lia).
  assert (Hf : flushed (lenZ (w ++ l)) = wrote_size it)
    by (rewrite (flushed_enc _ En), lenZ_app; Z.to_euclidean_division_equations; lia).
  assert (Hlb : lenZ (partial_data it) = 16) by (unfold lenZ; lia).
  assert (Hw : 0 <= wrote_size it <= lenZ w) by (Z.to_euclidean_division_equations; lia).
  split; cbn; try done.
  - by apply Forall_app.
  - rewrite Hf, lenZ_app. lia.
  - rewrite blit_length by lia. done.
  - rewrite blit_take by lia. rewrite sm_data0, drop_app_le by (unfold lenZ in *; lia). done.
  - rewrite take_app_le by (unfold lenZ in *; lia). done.
Qed.

(** Writing whole blocks when the buffer is empty. *)
Lemma stream_blocks m0 w it c st l :
  streaming m0 w it c (parts st) -> partial_bytes it = 0 -> Forall is_byte l ->
  lenZ w + lenZ l <= size (part it).2 -> flushed (lenZ l) = lenZ l ->
  exists c' ps', write_and_count it l st = Ok (ESP_OK, it <| wrote_size := wrote_size it + lenZ l |>, st <| parts := ps' |>) /\
    streaming m0 (w ++ l) (it <| wrote_size := wrote_size it + lenZ l |>) c' ps'.
Proof.
  intros [] Hp Hl Hs Hfl. rewrite sm_partial0 in Hp. pose proof (lenZ_nonneg l). pose proof (lenZ_nonneg w).
  pose proof sm_ok0 as [? G ? ? ?]. pose proof (co_size _ G).
  assert (Hw : wrote_size it = lenZ w) by lia.
  assert (Hm : esp_flash_encryption_enabled = true -> wrote_size it mod 16 = 0 /\ lenZ l mod 16 = 0).
  { intros En. rewrite (flushed_enc _ En) in Hfl. rewrite (flushed_enc _ En) in Hp. rewrite Hw. lia. }
  rewrite Hw, take_ge in sm_mem0 by (unfold lenZ; lia).
  destruct (stream_write (part it).2 c (parts st) (wrote_size it) l m0 w) as (ps' & c' & E & P & F & R & M); try done; [lia|].
  exists c', ps'. unfold write_and_count, with_parts. rewrite E. do 2 ostep. cbn [Z.eqb ESP_OK].
  rewrite u32_small by (unfold is_u32; lia). split; [done|].
  assert (Hfa : flushed (lenZ (w ++ l)) = lenZ (w ++ l)).
  { unfold flushed in *. rewrite lenZ_app. destruct esp_flash_encryption_enabled; [|done].
    Z.to_euclidean_division_equations. lia. }
  split; cbn; try done.
  - intros. by rewrite R.
  - by apply Forall_app.
  - rewrite Hfa, lenZ_app. lia.
  - rewrite Hfa. lia.
  - rewrite sm_partial0, Hp. rewrite Hw, drop_ge by (rewrite length_app; unfold lenZ; lia). done.
  - rewrite Hw, take_ge by (rewrite length_app; unfold lenZ; lia). done.
Qed.

(** The buffer completed to 16 bytes and written. *)
Lemma stream_flush m0 w it c st l :
  esp_flash_encryption_enabled = true -> streaming m0 w it c (parts st) -> Forall is_byte l ->
  partial_bytes it <> 0 -> partial_bytes it + lenZ l = 16 -> lenZ w + lenZ l <= size (part it).2 ->
  let it' := it <| partial_data := blit (partial_data it) (partial_bytes it) l |> <| partial_bytes := partial_bytes it + lenZ l |> in
  exists c' ps', esp_partition_write (part it').2 (wrote_size it') (partial_data it') (parts st) = Ok (ESP_OK, ps') /\
    streaming m0 (w ++ l) (it' <| partial_bytes := 0 |> <| partial_data := replicate 16 0xFF |>
                               <| wrote_size := u32 (wrote_size it' + 16) |>) c' ps'.
Proof.
  intros En [] Hl Hp Hn Hs it'. rewrite (flushed_enc _ En) in sm_wrote0, sm_partial0. pose proof (lenZ_nonneg l). pose proof (lenZ_nonneg w).
  pose proof sm_ok0 as [? G ? ? ?]. pose proof (co_size _ G).
  assert (Hlb : lenZ (partial_data it) = 16) by (unfold lenZ; lia).
  assert (Hw : 0 <= wrote_size it <= lenZ w) by (Z.to_euclidean_division_equations; lia).
  assert (Hd : partial_data it' = drop (Z.to_nat (wrote_size it)) (w ++ l)).
  { subst it'. cbn. rewrite drop_app_le by (unfold lenZ in *; lia). rewrite <- sm_data0.
    rewrite <- blit_take by lia. rewrite take_ge; [done|]. rewrite blit_length by lia. lia. }
  assert (Hld : lenZ (drop (Z.to_nat (wrote_size it)) (w ++ l)) = 16)
    by (unfold lenZ in *; rewrite length_drop, length_app; lia).
  assert (Hfb : Forall is_byte (w ++ l)) by (by apply Forall_app).
  assert (Htw : lenZ (take (Z.to_nat (wrote_size it)) w) = wrote_size it) by (unfold lenZ in *; rewrite length_take; lia).
  destruct (stream_write (part it).2 c (parts st) (wrote_size it) (partial_data it') m0 (take (Z.to_nat (wrote_size it)) w))
    as (ps' & c' & E & P & F & R & M); try done.
  { rewrite Hd. by apply Forall_drop. } { rewrite Hd, Hld. lia. }
  { intros _. rewrite Hd, Hld. split; [Z.to_euclidean_division_equations; lia|done]. }
  exists c', ps'. split; [done|].
  assert (Hfa : flushed (lenZ (w ++ l)) = lenZ (w ++ l))
    by (rewrite (flushed_enc _ En), lenZ_app; Z.to_euclidean_division_equations; lia).
  assert (Hwa : u32 (wrote_size it + 16) = lenZ (w ++ l)) by (rewrite lenZ_app, u32_small by (unfold is_u32; lia); lia).
  split; cbn; rewrite ?Hwa, ?Hfa; try done.
  - intros. by rewrite R.
  - lia.
  - rewrite drop_ge by (unfold lenZ; lia). done.
  - rewrite M, Hd. do 2 f_equal. rewrite (take_ge (w ++ l)) by (unfold lenZ; lia).
    rewrite <- (take_app_le w l) by (unfold lenZ in *; lia). apply take_drop.
Qed.

Lemma parts_upd_twice (st : ota_st) p q : st <| parts := p |> <| parts := q |> = st <| parts := q |>.
Proof. done. Qed.

(** Blocks are written and the tail is kept, with an empty buffer. *)
Lemma stream_rest m0 w it c st l :
  esp_flash_encryption_enabled = true -> streaming m0 w it c (parts st) -> partial_bytes it = 0 -> Forall is_byte l ->
  lenZ w + lenZ l <= size (part it).2 ->
  exists it' c' ps', (let '(it, l) := keep_tail it l in write_and_count it l st) = Ok (ESP_OK, it', st <| parts := ps' |>) /\
    handle it' = handle it /\ part it' = part it /\ streaming m0 (w ++ l) it' c' ps'.
Proof.
  intros En S Hp Hl Hs. pose proof (lenZ_nonneg l). pose proof (Z.mod_pos_bound (lenZ l) 16 ltac:(lia)).
  pose proof (Z.mod_le (lenZ l) 16 ltac:(lia) ltac:(lia)).
  remember (Z.to_nat (lenZ l - lenZ l mod 16)) as n eqn:En'. assert (Hn : Z.of_nat n = lenZ l - lenZ l mod 16) by lia.
  assert (L1 : lenZ (take n l) = lenZ l - lenZ l mod 16) by (unfold lenZ in *; rewrite length_take; lia).
  assert (L2 : lenZ (drop n l) = lenZ l mod 16) by (unfold lenZ in *; rewrite length_drop; lia).
  destruct (stream_blocks m0 w it c st (take n l) S Hp) as (c' & ps' & E & S').
  { by apply Forall_take. } { lia. } { rewrite (flushed_enc _ En), L1. Z.to_euclidean_division_equations; lia. }
  unfold write_and_count in E. unfold keep_tail. rewrite <- En'.
  destruct (Z.eqb_spec (lenZ l mod 16) 0) as [Ez|Ez]; cbn [negb].
  - exists (it <| wrote_size := wrote_size it + lenZ (take n l) |>), c', ps'.
    assert (Et : take n l = l) by (apply take_ge; unfold lenZ in *; lia). rewrite Et in *.
    split; [|done]. unfold write_and_count. rewrite Ez. destruct it. cbn in Hp |- *. subst. exact E.
  - set (it2 := it <| wrote_size := wrote_size it + lenZ (take n l) |>) in *.
    pose proof (stream_buffer m0 _ it2 c' ps' (drop n l) En S' ltac:(by apply Forall_drop)) as S2.
    change (partial_bytes it2) with (partial_bytes it) in S2. rewrite Hp, L2 in S2. specialize (S2 ltac:(lia)).
    rewrite <- app_assoc, take_drop in S2. eexists _, c', ps'. split; [|split; [|split; [|exact S2]]]; [|done..].
    unfold write_and_count. cbn [part wrote_size upd]. destruct (with_parts _ st) as [[r s]| | |]; cbn in E |- *; try discriminate.
    assert (r = ESP_OK) as -> by congruence. cbn in E |- *. injection E as E1 ->. do 3 f_equal.
    subst it2. cbn. by rewrite E1.
Qed.

Lemma write_entry_step m0 w it c st l :
  streaming m0 w it c (parts st) -> Forall is_byte l -> lenZ w + lenZ l <= size (part it).2 ->
  (w = [] -> l = [] \/ nth 0 l 0 = ESP_IMAGE_HEADER_MAGIC) ->
  exists it' c' ps', ota_write_entry it l st = Ok (ESP_OK, it', st <| parts := ps' |>) /\
    handle it' = handle it /\ part it' = part it /\ streaming m0 (w ++ l) it' c' ps'.
Proof.
  intros S Hl Hs Hm. pose proof (lenZ_nonneg l). pose proof (lenZ_nonneg w).
  unfold ota_write_entry. oassert ltac:(apply Z.ltb_lt, S).
  replace ((wrote_size it =? 0) && (partial_bytes it =? 0) && (0 <? lenZ l) && negb (nth 0 l 0 =? ESP_IMAGE_HEADER_MAGIC)) with false.
  2:{ symmetry. apply not_true_iff_false. rewrite !andb_true_iff, negb_true_iff, !Z.eqb_eq, Z.eqb_neq, Z.ltb_lt.
      intros [[[A B] C] D]. pose proof (sm_wrote _ _ _ _ _ S). pose proof (sm_partial _ _ _ _ _ S).
      destruct Hm as [->| ?]; [|by unfold lenZ in C|done]. apply nil_length_inv. unfold lenZ in *. lia. }
  case_eq esp_flash_encryption_enabled; intros En.
  2:{ assert (P0 : partial_bytes it = 0) by (rewrite (sm_partial _ _ _ _ _ S); unfold flushed; rewrite En; lia).
      destruct (stream_blocks m0 w it c st l S P0 Hl Hs) as (c' & ps' & E & S'); [unfold flushed; by rewrite En|].
      eexists _, c', ps'. done. }
  unfold flush_partial. destruct (Z.eqb_spec (partial_bytes it) 0) as [P0|P0]; cbn [negb].
  { ostep. cbn beta iota. by apply (stream_rest m0 w it c). }
  assert (Hb : 0 < partial_bytes it < 16).
  { pose proof (sm_partial _ _ _ _ _ S) as P. rewrite (flushed_enc _ En) in P. Z.to_euclidean_division_equations. lia. }
  set (k := Z.min (16 - partial_bytes it) (lenZ l)).
  assert (Lk : lenZ (take (Z.to_nat k) l) = k) by (unfold lenZ in *; rewrite length_take; lia).
  set (it1 := it <| partial_data := _ |> <| partial_bytes := _ |>). change (partial_bytes it1) with (partial_bytes it + k).
  destruct (Z.eqb_spec (partial_bytes it + k) 16) as [Ek|Ek]; cbn [negb].
  - destruct (stream_flush m0 w it c st (take (Z.to_nat k) l) En S) as (c' & ps' & E & S'); [by apply Forall_take|done|lia|lia|].
    rewrite Lk in E, S'. fold it1 in E, S'. unfold with_parts. rewrite E. do 2 ostep. cbn [negb Z.eqb ESP_OK]. ostep. cbn beta iota.
    set (st1 := st <| parts := ps' |>). change ps' with (parts st1) in S'.
    destruct (stream_rest m0 _ _ c' st1 (drop (Z.to_nat k) l) En S' eq_refl) as (it' & c2 & ps2 & E2 & H2 & Hp2 & S2).
    { by apply Forall_drop. } { rewrite <- lenZ_app, <- app_assoc, take_drop, lenZ_app. exact Hs. }
    rewrite <- app_assoc, take_drop in S2. exists it', c2, ps2. by rewrite E2.
  - assert (k = lenZ l) as Ekl by lia. assert (Et : take (Z.to_nat k) l = l) by (apply take_ge; unfold lenZ in *; lia).
    unfold it1. rewrite Et. ostep. cbn beta iota. eexists _, c, (parts st). split; [by destruct st|]. split; [done|]. split; [done|].
    rewrite Ekl. apply stream_buffer; [done|done|done|lia].
Qed.

Lemma ota_write_all_spec h m0 k r pieces : forall w it c st,
  find_handle h (s_ota_ops_entries st) = Some (k, it, r) -> streaming m0 w it c (parts st) ->
  Forall (Forall is_byte) pieces -> lenZ w + lenZ (concat pieces) <= size (part it).2 ->
  (w = [] -> head (concat pieces) = None \/ head (concat pieces) = Some ESP_IMAGE_HEADER_MAGIC) ->
  exists st' it' c', ota_write_all h pieces st = Ok (replicate (length pieces) ESP_OK, st') /\
    find_handle h (s_ota_ops_entries st') = Some (k, it', r) /\ part it' = part it /\
    streaming m0 (w ++ concat pieces) it' c' (parts st').
Proof.
  induction pieces as [|l pieces IH]; intros w it c st Hh S Hb Hs Hm.
  { exists st, it, c. cbn. by rewrite app_nil_r. }
  inversion Hb as [|?? Hl Hb']; subst. cbn [concat] in Hs, Hm. rewrite lenZ_app in Hs. pose proof (lenZ_nonneg (concat pieces)).
  destruct (find_handle_Some _ _ _ _ _ Hh) as [Eh Hrep].
  destruct (write_entry_step m0 w it c st l S Hl ltac:(lia)) as (it1 & c1 & ps1 & E & Eh1 & Ep1 & S1).
  { intros Ew. destruct l as [|v l]; [by left|right]. destruct (Hm Ew) as [?|[= ->]]; done. }
  set (st1 := st <| parts := ps1 |> <| s_ota_ops_entries := k ++ it1 :: r |>).
  destruct (IH (w ++ l) it1 c1 st1) as (st' & it' & c' & E' & Hh' & Ep' & S'); try done.
  { apply Hrep. congruence. } { rewrite lenZ_app, Ep1. lia. }
  { intros [-> ->]%app_nil. by apply Hm. }
  exists st', it', c'. cbn [ota_write_all length replicate concat]. unfold esp_ota_write. rewrite Hh, E. do 2 ostep.
  fold st1. rewrite E'. ostep. rewrite app_assoc. split; [done|]. split; [done|]. split; [congruence|done].
Qed.
End stream.

Section image.
Context {cfg : FlashConfig} {env : PartitionEnv} {otac : OtaConfig} {app : AppEnv} {ci : Cipher}.

(** C21. The image is stored as sent, however it is cut.  For an update in progress
    on a partition that lies in its chip and a flash that does not fail, any
    pieces whose total fits and whose first byte is the image magic: every call
    of [esp_ota_write] succeeds, and the flash holds what programming at once
    all the bytes sent so far leaves: all of them without flash encryption, the
    encryption of the whole 16-byte blocks with it, the last up to 15 bytes
    waiting in the handle's buffer. *)
Theorem ota_write_any_pieces (h : Z) (pieces : list (list Z)) (m0 : mem) (c : esp_flash_t)
    (k r : list ota_ops_entry_t) (it : ota_ops_entry_t) (st : ota_st)
    (Hcfg : CONFIG_SPI_FLASH_ENABLE_ENCRYPTED_READ_WRITE = true) (Hew : esp_flash_encryption_enabled = true -> encrypted_write_ok)
    (Hh : find_handle h (s_ota_ops_entries st) = Some (k, it, r)) (S : streaming m0 [] it c (parts st))
    (Hb : Forall (Forall is_byte) pieces) (Hs : lenZ (concat pieces) <= size (part it).2)
    (Hm : head (concat pieces) = Some ESP_IMAGE_HEADER_MAGIC) :
  exists st' it' c', ota_write_all h pieces st = Ok (replicate (length pieces) ESP_OK, st') /\
    find_handle h (s_ota_ops_entries st') = Some (k, it', r) /\ part it' = part it /\
    chips (parts st') !! flash_chip (part it).2 = Some c' /\
    wrote_size it' = flushed (lenZ (concat pieces)) /\
    fl_mem c' = program m0 (address (part it).2)
      (stored (address (part it).2) (take (Z.to_nat (flushed (lenZ (concat pieces)))) (concat pieces))) /\
    take (Z.to_nat (partial_bytes it')) (partial_data it') = drop (Z.to_nat (flushed (lenZ (concat pieces)))) (concat pieces).
Proof.
  destruct (ota_write_all_spec Hcfg Hew h m0 k r pieces [] it c st Hh S Hb) as (st' & it' & c' & E & Hh' & Ep & S');
    [done|intros _; by right|].
  destruct S' as [[Pc _ _ _ _] _ _ _ _ _ _ _ Sw Sp _ Sd Sm]. rewrite Ep in *. change ([] ++ concat pieces) with (concat pieces) in *.
  exists st', it', c'. rewrite <- Sw. done.
Qed.
End image.

(** ** Examples *)
Section demo.
#[local] Instance demo_cfg_u : FlashConfig := demo_config.
#[local] Instance demo_otac_u : OtaConfig := demo_otac.
#[local] Instance demo_app_u : AppEnv :=
  {| esp_image_verify := fun _ p => offset p =? 0x10000; running_phys_offs := 0x20000; ota_calloc_ok := true;
     read_tries := []; own_secure_version := 0 |}.

(** Running from slot 1: the next update goes to slot 0. *)
Definition demo_running : partition_ptr := (300, mkPartition 1 0 0x11 0x20000 0x10000 [98] false).
Definition demo_st_running : ota_st := (demo_st 1 2) <| curr_partition := Some demo_running |>.

Lemma next_update_is_cyclic_witness :
  esp_ota_get_next_update_partition (env := demo_env true) None demo_st_running = Ok (Some (200, demo_app0), demo_st_running).
Proof.
  apply (proj1 (next_update_is_cyclic (env := demo_env true) demo_running demo_st_running ltac:(discriminate) demo_nodup eq_refl)
    [(200, demo_app0)] demo_running []); vm_compute; reflexivity.
Defined.

(** A device with flash encryption; its cipher adds the block number. *)
Definition demo_cipher : Cipher :=
  {| cipher := fun a l => imap (fun i v => (v + (a + Z.of_nat i) / 16) mod 256) l |}.
#[local] Instance demo_env_enc : PartitionEnv :=
  {| ESP_PARTITION_TABLE_OFFSET := 0x8000; CONFIG_PARTITION_TABLE_MD5 := false;
     CONFIG_SPI_FLASH_ENABLE_ENCRYPTED_READ_WRITE := true; MD5 := fun l => [];
     esp_flash_encryption_enabled := true; esp_flash_default_chip := 1; cache_view := fun m => m;
     spi_flash_write_encrypted := fun a l c =>
       if (a mod 16 =? 0) && (lenZ l mod 16 =? 0)
       then Ok (ESP_OK, c <| fl_mem := program (fl_mem c) a (@cipher demo_cipher a l) |>)
       else Ok (ESP_ERR_INVALID_SIZE, c);
     spi_flash_mmap_err := fun _ _ => ESP_OK |}.

Lemma demo_encrypted_ok : encrypted_write_ok (ci := demo_cipher).
Proof.
  split.
  - intros a l c Ha Hl _. cbn. by rewrite Ha, Hl.
  - intros a l k _ _. cbn. rewrite imap_app. f_equal. apply imap_ext. intros i x _. cbn. unfold lenZ. do 3 f_equal. lia.
  - intros a l. unfold lenZ. cbn. by rewrite length_imap.
Qed.

Definition demo_target : partition_ptr := (300, mkPartition 1 0 0x11 0x20000 0x10000 [98] true).
Definition demo_handle : ota_ops_entry_t := mkOps 7 demo_target 0x10000 0 0 (replicate 16 0).
Definition demo_update : ota_st :=
  mkOta (mkPart [] {[ 1 := demo_flash demo_erased ]} []) [demo_handle] 7 None 0.
(** 5, then 20, then 9 bytes. *)
Definition demo_pieces : list (list Z) := [0xE9 :: replicate 4 1; replicate 20 2; replicate 9 3].

Lemma demo_streaming : streaming (ci := demo_cipher) demo_erased [] demo_handle (demo_flash demo_erased) (parts demo_update).
Proof. split; try done; cbn; lia. Qed.

Lemma ota_write_any_pieces_witness :
  exists st' it' c', ota_write_all 7 demo_pieces demo_update = Ok (replicate 3 ESP_OK, st') /\
    find_handle 7 (s_ota_ops_entries st') = Some ([], it', []) /\ part it' = demo_target /\
    chips (parts st') !! 1 = Some c' /\
    wrote_size it' = flushed (lenZ (concat demo_pieces)) /\
    fl_mem c' = program demo_erased 0x20000
      (stored (ci := demo_cipher) 0x20000 (take (Z.to_nat (flushed (lenZ (concat demo_pieces)))) (concat demo_pieces))) /\
    take (Z.to_nat (partial_bytes it')) (partial_data it') =
      drop (Z.to_nat (flushed (lenZ (concat demo_pieces)))) (concat demo_pieces).
Proof.
  apply (ota_write_any_pieces (ci := demo_cipher) 7 demo_pieces demo_erased (demo_flash demo_erased)
           [] [] demo_handle demo_update);
    [reflexivity|intros _; apply demo_encrypted_ok|reflexivity|apply demo_streaming|repeat constructor; lia|
     vm_compute; discriminate|reflexivity].
Defined.
End demo.
