(* ===== verification/Heap.v ===== *)
(** * The heap allocator ([components/heap/multi_heap.c])

    A heap is a range of memory cut into blocks.  A block starts with a header,
    the address of the next block with the free flag in its low bit; a free block
    also holds the address of the next free block.  The structure [heap_t] at the
    start of the range ends with a first block that is never allocated, and the
    range ends with a last block of no size.  The fields of [heap_t] are those of
    the record below; [heap_mem] is the memory the blocks and the data are in.

    The configuration modelled is the one without poisoning, where the public
    names are aliases of the [_impl] functions; a call holds the lock of the heap
    from its first access to its last, so that calls do not interleave. *)
From S2P Require Import Prelude Mem.

Record heap_t := mkHeap {
  heap_addr : Z;
  free_bytes : Z;
  minimum_free_bytes : Z;
  last_block : Z;
  heap_mem : mem
}.
#[export] Instance rebuild_heap : Rebuild heap_t := fun h =>
  mkHeap (heap_addr h) (free_bytes h) (minimum_free_bytes h) (last_block h) (heap_mem h).

Definition sizeof_heap_t := 24.
Definition sizeof_heap_block_t := 8.
Definition sizeof_header := 4.
Definition BLOCK_FREE_FLAG := 1.
Definition SIZE_MAX := 2 ^ 32 - 1.

(** [&heap->first_block]. *)
Definition first_block (h : heap_t) : Z := heap_addr h + 16.

Section heap.
Implicit Types (h : heap_t) (b p size : Z).

(** ** Blocks *)
Definition header h b : Z := load32 (heap_mem h) b.
Definition next_free h b : Z := load32 (heap_mem h) (b + 4).
Definition set_header b v h : heap_t := h <| heap_mem := store32 (heap_mem h) b v |>.
Definition set_next_free b v h : heap_t := h <| heap_mem := store32 (heap_mem h) (b + 4) v |>.

(** [header & NEXT_BLOCK_MASK]. *)
Definition next_addr h b : Z := Z.ldiff (header h b) 3.

Definition get_block (data_ptr : Z) : Z := data_ptr - 4.

Definition get_next_block h b : outcome Z :=
  let next := next_addr h b in
  if next =? 0 then Ok 0 else cassert (s32 b <? s32 next);; Ok next.

Definition is_free h b : bool := flag (header h b) BLOCK_FREE_FLAG.
Definition is_first_block h b : bool := b =? first_block h.
Definition is_last_block h b : bool := next_addr h b =? 0.

Definition block_data_size h b : Z :=
  let next := next_addr h b in
  if next =? 0 then 0 else u32 (next - b - sizeof_header).

Definition in_heap h b : bool := (first_block h <=? b) && (b <=? last_block h).

Definition assert_valid_block h b : outcome unit :=
  cassert (in_heap h b);;
  if heap_addr h <? last_block h then
    next ← get_next_block h b;
    cassert (in_heap h next);;
    if is_free h b then cassert (in_heap h (next_free h b)) else Ok tt
  else Ok tt.

(** Every walk over the blocks visits at most one per word of the heap. *)
Definition heap_fuel h : nat := S (Z.to_nat ((last_block h - heap_addr h) / 4)).

Fixpoint prev_free_loop (fuel : nat) h (b block : Z) : outcome Z :=
  match fuel with
  | O => OutOfFuel
  | S fuel =>
      if negb (b =? 0) && (b <? block) then
        cassert (is_free h b);;
        let nf := next_free h b in
        if (nf =? 0) || (block <=? nf) then
          (if is_free h block then cassert (nf =? block) else Ok tt);; Ok b
        else prev_free_loop fuel h nf block
      else Abort
  end.

Definition get_prev_free_block h (block : Z) : outcome Z :=
  cassert (negb (is_first_block h block));;
  prev_free_loop (heap_fuel h) h (first_block h) block.

Definition merge_adjacent h (a b : Z) : outcome (Z * heap_t) :=
  cassert (a <? b);;
  if is_last_block h b then Ok (a, h)
  else if is_first_block h a then Ok (b, h)
  else
    next ← get_next_block h a;
    cassert (next =? b);;
    let free := is_free h a && is_free h b in
    h ←
      (if negb free && (is_free h a || is_free h b) then
         let free_block := if is_free h a then a else b in
         prev_free ← get_prev_free_block h free_block;
         cassert (prev_free <? next_free h free_block);;
         let h := set_next_free prev_free (next_free h free_block) h in
         Ok (h <| free_bytes := u32 (free_bytes h - block_data_size h free_block) |>)
       else Ok h);
    let h := set_header a (next_addr h b) h in
    cassert (negb (header h a =? 0));;
    if free then
      let h := set_header a (Z.lor (header h a) BLOCK_FREE_FLAG) h in
      cassert ((next_free h b =? 0) || (a <? next_free h b));;
      cassert ((next_free h b =? 0) || (b <? next_free h b));;
      let h := set_next_free a (next_free h b) h in
      Ok (a, h <| free_bytes := u32 (free_bytes h + sizeof_header) |>)
    else Ok (a, h).

(** The previous free block when the caller has it ([0]: [NULL]). *)
Definition prev_free_or_find h (block prev_free_block : Z) : outcome Z :=
  if prev_free_block =? 0 then get_prev_free_block h block else Ok prev_free_block.

Definition split_if_necessary h (block size prev_free_block : Z) : outcome heap_t :=
  let block_size := block_data_size h block in
  cassert (negb (is_free h block));;
  cassert (size <=? block_size);;
  let size := align_up 4 size in
  cassert (negb (is_first_block h block));;
  cassert (negb (is_last_block h block));;
  let new_block := block + 4 + size in
  next_block ← get_next_block h block;
  if is_free h next_block && negb (is_last_block h next_block) then
    let h := set_header new_block (header h next_block) h in
    let h := set_next_free new_block (next_free h next_block) h in
    prev ← prev_free_or_find h block prev_free_block;
    cassert (next_free h prev =? next_block);;
    let h := h <| free_bytes := u32 (free_bytes h + u32 (block_size - size)) |> in
    Ok (set_next_free prev new_block (set_header block new_block h))
  else if block_data_size h block <? u32 (size + sizeof_heap_block_t) then Ok h
  else
    prev ← prev_free_or_find h block prev_free_block;
    let h := set_header new_block (Z.lor (header h block) BLOCK_FREE_FLAG) h in
    let h := set_next_free new_block (next_free h prev) h in
    cassert (new_block <? next_free h prev);;
    let h := h <| free_bytes := u32 (free_bytes h + block_data_size h new_block) |> in
    Ok (set_next_free prev new_block (set_header block new_block h)).

(** ** The public calls *)

Definition multi_heap_get_block_address_impl (b : Z) : Z := b + 4.

Definition multi_heap_get_allocated_size_impl h p : outcome Z :=
  let pb := get_block p in
  assert_valid_block h pb;;
  cassert (negb (is_free h pb));;
  Ok (block_data_size h pb).

(** [None]: [NULL].  The heap structure is placed at the aligned start. *)
Definition multi_heap_register_impl (start_ptr size : Z) (m : mem) : option heap_t :=
  let start := align_up 4 start_ptr in
  let end_ := align_down 4 (u32 (start_ptr + size)) in
  let size := u32 (end_ - start) in
  if (end_ <? start) || (size <? sizeof_heap_t + 2 * sizeof_heap_block_t) then None
  else
    let last := end_ - sizeof_heap_block_t in
    let first_free_block := start + sizeof_heap_t in
    let h := mkHeap start 0 0 last m in
    let h := set_header first_free_block (Z.lor last BLOCK_FREE_FLAG) h in
    let h := set_next_free first_free_block last h in
    let h := set_header last BLOCK_FREE_FLAG h in
    let h := set_next_free last 0 h in
    let h := set_header (first_block h) (Z.lor first_free_block BLOCK_FREE_FLAG) h in
    let h := set_next_free (first_block h) first_free_block h in
    let free := u32 (size - sizeof_heap_t - sizeof_header - sizeof_heap_block_t) in
    Some (h <| free_bytes := free |> <| minimum_free_bytes := free |>).

(** The search of [malloc]: the best block so far ([0]: none), its size and the
    free block before it. *)
Fixpoint best_fit_loop (fuel : nat) h (b prev size : Z) (best : Z * Z * Z) : outcome (Z * Z * Z) :=
  if b =? 0 then Ok best
  else
    match fuel with
    | O => OutOfFuel
    | S fuel =>
        cassert (prev <? b);;
        cassert (is_free h b);;
        let bs := block_data_size h b in
        if (size <=? bs) && (bs <? best.1.2) then
          if bs =? size then Ok (b, bs, prev)
          else best_fit_loop fuel h (next_free h b) b size (b, bs, prev)
        else best_fit_loop fuel h (next_free h b) b size best
    end.

Definition update_minimum h : heap_t :=
  if free_bytes h <? minimum_free_bytes h then h <| minimum_free_bytes := free_bytes h |> else h.

(** The pointer returned, [0] for [NULL]. *)
Definition multi_heap_malloc_impl h size : outcome (Z * heap_t) :=
  let size := align_up 4 size in
  if size =? 0 then Ok (0, h)
  else if free_bytes h <? size then Ok (0, h)
  else
    '(best_block, best_size, prev_free) ←
      best_fit_loop (heap_fuel h) h (next_free h (first_block h)) (first_block h) size (0, SIZE_MAX, 0);
    if best_block =? 0 then Ok (0, h)
    else
      let h := set_next_free prev_free (next_free h best_block) h in
      let h := set_header best_block (Z.ldiff (header h best_block) BLOCK_FREE_FLAG) h in
      let h := h <| free_bytes := u32 (free_bytes h - block_data_size h best_block) |> in
      h ← split_if_necessary h best_block size prev_free;
      Ok (multi_heap_get_block_address_impl best_block, update_minimum h).

Definition multi_heap_free_impl h p : outcome heap_t :=
  let pb := get_block p in
  if p =? 0 then Ok h
  else
    assert_valid_block h pb;;
    cassert (negb (is_free h pb));;
    cassert (negb (is_last_block h pb));;
    cassert (negb (is_first_block h pb));;
    next ← get_next_block h pb;
    prev_free ← get_prev_free_block h pb;
    cassert ((next_free h prev_free =? 0) || (pb <? next_free h prev_free));;
    let h := set_next_free pb (next_free h prev_free) h in
    let h := set_next_free prev_free pb h in
    let h := set_header pb (Z.lor (header h pb) BLOCK_FREE_FLAG) h in
    let h := h <| free_bytes := u32 (free_bytes h + block_data_size h pb) |> in
    after_prev ← get_next_block h prev_free;
    '(pb, h) ← (if after_prev =? pb then merge_adjacent h prev_free pb else Ok (pb, h));
    if is_free h next then '(_, h) ← merge_adjacent h pb next; Ok h else Ok h.

Definition multi_heap_aligned_alloc_impl h size alignment : outcome (Z * heap_t) :=
  if size =? 0 then Ok (0, h)
  else if alignment =? 0 then Ok (0, h)
  else if negb (Z.land alignment (alignment - 1) =? 0) then Ok (0, h)
  else
    let overhead := u32 (4 + (alignment - 1)) in
    '(head, h) ← multi_heap_malloc_impl h (u32 (size + overhead));
    if head =? 0 then Ok (0, h)
    else
      let ptr := Z.ldiff (u32 (head + 4 + (alignment - 1))) (alignment - 1) in
      Ok (ptr, h <| heap_mem := store32 (heap_mem h) (ptr - 4) (u32 (ptr - head)) |>).

Definition multi_heap_aligned_free_impl h p : outcome heap_t :=
  if p =? 0 then Ok h
  else
    let offset := load32 (heap_mem h) (p - 4) in
    multi_heap_free_impl h (u32 (p - offset)).

(** The part of [realloc] that tries to grow the block in place: the block, with
    [true] when it is now large enough. *)
Definition realloc_grow h (pb size : Z) : outcome (Z * bool * heap_t) :=
  let orig_pb := pb in
  let orig_size := block_data_size h orig_pb in
  next ← get_next_block h pb;
  prev ← get_prev_free_block h pb;
  after_prev ← get_next_block h prev;
  let prev_grow_size := if after_prev =? pb then block_data_size h prev else 0 in
  '(pb, h) ←
    (if is_free h next && (size <=? u32 (u32 (block_data_size h pb + block_data_size h next) + prev_grow_size))
     then merge_adjacent h pb next else Ok (pb, h));
  '(pb, h) ←
    (if (0 <? prev_grow_size) && (size <=? u32 (block_data_size h pb + prev_grow_size))
     then merge_adjacent h prev pb else Ok (pb, h));
  if size <=? block_data_size h pb then
    let h := h <| heap_mem := memcpy (heap_mem h) (pb + 4) (orig_pb + 4) orig_size |> in
    h ← split_if_necessary h pb size 0;
    Ok (pb, true, h)
  else Ok (pb, false, h).

Definition multi_heap_realloc_impl h p size : outcome (Z * heap_t) :=
  let pb := get_block p in
  let size := align_up 4 size in
  if p =? 0 then multi_heap_malloc_impl h size
  else
    assert_valid_block h pb;;
    cassert (negb (is_free h pb));;
    if size =? 0 then h ← multi_heap_free_impl h p; Ok (0, h)
    else if size <=? block_data_size h pb then
      h ← split_if_necessary h pb size 0;
      Ok (multi_heap_get_block_address_impl pb, update_minimum h)
    else if free_bytes h <? u32 (size - block_data_size h pb) then Ok (0, h)
    else
      '(pb, grown, h) ← realloc_grow h pb size;
      if grown : bool then Ok (multi_heap_get_block_address_impl pb, update_minimum h)
      else
        '(result, h) ← multi_heap_malloc_impl h size;
        if result =? 0 then Ok (0, update_minimum h)
        else
          let h := h <| heap_mem := memcpy (heap_mem h) result (pb + 4) (block_data_size h pb) |> in
          h ← multi_heap_free_impl h (pb + 4);
          Ok (result, update_minimum h).

(** ** Inspection *)
Definition multi_heap_free_size_impl h : Z := free_bytes h.
Definition multi_heap_minimum_free_size_impl h : Z := minimum_free_bytes h.

(** The state of the walk of [multi_heap_check]. *)
Record check_state := mkCheck {
  ck_valid : bool;
  ck_prev : Z;
  ck_prev_free : Z;
  ck_expected_free : Z;
  ck_total : Z
}.
#[export] Instance rebuild_check : Rebuild check_state := fun s =>
  mkCheck (ck_valid s) (ck_prev s) (ck_prev_free s) (ck_expected_free s) (ck_total s).

(** The checks of one block. *)
Definition check_block h (b : Z) (s : check_state) : check_state :=
  let s :=
    if is_free h b then
      let s :=
        if negb (ck_prev s =? 0) && is_free h (ck_prev s) && negb (is_first_block h (ck_prev s)) && negb (is_last_block h b)
        then s <| ck_valid := false |> else s in
      let s :=
        if negb (ck_expected_free s =? 0) && negb (ck_expected_free s =? b)
        then s <| ck_valid := false |> else s in
      let s := s <| ck_prev_free := b |> <| ck_expected_free := next_free h b |> in
      if negb (is_first_block h b) then s <| ck_total := u32 (ck_total s + block_data_size h b) |> else s
    else s in
  s <| ck_prev := b |>.

(** [None]: the walk stopped at a block that is not in order, [goto done]. *)
Fixpoint check_loop (fuel : nat) h (b : Z) (s : check_state) : outcome (option check_state) :=
  if b =? 0 then Ok (Some s)
  else
    match fuel with
    | O => OutOfFuel
    | S fuel =>
        if b =? ck_prev s then Ok None
        else if b <? ck_prev s then Ok None
        else if (last_block h <? b) || (b <? first_block h) then Ok None
        else check_loop fuel h (next_addr h b) (check_block h b s)
    end.

Definition multi_heap_check h : outcome bool :=
  r ← check_loop (S (heap_fuel h)) h (first_block h) (mkCheck true 0 0 0 0);
  Ok (match r with
      | None => false
      | Some s =>
          ck_valid s && (ck_prev s =? last_block h) && is_free h (last_block h) && (free_bytes h =? ck_total s)
      end).

Record multi_heap_info_t := mkHeapInfo {
  total_free_bytes : Z;
  total_allocated_bytes : Z;
  largest_free_block : Z;
  info_minimum_free_bytes : Z;
  allocated_blocks : Z;
  free_blocks : Z;
  total_blocks : Z
}.
#[export] Instance rebuild_info : Rebuild multi_heap_info_t := fun i =>
  mkHeapInfo (total_free_bytes i) (total_allocated_bytes i) (largest_free_block i) (info_minimum_free_bytes i)
    (allocated_blocks i) (free_blocks i) (total_blocks i).

(** What one block adds. *)
Definition info_block h (b : Z) (i : multi_heap_info_t) : multi_heap_info_t :=
  let i := i <| total_blocks := u32 (total_blocks i + 1) |> in
  let s := block_data_size h b in
  if is_free h b then
    let i := i <| total_free_bytes := u32 (total_free_bytes i + s) |> in
    let i := if largest_free_block i <? s then i <| largest_free_block := s |> else i in
    i <| free_blocks := u32 (free_blocks i + 1) |>
  else
    i <| total_allocated_bytes := u32 (total_allocated_bytes i + s) |>
      <| allocated_blocks := u32 (allocated_blocks i + 1) |>.

Fixpoint info_loop (fuel : nat) h (b : Z) (i : multi_heap_info_t) : outcome multi_heap_info_t :=
  if is_last_block h b then Ok i
  else
    match fuel with
    | O => OutOfFuel
    | S fuel =>
        let i := info_block h b i in
        next ← get_next_block h b;
        info_loop fuel h next i
    end.

Definition multi_heap_get_info_impl h : outcome multi_heap_info_t :=
  b ← get_next_block h (first_block h);
  i ← info_loop (heap_fuel h) h b (mkHeapInfo 0 0 0 0 0 0 0);
  let i := i <| info_minimum_free_bytes := minimum_free_bytes h |> in
  cassert (total_free_bytes i =? free_bytes h);;
  Ok i.
End heap.

(** A heap of 256 bytes at 0x1000. *)
Definition demo_heap : heap_t := default (mkHeap 0 0 0 0 ∅) (multi_heap_register_impl 0x1000 256 ∅).
