(* ===== verification/HeapInv.v ===== *)
(** * The heap allocator: blocks and free list

    What the memory of a heap represents: a list of blocks that fill the range
    from the first block to the last one, and the free ones linked in address
    order.  The functions that walk and change the lists are given their effect
    on the list of blocks. *)
From S2P Require Import Prelude Mem Heap.

(** ** Blocks *)
Record blk := mkBlk { b_addr : Z; b_size : Z; b_free : bool }.
Definition b_end (b : blk) : Z := b_addr b + 4 + b_size b.

Definition is_free_blk (b : blk) : Prop := b_free b = true.
#[export] Instance is_free_blk_dec b : Decision (is_free_blk b).
Proof. unfold is_free_blk. apply _. Defined.

(** The blocks of [l] fill [a .. e). *)
Fixpoint layout (a : Z) (l : list blk) (e : Z) : Prop :=
  match l with
  | [] => a = e
  | b :: l => b_addr b = a /\ 4 <= b_size b /\ b_size b mod 4 = 0 /\ layout (b_end b) l e
  end.

Definition header_ok (m : mem) (b : blk) : Prop :=
  load32 m (b_addr b) = b_end b + (if b_free b then 1 else 0).

(** The addresses [F] are linked by their [next_free] from [a] to [q]. *)
Fixpoint fseg (m : mem) (a : Z) (F : list Z) (q : Z) : Prop :=
  match F with
  | [] => a = q
  | x :: F => x = a /\ fseg m (load32 m (x + 4)) F q
  end.

Definition faddrs (l : list blk) : list Z := b_addr <$> filter is_free_blk l.
Fixpoint fsum (l : list blk) : Z :=
  match l with
  | [] => 0
  | b :: l => (if b_free b then b_size b else 0) + fsum l
  end.

(** The first block, of fixed size and never allocated. *)
Definition first_blk (h : heap_t) : blk := mkBlk (first_block h) 4 true.

Record heap_rep (h : heap_t) (l : list blk) : Prop := {
  hr_align : heap_addr h mod 4 = 0;
  hr_range : 0 < heap_addr h /\ last_block h + 8 < 2 ^ 31;
  hr_layout : layout (first_block h) (first_blk h :: l) (last_block h);
  hr_headers : Forall (header_ok (heap_mem h)) (first_blk h :: l);
  hr_last : load32 (heap_mem h) (last_block h) = 1;
  hr_links : fseg (heap_mem h) (first_block h) (faddrs (first_blk h :: l) ++ [last_block h]) 0;
  hr_bytes : free_bytes h = fsum l
}.

(** No two free blocks are adjacent; [f]: whether a free block comes before. *)
Fixpoint coalesced (f : bool) (l : list blk) : Prop :=
  match l with
  | [] => True
  | b :: l => f && b_free b = false /\ coalesced (b_free b) l
  end.

(** ** Lists of blocks *)
Section lists.
Implicit Types (l : list blk) (b : blk).

Lemma layout_app a l1 l2 e : layout a (l1 ++ l2) e <-> exists x, layout a l1 x /\ layout x l2 e.
Proof.
  revert a. induction l1 as [|b l1 IH]; intros a; simpl.
  - split; [by exists a|by intros (x & -> & ?)].
  - rewrite IH. split.
    + intros (? & ? & ? & x & ? & ?). exists x. done.
    + intros (x & (? & ? & ? & ?) & ?). split_and!; try done. by exists x.
Qed.

Lemma layout_bounds a l e :
  layout a l e -> a <= e /\ Forall (fun b => a <= b_addr b /\ b_end b <= e /\ 4 <= b_size b /\ b_size b mod 4 = 0) l.
Proof.
  revert a. induction l as [|b l IH]; intros a; simpl; [intros ->; split; [lia|constructor]|].
  intros (<- & Hs & Hm & H). apply IH in H as [H1 H2]. unfold b_end in *. split; [lia|].
  constructor; [lia|]. eapply Forall_impl; [exact H2|]. intros c Hc. cbn in Hc. lia.
Qed.

Lemma layout_aligned a l e : layout a l e -> a mod 4 = 0 -> Forall (fun b => b_addr b mod 4 = 0) l /\ e mod 4 = 0.
Proof.
  revert a. induction l as [|b l IH]; intros a; simpl; [intros -> ?; split; [constructor|done]|].
  intros (<- & Hs & Hm & H) Ha. apply IH in H as [H1 H2]; [|unfold b_end; Z.to_euclidean_division_equations; lia].
  split; [by constructor|done].
Qed.

(** Around a block. *)
Lemma layout_at a l1 b l2 e :
  layout a (l1 ++ b :: l2) e ->
  layout a l1 (b_addr b) /\ 4 <= b_size b /\ b_size b mod 4 = 0 /\ layout (b_end b) l2 e /\
  Forall (fun c => b_end c <= b_addr b) l1 /\ Forall (fun c => b_end b <= b_addr c) l2 /\ b_end b <= e.
Proof.
  intros (x & H1 & (<- & Hs & Hm & H2))%layout_app. pose proof (layout_bounds _ _ _ H1) as [_ B1].
  pose proof (layout_bounds _ _ _ H2) as [? B2].
  split_and!; try done; eapply Forall_impl; try done; intros c Hc; cbn in Hc; lia.
Qed.

Lemma layout_disjoint a l e u v :
  layout a l e -> u ∈ l -> v ∈ l -> u = v \/ b_end u <= b_addr v \/ b_end v <= b_addr u.
Proof.
  intros H Hu Hv. apply list_elem_of_split in Hu as (l1 & l2 & ->).
  apply layout_at in H as (_ & _ & _ & _ & B1 & B2 & _). rewrite Forall_forall in B1, B2.
  apply elem_of_app in Hv as [Hv|[->|Hv]%elem_of_cons]; [right; right; by apply B1|by left|right; left; by apply B2].
Qed.

Lemma faddrs_app l1 l2 : faddrs (l1 ++ l2) = faddrs l1 ++ faddrs l2.
Proof. unfold faddrs. by rewrite filter_app, fmap_app. Qed.
Lemma faddrs_cons b l : faddrs (b :: l) = (if b_free b then [b_addr b] else []) ++ faddrs l.
Proof.
  unfold faddrs. rewrite filter_cons. case_decide as E; unfold is_free_blk in E; [by rewrite E|].
  by destruct (b_free b).
Qed.
Lemma faddrs_Forall (P : Z -> Prop) l : Forall (fun b => P (b_addr b)) l -> Forall P (faddrs l).
Proof.
  induction 1 as [|b l Hb H IH]; [constructor|]. rewrite faddrs_cons. apply Forall_app. split; [|done].
  destruct (b_free b); by repeat constructor.
Qed.

Lemma layout_end_unique a l x y : layout a l x -> layout a l y -> x = y.
Proof. revert a. induction l as [|b l IH]; intros a; simpl; [congruence|]. intros (_ & _ & _ & H1) (_ & _ & _ & H2). eauto. Qed.

Lemma faddrs_elem l a : a ∈ faddrs l <-> exists b, b ∈ l /\ b_addr b = a /\ b_free b = true.
Proof.
  unfold faddrs. rewrite list_elem_of_fmap. split.
  - intros (b & -> & Hb). apply list_elem_of_filter in Hb as [Hf Hb]. by exists b.
  - intros (b & Hb & <- & Hf). exists b. split; [done|]. by apply list_elem_of_filter.
Qed.

Lemma faddrs_nodup a l e : layout a l e -> NoDup (faddrs l).
Proof.
  revert a. induction l as [|b l IH]; intros a; simpl; [constructor|]. intros (<- & Hs & _ & Hk).
  rewrite faddrs_cons. pose proof (layout_bounds _ _ _ Hk) as [_ B]. destruct (b_free b); simpl; [|by eapply IH].
  constructor; [|by eapply IH]. intros (c & Hc & Ec & _)%faddrs_elem. rewrite Forall_forall in B. specialize (B c Hc).
  unfold b_end in B. lia.
Qed.

Lemma fsum_app l1 l2 : fsum (l1 ++ l2) = fsum l1 + fsum l2.
Proof. induction l1 as [|b l1 IH]; simpl; [done|]. rewrite IH. lia. Qed.
Lemma fsum_nonneg a l e : layout a l e -> 0 <= fsum l.
Proof.
  revert a. induction l as [|b l IH]; intros a; simpl; [lia|]. intros (_ & ? & _ & H). apply IH in H. destruct (b_free b); lia.
Qed.
Lemma fsum_bound a l e : layout a l e -> fsum l <= e - a.
Proof.
  revert a. induction l as [|b l IH]; intros a; cbn [layout]; [intros ->; simpl; lia|].
  intros (<- & Hs & _ & H). apply IH in H. simpl. unfold b_end in H. destruct (b_free b); lia.
Qed.
End lists.

(** ** Links *)
Section links.
Implicit Types (m : mem) (F : list Z).

Lemma fseg_app m a F1 F2 q : fseg m a (F1 ++ F2) q <-> exists x, fseg m a F1 x /\ fseg m x F2 q.
Proof.
  revert a. induction F1 as [|y F1 IH]; intros a; simpl.
  - split; [by exists a|by intros (x & -> & ?)].
  - rewrite IH. split; [intros (? & x & ? & ?); by exists x|intros (x & (? & ?) & ?); split; [done|by exists x]].
Qed.

Lemma fseg_frame m m' a F q :
  Forall (fun y => load32 m' (y + 4) = load32 m (y + 4)) F -> fseg m a F q -> fseg m' a F q.
Proof.
  intros H. revert a. induction H as [|y F Hy H IH]; intros a; simpl; [done|].
  intros [-> ?]. split; [done|]. rewrite Hy. by apply IH.
Qed.

(** Redirect the last link. *)
Lemma fseg_set_last m m' a F p x v :
  Forall (fun y => load32 m' (y + 4) = load32 m (y + 4)) F -> load32 m' (p + 4) = v ->
  fseg m a (F ++ [p]) x -> fseg m' a (F ++ [p]) v.
Proof.
  intros H Hv. rewrite !fseg_app. intros (y & H1 & H2). exists y. split; [by eapply fseg_frame|].
  simpl in *. destruct H2 as [-> _]. done.
Qed.

Lemma fseg_head m a F q x : fseg m a (F ++ [x]) q -> a = default x (head F).
Proof. destruct F; simpl; by intros [-> _]. Qed.
End links.

(** ** Reading a block *)
Section rep.
Context {h : heap_t} {l : list blk} (R : heap_rep h l).

Lemma rep_block b : b ∈ first_blk h :: l ->
  b_addr b mod 4 = 0 /\ first_block h <= b_addr b /\ b_end b <= last_block h /\ 4 <= b_size b /\ b_size b mod 4 = 0 /\
  header_ok (heap_mem h) b /\ 0 < b_addr b.
Proof.
  intros Hb. destruct R as [A [A1 A2] L H _ _ _]. rewrite Forall_forall in H. specialize (H b Hb).
  destruct (layout_bounds _ _ _ L) as [_ B]. rewrite Forall_forall in B. specialize (B b Hb) as (B1 & B2 & B3 & B4).
  destruct (layout_aligned _ _ _ L) as [C _]; [unfold first_block; Z.to_euclidean_division_equations; lia|].
  rewrite Forall_forall in C. specialize (C b Hb). unfold first_block in *. split_and!; done || lia.
Qed.

Lemma rep_last : last_block h mod 4 = 0 /\ first_block h + 8 <= last_block h.
Proof.
  destruct R as [A [A1 A2] L _ _ _ _]. destruct (layout_aligned _ _ _ L) as [_ C]; [unfold first_block; Z.to_euclidean_division_equations; lia|].
  split; [done|]. destruct L as (_ & _ & _ & L). apply layout_bounds in L as [L _]. unfold b_end in L. simpl in L. lia.
Qed.

Lemma ldiff_3 x f : x mod 4 = 0 -> Z.ldiff (x + (if f : bool then 1 else 0)) 3 = x.
Proof.
  intros Hx. change 3 with (2 ^ 2 - 1). fold (align_down (2 ^ 2) (x + (if f then 1 else 0))). rewrite align_down_pow2 by lia.
  destruct f; Z.to_euclidean_division_equations; lia.
Qed.
Lemma flag_1 x f : x mod 4 = 0 -> flag (x + (if f : bool then 1 else 0)) 1 = f.
Proof.
  intros Hx. unfold flag. change 1 with (Z.ones 1) at 2. rewrite Z.land_ones by lia.
  change (2 ^ 1) with 2. destruct f.
  - replace ((x + 1) mod 2) with 1 by (Z.to_euclidean_division_equations; lia). done.
  - replace ((x + 0) mod 2) with 0 by (Z.to_euclidean_division_equations; lia). done.
Qed.

Lemma b_end_aligned b : b ∈ first_blk h :: l -> b_end b mod 4 = 0.
Proof. intros (?&?&?&?&?&?&?)%rep_block. unfold b_end. Z.to_euclidean_division_equations; lia. Qed.

Lemma next_addr_blk b : b ∈ first_blk h :: l -> next_addr h (b_addr b) = b_end b.
Proof.
  intros Hb. pose proof (b_end_aligned b Hb). apply rep_block in Hb as (_ & _ & _ & _ & _ & E & _).
  unfold next_addr, header. rewrite E. by apply ldiff_3.
Qed.
Lemma is_free_blk_run b : b ∈ first_blk h :: l -> is_free h (b_addr b) = b_free b.
Proof.
  intros Hb. pose proof (b_end_aligned b Hb). apply rep_block in Hb as (_ & _ & _ & _ & _ & E & _).
  unfold is_free, header. rewrite E. by apply flag_1.
Qed.
Lemma data_size_blk b : b ∈ first_blk h :: l -> block_data_size h (b_addr b) = b_size b.
Proof.
  intros Hb. unfold block_data_size. rewrite next_addr_blk by done. pose proof (hr_range _ _ R). pose proof rep_last.
  apply rep_block in Hb as (_ & ? & ? & ? & _ & _ & ?). unfold b_end in *. unfold sizeof_header.
  destruct (Z.eqb_spec (b_addr b + 4 + b_size b) 0); [lia|]. rewrite u32_small by (unfold is_u32; lia). lia.
Qed.
Lemma get_next_blk b : b ∈ first_blk h :: l -> get_next_block h (b_addr b) = Ok (b_end b).
Proof.
  intros Hb. unfold get_next_block. rewrite next_addr_blk by done. pose proof (hr_range _ _ R).
  apply rep_block in Hb as (_ & ? & ? & ? & _ & _ & ?). unfold b_end in *.
  destruct (Z.eqb_spec (b_addr b + 4 + b_size b) 0); [lia|].
  oassert ltac:(apply Z.ltb_lt; rewrite !s32_small by lia; lia). done.
Qed.
Lemma not_last_blk b : b ∈ first_blk h :: l -> is_last_block h (b_addr b) = false.
Proof.
  intros Hb. unfold is_last_block. rewrite next_addr_blk by done. apply rep_block in Hb as (_ & ? & _ & ? & _ & _ & ?).
  apply Z.eqb_neq. unfold b_end. lia.
Qed.
Lemma last_reads : next_addr h (last_block h) = 0 /\ is_free h (last_block h) = true /\ is_last_block h (last_block h) = true /\
  block_data_size h (last_block h) = 0.
Proof. unfold is_last_block, block_data_size, is_free, next_addr, header. by rewrite (hr_last _ _ R). Qed.

(** The blocks around a block. *)
Lemma rep_at l1 b l2 : l = l1 ++ b :: l2 ->
  Forall (fun c => b_end c <= b_addr b) (first_blk h :: l1) /\ Forall (fun c => b_end b <= b_addr c) l2 /\ b_end b <= last_block h /\
  layout (first_block h) (first_blk h :: l1) (b_addr b) /\ layout (b_end b) l2 (last_block h).
Proof.
  intros ->. pose proof (hr_layout _ _ R) as L. change (first_blk h :: l1 ++ b :: l2) with ((first_blk h :: l1) ++ b :: l2) in L.
  apply layout_at in L as (L1 & _ & _ & L2 & B1 & B2 & E). done.
Qed.

Lemma rep_fuel l1 l2 : l = l1 ++ l2 -> (length (faddrs l1) < heap_fuel h)%nat.
Proof.
  intros ->. unfold heap_fuel. assert (B : 8 * Z.of_nat (length l1) <= last_block h - heap_addr h).
  { pose proof (hr_layout _ _ R) as (_ & _ & _ & L). apply layout_app in L as (x & L1 & L2).
    apply layout_bounds in L2 as [L2 _]. unfold b_end in L1. simpl in L1. unfold first_block in L1.
    assert (G : forall a k e, layout a k e -> 8 * Z.of_nat (length k) <= e - a).
    { intros a k. revert a. induction k as [|c k IH]; intros a e; simpl; [intros ->; lia|].
      intros (<- & Hs & _ & H). apply IH in H. unfold b_end in H. lia. }
    apply G in L1. lia. }
  unfold faddrs. rewrite length_fmap. pose proof (length_filter is_free_blk l1).
  Z.to_euclidean_division_equations. lia.
Qed.

(** The free list around a position. *)
Lemma links_at l1 l2 : l = l1 ++ l2 ->
  exists X p z, faddrs (first_blk h :: l1) = X ++ [p] /\ fseg (heap_mem h) (first_block h) (X ++ [p]) z /\
    fseg (heap_mem h) z (faddrs l2 ++ [last_block h]) 0 /\ next_free h p = z /\
    z = default (last_block h) (head (faddrs l2)).
Proof.
  intros E. pose proof (hr_links _ _ R) as K.
  rewrite E, app_comm_cons, faddrs_app, <- app_assoc, fseg_app in K. destruct K as (z & K1 & K2).
  destruct (exists_last (l := faddrs (first_blk h :: l1))) as (X & p & EX); [by rewrite faddrs_cons|].
  exists X, p, z. rewrite <- EX. split; [done|]. split; [done|]. split; [done|].
  split; [|rewrite (fseg_head _ _ _ _ _ K2); by destruct (faddrs l2)].
  rewrite EX, fseg_app in K1. destruct K1 as (y & _ & [-> K1]). done.
Qed.

Lemma prev_loop_spec fuel X : forall x p block z,
  fseg (heap_mem h) x (X ++ [p]) z -> Forall (fun y => 0 < y < block /\ is_free h y = true) (X ++ [p]) ->
  block <= z -> (is_free h block = true -> z = block) -> (length X < fuel)%nat ->
  prev_free_loop fuel h x block = Ok p.
Proof.
  revert X. induction fuel as [|fuel IH]; intros X x p block z K F Hz Hf Hn; [lia|].
  cbn [prev_free_loop]. destruct X as [|y X]; simpl in K, F; destruct K as [<- K].
  - apply Forall_cons in F as [[Hy Hfy] _]. destruct (Z.eqb_spec p 0); [lia|]. destruct (Z.ltb_spec p block); [|lia].
    cbn [negb andb]. oassert ltac:(done). unfold next_free. rewrite K.
    destruct (Z.eqb_spec z 0); [lia|]. destruct (Z.leb_spec block z); [|lia]. cbn [orb].
    destruct (is_free h block); [|done]. oassert ltac:(apply Z.eqb_eq; auto). done.
  - apply Forall_cons in F as [[Hy Hfy] F']. destruct (Z.eqb_spec y 0); [lia|]. destruct (Z.ltb_spec y block); [|lia].
    cbn [negb andb]. oassert ltac:(done). fold (next_free h y) in K.
    assert (Hn' : 0 < next_free h y < block).
    { destruct X as [|y' X]; simpl in K, F'; destruct K as [<- _]; apply Forall_cons in F' as [[? _] _]; done. }
    destruct (Z.eqb_spec (next_free h y) 0); [lia|]. destruct (Z.leb_spec block (next_free h y)); [lia|]. cbn [orb].
    simpl in Hn. apply (IH X _ p block z K F'); [done|done|lia].
Qed.

Lemma before_facts l1 b l2 : l = l1 ++ b :: l2 ->
  Forall (fun y => 0 < y < b_addr b /\ is_free h y = true) (faddrs (first_blk h :: l1)).
Proof.
  intros E. destruct (rep_at _ _ _ E) as (B1 & _). rewrite Forall_forall in B1. apply Forall_forall. intros y Hy.
  apply faddrs_elem in Hy as (c & Hc & <- & Hf). specialize (B1 c Hc).
  assert (Hin : c ∈ first_blk h :: l) by (rewrite E, app_comm_cons; apply elem_of_app; by left).
  rewrite is_free_blk_run by done. apply rep_block in Hin as (_ & _ & _ & ? & _ & _ & ?). unfold b_end in B1. split; [lia|done].
Qed.

Lemma head_faddrs_ge b l2 e : Forall (fun c => b_end b <= b_addr c) l2 -> b_end b <= e -> 4 <= b_size b ->
  let z := default e (head (faddrs (b :: l2))) in b_addr b <= z /\ (b_free b = true -> z = b_addr b) /\ (b_free b = false -> b_end b <= z).
Proof.
  intros B He Hs. rewrite faddrs_cons. destruct (b_free b); simpl; [split; [lia|done]|].
  pose proof (faddrs_Forall (fun a => b_end b <= a) l2 B) as F. destruct (faddrs l2) as [|a F']; simpl; [unfold b_end in *; split; [lia|done]|].
  inversion F; subst. unfold b_end in *. split; [lia|done].
Qed.

End rep.


(** ** Changing the blocks of a range *)

(** Only the words at [W] differ. *)
Definition writes (m : mem) (W : list Z) (m' : mem) : Prop :=
  forall x, Forall (fun w => x < w \/ w + 4 <= x) W -> load8 m' x = load8 m x.

Lemma writes_refl m : writes m [] m.
Proof. by intros x _. Qed.
Lemma writes_store m W m' w v : writes m W m' -> writes m (w :: W) (store32 m' w v).
Proof. intros H x [Hw Hx]%Forall_cons. rewrite load8_store32_ne by lia. by apply H. Qed.
Lemma writes_load32 m W m' a :
  writes m W m' -> Forall (fun w => a + 4 <= w \/ w + 4 <= a) W -> load32 m' a = load32 m a.
Proof.
  intros H F. apply load32_ext. intros x Hx. apply H. eapply Forall_impl; [exact F|]. intros w Hw. cbn in Hw. lia.
Qed.

(** The data of the used blocks of [l] is the same. *)
Definition data_kept (l : list blk) (m m' : mem) : Prop :=
  forall b x, b ∈ l -> b_free b = false -> b_addr b + 4 <= x < b_end b -> load8 m' x = load8 m x.

Lemma data_kept_refl l m : data_kept l m m.
Proof. by intros b x _. Qed.
Lemma data_kept_trans l l' m m' m'' :
  data_kept l m m' -> data_kept l' m' m'' -> (forall b, b ∈ l -> b_free b = false -> b ∈ l') -> data_kept l m m''.
Proof. intros H1 H2 Hi b x Hb Hf Hx. transitivity (load8 m' x); [apply (H2 b); auto|by apply (H1 b)]. Qed.

(** The blocks [mid] between [a] and [e] are replaced by [mid']: [h'] differs
    from [h] in that range, in the link of the free block [p] before it and in its
    counters. *)
Section update.
Context (h h' : heap_t) (l1 mid mid' l2 : list blk) (X : list Z) (p : Z) (W : list Z) (a e z' : Z).
Context (R : heap_rep h (l1 ++ mid ++ l2)) (EX : faddrs (first_blk h :: l1) = X ++ [p])
  (Ea : heap_addr h' = heap_addr h) (El : last_block h' = last_block h)
  (L1 : layout (first_block h) (first_blk h :: l1) a) (Lm : layout a mid e) (Lm' : layout a mid' e)
  (Hm : Forall (header_ok (heap_mem h')) mid')
  (HW : writes (heap_mem h) W (heap_mem h')) (FW : Forall (fun w => w = p + 4 \/ a <= w /\ w + 4 <= e) W)
  (Hz : next_free h' p = z') (Hf : fseg (heap_mem h') z' (faddrs mid') (default (last_block h) (head (faddrs l2))))
  (Hb : free_bytes h' = u32 (free_bytes h - fsum mid + fsum mid')).

Lemma upd_l2 : layout e l2 (last_block h).
Proof.
  pose proof (hr_layout _ _ R) as L. change (first_blk h :: l1 ++ mid ++ l2) with ((first_blk h :: l1) ++ mid ++ l2) in L.
  apply layout_app in L as (a' & B1 & B2). apply layout_app in B2 as (e' & B2 & B3).
  pose proof (layout_end_unique _ _ _ _ L1 B1). subst a'. pose proof (layout_end_unique _ _ _ _ Lm B2). by subst e'.
Qed.

Lemma upd_p : exists c, c ∈ first_blk h :: l1 /\ b_addr c = p /\ b_free c = true /\ p + 8 <= a.
Proof.
  assert (Hp : p ∈ faddrs (first_blk h :: l1)) by (rewrite EX; in_list).
  apply faddrs_elem in Hp as (c & Hc & Hca & Hcf). exists c. split_and!; try done.
  apply layout_bounds in L1 as [_ Q1]. rewrite Forall_forall in Q1. specialize (Q1 c Hc). unfold b_end in Q1. lia.
Qed.

(** The words of a block before the range, except the link of [p]. *)
Lemma upd_before b : b ∈ first_blk h :: l1 ->
  b_addr b + 8 <= a /\ b_end b <= a /\ (b_addr b = p \/ b_end b <= p \/ p + 8 <= b_addr b).
Proof.
  intros Hbm. destruct upd_p as (c & Hc & Hca & _ & _). pose proof (layout_bounds _ _ _ L1) as [_ Q1]. rewrite Forall_forall in Q1.
  pose proof (Q1 b Hbm). pose proof (Q1 c Hc).
  destruct (layout_disjoint _ _ _ b c L1 Hbm Hc) as [->|[?|?]]; unfold b_end in *; lia.
Qed.

Lemma upd_after b : b ∈ l2 -> e <= b_addr b /\ b_addr b + 8 <= last_block h.
Proof.
  intros Hb2. pose proof (layout_bounds _ _ _ upd_l2) as [_ Q2]. rewrite Forall_forall in Q2. specialize (Q2 b Hb2).
  unfold b_end in Q2. lia.
Qed.

Lemma upd_load32_hi x : e <= x -> load32 (heap_mem h') x = load32 (heap_mem h) x.
Proof.
  intros Hx. destruct upd_p as (_ & _ & _ & _ & Hp). pose proof (layout_bounds _ _ _ Lm) as [Lae _].
  apply (writes_load32 _ _ _ _ HW). eapply Forall_impl; [exact FW|]. intros w [->|Hw]; cbn; lia.
Qed.

Lemma upd_load32_lo x : x + 4 <= a -> x + 4 <= p + 4 \/ p + 8 <= x -> load32 (heap_mem h') x = load32 (heap_mem h) x.
Proof.
  intros Hx Hxp. apply (writes_load32 _ _ _ _ HW). eapply Forall_impl; [exact FW|]. intros w [->|Hw]; cbn; lia.
Qed.

Lemma upd_headers : Forall (header_ok (heap_mem h')) (first_blk h :: l1 ++ mid' ++ l2).
Proof.
  pose proof (hr_headers _ _ R) as A4. rewrite app_comm_cons in A4 |- *. rewrite !Forall_app in A4 |- *.
  destruct A4 as (H1 & _ & H2). rewrite Forall_forall in H1, H2. split; [|split; [done|]]; apply Forall_forall; intros b Hbm; unfold header_ok.
  - destruct (upd_before b Hbm) as (B1 & B2 & B3). pose proof (layout_bounds _ _ _ L1) as [_ Q1]. rewrite Forall_forall in Q1.
    specialize (Q1 b Hbm). unfold b_end in *. rewrite upd_load32_lo by lia. by apply H1.
  - destruct (upd_after b Hbm) as [B1 B2]. rewrite upd_load32_hi by lia. by apply H2.
Qed.

Lemma upd_links : fseg (heap_mem h') (first_block h) (faddrs (first_blk h :: l1 ++ mid' ++ l2) ++ [last_block h]) 0.
Proof.
  pose proof (hr_links _ _ R) as A6. rewrite app_comm_cons, !faddrs_app, <- !app_assoc, fseg_app in A6. destruct A6 as (z & K1 & K2).
  rewrite app_comm_cons, !faddrs_app, <- !app_assoc, fseg_app. exists z'. rewrite EX in K1 |- *. split.
  - apply (fseg_set_last (heap_mem h) _ _ _ _ z); [|done|done]. apply Forall_forall. intros y Hy.
    assert (Hy' : y ∈ faddrs (first_blk h :: l1)) by (rewrite EX; in_list).
    apply faddrs_elem in Hy' as (d & Hd & <- & _). destruct (upd_before d Hd) as (B1 & B2 & B3).
    assert (Hdp : b_addr d <> p).
    { intros E. rewrite E in Hy. pose proof (faddrs_nodup _ _ _ L1) as N. rewrite EX in N.
      apply NoDup_app in N as (_ & N & _). apply (N p Hy). left. }
    pose proof (layout_bounds _ _ _ L1) as [_ Q1]. rewrite Forall_forall in Q1. specialize (Q1 d Hd).
    unfold b_end in *. apply upd_load32_lo; lia.
  - rewrite fseg_app. exists (default (last_block h) (head (faddrs l2))). split; [done|].
    rewrite fseg_app in K2. destruct K2 as (z2 & _ & K2).
    assert (z2 = default (last_block h) (head (faddrs l2))) as -> by (rewrite (fseg_head _ _ _ _ _ K2); by destruct (faddrs l2)).
    pose proof (layout_bounds _ _ _ upd_l2) as [Le _].
    eapply fseg_frame; [|exact K2]. apply Forall_app. split; [|repeat constructor; apply upd_load32_hi; lia].
    apply faddrs_Forall, Forall_forall. intros b Hb2. destruct (upd_after b Hb2). apply upd_load32_hi. lia.
Qed.

Lemma upd_bytes : free_bytes h' = fsum (l1 ++ mid' ++ l2).
Proof.
  pose proof (hr_bytes _ _ R) as HB. rewrite !fsum_app in *. pose proof (hr_range _ _ R) as [? ?].
  pose proof (fsum_nonneg _ _ _ upd_l2). pose proof (fsum_bound _ _ _ upd_l2).
  pose proof (fsum_nonneg _ _ _ Lm'). pose proof (fsum_bound _ _ _ Lm').
  destruct L1 as (_ & _ & _ & L1'). pose proof (fsum_nonneg _ _ _ L1'). pose proof (fsum_bound _ _ _ L1').
  unfold b_end in *. cbn [first_blk b_addr b_size] in *. unfold first_block in *.
  rewrite Hb. replace (free_bytes h - fsum mid + fsum mid') with (fsum l1 + (fsum mid' + fsum l2)) by lia.
  apply u32_small. unfold is_u32. lia.
Qed.

Lemma upd_kept : data_kept (l1 ++ l2) (heap_mem h) (heap_mem h').
Proof.
  intros b x Hbm Hbf Hx. apply HW. destruct upd_p as (c & Hc & Hca & Hcf & Hp). pose proof (layout_bounds _ _ _ Lm) as [Lae _].
  eapply Forall_impl; [exact FW|]. intros w Hw. cbn in Hw. apply elem_of_app in Hbm as [Hbm|Hbm].
  - destruct (upd_before b ltac:(by right)) as (B1 & B2 & B3). assert (b_addr b <> p).
    { intros E. destruct (layout_disjoint _ _ _ b c L1 ltac:(by right) Hc) as [->|?]; [congruence|].
      pose proof (layout_bounds _ _ _ L1) as [_ Q1]. rewrite Forall_forall in Q1. pose proof (Q1 c Hc). pose proof (Q1 b ltac:(by right)).
      unfold b_end in *. lia. }
    lia.
  - destruct (upd_after b Hbm). lia.
Qed.

Lemma rep_update : heap_rep h' (l1 ++ mid' ++ l2) /\ data_kept (l1 ++ l2) (heap_mem h) (heap_mem h').
Proof.
  split; [|exact upd_kept]. pose proof R as [A1 A2 A3 A4 A5 A6 A7].
  assert (Efb : first_blk h' = first_blk h) by (unfold first_blk, first_block; by rewrite Ea).
  assert (Ef : first_block h' = first_block h) by (unfold first_block; by rewrite Ea).
  split; rewrite ?Ea, ?El, ?Efb, ?Ef; try done.
  - change (first_blk h :: l1 ++ mid' ++ l2) with ((first_blk h :: l1) ++ mid' ++ l2).
    apply layout_app. exists a. split; [done|]. apply layout_app. exists e. split; [done|exact upd_l2].
  - exact upd_headers.
  - rewrite upd_load32_hi; [done|]. apply layout_bounds with (1 := upd_l2).
  - exact upd_links.
  - exact upd_bytes.
Qed.
End update.

(** ** The previous free block *)

(** [h'] differs from [h] in words at or above [x], and in its counters. *)
Record above (x : Z) (h h' : heap_t) : Prop := {
  ab_addr : heap_addr h' = heap_addr h;
  ab_last : last_block h' = last_block h;
  ab_words : exists W, writes (heap_mem h) W (heap_mem h') /\ Forall (fun w => x <= w) W
}.

Lemma above_refl x h : above x h h.
Proof. split; try done. exists []. split; [apply writes_refl|constructor]. Qed.

Lemma above_load32 x h h' a : above x h h' -> a + 4 <= x -> load32 (heap_mem h') a = load32 (heap_mem h) a.
Proof.
  intros [_ _ (W & HW & F)] Ha. apply (writes_load32 _ _ _ _ HW). eapply Forall_impl; [exact F|]. cbn. lia.
Qed.

Lemma prev_free_run h h' l l1 b l2 X p :
  heap_rep h l -> l = l1 ++ b :: l2 -> faddrs (first_blk h :: l1) = X ++ [p] -> above (b_addr b + 4) h h' ->
  get_prev_free_block h' (b_addr b) = Ok p.
Proof.
  intros R E EX A. assert (Hin : b ∈ first_blk h :: l) by (rewrite E; apply elem_of_cons; right; apply elem_of_app; right; left).
  destruct (rep_at R _ _ _ E) as (B1 & B2 & B3 & _).
  unfold get_prev_free_block, is_first_block, first_block. rewrite (ab_addr _ _ _ A). fold (first_block h).
  pose proof B1 as B1'. apply Forall_cons in B1 as [B0 _]. unfold b_end in B0. cbn in B0.
  destruct (Z.eqb_spec (b_addr b) (first_block h)); [lia|]. oassert ltac:(done).
  destruct (links_at R l1 (b :: l2) E) as (X' & p' & z & EX' & K1 & _ & _ & Hz).
  assert (EE : X' ++ [p'] = X ++ [p]) by congruence. apply app_inj_tail in EE as [-> ->].
  pose proof (rep_block R b Hin) as (_ & _ & _ & Hs & _ & _ & _).
  destruct (head_faddrs_ge b l2 (last_block h) B2 B3 Hs) as (G1 & G2 & _). rewrite <- Hz in G1, G2.
  assert (Hfree : forall a, a + 4 <= b_addr b + 4 -> is_free h' a = is_free h a)
    by (intros a Ha; unfold is_free, header; by rewrite (above_load32 _ _ _ _ A Ha)).
  pose proof (before_facts R _ _ _ E) as BF. rewrite EX in BF.
  assert (Hlo : Forall (fun y => y + 8 <= b_addr b) (X ++ [p])).
  { rewrite <- EX. apply faddrs_Forall. apply Forall_forall. intros c Hc. rewrite Forall_forall in B1'. specialize (B1' c Hc).
    assert (Hcl : c ∈ first_blk h :: l) by (rewrite E, app_comm_cons; apply elem_of_app; by left).
    pose proof (rep_block R c Hcl). unfold b_end in *. lia. }
  apply (prev_loop_spec (heap_fuel h') X _ p _ z).
  - eapply fseg_frame; [|exact K1]. eapply Forall_impl; [exact Hlo|]. intros y Hy. cbn in Hy.
    apply (above_load32 _ _ _ _ A). lia.
  - eapply Forall_impl; [exact BF|]. intros y [Hy Hfy]. split; [done|]. by rewrite Hfree by lia.
  - done.
  - rewrite Hfree by lia. rewrite is_free_blk_run by done. done.
  - unfold heap_fuel. rewrite (ab_addr _ _ _ A), (ab_last _ _ _ A). fold (heap_fuel h).
    pose proof (rep_fuel R l1 (b :: l2) E). rewrite faddrs_cons in EX. simpl in EX.
    apply (f_equal length) in EX. rewrite length_app in EX. simpl in EX. lia.
Qed.

(** ** Splitting *)
Section split.

Lemma lor_1 x : x mod 4 = 0 -> Z.lor x 1 = x + 1.
Proof.
  intros Hx. assert (E : Z.land x 1 = 0).
  { change 1 with (Z.ones 1). rewrite Z.land_ones by lia. change (2 ^ 1) with 2. Z.to_euclidean_division_equations. lia. }
  rewrite <- Z.lxor_lor by done. by rewrite <- Z.add_nocarry_lxor.
Qed.

Lemma align_4 x : x mod 4 = 0 -> 0 <= x < 2 ^ 31 -> align_up 4 x = x.
Proof. intros Hx Hb. rewrite align_up_4 by lia. Z.to_euclidean_division_equations. lia. Qed.

(** The blocks after a split of [b] at [size] bytes of data. *)
Definition split_result (b : blk) (size : Z) (l2 : list blk) : list blk :=
  let rest_addr := b_addr b + 4 + size in
  match l2 with
  | c :: l2' =>
      if b_free c then mkBlk (b_addr b) size false :: mkBlk rest_addr (b_size c + (b_size b - size)) true :: l2'
      else if b_size b <? size + 8 then b :: l2
      else mkBlk (b_addr b) size false :: mkBlk rest_addr (b_size b - size - 4) true :: l2
  | [] =>
      if b_size b <? size + 8 then [b]
      else [mkBlk (b_addr b) size false; mkBlk rest_addr (b_size b - size - 4) true]
  end.

Record split_spec (h : heap_t) (l1 : list blk) (b : blk) (size : Z) (l2 : list blk) (h' : heap_t) : Prop := {
  ss_rep : heap_rep h' (l1 ++ split_result b size l2);
  ss_addr : heap_addr h' = heap_addr h;
  ss_last : last_block h' = last_block h;
  ss_min : minimum_free_bytes h' = minimum_free_bytes h;
  ss_kept : data_kept (l1 ++ l2) (heap_mem h) (heap_mem h');
  ss_data : forall x, b_addr b + 4 <= x < b_addr b + 4 + size -> load8 (heap_mem h') x = load8 (heap_mem h) x
}.

Context (h : heap_t) (l1 : list blk) (b : blk) (l2 : list blk) (size : Z) (X : list Z) (p pf : Z).
Context (R : heap_rep h (l1 ++ b :: l2)) (Hb : b_free b = false) (EX : faddrs (first_blk h :: l1) = X ++ [p])
  (Hsz : 4 <= size <= b_size b) (Hal : size mod 4 = 0) (Hpf : pf = 0 \/ pf = p).

Lemma prev_or_find h' : above (b_addr b + 8) h h' -> prev_free_or_find h' (b_addr b) pf = Ok p.
Proof.
  intros A. assert (A' : above (b_addr b + 4) h h').
  { destruct A as [A1 A2 (W & HW & F)]. split; try done. exists W. split; [done|]. eapply Forall_impl; [exact F|]. cbn. lia. }
  assert (Hp : 0 < p).
  { pose proof (before_facts R l1 b l2 eq_refl) as BF. rewrite EX in BF. apply Forall_app in BF as [_ BF].
    apply Forall_cons in BF as [[? _] _]. lia. }
  unfold prev_free_or_find. destruct Hpf as [-> | ->]; [|by destruct (Z.eqb_spec p 0); [lia|]].
  cbn [Z.eqb]. by eapply prev_free_run.
Qed.

(** Facts about the block and its place. *)
Lemma split_place :
  b ∈ first_blk h :: l1 ++ b :: l2 /\ b_addr b mod 4 = 0 /\ 0 < p /\ p + 8 <= b_addr b /\ p ∈ faddrs (first_blk h :: l1) /\
  b_end b <= last_block h /\ last_block h + 8 < 2 ^ 31 /\ 4 <= b_size b /\ b_size b mod 4 = 0 /\ 0 < b_addr b /\
  layout (first_block h) (first_blk h :: l1) (b_addr b) /\ layout (b_end b) l2 (last_block h) /\
  next_free h p = default (last_block h) (head (faddrs l2)) /\
  fseg (heap_mem h) (default (last_block h) (head (faddrs l2))) (faddrs l2 ++ [last_block h]) 0 /\
  Forall (fun c => b_end b <= b_addr c) l2.
Proof.
  assert (Hin : b ∈ first_blk h :: l1 ++ b :: l2) by in_list.
  destruct (rep_at R l1 b l2 eq_refl) as (B1 & B2 & B3 & L1 & L2).
  destruct (links_at R l1 (b :: l2) eq_refl) as (X' & p' & z & EX' & K1 & K2 & K3 & K4).
  assert (EE : X' ++ [p'] = X ++ [p]) by congruence. apply app_inj_tail in EE as [-> ->].
  rewrite faddrs_cons, Hb in K2, K4. rewrite app_nil_l in K2, K4. subst z.
  assert (Hp : p ∈ faddrs (first_blk h :: l1)) by (rewrite EX; apply elem_of_app; right; left).
  pose proof Hp as Hp'. apply faddrs_elem in Hp' as (c & Hc & Hca & _).
  assert (Hcl : c ∈ first_blk h :: l1 ++ b :: l2) by in_list.
  rewrite Forall_forall in B1. specialize (B1 c Hc).
  pose proof (rep_block R b Hin) as (?&?&?&?&?&_&?). pose proof (rep_block R c Hcl) as (?&?&?&?&?&_&?).
  pose proof (hr_range _ _ R) as [_ ?]. unfold b_end in B1. rewrite <- K4. split_and!; try done; lia.
Qed.

(** The start of the function: its assertions hold. *)
Lemma split_enter :
  split_if_necessary h (b_addr b) size pf =
    let new_block := b_addr b + 4 + size in
    if is_free h (b_end b) && negb (is_last_block h (b_end b)) then
      let h1 := set_next_free new_block (next_free (set_header new_block (header h (b_end b)) h) (b_end b))
                  (set_header new_block (header h (b_end b)) h) in
      cassert (next_free h1 p =? b_end b);;
      Ok (set_next_free p new_block (set_header (b_addr b) new_block (h1 <| free_bytes := u32 (free_bytes h + u32 (b_size b - size)) |>)))
    else if b_size b <? size + 8 then Ok h
    else
      let h1 := set_next_free new_block (next_free (set_header new_block (Z.lor (header h (b_addr b)) BLOCK_FREE_FLAG) h) p)
                  (set_header new_block (Z.lor (header h (b_addr b)) BLOCK_FREE_FLAG) h) in
      cassert (new_block <? next_free h1 p);;
      Ok (set_next_free p new_block (set_header (b_addr b) new_block (h1 <| free_bytes := u32 (free_bytes h + block_data_size h1 new_block) |>))).
Proof.
  destruct split_place as (Hin & Ha & Hp0 & Hp & _ & He & Hr & _ & _ & _ & L1 & _ & _).
  unfold split_if_necessary. rewrite align_4 by (done || unfold b_end in *; lia).
  rewrite is_free_blk_run, data_size_blk, not_last_blk, get_next_blk by done. rewrite Hb. cbn [negb].
  unfold is_first_block. apply layout_bounds in L1 as [_ L1]. apply Forall_cons in L1 as [(_ & L1 & _) _]. unfold b_end in L1. cbn in L1.
  do 4 oassert ltac:(bsolve). ostep. unfold sizeof_heap_block_t. rewrite (u32_small (size + 8)) by (unfold b_end, is_u32 in *; lia).
  destruct (is_free h (b_end b) && negb (is_last_block h (b_end b))); [|destruct (Z.ltb_spec (b_size b) (size + 8)); [done|]].
  - rewrite prev_or_find; [done|]. split; try done. exists [b_addr b + 4 + size + 4; b_addr b + 4 + size]. split; [|repeat constructor; lia].
    do 2 apply writes_store. apply writes_refl.
  - rewrite prev_or_find; [done|]. apply above_refl.
Qed.

(** The next block is free: it is extended downwards. *)
Lemma split_extend c l2' : l2 = c :: l2' -> b_free c = true ->
  exists h', split_if_necessary h (b_addr b) size pf = Ok h' /\ split_spec h l1 b size l2 h'.
Proof.
  intros E Hc. destruct split_place as (Hin & Ha & Hp0 & Hp & Hpf' & He & Hr & Hbs & Hbm & Hb0 & L1 & L2 & Np & K & B2).
  rewrite E in L2. destruct L2 as (Eca & Hcs & Hcm & L2).
  assert (Hcin : c ∈ first_blk h :: l1 ++ b :: l2) by (rewrite E; apply elem_of_cons; right; apply elem_of_app; right; right; left).
  pose proof (rep_block R c Hcin) as (_ & _ & Hcl & _ & _ & Hch & Hc0). unfold header_ok in Hch. rewrite Hc in Hch.
  rewrite E, faddrs_cons, Hc in K. destruct K as [_ K]. rewrite E, faddrs_cons, Hc in Np. cbn [app default head] in Np. cbn in Np.
  assert (Nc : load32 (heap_mem h) (b_addr c + 4) = default (last_block h) (head (faddrs l2'))).
  { apply fseg_head in K. rewrite K. by destruct (faddrs l2'). }
  rewrite split_enter. rewrite <- Eca, is_free_blk_run, not_last_blk, Hc by done. cbn [negb andb].
  set (nb := b_addr b + 4 + size). unfold b_end in Eca, Hcl, He.
  assert (E1 : next_free (set_header nb (header h (b_addr c)) h) (b_addr c) = default (last_block h) (head (faddrs l2'))).
  { unfold next_free, set_header. cbn. rewrite load32_store32_ne by lia. done. }
  cbv zeta. rewrite E1. set (nf := default (last_block h) (head (faddrs l2'))) in *.
  oassert ltac:(apply Z.eqb_eq; unfold next_free, set_next_free, set_header; cbn; rewrite !load32_store32_ne by lia; exact Np).
  eexists. split; [done|].
  set (h' := set_next_free p nb _).
  assert (Hnf : is_u32 nf) by (rewrite <- Nc; apply load32_range).
  assert (Hnb : is_u32 nb) by (unfold is_u32; lia).
  destruct (rep_update h h' l1 [b; c] [mkBlk (b_addr b) size false; mkBlk nb (b_size c + (b_size b - size)) true] l2' X p
    [p + 4; b_addr b; nb + 4; nb] (b_addr b) (b_end c) nb) as [R' D'].
  - by rewrite E in R.
  - done.
  - done.
  - done.
  - done.
  - cbn. unfold b_end in *. lia.
  - cbn. unfold b_end. cbn. Z.to_euclidean_division_equations. lia.
  - unfold h', header_ok, set_next_free, set_header, header, b_end. cbn. rewrite Hch. unfold b_end. repeat constructor; cbn.
    + rewrite load32_store32_ne, load32_store32_eq by (done || lia). lia.
    + rewrite !load32_store32_ne, load32_store32_eq by (unfold is_u32; lia). lia.
  - unfold h', set_next_free, set_header. cbn. do 4 apply writes_store. apply writes_refl.
  - unfold b_end. repeat constructor; lia.
  - unfold h', next_free, set_next_free. cbn. by rewrite load32_store32_eq.
  - change (faddrs [_; _]) with [nb]. split; [done|]. unfold h', set_next_free, set_header. cbn.
    do 2 rewrite load32_store32_ne by lia. by rewrite load32_store32_eq.
  - unfold h', set_next_free, set_header. cbn. rewrite Hb, Hc, (u32_small (b_size b - size)) by (unfold is_u32; lia). f_equal. lia.
  - split; try done.
    + rewrite E. cbn [split_result]. by rewrite Hc.
    + rewrite E. intros u x Hu Hf Hx. apply (D' u x); [|done|done]. apply elem_of_app in Hu as [Hu|[->|Hu]%elem_of_cons];
        [apply elem_of_app; by left|congruence|apply elem_of_app; by right].
    + intros x Hx. unfold h', set_next_free, set_header. cbn. rewrite !load8_store32_ne by lia. done.
Qed.

(** The next block is used or the last one. *)
Lemma next_not_free : match l2 with c :: _ => b_free c = false | [] => True end ->
  is_free h (b_end b) && negb (is_last_block h (b_end b)) = false.
Proof.
  destruct split_place as (Hin & _ & _ & _ & _ & _ & _ & _ & _ & _ & _ & L2 & _).
  destruct l2 as [|c l2'] eqn:E; intros Hc.
  - simpl in L2. rewrite L2. destruct (last_reads R) as (_ & _ & -> & _). by rewrite andb_false_r.
  - destruct L2 as (<- & _ & _ & _).
    assert (Hcin : c ∈ first_blk h :: l1 ++ b :: c :: l2') by in_list.
    by rewrite is_free_blk_run, Hc by done.
Qed.

Lemma split_insert : match l2 with c :: _ => b_free c = false | [] => True end -> size + 8 <= b_size b ->
  exists h', split_if_necessary h (b_addr b) size pf = Ok h' /\ split_spec h l1 b size l2 h'.
Proof.
  intros Hc Hroom. destruct split_place as (Hin & Ha & Hp0 & Hp & Hpf' & He & Hr & Hbs & Hbm & Hb0 & L1 & L2 & Np & K & B2).
  pose proof (rep_block R b Hin) as (_ & _ & _ & _ & _ & Hbh & _). unfold header_ok in Hbh. rewrite Hb, Z.add_0_r in Hbh.
  rewrite split_enter, next_not_free by done. destruct (Z.ltb_spec (b_size b) (size + 8)); [lia|].
  set (nb := b_addr b + 4 + size). unfold BLOCK_FREE_FLAG. unfold header. rewrite Hbh.
  rewrite lor_1 by (unfold b_end; Z.to_euclidean_division_equations; lia). cbv zeta.
  assert (Hz : b_end b <= default (last_block h) (head (faddrs l2))).
  { pose proof (faddrs_Forall (fun a => b_end b <= a) l2 B2) as F. destruct (faddrs l2); simpl; [done|]. by apply Forall_cons in F as [? _]. }
  set (z := default (last_block h) (head (faddrs l2))) in *.
  assert (E1 : next_free (set_header nb (b_end b + 1) h) p = z)
    by (unfold next_free, set_header; cbn; rewrite load32_store32_ne by lia; exact Np).
  rewrite E1. unfold b_end in He.
  assert (Hzu : is_u32 z) by (rewrite <- Np; apply load32_range). assert (Hnb : is_u32 nb) by (unfold is_u32; lia).
  assert (Heu : is_u32 (b_end b + 1)) by (unfold is_u32, b_end; lia).
  set (h1 := set_next_free nb z (set_header nb (b_end b + 1) h)).
  assert (Hds : block_data_size h1 nb = b_size b - size - 4).
  { unfold block_data_size, next_addr, header, h1, set_next_free, set_header. cbn.
    rewrite load32_store32_ne, load32_store32_eq by (done || lia).
    rewrite (ldiff_3 (b_end b) true) by (unfold b_end; Z.to_euclidean_division_equations; lia).
    unfold b_end, sizeof_header. destruct (Z.eqb_spec (b_addr b + 4 + b_size b) 0); [lia|]. rewrite u32_small by (unfold is_u32; lia). lia. }
  oassert ltac:(apply Z.ltb_lt; unfold next_free, h1, set_next_free, set_header; cbn; rewrite !load32_store32_ne by lia;
                fold (next_free h p); rewrite Np; unfold b_end in Hz; lia).
  rewrite Hds. eexists. split; [done|]. set (h' := set_next_free p nb _).
  destruct (rep_update h h' l1 [b] [mkBlk (b_addr b) size false; mkBlk nb (b_size b - size - 4) true] l2 X p
    [p + 4; b_addr b; nb + 4; nb] (b_addr b) (b_end b) nb) as [R' D']; try done.
  - cbn. unfold b_end. cbn. Z.to_euclidean_division_equations. lia.
  - unfold h', header_ok, set_next_free, set_header, header, b_end. cbn. repeat constructor; cbn.
    + rewrite load32_store32_ne, load32_store32_eq by (done || lia). lia.
    + do 3 rewrite load32_store32_ne by lia. rewrite load32_store32_eq by done. unfold b_end. lia.
  - unfold h', set_next_free, set_header. cbn. do 4 apply writes_store. apply writes_refl.
  - unfold b_end. repeat constructor; lia.
  - unfold h', next_free, set_next_free. cbn. by rewrite load32_store32_eq.
  - change (faddrs [_; _]) with [nb]. split; [done|]. unfold h', set_next_free, set_header. cbn.
    do 2 rewrite load32_store32_ne by lia. by rewrite load32_store32_eq.
  - unfold h', set_next_free, set_header. cbn. rewrite Hb. f_equal. lia.
  - assert (Esr : split_result b size l2 = [mkBlk (b_addr b) size false; mkBlk nb (b_size b - size - 4) true] ++ l2).
    { unfold split_result. destruct l2 as [|c l2']; [|rewrite Hc]; destruct (Z.ltb_spec (b_size b) (size + 8)); done || lia. }
    split; try done.
    + by rewrite Esr.
    + intros x Hx. unfold h', set_next_free, set_header. cbn. rewrite !load8_store32_ne by lia. done.
Qed.

Lemma split_none : match l2 with c :: _ => b_free c = false | [] => True end -> b_size b < size + 8 ->
  exists h', split_if_necessary h (b_addr b) size pf = Ok h' /\ split_spec h l1 b size l2 h'.
Proof.
  intros Hc Hroom. rewrite split_enter, next_not_free by done. destruct (Z.ltb_spec (b_size b) (size + 8)); [|lia].
  exists h. split; [done|]. split; try done.
  unfold split_result. destruct l2 as [|c l2']; [|rewrite Hc]; destruct (Z.ltb_spec (b_size b) (size + 8)); done || lia.
Qed.

Lemma split_run : exists h', split_if_necessary h (b_addr b) size pf = Ok h' /\ split_spec h l1 b size l2 h'.
Proof.
  assert (D : (exists c l2', l2 = c :: l2' /\ b_free c = true) \/ match l2 with c :: _ => b_free c = false | [] => True end).
  { clear R. destruct l2 as [|c l2']; [by right|]. destruct (b_free c) eqn:Hc; [left; by exists c, l2'|by right]. }
  destruct D as [(c & l2' & E & Hc)|Hc]; [by eapply split_extend|].
  destruct (decide (size + 8 <= b_size b)); [by apply split_insert|apply split_none; [done|lia]].
Qed.
End split.

(** ** Merging *)
Section merge.
Context (h : heap_t) (l1 : list blk) (a b : blk) (l2 : list blk) (X : list Z) (p : Z).
Context (R : heap_rep h (l1 ++ a :: b :: l2)) (EX : faddrs (first_blk h :: l1) = X ++ [p]).

Definition merged (f : bool) : blk := mkBlk (b_addr a) (b_size a + 4 + b_size b) f.

Record merge_spec (f : bool) (h' : heap_t) : Prop := {
  ms_rep : heap_rep h' (l1 ++ merged f :: l2);
  ms_addr : heap_addr h' = heap_addr h;
  ms_last : last_block h' = last_block h;
  ms_min : minimum_free_bytes h' = minimum_free_bytes h;
  ms_kept : data_kept (l1 ++ l2) (heap_mem h) (heap_mem h');
  ms_data : forall x, (b_free a = false /\ b_addr a + 4 <= x < b_end a) \/ (b_free b = false /\ b_addr b + 4 <= x < b_end b) ->
            load8 (heap_mem h') x = load8 (heap_mem h) x
}.

Lemma merge_place :
  a ∈ first_blk h :: l1 ++ a :: b :: l2 /\ b ∈ first_blk h :: l1 ++ a :: b :: l2 /\ b_addr b = b_end a /\
  b_addr a mod 4 = 0 /\ 0 < p /\ p + 8 <= b_addr a /\ first_block h + 8 <= b_addr a /\
  4 <= b_size a /\ b_size a mod 4 = 0 /\ 4 <= b_size b /\ b_size b mod 4 = 0 /\
  b_end b <= last_block h /\ last_block h + 8 < 2 ^ 31 /\
  layout (first_block h) (first_blk h :: l1) (b_addr a) /\ layout (b_end b) l2 (last_block h) /\
  next_free h p = default (last_block h) (head (faddrs (a :: b :: l2))) /\
  fseg (heap_mem h) (default (last_block h) (head (faddrs (a :: b :: l2)))) (faddrs (a :: b :: l2) ++ [last_block h]) 0 /\
  b_end b <= default (last_block h) (head (faddrs l2)).
Proof.
  assert (Ha : a ∈ first_blk h :: l1 ++ a :: b :: l2) by in_list.
  assert (Hb : b ∈ first_blk h :: l1 ++ a :: b :: l2) by in_list.
  destruct (rep_at R l1 a (b :: l2) eq_refl) as (B1 & B2 & B3 & L1 & L2). destruct L2 as (Eb & _ & _ & L2).
  destruct (links_at R l1 (a :: b :: l2) eq_refl) as (X' & p' & z & EX' & K1 & K2 & K3 & K4).
  assert (EE : X' ++ [p'] = X ++ [p]) by congruence. apply app_inj_tail in EE as [-> ->]. rewrite <- K4.
  assert (Hp : p ∈ faddrs (first_blk h :: l1)) by (rewrite EX; apply elem_of_app; right; left).
  apply faddrs_elem in Hp as (c & Hc & Hca & _).
  assert (Hcl : c ∈ first_blk h :: l1 ++ a :: b :: l2) by in_list.
  pose proof B1 as B0. apply Forall_cons in B0 as [B0 _]. rewrite Forall_forall in B1. specialize (B1 c Hc).
  pose proof (rep_block R a Ha) as (?&?&?&?&?&_&?). pose proof (rep_block R b Hb) as (?&?&?&?&?&_&?).
  pose proof (rep_block R c Hcl) as (?&?&?&?&?&_&?). pose proof (hr_range _ _ R) as [_ ?].
  pose proof (layout_bounds _ _ _ L2) as [Ll L2'].
  assert (Hz : b_end b <= default (last_block h) (head (faddrs l2))).
  { pose proof (faddrs_Forall (fun y => b_end b <= y) l2) as F. rewrite Forall_forall in L2'.
    destruct (faddrs l2) as [|y F'] eqn:Ef; simpl; [lia|].
    assert (Hy : y ∈ faddrs l2) by (rewrite Ef; left). apply faddrs_elem in Hy as (d & Hd & <- & _). by apply L2'. }
  unfold b_end in *. cbn in B0. split_and!; try done; try lia.
Qed.

Lemma merge_enter :
  merge_adjacent h (b_addr a) (b_addr b) =
    let free := b_free a && b_free b in
    h ← (if negb free && (b_free a || b_free b) then
           let fb := if b_free a then b_addr a else b_addr b in
           cassert (p <? next_free h fb);;
           Ok ((set_next_free p (next_free h fb) h) <| free_bytes := u32 (free_bytes h - block_data_size (set_next_free p (next_free h fb) h) fb) |>)
         else Ok h);
    let h := set_header (b_addr a) (next_addr h (b_addr b)) h in
    cassert (negb (header h (b_addr a) =? 0));;
    if free then
      let h := set_header (b_addr a) (Z.lor (header h (b_addr a)) BLOCK_FREE_FLAG) h in
      cassert ((next_free h (b_addr b) =? 0) || (b_addr a <? next_free h (b_addr b)));;
      cassert ((next_free h (b_addr b) =? 0) || (b_addr b <? next_free h (b_addr b)));;
      let h := set_next_free (b_addr a) (next_free h (b_addr b)) h in
      Ok (b_addr a, h <| free_bytes := u32 (free_bytes h + sizeof_header) |>)
    else Ok (b_addr a, h).
Proof.
  destruct merge_place as (Ha & Hb & Eb & Ham & Hp0 & Hp & Hf & Hsa & _ & _ & _ & _ & _ & _ & _ & _ & _ & _).
  unfold merge_adjacent. rewrite !is_free_blk_run, !not_last_blk, get_next_blk by done. unfold is_first_block.
  unfold b_end in Eb. oassert ltac:(apply Z.ltb_lt; lia). destruct (Z.eqb_spec (b_addr a) (first_block h)); [lia|].
  ostep. oassert ltac:(apply Z.eqb_eq; unfold b_end; lia). cbv zeta.
  destruct (negb (b_free a && b_free b) && (b_free a || b_free b)) eqn:D; [|done].
  replace (get_prev_free_block h (if b_free a then b_addr a else b_addr b)) with (Ok p); [done|]. symmetry.
  destruct (b_free a) eqn:Fa.
  - exact (prev_free_run h h _ l1 a (b :: l2) X p R eq_refl EX (above_refl _ _)).
  - apply (prev_free_run h h _ (l1 ++ [a]) b l2 X p R); [by rewrite <- app_assoc|change (first_blk h :: l1 ++ [a]) with ((first_blk h :: l1) ++ [a])|apply above_refl].
    rewrite faddrs_app, (faddrs_cons a), Fa. cbn [app]. change (faddrs []) with (@nil Z). rewrite app_nil_r. exact EX.
Qed.

(** Two free blocks. *)
Lemma merge_free : b_free a = true -> b_free b = true ->
  exists h', merge_adjacent h (b_addr a) (b_addr b) = Ok (b_addr a, h') /\ merge_spec true h'.
Proof.
  intros Fa Fb. destruct merge_place as (Ha & Hb & Eb & Ham & Hp0 & Hp & Hf & Hsa & Hma & Hsb & Hmb & He & Hr & L1 & L2 & Np & K & Hz).
  rewrite !faddrs_cons, Fa, Fb in K, Np. cbn [app head default] in K, Np. destruct K as [_ [Na K]]. cbn in Np.
  assert (Nb : load32 (heap_mem h) (b_addr b + 4) = default (last_block h) (head (faddrs l2)))
    by (apply fseg_head in K; rewrite K; by destruct (faddrs l2)).
  rewrite merge_enter, Fa, Fb. cbv zeta. cbn [andb negb orb]. ostep. rewrite next_addr_blk by done.
  set (z := default (last_block h) (head (faddrs l2))) in *. unfold b_end in Eb, He, Hz.
  assert (Heu : is_u32 (b_end b)) by (unfold is_u32, b_end; lia).
  assert (Heu' : is_u32 (b_end b + 1)) by (unfold is_u32, b_end; lia).
  assert (Hzu : is_u32 z) by (rewrite <- Nb; apply load32_range).
  set (h1 := set_header (b_addr a) (b_end b) h).
  assert (Eh1 : header h1 (b_addr a) = b_end b) by (unfold header, h1, set_header; cbn; by rewrite load32_store32_eq).
  rewrite Eh1. oassert ltac:(apply negb_true_iff, Z.eqb_neq; unfold b_end; lia).
  unfold BLOCK_FREE_FLAG. rewrite lor_1 by (unfold b_end; Z.to_euclidean_division_equations; lia).
  set (h2 := set_header (b_addr a) (b_end b + 1) h1).
  assert (Nb2 : next_free h2 (b_addr b) = z).
  { unfold next_free, h2, h1, set_header. cbn. rewrite !load32_store32_ne by lia. exact Nb. }
  rewrite Nb2. do 2 oassert ltac:(apply orb_true_intro; right; apply Z.ltb_lt; lia).
  eexists. split; [done|]. set (h' := (set_next_free (b_addr a) z h2) <| free_bytes := _ |>).
  destruct (rep_update h h' l1 [a; b] [merged true] l2 X p [b_addr a + 4; b_addr a; b_addr a] (b_addr a) (b_end b) (b_addr a)) as [R' D']; try done.
  - cbn. unfold merged, b_end. cbn. Z.to_euclidean_division_equations. lia.
  - unfold h', h2, h1, merged, header_ok, set_next_free, set_header, header, b_end. cbn. repeat constructor; cbn.
    rewrite load32_store32_ne, load32_store32_eq by (done || lia). unfold b_end. lia.
  - unfold h', h2, h1, set_next_free, set_header. cbn. do 3 apply writes_store. apply writes_refl.
  - unfold b_end. repeat constructor; lia.
  - unfold h', h2, h1, next_free, set_next_free, set_header. cbn. rewrite !load32_store32_ne by lia. exact Np.
  - change (faddrs [_]) with [b_addr a]. split; [done|]. unfold h', set_next_free. cbn. by rewrite load32_store32_eq.
  - unfold h', h2, h1, set_next_free, set_header, sizeof_header. cbn. rewrite Fa, Fb. f_equal. lia.
  - split; try done. intros x [[Hf' _]|[Hf' _]]; congruence.
Qed.

(** One free block: the result is used. *)
Lemma merge_used : b_free a = negb (b_free b) ->
  exists h', merge_adjacent h (b_addr a) (b_addr b) = Ok (b_addr a, h') /\ merge_spec false h'.
Proof.
  intros Fab. destruct merge_place as (Ha & Hb & Eb & Ham & Hp0 & Hp & Hf & Hsa & Hma & Hsb & Hmb & He & Hr & L1 & L2 & Np & K & Hz).
  set (z := default (last_block h) (head (faddrs l2))) in *. set (fb := if b_free a then a else b).
  assert (Hfb : fb ∈ first_blk h :: l1 ++ a :: b :: l2) by (unfold fb; by destruct (b_free a)).
  assert (Eff : b_free fb = true) by (unfold fb; destruct (b_free a) eqn:Fa; [done|]; by destruct (b_free b)).
  assert (Nf : next_free h (b_addr fb) = z).
  { rewrite !faddrs_cons in K. unfold fb. destruct (b_free a) eqn:Fa, (b_free b) eqn:Fb; try done; cbn [app] in K; destruct K as [_ K];
      unfold next_free; apply fseg_head in K; rewrite K; by destruct (faddrs l2). }
  unfold b_end in Eb, He, Hz.
  assert (Hlo : b_addr a <= b_addr fb /\ b_addr fb + 8 <= b_end b) by (unfold fb, b_end; destruct (b_free a); lia).
  rewrite merge_enter. cbv zeta. replace (if b_free a then b_addr a else b_addr b) with (b_addr fb) by (unfold fb; by destruct (b_free a)).
  rewrite Nf. replace (b_free a && b_free b) with false by (rewrite Fab; by destruct (b_free b)).
  replace (b_free a || b_free b) with true by (rewrite Fab; by destruct (b_free b)). cbn [negb andb].
  unfold b_end in Hlo. oassert ltac:(apply Z.ltb_lt; lia). ostep.
  assert (Hzu : is_u32 z) by (rewrite <- Nf; apply load32_range).
  assert (Heu : is_u32 (b_end b)) by (unfold is_u32, b_end; lia).
  assert (Eds : block_data_size (set_next_free p z h) (b_addr fb) = b_size fb).
  { rewrite <- (data_size_blk R fb Hfb). unfold block_data_size, next_addr, header, set_next_free. cbn. by rewrite load32_store32_ne by lia. }
  rewrite Eds. set (h1 := (set_next_free p z h) <| free_bytes := _ |>).
  assert (Enb : next_addr h1 (b_addr b) = b_end b).
  { rewrite <- (next_addr_blk R b Hb). unfold next_addr, header, h1, set_next_free. cbn. by rewrite load32_store32_ne by lia. }
  rewrite Enb. oassert ltac:(apply negb_true_iff, Z.eqb_neq; unfold header, set_header; cbn; rewrite load32_store32_eq by done; unfold b_end; lia).
  eexists. split; [done|]. set (h' := set_header (b_addr a) (b_end b) h1).
  destruct (rep_update h h' l1 [a; b] [merged false] l2 X p [b_addr a; p + 4] (b_addr a) (b_end b) z) as [R' D']; try done.
  - cbn. unfold merged, b_end. cbn. Z.to_euclidean_division_equations. lia.
  - unfold h', h1, merged, header_ok, set_next_free, set_header, header, b_end. cbn. repeat constructor; cbn.
    rewrite load32_store32_eq by done. unfold b_end. lia.
  - unfold h', h1, set_next_free, set_header. cbn. do 2 apply writes_store. apply writes_refl.
  - unfold b_end. repeat constructor; lia.
  - unfold h', h1, next_free, set_next_free, set_header. cbn. rewrite load32_store32_ne by lia. by rewrite load32_store32_eq.
  - unfold h', h1, set_next_free, set_header. cbn. f_equal. unfold fb. destruct (b_free a), (b_free b); done || lia.
  - split; try done. intros x Hx. unfold h', h1, set_next_free, set_header. cbn. unfold b_end in Hx. rewrite !load8_store32_ne by lia. done.
Qed.
End merge.
