(* ===== verification/HeapOps.v ===== *)
(** * The heap allocator: the calls

    The effect of the calls of [multi_heap.c] on the list of blocks, and the
    properties that make it an allocator. *)
From Stdlib Require Import Sorted.
From S2P Require Import Prelude Mem Heap HeapInv.

(** A heap between calls: its blocks, coalesced, and a minimum that is one. *)
Record heap_inv (h : heap_t) (l : list blk) : Prop := {
  hv_rep : heap_rep h l;
  hv_coalesced : coalesced false l;
  hv_min : 0 <= minimum_free_bytes h <= free_bytes h
}.

Definition is_used_blk (b : blk) : Prop := b_free b = false.
#[export] Instance is_used_blk_dec b : Decision (is_used_blk b).
Proof. unfold is_used_blk. apply _. Defined.
(** The allocated blocks. *)
Definition used (l : list blk) : list blk := filter is_used_blk l.

Lemma used_app l k : used (l ++ k) = used l ++ used k.
Proof. apply filter_app. Qed.
Lemma used_cons b l : used (b :: l) = (if b_free b then [] else [b]) ++ used l.
Proof. unfold used. rewrite filter_cons. case_decide as E; unfold is_used_blk in E; [by rewrite E|]. by destruct (b_free b). Qed.
Lemma elem_of_used b l : b ∈ used l <-> b ∈ l /\ b_free b = false.
Proof. unfold used. rewrite list_elem_of_filter. unfold is_used_blk. tauto. Qed.

(** ** Coalescing *)
Definition last_free (f : bool) (l : list blk) : bool := match last l with Some b => b_free b | None => f end.

Lemma coalesced_app f l k : coalesced f (l ++ k) <-> coalesced f l /\ coalesced (last_free f l) k.
Proof.
  revert f. induction l as [|b l IH]; intros f; [simpl; unfold last_free; simpl; tauto|].
  cbn [app coalesced]. rewrite IH. unfold last_free. rewrite last_cons. destruct (last l); simpl; tauto.
Qed.
Lemma coalesced_weaken f l : coalesced f l -> coalesced false l.
Proof. destruct l as [|b l]; simpl; [done|]. by intros [_ ?]. Qed.
Lemma coalesced_used l b k : coalesced false (l ++ b :: k) -> b_free b = false -> coalesced false l /\ coalesced false k.
Proof. rewrite coalesced_app. cbn. intros (H1 & _ & H2) E. by rewrite E in H2. Qed.

(** ** The search *)
Section search.
Context {h : heap_t} {l : list blk} (R : heap_rep h l).

Lemma best_fit_spec fuel : forall fs x prev size bb bs bp,
  0 < size -> Forall (fun b => b ∈ l /\ b_free b = true) fs -> fseg (heap_mem h) x ((b_addr <$> fs) ++ [last_block h]) 0 ->
  (forall b, b ∈ fs -> prev < b_addr b) -> prev < last_block h ->
  StronglySorted (fun b c => b_addr b < b_addr c) fs -> (length fs < fuel)%nat -> 0 <= bs ->
  exists r, best_fit_loop fuel h x prev size (bb, bs, bp) = Ok r /\
    ((r = (bb, bs, bp) /\ forall c, c ∈ fs -> size <= b_size c -> bs <= b_size c) \/
     (exists f1 b f2, fs = f1 ++ b :: f2 /\ r = (b_addr b, b_size b, default prev (last (b_addr <$> f1))) /\
        size <= b_size b < bs /\ forall c, c ∈ fs -> size <= b_size c -> b_size b <= b_size c)).
Proof.
  induction fuel as [|fuel IH]; intros fs x prev size bb bs bp Hs F K Hpr Hpl Hso Hn Hbs; [lia|].
  pose proof (rep_last R) as [_ Hlast]. pose proof (hr_range _ _ R) as [? ?].
  destruct fs as [|b fs]; cbn [fmap list_fmap app] in K.
  - destruct K as [<- K]. simpl in K. destruct (last_reads R) as (_ & Hlf & _ & Hls). unfold first_block in Hlast.
    cbn [best_fit_loop]. destruct (Z.eqb_spec (last_block h) 0); [lia|].
    oassert ltac:(by apply Z.ltb_lt). oassert ltac:(done). rewrite Hls. destruct (Z.leb_spec size 0); [lia|]. cbn [andb].
    unfold next_free. rewrite K. destruct fuel; cbn [best_fit_loop Z.eqb]; (eexists; split; [done|]; left; split; [done|]; by intros c ?%elem_of_nil).
  - destruct K as [<- K]. apply Forall_cons in F as [[Hbl Hbf] F]. apply StronglySorted_inv in Hso as [Hso Hlt].
    assert (Hin : b ∈ first_blk h :: l) by (by right). pose proof (rep_block R b Hin) as (_ & _ & Hbe & Hb4 & _ & _ & Hb0).
    pose proof (Hpr b ltac:(left)) as Hpb. unfold b_end in Hbe.
    cbn [best_fit_loop]. destruct (Z.eqb_spec (b_addr b) 0); [lia|].
    oassert ltac:(by apply Z.ltb_lt). oassert ltac:(by rewrite (is_free_blk_run R)). rewrite (data_size_blk R) by done. cbn [fst snd].
    fold (next_free h (b_addr b)) in K. rewrite Forall_forall in Hlt.
    assert (Hpr' : forall c, c ∈ fs -> b_addr b < b_addr c) by (intros c Hc; by apply Hlt).
    simpl in Hn. set (D := (size <=? b_size b) && (b_size b <? bs)).
    destruct (decide (D = true /\ b_size b = size)) as [[ED Es]|ED].
    { rewrite ED, Es, Z.eqb_refl. apply andb_prop in ED as [_ ED%Z.ltb_lt]. eexists. split; [done|]. right.
      exists [], b, fs. split; [done|]. split; [cbn; by rewrite Es|]. split; [lia|]. intros c _ Hc. lia. }
    destruct (IH fs (next_free h (b_addr b)) (b_addr b) size (if D then b_addr b else bb) (if D then b_size b else bs) (if D then prev else bp))
      as (r & Er & Hr); try done; try lia; [by destruct D; lia|].
    exists r. split.
    { rewrite <- Er. destruct D; [|done]. destruct (Z.eqb_spec (b_size b) size); [by destruct ED|done]. }
    assert (HD : if D then size <= b_size b < bs else size <= b_size b -> bs <= b_size b)
      by (unfold D; bsolve; intros; lia).
    destruct Hr as [[-> Hr]|(f1 & b' & f2 & -> & -> & Hr1 & Hr2)].
    + destruct D.
      * right. exists [], b, fs. split; [done|]. split; [done|]. split; [lia|].
        intros c [->|Hc]%elem_of_cons Hcs; [lia|by apply Hr].
      * left. split; [done|]. intros c [->|Hc]%elem_of_cons Hcs; [auto|by apply Hr].
    + right. exists (b :: f1), b', f2. split; [done|]. split; [f_equal; rewrite fmap_cons, last_cons; by destruct (last (b_addr <$> f1))|].
      assert (b_size b' < bs) by (destruct D; lia). split; [lia|]. intros c [->|Hc]%elem_of_cons Hcs; [|by apply Hr2].
      destruct D; [lia|]. specialize (HD Hcs). lia.
Qed.
End search.

(** ** malloc *)
Section malloc.

(** The free blocks in address order. *)
Lemma filter_free_split l f1 b f2 : filter is_free_blk l = f1 ++ b :: f2 ->
  exists l1 l2, l = l1 ++ b :: l2 /\ filter is_free_blk l1 = f1 /\ b_free b = true.
Proof.
  revert f1. induction l as [|c l IH]; intros f1; [by destruct f1|]. rewrite filter_cons. case_decide as E.
  - destruct f1 as [|c' f1]; simpl; intros [= -> H].
    + exists [], l. done.
    + destruct (IH f1 H) as (l1 & l2 & -> & <- & Hf). exists (c' :: l1), l2. split; [done|]. split; [|done].
      rewrite filter_cons. by rewrite decide_True.
  - intros H. destruct (IH f1 H) as (l1 & l2 & -> & <- & Hf). exists (c :: l1), l2. split; [done|]. split; [|done].
    rewrite filter_cons. by rewrite decide_False.
Qed.

Lemma sorted_filter a l e : layout a l e -> StronglySorted (fun b c => b_addr b < b_addr c) (filter is_free_blk l).
Proof.
  revert a. induction l as [|b l IH]; intros a; [constructor|]. intros (<- & Hs & _ & H). rewrite filter_cons.
  case_decide; [|by eapply IH]. constructor; [by eapply IH|]. apply Forall_forall. intros c [_ Hc]%list_elem_of_filter.
  apply layout_bounds in H as [_ H]. rewrite Forall_forall in H. specialize (H c Hc). unfold b_end in H. lia.
Qed.

Lemma fsum_elem l b : b ∈ l -> b_free b = true -> Forall (fun c => 0 <= b_size c) l -> b_size b <= fsum l.
Proof.
  intros Hb Hf F. apply list_elem_of_split in Hb as (l1 & l2 & ->). rewrite fsum_app. cbn. rewrite Hf.
  apply Forall_app in F as [F1 F2]. apply Forall_cons in F2 as [_ F2].
  assert (G : forall k, Forall (fun c => 0 <= b_size c) k -> 0 <= fsum k).
  { induction 1 as [|c k Hc _ IH]; cbn; [lia|]. destruct (b_free c); lia. }
  pose proof (G _ F1). pose proof (G _ F2). lia.
Qed.

(** The block [b] taken for [n] bytes. *)
Definition alloc_result (b : blk) (n : Z) : list blk :=
  if b_size b <? n + 8 then [mkBlk (b_addr b) (b_size b) false]
  else [mkBlk (b_addr b) n false; mkBlk (b_addr b + 4 + n) (b_size b - n - 4) true].

Record alloc_spec (h : heap_t) (l1 : list blk) (b : blk) (l2 : list blk) (n : Z) (h' : heap_t) : Prop := {
  as_inv : heap_inv h' (l1 ++ alloc_result b n ++ l2);
  as_addr : heap_addr h' = heap_addr h;
  as_last : last_block h' = last_block h;
  as_kept : data_kept (l1 ++ l2) (heap_mem h) (heap_mem h')
}.

(** Taking the free block [b] from the free list. *)
Lemma unlink_run h l1 b l2 X p :
  heap_rep h (l1 ++ b :: l2) -> faddrs (first_blk h :: l1) = X ++ [p] -> b_free b = true ->
  let h1 := set_next_free p (next_free h (b_addr b)) h in
  let h2 := set_header (b_addr b) (Z.ldiff (header h1 (b_addr b)) BLOCK_FREE_FLAG) h1 in
  let h3 := h2 <| free_bytes := u32 (free_bytes h2 - block_data_size h2 (b_addr b)) |> in
  heap_rep h3 (l1 ++ mkBlk (b_addr b) (b_size b) false :: l2) /\
  data_kept (l1 ++ l2) (heap_mem h) (heap_mem h3).
Proof.
  intros R EX Hf h1 h2 h3. assert (Hin : b ∈ first_blk h :: l1 ++ b :: l2) by in_list.
  destruct (rep_at R l1 b l2 eq_refl) as (B1 & B2 & B3 & L1 & L2).
  destruct (links_at R l1 (b :: l2) eq_refl) as (X' & p' & z & EX' & K1 & K2 & K3 & K4).
  assert (EE : X' ++ [p'] = X ++ [p]) by congruence. apply app_inj_tail in EE as [-> ->].
  rewrite faddrs_cons, Hf in K2. destruct K2 as [_ K2]. cbn [app] in K2.
  assert (Hz : next_free h (b_addr b) = default (last_block h) (head (faddrs l2)))
    by (unfold next_free; apply fseg_head in K2; rewrite K2; by destruct (faddrs l2)).
  set (z' := default (last_block h) (head (faddrs l2))) in *.
  assert (Hp : p ∈ faddrs (first_blk h :: l1)) by (rewrite EX; apply elem_of_app; right; left).
  apply faddrs_elem in Hp as (c & Hc & Hca & _). rewrite Forall_forall in B1. specialize (B1 c Hc).
  assert (Hcl : c ∈ first_blk h :: l1 ++ b :: l2) by in_list.
  pose proof (rep_block R c Hcl) as (_ & _ & _ & Hcs & _ & _ & _).
  pose proof (rep_block R b Hin) as (Hal & _ & _ & Hbs & Hbm & Hh & Hb0). pose proof (hr_range _ _ R) as [? Hr].
  unfold header_ok in Hh. rewrite Hf in Hh. unfold b_end in B1, B3.
  assert (Eh : Z.ldiff (header h1 (b_addr b)) BLOCK_FREE_FLAG = b_end b).
  { unfold header, h1, set_next_free. cbn. rewrite load32_store32_ne by lia. rewrite Hh. unfold BLOCK_FREE_FLAG.
    assert (Hm : b_end b mod 4 = 0) by (unfold b_end; Z.to_euclidean_division_equations; lia).
    change (Z.ldiff (b_end b + 1) (2 ^ 1 - 1) = b_end b). fold (align_down (2 ^ 1) (b_end b + 1)).
    rewrite align_down_pow2 by lia. change (2 ^ 1) with 2.
    Z.to_euclidean_division_equations. lia. }
  assert (Heu : is_u32 (b_end b)) by (unfold is_u32, b_end; lia).
  assert (Hzu : is_u32 z') by (rewrite <- Hz; apply load32_range).
  assert (Eds : block_data_size h2 (b_addr b) = b_size b).
  { unfold block_data_size, next_addr, header, h2, set_header. cbn [heap_mem upd]. cbn. rewrite Eh, load32_store32_eq by done.
    rewrite <- (Z.add_0_r (b_end b)), (ldiff_3 (b_end b) false) by (unfold b_end; Z.to_euclidean_division_equations; lia).
    unfold b_end, sizeof_header. destruct (Z.eqb_spec (b_addr b + 4 + b_size b) 0); [lia|]. rewrite u32_small by (unfold is_u32; lia). lia. }
  destruct (rep_update h h3 l1 [b] [mkBlk (b_addr b) (b_size b) false] l2 X p [b_addr b; p + 4] (b_addr b) (b_end b) z') as [R' D']; try done.
  - unfold h3, h2. rewrite Eh. unfold header_ok, set_header, b_end. cbn. repeat constructor. cbn. rewrite load32_store32_eq by done. unfold b_end. lia.
  - unfold h3, h2, h1, set_header, set_next_free. cbn. do 2 apply writes_store. apply writes_refl.
  - unfold b_end. repeat constructor; lia.
  - unfold h3, h2, h1, next_free, set_header, set_next_free. cbn. rewrite load32_store32_ne by lia.
    rewrite load32_store32_eq; [done|]. apply load32_range.
  - unfold h3. cbn -[h2 fsum]. rewrite Eds. change (free_bytes h2) with (free_bytes h). cbn. rewrite Hf. f_equal. lia.
Qed.

(** The rounded size. *)
Lemma align_up_size size : is_u32 size ->
  (align_up 4 size = 0 /\ (size = 0 \/ 2 ^ 32 - 4 < size)) \/
  (4 <= align_up 4 size < 2 ^ 32 /\ size <= align_up 4 size < size + 4 /\ align_up 4 size mod 4 = 0).
Proof.
  unfold is_u32. intros Hs. destruct (decide (size <= 2 ^ 32 - 4)).
  - rewrite align_up_4 by lia. Z.to_euclidean_division_equations. lia.
  - left. assert (size = 2 ^ 32 - 3 \/ size = 2 ^ 32 - 2 \/ size = 2 ^ 32 - 1) as [-> | [-> | ->]] by lia; (split; [reflexivity|lia]).
Qed.

Lemma coalesced_take l1 b l2 : coalesced false (l1 ++ b :: l2) -> b_free b = true ->
  last_free false l1 = false /\ match l2 with c :: _ => b_free c = false | [] => True end.
Proof.
  rewrite coalesced_app. cbn. intros (_ & H1 & H2) Hf. rewrite Hf in *. split; [by rewrite andb_true_r in H1|].
  destruct l2 as [|c l2]; [done|]. by destruct H2 as [? _].
Qed.

Lemma alloc_result_coalesced l1 b l2 n : coalesced false (l1 ++ b :: l2) -> b_free b = true ->
  coalesced false (l1 ++ alloc_result b n ++ l2).
Proof.
  intros C Hf. destruct (coalesced_take _ _ _ C Hf) as [C1 C2]. rewrite coalesced_app in C |- *.
  destruct C as [C0 [_ C3]]. rewrite Hf in C3. split; [done|]. rewrite C1. unfold alloc_result.
  destruct (b_size b <? n + 8); cbn; (split; [done|]).
  - by eapply coalesced_weaken.
  - split; [done|]. done.
Qed.

Lemma update_minimum_inv h l : heap_rep h l -> coalesced false l -> 0 <= minimum_free_bytes h ->
  heap_inv (update_minimum h) l /\ heap_mem (update_minimum h) = heap_mem h /\
  heap_addr (update_minimum h) = heap_addr h /\ last_block (update_minimum h) = last_block h.
Proof.
  intros R C M. assert (0 <= free_bytes h).
  { rewrite (hr_bytes _ _ R). pose proof (hr_layout _ _ R) as (_ & _ & _ & L). by eapply fsum_nonneg. }
  unfold update_minimum. destruct (Z.ltb_spec (free_bytes h) (minimum_free_bytes h)); (split; [|done]).
  - split; [|done|cbn; lia]. by destruct R.
  - split; [done|done|lia].
Qed.

Lemma malloc_run h l size : heap_rep h l -> coalesced false l -> 0 <= minimum_free_bytes h -> is_u32 size ->
  let n := align_up 4 size in
  (multi_heap_malloc_impl h size = Ok (0, h) /\ (n = 0 \/ forall b, b ∈ l -> b_free b = true -> b_size b < n)) \/
  (exists l1 b l2 h', l = l1 ++ b :: l2 /\ b_free b = true /\ 4 <= n <= b_size b /\ n mod 4 = 0 /\ size <= n /\
     (forall c, c ∈ l -> b_free c = true -> n <= b_size c -> b_size b <= b_size c) /\
     multi_heap_malloc_impl h size = Ok (b_addr b + 4, h') /\ alloc_spec h l1 b l2 n h').
Proof.
  intros R C M Hsize n. unfold multi_heap_malloc_impl. fold n.
  pose proof (align_up_size size Hsize) as Hal. fold n in Hal. destruct Hal as [[E0 _]|(Hn & Hns & Hnm)].
  { left. rewrite E0. cbn [Z.eqb]. split; [done|by left]. }
  destruct (Z.eqb_spec n 0); [lia|].
  assert (Hsz : Forall (fun c => 0 <= b_size c) l).
  { apply Forall_forall. intros c Hc. assert (Hc' : c ∈ first_blk h :: l) by (by right). pose proof (rep_block R c Hc'). lia. }
  destruct (Z.ltb_spec (free_bytes h) n) as [Hlt|_].
  { left. split; [done|]. right. intros b Hb Hf. pose proof (fsum_elem l b Hb Hf Hsz). rewrite (hr_bytes _ _ R) in Hlt. lia. }
  destruct (links_at R [] l eq_refl) as (X0 & p0 & z0 & EX0 & _ & K & Nz & _).
  assert (X0 = [] /\ p0 = first_block h) as [-> ->].
  { change (faddrs [first_blk h]) with ([] ++ [first_block h]) in EX0. apply app_inj_tail in EX0 as [<- <-]. done. }
  pose proof (rep_last R) as [_ Hlast]. pose proof (hr_range _ _ R) as [? ?].
  rewrite Nz. destruct (best_fit_spec R (heap_fuel h) (filter is_free_blk l) z0 (first_block h) n 0 SIZE_MAX 0) as (r & Er & Hr).
  { lia. }
  { apply Forall_forall. intros c [Hf Hc]%list_elem_of_filter. done. }
  { exact K. }
  { intros c [_ Hc]%list_elem_of_filter. pose proof (hr_layout _ _ R) as (_ & _ & _ & L). apply layout_bounds in L as [_ L].
    rewrite Forall_forall in L. specialize (L c Hc). unfold b_end in L. cbn in L. lia. }
  { lia. }
  { pose proof (hr_layout _ _ R) as (_ & _ & _ & L). by eapply sorted_filter. }
  { pose proof (rep_fuel R l [] ltac:(by rewrite app_nil_r)) as Hfu. unfold faddrs in Hfu. by rewrite length_fmap in Hfu. }
  { unfold SIZE_MAX. lia. }
  rewrite Er. ostep. destruct Hr as [[-> Hr]|(f1 & b & f2 & Ef & -> & Hb & Hmin)].
  { left. cbn [Z.eqb]. split; [done|]. right. intros b Hbl Hf.
    destruct (decide (n <= b_size b)) as [Hd|]; [|lia]. assert (Hb : b ∈ filter is_free_blk l) by (by apply list_elem_of_filter).
    specialize (Hr b Hb Hd). assert (Hb' : b ∈ first_blk h :: l) by (by right). pose proof (rep_block R b Hb') as (_ & _ & ? & _ & _ & _ & ?).
    unfold SIZE_MAX, b_end in *. lia. }
  right. destruct (filter_free_split _ _ _ _ Ef) as (l1 & l2 & -> & <- & Hf).
  assert (Hin : b ∈ first_blk h :: l1 ++ b :: l2) by in_list.
  pose proof (rep_block R b Hin) as (_ & _ & _ & _ & _ & _ & Hb0).
  destruct (links_at R l1 (b :: l2) eq_refl) as (X & p & z & EX & _ & _ & _ & _).
  assert (Ep : default (first_block h) (last (b_addr <$> filter is_free_blk l1)) = p).
  { rewrite faddrs_cons in EX. cbn [first_blk b_free b_addr app] in EX. unfold faddrs in EX.
    apply (f_equal last) in EX. rewrite last_snoc, last_cons in EX. revert EX. clear. destruct (last _); simpl; congruence. }
  rewrite Ep. cbv zeta. destruct (Z.eqb_spec (b_addr b) 0); [lia|].
  destruct (unlink_run h l1 b l2 X p R EX Hf) as [R3 D3]. set (h3 := _ <| free_bytes := _ |>) in R3, D3 |- *.
  assert (EX3 : faddrs (first_blk h3 :: l1) = X ++ [p]) by exact EX.
  destruct (split_run h3 l1 (mkBlk (b_addr b) (b_size b) false) l2 n X p p R3 eq_refl EX3 ltac:(cbn; lia) Hnm ltac:(by right))
    as (h4 & E4 & [S1 S2 S3 S4 S5 S6]).
  cbn [b_addr] in E4. rewrite E4. ostep.
  destruct (coalesced_take _ _ _ C Hf) as [C1 C2].
  assert (Esr : split_result (mkBlk (b_addr b) (b_size b) false) n l2 = alloc_result b n ++ l2).
  { unfold split_result, alloc_result. cbn. destruct l2 as [|c l2]; [|rewrite C2]; by destruct (b_size b <? n + 8). }
  rewrite Esr in S1.
  destruct (update_minimum_inv h4 _ S1) as (I & U1 & U2 & U3); [by apply alloc_result_coalesced|rewrite S4; cbn; lia|].
  exists l1, b, l2, (update_minimum h4). split; [done|]. split; [done|]. split; [lia|]. split; [done|]. split; [lia|].
  split. { intros c Hc Hcf Hcn. apply Hmin; [by apply list_elem_of_filter|done]. }
  split; [done|]. split; [done|by rewrite U2, S2|by rewrite U3, S3|].
  rewrite U1. eapply data_kept_trans; [exact D3|exact S5|]. done.
Qed.
End malloc.

(** ** free *)
Section free.

(** The free list after [b], which is used, is put in it. *)
Lemma link_run h l1 b l2 X p :
  heap_rep h (l1 ++ b :: l2) -> faddrs (first_blk h :: l1) = X ++ [p] -> b_free b = false ->
  let h1 := set_next_free (b_addr b) (next_free h p) h in
  let h2 := set_next_free p (b_addr b) h1 in
  let h3 := set_header (b_addr b) (Z.lor (header h2 (b_addr b)) BLOCK_FREE_FLAG) h2 in
  let h4 := h3 <| free_bytes := u32 (free_bytes h3 + block_data_size h3 (b_addr b)) |> in
  ((next_free h p =? 0) || (b_addr b <? next_free h p)) = true /\
  heap_rep h4 (l1 ++ mkBlk (b_addr b) (b_size b) true :: l2) /\ data_kept (l1 ++ l2) (heap_mem h) (heap_mem h4).
Proof.
  intros R EX Hf h1 h2 h3 h4.
  assert (Hsz : 4 <= b_size b <= b_size b).
  { assert (Hin : b ∈ first_blk h :: l1 ++ b :: l2) by in_list. pose proof (rep_block R b Hin). lia. }
  destruct (split_place h l1 b l2 X p R Hf EX) as (Hin & Ha & Hp0 & Hp & _ & He & Hr & Hbs & Hbm & Hb0 & L1 & L2 & Np & K & B2).
  pose proof (rep_block R b Hin) as (_ & _ & _ & _ & _ & Hh & _). unfold header_ok in Hh. rewrite Hf, Z.add_0_r in Hh.
  assert (Hz : b_end b <= default (last_block h) (head (faddrs l2))).
  { pose proof (faddrs_Forall (fun a => b_end b <= a) l2 B2) as F. destruct (faddrs l2); simpl; [done|]. by apply Forall_cons in F as [? _]. }
  set (z := default (last_block h) (head (faddrs l2))) in *. unfold b_end in Hz, He.
  assert (Eh : Z.lor (header h2 (b_addr b)) BLOCK_FREE_FLAG = b_end b + 1).
  { unfold header, h2, h1, set_next_free. cbn. rewrite !load32_store32_ne by lia. rewrite Hh. apply lor_1.
    unfold b_end. Z.to_euclidean_division_equations. lia. }
  assert (Heu : is_u32 (b_end b + 1)) by (unfold is_u32, b_end; lia). assert (Hbu : is_u32 (b_addr b)) by (unfold is_u32; lia).
  assert (Hzu : is_u32 z) by (rewrite <- Np; apply load32_range).
  assert (Eds : block_data_size h3 (b_addr b) = b_size b).
  { unfold block_data_size, next_addr, header, h3, set_header. cbn [heap_mem upd]. cbn. rewrite Eh, load32_store32_eq by done.
    rewrite (ldiff_3 (b_end b) true) by (unfold b_end; Z.to_euclidean_division_equations; lia).
    unfold b_end, sizeof_header. destruct (Z.eqb_spec (b_addr b + 4 + b_size b) 0); [lia|]. rewrite u32_small by (unfold is_u32; lia). lia. }
  split. { rewrite Np. apply orb_true_intro. right. apply Z.ltb_lt. lia. }
  destruct (rep_update h h4 l1 [b] [mkBlk (b_addr b) (b_size b) true] l2 X p [b_addr b; p + 4; b_addr b + 4] (b_addr b) (b_end b) (b_addr b))
    as [R' D']; try done.
  - unfold h4, h3. rewrite Eh. unfold header_ok, set_header, b_end. cbn. repeat constructor. cbn. by rewrite load32_store32_eq.
  - unfold h4, h3, h2, h1, set_header, set_next_free. cbn. do 3 apply writes_store. apply writes_refl.
  - unfold b_end. repeat constructor; lia.
  - unfold h4, h3, h2, next_free, set_header, set_next_free. cbn. rewrite load32_store32_ne by lia. by rewrite load32_store32_eq.
  - change (faddrs [_]) with [b_addr b]. split; [done|]. unfold h4, h3, h2, h1, set_header, set_next_free. cbn.
    do 2 rewrite load32_store32_ne by lia. rewrite Np. by rewrite load32_store32_eq.
  - unfold h4. cbn -[h3 fsum]. rewrite Eds. change (free_bytes h3) with (free_bytes h). cbn. rewrite Hf. f_equal. lia.
Qed.

Lemma assert_valid_run h l b : heap_rep h l -> b ∈ l -> b_free b = false -> assert_valid_block h (b_addr b) = Ok tt.
Proof.
  intros R Hb Hf. assert (Hin : b ∈ first_blk h :: l) by (by right). pose proof (rep_block R b Hin) as (_ & ? & ? & ? & _ & _ & ?).
  unfold b_end in *. unfold assert_valid_block, in_heap. oassert ltac:(bsolve). destruct (heap_addr h <? last_block h); [|done].
  rewrite (get_next_blk R b Hin). ostep. oassert ltac:(unfold b_end; bsolve). by rewrite (is_free_blk_run R b Hin), Hf.
Qed.
(** [h'] is [h] but for blocks outside of the used ones of [l]. *)
Record kept (l : list blk) (h h' : heap_t) : Prop := {
  kp_addr : heap_addr h' = heap_addr h;
  kp_last : last_block h' = last_block h;
  kp_min : minimum_free_bytes h' = minimum_free_bytes h;
  kp_data : data_kept l (heap_mem h) (heap_mem h')
}.

Lemma kept_refl l h : kept l h h.
Proof. split; try done. Qed.
Lemma kept_trans l l' h h' h'' : kept l h h' -> kept l' h' h'' -> (forall b, b ∈ l -> b_free b = false -> b ∈ l') -> kept l h h''.
Proof.
  intros [A1 A2 A3 A4] [B1 B2 B3 B4] Hi. split; [congruence..|]. by eapply data_kept_trans.
Qed.
Lemma merge_kept h l1 a b l2 f h' : merge_spec h l1 a b l2 f h' -> kept (l1 ++ l2) h h'.
Proof. by intros []. Qed.

(** The merge with the block that follows. *)
Lemma free_next h k m l2 :
  heap_rep h (k ++ m :: l2) -> b_free m = true -> coalesced false k -> last_free false k = false -> coalesced false l2 ->
  exists h' l', (if is_free h (b_end m) then '(_, h) ← merge_adjacent h (b_addr m) (b_end m); Ok h else Ok h) = Ok h' /\
    heap_rep h' l' /\ coalesced false l' /\ used l' = used (k ++ l2) /\ kept (k ++ l2) h h' /\ fsum (k ++ m :: l2) <= fsum l'.
Proof.
  intros R Fm Ck Lk C2. assert (Hin : m ∈ first_blk h :: k ++ m :: l2) by in_list.
  pose proof (rep_at R k m l2 eq_refl) as (_ & _ & He & _ & L2).
  pose proof (rep_block R m Hin) as (_ & _ & _ & Hs & _).
  destruct l2 as [|c l2].
  - simpl in L2. rewrite L2. destruct (last_reads R) as (_ & -> & EL & _). unfold merge_adjacent. rewrite EL.
    oassert ltac:(rewrite <- L2; unfold b_end; bsolve). ostep. exists h, (k ++ [m]). split; [done|]. split; [done|].
    split; [rewrite coalesced_app, Lk; simpl; done|]. split; [|by split; [apply kept_refl|]]. by rewrite !used_app, used_cons, Fm.
  - destruct L2 as (Ec & _). rewrite <- Ec.
    assert (Hcin : c ∈ first_blk h :: k ++ m :: c :: l2) by in_list.
    rewrite (is_free_blk_run R c Hcin). destruct C2 as [_ C2]. destruct (b_free c) eqn:Fc.
    + destruct (links_at R k (m :: c :: l2) eq_refl) as (X & p & z & EX & _).
      destruct (merge_free h k m c l2 X p R EX Fm Fc) as (h' & E & S). rewrite E. ostep.
      exists h', (k ++ merged m c true :: l2). split; [done|]. split; [apply S|].
      split; [rewrite coalesced_app, Lk; simpl; done|]. split; [rewrite !used_app, !used_cons, Fc; done|].
      split; [|rewrite !fsum_app; simpl; rewrite Fm, Fc; lia].
      pose proof (merge_kept _ _ _ _ _ _ _ S) as [S1 S2 S3 S4]. split; try done. intros d x Hd Hdf. apply S4; [|done].
      apply elem_of_app in Hd as [Hd|[->|Hd]%elem_of_cons]; [apply elem_of_app; by left|congruence|apply elem_of_app; by right].
    + exists h, (k ++ m :: c :: l2). split; [done|]. split; [done|]. split; [|split; [|by split; [apply kept_refl|]]].
      * rewrite coalesced_app, Lk. simpl. by rewrite Fm, Fc.
      * by rewrite !used_app, used_cons, Fm.
Qed.

(** Where the free block before [b] is. *)
Lemma prev_cases h l1 b l2 X p : heap_rep h (l1 ++ b :: l2) -> faddrs (first_blk h :: l1) = X ++ [p] ->
  exists after, get_next_block h p = Ok after /\
    ((l1 = [] /\ p = first_block h /\ after = b_addr b) \/
     (exists k a, l1 = k ++ [a] /\ b_free a = true /\ p = b_addr a /\ after = b_addr b /\ block_data_size h p = b_size a) \/
     (exists k a, l1 = k ++ [a] /\ b_free a = false /\ after <> b_addr b)).
Proof.
  intros R EX. destruct l1 as [|a k _] using rev_ind.
  - change (faddrs [first_blk h]) with ([] ++ [first_block h]) in EX. apply app_inj_tail in EX as [<- <-].
    assert (Eb : b_addr b = b_end (first_blk h)) by (pose proof (hr_layout _ _ R) as (_ & _ & _ & L & _); done).
    pose proof (get_next_blk R (first_blk h) ltac:(left)) as En. cbn [b_addr first_blk] in En. exists (b_end (first_blk h)).
    split; [done|]. by left.
  - rewrite <- app_assoc in R. cbn [app] in R.
    assert (Hain : a ∈ first_blk h :: k ++ a :: b :: l2) by in_list.
    pose proof (rep_at R k a (b :: l2) eq_refl) as (B1 & _ & _ & _ & (Eb & _)).
    rewrite app_comm_cons, faddrs_app, (faddrs_cons a) in EX. change (faddrs []) with (@nil Z) in EX.
    rewrite (app_nil_r (if b_free a then _ else _)) in EX. destruct (b_free a) eqn:Fa.
    + apply app_inj_tail in EX as [_ <-]. exists (b_end a). split; [by apply get_next_blk with (1 := R)|]. right. left.
      exists k, a. by rewrite (data_size_blk R a Hain), Eb.
    + rewrite app_nil_r in EX. assert (Hp : p ∈ faddrs (first_blk h :: k)) by (rewrite EX; apply elem_of_app; right; left).
      apply faddrs_elem in Hp as (c & Hc & <- & _).
      assert (Hcin : c ∈ first_blk h :: k ++ a :: b :: l2) by in_list.
      exists (b_end c). split; [by apply get_next_blk with (1 := R)|]. right. right. exists k, a. split; [done|]. split; [done|].
      rewrite Forall_forall in B1. specialize (B1 c Hc). pose proof (rep_block R a Hain) as (_ & _ & _ & ? & _). unfold b_end in *. lia.
Qed.

(** The merge with the free block before. *)
Lemma free_prev h l1 b l2 X p :
  heap_rep h (l1 ++ b :: l2) -> faddrs (first_blk h :: l1) = X ++ [p] -> b_free b = true -> coalesced false l1 ->
  exists h' k m, (after_prev ← get_next_block h p;
                  if after_prev =? b_addr b then merge_adjacent h p (b_addr b) else Ok (b_addr b, h)) = Ok (b_addr m, h') /\
    heap_rep h' (k ++ m :: l2) /\ b_free m = true /\ b_end m = b_end b /\ coalesced false k /\ last_free false k = false /\
    used k = used l1 /\ kept (l1 ++ l2) h h' /\ fsum (l1 ++ b :: l2) <= fsum (k ++ m :: l2).
Proof.
  intros R EX Fb C1. assert (Hin : b ∈ first_blk h :: l1 ++ b :: l2) by in_list.
  destruct (prev_cases h l1 b l2 X p R EX) as (after & -> & PC). ostep.
  destruct PC as [(-> & -> & ->)|[(k & a & -> & Fa & -> & -> & _)|(k & a & -> & Fa & Hne)]]; rewrite ?Z.eqb_refl.
  - unfold merge_adjacent. pose proof (hr_layout _ _ R) as (_ & _ & _ & Eb & _).
    oassert ltac:(rewrite Eb; unfold b_end; cbn; bsolve). rewrite (not_last_blk R b Hin). unfold is_first_block. rewrite Z.eqb_refl.
    exists h, [], b. by split_and!.
  - rewrite <- app_assoc in R. cbn [app] in R. rewrite coalesced_app in C1. destruct C1 as (Ck & C1 & _).
    pose proof (rep_at R k a (b :: l2) eq_refl) as (_ & _ & _ & _ & (Eb & _)).
    destruct (links_at R k (a :: b :: l2) eq_refl) as (X' & p' & z & EX' & _).
    destruct (merge_free h k a b l2 X' p' R EX' Fa Fb) as (h' & E & S). exists h', k, (merged a b true).
    split; [exact E|]. split; [apply S|]. split; [done|]. split; [unfold b_end, merged in *; cbn; lia|]. split; [done|].
    split; [by rewrite Fa, andb_true_r in C1|]. split; [by rewrite used_app, used_cons, Fa, !app_nil_r|].
    split; [|rewrite <- app_assoc, !fsum_app; simpl; rewrite Fa, Fb; lia].
    pose proof (merge_kept _ _ _ _ _ _ _ S) as [S1 S2 S3 S4]. split; try done. intros d x Hd Hdf. apply S4; [|done].
    rewrite <- app_assoc in Hd. apply elem_of_app in Hd as [Hd|[->|Hd]%elem_of_cons]; [apply elem_of_app; by left|congruence|apply elem_of_app; by right].
  - destruct (Z.eqb_spec after (b_addr b)); [done|]. rewrite coalesced_app in C1. destruct C1 as (Ck & C1 & _).
    exists h, (k ++ [a]), b. split_and!; try done.
    + rewrite coalesced_app. simpl. by rewrite Fa, andb_false_r.
    + unfold last_free. by rewrite last_snoc.
Qed.

Lemma free_run h l1 b l2 : heap_inv h (l1 ++ b :: l2) -> b_free b = false ->
  exists h' l', multi_heap_free_impl h (b_addr b + 4) = Ok h' /\ heap_inv h' l' /\ used l' = used (l1 ++ l2) /\ kept (l1 ++ l2) h h'.
Proof.
  intros [R C M] Hf. assert (Hb : b ∈ l1 ++ b :: l2) by in_list.
  assert (Hin : b ∈ first_blk h :: l1 ++ b :: l2) by (by right).
  destruct (links_at R l1 (b :: l2) eq_refl) as (X & p & z & EX & _).
  destruct (coalesced_used _ _ _ C Hf) as [C1 C2].
  pose proof (rep_block R b Hin) as (_ & _ & _ & Hs & _ & _ & Hb0).
  pose proof (rep_at R _ _ _ eq_refl) as (B1 & _ & _ & _). apply Forall_cons in B1 as [B1 _]. unfold b_end in B1. cbn in B1.
  unfold multi_heap_free_impl, get_block. replace (b_addr b + 4 - 4) with (b_addr b) by lia.
  destruct (Z.eqb_spec (b_addr b + 4) 0); [lia|]. rewrite (assert_valid_run _ _ _ R Hb Hf). ostep.
  rewrite (is_free_blk_run R b Hin), Hf, (not_last_blk R b Hin), (get_next_blk R b Hin). unfold is_first_block.
  do 3 oassert ltac:(bsolve). ostep.
  rewrite (prev_free_run h h _ l1 b l2 X p R eq_refl EX (above_refl _ _)). ostep.
  destruct (link_run h l1 b l2 X p R EX Hf) as (Ea & R4 & D4). oassert ltac:(exact Ea).
  set (h4 := _ <| free_bytes := _ |>) in R4, D4 |- *. cbv zeta.
  assert (EX4 : faddrs (first_blk h4 :: l1) = X ++ [p]) by exact EX.
  assert (K4 : kept (l1 ++ l2) h h4) by (split; done).
  destruct (free_prev h4 l1 (mkBlk (b_addr b) (b_size b) true) l2 X p R4 EX4 eq_refl C1) as (h5 & k & m & E5 & R5 & Fm & Em & Ck & Lk & Uk & K5 & S5).
  cbn [b_addr] in E5. change (b_end (mkBlk (b_addr b) (b_size b) true)) with (b_end b) in Em.
  destruct (get_next_block h4 p) as [ap| | |]; try done. rewrite outcome_bind_Ok in E5. ostep. rewrite E5. ostep.
  destruct (free_next h5 k m l2 R5 Fm Ck Lk C2) as (h' & l' & E6 & R6 & C6 & U6 & K6 & S6). rewrite Em in E6. rewrite E6.
  assert (Eu : used (k ++ l2) = used (l1 ++ l2)) by (by rewrite !used_app, Uk).
  exists h', l'. split; [done|]. split; [|split; [by rewrite U6|]].
  - split; [done|done|]. rewrite (kp_min _ _ _ K6), (kp_min _ _ _ K5), (hr_bytes _ _ R6). change (minimum_free_bytes h4) with (minimum_free_bytes h).
    pose proof (hr_bytes _ _ R) as HB. rewrite fsum_app in HB, S5. simpl in HB, S5. rewrite Hf in HB. lia.
  - eapply kept_trans; [eapply kept_trans; [exact K4|exact K5|done]|exact K6|].
    intros d Hd Hdf. assert (Hu : d ∈ used (l1 ++ l2)) by (by apply elem_of_used). rewrite <- Eu in Hu. apply elem_of_used in Hu as [Hu _]. exact Hu.
Qed.
End free.
