(* ===== verification/HeapCalls.v ===== *)
(** * The heap allocator: an allocator of live buffers

    The remaining calls of [multi_heap.c], [realloc], the aligned calls and the
    creation of a heap, and the promise of the whole to its clients: whatever the
    calls, the buffers handed out are aligned, inside the heap, disjoint from
    each other and hold what was last written to them. *)
From S2P Require Import Prelude Mem Heap HeapInv HeapOps.

(** ** Writes to the data of allocated blocks *)
Section data.

Lemma blocks_disjoint {h l} (R : heap_rep h l) u v :
  u ∈ first_blk h :: l -> v ∈ first_blk h :: l -> u = v \/ b_end u <= b_addr v \/ b_end v <= b_addr u.
Proof. apply layout_disjoint with (1 := hr_layout _ _ R). Qed.

Lemma layout_nodup a l e : layout a l e -> NoDup l.
Proof.
  revert a. induction l as [|b l IH]; intros a; [constructor|]. intros (<- & Hs & _ & H). constructor; [|by eapply IH].
  intros Hb. apply layout_bounds in H as [_ H]. rewrite Forall_forall in H. specialize (H b Hb). unfold b_end in H. lia.
Qed.
Lemma used_nodup {h l} (R : heap_rep h l) : NoDup (used l).
Proof. unfold used. apply NoDup_filter. pose proof (hr_layout _ _ R) as L. apply layout_nodup, NoDup_cons in L as [_ L]. done. Qed.

Lemma others_apart {h l} (R : heap_rep h l) b us d : used l ≡ₚ b :: us -> d ∈ us -> b_end d <= b_addr b \/ b_end b <= b_addr d.
Proof.
  intros U Hd. pose proof (used_nodup R) as N. rewrite U in N. apply NoDup_cons in N as [N _].
  assert (G : forall c, c ∈ b :: us -> c ∈ first_blk h :: l).
  { intros c Hc. rewrite <- U in Hc. apply elem_of_used in Hc as [Hc _]. by right. }
  destruct (blocks_disjoint R d b) as [->|?]; [apply G; by right|apply G; left|done|done].
Qed.

(** [x] is in the data of an allocated block. *)
Definition in_used (l : list blk) (x : Z) : Prop := exists b, b ∈ used l /\ b_addr b + 4 <= x < b_end b.

Lemma rep_data_write h l m' : heap_rep h l ->
  (forall x, ~ in_used l x -> load8 m' x = load8 (heap_mem h) x) -> heap_rep (h <| heap_mem := m' |>) l.
Proof.
  intros R H. pose proof (rep_last R) as [_ Hl].
  assert (W : forall a, (forall b, b ∈ used l -> a + 4 <= b_addr b + 4 \/ b_end b <= a) -> load32 m' a = load32 (heap_mem h) a).
  { intros a Ha. apply load32_ext. intros x Hx. apply H. intros (b & Hb & Hbx). specialize (Ha b Hb). lia. }
  assert (D : forall u b, u ∈ first_blk h :: l -> b ∈ used l -> u = b \/ b_end u <= b_addr b \/ b_end b <= b_addr u).
  { intros u b Hu [Hb _]%elem_of_used. apply (blocks_disjoint R); [done|by right]. }
  destruct R as [A1 A2 A3 A4 A5 A6 A7]. set (h' := h <| heap_mem := m' |>).
  split; try done; change (heap_mem h') with m'; change (first_blk h') with (first_blk h); change (last_block h') with (last_block h).
  - apply Forall_forall. intros u Hu. rewrite Forall_forall in A4. unfold header_ok. rewrite W; [by apply A4|].
    intros b Hb. destruct (D u b Hu Hb) as [->|[E|E]]; [lia| |lia]. unfold b_end in E.
    apply layout_bounds in A3 as [_ A3]. rewrite Forall_forall in A3. specialize (A3 u Hu). lia.
  - rewrite W; [done|]. intros b [Hb _]%elem_of_used. right. apply layout_bounds in A3 as [_ A3].
    rewrite Forall_forall in A3. apply (A3 b). by right.
  - eapply fseg_frame; [|exact A6]. apply Forall_app. split.
    + apply Forall_forall. intros y (u & Hu & <- & Huf)%faddrs_elem. apply W. intros b Hb.
      pose proof Hb as [_ Hbf]%elem_of_used. apply layout_bounds in A3 as [_ A3].
      rewrite Forall_forall in A3. specialize (A3 u Hu). unfold b_end in *. destruct (D u b Hu Hb) as [->|[E|E]]; [congruence|lia|lia].
    + repeat constructor. apply W. intros b [Hb _]%elem_of_used. right. apply layout_bounds in A3 as [_ A3].
      rewrite Forall_forall in A3. assert (Hb' : b ∈ first_blk h :: l) by (by right). pose proof (A3 b Hb'). lia.
Qed.

Lemma inv_data_write h l m' : heap_inv h l ->
  (forall x, ~ in_used l x -> load8 m' x = load8 (heap_mem h) x) -> heap_inv (h <| heap_mem := m' |>) l.
Proof. intros [R C M] H. split; [by apply rep_data_write|done|done]. Qed.

(** A copy into an allocated block. *)
Lemma memcpy_outside l b m dst src n : b ∈ used l -> 0 <= n -> b_addr b + 4 <= dst -> dst + n <= b_end b ->
  forall x, ~ in_used l x -> load8 (memcpy m dst src n) x = load8 m x.
Proof.
  intros Hb Hn H1 H2 x Hx. apply load8_memcpy_ne; [|done].
  destruct (decide (x < dst)); [by left|]. destruct (decide (dst + n <= x)); [by right|].
  exfalso. apply Hx. exists b. split; [done|]. lia.
Qed.

Lemma load8_memcpy m dst src n i : 0 <= i < n -> load8 (memcpy m dst src n) (dst + i) = load8 m (src + i).
Proof.
  intros Hi. unfold memcpy. rewrite load8_write_bytes, length_read_bytes, decide_True by lia.
  assert (E : read_bytes m src (Z.to_nat n) !! Z.to_nat i = Some (load8 m (src + i))).
  { apply lookup_read_bytes. split; [lia|]. do 2 f_equal. lia. }
  replace (Z.to_nat (dst + i - dst)) with (Z.to_nat i) by lia. apply nth_lookup_Some with (d := 0) in E. rewrite E.
  unfold u8. pose proof (load8_range m (src + i)). unfold is_byte in *. by apply Z.mod_small.
Qed.
End data.

(** ** malloc and free on the allocated blocks *)
Section blocks.

(** The allocated blocks of [l] with their data, in [h] and in [h']. *)
Definition used_kept (l : list blk) (h h' : heap_t) : Prop :=
  heap_addr h' = heap_addr h /\ last_block h' = last_block h /\
  forall b x, b ∈ used l -> b_addr b + 4 <= x < b_end b -> load8 (heap_mem h') x = load8 (heap_mem h) x.

Lemma used_alloc_result b n : exists b', used (alloc_result b n) = [b'] /\ b_free b' = false /\ b_addr b' = b_addr b /\
  (n <= b_size b -> n <= b_size b').
Proof. unfold alloc_result. destruct (b_size b <? n + 8); eexists; (split; [done|]); cbn; (split; [done|]); (split; [done|]); lia. Qed.

Lemma malloc_blk h l size : heap_rep h l -> coalesced false l -> 0 <= minimum_free_bytes h -> is_u32 size ->
  (multi_heap_malloc_impl h size = Ok (0, h) /\ (align_up 4 size = 0 \/ forall b, b ∈ l -> b_free b = true -> b_size b < align_up 4 size)) \/
  (exists b' l' h', multi_heap_malloc_impl h size = Ok (b_addr b' + 4, h') /\ heap_inv h' l' /\
     b_free b' = false /\ size <= align_up 4 size <= b_size b' /\ used l' ≡ₚ b' :: used l /\ used_kept l h h').
Proof.
  intros R C M Hs. destruct (malloc_run h l size R C M Hs) as [?|(l1 & b & l2 & h' & -> & Fb & Hn & _ & Hns & _ & E & [S1 S2 S3 S4])]; [by left|].
  right. destruct (used_alloc_result b (align_up 4 size)) as (b' & Eu & Fb' & Eb & Hb'). exists b', (l1 ++ alloc_result b (align_up 4 size) ++ l2), h'.
  rewrite Eb. split; [done|]. split; [done|]. split; [done|]. split; [lia|]. split.
  - rewrite !used_app, used_cons, Fb, Eu. cbn. by rewrite Permutation_middle.
  - split; [done|]. split; [done|]. intros c x Hc Hx. apply (S4 c); [|by apply elem_of_used in Hc as [_ ?]|done].
    rewrite used_app, used_cons, Fb in Hc. cbn in Hc. rewrite <- used_app in Hc. by apply elem_of_used in Hc as [? _].
Qed.

Lemma free_blk h l b : heap_inv h l -> b ∈ used l ->
  exists h' l' , multi_heap_free_impl h (b_addr b + 4) = Ok h' /\ heap_inv h' l' /\ used l ≡ₚ b :: used l' /\ used_kept l' h h'.
Proof.
  intros I [Hb Fb]%elem_of_used. apply list_elem_of_split in Hb as (l1 & l2 & ->).
  destruct (free_run h l1 b l2 I Fb) as (h' & l' & E & I' & U & [K1 K2 _ K4]). exists h', l'. split; [done|]. split; [done|].
  split; [rewrite U, !used_app, used_cons, Fb; cbn; by rewrite Permutation_middle|].
  split; [done|]. split; [done|]. intros c x Hc Hx. rewrite U in Hc. apply elem_of_used in Hc as [Hc Fc]. by apply (K4 c).
Qed.
End blocks.

(** ** realloc *)
Section realloc.

(** [h'] and [b'] are [h] and [b] after [b] took in a free neighbour. *)
Record grown (h : heap_t) (l1 : list blk) (b : blk) (l2 : list blk) (h' : heap_t) (l1' : list blk) (b' : blk) (l2' : list blk) : Prop := {
  gr_rep : heap_rep h' (l1' ++ b' :: l2');
  gr_coal : coalesced false (l1' ++ b' :: l2');
  gr_used : b_free b' = false;
  gr_in : b_addr b' <= b_addr b /\ b_end b <= b_end b';
  gr_l1 : used l1' = used l1;
  gr_l2 : used l2' = used l2;
  gr_min : minimum_free_bytes h' = minimum_free_bytes h;
  gr_kept : used_kept (l1 ++ b :: l2) h h'
}.

Lemma used_kept_refl l h : used_kept l h h.
Proof. done. Qed.
Lemma used_kept_trans l h h' h'' : used_kept l h h' -> used_kept l h' h'' -> used_kept l h h''.
Proof.
  intros (A1 & A2 & A3) (B1 & B2 & B3). split; [congruence|]. split; [congruence|].
  intros b x Hb Hx. by rewrite (B3 b x Hb Hx), (A3 b x Hb Hx).
Qed.

Lemma merge_grown h l1 a b l2 h' :
  merge_spec h l1 a b l2 false h' -> b_free a = negb (b_free b) ->
  coalesced false (l1 ++ a :: b :: l2) -> b_addr b = b_end a -> 4 <= b_size a -> 4 <= b_size b ->
  used_kept (l1 ++ a :: b :: l2) h h' /\ coalesced false (l1 ++ merged a b false :: l2).
Proof.
  intros [S1 S2 S3 S4 S5 S6] Fab C Eb Ha Hb. split.
  - split; [done|]. split; [done|]. intros d x [Hd Fd]%elem_of_used Hx.
    apply elem_of_app in Hd as [Hd|[->|[->|Hd]%elem_of_cons]%elem_of_cons].
    + apply (S5 d); [apply elem_of_app; by left|done|done].
    + apply S6. left. by split.
    + apply S6. right. by split.
    + apply (S5 d); [apply elem_of_app; by right|done|done].
  - rewrite coalesced_app in C |- *. destruct C as (C1 & _ & _ & C2). split; [done|]. cbn. rewrite andb_false_r.
    split; [done|]. by eapply coalesced_weaken.
Qed.

Lemma grow_next h l1 b l2 (ok : bool) : heap_rep h (l1 ++ b :: l2) -> coalesced false (l1 ++ b :: l2) -> b_free b = false ->
  exists h' b' l2', (if is_free h (b_end b) && ok then merge_adjacent h (b_addr b) (b_end b) else Ok (b_addr b, h)) = Ok (b_addr b', h') /\
    grown h l1 b l2 h' l1 b' l2' /\ b_addr b' = b_addr b.
Proof.
  intros R C Fb.
  assert (G0 : grown h l1 b l2 h l1 b l2) by (split; try done; lia).
  pose proof (rep_at R l1 b l2 eq_refl) as (_ & _ & _ & _ & L2).
  assert (Hin : b ∈ first_blk h :: l1 ++ b :: l2) by in_list.
  pose proof (rep_block R b Hin) as (_ & _ & _ & Hs & _).
  destruct l2 as [|c l2].
  { simpl in L2. rewrite L2. destruct (last_reads R) as (_ & -> & EL & _). exists h, b, []. split; [|done].
    destruct ok; [|done]. cbn [andb]. unfold merge_adjacent. rewrite EL. oassert ltac:(rewrite <- L2; unfold b_end; bsolve). done. }
  destruct L2 as (Ec & Hcs & _). rewrite <- Ec.
  assert (Hcin : c ∈ first_blk h :: l1 ++ b :: c :: l2) by in_list.
  rewrite (is_free_blk_run R c Hcin). destruct (b_free c) eqn:Fc; [|by exists h, b, (c :: l2)].
  destruct ok; [|by exists h, b, (c :: l2)]. cbn [andb].
  destruct (links_at R l1 (b :: c :: l2) eq_refl) as (X & p & z & EX & _).
  assert (Fbc : b_free b = negb (b_free c)) by (by rewrite Fb, Fc).
  destruct (merge_used h l1 b c l2 X p R EX Fbc) as (h' & E & S).
  destruct (merge_grown _ _ _ _ _ _ S Fbc C Ec Hs Hcs) as [K C'].
  exists h', (merged b c false), l2. split; [exact E|]. split; [|done]. split; try done.
  - apply S.
  - unfold b_end, merged. cbn. lia.
  - by rewrite used_cons, Fc.
  - apply S.
Qed.

Lemma grow_prev h l1 b l2 X p (ok : bool) : heap_rep h (l1 ++ b :: l2) -> coalesced false (l1 ++ b :: l2) -> b_free b = false ->
  faddrs (first_blk h :: l1) = X ++ [p] -> (ok = true -> get_next_block h p = Ok (b_addr b)) ->
  exists h' l1' b', (if ok then merge_adjacent h p (b_addr b) else Ok (b_addr b, h)) = Ok (b_addr b', h') /\
    grown h l1 b l2 h' l1' b' l2 /\ b_end b' = b_end b /\ (b_addr b' = b_addr b \/ (l1 <> [] /\ b_size b' = b_size b + 4 + block_data_size h p)).
Proof.
  intros R C Fb EX Hok.
  assert (G0 : grown h l1 b l2 h l1 b l2) by (split; try done; lia).
  assert (Hin : b ∈ first_blk h :: l1 ++ b :: l2) by in_list.
  destruct ok; [|exists h, l1, b; split_and!; try done; by left]. specialize (Hok eq_refl).
  destruct (prev_cases h l1 b l2 X p R EX) as (after & Ea & [(-> & -> & ->)|[(k & a & -> & Fa & -> & -> & Eds)|(k & a & -> & _ & Hne)]]).
  - exists h, [], b. split; [|split_and!; try done; by left]. unfold merge_adjacent. rewrite (not_last_blk R b Hin).
    pose proof (hr_layout _ _ R) as (_ & _ & _ & Eb & _). oassert ltac:(rewrite Eb; unfold b_end; cbn; bsolve).
    unfold is_first_block. by rewrite Z.eqb_refl.
  - rewrite <- app_assoc in R, C, Hin. cbn [app] in R, C, Hin. destruct (links_at R k (a :: b :: l2) eq_refl) as (X' & p' & z & EX' & _).
    assert (Fab : b_free a = negb (b_free b)) by (by rewrite Fa, Fb).
    destruct (merge_used h k a b l2 X' p' R EX' Fab) as (h' & E & S).
    assert (Hain : a ∈ first_blk h :: k ++ a :: b :: l2) by in_list.
    pose proof (rep_at R k a (b :: l2) eq_refl) as (_ & _ & _ & _ & (Eb & _)).
    pose proof (rep_block R a Hain) as (_ & _ & _ & Has & _). pose proof (rep_block R b Hin) as (_ & _ & _ & Hbs & _).
    destruct (merge_grown _ _ _ _ _ _ S Fab C Eb Has Hbs) as [K C'].
    exists h', k, (merged a b false). split; [exact E|].
    split; [|rewrite Eds; unfold b_end, merged in *; cbn; split; [lia|right; split; [by destruct k|lia]]]. split; try done.
    + apply S.
    + unfold b_end, merged in *. cbn. lia.
    + by rewrite used_app, used_cons, Fa, !app_nil_r.
    + apply S.
    + by rewrite <- app_assoc.
  - congruence.
Qed.

Lemma grown_trans h l1 b l2 h1 l1' b1 l2' h2 l1'' b2 l2'' :
  grown h l1 b l2 h1 l1' b1 l2' -> grown h1 l1' b1 l2' h2 l1'' b2 l2'' -> b_free b = false ->
  grown h l1 b l2 h2 l1'' b2 l2''.
Proof.
  intros [A1 A2 A3 A4 A5 A6 A7 A8] [B1 B2 B3 B4 B5 B6 B7 (K1 & K2 & K3)] Fb. split; try congruence || lia || done.
  destruct A8 as (J1 & J2 & J3). split; [congruence|]. split; [congruence|]. intros d x Hd Hx.
  rewrite used_app, used_cons, Fb in Hd. rewrite <- (J3 d x); [|by rewrite used_app, used_cons, Fb|done].
  apply elem_of_app in Hd as [Hd|[Hd|Hd]%elem_of_app].
  - apply (K3 d); [|done]. rewrite used_app, A5. apply elem_of_app. by left.
  - apply list_elem_of_singleton in Hd as ->. apply (K3 b1); [|lia]. rewrite used_app, used_cons, A3. apply elem_of_app. right. left.
  - apply (K3 d); [|done]. rewrite used_app, used_cons, A3, A6. apply elem_of_app. right. by right.
Qed.

(** The blocks of [h] that remain while [b] is resized; [b] becomes [b']. *)
Record resized (h : heap_t) (l1 : list blk) (b : blk) (l2 : list blk) (n : Z) (h' : heap_t) (l' : list blk) (b' : blk) : Prop := {
  rz_rep : heap_rep h' l';
  rz_coal : coalesced false l';
  rz_min : minimum_free_bytes h' = minimum_free_bytes h;
  rz_free : b_free b' = false;
  rz_used : used l' ≡ₚ b' :: used (l1 ++ l2);
  rz_kept : used_kept (l1 ++ l2) h h';
  rz_data : forall i, 0 <= i < n -> i < b_size b -> load8 (heap_mem h') (b_addr b' + 4 + i) = load8 (heap_mem h) (b_addr b + 4 + i)
}.

(** Cutting a block to its new size. *)
Lemma split_resized h l1 b l2 n : heap_rep h (l1 ++ b :: l2) -> coalesced false (l1 ++ b :: l2) -> b_free b = false ->
  4 <= n <= b_size b -> n mod 4 = 0 ->
  exists h' l' b', split_if_necessary h (b_addr b) n 0 = Ok h' /\ resized h l1 b l2 n h' l' b' /\
    b_addr b' = b_addr b /\ n <= b_size b'.
Proof.
  intros R C Fb Hn Hm. destruct (links_at R l1 (b :: l2) eq_refl) as (X & p & z & EX & _).
  destruct (split_run h l1 b l2 n X p 0 R Fb EX Hn Hm ltac:(by left)) as (h' & E & [S1 S2 S3 S4 S5 S6]).
  assert (D : exists b', b_free b' = false /\ b_addr b' = b_addr b /\ n <= b_size b' /\
    used (split_result b n l2) = b' :: used l2 /\ coalesced false (split_result b n l2)).
  { rewrite coalesced_app in C. destruct C as (_ & _ & C). rewrite Fb in C. unfold split_result. destruct l2 as [|c l2].
    - destruct (b_size b <? n + 8); [exists b|exists (mkBlk (b_addr b) n false)]; rewrite !used_cons; cbn; rewrite ?Fb; split_and!; done || lia.
    - destruct C as [_ C]. destruct (b_free c) eqn:Fc; [|destruct (b_size b <? n + 8); [exists b|]];
        [exists (mkBlk (b_addr b) n false)|..|exists (mkBlk (b_addr b) n false)]; rewrite !used_cons; cbn; rewrite ?Fb, ?Fc; split_and!; done || lia. }
  destruct D as (b' & Fb' & Ea & Hb' & Eu & Cs). exists h', (l1 ++ split_result b n l2), b'.
  split; [done|]. split; [|done]. split; try done.
  - rewrite coalesced_app in C |- *. destruct C as (C1 & C2 & _). split; [done|].
    revert Cs. unfold split_result. destruct l2 as [|c l2]; [|destruct (b_free c)]; try destruct (b_size b <? n + 8);
      cbn; rewrite ?Fb, ?andb_false_r; tauto.
  - rewrite !used_app, Eu. by rewrite Permutation_middle.
  - split; [done|]. split; [done|]. intros d x [Hd Fd]%elem_of_used Hx. by apply (S5 d).
  - intros i Hi _. rewrite Ea. apply S6. lia.
Qed.

(** The data is moved into the grown block, which is cut. *)
Lemma grown_finish h l1 b l2 n h2 l1' b2 l2' :
  grown h l1 b l2 h2 l1' b2 l2' -> b_free b = false -> 4 <= n <= b_size b2 -> n mod 4 = 0 -> 0 <= b_size b -> b_size b <= b_size b2 ->
  exists h' l' b' (g : bool),
    (h3 ← split_if_necessary (h2 <| heap_mem := memcpy (heap_mem h2) (b_addr b2 + 4) (b_addr b + 4) (b_size b) |>) (b_addr b2) n 0;
     Ok (b_addr b2, true, h3)) = Ok (b_addr b', g, h') /\ resized h l1 b l2 n h' l' b' /\
    (if g then n <= b_size b' else b_addr b' = b_addr b /\ b_size b <= b_size b' < n).
Proof.
  intros [R2 C2 Fb2 In2 V1 V2 M2 (J1 & J2 & J3)] Fb Hn Hm Hb Hbb. set (h3 := h2 <| heap_mem := _ |>).
  assert (Hu : b2 ∈ used (l1' ++ b2 :: l2')) by (apply elem_of_used; split; [apply elem_of_app; right; left|done]).
  assert (R3 : heap_rep h3 (l1' ++ b2 :: l2')).
  { apply rep_data_write; [done|]. apply (memcpy_outside _ b2); try done; unfold b_end; lia. }
  destruct (split_resized h3 l1' b2 l2' n R3 C2 Fb2 ltac:(lia) Hm) as (h' & l' & b' & E & [Z1 Z2 Z3 Z4 Z5 (Z6 & Z7 & Z8) Z9] & Ea & Hb').
  rewrite E, <- Ea. ostep. exists h', l', b', true. split; [done|]. split; [|done].
  assert (EU : used (l1' ++ l2') = used (l1 ++ l2)) by (by rewrite !used_app, V1, V2).
  change (heap_addr h3) with (heap_addr h2) in Z6. change (last_block h3) with (last_block h2) in Z7.
  change (heap_mem h3) with (memcpy (heap_mem h2) (b_addr b2 + 4) (b_addr b + 4) (b_size b)) in Z8, Z9.
  split; try done.
  - rewrite Z3. exact M2.
  - by rewrite Z5, EU.
  - split; [congruence|]. split; [congruence|]. intros d x Hd Hx. rewrite (Z8 d) by (done || by rewrite EU).
    assert (Hd' : d ∈ l1' ++ l2') by (rewrite <- EU in Hd; by apply elem_of_used in Hd as [? _]).
    pose proof (rep_at R2 l1' b2 l2' eq_refl) as (B1 & B2 & _). apply Forall_cons in B1 as [_ B1]. rewrite Forall_forall in B1, B2.
    assert (Hne : b_end d <= b_addr b2 \/ b_end b2 <= b_addr d) by (apply elem_of_app in Hd' as [?|?]; auto).
    unfold b_end in Hx, Hne. rewrite load8_memcpy_ne by lia. apply (J3 d); [|done].
    rewrite used_app, used_cons, Fb. rewrite used_app in Hd. apply elem_of_app in Hd as [?|?]; apply elem_of_app; [by left|right; by right].
  - intros i Hi Hib. rewrite Z9 by lia. rewrite load8_memcpy by lia. apply (J3 b); [|unfold b_end; lia].
    apply elem_of_used. split; [|done]. apply elem_of_app. right. left.
Qed.

Lemma realloc_grow_run h l1 b l2 n : heap_rep h (l1 ++ b :: l2) -> coalesced false (l1 ++ b :: l2) -> b_free b = false ->
  4 <= n -> b_size b < n -> n mod 4 = 0 ->
  exists h' l' b' (g : bool), realloc_grow h (b_addr b) n = Ok (b_addr b', g, h') /\ resized h l1 b l2 n h' l' b' /\
    (if g then n <= b_size b' else b_addr b' = b_addr b /\ b_size b <= b_size b' < n).
Proof.
  intros R C Fb Hn Hbn Hm.
  assert (Hin : b ∈ first_blk h :: l1 ++ b :: l2) by in_list.
  destruct (links_at R l1 (b :: l2) eq_refl) as (X & p & z & EX & _). pose proof (rep_block R b Hin) as (_ & _ & _ & Hbs & _).
  unfold realloc_grow. rewrite (data_size_blk R b Hin), (get_next_blk R b Hin). ostep.
  rewrite (prev_free_run h h _ l1 b l2 X p R eq_refl EX (above_refl _ _)). ostep.
  destruct (prev_cases h l1 b l2 X p R EX) as (after & Eaf & PC). rewrite Eaf. ostep. cbv zeta.
  set (pg := if after =? b_addr b then block_data_size h p else 0).
  destruct (grow_next h l1 b l2 (n <=? u32 (u32 (b_size b + block_data_size h (b_end b)) + pg)) R C Fb) as (h1 & b1 & l2' & E1 & G1 & Ea1).
  rewrite E1. ostep. pose proof G1 as [R1 C1 Fb1 In1 U1 U2 M1 (K1 & K1' & K1'')].
  assert (Hin1 : b1 ∈ first_blk h1 :: l1 ++ b1 :: l2') by in_list.
  assert (EX1 : faddrs (first_blk h1 :: l1) = X ++ [p]) by (rewrite <- EX; unfold first_blk, first_block; by rewrite K1).
  rewrite (data_size_blk R1 b1 Hin1).
  assert (PG : 0 < pg -> get_next_block h1 p = Ok (b_addr b1) /\ (pg = block_data_size h1 p \/ l1 = [])).
  { unfold pg. destruct (Z.eqb_spec after (b_addr b)) as [Eq|]; [|lia]. intros _.
    destruct (prev_cases h1 l1 b1 l2' X p R1 EX1) as (after1 & Eaf1 & PC1). rewrite Eaf1.
    destruct PC as [(E & _)|[(k & a & E & Fa & _ & _ & Ed)|(k & a & _ & _ & Hne)]]; [|..|done];
      destruct PC1 as [(E' & _ & Eb)|[(k' & a' & E' & Fa' & _ & Eb & Ed')|(k' & a' & E' & Fa' & _)]].
    - rewrite Eb. split; [done|]. by right.
    - by rewrite E in E'; destruct k'.
    - by rewrite E in E'; destruct k'.
    - by rewrite E' in E; destruct k.
    - rewrite Eb. split; [done|]. left. rewrite E in E'. apply app_inj_tail in E' as [_ <-]. congruence.
    - rewrite E in E'. apply app_inj_tail in E' as [_ <-]. congruence. }
  set (ok := (0 <? pg) && (n <=? u32 (b_size b1 + pg))).
  destruct (grow_prev h1 l1 b1 l2' X p ok R1 C1 Fb1 EX1) as (h2 & l1' & b2 & E2 & G2 & Ee2 & Sz2).
  { unfold ok. intros [Hpg _]%andb_prop. apply Z.ltb_lt in Hpg. by apply PG. }
  rewrite E2. ostep. pose proof (grown_trans _ _ _ _ _ _ _ _ _ _ _ _ G1 G2 Fb) as [R2 C2 Fb2 In2 V1 V2 M2 (J1 & J2 & J3)].
  assert (Hin2 : b2 ∈ first_blk h2 :: l1' ++ b2 :: l2') by in_list.
  rewrite (data_size_blk R2 b2 Hin2). unfold b_end in In2. destruct (Z.leb_spec n (b_size b2)) as [Hfit|Hfit].
  - apply (grown_finish h l1 b l2 n h2 l1' b2 l2'); try done; lia.
  - exists h2, (l1' ++ b2 :: l2'), b2, false.
    assert (Ea2 : b_addr b2 = b_addr b).
    { rewrite <- Ea1. destruct Sz2 as [?|[Hl Sz2]]; [done|]. destruct ok eqn:Eok; [|injection E2 as <-; done].
      unfold ok in Eok. apply andb_prop in Eok as [Hpg%Z.ltb_lt Hn1%Z.leb_le]. destruct (PG Hpg) as [_ [Epg|?]]; [|done].
      pose proof (Z.mod_le (b_size b1 + pg) (2 ^ 32)). pose proof (rep_block R1 b1 Hin1). unfold u32 in Hn1. lia. }
    split; [by rewrite Ea2|]. split; [|lia]. split; try done.
    + rewrite !used_app, used_cons, Fb2, V1, V2. cbn. by rewrite Permutation_middle.
    + split; [done|]. split; [done|]. intros d x Hd. apply J3. rewrite used_app, used_cons, Fb.
      rewrite used_app in Hd. apply elem_of_app in Hd as [?|?]; apply elem_of_app; [by left|right; by right].
    + intros i Hi Hib. rewrite Ea2. apply (J3 b); [|unfold b_end; lia]. apply elem_of_used. split; [|done]. apply elem_of_app. right. left.
Qed.

(** What [realloc] of [b] to [size] bytes leaves: [b'] in the place of [b]. *)
Record realloc_spec (h : heap_t) (b : blk) (rest : list blk) (size ret : Z) (h' : heap_t) (l' : list blk) (b' : blk) : Prop := {
  rs_inv : heap_inv h' l';
  rs_used : used l' ≡ₚ b' :: used rest;
  rs_kept : used_kept rest h h';
  rs_ret : (ret = 0 /\ b_size b < size /\ b_addr b' = b_addr b /\ b_size b <= b_size b') \/ (ret = b_addr b' + 4 /\ size <= b_size b');
  rs_data : forall i, 0 <= i < b_size b -> ret = 0 \/ i < size ->
    load8 (heap_mem h') (b_addr b' + 4 + i) = load8 (heap_mem h) (b_addr b + 4 + i)
}.

Lemma resized_spec h l1 b l2 n size h' l' b' : resized h l1 b l2 n h' l' b' -> 0 <= minimum_free_bytes h -> size <= n <= b_size b' ->
  realloc_spec h b (l1 ++ l2) size (b_addr b' + 4) (update_minimum h') l' b'.
Proof.
  intros [Z1 Z2 Z3 Z4 Z5 Z6 Z9] M Hs. destruct (update_minimum_inv h' l' Z1 Z2) as (I & U1 & U2 & U3); [lia|].
  pose proof (rep_block Z1 b') as B. destruct B as (_ & _ & _ & _ & _ & _ & Hb0).
  { right. assert (Hu : b' ∈ used l') by (rewrite Z5; left). by apply elem_of_used in Hu as [? _]. }
  split; try done.
  - destruct Z6 as (K1 & K2 & K3). split; [congruence|]. split; [congruence|]. by rewrite U1.
  - right. lia.
  - intros i Hi [?|?]; [lia|]. rewrite U1. apply Z9; lia.
Qed.

(** The block is left as it was when there is no room elsewhere; else its data
    is copied and the block freed. *)
Lemma realloc_move h l1 b l2 n size h1 l1x b1 :
  resized h l1 b l2 n h1 l1x b1 -> 0 <= minimum_free_bytes h -> b_size b < n -> is_u32 n -> n mod 4 = 0 -> b_size b < size <= n -> 4 <= n ->
  b_addr b1 = b_addr b -> b_size b <= b_size b1 < n ->
  exists ret h' l' b',
    ('(result, h) ← multi_heap_malloc_impl h1 n;
     if result =? 0 then Ok (0, update_minimum h)
     else
       h ← multi_heap_free_impl (h <| heap_mem := memcpy (heap_mem h) result (b_addr b1 + 4) (block_data_size h (b_addr b1)) |>) (b_addr b1 + 4);
       Ok (result, update_minimum h)) = Ok (ret, h') /\
    realloc_spec h b (l1 ++ l2) size ret h' l' b'.
Proof.
  intros [R1 C1 M1 F1 U1 (K1 & K2 & K3) D1] M Hbn Hnu Hm Hs Hn Ea Hb1.
  destruct (malloc_blk h1 l1x n R1 C1 ltac:(lia) Hnu) as [[E _]|(b2 & l2x & h2 & E & I2 & F2 & Hsz & U2 & (J1 & J2 & J3))]; rewrite E; ostep.
  - cbn [Z.eqb]. destruct (update_minimum_inv h1 l1x R1 C1) as (I & V1 & V2 & V3); [lia|].
    exists 0, (update_minimum h1), l1x, b1. split; [done|]. split; try done.
    + split; [congruence|]. split; [congruence|]. by rewrite V1.
    + left. lia.
    + intros i Hi _. rewrite V1. apply D1; lia.
  - assert (Hb1u : b1 ∈ used l2x) by (rewrite U2, U1; right; left). assert (Hb2u : b2 ∈ used l2x) by (rewrite U2; left).
    assert (Hb1i : b1 ∈ first_blk h2 :: l2x) by (right; by apply elem_of_used in Hb1u as [? _]).
    assert (Hb2i : b2 ∈ first_blk h2 :: l2x) by (right; by apply elem_of_used in Hb2u as [? _]).
    pose proof I2 as [R2 C2 M2]. pose proof (rep_block R2 b2 Hb2i) as (_ & _ & _ & _ & _ & _ & Hb20).
    pose proof (rep_block R2 b1 Hb1i) as (_ & _ & _ & Hb1s & _ & _ & _).
    destruct (Z.eqb_spec (b_addr b2 + 4) 0); [lia|]. rewrite (data_size_blk R2 b1 Hb1i).
    set (m3 := memcpy _ _ _ _).
    assert (O3 : forall x, ~ (b_addr b2 + 4 <= x < b_end b2) -> load8 m3 x = load8 (heap_mem h2) x).
    { intros x Hx. unfold m3. unfold b_end in Hx. apply load8_memcpy_ne; lia. }
    assert (I3 : heap_inv (h2 <| heap_mem := m3 |>) l2x).
    { apply inv_data_write; [done|]. intros x Hx. apply O3. intros Hx'. apply Hx. by exists b2. }
    destruct (free_blk _ l2x b1 I3 Hb1u) as (h4 & l4 & E4 & I4 & U4 & (L1 & L2 & L3)). rewrite E4. ostep.
    assert (U4' : used l4 ≡ₚ b2 :: used (l1 ++ l2)).
    { rewrite U2, U1 in U4. apply (Permutation_cons_inv (a := b1)). rewrite <- U4. constructor. }
    destruct I4 as [R4 C4 M4]. destruct (update_minimum_inv h4 l4 R4 C4) as (I & V1 & V2 & V3); [lia|].
    exists (b_addr b2 + 4), (update_minimum h4), l4, b2. split; [done|].
    change (heap_addr (h2 <| heap_mem := m3 |>)) with (heap_addr h2) in L1.
    change (last_block (h2 <| heap_mem := m3 |>)) with (last_block h2) in L2.
    change (heap_mem (h2 <| heap_mem := m3 |>)) with m3 in L3.
    assert (Dj : forall d, d ∈ b1 :: used (l1 ++ l2) -> b_end d <= b_addr b2 \/ b_end b2 <= b_addr d).
    { intros d Hd. apply (others_apart R2 b2 _ d U2). by rewrite U1. }
    split; try done.
    + split; [congruence|]. split; [congruence|]. intros d x Hd Hx. rewrite V1.
      rewrite (L3 d) by (done || (rewrite U4'; by right)).
      destruct (Dj d ltac:(by right)) as [?|?]; (rewrite O3 by (unfold b_end in *; lia));
        (rewrite (J3 d) by (done || (rewrite U1; by right))); by apply (K3 d).
    + right. lia.
    + intros i Hi _. rewrite V1. rewrite (L3 b2) by ((rewrite U4'; left) || (unfold b_end; lia)).
      unfold m3. rewrite load8_memcpy by lia. rewrite (J3 b1) by ((rewrite U1; left) || (unfold b_end; lia)). apply D1; lia.
Qed.

Lemma realloc_blk h l b size : heap_inv h l -> b ∈ used l -> 0 < size <= 2 ^ 32 - 4 ->
  exists ret h' l' b' rest, multi_heap_realloc_impl h (b_addr b + 4) size = Ok (ret, h') /\
    used l ≡ₚ b :: used rest /\ realloc_spec h b rest size ret h' l' b' /\ (size <= b_size b -> ret = b_addr b + 4).
Proof.
  intros [R C M] [Hb Fb]%elem_of_used Hs. assert (Hin : b ∈ first_blk h :: l) by (by right).
  pose proof (rep_block R b Hin) as (_ & _ & _ & Hbs & Hbm & _ & Hb0).
  pose proof (align_up_size size ltac:(unfold is_u32; lia)) as [[_ ?]|(Hn & Hns & Hnm)]; [lia|].
  apply list_elem_of_split in Hb as (l1 & l2 & ->). assert (Hb : b ∈ l1 ++ b :: l2) by in_list.
  assert (EU : used (l1 ++ b :: l2) ≡ₚ b :: used (l1 ++ l2)).
  { rewrite !used_app, used_cons, Fb. cbn. by rewrite Permutation_middle. }
  unfold multi_heap_realloc_impl, get_block. replace (b_addr b + 4 - 4) with (b_addr b) by lia.
  set (n := align_up 4 size) in *. destruct (Z.eqb_spec (b_addr b + 4) 0); [lia|].
  rewrite (assert_valid_run _ _ _ R Hb Fb). ostep. rewrite (is_free_blk_run R b Hin), Fb, (data_size_blk R b Hin).
  oassert ltac:(done). destruct (Z.eqb_spec n 0); [lia|].
  assert (Hround : n <= b_size b <-> size <= b_size b) by (clear -Hns Hnm Hbm; Z.to_euclidean_division_equations; lia).
  destruct (Z.leb_spec n (b_size b)) as [Hle|Hgt].
  - destruct (split_resized h l1 b l2 n R C Fb ltac:(lia) Hnm) as (h' & l' & b' & E & Z & Ea & Hb'). rewrite E. ostep.
    unfold multi_heap_get_block_address_impl. exists (b_addr b + 4), (update_minimum h'), l', b', (l1 ++ l2).
    split; [done|]. split; [done|]. split; [|done]. rewrite <- Ea. eapply resized_spec; [exact Z|lia|lia].
  - destruct (free_bytes h <? u32 (n - b_size b)).
    { exists 0, h, (l1 ++ b :: l2), b, (l1 ++ l2). split; [done|]. split; [done|]. split; [|lia]. split; try done. left. lia. }
    destruct (realloc_grow_run h l1 b l2 n R C Fb ltac:(lia) Hgt Hnm) as (h1 & l1x & b1 & g & E & Z & G). rewrite E. ostep. destruct g.
    + unfold multi_heap_get_block_address_impl. exists (b_addr b1 + 4), (update_minimum h1), l1x, b1, (l1 ++ l2).
      split; [done|]. split; [done|]. split; [|lia]. eapply resized_spec; [exact Z|lia|lia].
    + destruct G as [Ga Gs].
      destruct (realloc_move h l1 b l2 n size h1 l1x b1 Z) as (ret & h' & l' & b' & E' & S); try done; try lia; try (unfold is_u32; lia).
      exists ret, h', l', b', (l1 ++ l2). split; [exact E'|]. split; [done|]. split; [done|lia].
Qed.
End realloc.
