(* ===== verification/HeapClient.v ===== *)
(** * The heap allocator: its clients

    A client holds buffers: the pointers it was given and not freed, with what
    they must contain.  A history of calls and of writes to the buffers is run
    on the heap and on this list side by side; the theorems say that the heap
    keeps every buffer as the list has it. *)
From S2P Require Import Prelude Mem Heap HeapInv HeapOps HeapCalls.

(** ** Creation *)
Section register.

Lemma register_run start_ptr size m : 0 < start_ptr -> 0 <= size -> start_ptr + size + 8 < 2 ^ 31 ->
  let start := align_up 4 start_ptr in
  let end_ := align_down 4 (start_ptr + size) in
  if end_ - start <? 40 then multi_heap_register_impl start_ptr size m = None
  else exists h, multi_heap_register_impl start_ptr size m = Some h /\
         heap_addr h = start /\ last_block h = end_ - 8 /\
         heap_inv h [mkBlk (start + 24) (end_ - start - 36) true].
Proof.
  intros Hs Hn Hr start end_. unfold multi_heap_register_impl. fold start.
  rewrite (u32_small (start_ptr + size)) by (unfold is_u32; lia). fold end_.
  assert (S1 : start mod 4 = 0 /\ start_ptr <= start < start_ptr + 4).
  { unfold start. rewrite align_up_4 by lia. Z.to_euclidean_division_equations. lia. }
  assert (E1 : end_ mod 4 = 0 /\ start_ptr + size - 4 < end_ <= start_ptr + size).
  { unfold end_. change 4 with (2 ^ 2). rewrite align_down_pow2 by lia. change (2 ^ 2) with 4. Z.to_euclidean_division_equations. lia. }
  destruct S1 as [Sm S1]. destruct E1 as [Em E1].
  destruct (Z.ltb_spec end_ start) as [Hlt|Hge]; [destruct (Z.ltb_spec (end_ - start) 40); [done|lia]|].
  rewrite (u32_small (end_ - start)) by (unfold is_u32; lia). unfold sizeof_heap_t, sizeof_heap_block_t, sizeof_header. cbn [orb].
  change (24 + 2 * 8) with 40. destruct (Z.ltb_spec (end_ - start) 40); [done|].
  assert (Lm : (end_ - 8) mod 4 = 0) by (Z.to_euclidean_division_equations; lia).
  assert (Fm : (start + 24) mod 4 = 0) by (Z.to_euclidean_division_equations; lia).
  unfold BLOCK_FREE_FLAG. rewrite !lor_1 by done. eexists. split; [done|]. set (h := _ <| minimum_free_bytes := _ |>).
  split; [done|]. split; [done|].
  assert (Hu : forall x, 0 <= x < 2 ^ 31 -> is_u32 x) by (unfold is_u32; lia).
  assert (Em' : heap_mem h = store32 (store32 (store32 (store32 (store32 (store32 m (start + 24) (end_ - 8 + 1)) (start + 24 + 4) (end_ - 8))
     (end_ - 8) 1) (end_ - 8 + 4) 0) (start + 16) (start + 24 + 1)) (start + 16 + 4) (start + 24)) by done.
  split; [split|by cbn|].
  - exact Sm.
  - change (0 < start /\ end_ - 8 + 8 < 2 ^ 31). lia.
  - change (layout (start + 16) [mkBlk (start + 16) 4 true; mkBlk (start + 24) (end_ - start - 36) true] (end_ - 8)).
    cbn. unfold b_end. cbn. Z.to_euclidean_division_equations. lia.
  - rewrite Em'. repeat constructor; unfold header_ok, b_end; cbn [b_addr b_size b_free first_blk].
    + change (first_block h) with (start + 16). rewrite load32_store32_ne, load32_store32_eq by (lia || (apply Hu; lia)). lia.
    + do 5 rewrite load32_store32_ne by lia. rewrite load32_store32_eq by (apply Hu; lia). lia.
  - rewrite Em'. change (last_block h) with (end_ - 8). do 3 rewrite load32_store32_ne by lia. by rewrite load32_store32_eq.
  - rewrite Em'. change (faddrs _ ++ _) with [start + 16; start + 24; end_ - 8]. change (first_block h) with (start + 16). cbn [fseg].
    split; [done|]. rewrite load32_store32_eq by (apply Hu; lia). split; [done|].
    do 4 rewrite load32_store32_ne by lia. rewrite load32_store32_eq by (apply Hu; lia). split; [done|].
    do 2 rewrite load32_store32_ne by lia. by rewrite load32_store32_eq.
  - change (u32 (end_ - start - 24 - 4 - 8) = end_ - start - 36 + 0). rewrite u32_small by (apply Hu; lia). lia.
  - change (0 <= u32 (end_ - start - 24 - 4 - 8) <= u32 (end_ - start - 24 - 4 - 8)). rewrite u32_small by (apply Hu; lia). lia.
Qed.
End register.

(** ** The client's view *)
Record buf := mkBuf { bu_ptr : Z; bu_aligned : bool; bu_data : list Z }.

Inductive hcall :=
  | HMalloc (size : Z)
  | HFree (p : Z)
  | HRealloc (p size : Z)
  | HAlignedAlloc (size alignment : Z)
  | HAlignedFree (p : Z)
  | HWrite (p off : Z) (bytes : list Z).

(** The buffer of [live] at [p] that [k] accepts, and the others. *)
Fixpoint extract (k : buf -> bool) (p : Z) (live : list buf) : option (buf * list buf) :=
  match live with
  | [] => None
  | bu :: live =>
      if (bu_ptr bu =? p) && k bu then Some (bu, live)
      else '(b, rest) ← extract k p live; Some (b, bu :: rest)
  end.
Definition plain (bu : buf) : bool := negb (bu_aligned bu).

(** A buffer of [size] bytes at [ret]: the data [old] kept, the rest as found. *)
Definition new_buf (h : heap_t) (ret : Z) (al : bool) (size : Z) (old : list Z) : buf :=
  let kept := take (Z.to_nat size) old in
  mkBuf ret al (kept ++ read_bytes (heap_mem h) (ret + lenZ kept) (Z.to_nat size - length kept)).

(** What the client may do: it frees, resizes and writes what it holds. *)
Definition legal (live : list buf) (c : hcall) : bool :=
  match c with
  | HMalloc size => (0 <=? size) && (size <? 2 ^ 32)
  | HFree p => (p =? 0) || bool_decide (is_Some (extract plain p live))
  | HRealloc p size => (0 <=? size) && (size <=? 2 ^ 32 - 4) && ((p =? 0) || bool_decide (is_Some (extract plain p live)))
  | HAlignedAlloc size al => (0 <=? size) && (0 <=? al) && (size + al + 3 <? 2 ^ 32)
  | HAlignedFree p => (p =? 0) || bool_decide (is_Some (extract bu_aligned p live))
  | HWrite p off bytes =>
      bool_decide (Forall (fun v => 0 <= v < 2 ^ 8) bytes) &&
      match extract (fun _ => true) p live with
      | Some (bu, _) => (0 <=? off) && (off + lenZ bytes <=? lenZ (bu_data bu))
      | None => false
      end
  end.

Definition dropped (k : buf -> bool) (p : Z) (live : list buf) : list buf :=
  match extract k p live with Some (_, rest) => rest | None => live end.

(** One call on the heap and on the client's list: the pointer returned, and
    both after. *)
Definition hstep (c : hcall) (h : heap_t) (live : list buf) : outcome (Z * heap_t * list buf) :=
  match c with
  | HMalloc size =>
      '(ret, h) ← multi_heap_malloc_impl h size;
      Ok (ret, h, if ret =? 0 then live else new_buf h ret false size [] :: live)
  | HFree p => h ← multi_heap_free_impl h p; Ok (0, h, dropped plain p live)
  | HRealloc p size =>
      '(ret, h) ← multi_heap_realloc_impl h p size;
      Ok (ret, h,
        match extract plain p live with
        | Some (bu, rest) =>
            if ret =? 0 then (if size =? 0 then rest else bu :: rest) else new_buf h ret false size (bu_data bu) :: rest
        | None => if ret =? 0 then live else new_buf h ret false size [] :: live
        end)
  | HAlignedAlloc size al =>
      '(ret, h) ← multi_heap_aligned_alloc_impl h size al;
      Ok (ret, h, if ret =? 0 then live else new_buf h ret true size [] :: live)
  | HAlignedFree p => h ← multi_heap_aligned_free_impl h p; Ok (0, h, dropped bu_aligned p live)
  | HWrite p off bytes =>
      Ok (0, h <| heap_mem := write_bytes (heap_mem h) (p + off) bytes |>,
        match extract (fun _ => true) p live with
        | Some (bu, rest) =>
            mkBuf p (bu_aligned bu) (take (Z.to_nat off) (bu_data bu) ++ bytes ++ drop (Z.to_nat off + length bytes) (bu_data bu)) :: rest
        | None => live
        end)
  end.

Fixpoint hrun (cs : list hcall) (h : heap_t) (live : list buf) : outcome (list Z * heap_t * list buf) :=
  match cs with
  | [] => Ok ([], h, live)
  | c :: cs =>
      '(ret, h, live) ← hstep c h live;
      '(rets, h, live) ← hrun cs h live;
      Ok (ret :: rets, h, live)
  end.

(** Every call is legal when it is made. *)
Fixpoint legal_run (cs : list hcall) (h : heap_t) (live : list buf) : bool :=
  match cs with
  | [] => true
  | c :: cs =>
      legal live c &&
      match hstep c h live with Ok (_, h, live) => legal_run cs h live | _ => true end
  end.

(** What the client sees: its buffers are aligned, in the heap, apart from each
    other, and contain what they must. *)
Record delivered (h : heap_t) (live : list buf) : Prop := {
  dl_buf : Forall (fun bu => 0 < bu_ptr bu /\ bu_ptr bu mod 4 = 0 /\ heap_addr h < bu_ptr bu /\
             bu_ptr bu + lenZ (bu_data bu) <= last_block h /\
             read_bytes (heap_mem h) (bu_ptr bu) (length (bu_data bu)) = bu_data bu) live;
  dl_apart : forall i j u v, live !! i = Some u -> live !! j = Some v -> i <> j ->
             bu_ptr u + lenZ (bu_data u) <= bu_ptr v \/ bu_ptr v + lenZ (bu_data v) <= bu_ptr u;
  dl_free : live = [] -> free_bytes h = last_block h - heap_addr h - 28
}.

(** ** The blocks behind the buffers *)
Section held.

(** [b] is the block of the buffer [bu].  An aligned buffer is preceded by the
    word that leads back to the block. *)
Definition holds (m : mem) (bu : buf) (b : blk) : Prop :=
  b_free b = false /\ bu_ptr bu mod 4 = 0 /\ bu_ptr bu + lenZ (bu_data bu) <= b_end b /\
  read_bytes m (bu_ptr bu) (length (bu_data bu)) = bu_data bu /\
  if bu_aligned bu then b_addr b + 8 <= bu_ptr bu /\ load32 m (bu_ptr bu - 4) = bu_ptr bu - (b_addr b + 4)
  else bu_ptr bu = b_addr b + 4.

Record held (h : heap_t) (live : list buf) (l us : list blk) : Prop := {
  hd_inv : heap_inv h l;
  hd_used : used l ≡ₚ us;
  hd_bufs : Forall2 (holds (heap_mem h)) live us;
  hd_size : heap_addr h + 32 <= last_block h
}.

Lemma extract_run k p live bu rest (P : buf -> blk -> Prop) us : extract k p live = Some (bu, rest) -> Forall2 P live us ->
  k bu = true /\ bu_ptr bu = p /\ exists b us', us ≡ₚ b :: us' /\ P bu b /\ Forall2 P rest us'.
Proof.
  revert rest us. induction live as [|b live IH]; intros rest us; [done|]. cbn [extract].
  intros E (c & us' & Hc & HF & ->)%Forall2_cons_inv_l.
  destruct (Z.eqb_spec (bu_ptr b) p) as [Hp|_]; [destruct (k b) eqn:Hk|]; cbn [andb] in E;
    [injection E as -> ->; split; [done|]; split; [done|]; by exists c, us'|..];
    (destruct (extract k p live) as [[bu' rest']|]; [|done]; injection E as -> <-;
     destruct (IH _ us' eq_refl HF) as (? & ? & b' & us'' & E' & Hb' & HF'); split; [done|]; split; [done|];
     exists b', (c :: us''); split; [rewrite E'; constructor|]; split; [done|by constructor]).
Qed.

Lemma holds_same m m' bu b : (forall x, b_addr b + 4 <= x < b_end b -> load8 m' x = load8 m x) ->
  holds m bu b -> holds m' bu b.
Proof.
  intros H (H1 & H2 & H3 & H4 & H5). split; [done|]. split; [done|]. split; [done|]. unfold lenZ in *.
  assert (b_addr b + 4 <= bu_ptr bu) by (destruct (bu_aligned bu); lia). split.
  - rewrite <- H4 at 2. apply read_bytes_ext. intros x Hx. apply H. lia.
  - destruct (bu_aligned bu); [|done]. destruct H5 as [H5 H6]. split; [done|]. rewrite <- H6. apply load32_ext. intros x Hx. apply H. lia.
Qed.

Lemma bufs_kept h h' live us : used_kept us h h' -> Forall (fun b => b_free b = false) us ->
  Forall2 (holds (heap_mem h)) live us -> Forall2 (holds (heap_mem h')) live us.
Proof.
  intros (_ & _ & K) F H. apply Forall2_same_length_lookup_2; [by eapply Forall2_length|].
  intros i bu b Hi Hj. pose proof (Forall2_lookup_lr _ _ _ _ _ _ H Hi Hj) as Hh. eapply holds_same; [|exact Hh].
  intros x. apply K. apply elem_of_used. assert (Hb : b ∈ us) by (by eapply list_elem_of_lookup_2).
  split; [done|]. rewrite Forall_forall in F. by apply F.
Qed.

Lemma used_all_used l us : used l ≡ₚ us -> Forall (fun b => b_free b = false) us.
Proof. intros E. apply Forall_forall. intros b Hb. rewrite <- E in Hb. by apply elem_of_used in Hb as [_ ?]. Qed.

Lemma used_tail l b us : used l ≡ₚ b :: us -> Forall (fun b => b_free b = false) us.
Proof. intros E%used_all_used. by apply Forall_cons in E as [_ E]. Qed.

Lemma used_kept_used l us h h' : used_kept l h h' -> used l ≡ₚ us -> used_kept us h h'.
Proof. intros (K1 & K2 & K) E. split; [done|]. split; [done|]. intros b x [Hb _]%elem_of_used. rewrite <- E in Hb. by apply K. Qed.

(** ** What the client sees *)
Lemma held_block {h live l us} (H : held h live l us) i bu : live !! i = Some bu ->
  exists b, us !! i = Some b /\ holds (heap_mem h) bu b /\ b ∈ used l /\
    first_block h + 8 <= b_addr b /\ b_end b <= last_block h /\ b_addr b + 4 <= bu_ptr bu.
Proof.
  intros Hi. destruct H as [[R C M] U F _]. destruct (Forall2_lookup_l _ _ _ _ _ F Hi) as (b & Hb & Hh).
  exists b. split; [done|]. split; [done|]. assert (Hu : b ∈ used l) by (rewrite U; by eapply list_elem_of_lookup_2).
  split; [done|]. apply elem_of_used in Hu as [Hu _]. pose proof (hr_layout _ _ R) as (_ & _ & _ & L).
  apply layout_bounds in L as [_ L]. rewrite Forall_forall in L. specialize (L b Hu). unfold b_end in L. cbn in L.
  destruct Hh as (_ & _ & _ & _ & Hh). split; [lia|]. unfold b_end. split; [lia|]. destruct (bu_aligned bu); lia.
Qed.

Lemma coalesced_free l : coalesced false l -> used l = [] -> l = [] \/ exists b, l = [b] /\ b_free b = true.
Proof.
  destruct l as [|b [|c l]]; [by left|..]; rewrite !used_cons; cbn; (destruct (b_free b) eqn:Fb; [|by intros _ ?]); [intros _ _; right; by exists b|].
  intros (_ & Hc & _). cbn in Hc. rewrite Hc. by intros ?.
Qed.

Lemma held_delivered h live l us : held h live l us -> delivered h live.
Proof.
  intros H. split.
  - apply Forall_forall. intros bu Hbu. apply list_elem_of_lookup_1 in Hbu as [i Hi].
    destruct (held_block H i bu Hi) as (b & _ & (_ & H2 & H3 & H4 & _) & _ & ? & ? & ?).
    destruct H as [[R _ _] _ _ _]. pose proof (hr_range _ _ R). unfold first_block in *. split_and!; try done; lia.
  - intros i j u v Hi Hj Hne. destruct (held_block H i u Hi) as (b & Hb & (_ & _ & Hu & _) & Hbu & _ & _ & ?).
    destruct (held_block H j v Hj) as (c & Hc & (_ & _ & Hv & _) & Hcu & _ & _ & ?).
    destruct H as [[R _ _] U _ _]. pose proof (used_nodup R) as N. rewrite U in N.
    apply elem_of_used in Hbu as [Hbl _]. apply elem_of_used in Hcu as [Hcl _].
    destruct (blocks_disjoint R b c ltac:(by right) ltac:(by right)) as [->|[?|?]]; [|lia|lia].
    exfalso. apply Hne. by eapply NoDup_lookup.
  - intros ->. destruct H as [[R C M] U F Hsz]. apply Forall2_nil_inv_l in F as ->. apply Permutation_nil_r in U.
    pose proof (hr_layout _ _ R) as (_ & _ & _ & L). unfold first_block, b_end in L. cbn in L. rewrite (hr_bytes _ _ R).
    destruct (coalesced_free l C U) as [->|(b & -> & Fb)]; simpl in *; unfold first_block in *; [lia|].
    destruct L as (La & _ & _ & L). unfold b_end in L. rewrite Fb. lia.
Qed.
End held.

(** ** Aligned blocks *)
Section aligned.

Lemma used_in {h0 l0} (R : heap_rep h0 l0) b us0 : used l0 ≡ₚ b :: us0 -> b ∈ first_blk h0 :: l0 /\ b_free b = false /\ b ∈ used l0.
Proof. intros E. assert (Hu : b ∈ used l0) by (rewrite E; left). pose proof Hu as [? ?]%elem_of_used. split; [by right|done]. Qed.

Lemma pow2_of_land al : 0 < al -> Z.land al (al - 1) = 0 -> exists k, 0 <= k /\ al = 2 ^ k.
Proof.
  intros Ha Hl. exists (Z.log2 al). split; [apply Z.log2_nonneg|].
  pose proof (Z.log2_spec al Ha) as [L1 L2]. destruct (Z.eq_dec al (2 ^ Z.log2 al)) as [|Hne]; [done|]. exfalso.
  assert (E : Z.log2 (al - 1) = Z.log2 al) by (apply Z.log2_unique; [apply Z.log2_nonneg|lia]).
  assert (B : Z.testbit (Z.land al (al - 1)) (Z.log2 al) = true).
  { rewrite Z.land_spec, Z.bit_log2 by done. rewrite <- E at 1. assert (0 < 2 ^ Z.log2 al) by (apply Z.pow_pos_nonneg; [lia|apply Z.log2_nonneg]).
    rewrite Z.bit_log2 by lia. done. }
  by rewrite Hl, Z.bits_0 in B.
Qed.

(** The aligned pointer inside the block. *)
Lemma align_up_pow2 k x : 0 <= k -> x - x mod 2 ^ k = Z.ldiff x (2 ^ k - 1) /\ (x - x mod 2 ^ k) mod 2 ^ k = 0 /\ x - 2 ^ k < x - x mod 2 ^ k <= x.
Proof.
  intros Hk. split; [symmetry; by apply (align_down_pow2 k x)|]. assert (0 < 2 ^ k) by (by apply Z.pow_pos_nonneg).
  pose proof (Z.mod_pos_bound x (2 ^ k)). split; [|lia].
  replace (x - x mod 2 ^ k) with (2 ^ k * (x / 2 ^ k)) by (pose proof (Z.div_mod x (2 ^ k)); lia).
  rewrite Z.mul_comm. apply Z_mod_mult.
Qed.

Lemma aligned_mod_4 k head : 0 <= k -> head mod 4 = 0 -> let x := head + 4 + (2 ^ k - 1) in (x - x mod 2 ^ k) mod 4 = 0.
Proof.
  intros Hk Hh x. destruct (decide (2 <= k)) as [H2|H2].
  - destruct (align_up_pow2 k x Hk) as (_ & E & _). set (y := x - x mod 2 ^ k) in *.
    replace (2 ^ k) with (4 * 2 ^ (k - 2)) in E by (rewrite <- (Z.pow_add_r 2 2) by lia; f_equal; lia).
    apply Z.mod_divide in E as [q ->]; [|lia]. replace (q * (4 * 2 ^ (k - 2))) with (q * 2 ^ (k - 2) * 4) by lia. apply Z_mod_mult.
  - assert (k = 0 \/ k = 1) as [-> | ->] by lia; unfold x.
    + change (2 ^ 0) with 1. Z.to_euclidean_division_equations. lia.
    + change (2 ^ 1) with 2. Z.to_euclidean_division_equations. lia.
Qed.

(** The block of an aligned buffer of [size] bytes at [p]. *)
Lemma aligned_block h l size al : heap_inv h l -> 0 <= size -> 0 <= al -> size + al + 3 < 2 ^ 32 ->
  multi_heap_aligned_alloc_impl h size al = Ok (0, h) \/
  exists p h' l' b', multi_heap_aligned_alloc_impl h size al = Ok (p, h') /\ 0 < p /\ p mod al = 0 /\ p mod 4 = 0 /\
    heap_inv h' l' /\ used l' ≡ₚ b' :: used l /\ used_kept l h h' /\
    b_free b' = false /\ b_addr b' + 8 <= p /\ p + size <= b_end b' /\ load32 (heap_mem h') (p - 4) = p - (b_addr b' + 4).
Proof.
  intros [R C M] Hs Ha Hov. unfold multi_heap_aligned_alloc_impl.
  destruct (Z.eqb_spec size 0); [by left|]. destruct (Z.eqb_spec al 0); [by left|].
  destruct (Z.eqb_spec (Z.land al (al - 1)) 0) as [El|]; cbn [negb]; [|by left].
  destruct (pow2_of_land al ltac:(lia) El) as (k & Hk & Eal). rewrite (u32_small (4 + (al - 1))), u32_small by (unfold is_u32; lia).
  destruct (malloc_blk h l (size + (4 + (al - 1))) R C ltac:(lia) ltac:(unfold is_u32; lia))
    as [[E _]|(b' & l1 & h1 & E & I' & Fb & Hns & U' & K)]; rewrite E; ostep; [by left|].
  destruct (used_in (hv_rep _ _ I') _ _ U') as (Hin & _ & Hu). pose proof (rep_block (hv_rep _ _ I') b' Hin) as (Hm & _ & He & _ & _ & _ & Hb0).
  pose proof (hr_range _ _ (hv_rep _ _ I')) as [_ Hr]. unfold b_end in He.
  destruct (Z.eqb_spec (b_addr b' + 4) 0); [lia|]. rewrite (u32_small (b_addr b' + 4 + 4 + (al - 1))) by (unfold is_u32; lia).
  assert (Hh4 : (b_addr b' + 4) mod 4 = 0) by (Z.to_euclidean_division_equations; lia).
  pose proof (aligned_mod_4 k (b_addr b' + 4) Hk Hh4) as Hp4. cbv zeta in Hp4. rewrite <- Eal in Hp4.
  destruct (align_up_pow2 k (b_addr b' + 4 + 4 + (al - 1)) Hk) as (E1 & E2 & E3). rewrite <- Eal in E1, E2, E3. rewrite <- E1.
  set (p := _ - _ mod al) in *. cbv zeta. rewrite (u32_small (p - (b_addr b' + 4))) by (unfold is_u32; lia).
  set (m' := store32 (heap_mem h1) (p - 4) _). right. exists p, (h1 <| heap_mem := m' |>), l1, b'.
  split; [done|]. split; [lia|]. split; [done|]. split; [done|]. split.
  { apply inv_data_write; [done|]. intros x Hx. apply load8_store32_ne. destruct (decide (x < p - 4)); [by left|].
    destruct (decide (p - 4 + 4 <= x)); [by right|]. exfalso. apply Hx. exists b'. split; [done|]. unfold b_end. lia. }
  split; [done|]. split.
  { destruct K as (K1 & K2 & K3). split; [done|]. split; [done|]. intros d x Hd Hx. change (heap_mem (h1 <| heap_mem := m' |>)) with m'. unfold m'. rewrite load8_store32_ne; [by apply (K3 d)|].
    destruct (others_apart (hv_rep _ _ I') b' _ d U' Hd) as [?|?]; unfold b_end in *; lia. }
  split; [done|]. split; [lia|]. split; [unfold b_end; lia|]. change (heap_mem (h1 <| heap_mem := m' |>)) with m'. unfold m'. rewrite load32_store32_eq by (unfold is_u32; lia). done.
Qed.

End aligned.

(** ** The steps *)
Section steps.
Context {h : heap_t} {live : list buf} {l us : list blk} (H : held h live l us).

Lemma new_buf_holds h' b (size : Z) old ret : b_free b = false -> b_addr b mod 4 = 0 -> 0 <= size <= b_size b -> ret = b_addr b + 4 ->
  read_bytes (heap_mem h') ret (length (take (Z.to_nat size) old)) = take (Z.to_nat size) old ->
  holds (heap_mem h') (new_buf h' ret false size old) b.
Proof.
  intros Fb Hm Hs -> Hr. unfold new_buf. set (kept := take (Z.to_nat size) old) in *.
  assert (Hk : (length kept <= Z.to_nat size)%nat) by (unfold kept; rewrite length_take; lia).
  unfold holds. cbn [bu_ptr bu_data bu_aligned]. rewrite lenZ_app. unfold lenZ. rewrite length_app, length_read_bytes.
  split_and!; try done.
  - Z.to_euclidean_division_equations; lia.
  - unfold b_end. lia.
  - by rewrite read_bytes_app, Hr.
Qed.

(** The heap after an allocation of [b'], whose buffer is [bu]. *)
Lemma held_cons h' l' b' bu : heap_inv h' l' -> used l' ≡ₚ b' :: used l -> used_kept l h h' -> holds (heap_mem h') bu b' ->
  held h' (bu :: live) l' (b' :: us).
Proof.
  destruct H as [I U F Hs]. intros I' U' K Hb. split; [done|by rewrite U', U| |].
  - constructor; [done|]. eapply bufs_kept; [by eapply used_kept_used|by eapply used_all_used|done].
  - destruct K as (-> & -> & _). done.
Qed.

(** The heap keeps its place. *)
Definition same_range (h h' : heap_t) : Prop := heap_addr h' = heap_addr h /\ last_block h' = last_block h.
Lemma used_kept_range l0 h0 h' : used_kept l0 h0 h' -> same_range h0 h'.
Proof. by intros (? & ? & _). Qed.

Lemma malloc_held size n : 0 <= size <= n -> is_u32 n ->
  exists ret h', multi_heap_malloc_impl h n = Ok (ret, h') /\ (ret = 0 -> h' = h) /\ same_range h h' /\
    exists l' us', held h' (if ret =? 0 then live else new_buf h' ret false size [] :: live) l' us'.
Proof.
  intros Hs Hn. pose proof H as [[R C M] U F Hsz].
  destruct (malloc_blk h l n R C ltac:(lia) Hn) as [[E _]|(b' & l' & h' & E & I' & Fb & Hns & U' & K)].
  - exists 0, h. split; [done|]. split; [done|]. split; [done|]. by exists l, us.
  - exists (b_addr b' + 4), h'. split; [done|]. destruct (used_in (hv_rep _ _ I') _ _ U') as (Hin & _ & _).
    pose proof (rep_block (hv_rep _ _ I') b' Hin) as (Hm & _ & _ & _ & _ & _ & Hb0).
    split; [lia|]. split; [by eapply used_kept_range|].
    destruct (Z.eqb_spec (b_addr b' + 4) 0); [lia|]. exists l', (b' :: us). apply held_cons; try done.
    apply new_buf_holds; rewrite ?take_nil; done || lia.
Qed.

Lemma free_held k p bu rest : extract k p live = Some (bu, rest) ->
  exists b, holds (heap_mem h) bu b /\ k bu = true /\ bu_ptr bu = p /\ b ∈ used l /\ 0 < b_addr b /\ b_end b < 2 ^ 31 /\
    exists h' l' us', multi_heap_free_impl h (b_addr b + 4) = Ok h' /\ held h' rest l' us' /\ same_range h h'.
Proof.
  intros Ex. destruct H as [I U F Hsz]. destruct (extract_run _ _ _ _ _ _ _ Ex F) as (Hk & Hp & b & us' & EU & Hb & F').
  assert (EUb : used l ≡ₚ b :: us') by (by rewrite U). destruct (used_in (hv_rep _ _ I) _ _ EUb) as (Hin & _ & Hu).
  pose proof (rep_block (hv_rep _ _ I) b Hin) as (_ & _ & He & _ & _ & _ & Hb0). pose proof (hr_range _ _ (hv_rep _ _ I)).
  exists b. split_and!; try done; [lia|]. destruct (free_blk h l b I Hu) as (h' & l' & E & I' & U' & K).
  assert (EU' : used l' ≡ₚ us') by (apply (Permutation_cons_inv (a := b)); by rewrite <- U', EUb).
  exists h', l', us'. split; [done|]. split; [|by eapply used_kept_range]. split; [done|done| |].
  - eapply bufs_kept; [by eapply used_kept_used|by eapply used_all_used|done].
  - destruct K as (-> & -> & _). done.
Qed.

Lemma extract_zero k : extract k 0 live = None.
Proof.
  destruct (extract k 0 live) as [[bu rest]|] eqn:E; [|done].
  destruct (free_held k 0 bu rest E) as (b & (_ & _ & _ & _ & Hb) & _ & Hp & _ & Hb0 & _). destruct (bu_aligned bu); lia.
Qed.

Lemma legal_extract k p : (p =? 0) || bool_decide (is_Some (extract k p live)) = true ->
  p = 0 \/ (p <> 0 /\ exists bu rest, extract k p live = Some (bu, rest)).
Proof.
  intros Hl. destruct (Z.eqb_spec p 0) as [|Hp]; [by left|]. right. split; [done|]. apply bool_decide_eq_true in Hl as [[bu rest] Hl].
  by exists bu, rest.
Qed.

Lemma free_step k p (f : heap_t -> Z -> outcome heap_t) : f h 0 = Ok h ->
  (forall bu b, k bu = true -> bu_ptr bu = p -> holds (heap_mem h) bu b -> 0 < b_addr b -> b_end b < 2 ^ 31 -> p <> 0 ->
     f h p = multi_heap_free_impl h (b_addr b + 4)) ->
  (p =? 0) || bool_decide (is_Some (extract k p live)) = true ->
  exists h' l' us', f h p = Ok h' /\ held h' (dropped k p live) l' us' /\ same_range h h'.
Proof.
  intros F0 F1 [->|(Hp & bu & rest & Ex)]%legal_extract; unfold dropped.
  - rewrite extract_zero. by exists h, l, us.
  - rewrite Ex. destruct (free_held k p bu rest Ex) as (b & Hh & Hk & Hbp & _ & Hb0 & Hbe & h' & l' & us' & E & Hd).
    exists h', l', us'. split; [|done]. by rewrite (F1 bu b).
Qed.

(** A buffer resized. *)
Lemma realloc_zero p : p <> 0 -> (forall b, b ∈ used l -> p = b_addr b + 4 ->
  multi_heap_realloc_impl h p 0 = (h ← multi_heap_free_impl h p; Ok (0, h))).
Proof.
  intros Hp b [Hb Fb]%elem_of_used ->. pose proof H as [[R C M] U F Hsz]. unfold multi_heap_realloc_impl, get_block.
  replace (b_addr b + 4 - 4) with (b_addr b) by lia. destruct (Z.eqb_spec (b_addr b + 4) 0); [lia|].
  rewrite (assert_valid_run _ _ _ R Hb Fb). ostep. rewrite (is_free_blk_run R b) by (by right). rewrite Fb. done.
Qed.

Lemma realloc_held p size bu rest : 0 < size <= 2 ^ 32 - 4 -> extract plain p live = Some (bu, rest) ->
  exists ret h', multi_heap_realloc_impl h p size = Ok (ret, h') /\ same_range h h' /\
    exists l' us', held h' ((if ret =? 0 then bu else new_buf h' ret false size (bu_data bu)) :: rest) l' us'.
Proof.
  intros Hs Ex. pose proof H as [I U F Hsz]. destruct (extract_run _ _ _ _ _ _ _ Ex F) as (Hk & Hp & b & us' & EU & Hb & F').
  assert (EUb : used l ≡ₚ b :: us') by (by rewrite U). destruct (used_in (hv_rep _ _ I) _ _ EUb) as (_ & Fb & Hu).
  unfold plain in Hk. pose proof Hb as (_ & Hm & Hlen & Hrd & Hb5). destruct (bu_aligned bu) eqn:Eal; [done|].
  rewrite <- Hp, Hb5 in *. unfold b_end, lenZ in Hlen.
  destruct (realloc_blk h l b size I Hu Hs) as (ret & h' & l' & b' & us2 & E & EU2 & [I' U' (K1 & K2 & K3) Hret Hd] & _).
  assert (Eus : used us2 ≡ₚ us') by (apply (Permutation_cons_inv (a := b)); by rewrite <- EU2).
  exists ret, h'. split; [done|]. split; [done|]. exists l', (b' :: us').
  destruct (used_in (hv_rep _ _ I') _ _ U') as (Hin' & Fb' & _).
  pose proof (rep_block (hv_rep _ _ I') b' Hin') as (Hm' & _ & _ & _ & _ & _ & Hb0').
  assert (Hrd' : forall n, Z.of_nat n <= b_size b -> (n <= length (bu_data bu))%nat -> ret = 0 \/ Z.of_nat n <= size ->
    read_bytes (heap_mem h') (b_addr b' + 4) n = take n (bu_data bu)).
  { intros n Hn1 Hn2 Hn3. rewrite <- Hrd. rewrite take_read_bytes by done. apply read_bytes_at. intros i Hi. apply Hd; lia. }
  split; [done|by rewrite U', Eus| |by rewrite K1, K2].
  constructor; [|eapply bufs_kept; [split; [exact K1|split; [exact K2|]]|..|exact F']].
  - destruct Hret as [(-> & Hlt & Ea & Hsz')|[-> Hle]].
    + cbn [Z.eqb]. unfold holds, b_end, lenZ. rewrite Eal, Hb5, <- Ea. split_and!; try done || lia; [by rewrite Ea|].
      rewrite (Hrd' (length (bu_data bu))) by lia. by rewrite firstn_all.
    + destruct (Z.eqb_spec (b_addr b' + 4) 0); [lia|]. apply new_buf_holds; try done; [lia|].
      rewrite length_take, Hrd' by lia. by rewrite <- take_take, firstn_all.
  - intros d x [Hd1 Hd2]%elem_of_used Hx. apply (K3 d); [|done]. by rewrite Eus.
  - apply Forall_forall. intros d Hd'. rewrite <- Eus in Hd'. by apply elem_of_used in Hd' as [_ ?].
Qed.

(** A write to a buffer. *)
Lemma write_held p off bytes bu rest : Forall (fun v => 0 <= v < 2 ^ 8) bytes -> extract (fun _ => true) p live = Some (bu, rest) ->
  0 <= off -> off + lenZ bytes <= lenZ (bu_data bu) ->
  exists l' us', held (h <| heap_mem := write_bytes (heap_mem h) (p + off) bytes |>)
    (mkBuf p (bu_aligned bu) (take (Z.to_nat off) (bu_data bu) ++ bytes ++ drop (Z.to_nat off + length bytes) (bu_data bu)) :: rest) l' us'.
Proof.
  intros HB Ex Ho Hl. pose proof H as [I U F Hsz]. destruct (extract_run _ _ _ _ _ _ _ Ex F) as (_ & Hp & b & us' & EU & Hb & F').
  assert (EUb : used l ≡ₚ b :: us') by (by rewrite U). destruct (used_in (hv_rep _ _ I) _ _ EUb) as (Hin & Fb & Hu).
  pose proof Hb as (_ & Hm & Hlen & Hrd & Hb5). rewrite Hp in *. unfold lenZ in *.
  assert (Hlo : b_addr b + 4 <= p) by (destruct (bu_aligned bu); lia).
  set (m' := write_bytes _ _ _). exists l, (b :: us').
  assert (O : forall x, x < p + off \/ p + off + Z.of_nat (length bytes) <= x -> load8 m' x = load8 (heap_mem h) x)
    by (intros x Hx; by apply load8_write_bytes_ne).
  split; [|done| |done].
  - apply inv_data_write; [done|]. intros x Hx. apply O. destruct (decide (x < p + off)); [by left|].
    destruct (decide (p + off + Z.of_nat (length bytes) <= x)); [by right|]. exfalso. apply Hx. exists b. split; [done|]. lia.
  - constructor.
    + unfold holds. cbn. unfold lenZ. rewrite !length_app, length_take, length_drop. split_and!; try done; [lia| |].
      * replace (min _ _ + _)%nat with (Z.to_nat off + (length bytes + (length (bu_data bu) - (Z.to_nat off + length bytes))))%nat by lia.
        rewrite !read_bytes_app. f_equal; [|f_equal].
        -- rewrite <- Hrd. rewrite take_read_bytes by lia. apply read_bytes_ext. intros x Hx. apply O. lia.
        -- rewrite Z2Nat.id by lia. by apply read_write_bytes.
        -- rewrite <- Hrd at 2. rewrite drop_read_bytes by lia. rewrite Nat2Z.inj_add, Z2Nat.id, Z.add_assoc by lia.
           apply read_bytes_ext. intros x Hx. apply O. lia.
      * destruct (bu_aligned bu); [|done]. destruct Hb5 as [Hb5 Hb6]. split; [done|]. rewrite <- Hb6. apply load32_ext.
        intros x Hx. apply O. lia.
    + eapply (bufs_kept h (h <| heap_mem := m' |>)); [split; [done|split; [done|]]|by eapply used_tail|done].
      intros d x [Hd _]%elem_of_used Hx. apply O. destruct (others_apart (hv_rep _ _ I) b us' d EUb Hd); lia.
Qed.

Lemma aligned_held size al : 0 <= size -> 0 <= al -> size + al + 3 < 2 ^ 32 ->
  exists ret h', multi_heap_aligned_alloc_impl h size al = Ok (ret, h') /\ (ret = 0 -> h' = h) /\ same_range h h' /\
    exists l' us', held h' (if ret =? 0 then live else new_buf h' ret true size [] :: live) l' us'.
Proof.
  intros Hs Ha Hov. destruct (aligned_block h l size al (hd_inv _ _ _ _ H) Hs Ha Hov) as [E|(p & h' & l' & b' & E & Hp & _ & Hm & I' & U' & K & Fb & Hlo & Hhi & Hw)].
  - exists 0, h. split; [done|]. split; [done|]. split; [done|]. by exists l, us.
  - exists p, h'. split; [done|]. split; [lia|]. split; [by eapply used_kept_range|]. destruct (Z.eqb_spec p 0); [lia|]. exists l', (b' :: us). apply held_cons; try done.
    unfold new_buf, holds. cbn [bu_ptr bu_data bu_aligned]. rewrite take_nil. unfold lenZ. cbn [app length].
    change (Z.of_nat 0) with 0. rewrite length_read_bytes. split_and!; try done; [lia|]. f_equal; lia.
Qed.

Lemma realloc_step p size : (0 <=? size) && (size <=? 2 ^ 32 - 4) && ((p =? 0) || bool_decide (is_Some (extract plain p live))) = true ->
  exists ret h' live', hstep (HRealloc p size) h live = Ok (ret, h', live') /\ exists l' us', held h' live' l' us'.
Proof.
  intros [[Hs%Z.leb_le Hn%Z.leb_le]%andb_prop [->|(Hp & bu & rest & Ex)]%legal_extract]%andb_prop; cbn [hstep].
  - rewrite extract_zero. unfold multi_heap_realloc_impl. cbn [Z.eqb].
    assert (Hr : size <= align_up 4 size /\ is_u32 (align_up 4 size)).
    { destruct (align_up_size size ltac:(unfold is_u32; lia)) as [[-> ?]|?]; unfold is_u32; lia. }
    destruct (malloc_held size (align_up 4 size) ltac:(lia) (proj2 Hr)) as (ret & h' & E & _ & _ & l' & us' & H').
    rewrite E. ostep. exists ret, h', (if ret =? 0 then live else new_buf h' ret false size [] :: live). split; [done|by exists l', us'].
  - rewrite Ex. destruct (decide (size = 0)) as [->|Hs0].
    + destruct (free_held plain p bu rest Ex) as (b & Hh & Hk & Hbp & Hu & _ & _ & h' & l' & us' & E & H' & _).
      destruct Hh as (_ & _ & _ & _ & Hh). unfold plain in Hk. destruct (bu_aligned bu); [done|].
      rewrite (realloc_zero p Hp b Hu) by congruence. replace p with (b_addr b + 4) by congruence. rewrite E. ostep.
      exists 0, h', rest. split; [done|by exists l', us'].
    + destruct (realloc_held p size bu rest ltac:(lia) Ex) as (ret & h' & E & _ & l' & us' & H'). rewrite E. ostep.
      eexists ret, h', _. split; [done|]. exists l', us'. destruct (Z.eqb_spec ret 0); [|done].
      destruct (Z.eqb_spec size 0); [lia|done].
Qed.

Lemma hstep_held c : legal live c = true ->
  exists ret h' live', hstep c h live = Ok (ret, h', live') /\ exists l' us', held h' live' l' us'.
Proof.
  intros Hl. destruct c as [size|p|p size|size al|p|p off bytes]; [| |by apply realloc_step|..]; cbn [legal hstep] in *.
  - apply andb_prop in Hl as [H0%Z.leb_le H1%Z.ltb_lt].
    destruct (malloc_held size size ltac:(lia) ltac:(unfold is_u32; lia)) as (ret & h' & E & _ & _ & l' & us' & H').
    rewrite E. ostep. eexists _, _, _. split; [done|by exists l', us'].
  - destruct (free_step plain p multi_heap_free_impl) as (h' & l' & us' & E & H' & _); [done| |done|].
    { intros bu b Hk Hp (_ & _ & _ & _ & Hb) _ _ _. unfold plain in Hk. destruct (bu_aligned bu); [done|]. congruence. }
    rewrite E. ostep. eexists _, _, _. split; [done|by exists l', us'].
  - apply andb_prop in Hl as [Hl H2%Z.ltb_lt]. apply andb_prop in Hl as [H0%Z.leb_le H1%Z.leb_le].
    destruct (aligned_held size al H0 H1 H2) as (ret & h' & E & _ & _ & l' & us' & H').
    rewrite E. ostep. eexists _, _, _. split; [done|by exists l', us'].
  - destruct (free_step bu_aligned p multi_heap_aligned_free_impl) as (h' & l' & us' & E & H' & _); [done| |done|].
    { intros bu b Hk Hp (_ & _ & Hb1 & _ & Hb) Hb0 Hb2 Hp0. rewrite Hk, Hp in *. destruct Hb as [Hb3 Hb4].
      unfold multi_heap_aligned_free_impl. destruct (Z.eqb_spec p 0); [done|]. rewrite Hb4. unfold lenZ in Hb1.
      replace (p - (p - (b_addr b + 4))) with (b_addr b + 4) by lia. rewrite u32_small by (unfold is_u32; lia). done. }
    rewrite E. ostep. eexists _, _, _. split; [done|by exists l', us'].
  - apply andb_prop in Hl as [HB%bool_decide_eq_true Hl].
    destruct (extract (fun _ => true) p live) as [[bu rest]|] eqn:Ex; [|done].
    apply andb_prop in Hl as [H0%Z.leb_le H1%Z.leb_le].
    destruct (write_held p off bytes bu rest HB Ex H0 H1) as (l' & us' & H'). eexists _, _, _. split; [done|by exists l', us'].
Qed.
End steps.

Lemma hrun_held cs : forall h live l us, held h live l us -> legal_run cs h live = true ->
  exists rets h' live' l' us', hrun cs h live = Ok (rets, h', live') /\ held h' live' l' us'.
Proof.
  induction cs as [|c cs IH]; intros h live l us H Hl; [by exists [], h, live, l, us|].
  cbn [legal_run hrun] in *. apply andb_prop in Hl as [Hc Hl].
  destruct (hstep_held H c Hc) as (ret & h1 & live1 & E & l1 & us1 & H1). rewrite E in Hl |- *. ostep.
  destruct (IH h1 live1 l1 us1 H1 Hl) as (rets & h' & live' & l' & us' & E' & H'). rewrite E'. ostep.
  by exists (ret :: rets), h', live', l', us'.
Qed.

Lemma register_held start_ptr size m h : 0 < start_ptr -> 0 <= size -> start_ptr + size + 8 < 2 ^ 31 ->
  multi_heap_register_impl start_ptr size m = Some h -> exists l, held h [] l [].
Proof.
  intros H1 H2 H3 E. pose proof (register_run start_ptr size m H1 H2 H3) as R. cbv zeta in R.
  destruct (Z.ltb_spec (align_down 4 (start_ptr + size) - align_up 4 start_ptr) 40); [congruence|].
  destruct R as (h' & E' & A & B & I). rewrite E in E'. injection E' as <-. eexists. split; [exact I|done|constructor|lia].
Qed.

(** ** The properties *)

(** C1. The heap serves its clients: from a new heap, whatever legal calls of
    [malloc], [free], [realloc], [aligned_alloc] and [aligned_free] and writes to
    the buffers are made, every call returns with no failed assertion, the
    buffers held are word-aligned, inside the heap, apart from each other and
    contain what was last written (a resized buffer its old contents, up to the
    smaller size), and when none is held the whole heap is free again. *)
Theorem heap_serves_clients start_ptr size m h cs :
  0 < start_ptr -> 0 <= size -> start_ptr + size + 8 < 2 ^ 31 ->
  multi_heap_register_impl start_ptr size m = Some h -> legal_run cs h [] = true ->
  exists rets h' live', hrun cs h [] = Ok (rets, h', live') /\ delivered h' live'.
Proof.
  intros H1 H2 H3 E Hl. destruct (register_held start_ptr size m h H1 H2 H3 E) as (l & H).
  destruct (hrun_held cs h [] l [] H Hl) as (rets & h' & live' & l' & us' & E' & H').
  exists rets, h', live'. split; [done|by eapply held_delivered].
Qed.

Definition demo_history : list hcall :=
  [HMalloc 10; HWrite 0x101c 2 [1; 2; 3]; HAlignedAlloc 20 16; HRealloc 0x101c 40; HMalloc 24; HFree 4184; HRealloc 4228 8; HAlignedFree 4144].

Lemma heap_serves_clients_witness :
  legal_run demo_history demo_heap [] = true /\
  exists rets h' live', hrun demo_history demo_heap [] = Ok (rets, h', live') /\ delivered h' live'.
Proof.
  split; [by vm_compute|].
  apply (heap_serves_clients 0x1000 256 ∅ demo_heap demo_history); [lia|lia|lia|by vm_compute|by vm_compute].
Defined.
