(* ===== verification/HeapCheck.v ===== *)
(** * The heap allocator: inspection and the promises of each call

    The walks of [multi_heap_check] and [multi_heap_get_info], and what each
    call of the allocator promises by itself. *)
From S2P Require Import Prelude Mem Heap HeapInv HeapOps HeapCalls HeapClient.

(** ** The integrity check *)
Section check.
Context {h : heap_t} {l : list blk} (I : heap_inv h l).

Lemma rep_length : 8 * Z.of_nat (length l) <= last_block h - heap_addr h - 24.
Proof.
  pose proof (hr_layout _ _ (hv_rep _ _ I)) as (_ & _ & _ & L). unfold b_end in L. cbn in L.
  assert (G : forall a k e, layout a k e -> 8 * Z.of_nat (length k) <= e - a).
  { intros a k. revert a. induction k as [|c k IH]; intros a e; simpl; [intros ->; lia|].
    intros (<- & Hs & _ & H). apply IH in H. unfold b_end in H. lia. }
  apply G in L. unfold first_block in L. lia.
Qed.

(** The address of the block after [l1]. *)
Definition head_addr (l2 : list blk) : Z := match l2 with b :: _ => b_addr b | [] => last_block h end.

Lemma next_head l1 b l2 : l = l1 ++ b :: l2 -> b_end b = head_addr l2.
Proof.
  intros E. pose proof (rep_at (hv_rep _ _ I) _ _ _ E) as (_ & _ & _ & _ & L2). destruct l2; simpl in *; [done|]. by destruct L2.
Qed.

Lemma next_free_head l1 b l2 : l = l1 ++ b :: l2 -> b_free b = true ->
  next_free h (b_addr b) = default (last_block h) (head (faddrs l2)).
Proof.
  intros E Fb. assert (E' : l = (l1 ++ [b]) ++ l2) by (by rewrite <- app_assoc).
  destruct (links_at (hv_rep _ _ I) (l1 ++ [b]) l2 E') as (X & p & z & EX & _ & _ & <- & Ez).
  rewrite app_comm_cons, faddrs_app, (faddrs_cons b), Fb in EX. by apply app_inj_tail in EX as [_ <-].
Qed.

(** One block of the walk, after [l1] and [b0]. *)
Definition check_ok (l1 : list blk) (b0 : blk) (l2 : list blk) (s : check_state) : Prop :=
  first_blk h :: l = l1 ++ b0 :: l2 /\ ck_valid s = true /\ ck_prev s = b_addr b0 /\
  ck_expected_free s = default (last_block h) (head (faddrs l2)) /\ ck_total s = fsum (tail (l1 ++ [b0])).

Lemma check_block_blk l1 b0 b l2 s : check_ok l1 b0 (b :: l2) s -> check_ok (l1 ++ [b0]) b l2 (check_block h (b_addr b) s).
Proof.
  intros (E & Hv & Hp & He & Ht). pose proof (hv_rep _ _ I) as R.
  assert (H0 : b0 ∈ first_blk h :: l) by (rewrite E; apply elem_of_app; right; left).
  assert (H1 : b ∈ first_blk h :: l) by (rewrite E; apply elem_of_app; right; right; left).
  pose proof (rep_block R b0 H0) as (_ & Hb0 & _ & Hs0 & _). pose proof (rep_block R b H1) as (_ & Hb & _ & Hs & _).
  split; [by rewrite <- app_assoc|]. unfold check_block.
  assert (Hne : b_addr b <> first_block h).
  { pose proof (hr_layout _ _ R) as L. rewrite E in L. apply layout_at in L as (_ & _ & _ & L & _). destruct L as [-> _]. unfold b_end. lia. }
  rewrite (is_free_blk_run R b H1), Hp, (is_free_blk_run R b0 H0), (not_last_blk R b H1), (data_size_blk R b H1). unfold is_first_block.
  destruct (Z.eqb_spec (b_addr b) (first_block h)) as [|_]; [done|].
  assert (D : exists l0, l = l0 ++ b :: l2 /\ tail (l1 ++ [b0]) = l0 /\ (b_free b = true -> b_addr b0 = first_block h \/ b_free b0 = false)).
  { destruct l1 as [|c l1']; injection E as <- El.
    - exists []. split; [done|]. split; [done|by left].
    - exists (l1' ++ [b0]). rewrite <- app_assoc. split; [done|]. split; [done|]. intros Fb. right.
      pose proof (hv_coalesced _ _ I) as C. rewrite El, coalesced_app in C. destruct C as (_ & _ & C & _). by rewrite Fb, andb_true_r in C. }
  destruct D as (l0 & El & Et & Hadj).
  assert (Hsum : 0 <= fsum l0 /\ fsum l0 + (if b_free b then b_size b else 0) < 2 ^ 31).
  { pose proof (hr_layout _ _ R) as (_ & _ & _ & L). rewrite El in L. pose proof (fsum_bound _ _ _ L) as Hfb.
    rewrite fsum_app in Hfb. cbn [fsum] in Hfb. apply layout_app in L as (x & L1 & (_ & _ & _ & L2)).
    pose proof (fsum_nonneg _ _ _ L1). pose proof (fsum_nonneg _ _ _ L2). pose proof (hr_range _ _ R). unfold b_end in Hfb. cbn [first_blk b_addr b_size] in Hfb. unfold first_block in Hfb. lia. }
  rewrite faddrs_cons in He. rewrite <- app_assoc. cbn [app].
  replace (tail (l1 ++ [b0; b])) with (l0 ++ [b]) by (rewrite <- Et; destruct l1; cbn; [done|by rewrite <- app_assoc]).
  rewrite fsum_app. cbn [fsum]. rewrite Et in Ht. destruct (b_free b) eqn:Fb; cbn [app] in He.
  - replace (negb (b_addr b0 =? 0) && b_free b0 && negb (b_addr b0 =? first_block h)) with false
      by (destruct (Hadj eq_refl) as [-> | ->]; rewrite ?Z.eqb_refl; by rewrite ?andb_false_r).
    cbn [andb negb]. rewrite He. cbn [head default]. rewrite Z.eqb_refl, andb_false_r. cbn.
    rewrite (next_free_head l0 b l2 El Fb), Ht, u32_small by (unfold is_u32; lia). split_and!; done || lia.
  - cbn. rewrite He, Ht. split_and!; done || lia.
Qed.

Lemma check_loop_blocks fuel : forall l1 b0 l2 s, check_ok l1 b0 l2 s -> (length l2 < fuel)%nat ->
  exists s', check_loop fuel h (head_addr l2) s = Ok (Some s') /\ ck_valid s' = true /\ ck_prev s' = last_block h /\
    ck_total s' = fsum l.
Proof.
  pose proof (hv_rep _ _ I) as R. pose proof (rep_last R) as [_ Hlast]. pose proof (hr_range _ _ R) as [Hr0 Hr1].
  unfold first_block in Hlast. induction fuel as [|fuel IH]; intros l1 b0 l2 s K Hf; [lia|].
  pose proof K as (E & Hv & Hp & He & Ht).
  assert (H0 : b0 ∈ first_blk h :: l) by (rewrite E; apply elem_of_app; right; left).
  pose proof (rep_block R b0 H0) as (_ & Hb01 & Hb02 & Hb03 & _). unfold b_end in Hb02.
  assert (Hnext : b_end b0 = head_addr l2).
  { pose proof (hr_layout _ _ R) as L. rewrite E in L. apply layout_at in L as (_ & _ & _ & L & _).
    destruct l2; simpl in *; [done|]. by destruct L. }
  unfold b_end in Hnext. assert (Hge : head_addr l2 <= last_block h) by lia.
  cbn [check_loop]. rewrite Hp. destruct (Z.eqb_spec (head_addr l2) 0); [unfold first_block in *; lia|].
  destruct (Z.eqb_spec (head_addr l2) (b_addr b0)); [lia|]. destruct (Z.ltb_spec (head_addr l2) (b_addr b0)); [lia|].
  destruct (Z.ltb_spec (last_block h) (head_addr l2)); [lia|]. destruct (Z.ltb_spec (head_addr l2) (first_block h)); [lia|]. cbn [orb].
  destruct l2 as [|b l2]; cbn [head_addr].
  - destruct (last_reads R) as (Hn & Hfl & Hll & Hds). rewrite Hn. eexists.
    split; [by destruct fuel|]. unfold check_block. rewrite Hfl, Hll, Hds. cbn [negb]. rewrite andb_false_r. cbv iota zeta. rewrite He. change (default (last_block h) (head (faddrs []))) with (last_block h).
    rewrite Z.eqb_refl, !andb_false_r. unfold is_first_block. destruct (Z.eqb_spec (last_block h) (first_block h)); [unfold first_block in *; lia|].
    cbn. split; [done|]. split; [done|]. rewrite Ht, Z.add_0_r.
    replace (tail (l1 ++ [b0])) with l by (by destruct l1; injection E as <- El; rewrite El).
    pose proof (hr_layout _ _ R) as (_ & _ & _ & L). pose proof (fsum_nonneg _ _ _ L). pose proof (fsum_bound _ _ _ L).
    apply u32_small. unfold b_end in *. cbn [first_blk b_addr b_size] in *. unfold is_u32, first_block in *. lia.
  - assert (Hbi : b ∈ first_blk h :: l) by (rewrite E; apply elem_of_app; right; right; left).
    rewrite (next_addr_blk R b Hbi). replace (b_end b) with (head_addr l2).
    + apply (IH (l1 ++ [b0]) b l2); [by apply check_block_blk|simpl in Hf; lia].
    + pose proof (hr_layout _ _ R) as L. rewrite E in L. apply layout_at in L as (_ & _ & _ & L & _).
      destruct L as (_ & _ & _ & L). destruct l2; simpl in *; [done|]. by destruct L.
Qed.

Lemma check_run : multi_heap_check h = Ok true.
Proof.
  pose proof (hv_rep _ _ I) as R. pose proof rep_length as Hlen. pose proof (rep_last R) as [_ Hlast]. pose proof (hr_range _ _ R) as [Hr0 Hr1].
  destruct (links_at R [] l eq_refl) as (X & p & z & EX & _ & _ & Nz & Ez).
  change (faddrs [first_blk h]) with ([] ++ [first_block h]) in EX. apply app_inj_tail in EX as [_ <-].
  unfold multi_heap_check. cbn [check_loop]. unfold first_block in Hlast.
  destruct (Z.eqb_spec (first_block h) 0); [unfold first_block in *; lia|]. cbn [ck_prev].
  destruct (Z.eqb_spec (first_block h) 0); [done|]. destruct (Z.ltb_spec (first_block h) 0); [unfold first_block in *; lia|].
  destruct (Z.ltb_spec (last_block h) (first_block h)); [unfold first_block in *; lia|]. rewrite Z.ltb_irrefl. cbn [orb].
  pose proof (next_addr_blk R (first_blk h) ltac:(left)) as En. cbn [first_blk b_addr] in En. rewrite En.
  assert (Eh : b_end (first_blk h) = head_addr l).
  { pose proof (hr_layout _ _ R) as (_ & _ & _ & L). destruct l; simpl in *; [done|]. by destruct L. }
  rewrite Eh. destruct (check_loop_blocks (heap_fuel h) [] (first_blk h) l (check_block h (first_block h) (mkCheck true 0 0 0 0))) as (s' & E & V & P & T).
  - split; [done|]. unfold check_block. pose proof (is_free_blk_run R (first_blk h) ltac:(left)) as Ef. cbn [first_blk b_addr b_free] in Ef.
    rewrite Ef. unfold is_first_block. rewrite Z.eqb_refl. cbn. rewrite Nz, Ez. done.
  - unfold heap_fuel. Z.to_euclidean_division_equations. lia.
  - rewrite E. ostep. rewrite V, P, T, Z.eqb_refl. destruct (last_reads R) as (_ & -> & _). rewrite (hr_bytes _ _ R), Z.eqb_refl. done.
Qed.
End check.

(** ** The totals *)
Fixpoint usum (l : list blk) : Z :=
  match l with
  | [] => 0
  | b :: l => (if b_free b then 0 else b_size b) + usum l
  end.
Definition largest (l : list blk) : Z := foldl (fun m b => if b_free b then Z.max m (b_size b) else m) 0 l.
Definition info_of (l : list blk) : multi_heap_info_t :=
  mkHeapInfo (fsum l) (usum l) (largest l) 0 (lenZ (used l)) (lenZ (filter is_free_blk l)) (lenZ l).

Section info.
Context {h : heap_t} {l : list blk} (I : heap_inv h l).

Lemma usum_app k1 k2 : usum (k1 ++ k2) = usum k1 + usum k2.
Proof. induction k1 as [|b k1 IH]; simpl; [done|]. rewrite IH. lia. Qed.

Lemma filter_free_cons b k : filter is_free_blk (b :: k) = (if b_free b then [b] else []) ++ filter is_free_blk k.
Proof. rewrite filter_cons. case_decide as E; unfold is_free_blk in E; [by rewrite E|]. by destruct (b_free b). Qed.

Lemma largest_snoc k b : largest (k ++ [b]) = if b_free b then Z.max (largest k) (b_size b) else largest k.
Proof. unfold largest. by rewrite foldl_snoc. Qed.

Lemma largest_spec k : Forall (fun b => 0 <= b_size b) k ->
  0 <= largest k /\ (forall b, b ∈ k -> b_free b = true -> b_size b <= largest k) /\
  (largest k = 0 \/ exists b, b ∈ k /\ b_free b = true /\ b_size b = largest k).
Proof.
  induction k as [|b k IH] using rev_ind; intros F; [split; [done|]; split; [by intros b ?%elem_of_nil|by left]|].
  apply Forall_app in F as [F Fb]. apply Forall_cons in Fb as [Fb _]. destruct (IH F) as (H1 & H2 & H3). rewrite largest_snoc.
  destruct (b_free b) eqn:E; split_and!; try lia; try done.
  - intros c [Hc|Hc%list_elem_of_singleton]%elem_of_app Hf; [specialize (H2 c Hc Hf); lia|subst; lia].
  - destruct (Z.max_spec (largest k) (b_size b)) as [[? ->]|[? ->]].
    + right. exists b. split; [apply elem_of_app; right; left|done].
    + destruct H3 as [?|(c & Hc & ?)]; [by left|]. right. exists c. split; [apply elem_of_app; by left|done].
  - intros c [Hc|Hc%list_elem_of_singleton]%elem_of_app Hf; [by apply H2|congruence].
  - destruct H3 as [?|(c & Hc & ?)]; [by left|]. right. exists c. split; [apply elem_of_app; by left|done].
Qed.

Lemma sums_bound a k e : layout a k e -> 0 <= fsum k /\ 0 <= usum k /\ fsum k + usum k + 4 * lenZ k <= e - a /\
  lenZ (used k) <= lenZ k /\ lenZ (filter is_free_blk k) <= lenZ k.
Proof.
  revert a. induction k as [|b k IH]; intros a; cbn [layout]; [intros ->; cbn; unfold lenZ; cbn; lia|].
  intros (<- & Hs & _ & H). apply IH in H as (H1 & H2 & H3 & H4 & H5). rewrite used_cons, filter_free_cons, !lenZ_app, lenZ_cons. cbn [fsum usum].
  unfold b_end in H3. destruct (b_free b); rewrite lenZ_cons; change (lenZ (@nil blk)) with 0; lia.
Qed.

Lemma info_block_blk k b l2 : l = k ++ b :: l2 -> info_block h (b_addr b) (info_of k) = info_of (k ++ [b]).
Proof.
  intros E. pose proof (hv_rep _ _ I) as R. assert (Hin : b ∈ first_blk h :: l) by (rewrite E; right; apply elem_of_app; right; left).
  pose proof (hr_layout _ _ R) as (_ & _ & _ & L). rewrite E, cons_middle, app_assoc in L. apply layout_app in L as (x & L & L2).
  apply layout_bounds in L2 as [L2 _]. apply sums_bound in L as (S1 & S2 & S3 & S4 & S5).
  pose proof (hr_range _ _ R) as [Hr0 Hr1]. unfold b_end in S3. cbn [first_blk b_addr b_size] in S3. unfold first_block in S3.
  assert (Hk : forall A (q : list A), 0 <= lenZ q) by (intros; unfold lenZ; lia).
  unfold info_block. rewrite (data_size_blk R b Hin), (is_free_blk_run R b Hin). unfold info_of. rewrite largest_snoc.
  revert S1 S2 S3 S4 S5. rewrite fsum_app, usum_app, used_app, filter_app, !lenZ_app. cbn [fsum usum].
  rewrite used_cons, filter_free_cons. pose proof (Hk _ k). pose proof (Hk _ (used k)). pose proof (Hk _ (filter is_free_blk k)).
  change (filter _ (@nil blk)) with (@nil blk). change (used []) with (@nil blk).
  destruct (b_free b) eqn:Fb; rewrite !app_nil_r; rewrite !lenZ_cons; change (lenZ (@nil blk)) with 0; intros S1 S2 S3 S4 S5;
    cbn.
  - destruct (Z.ltb_spec (largest k) (b_size b)); cbn; rewrite !u32_small by (unfold is_u32; lia); f_equal; lia.
  - rewrite !u32_small by (unfold is_u32; lia). f_equal; lia.
Qed.

Lemma info_loop_blocks fuel : forall k l2, l = k ++ l2 -> (length l2 <= fuel)%nat ->
  info_loop fuel h (head_addr (h := h) l2) (info_of k) = Ok (info_of l).
Proof.
  pose proof (hv_rep _ _ I) as R. induction fuel as [|fuel IH]; intros k l2 E Hf.
  - destruct l2; [|simpl in Hf; lia]. rewrite app_nil_r in E. destruct (last_reads R) as (_ & _ & Hl & _). cbn. by rewrite Hl, E.
  - destruct l2 as [|b l2]; cbn [info_loop head_addr].
    + rewrite app_nil_r in E. destruct (last_reads R) as (_ & _ & -> & _). by rewrite E.
    + assert (Hin : b ∈ first_blk h :: l) by (rewrite E; right; apply elem_of_app; right; left).
      rewrite (not_last_blk R b Hin), (get_next_blk R b Hin). ostep. cbv zeta. rewrite (info_block_blk k b l2 E).
      rewrite (next_head I k b l2 E). simpl in Hf. apply IH; [by rewrite <- app_assoc|lia].
Qed.

Lemma info_run : multi_heap_get_info_impl h = Ok ((info_of l) <| info_minimum_free_bytes := minimum_free_bytes h |>).
Proof.
  pose proof (hv_rep _ _ I) as R. pose proof (rep_length I). unfold multi_heap_get_info_impl.
  pose proof (get_next_blk R (first_blk h) ltac:(left)) as En. cbn [first_blk b_addr] in En. rewrite En. ostep.
  assert (Eh : b_end (first_blk h) = head_addr (h := h) l).
  { pose proof (hr_layout _ _ R) as (_ & _ & _ & L). destruct l; simpl in *; [done|]. by destruct L. }
  change (mkHeapInfo 0 0 0 0 0 0 0) with (info_of []). rewrite Eh, (info_loop_blocks (heap_fuel h) [] l eq_refl).
  - ostep. cbv zeta. oassert ltac:(cbn; rewrite (hr_bytes _ _ R); apply Z.eqb_refl). done.
  - unfold heap_fuel. Z.to_euclidean_division_equations. lia.
Qed.
End info.

(** ** The properties *)
Section properties.

Lemma malloc_largest h l size : heap_inv h l -> 0 < size <= 2 ^ 32 - 4 ->
  if size <=? largest l then exists p h', multi_heap_malloc_impl h size = Ok (p, h') /\ p <> 0
  else multi_heap_malloc_impl h size = Ok (0, h).
Proof.
  intros I Hs. pose proof I as [R C M].
  assert (F : Forall (fun b => 4 <= b_size b /\ b_size b mod 4 = 0 /\ 0 < b_addr b) l).
  { apply Forall_forall. intros b Hb. assert (Hin : b ∈ first_blk h :: l) by (by right).
    pose proof (rep_block R b Hin) as (_ & _ & _ & ? & ? & _ & ?). done. }
  rewrite Forall_forall in F.
  destruct (largest_spec l) as (L1 & L2 & L3). { apply Forall_forall. intros b Hb. specialize (F b Hb). lia. }
  pose proof (align_up_size size ltac:(unfold is_u32; lia)) as [[_ ?]|(Hn & Hns & Hnm)]; [lia|].
  destruct (malloc_run h l size R C ltac:(lia) ltac:(unfold is_u32; lia)) as [[E Hnone]|(l1 & b & l2 & h' & -> & Fb & Hb & _ & _ & _ & E & _)].
  - destruct (Z.leb_spec size (largest l)) as [Hle|]; [|done]. exfalso. destruct Hnone as [?|Hnone]; [lia|].
    destruct L3 as [?|(b & Hb & Fb & Eb)]; [lia|]. specialize (Hnone b Hb Fb). specialize (F b Hb).
    Z.to_euclidean_division_equations. lia.
  - assert (Hbl : b ∈ l1 ++ b :: l2) by in_list. specialize (L2 b Hbl Fb). specialize (F b Hbl).
    destruct (Z.leb_spec size (largest (l1 ++ b :: l2))); [|lia]. exists (b_addr b + 4), h'. split; [done|lia].
Qed.
End properties.

(** [malloc] is best-fit: it returns [NULL] exactly when the rounded size
    is 0 or every free block is smaller; otherwise it takes the smallest free
    block that is large enough and cuts it when the rest can hold a block; the
    other blocks and their data are as they were. *)
Theorem malloc_best_fit h l size : heap_inv h l -> is_u32 size ->
  let n := align_up 4 size in
  (multi_heap_malloc_impl h size = Ok (0, h) /\ (n = 0 \/ forall b, b ∈ l -> b_free b = true -> b_size b < n)) \/
  (exists l1 b l2 h', l = l1 ++ b :: l2 /\ b_free b = true /\ 4 <= n <= b_size b /\ size <= n /\
     (forall c, c ∈ l -> b_free c = true -> n <= b_size c -> b_size b <= b_size c) /\
     multi_heap_malloc_impl h size = Ok (b_addr b + 4, h') /\ heap_inv h' (l1 ++ alloc_result b n ++ l2) /\
     forall c x, c ∈ l1 ++ l2 -> b_free c = false -> b_addr c + 4 <= x < b_end c -> load8 (heap_mem h') x = load8 (heap_mem h) x).
Proof.
  intros [R C M] Hs n. destruct (malloc_run h l size R C ltac:(lia) Hs) as [?|(l1 & b & l2 & h' & -> & Fb & Hn & _ & Hns & Hmin & E & [S1 _ _ S4])]; [by left|].
  right. exists l1, b, l2, h'. split_and!; done || lia.
Qed.

Lemma demo_heap_inv : heap_inv demo_heap [mkBlk 0x1018 220 true].
Proof.
  pose proof (register_run 0x1000 256 ∅ ltac:(lia) ltac:(lia) ltac:(lia)) as H. cbv zeta in H.
  change (align_down 4 (0x1000 + 256) - align_up 4 0x1000 <? 40) with false in H. cbv iota in H.
  destruct H as (h & E & _ & _ & I). unfold demo_heap. rewrite E. exact I.
Qed.

Lemma malloc_best_fit_witness : is_u32 10 /\
  ((multi_heap_malloc_impl demo_heap 10 = Ok (0, demo_heap) /\ (12 = 0 \/ forall b, b ∈ [mkBlk 0x1018 220 true] -> b_free b = true -> b_size b < 12)) \/
  (exists l1 b l2 h', [mkBlk 0x1018 220 true] = l1 ++ b :: l2 /\ b_free b = true /\ 4 <= 12 <= b_size b /\ 10 <= 12 /\
     (forall c, c ∈ [mkBlk 0x1018 220 true] -> b_free c = true -> 12 <= b_size c -> b_size b <= b_size c) /\
     multi_heap_malloc_impl demo_heap 10 = Ok (b_addr b + 4, h') /\ heap_inv h' (l1 ++ alloc_result b 12 ++ l2) /\
     forall c x, c ∈ l1 ++ l2 -> b_free c = false -> b_addr c + 4 <= x < b_end c -> load8 (heap_mem h') x = load8 (heap_mem demo_heap) x)).
Proof. split; [unfold is_u32; lia|]. apply (malloc_best_fit demo_heap [mkBlk 0x1018 220 true] 10 demo_heap_inv). unfold is_u32. lia. Defined.

(** [multi_heap_get_info] reports the exact totals of the heap, and its
    [largest_free_block] is exactly the largest size [malloc] can serve. *)
Theorem largest_free_block_exact h l : heap_inv h l ->
  exists i, multi_heap_get_info_impl h = Ok i /\
    total_free_bytes i = free_bytes h /\ allocated_blocks i = lenZ (used l) /\ total_blocks i = lenZ l /\
    total_allocated_bytes i = foldr Z.add 0 (b_size <$> used l) /\ info_minimum_free_bytes i = minimum_free_bytes h /\
    forall size, 0 < size <= 2 ^ 32 - 4 ->
      if size <=? largest_free_block i then exists p h', multi_heap_malloc_impl h size = Ok (p, h') /\ p <> 0
      else multi_heap_malloc_impl h size = Ok (0, h).
Proof.
  intros I. rewrite (info_run I). eexists. split; [done|]. cbn. split_and!; try done.
  - by rewrite (hr_bytes _ _ (hv_rep _ _ I)).
  - clear I. induction l as [|b l IH]; [done|]. rewrite used_cons. cbn. rewrite IH. by destruct (b_free b).
  - intros size Hs. by apply malloc_largest.
Qed.

Lemma largest_free_block_exact_witness : exists i, multi_heap_get_info_impl demo_heap = Ok i /\
    total_free_bytes i = free_bytes demo_heap /\ allocated_blocks i = lenZ (used [mkBlk 0x1018 220 true]) /\ total_blocks i = lenZ [mkBlk 0x1018 220 true] /\
    total_allocated_bytes i = foldr Z.add 0 (b_size <$> used [mkBlk 0x1018 220 true]) /\ info_minimum_free_bytes i = minimum_free_bytes demo_heap /\
    forall size, 0 < size <= 2 ^ 32 - 4 ->
      if size <=? largest_free_block i then exists p h', multi_heap_malloc_impl demo_heap size = Ok (p, h') /\ p <> 0
      else multi_heap_malloc_impl demo_heap size = Ok (0, demo_heap).
Proof. apply (largest_free_block_exact demo_heap [mkBlk 0x1018 220 true] demo_heap_inv). Defined.

(** C2. The integrity check accepts every heap its clients can bring about:
    after any legal history [multi_heap_check] returns true. *)
Theorem heap_check_passes start_ptr size m h cs :
  0 < start_ptr -> 0 <= size -> start_ptr + size + 8 < 2 ^ 31 ->
  multi_heap_register_impl start_ptr size m = Some h -> legal_run cs h [] = true ->
  exists rets h' live', hrun cs h [] = Ok (rets, h', live') /\ multi_heap_check h' = Ok true.
Proof.
  intros H1 H2 H3 E Hl. destruct (register_held start_ptr size m h H1 H2 H3 E) as (l & H).
  destruct (hrun_held cs h [] l [] H Hl) as (rets & h' & live' & l' & us' & E' & H').
  exists rets, h', live'. split; [done|]. exact (check_run (hd_inv _ _ _ _ H')).
Qed.

Lemma heap_check_passes_witness : legal_run demo_history demo_heap [] = true /\
  exists rets h' live', hrun demo_history demo_heap [] = Ok (rets, h', live') /\ multi_heap_check h' = Ok true.
Proof.
  split; [by vm_compute|].
  apply (heap_check_passes 0x1000 256 ∅ demo_heap demo_history); [lia|lia|lia|by vm_compute|by vm_compute].
Defined.

(** C8. [realloc] of an allocated block to [size] bytes (no size near [2^32])
    replaces this block alone: on success the block returned has room for [size]
    bytes and starts with the old contents up to the smaller size, and a size
    that fits is served in place; on failure ([NULL]) the block and its contents
    are still there.  The other blocks and their data do not change. *)
Theorem realloc_correct h l b size : heap_inv h l -> b ∈ l -> b_free b = false -> 0 < size <= 2 ^ 32 - 4 ->
  exists ret h' l' b' rest, multi_heap_realloc_impl h (b_addr b + 4) size = Ok (ret, h') /\
    heap_inv h' l' /\ used l ≡ₚ b :: rest /\ used l' ≡ₚ b' :: rest /\
    ((ret = 0 /\ b_size b < size /\ b_addr b' = b_addr b /\ b_size b <= b_size b') \/ (ret = b_addr b' + 4 /\ size <= b_size b')) /\
    (size <= b_size b -> ret = b_addr b + 4) /\
    (forall i, 0 <= i < b_size b -> ret = 0 \/ i < size ->
       load8 (heap_mem h') (b_addr b' + 4 + i) = load8 (heap_mem h) (b_addr b + 4 + i)) /\
    (forall c x, c ∈ rest -> b_addr c + 4 <= x < b_end c -> load8 (heap_mem h') x = load8 (heap_mem h) x).
Proof.
  intros I Hb Fb Hs. assert (Hu : b ∈ used l) by (by apply elem_of_used).
  destruct (realloc_blk h l b size I Hu Hs) as (ret & h' & l' & b' & rest & E & U & [S1 S2 (_ & _ & S3) S4 S5] & S6).
  exists ret, h', l', b', (used rest). by split_and!.
Qed.

(** A heap with one allocated block of 12 bytes. *)
Definition demo_heap2 : heap_t := match multi_heap_malloc_impl demo_heap 10 with Ok (_, h) => h | _ => demo_heap end.
Definition demo_blk : blk := mkBlk 0x1018 12 false.
Definition demo_blocks2 : list blk := [demo_blk; mkBlk 0x1028 204 true].

Lemma demo_heap2_inv : heap_inv demo_heap2 demo_blocks2.
Proof.
  destruct (malloc_run demo_heap [mkBlk 0x1018 220 true] 10) as [[E _]|(l1 & b & l2 & h' & El & _ & _ & _ & _ & _ & E & [S _ _ _])].
  - apply demo_heap_inv.
  - apply demo_heap_inv.
  - by vm_compute.
  - unfold is_u32. lia.
  - by vm_compute in E.
  - unfold demo_heap2. rewrite E. clear E. destruct l1 as [|c l1]; [|injection El as _ El; destruct l1; discriminate El]. injection El as <- <-. exact S.
Qed.

Lemma realloc_correct_witness : demo_blk ∈ demo_blocks2 /\
  exists ret h' l' b' rest, multi_heap_realloc_impl demo_heap2 (b_addr demo_blk + 4) 40 = Ok (ret, h') /\
    heap_inv h' l' /\ used demo_blocks2 ≡ₚ demo_blk :: rest /\ used l' ≡ₚ b' :: rest /\
    ((ret = 0 /\ b_size demo_blk < 40 /\ b_addr b' = b_addr demo_blk /\ b_size demo_blk <= b_size b') \/ (ret = b_addr b' + 4 /\ 40 <= b_size b')) /\
    (40 <= b_size demo_blk -> ret = b_addr demo_blk + 4) /\
    (forall i, 0 <= i < b_size demo_blk -> ret = 0 \/ i < 40 ->
       load8 (heap_mem h') (b_addr b' + 4 + i) = load8 (heap_mem demo_heap2) (b_addr demo_blk + 4 + i)) /\
    (forall c x, c ∈ rest -> b_addr c + 4 <= x < b_end c -> load8 (heap_mem h') x = load8 (heap_mem demo_heap2) x).
Proof.
  split; [left|]. apply (realloc_correct demo_heap2 demo_blocks2 demo_blk 40 demo_heap2_inv); [left|reflexivity|lia].
Defined.

(** [aligned_alloc] returns [NULL] and changes nothing, or a pointer that
    is a multiple of the alignment asked for, [size] bytes of which are in a new
    block, and [aligned_free] of this pointer brings the allocated blocks back to
    what they were. *)
Theorem aligned_alloc_roundtrip h l size al : heap_inv h l ->
  0 <= size -> 0 <= al -> size + al + 3 < 2 ^ 32 ->
  multi_heap_aligned_alloc_impl h size al = Ok (0, h) \/
  exists p h' l' b', multi_heap_aligned_alloc_impl h size al = Ok (p, h') /\ p <> 0 /\ p mod al = 0 /\
    heap_inv h' l' /\ used l' ≡ₚ b' :: used l /\ b_addr b' + 8 <= p /\ p + size <= b_end b' /\
    exists h'' l'', multi_heap_aligned_free_impl h' p = Ok h'' /\ heap_inv h'' l'' /\ used l'' ≡ₚ used l.
Proof.
  intros I Hs Ha Hov. destruct (aligned_block h l size al I Hs Ha Hov) as [?|(p & h' & l' & b' & E & Hp & Hal & _ & I' & U' & K & Fb & Hlo & Hhi & Hw)]; [by left|].
  right. exists p, h', l', b'. split_and!; try done; [lia|].
  destruct (used_in (hv_rep _ _ I') _ _ U') as (Hin & _ & Hu). pose proof (rep_block (hv_rep _ _ I') b' Hin) as (_ & _ & He & _ & _ & _ & Hb0).
  pose proof (hr_range _ _ (hv_rep _ _ I')). destruct (free_blk h' l' b' I' Hu) as (h'' & l'' & E'' & I'' & U'' & _).
  exists h'', l''. split; [|split; [done|]].
  - unfold multi_heap_aligned_free_impl. destruct (Z.eqb_spec p 0); [lia|]. rewrite Hw.
    replace (p - (p - (b_addr b' + 4))) with (b_addr b' + 4) by lia. by rewrite u32_small by (unfold is_u32, b_end in *; lia).
  - apply (Permutation_cons_inv (a := b')). by rewrite <- U'', U'.
Qed.

Lemma aligned_alloc_roundtrip_witness : 20 + 16 + 3 < 2 ^ 32 /\
  (multi_heap_aligned_alloc_impl demo_heap 20 16 = Ok (0, demo_heap) \/
  exists p h' l' b', multi_heap_aligned_alloc_impl demo_heap 20 16 = Ok (p, h') /\ p <> 0 /\ p mod 16 = 0 /\
    heap_inv h' l' /\ used l' ≡ₚ b' :: used [mkBlk 0x1018 220 true] /\ b_addr b' + 8 <= p /\ p + 20 <= b_end b' /\
    exists h'' l'', multi_heap_aligned_free_impl h' p = Ok h'' /\ heap_inv h'' l'' /\ used l'' ≡ₚ used [mkBlk 0x1018 220 true]).
Proof. split; [lia|]. apply (aligned_alloc_roundtrip demo_heap [mkBlk 0x1018 220 true] 20 16 demo_heap_inv); lia. Defined.


