(* ===== verification/MemoryLayout.v ===== *)
(** * Memory layout ([components/soc/src/memory_layout_utils.c])

    The memory of the chip is a table of regions; parts of it are reserved, for the
    program and for the ROM.  [soc_get_available_memory_regions] cuts the reserved
    parts out, and the rest becomes heaps ([HeapCaps]).

    The tables, and the addresses that the linker script sets, are [SocMemory].  The
    chip is the ESP32: its buses, the tests of a pointer and the alias of D/IRAM, which
    the loading of images uses too, come first. *)
From stdpp Require Import sorting.
From S2P Require Import Prelude.

(** ** Addresses ([soc.h], [soc_memory_layout.h]) *)

Definition SOC_DROM_LOW := 0x3F400000.
Definition SOC_DROM_HIGH := 0x3F800000.
Definition SOC_DRAM_LOW := 0x3FFAE000.
Definition SOC_DRAM_HIGH := 0x40000000.
Definition SOC_IROM_LOW := 0x400D0000.
Definition SOC_IROM_HIGH := 0x40400000.
Definition SOC_IRAM_LOW := 0x40080000.
Definition SOC_IRAM_HIGH := 0x400A0000.
Definition SOC_RTC_IRAM_LOW := 0x400C0000.
Definition SOC_RTC_IRAM_HIGH := 0x400C2000.
Definition SOC_RTC_DRAM_LOW := 0x3FF80000.
Definition SOC_RTC_DRAM_HIGH := 0x3FF82000.
Definition SOC_RTC_DATA_LOW := 0x50000000.
Definition SOC_RTC_DATA_HIGH := 0x50002000.
Definition SOC_DIRAM_IRAM_LOW := 0x400A0000.
Definition SOC_DIRAM_IRAM_HIGH := 0x400C0000.
Definition SOC_DIRAM_DRAM_LOW := 0x3FFE0000.
Definition SOC_DIRAM_DRAM_HIGH := 0x40000000.

Definition addr_in (a low high : Z) : bool := (low <=? a) && (a <? high).
Definition esp_ptr_in_dram (a : Z) : bool := addr_in a SOC_DRAM_LOW SOC_DRAM_HIGH.
Definition esp_ptr_in_iram (a : Z) : bool := addr_in a SOC_IRAM_LOW SOC_IRAM_HIGH.
Definition esp_ptr_in_diram_dram (a : Z) : bool := addr_in a SOC_DIRAM_DRAM_LOW SOC_DIRAM_DRAM_HIGH.
Definition esp_ptr_in_diram_iram (a : Z) : bool := addr_in a SOC_DIRAM_IRAM_LOW SOC_DIRAM_IRAM_HIGH.
Definition esp_ptr_in_rtc_iram_fast (a : Z) : bool := addr_in a SOC_RTC_IRAM_LOW SOC_RTC_IRAM_HIGH.
Definition esp_ptr_in_rtc_dram_fast (a : Z) : bool := addr_in a SOC_RTC_DRAM_LOW SOC_RTC_DRAM_HIGH.
Definition esp_ptr_in_rtc_slow (a : Z) : bool := addr_in a SOC_RTC_DATA_LOW SOC_RTC_DATA_HIGH.
(** The D/IRAM of the ESP32 is inverted. *)
Definition esp_ptr_diram_dram_to_iram (a : Z) : Z := SOC_DIRAM_IRAM_LOW + (SOC_DIRAM_DRAM_HIGH - a) - 4.
Definition esp_ptr_diram_iram_to_dram (a : Z) : Z := SOC_DIRAM_DRAM_LOW + (SOC_DIRAM_IRAM_HIGH - a) - 4.

(** ** The tables *)
Record soc_memory_region_t := mkRegion { r_start : Z; r_size : Z; r_type : Z; iram_address : Z }.
#[export] Instance rebuild_region : Rebuild soc_memory_region_t := fun r => mkRegion (r_start r) (r_size r) (r_type r) (iram_address r).
Record soc_reserved_region_t := mkReserved { v_start : Z; v_end : Z }.
Record soc_memory_type_desc_t := mkType { type_name : string; type_caps : list Z; aliased_iram : bool; startup_stack : bool }.

(** [reserved_memory_regions]: the entries between the linker symbols
    [soc_reserved_memory_region_start] and [_end]. *)
Class SocMemory := {
  soc_memory_types : list soc_memory_type_desc_t;
  soc_memory_regions : list soc_memory_region_t;
  reserved_memory_regions : list soc_reserved_region_t;
  _data_start : Z; _heap_start : Z; _iram_start : Z; _iram_end : Z
}.
Definition EXTRA_RESERVED_REGIONS := 2.

(** ** The code *)
Section code.
Context `{SocMemory}.

Definition s_get_num_reserved_regions : Z := lenZ reserved_memory_regions + EXTRA_RESERVED_REGIONS.
Definition soc_get_available_memory_region_max_count : Z := lenZ soc_memory_regions + s_get_num_reserved_regions.
End code.

Definition s_compare_reserved_regions (a b : soc_reserved_region_t) : Z := s32 (v_start a - v_start b).
(** [qsort] with this comparison. *)
Definition not_behind (a b : soc_reserved_region_t) : Prop := s_compare_reserved_regions a b <= 0.
#[export] Instance not_behind_dec : RelDecision not_behind.
Proof. intros a b. unfold not_behind. apply _. Defined.
Definition sort_regions (l : list soc_reserved_region_t) : list soc_reserved_region_t := merge_sort not_behind l.

(** The checks over the sorted regions; the next one is not yet rounded. *)
Fixpoint check_reserved (l : list soc_reserved_region_t) : outcome (list soc_reserved_region_t) :=
  match l with
  | [] => Ok []
  | v :: l =>
      let v := mkReserved (align_down 4 (v_start v)) (align_up 4 (v_end v)) in
      cassert (v_start v <? v_end v);;
      match l with
      | [] => Ok tt
      | next :: _ => cassert (v_start v <? v_start next);; if v_start next <? v_end v then Abort else Ok tt
      end;;
      l ← check_reserved l;
      Ok (v :: l)
  end.
Definition s_prepare_reserved_regions `{SocMemory} : outcome (list soc_reserved_region_t) :=
  check_reserved (sort_regions (mkReserved _data_start _heap_start :: mkReserved _iram_start _iram_end :: reserved_memory_regions)).

(** The loop over the reserved regions for a region, from [in_start] to [in_end]:
    what is left of it, whether that is copied, and the reserved region behind which
    a second part is left.  The size follows the two ends. *)
Fixpoint trim_region (reserved : list soc_reserved_region_t) (in_ : soc_memory_region_t) (in_start in_end : Z)
    : soc_memory_region_t * bool * option soc_reserved_region_t :=
  match reserved with
  | [] => (in_, true, None)
  | v :: reserved =>
      if v_end v <=? in_start then trim_region reserved in_ in_start in_end
      else if in_end <=? v_start v then (in_, true, None)
      else if (v_start v <=? in_start) && (in_end <=? v_end v) then (in_, false, None)
      else if (in_start <? v_start v) && (v_end v <? in_end) then
        (in_ <| r_size := v_start v - in_start |>, true, Some v)
      else if v_start v <=? in_start then
        trim_region reserved (in_ <| r_start := v_end v |> <| r_size := in_end - v_end v |>) (v_end v) in_end
      else trim_region reserved (in_ <| r_size := v_start v - in_start |>) in_start (v_start v)
  end.

(** The loop over the regions; a region with a second part is taken again. *)
Fixpoint build_regions (fuel : nat) (reserved : list soc_reserved_region_t) (in_regions : list soc_memory_region_t) : outcome (list soc_memory_region_t) :=
  match in_regions with
  | [] => Ok []
  | r :: rest =>
      match fuel with
      | O => OutOfFuel
      | S fuel =>
          let '(in_, copy_in_to_out, hole) := trim_region reserved r (r_start r) (r_start r + r_size r) in
          out ← build_regions fuel reserved
                  (match hole with
                   | Some v => (r <| r_size := r_size r - (v_end v - r_start r) |> <| r_start := v_end v |>) :: rest
                   | None => rest
                   end);
          Ok (if copy_in_to_out : bool then in_ :: out else out)
      end
  end.
Definition soc_get_available_memory_regions `{SocMemory} : outcome (list soc_memory_region_t) :=
  reserved ← s_prepare_reserved_regions;
  build_regions (length soc_memory_regions * S (length reserved)) reserved soc_memory_regions.

(** ** What is left *)
Definition in_region (r : soc_memory_region_t) (a : Z) : Prop := r_start r <= a < r_start r + r_size r.
Definition in_reserved (v : soc_reserved_region_t) (a : Z) : Prop := v_start v <= a < v_end v.
Definition unreserved (vs : list soc_reserved_region_t) (a : Z) : Prop := forall v, v ∈ vs -> ~ in_reserved v a.
(** Each ends in front of the next. *)
Fixpoint ordered (vs : list soc_reserved_region_t) : Prop :=
  match vs with
  | [] => True
  | v :: vs => v_start v < v_end v /\ Forall (fun w => v_end v <= v_start w) vs /\ ordered vs
  end.
Fixpoint in_order (rs : list soc_memory_region_t) : Prop :=
  match rs with
  | [] => True
  | r :: rs => 0 < r_size r /\ Forall (fun q => r_start r + r_size r <= r_start q) rs /\ in_order rs
  end.
(** What a region is besides its place. *)
Definition same_kind (r q : soc_memory_region_t) : Prop := r_type r = r_type q /\ iram_address r = iram_address q.

Lemma unreserved_cons v vs a : unreserved (v :: vs) a <-> ~ in_reserved v a /\ unreserved vs a.
Proof. unfold unreserved. setoid_rewrite elem_of_cons. split; [naive_solver|]. intros [? ?] w [->|?]; auto. Qed.
Lemma unreserved_behind vs a e : Forall (fun w => e <= v_start w) vs -> a < e -> unreserved vs a.
Proof. intros F Ha w Hw [? ?]. rewrite Forall_forall in F. specialize (F w Hw). lia. Qed.

Lemma ordered_elem vs v : ordered vs -> v ∈ vs -> v_start v < v_end v.
Proof. induction vs as [|u vs IH]; intros O Hv; [by apply elem_of_nil in Hv|]. destruct O as (? & _ & O). apply elem_of_cons in Hv as [->|Hv]; auto. Qed.

(** The outcome of the trimming of [in_]. *)
Definition trimmed (vs : list soc_reserved_region_t) (in_ : soc_memory_region_t) (e : Z) (res : soc_memory_region_t * bool * option soc_reserved_region_t) : Prop :=
  let '(r, copy, hole) := res in
  if copy then
    same_kind r in_ /\ 0 < r_size r /\ r_start in_ <= r_start r /\ r_start r + r_size r <= e /\
    match hole with
    | None => forall a, in_region in_ a /\ unreserved vs a <-> in_region r a
    | Some v => v ∈ vs /\ r_start r + r_size r = v_start v /\ r_start in_ < v_start v /\ v_end v < e /\
        forall a, in_region in_ a /\ unreserved vs a <-> in_region r a \/ (v_end v <= a < e /\ unreserved vs a)
    end
  else hole = None /\ forall a, in_region in_ a -> ~ unreserved vs a.

Lemma trim_none vs in_ s e : s < e -> ordered vs -> Forall (fun w => e <= v_start w) vs -> trim_region vs in_ s e = (in_, true, None).
Proof.
  intros Hs O F. destruct vs as [|v vs]; [done|]. destruct O as [Hv _]. apply Forall_cons in F as [Hv2 _]. cbn [trim_region].
  rewrite (proj2 (Z.leb_gt _ _)), (proj2 (Z.leb_le _ _)) by lia. done.
Qed.

(** A reserved region that meets at most the start of a region. *)
Lemma trimmed_start v vs in_ in2 e res : trimmed vs in2 e res -> same_kind in2 in_ -> r_start in_ <= r_start in2 ->
  (forall a, in_region in_ a /\ ~ in_reserved v a <-> in_region in2 a) -> v_end v <= r_start in2 -> Forall (fun w => v_end v <= v_start w) vs ->
  v_start v < v_end v -> ordered vs -> trimmed (v :: vs) in_ e res.
Proof.
  intros T [K1 K2] Hs E Hv F Hv0 O. destruct res as [[r copy] hole]. unfold trimmed in *. destruct copy.
  - destruct T as ([K3 K4] & Hr & Hst & He & T). split; [split; congruence|]. split; [done|]. split; [lia|]. split; [done|]. destruct hole as [w|].
    + destruct T as (Hw & T1 & T2 & T3 & T4). rewrite elem_of_cons. split; [by right|]. split; [done|]. split; [lia|]. split; [done|]. intros a.
      assert (Hb : v_end v <= v_start w < v_end w).
      { rewrite Forall_forall in F. specialize (F w Hw). by pose proof (ordered_elem vs w O Hw). }
      rewrite unreserved_cons. specialize (E a). specialize (T4 a). unfold in_region, in_reserved in *. split; [tauto|].
      assert (v_end w <= a -> ~ (v_start v <= a < v_end v)) by lia. intros [Ha|[Ha Hu]]; tauto.
    + intros a. rewrite unreserved_cons. specialize (E a). specialize (T a). tauto.
  - destruct T as [-> T]. split; [done|]. intros a Ha. rewrite unreserved_cons. specialize (E a). specialize (T a). tauto.
Qed.

Lemma trim_region_spec vs : forall in_, ordered vs -> 0 < r_size in_ ->
  trimmed vs in_ (r_start in_ + r_size in_) (trim_region vs in_ (r_start in_) (r_start in_ + r_size in_)).
Proof.
  induction vs as [|v vs IH]; intros in_ O Hr.
  { unfold trimmed. cbn. split_and!; try lia; [done..|]. intros a. split; [tauto|]. intros Ha. split; [done|]. by intros w ?%elem_of_nil. }
  destruct O as (Hv & F & O). cbn [trim_region]. destruct (Z.leb_spec (v_end v) (r_start in_)) as [C1|C1].
  { apply (trimmed_start v vs in_ in_); [by apply IH|done|lia| |lia|done|done|done]. intros a. unfold in_region, in_reserved. lia. }
  assert (Fb : forall e a, e <= v_end v -> a < e -> unreserved vs a).
  { intros e a He Ha. apply (unreserved_behind vs a e); [|done]. eapply Forall_impl; [exact F|]. intros w Hw. cbn in Hw. lia. }
  destruct (Z.leb_spec (r_start in_ + r_size in_) (v_start v)) as [C2|C2].
  { unfold trimmed. split_and!; try lia; [done..|]. intros a. rewrite unreserved_cons. unfold in_region, in_reserved. split; [tauto|].
    intros Ha. split_and!; [lia..|]. apply (Fb (r_start in_ + r_size in_)); lia. }
  destruct (Z.leb_spec (v_start v) (r_start in_)) as [C3|C3]; cbn [andb].
  - destruct (Z.leb_spec (r_start in_ + r_size in_) (v_end v)) as [C4|C4].
    { unfold trimmed. split; [done|]. intros a Ha. rewrite unreserved_cons. unfold in_region, in_reserved in *. lia. }
    rewrite (proj2 (Z.ltb_ge _ _)) by lia. cbn [andb]. set (in2 := in_ <| r_start := _ |> <| r_size := _ |>).
    assert (E : r_start in2 + r_size in2 = r_start in_ + r_size in_) by (cbn; lia). specialize (IH in2 O ltac:(cbn; lia)). rewrite E in IH.
    apply (trimmed_start v vs in_ in2); [exact IH|done|cbn; lia| |cbn; lia|done|done|done]. intros a. unfold in_region, in_reserved. cbn. lia.
  - rewrite (proj2 (Z.ltb_lt _ _)) by lia. cbn [andb]. destruct (Z.ltb_spec (v_end v) (r_start in_ + r_size in_)) as [C4|C4].
    + unfold trimmed. cbn. split_and!; try lia; [done|by left|]. intros a. rewrite unreserved_cons. unfold in_region, in_reserved. cbn. split.
      * intros (Ha & Hv2 & Hu). destruct (decide (a < v_start v)); [left; lia|]. right. split_and!; [lia..| |done]. lia.
      * intros [Ha|(Ha & _ & Hu)]; [|split_and!; [lia..|done]]. split_and!; [lia..|]. apply (Fb (v_end v)); lia.
    + rewrite trim_none; [|lia|done|].
      * unfold trimmed. cbn. split_and!; try lia; [done|]. intros a. rewrite unreserved_cons. unfold in_region, in_reserved. cbn. split; [lia|].
        intros Ha. split_and!; [lia..|]. apply (Fb (v_end v)); lia.
      * eapply Forall_impl; [exact F|]. intros w Hw. cbn in Hw. lia.
Qed.

(** ** The regions that can be built *)

(** The reserved regions inside of a region: each cuts it in two. *)
Definition inside (r : soc_memory_region_t) (v : soc_reserved_region_t) : Prop := r_start r < v_start v /\ v_end v < r_start r + r_size r.
#[local] Instance inside_dec r v : Decision (inside r v).
Proof. unfold inside. apply _. Defined.
Definition parts (vs : list soc_reserved_region_t) (r : soc_memory_region_t) : nat := S (length (filter (inside r) vs)).

Lemma filter_length_less {A} (P Q : A -> Prop) `{forall x, Decision (P x)} `{forall x, Decision (Q x)} (l : list A) x :
  (forall y, P y -> Q y) -> x ∈ l -> Q x -> ~ P x -> (length (filter P l) < length (filter Q l))%nat.
Proof.
  intros HPQ Hx HQ HP. apply list_elem_of_split in Hx as (l1 & l2 & ->). rewrite !filter_app, (filter_cons_True Q), (filter_cons_False P) by done.
  rewrite !length_app. simpl. assert (L : forall k, (length (filter P k) <= length (filter Q k))%nat).
  { induction k as [|y k IH]; [done|]. rewrite !filter_cons. repeat case_decide; simpl; try lia. by destruct H2; apply HPQ. }
  pose proof (L l1). pose proof (L l2). lia.
Qed.
Lemma parts_behind vs r r2 v : ordered vs -> v ∈ vs -> inside r v -> r_start r2 = v_end v -> r_start r2 + r_size r2 = r_start r + r_size r ->
  (parts vs r2 < parts vs r)%nat.
Proof.
  intros O Hv Hi E1 E2. pose proof (ordered_elem vs v O Hv). unfold parts. apply -> Nat.succ_lt_mono.
  apply (filter_length_less _ _ vs v); [intros w|done|done|]; unfold inside in *; lia.
Qed.

(** The regions and the reserved ones: the places of a type. *)
Definition places (rs : list soc_memory_region_t) (ty a : Z) : Prop := exists r, r ∈ rs /\ r_type r = ty /\ in_region r a.
Lemma places_cons r rs ty a : places (r :: rs) ty a <-> (r_type r = ty /\ in_region r a) \/ places rs ty a.
Proof. unfold places. setoid_rewrite elem_of_cons. naive_solver. Qed.

Definition built (vs : list soc_reserved_region_t) (rs out : list soc_memory_region_t) : Prop :=
  in_order out /\ (length out <= sum_list_with (parts vs) rs)%nat /\
  (forall b, Forall (fun r => b <= r_start r) rs -> Forall (fun r => b <= r_start r) out) /\
  forall ty a, places out ty a <-> places rs ty a /\ unreserved vs a.

Lemma build_regions_spec vs fuel : forall rs, ordered vs -> in_order rs -> (sum_list_with (parts vs) rs <= fuel)%nat ->
  exists out, build_regions fuel vs rs = Ok out /\ built vs rs out.
Proof.
  induction fuel as [|fuel IH]; intros rs O I Hf; (destruct rs as [|r rs];
    [exists []; split; [done|]; split; [done|]; split; [done|]; split; [done|]; intros ty a; unfold places; setoid_rewrite elem_of_nil; naive_solver|]);
    cbn [sum_list_with] in Hf; [unfold parts in Hf; lia|].
  destruct I as (Hr & F & I). assert (Hp1 : (1 <= parts vs r)%nat) by (unfold parts; lia). cbn [build_regions]. pose proof (trim_region_spec vs r O Hr) as T.
  destruct (trim_region vs r (r_start r) (r_start r + r_size r)) as [[in_ copy] hole]. unfold trimmed in T. destruct copy.
  - destruct T as ([K _] & Hi & Hs & He & T). destruct hole as [v|].
    + destruct T as (Hv & T1 & T2 & T3 & T4). set (r2 := r <| r_size := _ |> <| r_start := _ |>).
      assert (L2 : r_start r2 + r_size r2 = r_start r + r_size r) by (cbn; lia).
      pose proof (ordered_elem vs v O Hv) as Hve. pose proof (parts_behind vs r r2 v O Hv (conj T2 T3) eq_refl L2) as P.
      destruct (IH (r2 :: rs) O) as (out & -> & B1 & B2 & B3 & B4); [split; [cbn; lia|]; by rewrite L2|cbn [sum_list_with]; lia|].
      ostep. exists (in_ :: out). split; [done|]. cbn [sum_list_with] in B2. split_and!.
      * split; [done|]. split; [|done]. apply B3. constructor; [cbn; lia|]. eapply Forall_impl; [exact F|]. intros q Hq. cbn in Hq. lia.
      * cbn [sum_list_with length]. lia.
      * intros b [Hb Fb]%Forall_cons. constructor; [lia|]. apply B3. constructor; [cbn; lia|done].
      * intros ty a. rewrite !places_cons, B4, places_cons, K. specialize (T4 a). change (r_type r2) with (r_type r).
        assert (E2 : in_region r2 a <-> v_end v <= a < r_start r + r_size r) by (unfold in_region; rewrite L2; done). tauto.
    + destruct (IH rs O I) as (out & -> & B1 & B2 & B3 & B4); [lia|]. ostep. exists (in_ :: out). split; [done|]. split_and!.
      * split; [done|]. split; [|done]. apply B3. eapply Forall_impl; [exact F|]. intros q Hq. cbn in Hq. lia.
      * cbn [sum_list_with length]. unfold parts at 1. lia.
      * intros b [Hb Fb]%Forall_cons. constructor; [lia|]. by apply B3.
      * intros ty a. rewrite !places_cons, B4, K. specialize (T a). tauto.
  - destruct T as [-> T]. destruct (IH rs O I) as (out & -> & B1 & B2 & B3 & B4); [lia|]. ostep. exists out. split; [done|]. split_and!; [done| | |].
    + cbn [sum_list_with]. lia.
    + intros b [Hb Fb]%Forall_cons. by apply B3.
    + intros ty a. rewrite places_cons, B4. specialize (T a). tauto.
Qed.

Lemma parts_length vs rs : (sum_list_with (parts vs) rs <= length rs * S (length vs))%nat.
Proof. induction rs as [|r rs IH]; [done|]. cbn [sum_list_with length]. unfold parts at 1. pose proof (length_filter (inside r) vs). lia. Qed.

(** A reserved region is inside of one region at most. *)
Lemma inside_once rs v : in_order rs -> v_start v < v_end v ->
  (sum_list_with (fun r => length (filter (inside r) [v])) rs <= 1)%nat.
Proof.
  intros I Hv. induction rs as [|r rs IH]; [simpl; lia|]. destruct I as (Hr & F & I). specialize (IH I). cbn [sum_list_with].
  rewrite filter_cons, filter_nil. case_decide as Hi; [|simpl; lia]. cbn [length].
  assert (E : sum_list_with (fun r => length (filter (inside r) [v])) rs = 0%nat); [|lia].
  clear IH I. induction F as [|q rs Hq F IH]; [done|]. cbn [sum_list_with]. rewrite IH.
  rewrite filter_cons, filter_nil. case_decide as Hj; [|done]. unfold inside in *. lia.
Qed.
Lemma parts_once vs rs : ordered vs -> in_order rs -> (sum_list_with (parts vs) rs <= length rs + length vs)%nat.
Proof.
  intros O I. induction vs as [|v vs IH].
  { clear I. induction rs as [|r rs IH]; [done|]. cbn [sum_list_with length] in *. unfold parts at 1. simpl. lia. }
  destruct O as (Hv & _ & O). specialize (IH O). pose proof (inside_once rs v I Hv) as Hi.
  assert (E : sum_list_with (parts (v :: vs)) rs = (sum_list_with (fun r => length (filter (inside r) [v])) rs + sum_list_with (parts vs) rs)%nat).
  { clear. induction rs as [|r rs IH]; [done|]. cbn [sum_list_with]. rewrite IH. unfold parts at 1 3.
    change (v :: vs) with ([v] ++ vs). rewrite filter_app, length_app. lia. }
  cbn [length]. lia.
Qed.

(** ** The reserved regions *)

(** To word boundaries. *)
Definition rounded (v : soc_reserved_region_t) : soc_reserved_region_t := mkReserved (align_down 4 (v_start v)) (align_up 4 (v_end v)).
Definition apart (v w : soc_reserved_region_t) : Prop := v_end (rounded v) <= v_start (rounded w) \/ v_end (rounded w) <= v_start (rounded v).
Fixpoint all_apart (l : list soc_reserved_region_t) : Prop := match l with [] => True | v :: l => Forall (apart v) l /\ all_apart l end.
Definition in_range (v : soc_reserved_region_t) : Prop := 0 <= v_start v < v_end v /\ v_end v <= 2 ^ 31 - 4.

Lemma all_apart_perm l k : l ≡ₚ k -> all_apart l -> all_apart k.
Proof.
  induction 1 as [|v l k E IH|v w l|l k m _ IH1 _ IH2]; cbn; [done|..|by auto].
  - intros [F A]. split; [by rewrite <- E|by apply IH].
  - intros (F1 & F2 & A). apply Forall_cons in F1 as [F0 F1]. split; [constructor; [unfold apart in *; tauto|done]|done].
Qed.
Lemma rounded_bounds v : in_range v -> 0 <= v_start (rounded v) <= v_start v /\ v_end v <= v_end (rounded v) /\ v_start v < v_start (rounded v) + 4 /\ v_end (rounded v) mod 4 = 0.
Proof.
  intros [H1 H2]. unfold rounded. cbn. rewrite align_up_4 by lia. change (align_down 4 (v_start v)) with (align_down (2 ^ 2) (v_start v)).
  rewrite align_down_pow2 by lia. change (2 ^ 2) with 4. Z.to_euclidean_division_equations. lia.
Qed.

#[local] Instance not_behind_total : Total not_behind.
Proof.
  intros a b. unfold not_behind, s_compare_reserved_regions. destruct (decide (s32 (v_start a - v_start b) <= 0)) as [|Hn]; [by left|]. right.
  unfold s32, u32 in *. set (d := v_start a - v_start b) in *. replace (v_start b - v_start a) with (- d) by (unfold d; lia).
  destruct (Z.ltb_spec (d mod 2 ^ 32) (2 ^ 31)); [|pose proof (Z.mod_pos_bound d (2 ^ 32)); lia].
  destruct (decide (d mod 2 ^ 32 = 0)) as [E|E]; [rewrite Z.mod_opp_l_z by done; done|]. rewrite Z.mod_opp_l_nz by done.
  destruct (Z.ltb_spec (2 ^ 32 - d mod 2 ^ 32) (2 ^ 31)); lia.
Qed.

Lemma check_reserved_spec l : Sorted not_behind l -> all_apart l -> Forall in_range l ->
  check_reserved l = Ok (map rounded l) /\ ordered (map rounded l).
Proof.
  induction l as [|v l IH]; intros S A R; [done|]. apply Forall_cons in R as [Rv R]. destruct A as [F A].
  apply Sorted_inv in S as [S Hd]. destruct (IH S A R) as [E O]. pose proof (rounded_bounds v Rv) as Bv. destruct Rv as [Rv Rv2].
  cbn [check_reserved]. fold (rounded v). oassert ltac:(apply Z.ltb_lt; lia). destruct l as [|w l].
  { ostep. rewrite E. ostep. split; [done|]. split; [lia|]. by split. }
  apply HdRel_inv in Hd. apply Forall_cons in F as [Aw F]. apply Forall_cons in R as [Rw R]. pose proof (rounded_bounds w Rw) as Bw.
  unfold not_behind, s_compare_reserved_regions in Hd. destruct Rw as [Rw1 Rw2]. rewrite s32_id in Hd by lia.
  assert (Le : v_end (rounded v) <= v_start (rounded w)) by (destruct Aw; lia).
  oassert ltac:(apply Z.ltb_lt; lia). rewrite (proj2 (Z.ltb_ge _ _)) by lia. ostep. rewrite E. ostep. split; [done|].
  cbn [map ordered] in *. destruct O as (Ow & Fw & O). split; [lia|]. split; [|done]. constructor; [done|].
  eapply Forall_impl; [exact Fw|]. intros u Hu. cbv beta in Hu. lia.
Qed.

Definition reserved_regions `{SocMemory} : list soc_reserved_region_t :=
  mkReserved _data_start _heap_start :: mkReserved _iram_start _iram_end :: reserved_memory_regions.

Lemma available_memory_run `{SocMemory} : in_order soc_memory_regions -> Forall in_range reserved_regions -> all_apart reserved_regions ->
  exists out, soc_get_available_memory_regions = Ok out /\ in_order out /\ lenZ out <= soc_get_available_memory_region_max_count /\
    forall ty a, places out ty a <-> places soc_memory_regions ty a /\ unreserved (map rounded reserved_regions) a.
Proof.
  intros I R A. unfold soc_get_available_memory_regions, s_prepare_reserved_regions. fold reserved_regions.
  assert (P : sort_regions reserved_regions ≡ₚ reserved_regions) by apply merge_sort_Permutation.
  destruct (check_reserved_spec (sort_regions reserved_regions)) as [E O].
  { apply Sorted_merge_sort. apply _. } { by eapply all_apart_perm. } { by rewrite P. }
  rewrite E. ostep. destruct (build_regions_spec _ (length soc_memory_regions * S (length (map rounded (sort_regions reserved_regions)))) soc_memory_regions O I) as (out & -> & B1 & B2 & _ & B4).
  { apply parts_length. }
  exists out. split; [done|]. split; [done|]. split.
  - pose proof (parts_once _ _ O I) as L. rewrite length_map in L. apply Permutation_length in P. unfold soc_get_available_memory_region_max_count, s_get_num_reserved_regions, EXTRA_RESERVED_REGIONS, lenZ.
    unfold reserved_regions in P at 2. simpl in P. lia.
  - intros ty a. rewrite B4. unfold unreserved. by setoid_rewrite (Permutation_map rounded P).
Qed.

(** C7. The available memory is exactly the memory that is not reserved: each type of
    memory is at the same places as in the table, less the words that a reserved
    region touches; the regions are in order, apart and not empty, and there are at
    most [soc_get_available_memory_region_max_count] of them. *)
Theorem available_memory_exact `{SocMemory} : in_order soc_memory_regions -> Forall in_range reserved_regions -> all_apart reserved_regions ->
  exists out, soc_get_available_memory_regions = Ok out /\ in_order out /\ lenZ out <= soc_get_available_memory_region_max_count /\
    forall ty a, places out ty a <-> places soc_memory_regions ty a /\ unreserved (map rounded reserved_regions) a.
Proof. exact available_memory_run. Qed.
