(* ===== verification/HeapCaps.v ===== *)
(** * Heaps by capability ([components/heap/heap_caps.c], [heap_caps_init.c])

    The available memory ([MemoryLayout]) becomes a list of heaps ([Heap]), each with
    the capabilities of its type of memory; an allocation takes the first heap, by
    priority, that has all the capabilities asked for.

    A heap has the memory of its region as its [heap_mem].  Memory of type D/IRAM is
    seen at two addresses, in opposite order; [physical] is the one in DRAM.  The
    configuration is the one of the ESP32 without poisoning; [struct heap_t] of
    [heap_private.h] is [caps_heap_t] here. *)
From S2P Require Import Prelude EspFlash Mem Heap MemoryLayout.

Definition MALLOC_CAP_EXEC := 2 ^ 0.
Definition MALLOC_CAP_32BIT := 2 ^ 1.
Definition MALLOC_CAP_8BIT := 2 ^ 2.
Definition MALLOC_CAP_DMA := 2 ^ 3.
Definition MALLOC_CAP_SPIRAM := 2 ^ 10.
Definition MALLOC_CAP_INTERNAL := 2 ^ 11.
Definition MALLOC_CAP_DEFAULT := 2 ^ 12.
Definition MALLOC_CAP_INVALID := 2 ^ 31.

Definition SOC_MAX_CONTIGUOUS_RAM_SIZE := 0x400000.
Definition HEAP_SIZE_MAX := SOC_MAX_CONTIGUOUS_RAM_SIZE.
Definition SOC_MEMORY_TYPE_NO_PRIOS := 3%nat.

(** ** D/IRAM *)

(** Where a byte is: the words of the alias are in opposite order. *)
Definition physical (a : Z) : Z :=
  if esp_ptr_in_diram_iram a then esp_ptr_diram_iram_to_dram (align_down 4 a) + a mod 4 else a.

(** ** The heaps *)
Record caps_heap_t := mkCapsHeap { hp_caps : list Z; hp_start : Z; hp_end : Z; hp_heap : option heap_t }.
#[export] Instance rebuild_caps_heap : Rebuild caps_heap_t := fun e => mkCapsHeap (hp_caps e) (hp_start e) (hp_end e) (hp_heap e).
(** [sizeof(heap_t)] of [heap_private.h]. *)
Definition sizeof_caps_heap_t := 36.
(** [registered_heaps] and [malloc_alwaysinternal_limit]. *)
Record caps_state := mkCaps { registered_heaps : list caps_heap_t; malloc_alwaysinternal_limit : Z }.
#[export] Instance rebuild_caps_state : Rebuild caps_state := fun s => mkCaps (registered_heaps s) (malloc_alwaysinternal_limit s).

Section caps.
Implicit Types (e : caps_heap_t) (h : heap_t) (hs : list caps_heap_t) (st : caps_state).

Definition get_all_caps e : Z := match hp_heap e with None => 0 | Some _ => foldr Z.lor 0 (hp_caps e) end.
Definition heap_caps_match e (caps : Z) : bool :=
  match hp_heap e with Some _ => Z.land (get_all_caps e) caps =? caps | None => false end.

Definition contains e (p : Z) : bool := match hp_heap e with Some _ => (hp_start e <=? p) && (p <? hp_end e) | None => false end.
Fixpoint find_containing_heap hs (p : Z) : option (nat * heap_t) :=
  match hs with
  | [] => None
  | e :: hs =>
      if contains e p then (fun h => (O, h)) <$> hp_heap e
      else '(i, h) ← find_containing_heap hs p; Some (S i, h)
  end.
Definition set_heap (i : nat) h hs : list caps_heap_t := alter (fun e => e <| hp_heap := Some h |>) i hs.
Definition set_heaps hs st : caps_state := st <| registered_heaps := hs |>.

(** ** Memory of the program *)

(** What is not in a heap reads as 0, and is not written in this model. *)
Definition load8_at hs (a : Z) : Z := match find_containing_heap hs (physical a) with Some (_, h) => load8 (heap_mem h) (physical a) | None => 0 end.
Definition load32_at hs (a : Z) : Z := match find_containing_heap hs (physical a) with Some (_, h) => load32 (heap_mem h) (physical a) | None => 0 end.
Definition store8_at (a v : Z) hs : outcome (list caps_heap_t) :=
  match find_containing_heap hs (physical a) with
  | Some (i, h) => Ok (set_heap i (h <| heap_mem := store8 (heap_mem h) (physical a) v |>) hs)
  | None => Fault
  end.
Fixpoint store_at (a : Z) (bytes : list Z) hs : outcome (list caps_heap_t) :=
  match bytes with
  | [] => Ok hs
  | v :: bytes => hs ← store8_at a v hs; store_at (a + 1) bytes hs
  end.
Fixpoint load_at hs (a : Z) (n : nat) : list Z := match n with O => [] | S n => load8_at hs a :: load_at hs (a + 1) n end.

(** ** Allocation *)
Definition dram_alloc_to_iram_addr (addr len : Z) h : outcome (Z * heap_t) :=
  let dstart := addr in
  let dend := dstart + len - 4 in
  cassert (esp_ptr_in_diram_dram dstart);;
  cassert (esp_ptr_in_diram_dram dend);;
  cassert (Z.land dstart 3 =? 0);;
  cassert (Z.land dend 3 =? 0);;
  let iptr := esp_ptr_diram_dram_to_iram dend in
  Ok (iptr + 4, h <| heap_mem := store32 (heap_mem h) (physical iptr) dstart |>).

(** The heaps of the list at a priority, for the request [caps]: the first for which
    [alloc] succeeds. *)
Fixpoint for_heaps (alloc : caps_heap_t -> heap_t -> outcome (Z * heap_t)) (caps : Z) (prio : nat) hs : outcome (Z * list caps_heap_t) :=
  match hs with
  | [] => Ok (0, [])
  | e :: hs =>
      let next e := '(ret, hs) ← for_heaps alloc caps prio hs; Ok (ret, e :: hs) in
      match hp_heap e with
      | None => next e
      | Some h =>
          if negb (Z.land (nth prio (hp_caps e) 0) caps =? 0) && (Z.land (get_all_caps e) caps =? caps) then
            '(ret, h) ← alloc e h;
            let e := e <| hp_heap := Some h |> in
            if ret =? 0 then next e else Ok (ret, e :: hs)
          else next e
      end
  end.
Fixpoint for_prios (alloc : caps_heap_t -> heap_t -> outcome (Z * heap_t)) (caps : Z) (n prio : nat) hs : outcome (Z * list caps_heap_t) :=
  match n with
  | O => Ok (0, hs)
  | S n => '(ret, hs) ← for_heaps alloc caps prio hs; if ret =? 0 then for_prios alloc caps n (S prio) hs else Ok (ret, hs)
  end.

(** The allocation of [heap_caps_malloc] from one heap. *)
Definition malloc_from (caps size : Z) e h : outcome (Z * heap_t) :=
  if negb (Z.land caps MALLOC_CAP_EXEC =? 0) && esp_ptr_in_diram_dram (hp_start e) then
    '(ret, h) ← multi_heap_malloc_impl h (size + 4);
    if ret =? 0 then Ok (0, h) else dram_alloc_to_iram_addr ret (size + 4) h
  else multi_heap_malloc_impl h size.

Definition heap_caps_malloc (size caps : Z) st : outcome (Z * caps_state) :=
  if HEAP_SIZE_MAX <? size then Ok (0, st)
  else
    let exec := negb (Z.land caps MALLOC_CAP_EXEC =? 0) in
    if exec && (negb (Z.land caps MALLOC_CAP_8BIT =? 0) || negb (Z.land caps MALLOC_CAP_DMA =? 0)) then Ok (0, st)
    else
      let caps := if exec then Z.lor caps MALLOC_CAP_32BIT else caps in
      let size := if negb (Z.land caps MALLOC_CAP_32BIT =? 0) then align_up 4 size else size in
      '(ret, hs) ← for_prios (malloc_from caps size) caps SOC_MEMORY_TYPE_NO_PRIOS O (registered_heaps st);
      Ok (ret, set_heaps hs st).

Definition heap_caps_free (ptr : Z) st : outcome caps_state :=
  if ptr =? 0 then Ok st
  else
    let hs := registered_heaps st in
    let ptr := if esp_ptr_in_diram_iram ptr then load32_at hs (ptr - 4) else ptr in
    match find_containing_heap hs ptr with
    | None => Abort
    | Some (i, h) => h ← multi_heap_free_impl h ptr; Ok (set_heaps (set_heap i h hs) st)
    end.

(** The second part of [heap_caps_realloc]: another block, and a copy; the old block
    is at [block], in the heap [i]. *)
Definition realloc_elsewhere (ptr block : Z) (i : nat) (size caps : Z) st : outcome (Z * caps_state) :=
  '(new_p, st) ← heap_caps_malloc size caps st;
  if new_p =? 0 then Ok (0, st)
  else
    match registered_heaps st !! i ≫= hp_heap with
    | None => Fault
    | Some h =>
        old_size ← multi_heap_get_allocated_size_impl h block;
        cassert (0 <? old_size);;
        hs ← store_at new_p (load_at (registered_heaps st) ptr (Z.to_nat (Z.min size old_size))) (registered_heaps st);
        st ← heap_caps_free ptr (set_heaps hs st);
        Ok (new_p, st)
    end.

Definition heap_caps_realloc (ptr size caps : Z) st : outcome (Z * caps_state) :=
  if ptr =? 0 then heap_caps_malloc size caps st
  else if size =? 0 then st ← heap_caps_free ptr st; Ok (0, st)
  else if HEAP_SIZE_MAX <? size then Ok (0, st)
  else
    let hs := registered_heaps st in
    let ptr_in_diram_case := esp_ptr_in_diram_iram ptr in
    let block := if ptr_in_diram_case then load32_at hs (ptr - 4) else ptr in
    match find_containing_heap hs block with
    | None => Abort
    | Some (i, h) =>
        let compatible_caps := match hs !! i with Some e => Z.land caps (get_all_caps e) =? caps | None => false end in
        '(r, st) ← (if compatible_caps && negb ptr_in_diram_case then
                      '(r, h) ← multi_heap_realloc_impl h ptr size; Ok (r, set_heaps (set_heap i h hs) st)
                    else Ok (0, st));
        if r =? 0 then realloc_elsewhere ptr block i size caps st else Ok (r, st)
    end.

(** [__builtin_mul_overflow]. *)
Definition mul_overflow (n size : Z) : bool := 2 ^ 32 <=? n * size.
Definition heap_caps_calloc (n size caps : Z) st : outcome (Z * caps_state) :=
  if mul_overflow n size then Ok (0, st)
  else
    '(result, st) ← heap_caps_malloc (n * size) caps st;
    if result =? 0 then Ok (0, st)
    else hs ← store_at result (repeat 0 (Z.to_nat (n * size))) (registered_heaps st); Ok (result, set_heaps hs st).

Definition heap_caps_aligned_alloc (alignment size caps : Z) st : outcome (Z * caps_state) :=
  if alignment =? 0 then Ok (0, st)
  else if negb (Z.land alignment (alignment - 1) =? 0) then Ok (0, st)
  else if HEAP_SIZE_MAX <? size then Ok (0, st)
  else
    let mask := Z.lor MALLOC_CAP_DEFAULT MALLOC_CAP_SPIRAM in
    if Z.land caps mask =? 0 then Ok (0, st)
    else
      let caps := Z.land caps mask in
      '(ret, hs) ← for_prios (fun _ h => multi_heap_aligned_alloc_impl h size alignment) caps SOC_MEMORY_TYPE_NO_PRIOS O (registered_heaps st);
      Ok (ret, set_heaps hs st).
Definition heap_caps_aligned_calloc (alignment n size caps : Z) st : outcome (Z * caps_state) :=
  if mul_overflow n size then Ok (0, st)
  else
    '(ptr, st) ← heap_caps_aligned_alloc alignment (n * size) caps st;
    if ptr =? 0 then Ok (0, st)
    else hs ← store_at ptr (repeat 0 (Z.to_nat (n * size))) (registered_heaps st); Ok (ptr, set_heaps hs st).
Definition heap_caps_aligned_free (ptr : Z) st : outcome caps_state :=
  if ptr =? 0 then Ok st
  else
    match find_containing_heap (registered_heaps st) ptr with
    | None => Abort
    | Some (i, h) => h ← multi_heap_aligned_free_impl h ptr; Ok (set_heaps (set_heap i h (registered_heaps st)) st)
    end.

(** ** Preferences *)
Definition MALLOC_DISABLE_EXTERNAL_ALLOCS := -1.
Definition heap_caps_malloc_extmem_enable (limit : Z) st : caps_state := st <| malloc_alwaysinternal_limit := s32 limit |>.

(** The capabilities to try for a default allocation of a size. *)
Definition default_caps (size limit : Z) : Z :=
  if limit =? MALLOC_DISABLE_EXTERNAL_ALLOCS then Z.lor MALLOC_CAP_DEFAULT MALLOC_CAP_INTERNAL
  else if size <=? u32 limit then Z.lor MALLOC_CAP_DEFAULT MALLOC_CAP_INTERNAL
  else Z.lor MALLOC_CAP_DEFAULT MALLOC_CAP_SPIRAM.
Definition heap_caps_malloc_default (size : Z) st : outcome (Z * caps_state) :=
  let limit := malloc_alwaysinternal_limit st in
  '(r, st) ← heap_caps_malloc size (default_caps size limit) st;
  if negb (limit =? MALLOC_DISABLE_EXTERNAL_ALLOCS) && (r =? 0) then heap_caps_malloc size MALLOC_CAP_DEFAULT st else Ok (r, st).
Definition heap_caps_realloc_default (ptr size : Z) st : outcome (Z * caps_state) :=
  let limit := malloc_alwaysinternal_limit st in
  '(r, st) ← heap_caps_realloc ptr size (default_caps size limit) st;
  if negb (limit =? MALLOC_DISABLE_EXTERNAL_ALLOCS) && (r =? 0) && (0 <? size) then heap_caps_realloc ptr size MALLOC_CAP_DEFAULT st else Ok (r, st).

(** The variable arguments are a list. *)
Fixpoint heap_caps_malloc_prefer (size : Z) (caps : list Z) st : outcome (Z * caps_state) :=
  match caps with
  | [] => Ok (0, st)
  | c :: caps => '(r, st) ← heap_caps_malloc size c st; if r =? 0 then heap_caps_malloc_prefer size caps st else Ok (r, st)
  end.
Fixpoint heap_caps_realloc_prefer (ptr size : Z) (caps : list Z) st : outcome (Z * caps_state) :=
  match caps with
  | [] => Ok (0, st)
  | c :: caps =>
      '(r, st) ← heap_caps_realloc ptr size c st;
      if negb (r =? 0) || (size =? 0) then Ok (r, st) else heap_caps_realloc_prefer ptr size caps st
  end.
Fixpoint heap_caps_calloc_prefer (n size : Z) (caps : list Z) st : outcome (Z * caps_state) :=
  match caps with
  | [] => Ok (0, st)
  | c :: caps => '(r, st) ← heap_caps_calloc n size c st; if r =? 0 then heap_caps_calloc_prefer n size caps st else Ok (r, st)
  end.

(** ** Inspection *)
Fixpoint sum_heaps (f : caps_heap_t -> heap_t -> outcome Z) (caps : Z) hs : outcome Z :=
  match hs with
  | [] => Ok 0
  | e :: hs =>
      match hp_heap e with
      | Some h =>
          if heap_caps_match e caps then n ← f e h; m ← sum_heaps f caps hs; Ok (u32 (n + m)) else sum_heaps f caps hs
      | None => sum_heaps f caps hs
      end
  end.
Definition heap_caps_get_total_size (caps : Z) st : outcome Z := sum_heaps (fun e _ => Ok (u32 (hp_end e - hp_start e))) caps (registered_heaps st).
Definition heap_caps_get_free_size (caps : Z) st : outcome Z := sum_heaps (fun _ h => Ok (multi_heap_free_size_impl h)) caps (registered_heaps st).
Definition heap_caps_get_minimum_free_size (caps : Z) st : outcome Z := sum_heaps (fun _ h => Ok (multi_heap_minimum_free_size_impl h)) caps (registered_heaps st).

Definition add_info (i j : multi_heap_info_t) : multi_heap_info_t :=
  mkHeapInfo (u32 (total_free_bytes i + total_free_bytes j)) (u32 (total_allocated_bytes i + total_allocated_bytes j))
    (Z.max (largest_free_block i) (largest_free_block j)) (u32 (info_minimum_free_bytes i + info_minimum_free_bytes j))
    (u32 (allocated_blocks i + allocated_blocks j)) (u32 (free_blocks i + free_blocks j)) (u32 (total_blocks i + total_blocks j)).
Fixpoint info_heaps (caps : Z) hs (info : multi_heap_info_t) : outcome multi_heap_info_t :=
  match hs with
  | [] => Ok info
  | e :: hs =>
      match hp_heap e with
      | Some h => if heap_caps_match e caps then hinfo ← multi_heap_get_info_impl h; info_heaps caps hs (add_info info hinfo) else info_heaps caps hs info
      | None => info_heaps caps hs info
      end
  end.
Definition heap_caps_get_info (caps : Z) st : outcome multi_heap_info_t := info_heaps caps (registered_heaps st) (mkHeapInfo 0 0 0 0 0 0 0).
Definition heap_caps_get_largest_free_block (caps : Z) st : outcome Z := info ← heap_caps_get_info caps st; Ok (largest_free_block info).

Fixpoint check_heaps (all_heaps : bool) (caps : Z) hs (valid : bool) : outcome bool :=
  match hs with
  | [] => Ok valid
  | e :: hs =>
      match hp_heap e with
      | Some h =>
          if all_heaps || (Z.land (get_all_caps e) caps =? caps) then ok ← multi_heap_check h; check_heaps all_heaps caps hs (ok && valid)
          else check_heaps all_heaps caps hs valid
      | None => check_heaps all_heaps caps hs valid
      end
  end.
Definition heap_caps_check_integrity (caps : Z) st : outcome bool :=
  check_heaps (negb (Z.land caps MALLOC_CAP_INVALID =? 0)) caps (registered_heaps st) true.
Definition heap_caps_check_integrity_all st : outcome bool := heap_caps_check_integrity MALLOC_CAP_INVALID st.
Definition heap_caps_check_integrity_addr (addr : Z) st : outcome bool :=
  match find_containing_heap (registered_heaps st) addr with
  | None => Ok false
  | Some (_, h) => multi_heap_check h
  end.
Definition heap_caps_get_allocated_size (ptr : Z) st : outcome Z :=
  match find_containing_heap (registered_heaps st) ptr with
  | None => Fault
  | Some (_, h) => multi_heap_get_allocated_size_impl h ptr
  end.

(** ** Start-up ([heap_caps_init.c])

    [m] is the memory before the heaps are made. *)
Definition register_heap (m : mem) e : outcome caps_heap_t :=
  let heap_size := u32 (hp_end e - hp_start e) in
  cassert (heap_size <=? HEAP_SIZE_MAX);;
  Ok (e <| hp_heap := multi_heap_register_impl (hp_start e) heap_size m |>).

Fixpoint enable_heaps (m : mem) hs : outcome (list caps_heap_t) :=
  match hs with
  | [] => Ok []
  | e :: hs =>
      e ← match hp_heap e with None => register_heap m e | Some _ => Ok e end;
      hs ← enable_heaps m hs;
      Ok (e :: hs)
  end.
Definition heap_caps_enable_nonos_stack_heaps (m : mem) st : outcome caps_state :=
  hs ← enable_heaps m (registered_heaps st); Ok (set_heaps hs st).

(** The type of a region that was merged into the next one. *)
Definition NO_TYPE := 2 ^ 32 - 1.
(** The loop over the regions behind [a]. *)
Fixpoint coalesce (a : soc_memory_region_t) (regions : list soc_memory_region_t) : list soc_memory_region_t :=
  match regions with
  | [] => [a]
  | b :: regions =>
      if (r_start b =? r_start a + r_size a) && (r_type b =? r_type a) then
        (a <| r_type := NO_TYPE |>) :: coalesce (b <| r_start := r_start a |> <| r_size := r_size b + r_size a |>) regions
      else a :: coalesce b regions
  end.
Definition merged_regions (regions : list soc_memory_region_t) : list soc_memory_region_t :=
  match regions with [] => [] | a :: regions => coalesce a regions end.

Fixpoint make_heaps (types : list soc_memory_type_desc_t) (m : mem) (regions : list soc_memory_region_t) : outcome (list caps_heap_t) :=
  match regions with
  | [] => Ok []
  | region :: regions =>
      if r_type region =? NO_TYPE then make_heaps types m regions
      else
        match types !! Z.to_nat (r_type region) with
        | None => Fault
        | Some type =>
            let heap := mkCapsHeap (type_caps type) (r_start region) (r_start region + r_size region) None in
            heap ← (if startup_stack type then Ok heap else register_heap m heap);
            hs ← make_heaps types m regions;
            Ok (heap :: hs)
        end
  end.

(** The array of the heaps is allocated from the first heap that has room for it. *)
Fixpoint allocate_array (size : Z) hs : outcome (Z * list caps_heap_t) :=
  match hs with
  | [] => Ok (0, [])
  | e :: hs =>
      let next e := '(p, hs) ← allocate_array size hs; Ok (p, e :: hs) in
      match hp_heap e with
      | Some h =>
          if heap_caps_match e (Z.lor MALLOC_CAP_8BIT MALLOC_CAP_INTERNAL) then
            '(p, h) ← multi_heap_malloc_impl h size;
            let e := e <| hp_heap := Some h |> in
            if p =? 0 then next e else Ok (p, e :: hs)
          else next e
      | None => next e
      end
  end.
Definition heap_caps_init `{SocMemory} (m : mem) : outcome caps_state :=
  regions ← soc_get_available_memory_regions;
  hs ← make_heaps soc_memory_types m (merged_regions regions);
  '(heaps_array, hs) ← allocate_array (sizeof_caps_heap_t * lenZ hs) hs;
  cassert (negb (heaps_array =? 0));;
  Ok (mkCaps hs MALLOC_DISABLE_EXTERNAL_ALLOCS).

(** [None] is [NULL]. *)
Definition heap_caps_add_region_with_caps (caps : option (list Z)) (start end_ : Z) (m : mem) st : outcome (Z * caps_state) :=
  match caps with
  | None => Ok (ESP_ERR_INVALID_ARG, st)
  | Some caps =>
      if (start =? 0) || (end_ =? 0) || (end_ <=? start) then Ok (ESP_ERR_INVALID_ARG, st)
      else if existsb (fun e => ((start <=? hp_start e) && (hp_start e <? end_)) || ((start <? hp_end e) && (hp_end e <? end_))) (registered_heaps st)
      then Ok (ESP_FAIL, st)
      else
        '(p_new, st) ← heap_caps_malloc sizeof_caps_heap_t (Z.lor MALLOC_CAP_INTERNAL MALLOC_CAP_8BIT) st;
        if p_new =? 0 then Ok (ESP_ERR_NO_MEM, st)
        else
          match multi_heap_register_impl start (end_ - start) m with
          | None => st ← heap_caps_free p_new st; Ok (ESP_ERR_INVALID_SIZE, st)
          | Some h => Ok (ESP_OK, set_heaps (mkCapsHeap caps start end_ (Some h) :: registered_heaps st) st)
          end
  end.
Fixpoint find_region (regions : list soc_memory_region_t) (start : Z) : option soc_memory_region_t :=
  match regions with
  | [] => None
  | region :: regions => if (r_start region <=? start) && (start <? r_start region + r_size region) then Some region else find_region regions start
  end.
Definition heap_caps_add_region `{SocMemory} (start end_ : Z) (m : mem) st : outcome (Z * caps_state) :=
  if start =? 0 then Ok (ESP_ERR_INVALID_ARG, st)
  else
    match find_region soc_memory_regions start with
    | None => Ok (ESP_ERR_NOT_FOUND, st)
    | Some region =>
        match soc_memory_types !! Z.to_nat (r_type region) with
        | None => Fault
        | Some type => heap_caps_add_region_with_caps (Some (type_caps type)) start end_ m st
        end
    end.
End caps.
