(* ===== verification/HeapCapsClient.v ===== *)
(** * Heaps by capability: the buffers of a client

    What one heap promises for its buffers ([serves], from [HeapClient]); the places of
    buffers in a list of heaps ([Inv]); and the buffers of a client at the pointers that
    [heap_caps_malloc] and the others gave, each at a [place], which may be seen through
    the alias of D/IRAM. *)
From S2P Require Import Prelude EspFlash Mem Heap HeapInv HeapOps HeapCalls HeapClient MemoryLayout HeapCaps.

(** ** One heap *)
Definition serves (h : heap_t) (lv : list buf) : Prop := exists l us, held h lv l us.

Section one.
Implicit Types (h : heap_t) (bu : buf) (lv : list buf).

Lemma serves_perm h lv lv' : lv ≡ₚ lv' -> serves h lv -> serves h lv'.
Proof.
  intros E (l & us & [I U F S]). assert (G : exists us', us ≡ₚ us' /\ Forall2 (holds (heap_mem h)) lv' us').
  { clear -E F. revert us F. induction E as [|x lv lv' E IH|x y lv|lv k lv' _ IH1 _ IH2]; intros us F.
    - by exists us.
    - apply Forall2_cons_inv_l in F as (u & us2 & Hu & F & ->). destruct (IH us2 F) as (us' & P & F'). exists (u :: us'). split; [by rewrite P|by constructor].
    - apply Forall2_cons_inv_l in F as (u & us2 & Hu & F & ->). apply Forall2_cons_inv_l in F as (w & us3 & Hw & F & ->).
      exists (w :: u :: us3). split; [apply Permutation_swap|constructor; [done|by constructor]].
    - destruct (IH1 us F) as (us1 & P1 & F1). destruct (IH2 us1 F1) as (us2 & P2 & F2). exists us2. split; [by rewrite P1|done]. }
  destruct G as (us' & P & F'). exists l, us'. split; [done|by rewrite U, P|done|done].
Qed.

Lemma serves_malloc h lv size n : serves h lv -> 0 <= size <= n -> is_u32 n ->
  exists ret h', multi_heap_malloc_impl h n = Ok (ret, h') /\ (ret = 0 -> h' = h) /\ same_range h h' /\
    (ret <> 0 -> serves h' (new_buf h' ret false size [] :: lv)).
Proof.
  intros (l & us & H) Hs Hn. destruct (malloc_held H size n Hs Hn) as (ret & h' & E & H0 & Hr & l' & us' & H').
  exists ret, h'. split; [done|]. split; [done|]. split; [done|]. intros Hne. rewrite (proj2 (Z.eqb_neq _ _)) in H' by done. by exists l', us'.
Qed.
Lemma serves_aligned h lv size al : serves h lv -> 0 <= size -> 0 <= al -> size + al + 3 < 2 ^ 32 ->
  exists ret h', multi_heap_aligned_alloc_impl h size al = Ok (ret, h') /\ (ret = 0 -> h' = h) /\ same_range h h' /\
    (ret <> 0 -> serves h' (new_buf h' ret true size [] :: lv)).
Proof.
  intros (l & us & H) Hs Ha Hov. destruct (aligned_held H size al Hs Ha Hov) as (ret & h' & E & H0 & Hr & l' & us' & H').
  exists ret, h'. split; [done|]. split; [done|]. split; [done|]. intros Hne. rewrite (proj2 (Z.eqb_neq _ _)) in H' by done. by exists l', us'.
Qed.

Lemma extract_head k bu lv : k bu = true -> extract k (bu_ptr bu) (bu :: lv) = Some (bu, lv).
Proof. intros Hk. cbn [extract]. by rewrite Z.eqb_refl, Hk. Qed.

Lemma serves_free h bu lv : serves h (bu :: lv) -> bu_aligned bu = false ->
  exists h', multi_heap_free_impl h (bu_ptr bu) = Ok h' /\ same_range h h' /\ serves h' lv.
Proof.
  intros (l & us & H) Ha. destruct (free_held H plain (bu_ptr bu) bu lv) as (b & Hh & _ & _ & _ & _ & _ & h' & l' & us' & E & H' & Hr).
  { apply extract_head. unfold plain. by rewrite Ha. }
  destruct Hh as (_ & _ & _ & _ & Hp). rewrite Ha in Hp. rewrite Hp. exists h'. split; [done|]. split; [done|]. by exists l', us'.
Qed.
Lemma serves_aligned_free h bu lv : serves h (bu :: lv) -> bu_aligned bu = true ->
  exists h', multi_heap_aligned_free_impl h (bu_ptr bu) = Ok h' /\ same_range h h' /\ serves h' lv.
Proof.
  intros (l & us & H) Ha.
  destruct (free_held H bu_aligned (bu_ptr bu) bu lv) as (b & Hh & _ & _ & _ & Hb0 & Hb2 & h' & l' & us' & E & H' & Hr); [by apply extract_head|].
  destruct Hh as (_ & _ & Hb1 & _ & Hp). rewrite Ha in Hp. destruct Hp as [Hp1 Hp2]. exists h'. split; [|split; [done|by exists l', us']].
  unfold multi_heap_aligned_free_impl. rewrite (proj2 (Z.eqb_neq _ _)) by lia. rewrite Hp2. pose proof (lenZ_nonneg (bu_data bu)).
  replace (bu_ptr bu - (bu_ptr bu - (b_addr b + 4))) with (b_addr b + 4) by lia. by rewrite u32_small by (unfold is_u32; lia).
Qed.
Lemma serves_realloc h bu lv size : serves h (bu :: lv) -> bu_aligned bu = false -> 0 < size <= 2 ^ 32 - 4 ->
  exists ret h', multi_heap_realloc_impl h (bu_ptr bu) size = Ok (ret, h') /\ same_range h h' /\
    serves h' ((if ret =? 0 then bu else new_buf h' ret false size (bu_data bu)) :: lv).
Proof.
  intros (l & us & H) Ha Hs. destruct (realloc_held H (bu_ptr bu) size bu lv Hs) as (ret & h' & E & Hr & l' & us' & H').
  { apply extract_head. unfold plain. by rewrite Ha. }
  exists ret, h'. split; [done|]. split; [done|]. by exists l', us'.
Qed.

(** The bytes of a buffer from [off] on become [bytes]. *)
Definition patch (data : list Z) (off : nat) (bytes : list Z) : list Z := take off data ++ bytes ++ drop (off + length bytes) data.
Lemma serves_write h bu lv off bytes : serves h (bu :: lv) -> Forall is_byte bytes -> (off + length bytes <= length (bu_data bu))%nat ->
  serves (h <| heap_mem := write_bytes (heap_mem h) (bu_ptr bu + Z.of_nat off) bytes |>) (mkBuf (bu_ptr bu) (bu_aligned bu) (patch (bu_data bu) off bytes) :: lv).
Proof.
  intros (l & us & H) HB Ho. destruct (write_held H (bu_ptr bu) (Z.of_nat off) bytes bu lv HB) as (l' & us' & H').
  { by apply extract_head. } { lia. } { unfold lenZ. lia. }
  rewrite Nat2Z.id in H'. by exists l', us'.
Qed.
Lemma serves_range h bu lv : serves h lv -> bu ∈ lv ->
  0 < bu_ptr bu /\ bu_ptr bu mod 4 = 0 /\ heap_addr h < bu_ptr bu /\ bu_ptr bu + lenZ (bu_data bu) <= last_block h /\
  read_bytes (heap_mem h) (bu_ptr bu) (length (bu_data bu)) = bu_data bu.
Proof. intros (l & us & H) Hb. apply held_delivered in H as [D _ _]. rewrite Forall_forall in D. by apply D. Qed.
Lemma serves_load8 h bu lv (k : nat) v : serves h lv -> bu ∈ lv -> bu_data bu !! k = Some v -> load8 (heap_mem h) (bu_ptr bu + Z.of_nat k) = v.
Proof.
  intros S Hb Hk. destruct (serves_range h bu lv S Hb) as (_ & _ & _ & _ & E). rewrite <- E in Hk. by apply lookup_read_bytes in Hk as [_ Hk].
Qed.
Lemma serves_size h bu lv : serves h (bu :: lv) -> bu_aligned bu = false ->
  exists n, multi_heap_get_allocated_size_impl h (bu_ptr bu) = Ok n /\ 0 < n /\ lenZ (bu_data bu) <= n.
Proof.
  intros (l & us & H) Ha. destruct (held_block H 0%nat bu eq_refl) as (b & _ & (_ & _ & Hb3 & _ & Hp) & Hu & _). rewrite Ha in Hp.
  apply elem_of_used in Hu as [Hb Fb]. pose proof (hv_rep _ _ (hd_inv _ _ _ _ H)) as R.
  assert (Hin : b ∈ first_blk h :: l) by (by right). pose proof (rep_block R b Hin) as (_ & _ & _ & ? & _).
  exists (b_size b). unfold multi_heap_get_allocated_size_impl, get_block. rewrite Hp. replace (b_addr b + 4 - 4) with (b_addr b) by lia.
  rewrite (assert_valid_run h l b R Hb Fb). ostep. rewrite (is_free_blk_run R b Hin), Fb. cbn [negb]. rewrite (cassert_bind true) by done.
  rewrite (data_size_blk R b Hin). unfold b_end in Hb3. split; [done|]. lia.
Qed.
End one.

(** ** The alias of D/IRAM *)
Lemma diram_iram p : esp_ptr_in_diram_iram p = true <-> SOC_DIRAM_IRAM_LOW <= p < SOC_DIRAM_IRAM_HIGH.
Proof. unfold esp_ptr_in_diram_iram, addr_in. rewrite andb_true_iff, Z.leb_le, Z.ltb_lt. done. Qed.
Lemma diram_dram p : esp_ptr_in_diram_dram p = true <-> SOC_DIRAM_DRAM_LOW <= p < SOC_DIRAM_DRAM_HIGH.
Proof. unfold esp_ptr_in_diram_dram, addr_in. rewrite andb_true_iff, Z.leb_le, Z.ltb_lt. done. Qed.
Lemma physical_plain a : ~ (SOC_DIRAM_IRAM_LOW <= a < SOC_DIRAM_IRAM_HIGH) -> physical a = a.
Proof. intros Ha. unfold physical. destruct (esp_ptr_in_diram_iram a) eqn:E; [|done]. by apply diram_iram in E. Qed.
(** The byte [k] behind the alias of a word [w]. *)
Lemma physical_alias w k : SOC_DIRAM_DRAM_LOW <= w < SOC_DIRAM_DRAM_HIGH -> w mod 4 = 0 -> - 4 <= k -> SOC_DIRAM_DRAM_LOW <= w - 4 - k ->
  physical (esp_ptr_diram_dram_to_iram w + 4 + k) = w - 4 - 4 * (k / 4) + k mod 4.
Proof.
  unfold physical, esp_ptr_diram_dram_to_iram, esp_ptr_diram_iram_to_dram, SOC_DIRAM_DRAM_LOW, SOC_DIRAM_DRAM_HIGH, SOC_DIRAM_IRAM_LOW, SOC_DIRAM_IRAM_HIGH.
  intros H1 H2 H3 H4. set (a := _ + 4 + k). assert (E : esp_ptr_in_diram_iram a = true).
  { apply diram_iram. unfold SOC_DIRAM_IRAM_LOW, SOC_DIRAM_IRAM_HIGH, a. Z.to_euclidean_division_equations. lia. }
  rewrite E. change (align_down 4 a) with (align_down (2 ^ 2) a). rewrite align_down_pow2 by lia. change (2 ^ 2) with 4. unfold a.
  Z.to_euclidean_division_equations. lia.
Qed.

(** ** Several heaps *)
Definition heap_ok (e : caps_heap_t) : Prop :=
  0 < hp_start e < hp_end e /\ hp_end e < 2 ^ 31 - 8 /\ (hp_end e <= SOC_DIRAM_IRAM_LOW \/ SOC_DIRAM_IRAM_HIGH <= hp_start e) /\
  (esp_ptr_in_diram_dram (hp_start e) = true -> hp_end e <= SOC_DIRAM_DRAM_HIGH) /\
  match hp_heap e with Some h => hp_start e <= heap_addr h /\ last_block h < hp_end e | None => True end.
Definition heaps_apart (e f : caps_heap_t) : Prop := hp_end e <= hp_start f \/ hp_end f <= hp_start e.

(** Where a buffer is: its heap, whether the client has its alias, and the buffer
    of that heap. *)
Record place := mkPlace { pl_heap : nat; pl_exec : bool; pl_buf : buf }.
Definition bufs (i : nat) (pls : list place) : list buf := map pl_buf (filter (fun p => pl_heap p = i) pls).

Record Inv (hs : list caps_heap_t) (pls : list place) : Prop := {
  inv_ok : forall i e, hs !! i = Some e -> heap_ok e;
  inv_apart : forall i j e f, hs !! i = Some e -> hs !! j = Some f -> i <> j -> heaps_apart e f;
  inv_serves : forall i e h, hs !! i = Some e -> hp_heap e = Some h -> serves h (bufs i pls);
  inv_places : forall p, p ∈ pls -> exists e h, hs !! pl_heap p = Some e /\ hp_heap e = Some h
}.

Section several.
Implicit Types (e : caps_heap_t) (h : heap_t) (hs : list caps_heap_t) (pls : list place) (p : place).

Lemma bufs_cons_eq p pls : bufs (pl_heap p) (p :: pls) = pl_buf p :: bufs (pl_heap p) pls.
Proof. unfold bufs. by rewrite filter_cons_True. Qed.
Lemma bufs_cons_ne i p pls : pl_heap p <> i -> bufs i (p :: pls) = bufs i pls.
Proof. intros Hn. unfold bufs. by rewrite filter_cons_False. Qed.
Lemma bufs_perm i pls pls' : pls ≡ₚ pls' -> bufs i pls ≡ₚ bufs i pls'.
Proof. intros E. unfold bufs. by rewrite E. Qed.
Lemma inv_perm hs pls pls' : pls ≡ₚ pls' -> Inv hs pls -> Inv hs pls'.
Proof.
  intros E [H1 H2 H3 H4]. split; [done|done| |].
  - intros i e h Hi Hh. eapply serves_perm; [by apply bufs_perm|]. by eapply H3.
  - intros p. rewrite <- E. apply H4.
Qed.

Lemma set_heap_lookup i h hs j : set_heap i h hs !! j = if decide (i = j) then (fun e => e <| hp_heap := Some h |>) <$> hs !! j else hs !! j.
Proof. unfold set_heap. case_decide as E; [subst; apply list_lookup_alter_eq|by apply list_lookup_alter_ne]. Qed.
Lemma set_heap_same i h hs e : hs !! i = Some e -> hp_heap e = Some h -> set_heap i h hs = hs.
Proof.
  intros Hi Hh. apply list_eq. intros j. rewrite set_heap_lookup. case_decide; [subst|done]. rewrite Hi. simpl. destruct e. simpl in *. by subst.
Qed.

(** A heap is changed: its place stays, and so do the other heaps. *)
Lemma inv_set_heap hs pls pls' i e h h' : Inv hs pls -> hs !! i = Some e -> hp_heap e = Some h -> same_range h h' ->
  serves h' (bufs i pls') -> (forall j, j <> i -> bufs j pls' = bufs j pls) -> (forall p, p ∈ pls' -> p ∈ pls \/ pl_heap p = i) ->
  Inv (set_heap i h' hs) pls'.
Proof.
  intros [H1 H2 H3 H4] Hi Hh [R1 R2] Hs Ho Hp. split.
  - intros j f. rewrite set_heap_lookup. case_decide as Ej; [subst j; rewrite Hi|apply H1]. intros [= <-]. specialize (H1 i e Hi).
    unfold heap_ok in *. cbn. rewrite Hh in H1. rewrite R1, R2. exact H1.
  - intros j k f g Hf Hg Hne. assert (G : forall x y, set_heap i h' hs !! x = Some y -> exists z, hs !! x = Some z /\ hp_start y = hp_start z /\ hp_end y = hp_end z).
    { intros x y. rewrite set_heap_lookup. case_decide; [subst x; rewrite Hi; intros [= <-]; by exists e|intros ?; by exists y]. }
    apply G in Hf as (f' & Hf & E1 & E2). apply G in Hg as (g' & Hg & E3 & E4). unfold heaps_apart. rewrite E1, E2, E3, E4. by apply (H2 j k).
  - intros j f g. rewrite set_heap_lookup. case_decide as Ej; [subst j; rewrite Hi; intros [= <-] [= <-]; done|]. intros Hf Hg. rewrite Ho by congruence. by eapply H3.
  - intros p Hq. assert (G : exists e0 h0, hs !! pl_heap p = Some e0 /\ hp_heap e0 = Some h0) by (destruct (Hp p Hq) as [Hq2| ->]; [by apply H4|by exists e, h]).
    destruct G as (e0 & h0 & E1 & E2). destruct (decide (i = pl_heap p)) as [Ei|Ei].
    + exists (e0 <| hp_heap := Some h' |>), h'. by rewrite set_heap_lookup, decide_True, E1 by done.
    + exists e0, h0. by rewrite set_heap_lookup, decide_False by done.
Qed.

Lemma find_containing hs i e h a : (forall i j e f, hs !! i = Some e -> hs !! j = Some f -> i <> j -> heaps_apart e f) ->
  hs !! i = Some e -> hp_heap e = Some h -> hp_start e <= a < hp_end e -> find_containing_heap hs a = Some (i, h).
Proof.
  revert i. induction hs as [|f hs IH]; intros i Ap Hi Hh Ha; [done|]. cbn [find_containing_heap]. destruct i as [|i].
  - injection Hi as ->. unfold contains. rewrite Hh, (proj2 (andb_true_iff _ _)) by (split; [apply Z.leb_le|apply Z.ltb_lt]; lia). done.
  - assert (Hc : contains f a = false).
    { unfold contains. destruct (hp_heap f); [|done]. destruct (Ap 0%nat (S i) f e eq_refl Hi ltac:(done)) as [Hf|Hf];
        apply andb_false_iff; [right; apply Z.ltb_ge|left; apply Z.leb_gt]; lia. }
    rewrite Hc, (IH i); [done| |done|done|done]. intros j k ? ? Hj Hk Hne. apply (Ap (S j) (S k)); [done|done|congruence].
Qed.
Lemma inv_find hs pls i e h a : Inv hs pls -> hs !! i = Some e -> hp_heap e = Some h -> hp_start e <= a < hp_end e ->
  find_containing_heap hs a = Some (i, h).
Proof. intros I. apply find_containing. exact (inv_apart _ _ I). Qed.

(** The buffer of a place is in its heap. *)
Lemma inv_place hs pls p : Inv hs pls -> p ∈ pls -> exists e h, hs !! pl_heap p = Some e /\ hp_heap e = Some h /\ heap_ok e /\
  pl_buf p ∈ bufs (pl_heap p) pls /\ serves h (bufs (pl_heap p) pls) /\ bu_ptr (pl_buf p) mod 4 = 0 /\
  hp_start e < bu_ptr (pl_buf p) /\ bu_ptr (pl_buf p) + lenZ (bu_data (pl_buf p)) < hp_end e.
Proof.
  intros I Hp. destruct (inv_places _ _ I p Hp) as (e & h & He & Hh). pose proof (inv_serves _ _ I _ _ _ He Hh) as S.
  assert (Hb : pl_buf p ∈ bufs (pl_heap p) pls).
  { unfold bufs. apply list_elem_of_In, in_map_iff. exists p. split; [done|]. apply list_elem_of_In, list_elem_of_filter. by split. }
  destruct (serves_range _ _ _ S Hb) as (_ & Hm & Hlo & Hhi & _). pose proof (inv_ok _ _ I _ _ He) as O. exists e, h.
  split_and!; try done; unfold heap_ok in O; rewrite Hh in O; lia.
Qed.

(** The search of a heap: none of the selected ones has room, or the first that has
    gives it. *)
Definition selected (caps : Z) (prio : nat) e : bool := negb (Z.land (nth prio (hp_caps e) 0) caps =? 0) && (Z.land (get_all_caps e) caps =? caps).
Definition given (alloc : caps_heap_t -> heap_t -> outcome (Z * heap_t)) (P : caps_heap_t -> Prop) hs (res : outcome (Z * list caps_heap_t)) : Prop :=
  exists i e h ret h', hs !! i = Some e /\ hp_heap e = Some h /\ P e /\ alloc e h = Ok (ret, h') /\ ret <> 0 /\ res = Ok (ret, set_heap i h' hs).

Lemma for_heaps_spec alloc caps prio hs : (forall i e h, hs !! i = Some e -> hp_heap e = Some h -> exists ret h', alloc e h = Ok (ret, h') /\ (ret = 0 -> h' = h)) ->
  (for_heaps alloc caps prio hs = Ok (0, hs) /\ forall i e h, hs !! i = Some e -> hp_heap e = Some h -> selected caps prio e = true -> alloc e h = Ok (0, h)) \/
  given alloc (fun e => selected caps prio e = true) hs (for_heaps alloc caps prio hs).
Proof.
  induction hs as [|e hs IH]; intros A; [left; split; [done|]; intros i f h Hi; by rewrite lookup_nil in Hi|].
  assert (A' : forall i e h, hs !! i = Some e -> hp_heap e = Some h -> exists ret h', alloc e h = Ok (ret, h') /\ (ret = 0 -> h' = h)) by (intros i; apply (A (S i))).
  specialize (IH A'). cbn [for_heaps].
  assert (N : (forall h, hp_heap e = Some h -> selected caps prio e = true -> alloc e h = Ok (0, h)) ->
    ((('(ret, hs) ← for_heaps alloc caps prio hs; Ok (ret, e :: hs)) = Ok (0, e :: hs) /\
      forall i f h, (e :: hs) !! i = Some f -> hp_heap f = Some h -> selected caps prio f = true -> alloc f h = Ok (0, h)) \/
     given alloc (fun e => selected caps prio e = true) (e :: hs) ('(ret, hs) ← for_heaps alloc caps prio hs; Ok (ret, e :: hs)))).
  { intros N0. destruct IH as [[-> N]|(i & f & h & ret & h' & Hi & Hh & Hc & Ha & Hr & ->)]; ostep.
    - left. split; [done|]. intros [|i] f h; cbn [lookup list_lookup]; [intros [= <-]; apply N0|apply N].
    - right. by exists (S i), f, h, ret, h'. }
  destruct (hp_heap e) as [h|] eqn:Eh; [|by apply N]. fold (selected caps prio e).
  destruct (selected caps prio e) eqn:Es; [|apply N; congruence].
  destruct (A 0%nat e h eq_refl Eh) as (ret & h' & Ea & E0). rewrite Ea. ostep. destruct (Z.eqb_spec ret 0) as [->|Hr].
  - rewrite E0 by done. replace (e <| hp_heap := Some h |>) with e by (destruct e; simpl in *; by subst). apply N. intros ? [= <-] _. by rewrite Ea, E0.
  - right. exists 0%nat, e, h, ret, h'. done.
Qed.

(** At the priorities from [prio] on. *)
Lemma for_prios_spec alloc caps n prio hs : (forall i e h, hs !! i = Some e -> hp_heap e = Some h -> exists ret h', alloc e h = Ok (ret, h') /\ (ret = 0 -> h' = h)) ->
  (for_prios alloc caps n prio hs = Ok (0, hs) /\ forall k i e h, (prio <= k < prio + n)%nat -> hs !! i = Some e -> hp_heap e = Some h -> selected caps k e = true -> alloc e h = Ok (0, h)) \/
  given alloc (fun e => exists k, (prio <= k < prio + n)%nat /\ selected caps k e = true) hs (for_prios alloc caps n prio hs).
Proof.
  intros A. revert prio. induction n as [|n IH]; intros prio; [left; split; [done|]; intros; lia|]. cbn [for_prios].
  destruct (for_heaps_spec alloc caps prio hs A) as [[-> N]|(i & e & h & ret & h' & Hi & Hh & Hc & Ha & Hr & ->)]; ostep.
  - cbn [Z.eqb]. destruct (IH (S prio)) as [[-> N']|(i & e & h & ret & h' & Hi & Hh & (k & Hk & Hs) & G)].
    2:{ right. exists i, e, h, ret, h'. split; [done|]. split; [done|]. split; [|done]. exists k. split; [lia|done]. }
    left. split; [done|]. intros k i e h Hk.
    destruct (decide (k = prio)) as [->|]; [by apply N|apply N'; lia].
  - rewrite (proj2 (Z.eqb_neq _ _)) by done. right. exists i, e, h, ret, h'. split_and!; try done. exists prio. split; [lia|done].
Qed.
Lemma selected_caps caps k e : selected caps k e = true -> Z.land (get_all_caps e) caps = caps.
Proof. unfold selected. intros [_ E]%andb_prop. by apply Z.eqb_eq. Qed.
End several.

(** ** Words *)
Definition word_bytes (v : Z) : list Z := [u8 v; u8 (v / 2 ^ 8); u8 (v / 2 ^ 16); u8 (v / 2 ^ 24)].

Lemma u8_byte v : is_byte (u8 v).
Proof. apply Z.mod_pos_bound. lia. Qed.
Lemma word_bytes_ok v : Forall is_byte (word_bytes v).
Proof. repeat constructor; apply u8_byte. Qed.
Lemma store8_u8 m a v : store8 m a (u8 v) = store8 m a v.
Proof. unfold store8, u8. by rewrite Z.mod_mod by lia. Qed.
Lemma store32_bytes m a v : store32 m a v = write_bytes m a (word_bytes v).
Proof.
  unfold word_bytes, store32. cbn [write_bytes]. rewrite !store8_u8. replace (a + 1 + 1) with (a + 2) by lia. by replace (a + 2 + 1) with (a + 3) by lia.
Qed.
Lemma load32_word_bytes m a v : is_u32 v -> read_bytes m a 4 = word_bytes v -> load32 m a = v.
Proof.
  intros Hv [= E0 E1 E2 E3]. unfold load32. replace (a + 1 + 1 + 1) with (a + 3) in E3 by lia. replace (a + 1 + 1) with (a + 2) in E2 by lia.
  rewrite E0, E1, E2, E3. unfold u8, is_u32 in *. Z.to_euclidean_division_equations. lia.
Qed.

(** ** Places *)

(** The word behind the buffer that the client has is the pointer to free. *)
Record exec_ok (bu : buf) : Prop := {
  ex_plain : bu_aligned bu = false;
  ex_size : 4 <= lenZ (bu_data bu);
  ex_words : lenZ (bu_data bu) mod 4 = 0;
  ex_low : SOC_DIRAM_DRAM_LOW < bu_ptr bu;
  ex_high : bu_ptr bu + lenZ (bu_data bu) <= SOC_DIRAM_DRAM_HIGH;
  ex_word : drop (length (bu_data bu) - 4) (bu_data bu) = word_bytes (bu_ptr bu)
}.
Definition place_wf (p : place) : Prop := pl_exec p = true -> exec_ok (pl_buf p).
Definition place_ptr (p : place) : Z :=
  let bu := pl_buf p in if pl_exec p then esp_ptr_diram_dram_to_iram (bu_ptr bu + lenZ (bu_data bu) - 4) + 4 else bu_ptr bu.
Definition place_room (p : place) : nat := if pl_exec p then (length (bu_data (pl_buf p)) - 4)%nat else length (bu_data (pl_buf p)).
Definition place_off (p : place) (k : nat) : nat :=
  if pl_exec p then Z.to_nat (lenZ (bu_data (pl_buf p)) - 8 - 4 * (Z.of_nat k / 4) + Z.of_nat k mod 4) else k.
Definition set_data (p : place) (data : list Z) : place :=
  mkPlace (pl_heap p) (pl_exec p) (mkBuf (bu_ptr (pl_buf p)) (bu_aligned (pl_buf p)) data).

(** The heap [i] has the capabilities. *)
Definition has_caps (hs : list caps_heap_t) (i : nat) (caps : Z) : Prop :=
  exists e h, hs !! i = Some e /\ hp_heap e = Some h /\ Z.land (get_all_caps e) caps = caps.
(** The heaps stay where they are, with their capabilities. *)
Definition caps_kept (hs hs' : list caps_heap_t) : Prop :=
  (forall i caps, has_caps hs i caps -> has_caps hs' i caps) /\
  (forall i f, hs' !! i = Some f -> exists e, hs !! i = Some e /\ hp_start e = hp_start f /\ hp_end e = hp_end f).

Section places.
Implicit Types (e : caps_heap_t) (h : heap_t) (hs : list caps_heap_t) (pls : list place) (p : place).

Lemma caps_kept_refl hs : caps_kept hs hs.
Proof. split; [done|]. intros i f Hf. by exists f. Qed.
Lemma caps_kept_trans hs hs2 hs3 : caps_kept hs hs2 -> caps_kept hs2 hs3 -> caps_kept hs hs3.
Proof.
  intros [H1 R1] [H2 R2]. split; [intros i caps H; by apply H2, H1|]. intros i f Hf. destruct (R2 i f Hf) as (e & He & E1 & E2).
  destruct (R1 i e He) as (d & Hd & E3 & E4). exists d. split; [done|]. split; congruence.
Qed.
Lemma caps_kept_set i h hs e h0 : hs !! i = Some e -> hp_heap e = Some h0 -> caps_kept hs (set_heap i h hs).
Proof.
  intros Hi Hh. split.
  - intros j caps (f & g & Hf & Hg & Hc). destruct (decide (i = j)) as [->|Hne].
    + exists (f <| hp_heap := Some h |>), h. rewrite set_heap_lookup, decide_True, Hf by done. split; [done|]. split; [done|].
      unfold get_all_caps in *. rewrite Hg in Hc. exact Hc.
    + exists f, g. by rewrite set_heap_lookup, decide_False by done.
  - intros j f. rewrite set_heap_lookup. case_decide as E; [|intros Hf; by exists f]. subst j. rewrite Hi. intros [= <-]. by exists e.
Qed.

Lemma place_room_data p : (place_room p <= length (bu_data (pl_buf p)))%nat.
Proof. unfold place_room. destruct (pl_exec p); lia. Qed.

(** In front of the buffer, its bytes are from the end on, word by word. *)
Lemma exec_off p k : pl_exec p = true -> place_wf p -> (k < place_room p)%nat ->
  Z.of_nat (place_off p k) = lenZ (bu_data (pl_buf p)) - 8 - 4 * (Z.of_nat k / 4) + Z.of_nat k mod 4 /\ Z.of_nat (place_off p k) + 4 < lenZ (bu_data (pl_buf p)) + 0 /\ 0 <= Z.of_nat (place_off p k).
Proof.
  intros Ex W Hk. destruct (W Ex) as [_ S M _ _ _]. unfold place_off, place_room, lenZ in *. rewrite Ex in *.
  assert (0 <= Z.of_nat (length (bu_data (pl_buf p))) - 8 - 4 * (Z.of_nat k / 4) + Z.of_nat k mod 4 < Z.of_nat (length (bu_data (pl_buf p))) - 4) by (Z.to_euclidean_division_equations; lia).
  rewrite Z2Nat.id by lia. lia.
Qed.
Lemma place_off_lt p k : place_wf p -> (k < place_room p)%nat -> (place_off p k < place_room p)%nat.
Proof.
  intros W Hk. destruct (pl_exec p) eqn:Ex; [|unfold place_off; by rewrite Ex].
  pose proof (exec_off p k Ex W Hk). unfold place_room in *. rewrite Ex in *. unfold lenZ in *. lia.
Qed.
Lemma place_off_inj p k j : place_wf p -> (k < place_room p)%nat -> (j < place_room p)%nat -> place_off p k = place_off p j -> k = j.
Proof.
  intros W Hk Hj E. destruct (pl_exec p) eqn:Ex; [|unfold place_off in E; by rewrite Ex in E].
  destruct (exec_off p k Ex W Hk) as (E1 & _). destruct (exec_off p j Ex W Hj) as (E2 & _). rewrite E in E1. Z.to_euclidean_division_equations. lia.
Qed.
Lemma place_byte hs pls p k : Inv hs pls -> p ∈ pls -> place_wf p -> (k < place_room p)%nat ->
  physical (place_ptr p + Z.of_nat k) = bu_ptr (pl_buf p) + Z.of_nat (place_off p k).
Proof.
  intros I Hp W Hk. destruct (inv_place hs pls p I Hp) as (e & h & _ & _ & (O1 & O2 & O3 & O4 & _) & _ & _ & Hm & Hlo & Hhi).
  pose proof (place_room_data p) as Hr. unfold lenZ in *. destruct (pl_exec p) eqn:Ex.
  - destruct (W Ex) as [_ S M L H _]. pose proof (exec_off p k Ex W Hk) as (E & _). unfold place_ptr, place_room, lenZ in *. rewrite Ex in *. cbn zeta.
    rewrite physical_alias; [lia|lia|Z.to_euclidean_division_equations; lia|lia|]. unfold SOC_DIRAM_DRAM_LOW in *. Z.to_euclidean_division_equations. lia.
  - unfold place_ptr, place_off. rewrite Ex. apply physical_plain. unfold SOC_DIRAM_IRAM_HIGH, SOC_DIRAM_IRAM_LOW in *. lia.
Qed.
Lemma place_found hs pls p k : Inv hs pls -> p ∈ pls -> place_wf p -> (k < place_room p)%nat -> exists e h,
  hs !! pl_heap p = Some e /\ hp_heap e = Some h /\ find_containing_heap hs (physical (place_ptr p + Z.of_nat k)) = Some (pl_heap p, h).
Proof.
  intros I Hp W Hk. rewrite (place_byte hs pls p k) by done. destruct (inv_place hs pls p I Hp) as (e & h & He & Hh & O & _ & _ & Hm & Hlo & Hhi).
  exists e, h. split; [done|]. split; [done|]. eapply inv_find; [done..|]. pose proof (place_off_lt p k W Hk). pose proof (place_room_data p). unfold lenZ in *. lia.
Qed.

Lemma load_place hs pls p k : Inv hs pls -> p ∈ pls -> place_wf p -> (k < place_room p)%nat ->
  bu_data (pl_buf p) !! place_off p k = Some (load8_at hs (place_ptr p + Z.of_nat k)).
Proof.
  intros I Hp W Hk. destruct (place_found hs pls p k I Hp W Hk) as (e & h & He & Hh & E). unfold load8_at. rewrite E, (place_byte hs pls p k) by done.
  pose proof (place_off_lt p k W Hk) as Ho. pose proof (place_room_data p).
  destruct (lookup_lt_is_Some_2 (bu_data (pl_buf p)) (place_off p k)) as [v Hv]; [lia|]. rewrite Hv. f_equal. symmetry.
  destruct (inv_place hs pls p I Hp) as (e2 & h2 & He2 & Hh2 & _ & Hb & S & _). simplify_eq. by eapply serves_load8.
Qed.

Lemma bufs_here p pls : bufs (pl_heap p) (p :: pls) = pl_buf p :: bufs (pl_heap p) pls.
Proof. apply bufs_cons_eq. Qed.

(** The buffer of a place becomes another one of its heap. *)
Lemma inv_change hs pls p q e h h' : Inv hs (p :: pls) -> hs !! pl_heap p = Some e -> hp_heap e = Some h -> same_range h h' -> pl_heap q = pl_heap p ->
  serves h' (pl_buf q :: bufs (pl_heap p) pls) -> Inv (set_heap (pl_heap p) h' hs) (q :: pls).
Proof.
  intros I He Hh Hr Eq S. eapply inv_set_heap; [exact I|done|done|done| | |].
  - rewrite <- Eq, bufs_cons_eq, Eq. exact S.
  - intros j Hj. by rewrite !bufs_cons_ne by congruence.
  - intros r [->|Hr2]%elem_of_cons; [by right|]. left. by right.
Qed.

Lemma patch_one (data : list Z) k v : (k < length data)%nat -> patch data k [v] = <[k := v]> data.
Proof. intros Hk. unfold patch. rewrite insert_take_drop by done. by replace (k + length [v])%nat with (S k) by (simpl; lia). Qed.

Lemma store_place hs pls p k v : Inv hs (p :: pls) -> place_wf p -> (k < place_room p)%nat -> is_byte v ->
  exists hs', store8_at (place_ptr p + Z.of_nat k) v hs = Ok hs' /\ caps_kept hs hs' /\
    Inv hs' (set_data p (<[place_off p k := v]> (bu_data (pl_buf p))) :: pls).
Proof.
  intros I W Hk Hv. assert (Hp : p ∈ p :: pls) by (by left). destruct (place_found hs _ p k I Hp W Hk) as (e & h & He & Hh & E).
  unfold store8_at. rewrite E, (place_byte hs (p :: pls) p k) by done. pose proof (place_off_lt p k W Hk) as Ho. pose proof (place_room_data p).
  eexists. split; [done|]. split; [by eapply caps_kept_set|]. eapply inv_change; [done..|split; done|done|]. cbn [set_data pl_buf].
  pose proof (inv_serves _ _ I _ _ _ He Hh) as S. rewrite bufs_cons_eq in S.
  apply (serves_write h (pl_buf p) _ (place_off p k) [v]) in S; [|by constructor|simpl; lia]. rewrite patch_one in S by lia. exact S.
Qed.
Lemma set_data_wf p k v : place_wf p -> (k < place_room p)%nat -> place_wf (set_data p (<[place_off p k := v]> (bu_data (pl_buf p)))).
Proof.
  intros W Hk Ex. destruct (W Ex) as [W1 W2 W3 W4 W5 W6]. unfold set_data, lenZ in *. split; cbn; unfold lenZ; rewrite ?length_insert; try done.
  rewrite drop_insert_lt; [done|]. pose proof (exec_off p k Ex W Hk) as (_ & E & _). unfold lenZ in E. lia.
Qed.

(** ** The view of the client *)
Record cbuf := mkCbuf { cb_ptr : Z; cb_caps : Z; cb_aligned : bool; cb_data : list Z }.
Implicit Types cb : cbuf.

Record image cb p : Prop := {
  im_wf : place_wf p;
  im_ptr : cb_ptr cb = place_ptr p;
  im_aligned : cb_aligned cb = bu_aligned (pl_buf p);
  im_room : (length (cb_data cb) <= place_room p)%nat;
  im_data : forall k v, cb_data cb !! k = Some v -> bu_data (pl_buf p) !! place_off p k = Some v
}.
Definition set_cdata cb (data : list Z) : cbuf := mkCbuf (cb_ptr cb) (cb_caps cb) (cb_aligned cb) data.

Lemma place_room_set p data : length data = length (bu_data (pl_buf p)) -> place_room (set_data p data) = place_room p.
Proof. unfold place_room, set_data. cbn. by intros ->. Qed.
Lemma off_set p data k : length data = length (bu_data (pl_buf p)) -> place_off (set_data p data) k = place_off p k.
Proof. unfold place_off, set_data, lenZ. cbn. by intros ->. Qed.

Lemma image_insert cb p k v : image cb p -> (k < length (cb_data cb))%nat ->
  image (set_cdata cb (<[k := v]> (cb_data cb))) (set_data p (<[place_off p k := v]> (bu_data (pl_buf p)))).
Proof.
  intros [W P A R D] Hk. assert (L : length (<[place_off p k:=v]> (bu_data (pl_buf p))) = length (bu_data (pl_buf p))) by apply length_insert.
  split; [apply set_data_wf; [done|lia]| |done| |]; cbn [set_cdata cb_ptr cb_data].
  - rewrite P. unfold place_ptr, set_data, lenZ. cbn. by rewrite L.
  - by rewrite place_room_set, length_insert.
  - intros j w Hj. rewrite off_set by done. cbn [set_data pl_buf bu_data]. destruct (decide (j = k)) as [->|Hne].
    + rewrite list_lookup_insert_eq in Hj by done. pose proof (place_off_lt p k W ltac:(lia)). pose proof (place_room_data p).
      by rewrite list_lookup_insert_eq by lia.
    + rewrite list_lookup_insert_ne in Hj by done. rewrite list_lookup_insert_ne; [by apply D|]. intros E. apply Hne. apply lookup_lt_Some in Hj.
      apply (place_off_inj p); [done|lia|lia|done].
Qed.

Lemma patch_nil (data : list Z) k : patch data k [] = data.
Proof. unfold patch. simpl. rewrite Nat.add_0_r. apply take_drop. Qed.
Lemma length_patch (data : list Z) k bytes : (k + length bytes <= length data)%nat -> length (patch data k bytes) = length data.
Proof. intros H. unfold patch. rewrite !length_app, length_take, length_drop. lia. Qed.
Lemma patch_app (l1 l2 : list Z) k bytes : length l1 = k -> patch (l1 ++ l2) k bytes = l1 ++ bytes ++ drop (length bytes) l2.
Proof. intros <-. unfold patch. rewrite take_app_length, <- drop_drop. by rewrite drop_app_length. Qed.
Lemma patch_cons (data : list Z) k v bytes : (k < length data)%nat -> patch data k (v :: bytes) = patch (<[k := v]> data) (S k) bytes.
Proof.
  intros (x & Hx)%lookup_lt_is_Some_2. apply list_elem_of_split_length in Hx as (l1 & l2 & -> & ->).
  rewrite insert_app_r_alt, Nat.sub_diag by done. rewrite patch_app by done. cbn. change (l1 ++ v :: l2) with (l1 ++ [v] ++ l2).
  rewrite app_assoc, patch_app by (rewrite length_app; simpl; lia). by rewrite <- app_assoc.
Qed.

Lemma store_bytes bytes : forall hs pls p cb off, Inv hs (p :: pls) -> image cb p -> Forall is_byte bytes -> (off + length bytes <= length (cb_data cb))%nat ->
  exists hs' p', store_at (cb_ptr cb + Z.of_nat off) bytes hs = Ok hs' /\ caps_kept hs hs' /\ pl_heap p' = pl_heap p /\ Inv hs' (p' :: pls) /\
    image (set_cdata cb (patch (cb_data cb) off bytes)) p'.
Proof.
  induction bytes as [|v bytes IH]; intros hs pls p cb off I M B Ho.
  { exists hs, p. split; [done|]. split; [apply caps_kept_refl|]. split; [done|]. split; [done|]. rewrite patch_nil. by destruct cb. }
  apply Forall_cons in B as [Hv B]. cbn [length] in Ho. cbn [store_at]. rewrite (im_ptr _ _ M). pose proof (im_room _ _ M).
  destruct (store_place hs pls p off v I (im_wf _ _ M) ltac:(lia) Hv) as (hs2 & E & K & I2). rewrite E. ostep.
  pose proof (image_insert cb p off v M ltac:(lia)) as M2. specialize (IH hs2 pls _ _ (S off) I2 M2 B). cbn [set_cdata cb_data cb_ptr] in IH.
  destruct IH as (hs' & p' & E' & K' & Hp & I' & M'); [rewrite length_insert; lia|]. exists hs', p'. rewrite <- (im_ptr _ _ M).
  replace (cb_ptr cb + Z.of_nat off + 1) with (cb_ptr cb + Z.of_nat (S off)) by lia. split; [exact E'|]. split; [by eapply caps_kept_trans|].
  split; [done|]. split; [done|]. rewrite patch_cons by lia. exact M'.
Qed.

(** Two buffers have no byte in common. *)
Lemma two_places pls i j p q : pls !! i = Some p -> pls !! j = Some q -> i <> j -> exists rest, pls ≡ₚ p :: q :: rest.
Proof.
  intros Hi Hj Hne. assert (Hd : exists j', delete i pls !! j' = Some q).
  { destruct (decide (j < i)%nat) as [Hlt|Hge]; [exists j; by rewrite list_lookup_delete_lt|]. exists (j - 1)%nat. rewrite list_lookup_delete_ge by lia.
    by replace (S (j - 1)) with j by lia. }
  destruct Hd as [j' Hj']. exists (delete j' (delete i pls)). rewrite (delete_Permutation pls i p Hi) at 1. constructor. by apply delete_Permutation.
Qed.
Lemma places_apart hs pls i j p q k l : Inv hs pls -> pls !! i = Some p -> pls !! j = Some q -> i <> j -> place_wf p -> place_wf q -> (k < place_room p)%nat -> (l < place_room q)%nat ->
  physical (place_ptr p + Z.of_nat k) <> physical (place_ptr q + Z.of_nat l).
Proof.
  intros I Hi Hj Hne Wp Wq Hk Hl. pose proof (list_elem_of_lookup_2 _ _ _ Hi) as Hp. pose proof (list_elem_of_lookup_2 _ _ _ Hj) as Hq.
  rewrite (place_byte hs pls p k), (place_byte hs pls q l) by done. pose proof (place_off_lt p k Wp Hk). pose proof (place_off_lt q l Wq Hl). pose proof (place_room_data p). pose proof (place_room_data q).
  destruct (inv_place hs pls p I Hp) as (e & h & He & Hh & _ & _ & _ & _ & Hlo & Hhi). destruct (inv_place hs pls q I Hq) as (f & g & Hf & Hg & _ & _ & _ & _ & Hlo2 & Hhi2). unfold lenZ in *.
  destruct (decide (pl_heap p = pl_heap q)) as [E|Hd].
  - destruct (two_places pls i j p q Hi Hj Hne) as [rest P]. apply (inv_perm _ _ _ P) in I. pose proof (inv_serves _ _ I _ _ _ He Hh) as (l0 & us & S).
    rewrite bufs_cons_eq in S. rewrite E, bufs_cons_eq in S. apply held_delivered in S as [_ A _]. specialize (A 0%nat 1%nat _ _ eq_refl eq_refl ltac:(done)). unfold lenZ in A. lia.
  - destruct (inv_apart _ _ I _ _ _ _ He Hf Hd); lia.
Qed.
End places.
