(* ===== verification/HeapCapsCalls.v ===== *)
(** * Heaps by capability: the calls

    What each call does to the places of the buffers: [malloc_place] and
    [malloc_refused] for the search of a heap, then release, resizing, and the cleared
    and aligned allocations. *)
From S2P Require Import Prelude EspFlash Mem Heap HeapInv HeapOps HeapCalls HeapClient MemoryLayout HeapCaps HeapCapsClient.

Section calls.
Implicit Types (e : caps_heap_t) (h : heap_t) (hs : list caps_heap_t) (pls : list place) (p : place) (st : caps_state) (cb : cbuf).

(** The place of a new buffer. *)
Definition placed_buf (i : nat) (ret size : Z) h' (lv : list buf) p : Prop :=
  pl_heap p = i /\ ret = place_ptr p /\ place_wf p /\ bu_aligned (pl_buf p) = false /\ size <= Z.of_nat (place_room p) /\ serves h' (pl_buf p :: lv).

Lemma dram_alloc_run h lv ret size i e : heap_ok e -> hp_heap e = Some h -> esp_ptr_in_diram_dram (hp_start e) = true -> 0 <= size -> size mod 4 = 0 ->
  serves h (new_buf h ret false (size + 4) [] :: lv) -> ret <> 0 ->
  exists ret' h', dram_alloc_to_iram_addr ret (size + 4) h = Ok (ret', h') /\ ret' <> 0 /\ same_range h h' /\ exists p, placed_buf i ret' size h' lv p.
Proof.
  intros (_ & _ & _ & O4 & O5) Hh Hd Hs Hm S Hr. rewrite Hh in O5. specialize (O4 Hd). apply diram_dram in Hd as [Hd1 Hd2].
  set (bu := new_buf h ret false (size + 4) []) in *. pose proof (serves_range h bu _ S ltac:(by left)) as (_ & Rm & Rl & Rh & Rd).
  assert (Ln : length (bu_data bu) = Z.to_nat (size + 4)) by (unfold bu, new_buf; cbn; rewrite take_nil; cbn; rewrite length_read_bytes; simpl; lia).
  unfold lenZ in *. rewrite Ln in *. change (bu_ptr bu) with ret in *. unfold dram_alloc_to_iram_addr.
  assert (M : forall x, x mod 4 = 0 -> (Z.land x 3 =? 0) = true) by (intros x Hx; change 3 with (Z.ones 2); rewrite Z.land_ones by lia; change (2 ^ 2) with 4; by rewrite Hx).
  assert (Hw : (ret + size) mod 4 = 0) by (Z.to_euclidean_division_equations; lia). replace (ret + (size + 4) - 4) with (ret + size) by lia.
  oassert ltac:(apply diram_dram; lia). oassert ltac:(apply diram_dram; lia). oassert ltac:(by apply M). oassert ltac:(by apply M).
  assert (Ep : physical (esp_ptr_diram_dram_to_iram (ret + size)) = ret + size).
  { replace (esp_ptr_diram_dram_to_iram (ret + size)) with (esp_ptr_diram_dram_to_iram (ret + size) + 4 + -4) by lia.
    rewrite physical_alias by lia. change (-4 / 4) with (-1). change (-4 mod 4) with 0. lia. }
  rewrite Ep, store32_bytes. eexists _, _. split; [done|]. split; [unfold esp_ptr_diram_dram_to_iram, SOC_DIRAM_IRAM_LOW; lia|]. split; [done|].
  assert (Lp : length (patch (bu_data bu) (Z.to_nat size) (word_bytes ret)) = Z.to_nat (size + 4)) by (rewrite length_patch; [done|rewrite Ln; simpl; lia]).
  apply (serves_write h bu lv (Z.to_nat size) (word_bytes ret)) in S; [|apply word_bytes_ok|rewrite Ln; simpl; lia].
  change (bu_ptr bu) with ret in S. rewrite Z2Nat.id in S by lia. change (bu_aligned bu) with false in S.
  exists (mkPlace i true (mkBuf ret false (patch (bu_data bu) (Z.to_nat size) (word_bytes ret)))). unfold placed_buf, place_ptr, place_room. cbn [pl_heap pl_exec pl_buf bu_ptr bu_data bu_aligned].
  unfold lenZ. rewrite Lp. split; [done|]. split; [do 2 f_equal; lia|]. split; [|split; [done|split; [lia|exact S]]].
  intros _. split; cbn [bu_aligned bu_data bu_ptr pl_buf]; unfold lenZ; rewrite ?Lp; [done|lia|Z.to_euclidean_division_equations; lia|lia|lia|].
  replace (Z.to_nat (size + 4) - 4)%nat with (Z.to_nat size) by lia. unfold patch. rewrite drop_app_length' by (rewrite length_take, Ln; lia).
  rewrite skipn_all2 by (rewrite Ln; simpl; lia). done.
Qed.

Lemma malloc_from_run caps size n i e h lv : heap_ok e -> hp_heap e = Some h -> serves h lv -> 0 <= size <= n -> n <= 2 ^ 31 ->
  (Z.land caps MALLOC_CAP_EXEC <> 0 -> n mod 4 = 0) ->
  exists ret h', malloc_from caps n e h = Ok (ret, h') /\ (ret = 0 -> h' = h) /\ same_range h h' /\ (ret <> 0 -> exists p, placed_buf i ret size h' lv p).
Proof.
  intros O Hh S Hs Hn Hm. unfold malloc_from. destruct (Z.eqb_spec (Z.land caps MALLOC_CAP_EXEC) 0) as [_|Hx]; cbn [negb andb].
  2: destruct (esp_ptr_in_diram_dram (hp_start e)) eqn:Hd.
  2:{ specialize (Hm Hx). destruct (serves_malloc h lv (n + 4) (n + 4) S ltac:(lia) ltac:(unfold is_u32; lia)) as (ret & h' & -> & E0 & R & S'). ostep.
    destruct (Z.eqb_spec ret 0) as [->|Hr]; [by exists 0, h'|].
    assert (O' : heap_ok (e <| hp_heap := Some h' |>)).
    { unfold heap_ok in *. cbn. rewrite Hh in O. destruct R as [-> ->]. exact O. }
    destruct (dram_alloc_run h' lv ret n i _ O' eq_refl Hd ltac:(lia) Hm (S' Hr) Hr) as (ret2 & h2 & E & Hr2 & R2 & p & P). exists ret2, h2.
    split; [done|]. split; [done|]. split; [destruct R, R2; split; congruence|]. intros _. exists p. destruct P as (P1 & P2 & P3 & P4 & P5 & P6).
    split_and!; try done. lia. }
  all: destruct (serves_malloc h lv size n S Hs ltac:(unfold is_u32; lia)) as (ret & h' & -> & E0 & R & S'); exists ret, h';
    split; [done|]; split; [done|]; split; [done|]; intros Hr; exists (mkPlace i false (new_buf h' ret false size []));
    split_and!; try done; [|by apply S']; unfold place_room; cbn; rewrite take_nil; cbn; rewrite length_read_bytes; simpl; lia.
Qed.

(** A search of the heaps: what [alloc] gives is placed. *)
Lemma search_place alloc caps size st pls :
  Inv (registered_heaps st) pls ->
  (forall i e h, registered_heaps st !! i = Some e -> hp_heap e = Some h -> heap_ok e -> serves h (bufs i pls) ->
     exists ret h', alloc e h = Ok (ret, h') /\ (ret = 0 -> h' = h) /\ same_range h h' /\
       (ret <> 0 -> exists p, pl_heap p = i /\ ret = place_ptr p /\ place_wf p /\ size p /\ serves h' (pl_buf p :: bufs i pls))) ->
  exists ret hs', for_prios alloc caps SOC_MEMORY_TYPE_NO_PRIOS O (registered_heaps st) = Ok (ret, hs') /\
    ((ret = 0 /\ hs' = registered_heaps st /\ forall k i e h, (k < 3)%nat -> registered_heaps st !! i = Some e -> hp_heap e = Some h -> selected caps k e = true -> alloc e h = Ok (0, h)) \/
     (ret <> 0 /\ exists p, ret = place_ptr p /\ place_wf p /\ size p /\ Inv hs' (p :: pls) /\ has_caps hs' (pl_heap p) caps /\ caps_kept (registered_heaps st) hs')).
Proof.
  intros I A. destruct (for_prios_spec alloc caps SOC_MEMORY_TYPE_NO_PRIOS 0 (registered_heaps st)) as [[E N]|(i & e & h & ret & h' & He & Hh & (k0 & _ & Hc%selected_caps) & Ha & Hr & E)].
  { intros i e h He Hh. destruct (A i e h He Hh (inv_ok _ _ I _ _ He) (inv_serves _ _ I _ _ _ He Hh)) as (ret & h' & ? & ? & _). by exists ret, h'. }
  - exists 0, (registered_heaps st). split; [done|]. left. split; [done|]. split; [done|]. intros k i e h Hk. apply N. unfold SOC_MEMORY_TYPE_NO_PRIOS. lia.
  - exists ret, (set_heap i h' (registered_heaps st)). split; [done|]. right. split; [done|].
    destruct (A i e h He Hh (inv_ok _ _ I _ _ He) (inv_serves _ _ I _ _ _ He Hh)) as (ret2 & h2 & E2 & _ & R & P). rewrite Ha in E2. injection E2 as <- <-.
    destruct (P Hr) as (p & <- & P2 & P3 & P4 & P5). exists p. split; [done|]. split; [done|]. split; [done|]. assert (K : caps_kept (registered_heaps st) (set_heap (pl_heap p) h' (registered_heaps st))) by (by eapply caps_kept_set).
    split; [|split; [apply K; by exists e, h|done]]. eapply inv_set_heap; [exact I|done..| | |].
    + by rewrite bufs_cons_eq.
    + intros j Hj. by rewrite bufs_cons_ne by congruence.
    + intros q [->|Hq]%elem_of_cons; [by right|by left].
Qed.

Lemma land_lor_l a c d : Z.land a (Z.lor c d) = Z.lor c d -> Z.land a c = c.
Proof.
  intros E. assert (L : Z.land (Z.lor c d) c = c) by (rewrite Z.land_comm; apply Z.bits_inj'; intros n _; rewrite Z.land_spec, Z.lor_spec; by destruct (Z.testbit c n)).
  rewrite <- L at 1. by rewrite Z.land_assoc, E.
Qed.
Lemma has_caps_lor hs i c d : has_caps hs i (Z.lor c d) -> has_caps hs i c.
Proof. intros (e & h & He & Hh & E). exists e, h. split; [done|]. split; [done|]. by apply land_lor_l in E. Qed.

(** A call that gave memory: a new place. *)
Definition gave st st' pls (ret caps : Z) (P : place -> Prop) : Prop :=
  ret <> 0 /\ exists p, ret = place_ptr p /\ place_wf p /\ P p /\ Inv (registered_heaps st') (p :: pls) /\
    has_caps (registered_heaps st') (pl_heap p) caps /\ caps_kept (registered_heaps st) (registered_heaps st').
Definition usable (al : bool) (size : Z) p : Prop := bu_aligned (pl_buf p) = al /\ size <= Z.of_nat (place_room p).

(** The request that [heap_caps_malloc] makes of the heaps. *)
Definition request_caps (caps : Z) : Z := if Z.land caps MALLOC_CAP_EXEC =? 0 then caps else Z.lor caps MALLOC_CAP_32BIT.
Definition request_size (size caps : Z) : Z := if Z.land (request_caps caps) MALLOC_CAP_32BIT =? 0 then size else align_up 4 size.
Definition possible (size caps : Z) : bool :=
  (size <=? HEAP_SIZE_MAX) && ((Z.land caps MALLOC_CAP_EXEC =? 0) || (Z.land caps MALLOC_CAP_8BIT =? 0) && (Z.land caps MALLOC_CAP_DMA =? 0)).

Lemma malloc_eq size caps st : heap_caps_malloc size caps st =
  if possible size caps then
    '(ret, hs) ← for_prios (malloc_from (request_caps caps) (request_size size caps)) (request_caps caps) SOC_MEMORY_TYPE_NO_PRIOS O (registered_heaps st);
    Ok (ret, set_heaps hs st)
  else Ok (0, st).
Proof.
  unfold heap_caps_malloc, possible, request_size, request_caps. destruct (Z.ltb_spec HEAP_SIZE_MAX size) as [L|L].
  { rewrite (proj2 (Z.leb_gt _ _)) by lia. done. }
  rewrite (proj2 (Z.leb_le _ _)) by lia. destruct (Z.eqb_spec (Z.land caps MALLOC_CAP_EXEC) 0); cbn [negb andb orb].
  - by destruct (Z.land caps MALLOC_CAP_32BIT =? 0).
  - destruct (Z.land caps MALLOC_CAP_8BIT =? 0), (Z.land caps MALLOC_CAP_DMA =? 0); cbn [negb andb orb]; try done.
    by destruct (Z.land (Z.lor caps MALLOC_CAP_32BIT) MALLOC_CAP_32BIT =? 0).
Qed.
Lemma request_exec caps : Z.land (request_caps caps) MALLOC_CAP_EXEC = Z.land caps MALLOC_CAP_EXEC.
Proof.
  unfold request_caps. destruct (_ =? 0); [done|]. rewrite Z.land_lor_distr_l. change (Z.land MALLOC_CAP_32BIT MALLOC_CAP_EXEC) with 0. apply Z.lor_0_r.
Qed.
Lemma request_size_bounds size caps : 0 <= size -> possible size caps = true -> size <= request_size size caps <= 2 ^ 31 /\
  (Z.land (request_caps caps) MALLOC_CAP_EXEC <> 0 -> request_size size caps mod 4 = 0).
Proof.
  intros Hs [L%Z.leb_le _]%andb_prop. unfold HEAP_SIZE_MAX, SOC_MAX_CONTIGUOUS_RAM_SIZE in L. rewrite request_exec. unfold request_size.
  pose proof (align_up_4 size ltac:(lia)) as E. rewrite E. split; [destruct (_ =? 0); Z.to_euclidean_division_equations; lia|].
  intros Hx. unfold request_caps. rewrite (proj2 (Z.eqb_neq _ _) Hx). destruct (Z.eqb_spec (Z.land (Z.lor caps MALLOC_CAP_32BIT) MALLOC_CAP_32BIT) 0) as [E2|_].
  - rewrite Z.land_lor_distr_l in E2. change (Z.land MALLOC_CAP_32BIT MALLOC_CAP_32BIT) with 2 in E2. apply Z.lor_eq_0_iff in E2 as [_ E2]. done.
  - Z.to_euclidean_division_equations. lia.
Qed.

Lemma malloc_search st pls size caps : Inv (registered_heaps st) pls -> 0 <= size -> possible size caps = true ->
  forall i e h, registered_heaps st !! i = Some e -> hp_heap e = Some h -> heap_ok e -> serves h (bufs i pls) ->
     exists ret h', malloc_from (request_caps caps) (request_size size caps) e h = Ok (ret, h') /\ (ret = 0 -> h' = h) /\ same_range h h' /\
       (ret <> 0 -> exists p, pl_heap p = i /\ ret = place_ptr p /\ place_wf p /\ usable false size p /\ serves h' (pl_buf p :: bufs i pls)).
Proof.
  intros I Hs Hp i e h He Hh O S. pose proof (request_size_bounds size caps Hs Hp) as [[B1 B2] B3].
  destruct (malloc_from_run (request_caps caps) size (request_size size caps) i e h _ O Hh S ltac:(lia) ltac:(lia) B3) as (ret & h' & E & E0 & R & P).
  exists ret, h'. split; [done|]. split; [done|]. split; [done|]. intros Hr. destruct (P Hr) as (p & P1 & P2 & P3 & P4 & P5 & P6).
  exists p. unfold usable. by split_and!.
Qed.
Lemma malloc_place st pls size caps : Inv (registered_heaps st) pls -> 0 <= size ->
  exists ret st', heap_caps_malloc size caps st = Ok (ret, st') /\ (ret = 0 /\ st' = st \/ gave st st' pls ret caps (usable false size)).
Proof.
  intros I Hs. rewrite malloc_eq. destruct (possible size caps) eqn:Hp; [|exists 0, st; split; [done|by left]].
  destruct (search_place _ (request_caps caps) (usable false size) st pls I (malloc_search st pls size caps I Hs Hp)) as (ret & hs' & -> & H). ostep.
  exists ret, (set_heaps hs' st). split; [done|]. destruct H as [(-> & -> & _)|(Hr & p & H1 & H2 & H3 & H4 & H5 & H6)]; [left; split; [done|by destruct st]|].
  right. split; [done|]. exists p. split; [done|]. split; [done|]. split; [done|]. split; [done|]. split; [|done].
  cbn [set_heaps registered_heaps]. unfold request_caps in H5. destruct (_ =? 0); [done|]. by apply has_caps_lor in H5.
Qed.

(** ** Release *)
Lemma place_alias hs pls p : Inv hs pls -> p ∈ pls -> place_wf p -> place_ptr p <> 0 /\ esp_ptr_in_diram_iram (place_ptr p) = pl_exec p.
Proof.
  intros I Hp W. destruct (inv_place hs pls p I Hp) as (e & h & _ & _ & (O1 & O2 & O3 & O4 & _) & _ & _ & Hm & Hlo & Hhi). pose proof (lenZ_nonneg (bu_data (pl_buf p))).
  unfold place_ptr. destruct (pl_exec p) eqn:Ex.
  - destruct (W Ex) as [_ S M L H' _]. cbn zeta. rewrite diram_iram. unfold esp_ptr_diram_dram_to_iram, SOC_DIRAM_IRAM_LOW, SOC_DIRAM_IRAM_HIGH, SOC_DIRAM_DRAM_LOW, SOC_DIRAM_DRAM_HIGH in *.
    Z.to_euclidean_division_equations. lia.
  - split; [lia|]. destruct (esp_ptr_in_diram_iram (bu_ptr (pl_buf p))) eqn:E; [|done]. apply diram_iram in E. lia.
Qed.
(** The pointer to free. *)
Lemma place_block hs pls p : Inv hs pls -> p ∈ pls -> place_wf p ->
  (if esp_ptr_in_diram_iram (place_ptr p) then load32_at hs (place_ptr p - 4) else place_ptr p) = bu_ptr (pl_buf p).
Proof.
  intros I Hp W. destruct (place_alias hs pls p I Hp W) as [_ ->]. destruct (inv_place hs pls p I Hp) as (e & h & He & Hh & (O1 & O2 & O3 & O4 & _) & Hb & S & Hm & Hlo & Hhi).
  unfold place_ptr. destruct (pl_exec p) eqn:Ex; [|done]. destruct (W Ex) as [W1 W2 W3 W4 W5 W6]. cbn zeta. set (w := bu_ptr (pl_buf p) + lenZ (bu_data (pl_buf p)) - 4).
  replace (esp_ptr_diram_dram_to_iram w + 4 - 4) with (esp_ptr_diram_dram_to_iram w + 4 + -4) by lia.
  assert (Ep : physical (esp_ptr_diram_dram_to_iram w + 4 + -4) = w).
  { rewrite physical_alias by (try (unfold w; lia); unfold w; Z.to_euclidean_division_equations; lia). change (-4 / 4) with (-1). change (-4 mod 4) with 0. lia. }
  unfold load32_at. rewrite Ep, (inv_find hs pls (pl_heap p) e h) by (done || (unfold w; lia)).
  apply load32_word_bytes; [unfold is_u32; lia|]. destruct (serves_range h (pl_buf p) _ S Hb) as (_ & _ & _ & _ & Rd).
  rewrite <- W6. rewrite <- Rd at 2. unfold lenZ in *. rewrite drop_read_bytes by lia. replace (bu_ptr (pl_buf p) + Z.of_nat (length (bu_data (pl_buf p)) - 4)) with w by (unfold w, lenZ; lia).
  f_equal. lia.
Qed.

Lemma inv_drop hs pls p e h h' : Inv hs (p :: pls) -> hs !! pl_heap p = Some e -> hp_heap e = Some h -> same_range h h' ->
  serves h' (bufs (pl_heap p) pls) -> Inv (set_heap (pl_heap p) h' hs) pls /\ caps_kept hs (set_heap (pl_heap p) h' hs).
Proof.
  intros I He Hh Hr S. split; [|by eapply caps_kept_set]. eapply inv_set_heap; [exact I|done|done|done|exact S| |].
  - intros j Hj. by rewrite bufs_cons_ne by congruence.
  - intros q Hq. left. by right.
Qed.
Lemma place_heap hs pls p : Inv hs (p :: pls) -> exists e h, hs !! pl_heap p = Some e /\ hp_heap e = Some h /\ serves h (pl_buf p :: bufs (pl_heap p) pls) /\
  find_containing_heap hs (bu_ptr (pl_buf p)) = Some (pl_heap p, h) /\ bu_ptr (pl_buf p) <> 0.
Proof.
  intros I. destruct (inv_place hs _ p I ltac:(by left)) as (e & h & He & Hh & (O1 & _) & _ & S & Hm & Hlo & Hhi).
  rewrite bufs_cons_eq in S. pose proof (lenZ_nonneg (bu_data (pl_buf p))). exists e, h. split; [done|]. split; [done|]. split; [done|].
  split; [eapply inv_find; [exact I|done|done|lia]|lia].
Qed.

(** A call that took a place away. *)
Definition took st st' pls : Prop := Inv (registered_heaps st') pls /\ caps_kept (registered_heaps st) (registered_heaps st').

Lemma caps_free_place st pls p : Inv (registered_heaps st) (p :: pls) -> place_wf p -> bu_aligned (pl_buf p) = false ->
  exists st', heap_caps_free (place_ptr p) st = Ok st' /\ took st st' pls.
Proof.
  intros I W Ha. destruct (place_heap _ pls p I) as (e & h & He & Hh & S & F & _). destruct (place_alias _ _ p I ltac:(by left) W) as [Hz _].
  pose proof (place_block _ _ p I ltac:(by left) W) as B. unfold heap_caps_free. rewrite (proj2 (Z.eqb_neq _ _) Hz). cbv zeta. rewrite B, F.
  destruct (serves_free h _ _ S Ha) as (h' & -> & R & S'). ostep. eexists. split; [done|]. by apply (inv_drop _ _ _ e h).
Qed.
Lemma aligned_free_place st pls p : Inv (registered_heaps st) (p :: pls) -> pl_exec p = false -> bu_aligned (pl_buf p) = true ->
  exists st', heap_caps_aligned_free (place_ptr p) st = Ok st' /\ took st st' pls.
Proof.
  intros I Hx Ha. destruct (place_heap _ pls p I) as (e & h & He & Hh & S & F & Hz). unfold heap_caps_aligned_free, place_ptr. rewrite Hx.
  rewrite (proj2 (Z.eqb_neq _ _) Hz), F. destruct (serves_aligned_free h _ _ S Ha) as (h' & -> & R & S'). ostep. eexists. split; [done|].
  by apply (inv_drop _ _ _ e h).
Qed.

(** ** The contents of a new buffer *)
Lemma length_load_at hs a n : length (load_at hs a n) = n.
Proof. revert a. induction n as [|n IH]; intros a; [done|]. cbn. by rewrite IH. Qed.
Lemma lookup_load_at hs a n k v : load_at hs a n !! k = Some v <-> (k < n)%nat /\ v = load8_at hs (a + Z.of_nat k).
Proof.
  revert a k. induction n as [|n IH]; intros a k; cbn [load_at]; [rewrite lookup_nil; split; [done|lia]|]. destruct k as [|k]; cbn [lookup list_lookup].
  - rewrite Z.add_0_r. split; [intros [= <-]; split; [lia|done]|by intros [_ ->]].
  - rewrite IH. replace (a + 1 + Z.of_nat k) with (a + Z.of_nat (S k)) by lia.
    split; intros [? ?]; (split; [lia|done]).
Qed.
Lemma load8_at_byte hs a : is_byte (load8_at hs a).
Proof. unfold load8_at. destruct (find_containing_heap hs (physical a)) as [[i h]|]; [apply load8_range|unfold is_byte; lia]. Qed.
Lemma load_at_bytes hs a n : Forall is_byte (load_at hs a n).
Proof. apply Forall_lookup. intros k v [_ ->]%lookup_load_at. apply load8_at_byte. Qed.
Lemma load_at_app hs a n k : load_at hs a (n + k) = load_at hs a n ++ load_at hs (a + Z.of_nat n) k.
Proof. revert a. induction n as [|n IH]; intros a; cbn [Nat.add load_at app]; [by rewrite Z.add_0_r|]. rewrite IH. do 3 f_equal. lia. Qed.

Lemma image_loaded hs pls p caps (n : nat) : Inv hs pls -> p ∈ pls -> place_wf p -> (n <= place_room p)%nat ->
  image (mkCbuf (place_ptr p) caps (bu_aligned (pl_buf p)) (load_at hs (place_ptr p) n)) p.
Proof.
  intros I Hp W Hn. split; [done|done|done|cbn; by rewrite length_load_at|]. intros k v [Hk ->]%lookup_load_at. eapply load_place; try done. lia.
Qed.
(** What a client has is in the memory. *)
Lemma image_read hs pls p cb : Inv hs pls -> p ∈ pls -> image cb p -> load_at hs (cb_ptr cb) (length (cb_data cb)) = cb_data cb.
Proof.
  intros I Hp [W P A R D]. apply list_eq_same_length with (length (cb_data cb)); [done|by rewrite length_load_at|].
  intros k x y Hk [_ ->]%lookup_load_at Hy. apply D in Hy. rewrite P. rewrite (load_place hs pls p k) in Hy by (done || lia). by injection Hy.
Qed.

(** A new buffer that is filled. *)
Lemma fill_place hs pls p caps (n : nat) bytes : Inv hs (p :: pls) -> place_wf p -> (n <= place_room p)%nat -> Forall is_byte bytes -> (length bytes <= n)%nat ->
  exists hs' p', store_at (place_ptr p) bytes hs = Ok hs' /\ caps_kept hs hs' /\ pl_heap p' = pl_heap p /\ Inv hs' (p' :: pls) /\
    image (mkCbuf (place_ptr p) caps (bu_aligned (pl_buf p)) (bytes ++ load_at hs (place_ptr p + lenZ bytes) (n - length bytes))) p'.
Proof.
  intros I W Hn B Hb. pose proof (image_loaded hs (p :: pls) p caps n I ltac:(by left) W Hn) as M.
  destruct (store_bytes bytes hs pls p _ 0 I M B) as (hs' & p' & E & K & Hp & I' & M'); [cbn; rewrite length_load_at; lia|]. cbn [cb_ptr] in E. rewrite Z.add_0_r in E.
  exists hs', p'. split_and!; try done. unfold set_cdata in M'. cbn [cb_data cb_ptr cb_caps cb_aligned] in M'. replace n with (length bytes + (n - length bytes))%nat in M' by lia.
  rewrite load_at_app in M'. pose proof (patch_app [] (load_at hs (place_ptr p) (length bytes) ++ load_at hs (place_ptr p + lenZ bytes) (n - length bytes)) 0 bytes eq_refl) as Ep.
  cbn [app] in Ep. unfold lenZ in Ep. rewrite Ep in M'. rewrite drop_app_length' in M' by (by rewrite length_load_at). exact M'.
Qed.

(** ** Resizing *)

(** The buffer of [size] bytes at [ret]: the data [old] kept, the rest as found. *)
Definition cnew hs (ret caps : Z) (al : bool) (size : Z) (old : list Z) : cbuf :=
  let kept := take (Z.to_nat size) old in
  mkCbuf ret caps al (kept ++ load_at hs (ret + lenZ kept) (Z.to_nat size - length kept)).

Lemma image_cnew hs pls p caps size old : Inv hs pls -> p ∈ pls -> place_wf p -> (Z.to_nat size <= place_room p)%nat ->
  (forall k v, take (Z.to_nat size) old !! k = Some v -> bu_data (pl_buf p) !! place_off p k = Some v) ->
  image (cnew hs (place_ptr p) caps (bu_aligned (pl_buf p)) size old) p.
Proof.
  intros I Hp W Hn Hk. assert (L : (length (take (Z.to_nat size) old) <= Z.to_nat size)%nat) by (rewrite length_take; lia).
  unfold cnew. split; [done|done|done|..]; cbn [cb_data].
  - rewrite length_app, length_load_at. lia.
  - intros k v [Ht|[Hge [Hlt ->]%lookup_load_at]]%lookup_app_Some; [by apply Hk|]. unfold lenZ.
    replace (place_ptr p + _ + _) with (place_ptr p + Z.of_nat k) by lia. eapply load_place; try done. lia.
Qed.

(** A resized buffer: refused, or at a place of its own with its data. *)
Definition resized st st' pls p cb (ret size caps : Z) : Prop :=
  caps_kept (registered_heaps st) (registered_heaps st') /\
  if ret =? 0 then Inv (registered_heaps st') (p :: pls)
  else exists q, Inv (registered_heaps st') (q :: pls) /\ has_caps (registered_heaps st') (pl_heap q) caps /\
         image (cnew (registered_heaps st') ret caps false size (cb_data cb)) q.

Lemma move_place st pls p cb size caps : Inv (registered_heaps st) (p :: pls) -> image cb p -> cb_aligned cb = false -> 0 < size ->
  exists ret st', realloc_elsewhere (cb_ptr cb) (bu_ptr (pl_buf p)) (pl_heap p) size caps st = Ok (ret, st') /\ resized st st' pls p cb ret size caps.
Proof.
  intros I M Ha Hs. rewrite (im_aligned _ _ M) in Ha. unfold realloc_elsewhere.
  destruct (malloc_place st (p :: pls) size caps I ltac:(lia)) as (ret & st2 & -> & [[-> ->]|(Hr & q & -> & Wq & [Aq Rq] & I2 & C2 & K2)]); ostep.
  { exists 0, st. split; [done|]. split; [apply caps_kept_refl|done]. }
  rewrite (proj2 (Z.eqb_neq _ _) Hr). assert (I2' : Inv (registered_heaps st2) (p :: q :: pls)) by (eapply inv_perm; [apply Permutation_swap|done]).
  destruct (place_heap _ _ p I2') as (e & h & He & Hh & S & _). rewrite He. cbn [mbind option_bind]. rewrite Hh.
  destruct (serves_size h _ _ S Ha) as (n & -> & Hn & Hl). ostep. oassert ltac:(by apply Z.ltb_lt).
  set (bytes := load_at (registered_heaps st2) (cb_ptr cb) (Z.to_nat (Z.min size n))). assert (Lb : length bytes = Z.to_nat (Z.min size n)) by apply length_load_at.
  destruct (fill_place _ (p :: pls) q caps (Z.to_nat size) bytes I2 Wq ltac:(lia) ltac:(apply load_at_bytes) ltac:(lia)) as (hs3 & q3 & E3 & K3 & Hq3 & I3 & M3).
  rewrite E3. ostep. rewrite Aq in M3.
  destruct (caps_free_place (set_heaps hs3 st2) (q3 :: pls) p) as (st4 & E4 & I4 & K4); [eapply inv_perm; [apply Permutation_swap|done]|apply M|done|].
  rewrite <- (im_ptr _ _ M) in E4. rewrite E4. ostep. exists (place_ptr q), st4. split; [done|].
  assert (K : caps_kept (registered_heaps st2) (registered_heaps st4)) by (eapply caps_kept_trans; [exact K3|exact K4]).
  split; [by eapply caps_kept_trans|]. rewrite (proj2 (Z.eqb_neq _ _) Hr). exists q3. split; [done|]. split; [rewrite Hq3; by apply K|].
  pose proof (im_ptr _ _ M3) as P3. pose proof (im_aligned _ _ M3) as A3. pose proof (im_room _ _ M3) as R3. cbn [cb_ptr cb_aligned cb_data] in P3, A3, R3.
  rewrite P3, A3. rewrite length_app, length_load_at in R3. apply (image_cnew _ (q3 :: pls)); [done|by left|apply M3|lia|].
  intros k v Hk. apply (im_data _ _ M3). cbn [cb_data]. apply lookup_take_Some in Hk as [Hk Hlt]. pose proof (lookup_lt_Some _ _ _ Hk). pose proof (im_room _ _ M). pose proof (place_room_data p). unfold lenZ in Hl.
  apply lookup_app_l_Some. apply lookup_load_at. split; [lia|]. rewrite <- (image_read _ _ p cb I2' ltac:(by left) M) in Hk. by apply lookup_load_at in Hk as [_ ->].
Qed.

Lemma place_inplace st pls p cb size caps h e : Inv (registered_heaps st) (p :: pls) -> image cb p -> cb_aligned cb = false -> 0 < size <= HEAP_SIZE_MAX -> pl_exec p = false ->
  registered_heaps st !! pl_heap p = Some e -> hp_heap e = Some h -> Z.land caps (get_all_caps e) = caps ->
  exists ret h', multi_heap_realloc_impl h (bu_ptr (pl_buf p)) size = Ok (ret, h') /\ resized st (set_heaps (set_heap (pl_heap p) h' (registered_heaps st)) st) pls p cb ret size caps.
Proof.
  intros I M Ha Hs Hx He Hh Hc. unfold HEAP_SIZE_MAX, SOC_MAX_CONTIGUOUS_RAM_SIZE in Hs. rewrite (im_aligned _ _ M) in Ha.
  pose proof (inv_serves _ _ I _ _ _ He Hh) as S. rewrite bufs_cons_eq in S. destruct (serves_realloc h _ _ size S Ha ltac:(lia)) as (ret & h' & -> & R & S').
  exists ret, h'. split; [done|]. assert (K : caps_kept (registered_heaps st) (set_heap (pl_heap p) h' (registered_heaps st))) by (by eapply caps_kept_set).
  split; [done|]. cbn [set_heaps registered_heaps]. destruct (Z.eqb_spec ret 0) as [->|Hr]; [by eapply inv_change|].
  set (bu := new_buf h' ret false size (bu_data (pl_buf p))) in *. set (q := mkPlace (pl_heap p) false bu).
  assert (I' : Inv (set_heap (pl_heap p) h' (registered_heaps st)) (q :: pls)) by (by eapply inv_change).
  exists q. split; [exact I'|]. split; [apply K; exists e, h; split_and!; try done; by rewrite Z.land_comm|].
  set (t := take (Z.to_nat size) (bu_data (pl_buf p))). assert (Lt : (length t <= Z.to_nat size)%nat) by (unfold t; rewrite length_take; lia).
  apply (image_cnew _ (q :: pls) q); [done|by left|done| |].
  - unfold place_room, q, bu, new_buf. cbn [pl_exec pl_buf bu_data]. fold t. rewrite length_app, length_read_bytes. lia.
  - intros k v [Hk Hlt]%lookup_take_Some. apply (im_data _ _ M) in Hk. unfold place_off in *. rewrite Hx in Hk. unfold q, bu, new_buf. cbn [pl_exec pl_buf bu_data].
    apply lookup_app_l_Some. by apply lookup_take_Some.
Qed.

Lemma realloc_place st pls p cb size caps : Inv (registered_heaps st) (p :: pls) -> image cb p -> cb_aligned cb = false -> 0 < size ->
  exists ret st', heap_caps_realloc (cb_ptr cb) size caps st = Ok (ret, st') /\ resized st st' pls p cb ret size caps.
Proof.
  intros I M Ha Hs. pose proof (im_wf _ _ M) as W. destruct (place_alias _ _ p I ltac:(by left) W) as [Hz Ex].
  pose proof (place_block _ _ p I ltac:(by left) W) as B. destruct (place_heap _ _ p I) as (e & h & He & Hh & S & F & _).
  unfold heap_caps_realloc. rewrite <- (im_ptr _ _ M) in *. rewrite (proj2 (Z.eqb_neq _ _) Hz), (proj2 (Z.eqb_neq size 0)) by lia. cbv zeta. rewrite B, Ex.
  destruct (Z.ltb_spec HEAP_SIZE_MAX size) as [|Hmax]; [exists 0, st; split; [done|]; split; [apply caps_kept_refl|done]|].
  rewrite F, He. destruct (Z.eqb_spec (Z.land caps (get_all_caps e)) caps) as [Hc|_]; [destruct (pl_exec p) eqn:Hx|]; cbn [andb negb].
  1, 3: ostep; by apply move_place.
  destruct (place_inplace st pls p cb size caps h e I M Ha ltac:(lia) Hx He Hh Hc) as (r & h' & Er & Rz).
  rewrite Ex in B. rewrite <- B in Er. rewrite Er. do 2 (ostep; cbv iota).
  destruct (Z.eqb_spec r 0) as [->|Hr]; [|by eexists _, _]. destruct Rz as [K I']. cbn [Z.eqb] in I'.
  destruct (move_place _ pls p cb size caps I' M Ha Hs) as (ret & st' & E & K' & Rz). exists ret, st'. split; [exact E|]. split; [by eapply caps_kept_trans|exact Rz].
Qed.

(** ** Cleared and aligned allocations *)
Definition aligned_caps (caps : Z) : Z := Z.land caps (Z.lor MALLOC_CAP_DEFAULT MALLOC_CAP_SPIRAM).

Lemma aligned_place st pls al size caps : Inv (registered_heaps st) pls -> 0 <= al < 2 ^ 32 -> 0 <= size ->
  exists ret st', heap_caps_aligned_alloc al size caps st = Ok (ret, st') /\
    (ret = 0 /\ st' = st \/ gave st st' pls ret (aligned_caps caps) (usable true size)).
Proof.
  intros I Ha Hs. unfold heap_caps_aligned_alloc. assert (N : exists ret st', Ok (0, st) = Ok (ret, st') /\ (ret = 0 /\ st' = st \/ gave st st' pls ret (aligned_caps caps) (usable true size)))
    by (exists 0, st; split; [done|by left]).
  destruct (Z.eqb_spec al 0); [done|]. destruct (Z.eqb_spec (Z.land al (al - 1)) 0) as [Hp|]; cbn [negb]; [|done].
  destruct (Z.ltb_spec HEAP_SIZE_MAX size) as [|Hm]; [done|]. cbv zeta. fold (aligned_caps caps). destruct (_ =? 0); [done|]. clear N.
  assert (Hal : al <= 2 ^ 31).
  { destruct (pow2_of_land al ltac:(lia) Hp) as (k & Hk & ->). apply Z.pow_le_mono_r; [lia|]. destruct Ha as [_ Ha]. apply Z.pow_lt_mono_r_iff in Ha; lia. }
  unfold HEAP_SIZE_MAX, SOC_MAX_CONTIGUOUS_RAM_SIZE in Hm.
  destruct (search_place (fun _ h => multi_heap_aligned_alloc_impl h size al) (aligned_caps caps) (usable true size) st pls I) as (ret & hs' & -> & H).
  { intros i e h He Hh O S. destruct (serves_aligned h _ size al S Hs ltac:(lia) ltac:(lia)) as (ret & h' & E & E0 & R & S').
    exists ret, h'. split; [done|]. split; [done|]. split; [done|]. intros Hr. exists (mkPlace i false (new_buf h' ret true size [])).
    split; [done|]. split; [done|]. split; [done|]. split; [|by apply S']. split; [done|]. unfold place_room, new_buf. cbn. rewrite take_nil. cbn.
    rewrite length_read_bytes. simpl. lia. }
  ostep. exists ret, (set_heaps hs' st). split; [done|]. destruct H as [(-> & -> & _)|(Hr & p & H)]; [left; split; [done|by destruct st]|].
  right. split; [done|]. by exists p.
Qed.

Lemma zeros_bytes n : Forall is_byte (repeat 0 n).
Proof. induction n; [constructor|]. constructor; [unfold is_byte; lia|done]. Qed.

(** Memory that was given, cleared. *)
Definition given_cleared st st' pls (ret caps size : Z) (al : bool) : Prop :=
  ret <> 0 /\ exists p, Inv (registered_heaps st') (p :: pls) /\ has_caps (registered_heaps st') (pl_heap p) caps /\
    image (mkCbuf ret caps al (repeat 0 (Z.to_nat size))) p /\ caps_kept (registered_heaps st) (registered_heaps st').
Lemma clear_place st st' pls ret caps al size : gave st st' pls ret caps (usable al size) ->
  exists hs', store_at ret (repeat 0 (Z.to_nat size)) (registered_heaps st') = Ok hs' /\ given_cleared st (set_heaps hs' st') pls ret caps size al.
Proof.
  intros (Hr & p & -> & W & [Al R] & I & C & K). destruct (fill_place _ pls p caps (Z.to_nat size) (repeat 0 (Z.to_nat size)) I W ltac:(lia) (zeros_bytes _)) as (hs' & p' & E & K' & Hp & I' & M');
    [by rewrite repeat_length|]. exists hs'. split; [done|]. split; [done|]. exists p'. split; [done|]. split; [rewrite Hp; by apply K'|].
  rewrite repeat_length, Nat.sub_diag, app_nil_r, Al in M'. split; [done|]. by eapply caps_kept_trans.
Qed.

Lemma calloc_place st pls n size caps : Inv (registered_heaps st) pls -> 0 <= n -> 0 <= size ->
  exists ret st', heap_caps_calloc n size caps st = Ok (ret, st') /\ (ret = 0 /\ st' = st \/ given_cleared st st' pls ret caps (n * size) false).
Proof.
  intros I Hn Hs. unfold heap_caps_calloc. destruct (mul_overflow n size); [exists 0, st; split; [done|by left]|].
  destruct (malloc_place st pls (n * size) caps I ltac:(nia)) as (ret & st2 & -> & [[-> ->]|G]); ostep; [exists 0, st; split; [done|by left]|].
  rewrite (proj2 (Z.eqb_neq _ _)) by apply G. destruct (clear_place _ _ _ _ _ _ _ G) as (hs' & -> & Cl). ostep. eexists ret, _. split; [done|by right].
Qed.
Lemma aligned_calloc_place st pls al n size caps : Inv (registered_heaps st) pls -> 0 <= al < 2 ^ 32 -> 0 <= n -> 0 <= size ->
  exists ret st', heap_caps_aligned_calloc al n size caps st = Ok (ret, st') /\ (ret = 0 /\ st' = st \/ given_cleared st st' pls ret (aligned_caps caps) (n * size) true).
Proof.
  intros I Ha Hn Hs. unfold heap_caps_aligned_calloc. destruct (mul_overflow n size); [exists 0, st; split; [done|by left]|].
  destruct (aligned_place st pls al (n * size) caps I Ha ltac:(nia)) as (ret & st2 & -> & [[-> ->]|G]); ostep; [exists 0, st; split; [done|by left]|].
  rewrite (proj2 (Z.eqb_neq _ _)) by apply G. destruct (clear_place _ _ _ _ _ _ _ G) as (hs' & -> & Cl). ostep. eexists ret, _. split; [done|by right].
Qed.
End calls.
