(* ===== verification/HeapCapsHistory.v ===== *)
(** * Heaps by capability: start-up and histories of calls

    A client allocates, resizes, writes and frees; a history of its calls is run on
    the heaps and on the list of its buffers side by side.  [sys] are the places of the
    system: the array of the heaps.  [heap_caps_init] makes the heaps out of the
    available memory; from then on every legal history is served. *)
From S2P Require Import Prelude EspFlash Mem Heap HeapInv HeapOps HeapCalls HeapClient HeapCheck MemoryLayout HeapCaps HeapCapsClient HeapCapsCalls.

Inductive ccall :=
  | CMalloc (size caps : Z)
  | CCalloc (n size caps : Z)
  | CFree (p : Z)
  | CRealloc (p size caps : Z)
  | CAlignedAlloc (alignment size caps : Z)
  | CAlignedCalloc (alignment n size caps : Z)
  | CAlignedFree (p : Z)
  | CMallocDefault (size : Z)
  | CReallocDefault (p size : Z)
  | CExtmemEnable (limit : Z)
  | CEnableStacks (m : mem)
  | CAddRegion (caps : list Z) (start end_ : Z) (m : mem)
  | CWrite (p off : Z) (bytes : list Z).

(** The buffer of [live] at [p] that [k] accepts, and the others. *)
Fixpoint cextract (k : cbuf -> bool) (p : Z) (live : list cbuf) : option (cbuf * list cbuf) :=
  match live with
  | [] => None
  | cb :: live =>
      if (cb_ptr cb =? p) && k cb then Some (cb, live)
      else '(b, rest) ← cextract k p live; Some (b, cb :: rest)
  end.
Definition cplain (cb : cbuf) : bool := negb (cb_aligned cb).
Definition cany (cb : cbuf) : bool := true.
Definition holds_at (k : cbuf -> bool) (p : Z) (live : list cbuf) : bool := (p =? 0) || bool_decide (is_Some (cextract k p live)).

(** What the client may do: it frees, resizes and writes what it holds.  The heaps at
    the stacks of the start-up code are enabled only if they are not too large, and a
    region is added only if its memory is not part of a heap. *)
Definition region_free (start end_ : Z) (e : caps_heap_t) : bool := (hp_end e <=? start) || (end_ <=? hp_start e).
Definition clegal (st : caps_state) (live : list cbuf) (c : ccall) : bool :=
  match c with
  | CMalloc size _ | CMallocDefault size => 0 <=? size
  | CCalloc n size _ => (0 <=? n) && (0 <=? size)
  | CFree p => holds_at cplain p live
  | CRealloc p size _ | CReallocDefault p size => (0 <=? size) && holds_at cplain p live
  | CAlignedAlloc al size _ => (0 <=? al) && (al <? 2 ^ 32) && (0 <=? size)
  | CAlignedCalloc al n size _ => (0 <=? al) && (al <? 2 ^ 32) && (0 <=? n) && (0 <=? size)
  | CAlignedFree p => holds_at cb_aligned p live
  | CExtmemEnable _ => true
  | CEnableStacks _ => forallb (fun e => hp_end e - hp_start e <=? HEAP_SIZE_MAX) (registered_heaps st)
  | CAddRegion _ start end_ _ =>
      (0 <? start) && (start <? end_) && (end_ <? 2 ^ 31 - 8) && ((end_ <=? SOC_DIRAM_IRAM_LOW) || (SOC_DIRAM_IRAM_HIGH <=? start)) &&
      (negb (esp_ptr_in_diram_dram start) || (end_ <=? SOC_DIRAM_DRAM_HIGH)) && forallb (region_free start end_) (registered_heaps st)
  | CWrite p off bytes =>
      bool_decide (Forall is_byte bytes) &&
      match cextract cany p live with Some (cb, _) => (0 <=? off) && (off + lenZ bytes <=? lenZ (cb_data cb)) | None => false end
  end.

(** The list after a call that returned [ret]. *)
Definition given_live (st : caps_state) (ret caps : Z) (al : bool) (size : Z) (live : list cbuf) : list cbuf :=
  if ret =? 0 then live else cnew (registered_heaps st) ret caps al size [] :: live.
Definition cleared_live (ret caps : Z) (al : bool) (size : Z) (live : list cbuf) : list cbuf :=
  if ret =? 0 then live else mkCbuf ret caps al (repeat 0 (Z.to_nat size)) :: live.
Definition cdropped (k : cbuf -> bool) (p : Z) (live : list cbuf) : list cbuf :=
  match cextract k p live with Some (_, rest) => rest | None => live end.
Definition resized_live (st : caps_state) (ret p size caps : Z) (live : list cbuf) : list cbuf :=
  match cextract cplain p live with
  | Some (cb, rest) => if ret =? 0 then (if size =? 0 then rest else cb :: rest) else cnew (registered_heaps st) ret caps false size (cb_data cb) :: rest
  | None => given_live st ret caps false size live
  end.

(** One call on the heaps and on the client's list. *)
Definition cstep (c : ccall) (st : caps_state) (live : list cbuf) : outcome (Z * caps_state * list cbuf) :=
  match c with
  | CMalloc size caps => '(ret, st) ← heap_caps_malloc size caps st; Ok (ret, st, given_live st ret caps false size live)
  | CCalloc n size caps => '(ret, st) ← heap_caps_calloc n size caps st; Ok (ret, st, cleared_live ret caps false (n * size) live)
  | CFree p => st ← heap_caps_free p st; Ok (0, st, cdropped cplain p live)
  | CRealloc p size caps => '(ret, st) ← heap_caps_realloc p size caps st; Ok (ret, st, resized_live st ret p size caps live)
  | CAlignedAlloc al size caps => '(ret, st) ← heap_caps_aligned_alloc al size caps st; Ok (ret, st, given_live st ret (aligned_caps caps) true size live)
  | CAlignedCalloc al n size caps => '(ret, st) ← heap_caps_aligned_calloc al n size caps st; Ok (ret, st, cleared_live ret (aligned_caps caps) true (n * size) live)
  | CAlignedFree p => st ← heap_caps_aligned_free p st; Ok (0, st, cdropped cb_aligned p live)
  | CMallocDefault size => '(ret, st) ← heap_caps_malloc_default size st; Ok (ret, st, given_live st ret MALLOC_CAP_DEFAULT false size live)
  | CReallocDefault p size => '(ret, st) ← heap_caps_realloc_default p size st; Ok (ret, st, resized_live st ret p size MALLOC_CAP_DEFAULT live)
  | CExtmemEnable limit => Ok (0, heap_caps_malloc_extmem_enable limit st, live)
  | CAddRegion caps start end_ m => '(err, st) ← heap_caps_add_region_with_caps (Some caps) start end_ m st; Ok (err, st, live)
  | CEnableStacks m => st ← heap_caps_enable_nonos_stack_heaps m st; Ok (0, st, live)
  | CWrite p off bytes =>
      hs ← store_at (p + off) bytes (registered_heaps st);
      Ok (0, set_heaps hs st,
        match cextract cany p live with
        | Some (cb, rest) => set_cdata cb (patch (cb_data cb) (Z.to_nat off) bytes) :: rest
        | None => live
        end)
  end.
Fixpoint crun (cs : list ccall) (st : caps_state) (live : list cbuf) : outcome (list Z * caps_state * list cbuf) :=
  match cs with
  | [] => Ok ([], st, live)
  | c :: cs => '(ret, st, live) ← cstep c st live; '(rets, st, live) ← crun cs st live; Ok (ret :: rets, st, live)
  end.
(** Every call is legal when it is made. *)
Fixpoint clegal_run (cs : list ccall) (st : caps_state) (live : list cbuf) : bool :=
  match cs with
  | [] => true
  | c :: cs => clegal st live c && match cstep c st live with Ok (_, st, live) => clegal_run cs st live | _ => true end
  end.

(** What the client sees: its buffers are word-aligned, contain what they must, are in a
    heap with the capabilities, and apart from each other. *)
Record cdelivered (hs : list caps_heap_t) (live : list cbuf) : Prop := {
  cd_buf : Forall (fun cb => cb_ptr cb mod 4 = 0 /\ load_at hs (cb_ptr cb) (length (cb_data cb)) = cb_data cb /\
             exists i e, hs !! i = Some e /\ has_caps hs i (cb_caps cb) /\
               forall k, (k < length (cb_data cb))%nat -> hp_start e <= physical (cb_ptr cb + Z.of_nat k) < hp_end e) live;
  cd_apart : forall i j u v k l, live !! i = Some u -> live !! j = Some v -> i <> j -> (k < length (cb_data u))%nat -> (l < length (cb_data v))%nat ->
             physical (cb_ptr u + Z.of_nat k) <> physical (cb_ptr v + Z.of_nat l)
}.

Section history.
Implicit Types (hs : list caps_heap_t) (pls : list place) (p : place) (st : caps_state) (cb : cbuf) (live : list cbuf).

(** ** New heaps *)

(** A heap that is registered where none is. *)
Definition newly_registered (m : mem) (e f : caps_heap_t) : Prop :=
  f = e \/ hp_heap e = None /\ f = e <| hp_heap := multi_heap_register_impl (hp_start e) (u32 (hp_end e - hp_start e)) m |>.

Lemma register_serves m start size h : 0 < start -> 0 <= size -> start + size < 2 ^ 31 - 8 -> multi_heap_register_impl start size m = Some h ->
  serves h [] /\ start <= heap_addr h /\ last_block h < start + size.
Proof.
  intros H1 H2 H3 E. destruct (register_held start size m h H1 H2 ltac:(lia) E) as (l & S). pose proof (register_run start size m H1 H2 ltac:(lia)) as R. cbv zeta in R.
  destruct (_ <? 40); [congruence|]. destruct R as (h' & E' & R1 & R2 & _). rewrite E in E'. injection E' as <-.
  split; [by exists l, []|]. rewrite R1, R2. rewrite align_up_4 by lia. change (align_down 4 (start + size)) with (align_down (2 ^ 2) (start + size)). rewrite align_down_pow2 by lia.
  change (2 ^ 2) with 4. Z.to_euclidean_division_equations. lia.
Qed.
Lemma registered_ok m e f : newly_registered m e f -> heap_ok e -> heap_ok f /\ hp_start f = hp_start e /\ hp_end f = hp_end e /\
  (hp_heap e = None -> forall h, hp_heap f = Some h -> serves h []).
Proof.
  intros [->|[Hn ->]] O; [split; [done|]; split; [done|]; split; [done|]; by intros ->|].
  destruct O as (O1 & O2 & O3 & O4 & _). unfold heap_ok. cbn. rewrite u32_small by (unfold is_u32; lia).
  assert (S : forall h, multi_heap_register_impl (hp_start e) (hp_end e - hp_start e) m = Some h -> serves h [] /\ hp_start e <= heap_addr h /\ last_block h < hp_end e).
  { intros h Hh. destruct (register_serves m (hp_start e) (hp_end e - hp_start e) h ltac:(lia) ltac:(lia) ltac:(lia) Hh) as (? & ? & ?). split; [done|]. lia. }
  split; [|split; [done|]; split; [done|]; intros _ h Hh; by apply S]. split_and!; try done; try lia.
  destruct (multi_heap_register_impl _ _ m); [|done]. by apply S.
Qed.

Lemma registered_inv m hs hs' pls : Inv hs pls -> Forall2 (newly_registered m) hs hs' -> Inv hs' pls /\ caps_kept hs hs'.
Proof.
  intros I F. assert (G : forall i f, hs' !! i = Some f -> exists e, hs !! i = Some e /\ newly_registered m e f /\ heap_ok f /\ hp_start f = hp_start e /\ hp_end f = hp_end e /\
    (hp_heap e = None -> forall h, hp_heap f = Some h -> serves h [])).
  { intros i f Hf. destruct (Forall2_lookup_r _ _ _ _ _ F Hf) as (e & He & R). exists e. split; [done|]. split; [done|]. eapply registered_ok; [done|by eapply inv_ok]. }
  assert (Kp : forall i e h, hs !! i = Some e -> hp_heap e = Some h -> hs' !! i = Some e).
  { intros i e h He Hh. destruct (Forall2_lookup_l _ _ _ _ _ F He) as (f & Hf & [->|[? _]]); [done|congruence]. }
  split; [split|].
  - intros i f Hf. by destruct (G i f Hf) as (e & _ & _ & O & _).
  - intros i j f g Hf Hg Hne. destruct (G i f Hf) as (e & He & _ & _ & E1 & E2 & _). destruct (G j g Hg) as (e2 & He2 & _ & _ & E3 & E4 & _).
    unfold heaps_apart. rewrite E1, E2, E3, E4. by eapply (inv_apart _ _ I i j).
  - intros i f h Hf Hh. destruct (G i f Hf) as (e & He & R & _ & _ & _ & S). destruct (hp_heap e) as [g|] eqn:Eg.
    + assert (f = e) as -> by (destruct R as [->|[? _]]; [done|congruence]). rewrite Eg in Hh. injection Hh as ->. by eapply inv_serves.
    + assert (bufs i pls = []) as ->; [|by apply S]. unfold bufs. assert (N : filter (fun p => pl_heap p = i) pls = []); [|by rewrite N].
      apply elem_of_nil_inv. intros p [Hp Hin]%list_elem_of_filter. destruct (inv_places _ _ I p Hin) as (e2 & h2 & H1 & H2). rewrite Hp in H1. congruence.
  - intros p Hp. destruct (inv_places _ _ I p Hp) as (e & h & H1 & H2). exists e, h. split; [by eapply Kp|done].
  - split; [intros i caps (e & h & He & Hh & Hc); exists e, h; split; [by eapply Kp|done]|].
    intros i f Hf. destruct (G i f Hf) as (e & He & _ & _ & E1 & E2 & _). by exists e.
Qed.
Lemma enable_run m hs : Forall (fun e => 0 <= hp_end e - hp_start e <= HEAP_SIZE_MAX) hs -> exists hs', enable_heaps m hs = Ok hs' /\ Forall2 (newly_registered m) hs hs'.
Proof.
  induction 1 as [|e hs He _ (hs' & IH & F)]; [by exists []|]. cbn [enable_heaps]. destruct (hp_heap e) as [h|] eqn:Eh.
  - ostep. rewrite IH. ostep. exists (e :: hs'). split; [done|]. constructor; [by left|done].
  - unfold register_heap. rewrite u32_small by (unfold is_u32, HEAP_SIZE_MAX, SOC_MAX_CONTIGUOUS_RAM_SIZE in *; lia). cbv zeta. rewrite cassert_bind by (apply Z.leb_le; lia). ostep. rewrite IH. ostep.
    eexists. split; [done|]. constructor; [|done]. right. split; [done|]. by rewrite u32_small by (unfold is_u32, HEAP_SIZE_MAX, SOC_MAX_CONTIGUOUS_RAM_SIZE in *; lia).
Qed.
Lemma enable_inv m hs pls : Inv hs pls -> Forall (fun e => hp_end e - hp_start e <= HEAP_SIZE_MAX) hs ->
  exists hs', enable_heaps m hs = Ok hs' /\ Inv hs' pls /\ caps_kept hs hs'.
Proof.
  intros I F. destruct (enable_run m hs) as (hs' & E & R).
  { apply Forall_lookup. intros i e He. pose proof (inv_ok _ _ I _ _ He) as [? _]. rewrite Forall_lookup in F. specialize (F i e He). lia. }
  exists hs'. split; [done|]. by eapply registered_inv.
Qed.

(** ** The places behind the buffers *)
Definition shown hs cb p : Prop := image cb p /\ has_caps hs (pl_heap p) (cb_caps cb).
Definition cheld st (sys : list place) live : Prop := exists pls, Inv (registered_heaps st) (pls ++ sys) /\ Forall2 (shown (registered_heaps st)) live pls.

Lemma shown_kept hs hs' live pls : caps_kept hs hs' -> Forall2 (shown hs) live pls -> Forall2 (shown hs') live pls.
Proof. intros K F. eapply Forall2_impl; [exact F|]. intros cb p [H1 H2]. split; [done|]. by apply K. Qed.
Lemma cheld_cons st st' sys live pls cb p : Forall2 (shown (registered_heaps st)) live pls -> caps_kept (registered_heaps st) (registered_heaps st') ->
  Inv (registered_heaps st') (p :: pls ++ sys) -> image cb p -> has_caps (registered_heaps st') (pl_heap p) (cb_caps cb) -> cheld st' sys (cb :: live).
Proof. intros F K I M C. exists (p :: pls). split; [done|]. constructor; [done|]. by eapply shown_kept. Qed.
Lemma cheld_kept st st' sys live pls : Forall2 (shown (registered_heaps st)) live pls -> caps_kept (registered_heaps st) (registered_heaps st') ->
  Inv (registered_heaps st') (pls ++ sys) -> cheld st' sys live.
Proof. intros F K I. exists pls. split; [done|]. by eapply shown_kept. Qed.

Lemma cextract_run k q live cb rest (P : cbuf -> place -> Prop) pls : cextract k q live = Some (cb, rest) -> Forall2 P live pls ->
  k cb = true /\ cb_ptr cb = q /\ exists p pls', pls ≡ₚ p :: pls' /\ P cb p /\ Forall2 P rest pls'.
Proof.
  revert rest pls. induction live as [|b live IH]; intros rest pls; [done|]. cbn [cextract]. intros E (c & pls' & Hc & HF & ->)%Forall2_cons_inv_l.
  destruct (Z.eqb_spec (cb_ptr b) q) as [Hp|_]; [destruct (k b) eqn:Hk|]; cbn [andb] in E;
    [injection E as -> ->; split; [done|]; split; [done|]; by exists c, pls'|..];
    (destruct (cextract k q live) as [[b2 rest']|]; [|done]; injection E as -> <-;
     destruct (IH _ pls' eq_refl HF) as (? & ? & b' & pls2 & E' & Hb' & HF'); split; [done|]; split; [done|];
     exists b', (c :: pls2); split; [rewrite E'; constructor|]; split; [done|by constructor]).
Qed.
Lemma cextract_held k q live cb rest st sys : cextract k q live = Some (cb, rest) -> cheld st sys live ->
  k cb = true /\ cb_ptr cb = q /\ exists p pls, Inv (registered_heaps st) (p :: pls ++ sys) /\ shown (registered_heaps st) cb p /\ Forall2 (shown (registered_heaps st)) rest pls.
Proof.
  intros E (pls & I & F). destruct (cextract_run _ _ _ _ _ _ _ E F) as (H1 & H2 & p & pls' & P & H3 & H4). split; [done|]. split; [done|].
  exists p, pls'. split; [|done]. eapply inv_perm; [|exact I]. by rewrite P.
Qed.
Lemma cextract_zero k st sys live : cheld st sys live -> cextract k 0 live = None.
Proof.
  intros H. destruct (cextract k 0 live) as [[cb rest]|] eqn:E; [|done]. destruct (cextract_held _ _ _ _ _ _ _ E H) as (_ & Hp & p & pls & I & [M _] & _).
  destruct (place_alias _ _ p I ltac:(by left) (im_wf _ _ M)) as [Hz _]. by rewrite <- (im_ptr _ _ M) in Hz.
Qed.
Lemma holds_cases k q live : holds_at k q live = true -> q = 0 \/ (q <> 0 /\ exists cb rest, cextract k q live = Some (cb, rest)).
Proof.
  unfold holds_at. destruct (Z.eqb_spec q 0) as [|Hq]; [by left|]. intros [[cb rest] E]%bool_decide_eq_true. right. split; [done|]. by exists cb, rest.
Qed.

(** ** The calls *)
Lemma given_held st st' sys live pls ret caps al size : Inv (registered_heaps st) (pls ++ sys) -> Forall2 (shown (registered_heaps st)) live pls ->
  ret = 0 /\ st' = st \/ gave st st' (pls ++ sys) ret caps (usable al size) -> 0 <= size -> cheld st' sys (given_live st' ret caps al size live).
Proof.
  intros I F G Hs. unfold given_live. destruct G as [[-> ->]|(Hr & p & -> & W & [Al R] & I' & C & K)]; [by exists pls|].
  rewrite (proj2 (Z.eqb_neq _ _) Hr). eapply cheld_cons; [exact F|exact K|exact I'| |exact C]. rewrite <- Al.
  eapply image_cnew; [exact I'|by left|done|lia|]. intros k v. rewrite take_nil. by rewrite lookup_nil.
Qed.
Lemma cleared_held st st' sys live pls ret caps al size : Inv (registered_heaps st) (pls ++ sys) -> Forall2 (shown (registered_heaps st)) live pls ->
  ret = 0 /\ st' = st \/ given_cleared st st' (pls ++ sys) ret caps size al -> cheld st' sys (cleared_live ret caps al size live).
Proof.
  intros I F [[-> ->]|(Hr & p & I' & C & M & K)]; unfold cleared_live; [by exists pls|]. rewrite (proj2 (Z.eqb_neq _ _) Hr). by eapply cheld_cons.
Qed.

Lemma malloc_cheld st sys live size caps : cheld st sys live -> 0 <= size ->
  exists ret st', heap_caps_malloc size caps st = Ok (ret, st') /\ (ret = 0 -> st' = st) /\ cheld st' sys (given_live st' ret caps false size live).
Proof.
  intros (pls & I & F) Hs. destruct (malloc_place st _ size caps I Hs) as (ret & st' & E & G). exists ret, st'. split; [done|].
  split; [by destruct G as [[? ?]|[? _]]|by eapply given_held].
Qed.

(** What holds of a buffer holds with fewer capabilities. *)
Lemma given_less st sys ret c d al size live : cheld st sys (given_live st ret (Z.lor c d) al size live) -> cheld st sys (given_live st ret c al size live).
Proof.
  unfold given_live. destruct (ret =? 0); [done|]. intros (pls & I & F). apply Forall2_cons_inv_l in F as (p & pls' & [M C] & F & ->). exists (p :: pls').
  split; [done|]. constructor; [split; [by destruct M|exact (has_caps_lor _ _ c d C)]|done].
Qed.
Lemma default_caps_or size limit : exists d, default_caps size limit = Z.lor MALLOC_CAP_DEFAULT d.
Proof. unfold default_caps. destruct (_ =? _); [by eexists|]. destruct (_ <=? _); by eexists. Qed.
Lemma malloc_default_cheld st sys live size : cheld st sys live -> 0 <= size ->
  exists ret st', heap_caps_malloc_default size st = Ok (ret, st') /\ cheld st' sys (given_live st' ret MALLOC_CAP_DEFAULT false size live).
Proof.
  intros H Hs. unfold heap_caps_malloc_default. destruct (malloc_cheld st sys live size (default_caps size (malloc_alwaysinternal_limit st)) H Hs) as (r & st1 & -> & E0 & H1). ostep.
  destruct (default_caps_or size (malloc_alwaysinternal_limit st)) as (d & Ed). rewrite Ed in H1. apply given_less in H1.
  destruct (negb _ && _) eqn:Er; [|by exists r, st1]. apply andb_prop in Er as [_ Er%Z.eqb_eq]. rewrite (E0 Er).
  destruct (malloc_cheld st sys live size MALLOC_CAP_DEFAULT H Hs) as (r2 & st2 & -> & _ & H2). by exists r2, st2.
Qed.

Lemma free_cheld st sys live q : cheld st sys live -> holds_at cplain q live = true ->
  exists st', heap_caps_free q st = Ok st' /\ cheld st' sys (cdropped cplain q live).
Proof.
  intros H [->|(Hq & cb & rest & Ex)]%holds_cases; unfold cdropped; [rewrite (cextract_zero _ _ _ _ H); by exists st|]. rewrite Ex.
  destruct (cextract_held _ _ _ _ _ _ _ Ex H) as (Hk & <- & p & pls & I & [M C] & F). unfold cplain in Hk. rewrite (im_aligned _ _ M) in Hk. apply negb_true_iff in Hk.
  rewrite (im_ptr _ _ M). destruct (caps_free_place st _ p I (im_wf _ _ M) Hk) as (st' & -> & I' & K). exists st'. split; [done|]. by eapply cheld_kept.
Qed.
Lemma aligned_free_cheld st sys live q : cheld st sys live -> holds_at cb_aligned q live = true ->
  exists st', heap_caps_aligned_free q st = Ok st' /\ cheld st' sys (cdropped cb_aligned q live).
Proof.
  intros H [->|(Hq & cb & rest & Ex)]%holds_cases; unfold cdropped; [rewrite (cextract_zero _ _ _ _ H); by exists st|]. rewrite Ex.
  destruct (cextract_held _ _ _ _ _ _ _ Ex H) as (Hk & <- & p & pls & I & [M C] & F). rewrite (im_aligned _ _ M) in Hk.
  assert (Hx : pl_exec p = false) by (destruct (pl_exec p) eqn:Hx; [|done]; by rewrite (ex_plain _ (im_wf _ _ M Hx)) in Hk).
  rewrite (im_ptr _ _ M). destruct (aligned_free_place st _ p I Hx Hk) as (st' & -> & I' & K). exists st'. split; [done|]. by eapply cheld_kept.
Qed.

Lemma realloc_cheld st sys live q size caps : cheld st sys live -> 0 <= size -> holds_at cplain q live = true ->
  exists ret st', heap_caps_realloc q size caps st = Ok (ret, st') /\ cheld st' sys (resized_live st' ret q size caps live).
Proof.
  intros H Hs [->|(Hq & cb & rest & Ex)]%holds_cases; unfold resized_live.
  { rewrite (cextract_zero _ _ _ _ H). destruct (malloc_cheld st sys live size caps H Hs) as (ret & st' & E & _ & H'). by exists ret, st'. }
  rewrite Ex. destruct (cextract_held _ _ _ _ _ _ _ Ex H) as (Hk & Hp & p & pls & I & [M C] & F). unfold cplain in Hk. apply negb_true_iff in Hk. destruct (Z.eqb_spec size 0) as [->|Hn].
  - unfold heap_caps_realloc. rewrite (proj2 (Z.eqb_neq _ _) Hq). cbn [Z.eqb]. destruct (free_cheld st sys live q H) as (st' & -> & H').
    { unfold holds_at. rewrite bool_decide_eq_true_2; [apply orb_true_r|]. rewrite Ex. done. }
    ostep. exists 0, st'. split; [done|]. unfold cdropped in H'. by rewrite Ex in H'.
  - subst q. destruct (realloc_place st _ p cb size caps I M Hk ltac:(lia)) as (ret & st' & E & K & Rz). exists ret, st'. split; [done|].
    destruct (Z.eqb_spec ret 0) as [->|Hr]; [eapply cheld_cons; [exact F|exact K|exact Rz|exact M|by apply K]|].
    destruct Rz as (r & I' & C' & M'). by eapply cheld_cons.
Qed.
Lemma resized_less st sys ret q size c d live : cheld st sys (resized_live st ret q size (Z.lor c d) live) -> cheld st sys (resized_live st ret q size c live).
Proof.
  unfold resized_live. destruct (cextract cplain q live) as [[cb rest]|]; [|apply given_less]. destruct (ret =? 0); [done|].
  intros (pls & I & F). apply Forall2_cons_inv_l in F as (p & pls' & [M C] & F & ->). exists (p :: pls').
  split; [done|]. constructor; [split; [by destruct M|exact (has_caps_lor _ _ c d C)]|done].
Qed.

(** A second try, of a buffer that was refused. *)
Lemma resized_again st q size caps c live ret : 0 < size -> cextract cplain q (resized_live st 0 q size caps live) = cextract cplain q live /\
  (cextract cplain q live = None -> resized_live st 0 q size caps live = live) /\
  forall st', resized_live st' ret q size c (resized_live st 0 q size caps live) = resized_live st' ret q size c live.
Proof.
  intros Hs. unfold resized_live at 1 2 4. destruct (cextract cplain q live) as [[cb rest]|] eqn:Ex.
  - rewrite (proj2 (Z.eqb_neq size 0)) by lia. cbn [Z.eqb]. assert (E : cextract cplain q (cb :: rest) = Some (cb, rest)).
    { cbn [cextract]. assert (Hk : (cb_ptr cb =? q) && cplain cb = true).
      { clear -Ex. revert rest Ex. induction live as [|b live IH]; intros rest; [done|]. cbn [cextract]. destruct ((cb_ptr b =? q) && cplain b) eqn:Hb; [by intros [= <- _]|].
        destruct (cextract cplain q live) as [[b2 r2]|]; [|done]. intros [= <- _]. by eapply IH. }
      by rewrite Hk. }
    split; [done|]. split; [done|]. intros st'. unfold resized_live. by rewrite E, Ex.
  - unfold given_live. cbn [Z.eqb]. done.
Qed.
Lemma realloc_default_cheld st sys live q size : cheld st sys live -> 0 <= size -> holds_at cplain q live = true ->
  exists ret st', heap_caps_realloc_default q size st = Ok (ret, st') /\ cheld st' sys (resized_live st' ret q size MALLOC_CAP_DEFAULT live).
Proof.
  intros H Hs Hh. unfold heap_caps_realloc_default.
  destruct (realloc_cheld st sys live q size (default_caps size (malloc_alwaysinternal_limit st)) H Hs Hh) as (r & st1 & -> & H1). ostep.
  destruct (default_caps_or size (malloc_alwaysinternal_limit st)) as (d & Ed). rewrite Ed in H1. apply resized_less in H1.
  destruct (_ && _) eqn:Er; [|by exists r, st1]. apply andb_prop in Er as [[_ ->%Z.eqb_eq]%andb_prop Hn%Z.ltb_lt].
  destruct (realloc_cheld st1 sys _ q size MALLOC_CAP_DEFAULT H1 Hs) as (r2 & st2 & -> & H2).
  { unfold holds_at in *. destruct (resized_again st1 q size MALLOC_CAP_DEFAULT MALLOC_CAP_DEFAULT live 0 Hn) as (E & _). by rewrite E. }
  exists r2, st2. split; [done|]. destruct (resized_again st1 q size MALLOC_CAP_DEFAULT MALLOC_CAP_DEFAULT live r2 Hn) as (_ & _ & E). by rewrite E in H2.
Qed.

Lemma write_cheld st sys live q off bytes : cheld st sys live -> clegal st live (CWrite q off bytes) = true ->
  exists st' live', cstep (CWrite q off bytes) st live = Ok (0, st', live') /\ cheld st' sys live'.
Proof.
  intros H [B%bool_decide_eq_true L]%andb_prop. cbn [cstep]. destruct (cextract cany q live) as [[cb rest]|] eqn:Ex; [|done].
  apply andb_prop in L as [L1%Z.leb_le L2%Z.leb_le]. destruct (cextract_held _ _ _ _ _ _ _ Ex H) as (_ & <- & p & pls & I & [M C] & F).
  unfold lenZ in L2. destruct (store_bytes bytes (registered_heaps st) (pls ++ sys) p cb (Z.to_nat off) I M B ltac:(lia)) as (hs' & p' & E & K & Hp & I' & M').
  rewrite Z2Nat.id in E by lia. rewrite E. ostep. eexists _, _. split; [done|]. eapply cheld_cons; [exact F|exact K|exact I'|exact M'|]. rewrite Hp. by apply K.
Qed.

(** A heap is added in front of the others. *)
Definition behind p : place := mkPlace (S (pl_heap p)) (pl_exec p) (pl_buf p).
Lemma bufs_behind i pls : bufs (S i) (map behind pls) = bufs i pls.
Proof.
  unfold bufs. induction pls as [|p pls IH]; [done|]. cbn [map]. rewrite !filter_cons. cbn [behind pl_heap].
  destruct (decide (pl_heap p = i)), (decide (S (pl_heap p) = S i)); try lia; cbn [map]; by rewrite IH.
Qed.
Lemma inv_add e h hs pls : Inv hs pls -> heap_ok e -> hp_heap e = Some h -> serves h [] -> (forall f, f ∈ hs -> heaps_apart e f) -> Inv (e :: hs) (map behind pls).
Proof.
  intros I O Hh S A. assert (A2 : forall i f, hs !! i = Some f -> heaps_apart e f /\ heaps_apart f e).
  { intros i f Hf. pose proof (A f ltac:(by eapply list_elem_of_lookup_2)). unfold heaps_apart in *. tauto. }
  split.
  - intros [|i] f; [intros [= <-]; done|apply (inv_ok _ _ I)].
  - intros [|i] [|j] f g; cbn [lookup list_lookup]; [done|intros [= <-] Hg _; by eapply A2|intros Hf [= <-] _; by eapply A2|intros Hf Hg Hne; apply (inv_apart _ _ I i j); [done|done|congruence]].
  - intros [|i] f g.
    + intros [= <-] Hg. assert (bufs 0 (map behind pls) = []) as ->; [|congruence]. clear. unfold bufs.
      induction pls as [|p pls IH]; [done|]. cbn [map]. rewrite filter_cons_False by done. exact IH.
    + rewrite bufs_behind. apply (inv_serves _ _ I).
  - intros p Hp. apply list_elem_of_In, in_map_iff in Hp as (q & <- & Hq). apply (inv_places _ _ I q). by apply list_elem_of_In.
Qed.
Lemma shown_behind e hs live pls : Forall2 (shown hs) live pls -> Forall2 (shown (e :: hs)) live (map behind pls).
Proof.
  intros F. apply Forall2_fmap_r. eapply Forall2_impl; [exact F|]. intros cb p [M C]. split; [by destruct M|exact C].
Qed.

Lemma region_free_ok start end_ e : start < end_ -> hp_start e < hp_end e -> region_free start end_ e = true ->
  ((start <=? hp_start e) && (hp_start e <? end_) || (start <? hp_end e) && (hp_end e <? end_)) = false.
Proof.
  unfold region_free. intros H1 H2 [F%Z.leb_le|F%Z.leb_le]%orb_prop; apply orb_false_iff; split; apply andb_false_iff; rewrite ?Z.leb_gt, ?Z.ltb_ge; lia.
Qed.
Lemma add_region_cheld st sys live caps start end_ m : cheld st sys live -> clegal st live (CAddRegion caps start end_ m) = true ->
  exists r st' sys', heap_caps_add_region_with_caps (Some caps) start end_ m st = Ok (r, st') /\ cheld st' sys' live.
Proof.
  intros (pls & I & F) [[[[[L1%Z.ltb_lt L2%Z.ltb_lt]%andb_prop L3%Z.ltb_lt]%andb_prop L4]%andb_prop L5]%andb_prop L6]%andb_prop. rewrite forallb_forall in L6.
  unfold heap_caps_add_region_with_caps. rewrite (proj2 (Z.eqb_neq start 0)), (proj2 (Z.eqb_neq end_ 0)), (proj2 (Z.leb_gt end_ start)) by lia. cbn [orb].
  destruct (existsb _ (registered_heaps st)) eqn:Ex.
  { apply existsb_exists in Ex as (e & He & Hx). rewrite region_free_ok in Hx; [done|lia| |by apply L6]. apply list_elem_of_In, list_elem_of_lookup_1 in He as [i He].
    destruct (inv_ok _ _ I _ _ He) as [? _]. lia. }
  destruct (malloc_place st _ sizeof_caps_heap_t (Z.lor MALLOC_CAP_INTERNAL MALLOC_CAP_8BIT) I ltac:(unfold sizeof_caps_heap_t; lia)) as (r & st2 & -> & [[-> ->]|(Hr & p & -> & W & [Al _] & I2 & _ & K)]); ostep.
  { cbn [Z.eqb]. exists ESP_ERR_NO_MEM, st, sys. split; [done|]. by exists pls. }
  rewrite (proj2 (Z.eqb_neq _ _) Hr). pose proof (shown_kept _ _ _ _ K F) as F2. destruct (multi_heap_register_impl start (end_ - start) m) as [h|] eqn:Eh.
  - destruct (register_serves m start (end_ - start) h L1 ltac:(lia) ltac:(lia) Eh) as (S & R1 & R2). set (e := mkCapsHeap caps start end_ (Some h)).
    eexists ESP_OK, _, (behind p :: map behind sys). split; [done|]. exists (map behind pls). cbn [set_heaps registered_heaps]. split; [|by apply shown_behind].
    apply (inv_perm _ (map behind (p :: pls ++ sys))); [cbn [map]; rewrite map_app; by rewrite Permutation_middle|]. apply (inv_add e h); [done| |done|done|].
    + unfold heap_ok, e. cbn [hp_start hp_end hp_heap]. split; [lia|]. split; [lia|]. split; [apply orb_prop in L4; rewrite !Z.leb_le in L4; done|]. split; [|lia].
      intros Hd. rewrite Hd in L5. by apply Z.leb_le.
    + intros f Hf. apply list_elem_of_lookup_1 in Hf as [i Hf]. destruct (proj2 K i f Hf) as (g & Hg & E1 & E2).
      pose proof (L6 g (proj1 (list_elem_of_In _ _) (list_elem_of_lookup_2 _ _ _ Hg))) as Fr. unfold region_free in Fr. apply orb_prop in Fr. rewrite !Z.leb_le in Fr.
      unfold heaps_apart, e. cbn [hp_start hp_end]. rewrite <- E1, <- E2. tauto.
  - destruct (caps_free_place st2 _ p I2 W Al) as (st3 & -> & I3 & K3). ostep. exists ESP_ERR_INVALID_SIZE, st3, sys. split; [done|]. exists pls. split; [done|]. by eapply shown_kept.
Qed.

Lemma cstep_held c st sys live : cheld st sys live -> clegal st live c = true -> exists ret st' live' sys', cstep c st live = Ok (ret, st', live') /\ cheld st' sys' live'.
Proof.
  intros H L. destruct c as [size caps|n size caps|q|q size caps|al size caps|al n size caps|q|size|q size|limit|m|caps start end_ m|q off bytes]; cbn [clegal cstep] in *.
  - apply Z.leb_le in L. destruct (malloc_cheld st sys live size caps H L) as (r & st' & -> & _ & H'). ostep. by eexists _, _, _, sys.
  - apply andb_prop in L as [L1%Z.leb_le L2%Z.leb_le]. destruct H as (pls & I & F). destruct (calloc_place st _ n size caps I L1 L2) as (r & st' & -> & G). ostep.
    eexists _, _, _, sys. split; [done|]. by eapply cleared_held.
  - destruct (free_cheld st sys live q H L) as (st' & -> & H'). ostep. by eexists _, _, _, sys.
  - apply andb_prop in L as [L1%Z.leb_le L2]. destruct (realloc_cheld st sys live q size caps H L1 L2) as (r & st' & -> & H'). ostep. by eexists _, _, _, sys.
  - apply andb_prop in L as [[L1%Z.leb_le L2%Z.ltb_lt]%andb_prop L3%Z.leb_le]. destruct H as (pls & I & F).
    destruct (aligned_place st _ al size caps I ltac:(lia) L3) as (r & st' & -> & G). ostep. eexists _, _, _, sys. split; [done|]. by eapply given_held.
  - apply andb_prop in L as [[[L1%Z.leb_le L2%Z.ltb_lt]%andb_prop L3%Z.leb_le]%andb_prop L4%Z.leb_le]. destruct H as (pls & I & F).
    destruct (aligned_calloc_place st _ al n size caps I ltac:(lia) L3 L4) as (r & st' & -> & G). ostep. eexists _, _, _, sys. split; [done|]. by eapply cleared_held.
  - destruct (aligned_free_cheld st sys live q H L) as (st' & -> & H'). ostep. by eexists _, _, _, sys.
  - apply Z.leb_le in L. destruct (malloc_default_cheld st sys live size H L) as (r & st' & -> & H'). ostep. by eexists _, _, _, sys.
  - apply andb_prop in L as [L1%Z.leb_le L2]. destruct (realloc_default_cheld st sys live q size H L1 L2) as (r & st' & -> & H'). ostep. by eexists _, _, _, sys.
  - eexists _, _, _, sys. split; [done|]. exact H.
  - destruct H as (pls & I & F). unfold heap_caps_enable_nonos_stack_heaps. destruct (enable_inv m (registered_heaps st) _ I) as (hs' & -> & I' & K).
    { apply Forall_forall. intros e He. rewrite forallb_forall in L. apply Z.leb_le, L. by apply list_elem_of_In. }
    ostep. eexists _, _, _, sys. split; [done|]. by eapply cheld_kept.
  - destruct (add_region_cheld st sys live caps start end_ m H L) as (r & st' & sys' & -> & H'). ostep. by eexists _, _, _, sys'.
  - destruct (write_cheld st sys live q off bytes H L) as (st' & live' & E & H'). by exists 0, st', live', sys.
Qed.
Lemma crun_held cs : forall st sys live, cheld st sys live -> clegal_run cs st live = true -> exists rets st' live' sys', crun cs st live = Ok (rets, st', live') /\ cheld st' sys' live'.
Proof.
  induction cs as [|c cs IH]; intros st sys live H L; [by exists [], st, live, sys|]. cbn [clegal_run crun] in *. apply andb_prop in L as [Lc L].
  destruct (cstep_held c st sys live H Lc) as (r & st1 & live1 & sys1 & E & H1). rewrite E in L |- *. ostep.
  destruct (IH st1 sys1 live1 H1 L) as (rets & st' & live' & sys' & -> & H'). ostep. by exists (r :: rets), st', live', sys'.
Qed.

(** ** What the client sees *)
Lemma cheld_delivered st sys live : cheld st sys live -> cdelivered (registered_heaps st) live.
Proof.
  intros (pls & I & F). split.
  - apply Forall_lookup. intros i cb Hi. destruct (Forall2_lookup_l _ _ _ _ _ F Hi) as (p & Hp & M & C).
    assert (Hin : p ∈ pls ++ sys) by (apply elem_of_app; left; by eapply list_elem_of_lookup_2).
    destruct (inv_place _ _ p I Hin) as (e & h & He & Hh & _ & _ & _ & Hm & Hlo & Hhi). split; [|split; [by eapply image_read|]].
    + rewrite (im_ptr _ _ M). unfold place_ptr. destruct (pl_exec p) eqn:Hx; [|done]. destruct (im_wf _ _ M Hx) as [_ _ W _ _ _]. cbn zeta.
      unfold esp_ptr_diram_dram_to_iram, SOC_DIRAM_IRAM_LOW, SOC_DIRAM_DRAM_HIGH. Z.to_euclidean_division_equations. lia.
    + exists (pl_heap p), e. split; [done|]. split; [done|]. intros k Hk. pose proof (im_room _ _ M). rewrite (im_ptr _ _ M), (place_byte _ _ p k I Hin (im_wf _ _ M)) by lia.
      pose proof (place_off_lt p k (im_wf _ _ M) ltac:(lia)). pose proof (place_room_data p). unfold lenZ in *. lia.
  - intros i j u v k l Hi Hj Hne Hk Hl. destruct (Forall2_lookup_l _ _ _ _ _ F Hi) as (p & Hp & M & _). destruct (Forall2_lookup_l _ _ _ _ _ F Hj) as (q & Hq & N & _).
    pose proof (im_room _ _ M). pose proof (im_room _ _ N). rewrite (im_ptr _ _ M), (im_ptr _ _ N).
    apply (places_apart _ _ i j p q k l I); [by apply lookup_app_l_Some|by apply lookup_app_l_Some|done|apply M|apply N|lia|lia].
Qed.
End history.

(** ** Start-up *)

(** Where memory may be: below 2 GB, not at the alias of D/IRAM, and not behind D/IRAM. *)
Definition memory_at (a : Z) : Prop :=
  0 < a < 2 ^ 31 - 16 /\ ~ (SOC_DIRAM_IRAM_LOW <= a < SOC_DIRAM_IRAM_HIGH) /\ a <> SOC_DIRAM_DRAM_HIGH.
(** The tables and the linker script agree with [soc_memory_layout.h]. *)
Record soc_memory_ok `{SocMemory} : Prop := {
  so_regions : in_order soc_memory_regions;
  so_places : forall r a, r ∈ soc_memory_regions -> in_region r a -> memory_at a;
  so_reserved : Forall in_range reserved_regions;
  so_apart : all_apart reserved_regions;
  so_count : soc_get_available_memory_region_max_count < 2 ^ 16
}.

Section init.
Implicit Types (r a b : soc_memory_region_t) (rs : list soc_memory_region_t) (e : caps_heap_t) (hs : list caps_heap_t) (m : mem).

(** ** The merged regions *)
Definition kept_region (r : soc_memory_region_t) : Prop := r_type r <> NO_TYPE.
#[local] Instance kept_dec r : Decision (kept_region r).
Proof. unfold kept_region. apply _. Defined.
Definition all_memory rs : Prop := forall r x, r ∈ rs -> in_region r x -> memory_at x.

Lemma merged_keep a out : 0 < r_size a -> all_memory [a] -> in_order out -> all_memory out -> (forall lo, lo <= r_start a + r_size a -> Forall (fun r => lo <= r_start r) out) ->
  in_order (filter kept_region [a] ++ out) /\ all_memory (filter kept_region [a] ++ out) /\ forall lo, lo <= r_start a -> Forall (fun r => lo <= r_start r) (filter kept_region [a] ++ out).
Proof.
  intros Ha Ma O M F. rewrite filter_cons, filter_nil. case_decide; cbn [app].
  - split; [split; [done|]; split; [by apply F|done]|]. split.
    + intros r x [->|Hr]%elem_of_cons; [apply Ma; by left|by apply M].
    + intros lo Hlo. constructor; [done|]. apply F. lia.
  - split; [done|]. split; [done|]. intros lo Hlo. apply F. lia.
Qed.
Lemma coalesce_run rs : forall a, in_order (a :: rs) -> all_memory (a :: rs) ->
  in_order (filter kept_region (coalesce a rs)) /\ all_memory (filter kept_region (coalesce a rs)) /\
  forall lo, lo <= r_start a -> Forall (fun r => lo <= r_start r) (filter kept_region (coalesce a rs)).
Proof.
  induction rs as [|b rs IH]; intros a O M.
  { cbn [coalesce]. rewrite filter_cons, filter_nil. case_decide; [split; [done|]; split; [done|]; intros lo Hlo; by constructor|].
    split; [done|]. split; [by intros r x ?%elem_of_nil|]. constructor. }
  destruct O as (Ha & Fa & Hb & Fb & O). apply Forall_cons in Fa as [Fab Fa]. cbn [coalesce].
  destruct (Z.eqb_spec (r_start b) (r_start a + r_size a)) as [E|_]; [destruct (r_type b =? r_type a)|]; cbn [andb].
  { set (b2 := b <| r_start := _ |> <| r_size := _ |>). rewrite filter_cons_False by (unfold kept_region; cbn; tauto).
    apply (IH b2).
    + split; [cbn; lia|]. split; [|done]. eapply Forall_impl; [exact Fb|]. intros r Hr. cbn in *. lia.
    + intros r x [->|Hr]%elem_of_cons Hx; [|apply (M r); [|done]; by do 2 right]. unfold in_region in Hx. cbn in Hx. destruct (decide (x < r_start b)).
      * apply (M a); [by left|]. unfold in_region. lia.
      * apply (M b); [by right; left|]. unfold in_region. lia. }
  all: destruct (IH b) as (I1 & I2 & I3); [done|intros r x Hr; apply M; by right|]; change (a :: coalesce b rs) with ([a] ++ coalesce b rs); rewrite filter_app;
    apply merged_keep; [done|intros r x ->%list_elem_of_singleton; apply M; by left|done|done|intros lo Hlo; apply I3; lia].
Qed.

Lemma length_merged rs : length (merged_regions rs) = length rs.
Proof.
  destruct rs as [|a rs]; [done|]. cbn [merged_regions length]. revert a. induction rs as [|b rs IH]; intros a; [done|]. cbn [coalesce length].
  destruct (_ && _); cbn [length]; by rewrite IH.
Qed.

(** ** The heaps *)
Definition heap_of (m : mem) r (e : caps_heap_t) : Prop :=
  hp_start e = r_start r /\ hp_end e = r_start r + r_size r /\
  (hp_heap e = None \/ hp_heap e = multi_heap_register_impl (hp_start e) (u32 (hp_end e - hp_start e)) m).
Lemma make_heaps_run types m rs hs : make_heaps types m rs = Ok hs -> Forall2 (heap_of m) (filter kept_region rs) hs.
Proof.
  revert hs. induction rs as [|r rs IH]; intros hs; cbn [make_heaps]; [intros [= <-]; constructor|].
  destruct (Z.eqb_spec (r_type r) NO_TYPE) as [E|E]; [rewrite filter_cons_False by (unfold kept_region; tauto); apply IH|rewrite filter_cons_True by done].
  destruct (types !! Z.to_nat (r_type r)) as [type|]; [|done]. destruct (startup_stack type).
  - ostep. destruct (make_heaps types m rs) as [hs0| | |] eqn:Em; try done. ostep. intros [= <-]. constructor; [|by apply IH]. split; [done|]. split; [done|]. by left.
  - unfold register_heap. destruct (u32 _ <=? HEAP_SIZE_MAX); [|done]. rewrite cassert_bind by done. cbv zeta. ostep.
    destruct (make_heaps types m rs) as [hs0| | |] eqn:Em; try done. ostep. intros [= <-]. constructor; [|by apply IH]. split; [done|]. split; [done|]. by right.
Qed.

Lemma region_heap_ok r e : 0 < r_size r -> (forall x, in_region r x -> memory_at x) -> hp_start e = r_start r -> hp_end e = r_start r + r_size r -> hp_heap e = None -> heap_ok e.
Proof.
  intros Hr M E1 E2 Eh. assert (S : memory_at (r_start r)) by (apply M; unfold in_region; lia).
  assert (L : memory_at (r_start r + r_size r - 1)) by (apply M; unfold in_region; lia).
  unfold heap_ok. rewrite E1, E2, Eh. destruct S as (S1 & S2 & S3). destruct L as (L1 & _). unfold in_region in M. split; [lia|]. split; [lia|]. split; [|split; [|done]].
  - destruct (decide (r_start r + r_size r <= SOC_DIRAM_IRAM_LOW)) as [|Hn]; [by left|]. right. destruct (decide (SOC_DIRAM_IRAM_HIGH <= r_start r)) as [|Hn2]; [done|].
    exfalso. destruct (M SOC_DIRAM_IRAM_LOW ltac:(lia)) as (_ & N & _). apply N. unfold SOC_DIRAM_IRAM_LOW, SOC_DIRAM_IRAM_HIGH. lia.
  - intros [D1 D2]%diram_dram. destruct (decide (r_start r + r_size r <= SOC_DIRAM_DRAM_HIGH)) as [|Hn]; [done|].
    exfalso. destruct (M SOC_DIRAM_DRAM_HIGH ltac:(lia)) as (_ & _ & N). done.
Qed.
Lemma in_order_lookup rs i j r q : in_order rs -> rs !! i = Some r -> rs !! j = Some q -> (i < j)%nat -> r_start r + r_size r <= r_start q.
Proof.
  revert i j. induction rs as [|s rs IH]; intros i j O Hi Hj Hlt; [done|]. destruct O as (_ & F & O). destruct j as [|j]; [lia|]. destruct i as [|i].
  - injection Hi as ->. rewrite Forall_lookup in F. by eapply F.
  - eapply (IH i j); [done..|lia].
Qed.
Lemma in_order_size rs i r : in_order rs -> rs !! i = Some r -> 0 < r_size r.
Proof.
  revert i. induction rs as [|s rs IH]; intros i O Hi; [done|]. destruct O as (Hs & _ & O). destruct i as [|i]; [by injection Hi as <-|]. by eapply IH.
Qed.

(** The heaps when none is registered, and then. *)
Definition unregistered e : caps_heap_t := e <| hp_heap := None |>.
Lemma made_inv m rs hs : in_order rs -> all_memory rs -> Forall2 (heap_of m) rs hs -> Inv hs [].
Proof.
  intros O M F. assert (I : Inv (map unregistered hs) []).
  { split.
    - intros i e He. rewrite list_lookup_fmap in He. destruct (hs !! i) as [f|] eqn:Ef; [|done]. injection He as <-.
      destruct (Forall2_lookup_r _ _ _ _ _ F Ef) as (r & Hr & E1 & E2 & _). eapply region_heap_ok; [by eapply in_order_size| |exact E1|exact E2|done].
      intros x. apply M. by eapply list_elem_of_lookup_2.
    - intros i j e f He Hf Hne. rewrite list_lookup_fmap in He, Hf. destruct (hs !! i) as [e0|] eqn:Ei; [|done]. destruct (hs !! j) as [f0|] eqn:Ej; [|done].
      injection He as <-. injection Hf as <-. destruct (Forall2_lookup_r _ _ _ _ _ F Ei) as (r & Hr & E1 & E2 & _). destruct (Forall2_lookup_r _ _ _ _ _ F Ej) as (q & Hq & E3 & E4 & _).
      unfold heaps_apart. cbn. rewrite E1, E2, E3, E4. destruct (decide (i < j)%nat); [left|right]; eapply (in_order_lookup rs); try done; lia.
    - intros i e h He Hh. rewrite list_lookup_fmap in He. destruct (hs !! i); [|done]. by injection He as <-.
    - by intros p ?%elem_of_nil. }
  apply (registered_inv m _ _ _ I). apply Forall2_fmap_l. apply Forall_Forall2_diag, Forall_forall. intros e He. apply list_elem_of_lookup_1 in He as [i Hi].
  destruct (Forall2_lookup_r _ _ _ _ _ F Hi) as (r & _ & _ & _ & [E|E]); [left|right; split; [done|]]; destruct e; simpl in *; by subst.
Qed.

(** The array. *)
Lemma allocate_array_run size hs : (forall i e h, hs !! i = Some e -> hp_heap e = Some h -> exists ret h', multi_heap_malloc_impl h size = Ok (ret, h') /\ (ret = 0 -> h' = h)) ->
  allocate_array size hs = Ok (0, hs) \/ given (fun _ h => multi_heap_malloc_impl h size) (fun e => heap_caps_match e (Z.lor MALLOC_CAP_8BIT MALLOC_CAP_INTERNAL) = true) hs (allocate_array size hs).
Proof.
  induction hs as [|e hs IH]; intros A; [by left|]. specialize (IH (fun i => A (S i))). cbn [allocate_array].
  assert (N : (('(p, hs) ← allocate_array size hs; Ok (p, e :: hs)) = Ok (0, e :: hs)) \/
    given (fun _ h => multi_heap_malloc_impl h size) (fun e => heap_caps_match e (Z.lor MALLOC_CAP_8BIT MALLOC_CAP_INTERNAL) = true) (e :: hs) ('(p, hs) ← allocate_array size hs; Ok (p, e :: hs))).
  { destruct IH as [->|(i & f & h & ret & h' & Hi & Hh & Hc & Ha & Hr & ->)]; ostep; [by left|right]. by exists (S i), f, h, ret, h'. }
  destruct (hp_heap e) as [h|] eqn:Eh; [|done]. destruct (heap_caps_match e _) eqn:Ec; [|done].
  destruct (A 0%nat e h eq_refl Eh) as (ret & h' & Ea & E0). rewrite Ea. ostep. destruct (Z.eqb_spec ret 0) as [->|Hr].
  - rewrite E0 by done. by replace (e <| hp_heap := Some h |>) with e by (destruct e; simpl in *; by subst).
  - right. exists 0%nat, e, h, ret, h'. done.
Qed.

Lemma caps_init_inv `{SocMemory} m st : soc_memory_ok -> heap_caps_init m = Ok st -> exists sys, Inv (registered_heaps st) sys.
Proof.
  intros [O M R A Cn]. unfold heap_caps_init. destruct (available_memory_run O R A) as (rs & -> & O1 & Ln & P). ostep.
  assert (M1 : all_memory rs).
  { intros r x Hr Hx. destruct (P (r_type r) x) as [P1 _]. destruct P1 as [(q & Hq & _ & Hqx) _]; [by exists r|]. by apply (M q). }
  assert (G : in_order (filter kept_region (merged_regions rs)) /\ all_memory (filter kept_region (merged_regions rs))).
  { destruct rs as [|a rs]; [split; [done|by intros r x ?%elem_of_nil]|]. by destruct (coalesce_run rs a O1 M1) as (? & ? & _). }
  destruct G as [O2 M2]. destruct (make_heaps soc_memory_types m (merged_regions rs)) as [hs| | |] eqn:Em; try done. ostep.
  apply make_heaps_run in Em. pose proof (made_inv m _ _ O2 M2 Em) as I. set (size := sizeof_caps_heap_t * lenZ hs).
  assert (Hs : is_u32 size).
  { apply Forall2_length in Em. pose proof (length_filter kept_region (merged_regions rs)). rewrite length_merged in *. unfold is_u32, size, sizeof_caps_heap_t, lenZ in *. lia. }
  destruct (allocate_array_run size hs) as [E|(i & e & h & ret & h' & He & Hh & _ & Ha & Hr & E)].
  { intros i e h He Hh. destruct (serves_malloc h _ size size (inv_serves _ _ I _ _ _ He Hh)) as (ret & h' & ? & ? & _); [unfold is_u32 in Hs; lia|done|]. by exists ret, h'. }
  { rewrite E. ostep. done. }
  rewrite E. ostep. rewrite cassert_bind by (by apply negb_true_iff, Z.eqb_neq). intros [= <-].
  destruct (serves_malloc h _ size size (inv_serves _ _ I _ _ _ He Hh)) as (ret2 & h2 & E2 & _ & Rg & S); [unfold is_u32 in Hs; lia|done|]. rewrite Ha in E2. injection E2 as <- <-.
  exists [mkPlace i false (new_buf h' ret false size [])]. cbn [registered_heaps]. eapply inv_set_heap; [exact I|done|done|done| | |].
  - rewrite (bufs_cons_eq (mkPlace i false _)). by apply S.
  - intros j Hj. by rewrite bufs_cons_ne by (simpl; congruence).
  - intros p ->%list_elem_of_singleton. by right.
Qed.

(** ** When there is no memory *)

(** The largest free block of a heap is too small. *)
Definition too_small h (n : Z) : Prop := exists info, multi_heap_get_info_impl h = Ok info /\ largest_free_block info < n.
(** What a request takes from a heap: with the word behind an alias. *)
Definition need (caps n : Z) e : Z := if negb (Z.land caps MALLOC_CAP_EXEC =? 0) && esp_ptr_in_diram_dram (hp_start e) then n + 4 else n.

Lemma malloc_small h lv n : serves h lv -> 0 < n <= 2 ^ 31 + 4 ->
  too_small h n /\ multi_heap_malloc_impl h n = Ok (0, h) \/ ~ too_small h n /\ exists p h', multi_heap_malloc_impl h n = Ok (p, h') /\ p <> 0.
Proof.
  intros (l & us & S) Hn. pose proof (hd_inv _ _ _ _ S) as I. pose proof (malloc_largest h l n I ltac:(lia)) as M. unfold too_small. rewrite (info_run I).
  destruct (Z.leb_spec n (largest l)) as [L|L]; [right|left].
  - split; [|done]. intros (info & [= <-] & Hl). change (largest l < n) in Hl. lia.
  - split; [|done]. eexists. split; [done|]. exact L.
Qed.
Lemma malloc_from_small caps n e (h : heap_t) lv : heap_ok e -> hp_heap e = Some h -> serves h lv -> 0 < n <= 2 ^ 31 -> (Z.land caps MALLOC_CAP_EXEC <> 0 -> n mod 4 = 0) ->
  malloc_from caps n e h = Ok (0, h) <-> too_small h (need caps n e).
Proof.
  intros O Hh S Hn Hm. unfold malloc_from, need. destruct (Z.eqb_spec (Z.land caps MALLOC_CAP_EXEC) 0) as [_|Hx]; cbn [negb andb].
  2: destruct (esp_ptr_in_diram_dram (hp_start e)) eqn:Hd.
  2:{ specialize (Hm Hx). destruct (malloc_small h lv (n + 4) S ltac:(lia)) as [[T ->]|(T & p & h' & E & Hp)]; [done|]. rewrite E. ostep. rewrite (proj2 (Z.eqb_neq _ _) Hp).
    split; [|done]. intros E2. exfalso. destruct (serves_malloc h lv (n + 4) (n + 4) S ltac:(lia) ltac:(unfold is_u32; lia)) as (p2 & h2 & E3 & _ & R & S'). rewrite E in E3. injection E3 as <- <-.
    assert (O' : heap_ok (e <| hp_heap := Some h' |>)) by (unfold heap_ok in *; cbn; rewrite Hh in O; destruct R as [-> ->]; exact O).
    destruct (dram_alloc_run h' lv p n 0%nat _ O' eq_refl Hd ltac:(lia) Hm (S' Hp) Hp) as (r2 & h2 & E4 & Hr2 & _). rewrite E4 in E2. congruence. }
  all: destruct (malloc_small h lv n S ltac:(lia)) as [[T ->]|(T & p & h' & E & Hp)]; [done|]; rewrite E; split; [congruence|done].
Qed.

(** C5. The heaps of the system serve their clients: from start-up on, whatever legal
    calls are made (allocation by capabilities, cleared, aligned or by default, release,
    resizing, writes, the limit for external memory, the heaps at the start-up stacks, new regions),
    every call returns with no failed assertion; the buffers held are word-aligned, in a
    heap that has the capabilities asked for (for an aligned allocation, of which the code
    keeps only these two: those of [MALLOC_CAP_DEFAULT] and [MALLOC_CAP_SPIRAM] that were
    asked for), apart from each other, also where one is
    seen through the alias of D/IRAM, and contain what was last written, also a buffer
    that was resized or moved between heaps. *)
Theorem heap_caps_serve_clients `{SocMemory} m st cs : soc_memory_ok -> heap_caps_init m = Ok st -> clegal_run cs st [] = true ->
  exists rets st' live', crun cs st [] = Ok (rets, st', live') /\ cdelivered (registered_heaps st') live'.
Proof.
  intros Ok0 E L. destruct (caps_init_inv m st Ok0 E) as [sys I].
  destruct (crun_held cs st sys [] ltac:(by exists []) L) as (rets & st' & live' & sys' & Er & H'). exists rets, st', live'. split; [done|]. by eapply cheld_delivered.
Qed.

(** C6. There is no memory only if there is none: in every state that a legal history
    leads to, [heap_caps_malloc] of a size above 0 returns [NULL] exactly when the
    request is impossible (too large, or executable memory that is byte-addressed or for
    DMA) or when the largest free block of every heap with the capabilities, one of them
    at some priority, is smaller than the request. *)
Theorem heap_caps_malloc_null `{SocMemory} m st0 cs rets st live size caps : soc_memory_ok -> heap_caps_init m = Ok st0 -> clegal_run cs st0 [] = true ->
  crun cs st0 [] = Ok (rets, st, live) -> 0 < size ->
  heap_caps_malloc size caps st = Ok (0, st) <->
  (possible size caps = false \/
   forall e h k, e ∈ registered_heaps st -> hp_heap e = Some h -> (k < SOC_MEMORY_TYPE_NO_PRIOS)%nat -> selected (request_caps caps) k e = true ->
     too_small h (need caps (request_size size caps) e)).
Proof.
  intros Ok0 E L Er Hs. destruct (caps_init_inv m st0 Ok0 E) as [sys I0]. destruct (crun_held cs st0 sys [] ltac:(by exists []) L) as (rets2 & st2 & live2 & sys2 & Er2 & (pls & I & _)).
  rewrite Er in Er2. injection Er2 as <- <- <-. rewrite malloc_eq. destruct (possible size caps) eqn:Hp; [|split; [by left|done]].
  pose proof (request_size_bounds size caps ltac:(lia) Hp) as [B1 B2].
  assert (N : forall e h i, registered_heaps st !! i = Some e -> hp_heap e = Some h ->
    malloc_from (request_caps caps) (request_size size caps) e h = Ok (0, h) <-> too_small h (need caps (request_size size caps) e)).
  { intros e h i He Hh. assert (En : need (request_caps caps) (request_size size caps) e = need caps (request_size size caps) e) by (unfold need; by rewrite request_exec).
    rewrite <- En. apply (malloc_from_small _ _ e h (bufs i (pls ++ sys2))); [by eapply inv_ok|done|by eapply inv_serves|lia|done]. }
  destruct (for_prios_spec (malloc_from (request_caps caps) (request_size size caps)) (request_caps caps) SOC_MEMORY_TYPE_NO_PRIOS 0 (registered_heaps st)) as [[Ef Nf]|(i & e & h & ret & h' & He & Hh & (k & Hk & Hsel) & Ha & Hr & Ef)].
  { intros i e h He Hh. destruct (malloc_search st _ size caps I ltac:(lia) Hp i e h He Hh (inv_ok _ _ I _ _ He) (inv_serves _ _ I _ _ _ He Hh)) as (ret & h' & ? & ? & _). by exists ret, h'. }
  - rewrite Ef. ostep. split; [intros _; right|intros _; by destruct st]. intros e h k [i He]%list_elem_of_lookup_1 Hh Hk Hsel. apply (N e h i He Hh). apply (Nf k i); [lia|done..].
  - rewrite Ef. ostep. split; [intros [= Hz _]; done|]. intros [Hf|T]; [done|]. specialize (T e h k ltac:(by eapply list_elem_of_lookup_2) Hh ltac:(lia) Hsel).
    apply (N e h i He Hh) in T. rewrite Ha in T. congruence.
Qed.
End init.
