(* ===== verification/HeapCapsEsp32.v ===== *)
(** * Heaps by capability: the ESP32

    The tables of [components/soc/esp32/soc_memory_layout.c], without external memory
    and trace memory, for two cores; the theorems of [MemoryLayout] and [HeapCapsHistory]
    hold of them wherever the linker puts the program, and some runs show what the code
    does that its documentation does not say. *)
From S2P Require Import Prelude EspFlash Mem Heap HeapInv HeapOps HeapCalls HeapClient MemoryLayout HeapCaps HeapCapsClient HeapCapsCalls HeapCapsHistory.
#[local] Open Scope string_scope.
#[local] Open Scope Z_scope.

(** ** The tables *)
Definition pid_iram (name : string) (bit : Z) : soc_memory_type_desc_t :=
  mkType name [Z.lor (2 ^ bit) MALLOC_CAP_INTERNAL; 0; Z.lor MALLOC_CAP_EXEC MALLOC_CAP_32BIT] false false.
Definition pid_dram (name : string) (bit : Z) : soc_memory_type_desc_t :=
  mkType name [Z.lor (2 ^ bit) MALLOC_CAP_INTERNAL; MALLOC_CAP_8BIT; Z.lor MALLOC_CAP_32BIT MALLOC_CAP_DEFAULT] false false.
Definition esp32_memory_types : list soc_memory_type_desc_t :=
  [mkType "DRAM" [Z.lor MALLOC_CAP_8BIT MALLOC_CAP_DEFAULT; Z.lor MALLOC_CAP_INTERNAL (Z.lor MALLOC_CAP_DMA MALLOC_CAP_32BIT); 0] false false;
   mkType "D/IRAM" [0; Z.lor MALLOC_CAP_DMA (Z.lor MALLOC_CAP_8BIT (Z.lor MALLOC_CAP_INTERNAL MALLOC_CAP_DEFAULT)); Z.lor MALLOC_CAP_32BIT MALLOC_CAP_EXEC] true true;
   mkType "IRAM" [Z.lor MALLOC_CAP_EXEC (Z.lor MALLOC_CAP_32BIT MALLOC_CAP_INTERNAL); 0; 0] false false;
   pid_iram "PID2IRAM" 4; pid_iram "PID3IRAM" 5; pid_iram "PID4IRAM" 6; pid_iram "PID5IRAM" 7; pid_iram "PID6IRAM" 8; pid_iram "PID7IRAM" 9;
   pid_dram "PID2DRAM" 4; pid_dram "PID3DRAM" 5; pid_dram "PID4DRAM" 6; pid_dram "PID5DRAM" 7; pid_dram "PID6DRAM" 8; pid_dram "PID7DRAM" 9].

Definition esp32_memory_regions : list soc_memory_region_t :=
  [mkRegion 0x3FFAE000 0x2000 0 0; mkRegion 0x3FFB0000 0x8000 0 0; mkRegion 0x3FFB8000 0x8000 0 0;
   mkRegion 0x3FFC0000 0x2000 0 0; mkRegion 0x3FFC2000 0x2000 0 0; mkRegion 0x3FFC4000 0x2000 0 0; mkRegion 0x3FFC6000 0x2000 0 0;
   mkRegion 0x3FFC8000 0x2000 0 0; mkRegion 0x3FFCA000 0x2000 0 0; mkRegion 0x3FFCC000 0x2000 0 0; mkRegion 0x3FFCE000 0x2000 0 0;
   mkRegion 0x3FFD0000 0x2000 0 0; mkRegion 0x3FFD2000 0x2000 0 0; mkRegion 0x3FFD4000 0x2000 0 0; mkRegion 0x3FFD6000 0x2000 0 0;
   mkRegion 0x3FFD8000 0x2000 0 0; mkRegion 0x3FFDA000 0x2000 0 0; mkRegion 0x3FFDC000 0x2000 0 0; mkRegion 0x3FFDE000 0x2000 0 0;
   mkRegion 0x3FFE0000 0x4000 1 0x400BC000; mkRegion 0x3FFE4000 0x4000 1 0x400B8000; mkRegion 0x3FFE8000 0x8000 1 0x400B0000;
   mkRegion 0x3FFF0000 0x8000 1 0x400A8000; mkRegion 0x3FFF8000 0x4000 1 0x400A4000; mkRegion 0x3FFFC000 0x4000 1 0x400A0000;
   mkRegion 0x40070000 0x8000 2 0; mkRegion 0x40078000 0x8000 2 0;
   mkRegion 0x40080000 0x2000 2 0; mkRegion 0x40082000 0x2000 2 0; mkRegion 0x40084000 0x2000 2 0; mkRegion 0x40086000 0x2000 2 0;
   mkRegion 0x40088000 0x2000 2 0; mkRegion 0x4008A000 0x2000 2 0; mkRegion 0x4008C000 0x2000 2 0; mkRegion 0x4008E000 0x2000 2 0;
   mkRegion 0x40090000 0x2000 2 0; mkRegion 0x40092000 0x2000 2 0; mkRegion 0x40094000 0x2000 2 0; mkRegion 0x40096000 0x2000 2 0;
   mkRegion 0x40098000 0x2000 2 0; mkRegion 0x4009A000 0x2000 2 0; mkRegion 0x4009C000 0x2000 2 0; mkRegion 0x4009E000 0x2000 2 0].

(** [SOC_RESERVE_MEMORY_REGION]. *)
Definition esp32_reserved_regions : list soc_reserved_region_t :=
  [mkReserved 0x40070000 0x40078000; mkReserved 0x40078000 0x40080000; mkReserved 0x3FFE0000 0x3FFE0440; mkReserved 0x3FFE3F20 0x3FFE4350;
   mkReserved 0x3FFAE000 0x3FFAE6E0].

(** The chip, with the addresses of the linker script. *)
Definition esp32_memory (data_start heap_start iram_start iram_end : Z) : SocMemory := {|
  soc_memory_types := esp32_memory_types; soc_memory_regions := esp32_memory_regions; reserved_memory_regions := esp32_reserved_regions;
  _data_start := data_start; _heap_start := heap_start; _iram_start := iram_start; _iram_end := iram_end
|}.

(** ** The tables are right *)
Fixpoint in_orderb (rs : list soc_memory_region_t) : bool :=
  match rs with [] => true | r :: rs => (0 <? r_size r) && forallb (fun q => r_start r + r_size r <=? r_start q) rs && in_orderb rs end.
Lemma in_orderb_ok rs : in_orderb rs = true -> in_order rs.
Proof.
  induction rs as [|r rs IH]; [done|]. cbn [in_orderb in_order]. intros [[H1%Z.ltb_lt H2]%andb_prop H3]%andb_prop. split; [done|]. split; [|by apply IH].
  apply Forall_forall. intros q Hq. rewrite forallb_forall in H2. apply Z.leb_le, H2. by apply list_elem_of_In.
Qed.
Definition region_atb (r : soc_memory_region_t) : bool :=
  (0 <? r_start r) && ((r_start r + r_size r <=? SOC_DIRAM_DRAM_HIGH) || (SOC_DIRAM_DRAM_HIGH <? r_start r) && (r_start r + r_size r <=? SOC_DIRAM_IRAM_LOW)).

(** Two reserved regions with a word boundary between them. *)
Lemma apart_at c v w : c mod 4 = 0 -> (v_end v <= c <= v_start w \/ v_end w <= c <= v_start v) -> in_range v -> in_range w -> apart v w.
Proof.
  intros Hc Hvw Rv Rw. pose proof (rounded_bounds v Rv) as (V1 & _ & V2 & V3). pose proof (rounded_bounds w Rw) as (W1 & _ & W2 & W3). destruct Rv as [Rv1 Rv2]. destruct Rw as [Rw1 Rw2].
  assert (E : forall x, in_range x -> v_end (rounded x) < v_end x + 4 /\ v_start (rounded x) mod 4 = 0).
  { intros x [X1 X2]. unfold rounded. cbn [v_start v_end]. rewrite align_up_4 by lia. change (align_down 4 (v_start x)) with (align_down (2 ^ 2) (v_start x)).
    rewrite align_down_pow2 by lia. change (2 ^ 2) with 4. Z.to_euclidean_division_equations. lia. }
  destruct (E v ltac:(by split)) as [V4 V5]. destruct (E w ltac:(by split)) as [W4 W5]. clear E. unfold apart.
  generalize dependent (rounded v). generalize dependent (rounded w). intros. destruct Hvw; [left|right]; Z.to_euclidean_division_equations; lia.
Qed.
Ltac separate_at c := apply (apart_at c); [reflexivity|cbn [v_start v_end]; lia|split; cbn [v_start v_end]; lia|split; cbn [v_start v_end]; lia].
Ltac separate := first [separate_at 0x3FFAE6E0|separate_at 0x3FFE0000|separate_at 0x3FFE0440|separate_at 0x3FFE4350|separate_at 0x40078000|separate_at 0x40080000].

Lemma esp32_memory_ok data_start heap_start iram_start iram_end :
  0x3FFAE6E0 <= data_start < heap_start /\ heap_start <= 0x3FFE0000 -> 0x40080000 <= iram_start < iram_end /\ iram_end <= 0x400A0000 ->
  @soc_memory_ok (esp32_memory data_start heap_start iram_start iram_end).
Proof.
  intros [D1 D2] [I1 I2]. split.
  - apply in_orderb_ok. by vm_compute.
  - intros r a Hr [Ha1 Ha2]. assert (F : forallb region_atb esp32_memory_regions = true) by (by vm_compute).
    rewrite forallb_forall in F. specialize (F r (proj1 (list_elem_of_In _ _) Hr)). unfold region_atb in F. apply andb_prop in F as [F1%Z.ltb_lt F2].
    unfold memory_at, SOC_DIRAM_IRAM_LOW, SOC_DIRAM_IRAM_HIGH, SOC_DIRAM_DRAM_HIGH in *. apply orb_prop in F2 as [F2%Z.leb_le|[F2%Z.ltb_lt F3%Z.leb_le]%andb_prop]; lia.
  - repeat (apply Forall_cons; split); try apply Forall_nil; unfold in_range; cbn; try lia; done.
  - unfold reserved_regions, esp32_memory, reserved_memory_regions, esp32_reserved_regions, _data_start, _heap_start, _iram_start, _iram_end. cbn [all_apart].
    repeat split; repeat (apply Forall_cons; split); first [exact I|apply Forall_nil; exact I|separate].
  - unfold soc_get_available_memory_region_max_count, s_get_num_reserved_regions. by vm_compute.
Qed.

(** ** Runs *)

(** A program that takes all of the IRAM: executable memory is in D/IRAM. *)
#[export] Instance small_chip : SocMemory := esp32_memory 0x3FFB0000 0x3FFB4000 0x40080000 0x400A0000.
Lemma small_chip_ok : soc_memory_ok.
Proof. apply esp32_memory_ok; lia. Qed.
Definition state_of {A} (d : A) (o : outcome A) : A := match o with Ok a => a | _ => d end.
Definition started_heaps : caps_state := state_of (mkCaps [] 0) (heap_caps_init ∅).
Lemma started_run : heap_caps_init ∅ = Ok started_heaps.
Proof. by vm_compute. Qed.

(** A buffer is moved from the alias of D/IRAM, where the bytes of a client are in
    the opposite order of words, to memory for DMA; then external memory is added, and taken
    for a large default allocation. *)
Definition caps_history : list ccall :=
  [CMalloc 100 MALLOC_CAP_DEFAULT; CEnableStacks ∅; CMalloc 10 MALLOC_CAP_EXEC; CWrite 1074527128 1 [1; 2; 3; 4; 5; 6]; CRealloc 1074527128 20 MALLOC_CAP_DMA;
   CAlignedCalloc 16 3 4 MALLOC_CAP_DEFAULT; CFree 1073407888; CReallocDefault 1073407992 7;
   CAddRegion [Z.lor MALLOC_CAP_SPIRAM MALLOC_CAP_DEFAULT; 0; Z.lor MALLOC_CAP_8BIT MALLOC_CAP_32BIT] 0x3F800000 0x3F810000 ∅; CExtmemEnable 16; CMallocDefault 20].
Example caps_history_run : exists st live, crun caps_history started_heaps [] = Ok ([1073407888; 0; 1074527128; 0; 1073407992; 1073408032; 0; 1073407992; 0; 0; 1065353244], st, live) /\
  map cb_data (drop 1 live) = [[0; 1; 2; 3; 4; 5; 6]; [0; 0; 0; 0; 0; 0; 0; 0; 0; 0; 0; 0]].
Proof. eexists _, _. split; by vm_compute. Qed.

Lemma available_memory_exact_witness : in_order soc_memory_regions /\ exists out, soc_get_available_memory_regions = Ok out /\ in_order out /\
  lenZ out <= soc_get_available_memory_region_max_count /\ forall ty a, places out ty a <-> places soc_memory_regions ty a /\ unreserved (map rounded reserved_regions) a.
Proof. split; [exact (so_regions small_chip_ok)|]. apply available_memory_exact; [exact (so_regions small_chip_ok)|exact (so_reserved small_chip_ok)|exact (so_apart small_chip_ok)]. Defined.
Lemma heap_caps_serve_clients_witness : clegal_run caps_history started_heaps [] = true /\
  exists rets st' live', crun caps_history started_heaps [] = Ok (rets, st', live') /\ cdelivered (registered_heaps st') live'.
Proof. split; [by vm_compute|]. apply (heap_caps_serve_clients ∅ started_heaps caps_history); [exact small_chip_ok|exact started_run|by vm_compute]. Defined.
(** 200,000 bytes are more than the largest heap of the chip. *)
Lemma heap_caps_malloc_null_witness : 0 < 200000 /\
  (heap_caps_malloc 200000 MALLOC_CAP_DEFAULT started_heaps = Ok (0, started_heaps) <->
   (possible 200000 MALLOC_CAP_DEFAULT = false \/
    forall e h k, e ∈ registered_heaps started_heaps -> hp_heap e = Some h -> (k < SOC_MEMORY_TYPE_NO_PRIOS)%nat -> selected (request_caps MALLOC_CAP_DEFAULT) k e = true ->
      too_small h (need MALLOC_CAP_DEFAULT (request_size 200000 MALLOC_CAP_DEFAULT) e))).
Proof. split; [lia|]. apply (heap_caps_malloc_null ∅ started_heaps [] [] started_heaps [] 200000 MALLOC_CAP_DEFAULT); [exact small_chip_ok|exact started_run|reflexivity|reflexivity|lia]. Defined.
Example malloc_too_large : heap_caps_malloc 200000 MALLOC_CAP_DEFAULT started_heaps = Ok (0, started_heaps).
Proof. by vm_compute. Qed.

(** ** What the documentation does not say *)

(** An aligned allocation is refused for capabilities that are not the default or external
    memory, though the heap has them, and it ignores them next to these. *)
Lemma aligned_alloc_ignores_caps :
  heap_caps_aligned_alloc 16 100 MALLOC_CAP_DMA started_heaps = Ok (0, started_heaps) /\
  (exists p st, heap_caps_malloc 100 MALLOC_CAP_DMA started_heaps = Ok (p, st) /\ p <> 0) /\
  heap_caps_aligned_alloc 16 100 (Z.lor MALLOC_CAP_DEFAULT MALLOC_CAP_EXEC) started_heaps = heap_caps_aligned_alloc 16 100 MALLOC_CAP_DEFAULT started_heaps.
Proof. split; [by vm_compute|]. split; [|by vm_compute]. eexists _, _. split; [by vm_compute|done]. Qed.

(** Data in D/IRAM that is resized to executable memory keeps its address as data. *)
Definition diram_history : list ccall := [CEnableStacks ∅; CMalloc 0x2BF00 MALLOC_CAP_DEFAULT; CMalloc 0x10000 MALLOC_CAP_DEFAULT; CRealloc 1073628012 0x10000 MALLOC_CAP_EXEC].
Definition returned {S L} (o : outcome (list Z * S * L)) : option (list Z) := match o with Ok (rets, _, _) => Some rets | _ => None end.
Lemma realloc_exec_stays_data : returned (crun diram_history started_heaps []) = Some [0; 1073430556; 1073628012; 1073628012] /\ esp_ptr_in_diram_dram 1073628012 = true.
Proof. split; by vm_compute. Qed.

(** The size of a buffer at the alias of D/IRAM is read through a null pointer. *)
Lemma allocated_size_of_exec : exists rets st live, crun [CEnableStacks ∅; CMalloc 10 MALLOC_CAP_EXEC] started_heaps [] = Ok (rets, st, live) /\
  last rets = Some 1074527128 /\ heap_caps_get_allocated_size 1074527128 st = Fault.
Proof. eexists _, _, _. split; [vm_compute; reflexivity|]. split; by vm_compute. Qed.
