(* ===== verification/Log.v ===== *)
(** * The log library ([components/log/log.c])

    The level of a tag is kept in a list of tags, compared as strings; a cache of
    31 entries, keyed by the address of the tag, spares the search.  The cache is
    a binary min-heap on the generation of the last use, so that the entry to
    evict is the first one.

    A tag is the address of a constant string: [str] gives the string at an
    address.  [malloc] of a list entry may fail ([mem_ok]); the lock of
    [esp_log_writev] may time out ([locked]).  The checks of a debug build
    ([LOG_BUILTIN_CHECKS]) are assertions. *)
From S2P Require Import Prelude.

Definition TAG_CACHE_SIZE : nat := 31.

Record cached_tag_entry_t := mkCached { c_tag : Z; c_level : Z; c_generation : Z }.
#[export] Instance rebuild_cached : Rebuild cached_tag_entry_t := fun c =>
  mkCached (c_tag c) (c_level c) (c_generation c).
#[export] Instance cached_inhabited : Inhabited cached_tag_entry_t := populate (mkCached 0 0 0).

Record uncached_tag_entry_t := mkUncached { u_level : Z; u_tag : string }.
#[export] Instance rebuild_uncached : Rebuild uncached_tag_entry_t := fun e => mkUncached (u_level e) (u_tag e).

(** Bit fields of 3 and of 29 bits. *)
Definition bits3 (x : Z) : Z := x mod 2 ^ 3.
Definition bits29 (x : Z) : Z := x mod 2 ^ 29.

Record log_state := mkLog {
  s_log_default_level : Z;
  s_log_tags : list uncached_tag_entry_t;
  s_log_cache : list cached_tag_entry_t;
  s_log_cache_max_generation : Z;
  s_log_cache_entry_count : nat;
  s_log_cache_misses : Z
}.
#[export] Instance rebuild_log : Rebuild log_state := fun s =>
  mkLog (s_log_default_level s) (s_log_tags s) (s_log_cache s) (s_log_cache_max_generation s)
    (s_log_cache_entry_count s) (s_log_cache_misses s).

Definition ESP_LOG_VERBOSE := 5.
Definition initial_log : log_state :=
  mkLog ESP_LOG_VERBOSE [] (replicate TAG_CACHE_SIZE (mkCached 0 0 0)) 0 0 0.

Section log.
Context (str : Z -> string).
Implicit Types (s : log_state) (tag level : Z) (i : nat).

Definition cache_at (c : list cached_tag_entry_t) i : cached_tag_entry_t := c !!! i.

(** The debug check of the entry [i]. *)
Definition heap_ok_at (c : list cached_tag_entry_t) i : bool :=
  Nat.eqb i 0 || (c_generation (cache_at c (Nat.div2 (i - 1))) <? c_generation (cache_at c i)).

Definition heap_swap (i j : nat) (c : list cached_tag_entry_t) : list cached_tag_entry_t :=
  let tmp := cache_at c i in
  <[j := tmp]> (<[i := cache_at c j]> c).

Fixpoint heap_bubble_down (fuel : nat) (index : nat) (c : list cached_tag_entry_t) : outcome (list cached_tag_entry_t) :=
  if Nat.ltb index (Nat.div2 TAG_CACHE_SIZE) then
    match fuel with
    | O => OutOfFuel
    | S fuel =>
        let left_index := (index * 2 + 1)%nat in
        let right_index := S left_index in
        let next :=
          if c_generation (cache_at c left_index) <? c_generation (cache_at c right_index) then left_index else right_index in
        heap_bubble_down fuel next (heap_swap index next c)
    end
  else Ok c.

(** The index of the entry [p] accepts among the [n] from [i]; [checked] entries
    pass the debug check first. *)
Fixpoint cache_search (p : cached_tag_entry_t -> bool) (c : list cached_tag_entry_t) (n i : nat) : outcome (option nat) :=
  match n with
  | O => Ok None
  | S n =>
      cassert (heap_ok_at c i);;
      if p (cache_at c i) then Ok (Some i) else cache_search p c n (S i)
  end.

Definition get_cached_log_level tag s : outcome (option Z * log_state) :=
  r ← cache_search (fun e => c_tag e =? tag) (s_log_cache s) (s_log_cache_entry_count s) 0;
  match r with
  | None => Ok (None, s)
  | Some i =>
      let level := c_level (cache_at (s_log_cache s) i) in
      if Nat.eqb (s_log_cache_entry_count s) TAG_CACHE_SIZE then
        let g := s_log_cache_max_generation s in
        let c := <[i := (cache_at (s_log_cache s) i) <| c_generation := bits29 g |>]> (s_log_cache s) in
        c ← heap_bubble_down TAG_CACHE_SIZE i c;
        Ok (Some level, s <| s_log_cache := c |> <| s_log_cache_max_generation := u32 (g + 1) |>)
      else Ok (Some level, s)
  end.

Definition add_to_cache tag level s : outcome log_state :=
  let generation := s_log_cache_max_generation s in
  let s := s <| s_log_cache_max_generation := u32 (generation + 1) |> in
  let e := mkCached tag (bits3 level) (bits29 generation) in
  if Nat.ltb (s_log_cache_entry_count s) TAG_CACHE_SIZE then
    Ok (s <| s_log_cache := <[s_log_cache_entry_count s := e]> (s_log_cache s) |>
          <| s_log_cache_entry_count := S (s_log_cache_entry_count s) |>)
  else
    c ← heap_bubble_down TAG_CACHE_SIZE 0 (<[0%nat := e]> (s_log_cache s));
    Ok (s <| s_log_cache := c |>).

Fixpoint uncached_search (tag : string) (l : list uncached_tag_entry_t) : option Z :=
  match l with
  | [] => None
  | it :: l => if String.eqb tag (u_tag it) then Some (u_level it) else uncached_search tag l
  end.
Definition get_uncached_log_level tag s : option Z := uncached_search (str tag) (s_log_tags s).

Definition should_output (level_for_message level_for_tag : Z) : bool := level_for_message <=? level_for_tag.

Definition clear_log_level_list s : log_state :=
  s <| s_log_tags := [] |> <| s_log_cache_entry_count := 0%nat |> <| s_log_cache_max_generation := 0 |>
    <| s_log_cache_misses := 0 |>.

(** The level of the first entry for [tag] set to [level]; [None]: no entry. *)
Fixpoint set_uncached (tag : string) (level : Z) (l : list uncached_tag_entry_t) : option (list uncached_tag_entry_t) :=
  match l with
  | [] => None
  | it :: l =>
      if String.eqb (u_tag it) tag then Some (it <| u_level := u8 level |> :: l)
      else option_map (cons it) (set_uncached tag level l)
  end.

Definition esp_log_level_set (mem_ok : bool) tag level s : outcome log_state :=
  if String.eqb (str tag) "*" then Ok (clear_log_level_list (s <| s_log_default_level := level |>))
  else
    let found := set_uncached (str tag) level (s_log_tags s) in
    match found, mem_ok with
    | None, false => Ok s
    | _, _ =>
        let tags := default (mkUncached (u8 level) (str tag) :: s_log_tags s) found in
        let s := s <| s_log_tags := tags |> in
        r ← cache_search (fun e => String.eqb (str (c_tag e)) (str tag)) (s_log_cache s) (s_log_cache_entry_count s) 0;
        match r with
        | None => Ok s
        | Some i => Ok (s <| s_log_cache := <[i := (cache_at (s_log_cache s) i) <| c_level := bits3 level |>]> (s_log_cache s) |>)
        end
    end.

(** Whether the message is printed. *)
Definition esp_log_writev (locked : bool) level tag s : outcome (bool * log_state) :=
  if negb locked then Ok (false, s)
  else
    '(cached, s) ← get_cached_log_level tag s;
    '(level_for_tag, s) ←
      (match cached with
       | Some l => Ok (l, s)
       | None =>
           let l := default (s_log_default_level s) (get_uncached_log_level tag s) in
           s ← add_to_cache tag l s;
           Ok (l, s <| s_log_cache_misses := u32 (s_log_cache_misses s + 1) |>)
       end);
    Ok (should_output level level_for_tag, s).
End log.
