(* ===== verification/LogCache.v ===== *)
(** * The log library: the tag cache

    The cache stays a min-heap on the generations and never shows: a message is
    printed exactly when the level last set for its tag allows it. *)
From S2P Require Import Prelude Log.

(** ** The heap of generations *)
Section heap.
Implicit Types (c : list cached_tag_entry_t) (i j : nat).

Definition parent i : nat := Nat.div2 (i - 1).
Definition gen c i : Z := c_generation (cache_at c i).

Lemma parent_spec j : (0 < j)%nat -> (j = parent j * 2 + 1 \/ j = S (parent j * 2 + 1))%nat.
Proof. intros Hj. unfold parent. pose proof (Nat.div2_odd (j - 1)) as E. destruct (Nat.odd (j - 1)); cbn [Nat.b2n] in E; lia. Qed.
Lemma parent_left i : parent (i * 2 + 1) = i.
Proof. pose proof (parent_spec (i * 2 + 1)). lia. Qed.
Lemma parent_right i : parent (S (i * 2 + 1)) = i.
Proof. pose proof (parent_spec (S (i * 2 + 1))). lia. Qed.
Lemma parent_lt j : (0 < j)%nat -> (parent j < j)%nat.
Proof. intros Hj. pose proof (parent_spec j Hj). lia. Qed.

(** The first [n] entries are a min-heap. *)
Definition is_heap c n : Prop := forall j, (0 < j < n)%nat -> gen c (parent j) < gen c j.

Lemma heap_root c n j : is_heap c n -> (j < n)%nat -> gen c 0 <= gen c j.
Proof.
  intros H. induction j as [j IH] using lt_wf_ind. intros Hj. destruct (decide (j = 0%nat)) as [->|]; [lia|].
  pose proof (parent_lt j ltac:(lia)). specialize (H j ltac:(lia)). specialize (IH (parent j) ltac:(lia) ltac:(lia)). lia.
Qed.

(** A heap but for the entry [i], the youngest of all. *)
Record sinking c i : Prop := {
  sk_len : length c = TAG_CACHE_SIZE;
  sk_i : (i < TAG_CACHE_SIZE)%nat;
  sk_heap : forall j, (0 < j < TAG_CACHE_SIZE)%nat -> j <> i -> parent j <> i -> gen c (parent j) < gen c j;
  sk_skip : forall j, (0 < j < TAG_CACHE_SIZE)%nat -> parent j = i -> (0 < i)%nat -> gen c (parent i) < gen c j;
  sk_young : forall j, (j < TAG_CACHE_SIZE)%nat -> j <> i -> gen c j < gen c i;
  sk_distinct : forall j k, (j < TAG_CACHE_SIZE)%nat -> (k < TAG_CACHE_SIZE)%nat -> j <> k -> gen c j <> gen c k
}.

Lemma cache_at_insert c i e k : (i < length c)%nat -> cache_at (<[i := e]> c) k = if decide (k = i) then e else cache_at c k.
Proof.
  intros Hi. unfold cache_at. rewrite list_lookup_total_insert.
  destruct (decide (k = i)) as [->|]; [by rewrite decide_True|]. rewrite decide_False; [done|]. by intros [-> _].
Qed.

Lemma cache_at_swap c i j k : (i < length c)%nat -> (j < length c)%nat ->
  cache_at (heap_swap i j c) k = if decide (k = j) then cache_at c i else if decide (k = i) then cache_at c j else cache_at c k.
Proof. intros Hi Hj. unfold heap_swap. rewrite cache_at_insert by (by rewrite length_insert). by rewrite cache_at_insert by done. Qed.

Lemma cache_at_lookup c i : (i < length c)%nat -> c !! i = Some (cache_at c i).
Proof. intros Hi. unfold cache_at. by apply list_lookup_lookup_total_lt. Qed.

Lemma length_swap c i j : length (heap_swap i j c) = length c.
Proof. unfold heap_swap. by rewrite !length_insert. Qed.

Lemma swap_perm c i j : (i < length c)%nat -> (j < length c)%nat -> heap_swap i j c ≡ₚ c.
Proof. intros Hi Hj. apply Permutation_insert_swap; by apply cache_at_lookup. Qed.

(** One swap with the smaller child. *)
Lemma sinking_swap c i : sinking c i -> (i < Nat.div2 TAG_CACHE_SIZE)%nat ->
  let left_index := (i * 2 + 1)%nat in
  let right_index := S left_index in
  let next := if gen c left_index <? gen c right_index then left_index else right_index in
  sinking (heap_swap i next c) next.
Proof.
  intros [S1 S2 S3 S4 S5 S6] Hi left right next. change (Nat.div2 TAG_CACHE_SIZE) with 15%nat in Hi.
  unfold TAG_CACHE_SIZE in *.
  assert (Hn : (next = left \/ next = right) /\ (forall j, (0 < j)%nat -> parent j = i -> j <> next -> (j < 31)%nat -> gen c next < gen c j)).
  { unfold next. assert (Hd : gen c left <> gen c right) by (apply S6; unfold left, right; lia).
    destruct (Z.ltb_spec (gen c left) (gen c right)); (split; [auto|]); intros j Hj Hp Hne Hj31;
      pose proof (parent_spec j Hj) as E; rewrite Hp in E; fold left right in E; destruct E as [-> | ->]; done || lia. }
  destruct Hn as [Hn Hmin]. assert (Hpn : parent next = i) by (destruct Hn as [-> | ->]; [apply parent_left|apply parent_right]).
  assert (Hb : (i < next < 31)%nat) by (destruct Hn as [-> | ->]; unfold left, right; lia).
  assert (G : forall k, gen (heap_swap i next c) k = if decide (k = next) then gen c i else if decide (k = i) then gen c next else gen c k).
  { intros k. unfold gen. rewrite cache_at_swap by lia. repeat case_decide; done. }
  split; unfold TAG_CACHE_SIZE; [by rewrite length_swap|lia|..].
  - intros j Hj Hjn Hpj. rewrite !G, (decide_False (P := j = next)), (decide_False (P := parent j = next)) by done.
    pose proof (parent_lt j ltac:(lia)). destruct (decide (j = i)) as [->|Hji]; [rewrite decide_False by lia; apply S4; lia|].
    destruct (decide (parent j = i)); [apply Hmin; done || lia|by apply S3].
  - intros j Hj Hpj H0. pose proof (parent_lt j ltac:(lia)). rewrite !G, Hpn.
    rewrite (decide_False (P := i = next)), decide_True, (decide_False (P := j = next)), decide_False by lia.
    rewrite <- Hpj. apply S3; lia.
  - intros j Hj Hjn. rewrite !G, decide_False by done. rewrite (decide_True (P := next = next)) by done. case_decide; apply S5; lia.
  - intros j k Hj Hk Hjk. rewrite !G. repeat case_decide; try congruence; apply S6; lia.
Qed.

(** Sinking ends in a heap of the same entries. *)
Lemma bubble_down_heap fuel : forall i c, sinking c i -> (TAG_CACHE_SIZE <= i + fuel)%nat ->
  exists c', heap_bubble_down fuel i c = Ok c' /\ is_heap c' TAG_CACHE_SIZE /\ c' ≡ₚ c.
Proof.
  induction fuel as [|fuel IH]; intros i c K Hf; [destruct K; lia|].
  cbn [heap_bubble_down]. destruct (Nat.ltb_spec i (Nat.div2 TAG_CACHE_SIZE)) as [Hi|Hi].
  - pose proof (sinking_swap c i K Hi) as K'. cbv zeta in *. set (next := if _ <? _ then _ else _) in *.
    fold (gen c (i * 2 + 1)) (gen c (S (i * 2 + 1))). fold next.
    assert (Hn : (i < next)%nat) by (unfold next; destruct (_ <? _); lia).
    destruct (IH next _ K') as (c' & E & H & P); [lia|]. exists c'. split; [done|]. split; [done|].
    rewrite P. destruct K, K'. apply swap_perm; rewrite sk_len0; lia.
  - exists c. split; [done|]. split; [|done]. change (Nat.div2 TAG_CACHE_SIZE) with 15%nat in Hi. destruct K as [K1 K2 K3 K4 K5 K6].
    unfold TAG_CACHE_SIZE in *. intros j Hj. pose proof (parent_spec j ltac:(lia)). pose proof (parent_lt j ltac:(lia)).
    destruct (decide (j = i)) as [->|]; [apply K5; lia|]. apply K3; lia.
Qed.

(** A cache whose entry [i] becomes the youngest. *)
Lemma refresh_sinking c i e : length c = TAG_CACHE_SIZE -> (i < TAG_CACHE_SIZE)%nat -> is_heap c TAG_CACHE_SIZE ->
  (forall j k, (j < TAG_CACHE_SIZE)%nat -> (k < TAG_CACHE_SIZE)%nat -> j <> k -> gen c j <> gen c k) ->
  (forall j, (j < TAG_CACHE_SIZE)%nat -> gen c j < c_generation e) -> sinking (<[i := e]> c) i.
Proof.
  intros Hl Hi H Hd He.
  assert (G : forall k, gen (<[i := e]> c) k = if decide (k = i) then c_generation e else gen c k).
  { intros k. unfold gen. rewrite cache_at_insert by lia. by case_decide. }
  split; [by rewrite length_insert|done|..].
  - intros j Hj Hji Hpj. rewrite !G, !decide_False by done. by apply H.
  - intros j Hj Hpj H0. pose proof (parent_lt i H0). pose proof (parent_lt j ltac:(lia)). rewrite !G, !decide_False by lia.
    pose proof (H j Hj) as Hjp. rewrite Hpj in Hjp. pose proof (H i ltac:(lia)). lia.
  - intros j Hj Hji. rewrite !G, decide_False, decide_True by done. by apply He.
  - intros j k Hj Hk Hjk. rewrite !G. pose proof (He j Hj). pose proof (He k Hk). repeat case_decide; subst; try done; try lia. by apply Hd.
Qed.
End heap.

(** ** The cache as a set of entries *)
Section entries.
Implicit Types (c : list cached_tag_entry_t).

Lemma insert_perm c i x e : c !! i = Some x -> exists r, c ≡ₚ x :: r /\ <[i := e]> c ≡ₚ e :: r.
Proof.
  intros Hx. exists (delete i c). split; [by apply delete_Permutation|].
  rewrite insert_take_drop, delete_take_drop by (by eapply lookup_lt_Some). by rewrite Permutation_middle.
Qed.

Lemma search_spec p c n : forall i, (forall j, (i <= j < i + n)%nat -> heap_ok_at c j = true) ->
  (cache_search p c n i = Ok None /\ forall j, (i <= j < i + n)%nat -> p (cache_at c j) = false) \/
  (exists j, cache_search p c n i = Ok (Some j) /\ (i <= j < i + n)%nat /\ p (cache_at c j) = true).
Proof.
  induction n as [|n IH]; intros i H; cbn [cache_search]; [left; split; [done|lia]|].
  oassert ltac:(apply H; lia). destruct (p (cache_at c i)) eqn:Ep; [right; exists i; split; [done|split; [lia|done]]|].
  destruct (IH (S i)) as [[E F]|(j & E & Hj & Hp)]; [intros j Hj; apply H; lia|left|right].
  - split; [done|]. intros j Hj. destruct (decide (j = i)) as [->|]; [done|apply F; lia].
  - exists j. split; [done|split; [lia|done]].
Qed.

Lemma heap_checks c n : is_heap c n -> forall j, (j < n)%nat -> heap_ok_at c j = true.
Proof.
  intros H j Hj. unfold heap_ok_at. destruct (Nat.eqb_spec j 0); [done|]. cbn [orb]. apply Z.ltb_lt. apply (H j). lia.
Qed.

Lemma gens_distinct c n : NoDup (c_generation <$> take n c) -> (n <= length c)%nat ->
  forall j k, (j < n)%nat -> (k < n)%nat -> j <> k -> gen c j <> gen c k.
Proof.
  intros N Hn j k Hj Hk Hjk E. apply Hjk. eapply (NoDup_lookup _ j k (gen c j)); [exact N|..];
    rewrite list_lookup_fmap, lookup_take_lt, cache_at_lookup by lia; cbn; [done|by rewrite E].
Qed.

Lemma entry_at c n j : (j < n)%nat -> (n <= length c)%nat -> cache_at c j ∈ take n c.
Proof. intros Hj Hn. apply list_elem_of_lookup. exists j. by rewrite lookup_take_lt, cache_at_lookup by lia. Qed.
End entries.

(** ** What the library promises *)

(** The levels in force: the default and what was set for tags since. *)
Record log_levels := mkLevels { lv_default : Z; lv_tags : gmap string Z }.
Definition level_of (sp : log_levels) (t : string) : Z := default (lv_default sp) (lv_tags sp !! t).

Inductive log_call := LSet (mem_ok : bool) (tag level : Z) | LWrite (locked : bool) (level tag : Z).

Section spec.
Context (str : Z -> string).

(** What is printed, and the levels after. *)
Definition spec_step (c : log_call) (sp : log_levels) : bool * log_levels :=
  match c with
  | LSet mem_ok tag level =>
      if String.eqb (str tag) "*" then (false, mkLevels level ∅)
      else if bool_decide (lv_tags sp !! str tag = None) && negb mem_ok then (false, sp)
      else (false, mkLevels (lv_default sp) (<[str tag := level]> (lv_tags sp)))
  | LWrite locked level tag => (locked && (level <=? level_of sp (str tag)), sp)
  end.
Definition log_step (c : log_call) (s : log_state) : outcome (bool * log_state) :=
  match c with
  | LSet mem_ok tag level => s ← esp_log_level_set str mem_ok tag level s; Ok (false, s)
  | LWrite locked level tag => esp_log_writev str locked level tag s
  end.

Fixpoint spec_run (cs : list log_call) (sp : log_levels) : list bool * log_levels :=
  match cs with
  | [] => ([], sp)
  | c :: cs => let (b, sp) := spec_step c sp in let (bs, sp) := spec_run cs sp in (b :: bs, sp)
  end.
Fixpoint log_run (cs : list log_call) (s : log_state) : outcome (list bool * log_state) :=
  match cs with
  | [] => Ok ([], s)
  | c :: cs => '(b, s) ← log_step c s; '(bs, s) ← log_run cs s; Ok (b :: bs, s)
  end.

(** Levels are those of [esp_log_level_t] (they fit the bit fields); the tags of
    messages are in [T]. *)
Definition call_ok (T : gset Z) (c : log_call) : Prop :=
  match c with
  | LSet _ _ level => 0 <= level < 2 ^ 3
  | LWrite _ _ tag => tag ∈ T
  end.

Context (T : gset Z) (Tinj : forall t u, t ∈ T -> u ∈ T -> str t = str u -> t = u).

Definition entry_ok (sp : log_levels) (g : Z) (e : cached_tag_entry_t) : Prop :=
  0 <= c_generation e < g /\ c_tag e ∈ T /\ c_level e = level_of sp (str (c_tag e)).

(** [g]: a bound of the generations used. *)
Record log_inv (sp : log_levels) (g : Z) (s : log_state) : Prop := {
  li_len : length (s_log_cache s) = TAG_CACHE_SIZE;
  li_count : (s_log_cache_entry_count s <= TAG_CACHE_SIZE)%nat;
  li_default : s_log_default_level s = lv_default sp;
  li_levels : forall t, 0 <= level_of sp t < 2 ^ 3;
  li_tags : forall t, uncached_search t (s_log_tags s) = lv_tags sp !! t;
  li_gen : 0 <= s_log_cache_max_generation s <= g;
  li_heap : is_heap (s_log_cache s) (s_log_cache_entry_count s);
  li_entries : Forall (entry_ok sp (s_log_cache_max_generation s)) (take (s_log_cache_entry_count s) (s_log_cache s));
  li_gens : NoDup (c_generation <$> take (s_log_cache_entry_count s) (s_log_cache s));
  li_uniq : NoDup (c_tag <$> take (s_log_cache_entry_count s) (s_log_cache s))
}.

Lemma bits29_small g : 0 <= g < 2 ^ 29 -> bits29 g = g.
Proof. apply Z.mod_small. Qed.
Lemma bits3_small x : 0 <= x < 2 ^ 3 -> bits3 x = x.
Proof. apply Z.mod_small. Qed.

(** The entries after one of them is rewritten. *)
Lemma entry_ok_mono sp g g' l : g <= g' -> Forall (entry_ok sp g) l -> Forall (entry_ok sp g') l.
Proof. intros Hg F. eapply Forall_impl; [exact F|]. intros e (? & ? & ?). split; [lia|done]. Qed.

Lemma fresh_gen sp g (l : list cached_tag_entry_t) : Forall (entry_ok sp g) l -> g ∉ c_generation <$> l.
Proof.
  intros F (e & -> & He)%list_elem_of_fmap. rewrite Forall_forall in F. destruct (F e He) as [? _]. lia.
Qed.

(** A full cache with the entry [i] rewritten to the youngest. *)
Lemma refresh_run sp g s i x e : log_inv sp g s -> s_log_cache_entry_count s = TAG_CACHE_SIZE -> g < 2 ^ 29 ->
  s_log_cache s !! i = Some x -> c_generation e = s_log_cache_max_generation s ->
  c_tag e ∈ T -> c_level e = level_of sp (str (c_tag e)) -> (c_tag e = c_tag x \/ c_tag e ∉ c_tag <$> s_log_cache s) ->
  exists c, heap_bubble_down TAG_CACHE_SIZE i (<[i := e]> (s_log_cache s)) = Ok c /\
    log_inv sp (g + 1) (s <| s_log_cache := c |> <| s_log_cache_max_generation := u32 (s_log_cache_max_generation s + 1) |>) /\
    exists r, s_log_cache s ≡ₚ x :: r /\ c ≡ₚ e :: r.
Proof.
  intros [I1 I2 I3 I4 I5 I6 I7 I8 I9 I10] Hc Hg Hx Eg HT Hl Htag. rewrite Hc in *. set (c0 := s_log_cache s) in *.
  rewrite firstn_all2 in I8, I9, I10 by lia.
  assert (Hi : (i < TAG_CACHE_SIZE)%nat) by (rewrite <- I1; by eapply lookup_lt_Some).
  destruct (bubble_down_heap TAG_CACHE_SIZE i (<[i := e]> c0)) as (c & E & Hh & P); [|lia|].
  { apply refresh_sinking; try done.
    - apply gens_distinct; [by rewrite firstn_all2 by lia|lia].
    - intros j Hj. rewrite Eg. rewrite Forall_forall in I8. destruct (I8 (cache_at c0 j)) as [? _]; [|unfold gen; lia].
      apply (list_elem_of_lookup_2 _ j), cache_at_lookup. lia. }
  exists c. split; [done|]. destruct (insert_perm c0 i x e Hx) as (r & P0 & P1).
  assert (Pc : c ≡ₚ e :: r) by (by rewrite P, P1).
  assert (Lc : length c = TAG_CACHE_SIZE) by (rewrite P, length_insert; done).
  rewrite P0 in I8, I9, I10, Htag. rewrite fmap_cons in I9, I10, Htag. apply Forall_cons in I8 as [_ I8].
  apply NoDup_cons in I9 as [_ I9]. apply NoDup_cons in I10 as [Hnx I10].
  rewrite u32_small by (unfold is_u32; lia). split; [|by exists r].
  split; cbn -[TAG_CACHE_SIZE]; rewrite ?Hc; try done; try lia; rewrite firstn_all2, Pc by lia.
  - constructor; [split; [lia|done]|]. eapply entry_ok_mono; [|done]. lia.
  - rewrite fmap_cons. constructor; [|done]. rewrite Eg. by eapply fresh_gen.
  - rewrite fmap_cons. constructor; [|done]. destruct Htag as [->|Htag]; [done|]. intros Hin. apply Htag. by right.
Qed.

Lemma log_inv_mono sp g g' s : g <= g' -> log_inv sp g s -> log_inv sp g' s.
Proof. intros Hg [I1 I2 I3 I4 I5 I6 I7 I8 I9 I10]. split; try done. lia. Qed.

Lemma get_cached_run sp g s tag : log_inv sp g s -> g < 2 ^ 29 ->
  exists r s', get_cached_log_level tag s = Ok (r, s') /\
    match r with
    | Some l => l = level_of sp (str tag) /\ log_inv sp (g + 1) s'
    | None => s' = s /\ tag ∉ c_tag <$> take (s_log_cache_entry_count s) (s_log_cache s)
    end.
Proof.
  intros I Hg. pose proof I as [I1 I2 I3 I4 I5 I6 I7 I8 I9 I10]. unfold get_cached_log_level.
  destruct (search_spec (fun e => c_tag e =? tag) (s_log_cache s) (s_log_cache_entry_count s) 0) as [[E F]|(i & E & Hi & Hp)].
  { intros j Hj. eapply heap_checks; [exact I7|lia]. }
  - rewrite E. ostep. exists None, s. split; [done|]. split; [done|]. intros (e & -> & He)%list_elem_of_fmap.
    apply list_elem_of_lookup in He as [j Hj]. apply lookup_take_Some in Hj as [Hj Hjn].
    specialize (F j ltac:(lia)). rewrite cache_at_lookup in Hj by lia. injection Hj as Hj. rewrite Hj in F. apply Z.eqb_neq in F. done.
  - rewrite E. ostep. apply Z.eqb_eq in Hp. set (x := cache_at (s_log_cache s) i) in *.
    assert (Hx : s_log_cache s !! i = Some x) by (apply cache_at_lookup; lia).
    assert (Hxe : entry_ok sp (s_log_cache_max_generation s) x).
    { rewrite Forall_forall in I8. apply I8, entry_at; lia. }
    destruct Hxe as (Hx1 & Hx2 & Hx3).
    destruct (Nat.eqb_spec (s_log_cache_entry_count s) TAG_CACHE_SIZE) as [Hf|Hf].
    + destruct (refresh_run sp g s i x (x <| c_generation := bits29 (s_log_cache_max_generation s) |>) I Hf Hg Hx) as (c & Ec & I' & _); try done.
      { cbn. apply bits29_small. lia. } { by left. }
      rewrite Ec. ostep. eexists _, _. split; [done|]. split; [|exact I']. by rewrite Hx3, Hp.
    + eexists _, _. split; [done|]. split; [by rewrite Hx3, Hp|]. eapply log_inv_mono; [|exact I]. lia.
Qed.

Lemma add_run sp g s tag : log_inv sp g s -> g < 2 ^ 29 -> tag ∈ T ->
  tag ∉ c_tag <$> take (s_log_cache_entry_count s) (s_log_cache s) ->
  exists s', add_to_cache tag (level_of sp (str tag)) s = Ok s' /\ log_inv sp (g + 1) s'.
Proof.
  intros I Hg HT Hn. pose proof I as [I1 I2 I3 I4 I5 I6 I7 I8 I9 I10]. unfold add_to_cache. cbv zeta.
  rewrite (bits29_small (s_log_cache_max_generation s)), bits3_small by (done || lia).
  set (e := mkCached tag _ _).
  change (s_log_cache_entry_count (s <| s_log_cache_max_generation := _ |>)) with (s_log_cache_entry_count s).
  destruct (Nat.ltb_spec (s_log_cache_entry_count s) TAG_CACHE_SIZE) as [Hlt|Hge].
  - eexists. split; [done|]. cbn -[TAG_CACHE_SIZE].
    set (n := s_log_cache_entry_count s) in *. set (c := s_log_cache s) in *. rewrite u32_small by (unfold is_u32; lia).
    assert (Et : take (S n) (<[n := e]> c) = take n c ++ [e]).
    { rewrite insert_take_drop by lia. rewrite cons_middle, app_assoc, take_app_length'; [done|]. rewrite length_app, length_take. cbn. lia. }
    split; cbn -[take TAG_CACHE_SIZE]; try done; try lia; rewrite ?Et; fold n.
    + by rewrite length_insert.
    + intros j Hj. unfold gen. rewrite !cache_at_insert by lia. pose proof (parent_lt j ltac:(lia)).
      rewrite (decide_False (P := parent j = n)) by lia. destruct (decide (j = n)) as [->|]; [|apply I7; lia].
      rewrite Forall_forall in I8. destruct (I8 (cache_at c (parent n))) as [? _]; [apply entry_at; lia|]. cbn. lia.
    + apply Forall_app. split; [eapply entry_ok_mono; [|done]; lia|]. constructor; [|constructor]. split; [cbn; lia|done].
    + rewrite fmap_app. apply NoDup_app. split; [done|]. split; [|by apply NoDup_singleton].
      intros x Hx Hx'%list_elem_of_singleton. subst x. by eapply fresh_gen.
    + rewrite fmap_app. apply NoDup_app. split; [done|]. split; [|by apply NoDup_singleton].
      intros x Hx Hx'%list_elem_of_singleton. by subst x.
  - assert (Hf : s_log_cache_entry_count s = TAG_CACHE_SIZE) by lia. rewrite Hf, firstn_all2 in Hn by lia.
    destruct (refresh_run sp g s 0 (cache_at (s_log_cache s) 0) e I Hf Hg) as (c & Ec & I' & _); try done.
    { apply cache_at_lookup. unfold TAG_CACHE_SIZE in *. lia. } { by right. }
    change (s_log_cache (s <| s_log_cache_max_generation := _ |>)) with (s_log_cache s). rewrite Ec. ostep. eexists. split; [done|exact I'].
Qed.

(** A list entry set. *)
Lemma set_uncached_spec t level l :
  match set_uncached t level l with
  | None => uncached_search t l = None
  | Some l' => uncached_search t l <> None /\
      forall u, uncached_search u l' = if decide (u = t) then Some (u8 level) else uncached_search u l
  end.
Proof.
  induction l as [|it l IH]; cbn [set_uncached]; [done|]. destruct (String.eqb_spec (u_tag it) t) as [<-|Hne].
  - cbn [uncached_search u_tag u_level upd]. rewrite String.eqb_refl. split; [done|]. intros u. cbn.
    destruct (String.eqb_spec u (u_tag it)), (decide (u = u_tag it)); done.
  - destruct (set_uncached t level l) as [l'|]; cbn [option_map].
    + destruct IH as [H1 H2]. cbn [uncached_search]. destruct (String.eqb_spec t (u_tag it)); [congruence|]. split; [done|].
      intros u. rewrite H2. destruct (String.eqb_spec u (u_tag it)), (decide (u = t)); congruence.
    + cbn [uncached_search]. destruct (String.eqb_spec t (u_tag it)); [congruence|done].
Qed.

Lemma level_of_insert sp t level u :
  level_of (mkLevels (lv_default sp) (<[t := level]> (lv_tags sp))) u = if decide (u = t) then level else level_of sp u.
Proof. unfold level_of. cbn. rewrite lookup_insert. destruct (decide (t = u)), (decide (u = t)); done || congruence. Qed.

(** The cache after a level is set: the entry of the tag, if any, follows. *)
Lemma set_cached sp g s t level (tags : list uncached_tag_entry_t) :
  log_inv sp g s -> 0 <= level < 2 ^ 3 ->
  (forall u, uncached_search u tags = (<[t := level]> (lv_tags sp)) !! u) ->
  exists s', (r ← cache_search (fun e => String.eqb (str (c_tag e)) t) (s_log_cache s) (s_log_cache_entry_count s) 0;
              match r with
              | None => Ok (s <| s_log_tags := tags |>)
              | Some i => Ok (s <| s_log_tags := tags |>
                               <| s_log_cache := <[i := (cache_at (s_log_cache s) i) <| c_level := bits3 level |>]> (s_log_cache s) |>)
              end) = Ok s' /\ log_inv (mkLevels (lv_default sp) (<[t := level]> (lv_tags sp))) g s'.
Proof.
  intros I Hl Ht. pose proof I as [I1 I2 I3 I4 I5 I6 I7 I8 I9 I10]. set (sp' := mkLevels _ _).
  assert (I4' : forall u, 0 <= level_of sp' u < 2 ^ 3) by (intros u; unfold sp'; rewrite level_of_insert; case_decide; auto).
  assert (Hother : forall e, entry_ok sp (s_log_cache_max_generation s) e -> str (c_tag e) <> t -> entry_ok sp' (s_log_cache_max_generation s) e).
  { intros e (H1 & H2 & H3) Hne. split; [done|]. split; [done|]. unfold sp'. rewrite level_of_insert. by rewrite decide_False. }
  destruct (search_spec (fun e => String.eqb (str (c_tag e)) t) (s_log_cache s) (s_log_cache_entry_count s) 0) as [[E F]|(i & E & Hi & Hp)].
  { intros j Hj. eapply heap_checks; [exact I7|lia]. }
  - rewrite E. ostep. eexists. split; [done|]. split; try done; cbn -[take]; try done. apply Forall_forall. intros e He.
    rewrite Forall_forall in I8. apply Hother; [by apply I8|]. apply list_elem_of_lookup in He as [j Hj].
    apply lookup_take_Some in Hj as [Hj Hjn]. specialize (F j ltac:(lia)). rewrite cache_at_lookup in Hj by lia. injection Hj as Hj.
    rewrite Hj in F. by apply String.eqb_neq in F.
  - rewrite E. ostep. apply String.eqb_eq in Hp. eexists. split; [done|].
    set (n := s_log_cache_entry_count s) in *. set (c := s_log_cache s) in *. set (x := cache_at c i) in *.
    assert (Hx : take n c !! i = Some x) by (rewrite lookup_take_lt by lia; apply cache_at_lookup; lia).
    destruct (insert_perm (take n c) i x (x <| c_level := bits3 level |>) Hx) as (r & P0 & P1).
    pose proof I8 as I8'. rewrite P0 in I8', I9, I10. rewrite fmap_cons in I9, I10. apply Forall_cons in I8' as [Hxe I8'].
    assert (G : forall k, gen (<[i := x <| c_level := bits3 level |>]> c) k = gen c k).
    { intros k. unfold gen. rewrite cache_at_insert by lia. by case_decide; subst. }
    split; cbn -[take]; try done; rewrite ?length_insert; try done; fold n.
    + intros j Hj. rewrite !G. by apply I7.
    + rewrite take_insert_lt, P1 by lia. destruct Hxe as (X1 & X2 & X3). constructor.
      * split; [done|]. split; [done|]. cbn. unfold sp'. by rewrite bits3_small, level_of_insert, decide_True.
      * rewrite Forall_forall in I8' |- *. intros e He. apply Hother; [by apply I8'|]. intros Et.
        apply NoDup_cons in I10 as [Hnx _]. apply Hnx. destruct (I8' e He) as (_ & HeT & _).
        rewrite <- (Tinj (c_tag e) (c_tag x) HeT X2) by congruence. by apply list_elem_of_fmap_2.
    + by rewrite take_insert_lt, P1 by lia.
    + by rewrite take_insert_lt, P1 by lia.
Qed.

Lemma set_run sp g s mem_ok tag level : log_inv sp g s -> 0 <= level < 2 ^ 3 ->
  exists s', esp_log_level_set str mem_ok tag level s = Ok s' /\ log_inv (spec_step (LSet mem_ok tag level) sp).2 g s'.
Proof.
  intros I Hl. pose proof I as [I1 I2 I3 I4 I5 I6 I7 I8 I9 I10]. unfold esp_log_level_set. cbn [spec_step].
  destruct (String.eqb (str tag) "*").
  - eexists. split; [done|]. split; cbn; try done; try lia; try constructor.
    intros j Hj. lia.
  - assert (Hu : u8 level = level) by (apply Z.mod_small; lia).
    pose proof (set_uncached_spec (str tag) level (s_log_tags s)) as S. rewrite Hu in S.
    destruct (set_uncached (str tag) level (s_log_tags s)) as [l'|].
    + destruct S as [S1 S2]. rewrite I5 in S1. rewrite bool_decide_false by done. cbn [andb snd].
      destruct (set_cached sp g s (str tag) level l' I Hl) as (s' & E & I').
      { intros u. rewrite S2, lookup_insert, I5. destruct (decide (u = str tag)), (decide (str tag = u)); congruence. }
      exists s'. split; [|exact I']. rewrite <- E. by destruct mem_ok.
    + rewrite I5 in S. rewrite bool_decide_true by done. destruct mem_ok; cbn [negb andb snd]; [|by exists s].
      destruct (set_cached sp g s (str tag) level (mkUncached (u8 level) (str tag) :: s_log_tags s) I Hl) as (s' & E & I').
      { intros u. cbn [uncached_search u_tag u_level]. rewrite Hu, I5, lookup_insert.
        destruct (String.eqb_spec u (str tag)), (decide (str tag = u)); congruence. }
      exists s'. by split.
Qed.

Lemma write_run sp g s locked level tag : log_inv sp g s -> g < 2 ^ 29 -> tag ∈ T ->
  exists s', esp_log_writev str locked level tag s = Ok (locked && (level <=? level_of sp (str tag)), s') /\ log_inv sp (g + 1) s'.
Proof.
  intros I Hg HT. unfold esp_log_writev. destruct locked; cbn [negb andb].
  2: { exists s. split; [done|]. eapply log_inv_mono; [|exact I]. lia. }
  destruct (get_cached_run sp g s tag I Hg) as (r & s1 & E & Hr). rewrite E. ostep. destruct r as [l|].
  - destruct Hr as [-> I']. ostep. by exists s1.
  - destruct Hr as [-> Hn].
    assert (El : default (s_log_default_level s) (get_uncached_log_level str tag s) = level_of sp (str tag)).
    { unfold get_uncached_log_level, level_of. by rewrite (li_tags _ _ _ I), (li_default _ _ _ I). }
    rewrite El. destruct (add_run sp g s tag I Hg HT Hn) as (s' & E' & [J1 J2 J3 J4 J5 J6 J7 J8 J9 J10]). rewrite E'. ostep.
    eexists. split; [done|]. by split.
Qed.
End spec.

Lemma log_run_spec str T (Tinj : forall t u, t ∈ T -> u ∈ T -> str t = str u -> t = u) cs : forall sp g s,
  log_inv str T sp g s -> Forall (call_ok T) cs -> g + lenZ cs <= 2 ^ 29 ->
  exists s', log_run str cs s = Ok ((spec_run str cs sp).1, s') /\ log_inv str T (spec_run str cs sp).2 (g + lenZ cs) s'.
Proof.
  induction cs as [|c cs IH]; intros sp g s I F Hg; [exists s; rewrite Z.add_0_r; by split|].
  rewrite lenZ_cons in *. pose proof (lenZ_nonneg cs). apply Forall_cons in F as [Fc F]. cbn [log_run spec_run].
  assert (D : exists s', log_step str c s = Ok ((spec_step str c sp).1, s') /\ log_inv str T (spec_step str c sp).2 (g + 1) s').
  { destruct c as [mem_ok tag level|locked level tag].
    - destruct (set_run str T Tinj sp g s mem_ok tag level I Fc) as (s' & E & I'). unfold log_step. rewrite E. ostep. exists s'.
      split; [|eapply log_inv_mono; [|exact I']; lia]. cbn. by repeat case_match.
    - destruct (write_run str T sp g s locked level tag I ltac:(lia) Fc) as (s' & E & I'). by exists s'. }
  destruct D as (s1 & E & I1). rewrite E. ostep. destruct (spec_step str c sp) as [b sp1]. cbn [fst snd] in *.
  destruct (IH sp1 (g + 1) s1 I1 F) as (s' & E' & I'); [lia|]. rewrite E'. ostep. destruct (spec_run str cs sp1) as [bs sp2].
  exists s'. split; [done|]. replace (g + (1 + lenZ cs)) with (g + 1 + lenZ cs) by lia. exact I'.
Qed.

Lemma initial_log_inv str T : log_inv str T (mkLevels ESP_LOG_VERBOSE ∅) 0 initial_log.
Proof.
  split; try done; try constructor; cbn -[take TAG_CACHE_SIZE]; try lia.
  intros j Hj. lia.
Qed.

(** ** The properties *)

(** C11. When messages come through tag addresses with different strings, the cache
    of the log library does not show: from the start, for every sequence of at most
    [2^29] calls that set levels or write messages, no debug check fails and exactly the
    messages are printed that the level last set for their tag, or for all tags,
    allows.  Two addresses of equal strings, and longer sequences, are outside
    ([log_cache_stale_duplicate]). *)
Theorem log_cache_transparent str T cs :
  (forall t u, t ∈ T -> u ∈ T -> str t = str u -> t = u) -> Forall (call_ok T) cs -> lenZ cs <= 2 ^ 29 ->
  exists s, log_run str cs initial_log = Ok ((spec_run str cs (mkLevels ESP_LOG_VERBOSE ∅)).1, s).
Proof.
  intros Tinj F Hl. destruct (log_run_spec str T Tinj cs _ 0 initial_log (initial_log_inv str T) F) as (s & E & _); [lia|].
  by exists s.
Qed.

(** The tags "a", "b" and so on at the addresses 97, 98 and so on, and "*" at 42;
    40 of them are written, so that the cache is full and evicts. *)
Definition demo_str (t : Z) : string := String (Ascii.ascii_of_nat (Z.to_nat t)) EmptyString.
Definition demo_tags : list Z := Z.of_nat <$> seq 60 40.
Definition demo_calls : list log_call :=
  (LWrite true 3 <$> demo_tags) ++ [LSet true 61 2; LWrite true 3 61; LWrite true 2 61; LSet true 42 1; LWrite true 2 70; LSet false 80 4; LWrite true 4 80].

Lemma demo_str_inj t u : t ∈@{gset Z} (list_to_set demo_tags) -> u ∈@{gset Z} (list_to_set demo_tags) -> demo_str t = demo_str u -> t = u.
Proof.
  intros Ht Hu. apply elem_of_list_to_set, list_elem_of_fmap in Ht as (n & -> & Hn). apply elem_of_list_to_set, list_elem_of_fmap in Hu as (k & -> & Hk).
  apply elem_of_seq in Hn, Hk. unfold demo_str. rewrite !Nat2Z.id. intros [= E].
  apply (f_equal Ascii.nat_of_ascii) in E. rewrite !Ascii.nat_ascii_embedding in E by lia. congruence.
Qed.

Lemma log_cache_transparent_witness : lenZ demo_calls <= 2 ^ 29 /\
  exists s, log_run demo_str demo_calls initial_log = Ok ((spec_run demo_str demo_calls (mkLevels ESP_LOG_VERBOSE ∅)).1, s).
Proof.
  split; [vm_compute; discriminate|]. apply (log_cache_transparent demo_str (list_to_set demo_tags) demo_calls).
  - exact demo_str_inj.
  - apply Forall_app. split; [|].
    + apply Forall_fmap, Forall_forall. intros t Ht. by apply elem_of_list_to_set.
    + repeat constructor; try lia; by apply elem_of_list_to_set, (bool_decide_unpack _).
  - vm_compute. discriminate.
Defined.

(** When the cache is full, the entry that gives way to a new tag is the one
    whose last use is the oldest, and the others stay with their tags and
    levels. *)
Theorem log_cache_evicts_oldest str T sp g s tag :
  log_inv str T sp g s -> s_log_cache_entry_count s = TAG_CACHE_SIZE -> g < 2 ^ 29 -> tag ∈ T -> tag ∉ c_tag <$> s_log_cache s ->
  exists s' x r, add_to_cache tag (level_of sp (str tag)) s = Ok s' /\ log_inv str T sp (g + 1) s' /\
    s_log_cache s ≡ₚ x :: r /\ s_log_cache s' ≡ₚ mkCached tag (level_of sp (str tag)) (s_log_cache_max_generation s) :: r /\
    forall y, y ∈ r -> c_generation x < c_generation y.
Proof.
  intros I Hf Hg HT Hn. pose proof I as [I1 I2 I3 I4 I5 I6 I7 I8 I9 I10]. rewrite Hf in I7, I9. rewrite firstn_all2 in I9 by lia.
  assert (Hx : s_log_cache s !! 0%nat = Some (cache_at (s_log_cache s) 0)) by (apply cache_at_lookup; unfold TAG_CACHE_SIZE in *; lia).
  unfold add_to_cache. cbv zeta. rewrite (bits29_small (s_log_cache_max_generation s)), bits3_small by (done || lia).
  change (s_log_cache_entry_count (s <| s_log_cache_max_generation := _ |>)) with (s_log_cache_entry_count s).
  change (s_log_cache (s <| s_log_cache_max_generation := _ |>)) with (s_log_cache s).
  rewrite Hf, Nat.ltb_irrefl. set (e := mkCached tag _ _).
  destruct (refresh_run str T sp g s 0 _ e I Hf Hg Hx) as (c & Ec & I' & r & P0 & P1); try done; [by right|].
  rewrite Ec. ostep. eexists _, (cache_at (s_log_cache s) 0), r. split; [done|]. split; [exact I'|]. split; [done|]. split; [done|].
  intros y Hy. assert (Hys : y ∈ s_log_cache s) by (rewrite P0; by right).
  apply list_elem_of_lookup in Hys as [j Hj]. pose proof (lookup_lt_Some _ _ _ Hj).
  assert (Ey : y = cache_at (s_log_cache s) j) by (rewrite cache_at_lookup in Hj by done; by injection Hj).
  pose proof (heap_root _ _ j I7 ltac:(lia)) as Hr. unfold gen in Hr. rewrite <- Ey in Hr.
  rewrite P0, fmap_cons in I9. apply NoDup_cons in I9 as [Hnx _].
  assert (c_generation y <> c_generation (cache_at (s_log_cache s) 0)); [|lia].
  intros E. apply Hnx. rewrite <- E. by apply list_elem_of_fmap_2.
Qed.

(** The log after messages through 31 tags. *)
Definition demo_full : log_state :=
  match log_run demo_str (LWrite true 3 <$> take 31 demo_tags) initial_log with Ok (_, s) => s | _ => initial_log end.

Lemma demo_full_inv : log_inv demo_str (list_to_set demo_tags) (mkLevels ESP_LOG_VERBOSE ∅) 31 demo_full.
Proof.
  destruct (log_run_spec demo_str (list_to_set demo_tags) demo_str_inj (LWrite true 3 <$> take 31 demo_tags) (mkLevels ESP_LOG_VERBOSE ∅) 0 initial_log)
    as (s & E & I).
  - apply initial_log_inv.
  - apply Forall_fmap, Forall_forall. intros t Ht. apply elem_of_list_to_set. apply list_elem_of_lookup in Ht as [j Hj].
    apply lookup_take_Some in Hj as [Hj _]. by eapply list_elem_of_lookup_2.
  - vm_compute. discriminate.
  - unfold demo_full. rewrite E. exact I.
Qed.

Lemma log_cache_evicts_oldest_witness : (95 ∉ (c_tag <$> s_log_cache demo_full)) /\
  exists s' x r, add_to_cache 95 (level_of (mkLevels ESP_LOG_VERBOSE ∅) (demo_str 95)) demo_full = Ok s' /\
    log_inv demo_str (list_to_set demo_tags) (mkLevels ESP_LOG_VERBOSE ∅) (31 + 1) s' /\
    s_log_cache demo_full ≡ₚ x :: r /\
    s_log_cache s' ≡ₚ mkCached 95 (level_of (mkLevels ESP_LOG_VERBOSE ∅) (demo_str 95)) (s_log_cache_max_generation demo_full) :: r /\
    forall y, y ∈ r -> c_generation x < c_generation y.
Proof.
  assert (Hn : 95 ∉ c_tag <$> s_log_cache demo_full) by (apply (bool_decide_unpack _); by vm_compute).
  split; [exact Hn|]. apply (log_cache_evicts_oldest demo_str (list_to_set demo_tags)).
  - exact demo_full_inv.
  - by vm_compute.
  - lia.
  - apply elem_of_list_to_set, (bool_decide_unpack _). by vm_compute.
  - exact Hn.
Defined.

(** Two addresses of equal strings defeat the cache: after messages through
    both, a level set for the string reaches only one of the entries, and the
    other address prints at the old level. *)
Theorem log_cache_stale_duplicate :
  let str := fun _ => "wifi"%string in
  (spec_run str [LWrite true 3 1; LWrite true 3 2; LSet true 1 1; LWrite true 3 1; LWrite true 3 2] (mkLevels ESP_LOG_VERBOSE ∅)).1
    = [true; true; false; false; false] /\
  exists s, log_run str [LWrite true 3 1; LWrite true 3 2; LSet true 1 1; LWrite true 3 1; LWrite true 3 2] initial_log
    = Ok ([true; true; false; false; true], s).
Proof. split; [by vm_compute|]. eexists. vm_compute. reflexivity. Qed.
