(* ===== verification/Timer.v ===== *)
(** * High resolution timers ([components/esp_common/src/esp_timer.c])

    The armed timers are a list sorted by alarm; the hardware alarm is set to the
    first.  When it fires, the timer task takes the timers that are due from the
    list, re-inserts the periodic ones and runs their callbacks.

    A timer is known by its address.  [callback] and [event_id] share their
    storage.  The clock and the hardware alarm are the SoC layer
    ([esp_timer_impl_*]): the time read is an argument of each call, [min_period]
    the answer of [esp_timer_impl_get_min_period_us], and the last alarm set is
    part of the state.  The configuration is the one without profiling. *)
From S2P Require Import Prelude.

Definition u64 (x : Z) : Z := x mod 2 ^ 64.

Definition ESP_OK := 0.
Definition ESP_ERR_NO_MEM := 0x101.
Definition ESP_ERR_INVALID_ARG := 0x102.
Definition ESP_ERR_INVALID_STATE := 0x103.
Definition EVENT_ID_DELETE_TIMER := 0xF0DE1E1E.
Definition INT64_MAX := 2 ^ 63 - 1.

Record esp_timer := mkTimer { alarm : Z; period : Z; callback : Z; arg : Z }.
#[export] Instance rebuild_timer : Rebuild esp_timer := fun t => mkTimer (alarm t) (period t) (callback t) (arg t).
(** The union with [callback]. *)
Definition event_id (t : esp_timer) : Z := callback t.

Record timer_state := mkTimers {
  s_timers : list Z;
  timers : gmap Z esp_timer;
  s_timer_task : bool;
  hw_alarm : Z
}.
#[export] Instance rebuild_timers : Rebuild timer_state := fun s =>
  mkTimers (s_timers s) (timers s) (s_timer_task s) (hw_alarm s).

Section timer.
Context (min_period : Z).
Implicit Types (s : timer_state) (timer now : Z).

(** A dereference: [Fault] when there is no timer there. *)
Definition deref s timer : outcome esp_timer :=
  match timers s !! timer with Some t => Ok t | None => Fault end.
Definition set_timer timer (t : esp_timer) s : timer_state := s <| timers := <[timer := t]> (timers s) |>.

Definition is_initialized s : bool := s_timer_task s.
Definition timer_armed (t : esp_timer) : bool := 0 <? alarm t.

Definition esp_timer_impl_set_alarm (a : Z) s : timer_state := s <| hw_alarm := a |>.

(** [LIST_FOREACH] with [LIST_INSERT_BEFORE] the first later timer, or after the
    last. *)
Fixpoint insert_by_alarm s timer (a : Z) (l : list Z) : outcome (list Z) :=
  match l with
  | [] => Ok [timer]
  | it :: l' =>
      t ← deref s it;
      if a <? alarm t then Ok (timer :: l)
      else l'' ← insert_by_alarm s timer a l'; Ok (it :: l'')
  end.

Definition timer_insert timer s : outcome timer_state :=
  t ← deref s timer;
  l ← insert_by_alarm s timer (alarm t) (s_timers s);
  let s := s <| s_timers := l |> in
  if bool_decide (head l = Some timer) then Ok (esp_timer_impl_set_alarm (alarm t) s) else Ok s.

(** [LIST_REMOVE] of an element that is in no list is undefined. *)
Fixpoint list_remove timer (l : list Z) : outcome (list Z) :=
  match l with
  | [] => Fault
  | it :: l' => if it =? timer then Ok l' else l'' ← list_remove timer l'; Ok (it :: l'')
  end.

Definition timer_remove timer s : outcome timer_state :=
  t ← deref s timer;
  l ← list_remove timer (s_timers s);
  Ok (set_timer timer (t <| alarm := 0 |> <| period := 0 |>) (s <| s_timers := l |>)).

(** [addr]: what [calloc] returns, [0] for [NULL].  The handle is returned with
    the error code. *)
Definition esp_timer_create (args_callback args_arg out_handle addr : Z) s : outcome (Z * Z * timer_state) :=
  if negb (is_initialized s) then Ok (ESP_ERR_INVALID_STATE, 0, s)
  else if (args_callback =? 0) || (out_handle =? 0) then Ok (ESP_ERR_INVALID_ARG, 0, s)
  else if addr =? 0 then Ok (ESP_ERR_NO_MEM, 0, s)
  else Ok (ESP_OK, addr, set_timer addr (mkTimer 0 0 args_callback args_arg) s).

Definition esp_timer_start_once timer (timeout_us now : Z) s : outcome (Z * timer_state) :=
  if timer =? 0 then Ok (ESP_ERR_INVALID_ARG, s)
  else if negb (is_initialized s) then Ok (ESP_ERR_INVALID_STATE, s)
  else
    t ← deref s timer;
    if timer_armed t then Ok (ESP_ERR_INVALID_STATE, s)
    else
      let s := set_timer timer (t <| alarm := u64 (now + timeout_us) |> <| period := 0 |>) s in
      s ← timer_insert timer s;
      Ok (ESP_OK, s).

Definition esp_timer_start_periodic timer (period_us now : Z) s : outcome (Z * timer_state) :=
  if timer =? 0 then Ok (ESP_ERR_INVALID_ARG, s)
  else if negb (is_initialized s) then Ok (ESP_ERR_INVALID_STATE, s)
  else
    t ← deref s timer;
    if timer_armed t then Ok (ESP_ERR_INVALID_STATE, s)
    else
      let period_us := Z.max period_us min_period in
      let s := set_timer timer (t <| alarm := u64 (now + period_us) |> <| period := period_us |>) s in
      s ← timer_insert timer s;
      Ok (ESP_OK, s).

Definition esp_timer_stop timer s : outcome (Z * timer_state) :=
  if timer =? 0 then Ok (ESP_ERR_INVALID_ARG, s)
  else if negb (is_initialized s) then Ok (ESP_ERR_INVALID_STATE, s)
  else
    t ← deref s timer;
    if negb (timer_armed t) then Ok (ESP_ERR_INVALID_STATE, s)
    else s ← timer_remove timer s; Ok (ESP_OK, s).

Definition esp_timer_delete timer now s : outcome (Z * timer_state) :=
  if timer =? 0 then Ok (ESP_ERR_INVALID_ARG, s)
  else
    t ← deref s timer;
    if timer_armed t then Ok (ESP_ERR_INVALID_STATE, s)
    else
      let s := set_timer timer (t <| callback := EVENT_ID_DELETE_TIMER |> <| alarm := now |> <| period := 0 |>) s in
      s ← timer_insert timer s;
      Ok (ESP_OK, s).

(** The arm for a timer that is not deleted: a periodic timer is inserted again,
    the other is disarmed. *)
Definition rearm (it : Z) (t : esp_timer) s : outcome timer_state :=
  if 0 <? period t then timer_insert it (set_timer it (t <| alarm := u64 (alarm t + period t) |>) s)
  else Ok (set_timer it (t <| alarm := 0 |>) s).

(** The loop of [timer_process_alarm].  [run cb arg k s] is the callback number
    [k] with what other tasks do meanwhile, [clock k] the time after it; the
    result lists the timers that fired with the alarm they fired for. *)
Fixpoint process_loop (fuel : nat) (run : Z -> Z -> nat -> timer_state -> outcome timer_state) (clock : nat -> Z)
    (k : nat) (now : Z) s : outcome (list (Z * Z) * timer_state) :=
  match s_timers s with
  | [] => Ok ([], s)
  | it :: rest =>
      t ← deref s it;
      if alarm t <? now then
        match fuel with
        | O => OutOfFuel
        | S fuel =>
            l ← list_remove it (s_timers s);
            let s := s <| s_timers := l |> in
            if event_id t =? EVENT_ID_DELETE_TIMER then
              process_loop fuel run clock k now (s <| timers := delete it (timers s) |>)
            else
              s ← rearm it t s;
              s ← run (callback t) (arg t) k s;
              '(fired, s) ← process_loop fuel run clock (S k) (clock k) s;
              Ok ((it, alarm t) :: fired, s)
        end
      else Ok ([], s)
  end.

Definition timer_process_alarm (fuel : nat) (run : Z -> Z -> nat -> timer_state -> outcome timer_state) (clock : nat -> Z)
    now s : outcome (list (Z * Z) * timer_state) :=
  '(fired, s) ← process_loop fuel run clock 0 now s;
  match s_timers s with
  | [] => Ok (fired, s)
  | first :: _ => t ← deref s first; Ok (fired, esp_timer_impl_set_alarm (alarm t) s)
  end.

(** The result of [esp_timer_impl_init], of the semaphore and of the task
    creation. *)
Definition esp_timer_init (semaphore task impl_ok : bool) s : Z * timer_state :=
  if is_initialized s then (ESP_ERR_INVALID_STATE, s)
  else if semaphore && task && impl_ok then (ESP_OK, s <| s_timer_task := true |>)
  else (ESP_ERR_NO_MEM, s <| s_timer_task := false |>).

Definition esp_timer_deinit s : Z * timer_state :=
  if negb (is_initialized s) then (ESP_ERR_INVALID_STATE, s)
  else match s_timers s with
       | [] => (ESP_OK, s <| s_timer_task := false |>)
       | _ => (ESP_ERR_INVALID_STATE, s)
       end.

Definition esp_timer_get_next_alarm s : outcome Z :=
  match s_timers s with
  | [] => Ok INT64_MAX
  | it :: _ => t ← deref s it; Ok (alarm t)
  end.
End timer.
