(* ===== verification/TimerProofs.v ===== *)
(** * High resolution timers: the list of armed timers

    The list holds exactly the armed timers, in the order of their alarms, and the
    hardware alarm is never later than the first; processing an alarm fires
    exactly what is due. *)
From Stdlib Require Import Sorted.
From S2P Require Import Prelude Timer.

(** ** The invariant *)
Section invariant.
Implicit Types (s : timer_state) (h : Z).

Definition alarm_of s h : Z := match timers s !! h with Some t => alarm t | None => 0 end.
Definition sorted_by_alarm s (l : list Z) : Prop := StronglySorted (fun a b => alarm_of s a <= alarm_of s b) l.

(** [except]: a timer that is armed and about to be inserted. *)
Record timer_inv (except : option Z) s : Prop := {
  tv_nodup : NoDup (s_timers s);
  tv_sorted : sorted_by_alarm s (s_timers s);
  tv_armed : forall h, h ∈ s_timers s <-> except <> Some h /\ 0 < alarm_of s h;
  tv_bounds : forall h t, timers s !! h = Some t -> 0 <= alarm t < 2 ^ 63 /\ 0 <= period t < 2 ^ 62;
  tv_hw : match s_timers s with [] => True | h :: _ => hw_alarm s <= alarm_of s h end
}.

Lemma alarm_of_lookup s h t : timers s !! h = Some t -> alarm_of s h = alarm t.
Proof. unfold alarm_of. by intros ->. Qed.

Lemma listed_timer s e h : timer_inv e s -> h ∈ s_timers s -> exists t, timers s !! h = Some t /\ 0 < alarm t.
Proof.
  intros I [_ Ha]%(tv_armed _ _ I). unfold alarm_of in Ha. destruct (timers s !! h) as [t|]; [by exists t|lia].
Qed.

Lemma sorted_app s l1 l2 : sorted_by_alarm s (l1 ++ l2) <->
  sorted_by_alarm s l1 /\ sorted_by_alarm s l2 /\ forall a b, a ∈ l1 -> b ∈ l2 -> alarm_of s a <= alarm_of s b.
Proof.
  unfold sorted_by_alarm. induction l1 as [|x l1 IH]; simpl.
  - split; [|naive_solver]. intros H. split; [constructor|]. split; [done|]. by intros a b ?%elem_of_nil.
  - split.
    + intros [H1 H2]%StronglySorted_inv. apply IH in H1 as (A & B & C). rewrite Forall_app, !Forall_forall in H2. destruct H2 as [H2 H3].
      split; [constructor; [done|by apply Forall_forall]|]. split; [done|]. intros a b [->|Ha]%elem_of_cons Hb; [by apply H3|by apply C].
    + intros ([H1 H2]%StronglySorted_inv & H3 & H4). constructor.
      * apply IH. split; [done|]. split; [done|]. intros a b Ha Hb. apply H4; [by right|done].
      * rewrite Forall_app. split; [done|]. apply Forall_forall. intros b Hb. apply H4; [left|done].
Qed.

Lemma sorted_ext s s' l : (forall h, h ∈ l -> alarm_of s' h = alarm_of s h) -> sorted_by_alarm s l -> sorted_by_alarm s' l.
Proof.
  unfold sorted_by_alarm. intros H. induction 1 as [|x l Hl IH F]; constructor.
  - apply IH. intros h Hh. apply H. by right.
  - rewrite Forall_forall in F |- *. intros y Hy. rewrite !H; [by apply F|by right|left].
Qed.

(** ** Insertion *)
Lemma insert_spec s h a l : Forall (fun x => is_Some (timers s !! x)) l -> sorted_by_alarm s l ->
  exists l1 l2, l = l1 ++ l2 /\ insert_by_alarm s h a l = Ok (l1 ++ h :: l2) /\
    Forall (fun x => alarm_of s x <= a) l1 /\ Forall (fun x => a < alarm_of s x) l2.
Proof.
  induction l as [|x l IH]; intros F S; [by exists [], []|]. apply Forall_cons in F as [[t Ht] F].
  apply StronglySorted_inv in S as [S Sx]. cbn [insert_by_alarm]. unfold deref. rewrite Ht. ostep.
  pose proof (alarm_of_lookup s x t Ht) as Ex. destruct (Z.ltb_spec a (alarm t)).
  - exists [], (x :: l). split; [done|]. split; [done|]. split; [constructor|]. constructor; [lia|].
    rewrite Forall_forall in Sx |- *. intros y Hy. specialize (Sx y Hy). cbn in Sx. lia.
  - destruct (IH F S) as (l1 & l2 & -> & E & F1 & F2). rewrite E. ostep. exists (x :: l1), l2.
    split; [done|]. split; [done|]. split; [|done]. constructor; [lia|done].
Qed.

(** The effect of [timer_insert] on the list. *)
Lemma timer_insert_run s h t : timer_inv (Some h) s -> timers s !! h = Some t -> 0 < alarm t ->
  exists s' l1 l2, timer_insert h s = Ok s' /\ timer_inv None s' /\ timers s' = timers s /\ s_timer_task s' = s_timer_task s /\
    s_timers s = l1 ++ l2 /\ s_timers s' = l1 ++ h :: l2.
Proof.
  intros I Ht Ha. pose proof I as [I1 I2 I3 I4 I5]. unfold timer_insert, deref. rewrite Ht. ostep.
  assert (F : Forall (fun x => is_Some (timers s !! x)) (s_timers s)).
  { apply Forall_forall. intros x Hx. destruct (listed_timer s _ x I Hx) as (u & -> & _). by eexists. }
  assert (Hh : h ∉ s_timers s) by (intros [? _]%I3; congruence).
  destruct (insert_spec s h (alarm t) (s_timers s) F I2) as (l1 & l2 & El & E & F1 & F2). rewrite E. ostep.
  pose proof (alarm_of_lookup s h t Ht) as Eh. rewrite Forall_forall in F1, F2.
  set (s1 := s <| s_timers := l1 ++ h :: l2 |>).
  assert (G : forall s', s_timers s' = l1 ++ h :: l2 -> timers s' = timers s ->
    match l1 ++ h :: l2 with [] => True | x :: _ => hw_alarm s' <= alarm_of s x end -> timer_inv None s').
  { intros s' Es Et Hw. assert (Ea : forall x, alarm_of s' x = alarm_of s x) by (intros x; unfold alarm_of; by rewrite Et).
    split; rewrite ?Es, ?Et; try done.
    - rewrite El in I1, Hh. apply NoDup_app in I1 as (N1 & N2 & N3). rewrite elem_of_app in Hh. apply NoDup_app. split; [done|].
      split; [|constructor; naive_solver]. intros x Hx [->|Hx']%elem_of_cons; [naive_solver|]. by apply (N2 x).
    - apply (sorted_ext s); [done|]. rewrite El in I2. apply sorted_app in I2 as (S1 & S2 & S3). apply sorted_app. split; [done|].
      split; [constructor; [done|apply Forall_forall; intros x Hx; specialize (F2 x Hx); lia]|].
      intros a b Ha' [->|Hb]%elem_of_cons; [specialize (F1 a Ha'); lia|by apply S3].
    - intros x. rewrite Ea. specialize (I3 x). rewrite El, elem_of_app in I3. rewrite elem_of_app, elem_of_cons.
      destruct (decide (x = h)) as [->|Hx]; [rewrite Eh; naive_solver|]. split.
      + intros D. split; [done|]. apply I3. naive_solver.
      + intros [_ D]. assert (x ∈ l1 \/ x ∈ l2) by (apply I3; split; [congruence|done]). naive_solver.
    - destruct (l1 ++ h :: l2); [done|]. by rewrite Ea. }
  case_bool_decide as Hd.
  - exists (esp_timer_impl_set_alarm (alarm t) s1), l1, l2. split; [done|]. split; [|done]. apply G; [done|done|].
    change (s_timers s1) with (l1 ++ h :: l2) in Hd. destruct (l1 ++ h :: l2); [done|]. injection Hd as ->. cbn. lia.
  - exists s1, l1, l2. split; [done|]. split; [|done]. apply G; [done|done|]. change (s_timers s1) with (l1 ++ h :: l2) in Hd.
    rewrite El in I5. destruct l1; [done|]. exact I5.
Qed.

(** ** Changing a timer that is in no list *)
Lemma set_timer_inv s e e' h t : timer_inv e s -> h ∉ s_timers s -> 0 <= alarm t < 2 ^ 63 -> 0 <= period t < 2 ^ 62 ->
  (e = None \/ e = Some h) -> e' = (if 0 <? alarm t then Some h else None) -> timer_inv e' (set_timer h t s).
Proof.
  intros [I1 I2 I3 I4 I5] Hh Ha Hp He ->.
  assert (Ea : forall x, alarm_of (set_timer h t s) x = if decide (x = h) then alarm t else alarm_of s x).
  { intros x. unfold alarm_of, set_timer. cbn. rewrite lookup_insert. destruct (decide (h = x)), (decide (x = h)); congruence. }
  assert (En : forall x, x ∈ s_timers s -> alarm_of (set_timer h t s) x = alarm_of s x).
  { intros x Hx. rewrite Ea, decide_False; [done|]. intros ->. done. }
  split; try done.
  - by apply (sorted_ext s).
  - intros x. change (s_timers (set_timer h t s)) with (s_timers s). rewrite Ea. destruct (decide (x = h)) as [->|Hx].
    + destruct (Z.ltb_spec 0 (alarm t)); split; naive_solver lia.
    + rewrite I3. destruct (Z.ltb_spec 0 (alarm t)), He as [-> | ->]; naive_solver.
  - intros x u. unfold set_timer. cbn. rewrite lookup_insert. case_decide; [intros [= <-]; done|apply I4].
  - change (s_timers (set_timer h t s)) with (s_timers s). destruct (s_timers s) as [|x l] eqn:E; [done|].
    rewrite En by left. exact I5.
Qed.

(** Removing a timer and disarming it. *)
Lemma list_remove_spec h l : h ∈ l -> NoDup l -> exists l1 l2, l = l1 ++ h :: l2 /\ list_remove h l = Ok (l1 ++ l2).
Proof.
  induction l as [|x l IH]; intros Hh N; [by apply elem_of_nil in Hh|]. cbn [list_remove].
  destruct (Z.eqb_spec x h) as [->|Hx]; [by exists [], l|]. apply NoDup_cons in N as [_ N].
  apply elem_of_cons in Hh as [?|Hh]; [congruence|]. destruct (IH Hh N) as (l1 & l2 & -> & E). rewrite E. ostep.
  by exists (x :: l1), l2.
Qed.

(** The list without [h], whose timer is then rewritten or gone. *)
Lemma unlisted_inv s l1 h l2 (m : gmap Z esp_timer) : timer_inv None s -> s_timers s = l1 ++ h :: l2 ->
  (forall x, x <> h -> m !! x = timers s !! x) -> (forall t, m !! h = Some t -> 0 <= alarm t < 2 ^ 63 /\ 0 <= period t < 2 ^ 62) ->
  timer_inv (match m !! h with Some t => if 0 <? alarm t then Some h else None | None => None end) (s <| s_timers := l1 ++ l2 |> <| timers := m |>).
Proof.
  intros [I1 I2 I3 I4 I5] El Hm Hh. set (s' := s <| s_timers := _ |> <| timers := _ |>). rewrite El in I1, I2, I5.
  apply NoDup_app in I1 as (N1 & N2 & N3). apply NoDup_cons in N3 as [N3 N4]. apply sorted_app in I2 as (S1 & S2 & S3).
  apply StronglySorted_inv in S2 as [S2 S4].
  assert (Hn : h ∉ l1 ++ l2) by (rewrite elem_of_app; intros [H|H]; [apply (N2 h H); left|done]).
  assert (Ea : forall x, x <> h -> alarm_of s' x = alarm_of s x) by (intros x Hx; unfold alarm_of; cbn; by rewrite Hm).
  assert (En : forall x, x ∈ l1 ++ l2 -> alarm_of s' x = alarm_of s x) by (intros x Hx; apply Ea; congruence).
  split; change (s_timers s') with (l1 ++ l2).
  - apply NoDup_app. split; [done|]. split; [|done]. intros x Hx Hx'. apply (N2 x Hx). by right.
  - apply (sorted_ext s); [done|]. apply sorted_app. split; [done|]. split; [done|]. intros a b Ha Hb. apply S3; [done|by right].
  - intros x. specialize (I3 x). rewrite El in I3. destruct (decide (x = h)) as [->|Hx].
    + split; [done|]. intros [D1 D2]. exfalso. apply D1. unfold alarm_of in D2. change (timers s') with m in D2.
      destruct (m !! h) as [t|]; [|lia]. destruct (Z.ltb_spec 0 (alarm t)); [done|lia].
    + rewrite Ea by done. rewrite elem_of_app. rewrite elem_of_app, elem_of_cons in I3. split.
      * intros D. split; [destruct (m !! h) as [t|]; [destruct (_ <? _)|]; congruence|]. apply I3. naive_solver.
      * intros [_ D]. assert (x ∈ l1 \/ x = h \/ x ∈ l2) by (by apply I3). naive_solver.
  - intros x t. change (timers s') with m. destruct (decide (x = h)) as [->|Hx]; [apply Hh|rewrite Hm by done; apply I4].
  - destruct (l1 ++ l2) as [|x l] eqn:E; [done|]. rewrite En by left. change (hw_alarm s') with (hw_alarm s).
    destruct l1 as [|y l1]; cbn in I5, E; [subst l2|injection E as -> _; exact I5].
    rewrite Forall_forall in S4. specialize (S4 x ltac:(left)). cbn in S4. lia.
Qed.
End invariant.

(** ** Processing an alarm *)
Section process.
Implicit Types (s : timer_state) (h d now : Z).

(** A callback that calls no timer function. *)
Definition passive (cb a : Z) (k : nat) s : outcome timer_state := Ok s.

Definition deleted (t : esp_timer) : bool := event_id t =? EVENT_ID_DELETE_TIMER.

(** The timer [h] has the due time [d] before [now]: its alarm, or for a periodic
    timer a later multiple. *)
Definition due s now h d : Prop :=
  exists t, timers s !! h = Some t /\ 0 < alarm t /\ deleted t = false /\ d < now /\
    (d = alarm t \/ (0 < period t /\ exists k, 0 <= k /\ d = alarm t + k * period t)).

(** What becomes of a timer. *)
Definition after now (t : esp_timer) : option esp_timer :=
  if (0 <? alarm t) && (alarm t <? now) then
    if deleted t then None
    else if 0 <? period t then Some (t <| alarm := alarm t + period t * ((now - alarm t + period t - 1) / period t) |>)
    else Some (t <| alarm := 0 |>)
  else Some t.

(** The due times still to come, a bound of the turns of the loop. *)
Definition lateness now s (l : list Z) : nat := sum_list_with (fun h => Z.to_nat (now - alarm_of s h)) l.
Definition process_fuel now s : nat := lateness now s (s_timers s).

Lemma lateness_ext now s s' l : (forall h, h ∈ l -> alarm_of s' h = alarm_of s h) -> lateness now s' l = lateness now s l.
Proof.
  induction l as [|x l IH]; intros H; [done|]. unfold lateness in *. cbn. rewrite H by left. rewrite IH; [done|]. intros h Hh. apply H. by right.
Qed.
Lemma lateness_app now s l k : lateness now s (l ++ k) = (lateness now s l + lateness now s k)%nat.
Proof. unfold lateness. apply sum_list_with_app. Qed.

Lemma after_rearmed now t : 0 < alarm t < now -> 0 < period t -> deleted t = false ->
  after now (t <| alarm := alarm t + period t |>) = after now t.
Proof.
  intros Ha Hp Hd. unfold after. change (deleted (t <| alarm := _ |>)) with (deleted t). rewrite Hd. cbn.
  destruct (Z.ltb_spec 0 (alarm t)); [|lia]. destruct (Z.ltb_spec (alarm t) now); [|lia]. destruct (Z.ltb_spec 0 (period t)); [|lia]. cbn [andb].
  destruct (Z.ltb_spec 0 (alarm t + period t)); [|lia]. destruct (Z.ltb_spec (alarm t + period t) now); cbn [andb]; do 2 f_equal.
  - replace (now - alarm t + period t - 1) with (now - (alarm t + period t) + period t - 1 + 1 * period t) by lia.
    rewrite Z.div_add by lia. lia.
  - replace ((now - alarm t + period t - 1) / period t) with 1; [lia|].
    apply (Z.div_unique _ _ _ (now - alarm t - 1)); lia.
Qed.

(** A due time of the first timer, or of the state it leaves. *)
Lemma due_first s s' now it t : timers s !! it = Some t -> 0 < alarm t < now -> deleted t = false -> 0 <= period t ->
  timers s' = <[it := t <| alarm := if 0 <? period t then alarm t + period t else 0 |>]> (timers s) ->
  forall h d, due s now h d <-> (h = it /\ d = alarm t) \/ due s' now h d.
Proof.
  intros Ht Ha Hd Hp E h d. unfold due. rewrite E, lookup_insert. destruct (decide (it = h)) as [->|Hne].
  - rewrite Ht. split.
    + intros (u & [= <-] & _ & _ & Hdn & D). destruct D as [->|(Hpp & k & Hk & ->)]; [by left|].
      destruct (decide (k = 0)) as [->|]; [left; lia|]. right. eexists. split; [done|]. cbn. destruct (Z.ltb_spec 0 (period t)); [|lia].
      split; [lia|]. split; [done|]. split; [done|]. right. split; [done|]. exists (k - 1). split; [lia|]. lia.
    + intros [[_ ->]|(u & [= <-] & H1 & _ & Hdn & D)].
      * exists t. split; [done|]. split; [lia|]. split; [done|]. split; [lia|]. by left.
      * cbn in H1, D. destruct (Z.ltb_spec 0 (period t)); [|lia]. exists t. split; [done|]. split; [lia|]. split; [done|]. split; [done|].
        right. split; [done|]. destruct D as [->|(_ & k & Hk & ->)]; [exists 1|exists (k + 1)]; lia.
  - split; [intros (u & Hu & D); right; by exists u|]. intros [[-> _]|(u & Hu & D)]; [done|by exists u].
Qed.

Lemma due_deleted s s' now it t : timers s !! it = Some t -> deleted t = true -> timers s' = delete it (timers s) ->
  forall h d, due s now h d <-> due s' now h d.
Proof.
  intros Ht Hd E h d. unfold due. rewrite E. destruct (decide (it = h)) as [->|Hne].
  - rewrite lookup_delete_eq, Ht. split; [intros (u & [= <-] & _ & D & _); congruence|intros (u & ? & _); done].
  - by rewrite lookup_delete_ne.
Qed.

(** *** One turn of the loop *)
Section turn.
Context (now : Z) (s : timer_state) (it : Z) (rest : list Z) (t : esp_timer).
Context (I : timer_inv None s) (El : s_timers s = it :: rest) (Ht : timers s !! it = Some t).
Context (Ha : 0 < alarm t < now) (Hn : now < 2 ^ 62).

(** What a turn that leaves [s'] keeps. *)
Record turn_ok (s' : timer_state) : Prop := {
  to_inv : timer_inv None s';
  to_fuel : (process_fuel now s' < process_fuel now s)%nat;
  to_task : s_timer_task s' = s_timer_task s;
  to_after : forall h, timers s' !! h ≫= after now = timers s !! h ≫= after now
}.

Lemma turn_fuel : process_fuel now s = (Z.to_nat (now - alarm t) + lateness now s rest)%nat.
Proof. unfold process_fuel. rewrite El. cbn. by rewrite (alarm_of_lookup s it t Ht). Qed.

Lemma turn_fresh : it ∉ rest.
Proof. pose proof (tv_nodup _ _ I) as N. rewrite El in N. by apply NoDup_cons in N as [N _]. Qed.

Lemma turn_due_min h d : due s now h d -> alarm t <= d.
Proof.
  intros (u & Hu & Hu0 & _ & _ & D). destruct (tv_bounds _ _ I h u Hu) as [_ Hp].
  assert (Hl : h ∈ s_timers s) by (apply (tv_armed _ _ I); split; [done|by rewrite (alarm_of_lookup s h u Hu)]).
  assert (alarm t <= alarm u).
  { pose proof (tv_sorted _ _ I) as S. rewrite El in S, Hl. apply StronglySorted_inv in S as [_ S]. rewrite Forall_forall in S.
    rewrite <- (alarm_of_lookup s it t Ht), <- (alarm_of_lookup s h u Hu). apply elem_of_cons in Hl as [->|Hl]; [lia|by apply S]. }
  destruct D as [->|(? & k & ? & ->)]; nia.
Qed.

Lemma rest_lateness s' : (forall x, x <> it -> timers s' !! x = timers s !! x) -> lateness now s' rest = lateness now s rest.
Proof.
  intros HM. apply lateness_ext. intros h Hh. unfold alarm_of. rewrite HM; [done|]. intros ->. by apply turn_fresh.
Qed.

Lemma after_late : after now t = if deleted t then None
  else if 0 <? period t then Some (t <| alarm := alarm t + period t * ((now - alarm t + period t - 1) / period t) |>)
  else Some (t <| alarm := 0 |>).
Proof. unfold after. destruct (Z.ltb_spec 0 (alarm t)), (Z.ltb_spec (alarm t) now); done || lia. Qed.

Lemma insert_after (t' : esp_timer) (m : gmap Z esp_timer) : m = <[it := t']> (timers s) -> after now t' = after now t ->
  forall h, m !! h ≫= after now = timers s !! h ≫= after now.
Proof.
  intros -> E h. destruct (decide (h = it)) as [->|Hh]; [by rewrite lookup_insert_eq, Ht|by rewrite lookup_insert_ne].
Qed.

Lemma turn_deleted : deleted t = true -> turn_ok (s <| s_timers := rest |> <| timers := delete it (timers s) |>).
Proof.
  intros Hd. assert (HM : forall x, x <> it -> delete it (timers s) !! x = timers s !! x) by (intros; by apply lookup_delete_ne).
  pose proof (unlisted_inv s [] it rest (delete it (timers s)) I El HM) as I'. rewrite lookup_delete_eq in I'. split.
  - by apply I'.
  - rewrite turn_fuel. unfold process_fuel. cbn [s_timers]. rewrite (rest_lateness (s <| s_timers := rest |> <| timers := delete it (timers s) |>)); [lia|exact HM].
  - done.
  - intros h. change (delete it (timers s) !! h ≫= after now = timers s !! h ≫= after now). destruct (decide (h = it)) as [->|Hh]; [|by rewrite lookup_delete_ne].
    rewrite lookup_delete_eq, Ht. cbn. by rewrite after_late, Hd.
Qed.

(** The timer is rewritten, then perhaps inserted. *)
Lemma rewritten_inv (t' : esp_timer) : 0 <= alarm t' < 2 ^ 63 -> period t' = period t ->
  timer_inv (if 0 <? alarm t' then Some it else None) (set_timer it t' (s <| s_timers := rest |>)).
Proof.
  intros H1 H2. destruct (tv_bounds _ _ I it t Ht) as [_ Hp].
  pose proof (unlisted_inv s [] it rest (<[it := t']> (timers s)) I El) as I'. rewrite lookup_insert_eq in I'.
  apply I'; [intros x Hx; by apply lookup_insert_ne|]. intros u [= <-]. lia.
Qed.

Lemma turn_once : deleted t = false -> period t = 0 -> turn_ok (set_timer it (t <| alarm := 0 |>) (s <| s_timers := rest |>)).
Proof.
  intros Hd Hp. set (t' := t <| alarm := 0 |>). split.
  - apply (rewritten_inv t'); cbn; lia.
  - rewrite turn_fuel. unfold process_fuel. cbn [s_timers set_timer].
    rewrite (rest_lateness (set_timer it t' (s <| s_timers := rest |>))); [lia|]. intros x Hx. by apply lookup_insert_ne.
  - done.
  - apply (insert_after t'); [done|]. rewrite after_late, Hd, Hp. unfold after. done.
Qed.

Lemma turn_periodic : deleted t = false -> 0 < period t -> exists s',
  timer_insert it (set_timer it (t <| alarm := u64 (alarm t + period t) |>) (s <| s_timers := rest |>)) = Ok s' /\ turn_ok s' /\
  timers s' = <[it := t <| alarm := alarm t + period t |>]> (timers s).
Proof.
  intros Hd Hp. destruct (tv_bounds _ _ I it t Ht) as [_ Hp2]. set (t' := t <| alarm := alarm t + period t |>).
  assert (Eu : u64 (alarm t + period t) = alarm t + period t) by (apply Z.mod_small; lia). rewrite Eu. fold t'.
  pose proof (rewritten_inv t') as I'. change (alarm t') with (alarm t + period t) in I'.
  destruct (Z.ltb_spec 0 (alarm t + period t)); [|lia].
  destruct (timer_insert_run (set_timer it t' (s <| s_timers := rest |>)) it t') as (s' & l1 & l2 & E & I2 & Et & Etk & E1 & E2).
  { apply I'; [lia|done]. } { apply lookup_insert_eq. } { cbn. lia. }
  exists s'. split; [done|]. change (rest = l1 ++ l2) in E1. change (timers s' = <[it := t']> (timers s)) in Et. split; [|exact Et]. split; [done| |exact Etk|].
  - rewrite turn_fuel. unfold process_fuel. rewrite E2, lateness_app. cbn [lateness sum_list_with].
    assert (Ea : alarm_of s' it = alarm t + period t).
    { unfold alarm_of. by rewrite Et, lookup_insert_eq. }
    assert (El' : lateness now s' rest = lateness now s rest) by (apply rest_lateness; intros x Hx; rewrite Et; by apply lookup_insert_ne).
    rewrite E1, lateness_app in El'. rewrite E1. unfold lateness in *. cbn [sum_list_with]. lia.
  - apply (insert_after t'); [exact Et|]. by apply after_rearmed.
Qed.
End turn.

(** Firing the first timer: the state it leaves and the due times left. *)
Lemma turn_fire now s it rest t : timer_inv None s -> s_timers s = it :: rest -> timers s !! it = Some t ->
  0 < alarm t < now -> now < 2 ^ 62 -> deleted t = false -> exists s',
  rearm it t (s <| s_timers := rest |>) = Ok s' /\ turn_ok now s s' /\
  (forall h d, due s now h d <-> (h = it /\ d = alarm t) \/ due s' now h d) /\ forall d, due s' now it d -> alarm t < d.
Proof.
  intros I El Ht Ha Hn Hd. destruct (tv_bounds _ _ I it t Ht) as [_ Hp].
  assert (exists s', rearm it t (s <| s_timers := rest |>) = Ok s' /\ turn_ok now s s' /\
    timers s' = <[it := t <| alarm := if 0 <? period t then alarm t + period t else 0 |>]> (timers s)) as (s' & E & T & Et).
  { unfold rearm. destruct (Z.ltb_spec 0 (period t)) as [Hpp|Hpp]; [by apply turn_periodic|]. eexists. split; [done|]. split; [|done].
    apply turn_once; try done. lia. }
  exists s'. split; [done|]. split; [done|]. split; [apply (due_first s s' now it t); done || lia|].
  intros d (u & Hu & Hu0 & _ & _ & D). rewrite Et, lookup_insert_eq in Hu. injection Hu as <-. cbn in Hu0, D.
  destruct (Z.ltb_spec 0 (period t)); [|lia]. destruct D as [->|(_ & k & Hk & ->)]; nia.
Qed.

Lemma none_due s now : timer_inv None s -> (forall h, h ∈ s_timers s -> now <= alarm_of s h) ->
  (forall h d, ~ due s now h d) /\ forall h, timers s !! h ≫= after now = timers s !! h.
Proof.
  intros I F. assert (G : forall h t, timers s !! h = Some t -> 0 < alarm t -> now <= alarm t).
  { intros h t Ht Ha. pose proof (alarm_of_lookup s h t Ht) as E. rewrite <- E. apply F, (tv_armed _ _ I). split; [done|lia]. }
  split.
  - intros h d (t & Ht & Ha & _ & Hd & D). specialize (G h t Ht Ha). destruct (tv_bounds _ _ I h t Ht). destruct D as [->|(? & k & ? & ->)]; nia.
  - intros h. destruct (timers s !! h) as [t|] eqn:Ht; [|done]. cbn. unfold after. specialize (G h t Ht).
    destruct (Z.ltb_spec 0 (alarm t)), (Z.ltb_spec (alarm t) now); cbn [andb]; done || lia.
Qed.

(** What processing does with the clock at [now]. *)
Record processed now s (F : list (Z * Z)) s' : Prop := {
  pr_inv : timer_inv None s';
  pr_nodup : NoDup F;
  pr_sorted : StronglySorted (fun x y => x.2 <= y.2) F;
  pr_fired : forall h d, (h, d) ∈ F <-> due s now h d;
  pr_timers : forall h, timers s' !! h = timers s !! h ≫= after now;
  pr_later : forall h, h ∈ s_timers s' -> now <= alarm_of s' h;
  pr_task : s_timer_task s' = s_timer_task s
}.

Lemma processed_deleted now s it t rest F s' : timer_inv None s -> s_timers s = it :: rest -> timers s !! it = Some t ->
  deleted t = true -> turn_ok now s (s <| s_timers := rest |> <| timers := delete it (timers s) |>) ->
  processed now (s <| s_timers := rest |> <| timers := delete it (timers s) |>) F s' -> processed now s F s'.
Proof.
  intros I El Ht Hd T [P1 P2 P3 P4 P5 P6 P7]. split; try done.
  - intros h d. rewrite P4. symmetry. by eapply due_deleted.
  - intros h. by rewrite P5, (to_after _ _ _ T).
Qed.

Lemma processed_fired now s it t rest s1 F s' : timer_inv None s -> s_timers s = it :: rest -> timers s !! it = Some t ->
  turn_ok now s s1 -> (forall h d, due s now h d <-> (h = it /\ d = alarm t) \/ due s1 now h d) -> (forall d, due s1 now it d -> alarm t < d) ->
  processed now s1 F s' -> processed now s ((it, alarm t) :: F) s'.
Proof.
  intros I El Ht T D1 D2 [P1 P2 P3 P4 P5 P6 P7]. split; try done.
  - apply NoDup_cons. split; [|done]. intros H%P4%D2. lia.
  - constructor; [done|]. apply Forall_forall. intros [h d] H%P4. apply (turn_due_min now s it rest t I El Ht h). apply D1. by right.
  - intros h d. rewrite elem_of_cons, P4, D1. split; [intros [[= -> ->]|?]; auto|intros [[-> ->]|?]; auto].
  - intros h. by rewrite P5, (to_after _ _ _ T).
  - rewrite P7. apply (to_task _ _ _ T).
Qed.

Lemma processed_done now s : timer_inv None s -> (forall h, h ∈ s_timers s -> now <= alarm_of s h) -> processed now s [] s.
Proof.
  intros I F. destruct (none_due s now I F) as [N1 N2]. split; try done; [constructor|constructor|].
  intros h d. split; [by intros ?%elem_of_nil|by intros ?%N1].
Qed.

Lemma first_earliest s it rest : timer_inv None s -> s_timers s = it :: rest -> forall h, h ∈ s_timers s -> alarm_of s it <= alarm_of s h.
Proof.
  intros I El h. pose proof (tv_sorted _ _ I) as S. rewrite El in S |- *. apply StronglySorted_inv in S as [_ S].
  rewrite Forall_forall in S. intros [->|Hh]%elem_of_cons; [lia|by apply S].
Qed.

Lemma process_loop_run now : now < 2 ^ 62 -> forall fuel k s, timer_inv None s -> (process_fuel now s <= fuel)%nat ->
  exists F s', process_loop fuel passive (fun _ => now) k now s = Ok (F, s') /\ processed now s F s'.
Proof.
  intros Hn. induction fuel as [fuel IH] using lt_wf_ind. intros k s I Hf. destruct (s_timers s) as [|it rest] eqn:El.
  { exists [], s. split; [destruct fuel; cbn [process_loop]; by rewrite El|]. apply processed_done; [done|].
    rewrite El. by intros h ?%elem_of_nil. }
  destruct (listed_timer s None it I) as (t & Ht & Ha); [rewrite El; left|]. pose proof (alarm_of_lookup s it t Ht) as Ea.
  destruct (Z.ltb_spec (alarm t) now) as [Hl|Hl].
  2: { exists [], s. split; [|apply processed_done; [done|]; intros h Hh; pose proof (first_earliest s it rest I El h Hh); lia].
       destruct fuel; cbn [process_loop]; rewrite El; unfold deref; rewrite Ht; ostep; (destruct (Z.ltb_spec (alarm t) now); [lia|done]). }
  assert (Hr : list_remove it (it :: rest) = Ok rest) by (cbn; by rewrite Z.eqb_refl).
  destruct fuel as [|fuel]; [pose proof (turn_fuel now s it rest t El Ht); lia|].
  cbn [process_loop]. rewrite El. unfold deref. rewrite Ht. ostep. destruct (Z.ltb_spec (alarm t) now); [|lia]. rewrite Hr. ostep.
  change (event_id t =? EVENT_ID_DELETE_TIMER) with (deleted t). destruct (deleted t) eqn:Hd.
  - pose proof (turn_deleted now s it rest t I El Ht ltac:(lia) Hd) as T. destruct (IH fuel ltac:(lia) k _ (to_inv _ _ _ T)) as (F & s' & E & P).
    { pose proof (to_fuel _ _ _ T). lia. }
    exists F, s'. split; [exact E|by eapply processed_deleted].
  - destruct (turn_fire now s it rest t I El Ht ltac:(lia) Hn Hd) as (s1 & E1 & T & D1 & D2).
    destruct (IH fuel ltac:(lia) (S k) s1 (to_inv _ _ _ T)) as (F & s' & E & P); [pose proof (to_fuel _ _ _ T); lia|].
    exists ((it, alarm t) :: F), s'. split; [|by eapply processed_fired]. rewrite E1. ostep. cbn. by rewrite E.
Qed.

Lemma set_alarm_inv s a : timer_inv None s -> match s_timers s with [] => True | h :: _ => a <= alarm_of s h end ->
  timer_inv None (esp_timer_impl_set_alarm a s).
Proof. intros [I1 I2 I3 I4 I5] H. by split. Qed.

Lemma processed_set_alarm now s F s' a : processed now s F s' -> match s_timers s' with [] => True | h :: _ => a <= alarm_of s' h end ->
  processed now s F (esp_timer_impl_set_alarm a s').
Proof. intros [P1 P2 P3 P4 P5 P6 P7] H. split; try done. by apply set_alarm_inv. Qed.

Lemma timer_process_run now s fuel : now < 2 ^ 62 -> timer_inv None s -> (process_fuel now s <= fuel)%nat ->
  exists F s', timer_process_alarm fuel passive (fun _ => now) now s = Ok (F, s') /\ processed now s F s' /\
    match s_timers s' with [] => True | h :: _ => hw_alarm s' = alarm_of s' h end.
Proof.
  intros Hn I Hf. destruct (process_loop_run now Hn fuel 0 s I Hf) as (F & s' & E & P). unfold timer_process_alarm. rewrite E. ostep.
  destruct (s_timers s') as [|h rest] eqn:El; [exists F, s'; by rewrite El|].
  destruct (listed_timer s' None h (pr_inv _ _ _ _ P)) as (t & Ht & _); [rewrite El; left|]. unfold deref. rewrite Ht. ostep.
  pose proof (alarm_of_lookup s' h t Ht) as Ea. exists F, (esp_timer_impl_set_alarm (alarm t) s'). split; [done|]. split.
  - apply processed_set_alarm; [done|]. rewrite El. lia.
  - change (s_timers (esp_timer_impl_set_alarm (alarm t) s')) with (s_timers s'). rewrite El. cbn. by rewrite <- Ea.
Qed.
End process.

(** C13. When an alarm is processed at [now], the clock stands still meanwhile, and
    no callback calls a timer function, the loop terminates within one turn per due
    time, and it fires exactly what is due: each armed timer that is not being deleted for its
    alarm, a periodic timer also for each later multiple before [now], each once
    and in the order of the due times.  A periodic timer is left armed for its
    next multiple, a one-shot timer disarmed, a deleted timer freed, the others
    unchanged; what is listed is later, and the hardware alarm is the first. *)
Theorem timer_process_exact now s fuel : now < 2 ^ 62 -> timer_inv None s -> (process_fuel now s <= fuel)%nat ->
  exists F s', timer_process_alarm fuel passive (fun _ => now) now s = Ok (F, s') /\
    (forall h d, (h, d) ∈ F <-> due s now h d) /\ NoDup F /\ StronglySorted (fun x y => x.2 <= y.2) F /\
    (forall h, timers s' !! h = timers s !! h ≫= after now) /\ timer_inv None s' /\
    (forall h, h ∈ s_timers s' -> now <= alarm_of s' h) /\
    match s_timers s' with [] => True | h :: _ => hw_alarm s' = alarm_of s' h end.
Proof.
  intros Hn I Hf. destruct (timer_process_run now s fuel Hn I Hf) as (F & s' & E & [P1 P2 P3 P4 P5 P6 P7] & H).
  by exists F, s'.
Qed.

(** A periodic timer that is three periods late, one that is deleted, a one-shot
    timer that is due and one that is not. *)
Definition late_timers : timer_state := mkTimers [32; 16; 48; 64]
  {[16 := mkTimer 110 30 7 0; 32 := mkTimer 100 0 EVENT_ID_DELETE_TIMER 0; 48 := mkTimer 150 0 8 0; 64 := mkTimer 500 0 9 0]} true 100.

Lemma late_timers_inv : timer_inv None late_timers.
Proof.
  split; [by apply (bool_decide_unpack _)| | | |vm_compute; congruence].
  - repeat constructor; vm_compute; congruence.
  - intros h. unfold alarm_of, late_timers. cbn [timers s_timers]. rewrite !elem_of_cons, elem_of_nil.
    destruct (decide (h = 16)) as [->|]; [cbn; naive_solver lia|]. destruct (decide (h = 32)) as [->|]; [cbn; naive_solver lia|].
    destruct (decide (h = 48)) as [->|]; [cbn; naive_solver lia|]. destruct (decide (h = 64)) as [->|]; [cbn; naive_solver lia|].
    rewrite !lookup_insert_ne by done. rewrite lookup_singleton_ne by done. naive_solver lia.
  - intros h t. revert h t. apply map_Forall_to_list, (bool_decide_unpack _). by vm_compute.
Qed.

Lemma timer_process_exact_witness : exists F s', timer_process_alarm 400 passive (fun _ => 200) 200 late_timers = Ok (F, s') /\
  F = [(16, 110); (16, 140); (48, 150); (16, 170)] /\ s_timers s' = [16; 64] /\ hw_alarm s' = 200 /\
  forall h d, (h, d) ∈ F <-> due late_timers 200 h d.
Proof.
  destruct (timer_process_exact 200 late_timers 400 ltac:(lia) late_timers_inv) as (F & s' & E & D & _);
    [apply Nat.leb_le; vm_compute; reflexivity|].
  exists F, s'. split; [exact E|]. vm_compute in E. injection E as <- <-. split; [reflexivity|]. split; [reflexivity|]. split; [reflexivity|exact D].
Defined.
