(* ===== verification/TimerHistory.v ===== *)
(** * High resolution timers: what the calls promise together

    The specification is a table of timers without a list: a call reads and writes
    the entry of its timer, and processing an alarm at a time fires what is due by
    then.  Every history of legal calls behaves as the specification says. *)
From Stdlib Require Import Sorted.
From S2P Require Import Prelude Timer TimerProofs.

(** ** Specification *)
Inductive timer_event :=
  | Init (semaphore task impl_ok : bool)
  | Deinit
  | Create (args_callback args_arg out_handle addr : Z)
  | StartOnce (timer timeout_us : Z)
  | StartPeriodic (timer period_us : Z)
  | Stop (timer : Z)
  | Delete (timer : Z)
  | NextAlarm
  | Alarm.

Record table := mkTable { tb_init : bool; tb_timers : gmap Z esp_timer }.

Section spec.
Context (min_period : Z).

(** A call at a time; an [Alarm] with as much fuel as there can be turns. *)
Definition call (now : Z) (e : timer_event) (s : timer_state) : outcome (Z * list (Z * Z) * timer_state) :=
  match e with
  | Init a b c => let '(r, s) := esp_timer_init a b c s in Ok (r, [], s)
  | Deinit => let '(r, s) := esp_timer_deinit s in Ok (r, [], s)
  | Create cb a out addr => '(r, _, s) ← esp_timer_create cb a out addr s; Ok (r, [], s)
  | StartOnce h d => '(r, s) ← esp_timer_start_once h d now s; Ok (r, [], s)
  | StartPeriodic h p => '(r, s) ← esp_timer_start_periodic min_period h p now s; Ok (r, [], s)
  | Stop h => '(r, s) ← esp_timer_stop h s; Ok (r, [], s)
  | Delete h => '(r, s) ← esp_timer_delete h now s; Ok (r, [], s)
  | NextAlarm => a ← esp_timer_get_next_alarm s; Ok (a, [], s)
  | Alarm => '(fired, s) ← timer_process_alarm (process_fuel now s) passive (fun _ => now) now s; Ok (ESP_OK, fired, s)
  end.

Definition armed_in (m : gmap Z esp_timer) (h : Z) : bool := match m !! h with Some t => timer_armed t | None => false end.
Definition nothing_armed (m : gmap Z esp_timer) : bool := bool_decide (map_Forall (fun _ t => timer_armed t = false) m).

(** The result code of a call that is not [NextAlarm]. *)
Definition spec_code (now : Z) (e : timer_event) (a : table) : Z :=
  match e with
  | Init x y z => if tb_init a then ESP_ERR_INVALID_STATE else if x && y && z then ESP_OK else ESP_ERR_NO_MEM
  | Deinit => if tb_init a && nothing_armed (tb_timers a) then ESP_OK else ESP_ERR_INVALID_STATE
  | Create cb _ out addr =>
      if negb (tb_init a) then ESP_ERR_INVALID_STATE else if (cb =? 0) || (out =? 0) then ESP_ERR_INVALID_ARG
      else if addr =? 0 then ESP_ERR_NO_MEM else ESP_OK
  | StartOnce h _ | StartPeriodic h _ =>
      if h =? 0 then ESP_ERR_INVALID_ARG else if negb (tb_init a) || armed_in (tb_timers a) h then ESP_ERR_INVALID_STATE else ESP_OK
  | Stop h =>
      if h =? 0 then ESP_ERR_INVALID_ARG else if negb (tb_init a) || negb (armed_in (tb_timers a) h) then ESP_ERR_INVALID_STATE else ESP_OK
  | Delete h => if h =? 0 then ESP_ERR_INVALID_ARG else if armed_in (tb_timers a) h then ESP_ERR_INVALID_STATE else ESP_OK
  | NextAlarm | Alarm => ESP_OK
  end.

(** The table after a call. *)
Definition spec_next (now : Z) (e : timer_event) (a : table) : table :=
  let m := tb_timers a in
  match e with
  | Init _ _ _ => if spec_code now e a =? ESP_OK then mkTable true m else a
  | Deinit => if spec_code now e a =? ESP_OK then mkTable false m else a
  | Create cb arg _ addr => if spec_code now e a =? ESP_OK then mkTable (tb_init a) (<[addr := mkTimer 0 0 cb arg]> m) else a
  | StartOnce h d =>
      if spec_code now e a =? ESP_OK then mkTable (tb_init a) (alter (fun t => t <| alarm := now + d |> <| period := 0 |>) h m) else a
  | StartPeriodic h p =>
      let p := Z.max p min_period in
      if spec_code now e a =? ESP_OK then mkTable (tb_init a) (alter (fun t => t <| alarm := now + p |> <| period := p |>) h m) else a
  | Stop h => if spec_code now e a =? ESP_OK then mkTable (tb_init a) (alter (fun t => t <| alarm := 0 |> <| period := 0 |>) h m) else a
  | Delete h =>
      if spec_code now e a =? ESP_OK
      then mkTable (tb_init a) (alter (fun t => t <| callback := EVENT_ID_DELETE_TIMER |> <| alarm := now |> <| period := 0 |>) h m) else a
  | NextAlarm => a
  | Alarm => mkTable (tb_init a) (omap (after now) m)
  end.

(** What a call answers: the result code; for [NextAlarm] the earliest alarm; the
    timers an [Alarm] fires, in the order of their due times. *)
Definition spec_result (now : Z) (e : timer_event) (a : table) (r : Z * list (Z * Z)) : Prop :=
  match e with
  | NextAlarm => r.2 = [] /\
      if nothing_armed (tb_timers a) then r.1 = INT64_MAX
      else map_Exists (fun _ t => 0 < alarm t /\ r.1 = alarm t) (tb_timers a) /\
           map_Forall (fun _ t => 0 < alarm t -> r.1 <= alarm t) (tb_timers a)
  | Alarm => r.1 = ESP_OK /\ NoDup r.2 /\ StronglySorted (fun x y => x.2 <= y.2) r.2 /\
      forall h d, (h, d) ∈ r.2 <-> exists t, tb_timers a !! h = Some t /\ 0 < alarm t /\ deleted t = false /\ d < now /\
        (d = alarm t \/ (0 < period t /\ exists k, 0 <= k /\ d = alarm t + k * period t))
  | _ => r = (spec_code now e a, [])
  end.

(** A call is legal on a null handle or a timer of the table, with a fresh block
    from the allocator, and with times below [2^62] microseconds. *)
Definition legal (now : Z) (e : timer_event) (a : table) : bool :=
  let known h := (h =? 0) || bool_decide (is_Some (tb_timers a !! h)) in
  (0 <? now) && (now <? 2 ^ 62) &&
  match e with
  | Create _ _ _ addr => (addr =? 0) || bool_decide (tb_timers a !! addr = None)
  | StartOnce h d | StartPeriodic h d => known h && (0 <=? d) && (d <? 2 ^ 62)
  | Stop h | Delete h => known h
  | _ => true
  end.

Fixpoint legal_history (es : list (Z * timer_event)) (a : table) : bool :=
  match es with
  | [] => true
  | (now, e) :: es => legal now e a && legal_history es (spec_next now e a)
  end.

Fixpoint run_history (es : list (Z * timer_event)) (s : timer_state) : outcome (list (Z * list (Z * Z)) * timer_state) :=
  match es with
  | [] => Ok ([], s)
  | (now, e) :: es => '(r, s) ← call now e s; '(rs, s) ← run_history es s; Ok (r :: rs, s)
  end.

Fixpoint spec_history (es : list (Z * timer_event)) (a : table) (rs : list (Z * list (Z * Z))) (a' : table) : Prop :=
  match es, rs with
  | [], [] => a' = a
  | (now, e) :: es, r :: rs => spec_result now e a r /\ spec_history es (spec_next now e a) rs a'
  | _, _ => False
  end.
End spec.

(** ** The calls follow the specification *)
Section refinement.
Context (min_period : Z) (Hmin : 0 <= min_period < 2 ^ 62).
Implicit Types (s : timer_state) (h now : Z).

Definition table_of s : table := mkTable (s_timer_task s) (timers s).

(** The call [e] runs and answers as the specification says. *)
Definition follows now (e : timer_event) s : Prop := exists r s',
  call min_period now e s = Ok (r, s') /\ timer_inv None s' /\ table_of s' = spec_next min_period now e (table_of s) /\
  spec_result now e (table_of s) r.

Lemma follows_code now e s s' : call min_period now e s = Ok (spec_code now e (table_of s), [], s') -> timer_inv None s' ->
  table_of s' = spec_next min_period now e (table_of s) -> match e with NextAlarm | Alarm => False | _ => True end -> follows now e s.
Proof. intros H1 H2 H3 H4. exists (spec_code now e (table_of s), []), s'. split; [done|]. split; [done|]. split; [done|]. by destruct e. Qed.

Lemma alter_as_insert {A} (m : gmap Z A) f h t : m !! h = Some t -> alter f h m = <[h := f t]> m.
Proof.
  intros H. apply map_eq. intros x. destruct (decide (x = h)) as [->|Hx]; [by rewrite lookup_alter_eq, lookup_insert_eq, H|].
  by rewrite lookup_alter_ne, lookup_insert_ne.
Qed.

Lemma armed_listed s h t : timer_inv None s -> timers s !! h = Some t ->
  if timer_armed t then (h ∈ s_timers s) else ((h ∉ s_timers s) /\ alarm t = 0).
Proof.
  intros I Ht. destruct (tv_bounds _ _ I h t Ht). pose proof (tv_armed _ _ I h) as A.
  rewrite (alarm_of_lookup s h t Ht) in A. unfold timer_armed. destruct (Z.ltb_spec 0 (alarm t)); [by apply A|].
  split; [intros [_ ?]%A; lia|lia].
Qed.

Lemma nothing_armed_nil s : timer_inv None s -> nothing_armed (timers s) = match s_timers s with [] => true | _ => false end.
Proof.
  intros I. unfold nothing_armed. destruct (s_timers s) as [|h l] eqn:El.
  - apply bool_decide_eq_true. intros h t Ht. pose proof (armed_listed s h t I Ht) as A. destruct (timer_armed t); [|done].
    rewrite El in A. by apply elem_of_nil in A.
  - apply bool_decide_eq_false. intros F. destruct (listed_timer s None h I) as (t & Ht & Ha); [rewrite El; left|].
    specialize (F h t Ht). unfold timer_armed in F. cbn in F. lia.
Qed.

(** Arming a timer that is not armed. *)
Lemma arm_run s h t t' : timer_inv None s -> timers s !! h = Some t -> timer_armed t = false -> 0 < alarm t' < 2 ^ 63 -> 0 <= period t' < 2 ^ 62 ->
  exists s', timer_insert h (set_timer h t' s) = Ok s' /\ timer_inv None s' /\ table_of s' = mkTable (s_timer_task s) (<[h := t']> (timers s)).
Proof.
  intros I Ht Hn Ha Hp. pose proof (armed_listed s h t I Ht) as A. rewrite Hn in A. destruct A as [Hl _].
  destruct (timer_insert_run (set_timer h t' s) h t') as (s' & _ & _ & E & I' & Et & Ek & _).
  - apply (set_timer_inv s None); [done|done|lia|lia|by left|]. destruct (Z.ltb_spec 0 (alarm t')); [done|lia].
  - apply lookup_insert_eq.
  - lia.
  - exists s'. split; [done|]. split; [done|]. unfold table_of. by rewrite Et, Ek.
Qed.

Lemma known_cases s h : (h =? 0) || bool_decide (is_Some (timers s !! h)) = true ->
  (h = 0 /\ (h =? 0) = true) \/ ((h =? 0) = false /\ exists t, timers s !! h = Some t /\ armed_in (timers s) h = timer_armed t).
Proof.
  destruct (Z.eqb_spec h 0); [by left|]. intros H%bool_decide_eq_true. destruct H as [t Ht]. right. split; [done|]. exists t.
  split; [done|]. unfold armed_in. by rewrite Ht.
Qed.

Ltac legal_parts L s := unfold legal in L; change (tb_timers (table_of s)) with (timers s) in L; rewrite ?andb_true_iff in L; destruct_and? L.

(** The refusals: the guards of the call and of the specification agree. *)
Ltac refused s := apply (follows_code _ _ _ s); [|done| |done]; cbn;
  unfold esp_timer_start_once, esp_timer_start_periodic, esp_timer_stop, esp_timer_delete, esp_timer_create, esp_timer_init, is_initialized, deref;
  repeat (match goal with H : _ = _ |- _ => rewrite H end; cbn); done.

Lemma start_once_follows now h d s : timer_inv None s -> legal now (StartOnce h d) (table_of s) = true -> follows now (StartOnce h d) s.
Proof.
  intros I L. legal_parts L s. destruct (known_cases s h ltac:(done)) as [[-> _]|[Hh (t & Ht & Ha)]]; [by apply (follows_code _ _ _ s)|].
  destruct (s_timer_task s) eqn:Hi; [|refused s]. destruct (timer_armed t) eqn:Ea; [refused s|].
  destruct (arm_run s h t (t <| alarm := now + d |> <| period := 0 |>) I Ht Ea) as (s' & E & I' & Es); [cbn; lia|cbn; lia|].
  apply (follows_code _ _ _ s'); [|done| |done].
  - unfold call, esp_timer_start_once, is_initialized, deref. rewrite Hh, Hi, Ht. cbn [negb]. ostep. rewrite Ea.
    unfold u64. rewrite Z.mod_small by lia. rewrite E. cbn. by rewrite Hh, Hi, Ha.
  - rewrite Es. cbn. rewrite Hh, Hi, Ha. cbn. by rewrite (alter_as_insert _ _ h t).
Qed.

Lemma start_periodic_follows now h p s : timer_inv None s -> legal now (StartPeriodic h p) (table_of s) = true -> follows now (StartPeriodic h p) s.
Proof.
  intros I L. legal_parts L s. destruct (known_cases s h ltac:(done)) as [[-> _]|[Hh (t & Ht & Ha)]]; [by apply (follows_code _ _ _ s)|].
  destruct (s_timer_task s) eqn:Hi; [|refused s]. destruct (timer_armed t) eqn:Ea; [refused s|].
  destruct (arm_run s h t (t <| alarm := now + Z.max p min_period |> <| period := Z.max p min_period |>) I Ht Ea) as (s' & E & I' & Es); [cbn; lia|cbn; lia|].
  apply (follows_code _ _ _ s'); [|done| |done].
  - unfold call, esp_timer_start_periodic, is_initialized, deref. rewrite Hh, Hi, Ht. cbn [negb]. ostep. rewrite Ea.
    unfold u64. rewrite Z.mod_small by lia. rewrite E. cbn. by rewrite Hh, Hi, Ha.
  - rewrite Es. cbn. rewrite Hh, Hi, Ha. cbn. by rewrite (alter_as_insert _ _ h t).
Qed.

Lemma delete_follows now h s : timer_inv None s -> legal now (Delete h) (table_of s) = true -> follows now (Delete h) s.
Proof.
  intros I L. legal_parts L s. destruct (known_cases s h ltac:(done)) as [[-> _]|[Hh (t & Ht & Ha)]]; [by apply (follows_code _ _ _ s)|].
  destruct (timer_armed t) eqn:Ea; [refused s|].
  destruct (arm_run s h t (t <| callback := EVENT_ID_DELETE_TIMER |> <| alarm := now |> <| period := 0 |>) I Ht Ea) as (s' & E & I' & Es); [cbn; lia|cbn; lia|].
  apply (follows_code _ _ _ s'); [|done| |done].
  - unfold call, esp_timer_delete, deref. rewrite Hh, Ht. ostep. rewrite Ea, E. cbn. by rewrite Hh, Ha.
  - rewrite Es. cbn. rewrite Hh, Ha. cbn. by rewrite (alter_as_insert _ _ h t).
Qed.

Lemma stop_follows now h s : timer_inv None s -> legal now (Stop h) (table_of s) = true -> follows now (Stop h) s.
Proof.
  intros I L. legal_parts L s. destruct (known_cases s h ltac:(done)) as [[-> _]|[Hh (t & Ht & Ha)]]; [by apply (follows_code _ _ _ s)|].
  destruct (s_timer_task s) eqn:Hi; [|refused s]. destruct (timer_armed t) eqn:Ea; [|refused s].
  pose proof (armed_listed s h t I Ht) as Hl. rewrite Ea in Hl.
  destruct (list_remove_spec h (s_timers s) Hl (tv_nodup _ _ I)) as (l1 & l2 & El & E).
  set (t' := t <| alarm := 0 |> <| period := 0 |>).
  pose proof (unlisted_inv s l1 h l2 (<[h := t']> (timers s)) I El) as I'. rewrite lookup_insert_eq in I'.
  apply (follows_code _ _ _ (set_timer h t' (s <| s_timers := l1 ++ l2 |>))); [| | |done].
  - unfold call, esp_timer_stop, timer_remove, is_initialized, deref. rewrite Hh, Hi, Ht. cbn [negb]. ostep. rewrite Ea. cbn [negb].
    rewrite E. cbn. by rewrite Hh, Hi, Ha.
  - apply I'; [intros x Hx; by apply lookup_insert_ne|]. intros u [= <-]. cbn. lia.
  - cbn. rewrite Hh, Hi, Ha. cbn. by rewrite (alter_as_insert _ _ h t).
Qed.

Lemma create_follows now cb a out addr s : timer_inv None s -> legal now (Create cb a out addr) (table_of s) = true ->
  follows now (Create cb a out addr) s.
Proof.
  intros I L. legal_parts L s. destruct (s_timer_task s) eqn:Hi; [|refused s].
  destruct ((cb =? 0) || (out =? 0)) eqn:Hc; [refused s|].
  destruct (addr =? 0) eqn:Hd; [refused s|].
  assert (Hf : timers s !! addr = None) by (by apply (bool_decide_eq_true_1 _)).
  apply (follows_code _ _ _ (set_timer addr (mkTimer 0 0 cb a) s)); [| | |done].
  - cbn. unfold esp_timer_create, is_initialized. by rewrite Hi, Hc, Hd.
  - apply (set_timer_inv s None); [done| |cbn; lia|cbn; lia|by left|done].
    intros Hl. destruct (listed_timer s None addr I Hl) as (t & Ht & _). congruence.
  - unfold table_of. cbn. by rewrite Hi, Hc, Hd.
Qed.

Lemma task_inv s b : timer_inv None s -> timer_inv None (s <| s_timer_task := b |>).
Proof. intros [I1 I2 I3 I4 I5]. by split. Qed.

Lemma init_follows now a b c s : timer_inv None s -> follows now (Init a b c) s.
Proof.
  intros I. destruct (s_timer_task s) eqn:Hi; [refused s|].
  destruct (a && b && c) eqn:E; [apply (follows_code _ _ _ (s <| s_timer_task := true |>))|apply (follows_code _ _ _ (s <| s_timer_task := false |>))];
    try done; try by apply task_inv.
  all: unfold table_of; cbn; unfold esp_timer_init, is_initialized; by rewrite Hi, E.
Qed.

Lemma deinit_follows now s : timer_inv None s -> follows now Deinit s.
Proof.
  intros I. pose proof (nothing_armed_nil s I) as Hn.
  assert (H : forall s', call min_period now Deinit s = Ok (spec_code now Deinit (table_of s), [], s') -> timer_inv None s' ->
    table_of s' = spec_next min_period now Deinit (table_of s) -> follows now Deinit s) by (intros; by eapply follows_code).
  unfold call, esp_timer_deinit, is_initialized, spec_code, spec_next, table_of, spec_code in H. cbn [tb_init tb_timers] in H. rewrite Hn in H.
  destruct (s_timer_task s) eqn:Hi; cbn in H; [|apply (H s); [done|done|by rewrite Hi]].
  destruct (s_timers s) eqn:El; cbn in H; [|apply (H s); [done|done|by rewrite Hi]].
  apply (H (s <| s_timer_task := false |>)); [cbn; by rewrite El| |done]. by apply task_inv.
Qed.

Lemma next_alarm_follows now s : timer_inv None s -> follows now NextAlarm s.
Proof.
  intros I. unfold follows. cbn [call spec_next spec_result]. unfold esp_timer_get_next_alarm. cbn [tb_timers table_of].
  rewrite (nothing_armed_nil s I). destruct (s_timers s) as [|it rest] eqn:El; [by exists (INT64_MAX, []), s|].
  destruct (listed_timer s None it I) as (t & Ht & Ha); [rewrite El; left|]. pose proof (alarm_of_lookup s it t Ht) as Ea.
  exists (alarm t, []), s. unfold deref. rewrite Ht. split; [done|]. split; [done|]. split; [done|]. split; [done|]. split.
  - exists it, t. by split.
  - intros h u Hu Hu0. pose proof (alarm_of_lookup s h u Hu) as Eu. cbn. rewrite <- Ea, <- Eu. apply (first_earliest s it rest I El).
    apply (tv_armed _ _ I). split; [done|lia].
Qed.

Lemma alarm_follows now s : timer_inv None s -> legal now Alarm (table_of s) = true -> follows now Alarm s.
Proof.
  intros I L. unfold legal in L. destruct (timer_process_run now s (process_fuel now s)) as (F & s' & E & P & _); [lia|done|done|].
  exists (ESP_OK, F), s'. split; [unfold call; by rewrite E|]. split; [apply (pr_inv _ _ _ _ P)|]. split.
  - unfold table_of. cbn. rewrite (pr_task _ _ _ _ P). f_equal. apply map_eq. intros h. rewrite lookup_omap. apply (pr_timers _ _ _ _ P).
  - split; [done|]. split; [apply (pr_nodup _ _ _ _ P)|]. split; [apply (pr_sorted _ _ _ _ P)|]. apply (pr_fired _ _ _ _ P).
Qed.

Lemma timer_call_follows now e s : timer_inv None s -> legal now e (table_of s) = true -> follows now e s.
Proof.
  intros I L. destruct e; auto using init_follows, deinit_follows, create_follows, start_once_follows, start_periodic_follows,
    stop_follows, delete_follows, next_alarm_follows, alarm_follows.
Qed.

Lemma timer_history_follows es : forall s, timer_inv None s -> legal_history min_period es (table_of s) = true ->
  exists rs s', run_history min_period es s = Ok (rs, s') /\ timer_inv None s' /\ spec_history min_period es (table_of s) rs (table_of s').
Proof.
  induction es as [|[now e] es IH]; intros s I L; [by exists [], s|]. cbn [legal_history] in L. apply andb_true_iff in L as [L1 L2].
  destruct (timer_call_follows now e s I L1) as (r & s1 & E & I1 & T & R). rewrite <- T in L2.
  destruct (IH s1 I1 L2) as (rs & s' & E2 & I2 & S2). exists (r :: rs), s'. cbn [run_history]. rewrite E. ostep. rewrite E2. ostep.
  split; [done|]. split; [done|]. split; [done|]. by rewrite <- T.
Qed.
End refinement.

Lemma empty_inv s : s_timers s = [] -> timers s = ∅ -> timer_inv None s.
Proof.
  intros E1 E2. split; rewrite ?E1, ?E2; [constructor|constructor| |done|done].
  intros h. unfold alarm_of. rewrite E2, lookup_empty. split; [by intros ?%elem_of_nil|lia].
Qed.

(** C12. Every history of legal calls, from the state without timers, runs as the
    table of timers says: the calls return the specified codes, an alarm (at which the
    clock stands still and the callbacks call no timer function) fires
    exactly what is due by then, the next alarm is the earliest.  No timer is
    read after it is freed or removed from a list it is not in; at the end the
    list holds exactly the armed timers, once each and in the order of their
    alarms, and the hardware alarm is not later than any of them. *)
Theorem timer_history_refines min_period es s : 0 <= min_period < 2 ^ 62 -> s_timers s = [] -> timers s = ∅ ->
  legal_history min_period es (table_of s) = true ->
  exists rs s', run_history min_period es s = Ok (rs, s') /\ spec_history min_period es (table_of s) rs (table_of s') /\
    (forall h, h ∈ s_timers s' <-> armed_in (timers s') h = true) /\ NoDup (s_timers s') /\
    StronglySorted (fun a b => alarm_of s' a <= alarm_of s' b) (s_timers s') /\
    (forall h t, timers s' !! h = Some t -> timer_armed t = true -> hw_alarm s' <= alarm t).
Proof.
  intros Hm E1 E2 L. destruct (timer_history_follows min_period Hm es s (empty_inv s E1 E2) L) as (rs & s' & E & I & S).
  assert (A : forall h, h ∈ s_timers s' <-> armed_in (timers s') h = true).
  { intros h. pose proof (tv_armed _ _ I h) as A. rewrite A. unfold armed_in, alarm_of, timer_armed. destruct (timers s' !! h) as [t|].
    - destruct (Z.ltb_spec 0 (alarm t)); split; [done|done|naive_solver lia|done].
    - split; [intros [_ ?]; lia|done]. }
  exists rs, s'. split; [done|]. split; [done|]. split; [exact A|]. split; [apply (tv_nodup _ _ I)|]. split; [apply (tv_sorted _ _ I)|].
  intros h t Ht Ha. pose proof (alarm_of_lookup s' h t Ht) as Et. assert (Hl : h ∈ s_timers s') by (apply A; unfold armed_in; by rewrite Ht).
  pose proof (tv_hw _ _ I) as W. destruct (s_timers s') as [|x l] eqn:El; [by apply elem_of_nil in Hl|]. rewrite <- Et.
  etransitivity; [exact W|]. apply (first_earliest s' x l I El). by rewrite El.
Qed.

Definition no_timers : timer_state := mkTimers [] ∅ false 0.

Definition some_history : list (Z * timer_event) :=
  [(1, StartOnce 0 5); (1, Init true true true); (5, Create 7 0 1 16); (6, Create 8 1 1 32); (7, Create 9 2 1 48);
   (100, StartPeriodic 16 20); (101, StartOnce 32 75); (102, StartOnce 32 10); (103, StartOnce 48 15); (104, NextAlarm);
   (110, Stop 48); (111, Delete 48); (180, Alarm); (181, NextAlarm); (182, Deinit); (183, Stop 16); (184, Deinit)].

Lemma timer_history_refines_witness : exists rs s', run_history 50 some_history no_timers = Ok (rs, s') /\
  spec_history 50 some_history (table_of no_timers) rs (table_of s') /\ rs !! 12%nat = Some (ESP_OK, [(16, 150); (32, 176)]) /\
  rs !! 13%nat = Some (200, []).
Proof.
  destruct (timer_history_refines 50 some_history no_timers) as (rs & s' & E & S & _); [lia|reflexivity|reflexivity|vm_compute; reflexivity|].
  exists rs, s'. split; [exact E|]. split; [exact S|]. vm_compute in E. injection E as <- <-. by split.
Defined.
