(* ===== verification/EventLoop.v ===== *)
(** * Event loops ([components/esp_event/esp_event.c], [default_event_loop.c])

    A loop keeps the registered handlers in three nested lists (loop nodes, base
    nodes, id nodes) and a queue of posted events, whose data are copies on the
    heap.  Running the loop takes the events from the queue and executes the
    handlers that match.

    The lists are values: their nodes have one owner.  The copies of event data
    have addresses.  The queue and the semaphores are FreeRTOS: a queue is a
    bounded FIFO list, [blocked ticks] what other tasks do to the loop while a
    call waits [ticks], and what [calloc] and the creation calls answer are
    arguments.  The calls run under the mutex of the loop, one at a time.  The
    configuration is the default one, [CONFIG_ESP_EVENT_POST_FROM_ISR] without
    profiling. *)
From S2P Require Import Prelude.

Definition ESP_OK := 0.
Definition ESP_FAIL := -1.
Definition ESP_ERR_NO_MEM := 0x101.
Definition ESP_ERR_INVALID_ARG := 0x102.
Definition ESP_ERR_INVALID_STATE := 0x103.
Definition ESP_ERR_NOT_FOUND := 0x105.
Definition ESP_ERR_TIMEOUT := 0x107.
Definition ESP_EVENT_ANY_BASE := 0.
Definition ESP_EVENT_ANY_ID := -1.
Definition portMAX_DELAY := 2 ^ 32 - 1.

(** ** Data *)
Record esp_event_handler_instance := mkHandler { handler : Z; harg : Z }.
Record esp_event_id_node := mkIdNode { node_id : Z; id_handlers : list esp_event_handler_instance }.
Record esp_event_base_node := mkBaseNode {
  node_base : Z;
  base_handlers : list esp_event_handler_instance;
  id_nodes : list esp_event_id_node
}.
Record esp_event_loop_node := mkLoopNode {
  loop_handlers : list esp_event_handler_instance;
  base_nodes : list esp_event_base_node
}.
#[export] Instance rebuild_handler : Rebuild esp_event_handler_instance := fun h => mkHandler (handler h) (harg h).
#[export] Instance rebuild_id_node : Rebuild esp_event_id_node := fun n => mkIdNode (node_id n) (id_handlers n).
#[export] Instance rebuild_base_node : Rebuild esp_event_base_node := fun n => mkBaseNode (node_base n) (base_handlers n) (id_nodes n).
#[export] Instance rebuild_loop_node : Rebuild esp_event_loop_node := fun n => mkLoopNode (loop_handlers n) (base_nodes n).

(** The union of a 32-bit value, here its bytes, and a pointer. *)
Inductive esp_event_post_data := val (bytes : list Z) | ptr (p : Z).

Record esp_event_post_instance := mkPost {
  data_allocated : bool;
  data_set : bool;
  post_base : Z;
  post_id : Z;
  post_data : esp_event_post_data
}.

(** [data_copies]: the copies of event data on the heap.  [task], [running_task]:
    [0] for [NULL]. *)
Record esp_event_loop_instance := mkLoop {
  queue : list esp_event_post_instance;
  queue_size : Z;
  task : Z;
  running_task : Z;
  loop_nodes : list esp_event_loop_node;
  data_copies : gmap Z (list Z)
}.
#[export] Instance rebuild_loop : Rebuild esp_event_loop_instance := fun l =>
  mkLoop (queue l) (queue_size l) (task l) (running_task l) (loop_nodes l) (data_copies l).

Definition is_nil {A} (l : list A) : bool := match l with [] => true | _ => false end.

(** The last element that satisfies [p], as the searches that do not stop find it. *)
Fixpoint last_match {A} (p : A -> bool) (l : list A) : option nat :=
  match l with
  | [] => None
  | x :: l => match last_match p l with Some i => Some (S i) | None => if p x then Some O else None end
  end.

(** ** Registration

    [mem]: how many calls of [calloc] succeed before one fails. *)
Section registry.
Context (esp_event_any_base : Z).
Implicit Types (mem : nat) (id base h arg : Z).

Fixpoint add_or_overwrite h arg (handlers : list esp_event_handler_instance) : list esp_event_handler_instance :=
  match handlers with
  | [] => [mkHandler h arg]
  | it :: l => if h =? handler it then (it <| harg := arg |>) :: l else it :: add_or_overwrite h arg l
  end.

Definition handler_instances_add mem (handlers : list esp_event_handler_instance) h arg : Z * list esp_event_handler_instance :=
  match mem with
  | O => (ESP_ERR_NO_MEM, handlers)
  | S _ => (ESP_OK, add_or_overwrite h arg handlers)
  end.

Definition base_node_add_handler mem (base_node : esp_event_base_node) id h arg : Z * esp_event_base_node :=
  if id =? ESP_EVENT_ANY_ID then
    let '(err, hs) := handler_instances_add mem (base_handlers base_node) h arg in
    (err, base_node <| base_handlers := hs |>)
  else
    match last_match (fun it => node_id it =? id) (id_nodes base_node) with
    | None =>
        match mem with
        | O => (ESP_ERR_NO_MEM, base_node)
        | S mem =>
            let '(err, hs) := handler_instances_add mem [] h arg in
            if err =? ESP_OK then (err, base_node <| id_nodes := id_nodes base_node ++ [mkIdNode id hs] |>)
            else (err, base_node)
        end
    | Some i =>
        match id_nodes base_node !! i with
        | None => (ESP_OK, base_node)
        | Some id_node =>
            let '(err, hs) := handler_instances_add mem (id_handlers id_node) h arg in
            (err, base_node <| id_nodes := <[i := id_node <| id_handlers := hs |>]> (id_nodes base_node) |>)
        end
    end.

(** Whether a new base node is needed; the second part is the node to use. *)
Definition needs_base_node (l : list esp_event_base_node) base id : option (nat * esp_event_base_node) :=
  match last l, last_match (fun it => node_base it =? base) l with
  | Some last_base_node, Some i =>
      match l !! i with
      | None => None
      | Some base_node =>
          if (negb (is_nil (id_nodes base_node)) && (id =? ESP_EVENT_ANY_ID))
             || (negb (node_base last_base_node =? base) && negb (is_nil (id_nodes last_base_node)) && (id =? ESP_EVENT_ANY_ID))
          then None else Some (i, base_node)
      end
  | _, _ => None
  end.

Definition loop_node_add_handler mem (loop_node : esp_event_loop_node) base id h arg : Z * esp_event_loop_node :=
  if (base =? esp_event_any_base) && (id =? ESP_EVENT_ANY_ID) then
    let '(err, hs) := handler_instances_add mem (loop_handlers loop_node) h arg in
    (err, loop_node <| loop_handlers := hs |>)
  else
    match needs_base_node (base_nodes loop_node) base id with
    | None =>
        match mem with
        | O => (ESP_ERR_NO_MEM, loop_node)
        | S mem =>
            let '(err, base_node) := base_node_add_handler mem (mkBaseNode base [] []) id h arg in
            if err =? ESP_OK then (err, loop_node <| base_nodes := base_nodes loop_node ++ [base_node] |>)
            else (err, loop_node)
        end
    | Some (i, base_node) =>
        let '(err, base_node) := base_node_add_handler mem base_node id h arg in
        (err, loop_node <| base_nodes := <[i := base_node]> (base_nodes loop_node) |>)
    end.

(** The part of the registration under the mutex. *)
Definition loop_nodes_add_handler mem (nodes : list esp_event_loop_node) base id h arg : Z * list esp_event_loop_node :=
  let is_loop_level_handler := (base =? esp_event_any_base) && (id =? ESP_EVENT_ANY_ID) in
  let new_node :=
    match mem with
    | O => (ESP_ERR_NO_MEM, nodes)
    | S mem =>
        let '(err, loop_node) := loop_node_add_handler mem (mkLoopNode [] []) base id h arg in
        if err =? ESP_OK then (err, nodes ++ [loop_node]) else (err, nodes)
    end in
  match last nodes with
  | None => new_node
  | Some last_loop_node =>
      if negb (is_nil (base_nodes last_loop_node)) && is_loop_level_handler then new_node
      else
        let '(err, loop_node) := loop_node_add_handler mem last_loop_node base id h arg in
        (err, <[(length nodes - 1)%nat := loop_node]> nodes)
  end.

Definition esp_event_handler_register_with mem base id h arg (loop : esp_event_loop_instance) : outcome (Z * esp_event_loop_instance) :=
  _ ← cassert (negb (h =? 0));
  if (base =? ESP_EVENT_ANY_BASE) && negb (id =? ESP_EVENT_ANY_ID) then Ok (ESP_ERR_INVALID_ARG, loop)
  else
    let base := if base =? ESP_EVENT_ANY_BASE then esp_event_any_base else base in
    let '(err, nodes) := loop_nodes_add_handler mem (loop_nodes loop) base id h arg in
    Ok (err, loop <| loop_nodes := nodes |>).
End registry.

(** ** Unregistration

    The first instance with the handler is removed from a list. *)
Section unregistry.
Context (esp_event_any_base : Z).
Implicit Types (id base h : Z).

Fixpoint handler_instances_remove (handlers : list esp_event_handler_instance) h : Z * list esp_event_handler_instance :=
  match handlers with
  | [] => (ESP_ERR_NOT_FOUND, [])
  | it :: l =>
      if handler it =? h then (ESP_OK, l)
      else let '(res, l) := handler_instances_remove l h in (res, it :: l)
  end.

(** The loop over the id nodes: it ends when a node becomes empty. *)
Fixpoint id_nodes_remove (l : list esp_event_id_node) id h : Z * list esp_event_id_node :=
  match l with
  | [] => (ESP_ERR_NOT_FOUND, [])
  | it :: l =>
      if node_id it =? id then
        let '(res, hs) := handler_instances_remove (id_handlers it) h in
        if (res =? ESP_OK) && is_nil hs then (ESP_OK, l)
        else let '(res, l) := id_nodes_remove l id h in (res, (it <| id_handlers := hs |>) :: l)
      else let '(res, l) := id_nodes_remove l id h in (res, it :: l)
  end.

Definition base_node_remove_handler (base_node : esp_event_base_node) id h : Z * esp_event_base_node :=
  if id =? ESP_EVENT_ANY_ID then
    let '(res, hs) := handler_instances_remove (base_handlers base_node) h in
    (res, base_node <| base_handlers := hs |>)
  else
    let '(res, l) := id_nodes_remove (id_nodes base_node) id h in
    (res, base_node <| id_nodes := l |>).

Fixpoint base_nodes_remove (l : list esp_event_base_node) base id h : Z * list esp_event_base_node :=
  match l with
  | [] => (ESP_ERR_NOT_FOUND, [])
  | it :: l =>
      if node_base it =? base then
        let '(res, it) := base_node_remove_handler it id h in
        if (res =? ESP_OK) && is_nil (base_handlers it) && is_nil (id_nodes it) then (ESP_OK, l)
        else let '(res, l) := base_nodes_remove l base id h in (res, it :: l)
      else let '(res, l) := base_nodes_remove l base id h in (res, it :: l)
  end.

Definition loop_node_remove_handler (loop_node : esp_event_loop_node) base id h : Z * esp_event_loop_node :=
  if (base =? esp_event_any_base) && (id =? ESP_EVENT_ANY_ID) then
    let '(res, hs) := handler_instances_remove (loop_handlers loop_node) h in
    (res, loop_node <| loop_handlers := hs |>)
  else
    let '(res, l) := base_nodes_remove (base_nodes loop_node) base id h in
    (res, loop_node <| base_nodes := l |>).

Fixpoint loop_nodes_remove (l : list esp_event_loop_node) base id h : list esp_event_loop_node :=
  match l with
  | [] => []
  | it :: l =>
      let '(res, it) := loop_node_remove_handler it base id h in
      if (res =? ESP_OK) && is_nil (base_nodes it) && is_nil (loop_handlers it) then l
      else it :: loop_nodes_remove l base id h
  end.

Definition esp_event_handler_unregister_with base id h (loop : esp_event_loop_instance) : outcome (Z * esp_event_loop_instance) :=
  _ ← cassert (negb (h =? 0));
  if (base =? ESP_EVENT_ANY_BASE) && negb (id =? ESP_EVENT_ANY_ID) then Ok (ESP_FAIL, loop)
  else
    let base := if base =? ESP_EVENT_ANY_BASE then esp_event_any_base else base in
    Ok (ESP_OK, loop <| loop_nodes := loop_nodes_remove (loop_nodes loop) base id h |>).
End unregistry.

(** [esp_event_is_handler_registered] *)
Definition esp_event_is_handler_registered base id h (loop : esp_event_loop_instance) : bool :=
  existsb (fun loop_node =>
    existsb (fun it => (base =? ESP_EVENT_ANY_BASE) && (id =? ESP_EVENT_ANY_ID) && (handler it =? h)) (loop_handlers loop_node)
    || existsb (fun base_node =>
         (node_base base_node =? base) &&
         (existsb (fun it => (id =? ESP_EVENT_ANY_ID) && (handler it =? h)) (base_handlers base_node)
          || existsb (fun id_node => (node_id id_node =? id) && existsb (fun it => handler it =? h) (id_handlers id_node)) (id_nodes base_node)))
       (base_nodes loop_node)) (loop_nodes loop).

(** ** Posting

    [event_data]: the bytes, [None] for [NULL]. *)
Section post.
Context (calloc : gmap Z (list Z) -> option Z).
Context (blocked : Z -> esp_event_loop_instance -> esp_event_loop_instance).
Implicit Types (loop : esp_event_loop_instance) (base id : Z) (event_data : option (list Z)) (event_data_size : Z).

Definition post_instance_delete (post : esp_event_post_instance) loop : outcome esp_event_loop_instance :=
  match data_allocated post, post_data post with
  | true, ptr p =>
      if p =? 0 then Ok loop
      else match data_copies loop !! p with
           | Some _ => Ok (loop <| data_copies := delete p (data_copies loop) |>)
           | None => Fault
           end
  | _, _ => Ok loop
  end.

(** [memcpy] from the data of the caller. *)
Definition copy_in (bytes : list Z) event_data_size : outcome (list Z) :=
  if event_data_size <=? lenZ bytes then Ok (take (Z.to_nat event_data_size) bytes) else Fault.

(** [xQueueSendToBack]: [true] when the item is in the queue. *)
Definition xQueueSendToBack (post : esp_event_post_instance) (ticks_to_wait : Z) loop : bool * esp_event_loop_instance :=
  let loop := if lenZ (queue loop) <? queue_size loop then loop else blocked ticks_to_wait loop in
  if lenZ (queue loop) <? queue_size loop then (true, loop <| queue := queue loop ++ [post] |>) else (false, loop).

(** The end of [esp_event_post_to]: [current] is the calling task, [mutex]
    whether the mutex was free in time. *)
Definition post_to_queue (current : Z) (mutex : bool) (post : esp_event_post_instance) (ticks_to_wait : Z) loop
    : outcome (Z * esp_event_loop_instance) :=
  let '(result, loop) :=
    if task loop =? 0 then
      if mutex then
        if negb (running_task loop =? current) then xQueueSendToBack post ticks_to_wait loop
        else xQueueSendToBack post 0 loop
      else (false, loop)
    else if negb (task loop =? current) then xQueueSendToBack post ticks_to_wait loop
    else xQueueSendToBack post 0 loop in
  if result then Ok (ESP_OK, loop)
  else loop ← post_instance_delete post loop; Ok (ESP_ERR_TIMEOUT, loop).

Definition esp_event_post_to (current : Z) (mutex : bool) base id event_data event_data_size (ticks_to_wait : Z) loop
    : outcome (Z * esp_event_loop_instance) :=
  if (base =? ESP_EVENT_ANY_BASE) || (id =? ESP_EVENT_ANY_ID) then Ok (ESP_ERR_INVALID_ARG, loop)
  else
    match event_data with
    | Some bytes =>
        if event_data_size =? 0 then post_to_queue current mutex (mkPost false false base id (ptr 0)) ticks_to_wait loop
        else
          match calloc (data_copies loop) with
          | None => Ok (ESP_ERR_NO_MEM, loop)
          | Some p =>
              copy ← copy_in bytes event_data_size;
              post_to_queue current mutex (mkPost true true base id (ptr p)) ticks_to_wait
                (loop <| data_copies := <[p := copy]> (data_copies loop) |>)
          end
    | None => post_to_queue current mutex (mkPost false false base id (ptr 0)) ticks_to_wait loop
    end.

Definition esp_event_isr_post_to base id event_data event_data_size loop : outcome (Z * esp_event_loop_instance) :=
  if (base =? ESP_EVENT_ANY_BASE) || (id =? ESP_EVENT_ANY_ID) then Ok (ESP_ERR_INVALID_ARG, loop)
  else if 4 <? event_data_size then Ok (ESP_ERR_INVALID_ARG, loop)
  else
    post ← match event_data with
           | Some bytes =>
               if event_data_size =? 0 then Ok (mkPost false false base id (ptr 0))
               else copy ← copy_in bytes event_data_size;
                    Ok (mkPost false true base id (val (copy ++ replicate (4 - length copy) 0)))
           | None => Ok (mkPost false false base id (ptr 0))
           end;
    if lenZ (queue loop) <? queue_size loop then Ok (ESP_OK, loop <| queue := queue loop ++ [post] |>)
    else loop ← post_instance_delete post loop; Ok (ESP_FAIL, loop).

(** ** Running the loop

    [executed]: a call of a handler, with the bytes it finds at its data pointer.
    [react]: the events a handler posts. *)
Record executed := mkExecuted { x_handler : Z; x_arg : Z; x_base : Z; x_id : Z; x_data : option (list Z) }.
Record request := mkRequest { q_base : Z; q_id : Z; q_data : option (list Z); q_size : Z; q_ticks : Z }.

Context (react : executed -> list request).

Fixpoint handler_posts (current : Z) (requests : list request) loop : outcome esp_event_loop_instance :=
  match requests with
  | [] => Ok loop
  | q :: requests =>
      '(_, loop) ← esp_event_post_to current true (q_base q) (q_id q) (q_data q) (q_size q) (q_ticks q) loop;
      handler_posts current requests loop
  end.

Definition handler_execute (current : Z) (h : esp_event_handler_instance) (post : esp_event_post_instance) loop
    : outcome (executed * esp_event_loop_instance) :=
  data ← (if data_set post then
            match data_allocated post, post_data post with
            | true, ptr p => match data_copies loop !! p with Some bytes => Ok (Some bytes) | None => Fault end
            | false, val bytes => Ok (Some bytes)
            | _, _ => Fault
            end
          else Ok None);
  let x := mkExecuted (handler h) (harg h) (post_base post) (post_id post) data in
  loop ← handler_posts current (react x) loop;
  Ok (x, loop).

(** The handlers that the nested loops reach, in their order. *)
Fixpoint id_nodes_matching id (l : list esp_event_id_node) : list esp_event_handler_instance :=
  match l with
  | [] => []
  | id_node :: l => if node_id id_node =? id then id_handlers id_node else id_nodes_matching id l
  end.
Definition base_node_matching base id (base_node : esp_event_base_node) : list esp_event_handler_instance :=
  if node_base base_node =? base then base_handlers base_node ++ id_nodes_matching id (id_nodes base_node) else [].
Definition loop_node_matching base id (loop_node : esp_event_loop_node) : list esp_event_handler_instance :=
  loop_handlers loop_node ++ concat (map (base_node_matching base id) (base_nodes loop_node)).
Definition matching_handlers base id (l : list esp_event_loop_node) : list esp_event_handler_instance :=
  concat (map (loop_node_matching base id) l).

Fixpoint execute_all (current : Z) (handlers : list esp_event_handler_instance) (post : esp_event_post_instance) loop
    : outcome (list executed * esp_event_loop_instance) :=
  match handlers with
  | [] => Ok ([], loop)
  | h :: handlers =>
      '(x, loop) ← handler_execute current h post loop;
      '(xs, loop) ← execute_all current handlers post loop;
      Ok (x :: xs, loop)
  end.

(** [tick k]: the tick count after the event number [k]; [marker] and
    [remaining_ticks] as in the code. *)
Fixpoint run_loop (fuel : nat) (tick : nat -> Z) (k : nat) (current ticks_to_run marker remaining_ticks : Z) loop
    : outcome (list executed * esp_event_loop_instance) :=
  let loop := if is_nil (queue loop) then blocked ticks_to_run loop else loop in
  match queue loop with
  | [] => Ok ([], loop)
  | post :: q =>
      match fuel with
      | O => OutOfFuel
      | S fuel =>
          let loop := loop <| queue := q |> <| running_task := current |> in
          '(xs, loop) ← execute_all current (matching_handlers (post_base post) (post_id post) (loop_nodes loop)) post loop;
          loop ← post_instance_delete post loop;
          let stop := negb (ticks_to_run =? portMAX_DELAY) in
          let remaining_ticks := if stop then remaining_ticks - u32 (tick k - marker) else remaining_ticks in
          if stop && (remaining_ticks <=? 0) then Ok (xs, loop)
          else
            let marker := if stop then tick k else marker in
            '(ys, loop) ← run_loop fuel tick (S k) current ticks_to_run marker remaining_ticks (loop <| running_task := 0 |>);
            Ok (xs ++ ys, loop)
      end
  end.

Definition esp_event_loop_run (fuel : nat) (tick : nat -> Z) (current ticks_to_run : Z) loop
    : outcome (Z * list executed * esp_event_loop_instance) :=
  '(xs, loop) ← run_loop fuel tick 1 current ticks_to_run (tick 0%nat) ticks_to_run loop;
  Ok (ESP_OK, xs, loop).
End post.

(** ** Creating and deleting a loop *)
Record esp_event_loop_args := mkArgs { args_queue_size : Z; task_name : bool }.

(** [memory], [queue_ok], [mutex_ok]: whether the creation calls succeed; [new_task]:
    the task created, [0] when it fails.  [args], [out]: whether the pointers are
    not null. *)
Definition esp_event_loop_create (args : option esp_event_loop_args) (out memory queue_ok mutex_ok : bool) (new_task : Z)
    : Z * option esp_event_loop_instance :=
  match args with
  | None => (ESP_ERR_INVALID_ARG, None)
  | Some args =>
      if negb out then (ESP_ERR_INVALID_ARG, None)
      else if negb memory then (ESP_ERR_NO_MEM, None)
      else if negb queue_ok then (ESP_ERR_NO_MEM, None)
      else if negb mutex_ok then (ESP_ERR_NO_MEM, None)
      else
        let loop t := mkLoop [] (args_queue_size args) t 0 [] ∅ in
        if task_name args then if new_task =? 0 then (ESP_FAIL, None) else (ESP_OK, Some (loop new_task))
        else (ESP_OK, Some (loop 0))
  end.

(** The posts are dropped with their data, then the loop is gone; the result is
    the heap that is left. *)
Fixpoint drop_posts (q : list esp_event_post_instance) (loop : esp_event_loop_instance) : outcome esp_event_loop_instance :=
  match q with
  | [] => Ok (loop <| queue := [] |>)
  | post :: q => loop ← post_instance_delete post loop; drop_posts q loop
  end.
Definition esp_event_loop_delete (loop : esp_event_loop_instance) : outcome (Z * gmap Z (list Z)) :=
  loop ← drop_posts (queue loop) loop; Ok (ESP_OK, data_copies loop).

(** ** The default loop

    [s_default_loop]: [None] for [NULL]. *)
Section default_loop.
Context (esp_event_any_base : Z).
Context (calloc : gmap Z (list Z) -> option Z).
Context (blocked : Z -> esp_event_loop_instance -> esp_event_loop_instance).
Implicit Types (s_default_loop : option esp_event_loop_instance).

Definition esp_event_handler_register (mem : nat) base id h arg s_default_loop : outcome (Z * option esp_event_loop_instance) :=
  match s_default_loop with
  | None => Ok (ESP_ERR_INVALID_STATE, None)
  | Some loop => '(r, loop) ← esp_event_handler_register_with esp_event_any_base mem base id h arg loop; Ok (r, Some loop)
  end.

Definition esp_event_handler_unregister base id h s_default_loop : outcome (Z * option esp_event_loop_instance) :=
  match s_default_loop with
  | None => Ok (ESP_ERR_INVALID_STATE, None)
  | Some loop => '(r, loop) ← esp_event_handler_unregister_with esp_event_any_base base id h loop; Ok (r, Some loop)
  end.

Definition esp_event_post current mutex base id event_data event_data_size ticks_to_wait s_default_loop
    : outcome (Z * option esp_event_loop_instance) :=
  match s_default_loop with
  | None => Ok (ESP_ERR_INVALID_STATE, None)
  | Some loop =>
      '(r, loop) ← esp_event_post_to calloc blocked current mutex base id event_data event_data_size ticks_to_wait loop; Ok (r, Some loop)
  end.

Definition esp_event_isr_post base id event_data event_data_size s_default_loop : outcome (Z * option esp_event_loop_instance) :=
  match s_default_loop with
  | None => Ok (ESP_ERR_INVALID_STATE, None)
  | Some loop => '(r, loop) ← esp_event_isr_post_to base id event_data event_data_size loop; Ok (r, Some loop)
  end.

(** The arguments of [esp_event_loop_create] that the configuration fixes:
    [CONFIG_ESP_SYSTEM_EVENT_QUEUE_SIZE] and a task. *)
Definition esp_event_loop_create_default (event_queue_size : Z) (memory queue_ok mutex_ok : bool) (new_task : Z) s_default_loop
    : Z * option esp_event_loop_instance :=
  match s_default_loop with
  | Some _ => (ESP_ERR_INVALID_STATE, s_default_loop)
  | None => esp_event_loop_create (Some (mkArgs event_queue_size true)) true memory queue_ok mutex_ok new_task
  end.

Definition esp_event_loop_delete_default s_default_loop : outcome (Z * option esp_event_loop_instance) :=
  match s_default_loop with
  | None => Ok (ESP_ERR_INVALID_STATE, None)
  | Some loop => '(err, _) ← esp_event_loop_delete loop; if err =? ESP_OK then Ok (ESP_OK, None) else Ok (err, s_default_loop)
  end.
End default_loop.
