(* ===== verification/EventProofs.v ===== *)
(** * Event loops: the registered handlers

    The nested lists hold the registrations in an order that, for every event,
    agrees with the order of registration: each registration is placed behind all
    those that can run for the same event. *)
From S2P Require Import Prelude EventLoop.

(** The base and the id a handler is registered for, and the registration. *)
Abbreviation key := (Z * Z)%type.
Abbreviation entry := (Z * Z * esp_event_handler_instance)%type.

Section registry.
Context (any : Z).
Implicit Types (b i id base h arg : Z).

(** ** The registrations the lists hold, in the order of the traversal *)

Definition id_entries b (n : esp_event_id_node) : list entry := map (pair (b, node_id n)) (id_handlers n).
Definition base_entries (n : esp_event_base_node) : list entry :=
  map (pair (node_base n, ESP_EVENT_ANY_ID)) (base_handlers n) ++ concat (map (id_entries (node_base n)) (id_nodes n)).
Definition loop_entries (n : esp_event_loop_node) : list entry :=
  map (pair (any, ESP_EVENT_ANY_ID)) (loop_handlers n) ++ concat (map base_entries (base_nodes n)).
Definition entries (l : list esp_event_loop_node) : list entry := concat (map loop_entries l).

(** Whether a registration is for the event [b], [i]. *)
Definition key_matches (k : key) b i : bool := ((k.1 =? any) || (k.1 =? b)) && ((k.2 =? ESP_EVENT_ANY_ID) || (k.2 =? i)).
Definition selected b i (E : list entry) : list entry := filter (fun e => key_matches e.1 b i = true) E.

Definition base_ok (n : esp_event_base_node) : Prop :=
  node_base n <> any /\ NoDup (map node_id (id_nodes n)) /\ Forall (fun m => node_id m <> ESP_EVENT_ANY_ID) (id_nodes n).
Definition nodes_ok (l : list esp_event_loop_node) : Prop := Forall (fun n => Forall base_ok (base_nodes n)) l.

Lemma selected_app b i E1 E2 : selected b i (E1 ++ E2) = selected b i E1 ++ selected b i E2.
Proof. apply filter_app. Qed.

Lemma selected_map b i k hs : selected b i (map (pair k) hs) = if key_matches k b i then map (pair k) hs else [].
Proof.
  induction hs as [|x hs IH]; [by destruct (key_matches k b i)|]. cbn [map]. unfold selected in *. rewrite filter_cons, IH. cbn [fst].
  destruct (key_matches k b i); by case_decide.
Qed.

Lemma selected_none b i E : Forall (fun e => key_matches e.1 b i = false) E -> selected b i E = [].
Proof.
  unfold selected. induction 1 as [|e E He F IH]; [done|]. rewrite filter_cons, IH. by rewrite decide_False by congruence.
Qed.

Lemma map_snd_pair {A B} (k : A) (l : list B) : map snd (map (pair k) l) = l.
Proof. induction l; [done|]. cbn. by f_equal. Qed.

Lemma id_nodes_selected b i base l : base <> any -> i <> ESP_EVENT_ANY_ID -> Forall (fun m => node_id m <> ESP_EVENT_ANY_ID) l ->
  NoDup (map node_id l) ->
  map snd (selected b i (concat (map (id_entries base) l))) = if base =? b then id_nodes_matching i l else [].
Proof.
  intros Hb Hi. induction l as [|n l IH]; intros F N; [by destruct (base =? b)|]. apply Forall_cons in F as [Hn F].
  apply NoDup_cons in N as [Nn N]. cbn [map concat]. rewrite selected_app, map_app, (IH F N). unfold id_entries. rewrite selected_map.
  unfold key_matches. cbn [fst snd]. destruct (Z.eqb_spec base any); [done|]. destruct (Z.eqb_spec (node_id n) ESP_EVENT_ANY_ID); [done|]. cbn [orb].
  destruct (Z.eqb_spec base b); cbn [andb]; [|done]. cbn [id_nodes_matching]. destruct (Z.eqb_spec (node_id n) i) as [<-|]; [|done].
  rewrite map_snd_pair. replace (id_nodes_matching (node_id n) l) with (@nil esp_event_handler_instance); [by rewrite app_nil_r|].
  clear -Nn. induction l as [|m l IH]; [done|]. cbn in *. destruct (Z.eqb_spec (node_id m) (node_id n)) as [E|]; [|apply IH; set_solver].
  rewrite E in Nn. exfalso. apply Nn. left.
Qed.

Lemma base_selected b i n : base_ok n -> i <> ESP_EVENT_ANY_ID ->
  map snd (selected b i (base_entries n)) = base_node_matching b i n.
Proof.
  intros (H1 & H2 & H3) Hi. unfold base_entries, base_node_matching. rewrite selected_app, map_app, id_nodes_selected by done.
  rewrite selected_map. unfold key_matches. cbn [fst snd]. destruct (Z.eqb_spec (node_base n) any); [done|].
  destruct (node_base n =? b); [|done]. cbn. by rewrite map_snd_pair.
Qed.

(** The handlers an event reaches are those of the registrations for it. *)
Lemma matching_selected b i l : nodes_ok l -> i <> ESP_EVENT_ANY_ID -> matching_handlers b i l = map snd (selected b i (entries l)).
Proof.
  intros F Hi. unfold matching_handlers, entries. induction F as [|n l Hn F IH]; [done|]. cbn [map concat].
  rewrite selected_app, map_app, IH. f_equal. unfold loop_node_matching, loop_entries. rewrite selected_app, map_app, selected_map.
  unfold key_matches at 1. cbn [fst snd]. rewrite Z.eqb_refl. cbn. rewrite map_snd_pair. f_equal. clear -Hn Hi.
  induction Hn as [|m ms Hm F IH]; [done|]. cbn [map concat]. by rewrite selected_app, map_app, base_selected, IH.
Qed.

(** ** Registration *)

(** No event is for both. *)
Definition apart (k k' : key) : Prop := forall b i, key_matches k b i = true -> key_matches k' b i = false.

(** [E'] is [E] with the registration [e] behind all those that share an event
    with it. *)
Definition placed (e : entry) (E E' : list entry) : Prop :=
  exists E1 E2, E = E1 ++ E2 /\ E' = E1 ++ e :: E2 /\ Forall (fun e' => apart e.1 e'.1) E2.

Definition holds (k : key) h (E : list entry) : Prop := exists x, (k, x) ∈ E /\ handler x = h.

Lemma placed_end e E : placed e E (E ++ [e]).
Proof. exists E, []. by rewrite app_nil_r. Qed.

Lemma placed_mid e E0 E E' E3 : placed e E E' -> Forall (fun e' => apart e.1 e'.1) E3 -> placed e (E0 ++ E ++ E3) (E0 ++ E' ++ E3).
Proof.
  intros (E1 & E2 & -> & -> & F) F3. exists (E0 ++ E1), (E2 ++ E3). rewrite <- !app_assoc. cbn. split; [done|]. split; [done|].
  by apply Forall_app.
Qed.

Lemma placed_selected e E E' b i : placed e E E' -> selected b i E' = selected b i (E ++ [e]).
Proof.
  intros (E1 & E2 & -> & -> & F). change (e :: E2) with ([e] ++ E2). rewrite <- app_assoc, !selected_app. f_equal.
  destruct (key_matches e.1 b i) eqn:H.
  - rewrite (selected_none b i E2); [by rewrite app_nil_r|]. apply (Forall_impl _ _ _ F). intros e' A. by apply A.
  - rewrite (selected_none b i [e]); [by rewrite app_nil_r|]. by constructor.
Qed.

Lemma add_new h arg hs : (forall x, x ∈ hs -> handler x <> h) -> add_or_overwrite h arg hs = hs ++ [mkHandler h arg].
Proof.
  induction hs as [|x hs IH]; intros H; [done|]. cbn. destruct (Z.eqb_spec h (handler x)) as [->|]; [by destruct (H x); [left|]|].
  rewrite IH; [done|]. intros y Hy. apply H. by right.
Qed.

Lemma last_match_Some {A} (p : A -> bool) l n : last_match p l = Some n ->
  exists l1 x l2, l = l1 ++ x :: l2 /\ length l1 = n /\ p x = true /\ Forall (fun y => p y = false) l2.
Proof.
  revert n. induction l as [|x l IH]; intros n H; [done|]. cbn in H. destruct (last_match p l) as [m|] eqn:E.
  - injection H as <-. destruct (IH m eq_refl) as (l1 & y & l2 & -> & <- & Hy & F). by exists (x :: l1), y, l2.
  - destruct (p x) eqn:Hx; [|done]. injection H as <-. exists [], x, l. split; [done|]. split; [done|]. split; [done|]. clear -E.
    induction l as [|y l IH]; [done|]. cbn in E. destruct (last_match p l); [done|]. destruct (p y) eqn:?; [done|]. constructor; [done|by apply IH].
Qed.

Lemma last_match_None {A} (p : A -> bool) l : last_match p l = None -> Forall (fun y => p y = false) l.
Proof.
  induction l as [|y l IH]; [done|]. cbn. destruct (last_match p l); [done|]. destruct (p y) eqn:?; [done|]. intros _. constructor; [done|by apply IH].
Qed.

Lemma apart_base b i b' i' : b <> any -> b' <> any -> b <> b' -> apart (b, i) (b', i').
Proof.
  intros H1 H2 H3 b0 i0. unfold key_matches. cbn [fst snd]. destruct (Z.eqb_spec b any), (Z.eqb_spec b' any); try done. cbn [orb].
  destruct (Z.eqb_spec b b0), (Z.eqb_spec b' b0); cbn [andb]; congruence.
Qed.

Lemma apart_id b i i' : i <> ESP_EVENT_ANY_ID -> i' <> ESP_EVENT_ANY_ID -> i <> i' -> apart (b, i) (b, i').
Proof.
  intros H1 H2 H3 b0 i0. unfold key_matches. cbn [fst snd]. destruct (Z.eqb_spec i ESP_EVENT_ANY_ID), (Z.eqb_spec i' ESP_EVENT_ANY_ID); try done.
  cbn [orb]. destruct (Z.eqb_spec i i0), (Z.eqb_spec i' i0); rewrite ?andb_false_r; congruence.
Qed.

Lemma id_entries_apart b i l : i <> ESP_EVENT_ANY_ID -> Forall (fun m => node_id m <> ESP_EVENT_ANY_ID) l -> Forall (fun m => node_id m <> i) l ->
  Forall (fun e => apart (b, i) e.1) (concat (map (id_entries b) l)).
Proof.
  intros Hi F1 F2. apply Forall_concat, Forall_map. rewrite Forall_forall in F1, F2. apply Forall_forall. intros m Hm. apply Forall_map, Forall_true.
  intros x. cbn. apply apart_id; [done|by apply F1|intros ->; by apply (F2 m Hm)].
Qed.

Lemma base_entries_apart b i l : b <> any -> Forall base_ok l -> Forall (fun n => node_base n <> b) l ->
  Forall (fun e => apart (b, i) e.1) (concat (map base_entries l)).
Proof.
  intros Hb F1 F2. apply Forall_concat, Forall_map. rewrite Forall_forall in F1, F2. apply Forall_forall. intros n Hn.
  assert (A : forall j, apart (b, i) (node_base n, j)).
  { intros j. destruct (F1 n Hn) as (? & _). apply apart_base; [done|done|intros ->; by apply (F2 n Hn)]. }
  unfold base_entries. apply Forall_app. split; [apply Forall_map, Forall_true; intros; apply A|].
  apply Forall_concat, Forall_map, Forall_true. intros m. apply Forall_map, Forall_true. intros. apply A.
Qed.

Lemma instances_add mem hs h arg : (forall x, x ∈ hs -> handler x <> h) ->
  handler_instances_add mem hs h arg = (ESP_ERR_NO_MEM, hs) \/ handler_instances_add mem hs h arg = (ESP_OK, hs ++ [mkHandler h arg]).
Proof. intros H. destruct mem; [by left|right]. cbn. by rewrite add_new. Qed.

Lemma not_held k h hs E1 E2 : ~ holds k h (E1 ++ map (pair k) hs ++ E2) -> forall x, x ∈ hs -> handler x <> h.
Proof.
  intros H x Hx Hh. apply H. exists x. split; [|done]. rewrite !elem_of_app. right. left. apply list_elem_of_fmap. by exists x.
Qed.

(** What adding a handler does: nothing, for want of memory, or placing it. *)
Definition adds {T} (ok : T -> T -> Prop) (E : T -> list entry) (e : entry) (x : T) (r : Z * T) : Prop :=
  r = (ESP_ERR_NO_MEM, x) \/ exists x', r = (ESP_OK, x') /\ ok x x' /\ placed e (E x) (E x').

Definition base_kept (n n' : esp_event_base_node) : Prop := base_ok n' /\ node_base n' = node_base n.

Lemma insert_middle {A} (l1 : list A) x y l2 : <[length l1 := y]> (l1 ++ x :: l2) = l1 ++ y :: l2.
Proof. rewrite <- (Nat.add_0_r (length l1)), insert_app_r. done. Qed.

Lemma placed_prefix e E0 E E' : placed e E E' -> placed e (E0 ++ E) (E0 ++ E').
Proof. intros P. rewrite <- (app_nil_r E), <- (app_nil_r E'). apply placed_mid; [done|constructor]. Qed.

(** A handler more in an id node. *)
Lemma id_node_placed b l1 m l2 x : node_id m <> ESP_EVENT_ANY_ID -> Forall (fun m => node_id m <> ESP_EVENT_ANY_ID) l2 ->
  Forall (fun m' => (node_id m' =? node_id m) = false) l2 ->
  placed ((b, node_id m), x) (concat (map (id_entries b) (l1 ++ m :: l2)))
    (concat (map (id_entries b) (l1 ++ (m <| id_handlers := id_handlers m ++ [x] |>) :: l2))).
Proof.
  intros Hm F1 F2. rewrite !map_app, !concat_app. cbn [map concat]. apply placed_mid.
  - unfold id_entries. cbn. rewrite map_app. apply placed_end.
  - apply id_entries_apart; [done|done|]. apply (Forall_impl _ _ _ F2). intros y Hy. by apply Z.eqb_neq.
Qed.

Lemma base_add_id mem n id h arg : base_ok n -> ~ holds (node_base n, id) h (base_entries n) -> id <> ESP_EVENT_ANY_ID ->
  adds base_kept base_entries ((node_base n, id), mkHandler h arg) n (base_node_add_handler mem n id h arg).
Proof.
  intros (H1 & H2 & H3) Hh Hid. unfold base_node_add_handler. pose proof Hid as Hid'. apply Z.eqb_neq in Hid' as ->. destruct (last_match _ (id_nodes n)) as [k|] eqn:El.
  - apply last_match_Some in El as (l1 & m & l2 & E & <- & Hm & F). apply Z.eqb_eq in Hm. subst id. rewrite E in H2, H3. rewrite E, list_lookup_middle by done.
    assert (Hx : forall x, x ∈ id_handlers m -> handler x <> h).
    { intros x Hx Hxh. apply Hh. exists x. split; [|done]. unfold base_entries. rewrite E, map_app, concat_app. cbn [map concat].
      rewrite !elem_of_app. right. right. left. apply list_elem_of_fmap. by exists x. }
    apply Forall_app in H3 as [H3 [H4 H5]%Forall_cons]. destruct (instances_add mem (id_handlers m) h arg Hx) as [-> | ->]; [left|right].
    { destruct n as [? ? ids], m. cbn in E |- *. by rewrite insert_middle, E. }
    rewrite insert_middle. eexists. split; [done|]. split.
    { split; [|done]. split; [done|]. cbn. rewrite map_app in *. cbn in *. rewrite Forall_app, Forall_cons. done. }
    unfold base_entries. cbn [node_base base_handlers id_nodes upd]. rewrite E. by apply placed_prefix, id_node_placed.
  - apply last_match_None in El. destruct mem as [|mem]; [by left|].
    destruct (instances_add mem [] h arg ltac:(by intros x ?%elem_of_nil)) as [-> | ->]; [by left|].
    right. eexists. split; [done|]. split.
    { split; [|done]. split; [done|]. cbn. rewrite map_app, NoDup_app, Forall_app. split; [|by repeat constructor].
      split; [done|]. split; [|apply NoDup_singleton]. intros x Hx Hx2%list_elem_of_singleton. subst x. apply list_elem_of_fmap in Hx as (m & E & Hm).
      rewrite Forall_forall in El. apply (Z.eqb_neq (node_id m) id); [by apply El|done]. }
    unfold base_entries. cbn. rewrite map_app, concat_app, app_assoc. apply placed_end.
Qed.

Lemma base_add mem n id h arg : base_ok n -> ~ holds (node_base n, id) h (base_entries n) -> (id = ESP_EVENT_ANY_ID -> id_nodes n = []) ->
  adds base_kept base_entries ((node_base n, id), mkHandler h arg) n (base_node_add_handler mem n id h arg).
Proof.
  intros Hn Hh Ha. destruct (decide (id = ESP_EVENT_ANY_ID)) as [->|Hid]; [|by apply base_add_id]. unfold base_node_add_handler. rewrite Z.eqb_refl.
  destruct (instances_add mem (base_handlers n) h arg) as [-> | ->]; [by apply (not_held _ _ _ [] _ Hh)|left; by destruct n|right].
  eexists. split; [done|]. split; [done|]. unfold base_entries. cbn. rewrite (Ha eq_refl). cbn. rewrite !app_nil_r, map_app.
  apply placed_end.
Qed.

Lemma needs_base_node_Some l base id (k : nat) n : needs_base_node l base id = Some (k, n) ->
  exists l1 l2, l = l1 ++ n :: l2 /\ length l1 = k /\ node_base n = base /\ Forall (fun y => node_base y <> base) l2 /\
    (id = ESP_EVENT_ANY_ID -> id_nodes n = []).
Proof.
  unfold needs_base_node. destruct (last l) as [lb|]; [|done]. destruct (last_match _ l) as [k0|] eqn:El; [|done].
  apply last_match_Some in El as (l1 & m & l2 & -> & <- & Hm & F). rewrite list_lookup_middle by done.
  destruct (_ || _) eqn:Hc; [done|]. intros [= <- <-]. exists l1, l2. split; [done|]. split; [done|]. split; [by apply Z.eqb_eq|].
  split; [apply (Forall_impl _ _ _ F); intros y Hy; by apply Z.eqb_neq|]. intros ->. apply orb_false_iff in Hc as [Hc _].
  rewrite Z.eqb_refl, andb_true_r in Hc. by destruct (id_nodes m).
Qed.

Definition loop_kept (n n' : esp_event_loop_node) : Prop := Forall base_ok (base_nodes n').

Lemma not_holds_part k h E1 E2 E3 : ~ holds k h (E1 ++ E2 ++ E3) -> ~ holds k h E2.
Proof. intros H (x & Hx & Hh). apply H. exists x. split; [|done]. rewrite !elem_of_app. auto. Qed.

Lemma loop_add mem n base id h arg : Forall base_ok (base_nodes n) -> ~ holds (base, id) h (loop_entries n) ->
  (base = any -> id = ESP_EVENT_ANY_ID /\ base_nodes n = []) ->
  adds loop_kept loop_entries ((base, id), mkHandler h arg) n (loop_node_add_handler any mem n base id h arg).
Proof.
  intros F Hh Ha. unfold loop_node_add_handler. destruct (Z.eqb_spec base any) as [->|Hb].
  { destruct (Ha eq_refl) as [-> En]. cbn [andb]. rewrite Z.eqb_refl.
    destruct (instances_add mem (loop_handlers n) h arg) as [-> | ->]; [by apply (not_held _ _ _ [] _ Hh)|left; by destruct n|right].
    eexists. split; [done|]. split; [done|]. unfold loop_entries. cbn. rewrite En. cbn. rewrite !app_nil_r, map_app. apply placed_end. }
  cbn [andb]. unfold loop_entries in Hh. destruct (needs_base_node (base_nodes n) base id) as [[i bn]|] eqn:Hn.
  - apply needs_base_node_Some in Hn as (l1 & l2 & E & <- & <- & Fl & Hid). rewrite E in F. apply Forall_app in F as [F1 [Hbn F2]%Forall_cons].
    assert (Hh' : ~ holds (node_base bn, id) h (base_entries bn)).
    { rewrite E, map_app, concat_app in Hh. cbn [map concat] in Hh. rewrite app_assoc in Hh. by eapply not_holds_part. }
    destruct (base_add mem bn id h arg Hbn Hh' Hid) as [-> | (bn' & -> & [Hk Hkb] & P)]; cbn beta iota; rewrite E, insert_middle; [left; destruct n; cbn in *; by rewrite E|].
    right. eexists. split; [done|]. split; [by apply Forall_app; split; [|constructor]|]. unfold loop_entries. cbn [loop_handlers base_nodes upd].
    rewrite E. apply placed_prefix. rewrite !map_app, !concat_app. cbn [map concat]. apply placed_mid; [done|]. by apply base_entries_apart.
  - destruct mem as [|mem]; [by left|].
    assert (Hh' : ~ holds (base, id) h (base_entries (mkBaseNode base [] []))) by (intros (x & Hx%elem_of_nil & _); done).
    destruct (base_add mem (mkBaseNode base [] []) id h arg) as [-> | (bn' & -> & [Hk Hkb] & P)]; [|done|done|by left|].
    { split; [done|]. split; constructor. }
    right. eexists. split; [done|]. split; [apply Forall_app; split; [done|]; by constructor|]. unfold loop_entries. cbn [loop_handlers base_nodes upd].
    apply placed_prefix. rewrite map_app, concat_app. rewrite <- (app_nil_r (concat (map base_entries (base_nodes n)))) at 1. apply placed_prefix.
    cbn. by rewrite app_nil_r.
Qed.

Lemma nodes_add mem l base id h arg : nodes_ok l -> ~ holds (base, id) h (entries l) -> (base = any -> id = ESP_EVENT_ANY_ID) ->
  adds (fun _ => nodes_ok) entries ((base, id), mkHandler h arg) l (loop_nodes_add_handler any mem l base id h arg).
Proof.
  intros F Hh Ha. unfold loop_nodes_add_handler.
  set (new := match mem with O => _ | S _ => _ end).
  assert (New : adds (fun _ => nodes_ok) entries ((base, id), mkHandler h arg) l new).
  { subst new. destruct mem as [|mem]; [by left|]. destruct (loop_add mem (mkLoopNode [] []) base id h arg) as [-> | (n' & -> & Hk & P)].
    - constructor. - by intros (x & Hx%elem_of_nil & _). - by intros ->%Ha. - by left.
    - right. eexists. split; [done|]. split; [apply Forall_app; split; [done|]; by constructor|]. unfold entries. rewrite map_app, concat_app.
      rewrite <- (app_nil_r (concat (map loop_entries l))) at 1. apply placed_prefix. cbn. by rewrite app_nil_r. }
  destruct (last l) as [n|] eqn:El; [|exact New]. destruct (negb _ && _) eqn:Hc; [exact New|]. clearbody new. clear New.
  apply last_Some in El as [l' ->]. apply Forall_app in F as [F [Hn _]%Forall_cons]. rewrite length_app. cbn [length]. rewrite Nat.add_sub.
  assert (Hh' : ~ holds (base, id) h (loop_entries n)).
  { unfold entries in Hh. rewrite map_app, concat_app in Hh. cbn [map concat] in Hh. by eapply not_holds_part. }
  destruct (loop_add mem n base id h arg Hn Hh') as [-> | (n' & -> & Hk & P)]; [|left; by rewrite insert_middle|].
  - intros ->. split; [by apply Ha|]. rewrite Z.eqb_refl, (Ha eq_refl), Z.eqb_refl, andb_true_r in Hc. by destruct (base_nodes n).
  - cbn beta iota. rewrite insert_middle. right. eexists. split; [done|]. split; [apply Forall_app; split; [done|]; by constructor|]. unfold entries. rewrite !map_app, !concat_app. apply placed_prefix.
    cbn. by rewrite !app_nil_r.
Qed.

(** ** Unregistration *)
Definition without (k : key) h (E : list entry) : list entry := filter (fun e => ~ (e.1 = k /\ handler e.2 = h)) E.
Definition name_of (e : entry) : key * Z := (e.1, handler e.2).
Definition unique (E : list entry) : Prop := NoDup (map name_of E).

Lemma without_app k h E1 E2 : without k h (E1 ++ E2) = without k h E1 ++ without k h E2.
Proof. apply filter_app. Qed.

Lemma without_id k h E : ~ holds k h E -> without k h E = E.
Proof.
  unfold without. induction E as [|e E IH]; intros H; [done|]. rewrite filter_cons, IH.
  - rewrite decide_True; [done|]. intros [<- <-]. apply H. exists e.2. split; [|done]. destruct e. left.
  - intros (x & Hx & Hh). apply H. exists x. split; [by right|done].
Qed.

Lemma unique_without k h E : unique E -> unique (without k h E).
Proof.
  unfold unique, without. induction E as [|e E IH]; intros U; [done|]. cbn [map] in U. apply NoDup_cons in U as [Hn U]. rewrite filter_cons.
  case_decide; [|by apply IH]. cbn [map]. apply NoDup_cons. split; [|by apply IH]. intros Hin. apply Hn.
  apply list_elem_of_fmap in Hin as (x & Hx & Hin). apply list_elem_of_filter in Hin as [_ Hin]. apply list_elem_of_fmap. by exists x.
Qed.

Lemma holds_name k h E : holds k h E <-> (k, h) ∈ map name_of E.
Proof.
  unfold holds. rewrite list_elem_of_fmap. split.
  - intros (x & Hx & <-). by exists (k, x).
  - intros ([k' x] & [= -> ->] & Hx). by exists x.
Qed.

Lemma unique_app E1 E2 : unique (E1 ++ E2) -> unique E1 /\ unique E2 /\ forall k h, holds k h E1 -> ~ holds k h E2.
Proof.
  unfold unique. rewrite map_app, NoDup_app. intros (H1 & H2 & H3). split; [done|]. split; [done|]. intros k h. rewrite !holds_name. apply H2.
Qed.

Lemma other_keys k h E : Forall (fun e => e.1 <> k) E -> ~ holds k h E.
Proof. intros F (x & Hx & _). rewrite Forall_forall in F. by apply (F _ Hx). Qed.

Lemma not_holds_id b i h n : node_id n <> i -> ~ holds (b, i) h (id_entries b n).
Proof. intros H. apply other_keys, Forall_map, Forall_true. intros x. cbn. congruence. Qed.

Lemma instances_removed k h hs : unique (map (pair k) hs) -> let r := handler_instances_remove hs h in
  map (pair k) r.2 = without k h (map (pair k) hs) /\ (r.1 = ESP_OK -> holds k h (map (pair k) hs)).
Proof.
  cbn zeta. induction hs as [|x hs IH]; intros U; [done|]. cbn [map] in *. apply (unique_app [_]) in U as (_ & U & D).
  destruct (IH U) as [IH1 IH2]. cbn [handler_instances_remove]. unfold without in *. rewrite filter_cons. destruct (Z.eqb_spec (handler x) h) as [Hx|Hx].
  - assert (Hk : holds k h [(k, x)]) by (exists x; split; [left|done]). split.
    + rewrite decide_False by (cbn; tauto). symmetry. apply without_id. by apply D.
    + intros _. exists x. split; [left|done].
  - destruct (handler_instances_remove hs h) as [res l]. cbn [fst snd] in *. rewrite decide_True by (cbn; tauto). split; [cbn; by rewrite IH1|].
    intros (y & Hy & Hh)%IH2. exists y. split; [by right|done].
Qed.

(** The loops over the nodes of a level: [found] is what the inner removal says. *)
Lemma removed_here k h E0 E1 E0' : unique (E0 ++ E1) -> E0' = without k h E0 -> holds k h E0 -> E0' ++ E1 = without k h (E0 ++ E1).
Proof. intros U -> H. apply unique_app in U as (_ & _ & D). rewrite without_app, (without_id k h E1); [done|]. by apply D. Qed.

Lemma ids_removed b i h l : unique (concat (map (id_entries b) l)) -> let r := id_nodes_remove l i h in
  concat (map (id_entries b) r.2) = without (b, i) h (concat (map (id_entries b) l)) /\
  (r.1 = ESP_OK -> holds (b, i) h (concat (map (id_entries b) l))) /\ map node_id r.2 `sublist_of` map node_id l.
Proof.
  cbn zeta. induction l as [|n l IH]; intros U; [done|]. cbn [map concat] in *. pose proof U as U0. apply unique_app in U as (U1 & U2 & D).
  destruct (IH U2) as (IH1 & IH2 & IH3). cbn [id_nodes_remove].
  assert (Hr : forall E, holds (b, i) h (concat (map (id_entries b) l)) -> holds (b, i) h (E ++ concat (map (id_entries b) l))).
  { intros E (x & Hx & Hh). exists x. split; [|done]. rewrite elem_of_app. by right. }
  destruct (Z.eqb_spec (node_id n) i) as [<-|Hn].
  - pose proof (instances_removed (b, node_id n) h (id_handlers n) U1) as Hi. cbn zeta in Hi.
    destruct (handler_instances_remove (id_handlers n) h) as [res hs]. cbn [fst snd] in Hi. destruct Hi as [Hi1 Hi2].
    destruct ((res =? ESP_OK) && is_nil hs) eqn:Hc.
    + apply andb_true_iff in Hc as [Hres Hnil]. destruct hs; [|done]. cbn [fst snd]. assert (H : holds (b, node_id n) h (id_entries b n)) by (apply Hi2; lia).
      split; [|split].
      * rewrite <- (removed_here _ _ _ _ [] U0 Hi1 H). done.
      * intros _. destruct H as (x & Hx & Hh). exists x. split; [|done]. rewrite elem_of_app. by left.
      * by constructor.
    + destruct (id_nodes_remove l (node_id n) h) as [res' l']. cbn [fst snd] in *. rewrite without_app. cbn [map concat]. rewrite IH1. unfold id_entries at 1 3.
      cbn [upd node_id id_handlers]. rewrite Hi1. split; [done|]. split; [intros H; by apply Hr, IH2|]. by constructor.
  - destruct (id_nodes_remove l i h) as [res' l']. cbn [fst snd] in *. rewrite without_app, (without_id _ _ (id_entries b n)) by by apply not_holds_id.
    cbn [map concat]. rewrite IH1. split; [done|]. split; [intros H; by apply Hr, IH2|]. by constructor.
Qed.

Lemma holds_app_l k h E1 E2 : holds k h E1 -> holds k h (E1 ++ E2).
Proof. intros (x & Hx & Hh). exists x. split; [|done]. rewrite elem_of_app. by left. Qed.
Lemma holds_app_r k h E1 E2 : holds k h E2 -> holds k h (E1 ++ E2).
Proof. intros (x & Hx & Hh). exists x. split; [|done]. rewrite elem_of_app. by right. Qed.

Lemma same_key_only k k' h hs : k <> k' -> ~ holds k h (map (pair k') hs).
Proof. intros H. apply other_keys, Forall_map, Forall_true. intros x. cbn. congruence. Qed.

Lemma base_removed n i h : base_ok n -> unique (base_entries n) -> let r := base_node_remove_handler n i h in
  base_entries r.2 = without (node_base n, i) h (base_entries n) /\ (r.1 = ESP_OK -> holds (node_base n, i) h (base_entries n)) /\ base_kept n r.2.
Proof.
  intros (H1 & H2 & H3) U. apply unique_app in U as (U1 & U2 & D). cbn zeta. unfold base_node_remove_handler, base_entries in *.
  destruct (Z.eqb_spec i ESP_EVENT_ANY_ID) as [->|Hi].
  - pose proof (instances_removed (node_base n, ESP_EVENT_ANY_ID) h (base_handlers n) U1) as [Hi1 Hi2].
    destruct (handler_instances_remove (base_handlers n) h) as [res hs]. cbn [fst snd upd node_base base_handlers id_nodes] in *. split.
    + rewrite without_app, <- Hi1. f_equal. symmetry. apply without_id, other_keys, Forall_concat, Forall_map. apply (Forall_impl _ _ _ H3).
      intros m Hm. apply Forall_map, Forall_true. intros x. cbn. congruence.
    + split; [intros H; by apply holds_app_l, Hi2|done].
  - pose proof (ids_removed (node_base n) i h (id_nodes n) U2) as (Hi1 & Hi2 & Hi3).
    destruct (id_nodes_remove (id_nodes n) i h) as [res l]. cbn [fst snd upd node_base base_handlers id_nodes] in *. split.
    + rewrite without_app, <- Hi1. f_equal. symmetry. apply without_id, same_key_only. congruence.
    + split; [by intros ?%Hi2; apply holds_app_r|]. split; [|done]. split; [done|]. cbn. split; [by eapply sublist_NoDup|].
      apply (Forall_map node_id (fun z => z <> ESP_EVENT_ANY_ID)). apply (Forall_map node_id (fun z => z <> ESP_EVENT_ANY_ID)) in H3.
      rewrite Forall_forall in H3 |- *. intros z Hz. apply H3. by eapply sublist_subseteq.
Qed.

Lemma base_nil n : is_nil (base_handlers n) = true -> is_nil (id_nodes n) = true -> base_entries n = [].
Proof. unfold base_entries. by destruct (base_handlers n), (id_nodes n). Qed.

Lemma base_entries_base n : Forall (fun e => e.1.1 = node_base n) (base_entries n).
Proof.
  unfold base_entries. apply Forall_app. split; [by apply Forall_map, Forall_true|]. apply Forall_concat, Forall_map, Forall_true. intros m.
  by apply Forall_map, Forall_true.
Qed.

Lemma bases_removed b i h l : Forall base_ok l -> unique (concat (map base_entries l)) -> let r := base_nodes_remove l b i h in
  concat (map base_entries r.2) = without (b, i) h (concat (map base_entries l)) /\
  (r.1 = ESP_OK -> holds (b, i) h (concat (map base_entries l))) /\ Forall base_ok r.2.
Proof.
  cbn zeta. induction 1 as [|n l Hn F IH]; intros U; [done|]. cbn [map concat] in *. pose proof U as U0. apply unique_app in U as (U1 & U2 & D).
  destruct (IH U2) as (IH1 & IH2 & IH3). cbn [base_nodes_remove]. destruct (Z.eqb_spec (node_base n) b) as [<-|Hb].
  - pose proof (base_removed n i h Hn U1) as (Hi1 & Hi2 & [Hi3 _]). destruct (base_node_remove_handler n i h) as [res n']. cbn [fst snd] in *.
    destruct ((res =? ESP_OK) && is_nil (base_handlers n') && is_nil (id_nodes n')) eqn:Hc.
    + rewrite !andb_true_iff in Hc. destruct Hc as [[Hres Hc1] Hc2]. apply Z.eqb_eq in Hres. apply Hi2 in Hres. cbn [fst snd]. split; [|split; [|done]].
      * rewrite <- (removed_here _ _ _ _ [] U0); [done| |done]. by rewrite <- Hi1, base_nil.
      * intros _. by apply holds_app_l.
    + destruct (base_nodes_remove l (node_base n) i h) as [res' l']. cbn [fst snd map concat] in *. rewrite without_app, IH1, Hi1. split; [done|].
      split; [by intros ?%IH2; apply holds_app_r|by constructor].
  - destruct (base_nodes_remove l b i h) as [res' l']. cbn [fst snd map concat] in *. rewrite without_app, IH1. split; [|split; [by intros ?%IH2; apply holds_app_r|by constructor]].
    f_equal. symmetry. apply without_id, other_keys. apply (Forall_impl _ _ _ (base_entries_base n)). intros e He Hk. rewrite Hk in He. cbn in He. congruence.
Qed.

Lemma loop_removed n b i h : Forall base_ok (base_nodes n) -> unique (loop_entries n) -> (b = any -> i = ESP_EVENT_ANY_ID) ->
  let r := loop_node_remove_handler any n b i h in
  loop_entries r.2 = without (b, i) h (loop_entries n) /\ (r.1 = ESP_OK -> holds (b, i) h (loop_entries n)) /\ Forall base_ok (base_nodes r.2).
Proof.
  intros F U Ha. apply unique_app in U as (U1 & U2 & D). cbn zeta. unfold loop_node_remove_handler, loop_entries in *. destruct (Z.eqb_spec b any) as [->|Hb].
  - rewrite (Ha eq_refl), Z.eqb_refl. cbn [andb]. pose proof (instances_removed (any, ESP_EVENT_ANY_ID) h (loop_handlers n) U1) as [Hi1 Hi2].
    destruct (handler_instances_remove (loop_handlers n) h) as [res hs]. cbn [fst snd upd loop_handlers base_nodes] in *. split; [|split; [intros H; by apply holds_app_l, Hi2|done]].
    rewrite without_app, <- Hi1. f_equal. symmetry. apply without_id, other_keys, Forall_concat, Forall_map. apply (Forall_impl _ _ _ F).
    intros m (Hm & _). apply (Forall_impl _ _ _ (base_entries_base m)). intros e He Hk. rewrite Hk in He. cbn in He. congruence.
  - cbn [andb]. pose proof (bases_removed b i h (base_nodes n) F U2) as (Hi1 & Hi2 & Hi3).
    destruct (base_nodes_remove (base_nodes n) b i h) as [res l]. cbn [fst snd upd loop_handlers base_nodes] in *. split; [|split; [by intros ?%Hi2; apply holds_app_r|done]].
    rewrite without_app, <- Hi1. f_equal. symmetry. apply without_id, same_key_only. congruence.
Qed.

Lemma loop_nil n : is_nil (base_nodes n) = true -> is_nil (loop_handlers n) = true -> loop_entries n = [].
Proof. unfold loop_entries. by destruct (base_nodes n), (loop_handlers n). Qed.

Lemma nodes_removed l b i h : nodes_ok l -> unique (entries l) -> (b = any -> i = ESP_EVENT_ANY_ID) ->
  entries (loop_nodes_remove any l b i h) = without (b, i) h (entries l) /\ nodes_ok (loop_nodes_remove any l b i h).
Proof.
  intros F. unfold entries. induction F as [|n l Hn F IH]; intros U Ha; [split; [done|constructor]|]. cbn [map concat] in *. pose proof U as U0. apply unique_app in U as (U1 & U2 & D).
  destruct (IH U2 Ha) as [IH1 IH2]. cbn [loop_nodes_remove]. pose proof (loop_removed n b i h Hn U1 Ha) as (Hi1 & Hi2 & Hi3).
  destruct (loop_node_remove_handler any n b i h) as [res n']. cbn [fst snd] in *.
  destruct ((res =? ESP_OK) && is_nil (base_nodes n') && is_nil (loop_handlers n')) eqn:Hc.
  - rewrite !andb_true_iff in Hc. destruct Hc as [[Hres Hc1] Hc2]. apply Z.eqb_eq in Hres. apply Hi2 in Hres. split; [|done].
    rewrite <- (removed_here _ _ _ _ [] U0); [done| |done]. by rewrite <- Hi1, loop_nil.
  - cbn [map concat]. rewrite without_app, IH1, Hi1. split; [done|by constructor].
Qed.
End registry.

(** ** Four successful allocations are enough *)
Lemma base_add_enough (m : nat) n id h arg : (2 <= m)%nat -> (base_node_add_handler m n id h arg).1 = ESP_OK.
Proof.
  intros H. do 2 (destruct m as [|m]; [lia|]). unfold base_node_add_handler. destruct (id =? ESP_EVENT_ANY_ID); [done|].
  destruct (last_match _ _); [|done]. by destruct (_ !! _).
Qed.

Lemma loop_add_enough any (m : nat) n base id h arg : (3 <= m)%nat -> (loop_node_add_handler any m n base id h arg).1 = ESP_OK.
Proof.
  intros H. destruct m as [|m]; [lia|]. unfold loop_node_add_handler. destruct ((base =? any) && (id =? ESP_EVENT_ANY_ID)); [done|].
  destruct (needs_base_node _ _ _) as [[k bn]|].
  - pose proof (base_add_enough (S m) bn id h arg ltac:(lia)) as E. by destruct (base_node_add_handler _ _ _ _ _).
  - pose proof (base_add_enough m (mkBaseNode base [] []) id h arg ltac:(lia)) as E. destruct (base_node_add_handler _ _ _ _ _).
    cbn in E. by subst.
Qed.

Lemma nodes_add_enough any (m : nat) l base id h arg : (4 <= m)%nat -> (loop_nodes_add_handler any m l base id h arg).1 = ESP_OK.
Proof.
  intros H. destruct m as [|m]; [lia|]. unfold loop_nodes_add_handler.
  pose proof (loop_add_enough any m (mkLoopNode [] []) base id h arg ltac:(lia)) as E. destruct (loop_node_add_handler any m _ _ _ _ _) as [r n].
  cbn in E. subst r. destruct (last l) as [n'|]; [|done]. destruct (_ && _); [done|].
  pose proof (loop_add_enough any (S m) n' base id h arg ltac:(lia)) as E'. by destruct (loop_node_add_handler any (S m) _ _ _ _ _).
Qed.
