(* ===== verification/EventHistory.v ===== *)
(** * Event loops: what the calls promise together

    The specification is the list of registrations in the order they were made and
    the queue of events with their data.  Every history of calls behaves as it
    says: an event reaches the handlers registered for it when it is dispatched,
    in the order of registration, and each with the bytes that were posted. *)
From S2P Require Import Prelude EventLoop EventProofs.

(** ** Specification *)
Abbreviation event := (Z * Z * option (list Z))%type.

Section spec.
Context (any : Z).
Context (react : executed -> list request).

(** The data that travel with a post. *)
Definition sent_data (d : option (list Z)) (size : Z) : option (list Z) :=
  match d with Some bytes => if size =? 0 then None else Some (take (Z.to_nat size) bytes) | None => None end.

(** A post into the queue [E] of the size [size] is refused, or is the last event. *)
Inductive answers (size : Z) (mutex : bool) (b i : Z) (d : option (list Z)) (E : list event) : Z -> list event -> Prop :=
  | posted : b <> 0 -> i <> -1 -> lenZ E < size -> answers size mutex b i d E ESP_OK (E ++ [(b, i, d)])
  | bad_event : b = 0 \/ i = -1 -> answers size mutex b i d E ESP_ERR_INVALID_ARG E
  | queue_full : b <> 0 -> i <> -1 -> size <= lenZ E \/ mutex = false -> answers size mutex b i d E ESP_ERR_TIMEOUT E
  | no_memory : b <> 0 -> i <> -1 -> d <> None -> answers size mutex b i d E ESP_ERR_NO_MEM E.

Inductive spec_posts (size : Z) : list event -> list request -> list event -> Prop :=
  | sp_nil E : spec_posts size E [] E
  | sp_cons E q qs r E1 E2 : answers size true (q_base q) (q_id q) (sent_data (q_data q) (q_size q)) E r E1 ->
      spec_posts size E1 qs E2 -> spec_posts size E (q :: qs) E2.

(** The handlers [hs] run for the event [e], one after the other. *)
Inductive spec_handlers (size : Z) (e : event) : list event -> list esp_event_handler_instance -> list executed -> list event -> Prop :=
  | sh_nil E : spec_handlers size e E [] [] E
  | sh_cons E h hs x E1 xs E2 : x = mkExecuted (handler h) (harg h) e.1.1 e.1.2 e.2 -> spec_posts size E (react x) E1 ->
      spec_handlers size e E1 hs xs E2 -> spec_handlers size e E (h :: hs) (x :: xs) E2.

(** The loop runs until the queue is empty or, after an event, the time is over. *)
Inductive spec_loop (size : Z) (regs : list entry) (expires : bool) : list event -> list executed -> list event -> Prop :=
  | sl_empty : spec_loop size regs expires [] [] []
  | sl_step e E xs E1 ys E2 : spec_handlers size e E (map snd (selected any e.1.1 e.1.2 regs)) xs E1 ->
      spec_loop size regs expires E1 ys E2 -> spec_loop size regs expires (e :: E) (xs ++ ys) E2
  | sl_expired e E xs E1 : expires = true -> spec_handlers size e E (map snd (selected any e.1.1 e.1.2 regs)) xs E1 ->
      spec_loop size regs expires (e :: E) xs E1.
End spec.

(** ** The data of the events *)

(** The event a queued post stands for. *)
Definition event_of (copies : gmap Z (list Z)) (p : esp_event_post_instance) : event :=
  (post_base p, post_id p, if data_set p then match post_data p with ptr a => copies !! a | val bytes => Some bytes end else None).
Definition events (loop : esp_event_loop_instance) : list event := map (event_of (data_copies loop)) (queue loop).

Definition owned (p : esp_event_post_instance) : option Z :=
  match data_allocated p, post_data p with true, ptr a => Some a | _, _ => None end.

Definition post_ok (p : esp_event_post_instance) : Prop :=
  post_base p <> 0 /\ post_id p <> -1 /\
  match data_set p, data_allocated p, post_data p with
  | true, true, ptr a => a <> 0
  | true, false, val _ => True
  | false, false, _ => True
  | _, _, _ => False
  end.

(** Every copy on the heap belongs to one of the posts. *)
Record data_ok (posts : list esp_event_post_instance) (copies : gmap Z (list Z)) : Prop := {
  do_posts : Forall post_ok posts;
  do_owned : NoDup (omap owned posts);
  do_copies : forall a, is_Some (copies !! a) <-> a ∈ omap owned posts
}.

Lemma data_ok_nil : data_ok [] ∅.
Proof. split; [constructor|constructor|]. intros a. rewrite lookup_empty. split; [by intros [? ?]|by intros ?%elem_of_nil]. Qed.

Lemma event_of_ext copies copies' p : (forall a, owned p = Some a -> copies' !! a = copies !! a) -> post_ok p -> event_of copies' p = event_of copies p.
Proof.
  intros H (_ & _ & Hp). unfold event_of. destruct p as [al st b i d]. cbn in *. destruct st, al, d as [bytes|a]; try done. by rewrite (H a).
Qed.

(** A post with a fresh copy. *)
Lemma data_ok_add posts copies a bytes b i : data_ok posts copies -> copies !! a = None -> a <> 0 -> b <> 0 -> i <> -1 ->
  data_ok (posts ++ [mkPost true true b i (ptr a)]) (<[a := bytes]> copies).
Proof.
  intros [H1 H2 H3] Ha Ha0 Hb Hi. assert (Hn : a ∉ omap owned posts) by (rewrite <- H3, Ha; by intros [? ?]). split.
  - apply Forall_app. split; [done|]. by constructor.
  - rewrite omap_app. cbn. apply NoDup_app. split; [done|]. split; [|apply NoDup_singleton]. intros x Hx ->%list_elem_of_singleton. done.
  - intros x. rewrite omap_app, elem_of_app. cbn. rewrite list_elem_of_singleton, lookup_insert, <- H3. case_decide; naive_solver.
Qed.

Lemma data_ok_plain posts copies p : data_ok posts copies -> post_ok p -> owned p = None -> data_ok (posts ++ [p]) copies.
Proof.
  intros [H1 H2 H3] Hp Ho. split.
  - apply Forall_app. split; [done|]. by constructor.
  - rewrite omap_app. cbn. by rewrite Ho, app_nil_r.
  - intros a. rewrite H3, omap_app. cbn. by rewrite Ho, app_nil_r.
Qed.

Lemma events_insert copies a bytes posts : data_ok posts copies -> copies !! a = None ->
  map (event_of (<[a := bytes]> copies)) posts = map (event_of copies) posts.
Proof.
  intros [H1 _ H3] Ha. apply map_ext_in. intros p Hp%list_elem_of_In. rewrite Forall_forall in H1. apply event_of_ext; [|by apply H1].
  intros x Hx. apply lookup_insert_ne. intros <-. assert (is_Some (copies !! a)) as [? ?]; [|congruence]. apply H3, list_elem_of_omap. by exists p.
Qed.

(** Deleting the data of the first post. *)
Lemma delete_first p posts loop : data_ok (p :: posts) (data_copies loop) -> exists copies,
  post_instance_delete p loop = Ok (loop <| data_copies := copies |>) /\ data_ok posts copies /\
  map (event_of copies) posts = map (event_of (data_copies loop)) posts.
Proof.
  intros [H1 H2 H3]. apply Forall_cons in H1 as [(_ & _ & Hp) H1]. cbn in H2, H3. unfold post_instance_delete. destruct p as [al st b i d]. cbn in *.
  destruct al, st, d as [bytes|a]; try done; cbn in *; try (exists (data_copies loop); split; [by destruct loop|]; by split).
  destruct (Z.eqb_spec a 0); [done|]. apply NoDup_cons in H2 as [Hn H2].
  assert (is_Some (data_copies loop !! a)) as [bytes Hb] by (apply H3; left). rewrite Hb. exists (delete a (data_copies loop)). split; [done|].
  split; [split; [done|done|]|].
  - intros x. rewrite lookup_delete. case_decide as Hx; [subst x; split; [by intros [? ?]|done]|]. rewrite H3, elem_of_cons. naive_solver.
  - apply map_ext_in. intros p Hin%list_elem_of_In. rewrite Forall_forall in H1. apply event_of_ext; [|by apply H1]. intros x Hx.
    apply lookup_delete_ne. intros <-. apply Hn, list_elem_of_omap. by exists p.
Qed.

(** ** Posting *)
Section calls.
Context (any : Z).
Context (calloc : gmap Z (list Z) -> option Z) (calloc_fresh : forall m a, calloc m = Some a -> m !! a = None /\ a <> 0).
Implicit Types (loop : esp_event_loop_instance) (held : list esp_event_post_instance).

(** No other task runs while a call waits. *)
Definition idle (ticks : Z) loop : esp_event_loop_instance := loop.

Definition data_fits (d : option (list Z)) (size : Z) : bool :=
  match d with Some bytes => (0 <=? size) && (size <=? lenZ bytes) | None => true end.

Definition kept loop loop' : Prop :=
  loop_nodes loop' = loop_nodes loop /\ queue_size loop' = queue_size loop /\ task loop' = task loop /\ running_task loop' = running_task loop.

(** The state after a call that may post: [held] are posts taken from the queue. *)
Record step_ok held loop loop' : Prop := {
  so_kept : kept loop loop';
  so_data : data_ok (held ++ queue loop') (data_copies loop');
  so_held : map (event_of (data_copies loop')) held = map (event_of (data_copies loop)) held
}.

Lemma step_ok_refl held loop : data_ok (held ++ queue loop) (data_copies loop) -> step_ok held loop loop.
Proof. by split. Qed.

Lemma post_to_queue_cases (current : Z) (mutex : bool) post (ticks : Z) loop :
  (lenZ (queue loop) < queue_size loop /\
   post_to_queue idle current mutex post ticks loop = Ok (ESP_OK, loop <| queue := queue loop ++ [post] |>)) \/
  ((queue_size loop <= lenZ (queue loop) \/ mutex = false) /\
   post_to_queue idle current mutex post ticks loop = (loop ← post_instance_delete post loop; Ok (ESP_ERR_TIMEOUT, loop))).
Proof.
  assert (E : forall t, xQueueSendToBack idle post t loop =
    if lenZ (queue loop) <? queue_size loop then (true, loop <| queue := queue loop ++ [post] |>) else (false, loop)).
  { intros t. unfold xQueueSendToBack, idle. by destruct (lenZ (queue loop) <? queue_size loop) eqn:Hl; rewrite Hl. }
  unfold post_to_queue. rewrite !E. destruct (Z.ltb_spec (lenZ (queue loop)) (queue_size loop)) as [H|H];
    destruct (task loop =? 0), mutex, (running_task loop =? current), (task loop =? current); cbn [negb]; auto.
Qed.

(** Posting a record without a copy, and one with a copy. *)
Lemma plain_post_run held (current : Z) mutex b i (ticks : Z) loop : data_ok (held ++ queue loop) (data_copies loop) -> b <> 0 -> i <> -1 ->
  exists r loop', post_to_queue idle current mutex (mkPost false false b i (ptr 0)) ticks loop = Ok (r, loop') /\
    step_ok held loop loop' /\ answers (queue_size loop) mutex b i None (events loop) r (events loop') /\ (r <> ESP_OK -> loop' = loop).
Proof.
  intros D Hb Hi. destruct (post_to_queue_cases current mutex (mkPost false false b i (ptr 0)) ticks loop) as [[Hl ->]|[Hf ->]].
  - eexists _, _. split; [done|]. split.
    + split; [done| |done]. cbn. rewrite app_assoc. by apply data_ok_plain.
    + split; [|done]. unfold events. cbn. rewrite map_app. cbn. apply posted; [done|done|]. unfold lenZ in *. by rewrite length_map.
  - eexists _, _. split; [cbn; done|]. split; [by apply step_ok_refl|]. split; [|done]. apply queue_full; [done|done|]. unfold events, lenZ in *. by rewrite length_map.
Qed.

Lemma copy_post_run held (current : Z) mutex b i (ticks : Z) loop a bytes : data_ok (held ++ queue loop) (data_copies loop) -> b <> 0 -> i <> -1 ->
  data_copies loop !! a = None -> a <> 0 -> exists r loop',
    post_to_queue idle current mutex (mkPost true true b i (ptr a)) ticks (loop <| data_copies := <[a := bytes]> (data_copies loop) |>) = Ok (r, loop') /\
    step_ok held loop loop' /\ answers (queue_size loop) mutex b i (Some bytes) (events loop) r (events loop') /\ (r <> ESP_OK -> loop' = loop).
Proof.
  intros D Hb Hi Ha Ha0. set (loop1 := loop <| data_copies := _ |>). pose proof (events_insert (data_copies loop) a bytes _ D Ha) as Hins.
  rewrite !map_app in Hins. apply app_inj_1 in Hins as [Hh Hq]; [|by rewrite !length_map].
  destruct (post_to_queue_cases current mutex (mkPost true true b i (ptr a)) ticks loop1) as [[Hl ->]|[Hf ->]].
  - eexists _, _. split; [done|]. split.
    + split; [done| |exact Hh]. cbn. rewrite app_assoc. by apply data_ok_add.
    + assert (Ee : event_of (<[a := bytes]> (data_copies loop)) (mkPost true true b i (ptr a)) = (b, i, Some bytes)).
      { cbv [event_of data_set post_data post_base post_id]. by rewrite lookup_insert_eq. }
      split; [|done]. unfold events. cbn. rewrite map_app, Hq. cbn [map]. rewrite Ee. apply posted; [done|done|].
      unfold lenZ in *. by rewrite length_map.
  - cbn. destruct (Z.eqb_spec a 0); [done|]. rewrite lookup_insert_eq. cbn. rewrite delete_insert_id by done. exists ESP_ERR_TIMEOUT, loop. split; [by destruct loop|]. split; [by apply step_ok_refl|]. split; [|done].
    apply queue_full; [done|done|]. unfold events, lenZ in *. by rewrite length_map.
Qed.

Lemma post_to_run held (current : Z) mutex b i d size (ticks : Z) loop : data_ok (held ++ queue loop) (data_copies loop) -> data_fits d size = true ->
  exists r loop', esp_event_post_to calloc idle current mutex b i d size ticks loop = Ok (r, loop') /\ step_ok held loop loop' /\
    answers (queue_size loop) mutex b i (sent_data d size) (events loop) r (events loop') /\ (r <> ESP_OK -> loop' = loop).
Proof.
  intros D Hf. unfold esp_event_post_to. unfold ESP_EVENT_ANY_BASE, ESP_EVENT_ANY_ID. destruct ((b =? 0) || (i =? -1)) eqn:Hc.
  { exists ESP_ERR_INVALID_ARG, loop. split; [done|]. split; [by apply step_ok_refl|]. split; [|done]. apply bad_event. lia. }
  assert (Hb : b <> 0) by lia. assert (Hi : i <> -1) by lia. destruct d as [bytes|]; [|by apply plain_post_run].
  cbn [sent_data]. destruct (size =? 0) eqn:Hs; [by apply plain_post_run|].
  destruct (calloc (data_copies loop)) as [a|] eqn:Ec.
  - destruct (calloc_fresh _ _ Ec) as [Ha Ha0]. unfold copy_in. cbn in Hf. apply andb_true_iff in Hf as [_ ->]. ostep. by apply copy_post_run.
  - exists ESP_ERR_NO_MEM, loop. split; [done|]. split; [by apply step_ok_refl|]. split; [by apply no_memory|done].
Qed.

(** What an interrupt handler posts: up to four bytes, padded with zeros. *)
Definition isr_data (d : option (list Z)) (size : Z) : option (list Z) :=
  match sent_data d size with Some bytes => Some (bytes ++ replicate (4 - length bytes) 0) | None => None end.

Inductive isr_answers (size : Z) (b i : Z) (d : option (list Z)) (dsize : Z) (E : list event) : Z -> list event -> Prop :=
  | isr_posted : b <> 0 -> i <> -1 -> dsize <= 4 -> lenZ E < size -> isr_answers size b i d dsize E ESP_OK (E ++ [(b, i, isr_data d dsize)])
  | isr_bad : b = 0 \/ i = -1 \/ 4 < dsize -> isr_answers size b i d dsize E ESP_ERR_INVALID_ARG E
  | isr_full : b <> 0 -> i <> -1 -> dsize <= 4 -> size <= lenZ E -> isr_answers size b i d dsize E ESP_FAIL E.

Lemma isr_post_run b i d size loop : data_ok (queue loop) (data_copies loop) -> data_fits d size = true ->
  exists r loop', esp_event_isr_post_to b i d size loop = Ok (r, loop') /\ step_ok [] loop loop' /\
    isr_answers (queue_size loop) b i d size (events loop) r (events loop') /\ (r <> ESP_OK -> loop' = loop).
Proof.
  intros D Hf. unfold esp_event_isr_post_to, ESP_EVENT_ANY_BASE, ESP_EVENT_ANY_ID. destruct ((b =? 0) || (i =? -1)) eqn:Hc.
  { exists ESP_ERR_INVALID_ARG, loop. split; [done|]. split; [by apply step_ok_refl|]. split; [|done]. apply isr_bad. lia. }
  destruct (Z.ltb_spec 4 size) as [Hs|Hs].
  { exists ESP_ERR_INVALID_ARG, loop. split; [done|]. split; [by apply step_ok_refl|]. split; [|done]. apply isr_bad. lia. }
  assert (exists p, (match d with
    | Some bytes => if size =? 0 then Ok (mkPost false false b i (ptr 0))
        else copy ← copy_in bytes size; Ok (mkPost false true b i (val (copy ++ replicate (4 - length copy) 0)))
    | None => Ok (mkPost false false b i (ptr 0)) end) = Ok p /\ post_ok p /\ owned p = None /\ data_allocated p = false /\
    forall m, event_of m p = (b, i, isr_data d size)) as (p & -> & Hp & Ho & Hal & He).
  { destruct d as [bytes|]; [|eexists; split; [done|]; split; [repeat split; cbn; lia || done|done]]. unfold isr_data, sent_data.
    destruct (size =? 0); [eexists; split; [done|]; split; [repeat split; cbn; lia || done|done]|].
    unfold copy_in. cbn in Hf. apply andb_true_iff in Hf as [_ ->]. eexists; split; [done|]; split; [repeat split; cbn; lia || done|done]. }
  ostep. destruct (Z.ltb_spec (lenZ (queue loop)) (queue_size loop)) as [Hl|Hl].
  - eexists _, _. split; [done|]. split; [split; [done|by apply data_ok_plain|done]|]. split; [|done]. unfold events. cbn. rewrite map_app. cbn. rewrite He.
    apply isr_posted; [lia|lia|done|]. unfold lenZ in *. by rewrite length_map.
  - exists ESP_FAIL, loop. unfold post_instance_delete. rewrite Hal. split; [done|]. split; [by apply step_ok_refl|]. split; [|done]. apply isr_full; [lia|lia|done|].
    unfold events, lenZ in *. by rewrite length_map.
Qed.
End calls.

(** ** Running the loop

    [rank]: a handler posts only events of a smaller rank than the one it runs
    for, so that a chain of posts ends. *)
Section run.
Context (any : Z).
Context (calloc : gmap Z (list Z) -> option Z) (calloc_fresh : forall m a, calloc m = Some a -> m !! a = None /\ a <> 0).
Context (react : executed -> list request) (rank : event -> nat).

Definition request_event (q : request) : event := (q_base q, q_id q, sent_data (q_data q) (q_size q)).
Definition reacts_down : Prop := forall x q, q ∈ react x ->
  data_fits (q_data q) (q_size q) = true /\ (rank (request_event q) < rank (x_base x, x_id x, x_data x))%nat.
Context (Hreact : reacts_down).
Implicit Types (loop : esp_event_loop_instance) (E : list event) (size : Z).

(** [E1] is [E] with events of a rank below [r] behind. *)
Definition grows size (r : nat) E E1 : Prop :=
  exists new, E1 = E ++ new /\ Forall (fun e => (rank e < r)%nat) new /\ (new = [] \/ lenZ E1 <= size).

Lemma grows_refl size r E : grows size r E E.
Proof. exists []. rewrite app_nil_r. split; [done|]. split; [constructor|by left]. Qed.

Lemma grows_trans size r E E1 E2 : grows size r E E1 -> grows size r E1 E2 -> grows size r E E2.
Proof.
  intros (n1 & -> & F1 & H1) (n2 & -> & F2 & H2). exists (n1 ++ n2). rewrite app_assoc. split; [done|]. split; [by apply Forall_app|].
  destruct H2 as [->|H2]; [|by right]. rewrite !app_nil_r. by destruct H1 as [->|H1]; [left|right].
Qed.

Lemma answers_grows size mutex b i d E r E1 k : answers size mutex b i d E r E1 -> (rank (b, i, d) < k)%nat -> grows size k E E1.
Proof.
  intros [Hb Hi Hl|Hb|Hb Hi Hl|Hb Hi Hd] Hr; try apply grows_refl. exists [(b, i, d)]. split; [done|]. split; [by constructor|]. right.
  unfold lenZ in *. rewrite length_app. cbn. lia.
Qed.

(** A bound of the events that can follow from those in the queue. *)
Definition weight size E : nat := sum_list_with (fun e => (S (Z.to_nat size)) ^ rank e)%nat E.

Lemma weight_app size E1 E2 : weight size (E1 ++ E2) = (weight size E1 + weight size E2)%nat.
Proof. apply sum_list_with_app. Qed.

Lemma weight_below size r new : Forall (fun e => (rank e < S r)%nat) new -> (weight size new <= length new * S (Z.to_nat size) ^ r)%nat.
Proof.
  induction 1 as [|e new He F IH]; [done|]. unfold weight in *. cbn [sum_list_with length].
  assert (S (Z.to_nat size) ^ rank e <= S (Z.to_nat size) ^ r)%nat by (apply Nat.pow_le_mono_r; lia). lia.
Qed.

Lemma grows_weight size e E E1 : grows size (rank e) E E1 -> (weight size E1 < weight size (e :: E))%nat.
Proof.
  intros (new & -> & F & H). rewrite weight_app. unfold weight at 3. cbn [sum_list_with]. fold (weight size E).
  enough (weight size new < S (Z.to_nat size) ^ rank e)%nat by lia. destruct H as [->|H].
  { cbn. pose proof (Nat.pow_nonzero (S (Z.to_nat size)) (rank e)). lia. }
  destruct (rank e) as [|r]; [destruct F as [|e' new He F]; [cbn; lia|lia]|]. apply (weight_below size) in F.
  assert (length new <= Z.to_nat size)%nat by (unfold lenZ in H; rewrite length_app in H; lia).
  pose proof (Nat.pow_nonzero (S (Z.to_nat size)) r). rewrite Nat.pow_succ_r'. nia.
Qed.

Lemma step_ok_trans held loop loop1 loop2 : step_ok held loop loop1 -> step_ok held loop1 loop2 -> step_ok held loop loop2.
Proof.
  intros [(K1 & K2 & K3 & K4) D1 H1] [(L1 & L2 & L3 & L4) D2 H2]. split; [|done|congruence]. repeat split; congruence.
Qed.

Lemma handler_posts_run held (current : Z) r qs : Forall (fun q => data_fits (q_data q) (q_size q) = true /\ (rank (request_event q) < r)%nat) qs ->
  forall loop, data_ok (held ++ queue loop) (data_copies loop) -> exists loop',
    handler_posts calloc idle current qs loop = Ok loop' /\ step_ok held loop loop' /\
    spec_posts (queue_size loop) (events loop) qs (events loop') /\ grows (queue_size loop) r (events loop) (events loop').
Proof.
  induction 1 as [|q qs [Hf Hr] F IH]; intros loop D.
  { exists loop. split; [done|]. split; [by apply step_ok_refl|]. split; [constructor|apply grows_refl]. }
  destruct (post_to_run calloc calloc_fresh held current true (q_base q) (q_id q) (q_data q) (q_size q) (q_ticks q) loop D Hf) as (c & loop1 & E & S1 & A & _).
  destruct (IH loop1 (so_data _ _ _ S1)) as (loop2 & E2 & S2 & P & G). destruct (so_kept _ _ _ S1) as (_ & K2 & _). rewrite K2 in P, G.
  exists loop2. cbn [handler_posts]. rewrite E. ostep. split; [exact E2|]. split; [eapply step_ok_trans; [exact S1|exact S2]|]. split; [by econstructor|].
  eapply grows_trans; [|exact G]. eapply answers_grows; [exact A|exact Hr].
Qed.

(** The handler finds the bytes of the event at its pointer. *)
Lemma handler_execute_run (current : Z) h p loop : data_ok ([p] ++ queue loop) (data_copies loop) ->
  let e := event_of (data_copies loop) p in let x := mkExecuted (handler h) (harg h) e.1.1 e.1.2 e.2 in exists loop',
    handler_execute calloc idle react current h p loop = Ok (x, loop') /\ step_ok [p] loop loop' /\
    spec_posts (queue_size loop) (events loop) (react x) (events loop') /\ grows (queue_size loop) (rank e) (events loop) (events loop').
Proof.
  intros D e x. pose proof D as [D1 D2 D3]. apply Forall_cons in D1 as [(_ & _ & Hp) _]. unfold handler_execute.
  assert (Hd : (if data_set p then
            match data_allocated p, post_data p with
            | true, ptr a => match data_copies loop !! a with Some bytes => Ok (Some bytes) | None => Fault end
            | false, val bytes => Ok (Some bytes)
            | _, _ => Fault
            end
          else Ok None) = Ok e.2).
  { subst x e. unfold event_of. destruct p as [al st b i d]. cbn in *. destruct st, al, d as [bytes|a]; try done. cbn.
    assert (is_Some (data_copies loop !! a)) as [bytes ->] by (apply D3; left). done. }
  rewrite Hd. ostep. change (mkExecuted _ _ _ _ _) with x.
  destruct (handler_posts_run [p] current (rank e) (react x)) with (loop := loop) as (loop' & E & S1 & P & G); [|exact D|].
  { apply Forall_forall. intros q Hq. destruct (Hreact x q Hq) as [H1 H2]. split; [done|]. change (x_base x, x_id x, x_data x) with (e.1.1, e.1.2, e.2) in H2.
    by rewrite <- !surjective_pairing in H2. }
  exists loop'. rewrite E. by ostep.
Qed.

Lemma execute_all_run (current : Z) p hs : forall loop, data_ok ([p] ++ queue loop) (data_copies loop) ->
  let e := event_of (data_copies loop) p in exists xs loop',
    execute_all calloc idle react current hs p loop = Ok (xs, loop') /\ step_ok [p] loop loop' /\
    spec_handlers react (queue_size loop) e (events loop) hs xs (events loop') /\ grows (queue_size loop) (rank e) (events loop) (events loop').
Proof.
  induction hs as [|h hs IH]; intros loop D e.
  { exists [], loop. split; [done|]. split; [by apply step_ok_refl|]. split; [constructor|apply grows_refl]. }
  destruct (handler_execute_run current h p loop D) as (loop1 & E & S1 & P & G). fold e in E, P, G.
  destruct (IH loop1 (so_data _ _ _ S1)) as (xs & loop2 & E2 & S2 & H2 & G2). destruct (so_kept _ _ _ S1) as (_ & K2 & _).
  assert (He : event_of (data_copies loop1) p = e) by (pose proof (so_held _ _ _ S1) as He; by apply (f_equal (hd (0, 0, None))) in He).
  rewrite K2, He in H2, G2.
  eexists _, loop2. cbn [execute_all]. rewrite E. ostep. rewrite E2. ostep. split; [done|]. split; [eapply step_ok_trans; [exact S1|exact S2]|].
  split; [econstructor; [done|exact P|exact H2]|eapply grows_trans; [exact G|exact G2]].
Qed.

(** The lists reach, for every event, the handlers of [regs]. *)
Definition registered loop (regs : list entry) : Prop :=
  forall b i, i <> -1 -> matching_handlers b i (loop_nodes loop) = map snd (selected any b i regs).

Record ran (regs : list entry) loop loop' : Prop := {
  rn_nodes : loop_nodes loop' = loop_nodes loop;
  rn_size : queue_size loop' = queue_size loop;
  rn_task : task loop' = task loop;
  rn_data : data_ok (queue loop') (data_copies loop')
}.

(** One event, from the queue to the deletion of its data. *)
Lemma event_run regs (current : Z) p q loop : queue loop = p :: q -> data_ok (queue loop) (data_copies loop) -> registered loop regs ->
  let e := event_of (data_copies loop) p in
  let taken := loop <| queue := q |> <| running_task := current |> in exists xs loop1 loop2,
    execute_all calloc idle react current (matching_handlers (post_base p) (post_id p) (loop_nodes taken)) p taken = Ok (xs, loop1) /\
    post_instance_delete p loop1 = Ok loop2 /\ ran regs loop loop2 /\
    spec_handlers react (queue_size loop) e (events taken) (map snd (selected any e.1.1 e.1.2 regs)) xs (events loop2) /\
    grows (queue_size loop) (rank e) (events taken) (events loop2).
Proof.
  intros Eq D R e taken. rewrite Eq in D. pose proof D as [D1 _ _]. apply Forall_cons in D1 as [(_ & Hi & _) _].
  destruct (execute_all_run current p (matching_handlers (post_base p) (post_id p) (loop_nodes taken)) taken D) as (xs & loop1 & E & S1 & H & G).
  destruct (so_kept _ _ _ S1) as (K1 & K2 & K3 & _). destruct (delete_first p (queue loop1) loop1 (so_data _ _ _ S1)) as (copies & E2 & D2 & M).
  assert (Ev : events (loop1 <| data_copies := copies |>) = events loop1) by exact M.
  exists xs, loop1, (loop1 <| data_copies := copies |>). rewrite Ev. split; [done|]. split; [done|]. split; [split; [exact K1|exact K2|exact K3|exact D2]|].
  split; [|exact G]. change (loop_nodes taken) with (loop_nodes loop) in H. by rewrite (R _ _ Hi) in H.
Qed.

Lemma run_loop_run regs (tick : nat -> Z) (current ticks_to_run : Z) : forall fuel k marker remaining loop,
  data_ok (queue loop) (data_copies loop) -> registered loop regs -> (weight (queue_size loop) (events loop) <= fuel)%nat ->
  exists xs loop', run_loop calloc idle react fuel tick k current ticks_to_run marker remaining loop = Ok (xs, loop') /\ ran regs loop loop' /\
    spec_loop any react (queue_size loop) regs (negb (ticks_to_run =? portMAX_DELAY)) (events loop) xs (events loop').
Proof.
  induction fuel as [|fuel IH]; intros k marker remaining loop D R Hf; (destruct (queue loop) as [|p q] eqn:Eq;
    [exists [], loop; split; [by cbn; unfold idle; rewrite Eq; cbn; rewrite Eq|]; split; [split; rewrite ?Eq; done|]; unfold events; rewrite Eq; constructor|]).
  { unfold events in Hf. rewrite Eq in Hf. unfold weight in Hf. cbn [map sum_list_with] in Hf.
    pose proof (Nat.pow_nonzero (S (Z.to_nat (queue_size loop))) (rank (event_of (data_copies loop) p))). lia. }
  rewrite <- Eq in D. destruct (event_run regs current p q loop Eq D R) as (xs & loop1 & loop2 & E1 & E2 & S2 & H & G).
  pose proof (grows_weight _ _ _ _ G) as Hw. destruct S2 as [K1 K2 K3 D2]. set (e := event_of (data_copies loop) p) in *.
  assert (Ee : events loop = e :: events (loop <| queue := q |> <| running_task := current |>)) by (unfold events; by rewrite Eq).
  cbn [run_loop]. rewrite Eq. cbn [is_nil]. rewrite Eq. rewrite E1. ostep. rewrite E2. ostep. rewrite Ee in Hf |- *.
  destruct (negb (ticks_to_run =? portMAX_DELAY) && _) eqn:Hstop.
  - apply andb_true_iff in Hstop as [-> _]. exists xs, loop2. split; [done|]. split; [by split|]. by apply sl_expired.
  - set (loop3 := loop2 <| running_task := 0 |>). edestruct (IH (S k)) with (loop := loop3) as (ys & loop4 & E4 & [L1 L2 L3 L4] & H4).
    + exact D2. + intros b i Hi. change (loop_nodes loop3) with (loop_nodes loop2). rewrite K1. by apply R.
    + change (queue_size loop3) with (queue_size loop2). change (events loop3) with (events loop2). rewrite K2. lia.
    + rewrite E4. ostep. eexists _, loop4. split; [done|]. split; [split; [by rewrite L1|by rewrite L2|by rewrite L3|done]|].
      change (queue_size loop3) with (queue_size loop2) in H4. rewrite K2 in H4. by eapply sl_step.
Qed.
End run.

(** ** Histories *)
Inductive event_call :=
  | Register (base id h arg : Z) (mem : nat)
  | Unregister (base id h : Z)
  | Post (current : Z) (mutex : bool) (base id : Z) (data : option (list Z)) (size ticks : Z)
  | IsrPost (base id : Z) (data : option (list Z)) (size : Z)
  | Run (current ticks_to_run : Z) (tick : nat -> Z).

Section history.
Context (any : Z).
Context (calloc : gmap Z (list Z) -> option Z).
Context (react : executed -> list request) (rank : event -> nat).
Implicit Types (loop : esp_event_loop_instance) (regs : list entry) (E : list event).

(** A run with as much fuel as there can be events. *)
Definition event_loop_call (c : event_call) loop : outcome (Z * list executed * esp_event_loop_instance) :=
  match c with
  | Register b i h a mem => '(r, loop) ← esp_event_handler_register_with any mem b i h a loop; Ok (r, [], loop)
  | Unregister b i h => '(r, loop) ← esp_event_handler_unregister_with any b i h loop; Ok (r, [], loop)
  | Post t m b i d n w => '(r, loop) ← esp_event_post_to calloc idle t m b i d n w loop; Ok (r, [], loop)
  | IsrPost b i d n => '(r, loop) ← esp_event_isr_post_to b i d n loop; Ok (r, [], loop)
  | Run t w tick => esp_event_loop_run calloc idle react (weight rank (queue_size loop) (events loop)) tick t w loop
  end.

(** The base a handler is registered for: [ESP_EVENT_ANY_BASE] is any base. *)
Definition key_of (b i : Z) : key := (if b =? 0 then any else b, i).
Definition bad_key (b i : Z) : bool := (b =? 0) && negb (i =? -1).

Inductive spec_call (size : Z) regs E : event_call -> Z * list executed -> list entry -> list event -> Prop :=
  | s_registered b i h a mem : bad_key b i = false ->
      spec_call size regs E (Register b i h a mem) (ESP_OK, []) (regs ++ [(key_of b i, mkHandler h a)]) E
  | s_register_bad b i h a mem : bad_key b i = true -> spec_call size regs E (Register b i h a mem) (ESP_ERR_INVALID_ARG, []) regs E
  | s_register_no_mem b i h a mem : (mem < 4)%nat -> spec_call size regs E (Register b i h a mem) (ESP_ERR_NO_MEM, []) regs E
  | s_unregistered b i h : bad_key b i = false -> spec_call size regs E (Unregister b i h) (ESP_OK, []) (without (key_of b i) h regs) E
  | s_unregister_bad b i h : bad_key b i = true -> spec_call size regs E (Unregister b i h) (ESP_FAIL, []) regs E
  | s_post t m b i d n w r E' : answers size m b i (sent_data d n) E r E' -> spec_call size regs E (Post t m b i d n w) (r, []) regs E'
  | s_isr_post b i d n r E' : isr_answers size b i d n E r E' -> spec_call size regs E (IsrPost b i d n) (r, []) regs E'
  | s_run t w tick xs E' : spec_loop any react size regs (negb (w =? portMAX_DELAY)) E xs E' ->
      spec_call size regs E (Run t w tick) (ESP_OK, xs) regs E'.

(** A handler is not registered twice for the same base and id, and the data of a
    post are there.  [names]: the registrations asked for and not withdrawn. *)
Definition legal (c : event_call) (names : list (key * Z)) : bool :=
  match c with
  | Register b i h _ _ => negb (h =? 0) && negb (b =? any) && bool_decide ((key_of b i, h) ∉ names)
  | Unregister b _ h => negb (h =? 0) && negb (b =? any)
  | Post _ _ _ _ d n _ | IsrPost _ _ d n => data_fits d n
  | Run _ _ _ => true
  end.
Definition next_names (c : event_call) (names : list (key * Z)) : list (key * Z) :=
  match c with
  | Register b i h _ _ => (key_of b i, h) :: names
  | Unregister b i h => if bad_key b i then names else filter (fun n => n <> (key_of b i, h)) names
  | _ => names
  end.
Fixpoint legal_history (cs : list event_call) (names : list (key * Z)) : bool :=
  match cs with [] => true | c :: cs => legal c names && legal_history cs (next_names c names) end.

Fixpoint run_history (cs : list event_call) loop : outcome (list (Z * list executed) * esp_event_loop_instance) :=
  match cs with
  | [] => Ok ([], loop)
  | c :: cs => '(r, xs, loop) ← event_loop_call c loop; '(rs, loop) ← run_history cs loop; Ok ((r, xs) :: rs, loop)
  end.

Inductive spec_history (size : Z) : list entry -> list event -> list event_call -> list (Z * list executed) -> list entry -> list event -> Prop :=
  | history_nil regs E : spec_history size regs E [] [] regs E
  | history_cons regs E c cs r regs1 E1 rs regs2 E2 : spec_call size regs E c r regs1 E1 ->
      spec_history size regs1 E1 cs rs regs2 E2 -> spec_history size regs E (c :: cs) (r :: rs) regs2 E2.

(** ** The invariant of a loop *)
Record loop_inv regs loop : Prop := {
  li_nodes : nodes_ok any (loop_nodes loop);
  li_unique : unique (entries any (loop_nodes loop));
  li_regs : forall b i, selected any b i (entries any (loop_nodes loop)) = selected any b i regs;
  li_data : data_ok (queue loop) (data_copies loop)
}.

Lemma inv_registered regs loop : loop_inv regs loop -> registered any loop regs.
Proof. intros [H1 _ H3 _] b i Hi. by rewrite (matching_selected any) by done; rewrite H3. Qed.

(** Both sides hold the same registrations. *)
Lemma inv_names regs loop e : loop_inv regs loop -> e ∈ entries any (loop_nodes loop) -> e ∈ regs.
Proof.
  intros [_ _ H3 _] He. assert (Hs : e ∈ selected any e.1.1 e.1.2 (entries any (loop_nodes loop))).
  { apply list_elem_of_filter. split; [|done]. unfold key_matches. by rewrite !Z.eqb_refl, !orb_true_r. }
  rewrite H3 in Hs. by apply list_elem_of_filter in Hs as [_ ?].
Qed.

Lemma selected_without b i k h (regs : list entry) : selected any b i (without k h regs) = without k h (selected any b i regs).
Proof. unfold selected, without. rewrite !list_filter_filter. apply list_filter_iff. intros x. tauto. Qed.


Lemma key_of_cases b i : bad_key b i = false -> b <> any -> ((key_of b i).1 = any -> (key_of b i).2 = ESP_EVENT_ANY_ID).
Proof. unfold bad_key, key_of. destruct (Z.eqb_spec b 0); cbn; [|congruence]. intros H _ _. unfold ESP_EVENT_ANY_ID. lia. Qed.

Definition known (names : list (key * Z)) regs : Prop := forall e, e ∈ regs -> name_of e ∈ names.

Lemma register_follows b i h a mem names regs loop : loop_inv regs loop -> known names regs -> legal (Register b i h a mem) names = true ->
  exists r loop' regs', esp_event_handler_register_with any mem b i h a loop = Ok (r, loop') /\ loop_inv regs' loop' /\
    known (next_names (Register b i h a mem) names) regs' /\ queue loop' = queue loop /\ data_copies loop' = data_copies loop /\
    queue_size loop' = queue_size loop /\ spec_call (queue_size loop) regs (events loop) (Register b i h a mem) (r, []) regs' (events loop) /\
    (r <> ESP_OK -> loop' = loop).
Proof.
  intros I K L. cbn [legal] in L. rewrite !andb_true_iff in L. destruct L as [[Lh Lb] Ln%bool_decide_eq_true].
  assert (K' : known (next_names (Register b i h a mem) names) regs) by (intros e He; right; by apply K).
  unfold esp_event_handler_register_with. rewrite cassert_bind by done.
  change ((b =? ESP_EVENT_ANY_BASE) && negb (i =? ESP_EVENT_ANY_ID)) with (bad_key b i). destruct (bad_key b i) eqn:Hb.
  { exists ESP_ERR_INVALID_ARG, loop, regs. repeat (split; [done|]). split; [by apply s_register_bad|done]. }
  change (if b =? ESP_EVENT_ANY_BASE then any else b) with (key_of b i).1. pose proof I as [H1 H2 H3 H4].
  assert (Hh : ~ holds (key_of b i) h (entries any (loop_nodes loop))).
  { intros (x & Hx & <-). apply Ln. apply (K (key_of b i, x)). by eapply inv_names. }
  destruct (nodes_add any mem (loop_nodes loop) (key_of b i).1 i h a H1 Hh) as [E|(nodes & E & Hok & P)].
  { intros Hk. apply (key_of_cases b i Hb ltac:(lia) Hk). }
  - exists ESP_ERR_NO_MEM, loop, regs. rewrite E. split; [by destruct loop|]. repeat (split; [done|]). split; [|done]. apply s_register_no_mem.
    destruct (decide (mem < 4)%nat); [done|]. pose proof (nodes_add_enough any mem (loop_nodes loop) (key_of b i).1 i h a ltac:(lia)) as E2.
    rewrite E in E2. done.
  - exists ESP_OK, (loop <| loop_nodes := nodes |>), (regs ++ [(key_of b i, mkHandler h a)]). rewrite E. split; [done|]. split.
    + split; [done| | |done]; change (loop_nodes (loop <| loop_nodes := nodes |>)) with nodes.
      * destruct P as (E1 & E2 & P1 & P2 & _). rewrite P2. unfold unique. rewrite P1 in H2. rewrite map_app. cbn.
        apply (NoDup_Permutation_proper _ (name_of (key_of b i, mkHandler h a) :: map name_of (E1 ++ E2))); [rewrite map_app; symmetry; apply Permutation_middle|].
        constructor; [|done]. rewrite <- P1. intros Hin. apply Hh. by apply holds_name.
      * intros b' i'. rewrite (placed_selected any _ _ _ b' i' P), !selected_app. by rewrite H3.
    + split; [intros e [He| ->%list_elem_of_singleton]%elem_of_app; [by apply K'|left]|]. repeat (split; [done|]). split; [by apply s_registered|done].
Qed.

Lemma unregister_follows b i h names regs loop : loop_inv regs loop -> known names regs -> legal (Unregister b i h) names = true ->
  exists r loop' regs', esp_event_handler_unregister_with any b i h loop = Ok (r, loop') /\ loop_inv regs' loop' /\
    known (next_names (Unregister b i h) names) regs' /\ queue loop' = queue loop /\ data_copies loop' = data_copies loop /\
    queue_size loop' = queue_size loop /\ spec_call (queue_size loop) regs (events loop) (Unregister b i h) (r, []) regs' (events loop) /\
    (r <> ESP_OK -> loop' = loop).
Proof.
  intros I K L. cbn [legal] in L. rewrite !andb_true_iff in L. destruct L as [Lh Lb]. pose proof I as [H1 H2 H3 H4].
  unfold esp_event_handler_unregister_with, next_names. rewrite cassert_bind by done.
  change ((b =? ESP_EVENT_ANY_BASE) && negb (i =? ESP_EVENT_ANY_ID)) with (bad_key b i). destruct (bad_key b i) eqn:Hb.
  { exists ESP_FAIL, loop, regs. repeat (split; [done|]). split; [by apply s_unregister_bad|done]. }
  change (if b =? ESP_EVENT_ANY_BASE then any else b) with (key_of b i).1. cbn [negb].
  destruct (nodes_removed any (loop_nodes loop) (key_of b i).1 i h H1 H2) as [En Hn].
  { intros Hk. apply (key_of_cases b i Hb ltac:(lia) Hk). }
  change ((key_of b i).1, i) with (key_of b i) in En. set (nodes := loop_nodes_remove _ _ _ _ _) in *.
  exists ESP_OK, (loop <| loop_nodes := nodes |>), (without (key_of b i) h regs). split; [done|]. split; [split|split].
  - done.
  - change (unique (entries any nodes)). rewrite En. by apply unique_without.
  - intros b' i'. change (selected any b' i' (entries any nodes) = selected any b' i' (without (key_of b i) h regs)).
    by rewrite En, !selected_without, H3.
  - done.
  - intros e [He1 He2]%list_elem_of_filter. apply list_elem_of_filter. split; [|by apply K]. intros [= E1 E2]. by apply He1.
  - repeat (split; [done|]). split; [by apply s_unregistered|done].
Qed.

Context (calloc_fresh : forall m a, calloc m = Some a -> m !! a = None /\ a <> 0) (Hreact : reacts_down react rank).

Lemma inv_step held regs loop loop' : loop_inv regs loop -> kept loop loop' -> data_ok (held ++ queue loop') (data_copies loop') -> held = [] ->
  loop_inv regs loop'.
Proof. intros [H1 H2 H3 H4] (K1 & _) D ->. by split; rewrite ?K1. Qed.

Lemma event_call_follows c names regs loop : loop_inv regs loop -> known names regs -> legal c names = true ->
  exists r xs loop' regs', event_loop_call c loop = Ok (r, xs, loop') /\ loop_inv regs' loop' /\ known (next_names c names) regs' /\
    queue_size loop' = queue_size loop /\ spec_call (queue_size loop) regs (events loop) c (r, xs) regs' (events loop') /\
    (r <> ESP_OK -> loop' = loop).
Proof.
  intros I K L. destruct c as [b i h a mem|b i h|t m b i d n w|b i d n|t w tick].
  - destruct (register_follows b i h a mem names regs loop I K L) as (r & loop' & regs' & E & I' & K' & Q & D & Hs & S & F).
    exists r, [], loop', regs'. unfold event_loop_call. rewrite E. repeat (split; [done|]). split; [|done]. unfold events at 2. by rewrite Q, D.
  - destruct (unregister_follows b i h names regs loop I K L) as (r & loop' & regs' & E & I' & K' & Q & D & Hs & S & F).
    exists r, [], loop', regs'. unfold event_loop_call. rewrite E. repeat (split; [done|]). split; [|done]. unfold events at 2. by rewrite Q, D.
  - destruct (post_to_run calloc calloc_fresh [] t m b i d n w loop (li_data _ _ I) L) as (r & loop' & E & [Hk D _] & A & F).
    exists r, [], loop', regs. unfold event_loop_call. rewrite E. split; [done|]. split; [by apply (inv_step [] regs loop)|]. split; [done|].
    split; [apply Hk|]. split; [by apply s_post|done].
  - destruct (isr_post_run b i d n loop (li_data _ _ I) L) as (r & loop' & E & [Hk D _] & A & F).
    exists r, [], loop', regs. unfold event_loop_call. rewrite E. split; [done|]. split; [by apply (inv_step [] regs loop)|]. split; [done|].
    split; [apply Hk|]. split; [by apply s_isr_post|done].
  - destruct (run_loop_run any calloc calloc_fresh react rank Hreact regs tick t w (weight rank (queue_size loop) (events loop)) 1 (tick 0%nat) w loop
      (li_data _ _ I) (inv_registered _ _ I) ltac:(done)) as (xs & loop' & E & [R1 R2 R3 R4] & S).
    exists ESP_OK, xs, loop', regs. unfold event_loop_call, esp_event_loop_run. rewrite E. split; [done|]. pose proof I as [H1 H2 H3 H4].
    split; [by split; rewrite ?R1|]. split; [done|]. split; [done|]. split; [by apply s_run|done].
Qed.

Lemma event_history_follows cs : forall names regs loop, loop_inv regs loop -> known names regs -> legal_history cs names = true ->
  exists rs loop' regs', run_history cs loop = Ok (rs, loop') /\ loop_inv regs' loop' /\ queue_size loop' = queue_size loop /\
    spec_history (queue_size loop) regs (events loop) cs rs regs' (events loop').
Proof.
  induction cs as [|c cs IH]; intros names regs loop I K L; [exists [], loop, regs; repeat (split; [done|]); constructor|].
  cbn [legal_history] in L. apply andb_true_iff in L as [L1 L2].
  destruct (event_call_follows c names regs loop I K L1) as (r & xs & loop1 & regs1 & E & I1 & K1 & Hs & S & _).
  destruct (IH (next_names c names) regs1 loop1 I1 K1 L2) as (rs & loop2 & regs2 & E2 & I2 & Hs2 & S2). rewrite Hs in *.
  exists ((r, xs) :: rs), loop2, regs2. cbn [run_history]. rewrite E. ostep. rewrite E2. ostep. split; [done|]. split; [done|]. split; [done|].
  by econstructor.
Qed.
End history.

Lemma new_loop_inv any loop : queue loop = [] -> loop_nodes loop = [] -> data_copies loop = ∅ -> loop_inv any [] loop.
Proof.
  intros E1 E2 E3. split; rewrite ?E2; [constructor|constructor|done|]. rewrite E1, E3. apply data_ok_nil.
Qed.

(** ** Properties *)

(** C9. Every history of legal calls on a new loop behaves as a list of
    registrations and a queue of events with their data: an event that is
    dispatched reaches the handlers registered for it, for its base or for every
    event, in the order of their registration, and each finds the bytes posted;
    events leave in the order they came, also those that handlers post.  Nothing
    is read after it is freed, and at the end the copies on the heap are exactly
    those of the events still queued. *)
Theorem event_loop_refines any calloc react rank cs loop :
  (forall m a, calloc m = Some a -> m !! a = None /\ a <> 0) -> reacts_down react rank ->
  queue loop = [] -> loop_nodes loop = [] -> data_copies loop = ∅ -> legal_history any cs [] = true ->
  exists rs loop' regs, run_history any calloc react rank cs loop = Ok (rs, loop') /\
    spec_history any react (queue_size loop) [] [] cs rs regs (events loop') /\
    (forall b i, i <> -1 -> matching_handlers b i (loop_nodes loop') = map snd (selected any b i regs)) /\
    NoDup (omap owned (queue loop')) /\ forall a, is_Some (data_copies loop' !! a) <-> a ∈ omap owned (queue loop').
Proof.
  intros Hc Hr E1 E2 E3 L. assert (K : known [] []) by by intros e ?%elem_of_nil.
  destruct (event_history_follows any calloc react rank Hc Hr cs [] [] loop (new_loop_inv any loop E1 E2 E3) K L) as (rs & loop' & regs & E & I & Hs & S).
  unfold events at 1 in S. rewrite E1 in S. exists rs, loop', regs. split; [done|]. split; [done|]. split; [by apply (inv_registered any regs)|].
  destruct (li_data _ _ _ I). by split.
Qed.

(** C10. Running a loop terminates when the handlers post only events of a smaller
    rank, within a bound that its queue gives: all that is queued, and all that
    the handlers post, is dispatched, unless the time ends after an event. *)
Theorem event_loop_run_terminates any calloc react rank regs loop fuel tick current ticks_to_run :
  (forall m a, calloc m = Some a -> m !! a = None /\ a <> 0) -> reacts_down react rank -> loop_inv any regs loop ->
  (weight rank (queue_size loop) (events loop) <= fuel)%nat ->
  exists xs loop', esp_event_loop_run calloc idle react fuel tick current ticks_to_run loop = Ok (ESP_OK, xs, loop') /\ loop_inv any regs loop' /\
    spec_loop any react (queue_size loop) regs (negb (ticks_to_run =? portMAX_DELAY)) (events loop) xs (events loop').
Proof.
  intros Hc Hr I Hf. destruct (run_loop_run any calloc Hc react rank Hr regs tick current ticks_to_run fuel 1 (tick 0%nat) ticks_to_run loop
    (li_data _ _ _ I) (inv_registered _ _ _ I) Hf) as (xs & loop' & E & [R1 R2 R3 R4] & S).
  exists xs, loop'. unfold esp_event_loop_run. rewrite E. split; [done|]. pose proof I as [H1 H2 H3 H4]. split; [by split; rewrite ?R1|done].
Qed.

(** C39. For handlers that only post events, of a smaller rank than the one they handle,
    a legal call never fails an assertion or reads what is not there, and when
    it answers an error, for want of memory, of room in the queue or of a valid
    event, the loop is exactly as before.  Handlers that register or unregister
    handlers while they run are outside. *)
Theorem event_errors_change_nothing any calloc react rank c names regs loop :
  (forall m a, calloc m = Some a -> m !! a = None /\ a <> 0) -> reacts_down react rank ->
  loop_inv any regs loop -> known names regs -> legal any c names = true ->
  exists r xs loop', event_loop_call any calloc react rank c loop = Ok (r, xs, loop') /\ (r <> ESP_OK -> loop' = loop).
Proof.
  intros Hc Hr I K L. destruct (event_call_follows any calloc react rank Hc Hr c names regs loop I K L) as (r & xs & loop' & _ & E & _ & _ & _ & _ & F).
  by exists r, xs, loop'.
Qed.

(** ** Examples *)

(** A heap with two blocks, and a handler that answers event 1 with event 2. *)
Definition two_blocks (m : gmap Z (list Z)) : option Z :=
  if bool_decide (m !! 100 = None) then Some 100 else if bool_decide (m !! 200 = None) then Some 200 else None.
Definition answer (x : executed) : list request :=
  if (x_handler x =? 8) && (x_id x =? 1) then [mkRequest (x_base x) 2 None 0 0] else [].
Definition id_rank (e : event) : nat := if e.1.2 =? 1 then 1 else 0.

Lemma two_blocks_fresh m a : two_blocks m = Some a -> m !! a = None /\ a <> 0.
Proof. unfold two_blocks. repeat case_bool_decide; intros; simplify_eq; by split. Qed.

Lemma answer_down : reacts_down answer id_rank.
Proof.
  intros x q. unfold answer. destruct ((x_handler x =? 8) && (x_id x =? 1)) eqn:E; [|by intros ?%elem_of_nil]. intros ->%list_elem_of_singleton.
  split; [done|]. apply andb_true_iff in E as [_ E]. unfold id_rank. cbn. rewrite E. lia.
Qed.

Definition new_loop : esp_event_loop_instance := mkLoop [] 3 0 0 [] ∅.
Definition some_calls : list event_call :=
  [Register 5 1 8 10 9; Register 0 (-1) 9 20 9; Register 5 (-1) 11 30 0; Register 5 (-1) 10 30 9; Register 0 4 9 0 9;
   Post 1 true 5 1 (Some [1; 2; 3]) 2 0; IsrPost 5 3 (Some [7]) 1; Post 1 true 0 1 None 0 0; Run 1 portMAX_DELAY (fun _ => 0);
   Unregister 0 (-1) 9; Post 1 true 5 3 None 0 0; Run 1 portMAX_DELAY (fun _ => 0); Post 1 true 5 1 (Some [4]) 1 0].

Lemma event_loop_refines_witness : exists rs loop' regs, run_history 77 two_blocks answer id_rank some_calls new_loop = Ok (rs, loop') /\
  spec_history 77 answer 3 [] [] some_calls rs regs (events loop') /\
  rs !! 8%nat = Some (ESP_OK, [mkExecuted 8 10 5 1 (Some [1; 2]); mkExecuted 9 20 5 1 (Some [1; 2]); mkExecuted 10 30 5 1 (Some [1; 2]);
    mkExecuted 9 20 5 3 (Some [7; 0; 0; 0]); mkExecuted 10 30 5 3 (Some [7; 0; 0; 0]); mkExecuted 9 20 5 2 None; mkExecuted 10 30 5 2 None]) /\
  rs !! 11%nat = Some (ESP_OK, [mkExecuted 10 30 5 3 None]).
Proof.
  destruct (event_loop_refines 77 two_blocks answer id_rank some_calls new_loop) as (rs & loop' & regs & E & S & _);
    [exact two_blocks_fresh|exact answer_down|reflexivity|reflexivity|reflexivity|vm_compute; reflexivity|].
  exists rs, loop', regs. split; [exact E|]. split; [exact S|]. vm_compute in E. injection E as <- <-. by split.
Defined.

(** A loop with a handler and two events. *)
Definition busy_loop : esp_event_loop_instance :=
  mkLoop [mkPost true true 5 1 (ptr 100); mkPost false false 5 3 (ptr 0)] 3 0 0
    [mkLoopNode [] [mkBaseNode 5 [] [mkIdNode 1 [mkHandler 8 10]]]] {[100 := [1; 2]]}.

Lemma busy_loop_inv : loop_inv 77 [((5, 1), mkHandler 8 10)] busy_loop.
Proof.
  split.
  - constructor; [|constructor]. constructor; [|constructor]. split; [done|]. split; [apply NoDup_singleton|by constructor].
  - apply NoDup_singleton.
  - done.
  - split; [repeat constructor; cbn; lia|apply NoDup_singleton|]. intros a. cbn. rewrite list_elem_of_singleton. split.
    + intros [bytes [-> _]%lookup_singleton_Some]. done.
    + intros ->. by exists [1; 2].
Qed.

Lemma event_loop_run_terminates_witness : exists xs loop', esp_event_loop_run two_blocks idle answer 9 (fun _ => 0) 1 portMAX_DELAY busy_loop = Ok (ESP_OK, xs, loop') /\
  loop_inv 77 [((5, 1), mkHandler 8 10)] loop' /\ xs = [mkExecuted 8 10 5 1 (Some [1; 2])].
Proof.
  destruct (event_loop_run_terminates 77 two_blocks answer id_rank [((5, 1), mkHandler 8 10)] busy_loop 9 (fun _ => 0) 1 portMAX_DELAY
    two_blocks_fresh answer_down busy_loop_inv) as (xs & loop' & E & I & _); [apply Nat.leb_le; vm_compute; reflexivity|].
  exists xs, loop'. split; [exact E|]. split; [exact I|]. vm_compute in E. by injection E as <- <-.
Defined.

Lemma event_errors_change_nothing_witness :
  exists r xs loop', event_loop_call 77 two_blocks answer id_rank (Register 5 (-1) 9 0 1) busy_loop = Ok (r, xs, loop') /\
    r = ESP_ERR_NO_MEM /\ loop' = busy_loop.
Proof.
  destruct (event_errors_change_nothing 77 two_blocks answer id_rank (Register 5 (-1) 9 0 1) [((5, 1), 8)] [((5, 1), mkHandler 8 10)] busy_loop
    two_blocks_fresh answer_down busy_loop_inv) as (r & xs & loop' & E & F).
  - intros e ->%list_elem_of_singleton. left.
  - vm_compute. reflexivity.
  - exists r, xs, loop'. split; [exact E|]. assert (Hr : r = ESP_ERR_NO_MEM) by (vm_compute in E; by injection E as <- <-).
    split; [exact Hr|]. apply F. rewrite Hr. discriminate.
Defined.
