(* ===== verification/ImageFormat.v ===== *)
(** * Image format ([components/bootloader_support/src/esp_image_format.c])

    The bootloader build for the ESP32, without signature checking: parsing an
    image in flash, its checksum and appended hash, and loading its segments into
    RAM.  RAM is loaded under a random mask that is taken off when the image has
    been verified.

    Reading goes through the mapping of [BootFlash]; the hash function, the
    debugger, the reset reason, the chip revision, the random values and the
    addresses of the linker script are the environment. *)
From S2P Require Import Prelude MemoryLayout Mem EspFlash Partition BootFlash.

Definition ESP_ERR_IMAGE_INVALID := 0x2002.
Definition ESP_IMAGE_HEADER_MAGIC := 0xE9.
Definition ESP_IMAGE_MAX_SEGMENTS := 16.
Definition ESP_BOOTLOADER_OFFSET := 0x1000.
Definition HASH_LEN := 32.
Definition SIXTEEN_MB := 0x1000000.
Definition ESP_ROM_CHECKSUM_INITIAL := 0xEF.
Definition STACK_LOAD_HEADROOM := 32768.
Definition SPI_FLASH_MMU_PAGE_SIZE := 0x10000.
Definition MMAP_ALIGNED_MASK := 0x0000FFFF.
Definition SIZEOF_HEADER := 24.
Definition SIZEOF_SEGMENT_HEADER := 8.

Definition SOC_ROM_STACK_START := 0x3ffe3f20.

(** ** Data *)
Record esp_image_header_t := mkImageHeader {
  magic : Z;
  segment_count : Z;
  spi_mode : Z;
  spi_speed : Z;
  spi_size : Z;
  entry_addr : Z;
  wp_pin : Z;
  spi_pin_drv : list Z;
  chip_id : Z;
  min_chip_rev : Z;
  reserved : list Z;
  hash_appended : Z
}.

Definition byte_at (l : list Z) (i : nat) : Z := nth i l 0.
Definition u32_at (l : list Z) (i : nat) : Z :=
  byte_at l i + 2 ^ 8 * byte_at l (i + 1) + 2 ^ 16 * byte_at l (i + 2) + 2 ^ 24 * byte_at l (i + 3).

(** The packed structure in its 24 bytes. *)
Definition header_of (b : list Z) : esp_image_header_t :=
  mkImageHeader (byte_at b 0) (byte_at b 1) (byte_at b 2) (byte_at b 3 mod 16) (byte_at b 3 / 16) (u32_at b 4) (byte_at b 8)
    (take 3 (drop 9 b)) (byte_at b 12 + 2 ^ 8 * byte_at b 13) (byte_at b 14) (take 8 (drop 15 b)) (byte_at b 23).

Record esp_image_segment_header_t := mkSegmentHeader { load_addr : Z; data_len : Z }.
Definition segment_header_of (b : list Z) : esp_image_segment_header_t := mkSegmentHeader (u32_at b 0) (u32_at b 4).

Record esp_image_metadata_t := mkMetadata {
  start_addr : Z;
  image : esp_image_header_t;
  segments : list esp_image_segment_header_t;
  segment_data : list Z;
  image_len : Z;
  image_digest : list Z
}.
#[export] Instance rebuild_metadata : Rebuild esp_image_metadata_t := fun d =>
  mkMetadata (start_addr d) (image d) (segments d) (segment_data d) (image_len d) (image_digest d).

(** [bzero]. *)
Definition zero_metadata : esp_image_metadata_t :=
  mkMetadata 0 (header_of (replicate 24 0)) (replicate 16 (mkSegmentHeader 0 0)) (replicate 16 0) 0 (replicate 32 0).

Inductive esp_image_load_mode_t := ESP_IMAGE_VERIFY | ESP_IMAGE_VERIFY_SILENT | ESP_IMAGE_LOAD | ESP_IMAGE_LOAD_NO_VALIDATE.

(** What the code reads of its surroundings.  [sp] to [loader_text_end]: the stack
    pointer and the symbols of the linker script. *)
Class ImageEnv := {
  sha256 : list Z -> list Z;
  esp_cpu_in_ocd_debug_mode : bool;
  CONFIG_IDF_FIRMWARE_CHIP_ID : Z;
  chip_revision : Z;
  deepsleep_reset : bool;
  random_fills : list (Z * Z);
  sp : Z;
  dram_start : Z; dram_end : Z;
  loader_text_start : Z; loader_text_end : Z
}.

(** The flash, the RAM and [ram_obfs_value]. *)
Record image_state := mkImageState { is_flash : boot_flash; is_ram : mem; ram_obfs_value : Z * Z }.
#[export] Instance rebuild_image_state : Rebuild image_state := fun s => mkImageState (is_flash s) (is_ram s) (ram_obfs_value s).

Section image.
Context {env : PartitionEnv} {rom : BootRom} {ienv : ImageEnv}.
Implicit Types (s : image_state) (a n w : Z).

Definition flash_mem s : mem := mapped (bf_chip (is_flash s)).

(** [bootloader_flash_read] with [allow_decrypt], into an aligned buffer: word by
    word through a mapping of the 64 KB block. *)
Definition bootloader_flash_read a n s : Z * list Z :=
  if negb (a mod 4 =? 0) then (ESP_FAIL, [])
  else if negb (n mod 4 =? 0) then (ESP_FAIL, [])
  else
    let words := seqZ 0 (n / 4) in
    if forallb (fun w => cache_flash_mmu_set (Z.ldiff (u32 (a + 4 * w)) MMAP_ALIGNED_MASK) FLASH_BLOCK_SIZE) words
    then (ESP_OK, concat (map (fun w => read_bytes (flash_mem s) (u32 (a + 4 * w)) 4) words))
    else (ESP_FAIL, []).

(** [bootloader_sha256_data]; a handle is what has been hashed. *)
Definition bootloader_sha256_data (handle : list Z) (data : list Z) : outcome (list Z) :=
  _ ← cassert (lenZ data mod 4 =? 0); Ok (handle ++ data).

(** Hashing where the handle is not [NULL]. *)
Definition sha_data (sha_handle : option (list Z)) (data : list Z) : outcome (option (list Z)) :=
  match sha_handle with
  | None => Ok None
  | Some h => h ← bootloader_sha256_data h data; Ok (Some h)
  end.

Definition should_map a : bool :=
  ((SOC_IROM_LOW <=? a) && (a <? SOC_IROM_HIGH)) || ((SOC_DROM_LOW <=? a) && (a <? SOC_DROM_HIGH)).

Definition should_load a : bool :=
  let load_rtc_memory := negb deepsleep_reset in
  if should_map a then false
  else if a <? 0x10000000 then false
  else if negb load_rtc_memory
          && (((SOC_RTC_IRAM_LOW <=? a) && (a <? SOC_RTC_IRAM_HIGH))
              || ((SOC_RTC_DRAM_LOW <=? a) && (a <? SOC_RTC_DRAM_HIGH))
              || ((SOC_RTC_DATA_LOW <=? a) && (a <? SOC_RTC_DATA_HIGH))) then false
  else true.

(** ** The header checks *)
Definition bootloader_common_check_chip_validity (h : esp_image_header_t) : Z :=
  if negb (CONFIG_IDF_FIRMWARE_CHIP_ID =? chip_id h) || (chip_revision <? min_chip_rev h) then ESP_FAIL else ESP_OK.

Definition verify_image_header (h : esp_image_header_t) : Z :=
  let err := if magic h =? ESP_IMAGE_HEADER_MAGIC then ESP_OK else ESP_ERR_IMAGE_INVALID in
  if (err =? ESP_OK) && negb (bootloader_common_check_chip_validity h =? ESP_OK) then ESP_ERR_IMAGE_INVALID else err.

Definition verify_segment_header (segment : esp_image_segment_header_t) (segment_data_offs : Z) : Z :=
  if negb (Z.land (data_len segment) 3 =? 0) || (SIXTEEN_MB <=? data_len segment) then ESP_ERR_IMAGE_INVALID
  else if should_map (load_addr segment)
          && negb (segment_data_offs mod SPI_FLASH_MMU_PAGE_SIZE =? load_addr segment mod SPI_FLASH_MMU_PAGE_SIZE)
  then ESP_ERR_IMAGE_INVALID
  else ESP_OK.

(** ** Where a segment may be loaded *)
(** [fuel]: [no_recurse] stops after one step. *)
Fixpoint verify_load_addresses (fuel : nat) (load_addr load_end : Z) (no_recurse : bool) : outcome bool :=
  if load_end =? load_addr then Ok true
  else
    match fuel with
    | O => OutOfFuel
    | S fuel =>
        _ ← cassert (load_addr <? load_end);
        let recurse := fun a e : Z => if e <? a then verify_load_addresses fuel e a true else verify_load_addresses fuel a e true in
        if esp_ptr_in_dram load_addr && esp_ptr_in_dram load_end then
          stack ← bootloader_util_regions_overlap (sp - STACK_LOAD_HEADROOM) SOC_ROM_STACK_START load_addr load_end;
          if (stack : bool) then Ok false
          else
            data ← bootloader_util_regions_overlap dram_start dram_end load_addr load_end;
            if (data : bool) then Ok false
            else
              diram ← (if no_recurse then Ok false
                       else bootloader_util_regions_overlap SOC_DIRAM_DRAM_LOW SOC_DIRAM_DRAM_HIGH load_addr load_end);
              if (diram : bool) then
                recurse (esp_ptr_diram_dram_to_iram (if esp_ptr_in_diram_dram load_addr then load_addr else SOC_DIRAM_DRAM_LOW))
                  (esp_ptr_diram_dram_to_iram (if esp_ptr_in_diram_dram load_end then load_end else SOC_DIRAM_DRAM_HIGH))
              else Ok true
        else if esp_ptr_in_iram load_addr && esp_ptr_in_iram load_end then
          loader ← bootloader_util_regions_overlap loader_text_start loader_text_end load_addr load_end;
          if (loader : bool) then Ok false
          else
            diram ← (if no_recurse then Ok false
                     else bootloader_util_regions_overlap SOC_DIRAM_IRAM_LOW SOC_DIRAM_IRAM_HIGH load_addr load_end);
            if (diram : bool) then
              recurse (esp_ptr_diram_iram_to_dram (if esp_ptr_in_diram_iram load_addr then load_addr else SOC_DIRAM_IRAM_LOW))
                (esp_ptr_diram_iram_to_dram (if esp_ptr_in_diram_iram load_end then load_end else SOC_DIRAM_IRAM_HIGH))
            else Ok true
        else Ok ((esp_ptr_in_rtc_iram_fast load_addr && esp_ptr_in_rtc_iram_fast load_end)
                 || (esp_ptr_in_rtc_dram_fast load_addr && esp_ptr_in_rtc_dram_fast load_end)
                 || (esp_ptr_in_rtc_slow load_addr && esp_ptr_in_rtc_slow load_end))
    end.

(** ** Segments *)

(** The word loop of [process_segment_data]: [n] words from the word [w_i] of the
    mapped data at [src].  [ram_obfs_value[0]] masks the odd words. *)
Fixpoint process_words (n : nat) (w_i src load_addr data_len : Z) (do_load : bool) (flash : mem) (obfs : Z * Z)
    (sha_handle : option (list Z)) (checksum : option Z) (ram : mem) : outcome (option (list Z) * option Z * mem) :=
  match n with
  | O => Ok (sha_handle, checksum, ram)
  | S n =>
      let w := load32 flash (src + 4 * w_i) in
      let checksum := match checksum with Some c => Some (Z.lxor c w) | None => None end in
      let ram := if do_load then store32 ram (load_addr + 4 * w_i) (Z.lxor w (if Z.odd w_i then obfs.1 else obfs.2)) else ram in
      sha_handle ← (if (4 * w_i) mod 1024 =? 0
                    then sha_data sha_handle (read_bytes flash (src + 4 * w_i) (Z.to_nat (Z.min 1024 (data_len - 4 * w_i))))
                    else Ok sha_handle);
      process_words n (w_i + 1) src load_addr data_len do_load flash obfs sha_handle checksum ram
  end.

Definition both_set (v : Z * Z) : bool := negb (v.1 =? 0) && negb (v.2 =? 0).

Definition process_segment_data (load_addr data_addr data_len : Z) (do_load : bool) (sha_handle : option (list Z)) (checksum : option Z) s
    : outcome (Z * option (list Z) * option Z * image_state) :=
  if negb do_load && (match checksum with None => true | Some _ => false end) then Ok (ESP_OK, sha_handle, checksum, s)
  else
    let '(ok, bf) := bootloader_mmap data_addr data_len (is_flash s) in
    let s := s <| is_flash := bf |> in
    if negb ok then Ok (ESP_FAIL, sha_handle, checksum, s)
    else
      match checksum, sha_handle with
      | None, None =>
          Ok (ESP_OK, None, None,
              s <| is_ram := write_bytes (is_ram s) load_addr (read_bytes (flash_mem s) data_addr (Z.to_nat data_len)) |>
                <| is_flash := bootloader_munmap (is_flash s) |>)
      | _, _ =>
          obfs ← (if both_set (ram_obfs_value s) then Ok (ram_obfs_value s)
                  else match List.find both_set random_fills with Some v => Ok v | None => OutOfFuel end);
          '(sha_handle, checksum, ram) ←
            process_words (Z.to_nat (data_len / 4)) 0 data_addr load_addr data_len do_load (flash_mem s) obfs sha_handle checksum (is_ram s);
          Ok (ESP_OK, sha_handle, checksum,
              s <| is_ram := ram |> <| ram_obfs_value := obfs |> <| is_flash := bootloader_munmap (is_flash s) |>)
      end.

Definition bootloader_mmap_get_free_pages : Z := MMU_SIZE / FLASH_BLOCK_SIZE.

(** The loop over the parts that can be mapped at once. *)
Fixpoint process_parts (fuel : nat) (load_addr data_addr data_len_remain : Z) (do_load : bool) (sha_handle : option (list Z)) (checksum : option Z) s
    : outcome (Z * option (list Z) * option Z * image_state) :=
  if data_len_remain <=? 0 then Ok (ESP_OK, sha_handle, checksum, s)
  else
    match fuel with
    | O => OutOfFuel
    | S fuel =>
        let offset_page := if Z.land data_addr MMAP_ALIGNED_MASK =? 0 then 0 else 1 in
        let data_len := Z.min data_len_remain ((bootloader_mmap_get_free_pages - offset_page) * SPI_FLASH_MMU_PAGE_SIZE) in
        '(err, sha_handle, checksum, s) ← process_segment_data load_addr data_addr data_len do_load sha_handle checksum s;
        if negb (err =? ESP_OK) then Ok (err, sha_handle, checksum, s)
        else process_parts fuel load_addr (u32 (data_addr + data_len)) (data_len_remain - data_len) do_load sha_handle checksum s
    end.

(** The header is returned with the error. *)
Definition process_segment (flash_addr : Z) (do_load : bool) (sha_handle : option (list Z)) (checksum : option Z) s
    : outcome (Z * option esp_image_segment_header_t * option (list Z) * option Z * image_state) :=
  let '(err, b) := bootloader_flash_read flash_addr SIZEOF_SEGMENT_HEADER s in
  if negb (err =? ESP_OK) then Ok (err, None, sha_handle, checksum, s)
  else
    let header := segment_header_of b in
    sha_handle ← sha_data sha_handle b;
    let load_addr := s32 (load_addr header) in
    let data_addr := u32 (flash_addr + SIZEOF_SEGMENT_HEADER) in
    let err := verify_segment_header header data_addr in
    if negb (err =? ESP_OK) then Ok (err, Some header, sha_handle, checksum, s)
    else if negb (data_len header mod 4 =? 0) then Ok (ESP_ERR_IMAGE_INVALID, Some header, sha_handle, checksum, s)
    else
      let do_load := do_load && should_load (u32 load_addr) in
      fits ← (if do_load && (0 <? data_len header)
              then verify_load_addresses 2 load_addr (s32 (u32 (load_addr + data_len header))) false
              else Ok true);
      if negb fits then Ok (ESP_ERR_IMAGE_INVALID, Some header, sha_handle, checksum, s)
      else
        '(err, sha_handle, checksum, s) ← process_parts 6 load_addr data_addr (data_len header) do_load sha_handle checksum s;
        Ok (err, Some header, sha_handle, checksum, s).

(** The loop of [image_load] over the segments from number [i]: the arrays of the
    metadata have 16 elements. *)
Fixpoint load_segments (n i : nat) (next_addr : Z) (do_load : bool) (sha_handle : option (list Z)) (checksum : option Z)
    (data : esp_image_metadata_t) s
    : outcome (Z * Z * option (list Z) * option Z * esp_image_metadata_t * image_state) :=
  match n with
  | O => Ok (ESP_OK, next_addr, sha_handle, checksum, data, s)
  | S n =>
      if (16 <=? i)%nat then Fault
      else
        '(err, header, sha_handle, checksum, s) ← process_segment next_addr do_load sha_handle checksum s;
        match header with
        | Some header =>
            let data := data <| segments := <[i := header]> (segments data) |> in
            if negb (err =? ESP_OK) then Ok (err, next_addr, sha_handle, checksum, data, s)
            else
              let next_addr := u32 (next_addr + SIZEOF_SEGMENT_HEADER) in
              let data := data <| segment_data := <[i := next_addr]> (segment_data data) |> in
              load_segments n (S i) (u32 (next_addr + data_len header)) do_load sha_handle checksum data s
        | None => Ok (err, next_addr, sha_handle, checksum, data, s)
        end
  end.

(** ** Checksum and hash *)
Definition fold_word (w : Z) : Z := Z.lxor (Z.lxor (Z.shiftr w 24) (Z.shiftr w 16)) (Z.lxor (Z.shiftr w 8) w).

Definition verify_checksum (sha_handle : option (list Z)) (checksum_word : Z) (data : esp_image_metadata_t) s
    : outcome (Z * option (list Z) * esp_image_metadata_t) :=
  let unpadded_length := image_len data in
  let length := Z.ldiff (u32 (u32 (unpadded_length + 1) + 15)) 15 in
  let '(err, buf) := bootloader_flash_read (u32 (start_addr data + unpadded_length)) (length - unpadded_length) s in
  let calc := byte_at buf (Z.to_nat (length - unpadded_length - 1)) in
  let checksum := u8 (fold_word checksum_word) in
  if negb (err =? ESP_OK) || negb (checksum =? calc) then Ok (ESP_ERR_IMAGE_INVALID, sha_handle, data)
  else
    sha_handle ← sha_data sha_handle buf;
    let length := if hash_appended (image data) =? 0 then length else u32 (length + HASH_LEN) in
    Ok (ESP_OK, sha_handle, data <| image_len := length |>).

(** A mapping that fails is read all the same. *)
Definition verify_simple_hash (sha_handle : list Z) (data : esp_image_metadata_t) s : outcome (Z * image_state) :=
  let a := u32 (start_addr data + image_len data - HASH_LEN) in
  let '(ok, bf) := bootloader_mmap a HASH_LEN (is_flash s) in
  let s := s <| is_flash := bf |> in
  if negb ok then Fault
  else
    let hash := read_bytes (flash_mem s) a 32 in
    let s := s <| is_flash := bootloader_munmap (is_flash s) |> in
    if bool_decide (hash = sha256 sha_handle) then Ok (ESP_OK, s) else Ok (ESP_ERR_IMAGE_INVALID, s).

(** Taking the mask off the loaded segments. *)
Fixpoint deobfuscate_words (n : nat) (j load_addr : Z) (obfs : Z * Z) (ram : mem) : mem :=
  match n with
  | O => ram
  | S n => deobfuscate_words n (j + 1) load_addr obfs
             (store32 ram (load_addr + 4 * j) (Z.lxor (load32 ram (load_addr + 4 * j)) (if Z.odd j then obfs.1 else obfs.2)))
  end.
Definition deobfuscate (segs : list esp_image_segment_header_t) (obfs : Z * Z) (ram : mem) : mem :=
  foldl (fun ram seg => if should_load (load_addr seg) then deobfuscate_words (Z.to_nat (data_len seg / 4)) 0 (load_addr seg) obfs ram else ram)
    ram segs.

(** The label [err]. *)
Definition fail_load (err : Z) s : outcome (Z * esp_image_metadata_t * image_state) :=
  Ok (if err =? ESP_OK then ESP_ERR_IMAGE_INVALID else err, zero_metadata, s).

(** The part of [image_load] after the segments, when verifying: the error, the
    metadata and the state. *)
Definition verify_image (part : esp_partition_pos_t) (end_addr : Z) (sha_handle : option (list Z)) (checksum_word : Z)
    (data : esp_image_metadata_t) s : outcome (Z * esp_image_metadata_t * image_state) :=
  if end_addr <? start_addr data then Ok (ESP_ERR_IMAGE_INVALID, data, s)
  else
    let data := data <| image_len := u32 (end_addr - start_addr data) |> in
    '(err, sha_handle, data) ←
      (if esp_cpu_in_ocd_debug_mode then Ok (ESP_OK, sha_handle, data) else verify_checksum sha_handle checksum_word data s);
    if negb (err =? ESP_OK) then Ok (err, data, s)
    else
      let verify_sha := negb (start_addr data =? ESP_BOOTLOADER_OFFSET) in
      if verify_sha && (pos_size part <? image_len data) then Ok (ESP_ERR_IMAGE_INVALID, data, s)
      else
        '(err, s) ← (match sha_handle with
                     | Some h => if verify_sha && negb esp_cpu_in_ocd_debug_mode then verify_simple_hash h data s else Ok (ESP_OK, s)
                     | None => Ok (ESP_OK, s)
                     end);
        if hash_appended (image data) =? 0 then Ok (err, data, s)
        else
          let a := u32 (start_addr data + image_len data - HASH_LEN) in
          let '(ok, bf) := bootloader_mmap a HASH_LEN (is_flash s) in
          let s := s <| is_flash := bf |> in
          if negb ok then Ok (ESP_FAIL, data, s)
          else Ok (err, data <| image_digest := read_bytes (flash_mem s) a 32 |>, s <| is_flash := bootloader_munmap (is_flash s) |>).

Definition image_load (mode : esp_image_load_mode_t) (part : esp_partition_pos_t) s : outcome (Z * esp_image_metadata_t * image_state) :=
  let do_load := match mode with ESP_IMAGE_LOAD | ESP_IMAGE_LOAD_NO_VALIDATE => true | _ => false end in
  let do_verify := match mode with ESP_IMAGE_LOAD_NO_VALIDATE => false | _ => true end in
  if SIXTEEN_MB <? pos_size part then fail_load ESP_ERR_INVALID_ARG s
  else
    let data := zero_metadata <| start_addr := offset part |> in
    let '(err, b) := bootloader_flash_read (start_addr data) SIZEOF_HEADER s in
    if negb (err =? ESP_OK) then fail_load err s
    else
      let data := data <| image := header_of b |> in
      let checksum := if do_verify then Some ESP_ROM_CHECKSUM_INITIAL else None in
      sha_handle ← (if do_verify && negb (hash_appended (image data) =? 0) then sha_data (Some []) b else Ok None);
      let err := if do_verify then verify_image_header (image data) else ESP_OK in
      if negb (err =? ESP_OK) then fail_load err s
      else if do_verify && (ESP_IMAGE_MAX_SEGMENTS <? segment_count (image data)) then fail_load ESP_OK s
      else
        let next_addr := u32 (start_addr data + SIZEOF_HEADER) in
        '(err, next_addr, sha_handle, checksum, data, s) ←
          load_segments (Z.to_nat (segment_count (image data))) 0 next_addr do_load sha_handle checksum data s;
        if negb (err =? ESP_OK) then fail_load err s
        else
          '(err, data, s) ← (match checksum with
                             | Some checksum_word => verify_image part next_addr sha_handle checksum_word data s
                             | None => Ok (ESP_OK, data, s)
                             end);
          if negb (err =? ESP_OK) then fail_load err s
          else
            let s := if do_load && both_set (ram_obfs_value s)
                     then s <| is_ram := deobfuscate (take (Z.to_nat (segment_count (image data))) (segments data)) (ram_obfs_value s) (is_ram s) |>
                     else s in
            Ok (ESP_OK, data, s).

Definition bootloader_load_image (part : esp_partition_pos_t) s := image_load ESP_IMAGE_LOAD part s.
Definition bootloader_load_image_no_verify (part : esp_partition_pos_t) s := image_load ESP_IMAGE_LOAD_NO_VALIDATE part s.
Definition esp_image_verify (mode : esp_image_load_mode_t) (part : esp_partition_pos_t) s := image_load mode part s.

Definition esp_image_verify_bootloader_data s : outcome (Z * esp_image_metadata_t * image_state) :=
  esp_image_verify ESP_IMAGE_VERIFY (mkPos ESP_BOOTLOADER_OFFSET (u32 (ESP_PARTITION_TABLE_OFFSET - ESP_BOOTLOADER_OFFSET))) s.

(** With what is stored at [length]. *)
Definition esp_image_verify_bootloader s : outcome (Z * Z * image_state) :=
  '(err, data, s) ← esp_image_verify_bootloader_data s;
  Ok (err, if err =? ESP_OK then image_len data else 0, s).
End image.
