(* ===== verification/ImageProofs.v ===== *)
(** * Image format: reading the segments

    The word loops compute the checksum and the hash of the data of a segment and
    its masked copy, whatever the parts the data are mapped in. *)
From S2P Require Import Prelude MemoryLayout Mem EspFlash Partition BootFlash ImageFormat.

(** ** The checksum: exclusive or of bytes *)
Definition xor_bytes (c : Z) (l : list Z) : Z := foldl Z.lxor c l.

Lemma xor_bytes_app c l1 l2 : xor_bytes c (l1 ++ l2) = xor_bytes (xor_bytes c l1) l2.
Proof. apply foldl_app. Qed.

Lemma u8_lxor x y : u8 (Z.lxor x y) = Z.lxor (u8 x) (u8 y).
Proof.
  unfold u8. rewrite <- !(Z.land_ones _ 8) by lia. apply Z.bits_inj'. intros n Hn. rewrite !Z.land_spec, !Z.lxor_spec, !Z.land_spec.
  by destruct (Z.testbit x n), (Z.testbit y n), (Z.testbit (Z.ones 8) n).
Qed.

Lemma fold_word_lxor x y : fold_word (Z.lxor x y) = Z.lxor (fold_word x) (fold_word y).
Proof.
  unfold fold_word. rewrite !Z.shiftr_lxor. apply Z.bits_inj'. intros n Hn. rewrite !Z.lxor_spec.
  by destruct (Z.testbit (Z.shiftr x 24) n), (Z.testbit (Z.shiftr y 24) n), (Z.testbit (Z.shiftr x 16) n), (Z.testbit (Z.shiftr y 16) n),
    (Z.testbit (Z.shiftr x 8) n), (Z.testbit (Z.shiftr y 8) n), (Z.testbit x n), (Z.testbit y n).
Qed.

Lemma fold_load32 m a : u8 (fold_word (load32 m a)) = xor_bytes 0 (read_bytes m a 4).
Proof.
  unfold fold_word. rewrite !u8_lxor, !Z.shiftr_div_pow2 by lia. unfold load32.
  pose proof (load8_range m a) as H0. pose proof (load8_range m (a + 1)) as H1. pose proof (load8_range m (a + 2)) as H2.
  pose proof (load8_range m (a + 3)) as H3. unfold xor_bytes. cbn [read_bytes foldl]. rewrite Z.lxor_0_l.
  replace (a + 1 + 1) with (a + 2) by lia. replace (a + 2 + 1) with (a + 3) by lia.
  generalize dependent (load8 m a). generalize dependent (load8 m (a + 1)). generalize dependent (load8 m (a + 2)). generalize dependent (load8 m (a + 3)).
  unfold is_byte, u8. intros b3 H3 b2 H2 b1 H1 b0 H0.
  replace ((b0 + 2 ^ 8 * b1 + 2 ^ 16 * b2 + 2 ^ 24 * b3) mod 2 ^ 8) with b0 by (Z.to_euclidean_division_equations; lia).
  replace ((b0 + 2 ^ 8 * b1 + 2 ^ 16 * b2 + 2 ^ 24 * b3) / 2 ^ 8 mod 2 ^ 8) with b1 by (Z.to_euclidean_division_equations; lia).
  replace ((b0 + 2 ^ 8 * b1 + 2 ^ 16 * b2 + 2 ^ 24 * b3) / 2 ^ 16 mod 2 ^ 8) with b2 by (Z.to_euclidean_division_equations; lia).
  replace ((b0 + 2 ^ 8 * b1 + 2 ^ 16 * b2 + 2 ^ 24 * b3) / 2 ^ 24 mod 2 ^ 8) with b3 by (Z.to_euclidean_division_equations; lia).
  apply Z.bits_inj'. intros n Hn. rewrite !Z.lxor_spec. by destruct (Z.testbit b0 n), (Z.testbit b1 n), (Z.testbit b2 n), (Z.testbit b3 n).
Qed.

Lemma xor_bytes_acc c l : xor_bytes c l = Z.lxor c (xor_bytes 0 l).
Proof.
  unfold xor_bytes. revert c. induction l as [|x l IH]; intros c; cbn [foldl]; [by rewrite Z.lxor_0_r|].
  rewrite IH, (IH (Z.lxor 0 x)). by rewrite Z.lxor_0_l, Z.lxor_assoc.
Qed.

(** The checksum of [n] words, a word at a time. *)
Fixpoint xor_words (n : nat) (m : mem) (a c : Z) : Z :=
  match n with O => c | S n => xor_words n m (a + 4) (Z.lxor c (load32 m a)) end.

Lemma xor_words_app n k m a c : xor_words (n + k) m a c = xor_words k m (a + 4 * Z.of_nat n) (xor_words n m a c).
Proof.
  revert a c. induction n as [|n IH]; intros a c; [cbn; f_equal; lia|]. cbn [Nat.add xor_words]. rewrite IH. f_equal. lia.
Qed.

(** Folding the words at the end is folding the bytes. *)
Lemma xor_words_bytes n m a c : u8 (fold_word (xor_words n m a c)) = xor_bytes (u8 (fold_word c)) (read_bytes m a (4 * n)).
Proof.
  revert a c. induction n as [|n IH]; intros a c; [done|]. cbn [xor_words]. rewrite IH, fold_word_lxor, u8_lxor, fold_load32.
  replace (4 * S n)%nat with (4 + 4 * n)%nat by lia. rewrite read_bytes_app, xor_bytes_app. f_equal. by rewrite <- xor_bytes_acc.
Qed.

(** ** The word loop *)

(** Hashing more, where there is a handle. *)
Definition hashed (sha : option (list Z)) (l : list Z) : option (list Z) := match sha with Some h => Some (h ++ l) | None => None end.

Lemma hashed_app sha l1 l2 : hashed (hashed sha l1) l2 = hashed sha (l1 ++ l2).
Proof. destruct sha; cbn; [by rewrite app_assoc|done]. Qed.
Lemma hashed_nil sha : hashed sha [] = sha.
Proof. destruct sha; cbn; [by rewrite app_nil_r|done]. Qed.

Lemma sha_data_run sha l : lenZ l mod 4 = 0 -> sha_data sha l = Ok (hashed sha l).
Proof. intros H. destruct sha; [|done]. cbn. unfold bootloader_sha256_data. by rewrite cassert_bind by (by apply Z.eqb_eq). Qed.

(** The masked copy of [n] words. *)
Fixpoint mask_words (n : nat) (w_i src load : Z) (flash : mem) (obfs : Z * Z) (ram : mem) : mem :=
  match n with
  | O => ram
  | S n => mask_words n (w_i + 1) src load flash obfs
             (store32 ram (load + 4 * w_i) (Z.lxor (load32 flash (src + 4 * w_i)) (if Z.odd w_i then obfs.1 else obfs.2)))
  end.

(** How far the hash has gone before the word [w]: to the end of its chunk. *)
Definition hash_mark (w len : Z) : Z := Z.min len (1024 * ((w + 255) / 256)).

Lemma lenZ_read_bytes m a n : 0 <= n -> lenZ (read_bytes m a (Z.to_nat n)) = n.
Proof. intros. unfold lenZ. rewrite length_read_bytes. lia. Qed.

Lemma process_words_run src load (dl : bool) flash obfs len : forall n w sha c ram, 0 <= w -> len = 4 * (w + Z.of_nat n) ->
  process_words n w src load len dl flash obfs sha (Some c) ram =
    Ok (hashed sha (read_bytes flash (src + hash_mark w len) (Z.to_nat (len - hash_mark w len))),
        Some (xor_words n flash (src + 4 * w) c), if dl then mask_words n w src load flash obfs ram else ram).
Proof.
  induction n as [|n IH]; intros w sha c ram Hw Hl.
  - replace (hash_mark w len) with len by (unfold hash_mark; Z.to_euclidean_division_equations; lia). rewrite Z.sub_diag. cbn. rewrite hashed_nil.
    by destruct dl.
  - cbn [process_words]. destruct (Z.eqb_spec ((4 * w) mod 1024) 0) as [Hm|Hm].
    + replace (hash_mark w len) with (4 * w) by (unfold hash_mark; Z.to_euclidean_division_equations; lia).
      rewrite sha_data_run.
      2: { rewrite lenZ_read_bytes by lia. destruct (Z.min_spec 1024 (len - 4 * w)) as [[_ ->]|[_ ->]]; [done|]. Z.to_euclidean_division_equations; lia. }
      ostep. rewrite IH by lia. assert (Hk : hash_mark (w + 1) len = 4 * w + Z.min 1024 (len - 4 * w)).
      { unfold hash_mark. Z.to_euclidean_division_equations; lia. }
      rewrite Hk, hashed_app. do 2 f_equal; [f_equal|by destruct dl]; [f_equal|cbn; do 2 f_equal; lia].
      f_equal. rewrite Z.add_assoc. set (k := Z.min 1024 (len - 4 * w)). assert (0 <= k <= len - 4 * w) by lia.
      replace (src + 4 * w + k) with (src + 4 * w + Z.of_nat (Z.to_nat k)) by lia. rewrite <- read_bytes_app. f_equal. lia.
    + ostep. rewrite IH by lia. replace (hash_mark (w + 1) len) with (hash_mark w len).
      2: { unfold hash_mark. Z.to_euclidean_division_equations; lia. }
      do 2 f_equal; [f_equal|by destruct dl]. cbn. do 2 f_equal. lia.
Qed.

(** ** Masking and unmasking *)
Lemma mask_words_outside src load flash obfs b : forall n w ram, (b < load + 4 * w \/ load + 4 * (w + Z.of_nat n) <= b) ->
  load8 (mask_words n w src load flash obfs ram) b = load8 ram b.
Proof.
  induction n as [|n IH]; intros w ram H; [done|]. cbn [mask_words]. rewrite IH by lia. apply load8_store32_ne. lia.
Qed.

Lemma deobfuscate_outside load obfs b : forall n j ram, (b < load + 4 * j \/ load + 4 * (j + Z.of_nat n) <= b) ->
  load8 (deobfuscate_words n j load obfs ram) b = load8 ram b.
Proof.
  induction n as [|n IH]; intros j ram H; [done|]. cbn [deobfuscate_words]. rewrite IH by lia. apply load8_store32_ne. lia.
Qed.

Lemma load32_outside m m' a (n : Z) : (forall b, a <= b < a + 4 -> load8 m' b = load8 m b) -> load32 m' a = load32 m a.
Proof. intros H. unfold load32. by rewrite !H by lia. Qed.

Lemma is_u32_lxor a b : is_u32 a -> is_u32 b -> is_u32 (Z.lxor a b).
Proof.
  intros Ha Hb. replace (Z.lxor a b) with (u32 (Z.lxor a b)); [apply u32_range|]. unfold u32. rewrite <- (Z.land_ones _ 32) by lia.
  rewrite <- (u32_small a Ha), <- (u32_small b Hb). unfold u32. rewrite <- !(Z.land_ones _ 32) by lia. apply Z.bits_inj'. intros n Hn.
  rewrite Z.land_spec, !Z.lxor_spec, !Z.land_spec. by destruct (Z.testbit a n), (Z.testbit b n), (Z.testbit (Z.ones 32) n).
Qed.

(** Word [k] of the masked copy. *)
Lemma mask_words_word src load flash obfs : is_u32 obfs.1 -> is_u32 obfs.2 -> forall n w ram k, w <= k < w + Z.of_nat n ->
  load32 (mask_words n w src load flash obfs ram) (load + 4 * k) = Z.lxor (load32 flash (src + 4 * k)) (if Z.odd k then obfs.1 else obfs.2).
Proof.
  intros O1 O2. induction n as [|n IH]; intros w ram k Hk; [lia|]. cbn [mask_words]. destruct (decide (k = w)) as [->|Hne]; [|apply IH; lia].
  rewrite (load32_outside (store32 ram (load + 4 * w) (Z.lxor (load32 flash (src + 4 * w)) (if Z.odd w then obfs.1 else obfs.2))) _ _ 0).
  - apply load32_store32_eq. pose proof (load32_range flash (src + 4 * w)) as R. apply is_u32_lxor; [exact R|by destruct (Z.odd w)].
  - intros b Hb. apply mask_words_outside. lia.
Qed.

Lemma deobfuscate_word load obfs : is_u32 obfs.1 -> is_u32 obfs.2 -> forall n j ram k, j <= k < j + Z.of_nat n ->
  load32 (deobfuscate_words n j load obfs ram) (load + 4 * k) = Z.lxor (load32 ram (load + 4 * k)) (if Z.odd k then obfs.1 else obfs.2).
Proof.
  intros O1 O2. induction n as [|n IH]; intros j ram k Hk; [lia|]. cbn [deobfuscate_words]. destruct (decide (k = j)) as [->|Hne].
  - rewrite (load32_outside (store32 ram (load + 4 * j) (Z.lxor (load32 ram (load + 4 * j)) (if Z.odd j then obfs.1 else obfs.2))) _ _ 0).
    + apply load32_store32_eq. pose proof (load32_range ram (load + 4 * j)) as R. apply is_u32_lxor; [exact R|by destruct (Z.odd j)].
    + intros b Hb. apply deobfuscate_outside. lia.
  - rewrite IH by lia. f_equal. apply load32_store32_ne. lia.
Qed.

(** Equal words have equal bytes. *)
Lemma word_bytes m m' a a' i : load32 m a = load32 m' a' -> 0 <= i < 4 -> load8 m (a + i) = load8 m' (a' + i).
Proof.
  unfold load32. intros E Hi. assert (i = 0 \/ i = 1 \/ i = 2 \/ i = 3) as D by lia.
  pose proof (load8_range m a). pose proof (load8_range m (a + 1)). pose proof (load8_range m (a + 2)). pose proof (load8_range m (a + 3)).
  pose proof (load8_range m' a'). pose proof (load8_range m' (a' + 1)). pose proof (load8_range m' (a' + 2)). pose proof (load8_range m' (a' + 3)).
  unfold is_byte in *. destruct D as [-> | [-> | [-> | ->]]]; rewrite ?Z.add_0_r; lia.
Qed.

Lemma words_bytes m m' a a' n : (forall k, 0 <= k < Z.of_nat n -> load32 m (a + 4 * k) = load32 m' (a' + 4 * k)) ->
  read_bytes m a (4 * n) = read_bytes m' a' (4 * n).
Proof.
  intros H. apply read_bytes_at. intros i Hi. replace (a + i) with (a + 4 * (i / 4) + i mod 4) by (Z.to_euclidean_division_equations; lia).
  replace (a' + i) with (a' + 4 * (i / 4) + i mod 4) by (Z.to_euclidean_division_equations; lia).
  apply word_bytes; [apply H|]; Z.to_euclidean_division_equations; lia.
Qed.

(** Taking the mask off gives the data. *)
Lemma unmasked src load flash obfs n ram ram' : is_u32 obfs.1 -> is_u32 obfs.2 ->
  (forall b, load <= b < load + 4 * Z.of_nat n -> load8 ram' b = load8 (mask_words n 0 src load flash obfs ram) b) ->
  read_bytes (deobfuscate_words n 0 load obfs ram') load (4 * n) = read_bytes flash src (4 * n).
Proof.
  intros O1 O2 H. apply words_bytes. intros k Hk. rewrite deobfuscate_word by (done || lia).
  rewrite (load32_outside (mask_words n 0 src load flash obfs ram) ram' (load + 4 * k) 0) by (intros b Hb; apply H; lia).
  rewrite mask_words_word by (done || lia). by rewrite Z.lxor_assoc, Z.lxor_nilpotent, Z.lxor_0_r.
Qed.

(** ** Segments *)
Section segments.
Context {env : PartitionEnv} {rom : BootRom} {ienv : ImageEnv}.
(** The mapping works, and the random generator gives a mask at last. *)
Context (Hcache : forall a n, cache_flash_mmu_set a n = true) (fill : Z * Z) (Hfill : List.find both_set random_fills = Some fill).
Implicit Types (s : image_state) (a len : Z) (sha : option (list Z)).

Lemma concat_words m a k : concat (map (fun w => read_bytes m (a + 4 * w) 4) (seqZ 0 (Z.of_nat k))) = read_bytes m a (4 * k).
Proof.
  induction k as [|k IH]; [done|]. rewrite seqZ_S, map_app, concat_app, IH. cbn [map concat]. rewrite app_nil_r.
  replace (a + 4 * (0 + Z.of_nat k)) with (a + Z.of_nat (4 * k)) by lia. rewrite <- read_bytes_app. f_equal. lia.
Qed.

Lemma flash_read_run a n s : 0 <= a -> 0 <= n -> a + n < 2 ^ 32 -> a mod 4 = 0 -> n mod 4 = 0 ->
  bootloader_flash_read a n s = (ESP_OK, read_bytes (flash_mem s) a (Z.to_nat n)).
Proof.
  intros Ha Hn Hw Ha4 Hn4. unfold bootloader_flash_read. rewrite Ha4, Hn4. cbn [negb Z.eqb].
  replace (forallb _ _) with true by (symmetry; apply forallb_forall; intros; apply Hcache). f_equal.
  replace (Z.to_nat n) with (4 * Z.to_nat (n / 4))%nat by (Z.to_euclidean_division_equations; lia). rewrite <- concat_words.
  rewrite Z2Nat.id by (apply Z.div_pos; lia). f_equal. apply map_ext_in. intros w Hin%list_elem_of_In%elem_of_seqZ. rewrite u32_small; [done|].
  unfold is_u32. Z.to_euclidean_division_equations; lia.
Qed.

(** The mask in use. *)
Definition obfs_of s : Z * Z := if both_set (ram_obfs_value s) then ram_obfs_value s else fill.

Definition unmapped s : Prop := bf_mapped (is_flash s) = false.

(** The state after a part of a segment. *)
Definition after_part (dl : bool) load a len s : image_state :=
  s <| is_ram := if dl then mask_words (Z.to_nat (len / 4)) 0 a load (flash_mem s) (obfs_of s) (is_ram s) else is_ram s |>
    <| ram_obfs_value := obfs_of s |>.

Lemma process_part_run load a len dl sha c s : unmapped s -> 0 <= len <= MMU_SIZE -> len mod 4 = 0 ->
  process_segment_data load a len dl sha (Some c) s =
    Ok (ESP_OK, hashed sha (read_bytes (flash_mem s) a (Z.to_nat len)), Some (xor_words (Z.to_nat (len / 4)) (flash_mem s) a c),
        after_part dl load a len s).
Proof.
  intros Hm Hl H4. unfold process_segment_data. rewrite andb_false_r. unfold bootloader_mmap. unfold unmapped in Hm. rewrite Hm, Hcache.
  destruct (Z.ltb_spec MMU_SIZE len); [lia|]. cbn [negb].
  set (s1 := s <| is_flash := _ |>). assert (Ho : (if both_set (ram_obfs_value s1) then Ok (ram_obfs_value s1)
    else match List.find both_set random_fills with Some v => Ok v | None => OutOfFuel end) = Ok (obfs_of s)).
  { rewrite Hfill. unfold obfs_of. change (ram_obfs_value s1) with (ram_obfs_value s). by destruct (both_set (ram_obfs_value s)). }
  change (flash_mem s1) with (flash_mem s). change (is_ram s1) with (is_ram s). rewrite Ho. ostep.
  rewrite (process_words_run a load dl (flash_mem s) (obfs_of s) len) by (Z.to_euclidean_division_equations; lia). ostep.
  replace (hash_mark 0 len) with 0 by (unfold hash_mark; Z.to_euclidean_division_equations; lia). rewrite !Z.add_0_r, Z.sub_0_r.
  destruct s as [[chip mp] ram ob]. cbn in Hm. subst mp. destruct sha; done.
Qed.

Lemma obfs_set s : both_set (obfs_of s) = true.
Proof. unfold obfs_of. destruct (both_set (ram_obfs_value s)) eqn:E; [done|]. by apply List.find_some in Hfill as [_ ?]. Qed.

(** The flash stays as it is, the mask may get its value. *)
Record same_env s s' : Prop := {
  se_flash : is_flash s' = is_flash s;
  se_value : ram_obfs_value s' = ram_obfs_value s \/ ram_obfs_value s' = obfs_of s
}.

Lemma same_env_refl s : same_env s s.
Proof. split; [done|by left]. Qed.
Lemma same_env_obfs s s' : same_env s s' -> obfs_of s' = obfs_of s.
Proof. intros [_ [E|E]]; unfold obfs_of at 1; rewrite E; [done|]. by rewrite obfs_set. Qed.
Lemma same_env_trans s1 s2 s3 : same_env s1 s2 -> same_env s2 s3 -> same_env s1 s3.
Proof.
  intros H1 H2. pose proof (same_env_obfs _ _ H1) as E. destruct H1 as [A1 B1], H2 as [A2 [B2|B2]]; (split; [congruence|]); rewrite B2; [done|].
  right. congruence.
Qed.
Lemma same_env_mem s s' : same_env s s' -> flash_mem s' = flash_mem s.
Proof. intros [E _]. unfold flash_mem. by rewrite E. Qed.
Lemma same_env_unmapped s s' : same_env s s' -> unmapped s -> unmapped s'.
Proof. intros [E _]. unfold unmapped. by rewrite E. Qed.

Lemma after_part_env dl load a len s : same_env s (after_part dl load a len s).
Proof. split; [done|by right]. Qed.

(** The least that is mapped at once. *)
Definition PART := 49 * 65536.

Lemma process_parts_run dl load : forall fuel a len sha c s, unmapped s -> 0 <= a -> 0 <= len -> a + len < 2 ^ 32 -> len mod 4 = 0 ->
  len <= Z.of_nat fuel * PART -> exists s',
    process_parts fuel load a len dl sha (Some c) s =
      Ok (ESP_OK, hashed sha (read_bytes (flash_mem s) a (Z.to_nat len)), Some (xor_words (Z.to_nat (len / 4)) (flash_mem s) a c), s') /\
    same_env s s' /\ (dl = false -> is_ram s' = is_ram s) /\ (0 < len <= PART -> s' = after_part dl load a len s).
Proof.
  unfold PART. induction fuel as [|fuel IH]; intros a len sha c s Hm Ha Hl Hw H4 Hf; cbn [process_parts]; (destruct (Z.leb_spec len 0);
    [exists s; replace len with 0 by lia; cbn; rewrite hashed_nil; split; [done|]; split; [apply same_env_refl|]; split; [done|lia]|]); [lia|].
  set (k := Z.min len _). assert (Hk : 0 < k <= MMU_SIZE /\ k mod 4 = 0 /\ k <= len /\ (49 * 65536 <= k \/ k = len)).
  { subst k. unfold bootloader_mmap_get_free_pages, SPI_FLASH_MMU_PAGE_SIZE, MMU_SIZE, FLASH_BLOCK_SIZE. change (0x320000 / 65536) with 50.
    destruct (Z.land a MMAP_ALIGNED_MASK =? 0); Z.to_euclidean_division_equations; lia. }
  clearbody k. destruct Hk as (Hk1 & Hk4 & Hkl & Hkp). rewrite process_part_run by (done || lia). ostep. cbn [negb Z.eqb].
  set (s1 := after_part dl load a k s). pose proof (after_part_env dl load a k s) as E1. fold s1 in E1. rewrite u32_small by (unfold is_u32; lia).
  destruct (IH (a + k) (len - k) (hashed sha (read_bytes (flash_mem s) a (Z.to_nat k))) (xor_words (Z.to_nat (k / 4)) (flash_mem s) a c) s1)
    as (s2 & E & E2 & R & _); [by apply (same_env_unmapped s)|lia..| |lia|]; [Z.to_euclidean_division_equations; lia|].
  rewrite (same_env_mem _ _ E1) in E. change (ESP_OK =? ESP_OK) with true. cbn [negb].
  exists s2. rewrite E. split; [do 3 f_equal|split; [by eapply same_env_trans|split]].
  - f_equal. rewrite hashed_app. f_equal. replace (a + k) with (a + Z.of_nat (Z.to_nat k)) by lia. rewrite <- read_bytes_app. f_equal. lia.
  - f_equal. replace (a + k) with (a + 4 * Z.of_nat (Z.to_nat (k / 4))) by (Z.to_euclidean_division_equations; lia). rewrite <- xor_words_app. f_equal.
    Z.to_euclidean_division_equations; lia.
  - intros Hd. rewrite R by done. subst s1. by rewrite Hd.
  - intros Hs. assert (k = len) as -> by lia. rewrite Z.sub_diag in E. replace s2 with s1; [done|].
    destruct fuel; cbn in E; injection E; intros; congruence.
Qed.

(** A segment that may be loaded is within one memory, and smaller than a part. *)
Lemma load_addresses_small fuel a e b : verify_load_addresses fuel a e b = Ok true -> e <> a ->
  0x3FF80000 <= a < 0x50002000 /\ a < e <= a + 0x52000.
Proof.
  destruct fuel as [|fuel]; cbn [verify_load_addresses]; (destruct (Z.eqb_spec e a) as [->|Hne]; [done|]); [done|]. intros H _.
  destruct (Z.ltb_spec a e) as [Hlt|]; [|done]. cbn [cassert] in H. rewrite outcome_bind_Ok in H. cbv zeta in H.
  unfold esp_ptr_in_dram, esp_ptr_in_iram, esp_ptr_in_rtc_iram_fast, esp_ptr_in_rtc_dram_fast, esp_ptr_in_rtc_slow, addr_in,
    SOC_DRAM_LOW, SOC_DRAM_HIGH, SOC_IRAM_LOW, SOC_IRAM_HIGH, SOC_RTC_IRAM_LOW, SOC_RTC_IRAM_HIGH, SOC_RTC_DRAM_LOW, SOC_RTC_DRAM_HIGH,
    SOC_RTC_DATA_LOW, SOC_RTC_DATA_HIGH in H.
  match type of H with (if ?c then _ else _) = _ => destruct c eqn:D; [lia|] end.
  match type of H with (if ?c then _ else _) = _ => destruct c eqn:I; [lia|] end.
  injection H as H. lia.
Qed.

Definition header_at m a : esp_image_segment_header_t := segment_header_of (read_bytes m a 8).

Lemma read_bytes_nth m a (n i : nat) : (i < n)%nat -> byte_at (read_bytes m a n) i = load8 m (a + Z.of_nat i).
Proof.
  unfold byte_at. revert a i. induction n as [|n IH]; intros a i Hi; [lia|]. destruct i as [|i]; cbn [read_bytes nth]; [by rewrite Z.add_0_r|].
  rewrite IH by lia. f_equal. lia.
Qed.

Lemma u32_at_read m a (n i : nat) : (i + 3 < n)%nat -> u32_at (read_bytes m a n) i = load32 m (a + Z.of_nat i).
Proof. intros H. unfold u32_at, load32. rewrite !read_bytes_nth by lia. by rewrite !Nat2Z.inj_add, !Z.add_assoc. Qed.

Lemma header_fields m a : load_addr (header_at m a) = load32 m a /\ data_len (header_at m a) = load32 m (a + 4).
Proof.
  unfold header_at, segment_header_of. cbn [load_addr data_len]. rewrite !u32_at_read by lia. split; f_equal; lia.
Qed.

(** The checks of a segment header at [a]. *)
Definition segment_valid m a : Prop :=
  let h := header_at m a in
  data_len h mod 4 = 0 /\ data_len h < SIXTEEN_MB /\
  (should_map (load_addr h) = true -> (a + 8) mod SPI_FLASH_MMU_PAGE_SIZE = load_addr h mod SPI_FLASH_MMU_PAGE_SIZE).

#[export] Instance segment_valid_dec m a : Decision (segment_valid m a).
Proof. unfold segment_valid. apply _. Defined.

Lemma land_3_mod x : 0 <= x -> (Z.land x 3 =? 0) = (x mod 4 =? 0).
Proof. intros. change 3 with (Z.ones 2). by rewrite Z.land_ones by lia. Qed.

Lemma verify_segment_valid m a : (verify_segment_header (header_at m a) (a + 8) =? ESP_OK) = bool_decide (segment_valid m a).
Proof.
  destruct (header_fields m a) as [E1 E2]. unfold verify_segment_header, segment_valid. pose proof (load32_range m (a + 4)) as R. rewrite <- E2 in R.
  unfold is_u32 in R. rewrite land_3_mod by lia. case_bool_decide as H.
  - destruct H as (H1 & H2 & H3). rewrite (proj2 (Z.eqb_eq _ _) H1). destruct (Z.leb_spec SIXTEEN_MB (data_len (header_at m a))); [lia|]. cbn [negb orb].
    destruct (should_map (load_addr (header_at m a))) eqn:Em; [|done]. by rewrite (proj2 (Z.eqb_eq _ _) (H3 eq_refl)).
  - destruct (Z.eqb_spec (data_len (header_at m a) mod 4) 0) as [H1|]; [|done]. destruct (Z.leb_spec SIXTEEN_MB (data_len (header_at m a))); [done|].
    cbn [negb orb]. destruct (should_map (load_addr (header_at m a))) eqn:Em.
    + destruct (Z.eqb_spec ((a + 8) mod SPI_FLASH_MMU_PAGE_SIZE) (load_addr (header_at m a) mod SPI_FLASH_MMU_PAGE_SIZE)); [|done]. by destruct H.
    + by destruct H.
Qed.

(** Whether the segment at [a] is loaded, and then where it may be. *)
Definition loaded (dl : bool) m a : bool := dl && should_load (load_addr (header_at m a)).
Definition load_allowed (dl : bool) m a : Prop :=
  let h := header_at m a in loaded dl m a = true -> 0 < data_len h ->
  verify_load_addresses 2 (s32 (load_addr h)) (s32 (u32 (s32 (load_addr h) + data_len h))) false = Ok true.

Lemma load_allowed_small dl m a : load_allowed dl m a -> loaded dl m a = true -> 0 < data_len (header_at m a) < SIXTEEN_MB ->
  data_len (header_at m a) <= PART /\ s32 (load_addr (header_at m a)) = load_addr (header_at m a).
Proof.
  intros A L H. specialize (A L ltac:(lia)). destruct (header_fields m a) as [E1 _]. pose proof (load32_range m a) as R. rewrite <- E1 in R.
  unfold is_u32 in R. revert A. set (x := load_addr (header_at m a)) in *. set (n := data_len (header_at m a)) in *. clearbody x n. intros A.
  unfold SIXTEEN_MB in H. assert (Hs : s32 x = x \/ s32 x < 0).
  { unfold s32. rewrite u32_small by done. case_match; lia. }
  apply load_addresses_small in A as [B1 B2].
  - destruct Hs as [Hs|]; [|lia]. rewrite Hs in *. split; [|done]. rewrite u32_small in B2 by (unfold is_u32; lia).
    rewrite s32_small in B2 by lia. unfold PART. lia.
  - intros E. assert (D : (s32 x + n) mod 2 ^ 32 = s32 x mod 2 ^ 32).
    { pose proof (u32_s32 (u32 (s32 x + n)) (u32_range _)) as U. rewrite E in U. symmetry. exact U. }
    Z.to_euclidean_division_equations; lia.
Qed.

(** The state after a segment: a loaded one leaves its masked copy. *)
Definition segment_effect dl a s s' : Prop :=
  let h := header_at (flash_mem s) a in
  if loaded dl (flash_mem s) a && (0 <? data_len h) then s' = after_part true (load_addr h) (a + 8) (data_len h) s else is_ram s' = is_ram s.

Lemma header_data_len m a : 0 <= data_len (header_at m a).
Proof. destruct (header_fields m a) as [_ ->]. pose proof (load32_range m (a + 4)). unfold is_u32 in *. lia. Qed.

(** What follows the checks of the header. *)
Lemma process_segment_begin dl a sha c s : 0 <= a -> a mod 4 = 0 -> a + SIXTEEN_MB + 8 < 2 ^ 32 -> segment_valid (flash_mem s) a ->
  let h := header_at (flash_mem s) a in
  process_segment a dl sha c s =
    fits ← (if loaded dl (flash_mem s) a && (0 <? data_len h) then verify_load_addresses 2 (s32 (load_addr h)) (s32 (u32 (s32 (load_addr h) + data_len h))) false
            else Ok true);
    if negb fits then Ok (ESP_ERR_IMAGE_INVALID, Some h, hashed sha (read_bytes (flash_mem s) a 8), c, s)
    else
      '(err, sha_handle, checksum, s) ←
        process_parts 6 (s32 (load_addr h)) (a + 8) (data_len h) (loaded dl (flash_mem s) a) (hashed sha (read_bytes (flash_mem s) a 8)) c s;
      Ok (err, Some h, sha_handle, checksum, s).
Proof.
  intros Ha Ha4 Hw V h. pose proof V as (V1 & V2 & _). fold h in V1, V2.
  unfold process_segment, SIZEOF_SEGMENT_HEADER. unfold SIXTEEN_MB in *. rewrite flash_read_run by (done || lia). cbn [negb Z.eqb].
  change (segment_header_of (read_bytes (flash_mem s) a (Z.to_nat 8))) with h. change (ESP_OK =? ESP_OK) with true. cbn [negb].
  rewrite sha_data_run by (by rewrite lenZ_read_bytes). ostep. rewrite (u32_small (a + 8)) by (unfold is_u32; lia).
  pose proof (verify_segment_valid (flash_mem s) a) as E. fold h in E. rewrite bool_decide_true in E by done. rewrite E. cbn [negb].
  rewrite V1. cbn [negb Z.eqb]. destruct (header_fields (flash_mem s) a) as [EL _]. fold h in EL.
  pose proof (load32_range (flash_mem s) a) as RL. rewrite <- EL in RL. by rewrite u32_s32.
Qed.

Lemma process_segment_run dl a sha c s : unmapped s -> 0 <= a -> a mod 4 = 0 -> a + SIXTEEN_MB + 8 < 2 ^ 32 ->
  segment_valid (flash_mem s) a -> load_allowed dl (flash_mem s) a ->
  let h := header_at (flash_mem s) a in exists s',
    process_segment a dl sha (Some c) s =
      Ok (ESP_OK, Some h, hashed sha (read_bytes (flash_mem s) a (Z.to_nat (8 + data_len h))),
          Some (xor_words (Z.to_nat (data_len h / 4)) (flash_mem s) (a + 8) c), s') /\
    same_env s s' /\ segment_effect dl a s s'.
Proof.
  intros Hm Ha Ha4 Hw V A h. pose proof V as (V1 & V2 & _). fold h in V1, V2. pose proof (header_data_len (flash_mem s) a) as Hn. fold h in Hn.
  rewrite process_segment_begin by done. fold h. unfold SIXTEEN_MB in *.
  assert (Hfits : (if loaded dl (flash_mem s) a && (0 <? data_len h) then verify_load_addresses 2 (s32 (load_addr h)) (s32 (u32 (s32 (load_addr h) + data_len h))) false
    else Ok true) = Ok true).
  { destruct (loaded dl (flash_mem s) a) eqn:L; [|done]. destruct (Z.ltb_spec 0 (data_len h)); [|done]. by apply A. }
  rewrite Hfits. ostep. cbn [negb].
  destruct (process_parts_run (loaded dl (flash_mem s) a) (s32 (load_addr h)) 6 (a + 8) (data_len h) (hashed sha (read_bytes (flash_mem s) a 8)) c s)
    as (s' & E2 & Es & R & Hp); [done|lia|lia|lia|done|unfold PART; lia|]. rewrite E2. ostep. exists s'. split; [|split; [done|]].
  - do 3 f_equal. f_equal. rewrite hashed_app. f_equal. replace (a + 8) with (a + Z.of_nat 8) by lia. rewrite <- read_bytes_app. f_equal. lia.
  - unfold segment_effect. fold h. destruct (loaded dl (flash_mem s) a) eqn:L; [|by apply R]. cbn [andb].
    destruct (Z.ltb_spec 0 (data_len h)) as [H0|H0].
    + destruct (load_allowed_small dl (flash_mem s) a A L) as [B1 B2]; [unfold SIXTEEN_MB; fold h; lia|]. fold h in B1, B2. rewrite B2 in Hp. apply Hp. lia.
    + assert (s' = s) as -> by (revert E2; cbn [process_parts]; destruct (Z.leb_spec (data_len h) 0); [|lia]; congruence). done.
Qed.

(** A header that is not valid ends the loading. *)
Lemma process_segment_invalid dl a sha c s : 0 <= a -> a mod 4 = 0 -> a + 8 < 2 ^ 32 -> ~ segment_valid (flash_mem s) a ->
  exists err sha', process_segment a dl sha (Some c) s = Ok (err, Some (header_at (flash_mem s) a), sha', Some c, s) /\ err <> ESP_OK.
Proof.
  intros Ha Ha4 Hw V. unfold process_segment, SIZEOF_SEGMENT_HEADER. rewrite flash_read_run by (done || lia). change (ESP_OK =? ESP_OK) with true. cbn [negb].
  change (segment_header_of (read_bytes (flash_mem s) a (Z.to_nat 8))) with (header_at (flash_mem s) a).
  rewrite sha_data_run by (by rewrite lenZ_read_bytes). ostep. rewrite (u32_small (a + 8)) by (unfold is_u32; lia).
  pose proof (verify_segment_valid (flash_mem s) a) as E. rewrite bool_decide_false in E by done. rewrite E. cbn [negb].
  eexists _, _. split; [done|]. by apply Z.eqb_neq.
Qed.

(** A segment that is read without an error was checked. *)
Lemma process_segment_ok dl a sha c s h sha' c' s' : 0 <= a -> a mod 4 = 0 -> a + SIXTEEN_MB + 8 < 2 ^ 32 ->
  process_segment a dl sha (Some c) s = Ok (ESP_OK, h, sha', c', s') -> segment_valid (flash_mem s) a /\ load_allowed dl (flash_mem s) a.
Proof.
  intros Ha Ha4 Hw H. assert (V : segment_valid (flash_mem s) a).
  { destruct (decide (segment_valid (flash_mem s) a)) as [|V]; [done|]. destruct (process_segment_invalid dl a sha c s Ha Ha4) as (err & x & E & He);
      [unfold SIXTEEN_MB in *; lia|done|]. rewrite E in H. congruence. }
  split; [done|]. intros L L0. rewrite (process_segment_begin dl a sha (Some c) s Ha Ha4 Hw V) in H.
  revert H. assert (E : loaded dl (flash_mem s) a && (0 <? data_len (header_at (flash_mem s) a)) = true) by (rewrite L; by apply Z.ltb_lt).
  rewrite E. generalize (verify_load_addresses 2 (s32 (load_addr (header_at (flash_mem s) a)))
    (s32 (u32 (s32 (load_addr (header_at (flash_mem s) a)) + data_len (header_at (flash_mem s) a)))) false).
  intros [[]| | |] H; [done| |discriminate..]. rewrite outcome_bind_Ok in H. cbv beta iota delta [negb] in H. by injection H.
Qed.

(** ** The segments of an image: [n] from the address [a] on *)
Fixpoint chain_end (n : nat) m a : Z :=
  match n with O => a | S n => chain_end n m (a + 8 + data_len (header_at m a)) end.
Fixpoint chain (n : nat) m a : list Z :=
  match n with O => [] | S n => a :: chain n m (a + 8 + data_len (header_at m a)) end.
(** The data of the segments. *)
Fixpoint chain_data (n : nat) m a : list Z :=
  match n with
  | O => []
  | S n => read_bytes m (a + 8) (Z.to_nat (data_len (header_at m a))) ++ chain_data n m (a + 8 + data_len (header_at m a))
  end.
Definition chain_valid (n : nat) m a : Prop := Forall (segment_valid m) (chain n m a).

Fixpoint set_from {A} (i : nat) (l : list A) (arr : list A) : list A :=
  match l with [] => arr | x :: l => set_from (S i) l (<[i := x]> arr) end.

(** The effects of the segments one after the other. *)
Fixpoint chain_effect dl (l : list Z) s s' : Prop :=
  match l with
  | [] => s' = s
  | a :: l => exists s1, segment_effect dl a s s1 /\ same_env s s1 /\ chain_effect dl l s1 s'
  end.

Lemma chain_effect_env dl l s s' : chain_effect dl l s s' -> same_env s s'.
Proof.
  revert s. induction l as [|a l IH]; intros s; cbn; [intros ->; apply same_env_refl|]. intros (s1 & _ & E & H). eapply same_env_trans; [exact E|by apply IH].
Qed.

Lemma chain_end_ge n m a : a <= chain_end n m a.
Proof.
  revert a. induction n as [|n IH]; intros a; cbn [chain_end]; [lia|]. pose proof (header_data_len m a).
  specialize (IH (a + 8 + data_len (header_at m a))). lia.
Qed.

Lemma chain_end_bound n m a : chain_valid n m a -> chain_end n m a <= a + Z.of_nat n * (SIXTEEN_MB + 8).
Proof.
  unfold chain_valid. revert a. induction n as [|n IH]; intros a; cbn [chain chain_end]; [lia|]. intros [(_ & V & _) F]%Forall_cons. apply IH in F. lia.
Qed.

Lemma chain_end_aligned n m a : chain_valid n m a -> a mod 4 = 0 -> chain_end n m a mod 4 = 0.
Proof.
  unfold chain_valid. revert a. induction n as [|n IH]; intros a; cbn [chain chain_end]; [done|]. intros [(V & _) F]%Forall_cons Ha.
  apply IH; [done|]. Z.to_euclidean_division_equations; lia.
Qed.

Lemma load_segments_run dl n : forall (i : nat) a sha c data s, unmapped s -> 0 <= a -> a mod 4 = 0 -> a + Z.of_nat n * (SIXTEEN_MB + 8) < 2 ^ 32 -> (i + n <= 16)%nat ->
  chain_valid n (flash_mem s) a -> Forall (load_allowed dl (flash_mem s)) (chain n (flash_mem s) a) -> exists c' s',
    load_segments n i a dl sha (Some c) data s =
      Ok (ESP_OK, chain_end n (flash_mem s) a, hashed sha (read_bytes (flash_mem s) a (Z.to_nat (chain_end n (flash_mem s) a - a))), Some c',
          data <| segments := set_from i (map (header_at (flash_mem s)) (chain n (flash_mem s) a)) (segments data) |>
               <| segment_data := set_from i (map (fun b => b + 8) (chain n (flash_mem s) a)) (segment_data data) |>, s') /\
    u8 (fold_word c') = xor_bytes (u8 (fold_word c)) (chain_data n (flash_mem s) a) /\ chain_effect dl (chain n (flash_mem s) a) s s'.
Proof.
  unfold chain_valid. induction n as [|n IH]; intros i a sha c data s Hm Ha Ha4 Hw Hi V A.
  { exists c, s. cbn. rewrite Z.sub_diag. cbn. rewrite hashed_nil. split; [by destruct data|]. by split. }
  cbn [chain] in V, A. apply Forall_cons in V as [V1 V], A as [A1 A]. cbn [load_segments]. destruct (Nat.leb_spec 16 i) as [|_]; [lia|].
  pose proof (chain_end_ge n (flash_mem s) (a + 8 + data_len (header_at (flash_mem s) a))) as He. pose proof V1 as (V4 & V2 & _).
  pose proof (header_data_len (flash_mem s) a) as Hn. unfold SIXTEEN_MB in *. unfold SIZEOF_SEGMENT_HEADER.
  destruct (process_segment_run dl a sha c s Hm Ha Ha4) as (s1 & E & Es & Ef); [unfold SIXTEEN_MB; lia|done|done|]. rewrite E. ostep.
  change (ESP_OK =? ESP_OK) with true. cbn [negb]. rewrite (u32_small (a + 8)) by (unfold is_u32; lia). rewrite u32_small by (unfold is_u32; lia).
  pose proof (same_env_mem _ _ Es) as Em. set (h := header_at (flash_mem s) a) in *. set (data1 := data <| segments := _ |> <| segment_data := _ |>).
  destruct (IH (S i) (a + 8 + data_len h) (hashed sha (read_bytes (flash_mem s) a (Z.to_nat (8 + data_len h))))
    (xor_words (Z.to_nat (data_len h / 4)) (flash_mem s) (a + 8) c) data1 s1) as (c' & s2 & E2 & C2 & F2); rewrite ?Em;
    [by apply (same_env_unmapped s)|lia|Z.to_euclidean_division_equations; lia|lia|lia|done|done|].
  rewrite Em in E2, C2, F2. exists c', s2. rewrite E2. cbn [chain chain_end chain_data map set_from]. fold h. split; [|split].
  - do 3 f_equal. f_equal. f_equal. rewrite hashed_app. f_equal. replace (a + 8 + data_len h) with (a + Z.of_nat (Z.to_nat (8 + data_len h))) at 1 by lia.
    rewrite <- read_bytes_app. f_equal. lia.
  - rewrite C2, xor_bytes_app, xor_words_bytes. do 3 f_equal. Z.to_euclidean_division_equations; lia.
  - exists s1. split; [exact Ef|by split].
Qed.

(** Segments that are read without an error were all checked. *)
Lemma load_segments_ok dl n : forall (i : nat) a sha c data s nx sha' c' data' s', unmapped s -> 0 <= a -> a mod 4 = 0 ->
  a + Z.of_nat n * (SIXTEEN_MB + 8) < 2 ^ 32 -> load_segments n i a dl sha (Some c) data s = Ok (ESP_OK, nx, sha', c', data', s') ->
  chain_valid n (flash_mem s) a /\ Forall (load_allowed dl (flash_mem s)) (chain n (flash_mem s) a).
Proof.
  unfold chain_valid. induction n as [|n IH]; intros i a sha c data s nx sha' c' data' s' Hm Ha Ha4 Hw H; [done|].
  cbn [chain load_segments] in *. destruct (16 <=? i)%nat; [done|]. unfold SIXTEEN_MB in Hw. unfold SIZEOF_SEGMENT_HEADER in H.
  assert (VA : segment_valid (flash_mem s) a /\ load_allowed dl (flash_mem s) a).
  { destruct (process_segment a dl sha (Some c) s) as [[[[[err h] sha1] c1] s1] | | |] eqn:E; [|done..]. rewrite outcome_bind_Ok in H.
    assert (err = ESP_OK) as ->. { destruct h; [|congruence]. destruct (Z.eqb_spec err ESP_OK); [done|]. cbn [negb] in H. congruence. }
    eapply process_segment_ok; [exact Ha|exact Ha4|unfold SIXTEEN_MB; lia|exact E]. }
  destruct VA as [V A]. pose proof V as (V4 & V2 & _). unfold SIXTEEN_MB in V2. pose proof (header_data_len (flash_mem s) a) as Hn.
  destruct (process_segment_run dl a sha c s Hm Ha Ha4) as (s1 & E & Es & _); [unfold SIXTEEN_MB; lia|done|done|]. rewrite E, outcome_bind_Ok in H.
  change (ESP_OK =? ESP_OK) with true in H. cbn [negb] in H. rewrite (u32_small (a + 8)), u32_small in H by (unfold is_u32; lia).
  apply IH in H; [|by apply (same_env_unmapped s)|lia|Z.to_euclidean_division_equations; lia|unfold SIXTEEN_MB; lia]. rewrite (same_env_mem _ _ Es) in H.
  destruct H as [H1 H2]. by split; constructor.
Qed.

Lemma load_segments_invalid n : forall (i : nat) a sha c data s, unmapped s -> 0 <= a -> a mod 4 = 0 -> a + Z.of_nat n * (SIXTEEN_MB + 8) < 2 ^ 32 -> (i + n <= 16)%nat ->
  ~ chain_valid n (flash_mem s) a -> exists err next sha' c' data' s',
    load_segments n i a false sha (Some c) data s = Ok (err, next, sha', c', data', s') /\ err <> ESP_OK /\ same_env s s' /\ is_ram s' = is_ram s.
Proof.
  unfold chain_valid. induction n as [|n IH]; intros i a sha c data s Hm Ha Ha4 Hw Hi V; [destruct V; constructor|].
  cbn [chain load_segments] in *. destruct (Nat.leb_spec 16 i) as [|_]; [lia|]. unfold SIXTEEN_MB in *. unfold SIZEOF_SEGMENT_HEADER.
  pose proof (header_data_len (flash_mem s) a) as Hn. destruct (decide (segment_valid (flash_mem s) a)) as [V1|V1].
  - pose proof V1 as (V4 & V2 & _). unfold SIXTEEN_MB in V2.
    destruct (process_segment_run false a sha c s Hm Ha Ha4) as (s1 & E & Es & Ef); [unfold SIXTEEN_MB; lia|done|by intros ?|]. rewrite E. ostep.
    change (ESP_OK =? ESP_OK) with true. cbn [negb]. rewrite (u32_small (a + 8)) by (unfold is_u32; lia). rewrite u32_small by (unfold is_u32; lia).
    pose proof (same_env_mem _ _ Es) as Em. edestruct (IH (S i)) with (s := s1) as (err & next & sha' & c' & data' & s2 & E2 & He & Es2 & R2);
      [by apply (same_env_unmapped s)|..|]; [| | | | |rewrite E2]; rewrite ?Em; [lia|Z.to_euclidean_division_equations; lia|lia|lia|intros F; apply V; by constructor|].
    do 6 eexists. split; [done|]. split; [done|]. split; [by eapply same_env_trans|]. by rewrite R2.
  - destruct (process_segment_invalid false a sha c s Ha Ha4) as (err & sha' & E & He); [lia|done|]. rewrite E. ostep.
    apply Z.eqb_neq in He as He'. rewrite He'. cbn [negb]. do 6 eexists. split; [done|]. split; [done|]. split; [apply same_env_refl|done].
Qed.
End segments.
