(* ===== verification/ImageVerify.v ===== *)
(** * Image format: what verification accepts, and what loading leaves

    [image_valid] says in terms of the bytes in flash what a valid image is;
    verification accepts exactly the valid images, and loading puts the data of
    their segments into RAM. *)
From S2P Require Import Prelude Mem EspFlash Partition BootFlash ImageFormat ImageProofs.

Section verify.
Context {env : PartitionEnv} {rom : BootRom} {ienv : ImageEnv}.
Implicit Types (s : image_state) (m : mem) (a len : Z) (part : esp_partition_pos_t).

(** ** Valid images *)

(** The length with the checksum, to a full block of 16 bytes. *)
Definition padded_len len : Z := (len / 16 + 1) * 16.

Definition image_header m a : esp_image_header_t := header_of (read_bytes m a 24).
Definition image_segments m a : nat := Z.to_nat (segment_count (image_header m a)).
Definition image_end m a : Z := chain_end (image_segments m a) m (a + 24).
Definition unpadded m a : Z := image_end m a - a.
Definition has_hash m a : bool := negb (hash_appended (image_header m a) =? 0).
Definition total_len m a : Z := padded_len (unpadded m a) + (if has_hash m a then 32 else 0).

Record image_valid m part : Prop := {
  iv_size : pos_size part <= SIXTEEN_MB;
  iv_magic : magic (image_header m (offset part)) = ESP_IMAGE_HEADER_MAGIC;
  iv_chip : chip_id (image_header m (offset part)) = CONFIG_IDF_FIRMWARE_CHIP_ID;
  iv_revision : min_chip_rev (image_header m (offset part)) <= chip_revision;
  iv_count : segment_count (image_header m (offset part)) <= ESP_IMAGE_MAX_SEGMENTS;
  iv_chain : chain_valid (image_segments m (offset part)) m (offset part + 24);
  iv_checksum : load8 m (offset part + padded_len (unpadded m (offset part)) - 1) =
    xor_bytes ESP_ROM_CHECKSUM_INITIAL (chain_data (image_segments m (offset part)) m (offset part + 24));
  iv_fits : offset part <> ESP_BOOTLOADER_OFFSET -> total_len m (offset part) <= pos_size part;
  iv_hash : offset part <> ESP_BOOTLOADER_OFFSET -> has_hash m (offset part) = true ->
    read_bytes m (offset part + padded_len (unpadded m (offset part))) 32 =
    sha256 (read_bytes m (offset part) (Z.to_nat (padded_len (unpadded m (offset part)))))
}.

#[export] Instance image_valid_dec m part : Decision (image_valid m part).
Proof.
  refine (cast_if (decide (pos_size part <= SIXTEEN_MB /\ magic (image_header m (offset part)) = ESP_IMAGE_HEADER_MAGIC /\
    chip_id (image_header m (offset part)) = CONFIG_IDF_FIRMWARE_CHIP_ID /\ min_chip_rev (image_header m (offset part)) <= chip_revision /\
    segment_count (image_header m (offset part)) <= ESP_IMAGE_MAX_SEGMENTS /\
    Forall (segment_valid m) (chain (image_segments m (offset part)) m (offset part + 24)) /\
    load8 m (offset part + padded_len (unpadded m (offset part)) - 1) =
      xor_bytes ESP_ROM_CHECKSUM_INITIAL (chain_data (image_segments m (offset part)) m (offset part + 24)) /\
    (offset part <> ESP_BOOTLOADER_OFFSET -> total_len m (offset part) <= pos_size part) /\
    (offset part <> ESP_BOOTLOADER_OFFSET -> has_hash m (offset part) = true ->
      read_bytes m (offset part + padded_len (unpadded m (offset part))) 32 =
      sha256 (read_bytes m (offset part) (Z.to_nat (padded_len (unpadded m (offset part)))))))));
  [destruct_and?; by constructor|intros []; naive_solver].
Defined.

(** The metadata of the image. *)
Definition metadata_of m a : esp_image_metadata_t :=
  let l := chain (image_segments m a) m (a + 24) in
  mkMetadata a (image_header m a) (set_from 0 (map (header_at m) l) (replicate 16 (mkSegmentHeader 0 0)))
    (set_from 0 (map (fun b => b + 8) l) (replicate 16 0)) (total_len m a)
    (if has_hash m a then read_bytes m (a + total_len m a - 32) 32 else replicate 32 0).

(** The mapping works, the random generator gives a mask at last, no debugger is
    attached; the partition is aligned and below [2^31]. *)
Context (Hcache : forall a n, cache_flash_mmu_set a n = true) (fill : Z * Z) (Hfill : List.find both_set random_fills = Some fill).
Context (Hdebug : esp_cpu_in_ocd_debug_mode = false).

Definition aligned_part part : Prop := 0 <= offset part < 2 ^ 31 /\ offset part mod 4 = 0.

Lemma padded_bounds len : 0 <= len -> len < padded_len len <= len + 16 /\ padded_len len mod 16 = 0.
Proof. intros. unfold padded_len. Z.to_euclidean_division_equations; lia. Qed.

Lemma padded_code len : 0 <= len < 2 ^ 31 -> Z.ldiff (u32 (u32 (len + 1) + 15)) 15 = padded_len len.
Proof.
  intros H. rewrite (u32_small (len + 1)) by (unfold is_u32; lia). rewrite u32_small by (unfold is_u32; lia).
  change (Z.ldiff (len + 1 + 15) 15) with (align_down (2 ^ 4) (len + 1 + 15)). rewrite align_down_pow2 by lia. unfold padded_len.
  Z.to_euclidean_division_equations; lia.
Qed.

(** The length of the image as read. *)
Lemma unpadded_facts m part : aligned_part part -> segment_count (image_header m (offset part)) <= ESP_IMAGE_MAX_SEGMENTS ->
  chain_valid (image_segments m (offset part)) m (offset part + 24) ->
  24 <= unpadded m (offset part) < 2 ^ 29 /\ unpadded m (offset part) mod 4 = 0 /\
  offset part + 24 + Z.of_nat (image_segments m (offset part)) * (SIXTEEN_MB + 8) < 2 ^ 32 /\ (0 + image_segments m (offset part) <= 16)%nat.
Proof.
  intros [Ha Ha4] Hc V. unfold unpadded, image_end. pose proof (chain_end_ge (image_segments m (offset part)) m (offset part + 24)).
  pose proof (chain_end_bound _ _ _ V) as B. pose proof (chain_end_aligned _ _ _ V ltac:(Z.to_euclidean_division_equations; lia)) as A.
  assert (N : (image_segments m (offset part) <= 16)%nat) by (unfold image_segments, ESP_IMAGE_MAX_SEGMENTS in *; lia).
  unfold SIXTEEN_MB in *. split; [lia|]. split; [Z.to_euclidean_division_equations; lia|]. lia.
Qed.

(** ** The checksum *)
Lemma verify_checksum_run sha c data s : let a := start_addr data in let len := image_len data in
  0 <= a < 2 ^ 31 -> a mod 4 = 0 -> 0 <= len < 2 ^ 29 -> len mod 4 = 0 ->
  verify_checksum sha c data s =
    if bool_decide (load8 (flash_mem s) (a + padded_len len - 1) = u8 (fold_word c))
    then Ok (ESP_OK, hashed sha (read_bytes (flash_mem s) (a + len) (Z.to_nat (padded_len len - len))),
             data <| image_len := padded_len len + (if hash_appended (image data) =? 0 then 0 else 32) |>)
    else Ok (ESP_ERR_IMAGE_INVALID, sha, data).
Proof.
  intros a len Ha Ha4 Hl Hl4. unfold verify_checksum. fold len a. rewrite padded_code by lia. destruct (padded_bounds len) as [P1 P2]; [lia|].
  rewrite (u32_small (a + len)) by (unfold is_u32; lia). rewrite flash_read_run by (done || Z.to_euclidean_division_equations; lia).
  rewrite read_bytes_nth by lia. replace (a + len + Z.of_nat (Z.to_nat (padded_len len - len - 1))) with (a + padded_len len - 1) by lia.
  change (ESP_OK =? ESP_OK) with true. cbn [negb orb]. case_bool_decide as H.
  - rewrite H, Z.eqb_refl. cbn [negb]. rewrite sha_data_run; [|rewrite lenZ_read_bytes by lia; Z.to_euclidean_division_equations; lia]. ostep.
    do 3 f_equal. unfold HASH_LEN. destruct (hash_appended (image data) =? 0); [by rewrite Z.add_0_r|]. rewrite u32_small by (unfold is_u32; lia). done.
  - destruct (Z.eqb_spec (u8 (fold_word c)) (load8 (flash_mem s) (a + padded_len len - 1))); [congruence|]. done.
Qed.

Lemma simple_hash_run h data s : unmapped s -> 0 <= start_addr data + image_len data - HASH_LEN < 2 ^ 32 ->
  verify_simple_hash h data s =
    Ok (if bool_decide (read_bytes (flash_mem s) (start_addr data + image_len data - HASH_LEN) 32 = sha256 h) then ESP_OK else ESP_ERR_IMAGE_INVALID, s).
Proof.
  intros Hm H. unfold verify_simple_hash. rewrite u32_small by done. unfold bootloader_mmap. unfold unmapped in Hm. rewrite Hm, Hcache.
  destruct (Z.ltb_spec MMU_SIZE HASH_LEN); [done|]. cbn [negb]. destruct s as [[chip mp] ram ob]. cbn in Hm. subst mp.
  change (flash_mem _) with (flash_mem (mkImageState (mkBootFlash chip false) ram ob)). by case_bool_decide.
Qed.

(** ** After the segments *)

(** The conditions that are checked last. *)
Record end_valid m part (c : Z) : Prop := {
  ev_checksum : load8 m (offset part + padded_len (unpadded m (offset part)) - 1) = u8 (fold_word c);
  ev_fits : offset part <> ESP_BOOTLOADER_OFFSET -> total_len m (offset part) <= pos_size part;
  ev_hash : offset part <> ESP_BOOTLOADER_OFFSET -> has_hash m (offset part) = true ->
    read_bytes m (offset part + padded_len (unpadded m (offset part))) 32 =
    sha256 (read_bytes m (offset part) (Z.to_nat (padded_len (unpadded m (offset part)))))
}.

(** What has been hashed and collected when the segments are read. *)
Definition read_so_far m a (sha : option (list Z)) (data : esp_image_metadata_t) : Prop :=
  start_addr data = a /\ image data = image_header m a /\
  sha = if has_hash m a then Some (read_bytes m a (Z.to_nat (unpadded m a))) else None.

Definition finished m a (data : esp_image_metadata_t) : esp_image_metadata_t :=
  let data := data <| image_len := total_len m a |> in
  if has_hash m a then data <| image_digest := read_bytes m (a + total_len m a - 32) 32 |> else data.

Lemma map_digest_run x s : unmapped s -> bootloader_mmap x HASH_LEN (is_flash s) = (true, (is_flash s) <| bf_mapped := true |>).
Proof. intros Hm. unfold bootloader_mmap. unfold unmapped in Hm. rewrite Hm, Hcache. by destruct (Z.ltb_spec MMU_SIZE HASH_LEN). Qed.

Lemma verify_image_run m part sha c data s : let a := offset part in
  unmapped s -> flash_mem s = m -> aligned_part part -> segment_count (image_header m a) <= ESP_IMAGE_MAX_SEGMENTS ->
  chain_valid (image_segments m a) m (a + 24) -> read_so_far m a sha data ->
  exists err data', verify_image part (image_end m a) sha c data s = Ok (err, data', s) /\
    (err = ESP_OK <-> end_valid m part c) /\ (err = ESP_OK -> data' = finished m a data).
Proof.
  intros a Hm Em Hp Hc V (Ea & Ei & Esha). destruct (unpadded_facts m part Hp Hc V) as (U1 & U2 & _). fold a in U1, U2. destruct Hp as [Ha Ha4]. fold a in Ha, Ha4.
  destruct (padded_bounds (unpadded m a)) as [P1 P2]; [lia|].
  unfold verify_image. rewrite Ea. fold (unpadded m a). destruct (Z.ltb_spec (image_end m a) a) as [|_]; [unfold unpadded in *; lia|].
  change (image_end m a - a) with (unpadded m a). rewrite u32_small by (unfold is_u32; lia). rewrite Hdebug.
  set (data1 := data <| image_len := unpadded m a |>).
  pose proof (verify_checksum_run sha c data1 s) as E. cbv zeta in E. change (start_addr data1) with (start_addr data) in E.
  change (image_len data1) with (unpadded m a) in E. rewrite Ea in E. rewrite E by (done || lia). clear E. rewrite Em.
  case_bool_decide as H1.
  2: { ostep. exists ESP_ERR_IMAGE_INVALID, data1. split; [done|]. split; [|done]. split; [done|]. intros [H _ _]. done. }
  ostep. change (ESP_OK =? ESP_OK) with true. cbn [negb]. change (image data1) with (image data). rewrite Ei.
  set (data2 := data1 <| image_len := _ |>). assert (Hlen : image_len data2 = total_len m a).
  { change (image_len data2) with (padded_len (unpadded m a) + (if hash_appended (image_header m a) =? 0 then 0 else 32)).
    unfold total_len, has_hash. by destruct (hash_appended (image_header m a) =? 0). }
  assert (Hd2 : data2 = data <| image_len := total_len m a |>) by by rewrite <- Hlen.
  change (start_addr data2) with (start_addr data). change (image data2) with (image data). rewrite Ea, Ei, Hlen.
  assert (HT : total_len m a = padded_len (unpadded m a) + (if has_hash m a then 32 else 0)) by done.
  assert (Hsha : hashed sha (read_bytes m (a + unpadded m a) (Z.to_nat (padded_len (unpadded m a) - unpadded m a))) =
    if has_hash m a then Some (read_bytes m a (Z.to_nat (padded_len (unpadded m a)))) else None).
  { rewrite Esha. destruct (has_hash m a); [|done]. cbn. f_equal. replace (a + unpadded m a) with (a + Z.of_nat (Z.to_nat (unpadded m a))) at 1 by lia.
    rewrite <- read_bytes_app. f_equal. lia. }
  rewrite Hsha. destruct (negb (a =? ESP_BOOTLOADER_OFFSET) && (pos_size part <? total_len m a)) eqn:Hfit.
  { exists ESP_ERR_IMAGE_INVALID, data2. split; [done|]. split; [|done]. split; [done|]. intros [_ Hf _]. fold a in Hf. lia. }
  assert (Hfits : a <> ESP_BOOTLOADER_OFFSET -> total_len m a <= pos_size part) by lia. clear Hfit.
  unfold has_hash in Hsha, HT |- *. unfold finished, has_hash. destruct (Z.eqb_spec (hash_appended (image_header m a)) 0) as [H0|H0]; cbn [negb] in *.
  { ostep. exists ESP_OK, data2. split; [done|]. split; [|intros _; exact Hd2]. split; [|done]. intros _. split; [done|done|].
    intros _. unfold has_hash. fold a. apply Z.eqb_eq in H0 as ->. done. }
  assert (Ht : 0 <= a + total_len m a - 32 < 2 ^ 32) by lia.
  assert (Es : s <| is_flash := (is_flash s) <| bf_mapped := true |> |> <| is_flash := bootloader_munmap (is_flash (s <| is_flash := (is_flash s) <| bf_mapped := true |> |>)) |> = s).
  { destruct s as [[chip mp] ram ob]. unfold unmapped in Hm. cbn in Hm |- *. by subst mp. }
  destruct (Z.eqb_spec a ESP_BOOTLOADER_OFFSET) as [Hb|Hb]; cbn [negb andb].
  - ostep. rewrite u32_small by exact Ht. rewrite (map_digest_run _ s Hm). cbn [negb]. rewrite Es.
    exists ESP_OK. eexists. split; [done|]. split; [split; [intros _; split; [done|done|done]|done]|]. intros _.
    change (flash_mem (s <| is_flash := (is_flash s) <| bf_mapped := true |> |>)) with (flash_mem s). by rewrite Em, Hd2.
  - pose proof (simple_hash_run (read_bytes m a (Z.to_nat (padded_len (unpadded m a)))) data2 s Hm) as E. change (start_addr data2) with (start_addr data) in E.
    rewrite Ea, Hlen, Em in E. unfold HASH_LEN at 1 in E. rewrite E by exact Ht. clear E. ostep. rewrite u32_small by exact Ht.
    rewrite (map_digest_run _ s Hm). cbn [negb]. rewrite Es. eexists _, _. split; [done|]. unfold HASH_LEN.
    assert (Hat : a + total_len m a - 32 = a + padded_len (unpadded m a)) by lia. rewrite Hat. split.
    + case_bool_decide as Hh; [split; [intros _; split; [done|done|done]|done]|]. split; [done|]. intros [_ _ He]. exfalso. apply Hh, He; [done|].
      unfold has_hash. fold a. by apply Z.eqb_neq in H0 as ->.
    + intros _. change (flash_mem (s <| is_flash := (is_flash s) <| bf_mapped := true |> |>)) with (flash_mem s). by rewrite Em, Hd2.
Qed.

(** ** The whole image *)
Lemma verify_header_spec h : verify_image_header h = ESP_OK <->
  magic h = ESP_IMAGE_HEADER_MAGIC /\ chip_id h = CONFIG_IDF_FIRMWARE_CHIP_ID /\ min_chip_rev h <= chip_revision.
Proof.
  unfold verify_image_header, bootloader_common_check_chip_validity.
  destruct (Z.eqb_spec (magic h) ESP_IMAGE_HEADER_MAGIC), (Z.eqb_spec CONFIG_IDF_FIRMWARE_CHIP_ID (chip_id h)), (Z.ltb_spec chip_revision (min_chip_rev h));
    cbn; split; naive_solver lia.
Qed.

Definition loads (mode : esp_image_load_mode_t) : bool := match mode with ESP_IMAGE_LOAD | ESP_IMAGE_LOAD_NO_VALIDATE => true | _ => false end.
Definition validates (mode : esp_image_load_mode_t) : bool := match mode with ESP_IMAGE_LOAD_NO_VALIDATE => false | _ => true end.

(** The metadata and the hash when the segments begin. *)
Definition begun part m : esp_image_metadata_t := zero_metadata <| start_addr := offset part |> <| image := image_header m (offset part) |>.
Definition begun_hash m a : option (list Z) := if has_hash m a then Some (read_bytes m a 24) else None.

(** The loading up to the segments. *)
Lemma image_load_begin mode part s : let m := flash_mem s in let a := offset part in
  validates mode = true -> aligned_part part ->
  image_load mode part s =
    if SIXTEEN_MB <? pos_size part then fail_load ESP_ERR_INVALID_ARG s
    else if negb (verify_image_header (image_header m a) =? ESP_OK) then fail_load (verify_image_header (image_header m a)) s
    else if ESP_IMAGE_MAX_SEGMENTS <? segment_count (image_header m a) then fail_load ESP_OK s
    else
      '(err, next_addr, sha_handle, checksum, data, s) ←
        load_segments (image_segments m a) 0 (a + 24) (loads mode) (begun_hash m a) (Some ESP_ROM_CHECKSUM_INITIAL) (begun part m) s;
      if negb (err =? ESP_OK) then fail_load err s
      else
        '(err, data, s) ← (match checksum with
                           | Some checksum_word => verify_image part next_addr sha_handle checksum_word data s
                           | None => Ok (ESP_OK, data, s)
                           end);
        if negb (err =? ESP_OK) then fail_load err s
        else Ok (ESP_OK, data,
          if loads mode && both_set (ram_obfs_value s)
          then s <| is_ram := deobfuscate (take (Z.to_nat (segment_count (image data))) (segments data)) (ram_obfs_value s) (is_ram s) |>
          else s).
Proof.
  intros m a Hv [Ha Ha4]. fold a in Ha, Ha4. unfold image_load. change (match mode with ESP_IMAGE_LOAD_NO_VALIDATE => false | _ => true end) with (validates mode).
  change (match mode with ESP_IMAGE_LOAD | ESP_IMAGE_LOAD_NO_VALIDATE => true | _ => false end) with (loads mode). rewrite Hv.
  destruct (SIXTEEN_MB <? pos_size part); [done|]. change (start_addr (zero_metadata <| start_addr := offset part |>)) with a.
  unfold SIZEOF_HEADER. rewrite flash_read_run by (done || lia). change (ESP_OK =? ESP_OK) with true. cbn [negb andb]. cbv zeta.
  change (header_of (read_bytes (flash_mem s) a (Z.to_nat 24))) with (image_header m a). fold (begun part m).
  change (zero_metadata <| start_addr := offset part |> <| image := image_header m a |>) with (begun part m).
  change (image (begun part m)) with (image_header m a). change (start_addr (begun part m)) with a.
  assert (E : (if negb (hash_appended (image_header m a) =? 0) then sha_data (Some []) (read_bytes (flash_mem s) a (Z.to_nat 24)) else Ok None) = Ok (begun_hash m a)).
  { unfold begun_hash, has_hash. destruct (negb _); [|done]. by rewrite sha_data_run by (by rewrite lenZ_read_bytes). }
  rewrite E. ostep. rewrite u32_small by (unfold is_u32; lia). done.
Qed.

Lemma begun_read m part sg sd data : data = (begun part m) <| segments := sg |> <| segment_data := sd |> ->
  image_end m (offset part) - (offset part + 24) >= 0 ->
  read_so_far m (offset part) (hashed (begun_hash m (offset part)) (read_bytes m (offset part + 24) (Z.to_nat (image_end m (offset part) - (offset part + 24))))) data.
Proof.
  intros -> H. split; [done|]. split; [done|]. unfold begun_hash. destruct (has_hash m (offset part)); [|done]. cbn [hashed]. f_equal.
  change (offset part + 24) with (offset part + Z.of_nat 24). rewrite <- read_bytes_app. f_equal. unfold unpadded. lia.
Qed.

Lemma length_chain n m a : length (chain n m a) = n.
Proof. revert a. induction n as [|n IH]; intros a; cbn; [done|]. by rewrite IH. Qed.

Lemma set_from_app {A} (l arr pre : list A) : (length l <= length arr)%nat -> set_from (length pre) l (pre ++ arr) = pre ++ l ++ drop (length l) arr.
Proof.
  revert arr pre. induction l as [|x l IH]; intros [|y arr] pre H; cbn [length set_from drop app] in *; [done|done|lia|].
  rewrite insert_app_r_alt, Nat.sub_diag by lia. cbn. specialize (IH arr (pre ++ [x]) ltac:(lia)). rewrite length_app in IH. cbn in IH.
  rewrite <- Nat.add_1_r, cons_middle, app_assoc, IH. by rewrite <- app_assoc.
Qed.

Lemma take_set_from {A} (l arr : list A) : (length l <= length arr)%nat -> take (length l) (set_from 0 l arr) = l.
Proof. intros H. pose proof (set_from_app l arr [] H) as E. cbn in E. rewrite E. apply take_app_length. Qed.

(** A valid image loads, with the effect of its segments. *)
Lemma image_load_valid mode part s : let m := flash_mem s in let l := chain (image_segments m (offset part)) m (offset part + 24) in
  validates mode = true -> unmapped s -> aligned_part part -> image_valid m part -> Forall (load_allowed (loads mode) m) l ->
  exists s1, chain_effect fill (loads mode) l s s1 /\
    image_load mode part s = Ok (ESP_OK, metadata_of m (offset part),
      if loads mode && both_set (ram_obfs_value s1)
      then s1 <| is_ram := deobfuscate (map (header_at m) l) (ram_obfs_value s1) (is_ram s1) |> else s1).
Proof.
  intros m l Hv Hm Hp V A. destruct V as [V1 V2 V3 V4 V5 V6 V7 V8 V9]. rewrite (image_load_begin mode part s Hv Hp). fold m.
  destruct (Z.ltb_spec SIXTEEN_MB (pos_size part)); [lia|]. assert (Hh : verify_image_header (image_header m (offset part)) = ESP_OK) by by apply verify_header_spec.
  rewrite Hh. change (ESP_OK =? ESP_OK) with true. cbn [negb]. destruct (Z.ltb_spec ESP_IMAGE_MAX_SEGMENTS (segment_count (image_header m (offset part)))); [lia|].
  destruct (unpadded_facts m part Hp V5 V6) as (U1 & _ & U3 & U4). pose proof Hp as [Ha Ha4].
  destruct (load_segments_run Hcache fill Hfill (loads mode) (image_segments m (offset part)) 0 (offset part + 24) (begun_hash m (offset part))
    ESP_ROM_CHECKSUM_INITIAL (begun part m) s Hm) as (c & s1 & E & C & F); [lia|Z.to_euclidean_division_equations; lia|exact U3|exact U4|exact V6|exact A|].
  fold m in E, C, F. rewrite E. ostep. change (ESP_OK =? ESP_OK) with true. cbn [negb]. fold (image_end m (offset part)).
  pose proof (chain_effect_env fill Hfill _ _ _ _ F) as Es. pose proof (chain_end_ge (image_segments m (offset part)) m (offset part + 24)) as Hge.
  set (data := (begun part m) <| segments := _ |> <| segment_data := _ |>).
  destruct (verify_image_run m part (hashed (begun_hash m (offset part)) (read_bytes m (offset part + 24) (Z.to_nat (image_end m (offset part) - (offset part + 24)))))
    c data s1) as (err & data' & E2 & He & Hd); [by eapply same_env_unmapped|by eapply same_env_mem|done|done|done| |].
  { eapply begun_read; [reflexivity|unfold image_end; lia]. }
  assert (err = ESP_OK) as -> by (apply He; split; [|done|done]; rewrite C; exact V7). rewrite E2. ostep. change (ESP_OK =? ESP_OK) with true. cbn [negb].
  exists s1. split; [exact F|]. rewrite Hd by done. do 2 f_equal.
  - f_equal. unfold finished, metadata_of. by destruct (has_hash m (offset part)).
  - replace (take _ _) with (map (header_at m) l); [done|]. unfold finished. symmetry.
    replace (segments _) with (set_from 0 (map (header_at m) l) (replicate 16 (mkSegmentHeader 0 0))) by (by destruct (has_hash m (offset part))).
    replace (image _) with (image_header m (offset part)) by (by destruct (has_hash m (offset part))).
    fold (image_segments m (offset part)). assert (Hl : image_segments m (offset part) = length (map (header_at m) l)) by (by rewrite length_map; unfold l; rewrite length_chain).
    rewrite Hl. apply take_set_from. rewrite <- Hl. cbn [length replicate]. lia.
Qed.

(** ** Verifying *)
Lemma chain_effect_verify l s s' : chain_effect fill false l s s' -> is_ram s' = is_ram s.
Proof.
  revert s. induction l as [|a l IH]; intros s; cbn; [by intros ->|]. intros (s1 & E & _ & F). apply IH in F. rewrite F. exact E.
Qed.

Lemma load_allowed_verify m l : Forall (load_allowed false m) l.
Proof. apply Forall_forall. by intros a _ ?. Qed.

Lemma fail_load_spec err s : exists err', fail_load err s = Ok (err', zero_metadata, s) /\ err' <> ESP_OK.
Proof. unfold fail_load. destruct (Z.eqb_spec err ESP_OK); eexists; (split; [reflexivity|done]). Qed.

(** What refuses an image leaves flash and RAM as they are. *)
Definition refused (r : outcome (Z * esp_image_metadata_t * image_state)) s : Prop :=
  exists err s', r = Ok (err, zero_metadata, s') /\ err <> ESP_OK /\ is_flash s' = is_flash s /\ is_ram s' = is_ram s.

Lemma fail_load_refused err s s' : is_flash s' = is_flash s -> is_ram s' = is_ram s -> refused (fail_load err s') s.
Proof. intros. destruct (fail_load_spec err s') as (e & -> & ?). by exists e, s'. Qed.

Lemma image_verify_invalid mode part s : validates mode = true -> loads mode = false -> unmapped s -> aligned_part part -> ~ image_valid (flash_mem s) part ->
  refused (image_load mode part s) s.
Proof.
  intros Hv Hl Hm Hp V. rewrite (image_load_begin mode part s Hv Hp). cbv zeta. rewrite Hl. set (m := flash_mem s) in *. pose proof Hp as [Ha Ha4].
  destruct (Z.ltb_spec SIXTEEN_MB (pos_size part)) as [|V1]; [by apply fail_load_refused|].
  destruct (Z.eqb_spec (verify_image_header (image_header m (offset part))) ESP_OK) as [Vh|]; [|by apply fail_load_refused]. cbn [negb].
  apply verify_header_spec in Vh as (V2 & V3 & V4).
  destruct (Z.ltb_spec ESP_IMAGE_MAX_SEGMENTS (segment_count (image_header m (offset part)))) as [|V5]; [by apply fail_load_refused|].
  assert (U3 : offset part + 24 + Z.of_nat (image_segments m (offset part)) * (SIXTEEN_MB + 8) < 2 ^ 32 /\ (0 + image_segments m (offset part) <= 16)%nat).
  { unfold image_segments, ESP_IMAGE_MAX_SEGMENTS, SIXTEEN_MB in *. lia. }
  destruct U3 as [U3 U4]. assert (A4 : (offset part + 24) mod 4 = 0) by (Z.to_euclidean_division_equations; lia).
  destruct (decide (chain_valid (image_segments m (offset part)) m (offset part + 24))) as [V6|V6].
  2: { destruct (load_segments_invalid Hcache fill Hfill (image_segments m (offset part)) 0 (offset part + 24) (begun_hash m (offset part))
         ESP_ROM_CHECKSUM_INITIAL (begun part m) s) as (err & nx & sh & c & d & s' & E & He & Es & R); [done|lia|done|exact U3|exact U4|exact V6|].
       fold m in E. rewrite E. ostep. apply Z.eqb_neq in He. rewrite He. cbn [negb]. apply fail_load_refused; [apply Es|done]. }
  destruct (load_segments_run Hcache fill Hfill false (image_segments m (offset part)) 0 (offset part + 24) (begun_hash m (offset part))
    ESP_ROM_CHECKSUM_INITIAL (begun part m) s Hm) as (c & s1 & E & C & F); [lia|done|exact U3|exact U4|exact V6|apply load_allowed_verify|].
  fold m in E, C, F. rewrite E. ostep. change (ESP_OK =? ESP_OK) with true. cbn [negb]. fold (image_end m (offset part)).
  pose proof (chain_effect_env fill Hfill _ _ _ _ F) as Es. pose proof (chain_end_ge (image_segments m (offset part)) m (offset part + 24)) as Hge.
  destruct (verify_image_run m part (hashed (begun_hash m (offset part)) (read_bytes m (offset part + 24) (Z.to_nat (image_end m (offset part) - (offset part + 24)))))
    c ((begun part m) <| segments := set_from 0 (map (header_at m) (chain (image_segments m (offset part)) m (offset part + 24))) (segments (begun part m)) |>
      <| segment_data := set_from 0 (map (fun b => b + 8) (chain (image_segments m (offset part)) m (offset part + 24))) (segment_data (begun part m)) |>) s1)
    as (err & data' & E2 & He & _); [by eapply same_env_unmapped|by eapply same_env_mem|done|done|done| |].
  { eapply begun_read; [reflexivity|unfold image_end; lia]. }
  rewrite E2. ostep. destruct (Z.eqb_spec err ESP_OK) as [Hok|]; cbn [negb].
  - exfalso. apply V. apply He in Hok as [H1 H2 H3]. rewrite C in H1. by constructor.
  - apply fail_load_refused; [apply Es|by eapply chain_effect_verify].
Qed.

(** C15.  Verification accepts exactly the valid images: for every aligned
    partition below 2 GB [ESP_IMAGE_VERIFY] and [ESP_IMAGE_VERIFY_SILENT] return;
    they return [ESP_OK] just when the bytes in flash are a valid image (magic,
    chip, segment headers, checksum, length, and appended hash where it applies),
    and then give its metadata, and otherwise zeroed metadata; flash and RAM stay
    as they are. *)
Theorem image_verify_exact mode part s : mode = ESP_IMAGE_VERIFY \/ mode = ESP_IMAGE_VERIFY_SILENT -> unmapped s -> aligned_part part ->
  exists err data s', esp_image_verify mode part s = Ok (err, data, s') /\
    (err = ESP_OK <-> image_valid (flash_mem s) part) /\
    data = (if err =? ESP_OK then metadata_of (flash_mem s) (offset part) else zero_metadata) /\
    is_flash s' = is_flash s /\ is_ram s' = is_ram s.
Proof.
  intros Hmode Hm Hp. assert (Hv : validates mode = true) by by destruct Hmode as [-> | ->]. assert (Hl : loads mode = false) by by destruct Hmode as [-> | ->].
  destruct (decide (image_valid (flash_mem s) part)) as [V|V].
  - destruct (image_load_valid mode part s Hv Hm Hp V) as (s1 & F & E); [rewrite Hl; apply load_allowed_verify|]. rewrite Hl in E, F. cbn [andb] in E.
    exists ESP_OK, (metadata_of (flash_mem s) (offset part)), s1. split; [exact E|]. split; [done|]. split; [done|].
    split; [apply (chain_effect_env fill Hfill _ _ _ _ F)|by eapply chain_effect_verify].
  - destruct (image_verify_invalid mode part s Hv Hl Hm Hp V) as (err & s' & E & He & Ef & Er). exists err, zero_metadata, s'. split; [exact E|].
    split; [done|]. split; [|done]. by apply Z.eqb_neq in He as ->.
Qed.
End verify.

(** ** A small image: two segments in IRAM, and a hash *)
Definition demo_sha (l : list Z) : list Z := replicate 30 7 ++ [u8 (foldl Z.add 0 l); lenZ l mod 256].
Definition demo_image_bytes : list Z :=
  [0xE9; 2; 0; 0; 0; 4; 8; 0x40; 0xEE; 0; 0; 0; 0; 0; 0; 0; 0; 0; 0; 0; 0; 0; 0; 1] ++
  [0; 4; 8; 0x40; 8; 0; 0; 0] ++ [1; 2; 3; 4; 5; 6; 7; 8] ++
  [0; 5; 8; 0x40; 4; 0; 0; 0] ++ [0xAA; 0xBB; 0xCC; 0xDD] ++ replicate 11 0 ++ [0xE7].
Definition demo_image_flash : mem := write_bytes ∅ 0x10000 (demo_image_bytes ++ demo_sha demo_image_bytes).
Definition demo_image_env : ImageEnv :=
  {| sha256 := demo_sha; esp_cpu_in_ocd_debug_mode := false; CONFIG_IDF_FIRMWARE_CHIP_ID := 0; chip_revision := 1; deepsleep_reset := false;
     random_fills := [(0, 5); (0x12345678, 0x9ABCDEF0)]; sp := 0x3ffe3a00; dram_start := 0x3ffdc000; dram_end := 0x3ffdd000;
     loader_text_start := 0x40078000; loader_text_end := 0x40079000 |}.
Definition demo_image_state : image_state := mkImageState (mkBootFlash (demo_flash demo_image_flash) false) ∅ (0, 0).
Definition demo_part : esp_partition_pos_t := mkPos 0x10000 0x10000.

#[local] Instance demo_env_i : PartitionEnv := demo_env true.
#[local] Instance demo_rom_i : BootRom := demo_rom.
#[local] Instance demo_image_env_i : ImageEnv := demo_image_env.

(** The image is accepted. *)
Lemma image_verify_exact_witness :
  exists err data s', esp_image_verify ESP_IMAGE_VERIFY demo_part demo_image_state = Ok (err, data, s') /\
    (err = ESP_OK <-> image_valid (flash_mem demo_image_state) demo_part) /\
    data = (if err =? ESP_OK then metadata_of (flash_mem demo_image_state) (offset demo_part) else zero_metadata) /\
    is_flash s' = is_flash demo_image_state /\ is_ram s' = is_ram demo_image_state.
Proof.
  apply (image_verify_exact (env := demo_env true) (rom := demo_rom) (ienv := demo_image_env) (fun _ _ => eq_refl) (0x12345678, 0x9ABCDEF0) eq_refl eq_refl ESP_IMAGE_VERIFY demo_part demo_image_state);
    [by left|done|]. split; [cbn; lia|done].
Defined.

Example demo_image_accepted : image_valid (flash_mem demo_image_state) demo_part.
Proof. apply (bool_decide_unpack _). vm_compute. exact I. Qed.
Example demo_image_loads : match image_load ESP_IMAGE_LOAD demo_part demo_image_state with
  | Ok (err, _, s) => err = ESP_OK /\ read_bytes (is_ram s) 0x40080400 8 = [1; 2; 3; 4; 5; 6; 7; 8] | _ => False end.
Proof. vm_compute. done. Qed.
