(* ===== verification/ImageLoad.v ===== *)
(** * Image format: what loading leaves in RAM

    The segments are copied under the mask while they are checked; when the image
    has been accepted the mask is taken off.  Segments that do not overlap end up
    as they are in flash, and the rest of the RAM as it was. *)
From S2P Require Import Prelude Mem EspFlash Partition BootFlash ImageFormat ImageProofs ImageVerify.

Section load.
Context {env : PartitionEnv} {rom : BootRom} {ienv : ImageEnv}.
Context (Hcache : forall a n, cache_flash_mmu_set a n = true) (fill : Z * Z) (Hfill : List.find both_set random_fills = Some fill).
Context (Hdebug : esp_cpu_in_ocd_debug_mode = false).
Implicit Types (s : image_state) (m ram : mem) (a b : Z) (ob : Z * Z).

(** The byte [b] of RAM belongs to the segment at [a]. *)
Definition in_segment m a b : Prop :=
  let h := header_at m a in should_load (load_addr h) = true /\ load_addr h <= b < load_addr h + data_len h.

Definition apart m a1 a2 : Prop := forall b, in_segment m a1 b -> ~ in_segment m a2 b.

(** The words of the segment at [a] are in RAM as they are in flash, changed by [f]. *)
Definition words_in m (f : Z -> Z) a ram : Prop :=
  let h := header_at m a in should_load (load_addr h) = true ->
  forall k, 0 <= k < data_len h / 4 -> load32 ram (load_addr h + 4 * k) = Z.lxor (load32 m (a + 8 + 4 * k)) (f k).

Definition mask_of ob k : Z := if Z.odd k then ob.1 else ob.2.

(** RAM that is the same outside of the segments [l]. *)
Definition same_outside m (l : list Z) ram ram' : Prop := forall b, Forall (fun a => ~ in_segment m a b) l -> load8 ram' b = load8 ram b.

Lemma words_in_same m f a l ram ram' : words_in m f a ram -> same_outside m l ram ram' -> Forall (apart m a) l -> words_in m f a ram'.
Proof.
  intros W S D L k Hk. rewrite <- (W L k Hk). apply (load32_outside _ _ _ 0). intros b Hb. apply S. eapply Forall_impl; [exact D|]. intros a' A.
  apply A. split; [done|]. Z.to_euclidean_division_equations; lia.
Qed.

Lemma segment_valid_words m a : segment_valid m a -> 0 <= data_len (header_at m a) /\ 4 * Z.of_nat (Z.to_nat (data_len (header_at m a) / 4)) = data_len (header_at m a).
Proof. intros (V & _). pose proof (header_data_len m a). Z.to_euclidean_division_equations; lia. Qed.

(** ** Loading under the mask *)
Lemma segment_masked a s s' : is_u32 (obfs_of fill s).1 -> is_u32 (obfs_of fill s).2 -> segment_valid (flash_mem s) a -> segment_effect fill true a s s' ->
  words_in (flash_mem s) (mask_of (obfs_of fill s)) a (is_ram s') /\ same_outside (flash_mem s) [a] (is_ram s) (is_ram s').
Proof.
  intros O1 O2 V E. destruct (segment_valid_words _ _ V) as [N1 N2]. unfold segment_effect, loaded in E. set (h := header_at (flash_mem s) a) in *. cbn [andb] in E.
  destruct (should_load (load_addr h)) eqn:L; cbn [andb] in E.
  - destruct (Z.ltb_spec 0 (data_len h)) as [H0|H0].
    + subst s'. split.
      * intros _ k Hk. fold h in Hk |- *. apply mask_words_word; [done|done|]. fold h in N2. lia.
      * intros b [Hb _]%Forall_cons. apply mask_words_outside. fold h in N2. destruct (decide (load_addr h <= b < load_addr h + data_len h)); [|lia].
        destruct Hb. by split.
    + split; [intros _ k Hk; fold h in Hk; exfalso; Z.to_euclidean_division_equations; lia|]. intros b _. by rewrite E.
  - split; [unfold words_in; fold h; rewrite L; done|]. intros b _. by rewrite E.
Qed.

Lemma chain_masked l : forall s s', is_u32 (obfs_of fill s).1 -> is_u32 (obfs_of fill s).2 -> Forall (segment_valid (flash_mem s)) l ->
  ForallOrdPairs (apart (flash_mem s)) l -> chain_effect fill true l s s' ->
  Forall (fun a => words_in (flash_mem s) (mask_of (obfs_of fill s)) a (is_ram s')) l /\ same_outside (flash_mem s) l (is_ram s) (is_ram s').
Proof.
  induction l as [|a l IH]; intros s s' O1 O2 V D; cbn [chain_effect]; [by intros ->|]. intros (s1 & E & Es & F).
  apply Forall_cons in V as [V1 V]. inversion D as [|? ? D1 D2]; subst. destruct (segment_masked a s s1 O1 O2 V1 E) as [W1 S1].
  pose proof (same_env_mem fill _ _ Es) as Em. pose proof (same_env_obfs fill Hfill _ _ Es) as Eo.
  destruct (IH s1 s') as [W S]; rewrite ?Em, ?Eo; [done..|]. rewrite Em, Eo in W. rewrite Em in S. split.
  - constructor; [|exact W]. eapply words_in_same; [exact W1|exact S|exact D1].
  - intros b [B1 B]%Forall_cons. rewrite S by done. apply S1. by constructor.
Qed.

(** ** Taking the mask off *)
Definition deobfuscate_segment ob ram h : mem := deobfuscate_words (Z.to_nat (data_len h / 4)) 0 (load_addr h) ob ram.

Lemma deobfuscate_cons m ob ram a l : deobfuscate (map (header_at m) (a :: l)) ob ram =
  deobfuscate (map (header_at m) l) ob (if should_load (load_addr (header_at m a)) then deobfuscate_segment ob ram (header_at m a) else ram).
Proof. done. Qed.

Lemma segment_unmasked m ob ram a : is_u32 ob.1 -> is_u32 ob.2 -> segment_valid m a -> words_in m (mask_of ob) a ram ->
  let ram' := if should_load (load_addr (header_at m a)) then deobfuscate_segment ob ram (header_at m a) else ram in
  words_in m (fun _ => 0) a ram' /\ same_outside m [a] ram ram'.
Proof.
  intros O1 O2 V W ram'. destruct (segment_valid_words _ _ V) as [N1 N2]. unfold words_in in *. subst ram'. set (h := header_at m a) in *.
  destruct (should_load (load_addr h)) eqn:L; [|done]. split.
  - intros _ k Hk. unfold deobfuscate_segment. rewrite deobfuscate_word by (done || lia). rewrite W by done. unfold mask_of.
    by rewrite Z.lxor_assoc, Z.lxor_nilpotent.
  - intros b [Hb _]%Forall_cons. apply deobfuscate_outside. destruct (decide (load_addr h <= b < load_addr h + data_len h)); [|lia]. destruct Hb. by split.
Qed.

Lemma chain_unmasked m ob l : is_u32 ob.1 -> is_u32 ob.2 -> forall ram, Forall (segment_valid m) l -> ForallOrdPairs (apart m) l ->
  Forall (fun a => words_in m (mask_of ob) a ram) l ->
  Forall (fun a => words_in m (fun _ => 0) a (deobfuscate (map (header_at m) l) ob ram)) l /\
  same_outside m l ram (deobfuscate (map (header_at m) l) ob ram).
Proof.
  intros O1 O2. induction l as [|a l IH]; intros ram V D W; [done|]. rewrite deobfuscate_cons. apply Forall_cons in V as [V1 V], W as [W1 W].
  inversion D as [|? ? D1 D2]; subst. destruct (segment_unmasked m ob ram a O1 O2 V1 W1) as [U1 S1]. cbv zeta in U1, S1.
  set (ram1 := if should_load _ then _ else _) in *.
  destruct (IH ram1) as [U S]; [done|done| |].
  - rewrite Forall_forall in W |- *. pose proof (proj1 (Forall_forall _ _) D1) as D'. intros a' Ha'. eapply words_in_same; [by apply W|exact S1|]. constructor; [|constructor].
    intros b B1 B2. by eapply (D' a' Ha' b).
  - split; [constructor; [by eapply words_in_same|exact U]|]. intros b [B1 B]%Forall_cons. rewrite S by done. apply S1. by constructor.
Qed.
(** ** The whole image *)

(** The data of the segment at [a] are in RAM. *)
Definition data_in m a ram : Prop :=
  let h := header_at m a in
  should_load (load_addr h) = true ->
  read_bytes ram (load_addr h) (Z.to_nat (data_len h)) = read_bytes m (a + 8) (Z.to_nat (data_len h)).

Lemma words_data m a ram : segment_valid m a -> words_in m (fun _ => 0) a ram -> data_in m a ram.
Proof.
  intros V W L. destruct (segment_valid_words _ _ V) as [N1 N2]. replace (Z.to_nat (data_len (header_at m a))) with (4 * Z.to_nat (data_len (header_at m a) / 4))%nat by lia. apply words_bytes. intros k Hk.
  rewrite W by (done || lia). apply Z.lxor_0_r.
Qed.

(** Once a segment has been copied the mask is set. *)
Lemma masked_or_empty l : forall s s', chain_effect fill true l s s' -> both_set (ram_obfs_value s') = false ->
  Forall (fun a => should_load (load_addr (header_at (flash_mem s) a)) = true -> data_len (header_at (flash_mem s) a) <= 0) l.
Proof.
  induction l as [|a l IH]; intros s s'; [done|]. intros (s1 & E & Es & F) B. pose proof (same_env_mem fill _ _ Es) as Em. constructor.
  - intros L. unfold segment_effect, loaded in E. rewrite L in E. cbn [andb] in E. destruct (Z.ltb_spec 0 (data_len (header_at (flash_mem s) a))); [|done].
    exfalso. assert (E1 : ram_obfs_value s1 = obfs_of fill s) by by rewrite E. pose proof (chain_effect_env fill Hfill _ _ _ _ F) as [_ [V | V]].
    + rewrite V, E1, obfs_set in B by done. done.
    + rewrite V, obfs_set in B by done. done.
  - rewrite <- Em. by eapply IH.
Qed.

(** ** What loads is valid *)

(** A valid image whose segments may be loaded where they ask to be. *)
Definition loadable m (part : esp_partition_pos_t) : Prop :=
  image_valid m part /\ Forall (load_allowed true m) (chain (image_segments m (offset part)) m (offset part + 24)).

Lemma fail_load_not_ok err s d s' : fail_load err s <> Ok (ESP_OK, d, s').
Proof. destruct (fail_load_spec err s) as (e & -> & H). congruence. Qed.

Lemma load_ok_valid part s d s' : unmapped s -> aligned_part part -> image_load ESP_IMAGE_LOAD part s = Ok (ESP_OK, d, s') ->
  loadable (flash_mem s) part.
Proof.
  intros Hm Hp H. rewrite (image_load_begin Hcache ESP_IMAGE_LOAD part s eq_refl Hp) in H. cbv zeta in H. change (loads ESP_IMAGE_LOAD) with true in H.
  set (m := flash_mem s) in *. pose proof Hp as [Ha Ha4].
  destruct (Z.ltb_spec SIXTEEN_MB (pos_size part)) as [|V1]; [by apply fail_load_not_ok in H|].
  destruct (Z.eqb_spec (verify_image_header (image_header m (offset part))) ESP_OK) as [Vh|]; [|by apply fail_load_not_ok in H]. cbn [negb] in H.
  apply verify_header_spec in Vh as (V2 & V3 & V4).
  destruct (Z.ltb_spec ESP_IMAGE_MAX_SEGMENTS (segment_count (image_header m (offset part)))) as [|V5]; [by apply fail_load_not_ok in H|].
  assert (U3 : offset part + 24 + Z.of_nat (image_segments m (offset part)) * (SIXTEEN_MB + 8) < 2 ^ 32 /\ (0 + image_segments m (offset part) <= 16)%nat).
  { unfold image_segments, ESP_IMAGE_MAX_SEGMENTS, SIXTEEN_MB in *. lia. }
  destruct U3 as [U3 U4]. assert (A4 : (offset part + 24) mod 4 = 0) by (Z.to_euclidean_division_equations; lia).
  destruct (load_segments _ _ _ _ _ _ _ _) as [[[[[[err nx] sha'] c'] d'] s1] | | |] eqn:E; [|done..]. rewrite outcome_bind_Ok in H.
  destruct (Z.eqb_spec err ESP_OK) as [->|]; [|by apply fail_load_not_ok in H]. cbn [negb] in H.
  destruct (load_segments_ok Hcache fill Hfill true _ _ (offset part + 24) _ _ _ _ _ _ _ _ _ Hm ltac:(lia) A4 U3 E) as [V6 A]. split; [|exact A].
  destruct (load_segments_run Hcache fill Hfill true (image_segments m (offset part)) 0 (offset part + 24) (begun_hash m (offset part))
    ESP_ROM_CHECKSUM_INITIAL (begun part m) s Hm) as (c & s2 & E' & C & F); [lia|done|exact U3|exact U4|exact V6|exact A|].
  fold m in E', C, F. rewrite E' in E. injection E as <- <- <- <- <-. clear E'. fold (image_end m (offset part)) in H.
  pose proof (chain_effect_env fill Hfill _ _ _ _ F) as Es. pose proof (chain_end_ge (image_segments m (offset part)) m (offset part + 24)) as Hge.
  match type of H with context [verify_image part _ ?sha _ ?dat s2] =>
    destruct (verify_image_run Hcache Hdebug m part sha c dat s2) as (err & data' & E2 & He & _); [by eapply same_env_unmapped|by eapply same_env_mem|done|done|done| |] end.
  { eapply begun_read; [reflexivity|unfold image_end; lia]. }
  rewrite E2, outcome_bind_Ok in H. destruct (Z.eqb_spec err ESP_OK) as [Hok|]; [|by apply fail_load_not_ok in H].
  apply He in Hok as [H1 H2 H3]. rewrite C in H1. by constructor.
Qed.

(** C17.  What loads: [bootloader_load_image] returns [ESP_OK] just when the bytes in
    flash are a valid image and every segment that is to be loaded is where
    loading is allowed (outside of the stack, the data and the code of the
    bootloader), whatever is in RAM and whatever the mask. *)
Theorem image_load_exact part s : unmapped s -> aligned_part part ->
  (exists d s', bootloader_load_image part s = Ok (ESP_OK, d, s')) <->
  loadable (flash_mem s) part.
Proof.
  intros Hm Hp. split; [intros (d & s' & E); by eapply load_ok_valid|]. intros [V A].
  destruct (image_load_valid Hcache fill Hfill Hdebug ESP_IMAGE_LOAD part s eq_refl Hm Hp V A) as (s1 & _ & E). by do 2 eexists.
Qed.

(** C16.  Loading places the segments: when [bootloader_load_image] is called on a valid
    image whose segments may be loaded where they ask to be and do not overlap, it
    returns [ESP_OK] with the metadata of the image, every segment that is loaded
    is in RAM byte for byte as it is in flash, whatever the random mask it was kept
    under until the image was accepted, and every other byte of RAM and the flash
    are as before. *)
Theorem image_load_places part s : let m := flash_mem s in let l := chain (image_segments m (offset part)) m (offset part + 24) in
  unmapped s -> aligned_part part -> is_u32 (obfs_of fill s).1 -> is_u32 (obfs_of fill s).2 ->
  image_valid m part -> Forall (load_allowed true m) l -> ForallOrdPairs (apart m) l ->
  exists s', bootloader_load_image part s = Ok (ESP_OK, metadata_of m (offset part), s') /\
    Forall (fun a => data_in m a (is_ram s')) l /\ same_outside m l (is_ram s) (is_ram s') /\ is_flash s' = is_flash s.
Proof.
  intros m l Hm Hp O1 O2 V A D. destruct (image_load_valid Hcache fill Hfill Hdebug ESP_IMAGE_LOAD part s eq_refl Hm Hp V A) as (s1 & F & E).
  pose proof (iv_chain _ _ V) as VC. change (Forall (segment_valid m) l) in VC. change (loads ESP_IMAGE_LOAD) with true in E, F. cbn [andb] in E.
  fold m in E. fold l in E, F. pose proof (chain_effect_env fill Hfill _ _ _ _ F) as Es. destruct (chain_masked l s s1 O1 O2 VC D F) as [W S].
  eexists. split; [exact E|]. destruct (both_set (ram_obfs_value s1)) eqn:B.
  - assert (Eo : ram_obfs_value s1 = obfs_of fill s). { rewrite <- (same_env_obfs fill Hfill _ _ Es). unfold obfs_of. by rewrite B. }
    rewrite Eo. destruct (chain_unmasked m (obfs_of fill s) l O1 O2 (is_ram s1) VC D W) as [U T]. split; [|split; [|apply Es]].
    + rewrite Forall_forall in U, VC |- *. intros a Ha. apply words_data; [by apply VC|by apply U].
    + intros b Hb. rewrite <- (S b Hb). by apply T.
  - split; [|split; [exact S|apply Es]]. pose proof (masked_or_empty l s s1 F B) as Z0. rewrite Forall_forall in Z0 |- *. intros a Ha L.
    by replace (Z.to_nat _) with 0%nat by (specialize (Z0 a Ha L); fold m in Z0; lia).
Qed.
End load.

#[local] Instance demo_env_i : PartitionEnv := demo_env true.
#[local] Instance demo_rom_i : BootRom := demo_rom.
#[local] Instance demo_image_env_i : ImageEnv := demo_image_env.

Lemma image_load_places_witness : let m := flash_mem demo_image_state in let l := chain (image_segments m (offset demo_part)) m (offset demo_part + 24) in
  exists s', bootloader_load_image demo_part demo_image_state = Ok (ESP_OK, metadata_of m (offset demo_part), s') /\
    Forall (fun a => data_in m a (is_ram s')) l /\ same_outside m l (is_ram demo_image_state) (is_ram s') /\ is_flash s' = is_flash demo_image_state.
Proof.
  apply (image_load_places (env := demo_env true) (rom := demo_rom) (ienv := demo_image_env) (fun _ _ => eq_refl) (0x12345678, 0x9ABCDEF0) eq_refl eq_refl demo_part demo_image_state).
  - done.
  - split; [cbn; lia|done].
  - cbn. unfold is_u32. lia.
  - cbn. unfold is_u32. lia.
  - apply demo_image_accepted.
  - change (chain _ _ _) with [0x10018; 0x10028]. repeat constructor; intros _ _; vm_compute; reflexivity.
  - change (chain _ _ _) with [0x10018; 0x10028]. repeat constructor. intros b [_ H1] [_ H2].
    change (header_at _ 0x10018) with (mkSegmentHeader 0x40080400 8) in H1. change (header_at _ 0x10028) with (mkSegmentHeader 0x40080500 4) in H2.
    cbn in H1, H2. lia.
Defined.

Lemma image_load_exact_witness :
  (exists d s', bootloader_load_image demo_part demo_image_state = Ok (ESP_OK, d, s')) <-> loadable (flash_mem demo_image_state) demo_part.
Proof.
  apply (image_load_exact (env := demo_env true) (rom := demo_rom) (ienv := demo_image_env) (fun _ _ => eq_refl) (0x12345678, 0x9ABCDEF0) eq_refl eq_refl
    demo_part demo_image_state); [done|]. split; [cbn; lia|done].
Defined.
