(* ===== verification/ImageBoot.v ===== *)
(** * Booting images: the boot selection with the loading of images

    [ImageFormat] implements the interface [ImageLoader] of the boot selection:
    what the bootloader starts is then a valid image. *)
From S2P Require Import Prelude Mem EspFlash Partition BootFlash OtaData Bootloader ImageFormat ImageProofs ImageVerify ImageLoad.

Section image_boot.
Context {env : PartitionEnv} {rom : BootRom} {otac : OtaConfig} {ienv : ImageEnv}.

(** [bootloader_load_image] on a flash with no mapping; without the security
    features starting an image does not return.  The outcome does not depend on the
    RAM and the mask the loading begins with ([ImageLoad.image_load_exact]). *)
#[export] Instance image_loader : ImageLoader := {|
  Bootloader.bootloader_load_image := fun c part =>
    match bootloader_load_image part (mkImageState (mkBootFlash c false) ∅ (0, 0)) with
    | Ok (err, _, _) => err =? ESP_OK
    | _ => false
    end;
  load_image_starts := fun _ => true
|}.

Context (Hcache : forall a n, cache_flash_mmu_set a n = true) (fill : Z * Z) (Hfill : List.find both_set random_fills = Some fill).
Context (Hdebug : esp_cpu_in_ocd_debug_mode = false).

(** A partition whose image is valid and may be loaded. *)
Definition startable (m : mem) (part : esp_partition_pos_t) : Prop :=
  pos_size part <> 0 /\ loadable m part.

Lemma try_load_startable part b : aligned_part part -> try_load_partition part b = true -> startable (mapped (bf_chip (bt_flash b))) part.
Proof.
  intros Hp. unfold try_load_partition. destruct (Z.eqb_spec (pos_size part) 0) as [|H0]; [done|]. cbn [Bootloader.bootloader_load_image image_loader].
  set (s := mkImageState _ _ _). destruct (bootloader_load_image part s) as [[[err d] s'] | | |] eqn:E; [|done..]. intros ->%Z.eqb_eq.
  split; [done|]. exact (load_ok_valid Hcache fill Hfill Hdebug part s d s' eq_refl Hp E).
Qed.

Lemma try_indexes_startable bs idx b r b' : bf_mapped (bt_flash b) = false -> (forall i, aligned_part (index_to_partition bs i)) ->
  try_indexes bs idx b = Ok (r, b') ->
  match r with
  | Some (Started i) => startable (mapped (bf_chip (bt_flash b))) (index_to_partition bs i) /\ (check_anti_rollback (index_to_partition bs i) b).1 = true
  | Some Reset_chip => False
  | None => b' = b
  end.
Proof.
  intros Hm Ha H. rewrite try_indexes_run in H by done. destruct (List.find _ idx) as [i|] eqn:E.
  - destruct (set_actual_ota_seq bs i b) as [b1| | |]; [|done..]. rewrite outcome_bind_Ok in H. injection H as <- <-.
    apply List.find_some in E as [_ E]. unfold bootable in E. apply andb_true_iff in E as [[_ E1]%andb_true_iff E2].
    split; [by apply try_load_startable|done].
  - by injection H as <- <-.
Qed.

(** C18.  Only valid images are started: whatever index the bootloader begins
    with, when it starts the image at an index then the partition of this index
    holds a valid image whose segments may be loaded, and, the test application
    apart, one that is not older than the secure version. *)
Theorem boot_starts_only_valid_images bs start b i b' : bf_mapped (bt_flash b) = false -> (forall j, aligned_part (index_to_partition bs j)) ->
  bootloader_utility_load_boot_image bs start b = Ok (Started i, b') ->
  startable (mapped (bf_chip (bt_flash b))) (index_to_partition bs i) /\
  (i = TEST_APP_INDEX \/ (check_anti_rollback (index_to_partition bs i) b).1 = true).
Proof.
  intros Hm Ha H. unfold bootloader_utility_load_boot_image in H. pose proof (Ha TEST_APP_INDEX) as Ht. change (index_to_partition bs TEST_APP_INDEX) with (test bs) in Ht.
  assert (T : try_load_partition (test bs) b = true -> startable (mapped (bf_chip (bt_flash b))) (index_to_partition bs TEST_APP_INDEX) /\
    (TEST_APP_INDEX = TEST_APP_INDEX \/ (check_anti_rollback (index_to_partition bs TEST_APP_INDEX) b).1 = true)).
  { intros HL. split; [by apply try_load_startable|by left]. }
  change (load_image_starts (test bs)) with true in H. rewrite !andb_true_r in H. destruct (start =? TEST_APP_INDEX); cbn [andb] in H.
  { destruct (try_load_partition (test bs) b); cbn [negb] in H; [|done]. injection H as <- <-. by apply T. }
  destruct (try_indexes bs (indexes_down start) b) as [[r1 b1]| | |] eqn:E1; [|done..]. rewrite outcome_bind_Ok in H.
  apply (try_indexes_startable _ _ _ _ _ Hm Ha) in E1. destruct r1 as [[j|]|]; [injection H as -> ->; naive_solver|done|]. subst b1.
  destruct (try_indexes bs (indexes_up start (app_count bs)) b) as [[r2 b2]| | |] eqn:E2; [|done..]. rewrite outcome_bind_Ok in H.
  apply (try_indexes_startable _ _ _ _ _ Hm Ha) in E2. destruct r2 as [[j|]|]; [injection H as -> ->; naive_solver|done|]. subst b2.
  destruct (try_load_partition (test bs) b); [|done]. injection H as <- <-. by apply T.
Qed.
End image_boot.

(** The small image in slot 0. *)
Definition demo_image_bs : bootloader_state_t :=
  mkBootState (mkPos 0xd000 0x2000) (mkPos 0 0) (mkPos 0 0) (demo_part :: mkPos 0x20000 0x10000 :: replicate 14 no_partition) 2.
Definition demo_image_boot : boot := mkBoot (mkBootFlash (demo_flash demo_image_flash) false) false 0.

#[local] Instance demo_env_i : PartitionEnv := demo_env true.
#[local] Instance demo_rom_i : BootRom := demo_rom.
#[local] Instance demo_otac_i : OtaConfig := demo_otac.
#[local] Instance demo_image_env_i : ImageEnv := demo_image_env.

Lemma demo_aligned j : aligned_part (index_to_partition demo_image_bs j).
Proof.
  unfold index_to_partition. repeat (destruct (_ =? _); [split; [cbn; lia|done]|]). destruct (_ && _); [|split; [cbn; lia|done]].
  assert (F : Forall (fun p => 0 <= offset p < 2 ^ 31 /\ offset p mod 4 = 0) (ota demo_image_bs)) by (apply (bool_decide_unpack _); vm_compute; exact I).
  destruct (nth_in_or_default (Z.to_nat j) (ota demo_image_bs) no_partition) as [Hin|E]; [|rewrite E; split; [cbn; lia|done]].
  rewrite Forall_forall in F. apply F. by apply list_elem_of_In.
Qed.

(** Slot 1 is empty, so that slot 0 is started. *)
Lemma boot_starts_only_valid_images_witness :
  startable (mapped (bf_chip (bt_flash demo_image_boot))) (index_to_partition demo_image_bs 0) /\
  (0 = TEST_APP_INDEX \/ (check_anti_rollback (index_to_partition demo_image_bs 0) demo_image_boot).1 = true).
Proof.
  apply (boot_starts_only_valid_images (env := demo_env true) (rom := demo_rom) (otac := demo_otac) (ienv := demo_image_env) (fun _ _ => eq_refl)
    (0x12345678, 0x9ABCDEF0) eq_refl eq_refl demo_image_bs 1 demo_image_boot 0 demo_image_boot); [done|apply demo_aligned|vm_compute; reflexivity].
Defined.
