(* ===== verification/Efuse.v ===== *)
(** * The eFuse manager ([components/efuse/src/esp_efuse_api.c],
      [esp_efuse_utility.c], [esp32/esp_efuse_utility.c], [esp32/esp_efuse_api.c])

    A field is a list of ranges of bits in the four eFuse blocks.  The API reads
    and writes fields bit by bit through the 32-bit registers: values to write are
    collected in the write registers, changed to the coding scheme of the chip, and
    burned, which sets bits and never clears one.

    The build is the one with [CONFIG_EFUSE_VIRTUAL], in which the eFuses are the
    array [virt_blocks] and burning is code of the component; the coding scheme is
    still read from the chip ([EfuseEnv]).  A register file is a map from block and
    number to a word.  The calls hold the lock of the component and do not
    interleave; between [esp_efuse_batch_write_begin] and the end of the batch the
    task keeps the lock, and a call that takes it a second time without counting
    waits for ever ([EFUSE_LOCK_ACQUIRE]). *)
From S2P Require Import Prelude Mem EspFlash Partition.
From S2P Require OtaData.

Definition ESP_ERR_EFUSE := 0x1600.
Definition ESP_OK_EFUSE_CNT := ESP_ERR_EFUSE + 0x01.
Definition ESP_ERR_EFUSE_CNT_IS_FULL := ESP_ERR_EFUSE + 0x02.
Definition ESP_ERR_EFUSE_REPEATED_PROG := ESP_ERR_EFUSE + 0x03.
Definition ESP_ERR_CODING := ESP_ERR_EFUSE + 0x04.
Definition EFUSE_BLK0 := 0.
Definition EFUSE_BLK1 := 1.
Definition EFUSE_BLK2 := 2.
Definition EFUSE_BLK3 := 3.
Definition EFUSE_BLK_MAX := 4.
Definition COUNT_EFUSE_REG_PER_BLOCK := 8.
Definition EFUSE_CODING_SCHEME_VAL_NONE := 0x0.
Definition EFUSE_CODING_SCHEME_VAL_34 := 0x1.
Definition EFUSE_CODING_SCHEME_VAL_REPEAT := 0x2.

Inductive esp_efuse_coding_scheme_t := EFUSE_CODING_SCHEME_NONE | EFUSE_CODING_SCHEME_3_4 | EFUSE_CODING_SCHEME_REPEAT.

Record esp_efuse_desc_t := mkDesc { efuse_block : Z; bit_start : Z; bit_count : Z }.

(** The field [EFUSE_CODING_SCHEME] of the register [EFUSE_BLK0_RDATA6_REG]. *)
Class EfuseEnv := { coding_scheme_field : Z }.

Abbreviation regs := (gmap (Z * Z) Z).
Definition reg_at (m : regs) (blk num : Z) : Z := default 0 (m !! (blk, num)).

Record efuse_state := mkEfuse { virt_blocks : regs; wdata : regs; s_batch_writing_mode : bool }.
#[export] Instance rebuild_efuse : Rebuild efuse_state := fun s => mkEfuse (virt_blocks s) (wdata s) (s_batch_writing_mode s).

Section efuse.
Context {eenv : EfuseEnv}.
Implicit Types (s : efuse_state) (blk num v : Z) (blob : list Z) (field : list esp_efuse_desc_t).

Definition esp_efuse_get_coding_scheme blk : esp_efuse_coding_scheme_t :=
  if blk =? EFUSE_BLK0 then EFUSE_CODING_SCHEME_NONE
  else
    let coding_scheme := coding_scheme_field in
    if (coding_scheme =? EFUSE_CODING_SCHEME_VAL_NONE) || (coding_scheme =? Z.lor EFUSE_CODING_SCHEME_VAL_34 EFUSE_CODING_SCHEME_VAL_REPEAT)
    then EFUSE_CODING_SCHEME_NONE
    else if coding_scheme =? EFUSE_CODING_SCHEME_VAL_34 then EFUSE_CODING_SCHEME_3_4
    else EFUSE_CODING_SCHEME_REPEAT.

(** ** Registers *)

(** The last register of a block, from the address ranges. *)
Definition max_num_reg blk : Z := if blk =? EFUSE_BLK0 then 6 else 7.
Definition block_regs blk : list Z := seqZ 0 (max_num_reg blk + 1).

Definition esp_efuse_utility_read_reg blk num s : outcome Z :=
  cassert ((0 <=? blk) && (blk <? EFUSE_BLK_MAX));;
  cassert (num <=? max_num_reg blk);;
  Ok (reg_at (virt_blocks s) blk num).

Definition write_reg blk num v s : outcome efuse_state :=
  cassert ((0 <=? blk) && (blk <? EFUSE_BLK_MAX));;
  cassert (num <=? max_num_reg blk);;
  Ok (s <| wdata := <[(blk, num) := Z.lor (reg_at (wdata s) blk num) v]> (wdata s) |>).

(** With the check of repeated programming. *)
Definition esp_efuse_utility_write_reg blk num v s : outcome (Z * efuse_state) :=
  reg ← esp_efuse_utility_read_reg blk num s;
  if negb (Z.land reg v =? 0) then Ok (ESP_ERR_EFUSE_REPEATED_PROG, s)
  else s ← write_reg blk num v s; Ok (ESP_OK, s).

Definition REG_WRITE blk num v s : efuse_state := s <| wdata := <[(blk, num) := v]> (wdata s) |>.

Definition esp_efuse_utility_reset s : efuse_state :=
  foldl (fun s blk => foldl (fun s num => REG_WRITE blk num 0 s) s (block_regs blk)) s (seqZ 0 EFUSE_BLK_MAX).

Definition get_mask (bit_count shift : Z) : Z :=
  u32 (Z.shiftl (if bit_count =? 32 then 0xFFFFFFFF else u32 (Z.shiftl 1 bit_count - 1)) shift).

(** ** The registers of a range of bits *)

(** [None] for [-1]. *)
Definition get_reg_num (bit_start bit_count i_reg : Z) : option Z :=
  let num_reg := i_reg + Z.quot bit_start 32 in
  if Z.quot (bit_start + bit_count - 1) 32 <? num_reg then None else Some num_reg.

Definition get_starting_bit_num_in_reg (bit_start i_reg : Z) : Z := if i_reg =? 0 then Z.rem bit_start 32 else 0.

(** The loop over the bits from [num_bit] on. *)
Fixpoint count_bits (n : nat) (num_bit last_used_bit i_reg num_reg ret_count : Z) : Z :=
  match n with
  | O => 0
  | S n =>
      let ret_count := ret_count + 1 in
      if (Z.rem (num_bit + 1) 32 =? 0) || (num_bit =? last_used_bit) then
        if i_reg =? num_reg then ret_count else count_bits n (num_bit + 1) last_used_bit i_reg (num_reg + 1) 0
      else count_bits n (num_bit + 1) last_used_bit i_reg num_reg ret_count
  end.
Definition get_count_bits_in_reg (bit_start bit_count i_reg : Z) : Z :=
  count_bits (Z.to_nat bit_count) bit_start (bit_start + bit_count - 1) i_reg 0 0.

Definition check_range_of_bits blk (offset_in_bits size_bits : Z) : bool :=
  let max_num_bit := offset_in_bits + size_bits in
  if 256 <? max_num_bit then false
  else
    match esp_efuse_get_coding_scheme blk with
    | EFUSE_CODING_SCHEME_NONE => true
    | EFUSE_CODING_SCHEME_3_4 => negb (192 <? max_num_bit)
    | EFUSE_CODING_SCHEME_REPEAT => negb (128 <? max_num_bit)
    end.

(** ** Bits between a register and a blob *)

Definition blob_get blob (i : Z) : outcome Z := match blob !! Z.to_nat i with Some b => Ok b | None => Fault end.
(** [blob[i] |= (uint8_t)v]. *)
Definition blob_or blob (i v : Z) : outcome (list Z) :=
  match blob !! Z.to_nat i with Some b => Ok (<[Z.to_nat i := Z.lor b (u8 v)]> blob) | None => Fault end.

Fixpoint fill_reg_loop (fuel : nat) (shift_reg bit_count_in_reg filled_bits_blob reg_to_write : Z) blob : outcome (Z * Z) :=
  if bit_count_in_reg <=? 0 then Ok (reg_to_write, filled_bits_blob)
  else
    match fuel with
    | O => OutOfFuel
    | S fuel =>
        temp_blob_32 ← blob_get blob (filled_bits_blob / 8);
        let shift_bit := if 8 <? bit_count_in_reg then 8 else bit_count_in_reg in
        fill_reg_loop fuel (shift_reg + 8) (bit_count_in_reg - shift_bit) (filled_bits_blob + shift_bit)
          (Z.lor reg_to_write (u32 (Z.shiftl (Z.land temp_blob_32 (get_mask shift_bit 0)) shift_reg))) blob
    end.
Definition fill_reg (bit_start_in_reg bit_count_in_reg : Z) blob (filled_bits_blob : Z) : outcome (Z * Z) :=
  let shift_bit := filled_bits_blob mod 8 in
  '(reg_to_write, shift_bit, filled_bits_blob, bit_count_in_reg) ←
    (if negb (shift_bit =? 0) then
       b ← blob_get blob (filled_bits_blob / 8);
       let temp_blob_32 := Z.shiftr b shift_bit in
       let shift_bit := if 8 - shift_bit <? bit_count_in_reg then 8 - shift_bit else bit_count_in_reg in
       Ok (Z.land temp_blob_32 (get_mask shift_bit 0), shift_bit, filled_bits_blob + shift_bit, bit_count_in_reg - shift_bit)
     else Ok (0, shift_bit, filled_bits_blob, bit_count_in_reg));
  '(reg_to_write, filled_bits_blob) ← fill_reg_loop 5 shift_bit bit_count_in_reg filled_bits_blob reg_to_write blob;
  Ok (u32 (Z.shiftl reg_to_write bit_start_in_reg), filled_bits_blob).

Fixpoint fill_buff_loop (fuel : nat) (reg_of_aligned_bits sum_shift shift_bit bit_count : Z) blob (bits_counter : Z) : outcome (list Z * Z) :=
  if bit_count <=? 0 then Ok (blob, bits_counter)
  else
    match fuel with
    | O => OutOfFuel
    | S fuel =>
        let sum_shift := sum_shift + shift_bit in
        blob ← blob_or blob (bits_counter / 8) (Z.shiftr reg_of_aligned_bits sum_shift);
        let shift_bit := if 8 <? bit_count then 8 else bit_count in
        fill_buff_loop fuel reg_of_aligned_bits sum_shift shift_bit (bit_count - shift_bit) blob (bits_counter + shift_bit)
    end.

(** ** The functions a field is processed with *)
Definition esp_efuse_utility_fill_buff (num_reg efuse_block bit_start bit_count : Z) blob (bits_counter : Z) s
    : outcome (Z * list Z * Z * efuse_state) :=
  reg ← esp_efuse_utility_read_reg efuse_block num_reg s;
  let reg_of_aligned_bits := Z.land (Z.shiftr reg bit_start) (get_mask bit_count 0) in
  let shift_bit := bits_counter mod 8 in
  '(blob, shift_bit, bits_counter, bit_count) ←
    (if negb (shift_bit =? 0) then
       blob ← blob_or blob (bits_counter / 8) (Z.shiftl reg_of_aligned_bits shift_bit);
       let shift_bit := if 8 - shift_bit <? bit_count then 8 - shift_bit else bit_count in
       Ok (blob, shift_bit, bits_counter + shift_bit, bit_count - shift_bit)
     else Ok (blob, shift_bit, bits_counter, bit_count));
  '(blob, bits_counter) ← fill_buff_loop 5 reg_of_aligned_bits 0 shift_bit bit_count blob bits_counter;
  Ok (ESP_OK, blob, bits_counter, s).

Definition esp_efuse_utility_count_once (num_reg efuse_block bit_start bit_count : Z) (out_cnt bits_counter : Z) s
    : outcome (Z * Z * Z * efuse_state) :=
  reg ← esp_efuse_utility_read_reg efuse_block num_reg s;
  Ok (ESP_OK, u32 (out_cnt + OtaData.popcount 32 (Z.land reg (get_mask bit_count bit_start))), bits_counter + bit_count, s).

Definition esp_efuse_utility_write_blob (num_reg efuse_block bit_start bit_count : Z) blob (bits_counter : Z) s
    : outcome (Z * list Z * Z * efuse_state) :=
  '(reg_to_write, bits_counter) ← fill_reg bit_start bit_count blob bits_counter;
  '(err, s) ← esp_efuse_utility_write_reg efuse_block num_reg reg_to_write s;
  Ok (err, blob, bits_counter, s).

(** The loop of [set_cnt_in_reg]: the register and the count that is left. *)
Fixpoint set_cnt_loop (n : nat) (i reg_masked cnt reg_to_write : Z) : Z * Z :=
  match n with
  | O => (reg_to_write, cnt)
  | S n =>
      if Z.land reg_masked (Z.shiftl 1 i) =? 0 then
        let reg_to_write := Z.lor reg_to_write (Z.shiftl 1 i) in
        let cnt := u32 (cnt - 1) in
        if cnt =? 0 then (reg_to_write, cnt) else set_cnt_loop n (i + 1) reg_masked cnt reg_to_write
      else set_cnt_loop n (i + 1) reg_masked cnt reg_to_write
  end.
Definition set_cnt_in_reg (bit_start_in_reg bit_count_used_in_reg reg_masked cnt : Z) : outcome (Z * Z) :=
  cassert (bit_start_in_reg + bit_count_used_in_reg <=? 32);;
  Ok (set_cnt_loop (Z.to_nat bit_count_used_in_reg) bit_start_in_reg reg_masked cnt 0).

Definition esp_efuse_utility_write_cnt (num_reg efuse_block bit_start bit_count : Z) (cnt bits_counter : Z) s
    : outcome (Z * Z * Z * efuse_state) :=
  reg ← esp_efuse_utility_read_reg efuse_block num_reg s;
  let mask := get_mask bit_count bit_start in
  let reg_masked_bits := Z.land reg mask in
  '(cnt, s) ←
    (if negb (Z.lxor reg_masked_bits mask =? 0) then
       '(reg_to_write, cnt) ← set_cnt_in_reg bit_start bit_count reg_masked_bits cnt;
       s ← write_reg efuse_block num_reg reg_to_write s;
       Ok (cnt, s)
     else Ok (cnt, s));
  Ok (if cnt =? 0 then ESP_OK_EFUSE_CNT else ESP_OK, cnt, bits_counter + bit_count, s).

(** ** Processing a field *)
Definition esp_efuse_get_field_size field : Z := foldl (fun n d => n + bit_count d) 0 field.

Section process.
Context {P : Type} (func_proc : Z -> Z -> Z -> Z -> P -> Z -> efuse_state -> outcome (Z * P * Z * efuse_state)).

(** The registers of one range of bits. *)
Fixpoint process_regs (fuel : nat) (d : esp_efuse_desc_t) (i_reg req_size : Z) (ptr : P) (bits_counter : Z) s
    : outcome (Z * P * Z * efuse_state) :=
  if bits_counter <? req_size then
    match get_reg_num (bit_start d) (bit_count d) i_reg with
    | None => Ok (ESP_OK, ptr, bits_counter, s)
    | Some num_reg =>
        match fuel with
        | O => OutOfFuel
        | S fuel =>
            let start_bit := get_starting_bit_num_in_reg (bit_start d) i_reg in
            let num_bits := get_count_bits_in_reg (bit_start d) (bit_count d) i_reg in
            let num_bits := if req_size <? bits_counter + num_bits then req_size - bits_counter else num_bits in
            '(err, ptr, bits_counter, s) ← func_proc num_reg (efuse_block d) start_bit num_bits ptr bits_counter s;
            if err =? ESP_OK then process_regs fuel d (i_reg + 1) req_size ptr bits_counter s
            else Ok (err, ptr, bits_counter, s)
        end
    end
  else Ok (ESP_OK, ptr, bits_counter, s).

Fixpoint process_field field (req_size : Z) (ptr : P) (bits_counter : Z) s : outcome (Z * P * Z * efuse_state) :=
  match field with
  | [] => Ok (ESP_OK, ptr, bits_counter, s)
  | d :: field =>
      if bits_counter <? req_size then
        if negb (check_range_of_bits (efuse_block d) (bit_start d) (bit_count d)) then Ok (ESP_ERR_CODING, ptr, bits_counter, s)
        else
          '(err, ptr, bits_counter, s) ← process_regs 9 d 0 req_size ptr bits_counter s;
          if err =? ESP_OK then process_field field req_size ptr bits_counter s else Ok (err, ptr, bits_counter, s)
      else Ok (ESP_OK, ptr, bits_counter, s)
  end.

Definition esp_efuse_utility_process field (ptr : P) (ptr_size_bits : Z) s : outcome (Z * P * efuse_state) :=
  let field_len := esp_efuse_get_field_size field in
  let req_size := if ptr_size_bits =? 0 then field_len else Z.min ptr_size_bits field_len in
  '(err, ptr, bits_counter, s) ← process_field field req_size ptr 0 s;
  cassert (bits_counter <=? req_size);;
  Ok (err, ptr, s).
End process.

(** ** Burning *)
Definition bytes_of_words (ws : list Z) : list Z :=
  concat (map (fun w => [u8 w; u8 (Z.shiftr w 8); u8 (Z.shiftr w 16); u8 (Z.shiftr w 24)]) ws).
Fixpoint words_of_bytes (b : list Z) : list Z :=
  match b with
  | b0 :: b1 :: b2 :: b3 :: b => (b0 + 2 ^ 8 * b1 + 2 ^ 16 * b2 + 2 ^ 24 * b3) :: words_of_bytes b
  | _ => []
  end.

Definition write_words blk (first : Z) (ws : list Z) s : efuse_state :=
  foldl (fun s '(k, w) => REG_WRITE blk (first + Z.of_nat k) w s) s (imap (fun k w => (k, w)) ws).

(** The write registers of a block. *)
Definition read_wdata blk s : list Z := map (reg_at (wdata s) blk) (block_regs blk).
Definition read_r_data blk s : outcome (list Z) := mapM (fun num => esp_efuse_utility_read_reg blk num s) (block_regs blk).

(** The data of a block that was written in the coding 3/4: six of every eight
    bytes. *)
Definition decoded_34 (ws : list Z) : list Z :=
  let buf := bytes_of_words ws in
  words_of_bytes (concat (map (fun k => take 6 (drop (k * 8) buf)) (seq 0 4)) ++ replicate 8 0).

Definition burn_block s blk : efuse_state :=
  let s :=
    match esp_efuse_get_coding_scheme blk with
    | EFUSE_CODING_SCHEME_3_4 => write_words blk 0 (decoded_34 (read_wdata blk s)) s
    | _ => s
    end in
  foldl (fun s num => s <| virt_blocks := <[(blk, num) := Z.lor (reg_at (virt_blocks s) blk num) (reg_at (wdata s) blk num)]> (virt_blocks s) |>)
    s (block_regs blk).

Definition esp_efuse_utility_burn_efuses s : efuse_state :=
  esp_efuse_utility_reset (foldl burn_block s (seqZ 0 EFUSE_BLK_MAX)).

(** ** Coding *)

(** The bytes 7 and 8 of a group of six. *)
Definition code_xor (b : list Z) : Z := foldl Z.lxor 0 b.
Definition code_mul (b : list Z) : Z := foldl (fun mul '(i, x) => u8 (mul + (Z.of_nat i + 1) * OtaData.popcount 32 x)) 0 (imap (fun i x => (i, x)) b).

Fixpoint encode_loop (fuel : nat) (in_bytes : list Z) : outcome (list Z) :=
  match in_bytes with
  | [] => Ok []
  | _ =>
      match fuel with
      | O => OutOfFuel
      | S fuel =>
          let out := take 6 in_bytes in
          rest ← encode_loop fuel (drop 6 in_bytes);
          Ok (words_of_bytes (out ++ [code_xor out; code_mul out]) ++ rest)
      end
  end.
(** The words, or the error. *)
Definition esp_efuse_utility_apply_34_encoding (in_bytes : option (list Z)) : outcome (Z * list Z) :=
  match in_bytes with
  | None => Ok (ESP_ERR_INVALID_ARG, [])
  | Some in_bytes =>
      if negb (lenZ in_bytes mod 6 =? 0) then Ok (ESP_ERR_INVALID_ARG, [])
      else ws ← encode_loop (length in_bytes) in_bytes; Ok (ESP_OK, ws)
  end.

(** The write registers, which are cleared, and whether one was not 0. *)
Definition read_w_data_and_check_fill blk s : list Z * bool * efuse_state :=
  let ws := read_wdata blk s in
  (ws, existsb (fun w => negb (w =? 0)) ws,
   foldl (fun s num => if reg_at (wdata s) blk num =? 0 then s else REG_WRITE blk num 0 s) s (block_regs blk)).

Definition byte_nth (b : list Z) (i : Z) : Z := nth (Z.to_nat i) b 0.

(** The loop over the bytes of a block in the coding 3/4, from the byte [i] on. *)
Fixpoint code_34_loop (fuel : nat) (i : Z) blk (buf_w_data buf_r_data : list Z) s : outcome (Z * efuse_state) :=
  if i <? 24 then
    match fuel with
    | O => OutOfFuel
    | S fuel =>
        if negb (byte_nth buf_w_data i =? 0) then
          let st_offset_buf := i / 6 * 6 in
          if existsb (fun n => negb (byte_nth buf_r_data n =? 0)) (seqZ st_offset_buf 6) then Ok (ESP_ERR_CODING, s)
          else
            '(err, reg) ← esp_efuse_utility_apply_34_encoding (Some (take 6 (drop (Z.to_nat st_offset_buf) buf_w_data)));
            if negb (err =? ESP_OK) then Ok (err, s)
            else
              let num_reg := st_offset_buf / 6 * 2 in
              code_34_loop fuel (st_offset_buf + 6) blk buf_w_data buf_r_data (write_words blk num_reg (take 2 reg) s)
        else code_34_loop fuel (i + 1) blk buf_w_data buf_r_data s
    end
  else Ok (ESP_OK, s).

Definition code_block blk s : outcome (Z * efuse_state) :=
  match esp_efuse_get_coding_scheme blk with
  | EFUSE_CODING_SCHEME_NONE => Ok (ESP_OK, s)
  | scheme =>
      let '(buf, filled, s) := read_w_data_and_check_fill blk s in
      if negb filled then Ok (ESP_OK, s)
      else
        r ← read_r_data blk s;
        match scheme with
        | EFUSE_CODING_SCHEME_3_4 =>
            if negb (nth 6 buf 0 =? 0) || negb (nth 7 buf 0 =? 0) then Ok (ESP_ERR_CODING, s)
            else code_34_loop 24 0 blk (bytes_of_words buf) (bytes_of_words r) s
        | _ =>
            if existsb (fun w => negb (w =? 0)) (drop 4 buf) then Ok (ESP_ERR_CODING, s)
            else
              Ok (ESP_OK, foldl (fun s '(i, w) => if w =? 0 then s else REG_WRITE blk (Z.of_nat i + 4) w (REG_WRITE blk (Z.of_nat i) w s))
                s (imap (fun i w => (i, w)) (take 4 buf)))
        end
  end.

Fixpoint code_blocks (blks : list Z) s : outcome (Z * efuse_state) :=
  match blks with
  | [] => Ok (ESP_OK, s)
  | blk :: blks =>
      '(err, s) ← code_block blk s;
      if negb (err =? ESP_OK) then Ok (err, s) else code_blocks blks s
  end.
Definition esp_efuse_utility_apply_new_coding_scheme s : outcome (Z * efuse_state) := code_blocks (seqZ 1 3) s.

(** ** The API *)
Definition esp_efuse_utility_get_number_of_items (bits size_of_base : Z) : Z :=
  Z.quot bits size_of_base + (if 0 <? Z.rem bits size_of_base then 1 else 0).

(** [_lock_acquire], which does not count: in batch mode the task holds the lock
    already, and no number of steps is enough. *)
Definition EFUSE_LOCK_ACQUIRE s : outcome unit := if s_batch_writing_mode s then OutOfFuel else Ok tt.

(** [memset] of the first bytes. *)
Definition cleared (dst : list Z) (n : Z) : outcome (list Z) :=
  if lenZ dst <? n then Fault else Ok (replicate (Z.to_nat n) 0 ++ drop (Z.to_nat n) dst).

(** The error and what is at [dst]; [None] for a [NULL] pointer. *)
Definition esp_efuse_read_field_blob (field : option (list esp_efuse_desc_t)) (dst : option (list Z)) (dst_size_bits : Z) s
    : outcome (Z * option (list Z)) :=
  EFUSE_LOCK_ACQUIRE s;;
  match field, dst with
  | Some field, Some dst =>
      if dst_size_bits =? 0 then Ok (ESP_ERR_INVALID_ARG, Some dst)
      else
        dst ← cleared dst (esp_efuse_utility_get_number_of_items dst_size_bits 8);
        '(err, dst, _) ← esp_efuse_utility_process esp_efuse_utility_fill_buff field dst dst_size_bits s;
        Ok (err, Some dst)
  | _, _ => Ok (ESP_ERR_INVALID_ARG, dst)
  end.

Definition esp_efuse_read_field_bit (field : option (list esp_efuse_desc_t)) s : outcome bool :=
  '(err, value) ← esp_efuse_read_field_blob field (Some [0]) 1 s;
  cassert (err =? ESP_OK);;
  match value with Some [value] => Ok (negb (value =? 0)) | _ => Fault end.

Definition esp_efuse_read_field_cnt (field : option (list esp_efuse_desc_t)) s : outcome (Z * Z) :=
  EFUSE_LOCK_ACQUIRE s;;
  match field with
  | None => Ok (ESP_ERR_INVALID_ARG, 0)
  | Some field =>
      '(err, cnt, _) ← esp_efuse_utility_process esp_efuse_utility_count_once field 0 0 s;
      Ok (err, cnt)
  end.

(** What each writing call ends with. *)
Definition finish_write (err : Z) s : outcome (Z * efuse_state) :=
  if s_batch_writing_mode s then Ok (err, s)
  else
    '(err, s) ←
      (if err =? ESP_OK then
         '(err, s) ← esp_efuse_utility_apply_new_coding_scheme s;
         Ok (err, if err =? ESP_OK then esp_efuse_utility_burn_efuses s else s)
       else Ok (err, s));
    Ok (err, esp_efuse_utility_reset s).
Definition start_write s : efuse_state := if s_batch_writing_mode s then s else esp_efuse_utility_reset s.

Definition esp_efuse_write_field_blob (field : option (list esp_efuse_desc_t)) (src : option (list Z)) (src_size_bits : Z) s
    : outcome (Z * efuse_state) :=
  match field, src with
  | Some field, Some src =>
      if src_size_bits =? 0 then Ok (ESP_ERR_INVALID_ARG, s)
      else
        '(err, _, s) ← esp_efuse_utility_process esp_efuse_utility_write_blob field src src_size_bits (start_write s);
        finish_write err s
  | _, _ => Ok (ESP_ERR_INVALID_ARG, s)
  end.

Definition esp_efuse_write_field_cnt (field : option (list esp_efuse_desc_t)) (cnt : Z) s : outcome (Z * efuse_state) :=
  match field with
  | None => Ok (ESP_ERR_INVALID_ARG, s)
  | Some field =>
      if cnt =? 0 then Ok (ESP_ERR_INVALID_ARG, s)
      else
        '(err, cnt, s) ← esp_efuse_utility_process esp_efuse_utility_write_cnt field cnt 0 (start_write s);
        let err := if negb (cnt =? 0) then ESP_ERR_EFUSE_CNT_IS_FULL else err in
        let err := if err =? ESP_OK_EFUSE_CNT then ESP_OK else err in
        finish_write err s
  end.

(** The first element of [field] is read. *)
Definition esp_efuse_write_field_bit (field : option (list esp_efuse_desc_t)) s : outcome (Z * efuse_state) :=
  match field with
  | None => Ok (ESP_ERR_INVALID_ARG, s)
  | Some [] => Fault
  | Some (d :: _) =>
      if negb (bit_count d =? 1) then Ok (ESP_ERR_INVALID_ARG, s)
      else
        '(err, existing) ← esp_efuse_read_field_blob field (Some [0]) 1 s;
        match existing with
        | Some [existing] =>
            if negb (err =? ESP_OK) || negb (existing =? 0) then Ok (err, s)
            else esp_efuse_write_field_blob field (Some [1]) 1 s
        | _ => Fault
        end
  end.

Definition esp_efuse_read_reg blk num s : outcome Z := EFUSE_LOCK_ACQUIRE s;; esp_efuse_utility_read_reg blk num s.

Definition esp_efuse_write_reg blk num v s : outcome (Z * efuse_state) :=
  '(err, s) ← esp_efuse_utility_write_reg blk num v (start_write s);
  finish_write err s.

Definition esp_efuse_read_block blk (dst_key : option (list Z)) (offset_in_bits size_bits : Z) s : outcome (Z * option (list Z)) :=
  match dst_key with
  | None => Ok (ESP_ERR_INVALID_ARG, None)
  | Some _ =>
      if (blk =? EFUSE_BLK0) || (EFUSE_BLK_MAX <=? blk) || (size_bits =? 0) then Ok (ESP_ERR_INVALID_ARG, dst_key)
      else esp_efuse_read_field_blob (Some [mkDesc (u8 blk) (u8 offset_in_bits) (size_bits mod 2 ^ 16)]) dst_key size_bits s
  end.

Definition esp_efuse_write_block blk (src_key : option (list Z)) (offset_in_bits size_bits : Z) s : outcome (Z * efuse_state) :=
  match src_key with
  | None => Ok (ESP_ERR_INVALID_ARG, s)
  | Some _ =>
      if (blk =? EFUSE_BLK0) || (EFUSE_BLK_MAX <=? blk) || (size_bits =? 0) then Ok (ESP_ERR_INVALID_ARG, s)
      else esp_efuse_write_field_blob (Some [mkDesc (u8 blk) (u8 offset_in_bits) (size_bits mod 2 ^ 16)]) src_key size_bits s
  end.

Definition esp_efuse_batch_write_begin s : outcome (Z * efuse_state) :=
  EFUSE_LOCK_ACQUIRE s;; Ok (ESP_OK, esp_efuse_utility_reset (s <| s_batch_writing_mode := true |>)).
Definition esp_efuse_batch_write_cancel s : Z * efuse_state :=
  if s_batch_writing_mode s then (ESP_OK, esp_efuse_utility_reset (s <| s_batch_writing_mode := false |>))
  else (ESP_ERR_INVALID_STATE, s).
Definition esp_efuse_batch_write_commit s : outcome (Z * efuse_state) :=
  if negb (s_batch_writing_mode s) then Ok (ESP_ERR_INVALID_STATE, s)
  else
    '(err, s) ← esp_efuse_utility_apply_new_coding_scheme s;
    let s := if err =? ESP_OK then esp_efuse_utility_burn_efuses s else s in
    Ok (err, (esp_efuse_batch_write_cancel s).2).

(** ** Protection of the blocks (fields of [esp32/esp_efuse_table.c]) *)
Definition ESP_EFUSE_WR_DIS_BLK1 := [mkDesc EFUSE_BLK0 7 1].
Definition ESP_EFUSE_WR_DIS_BLK2 := [mkDesc EFUSE_BLK0 8 1].
Definition ESP_EFUSE_WR_DIS_BLK3 := [mkDesc EFUSE_BLK0 9 1].
Definition ESP_EFUSE_RD_DIS_BLK1 := [mkDesc EFUSE_BLK0 16 1].
Definition ESP_EFUSE_RD_DIS_BLK2 := [mkDesc EFUSE_BLK0 17 1].
Definition ESP_EFUSE_RD_DIS_BLK3 := [mkDesc EFUSE_BLK0 18 1].

Definition esp_efuse_set_write_protect blk s : outcome (Z * efuse_state) :=
  if blk =? EFUSE_BLK1 then esp_efuse_write_field_cnt (Some ESP_EFUSE_WR_DIS_BLK1) 1 s
  else if blk =? EFUSE_BLK2 then esp_efuse_write_field_cnt (Some ESP_EFUSE_WR_DIS_BLK2) 1 s
  else if blk =? EFUSE_BLK3 then esp_efuse_write_field_cnt (Some ESP_EFUSE_WR_DIS_BLK3) 1 s
  else Ok (ESP_ERR_NOT_SUPPORTED, s).
Definition esp_efuse_set_read_protect blk s : outcome (Z * efuse_state) :=
  if blk =? EFUSE_BLK1 then esp_efuse_write_field_cnt (Some ESP_EFUSE_RD_DIS_BLK1) 1 s
  else if blk =? EFUSE_BLK2 then esp_efuse_write_field_cnt (Some ESP_EFUSE_RD_DIS_BLK2) 1 s
  else if blk =? EFUSE_BLK3 then esp_efuse_write_field_cnt (Some ESP_EFUSE_RD_DIS_BLK3) 1 s
  else Ok (ESP_ERR_NOT_SUPPORTED, s).
End efuse.
