(* ===== verification/EfuseBits.v ===== *)
(** * The eFuse manager: bits

    The loops that move bits between registers and byte arrays, and the cutting of
    a field into pieces of registers, in terms of single bits. *)
From S2P Require Import Prelude Mem EspFlash Partition Efuse.

(** ** Bits of words and of byte arrays *)
Definition bit (b : list Z) (k : Z) : bool := Z.testbit (byte_nth b (k / 8)) (k mod 8).
Definition rbit (m : regs) (blk i : Z) : bool := Z.testbit (reg_at m blk (i / 32)) (i mod 32).

Lemma testbit_u32 x j : 0 <= j -> Z.testbit (u32 x) j = (j <? 32) && Z.testbit x j.
Proof. intros. unfold u32. by rewrite Z.testbit_mod_pow2. Qed.
Lemma testbit_u8 x j : 0 <= j -> Z.testbit (u8 x) j = (j <? 8) && Z.testbit x j.
Proof. intros. unfold u8. by rewrite Z.testbit_mod_pow2. Qed.

Lemma get_mask_bits n sh j : 0 <= n <= 32 -> 0 <= sh -> 0 <= j -> Z.testbit (get_mask n sh) j = (j <? 32) && (sh <=? j) && (j <? sh + n).
Proof.
  intros Hn Hs Hj. unfold get_mask. rewrite testbit_u32 by done. rewrite <- andb_assoc. f_equal.
  assert (E : (if n =? 32 then 0xFFFFFFFF else u32 (Z.shiftl 1 n - 1)) = Z.ones n).
  { destruct (Z.eqb_spec n 32) as [->|]; [done|]. rewrite Z.shiftl_1_l, u32_small; [by rewrite Z.ones_equiv, Z.sub_1_r|].
    unfold is_u32. pose proof (Z.pow_pos_nonneg 2 n). pose proof (Z.pow_lt_mono_r 2 n 32). lia. }
  rewrite E, Z.shiftl_spec by done. destruct (Z.leb_spec sh j); [|by rewrite Z.testbit_neg_r by lia].
  rewrite Z.testbit_ones_nonneg by lia. cbn [andb]. destruct (Z.ltb_spec (j - sh) n), (Z.ltb_spec j (sh + n)); lia.
Qed.

Lemma byte_nth_insert b i v k : 0 <= i < lenZ b -> 0 <= k -> byte_nth (<[Z.to_nat i := v]> b) k = if k =? i then v else byte_nth b k.
Proof.
  unfold byte_nth, lenZ. intros Hi Hk. rewrite !nth_lookup. destruct (Z.eqb_spec k i) as [->|].
  - by rewrite list_lookup_insert_eq by lia.
  - by rewrite list_lookup_insert_ne by lia.
Qed.

Lemma byte_lookup b i : 0 <= i < lenZ b -> b !! Z.to_nat i = Some (byte_nth b i).
Proof. intros H. unfold byte_nth, lenZ in *. rewrite nth_lookup. destruct (lookup_lt_is_Some_2 b (Z.to_nat i)) as [x ->]; [lia|done]. Qed.

(** [k] is a bit of the byte [i]. *)
Lemma div_8_eq k i : 0 <= k -> (k / 8 =? i) = (8 * i <=? k) && (k <? 8 * i + 8).
Proof. intros. destruct (Z.eqb_spec (k / 8) i), (Z.leb_spec (8 * i) k), (Z.ltb_spec k (8 * i + 8)); cbn; try done; Z.to_euclidean_division_equations; lia. Qed.

Lemma blob_or_run b i v : 0 <= i < lenZ b -> exists b', blob_or b i v = Ok b' /\ length b' = length b /\
  forall k, 0 <= k -> bit b' k = bit b k || ((k / 8 =? i) && Z.testbit v (k mod 8)).
Proof.
  intros Hi. unfold blob_or. rewrite byte_lookup by done. eexists. split; [done|]. split; [apply length_insert|]. intros k Hk. unfold bit.
  rewrite byte_nth_insert by (done || (apply Z.div_pos; lia)). pose proof (Z.mod_pos_bound k 8).
  destruct (Z.eqb_spec (k / 8) i) as [->|]; [|by rewrite orb_false_r]. rewrite Z.lor_spec, testbit_u8 by lia.
  by destruct (Z.ltb_spec (k mod 8) 8); [|lia].
Qed.

Lemma bit_in_byte b c d : c mod 8 = 0 -> 0 <= d < 8 -> bit b (c + d) = Z.testbit (byte_nth b (c / 8)) d.
Proof.
  intros. unfold bit. replace ((c + d) / 8) with (c / 8) by (Z.to_euclidean_division_equations; lia). f_equal. Z.to_euclidean_division_equations; lia.
Qed.

(** ** From a register to a blob *)
Lemma fill_buff_loop_run r : forall fuel sum sh cnt b c, 0 <= cnt <= 8 * Z.of_nat fuel -> 0 <= c -> (0 < cnt -> c mod 8 = 0) -> c + cnt <= 8 * lenZ b -> 0 <= sum + sh ->
  (forall j, sum + sh + cnt <= j -> Z.testbit r j = false) ->
  exists b', fill_buff_loop fuel r sum sh cnt b c = Ok (b', c + cnt) /\ length b' = length b /\
    forall k, 0 <= k -> bit b' k = bit b k || ((c <=? k) && (k <? c + cnt) && Z.testbit r (sum + sh + (k - c))).
Proof.
  induction fuel as [|fuel IH]; intros sum sh cnt b c Hc H0 Hm Hl Hs Hr; cbn [fill_buff_loop]; destruct (Z.leb_spec cnt 0); try lia;
    [exists b; replace (c + cnt) with c by lia; split; [done|]; split; [done|]; intros k Hk;
     by destruct (Z.leb_spec c k), (Z.ltb_spec k c); try lia; rewrite ?orb_false_r..|].
  assert (M : c mod 8 = 0) by (apply Hm; lia). destruct (blob_or_run b (c / 8) (Z.shiftr r (sum + sh))) as (b1 & E1 & L1 & B1).
  { unfold lenZ in *. Z.to_euclidean_division_equations; lia. }
  rewrite E1. ostep. set (w := if 8 <? cnt then 8 else cnt). assert (Hw : w = Z.min 8 cnt) by (subst w; destruct (Z.ltb_spec 8 cnt); lia).
  clearbody w. destruct (IH (sum + sh) w (cnt - w) b1 (c + w)) as (b2 & E2 & L2 & B2); [lia|lia| |unfold lenZ in *; lia|lia| |].
  { intros. Z.to_euclidean_division_equations; lia. } { intros j Hj. apply Hr. lia. }
  exists b2. rewrite E2. split; [do 2 f_equal; lia|]. split; [lia|]. intros k Hk. rewrite B2, B1 by done. rewrite div_8_eq by done.
  replace (8 * (c / 8)) with c by (Z.to_euclidean_division_equations; lia). rewrite <- orb_assoc. f_equal.
  destruct (Z.leb_spec c k) as [Hck|]; cbn [andb]; [|by destruct (Z.leb_spec (c + w) k); [lia|]].
  destruct (Z.ltb_spec k (c + 8)) as [Hk8|Hk8]; cbn [andb].
  - replace (k mod 8) with (k - c) by (Z.to_euclidean_division_equations; lia). rewrite Z.shiftr_spec by lia.
    replace (k - c + (sum + sh)) with (sum + sh + (k - c)) by lia. destruct (Z.ltb_spec k (c + cnt)); cbn [andb].
    + destruct (Z.leb_spec (c + w) k); [|cbn; by rewrite orb_false_r]. lia.
    + rewrite Hr by lia. destruct (Z.ltb_spec k (c + w + (cnt - w))); [lia|]. by rewrite andb_false_r.
  - destruct (Z.leb_spec (c + w) k); [|lia]. replace (c + w + (cnt - w)) with (c + cnt) by lia. cbn [orb andb]. do 2 f_equal. lia.
Qed.

(** ** From a blob to a register *)
Lemma fill_reg_loop_run b : forall fuel sh cnt c reg, 0 <= cnt <= 8 * Z.of_nat fuel -> 0 <= c -> (0 < cnt -> c mod 8 = 0) -> c + cnt <= 8 * lenZ b -> 0 <= sh -> sh + cnt <= 32 ->
  exists reg', fill_reg_loop fuel sh cnt c reg b = Ok (reg', c + cnt) /\
    forall j, 0 <= j -> Z.testbit reg' j = Z.testbit reg j || ((sh <=? j) && (j <? sh + cnt) && bit b (c + (j - sh))).
Proof.
  induction fuel as [|fuel IH]; intros sh cnt c reg Hc H0 Hm Hl Hs H32; cbn [fill_reg_loop]; destruct (Z.leb_spec cnt 0); try lia;
    [exists reg; replace (c + cnt) with c by lia; split; [done|]; intros j Hj; replace (sh + cnt) with sh by lia;
     by destruct (Z.leb_spec sh j), (Z.ltb_spec j sh); try lia; rewrite ?orb_false_r..|].
  assert (M : c mod 8 = 0) by (apply Hm; lia). unfold blob_get. rewrite byte_lookup by (unfold lenZ in *; Z.to_euclidean_division_equations; lia). ostep.
  set (w := if 8 <? cnt then 8 else cnt). assert (Hw : w = Z.min 8 cnt) by (subst w; destruct (Z.ltb_spec 8 cnt); lia). clearbody w.
  destruct (Z.eq_dec (cnt - w) 0) as [Hz|Hz].
  - destruct fuel; cbn [fill_reg_loop]; destruct (Z.leb_spec (cnt - w) 0); try lia; (eexists; split; [do 2 f_equal; lia|]);
      intros j Hj; rewrite Z.lor_spec, testbit_u32, Z.shiftl_spec by done; f_equal;
      (destruct (Z.leb_spec sh j); [|rewrite Z.testbit_neg_r by lia; by rewrite andb_false_r]); rewrite Z.land_spec, get_mask_bits by lia;
      destruct (Z.ltb_spec j (sh + cnt)), (Z.ltb_spec (j - sh) (0 + w)), (Z.ltb_spec j 32), (Z.ltb_spec (j - sh) 32), (Z.leb_spec 0 (j - sh)); cbn; try lia;
      rewrite ?andb_false_r, ?andb_true_r; try done;
      by rewrite bit_in_byte by lia.
  - assert (w = 8) as -> by lia. destruct (IH (sh + 8) (cnt - 8) (c + 8) (Z.lor reg (u32 (Z.shiftl (Z.land (byte_nth b (c / 8)) (get_mask 8 0)) sh))))
      as (r2 & E2 & B2); [lia|lia| |lia|lia|lia|].
    { intros. Z.to_euclidean_division_equations; lia. }
    exists r2. rewrite E2. split; [do 2 f_equal; lia|]. intros j Hj. rewrite B2 by done. rewrite Z.lor_spec, testbit_u32, Z.shiftl_spec, <- orb_assoc by done. f_equal.
    destruct (Z.leb_spec sh j); [|rewrite (Z.testbit_neg_r _ (j - sh)) by lia; rewrite andb_false_r; by destruct (Z.leb_spec (sh + 8) j); [lia|]].
    rewrite Z.land_spec, get_mask_bits by lia. replace (sh + 8 + (cnt - 8)) with (sh + cnt) by lia. replace (c + 8 + (j - (sh + 8))) with (c + (j - sh)) by lia.
    destruct (Z.ltb_spec j (sh + cnt)), (Z.leb_spec (sh + 8) j), (Z.ltb_spec (j - sh) (0 + 8)), (Z.ltb_spec j 32), (Z.ltb_spec (j - sh) 32), (Z.leb_spec 0 (j - sh)); cbn; try lia;
      rewrite ?andb_false_r, ?andb_true_r, ?orb_false_r; try done. by rewrite bit_in_byte by lia.
Qed.

(** A blob that ends in the middle of a byte is continued there. *)
Lemma fill_reg_run st n b c : 0 <= st -> 0 <= n -> st + n <= 32 -> 0 <= c -> c + n <= 8 * lenZ b ->
  exists v, fill_reg st n b c = Ok (v, c + n) /\ is_u32 v /\
    forall j, 0 <= j -> Z.testbit v j = (st <=? j) && (j <? st + n) && bit b (c + (j - st)).
Proof.
  intros Hs Hn H32 Hc Hl. unfold fill_reg.
  assert (F : exists r0 w, (if negb (c mod 8 =? 0) then
       x ← blob_get b (c / 8); let temp := Z.shiftr x (c mod 8) in let shift_bit := if 8 - c mod 8 <? n then 8 - c mod 8 else n in
       Ok (Z.land temp (get_mask shift_bit 0), shift_bit, c + shift_bit, n - shift_bit)
     else Ok (0, c mod 8, c, n)) = Ok (r0, w, c + w, n - w) /\ 0 <= w <= n /\ (0 < n - w -> (c + w) mod 8 = 0) /\
     forall j, 0 <= j -> Z.testbit r0 j = (j <? w) && bit b (c + j)).
  { destruct (Z.eqb_spec (c mod 8) 0) as [M|M]; cbn [negb].
    - exists 0, 0. rewrite M, Z.add_0_r, Z.sub_0_r. split; [done|]. split; [lia|]. split; [done|]. intros j Hj. rewrite Z.bits_0.
      by destruct (Z.ltb_spec j 0); [lia|].
    - destruct (Z.eq_dec n 0) as [->|].
      + unfold blob_get. assert (Hb : c / 8 < lenZ b) by (Z.to_euclidean_division_equations; lia). assert (0 <= c / 8) by (apply Z.div_pos; lia).
        rewrite byte_lookup by lia. ostep. destruct (Z.ltb_spec (8 - c mod 8) 0); [Z.to_euclidean_division_equations; lia|].
        do 2 eexists. split; [done|]. split; [lia|]. split; [lia|]. intros j Hj. rewrite Z.land_spec, get_mask_bits by lia.
        destruct (Z.ltb_spec j 0), (Z.ltb_spec j (0 + 0)); try lia; by rewrite !andb_false_r.
      + unfold blob_get. rewrite byte_lookup by (Z.to_euclidean_division_equations; lia). ostep.
        set (w := if 8 - c mod 8 <? n then 8 - c mod 8 else n). assert (Hw : w = Z.min (8 - c mod 8) n) by (subst w; destruct (Z.ltb_spec (8 - c mod 8) n); lia).
        clearbody w. pose proof (Z.mod_pos_bound c 8 ltac:(lia)). do 2 eexists. split; [done|]. split; [lia|].
        split; [intros; Z.to_euclidean_division_equations; lia|]. intros j Hj. rewrite Z.land_spec, get_mask_bits, Z.shiftr_spec by lia.
        destruct (Z.ltb_spec j w), (Z.ltb_spec j 32), (Z.leb_spec 0 j), (Z.ltb_spec j (0 + w)); cbn; try lia; rewrite ?andb_false_r, ?andb_true_r; try done.
        unfold bit. do 2 f_equal; Z.to_euclidean_division_equations; lia. }
  destruct F as (r0 & w & E0 & Hw & Hm & B0). cbv zeta in E0 |- *. rewrite E0. ostep.
  destruct (fill_reg_loop_run b 5 w (n - w) (c + w) r0) as (r & E & B); [lia..|done|lia|lia|lia|]. rewrite E. ostep.
  eexists. split; [do 2 f_equal; lia|]. split; [apply u32_range|]. intros j Hj. rewrite testbit_u32, Z.shiftl_spec by done.
  destruct (Z.leb_spec st j); [|rewrite Z.testbit_neg_r by lia; by rewrite andb_false_r]. rewrite B, B0 by lia. cbn [andb].
  replace (c + w + (j - st - w)) with (c + (j - st)) by lia.
  destruct (Z.ltb_spec j 32), (Z.ltb_spec j (st + n)), (Z.ltb_spec (j - st) w), (Z.leb_spec w (j - st)), (Z.ltb_spec (j - st) (w + (n - w))); cbn; try lia;
    rewrite ?orb_false_r; done.
Qed.

Section run.
Context {eenv : EfuseEnv}.
Implicit Types (s : efuse_state) (blk num : Z).

Definition valid_reg blk num : Prop := 0 <= blk < EFUSE_BLK_MAX /\ 0 <= num <= max_num_reg blk.

Lemma valid_reg_checks blk num : valid_reg blk num -> (0 <=? blk) && (blk <? EFUSE_BLK_MAX) = true /\ (num <=? max_num_reg blk) = true.
Proof. intros [H1 H2]. rewrite andb_true_iff, !Z.leb_le, Z.ltb_lt. lia. Qed.

Lemma read_reg_run blk num s : valid_reg blk num -> esp_efuse_utility_read_reg blk num s = Ok (reg_at (virt_blocks s) blk num).
Proof. intros [H1 H2]%valid_reg_checks. unfold esp_efuse_utility_read_reg. by rewrite H1, H2. Qed.

Lemma write_reg_run blk num v s : valid_reg blk num ->
  write_reg blk num v s = Ok (s <| wdata := <[(blk, num) := Z.lor (reg_at (wdata s) blk num) v]> (wdata s) |>).
Proof. intros [H1 H2]%valid_reg_checks. unfold write_reg. by rewrite H1, H2. Qed.

Lemma fill_buff_run num blk st n b c s : valid_reg blk num -> 0 <= st -> 0 <= n -> st + n <= 32 -> 0 <= c -> c + n <= 8 * lenZ b ->
  exists b', esp_efuse_utility_fill_buff num blk st n b c s = Ok (ESP_OK, b', c + n, s) /\ length b' = length b /\
    forall k, 0 <= k -> bit b' k = bit b k || ((c <=? k) && (k <? c + n) && Z.testbit (reg_at (virt_blocks s) blk num) (st + (k - c))).
Proof.
  intros Hv Hs Hn H32 Hc Hl. unfold esp_efuse_utility_fill_buff. rewrite read_reg_run by done. ostep.
  set (reg := reg_at (virt_blocks s) blk num). set (r := Z.land (Z.shiftr reg st) (get_mask n 0)).
  assert (R : forall j, 0 <= j -> Z.testbit r j = (j <? n) && Z.testbit reg (st + j)).
  { intros j Hj. subst r. rewrite Z.land_spec, Z.shiftr_spec, get_mask_bits by lia. rewrite (Z.add_comm j st).
    destruct (Z.ltb_spec j n), (Z.ltb_spec j 32), (Z.leb_spec 0 j), (Z.ltb_spec j (0 + n)); cbn; try lia; by rewrite ?andb_false_r, ?andb_true_r. }
  clearbody r. pose proof (Z.mod_pos_bound c 8 ltac:(lia)) as Hc8.
  assert (F : exists b0 w, (if negb (c mod 8 =? 0) then
       b0 ← blob_or b (c / 8) (Z.shiftl r (c mod 8)); let w := if 8 - c mod 8 <? n then 8 - c mod 8 else n in Ok (b0, w, c + w, n - w)
     else Ok (b, c mod 8, c, n)) = Ok (b0, w, c + w, n - w) /\ length b0 = length b /\ 0 <= w <= n /\ (0 < n - w -> (c + w) mod 8 = 0) /\
     forall k, 0 <= k -> bit b0 k = bit b k || ((c <=? k) && (k <? c + w) && Z.testbit reg (st + (k - c)))).
  { destruct (Z.eqb_spec (c mod 8) 0) as [M|M]; cbn [negb].
    - exists b, 0. rewrite M, Z.add_0_r, Z.sub_0_r. split; [done|]. split; [done|]. split; [lia|]. split; [done|]. intros k Hk.
      by destruct (Z.leb_spec c k), (Z.ltb_spec k c); try lia; rewrite ?orb_false_r.
    - destruct (blob_or_run b (c / 8) (Z.shiftl r (c mod 8))) as (b0 & E0 & L0 & B0); [Z.to_euclidean_division_equations; lia|].
      rewrite E0. ostep. set (w := if 8 - c mod 8 <? n then 8 - c mod 8 else n).
      assert (Hw : w = Z.min (8 - c mod 8) n) by (subst w; destruct (Z.ltb_spec (8 - c mod 8) n); lia). clearbody w.
      exists b0, w. split; [done|]. split; [done|]. split; [lia|]. split; [intros; Z.to_euclidean_division_equations; lia|].
      intros k Hk. rewrite B0, div_8_eq, Z.shiftl_spec by (done || (apply Z.mod_pos_bound; lia)). f_equal.
      destruct (Z.leb_spec (8 * (c / 8)) k), (Z.ltb_spec k (8 * (c / 8) + 8)); cbn [andb];
        [|destruct (Z.leb_spec c k), (Z.ltb_spec k (c + w)); try done; exfalso; Z.to_euclidean_division_equations; lia..].
      destruct (Z.leb_spec c k); [|apply Z.testbit_neg_r; Z.to_euclidean_division_equations; lia].
      replace (k mod 8 - c mod 8) with (k - c) by (Z.to_euclidean_division_equations; lia). rewrite R by lia.
      destruct (Z.ltb_spec (k - c) n), (Z.ltb_spec k (c + w)); cbn; try done; exfalso; Z.to_euclidean_division_equations; lia. }
  destruct F as (b0 & w & E0 & L0 & Hw & Hm & B0). cbv zeta in E0 |- *. rewrite E0. ostep.
  destruct (fill_buff_loop_run r 5 0 w (n - w) b0 (c + w)) as (b2 & E2 & L2 & B2); [lia..|done|unfold lenZ in *; lia|lia| |].
  { intros j Hj. rewrite R by lia. by destruct (Z.ltb_spec j n); [lia|]. }
  rewrite E2. ostep. exists b2. split; [by replace (c + w + (n - w)) with (c + n) by lia|]. split; [lia|]. intros k Hk. rewrite B2, B0, <- orb_assoc by done. f_equal.
  destruct (Z.leb_spec (c + w) k), (Z.leb_spec c k), (Z.ltb_spec k (c + w)), (Z.ltb_spec k (c + w + (n - w))), (Z.ltb_spec k (c + n)); cbn; try lia;
    rewrite ?orb_false_r; try done. rewrite R by lia. destruct (Z.ltb_spec (0 + w + (k - (c + w))) n); [|lia]. cbn. f_equal. lia.
Qed.
End run.
