(* ===== verification/EfuseField.v ===== *)
(** * The eFuse manager: fields

    A field is the list of its bits.  Processing a field calls the function for
    pieces that are each in one register and together are the bits asked for, in
    order. *)
From S2P Require Import Prelude Mem EspFlash Partition Efuse EfuseBits.

Definition range_bits (d : esp_efuse_desc_t) : list (Z * Z) := map (fun j => (efuse_block d, bit_start d + j)) (seqZ 0 (bit_count d)).
Definition field_bits (field : list esp_efuse_desc_t) : list (Z * Z) := concat (map range_bits field).

(** The values the fields of the structure can have; block 0 has seven registers. *)
Record desc_ok (d : esp_efuse_desc_t) : Prop := {
  dk_block : 0 <= efuse_block d < EFUSE_BLK_MAX;
  dk_start : 0 <= bit_start d < 256;
  dk_count : 1 <= bit_count d < 2 ^ 16;
  dk_block0 : efuse_block d = EFUSE_BLK0 -> bit_start d + bit_count d <= 224
}.

Lemma range_bits_lookup d j : 0 <= j < bit_count d -> range_bits d !! Z.to_nat j = Some (efuse_block d, bit_start d + j).
Proof. intros H. unfold range_bits. rewrite list_lookup_fmap, lookup_seqZ_lt by lia. cbn. do 3 f_equal. lia. Qed.

Lemma length_range_bits d : 0 <= bit_count d -> lenZ (range_bits d) = bit_count d.
Proof. intros. unfold range_bits, lenZ. rewrite length_map, length_seqZ. lia. Qed.

Lemma field_size field : Forall desc_ok field -> esp_efuse_get_field_size field = lenZ (field_bits field).
Proof.
  unfold esp_efuse_get_field_size. replace (lenZ (field_bits field)) with (0 + lenZ (field_bits field)) by lia. generalize 0.
  induction field as [|d field IH]; intros n F; [unfold field_bits, lenZ; cbn; lia|]. apply Forall_cons in F as [D F]. cbn [foldl]. rewrite IH by done.
  unfold field_bits. cbn [map concat]. rewrite lenZ_app, length_range_bits by (pose proof (dk_count _ D); lia). lia.
Qed.

Lemma lenZ_field_cons d field : desc_ok d -> lenZ (field_bits (d :: field)) = bit_count d + lenZ (field_bits field).
Proof.
  intros D. unfold field_bits. cbn [map concat]. rewrite lenZ_app, length_range_bits by (pose proof (dk_count _ D); lia). done.
Qed.

Lemma field_bits_lookup d field j : desc_ok d -> 0 <= j ->
  field_bits (d :: field) !! Z.to_nat j = if j <? bit_count d then Some (efuse_block d, bit_start d + j) else field_bits field !! Z.to_nat (j - bit_count d).
Proof.
  intros D Hj. pose proof (dk_count _ D) as Dc. unfold field_bits. cbn [map concat]. pose proof (length_range_bits d ltac:(lia)) as L. unfold lenZ in L.
  destruct (Z.ltb_spec j (bit_count d)); [rewrite lookup_app_l by lia; by rewrite range_bits_lookup|]. rewrite lookup_app_r by lia. f_equal. lia.
Qed.

(** ** The registers of a range *)
Lemma get_reg_num_run st n i : 0 <= st -> 1 <= n -> get_reg_num st n i = if (st + n - 1) / 32 <? st / 32 + i then None else Some (st / 32 + i).
Proof. intros. unfold get_reg_num. rewrite !Z.quot_div_nonneg by lia. by rewrite (Z.add_comm i). Qed.

Lemma count_bits_run last i : forall n b num ret, 0 <= b <= last -> Z.of_nat n = last - b + 1 -> num <= i -> b / 32 + (i - num) <= last / 32 ->
  count_bits n b last i num ret =
    (if i =? num then ret + Z.min (last + 1) (32 * (b / 32 + 1)) - b
     else Z.min (last + 1) (32 * (b / 32 + (i - num) + 1)) - 32 * (b / 32 + (i - num))).
Proof.
  induction n as [|n IH]; intros b num ret Hb Hn Hi Hq; cbn [count_bits]; [lia|].
  rewrite Z.rem_mod_nonneg by lia. destruct (Z.eqb_spec ((b + 1) mod 32) 0) as [M|M], (Z.eqb_spec b last) as [L|L]; cbn [orb].
  - destruct (Z.eqb_spec i num); [Z.to_euclidean_division_equations; lia|]. exfalso. Z.to_euclidean_division_equations; lia.
  - destruct (Z.eqb_spec i num); [Z.to_euclidean_division_equations; lia|].
    assert (E : (b + 1) / 32 = b / 32 + 1) by (Z.to_euclidean_division_equations; lia). rewrite IH by (rewrite ?E; lia). rewrite E.
    assert (Hb1 : b + 1 = 32 * (b / 32 + 1)) by (Z.to_euclidean_division_equations; lia). generalize dependent (b / 32). intros q _ _ Hb1.
    destruct (Z.eqb_spec i (num + 1)); lia.
  - destruct (Z.eqb_spec i num); [Z.to_euclidean_division_equations; lia|]. exfalso. Z.to_euclidean_division_equations; lia.
  - assert (E : (b + 1) / 32 = b / 32) by (Z.to_euclidean_division_equations; lia). rewrite IH by (rewrite ?E; lia). rewrite E.
    destruct (Z.eqb_spec i num); lia.
Qed.

Lemma get_count_run st n i : 0 <= st -> 1 <= n -> 0 <= i -> st / 32 + i <= (st + n - 1) / 32 ->
  get_count_bits_in_reg st n i = Z.min (st + n) (32 * (st / 32 + i + 1)) - Z.max st (32 * (st / 32 + i)).
Proof.
  intros. unfold get_count_bits_in_reg. rewrite count_bits_run by lia. rewrite Z.sub_0_r, Z.sub_add.
  destruct (Z.eqb_spec i 0) as [->|]; [rewrite Z.add_0_r|]; Z.to_euclidean_division_equations; lia.
Qed.

(** ** Processing *)
Section process.
Context {eenv : EfuseEnv} {P : Type}.
Implicit Types (s : efuse_state) (p : P).
Context (func : Z -> Z -> Z -> Z -> P -> Z -> efuse_state -> outcome (Z * P * Z * efuse_state)) (fbits : list (Z * Z)) (req : Z).

(** [n] bits of one register, which are the bits of the field from number [c] on. *)
Record piece (num blk st n c : Z) : Prop := {
  pc_reg : valid_reg blk num;
  pc_start : 0 <= st;
  pc_count : 0 < n;
  pc_width : st + n <= 32;
  pc_pos : 0 <= c /\ c + n <= req;
  pc_bits : forall j, 0 <= j < n -> fbits !! Z.to_nat (c + j) = Some (blk, 32 * num + st + j)
}.

(** [Q c] holds when the bits before [c] have been processed, [E] when the function
    ends the processing. *)
Context (Q : Z -> P -> efuse_state -> Prop) (E : Z -> P -> efuse_state -> Prop).

Definition stopped (o : outcome (Z * P * Z * efuse_state)) : Prop :=
  exists err p c s, o = Ok (err, p, c, s) /\ err <> ESP_OK /\ c <= req /\ E err p s.
Definition went_on (c : Z) (o : outcome (Z * P * Z * efuse_state)) : Prop :=
  exists p s, o = Ok (ESP_OK, p, c, s) /\ Q c p s.

Context (Hfunc : forall num blk st n p c s, piece num blk st n c -> Q c p s ->
  went_on (c + n) (func num blk st n p c s) \/ stopped (func num blk st n p c s)).

(** How many bits of a range are before its register [i]. *)
Definition before (d : esp_efuse_desc_t) (i : Z) : Z := Z.min (bit_count d) (Z.max 0 (32 * (bit_start d / 32 + i) - bit_start d)).

Lemma process_regs_run d base : desc_ok d -> bit_start d + bit_count d <= 256 -> 0 <= base ->
  (forall j, 0 <= j < bit_count d -> fbits !! Z.to_nat (base + j) = Some (efuse_block d, bit_start d + j)) ->
  forall fuel i p s, 0 <= i -> (bit_start d + bit_count d - 1) / 32 - (bit_start d / 32 + i) + 1 <= Z.of_nat fuel ->
  Q (Z.min req (base + before d i)) p s ->
  went_on (Z.min req (base + bit_count d)) (process_regs func fuel d i req p (Z.min req (base + before d i)) s) \/
  stopped (process_regs func fuel d i req p (Z.min req (base + before d i)) s).
Proof.
  intros D H256 Hb Hl. pose proof (dk_start _ D) as Ds. pose proof (dk_count _ D) as Dc.
  induction fuel as [|fuel IH]; intros i p s Hi Hf HQ; cbn [process_regs]; (destruct (Z.ltb_spec (Z.min req (base + before d i)) req) as [Hlt|Hge];
    [|left; exists p, s; assert (Z.min req (base + before d i) = req) as R by lia; rewrite R in *; unfold before in R;
      rewrite Z.min_l by lia; by split]); rewrite get_reg_num_run by lia;
    (destruct (Z.ltb_spec ((bit_start d + bit_count d - 1) / 32) (bit_start d / 32 + i)) as [Hn|Hn];
      [left; exists p, s; assert (before d i = bit_count d) as R by (unfold before; Z.to_euclidean_division_equations; lia); rewrite R in *; by split|]); [lia|].
  rewrite get_count_run by lia. unfold get_starting_bit_num_in_reg. rewrite Z.rem_mod_nonneg by lia.
  set (c := Z.min req (base + before d i)) in *. assert (Ec : c = base + before d i) by lia.
  set (w := Z.min (bit_start d + bit_count d) (32 * (bit_start d / 32 + i + 1)) - Z.max (bit_start d) (32 * (bit_start d / 32 + i))).
  assert (Hw : 0 < w /\ before d (i + 1) = before d i + w /\ before d (i + 1) <= bit_count d /\ 0 <= before d i) by (unfold before, w; Z.to_euclidean_division_equations; lia).
  destruct Hw as (Hw & Hnext & Hcnt & Hbef).
  set (n := if req <? c + w then req - c else w). assert (En : n = Z.min w (req - c)) by (subst n; destruct (Z.ltb_spec req (c + w)); lia). clearbody n.
  set (st := if i =? 0 then bit_start d mod 32 else 0).
  assert (Est : 32 * (bit_start d / 32 + i) + st = bit_start d + before d i /\ 0 <= st /\ st + w <= 32).
  { subst st w. unfold before. destruct (Z.eqb_spec i 0) as [->|]; Z.to_euclidean_division_equations; lia. }
  assert (HP : piece (bit_start d / 32 + i) (efuse_block d) st n c).
  { split; [|lia..|].
    - split; [apply (dk_block _ D)|]. split; [Z.to_euclidean_division_equations; lia|]. unfold max_num_reg. pose proof (dk_block0 _ D) as D0.
      destruct (Z.eqb_spec (efuse_block d) EFUSE_BLK0) as [Hz|]; [specialize (D0 Hz)|]; Z.to_euclidean_division_equations; lia.
    - intros j Hj. replace (c + j) with (base + (before d i + j)) by lia. rewrite Hl; [do 2 f_equal; lia|]. lia. }
  destruct (Hfunc _ _ _ _ p c s HP HQ) as [(p1 & s1 & -> & HQ1)|(e & p1 & c1 & s1 & -> & He & Hc & HE)].
  - ostep. change (ESP_OK =? ESP_OK) with true. replace (c + n) with (Z.min req (base + before d (i + 1))) in * by lia. apply IH; [lia|lia|done].
  - ostep. apply Z.eqb_neq in He as He'. rewrite He'. right. by exists e, p1, c1, s1.
Qed.

(** The ranges of the field that are reached, and the check of each. *)
Definition range_fits (d : esp_efuse_desc_t) : Prop := check_range_of_bits (efuse_block d) (bit_start d) (bit_count d) = true.
Fixpoint reached (c : Z) (field : list esp_efuse_desc_t) : list esp_efuse_desc_t :=
  match field with
  | [] => []
  | d :: field => if c <? req then d :: reached (c + bit_count d) field else []
  end.

Lemma range_fits_256 d : range_fits d -> bit_start d + bit_count d <= 256.
Proof. unfold range_fits, check_range_of_bits. destruct (Z.ltb_spec 256 (bit_start d + bit_count d)); [done|lia]. Qed.

Definition not_coded (o : outcome (Z * P * Z * efuse_state)) : Prop :=
  exists p c s, o = Ok (ESP_ERR_CODING, p, c, s) /\ c <= req /\ Q c p s.

Lemma process_field_run field : forall base p s, Forall desc_ok field -> 0 <= base ->
  (forall j, 0 <= j < lenZ (field_bits field) -> fbits !! Z.to_nat (base + j) = field_bits field !! Z.to_nat j) -> Q (Z.min req base) p s ->
  went_on (Z.min req (base + lenZ (field_bits field))) (process_field func field req p (Z.min req base) s) /\ Forall range_fits (reached base field) \/
  stopped (process_field func field req p (Z.min req base) s) \/
  not_coded (process_field func field req p (Z.min req base) s) /\ ~ Forall range_fits (reached base field).
Proof.
  induction field as [|d field IH]; intros base p s F Hb Hl HQ.
  { left. split; [|constructor]. exists p, s. unfold field_bits. cbn. by rewrite Z.add_0_r. }
  apply Forall_cons in F as [D F]. pose proof (dk_count _ D) as Dc. cbn [process_field reached].
  pose proof (lenZ_field_cons d field D) as Elen.
  pose proof (lenZ_nonneg (field_bits field)) as Hn. destruct (Z.ltb_spec base req) as [Hlt|Hge].
  2: { left. rewrite Z.min_l in HQ by lia. rewrite !Z.min_l by lia. destruct (Z.ltb_spec req req); [lia|]. split; [|constructor]. by exists p, s. }
  destruct (Z.ltb_spec (Z.min req base) req); [|lia].
  destruct (check_range_of_bits (efuse_block d) (bit_start d) (bit_count d)) eqn:Ck; cbn [negb].
  2: { right. right. split; [exists p, (Z.min req base), s; split; [done|]; split; [lia|done]|]. intros [Fd _]%Forall_cons. unfold range_fits in Fd. congruence. }
  pose proof (range_fits_256 d Ck) as H256. pose proof (dk_start _ D) as Ds.
  assert (B0 : Z.min req (base + before d 0) = Z.min req base) by (unfold before; Z.to_euclidean_division_equations; lia).
  destruct (process_regs_run d base D H256 Hb) with (fuel := 9%nat) (i := 0) (p := p) (s := s) as [HR|HR];
    [|lia|Z.to_euclidean_division_equations; lia|by rewrite B0| |].
  - intros j Hj. rewrite Hl by lia. rewrite field_bits_lookup by (done || lia). by destruct (Z.ltb_spec j (bit_count d)); [|lia].
  - rewrite B0 in HR. destruct HR as (p1 & s1 & -> & HQ1). ostep. change (ESP_OK =? ESP_OK) with true.
    destruct (IH (base + bit_count d) p1 s1 F) as [[H1 H2]|[H1|[H1 H2]]]; [lia| |done|..].
    + intros j Hj. replace (base + bit_count d + j) with (base + (bit_count d + j)) by lia. rewrite Hl by lia. rewrite field_bits_lookup by (done || lia).
      destruct (Z.ltb_spec (bit_count d + j) (bit_count d)); [lia|]. f_equal. lia.
    + left. rewrite Elen, Z.add_assoc. split; [done|]. by constructor.
    + right. by left.
    + right. right. split; [done|]. intros [_ ?]%Forall_cons. done.
  - rewrite B0 in HR. destruct HR as (e & p1 & c1 & s1 & -> & He & Hc & HE). ostep. apply Z.eqb_neq in He as He'. rewrite He'. right. left. by exists e, p1, c1, s1.
Qed.
End process.

#[export] Instance range_fits_dec {eenv : EfuseEnv} d : Decision (range_fits d).
Proof. unfold range_fits. apply _. Defined.

(** The number of bits that are processed. *)
Definition requested (field : list esp_efuse_desc_t) (size : Z) : Z :=
  if size =? 0 then lenZ (field_bits field) else Z.min size (lenZ (field_bits field)).

Lemma utility_process_run {eenv : EfuseEnv} {P} func field (ptr : P) size s Q E : Forall desc_ok field -> 0 <= size ->
  let req := requested field size in
  (forall num blk st n p c s, piece (field_bits field) req num blk st n c -> Q c p s ->
    went_on Q (c + n) (func num blk st n p c s) \/ stopped req E (func num blk st n p c s)) ->
  Q 0 ptr s ->
  (exists p s', esp_efuse_utility_process func field ptr size s = Ok (ESP_OK, p, s') /\ Q req p s' /\ Forall range_fits (reached req 0 field)) \/
  (exists err p s', esp_efuse_utility_process func field ptr size s = Ok (err, p, s') /\ err <> ESP_OK /\ E err p s') \/
  (exists p c s', esp_efuse_utility_process func field ptr size s = Ok (ESP_ERR_CODING, p, s') /\ Q c p s' /\ ~ Forall range_fits (reached req 0 field)).
Proof.
  intros F Hs req Hf HQ. unfold esp_efuse_utility_process. rewrite field_size by done. fold (requested field size). fold req.
  pose proof (lenZ_nonneg (field_bits field)) as Hn. assert (Hr : 0 <= req <= lenZ (field_bits field)) by (unfold req, requested; destruct (size =? 0); lia).
  destruct (process_field_run func (field_bits field) req Q E Hf field 0 ptr s F) as [[H V]|[H|[H V]]]; [done|done|by rewrite Z.min_r by lia|..];
    rewrite (Z.min_r req 0) in H by lia.
  - left. rewrite Z.min_l in H by lia. destruct H as (p & s' & -> & H). ostep. rewrite cassert_bind by (apply Z.leb_le; lia). by exists p, s'.
  - right. left. destruct H as (err & p & c & s' & -> & He & Hc & H). ostep. rewrite cassert_bind by (by apply Z.leb_le). by exists err, p, s'.
  - right. right. destruct H as (p & c & s' & -> & Hc & H). ostep. rewrite cassert_bind by (by apply Z.leb_le). by exists p, c, s'.
Qed.
