(* ===== verification/EfuseRead.v ===== *)
(** * The eFuse manager: reading fields *)
From S2P Require Import Prelude Mem EspFlash Partition Efuse EfuseBits EfuseField.
From S2P Require OtaData.

(** Bit number [k] of a field in the register file [m]. *)
Definition field_bit (m : regs) (field : list esp_efuse_desc_t) (k : Z) : bool :=
  match field_bits field !! Z.to_nat k with Some (blk, i) => rbit m blk i | None => false end.

Lemma rbit_reg m blk num x : 0 <= x < 32 -> rbit m blk (32 * num + x) = Z.testbit (reg_at m blk num) x.
Proof. intros. unfold rbit. f_equal; [f_equal|]; Z.to_euclidean_division_equations; lia. Qed.

Lemma piece_field_bit m field req num blk st n c k : piece (field_bits field) req num blk st n c -> c <= k < c + n ->
  field_bit m field k = Z.testbit (reg_at m blk num) (st + (k - c)).
Proof.
  intros [_ Hs _ Hw _ Hb] Hk. unfold field_bit. replace k with (c + (k - c)) at 1 by lia. rewrite Hb by lia.
  rewrite <- Z.add_assoc. apply rbit_reg. lia.
Qed.

Lemma bit_cleared dst n k : 0 <= n <= lenZ dst -> 0 <= k ->
  bit (replicate (Z.to_nat n) 0 ++ drop (Z.to_nat n) dst) k = if k <? 8 * n then false else bit dst k.
Proof.
  intros Hn Hk. unfold bit, byte_nth, lenZ in *. rewrite !nth_lookup. destruct (Z.ltb_spec k (8 * n)).
  - rewrite lookup_app_l by (rewrite length_replicate; Z.to_euclidean_division_equations; lia).
    rewrite lookup_replicate_2 by (Z.to_euclidean_division_equations; lia). apply Z.bits_0.
  - rewrite lookup_app_r by (rewrite length_replicate; Z.to_euclidean_division_equations; lia). rewrite length_replicate, lookup_drop. do 3 f_equal.
    Z.to_euclidean_division_equations; lia.
Qed.

(** The bytes for a number of bits. *)
Definition bytes_for (bits : Z) : Z := (bits + 7) / 8.
Lemma number_of_items bits : 0 <= bits -> esp_efuse_utility_get_number_of_items bits 8 = bytes_for bits.
Proof.
  intros. unfold esp_efuse_utility_get_number_of_items, bytes_for. rewrite Z.quot_div_nonneg, Z.rem_mod_nonneg by lia.
  destruct (Z.ltb_spec 0 (bits mod 8)); Z.to_euclidean_division_equations; lia.
Qed.

Section read.
Context {eenv : EfuseEnv}.
Implicit Types (s : efuse_state) (field : list esp_efuse_desc_t).

(** Reading a field that is not empty into a buffer that is large enough. *)
Lemma EFUSE_LOCK_ACQUIRE_run s : s_batch_writing_mode s = false -> EFUSE_LOCK_ACQUIRE s = Ok tt.
Proof. unfold EFUSE_LOCK_ACQUIRE. by intros ->. Qed.

Lemma read_field_run field dst size s : s_batch_writing_mode s = false -> Forall desc_ok field -> 0 < size -> bytes_for size <= lenZ dst ->
  exists err dst', esp_efuse_read_field_blob (Some field) (Some dst) size s = Ok (err, Some dst') /\ length dst' = length dst /\
    err = (if decide (Forall range_fits (reached (requested field size) 0 field)) then ESP_OK else ESP_ERR_CODING) /\
    (err = ESP_OK -> forall k, 0 <= k < 8 * bytes_for size -> bit dst' k = (k <? requested field size) && field_bit (virt_blocks s) field k) /\
    (forall k, 8 * bytes_for size <= k -> bit dst' k = bit dst k).
Proof.
  intros Hm F Hs Hl. unfold esp_efuse_read_field_blob. rewrite EFUSE_LOCK_ACQUIRE_run by done. ostep. destruct (Z.eqb_spec size 0); [lia|]. rewrite number_of_items by lia.
  assert (Hb : 0 <= bytes_for size /\ size <= 8 * bytes_for size) by (unfold bytes_for; Z.to_euclidean_division_equations; lia).
  unfold cleared. destruct (Z.ltb_spec (lenZ dst) (bytes_for size)); [lia|]. ostep. set (dst0 := _ ++ _).
  assert (L0 : length dst0 = length dst) by (unfold dst0, lenZ in *; rewrite length_app, length_replicate, length_drop; lia).
  set (Q := fun c (p : list Z) s' => s' = s /\ length p = length dst /\
    forall k, 0 <= k -> bit p k = bit dst0 k || ((k <? c) && field_bit (virt_blocks s) field k)).
  assert (Q0 : Q 0 dst0 s). { split; [done|]. split; [done|]. intros k Hk. destruct (Z.ltb_spec k 0); [lia|]. by rewrite orb_false_r. }
  set (req := requested field size). pose proof (lenZ_nonneg (field_bits field)) as Hn.
  assert (Hreq : 0 <= req <= size) by (unfold req, requested; destruct (Z.eqb_spec size 0); lia).
  assert (D0 : forall c p, Q c p s -> c <= req -> forall k, 8 * bytes_for size <= k -> bit p k = bit dst k).
  { intros c p (_ & _ & B) Hc k Hk. rewrite B by lia. destruct (Z.ltb_spec k c); [lia|]. unfold dst0. rewrite bit_cleared by lia.
    destruct (Z.ltb_spec k (8 * bytes_for size)); [lia|]. by rewrite orb_false_r. }
  destruct (utility_process_run esp_efuse_utility_fill_buff field dst0 size s (fun c p s' => Q c p s' /\ c <= req) (fun _ _ _ => False))
    as [(p & s' & E & [HQ Hc] & V)|[(e & p & s' & _ & _ & [])|(p & c & s' & E & [HQ Hc] & V)]]; [done|lia| |split; [exact Q0|lia]|..].
  - intros num blk st n1 p c s1 HP [(-> & Lp & B) Hc]. left. pose proof (pc_pos _ _ _ _ _ _ _ HP) as Hpos. pose proof (pc_count _ _ _ _ _ _ _ HP) as Hcnt.
    destruct (fill_buff_run num blk st n1 p c s (pc_reg _ _ _ _ _ _ _ HP)) as (p' & E & L' & B');
      [apply HP|lia|apply HP|lia|unfold lenZ in *; fold req in Hpos; lia|].
    exists p', s. split; [done|]. split; [|fold req in Hpos; lia]. split; [done|]. split; [lia|]. intros k Hk. rewrite B', B, <- orb_assoc by done. f_equal.
    destruct (Z.leb_spec c k), (Z.ltb_spec k c), (Z.ltb_spec k (c + n1)); cbn; try lia; rewrite ?orb_false_r; try done.
    symmetry. eapply piece_field_bit; [exact HP|lia].
  - destruct HQ as (-> & Lp & B). rewrite E. ostep. exists ESP_OK, p. split; [done|]. split; [done|].
    split; [by rewrite decide_True|]. split; [|by eapply D0]. intros _ k Hk. rewrite B by lia. unfold dst0. rewrite bit_cleared by lia.
    by destruct (Z.ltb_spec k (8 * bytes_for size)); [|lia].
  - pose proof HQ as (-> & Lp & _). rewrite E. ostep. exists ESP_ERR_CODING, p. split; [done|]. split; [done|]. split; [by rewrite decide_False|].
    split; [done|]. by eapply D0.
Qed.
(** Reading a field, outside of batch mode.  A [NULL] argument or a size of 0 is [ESP_ERR_INVALID_ARG]
    and leaves the destination.  Otherwise the call answers [ESP_OK] just when the
    ranges of bits it reaches are inside what the coding scheme of their block can
    hold, and [ESP_ERR_CODING] if not; with [ESP_OK] bit [k] of the destination is
    bit [k] of the field, up to the smaller of the field and the number of bits
    asked for, the remaining bits of the last byte are 0, and in any case the bytes
    behind it are as before. *)
Theorem efuse_read_field_exact (field : option (list esp_efuse_desc_t)) (dst : option (list Z)) size s :
  s_batch_writing_mode s = false -> Forall desc_ok (default [] field) -> 0 <= size -> bytes_for size <= lenZ (default [] dst) \/ dst = None ->
  exists err dst', esp_efuse_read_field_blob field dst size s = Ok (err, dst') /\
    match field, dst, dst' with
    | Some field, Some dst, Some dst' =>
        length dst' = length dst /\ (forall k, 8 * bytes_for size <= k -> bit dst' k = bit dst k) /\
        if size =? 0 then err = ESP_ERR_INVALID_ARG /\ dst' = dst
        else if decide (Forall range_fits (reached (requested field size) 0 field)) then
          err = ESP_OK /\ forall k, 0 <= k < 8 * bytes_for size -> bit dst' k = (k <? requested field size) && field_bit (virt_blocks s) field k
        else err = ESP_ERR_CODING
    | _, _, _ => err = ESP_ERR_INVALID_ARG /\ dst' = dst
    end.
Proof.
  intros Hm F Hs Hl. pose proof (EFUSE_LOCK_ACQUIRE_run s Hm) as Lock.
  destruct field as [field|]; [|unfold esp_efuse_read_field_blob; rewrite Lock; by do 2 eexists].
  destruct dst as [dst|]; [|unfold esp_efuse_read_field_blob; rewrite Lock; by do 2 eexists]. destruct Hl as [Hl|]; [|done].
  destruct (Z.eqb_spec size 0) as [->|]; [unfold esp_efuse_read_field_blob; rewrite Lock; by do 2 eexists|].
  destruct (read_field_run field dst size s Hm F) as (err & dst' & E & L & Ee & Hok & Hb); [lia|exact Hl|]. exists err, (Some dst'). split; [done|].
  split; [done|]. split; [done|]. case_decide; [|done]. split; [done|]. by apply Hok.
Qed.
End read.
