(* ===== verification/EfuseCode.v ===== *)
(** * The eFuse manager: coding schemes and burning

    What the write registers hold when they are coded and what burning then adds
    to the eFuses: the words that were written, and in the repeat scheme also their
    copy. *)
From S2P Require Import Prelude Mem EspFlash Partition Efuse EfuseBits.
From S2P Require OtaData.

(** ** Writing registers *)
Section registers.
Context {eenv : EfuseEnv}.
Implicit Types (s : efuse_state) (blk num : Z).

Lemma reg_at_insert (m : regs) blk num v blk' num' : reg_at (<[(blk, num) := v]> m) blk' num' = if decide (blk' = blk /\ num' = num) then v else reg_at m blk' num'.
Proof.
  unfold reg_at. rewrite lookup_insert. destruct (decide ((blk, num) = (blk', num'))) as [[= -> ->]|H].
  - by rewrite decide_True.
  - rewrite decide_False; [done|]. intros [-> ->]. done.
Qed.

(** The same eFuses and mode. *)
Record same_fuses s s' : Prop := { sf_virt : virt_blocks s' = virt_blocks s; sf_batch : s_batch_writing_mode s' = s_batch_writing_mode s }.
Lemma same_fuses_refl s : same_fuses s s.
Proof. done. Qed.
Lemma same_fuses_trans s1 s2 s3 : same_fuses s1 s2 -> same_fuses s2 s3 -> same_fuses s1 s3.
Proof. intros [A B] [C D]. split; congruence. Qed.

Lemma clear_regs blk nums s : let s' := foldl (fun s num => REG_WRITE blk num 0 s) s nums in same_fuses s s' /\
  forall blk' num', reg_at (wdata s') blk' num' = if decide (blk' = blk /\ num' ∈ nums) then 0 else reg_at (wdata s) blk' num'.
Proof.
  revert s. induction nums as [|n nums IH]; intros s; cbn [foldl].
  { split; [done|]. intros. rewrite decide_False; [done|]. set_solver. }
  destruct (IH (REG_WRITE blk n 0 s)) as [[S1 S2] H]. split; [by split|]. intros blk' num'. rewrite H. unfold REG_WRITE. cbn [wdata upd]. rewrite reg_at_insert.
  repeat case_decide; try done; set_solver.
Qed.

Lemma block_regs_spec blk num : num ∈ block_regs blk <-> 0 <= num <= max_num_reg blk.
Proof. unfold block_regs. rewrite elem_of_seqZ. lia. Qed.

Lemma reset_run s : same_fuses s (esp_efuse_utility_reset s) /\ forall blk num, valid_reg blk num -> reg_at (wdata (esp_efuse_utility_reset s)) blk num = 0.
Proof.
  unfold esp_efuse_utility_reset. assert (G : forall blks s, let s' := foldl (fun s blk => foldl (fun s num => REG_WRITE blk num 0 s) s (block_regs blk)) s blks in
    same_fuses s s' /\ forall blk num, blk ∈ blks \/ reg_at (wdata s) blk num = 0 -> 0 <= num <= max_num_reg blk -> reg_at (wdata s') blk num = 0).
  { clear s. induction blks as [|b blks IH]; intros s; cbn [foldl]; [split; [done|]; set_solver|].
    destruct (clear_regs b (block_regs b) s) as [S1 H1]. destruct (IH (foldl (fun s num => REG_WRITE b num 0 s) s (block_regs b))) as [S2 H2].
    split; [by eapply same_fuses_trans|]. intros blk num Hin Hr. apply H2; [|done]. rewrite H1. case_decide as Hd; [by right|].
    rewrite block_regs_spec in Hd. destruct Hin as [[-> | Hin]%elem_of_cons | Hz]; [exfalso; by apply Hd|by left|by right]. }
  destruct (G (seqZ 0 EFUSE_BLK_MAX) s) as [S H]. split; [exact S|]. intros blk num [Hb Hr]. apply H; [left; by apply elem_of_seqZ|exact Hr].
Qed.

Lemma read_wdata_lookup blk s k : (k < 8)%nat -> Z.of_nat k <= max_num_reg blk -> nth k (read_wdata blk s) 0 = reg_at (wdata s) blk (Z.of_nat k).
Proof.
  intros Hk Hm. unfold read_wdata, block_regs. rewrite nth_lookup, list_lookup_fmap, lookup_seqZ_lt by lia. done.
Qed.

(** [write_words] at the register [first]. *)
Lemma write_words_run blk ws : forall first s, 0 <= first -> let s' := write_words blk first ws s in same_fuses s s' /\
  forall blk' num, reg_at (wdata s') blk' num =
    if decide (blk' = blk /\ first <= num < first + lenZ ws) then nth (Z.to_nat (num - first)) ws 0 else reg_at (wdata s) blk' num.
Proof.
  unfold write_words. assert (G : forall k first s, 0 <= first -> let s' := foldl (fun s '(k, w) => REG_WRITE blk (first + Z.of_nat k) w s) s (imap (fun i w => ((k + i)%nat, w)) ws) in
    same_fuses s s' /\ forall blk' num, reg_at (wdata s') blk' num =
    if decide (blk' = blk /\ first + Z.of_nat k <= num < first + Z.of_nat k + lenZ ws) then nth (Z.to_nat (num - first - Z.of_nat k)) ws 0 else reg_at (wdata s) blk' num).
  2: { intros first s Hf. destruct (G 0%nat first s Hf) as [S H]. cbn [Nat.add] in S, H. split; [exact S|]. intros. rewrite H. by rewrite !Z.add_0_r, Z.sub_0_r. }
  induction ws as [|w ws IH]; intros k first s Hf; cbn [imap foldl].
  { split; [done|]. intros. rewrite decide_False; [done|]. unfold lenZ. cbn. lia. }
  rewrite Nat.add_0_r. destruct (IH (S k) first (REG_WRITE blk (first + Z.of_nat k) w s) Hf) as [[S1 S2] H].
  replace (imap ((fun i w => ((k + i)%nat, w)) ∘ S) ws) with (imap (fun i w => ((S k + i)%nat, w)) ws) by (apply imap_ext; intros; cbn; f_equal; lia).
  split; [by split|]. intros blk' num. rewrite H. unfold REG_WRITE. cbn [wdata upd]. rewrite reg_at_insert, lenZ_cons. pose proof (lenZ_nonneg ws).
  repeat case_decide; try lia; try done.
  - replace (Z.to_nat (num - first - Z.of_nat k)) with (S (Z.to_nat (num - first - Z.of_nat (S k)))) by lia. done.
  - by replace (Z.to_nat (num - first - Z.of_nat k)) with 0%nat by lia.
Qed.
End registers.

(** ** Words and their bytes *)
Lemma bytes_of_words_app l k : bytes_of_words (l ++ k) = bytes_of_words l ++ bytes_of_words k.
Proof. unfold bytes_of_words. by rewrite map_app, concat_app. Qed.

Lemma bytes_of_words_cons w l : bytes_of_words (w :: l) = bytes_of_words [w] ++ bytes_of_words l.
Proof. done. Qed.

Lemma length_bytes_of_words l : length (bytes_of_words l) = (4 * length l)%nat.
Proof. induction l as [|w l IH]; [done|]. change (w :: l) with ([w] ++ l). rewrite bytes_of_words_app, length_app, IH. cbn. lia. Qed.

Lemma bytes_of_words_bytes l : Forall is_byte (bytes_of_words l).
Proof.
  induction l as [|w l IH]; [constructor|]. unfold bytes_of_words in *. cbn [map concat]. apply Forall_app. split; [|exact IH].
  repeat constructor; apply Z.mod_pos_bound; lia.
Qed.

Lemma word_bytes_eq w : is_u32 w -> u8 w + 2 ^ 8 * u8 (Z.shiftr w 8) + 2 ^ 16 * u8 (Z.shiftr w 16) + 2 ^ 24 * u8 (Z.shiftr w 24) = w.
Proof. unfold is_u32, u8. intros. rewrite !Z.shiftr_div_pow2 by lia. Z.to_euclidean_division_equations. lia. Qed.

Lemma words_of_bytes_of_words l k : Forall is_u32 l -> words_of_bytes (bytes_of_words l ++ k) = l ++ words_of_bytes k.
Proof.
  induction 1 as [|w l W _ IH]; [done|]. unfold bytes_of_words in *. cbn [map concat]. rewrite <- app_assoc. cbn [app words_of_bytes]. rewrite IH.
  f_equal. by apply word_bytes_eq.
Qed.

Lemma bytes_of_word_bytes b0 b1 b2 b3 : is_byte b0 -> is_byte b1 -> is_byte b2 -> is_byte b3 ->
  bytes_of_words [b0 + 2 ^ 8 * b1 + 2 ^ 16 * b2 + 2 ^ 24 * b3] = [b0; b1; b2; b3].
Proof.
  unfold is_byte, bytes_of_words, u8. intros. cbn [map concat app]. rewrite !Z.shiftr_div_pow2 by lia.
  repeat f_equal; Z.to_euclidean_division_equations; lia.
Qed.

(** ** The six bytes of a group and their code *)
Lemma is_byte_lxor x y : is_byte x -> is_byte y -> is_byte (Z.lxor x y).
Proof.
  intros Hx Hy. assert (E : Z.lxor x y = u8 (Z.lxor x y)).
  { apply Z.bits_inj'. intros j Hj. rewrite testbit_u8, Z.lxor_spec by done. destruct (Z.ltb_spec j 8); [done|].
    assert (T : forall z, is_byte z -> Z.testbit z j = false). { intros z Hz. rewrite <- (Z.mod_small z (2 ^ 8)) by exact Hz. rewrite Z.testbit_mod_pow2 by lia. by destruct (Z.ltb_spec j 8); [lia|]. }
    by rewrite !T. }
  rewrite E. apply Z.mod_pos_bound. lia.
Qed.

Lemma code_xor_byte b : Forall is_byte b -> is_byte (code_xor b).
Proof.
  unfold code_xor. assert (H0 : is_byte 0) by (unfold is_byte; lia). revert H0. generalize 0. induction b as [|x b IH]; intros a Ha F; [done|].
  apply Forall_cons in F as [Fx F]. cbn [foldl]. apply IH; [by apply is_byte_lxor|done].
Qed.

Lemma code_mul_byte b : b <> [] -> is_byte (code_mul b).
Proof.
  intros Hb. destruct b as [|x b] using rev_ind; [done|]. unfold code_mul. rewrite imap_app. cbn [imap]. rewrite foldl_snoc. apply Z.mod_pos_bound. lia.
Qed.

(** The two words for a group. *)
Definition group_words (b : list Z) : list Z := words_of_bytes (b ++ [code_xor b; code_mul b]).

Lemma encoding_run b : length b = 6%nat -> esp_efuse_utility_apply_34_encoding (Some b) = Ok (ESP_OK, group_words b).
Proof. intros L. destruct b as [|b0 [|b1 [|b2 [|b3 [|b4 [|b5 [|]]]]]]]; try done. Qed.

Lemma group_words_bytes b : length b = 6%nat -> Forall is_byte b -> length (group_words b) = 2%nat /\ bytes_of_words (group_words b) = b ++ [code_xor b; code_mul b].
Proof.
  intros L F. pose proof (code_xor_byte b F) as X. assert (M : is_byte (code_mul b)) by (apply code_mul_byte; by destruct b). unfold group_words.
  revert X M. generalize (code_xor b) (code_mul b). intros x y X M.
  destruct b as [|b0 [|b1 [|b2 [|b3 [|b4 [|b5 [|]]]]]]]; try done. repeat (apply Forall_cons in F as [? F]).
  cbn [app words_of_bytes]. split; [done|]. rewrite bytes_of_words_cons. by rewrite !bytes_of_word_bytes.
Qed.

(** A block of eight words whose last two are 0, and its groups. *)
Definition group (b : list Z) (g : nat) : list Z := take 6 (drop (6 * g) b).
Definition nonzero (b : list Z) : bool := existsb (fun x => negb (x =? 0)) b.

Lemma nonzero_false b : nonzero b = false -> b = replicate (length b) 0.
Proof.
  unfold nonzero. induction b as [|x b IH]; [done|]. cbn [existsb length replicate]. destruct (Z.eqb_spec x 0) as [->|]; [|done]. intros. f_equal. by apply IH.
Qed.

(** Eight bytes of a group after coding: nothing for a group of zeros. *)
Definition coded_words (b : list Z) : list Z := if nonzero b then group_words b else [0; 0].

Lemma coded_words_bytes b : length b = 6%nat -> Forall is_byte b -> exists tail, length tail = 2%nat /\ length (coded_words b) = 2%nat /\ bytes_of_words (coded_words b) = b ++ tail.
Proof.
  intros L F. unfold coded_words. destruct (nonzero b) eqn:N.
  - destruct (group_words_bytes b L F) as [E1 E2]. by exists [code_xor b; code_mul b].
  - apply nonzero_false in N. rewrite L in N. subst b. by exists [0; 0].
Qed.

(** Decoding what was coded. *)
Lemma decode_coded ws : length ws = 8%nat -> Forall is_u32 ws -> nth 6 ws 0 = 0 -> nth 7 ws 0 = 0 ->
  decoded_34 (concat (map (fun g => coded_words (group (bytes_of_words ws) g)) (seq 0 4))) = ws.
Proof.
  intros L F H6 H7. set (B := bytes_of_words ws). pose proof (length_bytes_of_words ws) as LB. rewrite L in LB. fold B in LB. cbn in LB.
  pose proof (bytes_of_words_bytes ws) as FB. fold B in FB.
  assert (G : forall g, (g < 4)%nat -> length (group B g) = 6%nat /\ Forall is_byte (group B g)).
  { intros g Hg. unfold group. rewrite length_take, length_drop. split; [lia|]. by apply Forall_take, Forall_drop. }
  destruct (G 0%nat ltac:(lia)) as [L0 F0]. destruct (G 1%nat ltac:(lia)) as [L1 F1]. destruct (G 2%nat ltac:(lia)) as [L2 F2]. destruct (G 3%nat ltac:(lia)) as [L3 F3].
  destruct (coded_words_bytes _ L0 F0) as (t0 & T0 & C0 & E0). destruct (coded_words_bytes _ L1 F1) as (t1 & T1 & C1 & E1).
  destruct (coded_words_bytes _ L2 F2) as (t2 & T2 & C2 & E2). destruct (coded_words_bytes _ L3 F3) as (t3 & T3 & C3 & E3).
  assert (D : forall a0 u0 a1 u1 a2 u2 a3 u3 : list Z, length a0 = 6%nat -> length u0 = 2%nat -> length a1 = 6%nat -> length u1 = 2%nat -> length a2 = 6%nat -> length u2 = 2%nat ->
    length a3 = 6%nat -> length u3 = 2%nat ->
    concat (map (fun k => take 6 (drop (k * 8) ((a0 ++ u0) ++ (a1 ++ u1) ++ (a2 ++ u2) ++ (a3 ++ u3) ++ []))) (seq 0 4)) = a0 ++ a1 ++ a2 ++ a3).
  { intros. do 7 (destruct a0 as [|? a0]; try done). do 3 (destruct u0 as [|? u0]; try done). do 7 (destruct a1 as [|? a1]; try done). do 3 (destruct u1 as [|? u1]; try done).
    do 7 (destruct a2 as [|? a2]; try done). do 3 (destruct u2 as [|? u2]; try done). do 7 (destruct a3 as [|? a3]; try done). }
  unfold decoded_34. cbn [seq map concat]. rewrite !bytes_of_words_app, E0, E1, E2, E3. change (bytes_of_words []) with (@nil Z).
  pose proof (D _ t0 _ t1 _ t2 _ t3 L0 T0 L1 T1 L2 T2 L3 T3) as E. cbn [seq map concat] in E. rewrite E. clear D E.
  assert (EB : group B 0 ++ group B 1 ++ group B 2 ++ group B 3 = take 24 B).
  { unfold group. do 33 (destruct B as [|? B]; try done). }
  rewrite !app_assoc in EB |- *. rewrite EB. replace (take 24 B ++ replicate 8 0) with (B ++ []).
  { unfold B. rewrite words_of_bytes_of_words by done. by rewrite app_nil_r. }
  rewrite app_nil_r. unfold B. clear -L H6 H7. do 9 (destruct ws as [|? ws]; try done). cbn in H6, H7. by subst.
Qed.

Lemma existsb_map {A B} (f : A -> B) (p : B -> bool) l : existsb p (map f l) = existsb (fun x => p (f x)) l.
Proof. induction l as [|x l IH]; [done|]. cbn. by rewrite IH. Qed.

(** ** Coding a block *)
Section code.
Context {eenv : EfuseEnv}.
Implicit Types (s : efuse_state) (blk num : Z) (w r : list Z).

(** What the loop does for the group [g] and for those after it. *)
Definition code_group blk w r (g : nat) s : outcome (Z * efuse_state) :=
  if nonzero (group w g) then
    if nonzero (group r g) then Ok (ESP_ERR_CODING, s) else Ok (ESP_OK, write_words blk (2 * Z.of_nat g) (group_words (group w g)) s)
  else Ok (ESP_OK, s).
Fixpoint code_groups blk w r (gs : list nat) s : outcome (Z * efuse_state) :=
  match gs with
  | [] => Ok (ESP_OK, s)
  | g :: gs => '(err, s) ← code_group blk w r g s; if err =? ESP_OK then code_groups blk w r gs s else Ok (err, s)
  end.

Lemma group_bytes w (g : nat) : (6 * g + 6 <= length w)%nat -> group w g = map (byte_nth w) (seqZ (6 * Z.of_nat g) 6).
Proof.
  intros L. apply list_eq. intros i. unfold group. rewrite list_lookup_fmap. destruct (decide (i < 6)%nat) as [Hi|Hi].
  - rewrite lookup_take_lt, lookup_drop, lookup_seqZ_lt by lia. cbn. rewrite <- byte_lookup by (unfold lenZ; lia). f_equal. lia.
  - rewrite lookup_take_ge by lia. rewrite lookup_seqZ_ge by lia. done.
Qed.

Lemma nonzero_group w (g : nat) : (6 * g + 6 <= length w)%nat -> nonzero (group w g) = existsb (fun n => negb (byte_nth w n =? 0)) (seqZ (6 * Z.of_nat g) 6).
Proof. intros. rewrite group_bytes by done. unfold nonzero. by rewrite existsb_map. Qed.

(** The loop from a byte inside of the group [g]. *)
Lemma code_34_loop_run blk w r : length w = 32%nat -> length r = 32%nat -> forall fuel i s (g : nat), (g < 4)%nat -> 6 * Z.of_nat g <= i < 6 * Z.of_nat g + 6 ->
  24 - i <= Z.of_nat fuel ->
  code_34_loop fuel i blk w r s =
    '(err, s) ← (if existsb (fun n => negb (byte_nth w n =? 0)) (seqZ i (6 * Z.of_nat g + 6 - i)) then
                   if nonzero (group r g) then Ok (ESP_ERR_CODING, s) else Ok (ESP_OK, write_words blk (2 * Z.of_nat g) (group_words (group w g)) s)
                 else Ok (ESP_OK, s));
    if err =? ESP_OK then code_groups blk w r (seq (S g) (3 - g)) s else Ok (err, s).
Proof.
  intros Lw Lr. induction fuel as [|fuel IH]; intros i s g Hg Hi Hf; [lia|]. cbn [code_34_loop]. destruct (Z.ltb_spec i 24) as [_|]; [|lia].
  assert (Next : forall s0, code_34_loop fuel (6 * Z.of_nat g + 6) blk w r s0 = code_groups blk w r (seq (S g) (3 - g)) s0).
  { intros s0. destruct (decide (g = 3%nat)) as [->|Hg3]; [destruct fuel; done|]. rewrite (IH _ _ (S g)) by lia.
    replace (3 - g)%nat with (S (3 - S g)) by lia. cbn [seq code_groups]. unfold code_group. rewrite (nonzero_group w) by lia.
    replace (6 * Z.of_nat g + 6) with (6 * Z.of_nat (S g)) by lia. by replace (6 * Z.of_nat (S g) + 6 - 6 * Z.of_nat (S g)) with 6 by lia. }
  rewrite (seqZ_cons i) by lia. cbn [existsb]. destruct (Z.eqb_spec (byte_nth w i) 0) as [Hz|Hz]; cbn [negb orb].
  - destruct (decide (i + 1 = 6 * Z.of_nat g + 6)) as [E|E].
    + rewrite E, Next. replace (seqZ (Z.succ i) _) with (@nil Z) by (symmetry; apply seqZ_nil; lia). cbn [existsb]. by ostep.
    + rewrite (IH _ _ g) by lia. replace (Z.succ i) with (i + 1) by lia. by replace (Z.pred (6 * Z.of_nat g + 6 - i)) with (6 * Z.of_nat g + 6 - (i + 1)) by lia.
  - replace (i / 6 * 6) with (6 * Z.of_nat g) by (Z.to_euclidean_division_equations; lia). rewrite <- (nonzero_group r) by lia.
    destruct (nonzero (group r g)); [by ostep|]. replace (Z.to_nat (6 * Z.of_nat g)) with (6 * g)%nat by lia. fold (group w g).
    assert (L6 : length (group w g) = 6%nat) by (unfold group; rewrite length_take, length_drop; lia).
    rewrite encoding_run by done. ostep. change (ESP_OK =? ESP_OK) with true. cbn [negb]. rewrite Next. ostep. change (ESP_OK =? ESP_OK) with true.
    replace (6 * Z.of_nat g / 6 * 2) with (2 * Z.of_nat g) by (Z.to_euclidean_division_equations; lia). do 2 f_equal.
    destruct (group w g) as [|b0 [|b1 [|b2 [|b3 [|b4 [|b5 [|]]]]]]]; done.
Qed.

Lemma code_34_run blk w r s : length w = 32%nat -> length r = 32%nat -> code_34_loop 24 0 blk w r s = code_groups blk w r (seq 0 4) s.
Proof.
  intros Lw Lr. rewrite (code_34_loop_run blk w r Lw Lr 24 0 s 0) by lia.
  change (seq 0 4) with (0%nat :: seq 1 3). cbn [code_groups]. unfold code_group. rewrite (nonzero_group w) by lia. done.
Qed.

(** The words of the groups are written when no group that is written to has data. *)
Lemma code_groups_run blk w r n : forall (k : nat) s, (length w = 32)%nat -> (k + n <= 4)%nat ->
  (forall j, 2 * Z.of_nat k <= j < 8 -> reg_at (wdata s) blk j = 0) ->
  exists s', same_fuses s s' /\ (forall blk' j, blk' <> blk \/ j < 2 * Z.of_nat k \/ 2 * Z.of_nat (k + n) <= j -> reg_at (wdata s') blk' j = reg_at (wdata s) blk' j) /\
    (code_groups blk w r (seq k n) s = Ok (ESP_ERR_CODING, s') /\ ~ Forall (fun g => nonzero (group w g) = true -> nonzero (group r g) = false) (seq k n) \/
     code_groups blk w r (seq k n) s = Ok (ESP_OK, s') /\ Forall (fun g => nonzero (group w g) = true -> nonzero (group r g) = false) (seq k n) /\
     forall g (h : nat), (k <= g < k + n)%nat -> (h < 2)%nat -> reg_at (wdata s') blk (2 * Z.of_nat g + Z.of_nat h) = nth h (coded_words (group w g)) 0).
Proof.
  induction n as [|n IH]; intros k s Lw Hk Hz; cbn [seq code_groups].
  { exists s. split; [done|]. split; [done|]. right. split; [done|]. split; [constructor|lia]. }
  unfold code_group. destruct (nonzero (group w k)) eqn:N.
  - destruct (nonzero (group r k)) eqn:R.
    { ostep. exists s. split; [done|]. split; [done|]. left. split; [done|]. intros [H _]%Forall_cons. rewrite H in R by done. done. }
    ostep. change (ESP_OK =? ESP_OK) with true. destruct (write_words_run blk (group_words (group w k)) (2 * Z.of_nat k) s) as [S1 W1]; [lia|].
    assert (L2 : lenZ (group_words (group w k)) = 2).
    { unfold lenZ. assert (L6 : length (group w k) = 6%nat) by (unfold group; rewrite length_take, length_drop; lia).
      destruct (group w k) as [|b0 [|b1 [|b2 [|b3 [|b4 [|b5 [|]]]]]]]; done. }
    rewrite L2 in W1. set (s1 := write_words _ _ _ _) in *. destruct (IH (S k) s1) as (s' & S2 & O2 & H2); [done|lia| |].
    { intros j Hj. rewrite W1. case_decide; [lia|]. apply Hz. lia. }
    exists s'. split; [by eapply same_fuses_trans|]. split; [intros blk' j Hj; rewrite O2 by lia; rewrite W1; case_decide; [lia|done]|].
    destruct H2 as [[E F]|(E & F & V)]; [left; split; [done|]; intros [_ ?]%Forall_cons; done|]. right. split; [done|]. split; [by constructor|].
    intros g h Hg Hh. destruct (decide (g = k)) as [->|]; [|apply V; lia]. rewrite O2 by lia. rewrite W1. case_decide; [|lia].
    unfold coded_words. rewrite N. f_equal. lia.
  - ostep. change (ESP_OK =? ESP_OK) with true. destruct (IH (S k) s) as (s' & S2 & O2 & H2); [done|lia|intros; apply Hz; lia|].
    exists s'. split; [done|]. split; [intros blk' j Hj; apply O2; lia|].
    destruct H2 as [[E F]|(E & F & V)]; [left; split; [done|]; intros [_ ?]%Forall_cons; done|]. right. split; [done|]. split; [constructor; [congruence|done]|].
    intros g h Hg Hh. destruct (decide (g = k)) as [->|]; [|apply V; lia]. rewrite O2 by lia. rewrite Hz by lia. unfold coded_words. rewrite N.
    destruct h as [|[|]]; [done|done|lia].
Qed.
End code.

(** ** Coding one block *)
Section block.
Context {eenv : EfuseEnv}.
Implicit Types (s : efuse_state) (blk num : Z) (ws : list Z).

Lemma check_fill_run blk nums s :
  let s' := foldl (fun s num => if reg_at (wdata s) blk num =? 0 then s else REG_WRITE blk num 0 s) s nums in same_fuses s s' /\
  forall blk' num', reg_at (wdata s') blk' num' = if decide (blk' = blk /\ num' ∈ nums) then 0 else reg_at (wdata s) blk' num'.
Proof.
  revert s. induction nums as [|n nums IH]; intros s; cbn [foldl].
  { split; [done|]. intros. rewrite decide_False; [done|]. set_solver. }
  destruct (Z.eqb_spec (reg_at (wdata s) blk n) 0) as [Hz|_].
  - destruct (IH s) as [S H]. split; [done|]. intros. rewrite H. repeat case_decide; try done; set_solver.
  - destruct (IH (REG_WRITE blk n 0 s)) as [[S1 S2] H]. split; [by split|]. intros blk' num'. rewrite H. unfold REG_WRITE. cbn [wdata upd]. rewrite reg_at_insert.
    repeat case_decide; try done; set_solver.
Qed.

Lemma repeat_run blk l : forall (k : nat) s, (k + length l <= 4)%nat -> (forall j, Z.of_nat k <= j < 8 -> reg_at (wdata s) blk j = 0 \/ j < Z.of_nat k + 4 /\ 4 <= j) ->
  let s' := foldl (fun s '(i, w) => if w =? 0 then s else REG_WRITE blk (Z.of_nat i + 4) w (REG_WRITE blk (Z.of_nat i) w s)) s (imap (fun i w => ((k + i)%nat, w)) l) in
  same_fuses s s' /\ forall blk' j, reg_at (wdata s') blk' j =
    if decide (blk' = blk /\ Z.of_nat k <= j < Z.of_nat k + lenZ l) then nth (Z.to_nat (j - Z.of_nat k)) l 0
    else if decide (blk' = blk /\ Z.of_nat k + 4 <= j < Z.of_nat k + 4 + lenZ l) then nth (Z.to_nat (j - Z.of_nat k - 4)) l 0
    else reg_at (wdata s) blk' j.
Proof.
  induction l as [|w l IH]; intros k s Hk Hz; cbn [imap foldl].
  { split; [done|]. intros. unfold lenZ. cbn. repeat case_decide; try lia; done. }
  rewrite Nat.add_0_r. replace (imap ((fun i w => ((k + i)%nat, w)) ∘ S) l) with (imap (fun i w => ((S k + i)%nat, w)) l) by (apply imap_ext; intros; cbn; f_equal; lia).
  set (s1 := if w =? 0 then s else _). cbn [length] in Hk.
  assert (H1 : same_fuses s s1 /\ forall blk' j, reg_at (wdata s1) blk' j = if decide (blk' = blk /\ (j = Z.of_nat k \/ j = Z.of_nat k + 4)) then w else reg_at (wdata s) blk' j).
  { subst s1. destruct (Z.eqb_spec w 0) as [->|].
    - split; [done|]. intros. case_decide as H; [|done]. destruct H as [-> [-> | ->]]; [destruct (Hz (Z.of_nat k))|destruct (Hz (Z.of_nat k + 4))]; lia.
    - split; [done|]. intros. unfold REG_WRITE. cbn [wdata upd]. rewrite !reg_at_insert. repeat case_decide; naive_solver lia. }
  destruct H1 as [S1 W1]. destruct (IH (S k) s1) as [S2 W2]; [lia| |].
  { intros j Hj. rewrite W1. case_decide; [lia|]. destruct (Hz j); lia. }
  split; [by eapply same_fuses_trans|]. intros blk' j. rewrite W2, W1, lenZ_cons. pose proof (lenZ_nonneg l). clear W1 W2 IH Hz.
  repeat case_decide; try lia; try done.
  all: try (replace (Z.to_nat (j - Z.of_nat k)) with (S (Z.to_nat (j - Z.of_nat (S k)))) by lia; done).
  all: try (replace (Z.to_nat (j - Z.of_nat k - 4)) with (S (Z.to_nat (j - Z.of_nat (S k) - 4))) by lia; done).
  all: try (replace (Z.to_nat (j - Z.of_nat k)) with 0%nat by lia; done).
  all: replace (Z.to_nat (j - Z.of_nat k - 4)) with 0%nat by lia; done.
Qed.

(** The words a block can take in its coding scheme. *)
Definition coding_ok s blk : Prop :=
  let ws := read_wdata blk s in
  match esp_efuse_get_coding_scheme blk with
  | EFUSE_CODING_SCHEME_NONE => True
  | EFUSE_CODING_SCHEME_3_4 =>
      nth 6 ws 0 = 0 /\ nth 7 ws 0 = 0 /\
      Forall (fun g => nonzero (group (bytes_of_words ws) g) = true ->
                nonzero (group (bytes_of_words (map (reg_at (virt_blocks s) blk) (block_regs blk))) g) = false) (seq 0 4)
  | EFUSE_CODING_SCHEME_REPEAT => drop 4 ws = replicate 4 0
  end.
(** What is burned for the words [ws], before and after coding. *)
Definition final_words blk ws : list Z :=
  match esp_efuse_get_coding_scheme blk with EFUSE_CODING_SCHEME_REPEAT => take 4 ws ++ take 4 ws | _ => ws end.
Definition burn_words blk ws : list Z :=
  match esp_efuse_get_coding_scheme blk with EFUSE_CODING_SCHEME_3_4 => decoded_34 ws | _ => ws end.

Lemma read_r_data_run blk s : 0 <= blk < EFUSE_BLK_MAX -> read_r_data blk s = Ok (map (reg_at (virt_blocks s) blk) (block_regs blk)).
Proof.
  intros Hb. unfold read_r_data. assert (H : forall l, (forall num, num ∈ l -> valid_reg blk num) ->
    mapM (fun num => esp_efuse_utility_read_reg blk num s) l = Ok (map (reg_at (virt_blocks s) blk) l)).
  { induction l as [|n l IH]; intros Hl; [done|]. cbn [mapM map]. rewrite read_reg_run by (apply Hl; set_solver). ostep. rewrite IH by set_solver. by ostep. }
  apply H. intros num Hn. split; [done|]. by apply block_regs_spec.
Qed.

Lemma block_regs_8 blk : blk <> EFUSE_BLK0 -> block_regs blk = [0; 1; 2; 3; 4; 5; 6; 7].
Proof. intros. unfold block_regs, max_num_reg. by destruct (Z.eqb_spec blk EFUSE_BLK0). Qed.

(** A block whose write registers are 0. *)
Lemma read_wdata_0 blk s : blk <> EFUSE_BLK0 -> (forall j, 0 <= j < 8 -> reg_at (wdata s) blk j = 0) -> read_wdata blk s = replicate 8 0.
Proof. intros Hb H. unfold read_wdata. rewrite block_regs_8 by done. cbn [map]. by rewrite !H by lia. Qed.

Lemma existsb_nonzero ws : existsb (fun w => negb (w =? 0)) ws = false <-> ws = replicate (length ws) 0.
Proof.
  split; [apply nonzero_false|]. intros ->. generalize (length ws). by induction n.
Qed.

Lemma code_block_34 blk ws s s1 : 0 <= blk < EFUSE_BLK_MAX -> blk <> EFUSE_BLK0 -> Forall is_u32 ws -> ws = read_wdata blk s -> same_fuses s s1 ->
  (forall j, 0 <= j < 8 -> reg_at (wdata s1) blk j = 0) -> esp_efuse_get_coding_scheme blk = EFUSE_CODING_SCHEME_3_4 ->
  exists s', same_fuses s1 s' /\ (forall blk' j, blk' <> blk -> reg_at (wdata s') blk' j = reg_at (wdata s1) blk' j) /\
    let r := if negb (nth 6 ws 0 =? 0) || negb (nth 7 ws 0 =? 0) then Ok (ESP_ERR_CODING, s1)
      else code_34_loop 24 0 blk (bytes_of_words ws) (bytes_of_words (map (reg_at (virt_blocks s1) blk) (block_regs blk))) s1 in
    (r = Ok (ESP_ERR_CODING, s') /\ ~ coding_ok s blk \/
     r = Ok (ESP_OK, s') /\ coding_ok s blk /\ decoded_34 (read_wdata blk s') = ws).
Proof.
  intros Hb Hb0 F Ews S1 Hz Es. cbv zeta. unfold coding_ok. rewrite Es, <- Ews, (sf_virt _ _ S1). set (r := map _ _).
  assert (L8 : length ws = 8%nat) by (rewrite Ews; unfold read_wdata; rewrite block_regs_8 by done; done).
  assert (Lr : length r = 8%nat) by (unfold r; rewrite block_regs_8 by done; done).
  destruct (Z.eqb_spec (nth 6 ws 0) 0) as [H6|H6], (Z.eqb_spec (nth 7 ws 0) 0) as [H7|H7]; cbn [negb orb];
    [|exists s1; split; [done|]; split; [done|]; left; split; [done|]; naive_solver..].
  rewrite code_34_run by (rewrite length_bytes_of_words; lia).
  destruct (code_groups_run blk (bytes_of_words ws) (bytes_of_words r) 4 0 s1) as (s' & S2 & O2 & H); [rewrite length_bytes_of_words; lia|lia|intros; apply Hz; lia|].
  exists s'. split; [done|]. split; [intros; apply O2; by left|]. destruct H as [[E V]|(E & V & W)]; [left; split; [done|]; naive_solver|].
  right. split; [done|]. split; [done|]. etransitivity; [|exact (decode_coded ws L8 F H6 H7)]. f_equal. unfold read_wdata. rewrite block_regs_8 by done. cbn [map seq concat].
  assert (C : forall g, (g < 4)%nat -> coded_words (group (bytes_of_words ws) g) = [reg_at (wdata s') blk (2 * Z.of_nat g); reg_at (wdata s') blk (2 * Z.of_nat g + 1)]).
  { intros g Hg. pose proof (W g 0%nat ltac:(lia) ltac:(lia)) as W0. pose proof (W g 1%nat ltac:(lia) ltac:(lia)) as W1. rewrite Z.add_0_r in W0.
    change (Z.of_nat 1) with 1 in W1. rewrite W0, W1.
    destruct (coded_words_bytes (group (bytes_of_words ws) g)) as (_ & _ & L2 & _).
    - unfold group. rewrite length_take, length_drop, length_bytes_of_words. lia.
    - unfold group. apply Forall_take, Forall_drop, bytes_of_words_bytes.
    - by destruct (coded_words _) as [|? [|? [|]]]. }
  by rewrite !C by lia.
Qed.

Lemma code_block_run blk s : 0 <= blk < EFUSE_BLK_MAX -> Forall is_u32 (read_wdata blk s) ->
  exists s', same_fuses s s' /\ (forall blk' j, blk' <> blk -> reg_at (wdata s') blk' j = reg_at (wdata s) blk' j) /\
    (code_block blk s = Ok (ESP_ERR_CODING, s') /\ ~ coding_ok s blk \/
     code_block blk s = Ok (ESP_OK, s') /\ coding_ok s blk /\ burn_words blk (read_wdata blk s') = final_words blk (read_wdata blk s)).
Proof.
  intros Hb F. unfold code_block, burn_words, final_words. destruct (esp_efuse_get_coding_scheme blk) eqn:Es.
  { exists s. split; [done|]. split; [done|]. right. split; [done|]. unfold coding_ok. by rewrite Es. }
  all: assert (Hb0 : blk <> EFUSE_BLK0) by (unfold esp_efuse_get_coding_scheme in Es; by destruct (Z.eqb_spec blk EFUSE_BLK0)).
  all: unfold read_w_data_and_check_fill; destruct (check_fill_run blk (block_regs blk) s) as [S1 W1]; set (s1 := foldl _ s _) in *.
  all: assert (Hz : forall j, 0 <= j < 8 -> reg_at (wdata s1) blk j = 0)
    by (intros j Hj; rewrite W1, decide_True; [done|]; split; [done|]; rewrite block_regs_8 by done; apply (elem_of_seqZ 0 8); lia).
  all: assert (O1 : forall blk' j, blk' <> blk -> reg_at (wdata s1) blk' j = reg_at (wdata s) blk' j) by (intros; rewrite W1; case_decide; naive_solver).
  all: assert (L8 : length (read_wdata blk s) = 8%nat) by (unfold read_wdata; by rewrite block_regs_8).
  all: destruct (existsb (fun w => negb (w =? 0)) (read_wdata blk s)) eqn:Ex; cbn [negb];
    [|apply existsb_nonzero in Ex; rewrite L8 in Ex; exists s1; split; [done|]; split; [done|]; right; split; [done|];
      unfold coding_ok; rewrite Es, Ex, (read_wdata_0 blk s1) by done; split; [|vm_compute; done]].
  2, 4: cbn; done || (split; [done|]; split; [done|]; repeat constructor; done).
  all: rewrite read_r_data_run by done; ostep.
  - destruct (code_block_34 blk (read_wdata blk s) s s1 Hb Hb0 F eq_refl S1 Hz Es) as (s' & S2 & O2 & H). exists s'. split; [by eapply same_fuses_trans|].
    split; [intros; rewrite O2 by done; by apply O1|]. exact H.
  - destruct (existsb _ (drop 4 _)) eqn:Ed.
    + exists s1. split; [done|]. split; [done|]. left. split; [done|]. unfold coding_ok. rewrite Es. intros E. rewrite E in Ed. done.
    + apply existsb_nonzero in Ed. rewrite length_drop, L8 in Ed. destruct (repeat_run blk (take 4 (read_wdata blk s)) 0 s1) as [S2 W2];
        [rewrite length_take; lia|intros j Hj; left; apply Hz; lia|]. set (s2 := foldl _ s1 _) in *. exists s2. split; [by eapply same_fuses_trans|].
      assert (L4 : lenZ (take 4 (read_wdata blk s)) = 4) by (unfold lenZ; rewrite length_take; lia). rewrite L4 in W2.
      split; [intros blk' j Hj; rewrite W2; repeat case_decide; try lia; by apply O1|]. right. split; [done|].
      split; [unfold coding_ok; by rewrite Es|]. clearbody s2. generalize dependent (read_wdata blk s). intros ws; intros. clear -L8 Hb0 W2.
      unfold read_wdata. rewrite block_regs_8 by done. cbn [map]. rewrite !W2.
      repeat (case_decide; [|try lia]; try lia).
      do 9 (destruct ws as [|? ws]; try done).
Qed.
End block.

(** ** All blocks, and burning *)
Section burn.
Context {eenv : EfuseEnv}.
Implicit Types (s : efuse_state) (blk num : Z) (ws : list Z).

Lemma read_wdata_ext blk s s' : (forall j, reg_at (wdata s') blk j = reg_at (wdata s) blk j) -> read_wdata blk s' = read_wdata blk s.
Proof. intros H. unfold read_wdata. by apply map_ext. Qed.

Lemma coding_ok_ext blk s s' : same_fuses s s' -> read_wdata blk s' = read_wdata blk s -> coding_ok s' blk <-> coding_ok s blk.
Proof. intros [V _] W. unfold coding_ok. by rewrite V, W. Qed.

Lemma code_blocks_run blks : forall s, NoDup blks -> Forall (fun blk => 0 <= blk < EFUSE_BLK_MAX /\ Forall is_u32 (read_wdata blk s)) blks ->
  exists s', same_fuses s s' /\ (forall blk j, blk ∉ blks -> reg_at (wdata s') blk j = reg_at (wdata s) blk j) /\
    (code_blocks blks s = Ok (ESP_ERR_CODING, s') /\ ~ Forall (coding_ok s) blks \/
     code_blocks blks s = Ok (ESP_OK, s') /\ Forall (coding_ok s) blks /\
     Forall (fun blk => burn_words blk (read_wdata blk s') = final_words blk (read_wdata blk s)) blks).
Proof.
  induction blks as [|b blks IH]; intros s N F; cbn [code_blocks]; [by exists s; split; [done|]; split; [done|]; right|].
  apply NoDup_cons in N as [N1 N]. apply Forall_cons in F as [[Hb Fb] F]. destruct (code_block_run b s Hb Fb) as (s1 & S1 & O1 & H1).
  assert (W1 : forall blk, blk ∈ blks -> read_wdata blk s1 = read_wdata blk s) by (intros; apply read_wdata_ext; intros; apply O1; set_solver).
  destruct H1 as [[E1 C1]|(E1 & C1 & B1)]; rewrite E1; ostep.
  { change (ESP_ERR_CODING =? ESP_OK) with false. cbn [negb]. exists s1. split; [done|]. split; [intros; apply O1; set_solver|]. left. split; [done|].
    by intros [? _]%Forall_cons. }
  change (ESP_OK =? ESP_OK) with true. cbn [negb]. destruct (IH s1 N) as (s2 & S2 & O2 & H2).
  { rewrite Forall_forall in F |- *. intros blk Hin. rewrite W1 by done. by apply F. }
  assert (CE : Forall (coding_ok s1) blks <-> Forall (coding_ok s) blks).
  { rewrite !Forall_forall. split; intros C x Hx; (eapply coding_ok_ext; [exact S1| |]) || (eapply (coding_ok_ext x s s1 S1)); eauto. }
  exists s2. split; [by eapply same_fuses_trans|]. split; [intros blk j Hn; rewrite O2 by set_solver; apply O1; set_solver|].
  destruct H2 as [[E2 C2]|(E2 & C2 & B2)]; [left|right]; (split; [done|]).
  - intros [_ C]%Forall_cons. by apply C2, CE.
  - split; [constructor; [done|by apply CE]|]. constructor.
    + rewrite <- B1. f_equal. apply read_wdata_ext. intros. by apply O2.
    + rewrite Forall_forall in B2 |- *. intros x Hx. rewrite B2 by done. by rewrite W1.
Qed.

Lemma or_regs blk nums s : NoDup nums ->
  let s' := foldl (fun s num => s <| virt_blocks := <[(blk, num) := Z.lor (reg_at (virt_blocks s) blk num) (reg_at (wdata s) blk num)]> (virt_blocks s) |>) s nums in
  wdata s' = wdata s /\ s_batch_writing_mode s' = s_batch_writing_mode s /\
  forall blk' num', reg_at (virt_blocks s') blk' num' =
    if decide (blk' = blk /\ num' ∈ nums) then Z.lor (reg_at (virt_blocks s) blk num') (reg_at (wdata s) blk num') else reg_at (virt_blocks s) blk' num'.
Proof.
  revert s. induction nums as [|n nums IH]; intros s N; cbn [foldl].
  { split; [done|]. split; [done|]. intros. rewrite decide_False; [done|]. set_solver. }
  apply NoDup_cons in N as [N1 N]. destruct (IH (s <| virt_blocks := <[(blk, n) := Z.lor (reg_at (virt_blocks s) blk n) (reg_at (wdata s) blk n)]> (virt_blocks s) |>) N) as (W & B & H).
  split; [exact W|]. split; [exact B|]. intros blk' num'. rewrite H. cbn [virt_blocks wdata upd]. rewrite !reg_at_insert.
  repeat case_decide; try done; set_solver.
Qed.

Lemma burn_block_run blk s : 0 <= blk < EFUSE_BLK_MAX -> let s' := burn_block s blk in s_batch_writing_mode s' = s_batch_writing_mode s /\
  (forall blk' j, blk' <> blk -> reg_at (wdata s') blk' j = reg_at (wdata s) blk' j) /\
  forall blk' num, reg_at (virt_blocks s') blk' num =
    if decide (blk' = blk /\ 0 <= num <= max_num_reg blk) then Z.lor (reg_at (virt_blocks s) blk num) (nth (Z.to_nat num) (burn_words blk (read_wdata blk s)) 0)
    else reg_at (virt_blocks s) blk' num.
Proof.
  intros Hb. unfold burn_block. set (s1 := match esp_efuse_get_coding_scheme blk with EFUSE_CODING_SCHEME_NONE => _ | _ => _ end).
  assert (H1 : same_fuses s s1 /\ (forall blk' j, blk' <> blk -> reg_at (wdata s1) blk' j = reg_at (wdata s) blk' j) /\
    forall num, 0 <= num <= max_num_reg blk -> reg_at (wdata s1) blk num = nth (Z.to_nat num) (burn_words blk (read_wdata blk s)) 0).
  { assert (Hmax : max_num_reg blk <= 7) by (unfold max_num_reg; case_match; lia).
    subst s1. unfold burn_words. destruct (esp_efuse_get_coding_scheme blk) eqn:Es.
    1, 3: split; [done|]; split; [done|]; intros; rewrite read_wdata_lookup by lia; f_equal; lia.
    destruct (write_words_run blk (decoded_34 (read_wdata blk s)) 0 s) as [S W]; [lia|]. split; [done|].
    split; [intros; rewrite W; case_decide; [lia|done]|]. intros num Hn. rewrite W, Z.sub_0_r. case_decide as D; [done|].
    exfalso. apply D. split; [done|]. split; [lia|]. unfold decoded_34. assert (L : forall b, length b = 32%nat -> lenZ (words_of_bytes b) = 8).
    { intros b Lb. do 32 (destruct b as [|? b]; [done|]). by destruct b. }
    rewrite L; [lia|]. assert (Hb0 : blk <> EFUSE_BLK0) by (unfold esp_efuse_get_coding_scheme in Es; by destruct (Z.eqb_spec blk EFUSE_BLK0)).
    unfold read_wdata. rewrite block_regs_8 by done. done. }
  destruct H1 as ([V1 B1] & O1 & W1). assert (N : NoDup (block_regs blk)) by (unfold block_regs; apply NoDup_seqZ).
  destruct (or_regs blk (block_regs blk) s1 N) as (W2 & B2 & H2). split; [congruence|]. split; [intros; rewrite W2; by apply O1|].
  intros blk' num. rewrite H2, V1. repeat case_decide; rewrite ?block_regs_spec in *; try done; try naive_solver. rewrite W1 by lia. done.
Qed.
End burn.
