(* ===== verification/EfuseBurn.v ===== *)
(** * The eFuse manager: burning

    A set of bits is staged in the write registers, coded, and burned.  The file
    says what the end of a writing call does with the set that was staged. *)
From S2P Require Import Prelude Mem EspFlash Partition Efuse EfuseBits EfuseField EfuseRead EfuseCode.
From S2P Require OtaData.

Section burning.
Context {eenv : EfuseEnv}.
Implicit Types (s : efuse_state) (blk num i : Z) (w : Z -> Z -> bool).

(** Words that fit in 32 bits. *)
Definition words_ok (m : regs) : Prop := forall blk num, valid_reg blk num -> is_u32 (reg_at m blk num).

Lemma wdata_words s blk : 0 <= blk < EFUSE_BLK_MAX -> words_ok (wdata s) -> Forall is_u32 (read_wdata blk s).
Proof.
  intros Hb W. unfold read_wdata. apply Forall_map, Forall_forall. intros num Hn. apply W. split; [done|]. by apply block_regs_spec.
Qed.

(** The effect of coding and burning on the register file. *)
Definition burned s (m : regs) : Prop := forall blk num, valid_reg blk num ->
  reg_at m blk num = Z.lor (reg_at (virt_blocks s) blk num) (nth (Z.to_nat num) (final_words blk (read_wdata blk s)) 0).
Definition codable s : Prop := Forall (coding_ok s) (seqZ 1 3).

#[export] Instance coding_ok_dec s blk : Decision (coding_ok s blk).
Proof. unfold coding_ok. case_match; apply _. Defined.

Lemma apply_burn_run s : words_ok (wdata s) -> exists s1, same_fuses s s1 /\
  (esp_efuse_utility_apply_new_coding_scheme s = Ok (ESP_ERR_CODING, s1) /\ ~ codable s \/
   esp_efuse_utility_apply_new_coding_scheme s = Ok (ESP_OK, s1) /\ codable s /\ burned s (virt_blocks (esp_efuse_utility_burn_efuses s1)) /\
   s_batch_writing_mode (esp_efuse_utility_burn_efuses s1) = s_batch_writing_mode s).
Proof.
  intros W. destruct (code_blocks_run (seqZ 1 3) s) as (s1 & S1 & O1 & H).
  { apply NoDup_seqZ. } { apply Forall_forall. intros blk Hin%elem_of_seqZ. split; [unfold EFUSE_BLK_MAX; lia|]. apply wdata_words; [unfold EFUSE_BLK_MAX; lia|done]. }
  exists s1. split; [done|]. destruct H as [[E C]|(E & C & B)]; [by left|]. right. split; [done|]. split; [done|].
  assert (B' : Forall (fun blk => burn_words blk (read_wdata blk s1) = final_words blk (read_wdata blk s)) (seqZ 0 EFUSE_BLK_MAX)).
  { change (seqZ 0 EFUSE_BLK_MAX) with (0 :: seqZ 1 3). constructor; [|exact B]. unfold burn_words, final_words. cbn. apply read_wdata_ext. intros. apply O1.
    rewrite elem_of_seqZ. lia. }
  assert (G : forall blks s2, NoDup blks -> Forall (fun blk => 0 <= blk < EFUSE_BLK_MAX) blks ->
    Forall (fun blk => burn_words blk (read_wdata blk s2) = final_words blk (read_wdata blk s)) blks ->
    let s3 := foldl burn_block s2 blks in s_batch_writing_mode s3 = s_batch_writing_mode s2 /\
    forall blk num, 0 <= num <= max_num_reg blk -> reg_at (virt_blocks s3) blk num =
      if decide (blk ∈ blks) then Z.lor (reg_at (virt_blocks s2) blk num) (nth (Z.to_nat num) (final_words blk (read_wdata blk s)) 0) else reg_at (virt_blocks s2) blk num).
  { induction blks as [|b blks IH]; intros s2 N R F; cbn [foldl]; [split; [done|]; intros; rewrite decide_False; [done|set_solver]|].
    apply NoDup_cons in N as [N1 N]. apply Forall_cons in R as [Rb R], F as [Fb F]. destruct (burn_block_run b s2 Rb) as (Bm & O2 & V2).
    destruct (IH (burn_block s2 b) N R) as [Bm3 V3].
    { rewrite Forall_forall in F |- *. intros x Hx. rewrite (read_wdata_ext x s2) by (intros; apply O2; set_solver). by apply F. }
    split; [congruence|]. intros blk num Hn. rewrite V3, V2, Fb by done. repeat case_decide; try done; set_solver. }
  destruct (G (seqZ 0 EFUSE_BLK_MAX) s1) as [Bm V]; [apply NoDup_seqZ|apply Forall_forall; intros x Hx%elem_of_seqZ; lia|exact B'|].
  unfold esp_efuse_utility_burn_efuses. destruct (reset_run (foldl burn_block s1 (seqZ 0 EFUSE_BLK_MAX))) as [[R1 R2] _]. split.
  - intros blk num [Hb Hn]. rewrite R1, V by done. rewrite decide_True by (apply elem_of_seqZ; lia). by rewrite (sf_virt _ _ S1).
  - rewrite R2, Bm. apply S1.
Qed.

Lemma land_0_bits x y : Z.land x y = 0 <-> forall j, 0 <= j -> Z.testbit x j && Z.testbit y j = false.
Proof.
  split; [intros H j Hj; by rewrite <- Z.land_spec, H, Z.bits_0|]. intros H. apply Z.bits_inj'. intros j Hj. rewrite Z.land_spec, Z.bits_0. by apply H.
Qed.

Lemma rbit_insert (m : regs) blk num v blk' i : 0 <= i ->
  rbit (<[(blk, num) := Z.lor (reg_at m blk num) v]> m) blk' i = rbit m blk' i || (bool_decide (blk' = blk /\ i / 32 = num) && Z.testbit v (i mod 32)).
Proof.
  intros Hi. unfold rbit. rewrite reg_at_insert. case_decide as H; [|rewrite bool_decide_false by done; by rewrite orb_false_r].
  rewrite bool_decide_true by done. destruct H as [-> ->]. by rewrite Z.lor_spec.
Qed.

Lemma u32_high x j : is_u32 x -> 32 <= j -> Z.testbit x j = false.
Proof. intros Hx Hj. rewrite <- (u32_small x Hx), testbit_u32 by lia. by destruct (Z.ltb_spec j 32); [lia|]. Qed.

(** ** Staging *)

(** The bits [w] are staged, and none of them is burned already. *)
Record staged w s0 s : Prop := {
  st_same : same_fuses s0 s;
  st_bits : forall blk i, valid_reg blk (i / 32) -> 0 <= i -> rbit (wdata s) blk i = rbit (wdata s0) blk i || w blk i;
  st_words : words_ok (wdata s);
  st_free : forall blk i, 0 <= i -> w blk i = true -> rbit (virt_blocks s0) blk i = false
}.

Lemma staged_start w s : words_ok (wdata s) -> (forall blk i, w blk i = false) -> staged w s s.
Proof. intros W N. split; [done|intros; by rewrite N, orb_false_r|done|]. intros blk i _. by rewrite N. Qed.

(** Staging more bits of one register. *)
Lemma staged_write w w' s0 s blk num v : staged w s0 s -> is_u32 v -> Z.land (reg_at (virt_blocks s0) blk num) v = 0 ->
  (forall blk' i, 0 <= i -> w' blk' i = w blk' i || (bool_decide (blk' = blk /\ i / 32 = num) && Z.testbit v (i mod 32))) ->
  staged w' s0 (s <| wdata := <[(blk, num) := Z.lor (reg_at (wdata s) blk num) v]> (wdata s) |>).
Proof.
  intros S Hv H0 Piece. pose proof (proj1 (land_0_bits _ _) H0) as H0'. split.
  - destruct (st_same _ _ _ S). by split.
  - intros blk' i Hv' Hi. cbn [wdata upd]. rewrite rbit_insert, (st_bits _ _ _ S), Piece by done. by rewrite orb_assoc.
  - intros blk' num' Hv'. cbn [wdata upd]. rewrite reg_at_insert. pose proof (st_words _ _ _ S) as W. case_decide as H; [|by apply W]. destruct H as [-> ->]. apply is_u32_lor; [by apply W|done].
  - intros blk' i Hi Hwant.
    rewrite Piece in Hwant by done. apply orb_true_iff in Hwant as [Hwant|[[-> E1]%bool_decide_eq_true E2]%andb_true_iff]; [by apply (st_free _ _ _ S)|].
    specialize (H0' (i mod 32) ltac:(apply Z.mod_pos_bound; lia)). rewrite E2, andb_true_r in H0'. unfold rbit. by rewrite E1.
Qed.

(** ** What is burned, in bits *)

(** The bits a block can hold in its coding scheme. *)
Definition block_limit blk : Z :=
  match esp_efuse_get_coding_scheme blk with EFUSE_CODING_SCHEME_NONE => 32 * (max_num_reg blk + 1) | EFUSE_CODING_SCHEME_3_4 => 192 | EFUSE_CODING_SCHEME_REPEAT => 128 end.

(** A set of bits the blocks can hold. *)
Definition limited w : Prop := forall blk i, w blk i = true -> 0 <= i < block_limit blk /\ 0 <= blk < EFUSE_BLK_MAX.

(** The bits of a range that fits its block. *)
Lemma range_limit d i : desc_ok d -> range_fits d -> bit_start d <= i < bit_start d + bit_count d -> 0 <= i < block_limit (efuse_block d) /\ 0 <= efuse_block d < EFUSE_BLK_MAX.
Proof.
  intros D Rd Hi.
  pose proof (dk_block _ D). pose proof (dk_start _ D). pose proof (dk_block0 _ D) as D0. split; [|done]. split; [lia|]. unfold range_fits, check_range_of_bits in Rd.
  unfold block_limit, max_num_reg. destruct (Z.ltb_spec 256 (bit_start d + bit_count d)); [done|].
  destruct (esp_efuse_get_coding_scheme (efuse_block d)); [destruct (Z.eqb_spec (efuse_block d) EFUSE_BLK0) as [E|]; [specialize (D0 E)|]; lia| |].
  - destruct (Z.ltb_spec 192 (bit_start d + bit_count d)); [done|lia].
  - destruct (Z.ltb_spec 128 (bit_start d + bit_count d)); [done|lia].
Qed.

Lemma nth_bytes ws : forall q r : nat, (r < 4)%nat -> nth (4 * q + r) (bytes_of_words ws) 0 = u8 (Z.shiftr (nth q ws 0) (8 * Z.of_nat r)).
Proof.
  induction ws as [|w ws IH]; intros q r Hr.
  - replace (nth q (@nil Z) 0) with 0 by (by destruct q). rewrite Z.shiftr_0_l. by destruct (4 * q + r)%nat.
  - destruct q as [|q]; [by destruct r as [|[|[|[|]]]]; [..|lia]|]. replace (4 * S q + r)%nat with (S (S (S (S (4 * q + r))))) by lia. apply IH. done.
Qed.

Lemma nonzero_bits blk (f : Z -> Z) (g : nat) : blk <> EFUSE_BLK0 -> (g < 4)%nat ->
  nonzero (group (bytes_of_words (map f (block_regs blk))) g) = true <->
  exists i, 48 * Z.of_nat g <= i < 48 * Z.of_nat g + 48 /\ Z.testbit (f (i / 32)) (i mod 32) = true.
Proof.
  intros Hb Hg. rewrite block_regs_8 by done. set (ws := map f _). assert (Lw : length ws = 8%nat) by done.
  assert (B : forall n, 0 <= n < 32 -> byte_nth (bytes_of_words ws) n = u8 (Z.shiftr (f (n / 4)) (8 * (n mod 4)))).
  { intros n Hn. unfold byte_nth. replace (Z.to_nat n) with (4 * Z.to_nat (n / 4) + Z.to_nat (n mod 4))%nat by (Z.to_euclidean_division_equations; lia).
    rewrite nth_bytes by (Z.to_euclidean_division_equations; lia). rewrite Z2Nat.id by (apply Z.mod_pos_bound; lia). do 2 f_equal. unfold ws. rewrite nth_lookup.
    change [0; 1; 2; 3; 4; 5; 6; 7] with (seqZ 0 8). rewrite list_lookup_fmap, lookup_seqZ_lt by (Z.to_euclidean_division_equations; lia). cbn. f_equal.
    Z.to_euclidean_division_equations; lia. }
  rewrite nonzero_group by (rewrite length_bytes_of_words; lia). rewrite existsb_exists. split.
  - intros (n & Hn%list_elem_of_In%elem_of_seqZ & Hz). rewrite B in Hz by lia. apply negb_true_iff, Z.eqb_neq in Hz. set (x := u8 _) in Hz.
    assert (Hx : is_byte x) by (apply Z.mod_pos_bound; lia). assert (Hpos : 0 < x) by (unfold is_byte in Hx; lia). pose proof (Z.bit_log2 x Hpos) as T.
    pose proof (Z.log2_nonneg x) as Hl. set (j := Z.log2 x) in *. unfold x in T. rewrite testbit_u8, Z.shiftr_spec in T by done.
    apply andb_true_iff in T as [Hj T]. apply Z.ltb_lt in Hj. exists (8 * n + j). split; [lia|].
    replace ((8 * n + j) / 32) with (n / 4) by (Z.to_euclidean_division_equations; lia).
    by replace ((8 * n + j) mod 32) with (j + 8 * (n mod 4)) by (Z.to_euclidean_division_equations; lia).
  - intros (i & Hi & T). exists (i / 8). split; [apply list_elem_of_In, elem_of_seqZ; Z.to_euclidean_division_equations; lia|].
    rewrite B by (Z.to_euclidean_division_equations; lia). apply negb_true_iff, Z.eqb_neq. intros H0.
    assert (T' : Z.testbit (u8 (Z.shiftr (f (i / 8 / 4)) (8 * ((i / 8) mod 4)))) (i mod 8) = true); [|by rewrite H0, Z.bits_0 in T'].
    pose proof (Z.mod_pos_bound i 8 ltac:(lia)). rewrite testbit_u8, Z.shiftr_spec by lia. destruct (Z.ltb_spec (i mod 8) 8); [|lia]. cbn [andb]. rewrite <- T. f_equal.
    + f_equal. Z.to_euclidean_division_equations; lia.
    + Z.to_euclidean_division_equations; lia.
Qed.

(** In the coding 3/4 six bytes are written together, where no bit is burned. *)
Definition groups_free w (m : regs) : Prop := forall blk (g : nat), 1 <= blk < 4 -> (g < 4)%nat -> esp_efuse_get_coding_scheme blk = EFUSE_CODING_SCHEME_3_4 ->
  (exists i, 48 * Z.of_nat g <= i < 48 * Z.of_nat g + 48 /\ w blk i = true) ->
  forall i, 48 * Z.of_nat g <= i < 48 * Z.of_nat g + 48 -> rbit m blk i = false.

(** The write registers hold what is wanted and nothing else. *)
Definition wanted_words w s : Prop := forall blk i, valid_reg blk (i / 32) -> 0 <= i -> rbit (wdata s) blk i = w blk i.

Lemma reg_0_bits (m : regs) blk num : is_u32 (reg_at m blk num) -> (forall i, 32 * num <= i < 32 * num + 32 -> rbit m blk i = false) -> reg_at m blk num = 0.
Proof.
  intros Hu H. apply Z.bits_inj'. intros j Hj. rewrite Z.bits_0. destruct (decide (j < 32)); [|apply u32_high; [done|lia]].
  rewrite <- (rbit_reg m blk num j) by lia. apply H. lia.
Qed.

Lemma codable_bits w s : limited w -> words_ok (wdata s) -> wanted_words w s ->
  codable s <-> groups_free w (virt_blocks s).
Proof.
  intros L W B.
  assert (Z0 : forall blk num, 1 <= blk < 4 -> 0 <= num < 8 -> block_limit blk <= 32 * num -> reg_at (wdata s) blk num = 0).
  { intros blk num Hb Hn Hl. assert (V : valid_reg blk num) by (split; [unfold EFUSE_BLK_MAX; lia|]; unfold max_num_reg; destruct (Z.eqb_spec blk EFUSE_BLK0); unfold EFUSE_BLK0 in *; lia).
    apply reg_0_bits; [by apply W|]. intros i Hi. replace num with (i / 32) in V by (Z.to_euclidean_division_equations; lia). rewrite B by (done || lia).
    apply not_true_is_false. intros H%L. lia. }
  assert (G : forall blk (g : nat), 1 <= blk < 4 -> (g < 4)%nat -> nonzero (group (bytes_of_words (read_wdata blk s)) g) = true <->
    exists i, 48 * Z.of_nat g <= i < 48 * Z.of_nat g + 48 /\ w blk i = true).
  { intros blk g Hb Hg. unfold read_wdata. assert (Hb0 : blk <> EFUSE_BLK0) by (unfold EFUSE_BLK0; lia). rewrite nonzero_bits by done.
    assert (V : forall i, 48 * Z.of_nat g <= i < 48 * Z.of_nat g + 48 -> Z.testbit (reg_at (wdata s) blk (i / 32)) (i mod 32) = w blk i).
    { intros i Hi. apply B; [|lia]. split; [unfold EFUSE_BLK_MAX; lia|]. unfold max_num_reg. destruct (Z.eqb_spec blk EFUSE_BLK0); [done|]. Z.to_euclidean_division_equations; lia. }
    split; intros (i & Hi & H); exists i; (split; [done|]); [by rewrite <- V|by rewrite V]. }
  unfold codable, groups_free. rewrite Forall_forall. split.
  - intros C blk g Hb Hg Es Hw. specialize (C blk ltac:(apply elem_of_seqZ; lia)). unfold coding_ok in C. rewrite Es in C. destruct C as (_ & _ & C).
    rewrite Forall_forall in C. specialize (C g ltac:(apply elem_of_seq; lia) (proj2 (G blk g Hb Hg) Hw)). intros i Hi. apply not_true_is_false. intros T.
    rewrite (proj2 (nonzero_bits blk (reg_at (virt_blocks s) blk) g ltac:(unfold EFUSE_BLK0; lia) Hg)) in C; [done|]. by exists i.
  - intros C blk Hb%elem_of_seqZ. assert (Hb' : 1 <= blk < 4) by lia. unfold coding_ok. destruct (esp_efuse_get_coding_scheme blk) eqn:Es; [done| |].
    + assert (Hm : max_num_reg blk = 7) by (unfold max_num_reg; destruct (Z.eqb_spec blk EFUSE_BLK0); unfold EFUSE_BLK0 in *; lia).
      rewrite !read_wdata_lookup, !Z0 by (unfold block_limit; rewrite ?Es; lia). split; [done|]. split; [done|]. apply Forall_forall. intros g [_ Hg]%elem_of_seq Hn.
      apply not_true_is_false. intros (i & Hi & T)%nonzero_bits; [|unfold EFUSE_BLK0; lia|lia]. pose proof (C blk g Hb' ltac:(lia) Es (proj1 (G blk g Hb' ltac:(lia)) Hn) i Hi) as T'.
      unfold rbit in T'. congruence.
    + unfold read_wdata. rewrite block_regs_8 by (unfold EFUSE_BLK0; lia). cbn [map drop]. by rewrite !Z0 by (unfold block_limit; rewrite ?Es; lia).
Qed.

Definition repeats blk : bool := match esp_efuse_get_coding_scheme blk with EFUSE_CODING_SCHEME_REPEAT => true | _ => false end.

(** The bits after burning: the repeat scheme also burns the copy. *)
Definition bits_added w (m m' : regs) : Prop := forall blk i, 0 <= i -> valid_reg blk (i / 32) ->
  rbit m' blk i = rbit m blk i || w blk i || (repeats blk && (128 <=? i) && w blk (i - 128)).

Lemma burned_bits w s m : limited w -> wanted_words w s -> burned s m ->
  bits_added w (virt_blocks s) m.
Proof.
  intros L B M blk i Hi V. unfold rbit at 1. rewrite M, Z.lor_spec by done. fold (rbit (virt_blocks s) blk i). rewrite <- orb_assoc. f_equal.
  pose proof V as [Hb Hn]. assert (Hm : max_num_reg blk <= 7) by (unfold max_num_reg; case_match; lia).
  assert (W : forall j, 0 <= j -> valid_reg blk (j / 32) -> Z.testbit (nth (Z.to_nat (j / 32)) (read_wdata blk s) 0) (j mod 32) = w blk j).
  { intros j Hj Vj. pose proof Vj as [_ Hnj]. rewrite read_wdata_lookup by lia. rewrite Z2Nat.id by lia. by apply B. }
  unfold final_words, repeats. destruct (esp_efuse_get_coding_scheme blk) eqn:Es; [rewrite W by done; by rewrite orb_false_r..|].
  assert (Hb0 : blk <> EFUSE_BLK0) by (unfold esp_efuse_get_coding_scheme in Es; by destruct (Z.eqb_spec blk EFUSE_BLK0)).
  assert (L8 : length (read_wdata blk s) = 8%nat) by (unfold read_wdata; by rewrite block_regs_8). rewrite nth_lookup. cbn [andb].
  destruct (Z.leb_spec 128 i) as [H128|H128].
  - rewrite lookup_app_r by (rewrite length_take, L8; Z.to_euclidean_division_equations; lia). rewrite length_take, L8, lookup_take_lt by (Z.to_euclidean_division_equations; lia).
    rewrite <- nth_lookup. replace (Z.to_nat (i / 32) - 4 `min` 8)%nat with (Z.to_nat ((i - 128) / 32)) by (Z.to_euclidean_division_equations; lia).
    replace (i mod 32) with ((i - 128) mod 32) by (Z.to_euclidean_division_equations; lia). rewrite W; [|lia|split; [done|Z.to_euclidean_division_equations; lia]].
    destruct (w blk i) eqn:E; [|done]. apply L in E. unfold block_limit in E. rewrite Es in E. lia.
  - rewrite lookup_app_l by (rewrite length_take, L8; Z.to_euclidean_division_equations; lia). rewrite lookup_take_lt by (Z.to_euclidean_division_equations; lia).
    rewrite <- nth_lookup, W by done. by rewrite orb_false_r.
Qed.

(** ** The end of a writing call outside of batch mode *)
Definition staged_nothing s : Prop := forall blk num, valid_reg blk num -> reg_at (wdata s) blk num = 0.

Lemma finish_write_run w s0 s : limited w -> s_batch_writing_mode s0 = false -> same_fuses s0 s ->
  words_ok (wdata s) -> wanted_words w s ->
  exists err s', finish_write ESP_OK s = Ok (err, s') /\ s_batch_writing_mode s' = false /\ staged_nothing s' /\
    (err = ESP_OK /\ groups_free w (virt_blocks s0) /\ bits_added w (virt_blocks s0) (virt_blocks s') \/
     err = ESP_ERR_CODING /\ ~ groups_free w (virt_blocks s0) /\ virt_blocks s' = virt_blocks s0).
Proof.
  intros L Hm [S1 S2] W B. unfold finish_write. rewrite S2, Hm. change (ESP_OK =? ESP_OK) with true. cbn iota.
  destruct (apply_burn_run s W) as (s1 & [V1 M1] & [[E C]|(E & C & Bu & Bm)]); rewrite E; ostep; rewrite codable_bits in C by done.
  - change (ESP_ERR_CODING =? ESP_OK) with false. ostep. destruct (reset_run s1) as [[R1 R2] R3]. exists ESP_ERR_CODING. eexists. split; [done|].
    split; [congruence|]. split; [exact R3|]. right. split; [done|]. rewrite <- S1. split; [done|]. congruence.
  - change (ESP_OK =? ESP_OK) with true. ostep. destruct (reset_run (esp_efuse_utility_burn_efuses s1)) as [[R1 R2] R3]. exists ESP_OK. eexists. split; [done|].
    split; [congruence|]. split; [exact R3|]. left. split; [done|]. rewrite <- S1, R1. split; [done|]. by apply burned_bits.
Qed.

Lemma finish_write_error err s : err <> ESP_OK -> s_batch_writing_mode s = false ->
  exists s', finish_write err s = Ok (err, s') /\ same_fuses s s' /\ staged_nothing s'.
Proof.
  intros He Hm. unfold finish_write. rewrite Hm. apply Z.eqb_neq in He. rewrite He. ostep. destruct (reset_run s) as [R1 R3]. by eexists.
Qed.

Lemma start_write_run s : s_batch_writing_mode s = false -> same_fuses s (start_write s) /\ staged_nothing (start_write s).
Proof. intros Hm. unfold start_write. rewrite Hm. apply reset_run. Qed.

Lemma nothing_words s : staged_nothing s -> words_ok (wdata s).
Proof. intros N blk num V. rewrite N by done. unfold is_u32. lia. Qed.
End burning.
