(* ===== verification/EfuseWrite.v ===== *)
(** * The eFuse manager: writing a field of bytes

    What [esp_efuse_write_field_blob] stages and burns. *)
From S2P Require Import Prelude Mem EspFlash Partition Efuse EfuseBits EfuseField EfuseRead EfuseCode EfuseBurn.
From S2P Require OtaData.

Section write.
Context {eenv : EfuseEnv}.
Implicit Types (s : efuse_state) (blk num i : Z) (field : list esp_efuse_desc_t) (src : list Z).

(** The bits that writing the first [req] bits of the source wants to burn. *)
Definition wants field src (req : Z) blk i : bool :=
  existsb (fun k => bool_decide (field_bits field !! k = Some (blk, i)) && bit src (Z.of_nat k)) (seq 0 (Z.to_nat req)).

Lemma wants_true field src req blk i : wants field src req blk i = true <->
  exists k, 0 <= k < req /\ field_bits field !! Z.to_nat k = Some (blk, i) /\ bit src k = true.
Proof.
  unfold wants. rewrite existsb_exists. split.
  - intros (k & Hk%in_seq & [H1%bool_decide_eq_true H2]%andb_true_iff). exists (Z.of_nat k). rewrite Nat2Z.id. split; [lia|done].
  - intros (k & Hk & H1 & H2). exists (Z.to_nat k). rewrite in_seq, andb_true_iff, bool_decide_eq_true, Z2Nat.id by lia. split; [lia|done].
Qed.

Lemma wants_mono field src c c' blk i : c <= c' -> wants field src c blk i = true -> wants field src c' blk i = true.
Proof. rewrite !wants_true. intros Hc (k & Hk & H). exists k. split; [lia|done]. Qed.

(** A piece adds the bits of its register. *)
Lemma wants_piece field src req num blk st n c blk' i : piece (field_bits field) req num blk st n c -> 0 <= i ->
  wants field src (c + n) blk' i = wants field src c blk' i ||
    (bool_decide (blk' = blk /\ i / 32 = num) && ((st <=? i mod 32) && (i mod 32 <? st + n) && bit src (c + (i mod 32 - st)))).
Proof.
  intros HP Hi. pose proof HP as [[_ Hr] Hs Hn Hw Hc Hb]. apply eq_true_iff_eq. rewrite orb_true_iff, !andb_true_iff, !wants_true, bool_decide_eq_true, Z.leb_le, Z.ltb_lt. split.
  - intros (k & Hk & Hf & Hbit). destruct (decide (k < c)) as [|Hkc]; [left; exists k; split; [lia|done]|]. right.
    replace k with (c + (k - c)) in Hf by lia. rewrite Hb in Hf by lia. injection Hf as <- Ei.
    assert (i / 32 = num /\ i mod 32 = st + (k - c)) as [-> ->] by (Z.to_euclidean_division_equations; lia). split; [done|].
    split; [lia|]. replace (c + (st + (k - c) - st)) with k by lia. done.
  - intros [(k & Hk & H)|([-> Ei] & [H1 H2] & Hbit)]; [exists k; split; [lia|done]|]. exists (c + (i mod 32 - st)). split; [lia|].
    split; [|done]. rewrite Hb by lia. do 2 f_equal. Z.to_euclidean_division_equations; lia.
Qed.

(** A bit that is wanted is burned already. *)
Definition repeated field src (req : Z) (m : regs) : Prop := exists blk i, 0 <= i /\ wants field src req blk i = true /\ rbit m blk i = true.

Lemma write_blob_piece field src req s0 : bytes_for req <= lenZ src -> forall num blk st n p c s, piece (field_bits field) req num blk st n c ->
  p = src /\ staged (wants field src c) s0 s ->
  went_on (fun c p s => p = src /\ staged (wants field src c) s0 s) (c + n) (esp_efuse_utility_write_blob num blk st n p c s) \/
  stopped req (fun err _ s => err = ESP_ERR_EFUSE_REPEATED_PROG /\ same_fuses s0 s /\ words_ok (wdata s) /\ repeated field src req (virt_blocks s0)) (esp_efuse_utility_write_blob num blk st n p c s).
Proof.
  intros Hsrc num blk st n p c s HP [-> S]. pose proof HP as [Hreg Hs Hn Hw Hc Hb]. unfold esp_efuse_utility_write_blob.
  destruct (fill_reg_run st n src c) as (v & E & Hv & B); [lia..|unfold bytes_for in *; Z.to_euclidean_division_equations; lia|]. rewrite E. ostep.
  unfold esp_efuse_utility_write_reg. rewrite read_reg_run by done. ostep. rewrite (sf_virt _ _ (st_same _ _ _ S)).
  destruct (Z.eqb_spec (Z.land (reg_at (virt_blocks s0) blk num) v) 0) as [H0|H0]; cbn [negb].
  - left. rewrite write_reg_run by done. ostep. eexists _, _. split; [done|]. split; [done|]. apply (staged_write (wants field src c)); [done..|].
    intros. rewrite (wants_piece field src req num blk st n c) by done. by rewrite B by (apply Z.mod_pos_bound; lia).
  - right. eexists _, _, _, _. split; [done|]. split; [done|]. split; [lia|]. split; [done|]. split; [apply S|]. split; [apply S|].
    assert (Hpos : 0 < Z.land (reg_at (virt_blocks s0) blk num) v) by (pose proof (proj2 (Z.land_nonneg (reg_at (virt_blocks s0) blk num) v) ltac:(right; unfold is_u32 in Hv; lia)); lia).
    pose proof (Z.bit_log2 _ Hpos) as T. set (j := Z.log2 _) in T. assert (Hj : 0 <= j) by apply Z.log2_nonneg. rewrite Z.land_spec in T.
    apply andb_true_iff in T as [T1 T2]. rewrite B in T2 by done. apply andb_true_iff in T2 as [[T3 T4]%andb_true_iff T5].
    destruct Hreg as [_ [Hr _]]. exists blk, (32 * num + j). split; [lia|]. split; [|by rewrite rbit_reg by lia].
    apply wants_true. exists (c + (j - st)). split; [lia|]. split; [|done]. rewrite Hb by lia. do 2 f_equal. lia.
Qed.

(** ** What is burned, in bits *)
Lemma reached_bits req field : forall c k blk i, Forall desc_ok field -> Forall range_fits (reached req c field) -> 0 <= k -> c + k < req ->
  field_bits field !! Z.to_nat k = Some (blk, i) -> exists d, desc_ok d /\ range_fits d /\ blk = efuse_block d /\ bit_start d <= i < bit_start d + bit_count d.
Proof.
  induction field as [|d field IH]; intros c k blk i F R Hk Hc H; [done|]. apply Forall_cons in F as [D F]. cbn [reached] in R.
  pose proof (dk_count _ D). destruct (Z.ltb_spec c req); [|lia]. apply Forall_cons in R as [Rd R]. rewrite field_bits_lookup in H by done.
  destruct (Z.ltb_spec k (bit_count d)); [injection H as <- <-; exists d; split; [done|]; split; [done|]; split; [done|lia]|].
  apply (IH (c + bit_count d) (k - bit_count d)); [done|done|lia|lia|done].
Qed.

Lemma wants_limit field src req : Forall desc_ok field -> Forall range_fits (reached req 0 field) -> limited (wants field src req).
Proof.
  intros F R blk i (k & Hk & H & _)%wants_true. destruct (reached_bits req field 0 k blk i F R) as (d & D & Rd & -> & Hi); [lia|lia|done|]. by apply range_limit.
Qed.

Lemma write_field_run field src size s : let req := requested field size in
  s_batch_writing_mode s = false -> Forall desc_ok field -> 0 < size -> bytes_for req <= lenZ src ->
  exists err s', esp_efuse_write_field_blob (Some field) (Some src) size s = Ok (err, s') /\ s_batch_writing_mode s' = false /\ staged_nothing s' /\
    (err = ESP_OK <-> Forall range_fits (reached req 0 field) /\ ~ repeated field src req (virt_blocks s) /\ groups_free (wants field src req) (virt_blocks s)) /\
    (err = ESP_OK -> bits_added (wants field src req) (virt_blocks s) (virt_blocks s')) /\
    (err <> ESP_OK -> virt_blocks s' = virt_blocks s).
Proof.
  intros req Hm F Hs Hl. unfold esp_efuse_write_field_blob. destruct (Z.eqb_spec size 0); [lia|]. destruct (start_write_run s Hm) as [[V0 M0] N0].
  set (s0 := start_write s) in *. destruct (utility_process_run esp_efuse_utility_write_blob field src size s0 (fun c p s' => p = src /\ staged (wants field src c) s0 s')
    (fun err _ s => err = ESP_ERR_EFUSE_REPEATED_PROG /\ same_fuses s0 s /\ words_ok (wdata s) /\ repeated field src req (virt_blocks s0)))
    as [(p & s1 & E & [-> S] & V)|[(e & p & s1 & E & He & (-> & [S1 S2] & _ & Rp))|(p & c & s1 & E & [-> S] & V)]];
    [done|lia|intros; by apply write_blob_piece|split; [done|by apply staged_start; [apply nothing_words|]]|..]; rewrite E; ostep.
  - destruct (finish_write_run (wants field src req) s0 s1) as (err & s' & E' & M' & N' & H); [by apply wants_limit|congruence|apply S|apply S| |].
    { intros blk i Vi Hi. rewrite (st_bits _ _ _ S) by done. unfold rbit. rewrite N0 by done. by rewrite Z.bits_0. }
    exists err, s'. split; [done|]. split; [done|]. split; [done|]. rewrite <- V0.
    assert (NR : ~ repeated field src req (virt_blocks s0)) by (intros (blk & i & Hi & Hw & Hr); rewrite (st_free _ _ _ S) in Hr by done; done).
    destruct H as [(-> & G & B)|(-> & G & B)]; (split; [|done]); split; [done|done|done|]. intros (_ & _ & ?). done.
  - destruct (finish_write_error ESP_ERR_EFUSE_REPEATED_PROG s1 He) as (s' & E' & [S3 S4] & N'); [congruence|]. exists ESP_ERR_EFUSE_REPEATED_PROG, s'.
    split; [done|]. split; [congruence|]. split; [done|]. split; [|split; [done|congruence]]. split; [done|]. intros (_ & H & _). rewrite <- V0 in H. done.
  - destruct (finish_write_error ESP_ERR_CODING s1) as (s' & E' & [S3 S4] & N'); [done|rewrite (sf_batch _ _ (st_same _ _ _ S)); congruence|].
    exists ESP_ERR_CODING, s'. split; [done|]. pose proof (st_same _ _ _ S) as [S5 S6]. split; [congruence|]. split; [done|]. split; [|split; [done|congruence]].
    split; [done|]. intros (H & _). done.
Qed.

(** Writing a field, outside of batch mode: the call returns; it answers [ESP_OK]
    just when the ranges it reaches fit the coding scheme, none of the bits it wants
    to set is burned already, and in the coding 3/4 no group of six bytes it touches
    has a burned bit.  With [ESP_OK] exactly the wanted bits are burned in addition
    (and their copy in the repeat scheme); with an error no eFuse changes.  The
    write registers are clear afterwards. *)
Theorem efuse_write_field_exact field src size s : let req := requested field size in
  s_batch_writing_mode s = false -> Forall desc_ok field -> 0 < size -> bytes_for req <= lenZ src ->
  exists err s', esp_efuse_write_field_blob (Some field) (Some src) size s = Ok (err, s') /\ s_batch_writing_mode s' = false /\ staged_nothing s' /\
    (err = ESP_OK <-> Forall range_fits (reached req 0 field) /\ ~ repeated field src req (virt_blocks s) /\ groups_free (wants field src req) (virt_blocks s)) /\
    (err = ESP_OK -> bits_added (wants field src req) (virt_blocks s) (virt_blocks s')) /\
    (err <> ESP_OK -> virt_blocks s' = virt_blocks s).
Proof. apply write_field_run. Qed.
End write.
