(* ===== verification/EfuseCnt.v ===== *)
(** * The eFuse manager: setting a number of bits of a field

    What [esp_efuse_write_field_cnt] stages and burns: the first bits of the field
    that are not burned. *)
From S2P Require Import Prelude Mem EspFlash Partition Efuse EfuseBits EfuseField EfuseRead EfuseCode EfuseBurn.
From S2P Require OtaData.

Section cnt.
Context {eenv : EfuseEnv}.
Implicit Types (s : efuse_state) (blk num i : Z) (field : list esp_efuse_desc_t) (m : regs) (bits : list (Z * Z)).

(** The bits of a list that are not burned. *)
Definition free_bits m bits : list (Z * Z) := filter (fun b => rbit m b.1 b.2 = false) bits.
Definition among bits blk i : bool := bool_decide ((blk, i) ∈ bits).

(** ** One register *)
Lemma land_bit x i : 0 <= i -> (Z.land x (Z.shiftl 1 i) =? 0) = negb (Z.testbit x i).
Proof.
  intros Hi. apply eq_true_iff_eq. rewrite Z.eqb_eq, negb_true_iff, land_0_bits. rewrite Z.shiftl_1_l. split.
  - intros H. specialize (H i Hi). by rewrite Z.pow2_bits_true, andb_true_r in H.
  - intros H j Hj. destruct (decide (j = i)) as [->|]; [by rewrite H|]. rewrite Z.pow2_bits_false by done. apply andb_false_r.
Qed.

Lemma set_cnt_loop_run x : forall n i cnt reg reg' cnt', 0 <= i -> 0 < cnt < 2 ^ 32 -> set_cnt_loop n i x cnt reg = (reg', cnt') ->
  let free := filter (fun j => Z.testbit x j = false) (seqZ i (Z.of_nat n)) in
  cnt' = cnt - Z.min cnt (lenZ free) /\ forall j, 0 <= j -> Z.testbit reg' j = Z.testbit reg j || bool_decide (j ∈ take (Z.to_nat cnt) free).
Proof.
  induction n as [|n IH]; intros i cnt reg reg' cnt' Hi Hc E free; subst free; cbn [set_cnt_loop] in E.
  { injection E as <- <-. change (seqZ i (Z.of_nat 0)) with (@nil Z). rewrite filter_nil. split; [unfold lenZ; cbn [length]; lia|]. intros j _. rewrite take_nil, bool_decide_false by set_solver. by rewrite orb_false_r. }
  rewrite land_bit in E by done. replace (seqZ i (Z.of_nat (S n))) with (i :: seqZ (i + 1) (Z.of_nat n)) by (rewrite (seqZ_cons i (Z.of_nat (S n))) by lia; do 2 f_equal; lia).
  destruct (Z.testbit x i) eqn:Ti; cbn [negb] in E.
  { rewrite filter_cons_False by congruence. apply IH in E; [done|lia|done]. }
  rewrite filter_cons_True by done. set (F := filter _ _) in *. rewrite lenZ_cons. pose proof (lenZ_nonneg F) as HF.
  assert (Eu : u32 (cnt - 1) = cnt - 1) by (apply u32_small; unfold is_u32; lia). rewrite Eu in E.
  assert (B : forall j, 0 <= j -> Z.testbit (Z.lor reg (Z.shiftl 1 i)) j = Z.testbit reg j || bool_decide (j = i)).
  { intros j Hj. rewrite Z.lor_spec, Z.shiftl_1_l, Z.pow2_bits_eqb by done. f_equal. destruct (Z.eqb_spec i j), (bool_decide_reflect (j = i)); congruence. }
  replace (Z.to_nat cnt) with (S (Z.to_nat (cnt - 1))) by lia. cbn [take].
  destruct (Z.eqb_spec (cnt - 1) 0) as [H0|H0].
  - injection E as <- <-. split; [lia|]. intros j Hj. rewrite B by done. f_equal. rewrite H0. apply bool_decide_ext. set_solver.
  - apply IH in E as [-> B']; [|lia..]. split; [unfold F; lia|]. intros j Hj. rewrite B', B, <- orb_assoc by done. f_equal. fold F.
    apply eq_true_iff_eq. rewrite orb_true_iff, !bool_decide_eq_true, elem_of_cons. done.
Qed.

Lemma u32_bits x : 0 <= x -> (forall j, 32 <= j -> Z.testbit x j = false) -> is_u32 x.
Proof.
  intros Hx H. assert (E : x = u32 x); [|rewrite E; apply u32_range]. apply Z.bits_inj'. intros j Hj. rewrite testbit_u32 by done.
  destruct (Z.ltb_spec j 32); [done|]. by apply H.
Qed.

Lemma set_cnt_loop_nonneg x : forall n i cnt reg, 0 <= reg -> 0 <= (set_cnt_loop n i x cnt reg).1.
Proof.
  induction n as [|n IH]; intros i cnt reg Hr; [done|]. cbn [set_cnt_loop]. destruct (_ =? 0); [|by apply IH].
  assert (0 <= Z.lor reg (Z.shiftl 1 i)) by (apply Z.lor_nonneg; split; [done|]; by apply Z.shiftl_nonneg). destruct (_ =? 0); [done|by apply IH].
Qed.

(** ** A piece of the field *)
Lemma take_piece fbits req num blk st n c : piece fbits req num blk st n c ->
  take (Z.to_nat (c + n)) fbits = take (Z.to_nat c) fbits ++ map (fun j => (blk, 32 * num + j)) (seqZ st n).
Proof.
  intros [_ Hs Hn Hw Hc Hb]. apply list_eq. intros k.
  assert (Hl : (Z.to_nat (c + n) <= length fbits)%nat).
  { specialize (Hb (n - 1) ltac:(lia)). apply lookup_lt_Some in Hb. lia. }
  destruct (decide (k < Z.to_nat c)%nat); [rewrite lookup_app_l by (rewrite length_take; lia); by rewrite !lookup_take_lt by lia|].
  rewrite lookup_app_r, length_take by (rewrite length_take; lia). rewrite Nat.min_l by lia.
  destruct (decide (k < Z.to_nat (c + n))%nat); [|by rewrite !lookup_ge_None_2 by (rewrite ?length_take, ?length_map, ?length_seqZ; lia)].
  rewrite lookup_take_lt by done. rewrite list_lookup_fmap, lookup_seqZ_lt by lia. cbn. specialize (Hb (Z.of_nat k - c) ltac:(lia)).
  replace (Z.to_nat (c + (Z.of_nat k - c))) with k in Hb by lia. rewrite Hb. do 2 f_equal. lia.
Qed.

Lemma filter_map {A B} (f : A -> B) (P : B -> Prop) `{!forall x, Decision (P x)} (l : list A) : filter P (map f l) = map f (filter (fun x => P (f x)) l).
Proof. induction l as [|x l IH]; [done|]. cbn [map]. rewrite !filter_cons. case_decide; cbn [map]; by rewrite IH. Qed.

Lemma filter_iff_in {A} (P Q : A -> Prop) `{forall x, Decision (P x)} `{forall x, Decision (Q x)} (l : list A) :
  (forall x, x ∈ l -> P x <-> Q x) -> filter P l = filter Q l.
Proof.
  induction l as [|x l IH]; intros HPQ; [done|]. rewrite !filter_cons. pose proof (HPQ x ltac:(set_solver)) as Hx. rewrite IH by set_solver.
  repeat case_decide; tauto.
Qed.

Lemma free_piece m num blk st n : 0 <= st -> st + n <= 32 ->
  free_bits m (map (fun j => (blk, 32 * num + j)) (seqZ st n)) = map (fun j => (blk, 32 * num + j)) (filter (fun j => Z.testbit (reg_at m blk num) j = false) (seqZ st n)).
Proof.
  intros Hs Hw. unfold free_bits. rewrite filter_map. f_equal. apply filter_iff_in. intros j Hj%elem_of_seqZ. cbn. by rewrite rbit_reg by lia.
Qed.

Lemma free_app m b1 b2 : free_bits m (b1 ++ b2) = free_bits m b1 ++ free_bits m b2.
Proof. apply filter_app. Qed.

(** The count that is left when the bits before [c] have been processed, and what
    is staged then. *)
Definition cnt_state fbits cnt s0 (c : Z) (p : Z) s : Prop :=
  let free := free_bits (virt_blocks s0) (take (Z.to_nat c) fbits) in
  p = cnt - lenZ free /\ 0 < p /\ staged (among free) s0 s.
Definition cnt_done fbits cnt s0 (err p : Z) s : Prop := err = ESP_OK_EFUSE_CNT /\ p = 0 /\
  exists c, let free := free_bits (virt_blocks s0) (take (Z.to_nat c) fbits) in cnt <= lenZ free /\ staged (among (take (Z.to_nat cnt) free)) s0 s.

Lemma staged_ext w w' s0 s : (forall blk i, 0 <= i -> w' blk i = w blk i) -> staged w s0 s -> staged w' s0 s.
Proof.
  intros H [A B C D]. split; [done| |done|].
  - intros. rewrite H by done. by apply B.
  - intros blk i Hi. rewrite H by done. by apply D.
Qed.

(** What a register with a free bit is written with. *)
Lemma set_cnt_run x y st n p : 0 <= st -> 0 < n -> st + n <= 32 -> 0 < p < 2 ^ 32 -> (forall j, st <= j < st + n -> Z.testbit x j = Z.testbit y j) ->
  let free := filter (fun j => Z.testbit y j = false) (seqZ st n) in
  exists v, set_cnt_in_reg st n x p = Ok (v, p - Z.min p (lenZ free)) /\ is_u32 v /\ Z.land y v = 0 /\
    forall j, 0 <= j -> Z.testbit v j = bool_decide (j ∈ take (Z.to_nat p) free).
Proof.
  intros Hs Hn Hw Hp Hx free. unfold set_cnt_in_reg. rewrite cassert_bind by (apply Z.leb_le; lia). destruct (set_cnt_loop _ _ _ _ _) as [v p'] eqn:E.
  pose proof (set_cnt_loop_nonneg x (Z.to_nat n) st p 0 ltac:(lia)) as V0. rewrite E in V0. cbn in V0. apply set_cnt_loop_run in E as [-> B]; [|done..].
  rewrite Z2Nat.id in * by lia. assert (EF : filter (fun j => Z.testbit x j = false) (seqZ st n) = free).
  { apply filter_iff_in. intros j Hj%elem_of_seqZ. by rewrite Hx. }
  rewrite EF in *. exists v. split; [done|]. assert (B' : forall j, 0 <= j -> Z.testbit v j = bool_decide (j ∈ take (Z.to_nat p) free)).
  { intros j Hj. by rewrite B, Z.bits_0 by done. }
  assert (In : forall j, Z.testbit v j = true -> 0 <= j -> Z.testbit y j = false /\ st <= j < st + n).
  { intros j T Hj. rewrite B' in T by done. apply bool_decide_eq_true in T. apply elem_of_take in T as (k & T%list_elem_of_lookup_2 & _).
    apply list_elem_of_filter in T as [T1 T2%elem_of_seqZ]. done. }
  split; [apply u32_bits; [done|]; intros j Hj; apply not_true_is_false; intros T%In; lia|]. split; [|done].
  apply land_0_bits. intros j Hj. destruct (Z.testbit v j) eqn:T; [|apply andb_false_r]. apply In in T as [-> _]; done.
Qed.

Lemma write_cnt_piece fbits req cnt s0 : 0 < cnt < 2 ^ 32 -> forall num blk st n p c s, piece fbits req num blk st n c -> cnt_state fbits cnt s0 c p s ->
  went_on (cnt_state fbits cnt s0) (c + n) (esp_efuse_utility_write_cnt num blk st n p c s) \/
  stopped req (cnt_done fbits cnt s0) (esp_efuse_utility_write_cnt num blk st n p c s).
Proof.
  intros Hcnt num blk st n p c s HP (Ep & Hp & S). pose proof HP as [Hreg Hs Hn Hw Hc Hb]. pose proof (take_piece _ _ _ _ _ _ _ HP) as Tk.
  unfold esp_efuse_utility_write_cnt. rewrite read_reg_run by done. ostep. rewrite (sf_virt _ _ (st_same _ _ _ S)).
  set (y := reg_at (virt_blocks s0) blk num). set (mask := get_mask n st).
  assert (M : forall j, 0 <= j -> Z.testbit mask j = (st <=? j) && (j <? st + n)).
  { intros j Hj. unfold mask. rewrite get_mask_bits by lia. destruct (Z.ltb_spec j 32), (Z.ltb_spec j (st + n)); cbn; try lia; by rewrite ?andb_true_r, ?andb_false_r. }
  set (F := filter (fun j => Z.testbit y j = false) (seqZ st n)). set (g := fun j : Z => (blk, 32 * num + j)).
  pose proof (free_piece (virt_blocks s0) num blk st n Hs Hw) as FP. fold y in FP. fold F in FP. fold g in FP.
  set (old := free_bits (virt_blocks s0) (take (Z.to_nat c) fbits)) in *.
  assert (New : free_bits (virt_blocks s0) (take (Z.to_nat (c + n)) fbits) = old ++ map g F) by (rewrite Tk, free_app; fold g; by rewrite FP).
  assert (LF : lenZ (map g F) = lenZ F) by (unfold lenZ; by rewrite length_map). pose proof (lenZ_nonneg F) as HF. pose proof (lenZ_nonneg old) as HO.
  destruct (Z.eqb_spec (Z.lxor (Z.land y mask) mask) 0) as [Xor|_]; cbn [negb].
  { left. ostep. destruct (Z.eqb_spec p 0); [lia|]. exists p, s. split; [done|].
    assert (EF : F = []).
    { apply elem_of_nil_inv. intros j [T Hj%elem_of_seqZ]%list_elem_of_filter. apply Z.lxor_eq in Xor. pose proof (f_equal (fun z => Z.testbit z j) Xor) as X.
      cbn beta in X. rewrite Z.land_spec, M, T in X by lia. destruct (Z.leb_spec st j), (Z.ltb_spec j (st + n)); cbn in X; lia || done. }
    unfold cnt_state; cbv zeta. rewrite New, EF. cbn [map]. by rewrite app_nil_r. }
  destruct (set_cnt_run (Z.land y mask) y st n p Hs Hn Hw) as (v & E & Hv & Hl & B); [lia| |].
  { intros j Hj. rewrite Z.land_spec, M by lia. destruct (Z.leb_spec st j), (Z.ltb_spec j (st + n)); cbn; try lia. by rewrite andb_true_r. }
  fold F in E, B. rewrite E. ostep. rewrite write_reg_run by done. ostep. set (s1 := s <| wdata := _ |>).
  assert (S1 : staged (among (old ++ map g (take (Z.to_nat p) F))) s0 s1).
  { apply (staged_write (among old) (among (old ++ map g (take (Z.to_nat p) F))) s0 s blk num v); [done..|]. intros blk' i Hi. rewrite B by (apply Z.mod_pos_bound; lia). unfold among. apply eq_true_iff_eq.
    rewrite orb_true_iff, andb_true_iff, !bool_decide_eq_true, elem_of_app. rewrite list_elem_of_fmap. unfold g. split.
    - intros [H|(j & [= -> ->] & Hj)]; [by left|]. right. assert (0 <= j < 32).
      { apply elem_of_take in Hj as (k & Hj%list_elem_of_lookup_2 & _). apply list_elem_of_filter in Hj as [_ Hj%elem_of_seqZ]. lia. }
      replace ((32 * num + j) / 32) with num by (Z.to_euclidean_division_equations; lia).
      replace ((32 * num + j) mod 32) with j by (Z.to_euclidean_division_equations; lia). done.
    - intros [H|[[-> <-] Hj]]; [by left|]. right. exists (i mod 32). split; [|done]. f_equal. Z.to_euclidean_division_equations; lia. }
  ostep. destruct (Z.eqb_spec (p - Z.min p (lenZ F)) 0) as [H0|H0].
  - right. eexists _, _, _, _. split; [done|]. split; [done|]. split; [lia|]. split; [done|]. split; [done|]. exists (c + n). cbv zeta. rewrite New, lenZ_app, LF.
    split; [lia|]. rewrite take_app_ge by (unfold lenZ in *; lia). rewrite firstn_map. by replace (Z.to_nat cnt - length old)%nat with (Z.to_nat p) by (unfold lenZ in *; lia).
  - left. eexists _, _. split; [done|]. unfold cnt_state; cbv zeta. rewrite New, lenZ_app, LF. split; [lia|]. split; [lia|].
    by rewrite take_ge in S1 by (unfold lenZ in *; lia).
Qed.

(** ** The ranges before the first that does not fit its block *)
Fixpoint fitting field : list esp_efuse_desc_t :=
  match field with
  | [] => []
  | d :: field => if decide (range_fits d) then d :: fitting field else []
  end.

Lemma fitting_fits field : Forall range_fits (fitting field).
Proof. induction field as [|d field IH]; [done|]. cbn. case_decide; by constructor. Qed.
Lemma fitting_ok field : Forall desc_ok field -> Forall desc_ok (fitting field).
Proof. induction 1 as [|d field D F IH]; [done|]. cbn. case_decide; by constructor. Qed.

(** Processing goes as far as the ranges fit. *)
Lemma process_fitting {P} func field req : forall (p : P) c s,
  process_field func field req p c s =
    ('(err, p, c, s) ← process_field func (fitting field) req p c s;
     if (err =? ESP_OK) && (c <? req) && (length (fitting field) <? length field)%nat then Ok (ESP_ERR_CODING, p, c, s) else Ok (err, p, c, s)).
Proof.
  induction field as [|d field IH]; intros p c s; [cbn [process_field fitting]; ostep; by rewrite andb_false_r|].
  cbn [process_field fitting]. destruct (decide (range_fits d)) as [R|R]; unfold range_fits in R.
  - cbn [process_field length]. destruct (Z.ltb_spec c req) as [Hc|Hc]; [|ostep; destruct (Z.ltb_spec c req); [lia|]; by rewrite andb_false_r].
    rewrite R. cbn [negb]. destruct (process_regs func 9 d 0 req p c s) as [[[[e p1] c1] s1]| | |]; [|done..]. ostep. ostep.
    destruct (Z.eqb_spec e ESP_OK) as [->|He]; [apply IH|]. ostep. apply Z.eqb_neq in He. by rewrite He.
  - apply not_true_is_false in R. rewrite R. cbn [negb process_field length]. ostep. change (ESP_OK =? ESP_OK) with true. by destruct (c <? req).
Qed.

Lemma reached_all field req : Forall range_fits field -> forall c, Forall range_fits (reached req c field).
Proof. induction 1 as [|d field D F IH]; intros c; [done|]. cbn. destruct (c <? req); [|done]. constructor; [done|apply IH]. Qed.

Lemma lenZ_fitting field : Forall desc_ok field -> lenZ (field_bits (fitting field)) <= lenZ (field_bits field).
Proof.
  induction 1 as [|d field D F IH]; [done|]. cbn [fitting]. pose proof (lenZ_nonneg (field_bits (d :: field))). case_decide; [|unfold field_bits at 1; cbn; done].
  rewrite !lenZ_field_cons by done. lia.
Qed.

(** Counting through a field: either all bits are staged, or not enough are free. *)
Lemma write_cnt_process field cnt s : Forall desc_ok field -> 0 < cnt < 2 ^ 32 -> words_ok (wdata s) ->
  let free := free_bits (virt_blocks s) (field_bits (fitting field)) in
  (exists s', esp_efuse_utility_process esp_efuse_utility_write_cnt field cnt 0 s = Ok (ESP_OK_EFUSE_CNT, 0, s') /\ cnt <= lenZ free /\
     staged (among (take (Z.to_nat cnt) free)) s s') \/
  (exists err p s', esp_efuse_utility_process esp_efuse_utility_write_cnt field cnt 0 s = Ok (err, p, s') /\ p <> 0 /\ lenZ free < cnt /\ staged (among free) s s').
Proof.
  intros F Hcnt W free. unfold esp_efuse_utility_process. rewrite field_size by done. change (0 =? 0) with true. cbn iota. set (req := lenZ (field_bits field)).
  set (fb := field_bits (fitting field)) in *. pose proof (lenZ_fitting field F) as Hl. fold fb req in Hl. pose proof (lenZ_nonneg fb) as Hn. rewrite process_fitting.
  assert (HQ : cnt_state fb cnt s (Z.min req 0) cnt s).
  { rewrite Z.min_r by lia. unfold cnt_state. change (take (Z.to_nat 0) fb) with (@nil (Z * Z)). change (free_bits (virt_blocks s) []) with (@nil (Z * Z)).
    split; [unfold lenZ; cbn [length]; lia|]. split; [lia|]. apply staged_start; [done|]. intros. unfold among. by rewrite bool_decide_false by set_solver. }
  pose proof (process_field_run esp_efuse_utility_write_cnt fb req (cnt_state fb cnt s) (cnt_done fb cnt s) (write_cnt_piece fb req cnt s Hcnt) (fitting field) 0 cnt s
    (fitting_ok _ F) ltac:(lia) (fun j _ => eq_refl) HQ) as H. rewrite (Z.min_r req 0) in H by lia.
  destruct H as [[(p & s' & E & Ep & Hp & S) _]|[(e & p & c & s' & E & He & Hc & -> & -> & x & Hx & S)|[_ []]]]; [..|by apply reached_all, fitting_fits]; rewrite E.
  - right. fold fb in Ep, S |- *. rewrite Z.add_0_l, Z.min_r in Ep, S by lia. rewrite Z.add_0_l, Z.min_r by lia. ostep.
    replace (Z.to_nat (lenZ fb)) with (length fb) in * by (unfold lenZ; lia). rewrite take_ge in * by done. fold free in Ep, S.
    eexists (if (ESP_OK =? ESP_OK) && (lenZ fb <? req) && (length (fitting field) <? length field)%nat then ESP_ERR_CODING else ESP_OK), p, s'.
    split; [|split; [lia|split; [lia|done]]]. destruct (_ && _); ostep; by rewrite cassert_bind by (by apply Z.leb_le).
  - left. ostep. change (ESP_OK_EFUSE_CNT =? ESP_OK) with false. cbn [andb]. ostep. rewrite cassert_bind by (by apply Z.leb_le). exists s'. split; [done|].
    assert (Ef : free = free_bits (virt_blocks s) (take (Z.to_nat x) fb) ++ free_bits (virt_blocks s) (drop (Z.to_nat x) fb)) by (unfold free; by rewrite <- free_app, take_drop).
    pose proof (lenZ_nonneg (free_bits (virt_blocks s) (drop (Z.to_nat x) fb))). rewrite Ef, lenZ_app, take_app_le by (unfold lenZ in *; lia). split; [lia|done].
Qed.

Lemma fitting_limited field m cnt : Forall desc_ok field -> limited (among (take cnt (free_bits m (field_bits (fitting field))))).
Proof.
  intros F blk i H%bool_decide_eq_true. apply elem_of_take in H as (k & H%list_elem_of_lookup_2 & _). apply list_elem_of_filter in H as [_ H].
  unfold field_bits in H. apply list_elem_of_In, in_concat in H as (l & Hl%list_elem_of_In%list_elem_of_fmap & Hi%list_elem_of_In). destruct Hl as (d & -> & Hd).
  pose proof (proj1 (Forall_forall _ _) (fitting_ok _ F) d Hd) as D. pose proof (proj1 (Forall_forall _ _) (fitting_fits field) d Hd) as R.
  unfold range_bits in Hi. apply list_elem_of_fmap in Hi as (j & [= -> ->] & Hj%elem_of_seqZ). apply range_limit; [done|done|lia].
Qed.

(** Setting [cnt] more bits of a field, outside of batch mode: the call
    returns; when fewer than [cnt] bits of the field are free (counting only the
    ranges before the first that does not fit its block) it answers
    [ESP_ERR_EFUSE_CNT_IS_FULL] and no eFuse changes.  Otherwise exactly the first
    [cnt] free bits of the field are burned in addition, unless in the coding 3/4 a
    group of six bytes that has one of them has a burned bit: then the answer is
    [ESP_ERR_CODING] and no eFuse changes. *)
Theorem efuse_write_cnt_exact field cnt s : s_batch_writing_mode s = false -> Forall desc_ok field -> 0 < cnt < 2 ^ 32 ->
  let free := free_bits (virt_blocks s) (field_bits (fitting field)) in
  let chosen := among (take (Z.to_nat cnt) free) in
  exists err s', esp_efuse_write_field_cnt (Some field) cnt s = Ok (err, s') /\ s_batch_writing_mode s' = false /\ staged_nothing s' /\
    (lenZ free < cnt /\ err = ESP_ERR_EFUSE_CNT_IS_FULL /\ virt_blocks s' = virt_blocks s \/
     cnt <= lenZ free /\ groups_free chosen (virt_blocks s) /\ err = ESP_OK /\ bits_added chosen (virt_blocks s) (virt_blocks s') \/
     cnt <= lenZ free /\ ~ groups_free chosen (virt_blocks s) /\ err = ESP_ERR_CODING /\ virt_blocks s' = virt_blocks s).
Proof.
  intros Hm F Hc free chosen. unfold esp_efuse_write_field_cnt. destruct (Z.eqb_spec cnt 0); [lia|]. destruct (start_write_run s Hm) as [[V0 M0] N0].
  set (s0 := start_write s) in *. destruct (write_cnt_process field cnt s0 F Hc (nothing_words _ N0)) as [(s1 & E & Hf & S)|(e & p & s1 & E & Hp & Hf & S)];
    rewrite V0 in Hf, S; fold free in Hf, S; rewrite E; ostep.
  - change (if (if negb (0 =? 0) then _ else _) =? _ then _ else _) with ESP_OK. fold chosen in S.
    destruct (finish_write_run chosen s0 s1) as (err & s' & E' & M' & N' & H); [by apply fitting_limited|congruence|apply S|apply S| |].
    { intros blk i Vi Hi. rewrite (st_bits _ _ _ S) by done. unfold rbit. rewrite N0 by done. by rewrite Z.bits_0. }
    exists err, s'. split; [done|]. split; [done|]. split; [done|]. rewrite V0 in H. tauto.
  - apply Z.eqb_neq in Hp. rewrite Hp. cbn [negb]. change (ESP_ERR_EFUSE_CNT_IS_FULL =? ESP_OK_EFUSE_CNT) with false. cbn iota. pose proof (st_same _ _ _ S) as [S1 S2].
    destruct (finish_write_error ESP_ERR_EFUSE_CNT_IS_FULL s1) as (s' & E' & [S3 S4] & N'); [done|congruence|]. exists ESP_ERR_EFUSE_CNT_IS_FULL, s'.
    split; [done|]. split; [congruence|]. split; [done|]. left. split; [done|]. split; [done|]. congruence.
Qed.
End cnt.
