(* ===== verification/EfuseCalls.v ===== *)
(** * The eFuse manager: sequences of calls

    The calls of the API that can change the state, as a machine: which arguments a
    call may have, and what any sequence of calls keeps. *)
From S2P Require Import Prelude Mem EspFlash Partition Efuse EfuseBits EfuseField EfuseRead EfuseCode EfuseBurn EfuseWrite EfuseCnt.
From S2P Require OtaData.

Inductive efuse_call :=
  | WriteFieldBlob (field : option (list esp_efuse_desc_t)) (src : option (list Z)) (size : Z)
  | WriteFieldCnt (field : option (list esp_efuse_desc_t)) (cnt : Z)
  | WriteFieldBit (field : option (list esp_efuse_desc_t))
  | WriteReg (blk num v : Z)
  | WriteBlock (blk : Z) (src_key : option (list Z)) (offset_in_bits size_bits : Z)
  | SetWriteProtect (blk : Z)
  | SetReadProtect (blk : Z)
  | BatchBegin
  | BatchCancel
  | BatchCommit.

Section calls.
Context {eenv : EfuseEnv}.
Implicit Types (s : efuse_state) (blk num i : Z) (m : regs).

Definition run_call (c : efuse_call) s : outcome (Z * efuse_state) :=
  match c with
  | WriteFieldBlob field src size => esp_efuse_write_field_blob field src size s
  | WriteFieldCnt field cnt => esp_efuse_write_field_cnt field cnt s
  | WriteFieldBit field => esp_efuse_write_field_bit field s
  | WriteReg blk num v => esp_efuse_write_reg blk num v s
  | WriteBlock blk src_key offset_in_bits size_bits => esp_efuse_write_block blk src_key offset_in_bits size_bits s
  | SetWriteProtect blk => esp_efuse_set_write_protect blk s
  | SetReadProtect blk => esp_efuse_set_read_protect blk s
  | BatchBegin => esp_efuse_batch_write_begin s
  | BatchCancel => Ok (esp_efuse_batch_write_cancel s)
  | BatchCommit => esp_efuse_batch_write_commit s
  end.

Fixpoint run_calls (cs : list efuse_call) s : outcome (list Z * efuse_state) :=
  match cs with
  | [] => Ok ([], s)
  | c :: cs => '(err, s) ← run_call c s; '(errs, s) ← run_calls cs s; Ok (err :: errs, s)
  end.

(** A sequence that does not take the lock twice: in batch mode the task holds it, so
    it must not begin another batch, nor use [esp_efuse_write_field_bit], which
    reads the field.  [batch] is the mode before the sequence. *)
Definition next_mode (c : efuse_call) (batch : bool) : bool :=
  match c with BatchBegin => true | BatchCancel | BatchCommit => false | _ => batch end.
Definition takes_lock_again (c : efuse_call) : bool := match c with BatchBegin | WriteFieldBit _ => true | _ => false end.
Fixpoint no_deadlock (batch : bool) (cs : list efuse_call) : bool :=
  match cs with
  | [] => true
  | c :: cs => negb (batch && takes_lock_again c) && no_deadlock (next_mode c batch) cs
  end.

(** Arguments that have the types of the call, name registers that exist and point
    to the bytes that are read. *)
Definition call_ok (c : efuse_call) : Prop :=
  match c with
  | WriteFieldBlob field src size =>
      Forall desc_ok (default [] field) /\ 0 <= size /\ match src with Some src => bytes_for (requested (default [] field) size) <= lenZ src | None => True end
  | WriteFieldCnt field cnt => Forall desc_ok (default [] field) /\ 0 <= cnt < 2 ^ 32
  | WriteFieldBit field => Forall desc_ok (default [] field) /\ field <> Some []
  | WriteReg blk num v => valid_reg blk num /\ is_u32 v
  | WriteBlock blk src_key _ size_bits => 0 <= blk /\ 0 <= size_bits < 2 ^ 16 /\ match src_key with Some src => bytes_for size_bits <= lenZ src | None => True end
  | _ => True
  end.

(** The registers hold words; nothing is staged outside of batch mode. *)
Record efuse_ok s : Prop := {
  eo_fuses : words_ok (virt_blocks s);
  eo_wdata : words_ok (wdata s);
  eo_staged : s_batch_writing_mode s = false -> staged_nothing s
}.

(** No burned bit is lost. *)
Definition grows m m' : Prop := forall blk i, 0 <= i -> valid_reg blk (i / 32) -> rbit m blk i = true -> rbit m' blk i = true.

(** What each call keeps: an error burns nothing; [next] is the batch mode after it. *)
Record call_effect s (next : bool) (err : Z) s' : Prop := {
  ce_ok : efuse_ok s';
  ce_grows : grows (virt_blocks s) (virt_blocks s');
  ce_error : err <> ESP_OK -> virt_blocks s' = virt_blocks s;
  ce_mode : s_batch_writing_mode s' = next
}.

Lemma fuses_grow_refl m : grows m m.
Proof. by intros blk i. Qed.
Lemma fuses_grow_trans m1 m2 m3 : grows m1 m2 -> grows m2 m3 -> grows m1 m3.
Proof. intros A B blk i Hi V H. apply B; [done..|]. by apply A. Qed.

Lemma effect_same s next err s' : efuse_ok s' -> virt_blocks s' = virt_blocks s -> s_batch_writing_mode s' = next -> call_effect s next err s'.
Proof. intros O V M. split; [done| |done|done]. rewrite V. apply fuses_grow_refl. Qed.

(** ** The end of a call *)
Lemma final_words_u32 blk ws : Forall is_u32 ws -> Forall is_u32 (final_words blk ws).
Proof. intros F. unfold final_words. case_match; [done..|]. apply Forall_app. split; by apply Forall_take. Qed.

Lemma nth_u32 l k : Forall is_u32 l -> is_u32 (nth k l 0).
Proof. intros F. rewrite nth_lookup. destruct (l !! k) as [x|] eqn:E; [by eapply Forall_lookup_1|]. unfold is_u32. cbn. lia. Qed.

Lemma burned_grows s m : words_ok (virt_blocks s) -> words_ok (wdata s) -> burned s m -> words_ok m /\ grows (virt_blocks s) m.
Proof.
  intros W1 W2 B. split.
  - intros blk num V. rewrite B by done. apply is_u32_lor; [by apply W1|]. apply nth_u32, final_words_u32. apply wdata_words; [apply V|done].
  - intros blk i Hi V H. unfold rbit in *. rewrite B by done. rewrite Z.lor_spec. by rewrite H.
Qed.

Lemma reset_ok s : words_ok (virt_blocks s) -> efuse_ok (esp_efuse_utility_reset s).
Proof. intros W. destruct (reset_run s) as [[R1 R2] R3]. split; [by rewrite R1|by apply nothing_words|done]. Qed.

Lemma start_ok s : efuse_ok s -> efuse_ok (start_write s) /\ same_fuses s (start_write s).
Proof. intros O. unfold start_write. destruct (s_batch_writing_mode s); [done|]. split; [apply reset_ok, O|]. apply reset_run. Qed.

(** Coding and burning, as the calls and the commit end with. *)
Lemma code_burn_run s : words_ok (virt_blocks s) -> words_ok (wdata s) -> exists err s1, esp_efuse_utility_apply_new_coding_scheme s = Ok (err, s1) /\
  let s2 := if err =? ESP_OK then esp_efuse_utility_burn_efuses s1 else s1 in
  words_ok (virt_blocks s2) /\ grows (virt_blocks s) (virt_blocks s2) /\ (err <> ESP_OK -> virt_blocks s2 = virt_blocks s) /\ s_batch_writing_mode s2 = s_batch_writing_mode s.
Proof.
  intros W1 W2. destruct (apply_burn_run s W2) as (s1 & [V M] & [[E C]|(E & C & B & Bm)]).
  - exists ESP_ERR_CODING, s1. split; [done|]. change (ESP_ERR_CODING =? ESP_OK) with false. cbn zeta iota. rewrite V. split; [done|]. split; [apply fuses_grow_refl|done].
  - exists ESP_OK, s1. split; [done|]. change (ESP_OK =? ESP_OK) with true. cbn zeta iota. destruct (burned_grows s _ W1 W2 B) as [B1 B2]. done.
Qed.

Lemma finish_effect s0 s err : efuse_ok s0 -> same_fuses s0 s -> words_ok (wdata s) -> exists err' s', finish_write err s = Ok (err', s') /\ call_effect s0 (s_batch_writing_mode s0) err' s'.
Proof.
  intros O [V M] W. unfold finish_write. rewrite M. destruct (s_batch_writing_mode s0) eqn:Hb.
  { exists err, s. split; [done|]. apply effect_same; [|done|congruence]. split; [rewrite V; apply O|done|congruence]. }
  destruct (Z.eqb_spec err ESP_OK) as [->|He].
  - destruct (code_burn_run s) as (e & s1 & E & W1 & G & Er & M2); [rewrite V; apply O|done|]. rewrite E. ostep. ostep. eexists _, _. split; [done|].
    set (s2 := if e =? ESP_OK then _ else _) in *. destruct (reset_run s2) as [[R1 R2] R3]. split; [by apply reset_ok|rewrite R1, <- V; done|rewrite R1, <- V; done|congruence].
  - ostep. eexists _, _. split; [done|]. destruct (reset_run s) as [[R1 R2] R3]. apply effect_same; [|congruence..]. apply reset_ok. rewrite V. apply O.
Qed.

(** A call that processes a field and ends. *)
Lemma call_finish s s1 err : efuse_ok s -> same_fuses (start_write s) s1 -> words_ok (wdata s1) -> exists err' s', finish_write err s1 = Ok (err', s') /\ call_effect s (s_batch_writing_mode s) err' s'.
Proof.
  intros O S W. destruct (start_ok s O) as [O0 S0]. apply finish_effect; [done| |done]. by eapply same_fuses_trans.
Qed.

Lemma write_blob_effect field src size s : efuse_ok s -> Forall desc_ok field -> 0 < size -> bytes_for (requested field size) <= lenZ src ->
  exists err s', esp_efuse_write_field_blob (Some field) (Some src) size s = Ok (err, s') /\ call_effect s (s_batch_writing_mode s) err s'.
Proof.
  intros O F Hs Hl. destruct (start_ok s O) as [O0 S0]. unfold esp_efuse_write_field_blob. destruct (Z.eqb_spec size 0); [lia|].
  destruct (utility_process_run esp_efuse_utility_write_blob field src size (start_write s) (fun c p s' => p = src /\ staged (wants field src c) (start_write s) s')
    (fun err _ s' => err = ESP_ERR_EFUSE_REPEATED_PROG /\ same_fuses (start_write s) s' /\ words_ok (wdata s') /\ repeated field src (requested field size) (virt_blocks (start_write s))))
    as [(p & s1 & E & [-> S] & V)|[(e & p & s1 & E & He & (-> & S & W & _))|(p & c & s1 & E & [-> S] & V)]];
    [done|lia|intros; by apply write_blob_piece|split; [done|by apply staged_start; [apply O0|]]|..]; rewrite E; ostep.
  1,3: apply call_finish; [done|apply S..].
  by apply call_finish.
Qed.

Lemma write_cnt_effect field cnt s : efuse_ok s -> Forall desc_ok field -> 0 < cnt < 2 ^ 32 ->
  exists err s', esp_efuse_write_field_cnt (Some field) cnt s = Ok (err, s') /\ call_effect s (s_batch_writing_mode s) err s'.
Proof.
  intros O F Hc. destruct (start_ok s O) as [O0 S0]. unfold esp_efuse_write_field_cnt. destruct (Z.eqb_spec cnt 0); [lia|].
  destruct (write_cnt_process field cnt (start_write s) F Hc (eo_wdata _ O0)) as [(s1 & E & Hf & S)|(e & p & s1 & E & Hp & Hf & S)]; rewrite E; ostep; (apply call_finish; [done|apply S..]).
Qed.

Lemma rejected s err : efuse_ok s -> call_effect s (s_batch_writing_mode s) err s.
Proof. intros O. by apply effect_same. Qed.

Lemma write_reg_effect blk num v s : efuse_ok s -> valid_reg blk num -> is_u32 v ->
  exists err s', esp_efuse_write_reg blk num v s = Ok (err, s') /\ call_effect s (s_batch_writing_mode s) err s'.
Proof.
  intros O V Hv. destruct (start_ok s O) as [O0 S0]. unfold esp_efuse_write_reg, esp_efuse_utility_write_reg. rewrite read_reg_run by done. ostep.
  destruct (negb _); [ostep; apply call_finish; [done..|apply O0]|]. rewrite write_reg_run by done. ostep. ostep. apply call_finish; [done|by split|].
  intros blk' num' V'. cbn [wdata upd]. rewrite reg_at_insert. case_decide as H; [destruct H as [-> ->]; apply is_u32_lor; [by apply O0|done]|by apply O0].
Qed.

Lemma block_desc_ok blk off size : blk <> EFUSE_BLK0 -> 0 <= blk < EFUSE_BLK_MAX -> 0 < size < 2 ^ 16 -> desc_ok (mkDesc (u8 blk) (u8 off) (size mod 2 ^ 16)).
Proof.
  intros Hb0 Hb Hs. unfold EFUSE_BLK_MAX, EFUSE_BLK0 in *. assert (E : u8 blk = blk) by (unfold u8; apply Z.mod_small; lia).
  split; cbn [efuse_block bit_start bit_count]; rewrite ?E, ?Z.mod_small by lia; [unfold EFUSE_BLK_MAX; lia|unfold u8; apply Z.mod_pos_bound; lia|lia|unfold EFUSE_BLK0; lia].
Qed.

Lemma write_block_effect blk src_key off size s : efuse_ok s -> call_ok (WriteBlock blk src_key off size) ->
  exists err s', esp_efuse_write_block blk src_key off size s = Ok (err, s') /\ call_effect s (s_batch_writing_mode s) err s'.
Proof.
  intros O (Hb & Hs & Hl). unfold esp_efuse_write_block. destruct src_key as [src|]; [|do 2 eexists; split; [done|by apply rejected]].
  destruct (Z.eqb_spec blk EFUSE_BLK0), (Z.leb_spec EFUSE_BLK_MAX blk), (Z.eqb_spec size 0); cbn [orb]; try (do 2 eexists; split; [done|by apply rejected]).
  assert (D : desc_ok (mkDesc (u8 blk) (u8 off) (size mod 2 ^ 16))) by (apply block_desc_ok; [done|lia|lia]).
  apply write_blob_effect; [done|by constructor|lia|]. etrans; [|exact Hl]. unfold bytes_for. apply Z.div_le_mono; [lia|]. unfold requested. destruct (Z.eqb_spec size 0); lia.
Qed.

Lemma write_bit_effect field s : efuse_ok s -> s_batch_writing_mode s = false -> call_ok (WriteFieldBit field) ->
  exists err s', esp_efuse_write_field_bit field s = Ok (err, s') /\ call_effect s (s_batch_writing_mode s) err s'.
Proof.
  intros O Hm [F Hn]. unfold esp_efuse_write_field_bit. destruct field as [[|d field]|]; [done| |do 2 eexists; split; [done|by apply rejected]]. cbn [default] in F.
  destruct (Z.eqb_spec (bit_count d) 1); cbn [negb]; [|do 2 eexists; split; [done|by apply rejected]].
  destruct (read_field_run (d :: field) [0] 1 s Hm F) as (err & dst & E & L & _); [lia|by vm_compute|]. rewrite E. ostep.
  destruct dst as [|x [|]]; [done| |done]. destruct (negb (err =? ESP_OK) || negb (x =? 0)); [do 2 eexists; split; [done|by apply rejected]|].
  apply write_blob_effect; [done|done|lia|]. apply Forall_cons in F as [D F]. unfold requested. change (1 =? 0) with false. cbn iota. rewrite lenZ_field_cons by done.
  pose proof (lenZ_nonneg (field_bits field)). rewrite Z.min_l by lia. done.
Qed.

Lemma protect_ok d : d ∈ [mkDesc EFUSE_BLK0 7 1; mkDesc EFUSE_BLK0 8 1; mkDesc EFUSE_BLK0 9 1; mkDesc EFUSE_BLK0 16 1; mkDesc EFUSE_BLK0 17 1; mkDesc EFUSE_BLK0 18 1] -> desc_ok d.
Proof.
  rewrite !elem_of_cons, elem_of_nil. intros H. decompose [or] H; try done; subst; split; cbn [efuse_block bit_start bit_count]; unfold EFUSE_BLK_MAX, EFUSE_BLK0; lia.
Qed.

Lemma protect_effect c s : efuse_ok s -> (exists blk, c = SetWriteProtect blk \/ c = SetReadProtect blk) -> exists err s', run_call c s = Ok (err, s') /\ call_effect s (s_batch_writing_mode s) err s'.
Proof.
  assert (One : forall d, desc_ok d -> efuse_ok s -> exists err s', esp_efuse_write_field_cnt (Some [d]) 1 s = Ok (err, s') /\ call_effect s (s_batch_writing_mode s) err s').
  { intros d D O. apply write_cnt_effect; [done|by constructor|lia]. }
  intros O (blk & [-> | ->]); cbn [run_call]; unfold esp_efuse_set_write_protect, esp_efuse_set_read_protect;
    repeat (destruct (_ =? _); [apply One; [apply protect_ok; set_solver|done]|]); do 2 eexists; (split; [done|by apply rejected]).
Qed.

Lemma batch_effect c s : efuse_ok s -> s_batch_writing_mode s && takes_lock_again c = false -> c = BatchBegin \/ c = BatchCancel \/ c = BatchCommit -> exists err s', run_call c s = Ok (err, s') /\ call_effect s (next_mode c (s_batch_writing_mode s)) err s'.
Proof.
  intros O Hm [-> |[-> | ->]]; cbn [run_call].
  - cbn in Hm. rewrite andb_true_r in Hm. unfold esp_efuse_batch_write_begin. rewrite EFUSE_LOCK_ACQUIRE_run by done. ostep. destruct (reset_run (s <| s_batch_writing_mode := true |>)) as [[R1 R2] R3]. do 2 eexists. split; [done|]. apply effect_same; [by apply reset_ok, O|done..].
  - unfold esp_efuse_batch_write_cancel. destruct (s_batch_writing_mode s) eqn:M; do 2 eexists; (split; [done|]); [|by apply effect_same].
    destruct (reset_run (s <| s_batch_writing_mode := false |>)) as [[R1 R2] R3]. apply effect_same; [by apply reset_ok, O|done..].
  - unfold esp_efuse_batch_write_commit. destruct (s_batch_writing_mode s) eqn:M; cbn [negb]; [|do 2 eexists; split; [done|by apply effect_same]].
    destruct (code_burn_run s (eo_fuses _ O) (eo_wdata _ O)) as (err & s1 & E & W & G & Er & M2). rewrite E. ostep. set (s2 := if err =? ESP_OK then _ else _) in *. eexists _, _. split; [done|].
    unfold esp_efuse_batch_write_cancel. rewrite M2, M. cbn [snd].
    destruct (reset_run (s2 <| s_batch_writing_mode := false |>)) as [[R1 R2] R3]. split; [by apply reset_ok|by rewrite R1|by rewrite R1|done].
Qed.

Lemma call_run c s : efuse_ok s -> s_batch_writing_mode s && takes_lock_again c = false -> call_ok c -> exists err s', run_call c s = Ok (err, s') /\ call_effect s (next_mode c (s_batch_writing_mode s)) err s'.
Proof.
  intros O Hm C. destruct c as [field src size|field cnt|field|blk num v|blk src_key off size|blk|blk| | |]; [..|by apply batch_effect; auto|by apply batch_effect; auto|by apply batch_effect; auto].
  - destruct C as (F & Hs & Hl). cbn [run_call]. destruct field as [field|]; [|do 2 eexists; split; [done|by apply rejected]].
    destruct src as [src|]; [|do 2 eexists; split; [done|by apply rejected]]. destruct (decide (size = 0)) as [->|]; [do 2 eexists; split; [done|by apply rejected]|].
    apply write_blob_effect; [done|done|lia|done].
  - destruct C as (F & Hc). cbn [run_call]. destruct field as [field|]; [|do 2 eexists; split; [done|by apply rejected]].
    destruct (decide (cnt = 0)) as [->|]; [do 2 eexists; split; [done|by apply rejected]|]. apply write_cnt_effect; [done|done|lia].
  - cbn in Hm. rewrite andb_true_r in Hm. by apply write_bit_effect.
  - destruct C. by apply write_reg_effect.
  - by apply write_block_effect.
  - apply protect_effect; eauto.
  - apply protect_effect; eauto.
Qed.

(** C24.  Every sequence of calls with well-formed arguments that does not take the
    lock twice returns: no assertion fails, no loop runs out of steps and nothing
    outside of the caller's bytes is read.  Afterwards all registers are 32-bit words
    and, outside of batch mode, the write registers are clear; every bit that was
    burned still is.  No call of the sequence that answers an error changes an eFuse;
    what it has staged before the error in a batch is burned by the commit. *)
Theorem efuse_calls_safe cs s : efuse_ok s -> Forall call_ok cs -> no_deadlock (s_batch_writing_mode s) cs = true ->
  exists errs s', run_calls cs s = Ok (errs, s') /\ length errs = length cs /\ efuse_ok s' /\ grows (virt_blocks s) (virt_blocks s') /\
    (forall before c after, cs = before ++ c :: after -> exists errs1 s1 err s2,
       run_calls before s = Ok (errs1, s1) /\ run_call c s1 = Ok (err, s2) /\ errs !! length before = Some err /\
       (err <> ESP_OK -> virt_blocks s2 = virt_blocks s1)).
Proof.
  intros O F. revert s O. induction F as [|c cs C F IH]; intros s O D.
  { exists [], s. split_and!; [done..|apply fuses_grow_refl|]. by intros [] ? ? ?. }
  cbn [run_calls no_deadlock] in *. apply andb_true_iff in D as [Dc%negb_true_iff D].
  destruct (call_run c s O Dc C) as (err & s1 & E & Eff). rewrite E. ostep. rewrite <- (ce_mode _ _ _ _ Eff) in D.
  destruct (IH s1 (ce_ok _ _ _ _ Eff) D) as (errs & s2 & E2 & L & O2 & G & N). rewrite E2. ostep.
  exists (err :: errs), s2. split; [done|]. split; [cbn; lia|]. split; [done|]. split; [eapply fuses_grow_trans; [apply Eff|done]|].
  intros [|c0 before] c1 after Hcs; simplify_eq/=.
  - exists [], s, err, s1. split_and!; [done..|]. apply (ce_error _ _ _ _ Eff).
  - destruct (N before c1 after eq_refl) as (errs1 & t1 & e & t2 & R1 & R2 & R3 & R4).
    exists (err :: errs1), t1, e, t2. rewrite E. ostep. rewrite R1. ostep. by split_and!.
Qed.
End calls.
