(* ===== verification/EfuseClient.v ===== *)
(** * The eFuse manager: round trip, batches and examples *)
From S2P Require Import Prelude Mem EspFlash Partition Efuse EfuseBits EfuseField EfuseRead EfuseCode EfuseBurn EfuseWrite EfuseCnt EfuseCalls.
From S2P Require OtaData.

Section client.
Context {eenv : EfuseEnv}.
Implicit Types (s : efuse_state) (blk num i : Z) (field : list esp_efuse_desc_t) (src dst : list Z).

(** ** Writing and reading back *)
Lemma wants_bit field src req k blk i : NoDup (field_bits field) -> 0 <= k < req -> field_bits field !! Z.to_nat k = Some (blk, i) -> wants field src req blk i = bit src k.
Proof.
  intros N Hk Hf. apply eq_true_iff_eq. rewrite wants_true. split.
  - intros (k' & Hk' & Hf' & B). pose proof (NoDup_lookup _ _ _ _ N Hf Hf'). by replace k with k' by lia.
  - intros B. by exists k.
Qed.

Lemma added_field_bit field src req m m' k : Forall desc_ok field -> NoDup (field_bits field) -> Forall range_fits (reached req 0 field) -> 0 <= k < req -> req <= lenZ (field_bits field) ->
  bits_added (wants field src req) m m' -> field_bit m' field k = field_bit m field k || bit src k.
Proof.
  intros F N R Hk Hr B. unfold field_bit. destruct (field_bits field !! Z.to_nat k) as [[blk i]|] eqn:E; [|apply lookup_ge_None_1 in E; unfold lenZ in *; lia].
  destruct (reached_bits req field 0 k blk i F R) as (d & D & Rd & -> & Hi); [lia|lia|done|]. pose proof (range_limit d i D Rd Hi) as [L Lb].
  assert (V : valid_reg (efuse_block d) (i / 32)).
  { split; [done|]. unfold block_limit, esp_efuse_get_coding_scheme, max_num_reg in *. unfold EFUSE_BLK0 in *. repeat case_match; Z.to_euclidean_division_equations; lia. }
  rewrite B by (done || lia). rewrite (wants_bit field src req k) by done. rewrite <- orb_assoc. f_equal. unfold repeats, block_limit in *.
  destruct (esp_efuse_get_coding_scheme (efuse_block d)); cbn [andb]; [by rewrite orb_false_r..|]. destruct (Z.leb_spec 128 i); [lia|]. cbn [andb]. by rewrite orb_false_r.
Qed.

(** What was written to a clear field is read back, in every coding scheme:
    when writing the first [size] bits of a field whose bits are distinct and not
    burned answers [ESP_OK], reading them answers [ESP_OK] and gives the bits of the
    source. *)
Theorem efuse_write_read_roundtrip field src dst size s : s_batch_writing_mode s = false -> Forall desc_ok field -> NoDup (field_bits field) ->
  0 < size <= lenZ (field_bits field) -> bytes_for size <= lenZ src -> bytes_for size <= lenZ dst -> (forall k, 0 <= k < size -> field_bit (virt_blocks s) field k = false) ->
  exists err s', esp_efuse_write_field_blob (Some field) (Some src) size s = Ok (err, s') /\
    (err = ESP_OK -> exists dst', esp_efuse_read_field_blob (Some field) (Some dst) size s' = Ok (ESP_OK, Some dst') /\ forall k, 0 <= k < size -> bit dst' k = bit src k).
Proof.
  intros Hm F N Hs Hsrc Hdst Clear. assert (Rq : requested field size = size) by (unfold requested; destruct (Z.eqb_spec size 0); lia).
  destruct (write_field_run field src size s) as (err & s' & E & M' & _ & Ok1 & Ok2 & _); [done|done|lia|by rewrite Rq|]. rewrite Rq in *. exists err, s'. split; [done|]. intros ->.
  destruct (proj1 Ok1 eq_refl) as (R & _). specialize (Ok2 eq_refl). destruct (read_field_run field dst size s' M' F) as (e & dst' & E' & _ & Ee & B & _); [lia|done|].
  rewrite Rq, decide_True in Ee by done. subst e. exists dst'. split; [done|]. intros k Hk. rewrite B by (done || unfold bytes_for; Z.to_euclidean_division_equations; lia).
  rewrite Rq. destruct (Z.ltb_spec k size); [|lia]. cbn [andb]. rewrite (added_field_bit field src size (virt_blocks s)) by (done || lia). by rewrite Clear.
Qed.

(** ** A batch *)
Record field_write := mkWrite { fw_field : list esp_efuse_desc_t; fw_src : list Z; fw_size : Z }.
Implicit Types (x : field_write) (ws : list field_write).

Definition fw_req x : Z := requested (fw_field x) (fw_size x).
Definition fw_wants x : Z -> Z -> bool := wants (fw_field x) (fw_src x) (fw_req x).
Definition fw_call x : efuse_call := WriteFieldBlob (Some (fw_field x)) (Some (fw_src x)) (fw_size x).
Definition fw_ok x : Prop := Forall desc_ok (fw_field x) /\ 0 < fw_size x /\ bytes_for (fw_req x) <= lenZ (fw_src x).
(** The call stages the field: its ranges fit and no bit it wants is burned. *)
Definition fw_stages (m : regs) x : Prop := Forall range_fits (reached (fw_req x) 0 (fw_field x)) /\ ~ repeated (fw_field x) (fw_src x) (fw_req x) m.
(** The bits all the writes want. *)
Definition batch_wants ws blk i : bool := existsb (fun x => fw_wants x blk i) ws.

Lemma staged_trans w w' s0 s1 s2 : staged w s0 s1 -> staged w' s1 s2 -> staged (fun blk i => w blk i || w' blk i) s0 s2.
Proof.
  intros [A B C D] [A' B' C' D']. split.
  - by eapply same_fuses_trans.
  - intros. rewrite B', B by done. by rewrite orb_assoc.
  - done.
  - intros blk i Hi [H|H]%orb_true_iff; [by apply D|]. rewrite <- (sf_virt _ _ A). by apply D'.
Qed.

Lemma stage_run x s : s_batch_writing_mode s = true -> words_ok (wdata s) -> fw_ok x -> fw_stages (virt_blocks s) x ->
  exists s', run_call (fw_call x) s = Ok (ESP_OK, s') /\ staged (fw_wants x) s s'.
Proof.
  intros Hm W (F & Hs & Hl) [R N]. cbn [run_call fw_call]. unfold esp_efuse_write_field_blob, start_write. rewrite Hm. destruct (Z.eqb_spec (fw_size x) 0); [lia|].
  destruct (utility_process_run esp_efuse_utility_write_blob (fw_field x) (fw_src x) (fw_size x) s (fun c p s' => p = fw_src x /\ staged (wants (fw_field x) (fw_src x) c) s s')
    (fun err _ s' => err = ESP_ERR_EFUSE_REPEATED_PROG /\ same_fuses s s' /\ words_ok (wdata s') /\ repeated (fw_field x) (fw_src x) (fw_req x) (virt_blocks s)))
    as [(p & s1 & E & [-> S] & V)|[(e & p & s1 & E & He & (-> & S & W1 & Rp))|(p & c & s1 & E & [-> S] & V)]];
    [done|lia|intros; by apply write_blob_piece|split; [done|by apply staged_start]|..]; [|done|done].
  rewrite E. ostep. exists s1. split; [|done]. unfold finish_write. by rewrite (sf_batch _ _ (st_same _ _ _ S)), Hm.
Qed.

Lemma stage_all_run ws : forall s, s_batch_writing_mode s = true -> words_ok (wdata s) -> Forall fw_ok ws -> Forall (fw_stages (virt_blocks s)) ws ->
  exists s', (forall cs, run_calls (map fw_call ws ++ cs) s = ('(errs, s'') ← run_calls cs s'; Ok (replicate (length ws) ESP_OK ++ errs, s''))) /\ staged (batch_wants ws) s s'.
Proof.
  induction ws as [|x ws IH]; intros s Hm W F G.
  { exists s. split; [|by apply staged_start]. intros cs. cbn. by destruct (run_calls cs s) as [[]| | |]. }
  apply Forall_cons in F as [Fx F], G as [Gx G]. destruct (stage_run x s Hm W Fx Gx) as (s1 & E & S). pose proof (st_same _ _ _ S) as [V1 M1].
  destruct (IH s1) as (s2 & E2 & S2); [congruence|apply S|done|by rewrite V1|]. exists s2. split.
  - intros cs. cbn [map app run_calls]. rewrite E. ostep. rewrite E2. by destruct (run_calls cs s2) as [[]| | |].
  - by apply (staged_trans _ _ s s1 s2).
Qed.

(** C23.  A batch writes its fields at once: when between the begin and the commit
    only fields are written whose ranges fit and whose wanted bits are not burned,
    every call but the commit answers [ESP_OK], and the commit burns exactly the
    bits that any of the writes wants and answers [ESP_OK], unless in the coding 3/4
    a group of six bytes that has one of them has a burned bit: then it answers
    [ESP_ERR_CODING] and no eFuse changes.  The mode is left in both cases. *)
Theorem efuse_batch_exact ws s : s_batch_writing_mode s = false -> Forall fw_ok ws -> Forall (fw_stages (virt_blocks s)) ws ->
  exists err s', run_calls (BatchBegin :: map fw_call ws ++ [BatchCommit]) s = Ok (ESP_OK :: replicate (length ws) ESP_OK ++ [err], s') /\
    s_batch_writing_mode s' = false /\ staged_nothing s' /\
    (err = ESP_OK /\ groups_free (batch_wants ws) (virt_blocks s) /\ bits_added (batch_wants ws) (virt_blocks s) (virt_blocks s') \/
     err = ESP_ERR_CODING /\ ~ groups_free (batch_wants ws) (virt_blocks s) /\ virt_blocks s' = virt_blocks s).
Proof.
  intros Hm F G. cbn [run_calls run_call]. unfold esp_efuse_batch_write_begin. rewrite EFUSE_LOCK_ACQUIRE_run by done. ostep. ostep. set (s0 := esp_efuse_utility_reset _). destruct (reset_run (s <| s_batch_writing_mode := true |>)) as [[R1 R2] R3].
  fold s0 in R1, R2, R3. cbn in R1, R2. destruct (stage_all_run ws s0) as (s1 & E & S); [done|by apply nothing_words|done|by rewrite R1|]. rewrite E. cbn [run_calls run_call].
  pose proof (st_same _ _ _ S) as [V1 M1]. unfold esp_efuse_batch_write_commit. rewrite M1, R2. cbn [negb].
  assert (L : limited (batch_wants ws)).
  { intros blk i (x & Hx%list_elem_of_In & H)%existsb_exists. rewrite Forall_forall in F, G. destruct (F x Hx) as (Fx & _), (G x Hx) as [Rx _]. exact (wants_limit _ (fw_src x) _ Fx Rx blk i H). }
  assert (B : wanted_words (batch_wants ws) s1) by (intros blk i Vi Hi; rewrite (st_bits _ _ _ S) by done; unfold rbit; rewrite R3 by done; by rewrite Z.bits_0).
  destruct (apply_burn_run s1 (st_words _ _ _ S)) as (s2 & [V2 M2] & [[Ea C]|(Ea & C & Bu & Bm)]); rewrite Ea; ostep; rewrite (codable_bits _ _ L (st_words _ _ _ S) B) in C.
  - change (ESP_ERR_CODING =? ESP_OK) with false. cbn iota. unfold esp_efuse_batch_write_cancel. rewrite M2, M1, R2. cbn [snd]. ostep. exists ESP_ERR_CODING. eexists. split; [done|].
    destruct (reset_run (s2 <| s_batch_writing_mode := false |>)) as [[Q1 Q2] Q3]. split; [done|]. split; [done|]. right. rewrite V1, R1 in C. split; [done|]. split; [done|]. rewrite Q1. cbn. congruence.
  - change (ESP_OK =? ESP_OK) with true. cbn iota. set (s3 := esp_efuse_utility_burn_efuses s2) in *. unfold esp_efuse_batch_write_cancel. rewrite Bm, M1, R2. cbn [snd]. ostep. exists ESP_OK. eexists. split; [done|].
    destruct (reset_run (s3 <| s_batch_writing_mode := false |>)) as [[Q1 Q2] Q3]. split; [done|]. split; [done|]. left. rewrite V1, R1 in C. split; [done|]. split; [done|]. rewrite Q1. cbn. rewrite <- R1, <- V1.
    by apply (burned_bits _ _ _ L B).
Qed.
End client.

