(* ===== verification/EfuseExamples.v ===== *)
(** * The eFuse manager: examples

    Each theorem applied to a chip in the coding 3/4 on which some bits are burned. *)
From S2P Require Import Prelude Mem EspFlash Partition Efuse EfuseBits EfuseField EfuseRead EfuseCode EfuseBurn EfuseWrite EfuseCnt EfuseCalls EfuseClient.

#[local] Instance example_env : EfuseEnv := {| coding_scheme_field := 1 |}.
Definition example_field : list esp_efuse_desc_t := [mkDesc EFUSE_BLK1 5 30; mkDesc EFUSE_BLK2 60 11].
Definition example_flags : list esp_efuse_desc_t := [mkDesc EFUSE_BLK3 6 4].
(** A chip on which two of the flags are burned. *)
Definition example_fuses : efuse_state := mkEfuse {[ (EFUSE_BLK0, 0) := 0x300; (EFUSE_BLK3, 5) := 1 ]} ∅ false.
Definition example_src : list Z := [0xa5; 0x5a; 0xff; 0x01; 0x70].

Definition err_of {A} (o : outcome (Z * A)) : option Z := match o with Ok (err, _) => Some err | _ => None end.
Lemma err_is {A} (o : outcome (Z * A)) err err' x : o = Ok (err', x) -> err_of o = Some err -> err' = err.
Proof. intros E H. rewrite E in H. by injection H. Qed.

Lemma not_repeated field src req m : existsb (fun k => bit src k && field_bit m field k) (seqZ 0 req) = false -> ~ repeated field src req m.
Proof.
  intros H (blk & i & Hi & (k & Hk & Hf & Hb)%wants_true & Hr). apply not_true_iff_false in H. apply H, existsb_exists. exists k.
  split; [apply list_elem_of_In, elem_of_seqZ; lia|]. unfold field_bit. by rewrite Hf, Hb, Hr.
Qed.

Lemma example_field_ok : Forall desc_ok example_field /\ Forall desc_ok example_flags.
Proof. split; repeat constructor; cbn [efuse_block bit_start bit_count]; unfold EFUSE_BLK_MAX, EFUSE_BLK0, EFUSE_BLK1, EFUSE_BLK2, EFUSE_BLK3; lia. Qed.

Lemma example_fuses_ok : efuse_ok example_fuses.
Proof.
  split; [|done|done]. intros blk num [Hb Hn]. cbn [virt_blocks example_fuses]. unfold reg_at, example_fuses. cbn [virt_blocks].
  rewrite lookup_insert. case_decide; [by vm_compute|]. rewrite lookup_singleton. case_decide; by vm_compute.
Qed.

Lemma efuse_read_field_exact_witness : bytes_for 40 <= 5 /\ exists dst', esp_efuse_read_field_blob (Some example_field) (Some [1; 2; 3; 4; 5; 6]) 40 example_fuses = Ok (ESP_OK, Some dst') /\ bit dst' 45 = bit [1; 2; 3; 4; 5; 6] 45.
Proof.
  split; [by vm_compute|].
  destruct (efuse_read_field_exact (Some example_field) (Some [1; 2; 3; 4; 5; 6]) 40 example_fuses eq_refl (proj1 example_field_ok)) as (err & [dst'|] & E & H);
    [lia|left; by vm_compute| |vm_compute in E; congruence].
  pose proof (proj1 (proj2 H) 45) as B. exists dst'. split; [|apply B; by vm_compute]. rewrite E. assert (err = ESP_OK) as -> by (apply (err_is _ _ _ _ E); by vm_compute). done.
Defined.

Lemma efuse_write_field_exact_witness : exists s', esp_efuse_write_field_blob (Some example_field) (Some example_src) 39 example_fuses = Ok (ESP_OK, s') /\ staged_nothing s' /\
  bits_added (wants example_field example_src 39) (virt_blocks example_fuses) (virt_blocks s').
Proof.
  destruct (efuse_write_field_exact example_field example_src 39 example_fuses) as (err & s' & E & _ & N & _ & B & _); [done|apply example_field_ok|lia|by vm_compute|].
  assert (err = ESP_OK) as -> by (apply (err_is _ _ _ _ E); by vm_compute). exists s'. split; [done|]. split; [done|]. by apply B.
Defined.

Lemma efuse_write_cnt_exact_witness : exists s', esp_efuse_write_field_cnt (Some example_flags) 3 example_fuses = Ok (ESP_OK, s') /\
  bits_added (among [(EFUSE_BLK3, 6); (EFUSE_BLK3, 7); (EFUSE_BLK3, 8)]) (virt_blocks example_fuses) (virt_blocks s').
Proof.
  destruct (efuse_write_cnt_exact example_flags 3 example_fuses) as (err & s' & E & _ & _ & [(H & _)|[(_ & _ & -> & B)|(_ & _ & -> & _)]]); [done|apply example_field_ok|lia|by vm_compute in H| |by vm_compute in E].
  exists s'. by split.
Defined.

Lemma efuse_calls_safe_witness : exists errs s',
  run_calls [BatchBegin; WriteFieldCnt (Some example_flags) 2; WriteReg EFUSE_BLK0 0 0x100; BatchCommit; SetWriteProtect EFUSE_BLK3; WriteBlock EFUSE_BLK3 (Some [7]) 250 3] example_fuses = Ok (errs, s') /\
  errs = [ESP_OK; ESP_OK; ESP_ERR_EFUSE_REPEATED_PROG; ESP_OK; ESP_ERR_EFUSE_CNT_IS_FULL; ESP_ERR_CODING] /\ efuse_ok s' /\ grows (virt_blocks example_fuses) (virt_blocks s').
Proof.
  destruct (efuse_calls_safe [BatchBegin; WriteFieldCnt (Some example_flags) 2; WriteReg EFUSE_BLK0 0 0x100; BatchCommit; SetWriteProtect EFUSE_BLK3; WriteBlock EFUSE_BLK3 (Some [7]) 250 3] example_fuses)
    as (errs & s' & E & _ & O & G & _); [apply example_fuses_ok| |done|].
  - repeat constructor; try apply example_field_ok; unfold max_num_reg, EFUSE_BLK_MAX, EFUSE_BLK0, EFUSE_BLK3, is_u32; cbn; try lia; by vm_compute.
  - exists errs, s'. split; [exact E|]. split; [|by split]. pose proof (f_equal (fun o => match o with Ok (e, _) => e | _ => [] end) E) as Er. vm_compute in Er. symmetry. exact Er.
Defined.

Lemma efuse_write_read_roundtrip_witness : exists s' dst', esp_efuse_write_field_blob (Some example_field) (Some example_src) 35 example_fuses = Ok (ESP_OK, s') /\
  esp_efuse_read_field_blob (Some example_field) (Some [0; 0; 0; 0; 0]) 35 s' = Ok (ESP_OK, Some dst') /\ (forall k, 0 <= k < 35 -> bit dst' k = bit example_src k).
Proof.
  destruct (efuse_write_read_roundtrip example_field example_src [0; 0; 0; 0; 0] 35 example_fuses) as (err & s' & E & R); [done|apply example_field_ok|refine (bool_decide_unpack _ _); by vm_compute|by vm_compute|by vm_compute|by vm_compute| |].
  - intros k Hk. assert (H : Forall (fun k => field_bit (virt_blocks example_fuses) example_field k = false) (seqZ 0 35)) by (refine (bool_decide_unpack _ _); by vm_compute).
    rewrite Forall_forall in H. apply H, elem_of_seqZ. lia.
  - assert (err = ESP_OK) as -> by (apply (err_is _ _ _ _ E); by vm_compute). destruct (R eq_refl) as (dst' & H). exists s', dst'. split; [exact E|exact H].
Defined.

Lemma efuse_batch_exact_witness : exists s', let ws := [mkWrite example_field example_src 20; mkWrite [mkDesc EFUSE_BLK3 0 6] [0x2a] 6] in
  run_calls (BatchBegin :: map fw_call ws ++ [BatchCommit]) example_fuses = Ok ([ESP_OK; ESP_OK; ESP_OK; ESP_OK], s') /\ bits_added (batch_wants ws) (virt_blocks example_fuses) (virt_blocks s').
Proof.
  destruct (efuse_batch_exact [mkWrite example_field example_src 20; mkWrite [mkDesc EFUSE_BLK3 0 6] [0x2a] 6] example_fuses eq_refl) as (err & s' & E & _ & _ & [(-> & _ & B)|(-> & _)]).
  - repeat constructor; cbn [efuse_block bit_start bit_count fw_size]; unfold EFUSE_BLK_MAX, EFUSE_BLK0, EFUSE_BLK1, EFUSE_BLK2, EFUSE_BLK3; try lia; by vm_compute.
  - repeat constructor; (apply not_repeated || idtac); by vm_compute.
  - exists s'. by split.
  - by vm_compute in E.
Defined.
