(* ===== verification/FlashMmap.v ===== *)
(** * Flash mapping ([components/spi_flash/flash_mmap.c])

    The MMU maps 64 KB pages of flash into the address space: 64 pages for data and
    the usable part of 192 pages for instructions.  The component keeps a reference
    count for each of the 256 entries of the tables and a list of the mappings, and
    places a mapping in the first window whose used entries already have the pages
    asked for.

    The build is the one for the ESP32 with both processors, whose tables are
    written alike.  [stale] is the set of entries that were written since the cache
    was flushed last; [allocated] counts the [mmap_entry_t] blocks on the heap.  A
    call runs with the caches and the other processor stopped. *)
From S2P Require Import Prelude Mem EspFlash.

Definition PAGES_PER_REGION := 64.
Definition REGIONS_COUNT := 4.
Definition IROM0_PAGES_START := 64.
Definition IROM0_PAGES_END := 256.
Definition DROM0_PAGES_START := 0.
Definition DROM0_PAGES_END := 64.
Definition PAGE_IN_FLASH (page : Z) : Z := page.
Definition SPI_FLASH_MMU_PAGE_SIZE := 0x10000.
Definition MMU_ADDR_MASK := 0xff.
Definition DROM0_PAGES_NUM := DROM0_PAGES_END - DROM0_PAGES_START.
Definition PAGES_LIMIT := if DROM0_PAGES_END <? IROM0_PAGES_END then IROM0_PAGES_END else DROM0_PAGES_END.
Definition INVALID_ENTRY_VAL := 0x100.
Definition VADDR0_START_ADDR := 0x3F400000.
Definition VADDR1_START_ADDR := 0x40000000.
Definition VADDR1_FIRST_USABLE_ADDR := 0x400D0000.
Definition PRO_IRAM0_FIRST_USABLE_PAGE := (VADDR1_FIRST_USABLE_ADDR - VADDR1_START_ADDR) / SPI_FLASH_MMU_PAGE_SIZE + IROM0_PAGES_START.
Definition SPI_FLASH_CACHE2PHYS_FAIL := 2 ^ 32 - 1.

Inductive spi_flash_mmap_memory_t := SPI_FLASH_MMAP_DATA | SPI_FLASH_MMAP_INST.

Record mmap_entry_t := mkEntry { handle : Z; page : Z; count : Z }.

Record mmap_state := mkMmap {
  pro_table : gmap Z Z; app_table : gmap Z Z;      (* DPORT_PRO_FLASH_MMU_TABLE, DPORT_APP_FLASH_MMU_TABLE *)
  refcnt_table : gmap Z Z;                         (* s_mmap_page_refcnt *)
  s_mmap_entries_head : list mmap_entry_t;
  s_mmap_last_handle : Z;
  stale : gset Z;
  allocated : Z
}.
#[export] Instance rebuild_mmap : Rebuild mmap_state :=
  fun s => mkMmap (pro_table s) (app_table s) (refcnt_table s) (s_mmap_entries_head s) (s_mmap_last_handle s) (stale s) (allocated s).

(** [g_rom_flashchip.chip_size], which the ROM sets. *)
Class MmapEnv := { chip_size : Z }.

Section mmap.
Context {menv : MmapEnv}.
Implicit Types (s : mmap_state) (i : Z) (pages : list Z).

Definition pro s i : Z := default INVALID_ENTRY_VAL (pro_table s !! i).
Definition app s i : Z := default INVALID_ENTRY_VAL (app_table s !! i).
Definition s_mmap_page_refcnt s i : Z := default 0 (refcnt_table s !! i).

Definition write_pro i v s : mmap_state := s <| pro_table := <[i := v]> (pro_table s) |> <| stale := {[i]} ∪ stale s |>.
Definition write_app i v s : mmap_state := s <| app_table := <[i := v]> (app_table s) |> <| stale := {[i]} ∪ stale s |>.
Definition set_refcnt i v s : mmap_state := s <| refcnt_table := <[i := u8 v]> (refcnt_table s) |>.
Definition Cache_Flush s : mmap_state := s <| stale := ∅ |>.

(** ** Start-up *)
Definition init_page s i : mmap_state :=
  let entry_pro := pro s i in
  let entry_app := app s i in
  let '(entry_pro, s) :=
    if negb (entry_pro =? entry_app) then (INVALID_ENTRY_VAL, write_pro i INVALID_ENTRY_VAL s) else (entry_pro, s) in
  if (Z.land entry_pro INVALID_ENTRY_VAL =? 0) && ((i =? DROM0_PAGES_START) || (i =? PRO_IRAM0_FIRST_USABLE_PAGE) || negb (entry_pro =? 0))
  then set_refcnt i 1 s
  else write_app i INVALID_ENTRY_VAL (write_pro i INVALID_ENTRY_VAL s).

Definition spi_flash_mmap_init s : mmap_state :=
  if negb (s_mmap_page_refcnt s DROM0_PAGES_START =? 0) then s
  else foldl init_page s (seqZ 0 (REGIONS_COUNT * PAGES_PER_REGION)).

(** The first page, the number of pages and the address of a region. *)
Definition get_mmu_region (memory : spi_flash_mmap_memory_t) : Z * Z * Z :=
  match memory with
  | SPI_FLASH_MMAP_DATA => (DROM0_PAGES_START, DROM0_PAGES_NUM, VADDR0_START_ADDR)
  | SPI_FLASH_MMAP_INST => (PRO_IRAM0_FIRST_USABLE_PAGE, IROM0_PAGES_END - PRO_IRAM0_FIRST_USABLE_PAGE, VADDR1_FIRST_USABLE_ADDR)
  end.

(** ** Mapping *)

(** Whether all pages are inside of the chip; the product is an [int]. *)
Fixpoint pages_inside pages : outcome bool :=
  match pages with
  | [] => Ok true
  | p :: pages =>
      if p <? 0 then Ok false
      else if 2 ^ 31 <=? p * SPI_FLASH_MMU_PAGE_SIZE then Fault
      else if chip_size <=? p * SPI_FLASH_MMU_PAGE_SIZE then Ok false
      else pages_inside pages
  end.

(** Unused entries are wildcards. *)
Fixpoint window_matches (pos : Z) pages s : bool :=
  match pages with
  | [] => true
  | p :: pages => if negb (s_mmap_page_refcnt s pos =? 0) && negb (pro s pos =? PAGE_IN_FLASH p) then false else window_matches (pos + 1) pages s
  end.
(** The search over [n] windows from [start] on. *)
Fixpoint find_window (n : nat) (start : Z) pages s : option Z :=
  match n with
  | O => None
  | S n => if window_matches start pages s then Some start else find_window n (start + 1) pages s
  end.

(** The state and whether an entry was changed. *)
Fixpoint set_window i pages s (need_flush : bool) : outcome (mmap_state * bool) :=
  match pages with
  | [] => Ok (s, need_flush)
  | p :: pages =>
      let entry_pro := pro s i in
      let entry_app := app s i in
      cassert ((s_mmap_page_refcnt s i =? 0) || ((entry_pro =? PAGE_IN_FLASH p) && (entry_app =? PAGE_IN_FLASH p)));;
      let '(s, need_flush) :=
        if s_mmap_page_refcnt s i =? 0 then
          if negb (entry_pro =? PAGE_IN_FLASH p) || negb (entry_app =? PAGE_IN_FLASH p)
          then (write_app i p (write_pro i (PAGE_IN_FLASH p) s), true)
          else (s, need_flush)
        else (s, need_flush) in
      set_window (i + 1) pages (set_refcnt i (s_mmap_page_refcnt s i + 1) s) need_flush
  end.

(** The error, the pointer and the handle; 0 is [NULL].  [internal] is
    [esp_ptr_internal(pages)], [alloc] whether the heap has a block for the entry. *)
Definition spi_flash_mmap_pages (internal alloc : bool) pages (memory : spi_flash_mmap_memory_t) s : outcome (Z * Z * Z * mmap_state) :=
  let page_count := lenZ pages in
  if page_count =? 0 then Ok (ESP_ERR_INVALID_ARG, 0, 0, s)
  else if negb internal then Ok (ESP_ERR_INVALID_ARG, 0, 0, s)
  else
    ok ← pages_inside pages;
    if negb ok then Ok (ESP_ERR_INVALID_ARG, 0, 0, s)
    else if negb alloc then Ok (ESP_ERR_NO_MEM, 0, 0, s)
    else
      let s := s <| allocated := allocated s + 1 |> in
      let s := spi_flash_mmap_init s in
      let '(region_begin, region_size, region_addr) := get_mmu_region memory in
      if region_size <? page_count then Ok (ESP_ERR_NO_MEM, 0, 0, s)
      else
        match find_window (Z.to_nat (region_size - page_count + 1)) region_begin pages s with
        | None => Ok (ESP_ERR_NO_MEM, 0, 0, s <| allocated := allocated s - 1 |>)
        | Some start =>
            '(s, need_flush) ← set_window start pages s false;
            let h := u32 (s_mmap_last_handle s + 1) in
            let s := s <| s_mmap_last_handle := h |> <| s_mmap_entries_head := mkEntry h start page_count :: s_mmap_entries_head s |> in
            let temp_ptr := region_addr + (start - region_begin) * SPI_FLASH_MMU_PAGE_SIZE in
            let s := if (need_flush : bool) then Cache_Flush s else s in
            Ok (ESP_OK, temp_ptr, h, s)
        end.

(** [alloc_pages]: whether the heap has a block for the array of pages. *)
Definition spi_flash_mmap (alloc_pages alloc : bool) (src_addr size : Z) (memory : spi_flash_mmap_memory_t) s : outcome (Z * Z * Z * mmap_state) :=
  if negb (Z.land src_addr 0xffff =? 0) then Ok (ESP_ERR_INVALID_ARG, 0, 0, s)
  else if chip_size <? u32 (src_addr + size) then Ok (ESP_ERR_INVALID_ARG, 0, 0, s)
  else
    let phys_page := src_addr / SPI_FLASH_MMU_PAGE_SIZE in
    let page_count := u32 (size + SPI_FLASH_MMU_PAGE_SIZE - 1) / SPI_FLASH_MMU_PAGE_SIZE in
    if negb alloc_pages then Ok (ESP_ERR_NO_MEM, 0, 0, s)
    else spi_flash_mmap_pages true alloc (seqZ phys_page page_count) memory s.

(** ** Unmapping *)
Definition release_page (o : outcome mmap_state) i : outcome mmap_state :=
  s ← o;
  cassert (0 <? s_mmap_page_refcnt s i);;
  let s := set_refcnt i (s_mmap_page_refcnt s i - 1) s in
  Ok (if s_mmap_page_refcnt s i =? 0 then write_app i INVALID_ENTRY_VAL (write_pro i INVALID_ENTRY_VAL s) else s).

(** The first entry with the handle, and the list without it. *)
Fixpoint take_entry (h : Z) (l : list mmap_entry_t) : option (mmap_entry_t * list mmap_entry_t) :=
  match l with
  | [] => None
  | it :: l =>
      if handle it =? h then Some (it, l)
      else match take_entry h l with Some (e, l) => Some (e, it :: l) | None => None end
  end.

Definition spi_flash_munmap (h : Z) s : outcome mmap_state :=
  match take_entry h (s_mmap_entries_head s) with
  | None => Abort
  | Some (it, l) =>
      s ← foldl release_page (Ok s) (seqZ (page it) (count it));
      Ok (s <| s_mmap_entries_head := l |> <| allocated := allocated s - 1 |>)
  end.

(** ** Inspection *)

(** What is printed: the mappings, and the pages in use with their entries. *)
Definition spi_flash_mmap_dump s : list mmap_entry_t * list (Z * Z * Z) * mmap_state :=
  let s := spi_flash_mmap_init s in
  (s_mmap_entries_head s,
   map (fun i => (i, s_mmap_page_refcnt s i, pro s i)) (filter (fun i => s_mmap_page_refcnt s i <> 0) (seqZ 0 (REGIONS_COUNT * PAGES_PER_REGION))), s).

Definition spi_flash_mmap_get_free_pages (memory : spi_flash_mmap_memory_t) s : Z * mmap_state :=
  let s := spi_flash_mmap_init s in
  let '(region_begin, region_size, _) := get_mmu_region memory in
  (foldl (fun (n : Z) i => if (s_mmap_page_refcnt s i =? 0) && (pro s i =? INVALID_ENTRY_VAL) then n + 1 else n) 0 (seqZ region_begin region_size), s).

(** A pointer is a 32-bit word, compared as [intptr_t]. *)
Definition spi_flash_cache2phys (cached : Z) s : Z :=
  let c := s32 cached in
  if (VADDR1_START_ADDR <=? c) && (c <? VADDR1_FIRST_USABLE_ADDR) then SPI_FLASH_CACHE2PHYS_FAIL
  else
    let cache_page :=
      if c <? VADDR1_FIRST_USABLE_ADDR
      then u32 (Z.quot (c - VADDR0_START_ADDR) SPI_FLASH_MMU_PAGE_SIZE + DROM0_PAGES_START)
      else u32 (Z.quot (c - VADDR1_START_ADDR) SPI_FLASH_MMU_PAGE_SIZE + IROM0_PAGES_START) in
    if PAGES_LIMIT <=? cache_page then SPI_FLASH_CACHE2PHYS_FAIL
    else
      let phys_page := pro s cache_page in
      if phys_page =? INVALID_ENTRY_VAL then SPI_FLASH_CACHE2PHYS_FAIL
      else
        let phys_offs := u32 (Z.land phys_page MMU_ADDR_MASK * SPI_FLASH_MMU_PAGE_SIZE) in
        Z.lor phys_offs (Z.land c (SPI_FLASH_MMU_PAGE_SIZE - 1)).

Definition spi_flash_phys2cache (phys_offs : Z) (memory : spi_flash_mmap_memory_t) s : Z :=
  let phys_page := phys_offs / SPI_FLASH_MMU_PAGE_SIZE in
  let '(start, end_, base, page_delta) :=
    match memory with
    | SPI_FLASH_MMAP_DATA =>
        (DROM0_PAGES_START, DROM0_PAGES_END, VADDR0_START_ADDR, if IROM0_PAGES_START <? DROM0_PAGES_START then DROM0_PAGES_START else 0)
    | SPI_FLASH_MMAP_INST =>
        (PRO_IRAM0_FIRST_USABLE_PAGE, IROM0_PAGES_END, VADDR1_START_ADDR, if IROM0_PAGES_START <? DROM0_PAGES_START then 0 else IROM0_PAGES_START)
    end in
  match find (fun i => pro s i =? PAGE_IN_FLASH phys_page) (seqZ start (end_ - start)) with
  | Some i => Z.lor (base + SPI_FLASH_MMU_PAGE_SIZE * (i - page_delta)) (Z.land phys_offs (SPI_FLASH_MMU_PAGE_SIZE - 1))
  | None => 0
  end.

Definition is_page_mapped_in_cache (phys_page : Z) s : bool :=
  existsb (fun i => pro s i =? PAGE_IN_FLASH phys_page)
    (seqZ DROM0_PAGES_START (DROM0_PAGES_END - DROM0_PAGES_START) ++ seqZ PRO_IRAM0_FIRST_USABLE_PAGE (IROM0_PAGES_END - PRO_IRAM0_FIRST_USABLE_PAGE)).

(** The loop over the pages up to [limit]. *)
Fixpoint check_pages (fuel : nat) (addr limit : Z) s : outcome (bool * mmap_state) :=
  if addr <? limit then
    match fuel with
    | O => OutOfFuel
    | S fuel =>
        let page := addr / SPI_FLASH_MMU_PAGE_SIZE in
        if 256 <=? page then Ok (false, s)
        else if is_page_mapped_in_cache page s then Ok (true, Cache_Flush s)
        else check_pages fuel (u32 (addr + SPI_FLASH_MMU_PAGE_SIZE)) limit s
    end
  else Ok (false, s).
Definition spi_flash_check_and_flush_cache (start_addr length : Z) s : outcome (bool * mmap_state) :=
  let page_start_addr := Z.ldiff start_addr (SPI_FLASH_MMU_PAGE_SIZE - 1) in
  let length := u32 (length + (start_addr - page_start_addr)) in
  let length := Z.ldiff (u32 (length + SPI_FLASH_MMU_PAGE_SIZE - 1)) (SPI_FLASH_MMU_PAGE_SIZE - 1) in
  check_pages 257 page_start_addr (u32 (page_start_addr + length)) s.
End mmap.
