(* ===== verification/FlashMmapProofs.v ===== *)
(** * Flash mapping: windows of entries

    What placing, releasing and initialising do to the tables and the counts. *)
From S2P Require Import Prelude Mem EspFlash FlashMmap.

Section windows.
Context {menv : MmapEnv}.
Implicit Types (s : mmap_state) (i : Z) (pages : list Z).

(** The page a window asks for at entry [i]. *)
Definition window_page (start : Z) pages i : option Z := if i <? start then None else pages !! Z.to_nat (i - start).

Lemma window_page_in start pages i : is_Some (window_page start pages i) <-> start <= i < start + lenZ pages.
Proof.
  unfold window_page, lenZ. destruct (Z.ltb_spec i start); [split; [by intros []|lia]|]. rewrite lookup_lt_is_Some. lia.
Qed.

Lemma window_page_cons start p pages i : window_page start (p :: pages) i = if i =? start then Some p else window_page (start + 1) pages i.
Proof.
  unfold window_page. destruct (Z.eqb_spec i start) as [->|].
  - rewrite Z.ltb_irrefl. by replace (Z.to_nat (start - start)) with 0%nat by lia.
  - destruct (Z.ltb_spec i start), (Z.ltb_spec i (start + 1)); [done|lia|lia|].
    by replace (Z.to_nat (i - start)) with (S (Z.to_nat (i - (start + 1)))) by lia.
Qed.

Lemma window_page_elem start pages i p : window_page start pages i = Some p -> p ∈ pages.
Proof. unfold window_page. destruct (i <? start); [done|]. apply list_elem_of_lookup_2. Qed.

(** The parts of the state a call leaves. *)
Record same_list s s' : Prop := {
  sl_entries : s_mmap_entries_head s' = s_mmap_entries_head s;
  sl_last : s_mmap_last_handle s' = s_mmap_last_handle s;
  sl_alloc : allocated s' = allocated s
}.
Lemma same_list_refl s : same_list s s.
Proof. done. Qed.
Lemma same_list_trans s1 s2 s3 : same_list s1 s2 -> same_list s2 s3 -> same_list s1 s3.
Proof. intros [A B C] [D E F]. split; congruence. Qed.

Lemma pro_write_pro i v s j : pro (write_pro i v s) j = if j =? i then v else pro s j.
Proof. unfold pro, write_pro. cbn. rewrite lookup_insert. case_decide; destruct (Z.eqb_spec j i); congruence || done. Qed.
Lemma pro_write_app i v s j : pro (write_app i v s) j = pro s j.
Proof. done. Qed.
Lemma app_write_app i v s j : app (write_app i v s) j = if j =? i then v else app s j.
Proof. unfold app, write_app. cbn. rewrite lookup_insert. case_decide; destruct (Z.eqb_spec j i); congruence || done. Qed.
Lemma app_write_pro i v s j : app (write_pro i v s) j = app s j.
Proof. done. Qed.
Lemma refcnt_set i v s j : s_mmap_page_refcnt (set_refcnt i v s) j = if j =? i then u8 v else s_mmap_page_refcnt s j.
Proof. unfold s_mmap_page_refcnt, set_refcnt. cbn. rewrite lookup_insert. case_decide; destruct (Z.eqb_spec j i); congruence || done. Qed.

Lemma window_matches_spec pages : forall pos s, window_matches pos pages s = true <->
  forall i p, window_page pos pages i = Some p -> s_mmap_page_refcnt s i = 0 \/ pro s i = p.
Proof.
  induction pages as [|q pages IH]; intros pos s; cbn [window_matches].
  { split; [|done]. intros _ i p H. unfold window_page in H. by destruct (i <? pos). }
  unfold PAGE_IN_FLASH. split.
  - intros H i p Hp. rewrite window_page_cons in Hp. destruct (Z.eqb_spec i pos) as [->|].
    + injection Hp as <-. destruct (Z.eqb_spec (s_mmap_page_refcnt s pos) 0), (Z.eqb_spec (pro s pos) q); auto; done.
    + destruct (negb _ && negb _); [done|]. by apply (proj1 (IH _ _) H).
  - intros H. pose proof (H pos q) as H0. rewrite window_page_cons, Z.eqb_refl in H0.
    destruct (Z.eqb_spec (s_mmap_page_refcnt s pos) 0), (Z.eqb_spec (pro s pos) q); cbn [negb andb]; try (destruct (H0 eq_refl); congruence); apply IH; intros i p Hp; apply H;
      rewrite window_page_cons; (destruct (Z.eqb_spec i pos) as [->|]; [|done]);
      exfalso; assert (Hi : pos + 1 <= pos < pos + 1 + lenZ pages) by (apply window_page_in; by eexists); lia.
Qed.

(** ** Placing a window *)
Record placed start pages s s' : Prop := {
  pl_list : same_list s s';
  pl_refcnt : forall i, s_mmap_page_refcnt s' i = s_mmap_page_refcnt s i + match window_page start pages i with Some _ => 1 | None => 0 end;
  pl_pro : forall i, pro s' i = default (pro s i) (window_page start pages i);
  pl_app : forall i, app s' i = default (app s i) (window_page start pages i)
}.

(** What the entries of a window are before it is placed. *)
Definition window_ready start pages s : Prop := forall i p, window_page start pages i = Some p ->
  0 <= s_mmap_page_refcnt s i < 255 /\ p <> INVALID_ENTRY_VAL /\
  (s_mmap_page_refcnt s i = 0 -> pro s i = INVALID_ENTRY_VAL) /\ (s_mmap_page_refcnt s i <> 0 -> pro s i = p /\ app s i = p).

Lemma set_window_run pages : forall start s b, window_ready start pages s ->
  exists s' b', set_window start pages s b = Ok (s', b') /\ placed start pages s s' /\
    (b' = false -> stale s' = stale s /\ b = false /\ forall i, start <= i < start + lenZ pages -> s_mmap_page_refcnt s i <> 0).
Proof.
  induction pages as [|p pages IH]; intros start s b R; cbn [set_window].
  { exists s, b. split; [done|]. split; [|intros; split; [done|]; split; [done|]; unfold lenZ; cbn; lia].
    assert (N : forall i, window_page start [] i = None) by (intros i; unfold window_page; by destruct (i <? start)).
    split; [done|..]; intros i; rewrite N; cbn; [lia|done..]. }
  destruct (R start p) as (Hr & Hp & H0 & H1); [by rewrite window_page_cons, Z.eqb_refl|]. unfold PAGE_IN_FLASH.
  rewrite cassert_bind by (destruct (Z.eqb_spec (s_mmap_page_refcnt s start) 0) as [|Hn]; [done|]; destruct (H1 Hn) as [-> ->]; by rewrite Z.eqb_refl).
  set (s1 := if s_mmap_page_refcnt s start =? 0 then write_app start p (write_pro start p s) else s).
  set (b1 := if s_mmap_page_refcnt s start =? 0 then true else b).
  assert (E : (if s_mmap_page_refcnt s start =? 0 then if negb (pro s start =? p) || negb (app s start =? p) then (write_app start p (write_pro start p s), true) else (s, b) else (s, b)) = (s1, b1)).
  { unfold s1, b1. destruct (Z.eqb_spec (s_mmap_page_refcnt s start) 0) as [Hz|]; [|done]. rewrite (H0 Hz). apply not_eq_sym, Z.eqb_neq in Hp. by rewrite Hp. }
  rewrite E. set (s2 := set_refcnt start (s_mmap_page_refcnt s1 start + 1) s1).
  assert (C1 : forall i, s_mmap_page_refcnt s1 i = s_mmap_page_refcnt s i) by (intros i; unfold s1; by case_match).
  assert (P1 : forall i, pro s1 i = if i =? start then p else pro s i).
  { intros i. unfold s1. destruct (Z.eqb_spec (s_mmap_page_refcnt s start) 0) as [|Hn]; [by rewrite pro_write_app, pro_write_pro|].
    destruct (Z.eqb_spec i start) as [->|]; [apply (H1 Hn)|done]. }
  assert (A1 : forall i, app s1 i = if i =? start then p else app s i).
  { intros i. unfold s1. destruct (Z.eqb_spec (s_mmap_page_refcnt s start) 0) as [|Hn]; [by rewrite app_write_app, app_write_pro|].
    destruct (Z.eqb_spec i start) as [->|]; [apply (H1 Hn)|done]. }
  assert (C2 : forall i, s_mmap_page_refcnt s2 i = s_mmap_page_refcnt s i + if i =? start then 1 else 0).
  { intros i. unfold s2. rewrite refcnt_set, !C1. destruct (Z.eqb_spec i start) as [->|]; [|lia]. unfold u8. rewrite Z.mod_small; lia. }
  assert (L2 : same_list s s2) by (unfold s2, s1; case_match; done).
  assert (Out : window_page (start + 1) pages start = None) by (apply eq_None_not_Some; rewrite window_page_in; lia).
  destruct (IH (start + 1) s2 b1) as (s' & b' & Eq & [L' C' P' A'] & F').
  { intros i q Hq. assert (Hi : i <> start) by (intros ->; congruence). destruct (R i q) as (R1 & R2 & R3 & R4); [rewrite window_page_cons; by destruct (Z.eqb_spec i start)|].
    rewrite C2. change (pro s2 i) with (pro s1 i). change (app s2 i) with (app s1 i). rewrite P1, A1. destruct (Z.eqb_spec i start); [done|]. rewrite Z.add_0_r. done. }
  exists s', b'. split; [exact Eq|]. split.
  - split; [by eapply same_list_trans| | |]; intros i; rewrite ?C', ?P', ?A', ?C2; rewrite window_page_cons.
    + destruct (Z.eqb_spec i start) as [->|]; [rewrite Out; lia|lia].
    + change (pro s2 i) with (pro s1 i). rewrite P1. destruct (Z.eqb_spec i start) as [->|]; [by rewrite Out|done].
    + change (app s2 i) with (app s1 i). rewrite A1. destruct (Z.eqb_spec i start) as [->|]; [by rewrite Out|done].
  - intros Hb. destruct (F' Hb) as (F1 & F2 & F3). unfold b1, s1 in *. destruct (Z.eqb_spec (s_mmap_page_refcnt s start) 0) as [|Hn]; [done|].
    split; [done|]. split; [done|]. intros i Hi. rewrite lenZ_cons in Hi. destruct (decide (i = start)) as [->|]; [done|]. specialize (F3 i ltac:(lia)). rewrite C2 in F3.
    destruct (Z.eqb_spec i start); [done|lia].
Qed.

(** ** Releasing a window *)
Record released start n s s' : Prop := {
  rl_list : same_list s s';
  rl_refcnt : forall i, s_mmap_page_refcnt s' i = s_mmap_page_refcnt s i - (if (start <=? i) && (i <? start + n) then 1 else 0);
  rl_pro : forall i, pro s' i = if (start <=? i) && (i <? start + n) && (s_mmap_page_refcnt s i =? 1) then INVALID_ENTRY_VAL else pro s i;
  rl_app : forall i, app s' i = if (start <=? i) && (i <? start + n) && (s_mmap_page_refcnt s i =? 1) then INVALID_ENTRY_VAL else app s i;
  rl_stale : forall i, i ∈ stale s' -> i ∈ stale s \/ start <= i < start + n /\ s_mmap_page_refcnt s i = 1
}.

Lemma release_page_run i s : 0 < s_mmap_page_refcnt s i < 256 -> exists s', release_page (Ok s) i = Ok s' /\ released i 1 s s'.
Proof.
  intros Hr. unfold release_page. ostep. rewrite cassert_bind by (apply Z.ltb_lt; lia). rewrite refcnt_set, Z.eqb_refl. unfold u8. rewrite Z.mod_small by lia.
  set (s1 := set_refcnt i (s_mmap_page_refcnt s i - 1) s). eexists. split; [done|].
  assert (C1 : forall j, s_mmap_page_refcnt s1 j = s_mmap_page_refcnt s j - if (i <=? j) && (j <? i + 1) then 1 else 0).
  { intros j. unfold s1. rewrite refcnt_set. unfold u8. destruct (Z.eqb_spec j i) as [->|]; [rewrite Z.mod_small by lia|]; case_cmp; cbn; lia. }
  assert (B : forall j, (i <=? j) && (j <? i + 1) && (s_mmap_page_refcnt s j =? 1) = (j =? i) && (s_mmap_page_refcnt s i - 1 =? 0)).
  { intros j. destruct (Z.eqb_spec j i) as [->|]; case_cmp; cbn; try done; lia. }
  destruct (Z.eqb_spec (s_mmap_page_refcnt s i - 1) 0) as [Hz|Hz].
  - split; [done|exact C1|..]; intros j; [rewrite B, pro_write_app, pro_write_pro; by rewrite andb_true_r|rewrite B, app_write_app, app_write_pro; by rewrite andb_true_r|].
    cbn. rewrite !elem_of_union, !elem_of_singleton. intros [-> |[-> |H]]; [right; lia..|by left].
  - split; [done|exact C1|..]; intros j; [rewrite B; by rewrite andb_false_r..|]. by left.
Qed.

Lemma release_run n : forall start s, (forall i, start <= i < start + Z.of_nat n -> 0 < s_mmap_page_refcnt s i < 256) ->
  exists s', foldl release_page (Ok s) (seqZ start (Z.of_nat n)) = Ok s' /\ released start (Z.of_nat n) s s'.
Proof.
  induction n as [|n IH]; intros start s H.
  { exists s. split; [done|]. assert (N : forall i, (start <=? i) && (i <? start + Z.of_nat 0) = false) by (intros i; case_cmp; cbn; done || lia).
    split; [done|..]; intros i; rewrite ?N; cbn; [lia|done|done|by left]. }
  rewrite seqZ_cons by lia. cbn [foldl]. destruct (release_page_run start s) as (s1 & E1 & [L1 C1 P1 A1 S1]); [apply H; lia|]. rewrite E1.
  replace (Z.pred (Z.of_nat (S n))) with (Z.of_nat n) by lia. replace (Z.succ start) with (start + 1) by lia.
  assert (Cr : forall i, start + 1 <= i < start + 1 + Z.of_nat n -> s_mmap_page_refcnt s1 i = s_mmap_page_refcnt s i).
  { intros i Hi. rewrite C1. case_cmp; cbn; lia. }
  destruct (IH (start + 1) s1) as (s2 & E2 & [L2 C2 P2 A2 S2]); [intros i Hi; rewrite Cr by lia; apply H; lia|]. exists s2. split; [exact E2|].
  split; [by eapply same_list_trans| | | |].
  - intros i. rewrite C2, C1. case_cmp; cbn; lia.
  - intros i. rewrite P2, P1, C1. case_cmp; cbn; case_cmp; cbn; try done; lia.
  - intros i. rewrite A2, A1, C1. case_cmp; cbn; case_cmp; cbn; try done; lia.
  - intros i Hi. destruct (S2 i Hi) as [Hi'|[Hw Hc]]; [destruct (S1 i Hi') as [|[Hw' Hc']]; [by left|right; split; [lia|done]]|].
    right. rewrite Cr in Hc by lia. split; [lia|done].
Qed.

(** ** Start-up *)

(** The entries the program runs from. *)
Definition boot_page s i : option Z :=
  if (pro s i =? app s i) && (Z.land (pro s i) INVALID_ENTRY_VAL =? 0) && ((i =? DROM0_PAGES_START) || (i =? PRO_IRAM0_FIRST_USABLE_PAGE) || negb (pro s i =? 0))
  then Some (pro s i) else None.

Record initialised (lo n : Z) s s' : Prop := {
  in_list : same_list s s';
  in_refcnt : forall i, s_mmap_page_refcnt s' i =
    if (lo <=? i) && (i <? lo + n) then match boot_page s i with Some _ => 1 | None => s_mmap_page_refcnt s i end else s_mmap_page_refcnt s i;
  in_pro : forall i, pro s' i = if (lo <=? i) && (i <? lo + n) then default INVALID_ENTRY_VAL (boot_page s i) else pro s i;
  in_app : forall i, app s' i = if (lo <=? i) && (i <? lo + n) then default INVALID_ENTRY_VAL (boot_page s i) else app s i;
  in_stale : forall i, i ∈ stale s' -> i ∈ stale s \/ lo <= i < lo + n /\ boot_page s i = None
}.

Lemma init_page_cases i s :
  match boot_page s i with
  | Some p => p = pro s i /\ p = app s i /\ init_page s i = set_refcnt i 1 s
  | None => exists s1, (s1 = s \/ s1 = write_pro i INVALID_ENTRY_VAL s) /\ init_page s i = write_app i INVALID_ENTRY_VAL (write_pro i INVALID_ENTRY_VAL s1)
  end.
Proof.
  unfold init_page, boot_page. destruct (Z.eqb_spec (pro s i) (app s i)) as [E|E]; cbn [negb andb].
  - destruct ((Z.land (pro s i) INVALID_ENTRY_VAL =? 0) && _); [done|]. exists s. by split; [left|].
  - exists (write_pro i INVALID_ENTRY_VAL s). by split; [right|].
Qed.

Lemma init_page_run i s : initialised i 1 s (init_page s i).
Proof.
  assert (In : forall j, (i <=? j) && (j <? i + 1) = (j =? i)) by (intros j; case_cmp; cbn; done || lia).
  pose proof (init_page_cases i s) as C. destruct (boot_page s i) as [p|] eqn:Eb.
  - destruct C as (Hp & Ha & ->). split; [done|..]; intros j; rewrite ?In; [rewrite refcnt_set|..|by left]; (destruct (Z.eqb_spec j i) as [->|]; [by rewrite Eb|done]).
  - destruct C as (s1 & Hs1 & ->). assert (P1 : forall j, j <> i -> pro s1 j = pro s j) by (intros j Hj; destruct Hs1 as [-> | ->]; [done|]; rewrite pro_write_pro; by destruct (Z.eqb_spec j i)).
    split; [by destruct Hs1 as [-> | ->]|..]; intros j; rewrite ?In.
    + destruct (Z.eqb_spec j i) as [->|]; [rewrite Eb|]; by destruct Hs1 as [-> | ->].
    + rewrite pro_write_app, pro_write_pro. destruct (Z.eqb_spec j i) as [->|]; [by rewrite Eb|by apply P1].
    + rewrite app_write_app, app_write_pro. destruct (Z.eqb_spec j i) as [->|]; [by rewrite Eb|]. by destruct Hs1 as [-> | ->].
    + destruct (decide (j = i)) as [->|Hj]; [intros _; right; split; [lia|done]|]. left. destruct Hs1 as [-> | ->]; set_solver.
Qed.

Lemma boot_page_ext s s' i : pro s' i = pro s i -> app s' i = app s i -> boot_page s' i = boot_page s i.
Proof. intros P A. unfold boot_page. by rewrite P, A. Qed.

Lemma init_run n : forall lo s, initialised lo (Z.of_nat n) s (foldl init_page s (seqZ lo (Z.of_nat n))).
Proof.
  induction n as [|n IH]; intros lo s.
  { assert (N : forall i, (lo <=? i) && (i <? lo + Z.of_nat 0) = false) by (intros i; case_cmp; cbn; done || lia).
    split; [done|..]; intros i; rewrite ?N; [done..|by left]. }
  rewrite seqZ_cons by lia. cbn [foldl]. pose proof (init_page_run lo s) as [L1 C1 P1 A1 S1].
  replace (Z.pred (Z.of_nat (S n))) with (Z.of_nat n) by lia. replace (Z.succ lo) with (lo + 1) by lia.
  assert (B : forall i, lo + 1 <= i -> boot_page (init_page s lo) i = boot_page s i).
  { intros i Hi. apply boot_page_ext; [rewrite P1|rewrite A1]; (destruct (Z.ltb_spec i (lo + 1)); [lia|by rewrite andb_false_r]). }
  destruct (IH (lo + 1) (init_page s lo)) as [L2 C2 P2 A2 S2].
  assert (In : forall i, (lo <=? i) && (i <? lo + Z.of_nat (S n)) = (lo =? i) || (lo + 1 <=? i) && (i <? lo + 1 + Z.of_nat n)) by (intros i; case_cmp; cbn; done || lia).
  assert (In1 : forall i, (lo <=? i) && (i <? lo + 1) = (lo =? i)) by (intros i; case_cmp; cbn; done || lia).
  split; [by eapply same_list_trans|..]; intros i; rewrite ?In.
  - rewrite C2, C1, In1. destruct (Z.eqb_spec lo i) as [->|]; cbn [orb]; [destruct (Z.leb_spec (i + 1) i); [lia|done]|].
    destruct (Z.leb_spec (lo + 1) i); cbn [andb]; [by rewrite B by lia|done].
  - rewrite P2, P1, In1. destruct (Z.eqb_spec lo i) as [->|]; cbn [orb]; [destruct (Z.leb_spec (i + 1) i); [lia|done]|].
    destruct (Z.leb_spec (lo + 1) i); cbn [andb]; [by rewrite B by lia|done].
  - rewrite A2, A1, In1. destruct (Z.eqb_spec lo i) as [->|]; cbn [orb]; [destruct (Z.leb_spec (i + 1) i); [lia|done]|].
    destruct (Z.leb_spec (lo + 1) i); cbn [andb]; [by rewrite B by lia|done].
  - intros Hi. destruct (S2 i Hi) as [Hi'|[Hw Hb]]; [destruct (S1 i Hi') as [|[Hw' Hb']]; [by left|right; split; [lia|done]]|]. right. rewrite B in Hb by lia. split; [lia|done].
Qed.
End windows.
