(* ===== verification/FlashMmapClient.v ===== *)
(** * Flash mapping: what its clients see

    The specification is a list of mappings and the entries the program runs from;
    a history of calls is answered as it prescribes, and every mapping is readable
    for as long as it is held. *)
From S2P Require Import Prelude Mem EspFlash FlashMmap FlashMmapProofs.

(** ** The specification *)
Record mapping := mkMapping { m_handle : Z; m_ptr : Z; m_pages : list Z }.
Record mmap_spec := mkSpec { boot : Z -> option Z; live : list mapping; last : Z; leaked : Z }.

Inductive mmap_call :=
  | Mmap (alloc_pages alloc : bool) (src_addr size : Z) (memory : spi_flash_mmap_memory_t)
  | MmapPages (internal alloc : bool) (pages : list Z) (memory : spi_flash_mmap_memory_t)
  | Munmap (h : Z)
  | GetFreePages (memory : spi_flash_mmap_memory_t).
Inductive mmap_answer := Mapped (err ptr h : Z) | Unmapped | FreePages (n : Z).

Section spec.
Context {menv : MmapEnv}.
Implicit Types (sp : mmap_spec) (m : mapping) (i : Z) (pages : list Z).

(** The first entry of the window at [ptr]. *)
Definition m_start m : Z :=
  if m_ptr m <? VADDR1_FIRST_USABLE_ADDR then (m_ptr m - VADDR0_START_ADDR) / SPI_FLASH_MMU_PAGE_SIZE
  else (m_ptr m - VADDR1_START_ADDR) / SPI_FLASH_MMU_PAGE_SIZE + IROM0_PAGES_START.
Definition m_page m i : option Z := window_page (m_start m) (m_pages m) i.

(** The page an entry is used for, and by how many. *)
Definition used sp i : option Z := match boot sp i with Some p => Some p | None => head (omap (fun m => m_page m i) (live sp)) end.
Definition users sp i : Z := (match boot sp i with Some _ => 1 | None => 0 end) + lenZ (omap (fun m => m_page m i) (live sp)).

(** A window can share its entries with mappings of the same pages only. *)
Definition fits sp (start : Z) pages : bool :=
  forallb (fun '(k, p) => match used sp (start + Z.of_nat k) with Some q => q =? p | None => true end) (imap pair pages).
Definition page_exists (p : Z) : bool := (0 <=? p) && (p * SPI_FLASH_MMU_PAGE_SIZE <? chip_size).

(** The answer, and the new state.  [None] is a request outside of the contract: a page
    number whose address is not an [int], an entry with 255 users, or after 2^32
    handles. *)
Definition spec_mmap_pages (internal alloc : bool) pages (memory : spi_flash_mmap_memory_t) sp : option (mmap_answer * mmap_spec) :=
  if negb (forallb (fun p => p <? 2 ^ 15) pages) then None
  else if (lenZ pages =? 0) || negb internal || negb (forallb page_exists pages) then Some (Mapped ESP_ERR_INVALID_ARG 0 0, sp)
  else if negb alloc then Some (Mapped ESP_ERR_NO_MEM 0 0, sp)
  else
    let '(region_begin, region_size, region_addr) := get_mmu_region memory in
    if region_size <? lenZ pages then Some (Mapped ESP_ERR_NO_MEM 0 0, mkSpec (boot sp) (live sp) (last sp) (leaked sp + 1))
    else
      match find (fun start => fits sp start pages) (seqZ region_begin (region_size - lenZ pages + 1)) with
      | None => Some (Mapped ESP_ERR_NO_MEM 0 0, sp)
      | Some start =>
          if forallb (fun i => users sp i <? 255) (seqZ start (lenZ pages)) && (last sp + 1 <? 2 ^ 32) then
            let ptr := region_addr + (start - region_begin) * SPI_FLASH_MMU_PAGE_SIZE in
            Some (Mapped ESP_OK ptr (last sp + 1), mkSpec (boot sp) (mkMapping (last sp + 1) ptr pages :: live sp) (last sp + 1) (leaked sp))
          else None
      end.

(** [None] also for a range that wraps around the address space. *)
Definition spec_mmap (alloc_pages alloc : bool) (src_addr size : Z) (memory : spi_flash_mmap_memory_t) sp : option (mmap_answer * mmap_spec) :=
  if negb ((0 <=? src_addr) && (0 <=? size) && (src_addr + size <? 2 ^ 32)) then None
  else if negb (src_addr mod SPI_FLASH_MMU_PAGE_SIZE =? 0) || (chip_size <? src_addr + size) then Some (Mapped ESP_ERR_INVALID_ARG 0 0, sp)
  else if negb alloc_pages then Some (Mapped ESP_ERR_NO_MEM 0 0, sp)
  else
    let page_count := (size + SPI_FLASH_MMU_PAGE_SIZE - 1) / SPI_FLASH_MMU_PAGE_SIZE in
    spec_mmap_pages true alloc (seqZ (src_addr / SPI_FLASH_MMU_PAGE_SIZE) page_count) memory sp.

Fixpoint remove_mapping (h : Z) (l : list mapping) : option (list mapping) :=
  match l with
  | [] => None
  | m :: l => if m_handle m =? h then Some l else l ← remove_mapping h l; Some (m :: l)
  end.

Definition spec_step (c : mmap_call) sp : option (mmap_answer * mmap_spec) :=
  match c with
  | Mmap alloc_pages alloc src_addr size memory => spec_mmap alloc_pages alloc src_addr size memory sp
  | MmapPages internal alloc pages memory => spec_mmap_pages internal alloc pages memory sp
  | Munmap h => l ← remove_mapping h (live sp); Some (Unmapped, mkSpec (boot sp) l (last sp) (leaked sp))
  | GetFreePages memory =>
      let '(region_begin, region_size, _) := get_mmu_region memory in
      Some (FreePages (lenZ (filter (fun i => users sp i = 0) (seqZ region_begin region_size))), sp)
  end.

Fixpoint spec_run (cs : list mmap_call) sp : option (list mmap_answer * mmap_spec) :=
  match cs with
  | [] => Some ([], sp)
  | c :: cs => '(a, sp) ← spec_step c sp; '(l, sp) ← spec_run cs sp; Some (a :: l, sp)
  end.

(** ** The code *)
Definition run_step (c : mmap_call) (s : mmap_state) : outcome (mmap_answer * mmap_state) :=
  match c with
  | Mmap alloc_pages alloc src_addr size memory => '(err, ptr, h, s) ← spi_flash_mmap alloc_pages alloc src_addr size memory s; Ok (Mapped err ptr h, s)
  | MmapPages internal alloc pages memory => '(err, ptr, h, s) ← spi_flash_mmap_pages internal alloc pages memory s; Ok (Mapped err ptr h, s)
  | Munmap h => s ← spi_flash_munmap h s; Ok (Unmapped, s)
  | GetFreePages memory => let '(n, s) := spi_flash_mmap_get_free_pages memory s in Ok (FreePages n, s)
  end.

Fixpoint run_steps (cs : list mmap_call) (s : mmap_state) : outcome (list mmap_answer * mmap_state) :=
  match cs with
  | [] => Ok ([], s)
  | c :: cs => '(a, s) ← run_step c s; '(l, s) ← run_steps cs s; Ok (a :: l, s)
  end.

(** ** The invariant *)
Definition placed_at m (memory : spi_flash_mmap_memory_t) (start : Z) : Prop :=
  let '(region_begin, region_size, region_addr) := get_mmu_region memory in
  region_begin <= start /\ start + lenZ (m_pages m) <= region_begin + region_size /\ 0 < lenZ (m_pages m) /\
  m_ptr m = region_addr + (start - region_begin) * SPI_FLASH_MMU_PAGE_SIZE.

Record mmap_inv sp (s : mmap_state) : Prop := {
  mi_first : is_Some (boot sp 0);
  mi_entries : s_mmap_entries_head s = map (fun m => mkEntry (m_handle m) (m_start m) (lenZ (m_pages m))) (live sp);
  mi_last : s_mmap_last_handle s = last sp /\ 0 <= last sp < 2 ^ 32;
  mi_alloc : allocated s = lenZ (live sp) + leaked sp;
  mi_handles : NoDup (map m_handle (live sp)) /\ Forall (fun m => 1 <= m_handle m <= last sp) (live sp);
  mi_windows : Forall (fun m => (exists memory start, placed_at m memory start) /\ Forall (fun p => 0 <= p < 256) (m_pages m)) (live sp);
  mi_refcnt : forall i, 0 <= i < 256 -> s_mmap_page_refcnt s i = users sp i /\ users sp i < 256;
  mi_pages : forall i p, 0 <= i < 256 -> boot sp i = Some p \/ Exists (fun m => m_page m i = Some p) (live sp) -> pro s i = p /\ app s i = p;
  mi_unused : forall i, 0 <= i < 256 -> users sp i = 0 -> pro s i = INVALID_ENTRY_VAL /\ app s i = INVALID_ENTRY_VAL;
  mi_stale : forall i, 0 <= i < 256 -> i ∈ stale s -> users sp i = 0
}.

(** ** Facts of the specification *)
Lemma start_placed m memory start : placed_at m memory start -> m_start m = start /\ 0 <= start /\ start + lenZ (m_pages m) <= 256.
Proof.
  unfold placed_at, m_start. destruct memory; cbn [get_mmu_region];
    unfold DROM0_PAGES_START, DROM0_PAGES_NUM, DROM0_PAGES_END, IROM0_PAGES_END, PRO_IRAM0_FIRST_USABLE_PAGE, DROM0_PAGES_START, VADDR0_START_ADDR, VADDR1_START_ADDR, VADDR1_FIRST_USABLE_ADDR,
      SPI_FLASH_MMU_PAGE_SIZE, IROM0_PAGES_START; intros (H1 & H2 & H3 & ->); case_cmp; split; try lia; Z.to_euclidean_division_equations; lia.
Qed.

Lemma used_users sp i : used sp i = None <-> users sp i = 0.
Proof.
  unfold used, users. destruct (boot sp i); [split; [done|pose proof (lenZ_nonneg (omap (fun m => m_page m i) (live sp))); lia]|].
  destruct (omap _ _) as [|q l]; [done|]. rewrite lenZ_cons. pose proof (lenZ_nonneg l). cbn. split; [done|lia].
Qed.

Lemma users_nonneg sp i : 0 <= users sp i.
Proof. unfold users. pose proof (lenZ_nonneg (omap (fun m => m_page m i) (live sp))). case_match; lia. Qed.

(** What is used is used by the program or a mapping. *)
Lemma used_by sp i p : used sp i = Some p -> boot sp i = Some p \/ Exists (fun m => m_page m i = Some p) (live sp).
Proof.
  unfold used. destruct (boot sp i); [by left|]. intros H. right. destruct (omap _ _) as [|q l] eqn:E; [done|]. injection H as ->.
  assert (In : p ∈ omap (fun m => m_page m i) (live sp)) by (rewrite E; set_solver). apply list_elem_of_omap in In as (m & Hm & Hp).
  apply Exists_exists. by exists m.
Qed.

Lemma user_counts sp i p : boot sp i = Some p \/ Exists (fun m => m_page m i = Some p) (live sp) -> 0 < users sp i.
Proof.
  unfold users. pose proof (lenZ_nonneg (omap (fun m => m_page m i) (live sp))) as Hn. intros [-> |H]; [lia|].
  apply Exists_exists in H as (m & Hm & Hp). assert (In : p ∈ omap (fun m => m_page m i) (live sp)) by (apply list_elem_of_omap; by exists m).
  destruct (omap _ _) as [|q l]; [set_solver|]. rewrite lenZ_cons in *. case_match; pose proof (lenZ_nonneg l); lia.
Qed.

Lemma fits_spec sp start pages : fits sp start pages = true <-> forall i p, window_page start pages i = Some p -> used sp i = None \/ used sp i = Some p.
Proof.
  unfold fits. rewrite forallb_forall. split.
  - intros H i p Hp. unfold window_page in Hp. destruct (Z.ltb_spec i start); [done|]. specialize (H (Z.to_nat (i - start), p)).
    cbn in H. replace (start + Z.of_nat (Z.to_nat (i - start))) with i in H by lia. destruct (used sp i) as [q|]; [|by left]. right. f_equal. apply Z.eqb_eq, H.
    apply list_elem_of_In, elem_of_lookup_imap. by exists (Z.to_nat (i - start)), p.
  - intros H [k p] (k' & p' & [= -> ->] & Hp)%list_elem_of_In%elem_of_lookup_imap. specialize (H (start + Z.of_nat k') p').
    unfold window_page in H. destruct (Z.ltb_spec (start + Z.of_nat k') start); [lia|]. replace (Z.to_nat (start + Z.of_nat k' - start)) with k' in H by lia.
    destruct (H Hp) as [-> | ->]; [done|]. apply Z.eqb_refl.
Qed.
End spec.
