(* ===== verification/FlashMmapHistory.v ===== *)
(** * Flash mapping: histories of calls *)
From S2P Require Import Prelude Mem EspFlash FlashMmap FlashMmapProofs FlashMmapClient.

Section history.
Context {menv : MmapEnv} (Hchip : chip_size <= 2 ^ 24).
Implicit Types (sp : mmap_spec) (s : mmap_state) (m : mapping) (i : Z) (pages : list Z).

(** ** Mapping *)
Lemma find_ext {A} (f g : A -> bool) l : (forall x, x ∈ l -> f x = g x) -> find f l = find g l.
Proof. induction l as [|x l IH]; intros H; [done|]. cbn. rewrite (H x) by set_solver. rewrite IH by set_solver. done. Qed.

Lemma find_window_run pages s n : forall start, find_window n start pages s = find (fun st => window_matches st pages s) (seqZ start (Z.of_nat n)).
Proof.
  induction n as [|n IH]; intros start; [done|]. rewrite seqZ_cons by lia. cbn [find_window find]. rewrite IH.
  replace (Z.pred (Z.of_nat (S n))) with (Z.of_nat n) by lia. by replace (Z.succ start) with (start + 1) by lia.
Qed.

Lemma entry_state sp s i : mmap_inv sp s -> 0 <= i < 256 ->
  match used sp i with
  | None => s_mmap_page_refcnt s i = 0 /\ pro s i = INVALID_ENTRY_VAL
  | Some p => s_mmap_page_refcnt s i <> 0 /\ pro s i = p /\ app s i = p
  end.
Proof.
  intros I Hi. destruct (mi_refcnt _ _ I i Hi) as [R _]. destruct (used sp i) as [p|] eqn:E.
  - apply used_by in E. pose proof (user_counts _ _ _ E). split; [lia|]. by apply (mi_pages _ _ I).
  - apply used_users in E. split; [lia|]. by apply (mi_unused _ _ I).
Qed.

Lemma matches_fits sp s start pages : mmap_inv sp s -> 0 <= start -> start + lenZ pages <= 256 -> window_matches start pages s = fits sp start pages.
Proof.
  intros I H0 H1. apply eq_true_iff_eq. rewrite window_matches_spec, fits_spec.
  assert (E : forall i p, window_page start pages i = Some p -> (s_mmap_page_refcnt s i = 0 \/ pro s i = p) <-> (used sp i = None \/ used sp i = Some p)).
  { intros i p Hp. assert (Hi : start <= i < start + lenZ pages) by (apply window_page_in; by eexists).
    pose proof (entry_state sp s i I ltac:(lia)) as S. destruct (used sp i) as [q|]; [destruct S as (S1 & -> & _)|destruct S as [-> S2]].
    - split; [intros [?| ->]; [done|by right]|intros [?|[= ->]]; [done|by right]].
    - split; by left. }
  split; intros H i p Hp; apply (E i p Hp), H, Hp.
Qed.

Lemma pages_inside_run pages : forallb (fun p => p <? 2 ^ 15) pages = true -> pages_inside pages = Ok (forallb page_exists pages).
Proof.
  induction pages as [|p pages IH]; [done|]. cbn [forallb pages_inside]. intros [Hp%Z.ltb_lt Hps]%andb_true_iff. unfold page_exists at 1.
  destruct (Z.ltb_spec p 0); [destruct (Z.leb_spec 0 p); [lia|done]|]. destruct (Z.leb_spec 0 p); [|lia].
  destruct (Z.leb_spec (2 ^ 31) (p * SPI_FLASH_MMU_PAGE_SIZE)); [unfold SPI_FLASH_MMU_PAGE_SIZE in *; lia|].
  destruct (Z.leb_spec chip_size (p * SPI_FLASH_MMU_PAGE_SIZE)), (Z.ltb_spec (p * SPI_FLASH_MMU_PAGE_SIZE) chip_size); cbn [andb]; try lia; [done|]. by apply IH.
Qed.

(** The count of the new block does not matter to the start-up. *)
Lemma init_page_alloc s i n : init_page (s <| allocated := n |>) i = (init_page s i) <| allocated := n |>.
Proof.
  unfold init_page. change (pro (s <| allocated := n |>) i) with (pro s i). change (app (s <| allocated := n |>) i) with (app s i).
  destruct (negb (pro s i =? app s i)); by case_match.
Qed.
Lemma init_alloc s n : spi_flash_mmap_init (s <| allocated := n |>) = (spi_flash_mmap_init s) <| allocated := n |>.
Proof.
  unfold spi_flash_mmap_init. change (s_mmap_page_refcnt (s <| allocated := n |>) DROM0_PAGES_START) with (s_mmap_page_refcnt s DROM0_PAGES_START).
  destruct (negb _); [done|]. generalize (seqZ 0 (REGIONS_COUNT * PAGES_PER_REGION)). intros l. revert s.
  induction l as [|i l IH]; intros s; [done|]. cbn [foldl]. by rewrite init_page_alloc, IH.
Qed.

Lemma init_inv sp s : mmap_inv sp s -> spi_flash_mmap_init s = s.
Proof.
  intros I. destruct (mi_first _ _ I) as [p Hp]. destruct (mi_refcnt _ _ I 0) as [R _]; [lia|]. pose proof (user_counts sp 0 p ltac:(by left)) as U.
  unfold spi_flash_mmap_init. change DROM0_PAGES_START with 0. rewrite R. destruct (Z.eqb_spec (users sp 0) 0); [lia|done].
Qed.

Lemma region_bounds memory : let '(b, n, _) := get_mmu_region memory in 0 <= b /\ 0 < n /\ b + n <= 256.
Proof. destruct memory; cbn; unfold DROM0_PAGES_START, IROM0_PAGES_END, PRO_IRAM0_FIRST_USABLE_PAGE; cbv; intuition congruence. Qed.

Lemma users_cons sp m i lst lk : users (mkSpec (boot sp) (m :: live sp) lst lk) i = users sp i + match m_page m i with Some _ => 1 | None => 0 end.
Proof. unfold users. cbn [live boot omap list_omap]. cbn. destruct (m_page m i); [rewrite lenZ_cons|]; lia. Qed.

(** A new mapping in the list keeps the invariant. *)
Lemma placed_inv sp s s' m start : mmap_inv sp s -> m_start m = start -> (exists memory, placed_at m memory start) -> Forall (fun p => 0 <= p < 256) (m_pages m) ->
  window_ready start (m_pages m) s -> (forall i, is_Some (m_page m i) -> users sp i < 255) -> m_handle m = last sp + 1 -> last sp + 1 < 2 ^ 32 ->
  placed start (m_pages m) (s <| allocated := allocated s + 1 |>) s' -> forall b, (b = false -> stale s' = stale s /\ forall i, start <= i < start + lenZ (m_pages m) -> s_mmap_page_refcnt s i <> 0) ->
  mmap_inv (mkSpec (boot sp) (m :: live sp) (last sp + 1) (leaked sp))
    (let s := s' <| s_mmap_last_handle := m_handle m |> <| s_mmap_entries_head := mkEntry (m_handle m) start (lenZ (m_pages m)) :: s_mmap_entries_head s' |> in
     if b : bool then Cache_Flush s else s).
Proof.
  intros I Est Pl Fp Rd Few Eh Hl [SL C0 P0 A0] b Fl.
  assert (C : forall i, s_mmap_page_refcnt s' i = s_mmap_page_refcnt s i + match window_page start (m_pages m) i with Some _ => 1 | None => 0 end) by exact C0.
  assert (P : forall i, pro s' i = default (pro s i) (window_page start (m_pages m) i)) by exact P0.
  assert (A : forall i, app s' i = default (app s i) (window_page start (m_pages m) i)) by exact A0. clear C0 P0 A0. destruct Pl as [mem Pl]. pose proof (start_placed _ _ _ Pl) as (_ & H0 & H1).
  assert (Ep : forall i, m_page m i = window_page start (m_pages m) i) by (intros i; unfold m_page; by rewrite Est).
  set (s1 := _ <| s_mmap_entries_head := _ |>). set (s2 := if b then _ else _).
  assert (Same : pro_table s2 = pro_table s' /\ app_table s2 = app_table s' /\ refcnt_table s2 = refcnt_table s') by (unfold s2, s1; by destruct b).
  destruct Same as (T1 & T2 & T3).
  assert (C2 : forall i, s_mmap_page_refcnt s2 i = s_mmap_page_refcnt s' i) by (intros i; unfold s_mmap_page_refcnt; by rewrite T3).
  assert (P2 : forall i, pro s2 i = pro s' i) by (intros i; unfold pro; by rewrite T1). assert (A2 : forall i, app s2 i = app s' i) by (intros i; unfold app; by rewrite T2).
  split; cbn [boot live last leaked].
  - apply (mi_first _ _ I).
  - unfold s2, s1. destruct b; cbn; rewrite Est, (sl_entries _ _ SL); cbn; by rewrite (mi_entries _ _ I).
  - destruct (mi_last _ _ I). split; [unfold s2, s1; by destruct b|lia].
  - pose proof (mi_alloc _ _ I) as Al. pose proof (sl_alloc _ _ SL) as Al'. cbn in Al'. rewrite lenZ_cons. unfold s2, s1. destruct b; cbn; lia.
  - destruct (mi_handles _ _ I) as [N F]. destruct (mi_last _ _ I). split.
    + cbn [map]. apply NoDup_cons. split; [|done]. intros (m' & E & Hm')%list_elem_of_fmap. rewrite Forall_forall in F. specialize (F m' Hm'). lia.
    + constructor; [lia|]. eapply Forall_impl; [exact F|]. cbn. intros x ?. lia.
  - constructor; [|apply (mi_windows _ _ I)]. split; [by exists mem, start|done].
  - intros i Hi. destruct (mi_refcnt _ _ I i Hi) as [R Rl]. rewrite users_cons, C2, C, R, Ep. split; [done|].
    specialize (Few i). rewrite Ep in Few. destruct (window_page start (m_pages m) i); [specialize (Few ltac:(by eexists))|]; lia.
  - intros i p Hi H. rewrite P2, A2, P, A. destruct (window_page start (m_pages m) i) as [q|] eqn:Eq; cbn [default].
    + assert (E : q = p); [|by subst]. destruct H as [H|H].
      * pose proof (user_counts sp i p ltac:(by left)). destruct (Rd i q Eq) as (_ & _ & _ & R4). destruct (mi_refcnt _ _ I i Hi) as [R _].
        destruct (R4 ltac:(lia)) as [<- _]. by apply (mi_pages _ _ I); [|left].
      * apply Exists_cons in H as [H|H]; [rewrite Ep in H; congruence|].
        pose proof (user_counts sp i p ltac:(by right)). destruct (Rd i q Eq) as (_ & _ & _ & R4). destruct (mi_refcnt _ _ I i Hi) as [R _].
        destruct (R4 ltac:(lia)) as [<- _]. by apply (mi_pages _ _ I); [|right].
    + apply (mi_pages _ _ I i p Hi). destruct H as [H|H]; [by left|]. apply Exists_cons in H as [H|H]; [rewrite Ep in H; congruence|by right].
  - intros i Hi. rewrite users_cons, Ep, P2, A2, P, A. pose proof (users_nonneg sp i). destruct (window_page start (m_pages m) i); cbn [default]; [lia|].
    rewrite Z.add_0_r. by apply (mi_unused _ _ I).
  - intros i Hi Hst. unfold s2, s1 in Hst. destruct b; [set_solver|]. cbn in Hst. destruct (Fl eq_refl) as [F1 F2]. rewrite F1 in Hst. pose proof (mi_stale _ _ I i Hi Hst) as U.
    rewrite users_cons, Ep, U. destruct (window_page start (m_pages m) i) eqn:Eq; [|done]. exfalso. apply (F2 i); [apply window_page_in; by eexists|]. by rewrite (proj1 (mi_refcnt _ _ I i Hi)).
Qed.

Lemma init_same_list s : same_list s (spi_flash_mmap_init s).
Proof. unfold spi_flash_mmap_init. destruct (negb _); [done|]. apply (init_run 256 0 s). Qed.

(** ** One call *)
Definition ready sp s : Prop := mmap_inv sp (spi_flash_mmap_init s) /\ (live sp <> [] -> spi_flash_mmap_init s = s).

Lemma inv_ready sp s : mmap_inv sp s -> ready sp s.
Proof. intros I. unfold ready. by rewrite (init_inv sp s I). Qed.

Lemma alloc_inv sp s n lk : mmap_inv sp s -> n = lenZ (live sp) + lk -> mmap_inv (mkSpec (boot sp) (live sp) (last sp) lk) (s <| allocated := n |>).
Proof. intros [] ->. split; try done. Qed.

Lemma fresh_ready sp s start pages : mmap_inv sp s -> 0 <= start -> start + lenZ pages <= 256 -> fits sp start pages = true -> Forall (fun p => 0 <= p < 256) pages ->
  (forall i, start <= i < start + lenZ pages -> users sp i < 255) -> window_ready start pages s.
Proof.
  intros I H0 H1 Fi Fp Few i p Hp. assert (Hi : start <= i < start + lenZ pages) by (apply window_page_in; by eexists). specialize (Few i Hi).
  destruct (mi_refcnt _ _ I i ltac:(lia)) as [R _]. pose proof (users_nonneg sp i). split; [lia|]. split.
  { rewrite Forall_forall in Fp. apply window_page_elem in Hp. specialize (Fp p Hp). unfold INVALID_ENTRY_VAL. lia. }
  pose proof (entry_state sp s i I ltac:(lia)) as S. destruct (proj1 (fits_spec sp start pages) Fi i p Hp) as [E|E]; rewrite E in S; split; intros; try done; try apply S.
  - by destruct S.
  - destruct S. done.
Qed.

Lemma mmap_pages_follows internal alloc pages memory sp s a sp' : ready sp s -> spec_mmap_pages internal alloc pages memory sp = Some (a, sp') ->
  exists err ptr h s', spi_flash_mmap_pages internal alloc pages memory s = Ok (err, ptr, h, s') /\ a = Mapped err ptr h /\ ready sp' s'.
Proof.
  intros Rd. unfold spec_mmap_pages, spi_flash_mmap_pages. destruct (forallb (fun p => p <? 2 ^ 15) pages) eqn:E15; cbn [negb]; [|done].
  rewrite pages_inside_run by done. destruct (lenZ pages =? 0) eqn:Hz; cbn [orb]; [intros [= <- <-]; by do 4 eexists|].
  destruct internal; cbn [negb orb]; [|intros [= <- <-]; by do 4 eexists]. ostep. destruct (forallb page_exists pages) eqn:Ex; cbn [negb]; [|intros [= <- <-]; by do 4 eexists].
  destruct alloc; cbn [negb]; [|intros [= <- <-]; by do 4 eexists]. rewrite init_alloc. destruct Rd as [I _]. set (si := spi_flash_mmap_init s) in *.
  pose proof (init_same_list s) as SLi. fold si in SLi. pose proof (mi_alloc _ _ I) as Al. rewrite (sl_alloc _ _ SLi) in Al.
  pose proof (region_bounds memory) as Rb. destruct (get_mmu_region memory) as [[rb rs] ra] eqn:Er. destruct Rb as (Rb0 & Rb1 & Rb2).
  set (s1 := si <| allocated := allocated s + 1 |>). assert (I1 : mmap_inv (mkSpec (boot sp) (live sp) (last sp) (leaked sp + 1)) s1) by (apply alloc_inv; [done|lia]).
  destruct (Z.ltb_spec rs (lenZ pages)); [intros [= <- <-]; do 4 eexists; split; [done|]; split; [done|]; by apply inv_ready|].
  pose proof (lenZ_nonneg pages) as Hn. rewrite find_window_run, Z2Nat.id by lia.
  rewrite (find_ext (fun st => window_matches st pages s1) (fun start => fits sp start pages)) by (intros st Hst%elem_of_seqZ; apply (matches_fits _ s1 st pages I1); lia).
  destruct (find _ _) as [start|] eqn:Ef.
  2: { intros [= <- <-]. do 4 eexists. split; [done|]. split; [done|]. apply inv_ready. destruct sp. apply (alloc_inv (mkSpec boot live last leaked) si); [done|]. cbn in *. lia. }
  apply find_some in Ef as [Hst%list_elem_of_In%elem_of_seqZ Fi].
  destruct (forallb (fun i => users sp i <? 255) (seqZ start (lenZ pages)) && (last sp + 1 <? 2 ^ 32)) eqn:El; [|done]. intros [= <- <-]. apply andb_true_iff in El as [Few Hl%Z.ltb_lt].
  rewrite forallb_forall in Few. assert (Few' : forall i, start <= i < start + lenZ pages -> users sp i < 255) by (intros i Hi; apply Z.ltb_lt, Few, list_elem_of_In, elem_of_seqZ; lia).
  assert (Fp : Forall (fun p => 0 <= p < 256) pages).
  { rewrite forallb_forall in Ex. apply Forall_forall. intros p Hp%list_elem_of_In. specialize (Ex p Hp). unfold page_exists in Ex. apply andb_true_iff in Ex as [E1%Z.leb_le E2%Z.ltb_lt].
    unfold SPI_FLASH_MMU_PAGE_SIZE in E2. lia. }
  set (m := mkMapping (last sp + 1) (ra + (start - rb) * SPI_FLASH_MMU_PAGE_SIZE) pages).
  assert (Pl : placed_at m memory start) by (unfold placed_at; rewrite Er; unfold m; cbn [m_pages m_ptr]; assert (lenZ pages <> 0) by (by apply Z.eqb_neq); lia). pose proof (start_placed _ _ _ Pl) as (Est & _ & _).
  assert (Rdy : window_ready start pages si) by (apply (fresh_ready sp); [done|lia|lia|done..]).
  destruct (set_window_run pages start s1 false Rdy) as (s2 & b & E & P & Fl). rewrite E. ostep. do 4 eexists. split; [done|].
  assert (Eh : u32 (s_mmap_last_handle s2 + 1) = last sp + 1).
  { rewrite (sl_last _ _ (pl_list _ _ _ _ P)). change (s_mmap_last_handle s1) with (s_mmap_last_handle si). destruct (mi_last _ _ I) as [-> Hb]. apply u32_small. unfold is_u32. lia. }
  rewrite Eh. split; [done|]. apply inv_ready. assert (Es : s1 = si <| allocated := allocated si + 1 |>) by (unfold s1; by rewrite (sl_alloc _ _ SLi)). rewrite Es in P, Fl.
  assert (W : exists memory, placed_at m memory start) by (by exists memory). apply (placed_inv sp si s2 m start I Est W Fp Rdy).
  - intros i Hi. apply Few'. unfold m_page in Hi. rewrite Est in Hi. by apply window_page_in in Hi.
  - done.
  - done.
  - exact P.
  - intros Hb. destruct (Fl Hb) as (F1 & _ & F3). done.
Qed.

Lemma mmap_follows alloc_pages alloc src size memory sp s a sp' : ready sp s -> spec_mmap alloc_pages alloc src size memory sp = Some (a, sp') ->
  exists err ptr h s', spi_flash_mmap alloc_pages alloc src size memory s = Ok (err, ptr, h, s') /\ a = Mapped err ptr h /\ ready sp' s'.
Proof.
  intros Rd. unfold spec_mmap, spi_flash_mmap. destruct ((0 <=? src) && (0 <=? size) && (src + size <? 2 ^ 32)) eqn:El; cbn [negb]; [|done].
  apply andb_true_iff in El as [[H0%Z.leb_le H1%Z.leb_le]%andb_true_iff H2%Z.ltb_lt].
  change 0xffff with (Z.ones 16). rewrite Z.land_ones by done. change (2 ^ 16) with SPI_FLASH_MMU_PAGE_SIZE. rewrite (u32_small (src + size)) by (unfold is_u32; lia).
  destruct (src mod SPI_FLASH_MMU_PAGE_SIZE =? 0); cbn [negb orb]; [|intros [= <- <-]; by do 4 eexists].
  destruct (Z.ltb_spec chip_size (src + size)); [intros [= <- <-]; by do 4 eexists|]. destruct alloc_pages; cbn [negb]; [|intros [= <- <-]; by do 4 eexists].
  rewrite (u32_small (size + _ - 1)) by (unfold is_u32, SPI_FLASH_MMU_PAGE_SIZE; lia). by apply mmap_pages_follows.
Qed.

(** ** Unmapping *)
Definition as_entry m : mmap_entry_t := mkEntry (m_handle m) (m_start m) (lenZ (m_pages m)).

Lemma remove_split h l l' : remove_mapping h l = Some l' -> exists l1 m l2, l = l1 ++ m :: l2 /\ l' = l1 ++ l2 /\ m_handle m = h /\
  take_entry h (map as_entry l) = Some (as_entry m, map as_entry l').
Proof.
  revert l'. induction l as [|m l IH]; intros l' H; [done|]. cbn [remove_mapping map take_entry] in *. change (handle (as_entry m)) with (m_handle m).
  destruct (Z.eqb_spec (m_handle m) h) as [E|E]; [injection H as <-; by exists [], m, l|]. destruct (remove_mapping h l) as [l0|] eqn:Er; [|done]. cbn in H. injection H as <-.
  destruct (IH l0 eq_refl) as (l1 & m' & l2 & -> & -> & Hm & ->). by exists (m :: l1), m', l2.
Qed.

Lemma users_middle b l1 m l2 lst lk i : users (mkSpec b (l1 ++ m :: l2) lst lk) i = users (mkSpec b (l1 ++ l2) lst lk) i + match m_page m i with Some _ => 1 | None => 0 end.
Proof.
  unfold users. cbn [live FlashMmapClient.boot]. rewrite !omap_app, !lenZ_app. cbn. destruct (m_page m i); [rewrite lenZ_cons|]; lia.
Qed.

Lemma munmap_inv sp s l1 m l2 s' : mmap_inv sp s -> live sp = l1 ++ m :: l2 -> released (m_start m) (lenZ (m_pages m)) s s' ->
  mmap_inv (mkSpec (boot sp) (l1 ++ l2) (last sp) (leaked sp)) (s' <| s_mmap_entries_head := map as_entry (l1 ++ l2) |> <| allocated := allocated s' - 1 |>).
Proof.
  intros I El [SL C0 P0 A0 S0]. set (sp' := mkSpec _ _ _ _).
  assert (U : forall i, users sp i = users sp' i + match m_page m i with Some _ => 1 | None => 0 end).
  { intros i. destruct sp as [b lv lst lk]. cbn in El. subst lv. apply users_middle. }
  assert (W : forall i, (m_start m <=? i) && (i <? m_start m + lenZ (m_pages m)) = true <-> is_Some (m_page m i)).
  { intros i. unfold m_page. rewrite window_page_in, andb_true_iff, Z.leb_le, Z.ltb_lt. done. }
  assert (Sub : forall x, x ∈ l1 ++ l2 -> x ∈ live sp) by (intros x; rewrite El; set_solver).
  assert (Other : forall i p, boot sp i = Some p \/ Exists (fun m => m_page m i = Some p) (l1 ++ l2) -> boot sp i = Some p \/ Exists (fun m => m_page m i = Some p) (live sp)).
  { intros i p [H|H]; [by left|right]. apply Exists_exists in H as (x & Hx & Hp). apply Exists_exists. exists x. auto. }
  assert (Keep : forall i (f : Z), 0 <= i < 256 -> 0 < users sp' i -> (if (m_start m <=? i) && (i <? m_start m + lenZ (m_pages m)) && (s_mmap_page_refcnt s i =? 1) then INVALID_ENTRY_VAL else f) = f).
  { intros i f Hi Hu. destruct (_ && (_ <? _)) eqn:Ew; [|done]. apply W in Ew as [q Eq]. cbn [andb]. destruct (mi_refcnt _ _ I i Hi) as [R _]. specialize (U i). rewrite Eq in U.
    destruct (Z.eqb_spec (s_mmap_page_refcnt s i) 1); [lia|done]. }
  split; cbn [FlashMmapClient.boot live last leaked sp'].
  - apply (mi_first _ _ I).
  - done.
  - cbn. rewrite (sl_last _ _ SL). apply (mi_last _ _ I).
  - cbn. rewrite (sl_alloc _ _ SL), (mi_alloc _ _ I), El, !lenZ_app, lenZ_cons. lia.
  - destruct (mi_handles _ _ I) as [N F]. rewrite El in N, F. rewrite map_app in *. cbn [map] in N. split.
    + apply NoDup_app in N as (N1 & N2 & N3). apply NoDup_cons in N3 as [_ N3]. apply NoDup_app. split; [done|]. split; [|done]. intros x Hx. specialize (N2 x Hx). set_solver.
    + rewrite Forall_app, Forall_cons in F. apply Forall_app. tauto.
  - pose proof (mi_windows _ _ I) as F. rewrite El, Forall_app, Forall_cons in F. apply Forall_app. tauto.
  - intros i Hi. destruct (mi_refcnt _ _ I i Hi) as [R Rl]. change (s_mmap_page_refcnt (_ <| allocated := _ |>) i) with (s_mmap_page_refcnt s' i). rewrite C0, R. rewrite U in Rl |- *.
    specialize (W i). destruct (m_page m i) as [q|]; [rewrite (proj2 W) by (by eexists); lia|].
    destruct (_ && _); [destruct (proj1 W eq_refl); done|]. lia.
  - intros i p Hi H. change (pro (_ <| allocated := _ |>) i) with (pro s' i). change (app (_ <| allocated := _ |>) i) with (app s' i).
    pose proof (user_counts sp' i p H) as Hu. rewrite P0, A0, !Keep by done. apply (mi_pages _ _ I); [done|]. by apply Other.
  - intros i Hi Hu. change (pro (_ <| allocated := _ |>) i) with (pro s' i). change (app (_ <| allocated := _ |>) i) with (app s' i).
    rewrite P0, A0. destruct (mi_refcnt _ _ I i Hi) as [R _]. specialize (U i). specialize (W i). rewrite Hu in U. destruct (m_page m i) as [q|].
    + rewrite (proj2 W) by (by eexists). rewrite R, U. done.
    + destruct (_ && _); [destruct (proj1 W eq_refl); done|]. apply (mi_unused _ _ I); [done|lia].
  - intros i Hi Hst. cbn in Hst. specialize (U i). pose proof (users_nonneg sp' i). destruct (S0 i Hst) as [H1|[H1 H2]].
    + pose proof (mi_stale _ _ I i Hi H1). destruct (m_page m i); lia.
    + destruct (proj1 (W i)) as [q Eq]; [apply andb_true_iff; rewrite Z.leb_le, Z.ltb_lt; lia|]. rewrite Eq in U. destruct (mi_refcnt _ _ I i Hi) as [R _]. lia.
Qed.

Lemma munmap_follows h sp s l : ready sp s -> remove_mapping h (live sp) = Some l ->
  exists s', spi_flash_munmap h s = Ok s' /\ ready (mkSpec (boot sp) l (last sp) (leaked sp)) s'.
Proof.
  intros [I Rd] Hr. destruct (remove_split _ _ _ Hr) as (l1 & m & l2 & El & -> & _ & Tk). rewrite Rd in I by (rewrite El; by destruct l1).
  unfold spi_flash_munmap. rewrite (mi_entries _ _ I). fold as_entry. change (fun m => mkEntry _ _ _) with as_entry. rewrite Tk. cbn [page count as_entry].
  pose proof (mi_windows _ _ I) as Fw. rewrite El, Forall_app, Forall_cons in Fw. destruct Fw as (_ & [(mem & start & Pl) _] & _). pose proof (start_placed _ _ _ Pl) as (_ & H0 & H1).
  pose proof (start_placed _ _ _ Pl) as (Es & _ & _). destruct (release_run (length (m_pages m)) (m_start m) s) as (s' & E & R).
  { intros i Hi. destruct (mi_refcnt _ _ I i) as [-> ?]; [unfold lenZ in *; lia|]. split; [|done]. destruct (proj2 (window_page_in (m_start m) (m_pages m) i)) as [p Hp]; [unfold lenZ; lia|].
    apply (user_counts sp i p). right. rewrite El. apply Exists_app. right. by apply Exists_cons_hd. }
  unfold lenZ. rewrite E. ostep. eexists. split; [done|]. apply inv_ready. by apply (munmap_inv sp s l1 m l2).
Qed.

(** ** Inspection *)
Lemma count_filter (f : Z -> bool) l : forall n, foldl (fun (n : Z) i => if f i then n + 1 else n) n l = n + lenZ (filter (fun i => f i = true) l).
Proof.
  induction l as [|i l IH]; intros n; [unfold lenZ; cbn; lia|]. cbn [foldl]. rewrite IH, filter_cons. destruct (f i) eqn:E; [rewrite decide_True by done; rewrite lenZ_cons; lia|].
  rewrite decide_False by congruence. done.
Qed.

Lemma free_pages_run memory sp s : ready sp s -> let '(b, n, _) := get_mmu_region memory in
  spi_flash_mmap_get_free_pages memory s = (lenZ (filter (fun i => users sp i = 0) (seqZ b n)), spi_flash_mmap_init s) /\ ready sp (spi_flash_mmap_init s).
Proof.
  intros [I _]. unfold spi_flash_mmap_get_free_pages. pose proof (region_bounds memory) as Rb. destruct (get_mmu_region memory) as [[b n] a]. destruct Rb as (B0 & B1 & B2).
  split; [|by apply inv_ready]. f_equal. rewrite (count_filter (fun i => _)). rewrite Z.add_0_l. f_equal.
  assert (E : forall i, i ∈ seqZ b n -> ((s_mmap_page_refcnt (spi_flash_mmap_init s) i =? 0) && (pro (spi_flash_mmap_init s) i =? INVALID_ENTRY_VAL) = true) <-> users sp i = 0).
  { intros i Hi%elem_of_seqZ. destruct (mi_refcnt _ _ I i ltac:(lia)) as [-> _]. rewrite andb_true_iff, !Z.eqb_eq. split; [tauto|]. intros U. split; [done|]. by apply (mi_unused _ _ I); [lia|]. }
  revert E. generalize (seqZ b n). intros l. induction l as [|i l IH]; intros E; [done|]. rewrite !filter_cons, IH by set_solver. specialize (E i ltac:(set_solver)).
  repeat case_decide; tauto.
Qed.

(** ** Histories *)
Lemma step_follows c sp s a sp' : ready sp s -> spec_step c sp = Some (a, sp') -> exists s', run_step c s = Ok (a, s') /\ ready sp' s'.
Proof.
  intros Rd. destruct c as [ap al src size mem|int al pages mem|h|mem]; cbn [spec_step run_step].
  - intros H. destruct (mmap_follows _ _ _ _ _ _ _ _ _ Rd H) as (err & ptr & h & s' & -> & -> & Rd'). ostep. by exists s'.
  - intros H. destruct (mmap_pages_follows _ _ _ _ _ _ _ _ Rd H) as (err & ptr & h & s' & -> & -> & Rd'). ostep. by exists s'.
  - destruct (remove_mapping h (live sp)) as [l|] eqn:Er; [|done]. intros [= <- <-]. destruct (munmap_follows h sp s l Rd Er) as (s' & -> & Rd'). ostep. by exists s'.
  - pose proof (free_pages_run mem sp s Rd) as F. destruct (get_mmu_region mem) as [[b n] x]. destruct F as [-> F]. intros [= <- <-]. by eexists.
Qed.

Lemma run_follows cs : forall sp s l sp', ready sp s -> spec_run cs sp = Some (l, sp') -> exists s', run_steps cs s = Ok (l, s') /\ ready sp' s'.
Proof.
  induction cs as [|c cs IH]; intros sp s l sp' Rd H; cbn [spec_run run_steps] in *; [injection H as <- <-; by exists s|].
  destruct (spec_step c sp) as [[a sp1]|] eqn:E1; [|done]. cbn in H. destruct (spec_run cs sp1) as [[l1 sp2]|] eqn:E2; [|done]. cbn in H. injection H as <- <-.
  destruct (step_follows _ _ _ _ _ Rd E1) as (s1 & -> & Rd1). ostep. destruct (IH _ _ _ _ Rd1 E2) as (s2 & -> & Rd2). ostep. by exists s2.
Qed.

Lemma step_boot c sp a sp' : spec_step c sp = Some (a, sp') -> boot sp' = boot sp.
Proof.
  assert (Pages : forall int al pages mem, spec_mmap_pages int al pages mem sp = Some (a, sp') -> boot sp' = boot sp).
  { intros int al pages mem. unfold spec_mmap_pages. destruct (get_mmu_region mem) as [[b n] x]. repeat case_match; intros [= <- <-]; done. }
  destruct c as [ap al src size mem|int al pages mem|h|mem]; cbn [spec_step].
  - unfold spec_mmap. repeat case_match; try (intros [= <- <-]; done); apply Pages.
  - apply Pages.
  - destruct (remove_mapping h (live sp)); [|done]. by intros [= <- <-].
  - destruct (get_mmu_region mem) as [[b n] x]. by intros [= <- <-].
Qed.
Lemma run_boot cs : forall sp l sp', spec_run cs sp = Some (l, sp') -> boot sp' = boot sp.
Proof.
  induction cs as [|c cs IH]; intros sp l sp' H; cbn [spec_run] in H; [by injection H as <- <-|].
  destruct (spec_step c sp) as [[a sp1]|] eqn:E1; [|done]. cbn in H. destruct (spec_run cs sp1) as [[l1 sp2]|] eqn:E2; [|done]. cbn in H. injection H as <- <-.
  rewrite (IH _ _ _ E2). by eapply step_boot.
Qed.

(** The state at start-up, with the tables of the bootloader. *)
Definition started s : Prop := refcnt_table s = ∅ /\ s_mmap_entries_head s = [] /\ s_mmap_last_handle s = 0 /\ allocated s = 0 /\ stale s = ∅ /\ is_Some (boot_page s 0).
Definition start_spec s : mmap_spec := mkSpec (fun i => if (0 <=? i) && (i <? 256) then boot_page s i else None) [] 0 0.

Lemma start_ready s : started s -> ready (start_spec s) s.
Proof.
  intros (Hr & He & Hl & Ha & Hs & [p0 H0]). split; [|done]. assert (C : forall i, s_mmap_page_refcnt s i = 0) by (intros i; unfold s_mmap_page_refcnt; by rewrite Hr).
  unfold spi_flash_mmap_init. rewrite C. cbn [negb Z.eqb]. destruct (init_run 256 0 s) as [SL C' P' A' S']. change (Z.of_nat 256) with 256 in *. change (REGIONS_COUNT * PAGES_PER_REGION) with 256.
  set (s' := foldl init_page s (seqZ 0 256)) in *.
  assert (In : forall i, 0 <= i < 256 -> (0 <=? i) && (i <? 0 + 256) = true /\ (0 <=? i) && (i <? 256) = true) by (intros i Hi; split; apply andb_true_iff; rewrite Z.leb_le, Z.ltb_lt; lia).
  assert (U : forall i, 0 <= i < 256 -> users (start_spec s) i = match boot_page s i with Some _ => 1 | None => 0 end).
  { intros i Hi. unfold users, start_spec. cbn [FlashMmapClient.boot live]. destruct (In i Hi) as [_ ->]. unfold lenZ. cbn. lia. }
  split; cbn [FlashMmapClient.boot live last leaked start_spec].
  - by exists p0.
  - by rewrite (sl_entries _ _ SL), He.
  - rewrite (sl_last _ _ SL), Hl. lia.
  - rewrite (sl_alloc _ _ SL), Ha. done.
  - split; constructor.
  - constructor.
  - intros i Hi. rewrite C', (proj1 (In i Hi)), C, U by done. destruct (boot_page s i); lia.
  - intros i p Hi [H|H%Exists_nil]; [|done]. destruct (In i Hi) as [I1 I2]. rewrite I2 in H. by rewrite P', A', I1, H.
  - intros i Hi. rewrite U, P', A', (proj1 (In i Hi)) by done. by destruct (boot_page s i).
  - intros i Hi Hst. rewrite U by done. destruct (S' i Hst) as [H|[_ ->]]; [|done]. rewrite Hs in H. by apply not_elem_of_empty in H.
Qed.
End history.
