(* ===== verification/FlashMmapRead.v ===== *)
(** * Flash mapping: addresses

    The translation of mapped addresses, the refinement theorem, and examples. *)
From S2P Require Import Prelude Mem EspFlash FlashMmap FlashMmapProofs FlashMmapClient FlashMmapHistory.

Section read.
Context {menv : MmapEnv}.
Implicit Types (sp : mmap_spec) (s : mmap_state) (m : mapping) (i : Z) (pages : list Z).

Lemma lor_page p k : 0 <= p -> 0 <= k < SPI_FLASH_MMU_PAGE_SIZE -> Z.lor (p * SPI_FLASH_MMU_PAGE_SIZE) k = p * SPI_FLASH_MMU_PAGE_SIZE + k.
Proof.
  intros Hp Hk. unfold SPI_FLASH_MMU_PAGE_SIZE in *. change 0x10000 with (2 ^ 16) in *. rewrite <- Z.add_nocarry_lor; [done|]. rewrite <- Z.shiftl_mul_pow2 by lia.
  apply Z.bits_inj'. intros j Hj. rewrite Z.land_spec, Z.bits_0. destruct (decide (j < 16)); [by rewrite Z.shiftl_spec_low|].
  rewrite <- (Z.mod_small k (2 ^ 16)) by lia. rewrite Z.mod_pow2_bits_high by lia. apply andb_false_r.
Qed.

(** The addresses of the entry [i] of a region. *)
Definition entry_addr (memory : spi_flash_mmap_memory_t) i : Z :=
  let '(region_begin, _, region_addr) := get_mmu_region memory in region_addr + (i - region_begin) * SPI_FLASH_MMU_PAGE_SIZE.

Lemma region_values memory : get_mmu_region memory = match memory with SPI_FLASH_MMAP_DATA => (0, 64, 0x3F400000) | SPI_FLASH_MMAP_INST => (77, 179, 0x400D0000) end.
Proof. by destruct memory. Qed.

Lemma cache2phys_entry memory i k s : (let '(b, n, _) := get_mmu_region memory in b <= i < b + n) -> 0 <= k < SPI_FLASH_MMU_PAGE_SIZE -> 0 <= pro s i < 256 ->
  spi_flash_cache2phys (entry_addr memory i + k) s = pro s i * SPI_FLASH_MMU_PAGE_SIZE + k.
Proof.
  intros Hi Hk Hp. unfold spi_flash_cache2phys, entry_addr. rewrite region_values in *. set (c := s32 _).
  assert (E : c = (match memory with SPI_FLASH_MMAP_DATA => 0x3F400000 + i * 0x10000 | SPI_FLASH_MMAP_INST => 0x40000000 + (i - 64) * 0x10000 end) + k).
  { subst c. unfold SPI_FLASH_MMU_PAGE_SIZE in *. destruct memory; rewrite s32_small; lia. }
  clearbody c. assert (Ep : (if c <? VADDR1_FIRST_USABLE_ADDR then u32 (Z.quot (c - VADDR0_START_ADDR) SPI_FLASH_MMU_PAGE_SIZE + DROM0_PAGES_START)
      else u32 (Z.quot (c - VADDR1_START_ADDR) SPI_FLASH_MMU_PAGE_SIZE + IROM0_PAGES_START)) = i /\ (VADDR1_START_ADDR <=? c) && (c <? VADDR1_FIRST_USABLE_ADDR) = false /\ c mod SPI_FLASH_MMU_PAGE_SIZE = k /\ 0 <= i < 256).
  { unfold DROM0_PAGES_START, IROM0_PAGES_START, VADDR0_START_ADDR, VADDR1_START_ADDR, VADDR1_FIRST_USABLE_ADDR, SPI_FLASH_MMU_PAGE_SIZE in *. destruct memory; subst c.
    - destruct (Z.ltb_spec (0x3F400000 + i * 0x10000 + k) 0x400D0000); [|lia]. rewrite Z.quot_div_nonneg, u32_small by (unfold is_u32; Z.to_euclidean_division_equations; lia).
      destruct (Z.leb_spec 0x40000000 (0x3F400000 + i * 0x10000 + k)); [lia|]. repeat split; try done; Z.to_euclidean_division_equations; lia.
    - destruct (Z.ltb_spec (0x40000000 + (i - 64) * 0x10000 + k) 0x400D0000); [lia|]. rewrite Z.quot_div_nonneg, u32_small by (unfold is_u32; Z.to_euclidean_division_equations; lia).
      rewrite andb_false_r. repeat split; try done; Z.to_euclidean_division_equations; lia. }
  destruct Ep as (-> & -> & Ec & H256). destruct (Z.leb_spec PAGES_LIMIT i); [unfold PAGES_LIMIT, DROM0_PAGES_END, IROM0_PAGES_END in *; cbn in *; lia|].
  destruct (Z.eqb_spec (pro s i) INVALID_ENTRY_VAL); [unfold INVALID_ENTRY_VAL in *; lia|]. change MMU_ADDR_MASK with (Z.ones 8). change (SPI_FLASH_MMU_PAGE_SIZE - 1) with (Z.ones 16).
  rewrite !Z.land_ones by done. change (2 ^ 16) with SPI_FLASH_MMU_PAGE_SIZE. rewrite Ec, (Z.mod_small (pro s i)) by lia.
  rewrite u32_small by (unfold is_u32, SPI_FLASH_MMU_PAGE_SIZE; lia). apply lor_page; [lia|done].
Qed.

(** Every byte of a mapping is the byte of the flash asked for, for both processors,
    and the cache has nothing older. *)
Definition readable m s : Prop := forall k, 0 <= k < lenZ (m_pages m) * SPI_FLASH_MMU_PAGE_SIZE ->
  exists p i, m_pages m !! Z.to_nat (k / SPI_FLASH_MMU_PAGE_SIZE) = Some p /\ spi_flash_cache2phys (m_ptr m + k) s = p * SPI_FLASH_MMU_PAGE_SIZE + k mod SPI_FLASH_MMU_PAGE_SIZE /\
    i = m_start m + k / SPI_FLASH_MMU_PAGE_SIZE /\ pro s i = p /\ app s i = p /\ i ∉ stale s.

Lemma mapping_readable sp s m : mmap_inv sp s -> m ∈ live sp -> readable m s.
Proof.
  intros I Hm k Hk. pose proof (mi_windows _ _ I) as Fw. rewrite Forall_forall in Fw. destruct (Fw m Hm) as [(mem & start & Pl) Fp]. pose proof (start_placed _ _ _ Pl) as (Es & H0 & H1).
  set (q := k / SPI_FLASH_MMU_PAGE_SIZE). assert (Hq : 0 <= q < lenZ (m_pages m) /\ k = q * SPI_FLASH_MMU_PAGE_SIZE + k mod SPI_FLASH_MMU_PAGE_SIZE).
  { unfold q, SPI_FLASH_MMU_PAGE_SIZE in *. Z.to_euclidean_division_equations; lia. } destruct Hq as [Hq Ek].
  destruct (lookup_lt_is_Some_2 (m_pages m) (Z.to_nat q)) as [p Hp]; [unfold lenZ in *; lia|]. exists p, (m_start m + q). split; [done|].
  assert (Pg : m_page m (m_start m + q) = Some p) by (unfold m_page, window_page; destruct (Z.ltb_spec (m_start m + q) (m_start m)); [lia|]; by replace (Z.to_nat _) with (Z.to_nat q) by lia).
  rewrite Es in Pg |- *.
  assert (U : boot sp (start + q) = Some p \/ Exists (fun x => m_page x (start + q) = Some p) (live sp)) by (right; apply Exists_exists; by exists m).
  destruct (mi_pages _ _ I (start + q) p ltac:(lia) U) as [Ep Ea]. rewrite Forall_forall in Fp. pose proof (Fp p (list_elem_of_lookup_2 _ _ _ Hp)) as Hp256.
  split; [|split; [done|split; [done|split; [done|]]]].
  - unfold placed_at in Pl. replace (m_ptr m + k) with (entry_addr mem (start + q) + k mod SPI_FLASH_MMU_PAGE_SIZE).
    + rewrite cache2phys_entry; [by rewrite Ep| |unfold SPI_FLASH_MMU_PAGE_SIZE; apply Z.mod_pos_bound; lia|lia]. destruct (get_mmu_region mem) as [[b n] a]. lia.
    + unfold entry_addr. destruct (get_mmu_region mem) as [[b n] a]. destruct Pl as (_ & _ & _ & ->). unfold SPI_FLASH_MMU_PAGE_SIZE in *. lia.
  - intros Hst. pose proof (mi_stale _ _ I (start + q) ltac:(lia) Hst). pose proof (user_counts _ _ _ U). lia.
Qed.

Lemma boot_kept sp s i p : mmap_inv sp (spi_flash_mmap_init s) -> 0 <= i < 256 -> boot sp i = Some p -> Z.land p INVALID_ENTRY_VAL = 0 -> pro s i = p.
Proof.
  intros I Hi Hb Hp. destruct (mi_pages _ _ I i p Hi (or_introl Hb)) as [P _]. unfold spi_flash_mmap_init in P. destruct (negb _); [done|].
  pose proof (in_pro _ _ _ _ (init_run 256 0 s) i) as Pi. change (REGIONS_COUNT * PAGES_PER_REGION) with (Z.of_nat 256) in P. rewrite Pi in P.
  replace ((0 <=? i) && (i <? 0 + Z.of_nat 256)) with true in P by (symmetry; apply andb_true_iff; rewrite Z.leb_le, Z.ltb_lt; lia).
  unfold boot_page in P. destruct (_ && _); cbn in P; [done|]. rewrite <- P in Hp. done.
Qed.

(** C25.  Mapping flash of at most 16 MB: a history of calls from start-up in which no entry of the tables
    gets more than 255 users, the ranges asked for end below [2^32] and the pages below
    [2^15], only handles that are held are unmapped and fewer than [2^32] mappings are made is
    answered as by the list of mappings: a request is refused for the documented reasons or gets the first
    window of its region whose entries are unused or have the pages it asks for, with
    a new handle.  Afterwards each mapping that is held reads the pages it was made
    for, on both processors and not from stale cache lines; the entries the program
    runs from are untouched; the number of free pages is exact; and the blocks of the
    list on the heap are those of the mappings and one for each request that asked for
    more pages than the region has. *)
Theorem mmap_history_refines cs s answers sp : chip_size <= 2 ^ 24 -> started s -> spec_run cs (start_spec s) = Some (answers, sp) ->
  exists s', run_steps cs s = Ok (answers, s') /\ (forall m, m ∈ live sp -> readable m s') /\
    (forall i p, 0 <= i < 256 -> boot_page s i = Some p -> pro s' i = p) /\ allocated s' = lenZ (live sp) + leaked sp.
Proof.
  intros Hc St H. destruct (run_follows Hc cs (start_spec s) s answers sp (start_ready s St) H) as (s' & E & I & Rd). exists s'. split; [done|].
  assert (Eb : boot sp = boot (start_spec s)) by (by eapply run_boot). split; [|split].
  - intros m Hm. rewrite Rd in I by (intros E0; rewrite E0 in Hm; set_solver). by apply (mapping_readable sp).
  - intros i p Hi Hb. apply (boot_kept sp); [done|done| |].
    + rewrite Eb. cbn. by replace ((0 <=? i) && (i <? 256)) with true by (symmetry; apply andb_true_iff; rewrite Z.leb_le, Z.ltb_lt; lia).
    + unfold boot_page in Hb. destruct (_ && _ && _) eqn:Ec in Hb; [|done]. injection Hb as <-. apply andb_true_iff in Ec as [[_ Ec%Z.eqb_eq]%andb_true_iff _]. done.
  - rewrite <- (mi_alloc _ _ I). symmetry. apply (sl_alloc _ _ (init_same_list s')).
Qed.

(** ** From flash to addresses *)
Lemma find_first (f : Z -> bool) lo n : (n = 0 \/ 0 < n) -> match find f (seqZ lo n) with
  | Some i => lo <= i < lo + n /\ f i = true /\ forall j, lo <= j < i -> f j = false
  | None => forall j, lo <= j < lo + n -> f j = false
  end.
Proof.
  intros Hn. assert (Hn' : 0 <= n) by lia. clear Hn. rewrite <- (Z2Nat.id n) by done. generalize (Z.to_nat n). clear n Hn'. intros n. revert lo.
  induction n as [|n IH]; intros lo; [intros j Hj; lia|]. rewrite seqZ_cons by lia. cbn [find]. replace (Z.pred (Z.of_nat (S n))) with (Z.of_nat n) by lia. replace (Z.succ lo) with (lo + 1) by lia.
  destruct (f lo) eqn:E; [split; [lia|]; split; [done|]; lia|]. specialize (IH (lo + 1)). destruct (find _ _) as [i|].
  - destruct IH as (H1 & H2 & H3). split; [lia|]. split; [done|]. intros j Hj. destruct (decide (j = lo)) as [->|]; [done|]. apply H3. lia.
  - intros j Hj. destruct (decide (j = lo)) as [->|]; [done|]. apply IH. lia.
Qed.

(** C26.  A flash address is translated to the first address of the region where it is
    mapped, and that address is translated back to it, whatever the tables hold; the
    answer is [NULL] just when no entry of the region maps it. *)
Theorem phys2cache_inverse phys memory s : 0 <= phys < 2 ^ 24 ->
  let '(b, n, _) := get_mmu_region memory in
  let ptr := spi_flash_phys2cache phys memory s in
  (ptr = 0 /\ forall i, b <= i < b + n -> pro s i <> phys / SPI_FLASH_MMU_PAGE_SIZE) \/
  (ptr <> 0 /\ spi_flash_cache2phys ptr s = phys /\
   exists i, b <= i < b + n /\ pro s i = phys / SPI_FLASH_MMU_PAGE_SIZE /\ (forall j, b <= j < i -> pro s j <> phys / SPI_FLASH_MMU_PAGE_SIZE) /\
     ptr = entry_addr memory i + phys mod SPI_FLASH_MMU_PAGE_SIZE).
Proof.
  intros Hp. set (page := phys / SPI_FLASH_MMU_PAGE_SIZE). assert (Hpage : 0 <= page < 256) by (unfold page, SPI_FLASH_MMU_PAGE_SIZE; Z.to_euclidean_division_equations; lia).
  assert (Hm : 0 <= phys mod SPI_FLASH_MMU_PAGE_SIZE < SPI_FLASH_MMU_PAGE_SIZE) by (apply Z.mod_pos_bound; unfold SPI_FLASH_MMU_PAGE_SIZE; lia).
  assert (Ephys : page * SPI_FLASH_MMU_PAGE_SIZE + phys mod SPI_FLASH_MMU_PAGE_SIZE = phys) by (unfold page, SPI_FLASH_MMU_PAGE_SIZE; Z.to_euclidean_division_equations; lia).
  assert (Reg : let '(b, n, _) := get_mmu_region memory in spi_flash_phys2cache phys memory s =
    match find (fun i => pro s i =? page) (seqZ b n) with Some i => entry_addr memory i + phys mod SPI_FLASH_MMU_PAGE_SIZE | None => 0 end).
  { assert (L : forall a i, 0 <= i -> a mod SPI_FLASH_MMU_PAGE_SIZE = 0 -> 0 <= a ->
      Z.lor (a + SPI_FLASH_MMU_PAGE_SIZE * i) (Z.land phys (SPI_FLASH_MMU_PAGE_SIZE - 1)) = a + i * SPI_FLASH_MMU_PAGE_SIZE + phys mod SPI_FLASH_MMU_PAGE_SIZE).
    { intros a i Hi Ha H0. change (SPI_FLASH_MMU_PAGE_SIZE - 1) with (Z.ones 16). rewrite Z.land_ones by done. change (2 ^ 16) with SPI_FLASH_MMU_PAGE_SIZE.
      replace (a + SPI_FLASH_MMU_PAGE_SIZE * i) with ((a / SPI_FLASH_MMU_PAGE_SIZE + i) * SPI_FLASH_MMU_PAGE_SIZE) by (unfold SPI_FLASH_MMU_PAGE_SIZE in *; Z.to_euclidean_division_equations; lia).
      rewrite lor_page by (done || (pose proof (Z.div_pos a SPI_FLASH_MMU_PAGE_SIZE H0 ltac:(unfold SPI_FLASH_MMU_PAGE_SIZE; lia)); lia)).
      unfold SPI_FLASH_MMU_PAGE_SIZE in *. Z.to_euclidean_division_equations; lia. }
    unfold spi_flash_phys2cache, entry_addr, PAGE_IN_FLASH. fold page. rewrite region_values. destruct memory.
    - change (DROM0_PAGES_END - DROM0_PAGES_START) with 64. change DROM0_PAGES_START with 0.
      change (if IROM0_PAGES_START <? 0 then 0 else 0) with 0. pose proof (find_first (fun i => pro s i =? page) 0 64 ltac:(lia)) as F. destruct (find _ _) as [i|]; [|done].
      change VADDR0_START_ADDR with 0x3F400000. rewrite L by (done || lia). done.
    - change (IROM0_PAGES_END - PRO_IRAM0_FIRST_USABLE_PAGE) with 179. change PRO_IRAM0_FIRST_USABLE_PAGE with 77. change (if IROM0_PAGES_START <? DROM0_PAGES_START then 0 else IROM0_PAGES_START) with 64.
      pose proof (find_first (fun i => pro s i =? page) 77 179 ltac:(lia)) as F. destruct (find _ _) as [i|]; [|done].
      change VADDR1_START_ADDR with 0x40000000. rewrite L by (done || lia). unfold SPI_FLASH_MMU_PAGE_SIZE. lia. }
  pose proof (region_bounds memory) as Rb. pose proof (fun i Hi => cache2phys_entry memory i (phys mod SPI_FLASH_MMU_PAGE_SIZE) s Hi Hm) as Back. pose proof (region_values memory) as Rv.
  destruct (get_mmu_region memory) as [[b n] a]. destruct Rb as (B0 & B1 & B2). cbv zeta. rewrite Reg. pose proof (find_first (fun i => pro s i =? page) b n ltac:(lia)) as F. destruct (find _ _) as [i|].
  - right. destruct F as (F1 & F2%Z.eqb_eq & F3). split.
    + assert (H : 0 < entry_addr memory i) by (unfold entry_addr; rewrite region_values; unfold SPI_FLASH_MMU_PAGE_SIZE; destruct memory; injection Rv as -> -> ->; lia). lia.
    + split; [rewrite Back, F2 by lia; done|]. exists i. split; [done|]. split; [done|]. split; [|done]. intros j Hj. by apply Z.eqb_neq, F3.
  - left. split; [done|]. intros i Hi. by apply Z.eqb_neq, F.
Qed.
End read.

(** ** Flushing after a write to flash *)
Section flush.
Context {menv : MmapEnv}.
Implicit Types (s : mmap_state).

Definition page_mapped s (page : Z) : Prop := exists i, (0 <= i < 64 \/ 77 <= i < 256) /\ pro s i = page.

Lemma page_mapped_run page s : is_page_mapped_in_cache page s = true <-> page_mapped s page.
Proof.
  unfold is_page_mapped_in_cache, page_mapped, PAGE_IN_FLASH. rewrite existsb_exists. change (DROM0_PAGES_END - DROM0_PAGES_START) with 64. change DROM0_PAGES_START with 0.
  change (IROM0_PAGES_END - PRO_IRAM0_FIRST_USABLE_PAGE) with 179. change PRO_IRAM0_FIRST_USABLE_PAGE with 77. split.
  - intros (i & Hi%list_elem_of_In & E%Z.eqb_eq). exists i. split; [|done]. rewrite elem_of_app, !elem_of_seqZ in Hi. lia.
  - intros (i & Hi & <-). exists i. split; [|apply Z.eqb_refl]. apply list_elem_of_In. rewrite elem_of_app, !elem_of_seqZ. lia.
Qed.

Lemma check_pages_run n : forall fuel page s, (n <= fuel)%nat -> 0 <= page -> page + Z.of_nat n <= 256 ->
  check_pages fuel (page * SPI_FLASH_MMU_PAGE_SIZE) ((page + Z.of_nat n) * SPI_FLASH_MMU_PAGE_SIZE) s =
    Ok (if existsb (fun p => is_page_mapped_in_cache p s) (seqZ page (Z.of_nat n)) then (true, Cache_Flush s) else (false, s)).
Proof.
  induction n as [|n IH]; intros fuel page s Hf Hp Hn.
  - rewrite Z.add_0_r. cbn [seqZ]. destruct fuel; cbn [check_pages]; by rewrite Z.ltb_irrefl.
  - destruct fuel as [|fuel]; [lia|]. cbn [check_pages]. destruct (Z.ltb_spec (page * SPI_FLASH_MMU_PAGE_SIZE) ((page + Z.of_nat (S n)) * SPI_FLASH_MMU_PAGE_SIZE)); [|unfold SPI_FLASH_MMU_PAGE_SIZE in *; lia].
    rewrite Z.div_mul by done. destruct (Z.leb_spec 256 page); [lia|]. rewrite seqZ_cons by lia. cbn [existsb]. destruct (is_page_mapped_in_cache page s); [done|]. cbn [orb].
    replace (Z.pred (Z.of_nat (S n))) with (Z.of_nat n) by lia. replace (Z.succ page) with (page + 1) by lia. rewrite <- (IH fuel) by lia.
    f_equal; [rewrite u32_small; unfold is_u32, SPI_FLASH_MMU_PAGE_SIZE; lia|unfold SPI_FLASH_MMU_PAGE_SIZE; lia].
Qed.

(** The cache is flushed just when a page of the range is mapped. *)
Lemma check_and_flush_exact start len s : 0 <= start -> 0 < len -> start + len <= 2 ^ 24 - SPI_FLASH_MMU_PAGE_SIZE ->
  exists b, spi_flash_check_and_flush_cache start len s = Ok (b, if b : bool then Cache_Flush s else s) /\
    (b = true <-> exists p, start / SPI_FLASH_MMU_PAGE_SIZE <= p <= (start + len - 1) / SPI_FLASH_MMU_PAGE_SIZE /\ page_mapped s p).
Proof.
  intros H0 H1 H2. unfold spi_flash_check_and_flush_cache. set (P := SPI_FLASH_MMU_PAGE_SIZE) in *. assert (EP : P = 0x10000) by done.
  assert (D : forall x, Z.ldiff x (P - 1) = x / P * P).
  { intros x. change (P - 1) with (Z.ones 16). rewrite Z.ldiff_ones_r, Z.shiftl_mul_pow2, Z.shiftr_div_pow2 by lia. done. }
  rewrite !D. set (p0 := start / P). set (n := (start + len - 1) / P - p0 + 1). clearbody P. subst P.
  assert (Hn : 0 < n /\ 0 <= p0 /\ p0 + n <= 256) by (unfold n, p0; Z.to_euclidean_division_equations; lia).
  rewrite (u32_small (len + _)) by (unfold is_u32; unfold p0; Z.to_euclidean_division_equations; lia).
  rewrite (u32_small (_ + 0x10000 - 1)) by (unfold is_u32; unfold p0; Z.to_euclidean_division_equations; lia).
  replace ((len + (start - p0 * 0x10000) + 0x10000 - 1) / 0x10000) with n by (unfold n, p0; Z.to_euclidean_division_equations; lia).
  rewrite u32_small by (unfold is_u32; lia). rewrite <- Z.mul_add_distr_r.
  pose proof (check_pages_run (Z.to_nat n) 257 p0 s) as R. change SPI_FLASH_MMU_PAGE_SIZE with 0x10000 in R. rewrite Z2Nat.id in R by lia. rewrite R by lia.
  exists (existsb (fun p => is_page_mapped_in_cache p s) (seqZ p0 n)). split; [by destruct (existsb _ _)|]. rewrite existsb_exists. split.
  - intros (p & Hp%list_elem_of_In%elem_of_seqZ & M%page_mapped_run). exists p. split; [unfold n in Hp; lia|done].
  - intros (p & Hp & M%page_mapped_run). exists p. split; [apply list_elem_of_In, elem_of_seqZ; unfold n; lia|done].
Qed.
End flush.

(** ** Examples *)
#[local] Instance flash_4mb : MmapEnv := {| chip_size := 0x400000 |}.
Definition boot_tables : gmap Z Z := {[ 0 := 1; 1 := 2; 77 := 3; 78 := 4 ]}.
(** The bootloader has left an entry on one processor. *)
Definition at_start : mmap_state := mkMmap (<[100 := 9]> boot_tables) boot_tables ∅ [] 0 ∅ 0.
Definition example_calls : list mmap_call :=
  [GetFreePages SPI_FLASH_MMAP_DATA; MmapPages true true [5; 2] SPI_FLASH_MMAP_DATA; Mmap true true 0x20000 0x18000 SPI_FLASH_MMAP_DATA;
   Mmap true true 0x50000 0x10000 SPI_FLASH_MMAP_DATA; Munmap 1; GetFreePages SPI_FLASH_MMAP_DATA; Mmap true true 0x30000 0x20000 SPI_FLASH_MMAP_INST;
   Mmap true true 0 0x410000 SPI_FLASH_MMAP_DATA; MmapPages true true (replicate 65 0) SPI_FLASH_MMAP_DATA].

Lemma at_start_started : started at_start.
Proof. by split_and!. Qed.

Lemma mmap_history_refines_witness : exists s', run_steps example_calls at_start =
    Ok ([FreePages 62; Mapped ESP_OK 0x3F420000 1; Mapped ESP_OK 0x3F430000 2; Mapped ESP_OK 0x3F420000 3; Unmapped; FreePages 59; Mapped ESP_OK 0x400D0000 4;
         Mapped ESP_ERR_INVALID_ARG 0 0; Mapped ESP_ERR_NO_MEM 0 0], s') /\
  readable (mkMapping 2 0x3F430000 [2; 3]) s' /\ allocated s' = 4.
Proof.
  destruct (spec_run example_calls (start_spec at_start)) as [[answers sp]|] eqn:E; [|by vm_compute in E].
  destruct (mmap_history_refines example_calls at_start answers sp) as (s' & R & Rd & _ & Al); [done|apply at_start_started|done|].
  assert (Ea : Some (answers, live sp, leaked sp) = ('(a, sp) ← spec_run example_calls (start_spec at_start); Some (a, live sp, leaked sp))) by (by rewrite E).
  vm_compute in Ea. injection Ea as Ea El Ek. exists s'. rewrite R, Ea. split; [done|]. split.
  - apply Rd. change (live sp) with (let (_, live, _, _) := sp in live). rewrite El. by apply (list_elem_of_lookup_2 _ 2).
  - rewrite Al. change (live sp) with (let (_, live, _, _) := sp in live). rewrite El. change (leaked sp) with (let (_, _, _, leaked) := sp in leaked). by rewrite Ek.
Defined.

Lemma phys2cache_inverse_witness : spi_flash_phys2cache 0x2abcd SPI_FLASH_MMAP_DATA at_start <> 0 /\ spi_flash_cache2phys (spi_flash_phys2cache 0x2abcd SPI_FLASH_MMAP_DATA at_start) at_start = 0x2abcd.
Proof.
  destruct (phys2cache_inverse 0x2abcd SPI_FLASH_MMAP_DATA at_start) as [[H _]|(H1 & H2 & _)]; [lia|by vm_compute in H|by split].
Defined.

(** Addresses that are not mapped flash are translated: the 64 KB before the data
    region as its first entry, and the external RAM by the entries for
    instructions. *)
Lemma cache2phys_outside : spi_flash_cache2phys 0x3F3FFFFF at_start = 0x1FFFF /\ spi_flash_cache2phys 0x3F8D0000 at_start = 0x30000.
Proof. by vm_compute. Qed.

(** After 256 mappings of one page its count is 0, and the next request takes the entry. *)
Fixpoint map_again (n : nat) (s : mmap_state) : outcome mmap_state :=
  match n with O => Ok s | S n => '(_, s) ← run_step (Mmap true true 0x50000 0x10000 SPI_FLASH_MMAP_DATA) s; map_again n s end.
Lemma refcnt_wraps : (s ← map_again 256 at_start; '(a, s') ← run_step (Mmap true true 0x60000 0x10000 SPI_FLASH_MMAP_DATA) s; Ok (lenZ (s_mmap_entries_head s), pro s 2, a, pro s' 2)) =
  Ok (256, 5, Mapped ESP_OK 0x3F420000 257, 6).
Proof. by vm_compute. Qed.
