(* ===== verification/CString.v ===== *)
(** * Strings of C

    The string functions of the C library that the console and the HTTP server
    use.  A string is the list of its characters without the terminating zero. *)
From S2P Require Import Prelude.
From Stdlib Require Strings.String Strings.Ascii.

Definition is_string (l : list Z) : Prop := Forall (fun c => 0 < c) l.

(** The characters of a literal. *)
Definition chars (s : string) : list Z := map (fun c => Z.of_N (Ascii.N_of_ascii c)) (String.list_ascii_of_string s).

Fixpoint strcmp (a b : list Z) : Z :=
  match a, b with
  | [], [] => 0
  | [], d :: _ => - d
  | c :: _, [] => c
  | c :: a, d :: b => if c =? d then strcmp a b else c - d
  end.
Fixpoint strncmp (a b : list Z) (n : nat) {struct n} : Z :=
  match n with
  | O => 0
  | S n =>
      match a, b with
      | [], [] => 0
      | [], d :: _ => - d
      | c :: _, [] => c
      | c :: a, d :: b => if c =? d then strncmp a b n else c - d
      end
  end.

Definition tolower (c : Z) : Z := if (65 <=? c) && (c <=? 90) then c + 32 else c.
Definition strncasecmp (a b : list Z) (n : nat) : Z := strncmp (map tolower a) (map tolower b) n.

(** [strlcpy] writes into [buf], and its value is the buffer afterwards. *)
Definition strlcpy (buf src : list Z) (size : Z) : outcome (list Z) :=
  if size =? 0 then Ok buf
  else
    let w := take (Z.to_nat (size - 1)) src ++ [0] in
    if lenZ w <=? lenZ buf then Ok (w ++ drop (length w) buf) else Fault.

(** [strchr]: what is in front of the first [c], and the string from behind it. *)
Fixpoint strchr (l : list Z) (c : Z) : option (list Z * list Z) :=
  match l with
  | [] => None
  | d :: l => if d =? c then Some ([], l) else '(before, after) ← strchr l c; Some (d :: before, after)
  end.

(** The string at the start of a buffer. *)
Fixpoint c_str (buf : list Z) : outcome (list Z) :=
  match buf with
  | [] => Fault
  | c :: buf => if c =? 0 then Ok [] else s ← c_str buf; Ok (c :: s)
  end.

(** Numbers as [printf] writes them: [%d] and [%x]. *)
Definition digit (d : Z) : Z := if d <? 10 then 48 + d else 87 + d.
Fixpoint digits (fuel : nat) (base n : Z) (acc : list Z) : list Z :=
  match fuel with
  | O => acc
  | S fuel => if n <? base then digit n :: acc else digits fuel base (n / base) (digit (n mod base) :: acc)
  end.
Definition printf_d (n : Z) : list Z := if n <? 0 then 45 :: digits 32 10 (- n) [] else digits 32 10 n [].
Definition printf_x (n : Z) : list Z := digits 32 16 (u32 n) [].

(** ** Lemmas *)
Lemma strcmp_eq a b : is_string a -> is_string b -> strcmp a b = 0 <-> a = b.
Proof.
  intros Ha. revert b. induction Ha as [|c a Hc _ IH]; intros [|d b] Hb; simpl; try apply Forall_cons in Hb as [Hd Hb];
    try (split; [lia|discriminate]); [done|].
  destruct (Z.eqb_spec c d) as [->|]; [rewrite IH by done; naive_solver|]. split; [lia|congruence].
Qed.
Lemma strncmp_prefix a b : is_string a -> is_string b -> strncmp a b (length a) = 0 <-> a `prefix_of` b.
Proof.
  intros Ha. revert b. induction Ha as [|c a Hc _ IH]; intros b Hb; simpl; [split; [intros _; apply prefix_nil|done]|].
  destruct b as [|d b]; [split; [lia|intros ?%prefix_nil_inv; done]|]. apply Forall_cons in Hb as [Hd Hb].
  destruct (Z.eqb_spec c d) as [->|]; [rewrite IH by done; split; [apply prefix_cons|apply prefix_cons_inv_2]|].
  split; [lia|]. by intros ?%prefix_cons_inv_1.
Qed.
(** Within both strings, the first [n] characters are compared. *)
Lemma strncmp_take a b n : (n <= length a)%nat -> (n <= length b)%nat -> strncmp a b n = 0 <-> take n a = take n b.
Proof.
  revert a b. induction n as [|n IH]; intros a b Ha Hb; [done|].
  destruct a as [|c a]; [simpl in Ha; lia|]. destruct b as [|d b]; [simpl in Hb; lia|]. simpl in *.
  destruct (Z.eqb_spec c d) as [->|]; [|split; [lia|congruence]].
  rewrite IH by lia. split; [by intros ->|congruence].
Qed.

Lemma strlcpy_exact buf src size : 1 <= size -> size <= lenZ buf ->
  exists rest, strlcpy buf src size = Ok (take (Z.to_nat (size - 1)) src ++ 0 :: rest) /\
    length (take (Z.to_nat (size - 1)) src ++ 0 :: rest) = length buf.
Proof.
  intros Hs Hb. unfold strlcpy. rewrite (proj2 (Z.eqb_neq size 0)) by lia.
  set (w := take (Z.to_nat (size - 1)) src ++ [0]). assert (Hw : (length w <= length buf)%nat).
  { unfold w, lenZ in *. rewrite length_app, length_take. simpl. lia. }
  assert (E : forall l, w ++ l = take (Z.to_nat (size - 1)) src ++ 0 :: l) by (intros l; unfold w; by rewrite <- app_assoc).
  rewrite (proj2 (Z.leb_le _ _)) by (unfold lenZ; lia). exists (drop (length w) buf).
  rewrite <- E. split; [done|]. rewrite length_app, length_drop. lia.
Qed.

Lemma strchr_some l c a b : strchr l c = Some (a, b) <-> l = a ++ c :: b /\ c ∉ a.
Proof.
  revert a b. induction l as [|d l IH]; intros a b; simpl; [split; [done|]; intros [E _]; by destruct a|].
  destruct (Z.eqb_spec d c) as [->|Hd].
  - split; [intros [= <- <-]; split; [done|apply not_elem_of_nil]|].
    intros [E Ha]. destruct a as [|e a]; simplify_eq/=; [done|]. set_solver.
  - split.
    + destruct (strchr l c) as [[x y]|] eqn:E; [|done]. intros [= <- <-].
      destruct (proj1 (IH x y) eq_refl) as [-> Hx]. split; [done|]. set_solver.
    + intros [E Ha]. destruct a as [|e a]; simplify_eq/=. by rewrite (proj2 (IH a b)) by set_solver.
Qed.
Lemma strchr_none l c : strchr l c = None <-> c ∉ l.
Proof.
  induction l as [|d l IH]; simpl; [split; [intros; apply not_elem_of_nil|done]|].
  destruct (Z.eqb_spec d c) as [->|Hd]; [split; [done|set_solver]|].
  destruct (strchr l c) as [[x y]|]; [|set_solver]. split; [done|]. intros H.
  assert (E : Some (x, y) = None) by (apply IH; set_solver). done.
Qed.

Lemma c_str_app s rest : is_string s -> c_str (s ++ 0 :: rest) = Ok s.
Proof.
  induction 1 as [|c s Hc _ IH]; [done|]. simpl. rewrite (proj2 (Z.eqb_neq c 0)) by lia. by rewrite IH.
Qed.
