(* ===== verification/SplitArgv.v ===== *)
(** * Splitting a command line ([components/console/split_argv.c])

    The arguments are cut out of the line in place: the text is read at [in_ptr]
    and the unquoted arguments are written at [out_ptr], into the same buffer.  A
    buffer is the list of its bytes, a pointer into it a number, [argv] an array of
    pointers.  [arguments] is what the header describes; the theorems show that the
    pointers returned lead to these arguments, and that quoting is inverted. *)
From S2P Require Import Prelude.

(** ** The code *)
Definition QUOTE := 34.
Definition ESCAPE := 92.
Definition SPACE := 32.

Inductive split_state_t := SS_SPACE | SS_ARG | SS_QUOTED_ARG | SS_ARG_ESCAPED | SS_QUOTED_ARG_ESCAPED.
#[export] Instance split_state_dec : EqDecision split_state_t.
Proof. solve_decision. Defined.

(** The line, the array and the local variables. *)
Record split := mkSplit {
  line : list Z; argv : list (option Z);
  argc : Z; next_arg_start : Z; out_ptr : Z; state : split_state_t
}.
#[export] Instance rebuild_split : Rebuild split :=
  fun s => mkSplit (line s) (argv s) (argc s) (next_arg_start s) (out_ptr s) (state s).

(** [buf[p] = v], where the array has that element. *)
Definition array_set {A} (buf : list A) (p : Z) (v : A) : outcome (list A) :=
  if (0 <=? p) && (p <? lenZ buf) then Ok (<[Z.to_nat p := v]> buf) else Fault.
Definition array_get {A} (buf : list A) (p : Z) : outcome A :=
  if p <? 0 then Fault else match buf !! Z.to_nat p with Some v => Ok v | None => Fault end.

(** [argv[argc++] = p]. *)
Definition push_arg (p : option Z) (s : split) : outcome split :=
  l ← array_set (argv s) (argc s) p;
  Ok (s <| argv := l |> <| argc := argc s + 1 |>).

(** The macro; [char_out] becomes 0. *)
Definition END_ARG (s : split) : outcome (Z * split) :=
  s ← push_arg (Some (next_arg_start s)) s;
  Ok (0, s <| state := SS_SPACE |>).

Definition unescape (st : split_state_t) : split_state_t :=
  match st with SS_ARG_ESCAPED => SS_ARG | SS_QUOTED_ARG_ESCAPED => SS_QUOTED_ARG | st => st end.

(** The [switch]: [char_out] and the new state. *)
Definition split_switch (char_in : Z) (s : split) : outcome (Z * split) :=
  match state s with
  | SS_SPACE =>
      if char_in =? SPACE then Ok (-1, s)
      else if char_in =? QUOTE then Ok (-1, s <| next_arg_start := out_ptr s |> <| state := SS_QUOTED_ARG |>)
      else if char_in =? ESCAPE then Ok (-1, s <| next_arg_start := out_ptr s |> <| state := SS_ARG_ESCAPED |>)
      else Ok (char_in, s <| next_arg_start := out_ptr s |> <| state := SS_ARG |>)
  | SS_QUOTED_ARG =>
      if char_in =? QUOTE then END_ARG s
      else if char_in =? ESCAPE then Ok (-1, s <| state := SS_QUOTED_ARG_ESCAPED |>)
      else Ok (char_in, s)
  | SS_ARG_ESCAPED | SS_QUOTED_ARG_ESCAPED =>
      let char_out := if (char_in =? ESCAPE) || (char_in =? QUOTE) || (char_in =? SPACE) then char_in else -1 in
      Ok (char_out, s <| state := unescape (state s) |>)
  | SS_ARG =>
      if char_in =? SPACE then END_ARG s
      else if char_in =? ESCAPE then Ok (-1, s <| state := SS_ARG_ESCAPED |>)
      else Ok (char_in, s)
  end.

Definition split_step (char_in : Z) (s : split) : outcome split :=
  '(char_out, s) ← split_switch char_in s;
  if 0 <=? char_out then
    l ← array_set (line s) (out_ptr s) char_out;
    Ok (s <| line := l |> <| out_ptr := out_ptr s + 1 |>)
  else Ok s.

(** [argc < argv_size - 1], computed as [size_t]. *)
Definition room (argv_size : Z) (s : split) : bool := argc s <? u32 (argv_size - 1).

(** Each pass reads one character further. *)
Fixpoint split_loop (fuel : nat) (in_ptr argv_size : Z) (s : split) : outcome split :=
  if room argv_size s then
    match fuel with
    | O => OutOfFuel
    | S fuel =>
        char_in ← array_get (line s) in_ptr;
        if char_in =? 0 then Ok s
        else s ← split_step char_in s; split_loop fuel (in_ptr + 1) argv_size s
    end
  else Ok s.

(** [argc], the line and the array. *)
Definition esp_console_split_argv (l : list Z) (a : list (option Z)) (argv_size : Z) : outcome (Z * list Z * list (option Z)) :=
  s ← split_loop (S (length l)) 0 argv_size (mkSplit l a 0 0 0 SS_SPACE);
  l ← array_set (line s) (out_ptr s) 0;
  let s := s <| line := l |> in
  s ← (if bool_decide (state s <> SS_SPACE) && room argv_size s then push_arg (Some (next_arg_start s)) s else Ok s);
  a ← array_set (argv s) (argc s) None;
  Ok (argc s, line s, a).

(** The string at a pointer: the bytes before the first zero. *)
Fixpoint string_of (l : list Z) : option (list Z) :=
  match l with
  | [] => None
  | c :: l => if c =? 0 then Some [] else cons c <$> string_of l
  end.
Definition c_string (buf : list Z) (p : Z) : option (list Z) := if p <? 0 then None else string_of (drop (Z.to_nat p) buf).

(** ** What the header describes *)

(** The rest of an argument, up to its end, and the text behind it.  A backslash
    stands for the character behind it if that is a backslash, a quote or a space,
    and both are dropped otherwise. *)
Definition escapable (c : Z) : bool := (c =? ESCAPE) || (c =? QUOTE) || (c =? SPACE).
Fixpoint word (ends : Z) (text : list Z) : list Z * list Z :=
  match text with
  | [] => ([], [])
  | c :: text =>
      if c =? ends then ([], text)
      else if c =? ESCAPE then
        match text with
        | [] => ([], [])
        | e :: text => let '(w, r) := word ends text in (if escapable e then e :: w else w, r)
        end
      else let '(w, r) := word ends text in (c :: w, r)
  end.

Fixpoint arguments_of (n : nat) (text : list Z) : list (list Z) :=
  match n with
  | O => []
  | S n =>
      match text with
      | [] => []
      | c :: text' =>
          if c =? SPACE then arguments_of n text'
          else let '(w, r) := if c =? QUOTE then word QUOTE text' else word SPACE text in w :: arguments_of n r
      end
  end.
Definition arguments (text : list Z) : list (list Z) := arguments_of (length text) text.

(** An argument as a user writes it to get it back. *)
Definition quote (w : list Z) : list Z :=
  QUOTE :: flat_map (fun c => if (c =? QUOTE) || (c =? ESCAPE) then [ESCAPE; c] else [c]) w ++ [QUOTE].
Definition command_line (ws : list (list Z)) : list Z := flat_map (fun w => SPACE :: quote w) ws.

(** ** The reference definition *)
Lemma word_shorter e t : (length (word e t).2 <= length t)%nat.
Proof.
  cut (forall n t, (length t <= n)%nat -> (length (word e t).2 <= length t)%nat); [intros H; by apply (H (length t))|].
  clear t. induction n as [|n IH]; intros [|c t] Hn; simpl in *; try lia.
  case_match; [simpl; lia|]. case_match.
  - destruct t as [|x t]; [simpl; lia|]. simpl in *. pose proof (IH t ltac:(lia)). destruct (word e t). simpl in *. lia.
  - pose proof (IH t ltac:(lia)). destruct (word e t). simpl in *. lia.
Qed.

Lemma word_plain_shorter c t : c <> SPACE -> (length (word SPACE (c :: t)).2 <= length t)%nat.
Proof.
  intros Hs. simpl. rewrite (proj2 (Z.eqb_neq _ _) Hs).
  pose proof (word_shorter SPACE t) as L. pose proof (word_shorter SPACE (tail t)) as L'.
  case_match; [destruct t as [|x t]; [simpl; lia|]; simpl in *; destruct (word SPACE t) | destruct (word SPACE t)]; simpl in *; lia.
Qed.

(** The bound in [arguments] is large enough. *)
Lemma arguments_of_enough k : forall t n m, (length t <= k)%nat -> (length t <= n)%nat -> (length t <= m)%nat -> arguments_of n t = arguments_of m t.
Proof.
  induction k as [|k IH]; intros [|c t] [|n] [|m] Hk Hn Hm; cbn [length] in *; try lia; try done.
  cbn [arguments_of]. destruct (Z.eqb_spec c SPACE); [apply IH; lia|].
  pose proof (word_shorter QUOTE t) as L. pose proof (word_plain_shorter c t n0) as L'.
  destruct (Z.eqb c QUOTE); [destruct (word QUOTE t) | destruct (word SPACE (c :: t))]; simpl in *; f_equal; apply IH; lia.
Qed.

Lemma arguments_nil : arguments [] = [].
Proof. done. Qed.
Lemma arguments_space t : arguments (SPACE :: t) = arguments t.
Proof. done. Qed.
Lemma arguments_quote t : arguments (QUOTE :: t) = let '(w, r) := word QUOTE t in w :: arguments r.
Proof.
  unfold arguments. simpl. pose proof (word_shorter QUOTE t). destruct (word QUOTE t) as [w r].
  simpl in *. f_equal. by apply (arguments_of_enough (length t)).
Qed.
Lemma arguments_plain c t : c <> SPACE -> c <> QUOTE ->
  arguments (c :: t) = let '(w, r) := word SPACE (c :: t) in w :: arguments r.
Proof.
  intros Hs Hq. unfold arguments. cbn [length arguments_of]. rewrite (proj2 (Z.eqb_neq _ _) Hs), (proj2 (Z.eqb_neq _ _) Hq).
  pose proof (word_plain_shorter c t Hs). destruct (word SPACE (c :: t)) as [w r].
  simpl in *. f_equal. by apply (arguments_of_enough (length t)).
Qed.

(** ** The passes of the loop *)

(** The arguments of which the beginning [cur] was read already. *)
Definition ends (st : split_state_t) : Z := match st with SS_QUOTED_ARG | SS_QUOTED_ARG_ESCAPED => QUOTE | _ => SPACE end.
Definition pending (st : split_state_t) (cur text : list Z) : list (list Z) :=
  match st with
  | SS_SPACE => arguments text
  | SS_ARG | SS_QUOTED_ARG => let '(w, r) := word (ends st) text in (cur ++ w) :: arguments r
  | SS_ARG_ESCAPED | SS_QUOTED_ARG_ESCAPED =>
      match text with
      | [] => [cur]
      | e :: text => let '(w, r) := word (ends st) text in (cur ++ (if escapable e then e :: w else w)) :: arguments r
      end
  end.

(** One character: the finished arguments, the current one and the state. *)
Definition advance (c : Z) (a : list (list Z) * list Z * split_state_t) : list (list Z) * list Z * split_state_t :=
  let '(dn, cur, st) := a in
  match st with
  | SS_SPACE =>
      if c =? SPACE then a
      else if c =? QUOTE then (dn, [], SS_QUOTED_ARG)
      else if c =? ESCAPE then (dn, [], SS_ARG_ESCAPED)
      else (dn, [c], SS_ARG)
  | SS_QUOTED_ARG =>
      if c =? QUOTE then (dn ++ [cur], [], SS_SPACE) else if c =? ESCAPE then (dn, cur, SS_QUOTED_ARG_ESCAPED) else (dn, cur ++ [c], st)
  | SS_ARG =>
      if c =? SPACE then (dn ++ [cur], [], SS_SPACE) else if c =? ESCAPE then (dn, cur, SS_ARG_ESCAPED) else (dn, cur ++ [c], st)
  | SS_ARG_ESCAPED | SS_QUOTED_ARG_ESCAPED => (dn, if escapable c then cur ++ [c] else cur, unescape st)
  end.

(** What is finished and what is pending together stay the same. *)
Lemma advance_pending c dn cur st text : (st = SS_SPACE -> cur = []) ->
  dn ++ pending st cur (c :: text) = let '(dn', cur', st') := advance c (dn, cur, st) in dn' ++ pending st' cur' text.
Proof.
  intros Hc. destruct st; simpl.
  - rewrite Hc by done. destruct (Z.eqb_spec c SPACE) as [->|Hs]; [by rewrite arguments_space|].
    destruct (Z.eqb_spec c QUOTE) as [->|Hq]; [by rewrite arguments_quote|].
    rewrite arguments_plain by done. simpl. rewrite (proj2 (Z.eqb_neq _ _) Hs).
    destruct (Z.eqb c ESCAPE); [|simpl; by destruct (word SPACE text)].
    destruct text as [|e text]; simpl; [by rewrite arguments_nil|]. by destruct (word SPACE text).
  - destruct (Z.eqb c SPACE); [by rewrite app_nil_r, <- app_assoc|]. destruct (Z.eqb c ESCAPE); simpl.
    + destruct text as [|e text]; [by rewrite app_nil_r, arguments_nil|]. by destruct (word SPACE text).
    + destruct (word SPACE text). by rewrite <- app_assoc.
  - destruct (Z.eqb c QUOTE); [by rewrite app_nil_r, <- app_assoc|]. destruct (Z.eqb c ESCAPE); simpl.
    + destruct text as [|e text]; [by rewrite app_nil_r, arguments_nil|]. by destruct (word QUOTE text).
    + destruct (word QUOTE text). by rewrite <- app_assoc.
  - destruct (escapable c), (word SPACE text); simpl; by rewrite <- ?app_assoc.
  - destruct (escapable c), (word QUOTE text); simpl; by rewrite <- ?app_assoc.
Qed.

(** The arguments as they lie in the line, and where they begin. *)
Definition layout (ws : list (list Z)) : list Z := flat_map (fun w => w ++ [0]) ws.
Fixpoint starts (p : Z) (ws : list (list Z)) : list Z :=
  match ws with [] => [] | w :: ws => p :: starts (p + lenZ w + 1) ws end.

Lemma layout_snoc ws w : layout (ws ++ [w]) = layout ws ++ w ++ [0].
Proof. unfold layout. rewrite flat_map_app. simpl. by rewrite app_nil_r. Qed.
Lemma starts_snoc ws w p : starts p (ws ++ [w]) = starts p ws ++ [p + lenZ (layout ws)].
Proof.
  revert p. induction ws as [|x ws IH]; intros p; simpl; [do 2 f_equal; unfold lenZ; simpl; lia|].
  rewrite IH. do 3 f_equal. rewrite !lenZ_app. unfold lenZ. simpl. lia.
Qed.
Lemma length_starts ws p : length (starts p ws) = length ws.
Proof. revert p. induction ws as [|w ws IH]; intros p; simpl; [done|]. by rewrite IH. Qed.

Lemma array_set_app {A} (l k : list A) x v : array_set (l ++ x :: k) (lenZ l) v = Ok (l ++ v :: k).
Proof.
  unfold array_set. rewrite (proj2 (Z.leb_le _ _)) by apply lenZ_nonneg.
  rewrite (proj2 (Z.ltb_lt _ _)) by (rewrite lenZ_app, lenZ_cons; pose proof (lenZ_nonneg k); lia).
  simpl. unfold lenZ. rewrite Nat2Z.id. by rewrite insert_app_r_alt, Nat.sub_diag by lia.
Qed.
Lemma array_get_app {A} (l k : list A) x : array_get (l ++ x :: k) (lenZ l) = Ok x.
Proof.
  unfold array_get. rewrite (proj2 (Z.ltb_ge _ _)) by apply lenZ_nonneg.
  unfold lenZ. by rewrite Nat2Z.id, list_lookup_middle.
Qed.

(** The variables when the arguments [dn] are finished and [cur] was read of the
    next one.  [gap] lies between what was written and what was not yet read. *)
Record Reading (s : split) (dn : list (list Z)) (cur gap text : list Z) (av : list (option Z)) : Prop := {
  rd_line : line s = (layout dn ++ cur ++ gap) ++ text;
  rd_argv : argv s = map Some (starts 0 dn) ++ av;
  rd_argc : argc s = lenZ dn;
  rd_out : out_ptr s = lenZ (layout dn ++ cur);
  rd_cur : state s = SS_SPACE -> cur = [];
  rd_start : state s <> SS_SPACE -> next_arg_start s = lenZ (layout dn)
}.

(** The character just read makes room for the one to write. *)
Lemma write_behind (o gap text : list Z) c v :
  exists gap', length gap' = length gap /\ array_set ((o ++ gap) ++ c :: text) (lenZ o) v = Ok ((o ++ v :: gap') ++ text).
Proof.
  destruct gap as [|x gap].
  - exists []. split; [done|]. by rewrite app_nil_r, array_set_app, <- app_assoc.
  - exists (gap ++ [c]). split; [rewrite length_app; simpl; lia|].
    rewrite <- app_assoc. simpl. rewrite array_set_app. f_equal. rewrite <- !app_assoc. simpl. by rewrite <- app_assoc.
Qed.

Lemma write_correct s dn cur gap c text v :
  line s = (layout dn ++ cur ++ gap) ++ c :: text -> out_ptr s = lenZ (layout dn ++ cur) ->
  exists gap', length gap' = length gap /\ array_set (line s) (out_ptr s) v = Ok ((layout dn ++ (cur ++ [v]) ++ gap') ++ text).
Proof.
  intros Hl Ho. rewrite Hl, Ho, app_assoc. destruct (write_behind (layout dn ++ cur) gap text c v) as (gap' & E & ->).
  exists gap'. split; [done|]. by rewrite <- !app_assoc.
Qed.

(** What a pass does to the written part of the line and to the array. *)
Definition step_ok (c : Z) (s s' : split) (dn : list (list Z)) (cur gap text : list Z) (av : list (option Z)) : Prop :=
  let '(dn', cur', st') := advance c (dn, cur, state s) in
  exists gap', state s' = st' /\ Reading s' dn' cur' gap' text (drop (length dn' - length dn) av) /\
    length (layout dn' ++ cur' ++ gap') = S (length (layout dn ++ cur ++ gap)).

Ltac flat_len := rewrite ?layout_snoc, ?length_app; cbn [length]; rewrite ?length_app; cbn [length]; lia.
Ltac flat_lenZ := rewrite ?layout_snoc, ?lenZ_app, ?app_nil_r; rewrite ?lenZ_app; unfold lenZ; cbn [length]; lia.

(** Nothing is written. *)
Lemma step_silent c s dn cur gap text av st ns :
  Reading s dn cur gap (c :: text) av -> (st = SS_SPACE -> cur = []) -> (st <> SS_SPACE -> ns = lenZ (layout dn)) ->
  Reading (s <| next_arg_start := ns |> <| state := st |>) dn cur (gap ++ [c]) text av.
Proof.
  intros [Hl Ha Hc Ho Hu Hn] Hcur Hns. constructor; simpl; try done. rewrite Hl, <- !app_assoc. done.
Qed.

(** A character is written behind the current argument. *)
Lemma step_out c v s dn cur gap text av st ns :
  Reading s dn cur gap (c :: text) av -> st <> SS_SPACE -> ns = lenZ (layout dn) ->
  exists gap' l, length gap' = length gap /\ array_set (line s) (out_ptr s) v = Ok l /\
    Reading (s <| next_arg_start := ns |> <| state := st |> <| line := l |> <| out_ptr := out_ptr s + 1 |>) dn (cur ++ [v]) gap' text av.
Proof.
  intros [Hl Ha Hc Ho Hu Hn] Hst ->. destruct (write_correct s dn cur gap c text v Hl Ho) as (gap' & Eg & E).
  exists gap', ((layout dn ++ (cur ++ [v]) ++ gap') ++ text). split; [done|]. split; [done|].
  constructor; simpl; try done. rewrite Ho. flat_lenZ.
Qed.

(** An argument is finished. *)
Lemma step_end c s dn cur gap text x av :
  Reading s dn cur gap (c :: text) (x :: av) -> state s <> SS_SPACE ->
  exists gap' l a, length gap' = length gap /\ array_set (line s) (out_ptr s) 0 = Ok l /\
    array_set (argv s) (argc s) (Some (next_arg_start s)) = Ok a /\
    Reading (s <| argv := a |> <| argc := argc s + 1 |> <| state := SS_SPACE |> <| line := l |> <| out_ptr := out_ptr s + 1 |>) (dn ++ [cur]) [] gap' text av.
Proof.
  intros [Hl Ha Hc Ho Hu Hn] Hst. destruct (write_correct s dn cur gap c text 0 Hl Ho) as (gap' & Eg & E).
  exists gap', ((layout dn ++ (cur ++ [0]) ++ gap') ++ text), (map Some (starts 0 dn) ++ Some (next_arg_start s) :: av).
  split; [done|]. split; [done|]. rewrite Ha, Hc. split.
  { rewrite <- array_set_app with (x := x). f_equal. unfold lenZ. by rewrite length_map, length_starts. }
  constructor; simpl; try done.
  - by rewrite layout_snoc, <- !app_assoc.
  - rewrite starts_snoc, map_app, <- app_assoc. simpl. by rewrite Hn.
  - rewrite lenZ_app. unfold lenZ. simpl. lia.
  - rewrite Ho. flat_lenZ.
Qed.

Lemma drop_same {A} (l : list A) (n : nat) : drop (n - n) l = l.
Proof. by rewrite Nat.sub_diag. Qed.
Lemma drop_one {A} (l : list A) (ws : list (list Z)) w x : drop (length (ws ++ [w]) - length ws) (x :: l) = l.
Proof. rewrite length_app. simpl. by replace (length ws + 1 - length ws)%nat with 1%nat by lia. Qed.

(** The three ways a pass ends. *)
Lemma pass_silent c s dn cur gap text av st ns :
  Reading s dn cur gap (c :: text) av -> (st = SS_SPACE -> cur = []) -> (st <> SS_SPACE -> ns = lenZ (layout dn)) ->
  split_switch c s = Ok (-1, s <| next_arg_start := ns |> <| state := st |>) -> advance c (dn, cur, state s) = (dn, cur, st) ->
  exists s', split_step c s = Ok s' /\ step_ok c s s' dn cur gap text av.
Proof.
  intros R Hu Hns Es Ea. eexists. unfold split_step. rewrite Es. split; [done|]. unfold step_ok. rewrite Ea.
  exists (gap ++ [c]). rewrite drop_same. split; [done|]. split; [by apply step_silent|]. flat_len.
Qed.
Lemma pass_out c s dn cur gap text av st ns :
  Reading s dn cur gap (c :: text) av -> 0 <= c -> ns = lenZ (layout dn) -> st <> SS_SPACE ->
  split_switch c s = Ok (c, s <| next_arg_start := ns |> <| state := st |>) -> advance c (dn, cur, state s) = (dn, cur ++ [c], st) ->
  exists s', split_step c s = Ok s' /\ step_ok c s s' dn cur gap text av.
Proof.
  intros R Hv Hns Hst Es Ea. destruct (step_out c c s dn cur gap text av st ns R Hst Hns) as (gap' & l & Eg & El & R').
  eexists. unfold split_step. rewrite Es. ostep. rewrite (proj2 (Z.leb_le 0 c) Hv). simpl in El |- *. rewrite El. split; [done|].
  unfold step_ok. rewrite Ea. exists gap'. rewrite drop_same. split; [done|]. split; [done|]. flat_len.
Qed.
Lemma pass_end c s dn cur gap text av :
  Reading s dn cur gap (c :: text) av -> av <> [] -> state s <> SS_SPACE ->
  split_switch c s = END_ARG s -> advance c (dn, cur, state s) = (dn ++ [cur], [], SS_SPACE) ->
  exists s', split_step c s = Ok s' /\ step_ok c s s' dn cur gap text av.
Proof.
  intros R Hav Hst Es Ea. destruct av as [|x av]; [done|].
  destruct (step_end c s dn cur gap text x av R Hst) as (gap' & l & a & Eg & El & Eav & R').
  eexists. unfold split_step. rewrite Es. unfold END_ARG, push_arg. rewrite Eav. simpl in El |- *. rewrite El. split; [done|].
  unfold step_ok. rewrite Ea. exists gap'. rewrite drop_one. split; [done|]. split; [done|]. flat_len.
Qed.

(** A case of the [switch], its comparisons decided. *)
Ltac switch_done := unfold split_switch, advance, escapable; simpl; repeat match goal with E : Z.eqb _ _ = _ |- _ => rewrite E end; done.

Lemma split_step_ok c s dn cur gap text av : 0 <= c -> Reading s dn cur gap (c :: text) av -> av <> [] ->
  exists s', split_step c s = Ok s' /\ step_ok c s s' dn cur gap text av.
Proof.
  intros Hc R Hav. destruct s as [l a ac ns op st]. pose proof R as [_ _ _ Ho Hu Hn]. simpl in Ho, Hu, Hn.
  assert (D : forall k, {Z.eqb c k = true} + {Z.eqb c k = false}) by (intros k; destruct (Z.eqb c k); auto).
  destruct (D SPACE), (D QUOTE), (D ESCAPE), st; try (rewrite Hu in * by done; rewrite app_nil_r in Ho);
    first [ eapply pass_end; [exact R|done|done|switch_done|switch_done]
          | eapply (pass_out _ _ _ _ _ _ _ _ ns R Hc); [by apply Hn| |switch_done|switch_done]; done
          | eapply (pass_out _ _ _ _ _ _ _ _ op R Hc); [done| |switch_done|switch_done]; done
          | eapply (pass_silent _ _ _ _ _ _ _ _ ns R); [| |switch_done|switch_done]; [done|intros; by apply Hn]
          | eapply (pass_silent _ _ _ _ _ _ _ _ op R); [| |switch_done|switch_done]; done
          | idtac ].
Qed.

(** ** The loop *)
Lemma advance_done c dn cur st : let '(dn', _, st') := advance c (dn, cur, st) in dn' = dn \/ dn' = dn ++ [cur] /\ st' = SS_SPACE.
Proof. destruct st; simpl; repeat case_match; simplify_eq; auto. Qed.

Definition last_of (st : split_state_t) (cur : list Z) : list (list Z) := if decide (st = SS_SPACE) then [] else [cur].
Lemma pending_nil st cur : pending st cur [] = last_of st cur.
Proof. unfold last_of. destruct st; simpl; by rewrite ?app_nil_r. Qed.

Lemma room_dn s (dn : list (list Z)) n : argc s = lenZ dn -> 1 <= n < 2 ^ 31 -> room n s = (lenZ dn <? n - 1).
Proof. intros E Hn. unfold room. by rewrite E, u32_small by (unfold is_u32; lia). Qed.

(** The loop ended, with [n - 1] arguments or at the end of the text. *)
Record Finished (s' : split) (n : Z) (dn' : list (list Z)) (cur' : list Z) (ws : list (list Z)) : Prop := {
  fin_words : dn' ++ last_of (state s') cur' = take (Z.to_nat (n - 1)) ws;
  fin_room : state s' <> SS_SPACE -> lenZ dn' < n - 1
}.

Lemma split_loop_ok n rest text : forall fuel s dn cur gap av in_ptr,
  Forall (fun c => 0 < c) text -> 1 <= n < 2 ^ 31 -> Reading s dn cur gap (text ++ 0 :: rest) av ->
  in_ptr = lenZ (layout dn ++ cur ++ gap) -> n <= lenZ dn + lenZ av -> lenZ dn <= n - 1 ->
  (state s <> SS_SPACE -> lenZ dn < n - 1) -> (length text < fuel)%nat ->
  exists s' dn' cur' gap' tl, split_loop fuel in_ptr n s = Ok s' /\
    Reading s' dn' cur' gap' (tl ++ 0 :: rest) (drop (length dn' - length dn) av) /\ (length dn <= length dn')%nat /\
    length ((layout dn' ++ cur' ++ gap') ++ tl) = length ((layout dn ++ cur ++ gap) ++ text) /\
    Finished s' n dn' cur' (dn ++ pending (state s) cur text).
Proof.
  induction text as [|c text IH]; intros [|fuel] s dn cur gap av in_ptr Ht Hn R -> Hav Hdn Hst Hf; simpl in Hf; try lia;
    cbn [split_loop]; rewrite (room_dn s dn n) by (by destruct R || done).
  - exists s, dn, cur, gap, []. rewrite pending_nil, drop_same.
    assert (F : Finished s n dn cur (dn ++ last_of (state s) cur)).
    { split; [|done]. symmetry. apply take_ge. rewrite length_app. unfold last_of, lenZ in *. case_decide; simpl; [lia|].
      specialize (Hst H). lia. }
    split; [|done]. destruct (lenZ dn <? n - 1); [|done].
    rewrite (rd_line _ _ _ _ _ _ R). simpl. by rewrite array_get_app.
  - destruct (Z.ltb_spec (lenZ dn) (n - 1)).
    + apply Forall_cons in Ht as [Hc Ht]. rewrite (rd_line _ _ _ _ _ _ R). simpl. rewrite array_get_app. ostep.
      rewrite (proj2 (Z.eqb_neq c 0)) by lia.
      destruct (split_step_ok c s dn cur gap (text ++ 0 :: rest) av) as (s' & -> & S); [lia|done|intros ->; unfold lenZ in *; simpl in *; lia|].
      ostep. pose proof (advance_pending c dn cur (state s) text (rd_cur _ _ _ _ _ _ R)) as P.
      pose proof (advance_done c dn cur (state s)) as A. unfold step_ok in S.
      destruct (advance c (dn, cur, state s)) as [[dn1 cur1] st1]. destruct S as (gap1 & <- & R1 & L1).
      assert (Hlen : (length dn <= length dn1 <= S (length dn))%nat) by (destruct A as [->|[-> _]]; rewrite ?length_app; simpl; lia).
      destruct (IH fuel s' dn1 cur1 gap1 (drop (length dn1 - length dn) av) (lenZ (layout dn ++ cur ++ gap) + 1))
        as (s2 & dn2 & cur2 & gap2 & tl & E & R2 & L2 & T2 & F2); [done|done|done|unfold lenZ; lia| | | |lia|].
      * unfold lenZ in *. rewrite length_drop. lia.
      * unfold lenZ in *. lia.
      * intros Hx. destruct A as [->|[_ ?]]; done.
      * exists s2, dn2, cur2, gap2, tl. split; [done|]. rewrite P. split; [|split; [lia|split; [|done]]].
        { rewrite drop_drop in R2. by replace (length dn2 - length dn)%nat with ((length dn1 - length dn) + (length dn2 - length dn1))%nat by lia. }
        { rewrite T2, !length_app in *. simpl. lia. }
    + exists s, dn, cur, gap, (c :: text). rewrite drop_same. split; [done|]. split; [done|]. split; [lia|]. split; [done|].
      split; [|done]. unfold last_of. rewrite decide_True by (destruct (decide (state s = SS_SPACE)); [done|]; specialize (Hst n0); lia).
      rewrite app_nil_r. unfold lenZ in *. by rewrite take_app_length' by lia.
Qed.

(** ** The whole call *)
Definition cut_arguments (argv_size : Z) (text : list Z) : list (list Z) := take (Z.to_nat (argv_size - 1)) (arguments text).

Lemma length_cut n text : 1 <= n -> (length (cut_arguments n text) <= Z.to_nat (n - 1))%nat.
Proof. intros. unfold cut_arguments. rewrite length_take. lia. Qed.

(** The cell behind the arguments is the next one written. *)
Lemma set_next (ws : list (list Z)) (a : list (option Z)) v : (length ws < length a)%nat ->
  array_set (map Some (starts 0 ws) ++ drop (length ws) a) (lenZ ws) v = Ok (map Some (starts 0 ws) ++ v :: drop (S (length ws)) a).
Proof.
  intros H. destruct (lookup_lt_is_Some_2 a (length ws) H) as [x E]. rewrite (drop_S a x) by done.
  replace (lenZ ws) with (lenZ (map Some (starts 0 ws))) by (unfold lenZ; by rewrite length_map, length_starts).
  apply array_set_app.
Qed.

(** The zero behind the last argument. *)
Lemma set_end s dn cur gap tl rest av : Reading s dn cur gap (tl ++ 0 :: rest) av ->
  exists y, array_set (line s) (out_ptr s) 0 = Ok ((layout dn ++ cur) ++ 0 :: y ++ rest) /\ length y = length (gap ++ tl).
Proof.
  intros [Hl _ _ Ho _ _].
  assert (G : exists x y, gap ++ tl ++ [0] = x :: y) by (destruct gap; [destruct tl; simpl|simpl]; eauto). destruct G as (x & y & G).
  exists y. rewrite Hl, Ho. split.
  - rewrite <- array_set_app with (x := x). f_equal. change (x :: y ++ rest) with ((x :: y) ++ rest). rewrite <- G, <- !app_assoc. done.
  - apply (f_equal length) in G. rewrite !length_app in *. simpl in *. lia.
Qed.

Lemma split_argv_run text rest a n :
  Forall (fun c => 0 < c) text -> 1 <= n < 2 ^ 31 -> n <= lenZ a -> let ws := cut_arguments n text in
  exists tl, length (layout ws ++ tl) = S (length text) /\
    esp_console_split_argv (text ++ 0 :: rest) a n =
      Ok (lenZ ws, (layout ws ++ tl) ++ rest, map Some (starts 0 ws) ++ None :: drop (S (length ws)) a).
Proof.
  intros Ht Hn Ha ws. pose proof (length_cut n text ltac:(lia)) as Hws. fold ws in Hws.
  destruct (split_loop_ok n rest text (S (length (text ++ 0 :: rest))) (mkSplit (text ++ 0 :: rest) a 0 0 0 SS_SPACE) [] [] [] a 0)
    as (s & dn & cur & gap & tl & E & R & _ & T & [F Fr]);
    [done|done|by constructor|done|unfold lenZ in *; simpl; lia|unfold lenZ; simpl; lia|done|rewrite length_app; simpl; lia|].
  change (dn ++ last_of (state s) cur = ws) in F. simpl in T. rewrite Nat.sub_0_r in R.
  destruct (set_end _ _ _ _ _ _ _ R) as (y & Ey & Ly). destruct R as [Hl Hv Hc Ho Hu Hs]. rewrite length_app in Ly.
  assert (T' : (length (layout dn) + length cur + length gap + length tl)%nat = length text) by (rewrite <- T; by rewrite !length_app, Nat.add_assoc).
  unfold esp_console_split_argv. rewrite E. ostep. rewrite Ey. ostep. simpl. rewrite (room_dn _ dn n) by done.
  unfold last_of in F. destruct (decide (state s = SS_SPACE)) as [Es|Es].
  - rewrite app_nil_r in F. subst dn. rewrite Hu in * by done. rewrite bool_decide_false by tauto. simpl. exists (0 :: y).
    split; [rewrite length_app; simpl in *; lia|]. rewrite Hc, Hv, set_next by (unfold lenZ in *; lia). simpl. by rewrite app_nil_r, <- !app_assoc.
  - rewrite bool_decide_true, (proj2 (Z.ltb_lt _ _)) by auto. simpl. exists y.
    assert (L : length ws = S (length dn)) by (rewrite <- F, length_app; simpl; lia).
    unfold push_arg. simpl. rewrite Hc, Hv, set_next, Hs by (done || unfold lenZ in *; lia). ostep.
    replace (map Some (starts 0 dn) ++ Some (lenZ (layout dn)) :: drop (S (length dn)) a) with (map Some (starts 0 ws) ++ drop (length ws) a)
      by (rewrite L, <- F, starts_snoc, map_app, <- app_assoc; done).
    simpl. replace (lenZ dn + 1) with (lenZ ws) by (unfold lenZ; lia). rewrite set_next by (unfold lenZ in *; lia). simpl.
    replace (layout ws) with (layout dn ++ cur ++ [0]) by (by rewrite <- F, layout_snoc).
    split; [rewrite !length_app; simpl; lia|]. by rewrite <- !app_assoc.
Qed.

(** ** The strings *)
Lemma word_forall (P : Z -> Prop) e n : forall t, (length t <= n)%nat -> Forall P t -> Forall P (word e t).1 /\ Forall P (word e t).2.
Proof.
  induction n as [|n IH]; intros [|c t] Hn Ht; simpl in *; try lia; try (by split; constructor).
  apply Forall_cons in Ht as [Hc Ht]. destruct (Z.eqb c e); [by split; [constructor|]|]. destruct (Z.eqb c ESCAPE).
  - destruct t as [|x t]; [by split; constructor|]. apply Forall_cons in Ht as [Hx Ht]. simpl in Hn.
    destruct (IH t ltac:(lia) Ht). destruct (word e t). simpl in *. split; [destruct (escapable x); [by constructor|done]|done].
  - destruct (IH t ltac:(lia) Ht). destruct (word e t). simpl in *. split; [by constructor|done].
Qed.

Lemma arguments_forall (P : Z -> Prop) t : Forall P t -> Forall (Forall P) (arguments t).
Proof.
  unfold arguments. generalize (length t). intros n. revert t. induction n as [|n IH]; intros t Ht; [constructor|].
  destruct t as [|c t]; [constructor|]. cbn [arguments_of]. pose proof Ht as Ht'. apply Forall_cons in Ht as [Hc Ht].
  destruct (Z.eqb c SPACE); [by apply IH|].
  pose proof (word_forall P QUOTE _ t (le_n _) Ht). pose proof (word_forall P SPACE _ (c :: t) (le_n _) Ht').
  destruct (Z.eqb c QUOTE); [destruct (word QUOTE t)|destruct (word SPACE (c :: t))]; simpl in *; constructor; try apply IH; tauto.
Qed.

Lemma string_of_app w r : Forall (fun c => 0 < c) w -> string_of (w ++ 0 :: r) = Some w.
Proof.
  induction 1 as [|c w Hc _ IH]; [done|]. simpl. rewrite IH. by rewrite (proj2 (Z.eqb_neq c 0)) by lia.
Qed.

Lemma strings_of_layout pre ws r : Forall (Forall (fun c => 0 < c)) ws ->
  map (c_string (pre ++ layout ws ++ r)) (starts (lenZ pre) ws) = map Some ws.
Proof.
  intros H. revert pre. induction H as [|w ws Hw _ IH]; intros pre; [done|]. simpl. f_equal.
  - unfold c_string. rewrite (proj2 (Z.ltb_ge _ _)) by apply lenZ_nonneg. unfold lenZ. rewrite Nat2Z.id, drop_app_length.
    rewrite <- !app_assoc. by apply string_of_app.
  - replace (lenZ pre + lenZ w + 1) with (lenZ (pre ++ w ++ [0])) by flat_lenZ. rewrite <- (IH (pre ++ w ++ [0])). by rewrite <- !app_assoc.
Qed.

(** With the strings instead of the layout. *)
Lemma split_argv_strings text rest a n :
  Forall (fun c => 0 < c) text -> 1 <= n < 2 ^ 31 -> n <= lenZ a -> let ws := cut_arguments n text in
  exists l ps, esp_console_split_argv (text ++ 0 :: rest) a n = Ok (lenZ ws, l ++ rest, map Some ps ++ None :: drop (S (length ws)) a) /\
    map (c_string (l ++ rest)) ps = map Some ws /\ length ps = length ws /\ length l = S (length text).
Proof.
  intros Ht Hn Ha ws. destruct (split_argv_run text rest a n Ht Hn Ha) as (tl & L & E). fold ws in L, E.
  exists (layout ws ++ tl), (starts 0 ws). split; [done|]. split; [|by rewrite length_starts].
  rewrite <- app_assoc. apply (strings_of_layout [] ws). unfold ws, cut_arguments. by apply Forall_take, arguments_forall.
Qed.

(** C38.  The splitting in place finds the [arguments] of a line: the pieces between
    spaces, and only spaces, a tab belongs to an argument; with quotes and escapes as
    the header describes.  For a zero-terminated line of any length and an array with room
    for [n] pointers, at least one, the
    call returns the number of arguments, at most [n - 1]; [argv] has a pointer to
    each of them, in order, then [NULL], and is unchanged behind it; at each pointer
    the line holds the argument without its quotes and escapes, zero-terminated; the
    bytes behind the end of the text are unchanged, so writing never overtakes
    reading. *)
Theorem split_argv_exact text rest a n :
  Forall (fun c => 0 < c) text -> 1 <= n < 2 ^ 31 -> n <= lenZ a ->
  exists l ps, esp_console_split_argv (text ++ 0 :: rest) a n =
      Ok (lenZ (take (Z.to_nat (n - 1)) (arguments text)), l ++ rest, map Some ps ++ None :: drop (S (length ps)) a) /\
    map (c_string (l ++ rest)) ps = map Some (take (Z.to_nat (n - 1)) (arguments text)) /\ length l = S (length text).
Proof.
  intros Ht Hn Ha. destruct (split_argv_strings text rest a n Ht Hn Ha) as (l & ps & E & Es & Hps & Hl).
  exists l, ps. rewrite Hps. done.
Qed.

(** ** Quoting *)
Lemma word_quoted w r : word QUOTE (flat_map (fun c => if (c =? QUOTE) || (c =? ESCAPE) then [ESCAPE; c] else [c]) w ++ QUOTE :: r) = (w, r).
Proof.
  induction w as [|c w IH]; [done|]. cbn [flat_map]. rewrite <- app_assoc.
  destruct (Z.eqb_spec c QUOTE) as [->|Hq]; [simpl; by rewrite IH|].
  destruct (Z.eqb_spec c ESCAPE) as [->|He]; [simpl; by rewrite IH|].
  simpl. rewrite (proj2 (Z.eqb_neq c QUOTE)), (proj2 (Z.eqb_neq c ESCAPE)) by done. by rewrite IH.
Qed.

Lemma arguments_command_line ws : arguments (command_line ws) = ws.
Proof.
  induction ws as [|w ws IH]; [done|]. unfold command_line in *. cbn [flat_map]. unfold quote at 1. cbn [app].
  rewrite arguments_space, arguments_quote, <- app_assoc. cbn [app]. rewrite word_quoted. by rewrite IH.
Qed.

Lemma command_line_positive ws : Forall (Forall (fun c => 0 < c)) ws -> Forall (fun c => 0 < c) (command_line ws).
Proof.
  induction 1 as [|w ws Hw _ IH]; [constructor|]. unfold command_line in *. simpl. unfold quote. constructor; [done|]. constructor; [done|].
  apply Forall_app. split; [|done]. apply Forall_app. split; [|by constructor].
  clear IH. induction Hw as [|c w Hc _ IH]; [constructor|]. simpl. apply Forall_app. split; [|done].
  destruct (_ || _); repeat (constructor; try done).
Qed.

(** Quoting is inverted: a line that is made by quoting arguments, with any
    characters in them (spaces, quotes, backslashes, none at all), is split into
    exactly these arguments when the array has room for them. *)
Theorem split_quoted_roundtrip ws rest a n :
  Forall (Forall (fun c => 0 < c)) ws -> lenZ ws < n < 2 ^ 31 -> n <= lenZ a ->
  exists l ps, esp_console_split_argv (command_line ws ++ 0 :: rest) a n = Ok (lenZ ws, l, map Some ps ++ None :: drop (S (length ws)) a) /\
    map (c_string l) ps = map Some ws.
Proof.
  intros Hw Hn Ha. pose proof (lenZ_nonneg ws).
  destruct (split_argv_strings (command_line ws) rest a n) as (l & ps & E & Es & _); [by apply command_line_positive|lia|done|].
  unfold cut_arguments in E, Es. rewrite arguments_command_line, take_ge in E, Es by (unfold lenZ in *; lia). eauto.
Qed.

(** ** Concrete lines *)
Definition chars (s : string) : list Z := map (fun c => Z.of_N (Ascii.N_of_ascii c)) (String.list_ascii_of_string s).

Lemma split_argv_exact_witness :
  exists l ps, esp_console_split_argv (chars "set ab\ c  x y" ++ 0 :: [7; 7]) (repeat None 4) 4 =
      Ok (3, l ++ [7; 7], map Some ps ++ None :: drop (S (length ps)) (repeat None 4)) /\
    map (c_string (l ++ [7; 7])) ps = [Some (chars "set"); Some (chars "ab c"); Some (chars "x")] /\ length l = 15%nat.
Proof.
  apply (split_argv_exact (chars "set ab\ c  x y") [7; 7] (repeat None 4) 4); [|lia|by compute].
  unfold chars. repeat constructor.
Defined.

Lemma split_quoted_roundtrip_witness :
  exists l ps, esp_console_split_argv (command_line [chars "a b"; []; [QUOTE; ESCAPE]] ++ 0 :: []) (repeat None 5) 5 =
      Ok (3, l, map Some ps ++ None :: drop 4 (repeat None 5)) /\
    map (c_string l) ps = [Some (chars "a b"); Some []; Some [QUOTE; ESCAPE]].
Proof.
  apply (split_quoted_roundtrip [chars "a b"; []; [QUOTE; ESCAPE]] [] (repeat None 5) 5); [|by compute|by compute].
  unfold chars. repeat constructor.
Defined.
