(* ===== verification/Console.v ===== *)
(** * Console commands ([components/console/commands.c])

    A list of commands, in the order of their registration, and a buffer into which
    a command line is copied before [SplitArgv] cuts it into arguments.  The
    handlers of the application, [invoke], get the state of the console: their
    arguments lie in its buffer.  A freed block keeps its pointers ([Freed], [None]
    in the list), so that an access to it is a [Fault].  [alloc] and [halloc] say
    whether the heap has the blocks asked for.  Strings are lists of characters
    without the terminating zero. *)
From S2P Require Import Prelude Mem EspFlash CString SplitArgv.

(** ** State *)
Definition ANSI_COLOR_DEFAULT := 39.

Record esp_console_config_t := mkConfig {
  max_cmdline_length : Z; max_cmdline_args : Z; hint_color : Z; hint_bold : Z
}.
#[export] Instance rebuild_config : Rebuild esp_console_config_t :=
  fun c => mkConfig (max_cmdline_length c) (max_cmdline_args c) (hint_color c) (hint_bold c).

(** The handler of the help command, or one of the application; [argtable] is a
    pointer to the tables of the argument parser. *)
Inductive cmd_func := help_func | app_func (f : Z).
Record esp_console_cmd_t := mkCmd {
  cmd_command : option (list Z); cmd_help : option (list Z); cmd_hint : option (list Z);
  cmd_func_ptr : cmd_func; cmd_argtable : option Z
}.
Record cmd_item_t := mkItem {
  command : list Z; help : option (list Z); hint : option (list Z); func : cmd_func; argtable : option Z
}.

Inductive buffer := Null | Freed | Live (buf : list Z).

(** [printed] is what the help command has written: name, hint, help and arguments. *)
Record console := mkConsole {
  s_cmd_list : list (option cmd_item_t);
  s_config : esp_console_config_t;
  s_tmp_line_buf : buffer;
  printed : list (list Z * list Z * list Z * option Z)
}.
#[export] Instance rebuild_console : Rebuild console :=
  fun s => mkConsole (s_cmd_list s) (s_config s) (s_tmp_line_buf s) (printed s).

(** The handlers of the application, with [argc] and [argv]; the syntax of an
    argument table as [arg_print_syntax] prints it, if the stream could be opened. *)
Class ConsoleEnv := {
  invoke : Z -> Z -> list (option Z) -> console -> outcome (Z * console);
  arg_syntax : Z -> option (list Z)
}.

Section console.
Context {cenv : ConsoleEnv}.
Implicit Types s : console.

(** ** The list: every node on the way is read *)
Fixpoint walk (l : list (option cmd_item_t)) : outcome (list cmd_item_t) :=
  match l with
  | [] => Ok []
  | None :: _ => Fault
  | Some it :: l => its ← walk l; Ok (it :: its)
  end.
Fixpoint find_item (p : cmd_item_t -> bool) (l : list (option cmd_item_t)) : outcome (option cmd_item_t) :=
  match l with
  | [] => Ok None
  | None :: _ => Fault
  | Some it :: l => if p it then Ok (Some it) else find_item p l
  end.

(** ** Operations *)
Definition esp_console_init (alloc : bool) (config : esp_console_config_t) s : Z * console :=
  match s_tmp_line_buf s with
  | Null =>
      let s := s <| s_config := if hint_color config =? 0 then config <| hint_color := ANSI_COLOR_DEFAULT |> else config |> in
      if negb alloc then (ESP_ERR_NO_MEM, s)
      else (ESP_OK, s <| s_tmp_line_buf := Live (repeat 0 (Z.to_nat (max_cmdline_length config))) |>)
  | _ => (ESP_ERR_INVALID_STATE, s)
  end.

Definition esp_console_deinit s : outcome (Z * console) :=
  match s_tmp_line_buf s with
  | Null => Ok (ESP_ERR_INVALID_STATE, s)
  | Freed => Fault
  | Live _ =>
      let s := s <| s_tmp_line_buf := Freed |> in
      _ ← walk (s_cmd_list s);
      Ok (ESP_OK, s <| s_cmd_list := map (fun _ => None) (s_cmd_list s) |>)
  end.

Definition item_hint (halloc : bool) (cmd : esp_console_cmd_t) : option (list Z) :=
  match cmd_hint cmd, cmd_argtable cmd with
  | Some h, _ => if halloc then Some (SPACE :: h) else None
  | None, Some t => arg_syntax t
  | None, None => None
  end.

Definition esp_console_cmd_register (alloc halloc : bool) (cmd : esp_console_cmd_t) s : outcome (Z * console) :=
  if negb alloc then Ok (ESP_ERR_NO_MEM, s)
  else
    match cmd_command cmd with
    | None => Ok (ESP_ERR_INVALID_ARG, s)
    | Some name =>
        if existsb (fun c => c =? SPACE) name then Ok (ESP_ERR_INVALID_ARG, s)
        else
          let item := mkItem name (cmd_help cmd) (item_hint halloc cmd) (cmd_func_ptr cmd) (cmd_argtable cmd) in
          _ ← walk (s_cmd_list s);
          Ok (ESP_OK, s <| s_cmd_list := s_cmd_list s ++ [Some item] |>)
    end.

(** The completions that are added. *)
Definition esp_console_get_completion (buf : list Z) s : outcome (list (list Z)) :=
  let len := length buf in
  if Nat.eqb len 0 then Ok []
  else
    its ← walk (s_cmd_list s);
    Ok (map command (filter (fun it => strncmp buf (command it) len = 0) its)).

(** The hint, the color and whether it is bold, or nothing. *)
Definition esp_console_get_hint (buf : list Z) s : outcome (option (option (list Z) * Z * Z)) :=
  let len := length buf in
  it ← find_item (fun it => Nat.eqb (length (command it)) len && (strncmp buf (command it) len =? 0)) (s_cmd_list s);
  Ok (match it with
      | Some it => Some (hint it, hint_color (s_config s), hint_bold (s_config s))
      | None => None
      end).

Definition find_command_by_name (name : list Z) s : outcome (option cmd_item_t) :=
  find_item (fun it => strcmp name (command it) =? 0) (s_cmd_list s).

Definition help_command s : outcome (Z * console) :=
  its ← walk (s_cmd_list s);
  let rows := omap (fun it => match help it with None => None | Some h => Some (command it, default [] (hint it), h, argtable it) end) its in
  Ok (0, s <| printed := printed s ++ rows |>).

Definition call_func (f : cmd_func) (argc : Z) (argv : list (option Z)) s : outcome (Z * console) :=
  match f with help_func => help_command s | app_func f => invoke f argc argv s end.

(** The error, [*cmd_ret] if it is set, and the state. *)
Definition esp_console_run (alloc : bool) (cmdline : list Z) s : outcome (Z * option Z * console) :=
  match s_tmp_line_buf s with
  | Null => Ok (ESP_ERR_INVALID_STATE, None, s)
  | b =>
      if negb alloc then Ok (ESP_ERR_NO_MEM, None, s)
      else
        let argv := repeat None (Z.to_nat (max_cmdline_args (s_config s))) in
        match b with
        | Live buf =>
            buf ← strlcpy buf cmdline (max_cmdline_length (s_config s));
            '(argc, buf, argv) ← esp_console_split_argv buf argv (max_cmdline_args (s_config s));
            let s := s <| s_tmp_line_buf := Live buf |> in
            if argc =? 0 then Ok (ESP_ERR_INVALID_ARG, None, s)
            else
              p ← array_get argv 0;
              match p ≫= c_string buf with
              | None => Fault
              | Some name =>
                  cmd ← find_command_by_name name s;
                  match cmd with
                  | None => Ok (ESP_ERR_NOT_FOUND, None, s)
                  | Some cmd =>
                      '(ret, s) ← call_func (func cmd) argc argv s;
                      Ok (ESP_OK, Some ret, s)
                  end
              end
        | _ => Fault
        end
  end.

Definition help_cmd : esp_console_cmd_t :=
  mkCmd (Some (chars "help")) (Some (chars "Print the list of registered commands")) None help_func None.
Definition esp_console_register_help_command (alloc : bool) s : outcome (Z * console) :=
  esp_console_cmd_register alloc true help_cmd s.
End console.
