(* ===== verification/ConsoleProofs.v ===== *)
(** * Console commands: what a call answers

    The comparisons of strings, one run of a command line, and every history of
    calls up to [esp_console_deinit] against a table of commands. *)
From S2P Require Import Prelude Mem EspFlash CString SplitArgv Console.

Section proofs.
Context {cenv : ConsoleEnv}.
Implicit Types (s : console) (its : list cmd_item_t) (name : list Z).

(** ** The list *)
Lemma walk_live its : walk (map Some its) = Ok its.
Proof. induction its as [|it its IH]; [done|]. simpl. by rewrite IH. Qed.

Lemma find_item_live p q its : Forall (fun it => p it = q it) its -> find_item p (map Some its) = Ok (find q its).
Proof. induction 1 as [|it its Hp _ IH]; [done|]. simpl. rewrite Hp. by destruct (q it). Qed.

Lemma map_filter {A B} (f : A -> B) (P : A -> Prop) (Q : B -> Prop) `{!forall x, Decision (P x)} `{!forall y, Decision (Q y)} l :
  Forall (fun x => P x <-> Q (f x)) l -> map f (filter P l) = filter Q (map f l).
Proof.
  induction 1 as [|x l Hx _ IH]; [done|]. cbn [map]. rewrite !filter_cons, <- IH.
  destruct (decide (P x)), (decide (Q (f x))); tauto.
Qed.

Definition named name (it : cmd_item_t) : bool := bool_decide (command it = name).
Definition names_ok its : Prop := Forall (fun it => is_string (command it)) its.

Lemma find_command_live s its name : s_cmd_list s = map Some its -> names_ok its -> is_string name ->
  find_command_by_name name s = Ok (find (named name) its).
Proof.
  intros El Hn Hs. unfold find_command_by_name. rewrite El. apply find_item_live.
  eapply Forall_impl; [exact Hn|]. intros it Hi. simpl in Hi. apply eq_true_iff_eq. unfold named.
  rewrite Z.eqb_eq, bool_decide_eq_true, strcmp_eq by done. naive_solver.
Qed.

(** ** One command line *)
Record Ready s its (buf : list Z) : Prop := {
  rdy_buf : s_tmp_line_buf s = Live buf;
  rdy_len : lenZ buf = max_cmdline_length (s_config s);
  rdy_pos : 1 <= lenZ buf;
  rdy_args : 1 <= max_cmdline_args (s_config s) < 2 ^ 31;
  rdy_list : s_cmd_list s = map Some its;
  rdy_names : names_ok its
}.

(** The arguments of a command line, cut to the size of the buffer and of [argv]. *)
Definition line_arguments (c : esp_console_config_t) (cmdline : list Z) : list (list Z) :=
  take (Z.to_nat (max_cmdline_args c - 1)) (arguments (take (Z.to_nat (max_cmdline_length c - 1)) cmdline)).

Definition null_terminated (c : esp_console_config_t) (ps : list Z) : list (option Z) :=
  map Some ps ++ repeat None (Z.to_nat (max_cmdline_args c) - length ps).

Lemma drop_repeat {A} (x : A) n k : drop k (repeat x n) = repeat x (n - k).
Proof. revert n. induction k as [|k IH]; intros [|n]; simpl; try done. Qed.

Lemma split_buffer s its buf cmdline : Ready s its buf -> is_string cmdline -> let ws := line_arguments (s_config s) cmdline in
  exists b l ps, strlcpy buf cmdline (max_cmdline_length (s_config s)) = Ok b /\
    esp_console_split_argv b (repeat None (Z.to_nat (max_cmdline_args (s_config s)))) (max_cmdline_args (s_config s)) =
      Ok (lenZ ws, l, null_terminated (s_config s) ps) /\
    length l = length buf /\ map (c_string l) ps = map Some ws /\ length ps = length ws.
Proof.
  intros [Hb Hl Hp Ha _ _] Hc ws. unfold ws, line_arguments.
  destruct (strlcpy_exact buf cmdline (max_cmdline_length (s_config s))) as (rest & E & Lb); [lia|lia|].
  rewrite E. set (text := take _ cmdline) in *.
  destruct (split_argv_strings text rest (repeat None (Z.to_nat (max_cmdline_args (s_config s)))) (max_cmdline_args (s_config s)))
    as (l & ps & Es & Ec & Hps & Ll); [by apply Forall_take|done|unfold lenZ; rewrite repeat_length; lia|].
  fold (cut_arguments (max_cmdline_args (s_config s)) text). pose proof (length_cut (max_cmdline_args (s_config s)) text ltac:(lia)) as Hws.
  exists (text ++ 0 :: rest), (l ++ rest), ps. split; [done|]. split; [|split; [|by split]].
  - rewrite Es. unfold null_terminated. rewrite drop_repeat, Hps. do 3 f_equal.
    replace (Z.to_nat (max_cmdline_args (s_config s)) - length (cut_arguments (max_cmdline_args (s_config s)) text))%nat
      with (S (Z.to_nat (max_cmdline_args (s_config s)) - S (length (cut_arguments (max_cmdline_args (s_config s)) text)))) by lia. done.
  - rewrite <- Lb, !length_app. simpl. lia.
Qed.

Lemma line_arguments_strings c cmdline : is_string cmdline -> Forall is_string (line_arguments c cmdline).
Proof. intros. by apply Forall_take, arguments_forall, Forall_take. Qed.

(** The result for given arguments. *)
Definition dispatch its ws (argv : list (option Z)) s : outcome (Z * option Z * console) :=
  match ws with
  | [] => Ok (ESP_ERR_INVALID_ARG, None, s)
  | name :: _ =>
      match find (named name) its with
      | None => Ok (ESP_ERR_NOT_FOUND, None, s)
      | Some cmd => '(ret, s) ← call_func (func cmd) (lenZ ws) argv s; Ok (ESP_OK, Some ret, s)
      end
  end.

Lemma run_dispatches s its buf cmdline : Ready s its buf -> is_string cmdline -> let ws := line_arguments (s_config s) cmdline in
  exists l ps, length l = length buf /\ map (c_string l) ps = map Some ws /\
    esp_console_run true cmdline s = dispatch its ws (null_terminated (s_config s) ps) (s <| s_tmp_line_buf := Live l |>).
Proof.
  intros R Hc ws. destruct (split_buffer s its buf cmdline R Hc) as (b & l & ps & E & Es & L & P & N). fold ws in Es, P, N.
  exists l, ps. split; [done|]. split; [done|]. destruct R as [Hb _ _ _ El Hn].
  unfold esp_console_run. rewrite Hb. simpl negb. cbv iota. rewrite E. ostep. rewrite Es. ostep.
  pose proof (line_arguments_strings (s_config s) cmdline Hc) as Hs. fold ws in Hs.
  destruct ws as [|name ws]; [done|]. destruct ps as [|p ps]; [done|]. rewrite (proj2 (Z.eqb_neq _ _)) by (rewrite lenZ_cons; pose proof (lenZ_nonneg ws); lia).
  unfold null_terminated at 1. simpl map. cbn [app]. unfold array_get at 1. simpl. injection P as Pn _. rewrite Pn.
  apply Forall_cons in Hs as [Hs _]. rewrite (find_command_live _ its name) by done. ostep. by destruct (find (named name) its).
Qed.
End proofs.
