(* ===== verification/ConsoleHistory.v ===== *)
(** * Console commands: every history of calls

    [table] is the abstract console: the commands in the order of registration, the
    settings, whether it is initialised and whether it was de-initialised.  Any
    legal sequence of calls answers as [answer_of] says. *)
From S2P Require Import Prelude Mem EspFlash CString SplitArgv Console ConsoleProofs.

Section history.
Context {cenv : ConsoleEnv}.
Implicit Types (s : console) (its : list cmd_item_t).

(** ** The abstract console *)
Record table := mkTable {
  ready : bool; settings : esp_console_config_t; commands : list cmd_item_t;
  help_rows : list (list Z * list Z * list Z * option Z); ended : bool
}.

Inductive call :=
  | init (alloc : bool) (config : esp_console_config_t)
  | deinit
  | register (alloc halloc : bool) (cmd : esp_console_cmd_t)
  | register_help (alloc : bool)
  | complete (typed : list Z)
  | get_hint (typed : list Z)
  | run (alloc : bool) (cmdline : list Z).

Inductive answer :=
  | err (e : Z)
  | completions (names : list (list Z))
  | hinted (h : option (option (list Z) * Z * Z))
  | ran (e : Z) (cmd_ret : option Z).

Definition step (c : call) s : outcome (answer * console) :=
  match c with
  | init alloc config => let '(e, s) := esp_console_init alloc config s in Ok (err e, s)
  | deinit => '(e, s) ← esp_console_deinit s; Ok (err e, s)
  | register alloc halloc cmd => '(e, s) ← esp_console_cmd_register alloc halloc cmd s; Ok (err e, s)
  | register_help alloc => '(e, s) ← esp_console_register_help_command alloc s; Ok (err e, s)
  | complete typed => l ← esp_console_get_completion typed s; Ok (completions l, s)
  | get_hint typed => h ← esp_console_get_hint typed s; Ok (hinted h, s)
  | run alloc cmdline => '(e, r, s) ← esp_console_run alloc cmdline s; Ok (ran e r, s)
  end.
Fixpoint steps (cs : list call) s : outcome (list answer * console) :=
  match cs with
  | [] => Ok ([], s)
  | c :: cs => '(a, s) ← step c s; '(l, s) ← steps cs s; Ok (a :: l, s)
  end.

(** [handler f args] is what the handler [f] of the application returns. *)
Context (handler : Z -> list (list Z) -> Z).

Definition row_of (it : cmd_item_t) : option (list Z * list Z * list Z * option Z) :=
  h ← help it; Some (command it, default [] (hint it), h, argtable it).

Definition add_command (alloc halloc : bool) (cmd : esp_console_cmd_t) (t : table) : answer * table :=
  match cmd_command cmd with
  | Some name =>
      if negb alloc then (err ESP_ERR_NO_MEM, t)
      else if bool_decide (SPACE ∈ name) then (err ESP_ERR_INVALID_ARG, t)
      else (err ESP_OK, mkTable (ready t) (settings t) (commands t ++ [mkItem name (cmd_help cmd) (item_hint halloc cmd) (cmd_func_ptr cmd) (cmd_argtable cmd)]) (help_rows t) (ended t))
  | None => (err (if alloc then ESP_ERR_INVALID_ARG else ESP_ERR_NO_MEM), t)
  end.

Definition answer_run (alloc : bool) (cmdline : list Z) (t : table) : answer * table :=
  if negb (ready t) then (ran ESP_ERR_INVALID_STATE None, t)
  else if negb alloc then (ran ESP_ERR_NO_MEM None, t)
  else
    let args := line_arguments (settings t) cmdline in
    match args with
    | [] => (ran ESP_ERR_INVALID_ARG None, t)
    | name :: _ =>
        match func <$> find (named name) (commands t) with
        | None => (ran ESP_ERR_NOT_FOUND None, t)
        | Some (app_func f) => (ran ESP_OK (Some (handler f args)), t)
        | Some help_func => (ran ESP_OK (Some 0), mkTable (ready t) (settings t) (commands t) (help_rows t ++ omap row_of (commands t)) (ended t))
        end
    end.

Definition answer_of (c : call) (t : table) : answer * table :=
  match c with
  | init alloc config =>
      if ready t then (err ESP_ERR_INVALID_STATE, t)
      else
        let config := config <| hint_color := if hint_color config =? 0 then ANSI_COLOR_DEFAULT else hint_color config |> in
        (err (if alloc then ESP_OK else ESP_ERR_NO_MEM), mkTable alloc config (commands t) (help_rows t) (ended t))
  | deinit =>
      if ready t then (err ESP_OK, mkTable true (settings t) (commands t) (help_rows t) true)
      else (err ESP_ERR_INVALID_STATE, t)
  | register alloc halloc cmd => add_command alloc halloc cmd t
  | register_help alloc => add_command alloc true help_cmd t
  | complete typed => (completions (filter (fun name => typed <> [] /\ typed `prefix_of` name) (map command (commands t))), t)
  | get_hint typed => (hinted ((fun it => (hint it, hint_color (settings t), hint_bold (settings t))) <$> find (named typed) (commands t)), t)
  | run alloc cmdline => answer_run alloc cmdline t
  end.
Fixpoint answers_of (cs : list call) (t : table) : list answer * table :=
  match cs with
  | [] => ([], t)
  | c :: cs => let '(a, t) := answer_of c t in let '(l, t) := answers_of cs t in (a :: l, t)
  end.

(** ** What the client has to keep to *)
Definition config_ok (c : esp_console_config_t) : Prop := 1 <= max_cmdline_length c /\ 1 <= max_cmdline_args c < 2 ^ 31.
Definition call_ok (c : call) : Prop :=
  match c with
  | init _ config => config_ok config
  | deinit => True
  | register _ _ cmd => from_option is_string True (cmd_command cmd)
  | register_help _ => True
  | complete typed | get_hint typed => is_string typed
  | run _ cmdline => is_string cmdline
  end.

(** After the call of [esp_console_deinit] that ends the console it is not used any
    more; an attempt to initialise it again is allowed. *)
Definition allowed (c : call) (t : table) : Prop := ended t = false \/ exists alloc config, c = init alloc config.
Fixpoint legal (cs : list call) (t : table) : Prop :=
  match cs with
  | [] => True
  | c :: cs => call_ok c /\ allowed c t /\ legal cs (answer_of c t).2
  end.

(** A handler returns its value for the strings that it finds at its arguments; it
    may write into the line and does not call the console. *)
Definition handlers_ok : Prop :=
  forall f s l c ps args, s_tmp_line_buf s = Live l -> map (c_string l) ps = map Some args ->
    exists l', length l' = length l /\
      invoke f (lenZ args) (null_terminated c ps) s = Ok (handler f args, s <| s_tmp_line_buf := Live l' |>).

(** ** The states that represent a table *)
Record Represents s (t : table) : Prop := {
  rep_list : s_cmd_list s = map Some (commands t);
  rep_config : s_config s = settings t;
  rep_printed : printed s = help_rows t;
  rep_names : names_ok (commands t);
  rep_buf : if ready t then config_ok (settings t) /\ exists buf, s_tmp_line_buf s = Live buf /\ lenZ buf = max_cmdline_length (settings t)
            else s_tmp_line_buf s = Null
}.
(** A console that was ended has only its freed buffer, and what was printed. *)
Definition Stands s (t : table) : Prop :=
  if ended t then ready t = true /\ s_tmp_line_buf s = Freed /\ printed s = help_rows t else Represents s t.

Lemma register_answers alloc halloc cmd s t : Represents s t -> from_option is_string True (cmd_command cmd) ->
  exists e s' t', esp_console_cmd_register alloc halloc cmd s = Ok (e, s') /\ add_command alloc halloc cmd t = (err e, t') /\ Represents s' t'.
Proof.
  intros R Hc. unfold esp_console_cmd_register, add_command. destruct (cmd_command cmd) as [name|]; [|destruct alloc; by eauto 6].
  destruct alloc; [|by eauto 6]. simpl.
  assert (D : existsb (fun c => c =? SPACE) name = bool_decide (SPACE ∈ name)).
  { apply eq_true_iff_eq. rewrite existsb_exists, bool_decide_eq_true, list_elem_of_In. split.
    - intros (c & Hi & ->%Z.eqb_eq). done.
    - intros Hi. exists SPACE. by rewrite Z.eqb_refl. }
  rewrite D. case_bool_decide; [by eauto 6|]. destruct R as [El Ec Ep En Eb]. rewrite El, walk_live. simpl.
  eexists _, _, _. split; [done|]. split; [done|]. constructor; simpl; try done.
  - by rewrite map_app.
  - apply Forall_app. split; [done|]. by repeat constructor.
Qed.

Lemma init_answers alloc config s t : Represents s t -> config_ok config ->
  let '(e, s') := esp_console_init alloc config s in
  exists t', answer_of (init alloc config) t = (err e, t') /\ Represents s' t'.
Proof.
  intros [El Ec Ep En Eb] Hc. unfold esp_console_init. simpl. destruct (ready t) eqn:Er.
  - destruct Eb as (? & buf & Hb & ?). rewrite Hb. exists t. split; [done|]. constructor; try done. rewrite Er. eauto.
  - rewrite Eb. destruct Hc as [Hc1 Hc2].
    assert (X : (if hint_color config =? 0 then config <| hint_color := ANSI_COLOR_DEFAULT |> else config) =
                config <| hint_color := if hint_color config =? 0 then ANSI_COLOR_DEFAULT else hint_color config |>)
      by (destruct config; simpl; by case_match).
    destruct alloc; simpl; eexists; (split; [done|]); constructor; simpl; try done.
    split; [done|]. eexists. split; [done|]. unfold lenZ. rewrite repeat_length. lia.
Qed.

Lemma complete_answers typed s t : Represents s t -> is_string typed ->
  esp_console_get_completion typed s = Ok (filter (fun name => typed <> [] /\ typed `prefix_of` name) (map command (commands t))).
Proof.
  intros [El _ _ En _] Ht. unfold esp_console_get_completion. rewrite El. destruct typed as [|c typed]; simpl Nat.eqb; cbv iota.
  - f_equal. symmetry. induction (map command (commands t)) as [|n l IH]; [done|]. rewrite filter_cons_False by tauto. done.
  - rewrite walk_live. ostep. f_equal. apply map_filter. eapply Forall_impl; [exact En|]. intros it Hi.
    rewrite strncmp_prefix by done. split; [intros ?; split; [discriminate|done]|tauto].
Qed.

Lemma prefix_same_length (a b : list Z) : a `prefix_of` b -> length b = length a -> b = a.
Proof. intros [k ->] L. rewrite length_app in L. destruct k; [by rewrite app_nil_r|simpl in L; lia]. Qed.

Lemma hint_answers typed s t : Represents s t -> is_string typed ->
  esp_console_get_hint typed s =
    Ok ((fun it => (hint it, hint_color (settings t), hint_bold (settings t))) <$> find (named typed) (commands t)).
Proof.
  intros [El Ec _ En _] Ht. unfold esp_console_get_hint. rewrite El, Ec.
  rewrite (find_item_live _ (named typed)); [ostep; by destruct (find _ _)|].
  eapply Forall_impl; [exact En|]. intros it Hi. simpl in Hi. apply eq_true_iff_eq. unfold named.
  rewrite bool_decide_eq_true, andb_true_iff, Nat.eqb_eq, Z.eqb_eq, strncmp_prefix by done. split.
  - intros [L P]. by apply prefix_same_length.
  - by intros ->.
Qed.

Lemma help_answers s t : Represents s t ->
  exists s', help_command s = Ok (0, s') /\ Represents s' (mkTable (ready t) (settings t) (commands t) (help_rows t ++ omap row_of (commands t)) (ended t)).
Proof.
  intros [El Ec Ep En Eb]. unfold help_command. rewrite El, walk_live. ostep. eexists. split; [done|].
  constructor; simpl; try done. by rewrite Ep.
Qed.

Lemma new_buffer s t buf l : Represents s t -> ready t = true -> s_tmp_line_buf s = Live buf -> length l = length buf ->
  Represents (s <| s_tmp_line_buf := Live l |>) t.
Proof.
  intros [El Ec Ep En Eb] Er Hb L. rewrite Er in Eb. destruct Eb as (Hc & b & Hb' & Lb). rewrite Hb in Hb'. simplify_eq.
  constructor; simpl; try done. rewrite Er. split; [done|]. exists l. split; [done|]. unfold lenZ in *. lia.
Qed.

Lemma run_answers alloc cmdline s t : handlers_ok -> Represents s t -> is_string cmdline ->
  exists e r s' t', esp_console_run alloc cmdline s = Ok (e, r, s') /\ answer_run alloc cmdline t = (ran e r, t') /\ Represents s' t'.
Proof.
  intros Hh R Hc. pose proof R as [El Ec Ep En Eb]. unfold answer_run. destruct (ready t) eqn:Er; simpl.
  2: { unfold esp_console_run. rewrite Eb. by eauto 8. }
  destruct Eb as ((Hc1 & Hc2) & buf & Hb & Lb).
  destruct alloc; simpl; [|unfold esp_console_run; rewrite Hb; by eauto 8].
  assert (Ry : Ready s (commands t) buf) by (constructor; rewrite ?Ec; try done; lia).
  destruct (run_dispatches s (commands t) buf cmdline Ry Hc) as (l & ps & L & P & ->). rewrite Ec in *.
  pose proof (new_buffer s t buf l R Er Hb L) as R'.
  unfold dispatch. destruct (line_arguments (settings t) cmdline) as [|name ws] eqn:Ew; [by eauto 8|].
  destruct (find (named name) (commands t)) as [it|]; [|simpl; by eauto 8]. cbn [fmap option_fmap option_map].
  unfold call_func. destruct (func it) as [|f].
  - destruct (help_answers _ _ R') as (s' & E & R2). rewrite E. ostep. rewrite Er in R2. by eauto 8.
  - destruct (Hh f (s <| s_tmp_line_buf := Live l |>) l (settings t) ps (name :: ws)) as (l' & L' & E); [done|done|].
    rewrite E. ostep. do 4 eexists. split; [done|]. split; [done|]. by apply (new_buffer _ _ l).
Qed.

Lemma deinit_answers s t : Represents s t -> ended t = false ->
  exists s', step deinit s = Ok ((answer_of deinit t).1, s') /\ Stands s' (answer_of deinit t).2.
Proof.
  intros R Et. pose proof R as [El Ec Ep En Eb]. unfold step, esp_console_deinit, Stands. simpl. destruct (ready t).
  - destruct Eb as (_ & buf & Hb & _). rewrite Hb. simpl. rewrite El, walk_live. ostep. eauto.
  - rewrite Eb. simpl. rewrite Et. eauto.
Qed.

Lemma step_answers c s t : handlers_ok -> Represents s t -> call_ok c -> c <> deinit ->
  exists s', step c s = Ok ((answer_of c t).1, s') /\ Represents s' (answer_of c t).2.
Proof.
  intros Hh R Hc Hd. destruct c as [alloc config| |alloc halloc cmd|alloc|typed|typed|alloc cmdline]; [|done|..]; unfold step.
  - pose proof (init_answers alloc config s t R Hc) as H. destruct (esp_console_init alloc config s) as [e s'].
    destruct H as (t' & -> & R'). eauto.
  - destruct (register_answers alloc halloc cmd s t R Hc) as (e & s' & t' & -> & Ea & R'). simpl answer_of. rewrite Ea. ostep. eauto.
  - destruct (register_answers alloc true help_cmd s t R) as (e & s' & t' & E & Ea & R').
    { simpl. unfold is_string, chars. repeat constructor. }
    unfold esp_console_register_help_command. rewrite E. simpl answer_of. rewrite Ea. ostep. eauto.
  - rewrite (complete_answers typed s t R Hc). ostep. eauto.
  - rewrite (hint_answers typed s t R Hc). ostep. eauto.
  - destruct (run_answers alloc cmdline s t Hh R Hc) as (e & r & s' & t' & -> & Ea & R'). simpl answer_of. rewrite Ea. ostep. eauto.
Qed.

Lemma ended_kept c t : c <> deinit -> ended (answer_of c t).2 = ended t.
Proof. intros Hd. destruct c; simpl; unfold add_command, answer_run; repeat case_match; simplify_eq; done. Qed.

Lemma step_stands c s t : handlers_ok -> Stands s t -> call_ok c -> allowed c t ->
  exists s', step c s = Ok ((answer_of c t).1, s') /\ Stands s' (answer_of c t).2.
Proof.
  intros Hh S Hc Ha. unfold Stands in S. destruct (ended t) eqn:Et.
  - destruct Ha as [Ha|(alloc & config & ->)]; [congruence|]. destruct S as (Er & Eb & Ep).
    unfold step, esp_console_init, Stands. simpl. rewrite Eb, Er. simpl. rewrite Et. eauto.
  - destruct c; try (edestruct step_answers as (s' & E & R); [done..|]; exists s'; split; [exact E|];
      unfold Stands; by rewrite ended_kept, Et).
    by apply deinit_answers.
Qed.

Lemma steps_answers cs : forall s t, handlers_ok -> Stands s t -> legal cs t ->
  exists s', steps cs s = Ok ((answers_of cs t).1, s') /\ Stands s' (answers_of cs t).2.
Proof.
  induction cs as [|c cs IH]; intros s t Hh R Hcs; [simpl; eauto|]. destruct Hcs as (Hc & Ha & Hcs).
  destruct (step_stands c s t Hh R Hc Ha) as (s' & E & R'). simpl. rewrite E. ostep. destruct (answer_of c t) as [a t'].
  destruct (IH s' t' Hh R' Hcs) as (s2 & E2 & R2). simpl in *. rewrite E2. ostep. destruct (answers_of cs t'). simpl in *. eauto.
Qed.

(** The console after the start of the program. *)
Definition console_start : console := mkConsole [] (mkConfig 0 0 0 0) Null [].
Definition table_start : table := mkTable false (mkConfig 0 0 0 0) [] [] false.

Lemma start_represents : Stands console_start table_start.
Proof. constructor; simpl; try done. constructor. Qed.

(** C37.  From the start of the program every sequence of calls (in which the
    console is not used any more after it was ended, except for attempts to initialise
    it again) returns and answers as a table of commands does, for handlers that
    return and do not call the console themselves: an initialisation after a successful
    one is refused, also after the console was ended; de-initialising answers
    [ESP_ERR_INVALID_STATE] before the console is initialised;
    commands, the help command among them, can be registered before it is initialised,
    they are found by their full name and the first registered one wins; a command
    line calls the handler with exactly its [arguments] separated by spaces (cut to
    the size of the buffer and of the array); completions are the names with the
    typed prefix in the order of registration, hints those of the command named,
    and the help command prints every command that has a help text.  Failed
    allocations and refused registrations change nothing but what is named. *)
Theorem console_history_refines cs : handlers_ok -> legal cs table_start ->
  exists s', steps cs console_start = Ok ((answers_of cs table_start).1, s') /\ printed s' = help_rows (answers_of cs table_start).2.
Proof.
  intros Hh Hcs. destruct (steps_answers cs _ _ Hh start_represents Hcs) as (s' & E & R). exists s'.
  split; [done|]. unfold Stands in R. destruct (ended _); [apply R|by destruct R].
Qed.
End history.

(** The buffer is not cleared by [esp_console_deinit], so the console cannot be
    initialised again. *)
Lemma deinit_then_init_refused {cenv : ConsoleEnv} alloc config s buf its :
  s_tmp_line_buf s = Live buf -> s_cmd_list s = map Some its ->
  exists s', esp_console_deinit s = Ok (ESP_OK, s') /\ esp_console_init alloc config s' = (ESP_ERR_INVALID_STATE, s') /\ esp_console_deinit s' = Fault.
Proof.
  intros Hb El. unfold esp_console_deinit. rewrite Hb. simpl. rewrite El, walk_live. simpl. eexists. split; [done|]. done.
Qed.

(** ** A concrete application: one command that counts its arguments *)
Definition count_env : ConsoleEnv := {| invoke := fun f argc argv s => Ok (argc + f, s); arg_syntax := fun _ => None |}.
Definition count_handler (f : Z) (args : list (list Z)) : Z := lenZ args + f.
Definition count_cmd (name : string) (f : Z) : esp_console_cmd_t := mkCmd (Some (chars name)) None (Some (chars "<n>")) (app_func f) None.
Definition small_config : esp_console_config_t := mkConfig 16 4 0 1.

Lemma count_handlers : @handlers_ok count_env count_handler.
Proof. intros f s l c ps args Hb _. exists l. split; [done|]. destruct s. simpl in *. by subst. Qed.

Definition sample : list call :=
  [deinit; run true (chars "add"); register true true (count_cmd "add" 100); init true small_config; register_help true;
   register true true (count_cmd "add" 200); register true true (count_cmd "a d" 0); init true small_config;
   run true (chars "add 1 " ++ quote (chars "2 3")); run true (chars "  "); run true (chars "adder"); run true (chars "help");
   complete (chars "a"); get_hint (chars "add"); run true (chars "add 1 2 3 4 5 6 7 8"); deinit; init true small_config].

Lemma console_history_refines_witness :
  exists s', @steps count_env sample console_start = Ok
    ([err ESP_ERR_INVALID_STATE; ran ESP_ERR_INVALID_STATE None; err ESP_OK; err ESP_OK; err ESP_OK; err ESP_OK; err ESP_ERR_INVALID_ARG; err ESP_ERR_INVALID_STATE;
      ran ESP_OK (Some 103); ran ESP_ERR_INVALID_ARG None; ran ESP_ERR_NOT_FOUND None; ran ESP_OK (Some 0);
      completions [chars "add"; chars "add"]; hinted (Some (Some (chars " <n>"), 39, 1)); ran ESP_OK (Some 103); err ESP_OK; err ESP_ERR_INVALID_STATE], s') /\
    printed s' = [(chars "help", [], chars "Print the list of registered commands", None)].
Proof.
  refine (@console_history_refines count_env count_handler sample count_handlers _).
  repeat match goal with
    | |- legal _ [] _ => exact I
    | |- legal _ _ _ => split; [unfold sample, chars; repeat constructor; simpl; lia|split; [first [by left|by right; eauto]|]]
    end.
Defined.
