(* ===== verification/Vfs.v ===== *)
(** * Virtual file system ([components/vfs/vfs.c])

    Drivers are registered under path prefixes in a table of eight; a table of 64
    file descriptors says for each which driver it belongs to and the descriptor in
    that driver.  A call looks up the driver by the descriptor or by the longest
    prefix of the path, and calls the driver's function for it.

    The functions of the drivers are third-party code: a function pointer is a
    number, 0 is [NULL], and [invoke] says what a function does to the state of the
    drivers with its arguments, what it returns and whether it sets [errno].
    Strings are lists of characters without the terminating zero; pointers to
    buffers are passed through as numbers.  The calls are sequential: the lock of
    the descriptor table is not modelled. *)
From S2P Require Import Prelude Mem EspFlash.

Definition MAX_FDS := 64.
Definition VFS_MAX_COUNT := 8.
Definition ESP_VFS_PATH_MAX := 15.
Definition ESP_VFS_FLAG_CONTEXT_PTR := 1.
Definition LEN_PATH_PREFIX_IGNORED := 2 ^ 32 - 1.

Definition ENOENT := 2.
Definition EINTR := 4.
Definition EBADF := 9.
Definition ENOMEM := 12.
Definition EXDEV := 18.
Definition EINVAL := 22.
Definition ENOSYS := 88.

(** ** State *)
Record fd_table_t := mkFd { permanent : bool; vfs_index : Z; local_fd : Z }.
Definition FD_TABLE_ENTRY_UNUSED := mkFd false (-1) (u8 (-1)).

(** The members of [esp_vfs_t] that are functions. *)
Inductive vfs_func :=
  | f_write | f_lseek | f_read | f_pread | f_pwrite | f_open | f_close | f_fstat | f_stat | f_link | f_unlink | f_rename
  | f_opendir | f_readdir | f_readdir_r | f_telldir | f_seekdir | f_closedir | f_mkdir | f_rmdir
  | f_fcntl | f_ioctl | f_fsync | f_access | f_truncate | f_utime
  | f_tcsetattr | f_tcgetattr | f_tcdrain | f_tcflush | f_tcflow | f_tcgetsid | f_tcsendbreak
  | f_start_select | f_socket_select | f_stop_socket_select | f_stop_socket_select_isr | f_get_socket_select_semaphore | f_end_select.
Record esp_vfs_t := mkVfs { flags : Z; member : vfs_func -> Z }.

Record vfs_entry_t := mkVfsEntry {
  vfs : esp_vfs_t; path_prefix : list Z; path_prefix_len : Z; vfs_ctx : Z; offset : Z
}.

Inductive arg := num (n : Z) | str (path : list Z).

(** The functions of the drivers: what they return, [errno] if they set it, and the
    new state of the drivers. *)
Class VfsEnv := {
  drivers : Type;
  invoke_driver : Z -> list arg -> drivers -> Z * option Z * drivers
}.

Section vfs.
Context {venv : VfsEnv}.

(** What a call of a driver changes. *)
Record world := mkWorld { errno : Z; driver_state : drivers }.
#[export] Instance rebuild_world : Rebuild world := fun w => mkWorld (errno w) (driver_state w).

(** [dd_vfs_idx] is the field of that name of the directory streams. *)
Record vfs_state := mkVfsState {
  s_vfs : list (option vfs_entry_t); s_vfs_count : Z; s_fd_table : list fd_table_t; dd_vfs_idx : gmap Z Z; env : world
}.
#[export] Instance rebuild_vfs : Rebuild vfs_state := fun s => mkVfsState (s_vfs s) (s_vfs_count s) (s_fd_table s) (dd_vfs_idx s) (env s).

Implicit Types (s : vfs_state) (e : vfs_entry_t) (w : world) (path : list Z).

Definition vfs_start (d : drivers) : vfs_state :=
  mkVfsState (repeat None (Z.to_nat VFS_MAX_COUNT)) 0 (repeat FD_TABLE_ENTRY_UNUSED (Z.to_nat MAX_FDS)) ∅ (mkWorld 0 d).

Definition s_vfs_at s (i : Z) : option vfs_entry_t := if i <? 0 then None else mjoin (s_vfs s !! Z.to_nat i).
Definition set_s_vfs (i : Z) (v : option vfs_entry_t) s : vfs_state := s <| s_vfs := <[Z.to_nat i := v]> (s_vfs s) |>.
Definition fd_at s (fd : Z) : fd_table_t := default FD_TABLE_ENTRY_UNUSED (s_fd_table s !! Z.to_nat fd).
Definition set_fd (fd : Z) (f : fd_table_t) s : vfs_state := s <| s_fd_table := <[Z.to_nat fd := f]> (s_fd_table s) |>.
Definition set_errno (n : Z) s : vfs_state := s <| env := (env s) <| errno := n |> |>.

(** ** Registration *)

(** The first free place of the first [s_vfs_count]. *)
Fixpoint free_index (l : list (option vfs_entry_t)) (index : Z) : Z :=
  match l with
  | [] => index
  | None :: _ => index
  | Some _ :: l => free_index l (index + 1)
  end.

(** [before] is the byte in front of the string, if it belongs to an object; the
    base path is [None] when its length is [LEN_PATH_PREFIX_IGNORED]. *)
Definition prefix_bad (before : option Z) (base_path : list Z) : outcome bool :=
  let len := lenZ base_path in
  if (negb (len =? 0) && (len <? 2)) || (ESP_VFS_PATH_MAX <? len) then Ok true
  else if (0 <? len) && negb (default 0 (head base_path) =? 47) then Ok true
  else
    match (if len =? 0 then before else last base_path) with
    | None => Fault
    | Some c => Ok (c =? 47)
    end.

(** The error, the index and the state. [strcpy] writes the string with its zero
    into [ESP_VFS_PATH_MAX] bytes. *)
Definition esp_vfs_register_common (alloc : bool) (before : option Z) (base_path : option (list Z)) (v : esp_vfs_t) (ctx : Z) s : outcome (Z * option Z * vfs_state) :=
  bad ← (match base_path with Some p => prefix_bad before p | None => Ok false end);
  if (bad : bool) then Ok (ESP_ERR_INVALID_ARG, None, s)
  else if negb alloc then Ok (ESP_ERR_NO_MEM, None, s)
  else
    let index := free_index (take (Z.to_nat (s_vfs_count s)) (s_vfs s)) 0 in
    if (index =? s_vfs_count s) && (VFS_MAX_COUNT <=? s_vfs_count s) then Ok (ESP_ERR_NO_MEM, None, s)
    else
      let s := if index =? s_vfs_count s then s <| s_vfs_count := s_vfs_count s + 1 |> else s in
      let prefix := default [] base_path in
      let len := match base_path with Some p => lenZ p | None => LEN_PATH_PREFIX_IGNORED end in
      if ESP_VFS_PATH_MAX <? lenZ prefix + 1 then Fault
      else Ok (ESP_OK, Some index, set_s_vfs index (Some (mkVfsEntry v prefix len ctx index)) s).

Definition esp_vfs_register (alloc : bool) (before : option Z) (base_path : list Z) (v : esp_vfs_t) (ctx : Z) s : outcome (Z * vfs_state) :=
  '(err, _, s) ← esp_vfs_register_common alloc before (Some base_path) v ctx s;
  Ok (err, s).

(** The loop over the [n] descriptors from [i] on. *)
Fixpoint claim_range (n : nat) (i min_fd index : Z) s : outcome (Z * vfs_state) :=
  match n with
  | O => Ok (ESP_OK, s)
  | S n =>
      if negb (vfs_index (fd_at s i) =? -1) then
        if VFS_MAX_COUNT <=? i then Fault
        else
          let s := set_s_vfs i None s in
          Ok (ESP_ERR_INVALID_ARG,
              foldl (fun s j => if vfs_index (fd_at s j) =? index then set_fd j FD_TABLE_ENTRY_UNUSED s else s) s (seqZ min_fd (i - min_fd)))
      else claim_range n (i + 1) min_fd index (set_fd i (mkFd true index (u8 i)) s)
  end.

Definition esp_vfs_register_fd_range (alloc : bool) (v : esp_vfs_t) (ctx min_fd max_fd : Z) s : outcome (Z * vfs_state) :=
  if (min_fd <? 0) || (max_fd <? 0) || (MAX_FDS <? min_fd) || (MAX_FDS <? max_fd) || (max_fd <? min_fd)
  then Ok (ESP_ERR_INVALID_ARG, s)
  else
    '(ret, index, s) ← esp_vfs_register_common alloc None None v ctx s;
    match index with
    | Some index => if ret =? ESP_OK then claim_range (Z.to_nat (max_fd - min_fd)) min_fd min_fd index s else Ok (ret, s)
    | None => Ok (ret, s)
    end.

(** The error, the identifier written to [*vfs_id], which may be [NULL], and the state. *)
Definition esp_vfs_register_with_id (alloc vfs_id : bool) (v : esp_vfs_t) (ctx : Z) s : outcome (Z * Z * vfs_state) :=
  if negb vfs_id then Ok (ESP_ERR_INVALID_ARG, -1, s)
  else
    '(err, index, s) ← esp_vfs_register_common alloc None None v ctx s;
    Ok (err, default (-1) index, s).

Definition memcmp_eq (a b : list Z) (n : Z) : bool := bool_decide (take (Z.to_nat n) a = take (Z.to_nat n) b).

(** The entry that is unregistered, searched from [i] on. *)
Fixpoint find_base_path (l : list (option vfs_entry_t)) (i : Z) (base_path : list Z) : option Z :=
  match l with
  | [] => None
  | None :: l => find_base_path l (i + 1) base_path
  | Some e :: l =>
      if (lenZ base_path =? path_prefix_len e) && memcmp_eq base_path (path_prefix e) (path_prefix_len e) then Some i
      else find_base_path l (i + 1) base_path
  end.

Definition esp_vfs_unregister (base_path : list Z) s : Z * vfs_state :=
  match find_base_path (take (Z.to_nat (s_vfs_count s)) (s_vfs s)) 0 base_path with
  | None => (ESP_ERR_INVALID_STATE, s)
  | Some i =>
      let s := set_s_vfs i None s in
      (ESP_OK, foldl (fun s j => if vfs_index (fd_at s j) =? i then set_fd j FD_TABLE_ENTRY_UNUSED s else s) s (seqZ 0 MAX_FDS))
  end.

(** The first descriptor that is not in use. *)
Definition unused_fd s : option Z := find (fun i => vfs_index (fd_at s i) =? -1) (seqZ 0 MAX_FDS).

(** The error, [*fd] and the state; [fd] says whether the pointer is given. *)
Definition esp_vfs_register_fd (fd : bool) (vfs_id : Z) s : Z * option Z * vfs_state :=
  if (vfs_id <? 0) || (s_vfs_count s <=? vfs_id) || negb fd then (ESP_ERR_INVALID_ARG, None, s)
  else
    match unused_fd s with
    | Some i => (ESP_OK, Some i, set_fd i (mkFd true vfs_id (u8 i)) s)
    | None => (ESP_ERR_NO_MEM, None, s)
    end.

Definition esp_vfs_unregister_fd (vfs_id fd : Z) s : Z * vfs_state :=
  if (vfs_id <? 0) || (s_vfs_count s <=? vfs_id) || (fd <? 0) || (MAX_FDS <=? fd) then (ESP_ERR_INVALID_ARG, s)
  else
    let item := fd_at s fd in
    if permanent item && (vfs_index item =? vfs_id) && (local_fd item =? fd)
    then (ESP_OK, set_fd fd FD_TABLE_ENTRY_UNUSED s)
    else (ESP_ERR_INVALID_ARG, s).

(** ** Looking up the driver *)
Definition get_vfs_for_index s (index : Z) : option vfs_entry_t :=
  if (index <? 0) || (s_vfs_count s <=? index) then None else s_vfs_at s index.
Definition fd_valid (fd : Z) : bool := (fd <? MAX_FDS) && (0 <=? fd).
Definition get_vfs_for_fd s (fd : Z) : option vfs_entry_t :=
  if fd_valid fd then get_vfs_for_index s (vfs_index (fd_at s fd)) else None.
Definition get_local_fd s (v : option vfs_entry_t) (fd : Z) : Z :=
  match v with
  | Some _ => if fd_valid fd then local_fd (fd_at s fd) else -1
  | None => -1
  end.

Definition SLASH := 47.
Definition translate_path e (src_path : list Z) : outcome (list Z) :=
  cassert (memcmp_eq src_path (path_prefix e) (path_prefix_len e));;
  Ok (if lenZ src_path =? path_prefix_len e then [SLASH] else drop (Z.to_nat (path_prefix_len e)) src_path).

(** The best match so far and its length. *)
Definition match_entry path (best : option vfs_entry_t * Z) (v : option vfs_entry_t) : option vfs_entry_t * Z :=
  let '(best_match, best_match_prefix_len) := best in
  match v with
  | None => best
  | Some e =>
      let len := lenZ path in
      if path_prefix_len e =? LEN_PATH_PREFIX_IGNORED then best
      else if (len <? path_prefix_len e) || negb (memcmp_eq path (path_prefix e) (path_prefix_len e)) then best
      else if (path_prefix_len e =? 0) && match best_match with None => true | Some _ => false end then (Some e, best_match_prefix_len)
      else if (path_prefix_len e <? len) && negb (default 0 (path !! Z.to_nat (path_prefix_len e)) =? SLASH) then best
      else if best_match_prefix_len <? path_prefix_len e then (Some e, path_prefix_len e)
      else best
  end.
Definition get_vfs_for_path path s : option vfs_entry_t :=
  (foldl (match_entry path) (None, -1) (take (Z.to_nat (s_vfs_count s)) (s_vfs s))).1.

(** ** Calling the driver *)

(** The macros; [None] when they return from the caller. *)
Definition CHECK_AND_CALL e (f : vfs_func) (args : list arg) w : option Z * world :=
  if member (vfs e) f =? 0 then (None, w <| errno := ENOSYS |>)
  else
    let args := if flag (flags (vfs e)) ESP_VFS_FLAG_CONTEXT_PTR then num (vfs_ctx e) :: args else args in
    let '(ret, err, d) := invoke_driver (member (vfs e) f) args (driver_state w) in
    (Some ret, (match err with Some n => w <| errno := n |> | None => w end) <| driver_state := d |>).

Definition call_entry e (f : vfs_func) (args : list arg) s : option Z * vfs_state :=
  let '(ret, w) := CHECK_AND_CALL e f args (env s) in (ret, s <| env := w |>).

(** A function of a descriptor. *)
Definition call_fd (f : vfs_func) (fd : Z) (args : list arg) s : Z * vfs_state :=
  let v := get_vfs_for_fd s fd in
  let local_fd := get_local_fd s v fd in
  match v with
  | Some e =>
      if local_fd <? 0 then (-1, set_errno EBADF s)
      else let '(ret, s) := call_entry e f (num local_fd :: args) s in (default (-1) ret, s)
  | None => (-1, set_errno EBADF s)
  end.

(** A function of a path. *)
Definition call_path (f : vfs_func) path (args : list arg) s : outcome (Z * vfs_state) :=
  match get_vfs_for_path path s with
  | None => Ok (-1, set_errno ENOENT s)
  | Some e =>
      path_within_vfs ← translate_path e path;
      let '(ret, s) := call_entry e f (str path_within_vfs :: args) s in Ok (default (-1) ret, s)
  end.

(** A function of two paths of the same driver. *)
Definition call_paths (f : vfs_func) (n1 n2 : list Z) s : outcome (Z * vfs_state) :=
  match get_vfs_for_path n1 s with
  | None => Ok (-1, set_errno ENOENT s)
  | Some e =>
      let vfs2 := get_vfs_for_path n2 s in
      match vfs2 with
      | Some e2 =>
          if negb (offset e =? offset e2) then Ok (-1, set_errno EXDEV s)
          else
            path1_within_vfs ← translate_path e n1;
            path2_within_vfs ← translate_path e n2;
            let '(ret, s) := call_entry e f [str path1_within_vfs; str path2_within_vfs] s in Ok (default (-1) ret, s)
      | None => Ok (-1, set_errno EXDEV s)
      end
  end.

(** ** Files *)
Definition esp_vfs_open path (flags mode : Z) s : outcome (Z * vfs_state) :=
  match get_vfs_for_path path s with
  | None => Ok (-1, set_errno ENOENT s)
  | Some e =>
      path_within_vfs ← translate_path e path;
      let '(ret, s) := call_entry e f_open [str path_within_vfs; num flags; num mode] s in
      match ret with
      | None => Ok (-1, s)
      | Some fd_within_vfs =>
          if 0 <=? fd_within_vfs then
            match unused_fd s with
            | Some i => Ok (i, set_fd i (mkFd false (offset e) (u8 fd_within_vfs)) s)
            | None =>
                let '(ret, s) := call_entry e f_close [num fd_within_vfs] s in
                match ret with None => Ok (-1, s) | Some _ => Ok (-1, set_errno ENOMEM s) end
            end
          else Ok (-1, set_errno ENOENT s)
      end
  end.

Definition esp_vfs_write (fd data size : Z) s := call_fd f_write fd [num data; num size] s.
Definition esp_vfs_lseek (fd size mode : Z) s := call_fd f_lseek fd [num size; num mode] s.
Definition esp_vfs_read (fd dst size : Z) s := call_fd f_read fd [num dst; num size] s.
Definition esp_vfs_pread (fd dst size offset : Z) s := call_fd f_pread fd [num dst; num size; num offset] s.
Definition esp_vfs_pwrite (fd src size offset : Z) s := call_fd f_pwrite fd [num src; num size; num offset] s.

Definition esp_vfs_close (fd : Z) s : Z * vfs_state :=
  let v := get_vfs_for_fd s fd in
  let local_fd := get_local_fd s v fd in
  match v with
  | Some e =>
      if local_fd <? 0 then (-1, set_errno EBADF s)
      else
        let '(ret, s) := call_entry e f_close [num local_fd] s in
        match ret with
        | None => (-1, s)
        | Some ret => (ret, if permanent (fd_at s fd) then s else set_fd fd FD_TABLE_ENTRY_UNUSED s)
        end
  | None => (-1, set_errno EBADF s)
  end.

Definition esp_vfs_fstat (fd st : Z) s := call_fd f_fstat fd [num st] s.
Definition esp_vfs_stat path (st : Z) s := call_path f_stat path [num st] s.
Definition esp_vfs_link (n1 n2 : list Z) s := call_paths f_link n1 n2 s.
Definition esp_vfs_unlink path s := call_path f_unlink path [] s.
Definition esp_vfs_rename (src dst : list Z) s := call_paths f_rename src dst s.
Definition _fcntl_r (fd cmd argument : Z) s := call_fd f_fcntl fd [num cmd; num argument] s.
Definition ioctl (fd cmd args : Z) s := call_fd f_ioctl fd [num cmd; num args] s.
Definition fsync (fd : Z) s := call_fd f_fsync fd [] s.
Definition access path (amode : Z) s := call_path f_access path [num amode] s.
Definition truncate path (length : Z) s := call_path f_truncate path [num length] s.
Definition mkdir path (mode : Z) s := call_path f_mkdir path [num mode] s.
Definition rmdir path s := call_path f_rmdir path [] s.
Definition esp_vfs_utime path (times : Z) s := call_path f_utime path [num times] s.

Definition tcgetattr (fd p : Z) s := call_fd f_tcgetattr fd [num p] s.
Definition tcsetattr (fd optional_actions p : Z) s := call_fd f_tcsetattr fd [num optional_actions; num p] s.
Definition tcdrain (fd : Z) s := call_fd f_tcdrain fd [] s.
Definition tcflush (fd select : Z) s := call_fd f_tcflush fd [num select] s.
Definition tcflow (fd action : Z) s := call_fd f_tcflow fd [num action] s.
Definition tcgetsid (fd : Z) s := call_fd f_tcgetsid fd [] s.
Definition tcsendbreak (fd duration : Z) s := call_fd f_tcsendbreak fd [num duration] s.

(** ** Directories: a stream is the pointer that the driver returned, 0 is [NULL] *)
Definition opendir path s : outcome (Z * vfs_state) :=
  match get_vfs_for_path path s with
  | None => Ok (0, set_errno ENOENT s)
  | Some e =>
      path_within_vfs ← translate_path e path;
      let '(ret, s) := call_entry e f_opendir [str path_within_vfs] s in
      match ret with
      | None => Ok (0, s)
      | Some ret => Ok (ret, if negb (ret =? 0) then s <| dd_vfs_idx := <[ret := offset e]> (dd_vfs_idx s) |> else s)
      end
  end.

(** A function of a stream; [failed] is what it returns on an error. *)
Definition call_dir (f : vfs_func) (pdir : Z) (args : list arg) (failed : Z) s : outcome (Z * vfs_state) :=
  match dd_vfs_idx s !! pdir with
  | None => Fault
  | Some idx =>
      match get_vfs_for_index s idx with
      | None => Ok (failed, set_errno EBADF s)
      | Some e => let '(ret, s) := call_entry e f (num pdir :: args) s in Ok (default failed ret, s)
      end
  end.
Definition readdir (pdir : Z) s := call_dir f_readdir pdir [] 0 s.
Definition readdir_r (pdir entry out_dirent : Z) s := call_dir f_readdir_r pdir [num entry; num out_dirent] (-1) s.
Definition telldir (pdir : Z) s := call_dir f_telldir pdir [] (-1) s.
Definition seekdir (pdir loc : Z) s := call_dir f_seekdir pdir [num loc] 0 s.
Definition rewinddir (pdir : Z) s := seekdir pdir 0 s.
Definition closedir (pdir : Z) s := call_dir f_closedir pdir [] (-1) s.
End vfs.
