(* ===== verification/VfsPath.v ===== *)
(** * Virtual file system: which driver a path belongs to

    [resolve] is the reference definition: the longest beginning of the path that
    ends at a separator and under which a driver is registered.  The scan of the
    table in [get_vfs_for_path] finds the same driver. *)
From S2P Require Import Prelude Mem EspFlash Vfs.

Implicit Types (e : vfs_entry_t) (path : list Z) (l : list (option vfs_entry_t)).

(** An entry as [esp_vfs_register_common] makes it. *)
Definition entry_ok e : Prop := path_prefix_len e = lenZ (path_prefix e) \/ path_prefix_len e = LEN_PATH_PREFIX_IGNORED.
Definition has_path e : bool := negb (path_prefix_len e =? LEN_PATH_PREFIX_IGNORED).

(** ** The reference definition *)
Definition mounted_at (p : list Z) (v : option vfs_entry_t) : bool :=
  match v with Some e => has_path e && bool_decide (path_prefix e = p) | None => false end.
Definition boundary path (n : nat) : bool :=
  Nat.eqb n 0 || Nat.eqb n (length path) || bool_decide (path !! n = Some SLASH).
Fixpoint resolve_upto (n : nat) path l : option vfs_entry_t :=
  match (if boundary path n then mjoin (find (mounted_at (take n path)) l) else None) with
  | Some e => Some e
  | None => match n with O => None | S n => resolve_upto n path l end
  end.
Definition resolve path l : option vfs_entry_t := resolve_upto (length path) path l.

(** At most one driver is registered for all paths. *)
Definition is_default (v : option vfs_entry_t) : bool := mounted_at [] v.
Definition one_default l : Prop :=
  forall i j u v, l !! i = Some u -> l !! j = Some v -> is_default u = true -> is_default v = true -> i = j.

(** ** What matches *)
Definition matches path (v : option vfs_entry_t) : option nat :=
  match v with
  | Some e =>
      let n := length (path_prefix e) in
      if has_path e && bool_decide (take n path = path_prefix e) && boundary path n then Some n else None
  | None => None
  end.

Lemma take_prefix_length path p : take (length p) path = p -> (length p <= length path)%nat.
Proof. intros H. apply (f_equal length) in H. rewrite length_take in H. lia. Qed.

Lemma matches_Some path v n : matches path v = Some n <->
  exists e, v = Some e /\ has_path e = true /\ take n path = path_prefix e /\ n = length (path_prefix e) /\ boundary path n = true.
Proof.
  destruct v as [e|]; simpl; [|split; [done|by intros (e & ? & _)]]. split.
  - destruct (has_path e) eqn:Eh, (bool_decide _) eqn:Eb, (boundary path _) eqn:Ed; simpl; try done.
    intros [= <-]. apply bool_decide_eq_true in Eb. eauto 8.
  - intros (e' & [= <-] & -> & Et & -> & ->). by rewrite (bool_decide_eq_true_2 _ Et).
Qed.

(** The first of the longest matches, among those of at most [k] characters. *)
Record Best (k : nat) path l e (n i : nat) : Prop := {
  best_at : l !! i = Some (Some e);
  best_matches : matches path (Some e) = Some n;
  best_le : (n <= k)%nat;
  best_first : forall j v m, l !! j = Some v -> matches path v = Some m -> (m <= k)%nat -> (m <= n /\ (j < i -> m < n))%nat
}.
Definition is_best (k : nat) path l (r : option vfs_entry_t) : Prop :=
  match r with
  | Some e => exists n i, Best k path l e n i
  | None => forall i v m, l !! i = Some v -> matches path v = Some m -> (k < m)%nat
  end.

Lemma best_unique k path l r1 r2 : is_best k path l r1 -> is_best k path l r2 -> r1 = r2.
Proof.
  destruct r1 as [e1|], r2 as [e2|]; simpl; [|intros (n & i & [H1 H2 H3 _]) F; specialize (F _ _ _ H1 H2); lia
    |intros F (n & i & [H1 H2 H3 _]); specialize (F _ _ _ H1 H2); lia|done].
  intros (n1 & i1 & [A1 M1 L1 F1]) (n2 & i2 & [A2 M2 L2 F2]).
  destruct (F1 _ _ _ A2 M2 L2), (F2 _ _ _ A1 M1 L1). assert (i1 = i2) as -> by lia. congruence.
Qed.

(** ** The reference definition finds the best match *)
Lemma mounted_matches path n v : mounted_at (take n path) v && boundary path n = true -> (n <= length path)%nat -> matches path v = Some n.
Proof.
  intros H Hn. apply matches_Some. destruct v as [e|]; [|done]. simpl in H.
  apply andb_true_iff in H as [[H1 H2]%andb_true_iff H3]. apply bool_decide_eq_true in H2.
  assert (n = length (path_prefix e)) by (rewrite H2, length_take; lia). eauto 8.
Qed.
Lemma matches_mounted path n v : matches path v = Some n -> mounted_at (take n path) v = true /\ boundary path n = true.
Proof. intros (e & -> & Hh & Ht & Hn & Hb)%matches_Some. simpl. rewrite Hh. by rewrite (bool_decide_eq_true_2 _ (eq_sym Ht)). Qed.

Lemma find_first_at {A} (p : A -> bool) (l : list A) x : find p l = Some x ->
  exists i, l !! i = Some x /\ p x = true /\ forall j y, (j < i)%nat -> l !! j = Some y -> p y = false.
Proof.
  induction l as [|a l IH]; [done|]. simpl. destruct (p a) eqn:E.
  - intros [= <-]. exists O. split; [done|]. split; [done|]. intros; lia.
  - intros (i & Hi & Hp & Hj)%IH. exists (S i). split; [done|]. split; [done|]. intros [|j] y ? Hy; [by simplify_eq/=|]. apply (Hj j); [lia|done].
Qed.
Lemma find_nothing {A} (p : A -> bool) (l : list A) j y : find p l = None -> l !! j = Some y -> p y = false.
Proof.
  revert j. induction l as [|a l IH]; [done|]. simpl. destruct (p a) eqn:E; [done|]. intros [|j] ? Hy; [by simplify_eq/=|]. by apply (IH j).
Qed.

Lemma resolve_best path l n : (n <= length path)%nat -> is_best n path l (resolve_upto n path l).
Proof.
  assert (Step : forall n, (n <= length path)%nat ->
      match (if boundary path n then mjoin (find (mounted_at (take n path)) l) else None) with
      | Some e => is_best n path l (Some e)
      | None => forall i v m, l !! i = Some v -> matches path v = Some m -> m <> n
      end).
  { intros k Hk. destruct (boundary path k) eqn:Eb; [destruct (find _ l) as [[e|]|] eqn:Ef|]; simpl.
    - apply find_first_at in Ef as (i & Hi & Hp & Hf). exists k, i.
      constructor; [done|apply mounted_matches; [by rewrite Hp, Eb|done]|done|].
      intros j v m Hj Hm Hle. split; [done|]. intros Hlt. destruct (decide (m = k)) as [->|]; [|lia].
      apply matches_mounted in Hm as [Hm _]. by rewrite (Hf j v) in Hm.
    - by apply find_first_at in Ef as (i & _ & ? & _).
    - intros i v m Hi Hm ->. apply matches_mounted in Hm as [Hm _]. by rewrite (find_nothing _ _ _ _ Ef Hi) in Hm.
    - intros i v m Hi Hm ->. apply matches_mounted in Hm as [_ Hm]. congruence. }
  induction n as [|n IH]; intros Hn; cbn [resolve_upto]; specialize (Step _ Hn); destruct (if boundary path _ then _ else _); [done| |done|].
  - intros i v m Hi Hm. specialize (Step _ _ _ Hi Hm). lia.
  - specialize (IH ltac:(lia)). destruct (resolve_upto n path l) as [e|]; simpl in *.
    + destruct IH as (n' & i & [H1 H2 H3 H4]). exists n', i. constructor; [done|done|lia|].
      intros j v m Hj Hm Hle. apply (H4 j v m Hj Hm). specialize (Step _ _ _ Hj Hm). lia.
    + intros i v m Hi Hm. specialize (Step _ _ _ Hi Hm). specialize (IH _ _ _ Hi Hm). lia.
Qed.

(** ** The scan of the table finds the best match *)
Lemma matches_le path v n : matches path v = Some n -> (n <= length path)%nat.
Proof. intros (e & _ & _ & Ht & -> & _)%matches_Some. by apply take_prefix_length. Qed.

Definition entries_ok l : Prop := forall i e, l !! i = Some (Some e) -> entry_ok e.

Lemma memcmp_prefix path e : path_prefix_len e = lenZ (path_prefix e) ->
  memcmp_eq path (path_prefix e) (path_prefix_len e) = bool_decide (take (length (path_prefix e)) path = path_prefix e).
Proof. intros ->. unfold memcmp_eq, lenZ. by rewrite Nat2Z.id, (take_ge (path_prefix e)) by lia. Qed.

(** One step of the scan, by what the entry matches. *)
Lemma match_entry_no path best v : (forall e, v = Some e -> entry_ok e) -> matches path v = None -> match_entry path best v = best.
Proof.
  intros Hok Hm. destruct best as [b bl]. unfold match_entry. destruct v as [e|]; [|done].
  specialize (Hok e eq_refl). unfold matches, has_path in Hm. simpl in *.
  destruct (Z.eqb_spec (path_prefix_len e) LEN_PATH_PREFIX_IGNORED) as [|Hi]; [done|]. simpl in Hm.
  destruct Hok as [Hl|]; [|done]. rewrite memcmp_prefix by done. case_bool_decide as Ht; [|by rewrite orb_true_r].
  apply take_prefix_length in Ht as L. rewrite Hl. destruct (Z.ltb_spec (lenZ path) (lenZ (path_prefix e))); [done|]. simpl.
  destruct (boundary path (length (path_prefix e))) eqn:Eb; [done|]. unfold boundary in Eb.
  apply orb_false_iff in Eb as [[E1 E2]%orb_false_iff E3]. apply Nat.eqb_neq in E1, E2. apply bool_decide_eq_false in E3.
  rewrite (proj2 (Z.eqb_neq _ _)) by (unfold lenZ; lia). simpl. rewrite (proj2 (Z.ltb_lt _ _)) by (unfold lenZ in *; lia). simpl.
  unfold lenZ. rewrite Nat2Z.id. destruct (path !! length (path_prefix e)) as [c|] eqn:Ec.
  - simpl. rewrite (proj2 (Z.eqb_neq c SLASH)) by congruence. done.
  - apply lookup_ge_None in Ec. lia.
Qed.

Definition length_of (r : option vfs_entry_t) : Z :=
  match r with Some e => if path_prefix_len e =? 0 then -1 else path_prefix_len e | None => -1 end.

Lemma match_entry_yes path r e n : entry_ok e -> matches path (Some e) = Some n ->
  match_entry path (r, length_of r) (Some e) =
    match r with
    | None => (Some e, length_of (Some e))
    | Some e0 =>
        if (n =? 0)%nat && negb (bool_decide (path = [])) && negb (bool_decide (path !! O = Some SLASH)) then (r, length_of r)
        else if length_of r <? Z.of_nat n then (Some e, Z.of_nat n) else (r, length_of r)
    end.
Proof.
  intros Hok Hm. pose proof (matches_le _ _ _ Hm) as L. apply matches_Some in Hm as (e' & [= <-] & Hh & Ht & Hn & Hb).
  unfold has_path in Hh. apply negb_true_iff in Hh as Hh'. destruct Hok as [Hl|Hl]; [|rewrite Hl in Hh; by rewrite Z.eqb_refl in Hh].
  unfold match_entry. rewrite Hh', memcmp_prefix, (bool_decide_eq_true_2 (take _ path = _)) by (done || by rewrite <- Hn).
  rewrite (proj2 (Z.ltb_ge _ _)) by (unfold lenZ in *; lia). simpl. rewrite Hl. unfold lenZ. rewrite <- Hn, Nat2Z.id.
  assert (E0 : (Z.of_nat n =? 0) = (n =? 0)%nat) by (destruct (Nat.eqb_spec n 0) as [->|]; [done|apply Z.eqb_neq; lia]).
  rewrite E0. unfold boundary in Hb. destruct (Nat.eqb_spec n 0) as [->|N0]; simpl.
  - destruct r as [e0|]; [|done].
    destruct path as [|c path]; [done|]. change ((c :: path) !! O) with (Some c). rewrite (bool_decide_eq_false_2 (c :: path = [])) by done.
    rewrite (proj2 (Z.ltb_lt _ _)) by (simpl; lia). cbn [default from_option id negb andb].
    rewrite (bool_decide_ext (Some c = Some SLASH) (c = SLASH)) by (split; congruence).
    destruct (Z.eqb_spec c SLASH); [by rewrite bool_decide_eq_true_2|by rewrite bool_decide_eq_false_2].
  - simpl in Hb. destruct (Nat.eqb_spec n (length path)) as [->|N1].
    + rewrite (proj2 (Z.ltb_ge (Z.of_nat (length path)) (Z.of_nat (length path)))) by lia. simpl. destruct r; [done|]. change (length_of None) with (-1). by rewrite (proj2 (Z.ltb_lt _ _)) by lia.
    + simpl in Hb. apply bool_decide_eq_true in Hb. rewrite Hb, (proj2 (Z.ltb_lt (Z.of_nat n) _)) by lia. simpl.
      destruct r; [done|]. change (length_of None) with (-1). by rewrite (proj2 (Z.ltb_lt _ _)) by lia.
Qed.

Lemma lookup_snoc_Some_inv {A} (l : list A) x i y : (l ++ [x]) !! i = Some y ->
  l !! i = Some y \/ i = length l /\ y = x.
Proof. intros [H|[L H]]%lookup_app_Some; [by left|]. apply list_lookup_singleton_Some in H as [? ->]. right. split; [lia|done]. Qed.

(** Adding an entry behind the table. *)
Lemma best_none_snoc k path l v : is_best k path l None -> matches path v = None -> is_best k path (l ++ [v]) None.
Proof.
  intros B Hm i u m [Hi|[-> ->]]%lookup_snoc_Some_inv Hu; [by apply (B i u)|congruence].
Qed.
Lemma best_first_snoc k path l e n : is_best k path l None -> matches path (Some e) = Some n -> (n <= k)%nat -> is_best k path (l ++ [Some e]) (Some e).
Proof.
  intros B Hm Hn. exists n, (length l). constructor; [by rewrite lookup_app_r, Nat.sub_diag by lia|done|done|].
  intros j u m [Hj|[-> ->]]%lookup_snoc_Some_inv Hu Hk; [specialize (B _ _ _ Hj Hu); lia|]. assert (m = n) as -> by congruence. lia.
Qed.
Lemma best_stays k path l e v n i : Best k path l e n i -> (forall m, matches path v = Some m -> (m <= n)%nat) -> is_best k path (l ++ [v]) (Some e).
Proof.
  intros [H1 H2 H3 H4] Hm. exists n, i. pose proof (lookup_lt_Some _ _ _ H1) as Li.
  constructor; [by rewrite lookup_app_l|done|done|].
  intros j u m [Hj|[-> ->]]%lookup_snoc_Some_inv Hu Hk; [by apply (H4 j u)|]. specialize (Hm m Hu). lia.
Qed.
Lemma best_replaced k path l e0 e n0 n i : Best k path l e0 n0 i -> matches path (Some e) = Some n -> (n0 < n <= k)%nat ->
  is_best k path (l ++ [Some e]) (Some e).
Proof.
  intros [H1 H2 H3 H4] Hm Hn. exists n, (length l). constructor; [by rewrite lookup_app_r, Nat.sub_diag by lia|done|lia|].
  intros j u m [Hj|[-> ->]]%lookup_snoc_Some_inv Hu Hk; [destruct (H4 j u m Hj Hu Hk); lia|]. assert (m = n) as -> by congruence. lia.
Qed.

Lemma one_default_snoc l v : one_default (l ++ [v]) -> one_default l.
Proof.
  intros H i j u w Hi Hj. apply (H i j); by apply lookup_app_l_Some.
Qed.
Lemma entries_ok_snoc l v : entries_ok (l ++ [v]) -> entries_ok l /\ (forall e, v = Some e -> entry_ok e).
Proof.
  intros H. split.
  - intros i e Hi. apply (H i). by apply lookup_app_l_Some.
  - intros e ->. apply (H (length l)). by rewrite lookup_app_r, Nat.sub_diag by lia.
Qed.

(** The length that the scan keeps is the length of the best match, if that is not
    the default driver. *)
Lemma length_of_best path e n : entry_ok e -> matches path (Some e) = Some n -> length_of (Some e) = if (n =? 0)%nat then -1 else Z.of_nat n.
Proof.
  intros Hok (e' & [= <-] & Hh & _ & Hn & _)%matches_Some. unfold has_path in Hh. apply negb_true_iff, Z.eqb_neq in Hh.
  destruct Hok as [Hl|]; [|done]. simpl. rewrite Hl. unfold lenZ. rewrite <- Hn.
  destruct (Nat.eqb_spec n 0) as [->|]; [done|]. by rewrite (proj2 (Z.eqb_neq _ _)) by lia.
Qed.

Lemma default_matches path e : matches path (Some e) = Some O -> is_default (Some e) = true.
Proof.
  intros (e' & [= <-] & Hh & _ & Hn & _)%matches_Some. unfold is_default. simpl. rewrite Hh. destruct (path_prefix e); [|done].
  by rewrite bool_decide_eq_true_2.
Qed.

Lemma scan_best path l : entries_ok l -> one_default l ->
  exists r, foldl (match_entry path) (None, -1) l = (r, length_of r) /\ is_best (length path) path l r.
Proof.
  induction l as [|v l IH] using rev_ind; intros Hok H1; [exists None; by split|].
  apply entries_ok_snoc in Hok as [Hok Hv]. destruct (IH Hok (one_default_snoc _ _ H1)) as (r & E & B). rewrite foldl_app, E. cbn [foldl].
  destruct (matches path v) as [n|] eqn:Em.
  - pose proof (matches_le _ _ _ Em) as L. pose proof Em as (e & -> & _)%matches_Some.
    rewrite (match_entry_yes path r e n (Hv _ eq_refl) Em). pose proof (length_of_best path e n (Hv _ eq_refl) Em) as Le.
    destruct r as [e0|]; [|exists (Some e); split; [done|by apply (best_first_snoc _ _ _ _ n)]].
    destruct B as (n0 & i & B). pose proof B as [A0 M0 _ _]. pose proof (length_of_best path e0 n0 (Hok _ _ A0) M0) as L0.
    destruct ((n =? 0)%nat && _ && _) eqn:Ed.
    { exists (Some e0). split; [done|]. apply (best_stays _ _ _ _ _ _ _ B). intros m Hm. assert (m = n) as -> by congruence.
      apply andb_true_iff in Ed as [[En _]%andb_true_iff _]. apply Nat.eqb_eq in En. lia. }
    rewrite L0. destruct (Z.ltb_spec (if (n0 =? 0)%nat then -1 else Z.of_nat n0) (Z.of_nat n)) as [Hlt|Hge].
    + assert (Hn : (n0 < n)%nat).
      { destruct (Nat.eqb_spec n0 0) as [->|]; [|lia]. destruct n as [|n]; [|lia]. exfalso.
        assert (i = length l); [|apply lookup_lt_Some in A0; lia].
        apply (H1 i (length l) (Some e0) (Some e)); [by apply lookup_app_l_Some|by rewrite lookup_app_r, Nat.sub_diag by lia| |];
          by apply (default_matches path). }
      exists (Some e). split; [|by apply (best_replaced _ _ _ _ _ _ _ _ B Em)]. rewrite Le.
      by rewrite (proj2 (Nat.eqb_neq n 0)) by lia.
    + exists (Some e0). split; [by rewrite L0|]. apply (best_stays _ _ _ _ _ _ _ B). intros m Hm.
      assert (m = n) as -> by congruence. destruct (n0 =? 0)%nat; lia.
  - exists r. split; [by apply match_entry_no|]. destruct r as [e|]; [|by apply best_none_snoc].
    destruct B as (n & i & B). apply (best_stays _ _ _ _ _ _ _ B). intros m ?. congruence.
Qed.

Lemma scan_resolves path l : entries_ok l -> one_default l -> (foldl (match_entry path) (None, -1) l).1 = resolve path l.
Proof.
  intros Hok H1. destruct (scan_best path l Hok H1) as (r & -> & B). simpl.
  eapply best_unique; [exact B|]. by apply resolve_best.
Qed.

(** ** The path inside of the driver *)
Definition inner_path (rest : list Z) : list Z := match rest with [] => [SLASH] | _ => rest end.

Lemma resolve_splits path l e : entries_ok l -> resolve path l = Some e ->
  exists rest, path = path_prefix e ++ rest /\ translate_path e path = Ok (inner_path rest) /\
    (path_prefix e = [] \/ rest = [] \/ head rest = Some SLASH).
Proof.
  intros Hok Hr. pose proof (resolve_best path l (length path) (le_n _)) as B. fold (resolve path l) in B. rewrite Hr in B.
  destruct B as (n & i & [Hi Hm _ _]). apply Hok in Hi. apply matches_Some in Hm as (e' & [= <-] & Hh & Ht & -> & Hb).
  unfold has_path in Hh. apply negb_true_iff, Z.eqb_neq in Hh. destruct Hi as [Hl|]; [|done].
  exists (drop (length (path_prefix e)) path). rewrite <- Ht at 1. rewrite take_drop. split; [done|]. split.
  - unfold translate_path. rewrite memcmp_prefix, bool_decide_eq_true_2 by done. simpl. rewrite Hl. unfold lenZ. rewrite Nat2Z.id.
    pose proof (length_drop path (length (path_prefix e))) as L. pose proof (take_prefix_length _ _ Ht).
    destruct (Z.eqb_spec (Z.of_nat (length path)) (Z.of_nat (length (path_prefix e)))); destruct (drop _ path) eqn:Ed; simpl in *; done || lia.
  - unfold boundary in Hb. apply orb_true_iff in Hb as [[Hb|Hb]%orb_true_iff|Hb].
    + left. apply Nat.eqb_eq in Hb. by destruct (path_prefix e).
    + right. left. apply Nat.eqb_eq in Hb. apply drop_ge. lia.
    + right. right. apply bool_decide_eq_true in Hb. by rewrite head_lookup, lookup_drop, Nat.add_0_r.
Qed.

Section table.
Context {venv : VfsEnv}.
Definition mounts (s : vfs_state) : list (option vfs_entry_t) := take (Z.to_nat (s_vfs_count s)) (s_vfs s).

(** C28.  The scan for the driver of a path finds the driver registered under the
    longest beginning of the path that ends at a separator or is the whole path
    (so that [/data] is not found for [/data1]), the driver for all paths if there
    is no other, the first registered place of equal prefixes, and none if there is
    no match; drivers without a path are never found.  The path is then this prefix
    and a rest, the translation does not fail, and the driver gets the rest, or [/] for
    nothing. *)
Theorem vfs_path_exact path (s : vfs_state) : entries_ok (mounts s) -> one_default (mounts s) ->
  get_vfs_for_path path s = resolve path (mounts s) /\
  forall e, resolve path (mounts s) = Some e ->
    exists rest, path = path_prefix e ++ rest /\ translate_path e path = Ok (inner_path rest) /\
      (path_prefix e = [] \/ rest = [] \/ head rest = Some SLASH).
Proof. intros Hok H1. split; [by apply scan_resolves|]. intros e. by apply resolve_splits. Qed.

Lemma get_vfs_resolves path s : entries_ok (mounts s) -> one_default (mounts s) -> get_vfs_for_path path s = resolve path (mounts s).
Proof. intros. by apply scan_resolves. Qed.
End table.
