(* ===== verification/VfsClient.v ===== *)
(** * Virtual file system: the file systems and files of a client

    [filesystem] is the abstract state: eight places for drivers, and the open
    files and directory streams, each with the driver that it belongs to.
    [answer_of] is what a call answers; it is [None] where the client does what the
    component does not provide for: a base path whose terminating zero does not fit,
    a second driver for all paths, a range with descriptors in use, the identifier of
    a driver that is gone, and a stream of a driver that was unregistered. *)
From S2P Require Import Prelude Mem EspFlash Vfs VfsPath.

Section client.
Context {venv : VfsEnv}.
Implicit Types (s : vfs_state) (e : vfs_entry_t).

(** ** Calls *)
Inductive fd_op :=
  | o_write (data size : Z) | o_lseek (size mode : Z) | o_read (dst size : Z) | o_pread (dst size offset : Z) | o_pwrite (src size offset : Z)
  | o_fstat (st : Z) | o_fcntl (cmd argument : Z) | o_ioctl (cmd args : Z) | o_fsync
  | o_tcgetattr (p : Z) | o_tcsetattr (actions p : Z) | o_tcdrain | o_tcflush (select : Z) | o_tcflow (action : Z) | o_tcgetsid | o_tcsendbreak (duration : Z).
Inductive path_op := o_stat (st : Z) | o_unlink | o_access (amode : Z) | o_truncate (length : Z) | o_mkdir (mode : Z) | o_rmdir | o_utime (times : Z).
Inductive paths_op := o_link | o_rename.
Inductive dir_op := o_readdir | o_readdir_r (entry out : Z) | o_telldir | o_seekdir (loc : Z) | o_rewinddir | o_closedir.

Definition do_fd (op : fd_op) (fd : Z) s : Z * vfs_state :=
  match op with
  | o_write data size => esp_vfs_write fd data size s
  | o_lseek size mode => esp_vfs_lseek fd size mode s
  | o_read dst size => esp_vfs_read fd dst size s
  | o_pread dst size offset => esp_vfs_pread fd dst size offset s
  | o_pwrite src size offset => esp_vfs_pwrite fd src size offset s
  | o_fstat st => esp_vfs_fstat fd st s
  | o_fcntl cmd argument => _fcntl_r fd cmd argument s
  | o_ioctl cmd args => ioctl fd cmd args s
  | o_fsync => fsync fd s
  | o_tcgetattr p => tcgetattr fd p s
  | o_tcsetattr actions p => tcsetattr fd actions p s
  | o_tcdrain => tcdrain fd s
  | o_tcflush select => tcflush fd select s
  | o_tcflow action => tcflow fd action s
  | o_tcgetsid => tcgetsid fd s
  | o_tcsendbreak duration => tcsendbreak fd duration s
  end.
Definition do_path (op : path_op) (path : list Z) s : outcome (Z * vfs_state) :=
  match op with
  | o_stat st => esp_vfs_stat path st s
  | o_unlink => esp_vfs_unlink path s
  | o_access amode => access path amode s
  | o_truncate length => truncate path length s
  | o_mkdir mode => mkdir path mode s
  | o_rmdir => rmdir path s
  | o_utime times => esp_vfs_utime path times s
  end.
Definition do_paths (op : paths_op) (n1 n2 : list Z) s : outcome (Z * vfs_state) :=
  match op with o_link => esp_vfs_link n1 n2 s | o_rename => esp_vfs_rename n1 n2 s end.
Definition do_dir (op : dir_op) (pdir : Z) s : outcome (Z * vfs_state) :=
  match op with
  | o_readdir => readdir pdir s
  | o_readdir_r entry out => readdir_r pdir entry out s
  | o_telldir => telldir pdir s
  | o_seekdir loc => seekdir pdir loc s
  | o_rewinddir => rewinddir pdir s
  | o_closedir => closedir pdir s
  end.

(** The function of the driver for a call, with its arguments behind the
    descriptor, the path or the stream. *)
Definition fd_function (op : fd_op) : vfs_func * list arg :=
  match op with
  | o_write data size => (f_write, [num data; num size])
  | o_lseek size mode => (f_lseek, [num size; num mode])
  | o_read dst size => (f_read, [num dst; num size])
  | o_pread dst size offset => (f_pread, [num dst; num size; num offset])
  | o_pwrite src size offset => (f_pwrite, [num src; num size; num offset])
  | o_fstat st => (f_fstat, [num st])
  | o_fcntl cmd argument => (f_fcntl, [num cmd; num argument])
  | o_ioctl cmd args => (f_ioctl, [num cmd; num args])
  | o_fsync => (f_fsync, [])
  | o_tcgetattr p => (f_tcgetattr, [num p])
  | o_tcsetattr actions p => (f_tcsetattr, [num actions; num p])
  | o_tcdrain => (f_tcdrain, [])
  | o_tcflush select => (f_tcflush, [num select])
  | o_tcflow action => (f_tcflow, [num action])
  | o_tcgetsid => (f_tcgetsid, [])
  | o_tcsendbreak duration => (f_tcsendbreak, [num duration])
  end.
Definition path_function (op : path_op) : vfs_func * list arg :=
  match op with
  | o_stat st => (f_stat, [num st])
  | o_unlink => (f_unlink, [])
  | o_access amode => (f_access, [num amode])
  | o_truncate length => (f_truncate, [num length])
  | o_mkdir mode => (f_mkdir, [num mode])
  | o_rmdir => (f_rmdir, [])
  | o_utime times => (f_utime, [num times])
  end.
Definition paths_function (op : paths_op) : vfs_func := match op with o_link => f_link | o_rename => f_rename end.
Definition dir_function (op : dir_op) : vfs_func * list arg :=
  match op with
  | o_readdir => (f_readdir, [])
  | o_readdir_r entry out => (f_readdir_r, [num entry; num out])
  | o_telldir => (f_telldir, [])
  | o_seekdir loc => (f_seekdir, [num loc])
  | o_rewinddir => (f_seekdir, [num 0])
  | o_closedir => (f_closedir, [])
  end.
(** [NULL] and nothing are 0. *)
Definition dir_failed (op : dir_op) : Z := match op with o_readdir | o_seekdir _ | o_rewinddir => 0 | _ => -1 end.

Inductive vfs_call :=
  | c_register (alloc : bool) (before : option Z) (base_path : list Z) (v : esp_vfs_t) (ctx : Z)
  | c_register_with_id (alloc vfs_id : bool) (v : esp_vfs_t) (ctx : Z)
  | c_register_fd_range (alloc : bool) (v : esp_vfs_t) (ctx min_fd max_fd : Z)
  | c_unregister (base_path : list Z)
  | c_register_fd (fd : bool) (vfs_id : Z)
  | c_unregister_fd (vfs_id fd : Z)
  | c_open (path : list Z) (flags mode : Z)
  | c_close (fd : Z)
  | c_fd (op : fd_op) (fd : Z)
  | c_path (op : path_op) (path : list Z)
  | c_paths (op : paths_op) (n1 n2 : list Z)
  | c_opendir (path : list Z)
  | c_dir (op : dir_op) (pdir : Z).

(** What the call returns and what it writes to the caller's pointer. *)
Definition answer : Type := Z * option Z.
Definition vfs_step (c : vfs_call) s : outcome (answer * vfs_state) :=
  match c with
  | c_register alloc before base_path v ctx => '(r, s) ← esp_vfs_register alloc before base_path v ctx s; Ok ((r, None), s)
  | c_register_with_id alloc vfs_id v ctx => '(r, id, s) ← esp_vfs_register_with_id alloc vfs_id v ctx s; Ok ((r, Some id), s)
  | c_register_fd_range alloc v ctx min_fd max_fd => '(r, s) ← esp_vfs_register_fd_range alloc v ctx min_fd max_fd s; Ok ((r, None), s)
  | c_unregister base_path => let '(r, s) := esp_vfs_unregister base_path s in Ok ((r, None), s)
  | c_register_fd fd vfs_id => let '(r, i, s) := esp_vfs_register_fd fd vfs_id s in Ok ((r, i), s)
  | c_unregister_fd vfs_id fd => let '(r, s) := esp_vfs_unregister_fd vfs_id fd s in Ok ((r, None), s)
  | c_open path flags mode => '(r, s) ← esp_vfs_open path flags mode s; Ok ((r, None), s)
  | c_close fd => let '(r, s) := esp_vfs_close fd s in Ok ((r, None), s)
  | c_fd op fd => let '(r, s) := do_fd op fd s in Ok ((r, None), s)
  | c_path op path => '(r, s) ← do_path op path s; Ok ((r, None), s)
  | c_paths op n1 n2 => '(r, s) ← do_paths op n1 n2 s; Ok ((r, None), s)
  | c_opendir path => '(r, s) ← opendir path s; Ok ((r, None), s)
  | c_dir op pdir => '(r, s) ← do_dir op pdir s; Ok ((r, None), s)
  end.
Fixpoint vfs_steps (cs : list vfs_call) s : outcome (list answer * vfs_state) :=
  match cs with
  | [] => Ok ([], s)
  | c :: cs => '(a, s) ← vfs_step c s; '(l, s) ← vfs_steps cs s; Ok (a :: l, s)
  end.

(** ** The abstract file system *)
Record file := mkFile { owner : vfs_entry_t; in_driver : Z; kept : bool }.
Record filesystem := mkFs {
  places : list (option vfs_entry_t); files : gmap Z file; streams : gmap Z vfs_entry_t; outside : world
}.
#[export] Instance rebuild_filesystem : Rebuild filesystem := fun t => mkFs (places t) (files t) (streams t) (outside t).
Implicit Types t : filesystem.

Definition fs_errno (n : Z) t : filesystem := t <| outside := (outside t) <| errno := n |> |>.
(** A call of the driver's function: -1, or what [failed] is, if it has none. *)
Definition fs_call e (f : vfs_func) (args : list arg) t : option Z * filesystem :=
  let '(r, w) := CHECK_AND_CALL e f args (outside t) in (r, t <| outside := w |>).

Definition free_place t : option nat := fst <$> list_find (fun v => v = None) (places t).
Definition free_fd t : option Z := find (fun fd => bool_decide (files t !! fd = None)) (seqZ 0 MAX_FDS).

(** A driver in the first free place; its number is its place. *)
Definition fs_mount (alloc : bool) (p : option (list Z)) (v : esp_vfs_t) (ctx : Z) t : Z * option Z * filesystem :=
  if negb alloc then (ESP_ERR_NO_MEM, None, t)
  else
    match free_place t with
    | None => (ESP_ERR_NO_MEM, None, t)
    | Some i =>
        let e := mkVfsEntry v (default [] p) (match p with Some p => lenZ p | None => LEN_PATH_PREFIX_IGNORED end) ctx (Z.of_nat i) in
        (ESP_OK, Some (Z.of_nat i), t <| places := <[i := Some e]> (places t) |>)
    end.

Definition base_path_ok (p : list Z) : bool :=
  bool_decide (p = []) || ((2 <=? lenZ p) && (lenZ p <=? ESP_VFS_PATH_MAX) && bool_decide (head p = Some SLASH) && negb (bool_decide (last p = Some SLASH))).

Definition fs_unmount (i : nat) t : filesystem :=
  t <| places := <[i := None]> (places t) |>
    <| files := filter (fun '(_, f) => offset (owner f) <> Z.of_nat i) (files t) |>
    <| streams := filter (fun '(_, e) => offset e <> Z.of_nat i) (streams t) |>.

Definition place t (id : Z) : option vfs_entry_t := if id <? 0 then None else mjoin (places t !! Z.to_nat id).

Definition claim (e : vfs_entry_t) (fds : list Z) t : filesystem :=
  t <| files := foldl (fun m fd => <[fd := mkFile e fd true]> m) (files t) fds |>.

Definition answer_of (c : vfs_call) t : option (answer * filesystem) :=
  match c with
  | c_register alloc before p v ctx =>
      if negb (base_path_ok p) then Some ((ESP_ERR_INVALID_ARG, None), t)
      else if lenZ p =? ESP_VFS_PATH_MAX then None
      else if bool_decide (p = []) && (existsb is_default (places t) || bool_decide (before = None) || bool_decide (before = Some SLASH)) then None
      else let '(r, _, t) := fs_mount alloc (Some p) v ctx t in Some ((r, None), t)
  | c_register_with_id alloc vfs_id v ctx =>
      if negb vfs_id then Some ((ESP_ERR_INVALID_ARG, Some (-1)), t)
      else let '(r, id, t) := fs_mount alloc None v ctx t in Some ((r, Some (default (-1) id)), t)
  | c_register_fd_range alloc v ctx min_fd max_fd =>
      if (min_fd <? 0) || (MAX_FDS <? max_fd) || (max_fd <? min_fd) then Some ((ESP_ERR_INVALID_ARG, None), t)
      else
        let fds := seqZ min_fd (max_fd - min_fd) in
        if negb (forallb (fun fd => bool_decide (files t !! fd = None)) fds) then None
        else
          let '(r, id, t) := fs_mount alloc None v ctx t in
          Some ((r, None), match id ≫= place t with Some e => claim e fds t | None => t end)
  | c_unregister p =>
      if LEN_PATH_PREFIX_IGNORED <=? lenZ p then None
      else
        match list_find (fun v => mounted_at p v = true) (places t) with
        | Some (i, _) => Some ((ESP_OK, None), fs_unmount i t)
        | None => Some ((ESP_ERR_INVALID_STATE, None), t)
        end
  | c_register_fd fd id =>
      if negb fd || (id <? 0) || (VFS_MAX_COUNT <=? id) then Some ((ESP_ERR_INVALID_ARG, None), t)
      else
        e ← place t id;
        match free_fd t with
        | Some i => Some ((ESP_OK, Some i), claim e [i] t)
        | None => Some ((ESP_ERR_NO_MEM, None), t)
        end
  | c_unregister_fd id fd =>
      match files t !! fd with
      | Some f =>
          if kept f && (offset (owner f) =? id) && (in_driver f =? fd) then Some ((ESP_OK, None), t <| files := delete fd (files t) |>)
          else Some ((ESP_ERR_INVALID_ARG, None), t)
      | None => Some ((ESP_ERR_INVALID_ARG, None), t)
      end
  | c_open path flags mode =>
      match resolve path (places t) with
      | None => Some ((-1, None), fs_errno ENOENT t)
      | Some e =>
          let '(r, t) := fs_call e f_open [str (inner_path (drop (length (path_prefix e)) path)); num flags; num mode] t in
          match r with
          | None => Some ((-1, None), t)
          | Some n =>
              if n <? 0 then Some ((-1, None), fs_errno ENOENT t)
              else if 256 <=? n then None
              else
                match free_fd t with
                | Some fd => Some ((fd, None), t <| files := <[fd := mkFile e n false]> (files t) |>)
                | None =>
                    let '(r, t) := fs_call e f_close [num n] t in
                    Some ((-1, None), match r with Some _ => fs_errno ENOMEM t | None => t end)
                end
          end
      end
  | c_close fd =>
      match files t !! fd with
      | None => Some ((-1, None), fs_errno EBADF t)
      | Some f =>
          let '(r, t) := fs_call (owner f) f_close [num (in_driver f)] t in
          Some ((default (-1) r, None), match r with Some _ => if kept f then t else t <| files := delete fd (files t) |> | None => t end)
      end
  | c_fd op fd =>
      match files t !! fd with
      | None => Some ((-1, None), fs_errno EBADF t)
      | Some f => let '(r, t) := fs_call (owner f) (fd_function op).1 (num (in_driver f) :: (fd_function op).2) t in Some ((default (-1) r, None), t)
      end
  | c_path op path =>
      match resolve path (places t) with
      | None => Some ((-1, None), fs_errno ENOENT t)
      | Some e =>
          let '(r, t) := fs_call e (path_function op).1 (str (inner_path (drop (length (path_prefix e)) path)) :: (path_function op).2) t in
          Some ((default (-1) r, None), t)
      end
  | c_paths op n1 n2 =>
      match resolve n1 (places t), resolve n2 (places t) with
      | None, _ => Some ((-1, None), fs_errno ENOENT t)
      | Some e1, Some e2 =>
          if offset e1 =? offset e2 then
            let '(r, t) := fs_call e1 (paths_function op)
              [str (inner_path (drop (length (path_prefix e1)) n1)); str (inner_path (drop (length (path_prefix e2)) n2))] t in
            Some ((default (-1) r, None), t)
          else Some ((-1, None), fs_errno EXDEV t)
      | Some _, None => Some ((-1, None), fs_errno EXDEV t)
      end
  | c_opendir path =>
      match resolve path (places t) with
      | None => Some ((0, None), fs_errno ENOENT t)
      | Some e =>
          let '(r, t) := fs_call e f_opendir [str (inner_path (drop (length (path_prefix e)) path))] t in
          Some ((default 0 r, None), if default 0 r =? 0 then t else t <| streams := <[default 0 r := e]> (streams t) |>)
      end
  | c_dir op pdir =>
      e ← streams t !! pdir;
      let '(r, t) := fs_call e (dir_function op).1 (num pdir :: (dir_function op).2) t in
      Some ((default (dir_failed op) r, None), t)
  end.
Fixpoint answers_of (cs : list vfs_call) t : option (list answer * filesystem) :=
  match cs with
  | [] => Some ([], t)
  | c :: cs => '(a, t) ← answer_of c t; '(l, t) ← answers_of cs t; Some (a :: l, t)
  end.

Definition fs_start (d : drivers) : filesystem := mkFs (repeat None (Z.to_nat VFS_MAX_COUNT)) ∅ ∅ (mkWorld 0 d).
End client.
