(* ===== verification/VfsHistory.v ===== *)
(** * Virtual file system: the states that represent a file system

    [Rep] relates the tables of the code to the abstract file system; each call
    keeps it and gives the same answer. *)
From S2P Require Import Prelude Mem EspFlash Vfs VfsPath VfsClient.

Section history.
Context {venv : VfsEnv}.
Implicit Types (s : vfs_state) (t : filesystem) (e : vfs_entry_t).

Definition cell (f : option file) : fd_table_t :=
  match f with
  | None => FD_TABLE_ENTRY_UNUSED
  | Some f => mkFd (kept f) (offset (owner f)) (in_driver f)
  end.
Definition mounted t e : Prop := places t !! Z.to_nat (offset e) = Some (Some e).

Record Rep s t : Prop := {
  rep_places : s_vfs s = places t;
  rep_eight : length (places t) = Z.to_nat VFS_MAX_COUNT;
  rep_count : 0 <= s_vfs_count s <= VFS_MAX_COUNT;
  rep_beyond : forall i, s_vfs_count s <= Z.of_nat i -> (i < length (places t))%nat -> places t !! i = Some None;
  rep_entries : forall i e, places t !! i = Some (Some e) -> offset e = Z.of_nat i /\ entry_ok e;
  rep_default : one_default (places t);
  rep_64 : length (s_fd_table s) = Z.to_nat MAX_FDS;
  rep_cells : forall fd, 0 <= fd < MAX_FDS -> fd_at s fd = cell (files t !! fd);
  rep_files : forall fd f, files t !! fd = Some f -> 0 <= fd < MAX_FDS /\ mounted t (owner f) /\ 0 <= in_driver f < 256;
  rep_streams : forall p e, streams t !! p = Some e -> dd_vfs_idx s !! p = Some (offset e) /\ mounted t e;
  rep_env : env s = outside t
}.

Lemma start_rep d : Rep (vfs_start d) (fs_start d).
Proof.
  assert (N : forall i v, places (fs_start d) !! i = Some v -> v = None).
  { intros i v H. eapply (Forall_lookup_1 (fun v => v = None)); [|exact H]. repeat constructor. }
  constructor; try done.
  - intros i _ Hi. destruct (lookup_lt_is_Some_2 _ _ Hi) as [v Hv]. rewrite Hv. by rewrite (N _ _ Hv).
  - by intros i e H%N.
  - intros i j u v ->%N _ Hu _. done.
  - intros fd _. unfold fd_at. destruct (s_fd_table (vfs_start d) !! Z.to_nat fd) eqn:E; [|done].
    eapply (Forall_lookup_1 (fun f => f = FD_TABLE_ENTRY_UNUSED)) in E; [by rewrite E|]. apply Forall_forall.
    intros x Hf. by apply list_elem_of_In, repeat_spec in Hf.
Qed.

(** ** The table of descriptors *)
Lemma fd_at_set s fd f j : length (s_fd_table s) = Z.to_nat MAX_FDS -> 0 <= fd < MAX_FDS -> 0 <= j ->
  fd_at (set_fd fd f s) j = if decide (j = fd) then f else fd_at s j.
Proof.
  intros L Hf Hj. unfold fd_at, set_fd. simpl. rewrite lookup_update by lia.
  destruct (decide (Z.to_nat fd = Z.to_nat j)), (decide (j = fd)); try done; lia.
Qed.
Lemma length_set_fd s fd f : length (s_fd_table (set_fd fd f s)) = length (s_fd_table s).
Proof. unfold set_fd. simpl. apply length_insert. Qed.

(** Clearing the descriptors of a driver among [js]. *)
Definition clear_fd (i : Z) s (j : Z) : vfs_state := if vfs_index (fd_at s j) =? i then set_fd j FD_TABLE_ENTRY_UNUSED s else s.

Record Same_but_fds s s' : Prop := {
  same_vfs : s_vfs s' = s_vfs s; same_count : s_vfs_count s' = s_vfs_count s;
  same_idx : dd_vfs_idx s' = dd_vfs_idx s; same_env : env s' = env s; same_64 : length (s_fd_table s') = length (s_fd_table s)
}.
Lemma same_refl s : Same_but_fds s s.
Proof. by constructor. Qed.
Lemma same_trans s1 s2 s3 : Same_but_fds s1 s2 -> Same_but_fds s2 s3 -> Same_but_fds s1 s3.
Proof. intros [] []. constructor; congruence. Qed.
Lemma same_set_fd s fd f : Same_but_fds s (set_fd fd f s).
Proof. constructor; try done. apply length_set_fd. Qed.

Lemma clear_fds i js : forall s, 0 <= i -> length (s_fd_table s) = Z.to_nat MAX_FDS -> (forall j, j ∈ js -> 0 <= j < MAX_FDS) ->
  let s' := foldl (clear_fd i) s js in
  Same_but_fds s s' /\ forall j, 0 <= j -> fd_at s' j = if decide (j ∈ js /\ vfs_index (fd_at s j) = i) then FD_TABLE_ENTRY_UNUSED else fd_at s j.
Proof.
  induction js as [|k js IH]; intros s Hi L Hjs; cbn [foldl].
  { split; [apply same_refl|]. intros j Hj. rewrite decide_False; [done|]. intros [H _]. by apply not_elem_of_nil in H. }
  assert (Hk : 0 <= k < MAX_FDS) by (apply Hjs; left).
  assert (S1 : Same_but_fds s (clear_fd i s k)) by (unfold clear_fd; case_match; [apply same_set_fd|apply same_refl]).
  assert (F1 : forall j, 0 <= j -> fd_at (clear_fd i s k) j = if decide (j = k /\ vfs_index (fd_at s j) = i) then FD_TABLE_ENTRY_UNUSED else fd_at s j).
  { intros j Hj. unfold clear_fd. destruct (Z.eqb_spec (vfs_index (fd_at s k)) i) as [E|E].
    - rewrite fd_at_set by done. destruct (decide (j = k)) as [->|]; [by rewrite decide_True|]. rewrite decide_False; tauto.
    - rewrite decide_False; [done|]. intros [-> ?]. done. }
  destruct (IH (clear_fd i s k) Hi) as [S2 F2]; [rewrite (same_64 _ _ S1); done|intros j Hj; apply Hjs; by right|].
  split; [by eapply same_trans|]. intros j Hj. rewrite F2, F1 by done.
  destruct (decide (vfs_index (fd_at s j) = i)) as [E|E].
  - destruct (decide (j = k)) as [->|Hn].
    + rewrite (decide_True (P := k = k /\ _)) by done. rewrite (decide_True (P := k ∈ k :: js /\ _)) by (split; [left|done]).
      by case_decide.
    + rewrite (decide_False (P := j = k /\ _)) by tauto.
      destruct (decide (j ∈ js)); [rewrite !decide_True; [done|by split; [right|]|done]|].
      rewrite !decide_False; [done|intros [[?|?]%elem_of_cons _]; done|tauto].
  - rewrite (decide_False (P := j = k /\ _)) by tauto. rewrite !decide_False; [done|tauto|tauto].
Qed.

(** ** Looking up *)
Lemma rep_index s t i : Rep s t -> get_vfs_for_index s i = place t i.
Proof.
  intros R. unfold get_vfs_for_index, place, s_vfs_at. destruct (Z.ltb_spec i 0); [done|]. simpl. rewrite (rep_places _ _ R).
  destruct (Z.leb_spec (s_vfs_count s) i) as [Hc|]; [|done].
  destruct (decide (Z.to_nat i < length (places t))%nat).
  - by rewrite (rep_beyond _ _ R (Z.to_nat i)) by lia.
  - by rewrite lookup_ge_None_2 by lia.
Qed.

Lemma mounted_place t e : 0 <= offset e -> mounted t e -> place t (offset e) = Some e.
Proof. intros H M. unfold place. rewrite (proj2 (Z.ltb_ge _ _)) by lia. by rewrite M. Qed.
Lemma mounted_offset s t e : Rep s t -> mounted t e -> 0 <= offset e < VFS_MAX_COUNT.
Proof.
  intros R M. pose proof (rep_eight _ _ R) as L. pose proof (lookup_lt_Some _ _ _ M) as Lt.
  destruct (rep_entries _ _ R _ _ M) as [E _]. rewrite E. lia.
Qed.

Lemma rep_fd s t fd : Rep s t -> get_vfs_for_fd s fd = owner <$> files t !! fd.
Proof.
  intros R. unfold get_vfs_for_fd, fd_valid. destruct (decide (0 <= fd < MAX_FDS)) as [Hf|Hf].
  - rewrite (proj2 (Z.ltb_lt _ _)), (proj2 (Z.leb_le _ _)) by lia. simpl. rewrite (rep_index s t _ R), (rep_cells _ _ R fd Hf).
    destruct (files t !! fd) as [f|] eqn:E; [|done]. simpl. destruct (rep_files _ _ R _ _ E) as (_ & M & _).
    apply mounted_place; [|done]. pose proof (mounted_offset s t _ R M). lia.
  - replace ((fd <? MAX_FDS) && (0 <=? fd)) with false; [|symmetry; apply andb_false_iff; rewrite Z.ltb_ge, Z.leb_gt; lia].
    destruct (files t !! fd) as [f|] eqn:E; [|done]. destruct (rep_files _ _ R _ _ E) as (? & _). lia.
Qed.
Lemma rep_local s t fd f v : Rep s t -> files t !! fd = Some f -> get_local_fd s (Some v) fd = in_driver f.
Proof.
  intros R E. destruct (rep_files _ _ R _ _ E) as (Hf & _). unfold get_local_fd, fd_valid.
  rewrite (proj2 (Z.ltb_lt _ _)), (proj2 (Z.leb_le _ _)) by lia. simpl. by rewrite (rep_cells _ _ R fd Hf), E.
Qed.

Lemma unused_free s t : Rep s t -> unused_fd s = free_fd t.
Proof.
  intros R. unfold unused_fd, free_fd. assert (H : forall l, (forall fd, fd ∈ l -> 0 <= fd < MAX_FDS) ->
    find (fun i => vfs_index (fd_at s i) =? -1) l = find (fun fd => bool_decide (files t !! fd = None)) l).
  { induction l as [|fd l IH]; intros Hl; [done|]. simpl. rewrite (rep_cells _ _ R fd) by (apply Hl; left).
    rewrite IH by (intros j Hj; apply Hl; by right). destruct (files t !! fd) as [f|] eqn:E; [|done].
    rewrite bool_decide_eq_false_2 by done. simpl. destruct (rep_files _ _ R _ _ E) as (_ & M & _).
    by rewrite (proj2 (Z.eqb_neq _ _)) by (pose proof (mounted_offset s t _ R M); lia). }
  apply H. intros fd. by rewrite elem_of_seqZ.
Qed.
Lemma free_fd_range t fd : free_fd t = Some fd -> 0 <= fd < MAX_FDS /\ files t !! fd = None.
Proof. intros [H1 H2]%find_some. apply list_elem_of_In, elem_of_seqZ in H1. apply bool_decide_eq_true in H2. split; [lia|done]. Qed.

(** *** Paths *)
Lemma is_best_take k path c l r : (forall i v, (c <= i)%nat -> l !! i = Some v -> v = None) -> is_best k path (take c l) r -> is_best k path l r.
Proof.
  intros Hb. destruct r as [e|]; simpl.
  - intros (n & i & [H1 H2 H3 H4]). exists n, i. constructor; [by apply lookup_take_Some in H1 as [? _]|done|done|].
    intros j v m Hj Hm. destruct (decide (j < c)%nat); [apply (H4 j v m); [|done]; by rewrite lookup_take_lt|].
    rewrite (Hb j v) in Hm by (lia || done). done.
  - intros H i v m Hi Hm. destruct (decide (i < c)%nat); [apply (H i v m); [|done]; by rewrite lookup_take_lt|].
    rewrite (Hb i v) in Hm by (lia || done). done.
Qed.

Lemma rep_entries_ok s t : Rep s t -> entries_ok (places t).
Proof. intros R i e H. by apply (rep_entries _ _ R) in H as [_ ?]. Qed.

Lemma rep_path s t path : Rep s t -> get_vfs_for_path path s = resolve path (places t).
Proof.
  intros R. assert (Hm : mounts s = take (Z.to_nat (s_vfs_count s)) (places t)) by (unfold mounts; by rewrite (rep_places _ _ R)).
  rewrite get_vfs_resolves; rewrite Hm.
  - eapply (best_unique (length path) path (places t)); [|by apply resolve_best].
    apply (is_best_take _ _ (Z.to_nat (s_vfs_count s))); [|by apply resolve_best]. intros i v Hi Hv.
    pose proof (lookup_lt_Some _ _ _ Hv). destruct (rep_count _ _ R). rewrite (rep_beyond _ _ R i) in Hv by lia. congruence.
  - intros i e Hi. apply lookup_take_Some in Hi as [Hi _]. by apply (rep_entries_ok s t R i).
  - intros i j u v Hi Hj. apply lookup_take_Some in Hi as [Hi _]. apply lookup_take_Some in Hj as [Hj _]. by apply (rep_default _ _ R).
Qed.

Lemma resolve_mounted s t path e : Rep s t -> resolve path (places t) = Some e ->
  mounted t e /\ translate_path e path = Ok (inner_path (drop (length (path_prefix e)) path)).
Proof.
  intros R Hr. split.
  - pose proof (resolve_best path (places t) (length path) (le_n _)) as B. fold (resolve path (places t)) in B. rewrite Hr in B.
    destruct B as (n & i & [Hi _ _ _]). unfold mounted. destruct (rep_entries _ _ R _ _ Hi) as [-> _]. by rewrite Nat2Z.id.
  - destruct (resolve_splits path (places t) e (rep_entries_ok s t R) Hr) as (rest & -> & -> & _). by rewrite drop_app_length.
Qed.

(** ** Calling a driver *)
Lemma rep_world s t w : Rep s t -> Rep (s <| env := w |>) (t <| outside := w |>).
Proof. intros []. by constructor. Qed.
Lemma rep_errno s t n : Rep s t -> Rep (set_errno n s) (fs_errno n t).
Proof. intros R. unfold set_errno, fs_errno. rewrite (rep_env _ _ R). by apply rep_world. Qed.
Lemma rep_call s t e f args : Rep s t -> exists r s' t', call_entry e f args s = (r, s') /\ fs_call e f args t = (r, t') /\ Rep s' t' /\
  files t' = files t /\ places t' = places t.
Proof.
  intros R. unfold call_entry, fs_call. rewrite (rep_env _ _ R). destruct (CHECK_AND_CALL e f args (outside t)) as [r w].
  do 3 eexists. split; [done|]. split; [done|]. split; [by apply rep_world|done].
Qed.

(** *** A descriptor is opened or closed *)
Lemma rep_insert s t fd e n k : Rep s t -> 0 <= fd < MAX_FDS -> mounted t e -> 0 <= n < 256 ->
  Rep (set_fd fd (mkFd k (offset e) n) s) (t <| files := <[fd := mkFile e n k]> (files t) |>).
Proof.
  intros R Hf M Hn. pose proof R as []. constructor; simpl; try done.
  - by rewrite length_insert.
  - intros j Hj. rewrite fd_at_set by (done || lia). destruct (decide (j = fd)) as [->|]; [by rewrite lookup_insert_eq|].
    rewrite lookup_insert_ne by done. by apply rep_cells0.
  - intros j f. rewrite lookup_insert_Some. intros [[<- <-]|[_ H]]; [done|by apply rep_files0].
Qed.
Lemma rep_delete s t fd : Rep s t -> 0 <= fd < MAX_FDS -> Rep (set_fd fd FD_TABLE_ENTRY_UNUSED s) (t <| files := delete fd (files t) |>).
Proof.
  intros R Hf. pose proof R as []. constructor; simpl; try done.
  - by rewrite length_insert.
  - intros j Hj. rewrite fd_at_set by (done || lia). destruct (decide (j = fd)) as [->|]; [by rewrite lookup_delete_eq|].
    rewrite lookup_delete_ne by done. by apply rep_cells0.
  - intros j f. rewrite lookup_delete_Some. intros [_ H]. by apply rep_files0.
Qed.
End history.
