(* ===== verification/VfsCalls.v ===== *)
(** * Virtual file system: every history of calls *)
From S2P Require Import Prelude Mem EspFlash Vfs VfsPath VfsClient VfsHistory.

Section calls.
Context {venv : VfsEnv}.
Implicit Types (s : vfs_state) (t : filesystem) (e : vfs_entry_t).

(** ** Registering and unregistering a driver *)
Lemma prefix_bad_ok before p : (p = [] -> exists c, before = Some c /\ c <> SLASH) -> prefix_bad before p = Ok (negb (base_path_ok p)).
Proof.
  intros Hb. unfold prefix_bad, base_path_ok. destruct p as [|c p].
  { destruct (Hb eq_refl) as (c & -> & Hc). simpl. by rewrite (proj2 (Z.eqb_neq c 47)). }
  rewrite (bool_decide_eq_false_2 (c :: p = [])) by done. pose proof (lenZ_cons c p) as Lc. pose proof (lenZ_nonneg p).
  rewrite (proj2 (Z.eqb_neq (lenZ (c :: p)) 0)), (proj2 (Z.ltb_lt 0 _)) by lia. cbn [negb andb orb head].
  destruct (Z.ltb_spec (lenZ (c :: p)) 2); [by rewrite (proj2 (Z.leb_gt 2 _)) by lia|].
  rewrite (proj2 (Z.leb_le 2 _)) by lia. destruct (Z.ltb_spec ESP_VFS_PATH_MAX (lenZ (c :: p))); [by rewrite (proj2 (Z.leb_gt _ ESP_VFS_PATH_MAX)) by lia|].
  rewrite (proj2 (Z.leb_le _ ESP_VFS_PATH_MAX)) by lia. cbn [orb andb default from_option id].
  rewrite (bool_decide_ext (Some c = Some SLASH) (c = 47)) by (split; [by intros [= ->]|by intros ->]).
  destruct (Z.eqb_spec c 47); [|by rewrite bool_decide_eq_false_2]. rewrite bool_decide_eq_true_2 by done. cbn [negb andb].
  destruct (last (c :: p)) as [d|] eqn:El; [|by apply last_None in El].
  rewrite (bool_decide_ext (Some d = Some SLASH) (d = 47)) by (split; [by intros [= ->]|by intros ->]).
  destruct (Z.eqb_spec d 47); [by rewrite bool_decide_eq_true_2|by rewrite bool_decide_eq_false_2].
Qed.

Lemma free_index_spec (l : list (option vfs_entry_t)) : forall k,
  free_index l k = k + match list_find (fun v => v = None) l with Some (i, _) => Z.of_nat i | None => lenZ l end.
Proof.
  induction l as [|[e|] l IH]; intros k; simpl; [unfold lenZ; simpl; lia| |lia].
  rewrite IH. destruct (list_find _ l) as [[i v]|]; simpl; [lia|]. rewrite lenZ_cons. lia.
Qed.

(** The place that the code chooses. *)
Lemma free_index_place s t : Rep s t ->
  free_index (take (Z.to_nat (s_vfs_count s)) (s_vfs s)) 0 = match free_place t with Some i => Z.of_nat i | None => VFS_MAX_COUNT end /\
  (free_place t = None -> s_vfs_count s = VFS_MAX_COUNT) /\ (forall i, free_place t = Some i -> places t !! i = Some None /\ Z.of_nat i <= s_vfs_count s).
Proof.
  intros R. pose proof (rep_count _ _ R) as Hc. pose proof (rep_eight _ _ R) as H8. rewrite (rep_places _ _ R), free_index_spec.
  unfold free_place. destruct (list_find (fun v => v = None) (places t)) as [[i v]|] eqn:Ef; simpl.
  - apply list_find_Some in Ef as (Hi & -> & Hf). assert (Hle : Z.of_nat i <= s_vfs_count s).
    { destruct (Z.leb_spec (Z.of_nat i) (s_vfs_count s)); [done|]. exfalso.
      pose proof (lookup_lt_Some _ _ _ Hi). apply (Hf (Z.to_nat (s_vfs_count s)) None); [|lia|done]. apply (rep_beyond _ _ R); lia. }
    split; [|split; [done|by intros ? [= <-]]].
    destruct (decide (Z.of_nat i = s_vfs_count s)) as [E|E].
    + replace (list_find _ (take _ (places t))) with (@None (nat * option vfs_entry_t)).
      * unfold lenZ. rewrite length_take. lia.
      * symmetry. apply list_find_None, Forall_lookup. intros j v Hj ->. apply lookup_take_Some in Hj as [Hj Hlt].
        apply (Hf j None); [done|lia|done].
    + replace (list_find _ (take _ (places t))) with (Some (i, @None vfs_entry_t)); [lia|]. symmetry. apply list_find_Some.
      split; [by rewrite lookup_take_lt by lia|]. split; [done|]. intros j y Hj. apply lookup_take_Some in Hj as [Hj _]. by apply Hf.
  - apply list_find_None in Ef. assert (Hcount : s_vfs_count s = VFS_MAX_COUNT).
    { destruct (decide (s_vfs_count s = VFS_MAX_COUNT)); [done|]. exfalso. rewrite Forall_lookup in Ef.
      apply (Ef (Z.to_nat (s_vfs_count s)) None); [|done]. apply (rep_beyond _ _ R); lia. }
    split; [|split; [done|done]]. rewrite take_ge by lia.
    replace (list_find _ (places t)) with (@None (nat * option vfs_entry_t)) by (symmetry; by apply list_find_None).
    unfold lenZ. lia.
Qed.

(** A driver is put into a free place. *)
Lemma rep_mounted s t i e : Rep s t -> places t !! i = Some None -> Z.of_nat i <= s_vfs_count s -> offset e = Z.of_nat i -> entry_ok e ->
  (is_default (Some e) = true -> existsb is_default (places t) = false) ->
  Rep (set_s_vfs (Z.of_nat i) (Some e) (if Z.of_nat i =? s_vfs_count s then s <| s_vfs_count := s_vfs_count s + 1 |> else s))
      (t <| places := <[i := Some e]> (places t) |>).
Proof.
  intros R Hi Hc Ho Hok Hd. pose proof (lookup_lt_Some _ _ _ Hi) as Lt. pose proof (rep_eight _ _ R) as H8. pose proof (rep_count _ _ R) as Hcnt.
  assert (Ho' : forall e', mounted t e' -> <[i := Some e]> (places t) !! Z.to_nat (offset e') = Some (Some e')).
  { intros e' M. rewrite list_lookup_insert_ne; [done|]. intros ->. unfold mounted in M. congruence. }
  assert (Hno : forall j v, is_default (Some e) = true -> places t !! j = Some v -> is_default v = true -> False).
  { intros j v He Hj Hv. specialize (Hd He). apply not_true_iff_false in Hd. apply Hd, existsb_exists. exists v. split; [|done].
    apply list_elem_of_In. by apply list_elem_of_lookup_2 in Hj. }
  set (s1 := if Z.of_nat i =? s_vfs_count s then _ else s). assert (Hs1 : s_vfs s1 = s_vfs s /\ s_fd_table s1 = s_fd_table s /\ dd_vfs_idx s1 = dd_vfs_idx s /\ env s1 = env s) by (unfold s1; by case_match).
  assert (Hcount : Z.of_nat i < s_vfs_count s1 /\ s_vfs_count s <= s_vfs_count s1 <= VFS_MAX_COUNT)
    by (unfold s1; destruct (Z.eqb_spec (Z.of_nat i) (s_vfs_count s)); simpl; lia).
  destruct Hs1 as (E1 & E2 & E3 & E4). pose proof R as [Rp R8 Rc Rb Re Rd R64 Rce Rf Rs Rw]. constructor; simpl; try done.
  - by rewrite E1, Rp, Nat2Z.id.
  - by rewrite length_insert.
  - lia.
  - intros j Hj Hl. rewrite length_insert in Hl. rewrite list_lookup_insert_ne by lia. apply Rb; [lia|done].
  - intros j e' Hj. rewrite lookup_update in Hj by done. case_decide; [|by apply Re]. simplify_eq. by rewrite Ho.
  - intros j k u v. rewrite !lookup_update by done. repeat case_decide; intros Hu Hv Du Dv; simplify_eq; [done|exfalso; eauto|exfalso; eauto|by eapply Rd].
  - by rewrite E2.
  - intros fd Hf. unfold fd_at. simpl. rewrite E2. by apply Rce.
  - intros fd f Hf. destruct (Rf _ _ Hf) as (? & ? & ?). split; [done|]. split; [|done]. by apply Ho'.
  - intros p e' Hp. destruct (Rs _ _ Hp) as (? & ?). split; [by rewrite E3|]. by apply Ho'.
  - by rewrite E4.
Qed.

(** What is asked of a base path. *)
Definition mount_ok (before : option Z) (p : option (list Z)) t : Prop :=
  match p with
  | None => True
  | Some p => base_path_ok p = true /\ lenZ p < ESP_VFS_PATH_MAX /\
      (p = [] -> existsb is_default (places t) = false /\ exists c, before = Some c /\ c <> SLASH)
  end.

Lemma rep_mount alloc before p v ctx s t r id t' : Rep s t -> mount_ok before p t -> fs_mount alloc p v ctx t = (r, id, t') ->
  exists s', esp_vfs_register_common alloc before p v ctx s = Ok (r, id, s') /\ Rep s' t' /\ files t' = files t /\ (r = ESP_OK <-> id <> None).
Proof.
  intros R Hp. unfold fs_mount, esp_vfs_register_common.
  assert (Hb : (match p with Some p => prefix_bad before p | None => Ok false end) = Ok false).
  { destruct p as [p|]; [|done]. destruct Hp as (H1 & _ & H3). rewrite prefix_bad_ok, H1; [done|]. intros E. by apply H3. }
  rewrite Hb. ostep. destruct alloc; [|simpl; intros [= <- <- <-]; exists s; split_and!; [done..|by split]]. cbn [negb].
  destruct (free_index_place s t R) as (Ei & Hn & Hs). rewrite Ei. pose proof (rep_count _ _ R) as Hcount. destruct (free_place t) as [i|].
  - destruct (Hs i eq_refl) as [Hi Hle]. pose proof (lookup_lt_Some _ _ _ Hi) as Lt. rewrite (rep_eight _ _ R) in Lt.
    replace ((Z.of_nat i =? s_vfs_count s) && (VFS_MAX_COUNT <=? s_vfs_count s)) with false.
    2:{ symmetry. destruct (Z.eqb_spec (Z.of_nat i) (s_vfs_count s)); [|done]. apply Z.leb_gt. lia. }
    assert (Hlen : lenZ (default [] p) < ESP_VFS_PATH_MAX) by (destruct p; [simpl; destruct Hp as (_ & ? & _); done|done]).
    rewrite (proj2 (Z.ltb_ge _ _)) by lia. intros [= <- <- <-]. eexists. split; [done|]. split; [|done].
    apply rep_mounted; [done|done|done|done| |].
    + unfold entry_ok. simpl. destruct p; [by left|by right].
    + unfold is_default. simpl. destruct p as [p|]; simpl; [|done]. intros [_ H]%andb_true_iff. apply bool_decide_eq_true in H.
      destruct Hp as (_ & _ & H3). by apply H3.
  - rewrite (Hn eq_refl), Z.eqb_refl. cbn [andb Z.leb]. intros [= <- <- <-]. exists s. split_and!; [done..|by split].
Qed.

Lemma mounted_here e p : entry_ok e -> lenZ p < LEN_PATH_PREFIX_IGNORED ->
  (lenZ p =? path_prefix_len e) && memcmp_eq p (path_prefix e) (path_prefix_len e) = mounted_at p (Some e).
Proof.
  intros Hok Hp. unfold mounted_at, has_path. destruct (Z.eqb_spec (path_prefix_len e) LEN_PATH_PREFIX_IGNORED) as [E|E].
  - rewrite E, (proj2 (Z.eqb_neq _ _)) by lia. done.
  - destruct Hok as [Hl|]; [|done]. rewrite memcmp_prefix, Hl by done. simpl.
    destruct (Z.eqb_spec (lenZ p) (lenZ (path_prefix e))) as [L|L]; simpl.
    + rewrite take_ge by (unfold lenZ in L; lia). by apply bool_decide_ext.
    + symmetry. apply bool_decide_eq_false. congruence.
Qed.
Lemma find_base_path_spec (l : list (option vfs_entry_t)) p : forall k, entries_ok l -> lenZ p < LEN_PATH_PREFIX_IGNORED ->
  find_base_path l k p = (fun '(i, _) => k + Z.of_nat i) <$> list_find (fun v => mounted_at p v = true) l.
Proof.
  induction l as [|v l IH]; intros k Hok Hp; [done|]. assert (Hok' : entries_ok l) by (intros i e Hi; by apply (Hok (S i))).
  destruct v as [e|]; cbn [find_base_path list_find].
  - rewrite mounted_here by (done || by apply (Hok O)). destruct (mounted_at p (Some e)) eqn:E.
    + rewrite decide_True by done. simpl. f_equal. lia.
    + rewrite decide_False by done. rewrite IH by done. destruct (list_find _ l) as [[i v]|]; simpl; [f_equal; lia|done].
  - rewrite decide_False by done. rewrite IH by done. destruct (list_find _ l) as [[i v]|]; simpl; [f_equal; lia|done].
Qed.

Lemma find_place s t p : Rep s t -> lenZ p < LEN_PATH_PREFIX_IGNORED ->
  find_base_path (take (Z.to_nat (s_vfs_count s)) (s_vfs s)) 0 p = (fun '(i, _) => Z.of_nat i) <$> list_find (fun v => mounted_at p v = true) (places t).
Proof.
  intros R Hp. rewrite (rep_places _ _ R), find_base_path_spec; [|intros i e Hi; apply lookup_take_Some in Hi as [Hi _]; by apply (rep_entries_ok s t R i)|done].
  rewrite <- (take_drop (Z.to_nat (s_vfs_count s)) (places t)) at 2.
  destruct (list_find _ (take _ _)) as [[i v]|] eqn:E.
  - by rewrite (list_find_app_l _ _ _ _ _ E).
  - rewrite list_find_app_r by done. replace (list_find _ (drop _ (places t))) with (@None (nat * option vfs_entry_t)); [done|]. symmetry.
    apply list_find_None, Forall_lookup. intros j v Hj. rewrite lookup_drop in Hj. pose proof (lookup_lt_Some _ _ _ Hj).
    rewrite (rep_beyond _ _ R) in Hj by (pose proof (rep_count _ _ R); lia). by simplify_eq.
Qed.

(** A driver is removed, with the files and streams that belong to it. *)
Lemma rep_unmounted s t i e : Rep s t -> places t !! i = Some (Some e) ->
  Rep (foldl (clear_fd (Z.of_nat i)) (set_s_vfs (Z.of_nat i) None s) (seqZ 0 MAX_FDS)) (fs_unmount i t).
Proof.
  intros R Hi. pose proof R as [Rp R8 Rc Rb Re Rd R64 Rce Rf Rs Rw]. pose proof (lookup_lt_Some _ _ _ Hi) as Lt.
  destruct (clear_fds (Z.of_nat i) (seqZ 0 MAX_FDS) (set_s_vfs (Z.of_nat i) None s)) as [[Sv Sc Si Se S6] F];
    [lia|done|intros j; rewrite elem_of_seqZ; done|]. set (s' := foldl _ _ _) in *. clearbody s'.
  assert (Hoff : forall e', mounted t e' -> offset e' <> Z.of_nat i -> <[i := None]> (places t) !! Z.to_nat (offset e') = Some (Some e')).
  { intros e' M Hn. rewrite list_lookup_insert_ne; [done|]. pose proof (mounted_offset s t e' R M). lia. }
  constructor; unfold fs_unmount; simpl.
  - by rewrite Sv; simpl; rewrite Rp, Nat2Z.id.
  - by rewrite length_insert.
  - by rewrite Sc.
  - intros j. rewrite Sc, length_insert, lookup_update by done. intros. case_decide; [done|]. by apply Rb.
  - intros j e'. rewrite lookup_update by done. case_decide; [done|]. apply Re.
  - intros j k u v. rewrite !lookup_update by done. repeat case_decide; intros Hu Hv Du Dv; simplify_eq; try done. by eapply Rd.
  - by rewrite S6.
  - intros fd Hf. rewrite F by lia. change (fd_at (set_s_vfs (Z.of_nat i) None s) fd) with (fd_at s fd). rewrite Rce by done.
    destruct (files t !! fd) as [f|] eqn:E.
    + destruct (decide (offset (owner f) = Z.of_nat i)) as [Eo|Eo].
      * rewrite decide_True by (split; [by apply elem_of_seqZ|done]). rewrite map_lookup_filter_None_2; [done|]. right. intros g Hg Hn. by simplify_eq.
      * rewrite decide_False by (intros [_ ?]; done). by rewrite (map_lookup_filter_Some_2 _ _ fd f).
    + rewrite decide_False by (intros [_ ?]; simpl in *; lia). by rewrite map_lookup_filter_None_2 by (by left).
  - intros fd f [H Ho]%map_lookup_filter_Some. destruct (Rf _ _ H) as (? & M & ?). split; [done|]. split; [|done]. by apply Hoff.
  - intros p e' [H Ho]%map_lookup_filter_Some. destruct (Rs _ _ H) as (? & M). split; [by rewrite Si|]. by apply Hoff.
  - by rewrite Se.
Qed.

Lemma unregister_answers p s t a t' : Rep s t -> answer_of (c_unregister p) t = Some (a, t') ->
  exists s', vfs_step (c_unregister p) s = Ok (a, s') /\ Rep s' t'.
Proof.
  intros R. cbn [answer_of vfs_step]. unfold esp_vfs_unregister. destruct (Z.leb_spec LEN_PATH_PREFIX_IGNORED (lenZ p)); [discriminate|].
  rewrite (find_place s t p R) by assumption. destruct (list_find _ (places t)) as [[i v]|] eqn:E; cbn [fmap option_fmap option_map].
  - intros [= <- <-]. apply list_find_Some in E as (Hi & Hm & _). destruct v as [e|]; [|discriminate].
    eexists. split; [reflexivity|]. exact (rep_unmounted s t i e R Hi).
  - intros [= <- <-]. eauto.
Qed.

Lemma mount_answers alloc before p v ctx s t a t' : Rep s t -> answer_of (c_register alloc before p v ctx) t = Some (a, t') ->
  exists s', vfs_step (c_register alloc before p v ctx) s = Ok (a, s') /\ Rep s' t'.
Proof.
  intros R. cbn [answer_of vfs_step]. unfold esp_vfs_register. destruct (base_path_ok p) eqn:Ep; cbn [negb].
  - destruct (Z.eqb_spec (lenZ p) ESP_VFS_PATH_MAX) as [|Hl]; [done|]. destruct (bool_decide (p = []) && _) eqn:Ed; [done|].
    destruct (fs_mount alloc (Some p) v ctx t) as [[r id] t1] eqn:Em. intros [= <- <-].
    assert (Hp : mount_ok before (Some p) t).
    { split; [done|]. split.
      - unfold base_path_ok in Ep. apply orb_true_iff in Ep as [->%bool_decide_eq_true|Ep]; [done|].
        apply andb_true_iff in Ep as [[[_ Ep]%andb_true_iff _]%andb_true_iff _]. apply Z.leb_le in Ep. lia.
      - intros ->. rewrite bool_decide_eq_true_2 in Ed by done. simpl in Ed.
        apply orb_false_iff in Ed as [[E1 E2]%orb_false_iff E3]. apply bool_decide_eq_false in E2, E3. split; [done|].
        destruct before as [c|]; [|done]. exists c. split; [done|congruence]. }
    destruct (rep_mount alloc before (Some p) v ctx s t r id t1 R Hp Em) as (s' & -> & R' & _). ostep. eauto.
  - intros [= <- <-]. exists s. split; [|done]. unfold esp_vfs_register_common. destruct p as [|c p]; [done|].
    rewrite prefix_bad_ok, Ep by done. done.
Qed.

Lemma register_id_answers alloc vfs_id v ctx s t a t' : Rep s t -> answer_of (c_register_with_id alloc vfs_id v ctx) t = Some (a, t') ->
  exists s', vfs_step (c_register_with_id alloc vfs_id v ctx) s = Ok (a, s') /\ Rep s' t'.
Proof.
  intros R. cbn [answer_of vfs_step]. unfold esp_vfs_register_with_id. destruct vfs_id; cbn [negb]; [|intros [= <- <-]; eauto].
  destruct (fs_mount alloc None v ctx t) as [[r id] t1] eqn:Em. intros [= <- <-].
  destruct (rep_mount alloc None None v ctx s t r id t1 R I Em) as (s' & -> & R' & _). ostep. eauto.
Qed.

(** ** Registering descriptors *)
Lemma fd_small i : 0 <= i < MAX_FDS -> u8 i = i /\ 0 <= i < 256.
Proof. unfold MAX_FDS, u8. intros. split; [apply Z.mod_small|]; lia. Qed.
Lemma claim_claims e n : forall i lo s t, Rep s t -> mounted t e -> 0 <= i -> i + Z.of_nat n <= MAX_FDS ->
  (forall fd, i <= fd < i + Z.of_nat n -> files t !! fd = None) ->
  exists s', claim_range n i lo (offset e) s = Ok (ESP_OK, s') /\ Rep s' (claim e (seqZ i (Z.of_nat n)) t).
Proof.
  induction n as [|n IH]; intros i lo s t R M Hi Hn Hf; [exists s; split; [done|by destruct t]|].
  cbn [claim_range]. rewrite (rep_cells _ _ R i), (Hf i) by lia. cbn [cell FD_TABLE_ENTRY_UNUSED vfs_index].
  rewrite (proj2 (Z.eqb_eq _ _)) by done. cbn [negb]. destruct (fd_small i) as [Eu Hu]; [lia|]. rewrite Eu.
  destruct (IH (i + 1) lo _ _ (rep_insert s t i e i true R ltac:(lia) M Hu)) as (s' & -> & R'); [done|lia|lia| |].
  { intros fd Hfd. simpl. rewrite lookup_insert_ne by lia. apply Hf. lia. }
  exists s'. split; [done|]. rewrite seqZ_cons by lia. replace (Z.pred (Z.of_nat (S n))) with (Z.of_nat n) by lia. by rewrite <- Z.add_1_r.
Qed.

Lemma mounted_new alloc v ctx s t r id t' : Rep s t -> fs_mount alloc None v ctx t = (r, Some id, t') ->
  exists e, place t' id = Some e /\ mounted t' e /\ offset e = id.
Proof.
  intros R. unfold fs_mount. destruct alloc; [|done]. cbn [negb]. destruct (free_place t) as [i|] eqn:Ef; [|done]. intros [= <- <- <-].
  destruct (free_index_place s t R) as (_ & _ & Hs). destruct (Hs i Ef) as [Hi _]. apply lookup_lt_Some in Hi.
  eexists. unfold place, mounted. simpl. rewrite (proj2 (Z.ltb_ge _ _)), Nat2Z.id by lia. rewrite list_lookup_insert_eq by done.
  split; [reflexivity|]. simpl. rewrite Nat2Z.id, list_lookup_insert_eq by done. done.
Qed.

Lemma register_range_answers alloc v ctx lo hi s t a t' : Rep s t -> answer_of (c_register_fd_range alloc v ctx lo hi) t = Some (a, t') ->
  exists s', vfs_step (c_register_fd_range alloc v ctx lo hi) s = Ok (a, s') /\ Rep s' t'.
Proof.
  intros R. cbn [answer_of vfs_step]. unfold esp_vfs_register_fd_range.
  replace ((lo <? 0) || (hi <? 0) || (MAX_FDS <? lo) || (MAX_FDS <? hi) || (hi <? lo)) with ((lo <? 0) || (MAX_FDS <? hi) || (hi <? lo))
    by (case_cmp; simpl; try done; lia).
  destruct ((lo <? 0) || (MAX_FDS <? hi) || (hi <? lo)) eqn:Eb; [intros [= <- <-]; eauto|].
  apply orb_false_iff in Eb as [[E1%Z.ltb_ge E2%Z.ltb_ge]%orb_false_iff E3%Z.ltb_ge].
  destruct (forallb _ _) eqn:Ef; cbn [negb]; [|done]. destruct (fs_mount alloc None v ctx t) as [[r id] t1] eqn:Em. intros [= <- <-].
  destruct (rep_mount alloc None None v ctx s t r id t1 R I Em) as (s1 & -> & R1 & Hfiles & Hr). ostep.
  destruct id as [id|]; [|simpl; eauto]. destruct (mounted_new alloc v ctx s t r id t1 R Em) as (e & He & M & <-).
  rewrite (proj2 Hr) by done. rewrite Z.eqb_refl. simpl mbind. rewrite He.
  destruct (claim_claims e (Z.to_nat (hi - lo)) lo lo s1 t1 R1 M E1) as (s2 & -> & R2); [lia| |].
  - intros fd Hfd. rewrite Hfiles. rewrite forallb_forall in Ef. eapply bool_decide_eq_true_1, Ef, list_elem_of_In, elem_of_seqZ. lia.
  - ostep. rewrite Z2Nat.id in R2 by lia. eauto.
Qed.

Lemma register_fd_answers fd id s t a t' : Rep s t -> answer_of (c_register_fd fd id) t = Some (a, t') ->
  exists s', vfs_step (c_register_fd fd id) s = Ok (a, s') /\ Rep s' t'.
Proof.
  intros R. cbn [answer_of vfs_step]. unfold esp_vfs_register_fd. pose proof (rep_count _ _ R) as Hc.
  destruct (negb fd || (id <? 0) || (VFS_MAX_COUNT <=? id)) eqn:Eb.
  - intros [= <- <-]. exists s. split; [|done].
    replace ((id <? 0) || (s_vfs_count s <=? id) || negb fd) with true; [done|]. symmetry. revert Eb. destruct fd; simpl; case_cmp; simpl; done || lia.
  - destruct (place t id) as [e|] eqn:Ep; [|done]. simpl mbind. apply orb_false_iff in Eb as [[E0 E1%Z.ltb_ge]%orb_false_iff E2%Z.leb_gt].
    rewrite <- (rep_index s t id R) in Ep. unfold get_vfs_for_index in Ep. destruct ((id <? 0) || (s_vfs_count s <=? id)) eqn:Ei; [done|].
    rewrite E0. cbn [orb]. assert (M : mounted t e /\ offset e = id).
    { unfold s_vfs_at in Ep. rewrite (proj2 (Z.ltb_ge _ _)), (rep_places _ _ R) in Ep by lia.
      destruct (places t !! Z.to_nat id) as [[e'|]|] eqn:E; [|done..]. injection Ep as ->. destruct (rep_entries _ _ R _ _ E) as [Ho _].
      unfold mounted. rewrite Ho, Nat2Z.id. split; [done|lia]. }
    destruct M as [M <-]. rewrite (unused_free s t R). destruct (free_fd t) as [i|] eqn:Ef; [|intros [= <- <-]; eauto].
    intros [= <- <-]. eexists. split; [done|]. destruct (free_fd_range _ _ Ef) as [Hi _].
    destruct (fd_small i Hi) as [-> Hu]. by apply rep_insert.
Qed.

Lemma unregister_fd_answers id fd s t a t' : Rep s t -> answer_of (c_unregister_fd id fd) t = Some (a, t') ->
  exists s', vfs_step (c_unregister_fd id fd) s = Ok (a, s') /\ Rep s' t'.
Proof.
  intros R. cbn [answer_of vfs_step]. unfold esp_vfs_unregister_fd. pose proof (rep_count _ _ R) as Hc.
  destruct ((id <? 0) || (s_vfs_count s <=? id) || (fd <? 0) || (MAX_FDS <=? fd)) eqn:Eb.
  - assert (N : forall f, files t !! fd = Some f -> kept f && (offset (owner f) =? id) && (in_driver f =? fd) = false).
    { intros f Hf. destruct (rep_files _ _ R _ _ Hf) as (Hfd & M & _). rewrite (proj2 (Z.ltb_ge fd 0)), (proj2 (Z.leb_gt MAX_FDS fd)) in Eb by lia.
      destruct (Z.eqb_spec (offset (owner f)) id) as [<-|]; [|by rewrite andb_false_r]. exfalso.
      assert (P : place t (offset (owner f)) = Some (owner f)) by (apply mounted_place; [pose proof (mounted_offset s t _ R M); lia|done]).
      rewrite <- (rep_index s t _ R) in P. unfold get_vfs_for_index in P. rewrite !orb_false_r in Eb. by rewrite Eb in P. }
    destruct (files t !! fd) as [f|]; [rewrite (N f) by done|]; intros [= <- <-]; eauto.
  - apply orb_false_iff in Eb as [[_ E1%Z.ltb_ge]%orb_false_iff E2%Z.leb_gt]. rewrite (rep_cells _ _ R) by lia.
    destruct (files t !! fd) as [f|] eqn:Ef; cbn [cell permanent vfs_index local_fd FD_TABLE_ENTRY_UNUSED]; [|intros [= <- <-]; eauto].
    destruct (kept f && _ && _); intros [= <- <-]; [|eauto]. eexists. split; [done|]. apply rep_delete; [done|lia].
Qed.

(** ** Files *)
Lemma open_answers path flags mode s t a t' : Rep s t -> answer_of (c_open path flags mode) t = Some (a, t') ->
  exists s', vfs_step (c_open path flags mode) s = Ok (a, s') /\ Rep s' t'.
Proof.
  intros R. cbn [answer_of vfs_step]. unfold esp_vfs_open. rewrite (rep_path s t path R).
  destruct (resolve path (places t)) as [e|] eqn:Er; [|intros [= <- <-]; ostep; eexists; split; [done|by apply rep_errno]].
  destruct (resolve_mounted s t path e R Er) as [M ->]. ostep.
  destruct (rep_call s t e f_open [str (inner_path (drop (length (path_prefix e)) path)); num flags; num mode] R) as (r & s1 & t1 & -> & -> & R1 & F1 & P1).
  destruct r as [n|]; [|intros [= <- <-]; ostep; eauto]. rewrite Z.ltb_antisym.
  destruct (Z.leb_spec 0 n); cbn [negb]; [|intros [= <- <-]; ostep; eexists; split; [done|by apply rep_errno]].
  destruct (Z.leb_spec 256 n) as [|Hn]; [done|]. rewrite (unused_free s1 t1 R1).
  destruct (free_fd t1) as [fd|] eqn:Ef.
  - intros [= <- <-]. ostep. eexists. split; [done|]. destruct (free_fd_range _ _ Ef) as [Hfd _].
    replace (u8 n) with n by (unfold u8; symmetry; apply Z.mod_small; lia). apply rep_insert; [done|done|unfold mounted; by rewrite P1|lia].
  - destruct (rep_call s1 t1 e f_close [num n] R1) as (r2 & s2 & t2 & -> & -> & R2 & _). intros [= <- <-].
    destruct r2; ostep; eexists; (split; [done|]); [by apply rep_errno|done].
Qed.

Lemma close_answers fd s t a t' : Rep s t -> answer_of (c_close fd) t = Some (a, t') -> exists s', vfs_step (c_close fd) s = Ok (a, s') /\ Rep s' t'.
Proof.
  intros R. cbn [answer_of vfs_step]. unfold esp_vfs_close. rewrite (rep_fd s t fd R).
  destruct (files t !! fd) as [f|] eqn:Ef; cbn [fmap option_fmap option_map]; [|intros [= <- <-]; eexists; split; [done|by apply rep_errno]].
  destruct (rep_files _ _ R _ _ Ef) as (Hfd & M & Hl). rewrite (rep_local s t fd f _ R Ef), (proj2 (Z.ltb_ge _ _)) by lia.
  destruct (rep_call s t (owner f) f_close [num (in_driver f)] R) as (r & s1 & t1 & -> & -> & R1 & F1 & _). intros [= <- <-].
  destruct r as [r|]; [|eauto]. rewrite (rep_cells _ _ R1 fd Hfd), F1, Ef. cbn [cell permanent]. eexists. split; [done|].
  destruct (kept f); [done|]. rewrite <- F1. by apply rep_delete.
Qed.

Lemma call_fd_answers f fd args s t : Rep s t ->
  exists s', call_fd f fd args s = (match files t !! fd with None => -1 | Some x => default (-1) (fs_call (owner x) f (num (in_driver x) :: args) t).1 end, s') /\
    Rep s' (match files t !! fd with None => fs_errno EBADF t | Some x => (fs_call (owner x) f (num (in_driver x) :: args) t).2 end).
Proof.
  intros R. unfold call_fd. rewrite (rep_fd s t fd R).
  destruct (files t !! fd) as [x|] eqn:Ef; cbn [fmap option_fmap option_map]; [|eexists; split; [done|by apply rep_errno]].
  destruct (rep_files _ _ R _ _ Ef) as (Hfd & M & Hl). rewrite (rep_local s t fd x _ R Ef), (proj2 (Z.ltb_ge _ _)) by lia.
  destruct (rep_call s t (owner x) f (num (in_driver x) :: args) R) as (r & s1 & t1 & -> & -> & R1 & _). eauto.
Qed.
Lemma do_fd_call op fd s : do_fd op fd s = call_fd (fd_function op).1 fd (fd_function op).2 s.
Proof. by destruct op. Qed.
Lemma fd_answers op fd s t a t' : Rep s t -> answer_of (c_fd op fd) t = Some (a, t') -> exists s', vfs_step (c_fd op fd) s = Ok (a, s') /\ Rep s' t'.
Proof.
  intros R. cbn [answer_of vfs_step]. rewrite do_fd_call.
  destruct (call_fd_answers (fd_function op).1 fd (fd_function op).2 s t R) as (s' & -> & R').
  destruct (files t !! fd) as [x|]; [|intros [= <- <-]; eauto].
  destruct (fs_call _ _ _ t) as [r t1]. intros [= <- <-]. eauto.
Qed.

Lemma do_path_call op path s : do_path op path s = call_path (path_function op).1 path (path_function op).2 s.
Proof. by destruct op. Qed.
Lemma path_answers op path s t a t' : Rep s t -> answer_of (c_path op path) t = Some (a, t') -> exists s', vfs_step (c_path op path) s = Ok (a, s') /\ Rep s' t'.
Proof.
  intros R. cbn [answer_of vfs_step]. rewrite do_path_call. unfold call_path. rewrite (rep_path s t path R).
  destruct (resolve path (places t)) as [e|] eqn:Er; [|intros [= <- <-]; ostep; eexists; split; [done|by apply rep_errno]].
  destruct (resolve_mounted s t path e R Er) as [M ->]. ostep.
  destruct (rep_call s t e (path_function op).1 (str (inner_path (drop (length (path_prefix e)) path)) :: (path_function op).2) R)
    as (r & s1 & t1 & -> & -> & R1 & _). intros [= <- <-]. ostep. eauto.
Qed.

Lemma do_paths_call op n1 n2 s : do_paths op n1 n2 s = call_paths (paths_function op) n1 n2 s.
Proof. by destruct op. Qed.
Lemma paths_answers op n1 n2 s t a t' : Rep s t -> answer_of (c_paths op n1 n2) t = Some (a, t') -> exists s', vfs_step (c_paths op n1 n2) s = Ok (a, s') /\ Rep s' t'.
Proof.
  intros R. cbn [answer_of vfs_step]. rewrite do_paths_call. unfold call_paths. rewrite !(rep_path s t _ R).
  destruct (resolve n1 (places t)) as [e1|] eqn:E1; [|intros [= <- <-]; ostep; eexists; split; [done|by apply rep_errno]].
  destruct (resolve n2 (places t)) as [e2|] eqn:E2; [|intros [= <- <-]; ostep; eexists; split; [done|by apply rep_errno]].
  destruct (Z.eqb_spec (offset e1) (offset e2)) as [Eo|]; cbn [negb]; [|intros [= <- <-]; ostep; eexists; split; [done|by apply rep_errno]].
  destruct (resolve_mounted s t n1 e1 R E1) as [M1 ->]. destruct (resolve_mounted s t n2 e2 R E2) as [M2 T2].
  assert (e1 = e2) as <- by (unfold mounted in *; rewrite Eo in M1; congruence). rewrite T2. ostep. ostep.
  match goal with |- context [call_entry e1 ?f ?l s] => destruct (rep_call s t e1 f l R) as (r & s1 & t1 & -> & -> & R1 & _) end.
  intros [= <- <-]. ostep. eauto.
Qed.

(** ** Directories *)
Lemma opendir_answers path s t a t' : Rep s t -> answer_of (c_opendir path) t = Some (a, t') -> exists s', vfs_step (c_opendir path) s = Ok (a, s') /\ Rep s' t'.
Proof.
  intros R. cbn [answer_of vfs_step]. unfold opendir. rewrite (rep_path s t path R).
  destruct (resolve path (places t)) as [e|] eqn:Er; [|intros [= <- <-]; ostep; eexists; split; [done|by apply rep_errno]].
  destruct (resolve_mounted s t path e R Er) as [M ->]. ostep.
  destruct (rep_call s t e f_opendir [str (inner_path (drop (length (path_prefix e)) path))] R) as (r & s1 & t1 & -> & -> & R1 & _ & P1).
  intros [= <- <-]. destruct r as [r|]; ostep; [|eauto]. cbn [default from_option id]. eexists. split; [done|].
  destruct (Z.eqb_spec r 0); cbn [negb]; [done|]. destruct R1 as [Rp R8 Rc Rb Re Rd R64 Rce Rf Rs Rw]. constructor; simpl; try done.
  intros p e'. rewrite lookup_insert_Some. intros [[<- <-]|[Hn H]].
  - rewrite lookup_insert_eq. split; [done|]. unfold mounted. simpl. by rewrite P1.
  - rewrite lookup_insert_ne by done. by apply Rs.
Qed.

Lemma do_dir_call op pdir s : do_dir op pdir s = call_dir (dir_function op).1 pdir (dir_function op).2 (dir_failed op) s.
Proof. by destruct op. Qed.
Lemma dir_answers op pdir s t a t' : Rep s t -> answer_of (c_dir op pdir) t = Some (a, t') -> exists s', vfs_step (c_dir op pdir) s = Ok (a, s') /\ Rep s' t'.
Proof.
  intros R. cbn [answer_of vfs_step]. rewrite do_dir_call. unfold call_dir. destruct (streams t !! pdir) as [e|] eqn:Es; [|done].
  destruct (rep_streams _ _ R _ _ Es) as [-> M]. rewrite (rep_index s t _ R), mounted_place by (done || pose proof (mounted_offset s t e R M); lia).
  simpl mbind. destruct (rep_call s t e (dir_function op).1 (num pdir :: (dir_function op).2) R) as (r & s1 & t1 & -> & -> & R1 & _).
  intros [= <- <-]. ostep. eauto.
Qed.

(** ** Any sequence *)
Lemma step_keeps c s t a t' : Rep s t -> answer_of c t = Some (a, t') -> exists s', vfs_step c s = Ok (a, s') /\ Rep s' t'.
Proof.
  destruct c; eauto using mount_answers, register_id_answers, register_range_answers, unregister_answers, register_fd_answers,
    unregister_fd_answers, open_answers, close_answers, fd_answers, path_answers, paths_answers, opendir_answers, dir_answers.
Qed.

Lemma steps_keep cs : forall s t l t', Rep s t -> answers_of cs t = Some (l, t') -> exists s', vfs_steps cs s = Ok (l, s') /\ Rep s' t'.
Proof.
  induction cs as [|c cs IH]; intros s t l t' R; simpl; [intros [= <- <-]; eauto|].
  destruct (answer_of c t) as [[a t1]|] eqn:E; [|done]. simpl. destruct (answers_of cs t1) as [[l1 t2]|] eqn:E2; [|done]. intros [= <- <-].
  destruct (step_keeps c s t a t1 R E) as (s1 & -> & R1). ostep. destruct (IH s1 t1 l1 t2 R1 E2) as (s2 & -> & R2). ostep. eauto.
Qed.

(** C27.  Every sequence of calls from the start of the system, with any drivers, that
    the abstract file system answers returns with its answers, and leaves the drivers in the
    same state.  It has no answer, so that histories with such a call are not covered, for:
    a range of descriptors some of which are in use; a base path of 15 characters; an
    empty base path when there is a default driver already or when the byte in front of
    the string is unknown or a separator; unregistering a path as long as the mark for no
    path; a descriptor asked for by a driver number that is not in use; a descriptor
    from 256 on given by a driver; a stream that is not open.  In the histories
    covered a call with a descriptor reaches the driver that opened it, with
    the descriptor this driver gave, until the descriptor is closed or the driver
    unregistered, whatever is registered, unregistered and registered again in its
    place in between; a call with a path reaches the driver of the longest prefix
    with the rest of the path; new descriptors are the smallest unused ones; and
    every error has its [errno]. *)
Theorem vfs_history_refines cs d l t : answers_of cs (fs_start d) = Some (l, t) ->
  exists s, vfs_steps cs (vfs_start d) = Ok (l, s) /\ env s = outside t.
Proof. intros H. destruct (steps_keep cs _ _ l t (start_rep d) H) as (s & E & R). exists s. split; [done|]. apply R. Qed.
End calls.
