(* ===== verification/VfsExamples.v ===== *)
(** * Virtual file system: concrete drivers

    The theorems on a driver that numbers the files it opens, and the calls whose
    effects the abstract file system leaves out. *)
From S2P Require Import Prelude Mem EspFlash SplitArgv Vfs VfsPath VfsClient VfsHistory VfsCalls.

(** Function 1 returns the next number, function 2 the sum of the numbers it gets,
    function 3 the length of the path. *)
Definition sum_args (args : list arg) : Z := foldr (fun a n => match a with num k => k + n | str p => n end) 0 args.
Definition path_length (args : list arg) : Z := foldr (fun a n => match a with num k => n | str p => lenZ p + n end) 0 args.
#[export] Instance counting : VfsEnv := {|
  drivers := Z;
  invoke_driver := fun f args d => if f =? 1 then (d, None, d + 1) else if f =? 2 then (sum_args args, None, d) else (path_length args, None, d)
|}.
Definition counter : esp_vfs_t :=
  mkVfs 0 (fun f => match f with f_open => 1 | f_read | f_close => 2 | f_stat => 3 | _ => 0 end).
(** The same with a context pointer. *)
Definition counter_p : esp_vfs_t := mkVfs ESP_VFS_FLAG_CONTEXT_PTR (member counter).

Definition session : list vfs_call :=
  [c_register true None (chars "/data") counter 0; c_register true None (chars "/data/sd") counter_p 1000; c_register true None (chars "data") counter 0;
   c_register true (Some 0) [] counter 0;
   c_path (o_stat 0) (chars "/data/sd/file"); c_path (o_stat 0) (chars "/data/sdx"); c_path (o_stat 0) (chars "/data");
   c_path (o_stat 0) (chars "/other"); c_paths o_rename (chars "/data/a") (chars "/data/sd/a");
   c_open (chars "/data/x") 0 0; c_open (chars "/data/sd/y") 0 0; c_fd (o_read 100 10) 0; c_fd (o_read 100 10) 1; c_fd (o_write 1 1) 1;
   c_unregister (chars "/data"); c_register true None (chars "/new") counter 0; c_fd (o_read 100 10) 0; c_fd (o_read 100 10) 1;
   c_open (chars "/new/z") 0 0; c_close 1; c_close 1].

Lemma vfs_history_refines_witness : exists s, vfs_steps session (vfs_start (1 : @drivers counting)) = Ok
  ([(ESP_OK, None); (ESP_OK, None); (ESP_ERR_INVALID_ARG, None); (ESP_OK, None);
    (5, None); (4, None); (1, None); (6, None); (-1, None);
    (0, None); (1, None); (111, None); (1112, None); (-1, None);
    (ESP_OK, None); (ESP_OK, None); (-1, None); (1112, None);
    (0, None); (1002, None); (-1, None)], s) /\ env s = mkWorld EBADF (4 : @drivers counting).
Proof.
  refine (vfs_history_refines session 1 _ (default (fs_start 0) (snd <$> answers_of session (fs_start 1))) _).
  vm_compute. reflexivity.
Defined.

Definition after (cs : list vfs_call) : vfs_state := match vfs_steps cs (vfs_start 1) with Ok (_, s) => s | _ => vfs_start 1 end.
Definition two_mounts : vfs_state := after [c_register true None (chars "/data") counter 0; c_register true None (chars "/data/sd") counter_p 1000].

Lemma vfs_path_exact_witness :
  get_vfs_for_path (chars "/data/sd/f") two_mounts = resolve (chars "/data/sd/f") (mounts two_mounts) /\
  forall e, resolve (chars "/data/sd/f") (mounts two_mounts) = Some e ->
    exists rest, chars "/data/sd/f" = path_prefix e ++ rest /\ translate_path e (chars "/data/sd/f") = Ok (inner_path rest) /\
      (path_prefix e = [] \/ rest = [] \/ head rest = Some SLASH).
Proof.
  apply (vfs_path_exact (chars "/data/sd/f") two_mounts).
  - intros [|[|i]] e Hi; vm_compute in Hi; simplify_eq; by left.
  - intros i j u v Hi Hj Hu Hv. exfalso. destruct i as [|[|i]]; vm_compute in Hi; simplify_eq; by vm_compute in Hu.
Defined.

(** ** Where the code goes wrong *)

(** A range that meets a descriptor in use removes the driver whose place has the
    number of that descriptor, and leaves the new driver registered. *)
Lemma range_overlap_frees_another :
  let s := after [c_register true None (chars "/data") counter 0; c_open (chars "/data/x") 0 0] in
  s_vfs_at s 0 <> None /\
  match esp_vfs_register_fd_range true counter 0 0 3 s with
  | Ok (r, s') => r = ESP_ERR_INVALID_ARG /\ s_vfs_at s' 0 = None /\ s_vfs_at s' 1 <> None
  | _ => False
  end.
Proof. vm_compute. by split_and!. Qed.
(** From descriptor 8 on there is no such place. *)
Lemma range_overlap_outside :
  esp_vfs_register_fd_range true counter 0 8 10 (after [c_register_fd_range true counter 0 8 10]) = Fault.
Proof. by vm_compute. Qed.

(** The byte in front of an empty base path is read. *)
Lemma default_driver_refused : esp_vfs_register true (Some SLASH) [] counter 0 (vfs_start 1) = Ok (ESP_ERR_INVALID_ARG, vfs_start 1).
Proof. by vm_compute. Qed.
(** The zero of a base path of the documented length does not fit. *)
Lemma longest_base_path : esp_vfs_register true None (chars "/abcdefghijklmn") counter 0 (vfs_start 1) = Fault.
Proof. by vm_compute. Qed.

(** A driver's descriptor from 256 on is cut to 8 bits. *)
Lemma descriptor_cut :
  match vfs_steps [c_register true None (chars "/data") counter 0; c_open (chars "/data/x") 0 0; c_fd (o_read 0 0) 0] (vfs_start 256) with
  | Ok (l, _) => l = [(ESP_OK, None); (0, None); (0, None)]
  | _ => False
  end.
Proof. by vm_compute. Qed.
