(* ===== verification/VfsSelect.v ===== *)
(** * Virtual file system: select and poll ([components/vfs/vfs.c])

    The descriptors that are waited for are split by driver and translated to the
    descriptors of the drivers; the sockets stay in the sets of the caller.  After
    the wait, the sets that the drivers have left are translated back.

    The drivers' functions and what happens to their sets during the wait are
    arguments ([SelectEnv]).  A set of descriptors is a [gset], [None] is a null
    pointer; the tables do not change while a call waits. *)
From S2P Require Import Prelude Mem EspFlash Vfs.

Definition FD_SET (n : Z) (p : gset Z) : gset Z := if (0 <=? n) && (n <? MAX_FDS) then {[n]} ∪ p else p.
Definition FD_CLR (n : Z) (p : gset Z) : gset Z := if (0 <=? n) && (n <? MAX_FDS) then p ∖ {[n]} else p.
Definition FD_ISSET (n : Z) (p : gset Z) : bool := (0 <=? n) && (n <? MAX_FDS) && bool_decide (n ∈ p).

Record fds_triple_t := mkTriple { isset : bool; readfds : gset Z; writefds : gset Z; errorfds : gset Z }.
#[export] Instance rebuild_triple : Rebuild fds_triple_t := fun t => mkTriple (isset t) (readfds t) (writefds t) (errorfds t).
Definition no_fds : fds_triple_t := mkTriple false ∅ ∅ ∅.

(** The three sets of the caller. *)
Record fd_sets := mkSets { reads : option (gset Z); writes : option (gset Z); errors : option (gset Z) }.
#[export] Instance rebuild_sets : Rebuild fd_sets := fun a => mkSets (reads a) (writes a) (errors a).

Record esp_vfs_select_sem_t := mkSem { is_sem_local : bool; sem : Z }.

(** [begin_wait], [stop_wait], [socket_wait] and [socket_sem] are what a driver's
    [start_select], [end_select], [socket_select] and [get_socket_select_semaphore]
    do; [semaphore_wait] is what happens until the semaphore is taken. *)
Class SelectEnv `{venv : VfsEnv} := {
  begin_wait : Z -> Z -> fds_triple_t -> esp_vfs_select_sem_t -> drivers -> Z * fds_triple_t * Z * drivers;
  stop_wait : Z -> Z -> drivers -> Z * drivers;
  socket_wait : Z -> Z -> fd_sets -> option (Z * Z) -> list fds_triple_t -> drivers -> Z * fd_sets * list fds_triple_t * drivers;
  semaphore_wait : Z -> Z -> list fds_triple_t -> drivers -> list fds_triple_t * drivers;
  socket_sem : Z -> drivers -> Z * drivers;
  portTICK_PERIOD_MS : Z
}.

Section select.
Context `{senv : SelectEnv}.
Implicit Types (s : vfs_state) (a : fd_sets) (l : list fds_triple_t).

Definition triple_at l (i : Z) : fds_triple_t := default no_fds (l !! Z.to_nat i).
Definition set_driver_state (d : drivers) s : vfs_state := s <| env := (env s) <| driver_state := d |> |>.

(** ** Splitting *)
Definition esp_vfs_safe_fd_isset (fd : Z) (fds : option (gset Z)) : bool :=
  match fds with Some p => FD_ISSET fd p | None => false end.

(** The descriptor goes from the caller's set to the driver's. *)
Definition move_fd (fd local_fd : Z) a (item : fds_triple_t) : fd_sets * fds_triple_t :=
  let '(a, item) :=
    if esp_vfs_safe_fd_isset fd (reads a)
    then (a <| reads := FD_CLR fd <$> reads a |>, item <| isset := true |> <| readfds := FD_SET local_fd (readfds item) |>) else (a, item) in
  let '(a, item) :=
    if esp_vfs_safe_fd_isset fd (writes a)
    then (a <| writes := FD_CLR fd <$> writes a |>, item <| isset := true |> <| writefds := FD_SET local_fd (writefds item) |>) else (a, item) in
  if esp_vfs_safe_fd_isset fd (errors a)
  then (a <| errors := FD_CLR fd <$> errors a |>, item <| isset := true |> <| errorfds := FD_SET local_fd (errorfds item) |>) else (a, item).

(** The drivers' sets, the caller's sets, the socket function, 0 if there is none
    yet, its semaphore and the state. *)
Definition split_fd (o : outcome (list fds_triple_t * fd_sets * Z * Z * vfs_state)) (fd : Z) : outcome (list fds_triple_t * fd_sets * Z * Z * vfs_state) :=
  '(l, a, socket_select, sock_sem, s) ← o;
  let item := fd_at s fd in
  if vfs_index item <? 0 then Ok (l, a, socket_select, sock_sem, s)
  else if permanent item then
    if (socket_select =? 0) && (esp_vfs_safe_fd_isset fd (reads a) || esp_vfs_safe_fd_isset fd (writes a) || esp_vfs_safe_fd_isset fd (errors a)) then
      match s_vfs_at s (vfs_index item) with
      | None => Fault
      | Some e =>
          let get := member (vfs e) f_get_socket_select_semaphore in
          if get =? 0 then Fault
          else
            let '(sock_sem, d) := socket_sem get (driver_state (env s)) in
            Ok (l, a, member (vfs e) f_socket_select, sock_sem, set_driver_state d s)
      end
    else Ok (l, a, socket_select, sock_sem, s)
  else if lenZ l <=? vfs_index item then Fault
  else
    let '(a, triple) := move_fd fd (local_fd item) a (triple_at l (vfs_index item)) in
    Ok (<[Z.to_nat (vfs_index item) := triple]> l, a, socket_select, sock_sem, s).
Definition split_fds (nfds : Z) (l : list fds_triple_t) a s : outcome (list fds_triple_t * fd_sets * Z * Z * vfs_state) :=
  foldl split_fd (Ok (l, a, 0, 0, s)) (seqZ 0 nfds).

(** ** Translating back *)
Definition add_ready (fd local_fd : Z) (set : gset Z) (p : option (gset Z)) (ret : Z) : option (gset Z) * Z :=
  match p with
  | Some q => if FD_ISSET local_fd set then (Some (FD_SET fd q), ret + 1) else (p, ret)
  | None => (None, ret)
  end.
Definition ready_fd (item : fds_triple_t) s (r : Z * fd_sets) (fd : Z) : Z * fd_sets :=
  let '(ret, a) := r in
  let local := local_fd (fd_at s fd) in
  let '(rd, ret) := add_ready fd local (readfds item) (reads a) ret in
  let '(wr, ret) := add_ready fd local (writefds item) (writes a) ret in
  let '(er, ret) := add_ready fd local (errorfds item) (errors a) ret in
  (ret, mkSets rd wr er).
Definition set_global_fd_sets (l : list fds_triple_t) a s : Z * fd_sets :=
  foldl (fun r item => if isset item then foldl (ready_fd item s) r (seqZ 0 MAX_FDS) else r) (0, a) l.

(** ** Waiting *)
Definition call_end_selects (end_index : Z) (l : list fds_triple_t) (driver_args : list Z) s : vfs_state :=
  foldl (fun s i =>
    match get_vfs_for_index s i with
    | Some e =>
        let f := member (vfs e) f_end_select in
        if negb (f =? 0) && isset (triple_at l i)
        then set_driver_state (stop_wait f (default 0 (driver_args !! Z.to_nat i)) (driver_state (env s))).2 s else s
    | None => s
    end) s (seqZ 0 end_index).

(** The drivers from [i] on are started; the driver that failed, if one did. *)
Fixpoint start_selects (n : nat) (i nfds : Z) (sel_sem : esp_vfs_select_sem_t) (l : list fds_triple_t) (driver_args : list Z) s : option Z * list fds_triple_t * list Z * vfs_state :=
  match n with
  | O => (None, l, driver_args, s)
  | S n =>
      match get_vfs_for_index s i with
      | Some e =>
          let f := member (vfs e) f_start_select in
          if negb (f =? 0) && isset (triple_at l i) then
            let '(err, item, argument, d) := begin_wait f nfds (triple_at l i) sel_sem (driver_state (env s)) in
            let s := set_driver_state d s in
            let l := <[Z.to_nat i := item <| isset := isset (triple_at l i) |>]> l in
            let driver_args := <[Z.to_nat i := argument]> driver_args in
            if negb (err =? ESP_OK) then (Some i, l, driver_args, s) else start_selects n (i + 1) nfds sel_sem l driver_args s
          else start_selects n (i + 1) nfds sel_sem l driver_args s
      | None => start_selects n (i + 1) nfds sel_sem l driver_args s
      end
  end.

(** The drivers have pointers to the sets only. *)
Definition with_sets l l' : list fds_triple_t := zip_with (fun item item' => item' <| isset := isset item |>) l l'.

Definition portMAX_DELAY := 2 ^ 32 - 1.
Definition ticks_to_wait (timeout : option (Z * Z)) : Z :=
  match timeout with
  | None => portMAX_DELAY
  | Some (tv_sec, tv_usec) =>
      let timeout_ms := u32 (tv_sec * 1000 + Z.quot tv_usec 1000) in
      u32 (u32 (timeout_ms + portTICK_PERIOD_MS - 1) / portTICK_PERIOD_MS + 1)
  end.

(** Whether the heap has the block for the sets, the semaphore (0 if not) and the
    block for the arguments; blocks and semaphores that were not freed. *)
Record resources := mkResources { triple_block : bool; new_sem : Z; args_block : bool }.
Record leaked := mkLeaked { blocks : Z; semaphores : Z }.

Definition esp_vfs_select (res : resources) (nfds : Z) a (timeout : option (Z * Z)) s : outcome (Z * fd_sets * leaked * vfs_state) :=
  if (MAX_FDS <? nfds) || (nfds <? 0) then Ok (-1, a, mkLeaked 0 0, set_errno EINVAL s)
  else
    let vfs_count := s_vfs_count s in
    if negb (triple_block res) then Ok (-1, a, mkLeaked 0 0, set_errno ENOMEM s)
    else
      '(l, a, socket_select, sock_sem, s) ← split_fds nfds (repeat no_fds (Z.to_nat vfs_count)) a s;
      let is_local := socket_select =? 0 in
      if is_local && (new_sem res =? 0) then Ok (-1, a, mkLeaked 0 0, set_errno ENOMEM s)
      else
        let sel_sem := mkSem is_local (if is_local then new_sem res else sock_sem) in
        if negb (args_block res) then Ok (-1, a, mkLeaked 0 (if is_local then 1 else 0), set_errno ENOMEM s)
        else
          let '(failed, l, driver_args, s) := start_selects (Z.to_nat vfs_count) 0 nfds sel_sem l (repeat 0 (Z.to_nat vfs_count)) s in
          match failed with
          | Some i =>
              let s := call_end_selects i l driver_args s in
              let '(_, a) := set_global_fd_sets l a s in
              Ok (-1, a, mkLeaked 0 0, set_errno EINTR s)
          | None =>
              let l_before := l in
              let '(ret, a, l, d) :=
                if negb (socket_select =? 0) then socket_wait socket_select nfds a timeout l (driver_state (env s))
                else
                  let a := mkSets ((fun _ => ∅) <$> reads a) ((fun _ => ∅) <$> writes a) ((fun _ => ∅) <$> errors a) in
                  let '(l, d) := semaphore_wait (sem sel_sem) (ticks_to_wait timeout) l (driver_state (env s)) in (0, a, l, d) in
              let s := set_driver_state d s in
              let l := with_sets l_before l in
              let s := call_end_selects vfs_count l driver_args s in
              let '(ret, a) := if 0 <=? ret then let '(n, a) := set_global_fd_sets l a s in (ret + n, a) else (ret, a) in
              Ok (ret, a, mkLeaked 0 0, s)
          end.

(** ** Waking up *)

(** The semaphore that is given, or the function that stops the sockets' wait. *)
Inductive wakeup := give (s : Z) | stop_sockets (f s : Z) | nothing.
Definition select_wakeup (f : vfs_func) (sm : esp_vfs_select_sem_t) s : wakeup :=
  if is_sem_local sm then give (sem sm)
  else
    match find (fun v => match v with Some e => negb (member (vfs e) f =? 0) | None => false end) (take (Z.to_nat (s_vfs_count s)) (s_vfs s)) with
    | Some (Some e) => stop_sockets (member (vfs e) f) (sem sm)
    | _ => nothing
    end.
Definition esp_vfs_select_triggered := select_wakeup f_stop_socket_select.
Definition esp_vfs_select_triggered_isr := select_wakeup f_stop_socket_select_isr.

(** ** Poll *)
Definition POLLIN := 2 ^ 0.
Definition POLLRDNORM := 2 ^ 1.
Definition POLLRDBAND := 2 ^ 2.
Definition POLLPRI := POLLRDBAND.
Definition POLLOUT := 2 ^ 3.
Definition POLLWRNORM := POLLOUT.
Definition POLLWRBAND := 2 ^ 4.
Definition POLLERR := 2 ^ 5.
Definition POLLNVAL := 2 ^ 7.

Record pollfd := mkPollfd { fd : Z; events : Z; revents : Z }.
#[export] Instance rebuild_pollfd : Rebuild pollfd := fun p => mkPollfd (fd p) (events p) (revents p).

(** One entry: the entry, the three sets, [max_fd] and the count. *)
Definition poll_entry (r : list pollfd * (gset Z * gset Z * gset Z) * Z * Z) (p : pollfd) : list pollfd * (gset Z * gset Z * gset Z) * Z * Z :=
  let '(done, (rd, wr, er), max_fd, ret) := r in
  let p := p <| revents := 0 |> in
  if fd p <? 0 then (done ++ [p], (rd, wr, er), max_fd, ret)
  else if MAX_FDS <=? fd p then (done ++ [p <| revents := Z.lor (revents p) POLLNVAL |>], (rd, wr, er), max_fd, ret + 1)
  else
    let '(rd, er, max_fd) :=
      if flag (events p) (Z.lor (Z.lor (Z.lor POLLIN POLLRDNORM) POLLRDBAND) POLLPRI)
      then (FD_SET (fd p) rd, FD_SET (fd p) er, Z.max max_fd (fd p)) else (rd, er, max_fd) in
    let '(wr, er, max_fd) :=
      if flag (events p) (Z.lor (Z.lor POLLOUT POLLWRNORM) POLLWRBAND)
      then (FD_SET (fd p) wr, FD_SET (fd p) er, Z.max max_fd (fd p)) else (wr, er, max_fd) in
    (done ++ [p], (rd, wr, er), max_fd, ret).

Definition poll_result (a : fd_sets) (p : pollfd) : pollfd :=
  let mark (set : option (gset Z)) (bit : Z) (p : pollfd) := if esp_vfs_safe_fd_isset (fd p) set then p <| revents := Z.lor (revents p) bit |> else p in
  mark (errors a) POLLERR (mark (writes a) POLLOUT (mark (reads a) POLLIN p)).

(** [fds] is [None] for a null pointer. *)
Definition esp_vfs_poll (res : resources) (fds : option (list pollfd)) (timeout : Z) s : outcome (Z * list pollfd * vfs_state) :=
  match fds with
  | None => Ok (-1, [], set_errno ENOENT s)
  | Some fds =>
      let '(fds, (rd, wr, er), max_fd, ret) := foldl poll_entry ([], (∅, ∅, ∅), -1, 0) fds in
      let tv := if timeout <? 0 then None else Some (Z.quot timeout 1000, Z.rem timeout 1000 * 1000) in
      '(select_ret, a, _, s) ← esp_vfs_select res (max_fd + 1) (mkSets (Some rd) (Some wr) (Some er)) tv s;
      if 0 <? select_ret then Ok (ret + select_ret, map (poll_result a) fds, s)
      else Ok (select_ret, fds, s)
  end.
End select.
