(* ===== verification/VfsWait.v ===== *)
(** * Virtual file system: what select asks the drivers and answers

    The splitting of the caller's sets, and the translation of the drivers' answers,
    for the tables of any file system. *)
From S2P Require Import Prelude Mem EspFlash Vfs VfsPath VfsClient VfsHistory VfsSelect.

Section wait.
Context `{senv : SelectEnv}.
Implicit Types (s : vfs_state) (t : filesystem) (a : fd_sets) (l : list fds_triple_t).

(** ** The three sets alike *)
Inductive kind := k_read | k_write | k_error.
Definition asked (k : kind) a : option (gset Z) := match k with k_read => reads a | k_write => writes a | k_error => errors a end.
Definition given (k : kind) (item : fds_triple_t) : gset Z :=
  match k with k_read => readfds item | k_write => writefds item | k_error => errorfds item end.
Definition asks (k : kind) a (fd : Z) : bool := esp_vfs_safe_fd_isset fd (asked k a).
Definition asks_any a (fd : Z) : bool := asks k_read a fd || asks k_write a fd || asks k_error a fd.

Lemma asks_true k a fd : asks k a fd = true <-> 0 <= fd < MAX_FDS /\ exists p, asked k a = Some p /\ fd ∈ p.
Proof.
  unfold asks, esp_vfs_safe_fd_isset. destruct (asked k a) as [p|]; [|naive_solver]. unfold FD_ISSET.
  rewrite !andb_true_iff, Z.leb_le, Z.ltb_lt, bool_decide_eq_true. naive_solver.
Qed.

Lemma move_fd_spec fd local a item : let '(a', item') := move_fd fd local a item in
  (forall k, asked k a' = if asks k a fd then FD_CLR fd <$> asked k a else asked k a) /\
  (forall k, given k item' = if asks k a fd then FD_SET local (given k item) else given k item) /\
  isset item' = isset item || asks_any a fd.
Proof.
  unfold move_fd, asks_any, asks. destruct a as [r w e], item as [b rd wr er]. simpl.
  destruct (esp_vfs_safe_fd_isset fd r) eqn:E1; simpl; destruct (esp_vfs_safe_fd_isset fd w) eqn:E2; simpl;
    destruct (esp_vfs_safe_fd_isset fd e) eqn:E3; simpl; split_and!; try (intros []; simpl; by rewrite ?E1, ?E2, ?E3); by rewrite ?orb_true_r, ?orb_false_r.
Qed.

Lemma elem_FD_SET n m p : n ∈ FD_SET m p <-> n ∈ p \/ n = m /\ 0 <= m < MAX_FDS.
Proof.
  unfold FD_SET. destruct ((0 <=? m) && (m <? MAX_FDS)) eqn:E; rewrite ?elem_of_union, ?elem_of_singleton.
  - apply andb_true_iff in E as [?%Z.leb_le ?%Z.ltb_lt]. tauto.
  - apply andb_false_iff in E as [?%Z.leb_gt|?%Z.ltb_ge]; (split; [tauto|intros [?|[_ ?]]; [done|lia]]).
Qed.
Lemma elem_FD_CLR n m p : 0 <= m < MAX_FDS -> n ∈ FD_CLR m p <-> n ∈ p /\ n <> m.
Proof.
  intros Hm. unfold FD_CLR. rewrite (proj2 (Z.leb_le _ _)), (proj2 (Z.ltb_lt _ _)) by lia. simpl.
  by rewrite elem_of_difference, elem_of_singleton.
Qed.

(** ** Splitting *)

(** An open file that is waited for by its driver. *)
Definition waits t (nfds : Z) (fd : Z) (f : file) : Prop := 0 <= fd < nfds /\ files t !! fd = Some f /\ kept f = false.

(** The sockets among the descriptors say how to wait for them. *)
Definition sockets_ok t (nfds : Z) a : Prop := forall fd f, 0 <= fd < nfds -> files t !! fd = Some f -> kept f = true -> asks_any a fd = true ->
  member (vfs (owner f)) f_get_socket_select_semaphore <> 0.

(** After the descriptors below [n], [c] places. *)
Record Split t (c : Z) (n : Z) a l a' : Prop := {
  spl_len : lenZ l = c;
  spl_asked : forall k fd, asks k a' fd = true <-> asks k a fd = true /\ ~ exists f, waits t n fd f;
  spl_null : forall k, asked k a' = None <-> asked k a = None;
  spl_given : forall k i m, 0 <= i -> m ∈ given k (triple_at l i) <->
    0 <= m < MAX_FDS /\ exists fd f, waits t n fd f /\ asks k a fd = true /\ offset (owner f) = i /\ in_driver f = m;
  spl_isset : forall i, 0 <= i -> isset (triple_at l i) = true <-> exists fd f, waits t n fd f /\ asks_any a fd = true /\ offset (owner f) = i
}.

Lemma triple_at_update l i j item : 0 <= i < lenZ l -> 0 <= j -> triple_at (<[Z.to_nat i := item]> l) j = if decide (j = i) then item else triple_at l j.
Proof.
  intros Hi Hj. unfold triple_at. rewrite lookup_update by (unfold lenZ in Hi; lia).
  destruct (decide (Z.to_nat i = Z.to_nat j)), (decide (j = i)); try done; lia.
Qed.

Lemma split_start t c a : 0 <= c -> Split t c 0 a (repeat no_fds (Z.to_nat c)) a.
Proof.
  intros Hc. assert (T : forall i, triple_at (repeat no_fds (Z.to_nat c)) i = no_fds).
  { intros i. unfold triple_at. destruct (_ !! _) as [x|] eqn:E; [|done]. apply list_elem_of_lookup_2, list_elem_of_In, repeat_spec in E. by rewrite E. }
  constructor.
  - unfold lenZ. rewrite repeat_length. lia.
  - intros k fd. split; [|tauto]. intros H. split; [done|]. intros (f & ? & _). lia.
  - done.
  - intros k i m _. rewrite T. split; [destruct k; simpl; intros H; by apply not_elem_of_empty in H|]. intros (_ & fd & f & (? & _) & _). lia.
  - intros i _. rewrite T. split; [done|]. intros (fd & f & (? & _) & _). lia.
Qed.

Lemma waits_next t n fd f : 0 <= n -> waits t (n + 1) fd f <-> waits t n fd f \/ fd = n /\ files t !! fd = Some f /\ kept f = false.
Proof. intros Hn. unfold waits. split; [intros (? & ? & ?)|intros [(? & ? & ?)|(-> & ? & ?)]]; [|split_and!; done || lia..]. destruct (decide (fd = n)); [by right|left; split_and!; done || lia]. Qed.

(** A descriptor that is not waited for by its driver. *)
Lemma split_skip t c n a l a' : 0 <= n -> Split t c n a l a' -> (forall f, files t !! n = Some f -> kept f = true) -> Split t c (n + 1) a l a'.
Proof.
  intros Hn [S1 S2 S3 S4 S5] Hk. assert (W : forall fd f, waits t (n + 1) fd f <-> waits t n fd f).
  { intros fd f. rewrite waits_next by done. split; [|tauto]. intros [H|(-> & H & H')]; [done|]. rewrite (Hk _ H) in H'. done. }
  constructor; [done| |done| |].
  - intros k fd. rewrite S2. by setoid_rewrite W.
  - intros k i m Hi. rewrite S4 by done. by setoid_rewrite W.
  - intros i Hi. rewrite S5 by done. by setoid_rewrite W.
Qed.

(** A descriptor that is moved to its driver's sets. *)
Lemma split_move t c n a l a' f a2 item : 0 <= n < MAX_FDS -> Split t c n a l a' -> files t !! n = Some f -> kept f = false -> 0 <= offset (owner f) < c ->
  move_fd n (in_driver f) a' (triple_at l (offset (owner f))) = (a2, item) -> Split t c (n + 1) a (<[Z.to_nat (offset (owner f)) := item]> l) a2.
Proof.
  intros Hn [S1 S2 S3 S4 S5] Hf Hk Ho Em. pose proof (move_fd_spec n (in_driver f) a' (triple_at l (offset (owner f)))) as M. rewrite Em in M.
  destruct M as (M1 & M2 & M3). assert (A : forall k, asks k a' n = asks k a n).
  { intros k. apply eq_true_iff_eq. rewrite S2. split; [tauto|]. intros H. split; [done|]. intros (g & ? & _). lia. }
  assert (W1 : forall fd g, waits t (n + 1) fd g <-> waits t n fd g \/ fd = n /\ files t !! fd = Some g /\ kept g = false) by (intros; apply waits_next; lia).
  assert (Any : asks_any a' n = asks_any a n) by (unfold asks_any; by rewrite !A). rewrite Any in M3.
  constructor.
  - unfold lenZ in *. by rewrite length_insert.
  - intros k fd. destruct (decide (fd = n)) as [->|Hne].
    + split; [|intros [_ H]; exfalso; apply H; exists f; rewrite waits_next by lia; by right].
      intros H. exfalso. apply asks_true in H as (_ & p & Hp & Hin). rewrite M1, A in Hp. destruct (asks k a n) eqn:E.
      * destruct (asked k a') as [q|]; [|done]. injection Hp as <-. apply elem_FD_CLR in Hin as [_ ?]; [done|lia].
      * assert (asks k a' n = true) by (apply asks_true; eauto). rewrite A in H. congruence.
    + assert (E : asks k a2 fd = asks k a' fd).
      { apply eq_true_iff_eq. rewrite !asks_true, M1. destruct (asks k a' n); [|done]. destruct (asked k a') as [q|]; simpl; [|naive_solver].
        split; intros (Hfd & p & [= <-] & Hin); (split; [done|]); eexists; (split; [done|]); revert Hin; rewrite elem_FD_CLR by lia; tauto. }
      rewrite E, S2. split; intros [H1 H2]; (split; [done|]); intros (g & H); apply H2; exists g; revert H; rewrite waits_next by lia; tauto.
  - intros k. rewrite M1, <- S3. destruct (asks k a' n); [|done]. by destruct (asked k a').
  - intros k i m Hi. rewrite triple_at_update by (rewrite ?S1; done). destruct (decide (i = offset (owner f))) as [->|Hne].
    + rewrite M2, A. setoid_rewrite W1. destruct (asks k a n) eqn:E.
      * rewrite elem_FD_SET, S4 by lia. split.
        -- intros [(Hm & fd & g & W & ? & ? & ?)|[-> Hm]]; (split; [done|]); [exists fd, g|exists n, f]; naive_solver.
        -- intros (Hm & fd & g & [W|(-> & Hg & _)] & ? & ? & <-); [left; split; [done|]; exists fd, g; naive_solver|right].
           assert (g = f) as -> by congruence. done.
      * rewrite S4 by lia. split; intros (Hm & fd & g & W & ? & ? & ?); (split; [done|]); exists fd, g; split_and!; try done; [by left|].
        destruct W as [W|(-> & _)]; [done|]. congruence.
    + rewrite S4 by done. setoid_rewrite W1. split; intros (Hm & fd & g & W & ? & ? & ?); (split; [done|]); exists fd, g; split_and!; try done; [by left|].
      destruct W as [W|(-> & Hg & _)]; [done|]. congruence.
  - intros i Hi. rewrite triple_at_update by (rewrite ?S1; done). destruct (decide (i = offset (owner f))) as [->|Hne].
    + rewrite M3, orb_true_iff, S5 by done. setoid_rewrite W1. split.
      * intros [(fd & g & W & ? & ?)|Ha]; [exists fd, g|exists n, f]; naive_solver.
      * intros (fd & g & [W|(-> & Hg & _)] & Ha & ?); [left; exists fd, g; done|by right].
    + rewrite S5 by done. setoid_rewrite W1. split; intros (fd & g & W & ? & ?); exists fd, g; split_and!; try done; [by left|].
      destruct W as [W|(-> & Hg & _)]; [done|]. congruence.
Qed.

(** The tables are those of [t]; the drivers may have gone on. *)
Definition Tables t (c : Z) s : Prop := exists t', Rep s t' /\ files t' = files t /\ s_vfs_count s = c.
Lemma tables_drivers t c s d : Tables t c s -> Tables t c (set_driver_state d s).
Proof. intros (t' & R & F & C). eexists. split; [apply rep_world; exact R|]. done. Qed.

Lemma tables_fd t c s fd : Tables t c s -> 0 <= fd < MAX_FDS -> fd_at s fd = cell (files t !! fd).
Proof. intros (t' & R & <- & _) H. by apply (rep_cells _ _ R). Qed.
Lemma tables_owner t c s fd f : Tables t c s -> files t !! fd = Some f ->
  0 <= offset (owner f) < c /\ s_vfs_at s (offset (owner f)) = Some (owner f) /\ 0 <= in_driver f < 256 /\ 0 <= fd < MAX_FDS.
Proof.
  intros (t' & R & F & <-) Hf. rewrite <- F in Hf. destruct (rep_files _ _ R _ _ Hf) as (Hfd & M & Hl). pose proof (mounted_offset s t' _ R M) as Ho.
  split; [|split; [|done]].
  - split; [lia|]. destruct (Z.ltb_spec (offset (owner f)) (s_vfs_count s)); [done|]. exfalso. pose proof (lookup_lt_Some _ _ _ M) as L.
    unfold mounted in M. rewrite (rep_beyond _ _ R) in M by lia. done.
  - unfold s_vfs_at. rewrite (proj2 (Z.ltb_ge _ _)), (rep_places _ _ R) by lia. by rewrite M.
Qed.

Lemma split_fd_ok t c nfds n a l a' ss sm s : Tables t c s -> 0 <= n < MAX_FDS -> n < nfds -> sockets_ok t nfds a -> Split t c n a l a' ->
  exists l2 a2 ss2 sm2 s2, split_fd (Ok (l, a', ss, sm, s)) n = Ok (l2, a2, ss2, sm2, s2) /\ Tables t c s2 /\ Split t c (n + 1) a l2 a2.
Proof.
  intros T Hn Hnf Hso S. pose proof S as [S1 S2 _ _ _]. unfold split_fd. ostep. rewrite (tables_fd t c s n T Hn).
  destruct (files t !! n) as [f|] eqn:Ef; cbn [cell vfs_index permanent local_fd FD_TABLE_ENTRY_UNUSED].
  - destruct (tables_owner t c s n f T Ef) as (Ho & Hat & Hl & _). rewrite (proj2 (Z.ltb_ge _ _)) by lia. destruct (kept f) eqn:Ek.
    + assert (Sk : Split t c (n + 1) a l a') by (apply split_skip; [lia|done|intros g Hg; congruence]).
      destruct ((ss =? 0) && _) eqn:Eq; [|by eauto 10].
      assert (Any : asks_any a n = true).
      { apply andb_true_iff in Eq as [_ Eq]. unfold asks_any. apply orb_true_iff. rewrite orb_true_iff in *. rewrite orb_true_iff in Eq.
        destruct Eq as [[H|H]|H]; [apply (S2 k_read) in H as [? _]|apply (S2 k_write) in H as [? _]|apply (S2 k_error) in H as [? _]]; tauto. }
      rewrite Hat, (proj2 (Z.eqb_neq _ 0) (Hso n f ltac:(lia) Ef Ek Any)). destruct (socket_sem _ _) as [sem d].
      do 5 eexists. split; [done|]. split; [by apply tables_drivers|done].
    + rewrite (proj2 (Z.leb_gt _ _)) by lia. destruct (move_fd n (in_driver f) a' (triple_at l (offset (owner f)))) as [a2 item] eqn:Em.
      do 5 eexists. split; [done|]. split; [done|]. by eapply split_move.
  - rewrite (proj2 (Z.ltb_lt _ _)) by lia. do 5 eexists. split; [done|]. split; [done|]. apply split_skip; [lia|done|]. intros f. congruence.
Qed.

Lemma split_fds_run t c a s nfds : Tables t c s -> 0 <= c -> 0 <= nfds <= MAX_FDS -> sockets_ok t nfds a ->
  exists l a' ss sm s', split_fds nfds (repeat no_fds (Z.to_nat c)) a s = Ok (l, a', ss, sm, s') /\ Tables t c s' /\ Split t c nfds a l a'.
Proof.
  intros T Hc Hn Hso. unfold split_fds.
  assert (H : forall k, (k <= Z.to_nat nfds)%nat -> exists l a' ss sm s',
    foldl split_fd (Ok (repeat no_fds (Z.to_nat c), a, 0, 0, s)) (seqZ 0 (Z.of_nat k)) = Ok (l, a', ss, sm, s') /\ Tables t c s' /\ Split t c (Z.of_nat k) a l a').
  { induction k as [|k IH]; intros Hk; [do 5 eexists; split; [done|]; split; [done|]; by apply split_start|].
    destruct IH as (l & a' & ss & sm & s' & E & T' & S'); [lia|].
    destruct (split_fd_ok t c nfds (Z.of_nat k) a l a' ss sm s' T') as (l2 & a2 & ss2 & sm2 & s2 & E2 & T2 & S2); [lia|lia|done|done|].
    replace (Z.of_nat (S k)) with (Z.of_nat k + 1) by lia. rewrite seqZ_app by lia. rewrite foldl_app, E. simpl seqZ. 
    do 5 eexists. split; [|split; [exact T2|exact S2]]. replace (seqZ (0 + Z.of_nat k) 1) with [Z.of_nat k] by done. exact E2. }
  destruct (H (Z.to_nat nfds) (le_n _)) as (l & a' & ss & sm & s' & E & ?). rewrite Z2Nat.id in * by lia. eauto 10.
Qed.

(** C29.  Waiting splits the caller's sets exactly.  For the tables of any file system,
    every driver's read, write and error sets hold the descriptors that it gave for
    the open files asked for, and nothing else; a driver is marked exactly if one
    of its files is asked for; these files are taken out of the caller's sets and
    the sockets, unused and higher descriptors stay in them; null pointers stay.
    Descriptors of a driver that do not fit into a set are the exception: they are
    asked of nobody. *)
Theorem select_split_exact s t a nfds : Rep s t -> 0 <= nfds <= MAX_FDS -> sockets_ok t nfds a ->
  exists l a' ss sm s', split_fds nfds (repeat no_fds (Z.to_nat (s_vfs_count s))) a s = Ok (l, a', ss, sm, s') /\
    (forall k i m, 0 <= i -> m ∈ given k (triple_at l i) <->
      0 <= m < MAX_FDS /\ exists fd f, waits t nfds fd f /\ asks k a fd = true /\ offset (owner f) = i /\ in_driver f = m) /\
    (forall i, 0 <= i -> isset (triple_at l i) = true <-> exists fd f, waits t nfds fd f /\ asks_any a fd = true /\ offset (owner f) = i) /\
    (forall k fd, asks k a' fd = true <-> asks k a fd = true /\ ~ exists f, waits t nfds fd f) /\
    (forall k, asked k a' = None <-> asked k a = None).
Proof.
  intros R Hn Hso. destruct (rep_count _ _ R) as [Hc _].
  destruct (split_fds_run t (s_vfs_count s) a s nfds) as (l & a' & ss & sm & s' & E & _ & [S1 S2 S3 S4 S5]); [by exists t|done|done|done|].
  exists l, a', ss, sm, s'. done.
Qed.

(** ** Translating back *)
Definition hit (k : kind) s (x : fds_triple_t * Z) : bool := FD_ISSET (local_fd (fd_at s x.2)) (given k x.1).
Definition set_size (k : kind) a : Z := match asked k a with Some p => Z.of_nat (size p) | None => 0 end.
Definition sizes a : Z := set_size k_read a + set_size k_write a + set_size k_error a.
Definition member_of (k : kind) a (fd : Z) : Prop := exists p, asked k a = Some p /\ fd ∈ p.

Lemma size_FD_SET fd (p : gset Z) : 0 <= fd < MAX_FDS -> fd ∉ p -> Z.of_nat (size (FD_SET fd p)) = Z.of_nat (size p) + 1.
Proof.
  intros Hf Hn. unfold FD_SET. rewrite (proj2 (Z.leb_le _ _)), (proj2 (Z.ltb_lt _ _)) by lia. simpl.
  rewrite size_union by set_solver. rewrite size_singleton. lia.
Qed.

Lemma add_ready_spec fd local set p ret : 0 <= fd < MAX_FDS -> (FD_ISSET local set = true -> forall q, p = Some q -> fd ∉ q) ->
  let '(p', ret') := add_ready fd local set p ret in
  (p' = None <-> p = None) /\ (forall q q', p = Some q -> p' = Some q' -> (forall n, n ∈ q' <-> n ∈ q \/ n = fd /\ FD_ISSET local set = true)) /\
  ret' - match p' with Some q => Z.of_nat (size q) | None => 0 end = ret - match p with Some q => Z.of_nat (size q) | None => 0 end.
Proof.
  intros Hf Hn. unfold add_ready. destruct p as [q|]; [|by split_and!]. destruct (FD_ISSET local set) eqn:E.
  - split; [done|]. split; [|rewrite size_FD_SET by (done || by apply Hn); lia].
    intros q1 q2 [= ->] [= <-] n. rewrite elem_FD_SET. tauto.
  - split; [done|]. split; [|done]. intros q1 q2 [= ->] [= ->] n. split; [tauto|intros [?|[_ ?]]; done].
Qed.

Lemma ready_fd_spec item s ret a fd : 0 <= fd < MAX_FDS -> (forall k, hit k s (item, fd) = true -> ~ member_of k a fd) ->
  let '(ret', a') := ready_fd item s (ret, a) fd in
  (forall k, asked k a' = None <-> asked k a = None) /\
  (forall k n, member_of k a' n <-> member_of k a n \/ n = fd /\ hit k s (item, fd) = true /\ asked k a <> None) /\ ret' - sizes a' = ret - sizes a.
Proof.
  intros Hf Hn. unfold ready_fd, hit in *. simpl in Hn. set (local := local_fd (fd_at s fd)) in *.
  assert (F : forall k q, FD_ISSET local (given k item) = true -> asked k a = Some q -> fd ∉ q) by (intros k q Hh Hq Hin; apply (Hn k Hh); by exists q).
  pose proof (add_ready_spec fd local (readfds item) (reads a) ret Hf (fun H q => F k_read q H)) as A1.
  destruct (add_ready fd local (readfds item) (reads a) ret) as [rd r1].
  pose proof (add_ready_spec fd local (writefds item) (writes a) r1 Hf (fun H q => F k_write q H)) as A2.
  destruct (add_ready fd local (writefds item) (writes a) r1) as [wr r2].
  pose proof (add_ready_spec fd local (errorfds item) (errors a) r2 Hf (fun H q => F k_error q H)) as A3.
  destruct (add_ready fd local (errorfds item) (errors a) r2) as [er r3].
  destruct A1 as (N1 & M1 & S1), A2 as (N2 & M2 & S2), A3 as (N3 & M3 & S3).
  split; [intros []; done|]. split; [|unfold sizes, set_size; simpl; lia].
  assert (G : forall (p p' : option (gset Z)) (h : Prop), (p' = None <-> p = None) -> (forall q q', p = Some q -> p' = Some q' -> forall n, n ∈ q' <-> n ∈ q \/ n = fd /\ h) ->
    forall n, (exists q, p' = Some q /\ n ∈ q) <-> (exists q, p = Some q /\ n ∈ q) \/ n = fd /\ h /\ p <> None).
  { intros p p' h N M n. destruct p as [q|], p' as [q'|]; destruct N; naive_solver. }
  intros [] n; unfold member_of; simpl; by apply G.
Qed.

(** All pairs of a marked driver's sets and a descriptor, in the order of the code. *)
Definition pairs l : list (fds_triple_t * Z) := flat_map (fun item => if isset item then map (pair item) (seqZ 0 MAX_FDS) else []) l.
Lemma set_global_pairs l a s : set_global_fd_sets l a s = foldl (fun r x => ready_fd x.1 s r x.2) (0, a) (pairs l).
Proof.
  unfold set_global_fd_sets, pairs. generalize (0, a). induction l as [|item l IH]; intros r; [done|]. cbn [flat_map foldl].
  rewrite foldl_app, IH. f_equal. destruct (isset item); [|done]. generalize (seqZ 0 MAX_FDS). intros fds. revert r.
  induction fds as [|fd fds IHf]; intros r; [done|]. cbn [map foldl]. apply IHf.
Qed.

Lemma ready_pairs s ps : forall ret a, (forall x, x ∈ ps -> 0 <= x.2 < MAX_FDS) ->
  (forall k x, x ∈ ps -> hit k s x = true -> ~ member_of k a x.2) ->
  (forall k i j x y, (i < j)%nat -> ps !! i = Some x -> ps !! j = Some y -> hit k s x = true -> hit k s y = true -> x.2 <> y.2) ->
  let '(ret', a') := foldl (fun r x => ready_fd x.1 s r x.2) (ret, a) ps in
  (forall k, asked k a' = None <-> asked k a = None) /\
  (forall k n, member_of k a' n <-> member_of k a n \/ (exists x, x ∈ ps /\ n = x.2 /\ hit k s x = true) /\ asked k a <> None) /\ ret' - sizes a' = ret - sizes a.
Proof.
  induction ps as [|[item fd] ps IH]; intros ret a Hr Hfresh Hd; cbn [foldl].
  { split; [done|]. split; [|done]. intros k n. split; [tauto|]. intros [?|[(x & Hx & _) _]]; [done|]. by apply not_elem_of_nil in Hx. }
  pose proof (ready_fd_spec item s ret a fd) as S. specialize (S (Hr (item, fd) ltac:(left)) (fun k => Hfresh k (item, fd) ltac:(left))).
  cbn [fst snd]. destruct (ready_fd item s (ret, a) fd) as [r1 a1]. destruct S as (N1 & M1 & Z1).
  specialize (IH r1 a1). destruct (foldl _ (r1, a1) ps) as [r2 a2].
  destruct IH as (N2 & M2 & Z2); [intros x Hx; apply Hr; by right| |intros k i j x y Hij Hi Hj; by apply (Hd k (S i) (S j)); [lia|..]|].
  - intros k x Hx Hh. rewrite M1. intros [?|(Hn & Hh' & _)]; [by apply (Hfresh k x); [right|..]|].
    apply list_elem_of_lookup_1 in Hx as [j Hj]. by apply (Hd k 0%nat (S j) (item, fd) x); [lia|..].
  - split; [intros k; by rewrite N2, N1|]. split; [|lia]. intros k n. rewrite M2, M1, N1. split.
    + intros [[?|(-> & ? & ?)]|[(x & Hx & -> & ?) ?]]; [by left|right; split; [|done]; exists (item, fd); split; [left|done]|right; split; [|done]; exists x; split; [by right|done]].
    + intros [?|[(x & Hx & -> & ?) ?]]; [by left; left|]. apply elem_of_cons in Hx as [->|Hx]; [left; by right|right; split; [|done]; by exists x].
Qed.

Lemma elem_of_pairs l x : x ∈ pairs l <-> (exists i, l !! i = Some x.1) /\ isset x.1 = true /\ 0 <= x.2 < MAX_FDS.
Proof.
  unfold pairs. rewrite list_elem_of_In, in_flat_map. split.
  - intros (item & Hi & Hx). destruct (isset item) eqn:E; [|done]. apply in_map_iff in Hx as (fd & <- & Hfd).
    apply list_elem_of_In, elem_of_seqZ in Hfd. apply list_elem_of_In, list_elem_of_lookup_1 in Hi. simpl. split; [done|]. split; [done|lia].
  - intros ((i & Hi) & E & Hfd). exists x.1. split; [apply list_elem_of_In; by eapply list_elem_of_lookup_2|]. rewrite E.
    apply in_map_iff. exists x.2. split; [by destruct x|]. apply list_elem_of_In, elem_of_seqZ. lia.
Qed.

Lemma map_pair_lookup (item : fds_triple_t) i x : map (pair item) (seqZ 0 MAX_FDS) !! i = Some x -> x = (item, Z.of_nat i).
Proof.
  rewrite list_lookup_fmap. destruct (seqZ 0 MAX_FDS !! i) as [fd|] eqn:E; [|done]. simpl. intros [= <-].
  apply lookup_seqZ in E as [-> _]. done.
Qed.

Lemma pairs_distinct s k l :
  (forall i j x y fd, (i < j)%nat -> l !! i = Some x -> l !! j = Some y -> isset x = true -> isset y = true -> 0 <= fd < MAX_FDS ->
    hit k s (x, fd) = true -> hit k s (y, fd) = true -> False) ->
  forall i j x y, (i < j)%nat -> pairs l !! i = Some x -> pairs l !! j = Some y -> hit k s x = true -> hit k s y = true -> x.2 <> y.2.
Proof.
  induction l as [|item l IH]; intros H i j x y Hij Hi Hj Hx Hy; [done|].
  assert (IH' : forall i j x y, (i < j)%nat -> pairs l !! i = Some x -> pairs l !! j = Some y -> hit k s x = true -> hit k s y = true -> x.2 <> y.2).
  { apply IH. intros i' j' x' y' fd Hlt Hi' Hj'. apply (H (S i') (S j')); [lia|done|done]. }
  unfold pairs in Hi, Hj. cbn [flat_map] in Hi, Hj. fold (pairs l) in Hi, Hj. destruct (isset item) eqn:Es; [|by apply (IH' i j)].
  apply lookup_app_Some in Hi as [Hi|[Li Hi]].
  - apply map_pair_lookup in Hi as ->. apply lookup_app_Some in Hj as [Hj|[Lj Hj]].
    + apply map_pair_lookup in Hj as ->. simpl. lia.
    + simpl. intros E. apply list_elem_of_lookup_2, elem_of_pairs in Hj as ((m & Hm) & Ey & Hfd). destruct y as [y fd]. simpl in *. subst fd.
      by apply (H 0%nat (S m) item y (Z.of_nat i)); [lia|..].
  - apply lookup_app_Some in Hj as [Hj|[Lj Hj]]; [apply lookup_lt_Some in Hj; lia|]. eapply IH'; [|done|done|done|done]. lia.
Qed.

(** A file whose driver has reported it. *)
Definition reported (k : kind) t l (fd : Z) : Prop :=
  exists f, files t !! fd = Some f /\ isset (triple_at l (offset (owner f))) = true /\ in_driver f < MAX_FDS /\
    in_driver f ∈ given k (triple_at l (offset (owner f))).

(** No file of another driver has the number of a file that is reported. *)
Definition unshared t l : Prop := forall k i fd f, 0 <= i -> isset (triple_at l i) = true -> files t !! fd = Some f ->
  in_driver f < MAX_FDS -> in_driver f ∈ given k (triple_at l i) -> offset (owner f) = i.

Lemma hit_reported s t c l k i x fd : Tables t c s -> unshared t l -> l !! i = Some x -> isset x = true -> 0 <= fd < MAX_FDS -> hit k s (x, fd) = true ->
  exists f, files t !! fd = Some f /\ offset (owner f) = Z.of_nat i /\ in_driver f < MAX_FDS /\ in_driver f ∈ given k x.
Proof.
  intros T U Hi Hs Hfd H. unfold hit in H. simpl in H. rewrite (tables_fd t c s fd T Hfd) in H.
  assert (Hx : triple_at l (Z.of_nat i) = x) by (unfold triple_at; by rewrite Nat2Z.id, Hi).
  destruct (files t !! fd) as [f|] eqn:Ef; [|done]. cbn [cell local_fd] in H. unfold FD_ISSET in H.
  apply andb_true_iff in H as [[_ H1]%andb_true_iff H2%bool_decide_eq_true]. apply Z.ltb_lt in H1. exists f. split; [done|]. split; [|done].
  apply (U k (Z.of_nat i) fd f); [lia|by rewrite Hx|done|done|by rewrite Hx].
Qed.
Lemma reported_hit s t c l k fd : Tables t c s -> lenZ l = c -> reported k t l fd -> exists x, x ∈ pairs l /\ fd = x.2 /\ hit k s x = true.
Proof.
  intros T Hl (f & Hf & Hs & Hlt & Hin). destruct (tables_owner t c s fd f T Hf) as (Ho & _ & Hd & Hfd).
  exists (triple_at l (offset (owner f)), fd). split; [|split; [done|]].
  - apply elem_of_pairs. simpl. split; [|done]. exists (Z.to_nat (offset (owner f))). unfold triple_at.
    destruct (l !! Z.to_nat (offset (owner f))) eqn:E; [done|]. apply lookup_ge_None in E. unfold lenZ in Hl. lia.
  - unfold hit. simpl. rewrite (tables_fd t c s fd T Hfd), Hf. cbn [cell local_fd]. unfold FD_ISSET.
    rewrite (proj2 (Z.leb_le _ _)), (proj2 (Z.ltb_lt _ _)), bool_decide_eq_true_2 by (done || lia). done.
Qed.

(** The drivers' answers come back as the caller's descriptors.  When no open file of
    another driver has the number of one that is reported, the caller's sets grow
    by exactly the files that their own drivers left in their sets, null pointers
    stay, and the number returned is the number of descriptors added. *)
Theorem select_ready_exact s t l a : Rep s t -> lenZ l = s_vfs_count s -> unshared t l -> (forall k fd, reported k t l fd -> ~ member_of k a fd) ->
  let '(ret, a') := set_global_fd_sets l a s in
  (forall k, asked k a' = None <-> asked k a = None) /\
  (forall k fd, asked k a <> None -> member_of k a' fd <-> member_of k a fd \/ reported k t l fd) /\
  ret = sizes a' - sizes a.
Proof.
  intros R Hl U Ha. assert (T : Tables t (s_vfs_count s) s) by (by exists t). rewrite set_global_pairs.
  assert (Hr : forall k x, x ∈ pairs l -> hit k s x = true -> reported k t l x.2).
  { intros k [x fd] ((i & Hi) & Hs & Hfd)%elem_of_pairs Hh. simpl in *. destruct (hit_reported s t _ l k i x fd T U Hi Hs Hfd Hh) as (f & Hf & Ho & Hlt & Hin).
    exists f. rewrite Ho. unfold triple_at. rewrite Nat2Z.id, Hi. done. }
  pose proof (ready_pairs s (pairs l) 0 a) as H. destruct (foldl _ _ _) as [ret a'].
  destruct H as (N & M & Z); [by intros x (_ & _ & ?)%elem_of_pairs|intros k x Hx Hh; by apply Ha, Hr| |].
  - intros k. apply pairs_distinct. intros i j x y fd Hij Hi Hj Hsx Hsy Hfd Hx Hy.
    destruct (hit_reported s t _ l k i x fd T U Hi Hsx Hfd Hx) as (f & Hf & Ho & _). destruct (hit_reported s t _ l k j y fd T U Hj Hsy Hfd Hy) as (g & Hg & Hog & _).
    assert (f = g) as <- by congruence. lia.
  - split; [done|]. split; [|lia]. intros k fd Hk. rewrite M. split.
    + intros [?|[(x & Hx & -> & Hh) _]]; [by left|right; by apply Hr].
    + intros [?|Hrep]; [by left|right]. split; [by apply (reported_hit s t _ l k fd T Hl)|done].
Qed.
End wait.
