(* ===== verification/VfsWaitExamples.v ===== *)
(** * Virtual file system: select on concrete drivers *)
From S2P Require Import Prelude Mem EspFlash SplitArgv Vfs VfsPath VfsClient VfsHistory VfsCalls VfsSelect VfsWait VfsExamples.

(** Drivers that are ready at once with everything they are asked for. *)
#[export] Instance ready_env : @SelectEnv counting := {|
  begin_wait := fun _ _ item _ d => (ESP_OK, item, 0, d);
  stop_wait := fun _ _ d => (ESP_OK, d);
  socket_wait := fun _ _ a _ l d => (0, a, l, d);
  semaphore_wait := fun _ _ l d => (l, d);
  socket_sem := fun _ d => (1, d);
  portTICK_PERIOD_MS := 10
|}.

(** A driver whose [open] returns the flags. *)
Definition numbered : esp_vfs_t := mkVfs 0 (fun f => match f with f_open => 2 | f_start_select => 4 | f_end_select => 5 | _ => 0 end).
Definition two_drivers (n m : Z) : list vfs_call :=
  [c_register true None (chars "/a") numbered 0; c_register true None (chars "/b") numbered 0; c_open (chars "/a/x") n 0; c_open (chars "/b/y") m 0].
Definition opened (n m : Z) : filesystem := match answers_of (two_drivers n m) (fs_start 0) with Some (_, t) => t | None => fs_start 0 end.
Definition tables (n m : Z) : vfs_state := match vfs_steps (two_drivers n m) (vfs_start 0) with Ok (_, s) => s | _ => vfs_start 0 end.

Lemma opened_rep n m : 0 <= n < 256 -> 0 <= m < 256 -> (exists l, answers_of (two_drivers n m) (fs_start 0) = Some (l, opened n m)) -> Rep (tables n m) (opened n m).
Proof.
  intros Hn Hm (l & E). unfold tables. destruct (steps_keep (two_drivers n m) _ _ _ _ (@start_rep counting 0) E) as (s & -> & R). exact R.
Qed.

Definition ask : fd_sets := mkSets (Some {[0; 1]}) None (Some {[1; 5]}).

(** The files of the example. *)
Lemma opened_files fd f : files (opened 3 4) !! fd = Some f ->
  kept f = false /\ (fd = 0 /\ in_driver f = 3 /\ offset (owner f) = 0 \/ fd = 1 /\ in_driver f = 4 /\ offset (owner f) = 1).
Proof.
  intros H. change (files (opened 3 4)) with
    (<[1 := mkFile (mkVfsEntry numbered (chars "/b") 2 0 1) 4 false]> (<[0 := mkFile (mkVfsEntry numbered (chars "/a") 2 0 0) 3 false]> (∅ : gmap Z file))) in H.
  apply lookup_insert_Some in H as [[<- <-]|[_ H]]; [by split; [|right]|]. apply lookup_insert_Some in H as [[<- <-]|[_ H]]; [by split; [|left]|].
  by rewrite lookup_empty in H.
Qed.

Lemma rep_3_4 : Rep (tables 3 4) (opened 3 4).
Proof. apply opened_rep; [lia|lia|]. eexists. vm_compute. reflexivity. Qed.

Lemma select_split_exact_witness :
  exists l a' ss sm s', split_fds 8 (repeat no_fds 2) ask (tables 3 4) = Ok (l, a', ss, sm, s') /\
    (forall k i m, 0 <= i -> m ∈ given k (triple_at l i) <->
      0 <= m < MAX_FDS /\ exists fd f, waits (opened 3 4) 8 fd f /\ asks k ask fd = true /\ offset (owner f) = i /\ in_driver f = m) /\
    (forall i, 0 <= i -> isset (triple_at l i) = true <-> exists fd f, waits (opened 3 4) 8 fd f /\ asks_any ask fd = true /\ offset (owner f) = i) /\
    (forall k fd, asks k a' fd = true <-> asks k ask fd = true /\ ~ exists f, waits (opened 3 4) 8 fd f) /\
    (forall k, asked k a' = None <-> asked k ask = None).
Proof.
  refine (select_split_exact (tables 3 4) (opened 3 4) ask 8 rep_3_4 _ _); [done|].
  intros fd f _ Hf Hk _. destruct (opened_files fd f Hf) as [Hn _]. congruence.
Defined.

(** The first driver is ready to read, the second has an error. *)
Definition answer_sets : list fds_triple_t := [mkTriple true {[3]} ∅ ∅; mkTriple true ∅ ∅ {[4]}].

Lemma select_ready_exact_witness :
  let '(ret, a') := set_global_fd_sets answer_sets (mkSets (Some ∅) None (Some ∅)) (tables 3 4) in
  (forall k, asked k a' = None <-> asked k (mkSets (Some ∅) None (Some ∅)) = None) /\
  (forall k fd, asked k (mkSets (Some ∅) None (Some ∅)) <> None -> member_of k a' fd <-> member_of k (mkSets (Some ∅) None (Some ∅)) fd \/ reported k (opened 3 4) answer_sets fd) /\
  ret = sizes a' - sizes (mkSets (Some ∅) None (Some ∅)).
Proof.
  apply (select_ready_exact (tables 3 4) (opened 3 4) answer_sets (mkSets (Some ∅) None (Some ∅)) rep_3_4); [by vm_compute| |].
  - intros k i fd f Hi Hs Hf _ Hin. destruct (opened_files fd f Hf) as [_ [(-> & Hd & Ho)|(-> & Hd & Ho)]]; rewrite Hd, Ho in *;
      unfold triple_at, answer_sets in *; destruct (Z.to_nat i) as [|[|j]] eqn:E; try lia; exfalso; destruct k; simpl in Hin;
      rewrite ?elem_of_singleton in Hin; try lia; by apply not_elem_of_empty in Hin.
  - intros k fd _ (p & Hp & Hin). destruct k; simplify_eq/=; by apply not_elem_of_empty in Hin.
Defined.

(** Two drivers that use the same number: waiting for descriptor 0 reports
    descriptor 1 as well. *)
Lemma select_reports_another_file :
  match esp_vfs_select (mkResources true 1 true) 1 (mkSets (Some {[0]}) None None) None (tables 3 3) with
  | Ok (ret, a, _, _) => (ret, elements <$> reads a) = (2, Some [1; 0])
  | _ => False
  end.
Proof. vm_compute. reflexivity. Qed.

(** Without a block for the drivers' arguments the semaphore is lost. *)
Lemma select_leaks_semaphore :
  match esp_vfs_select (mkResources true 1 false) 1 (mkSets (Some {[0]}) None None) None (tables 3 4) with
  | Ok (ret, _, lost, _) => ret = -1 /\ semaphores lost = 1
  | _ => False
  end.
Proof. vm_compute. by split. Qed.

(** An invalid descriptor next to one that is not ready is marked but not counted;
    a descriptor with two events is counted twice. *)
Definition never_ready : @SelectEnv counting := {|
  begin_wait := fun _ _ item _ d => (ESP_OK, no_fds, 0, d); stop_wait := fun _ _ d => (ESP_OK, d);
  socket_wait := fun _ _ a _ l d => (0, a, l, d); semaphore_wait := fun _ _ l d => (l, d); socket_sem := fun _ d => (1, d); portTICK_PERIOD_MS := 10 |}.
Lemma poll_forgets_invalid :
  match @esp_vfs_poll _ never_ready (mkResources true 1 true) (Some [mkPollfd 0 POLLIN 0; mkPollfd 100 POLLIN 0]) 0 (tables 3 4) with
  | Ok (ret, fds, _) => (ret, revents <$> fds) = (0, [0; POLLNVAL])
  | _ => False
  end.
Proof. vm_compute. reflexivity. Qed.
Lemma poll_counts_twice :
  match esp_vfs_poll (mkResources true 1 true) (Some [mkPollfd 0 POLLIN 0]) 0 (tables 3 4) with
  | Ok (ret, fds, _) => (ret, revents <$> fds) = (2, [Z.lor POLLIN POLLERR])
  | _ => False
  end.
Proof. vm_compute. reflexivity. Qed.
