(* ===== verification/Httpd.v ===== *)
(** * HTTP server: its state ([components/esp_http_server])

    The structures of [esp_httpd_priv.h] and [esp_http_server.h] that the parts of
    the server share, what the server needs from the application and from the
    network, and the calls on the contexts of a session.

    The server is one task; the functions of its interface that the model has run in
    it.  A pointer to a session is its place in [hd_sd]; the pointers [handle] and
    [aux] of a request are flags.  Sockets, and the state of the application, are
    [net], which only the functions of [HttpdEnv] change; a function pointer of the
    application is a number, 0 is [NULL].  The request a function gets is the one
    that is being served, and [httpd_valid_req] is [true], as in a build without
    [CONFIG_HTTPD_VALIDATE_REQ]; texts are not [NULL].  A context is a number, 0 is [NULL]; what
    is freed, and by which function, is recorded in [freed]. *)
From S2P Require Import Prelude EspFlash CString.

Definition ESP_ERR_HTTPD_BASE := 0xb000.
Definition ESP_ERR_HTTPD_HANDLERS_FULL := ESP_ERR_HTTPD_BASE + 1.
Definition ESP_ERR_HTTPD_HANDLER_EXISTS := ESP_ERR_HTTPD_BASE + 2.
Definition ESP_ERR_HTTPD_INVALID_REQ := ESP_ERR_HTTPD_BASE + 3.
Definition ESP_ERR_HTTPD_RESULT_TRUNC := ESP_ERR_HTTPD_BASE + 4.
Definition ESP_ERR_HTTPD_RESP_HDR := ESP_ERR_HTTPD_BASE + 5.
Definition ESP_ERR_HTTPD_RESP_SEND := ESP_ERR_HTTPD_BASE + 6.
Definition ESP_ERR_HTTPD_ALLOC_MEM := ESP_ERR_HTTPD_BASE + 7.
Definition ESP_ERR_HTTPD_TASK := ESP_ERR_HTTPD_BASE + 8.

Definition HTTPD_SOCK_ERR_FAIL := -1.
Definition HTTPD_SOCK_ERR_INVALID := -2.
Definition HTTPD_SOCK_ERR_TIMEOUT := -3.

(** [httpd_err_code_t]. *)
Definition HTTPD_500_INTERNAL_SERVER_ERROR := 0.
Definition HTTPD_501_METHOD_NOT_IMPLEMENTED := 1.
Definition HTTPD_505_VERSION_NOT_SUPPORTED := 2.
Definition HTTPD_400_BAD_REQUEST := 3.
Definition HTTPD_404_NOT_FOUND := 4.
Definition HTTPD_405_METHOD_NOT_ALLOWED := 5.
Definition HTTPD_408_REQ_TIMEOUT := 6.
Definition HTTPD_411_LENGTH_REQUIRED := 7.
Definition HTTPD_414_URI_TOO_LONG := 8.
Definition HTTPD_431_REQ_HDR_FIELDS_TOO_LARGE := 9.
Definition HTTPD_ERR_CODE_MAX := 10.

Definition PARSER_BLOCK_SIZE := 128.
Definition UF_PATH := 3.
Definition UF_QUERY := 4.

(** ** Configuration of the build *)
Class HttpdConfig := {
  HTTPD_MAX_REQ_HDR_LEN : Z; HTTPD_MAX_URI_LEN : Z; CONFIG_HTTPD_PURGE_BUF_LEN : Z; CONFIG_HTTPD_ERR_RESP_NO_DELAY : bool
}.
Definition HTTPD_SCRATCH_BUF `{HttpdConfig} := Z.max HTTPD_MAX_REQ_HDR_LEN HTTPD_MAX_URI_LEN.
(** [sizeof(raux->scratch)]. *)
Definition scratch_size `{HttpdConfig} := HTTPD_SCRATCH_BUF + 1.

(** ** State *)
Record httpd_config_t := mkConfig {
  max_open_sockets : Z; max_uri_handlers : Z; max_resp_headers : Z; lru_purge_enable : bool;
  global_user_ctx : Z; global_user_ctx_free_fn : Z; global_transport_ctx : Z; global_transport_ctx_free_fn : Z;
  open_fn : Z; close_fn : Z; uri_match_fn : Z
}.
#[export] Instance rebuild_config : Rebuild httpd_config_t :=
  fun c => mkConfig (max_open_sockets c) (max_uri_handlers c) (max_resp_headers c) (lru_purge_enable c)
    (global_user_ctx c) (global_user_ctx_free_fn c) (global_transport_ctx c) (global_transport_ctx_free_fn c)
    (open_fn c) (close_fn c) (uri_match_fn c).

(** The function of a socket for sending or receiving. *)
Inductive io_fn := NoFn | DefaultFn | AppFn (f : Z).

Record sock_db := mkSock {
  fd : Z; ctx : Z; sd_ignore_sess_ctx_changes : bool; transport_ctx : Z; sd_free_ctx : Z; free_transport_ctx : Z;
  send_fn : io_fn; recv_fn : io_fn; pending_fn : Z; lru_counter : Z; lru_socket : bool;
  pending_data : list Z; pending_len : Z
}.
#[export] Instance rebuild_sock : Rebuild sock_db :=
  fun s => mkSock (fd s) (ctx s) (sd_ignore_sess_ctx_changes s) (transport_ctx s) (sd_free_ctx s) (free_transport_ctx s)
    (send_fn s) (recv_fn s) (pending_fn s) (lru_counter s) (lru_socket s) (pending_data s) (pending_len s).
(** A block of zeros. *)
Definition sock_zero := mkSock 0 0 false 0 0 0 NoFn NoFn 0 0 false (repeat 0 (Z.to_nat PARSER_BLOCK_SIZE)) 0.

Record httpd_uri_t := mkUri { uri : list Z; method : Z; handler : Z; user_ctx : Z }.
(** An entry of [hd_calls]: [NULL], a handler, or a pointer to a freed one. *)
Inductive call_ptr := NoCall | Call (h : httpd_uri_t) | FreedCall.

Record httpd_req := mkReq {
  handle : bool; req_method : Z; req_uri : list Z; content_len : Z; aux : bool; req_user_ctx : Z;
  sess_ctx : Z; free_ctx : Z; ignore_sess_ctx_changes : bool
}.
#[export] Instance rebuild_req : Rebuild httpd_req :=
  fun r => mkReq (handle r) (req_method r) (req_uri r) (content_len r) (aux r) (req_user_ctx r)
    (sess_ctx r) (free_ctx r) (ignore_sess_ctx_changes r).

(** [field_data] has an offset and a length for each of [UF_MAX] fields. *)
Record http_parser_url := mkUrl { field_set : Z; field_data : list (Z * Z) }.

Record httpd_req_aux := mkAux {
  sd : option nat; scratch : list Z; remaining_len : Z; status : list Z; content_type : list Z; first_chunk_sent : bool;
  req_hdrs_count : Z; resp_hdrs : list (list Z * list Z); url_parse_res : http_parser_url
}.
#[export] Instance rebuild_aux : Rebuild httpd_req_aux :=
  fun a => mkAux (sd a) (scratch a) (remaining_len a) (status a) (content_type a) (first_chunk_sent a)
    (req_hdrs_count a) (resp_hdrs a) (url_parse_res a).

Inductive thread_status := THREAD_IDLE | THREAD_RUNNING | THREAD_STOPPING | THREAD_STOPPED.

Class HttpdNet := { net : Type }.

Section state.
Context `{HttpdNet}.

(** [lru_count] is the static counter of [httpd_sess_get_lru_counter]. *)
Record httpd_data := mkHttpd {
  config : httpd_config_t; listen_fd : Z; ctrl_fd : Z; msg_fd : Z; td_status : thread_status; hd_sd : list sock_db; hd_calls : list call_ptr;
  hd_req : httpd_req; hd_req_aux : httpd_req_aux; err_handler_fns : list Z;
  lru_count : Z; freed : list (Z * Z); world : net
}.
#[export] Instance rebuild_httpd : Rebuild httpd_data :=
  fun s => mkHttpd (config s) (listen_fd s) (ctrl_fd s) (msg_fd s) (td_status s) (hd_sd s) (hd_calls s) (hd_req s) (hd_req_aux s) (err_handler_fns s)
    (lru_count s) (freed s) (world s).

(** What arrived: data, or one of the [HTTPD_SOCK_ERR] codes. *)
Inductive received := RecvErr (code : Z) | RecvData (data : list Z).

(** A message to the control socket; the work is [httpd_sess_close] with a session,
    or a function of the application with its argument. *)
Inductive httpd_work_fn_t := sess_close_work (i : option nat) | app_work_fn (f arg : Z).
Inductive httpd_ctrl_data := HTTPD_CTRL_SHUTDOWN | HTTPD_CTRL_WORK (work : httpd_work_fn_t).

(** The application, and the sockets.  [select] has the descriptors to watch, and
    returns the readable ones, [None] for an error.  [net_socket] makes a socket of a
    protocol.  The failing calls that send and receive return [inr] with [errno]. *)
Class HttpdEnv := {
  app_uri_match : Z -> list Z -> list Z -> Z -> bool;
  app_handler : Z -> httpd_data -> outcome (Z * httpd_data);
  app_err_handler : Z -> Z -> httpd_data -> outcome (Z * httpd_data);
  app_open : Z -> Z -> httpd_data -> outcome (Z * httpd_data);
  app_close : Z -> Z -> httpd_data -> outcome httpd_data;
  app_work : Z -> Z -> httpd_data -> outcome httpd_data;
  app_send : Z -> Z -> list Z -> httpd_data -> Z * net;
  app_recv : Z -> Z -> Z -> httpd_data -> received * net;
  app_pending : Z -> Z -> httpd_data -> Z * net;
  net_select : list Z -> net -> option (list Z) * net;
  net_socket : Z -> net -> Z * net;
  net_bind : Z -> net -> Z * net;
  net_listen : Z -> net -> Z * net;
  cs_create_ctrl_sock : net -> Z * net;
  net_accept : Z -> net -> Z * net;
  net_close : Z -> net -> net;
  net_fd_is_valid : Z -> net -> bool;
  net_send : Z -> list Z -> net -> (Z + Z) * net;
  net_recv : Z -> Z -> net -> (list Z + Z) * net;
  net_set_nodelay : Z -> Z -> net -> Z * net;
  ctrl_send : Z -> httpd_ctrl_data -> net -> Z * net;
  ctrl_recv : Z -> net -> option httpd_ctrl_data * net
}.

Implicit Types (hd : httpd_data) (s : sock_db).

(** ** Access *)
Definition set_sd (i : nat) s hd : httpd_data := hd <| hd_sd := <[i := s]> (hd_sd hd) |>.
Definition set_req (r : httpd_req) hd : httpd_data := hd <| hd_req := r |>.
Definition set_aux (a : httpd_req_aux) hd : httpd_data := hd <| hd_req_aux := a |>.
Definition set_world (w : net) hd : httpd_data := hd <| world := w |>.
Definition sd_at hd (i : nat) : outcome sock_db := match hd_sd hd !! i with Some s => Ok s | None => Fault end.

(** [ra->sd], of which a member is accessed. *)
Definition req_sd hd : outcome (nat * sock_db) :=
  match sd (hd_req_aux hd) with
  | Some i => s ← sd_at hd i; Ok (i, s)
  | None => Fault
  end.

(** The place of the first session with the descriptor. *)
Fixpoint find_fd (l : list sock_db) (sockfd : Z) : option nat :=
  match l with
  | [] => None
  | s :: l => if fd s =? sockfd then Some O else S <$> find_fd l sockfd
  end.

Definition httpd_sess_get hd (sockfd : Z) : option nat :=
  let in_req := match sd (hd_req_aux hd) with
                | Some i => match hd_sd hd !! i with Some s => fd s =? sockfd | None => false end
                | None => false
                end in
  if in_req then sd (hd_req_aux hd) else find_fd (hd_sd hd) sockfd.

(** ** Contexts *)
Definition httpd_sess_free_ctx (c free_fn : Z) hd : httpd_data :=
  if c =? 0 then hd else hd <| freed := freed hd ++ [(free_fn, c)] |>.

Definition httpd_sess_get_ctx (sockfd : Z) hd : Z :=
  match httpd_sess_get hd sockfd with
  | None => 0
  | Some i =>
      if bool_decide (sd (hd_req_aux hd) = Some i) then sess_ctx (hd_req hd)
      else match hd_sd hd !! i with Some s => ctx s | None => 0 end
  end.

Definition httpd_sess_set_ctx (sockfd c free_fn : Z) hd : outcome httpd_data :=
  match httpd_sess_get hd sockfd with
  | None => Ok hd
  | Some i =>
      s ← sd_at hd i;
      if bool_decide (sd (hd_req_aux hd) = Some i) then
        let r := hd_req hd in
        let hd :=
          if sess_ctx r =? c then hd
          else
            let hd := if ctx s =? sess_ctx r then hd else httpd_sess_free_ctx (sess_ctx r) (free_ctx r) hd in
            set_req ((hd_req hd) <| sess_ctx := c |>) hd in
        Ok (set_req ((hd_req hd) <| free_ctx := free_fn |>) hd)
      else
        let '(s, hd) := if ctx s =? c then (s, hd) else (s <| ctx := c |>, httpd_sess_free_ctx (ctx s) (sd_free_ctx s) hd) in
        Ok (set_sd i (s <| sd_free_ctx := free_fn |>) hd)
  end.

Definition httpd_sess_get_transport_ctx (sockfd : Z) hd : Z :=
  match httpd_sess_get hd sockfd with
  | None => 0
  | Some i => match hd_sd hd !! i with Some s => transport_ctx s | None => 0 end
  end.

Definition httpd_sess_set_transport_ctx (sockfd c free_fn : Z) hd : outcome httpd_data :=
  match httpd_sess_get hd sockfd with
  | None => Ok hd
  | Some i =>
      s ← sd_at hd i;
      let '(s, hd) :=
        if transport_ctx s =? c then (s, hd)
        else (s <| transport_ctx := c |>, httpd_sess_free_ctx (transport_ctx s) (free_transport_ctx s) hd) in
      Ok (set_sd i (s <| free_transport_ctx := free_fn |>) hd)
  end.

Definition httpd_get_global_user_ctx hd : Z := global_user_ctx (config hd).
Definition httpd_get_global_transport_ctx hd : Z := global_transport_ctx (config hd).
End state.
