(* ===== verification/HttpdTxrx.v ===== *)
(** * HTTP server: sending and receiving ([httpd_txrx.c])

    The functions of the sockets, the data that was read but not used ([pending]),
    and the responses.  [fuel] bounds the calls of one loop that sends. *)
From S2P Require Import Prelude EspFlash CString Httpd.

Definition EINTR := 4.
Definition EBADF := 9.
Definition EAGAIN := 11.
Definition EFAULT := 14.
Definition EINVAL := 22.
Definition ENOTSOCK := 108.

Section txrx.
Context `{HttpdConfig} `{HttpdEnv} (fuel : nat).
Implicit Types (hd : httpd_data) (buf : list Z).

(** ** The functions of a socket *)
Definition httpd_sock_err (errno : Z) : Z :=
  if (errno =? EAGAIN) || (errno =? EINTR) then HTTPD_SOCK_ERR_TIMEOUT
  else if (errno =? EINVAL) || (errno =? EBADF) || (errno =? EFAULT) || (errno =? ENOTSOCK) then HTTPD_SOCK_ERR_INVALID
  else HTTPD_SOCK_ERR_FAIL.

Definition httpd_default_send (sockfd : Z) buf hd : Z * httpd_data :=
  match net_send sockfd buf (world hd) with
  | (inl ret, w) => (ret, set_world w hd)
  | (inr errno, w) => (httpd_sock_err errno, set_world w hd)
  end.
Definition httpd_default_recv (sockfd buf_len : Z) hd : received * httpd_data :=
  match net_recv sockfd buf_len (world hd) with
  | (inl data, w) => (RecvData data, set_world w hd)
  | (inr errno, w) => (RecvErr (httpd_sock_err errno), set_world w hd)
  end.

Definition call_send (f : io_fn) (sockfd : Z) buf hd : outcome (Z * httpd_data) :=
  match f with
  | NoFn => Fault
  | DefaultFn => Ok (httpd_default_send sockfd buf hd)
  | AppFn f => let '(ret, w) := app_send f sockfd buf hd in Ok (ret, set_world w hd)
  end.
(** More than [buf_len] bytes are behind the buffer. *)
Definition call_recv (f : io_fn) (sockfd buf_len : Z) hd : outcome (received * httpd_data) :=
  '(r, hd) ← (match f with
              | NoFn => Fault
              | DefaultFn => Ok (httpd_default_recv sockfd buf_len hd)
              | AppFn f => let '(r, w) := app_recv f sockfd buf_len hd in Ok (r, set_world w hd)
              end);
  match r with
  | RecvData data => if lenZ data <=? buf_len then Ok (r, hd) else Fault
  | RecvErr _ => Ok (r, hd)
  end.

Definition set_override (set : sock_db -> sock_db) (sockfd : Z) hd : outcome (Z * httpd_data) :=
  match httpd_sess_get hd sockfd with
  | None => Ok (ESP_ERR_INVALID_ARG, hd)
  | Some i => s ← sd_at hd i; Ok (ESP_OK, set_sd i (set s) hd)
  end.
Definition httpd_sess_set_send_override (sockfd : Z) (f : io_fn) hd := set_override (fun s => s <| send_fn := f |>) sockfd hd.
Definition httpd_sess_set_recv_override (sockfd : Z) (f : io_fn) hd := set_override (fun s => s <| recv_fn := f |>) sockfd hd.
Definition httpd_sess_set_pending_override (sockfd f : Z) hd := set_override (fun s => s <| pending_fn := f |>) sockfd hd.

(** ** Receiving *)

(** The pending data is at the end of its buffer. *)
Definition httpd_recv_pending (buf_len : Z) hd : outcome (list Z * httpd_data) :=
  '(i, s) ← req_sd hd;
  let offset := PARSER_BLOCK_SIZE - pending_len s in
  let n := Z.min (pending_len s) buf_len in
  let data := take (Z.to_nat n) (drop (Z.to_nat offset) (pending_data s)) in
  Ok (data, set_sd i (s <| pending_len := pending_len s - n |>) hd).

Definition httpd_recv_with_opt (buf_len : Z) (halt_after_pending : bool) hd : outcome (received * httpd_data) :=
  '(_, s) ← req_sd hd;
  '(pending, buf_len, halt, hd) ←
    (if 0 <? pending_len s then
       '(data, hd) ← httpd_recv_pending buf_len hd;
       let buf_len := buf_len - lenZ data in
       Ok (data, buf_len, (buf_len =? 0) || halt_after_pending, hd)
     else Ok ([], buf_len, false, hd));
  if (halt : bool) then Ok (RecvData pending, hd)
  else
    '(_, s) ← req_sd hd;
    '(r, hd) ← call_recv (recv_fn s) (fd s) buf_len hd;
    match r with
    | RecvErr code =>
        if (code =? HTTPD_SOCK_ERR_TIMEOUT) && negb (lenZ pending =? 0) then Ok (RecvData pending, hd) else Ok (RecvErr code, hd)
    | RecvData data => Ok (RecvData (pending ++ data), hd)
    end.

Definition httpd_recv (buf_len : Z) hd := httpd_recv_with_opt buf_len false hd.

Definition httpd_unrecv buf hd : outcome (Z * httpd_data) :=
  '(i, s) ← req_sd hd;
  let n := Z.min PARSER_BLOCK_SIZE (lenZ buf) in
  let offset := PARSER_BLOCK_SIZE - n in
  Ok (n, set_sd i (s <| pending_len := n |> <| pending_data := take (Z.to_nat offset) (pending_data s) ++ take (Z.to_nat n) buf |>) hd).

Definition httpd_req_recv (buf_len : Z) hd : outcome (received * httpd_data) :=
  let a := hd_req_aux hd in
  let buf_len := if remaining_len a <? buf_len then remaining_len a else buf_len in
  if buf_len =? 0 then Ok (RecvData [], hd)
  else
    '(r, hd) ← httpd_recv buf_len hd;
    match r with
    | RecvErr _ => Ok (r, hd)
    | RecvData data => Ok (r, set_aux ((hd_req_aux hd) <| remaining_len := remaining_len (hd_req_aux hd) - lenZ data |>) hd)
    end.

(** -1 is no descriptor. *)
Definition httpd_req_to_sockfd hd : outcome Z := '(_, s) ← req_sd hd; Ok (fd s).

(** ** Sending *)
Definition httpd_send buf hd : outcome (Z * httpd_data) :=
  '(_, s) ← req_sd hd;
  call_send (send_fn s) (fd s) buf hd.

Fixpoint send_all (n : nat) buf hd : outcome (Z * httpd_data) :=
  if lenZ buf =? 0 then Ok (ESP_OK, hd)
  else
    match n with
    | O => OutOfFuel
    | S n =>
        '(_, s) ← req_sd hd;
        '(ret, hd) ← call_send (send_fn s) (fd s) buf hd;
        if ret <? 0 then Ok (ESP_FAIL, hd)
        else if lenZ buf <? ret then Fault
        else send_all n (drop (Z.to_nat ret) buf) hd
    end.
Definition httpd_send_all buf hd := send_all fuel buf hd.

Definition httpd_resp_set_hdr (field value : list Z) hd : Z * httpd_data :=
  let a := hd_req_aux hd in
  if max_resp_headers (config hd) <=? lenZ (resp_hdrs a) then (ESP_ERR_HTTPD_RESP_HDR, hd)
  else (ESP_OK, set_aux (a <| resp_hdrs := resp_hdrs a ++ [(field, value)] |>) hd).
Definition httpd_resp_set_status (text : list Z) hd : Z * httpd_data := (ESP_OK, set_aux ((hd_req_aux hd) <| status := text |>) hd).
Definition httpd_resp_set_type (text : list Z) hd : Z * httpd_data := (ESP_OK, set_aux ((hd_req_aux hd) <| content_type := text |>) hd).

(** [snprintf] into the scratch buffer: the length of the text, which is cut. *)
Definition snprintf_scratch (text : list Z) hd : Z * httpd_data :=
  let w := take (Z.to_nat (scratch_size - 1)) text ++ [0] in
  let a := hd_req_aux hd in
  (lenZ text, set_aux (a <| scratch := w ++ drop (length w) (scratch a) |>) hd).

Definition CRLF := [13; 10].
Definition colon_separator := chars ": ".

(** Send, and go on or return [ESP_ERR_HTTPD_RESP_SEND]. *)
Definition send_then buf hd (k : httpd_data -> outcome (Z * httpd_data)) : outcome (Z * httpd_data) :=
  '(ret, hd) ← httpd_send_all buf hd;
  if ret =? ESP_OK then k hd else Ok (ESP_ERR_HTTPD_RESP_SEND, hd).

Fixpoint send_hdrs (hdrs : list (list Z * list Z)) hd (k : httpd_data -> outcome (Z * httpd_data)) : outcome (Z * httpd_data) :=
  match hdrs with
  | [] => k hd
  | (field, value) :: hdrs =>
      send_then field hd (fun hd =>
      send_then colon_separator hd (fun hd =>
      send_then value hd (fun hd =>
      send_then CRLF hd (fun hd => send_hdrs hdrs hd k))))
  end.

(** The essential headers from the scratch buffer, the additional headers, and the
    empty line. *)
Definition send_head (text : list Z) hd (k : httpd_data -> outcome (Z * httpd_data)) : outcome (Z * httpd_data) :=
  let '(len, hd) := snprintf_scratch text hd in
  if scratch_size <=? len then Ok (ESP_ERR_HTTPD_RESP_HDR, hd)
  else
    head ← c_str (scratch (hd_req_aux hd));
    send_then head hd (fun hd => send_hdrs (resp_hdrs (hd_req_aux hd)) hd (fun hd => send_then CRLF hd k)).

(** The bytes that a call with [buf] and [buf_len] sends; -1 is
    [HTTPD_RESP_USE_STRLEN]. *)
Definition resp_len (buf : option (list Z)) (buf_len : Z) : outcome Z :=
  if buf_len =? -1 then
    match buf with
    | Some b => s ← c_str b; Ok (lenZ s)
    | None => Fault
    end
  else Ok buf_len.
Definition buf_bytes buf (buf_len : Z) : outcome (list Z) :=
  if u32 buf_len <=? lenZ buf then Ok (take (Z.to_nat (u32 buf_len)) buf) else Fault.

Definition httpd_resp_send (buf : option (list Z)) (buf_len : Z) hd : outcome (Z * httpd_data) :=
  buf_len ← resp_len buf buf_len;
  let hd := set_aux ((hd_req_aux hd) <| req_hdrs_count := 0 |>) hd in
  let a := hd_req_aux hd in
  send_head (chars "HTTP/1.1 " ++ status a ++ CRLF ++ chars "Content-Type: " ++ content_type a ++ CRLF
             ++ chars "Content-Length: " ++ printf_d buf_len ++ CRLF) hd (fun hd =>
  match buf with
  | Some b =>
      if buf_len =? 0 then Ok (ESP_OK, hd)
      else data ← buf_bytes b buf_len; send_then data hd (fun hd => Ok (ESP_OK, hd))
  | None => Ok (ESP_OK, hd)
  end).

(** [len_str] has ten bytes. *)
Definition httpd_resp_send_chunk (buf : option (list Z)) (buf_len : Z) hd : outcome (Z * httpd_data) :=
  buf_len ← resp_len buf buf_len;
  let hd := set_aux ((hd_req_aux hd) <| req_hdrs_count := 0 |>) hd in
  let a := hd_req_aux hd in
  let chunk hd :=
    send_then (take 9 (printf_x buf_len ++ CRLF)) hd (fun hd =>
    let last hd := send_then CRLF hd (fun hd => Ok (ESP_OK, hd)) in
    match buf with
    | Some b => data ← buf_bytes b buf_len; send_then data hd last
    | None => last hd
    end) in
  if first_chunk_sent a then chunk hd
  else
    send_head (chars "HTTP/1.1 " ++ status a ++ CRLF ++ chars "Content-Type: " ++ content_type a ++ CRLF
               ++ chars "Transfer-Encoding: chunked" ++ CRLF) hd (fun hd =>
    chunk (set_aux ((hd_req_aux hd) <| first_chunk_sent := true |>) hd)).

(** ** Errors *)
Definition err_status (error : Z) : list Z * list Z :=
  if error =? HTTPD_501_METHOD_NOT_IMPLEMENTED then (chars "501 Method Not Implemented", chars "Request method is not supported by server")
  else if error =? HTTPD_505_VERSION_NOT_SUPPORTED then (chars "505 Version Not Supported", chars "HTTP version not supported by server")
  else if error =? HTTPD_400_BAD_REQUEST then (chars "400 Bad Request", chars "Server unable to understand request due to invalid syntax")
  else if error =? HTTPD_404_NOT_FOUND then (chars "404 Not Found", chars "This URI does not exist")
  else if error =? HTTPD_405_METHOD_NOT_ALLOWED then (chars "405 Method Not Allowed", chars "Request method for this URI is not handled by server")
  else if error =? HTTPD_408_REQ_TIMEOUT then (chars "408 Request Timeout", chars "Server closed this connection")
  else if error =? HTTPD_414_URI_TOO_LONG then (chars "414 URI Too Long", chars "URI is too long for server to interpret")
  else if error =? HTTPD_411_LENGTH_REQUIRED then (chars "411 Length Required", chars "Chunked encoding not supported by server")
  else if error =? HTTPD_431_REQ_HDR_FIELDS_TOO_LARGE then (chars "431 Request Header Fields Too Large", chars "Header fields are too long for server to interpret")
  else (chars "500 Internal Server Error", chars "Server has encountered an unexpected error").

Definition set_nodelay (v : Z) hd : outcome (Z * httpd_data) :=
  '(_, s) ← req_sd hd;
  let '(r, w) := net_set_nodelay (fd s) v (world hd) in Ok (r, set_world w hd).

Definition httpd_resp_send_err (error : Z) (usr_msg : option (list Z)) hd : outcome (Z * httpd_data) :=
  let '(text, msg) := err_status error in
  let msg := default msg usr_msg in
  let '(_, hd) := httpd_resp_set_status text hd in
  let '(_, hd) := httpd_resp_set_type (chars "text/html") hd in
  '(nodelay, hd) ← (if CONFIG_HTTPD_ERR_RESP_NO_DELAY then
                      '(r, hd) ← set_nodelay 1 hd; Ok (negb (r <? 0), hd)
                    else Ok (false, hd));
  '(ret, hd) ← httpd_resp_send (Some msg) (lenZ msg) hd;
  if (nodelay : bool) then
    '(r, hd) ← set_nodelay 0 hd;
    Ok (if r <? 0 then ESP_ERR_INVALID_STATE else ret, hd)
  else Ok (ret, hd).

Definition httpd_register_err_handler (error fn : Z) hd : Z * httpd_data :=
  if HTTPD_ERR_CODE_MAX <=? u32 error then (ESP_ERR_INVALID_ARG, hd)
  else (ESP_OK, hd <| err_handler_fns := <[Z.to_nat (u32 error) := fn]> (err_handler_fns hd) |>).

Definition httpd_req_handle_err (error : Z) hd : outcome (Z * httpd_data) :=
  if negb (handle (hd_req hd)) then Fault
  else
    match err_handler_fns hd !! Z.to_nat error with
    | None => Fault
    | Some fn =>
        if fn =? 0 then '(_, hd) ← httpd_resp_send_err error None hd; Ok (ESP_FAIL, hd)
        else
          '(ret, hd) ← app_err_handler fn error hd;
          Ok (if error =? HTTPD_500_INTERNAL_SERVER_ERROR then ESP_FAIL else ret, hd)
    end.
End txrx.
