(* ===== verification/HttpdUri.v ===== *)
(** * HTTP server: handlers of URIs ([httpd_uri.c])

    The table of handlers, the matching of URIs, and the dispatch of a request.  A
    string that a pointer into a longer string denotes is the rest of that string. *)
From S2P Require Import Prelude EspFlash CString Httpd HttpdTxrx.

(** ** Matching *)
Definition httpd_uri_match_simple (uri1 uri2 : list Z) (len2 : Z) : bool :=
  (lenZ uri1 =? len2) && (strncmp uri1 uri2 (Z.to_nat len2) =? 0).

(** A character of a string at an index up to the terminating zero. *)
Definition char_at (s : list Z) (i : Z) : Z := default 0 (s !! Z.to_nat i).

Definition httpd_uri_match_wildcard (template uri : list Z) (len : Z) : bool :=
  let tpl_len := lenZ template in
  let exact_match_chars := tpl_len in
  let last := if 0 <? tpl_len then char_at template (tpl_len - 1) else 0 in
  let prevlast := if 1 <? tpl_len then char_at template (tpl_len - 2) else 0 in
  let asterisk := (last =? 42) || ((prevlast =? 42) && (last =? 63)) in
  let quest := (last =? 63) || ((prevlast =? 63) && (last =? 42)) in
  let special := Z.b2z asterisk + Z.b2z quest * 2 in
  if exact_match_chars <? special then false
  else
    let exact_match_chars := exact_match_chars - special in
    if len <? exact_match_chars then false
    else if negb quest then
      if negb asterisk && negb (len =? exact_match_chars) then false
      else strncmp template uri (Z.to_nat exact_match_chars) =? 0
    else if (exact_match_chars <? len) && negb (char_at template exact_match_chars =? char_at uri exact_match_chars) then false
    else if negb (strncmp template uri (Z.to_nat exact_match_chars) =? 0) then false
    else asterisk || (len <=? exact_match_chars + 1).

Section uri.
Context `{HttpdConfig} `{HttpdEnv} (fuel : nat).
Implicit Types (hd : httpd_data) (calls : list call_ptr) (h : httpd_uri_t).

(** [uri_match_fn] is [NULL], [httpd_uri_match_wildcard], or a function of the
    application. *)
Definition wildcard_fn := 1.
Definition uri_match hd (template uri : list Z) (len : Z) : bool :=
  let f := uri_match_fn (config hd) in
  if f =? 0 then httpd_uri_match_simple template uri len
  else if f =? wildcard_fn then httpd_uri_match_wildcard template uri len
  else app_uri_match f template uri len.

(** ** The table *)

(** The loop over the entries; [err] is what it points to. *)
Fixpoint find_call (m : list Z -> bool) (meth : Z) calls (err : Z) : outcome (option httpd_uri_t * Z) :=
  match calls with
  | [] => Ok (None, err)
  | NoCall :: _ => Ok (None, err)
  | FreedCall :: _ => Fault
  | Call h :: calls =>
      if m (uri h) then
        if method h =? meth then Ok (Some h, 0)
        else find_call m meth calls HTTPD_405_METHOD_NOT_ALLOWED
      else find_call m meth calls err
  end.
Definition httpd_find_uri_handler (u : list Z) (uri_len meth : Z) hd : outcome (option httpd_uri_t * Z) :=
  find_call (fun template => uri_match hd template u uri_len) meth
    (take (Z.to_nat (max_uri_handlers (config hd))) (hd_calls hd)) HTTPD_404_NOT_FOUND.

(** The first [NULL] from [i] on gets the copy of the handler; [alloc] and [dup] say
    whether there is memory for it and for its string.  The log reads the others. *)
Fixpoint install (alloc dup : bool) (h : httpd_uri_t) calls : outcome (Z * list call_ptr) :=
  match calls with
  | [] => Ok (ESP_ERR_HTTPD_HANDLERS_FULL, [])
  | NoCall :: calls =>
      if negb alloc then Ok (ESP_ERR_HTTPD_ALLOC_MEM, NoCall :: calls)
      else if negb dup then Ok (ESP_ERR_HTTPD_ALLOC_MEM, FreedCall :: calls)
      else Ok (ESP_OK, Call h :: calls)
  | c :: calls => '(err, calls) ← install alloc dup h calls; Ok (err, c :: calls)
  end.
Definition httpd_register_uri_handler (alloc dup : bool) (uri_handler : option httpd_uri_t) hd : outcome (Z * httpd_data) :=
  match uri_handler with
  | None => Ok (ESP_ERR_INVALID_ARG, hd)
  | Some h =>
      '(found, _) ← httpd_find_uri_handler (uri h) (lenZ (uri h)) (method h) hd;
      match found with
      | Some _ => Ok (ESP_ERR_HTTPD_HANDLER_EXISTS, hd)
      | None =>
          let n := Z.to_nat (max_uri_handlers (config hd)) in
          '(err, calls) ← install alloc dup h (take n (hd_calls hd));
          Ok (err, hd <| hd_calls := calls ++ drop n (hd_calls hd) |>)
      end
  end.

(** The entries behind a removed one move forward, up to the first [NULL]; the place
    of the last is nullified. *)
Fixpoint shift_calls calls : list call_ptr :=
  match calls with
  | [] => [NoCall]
  | NoCall :: calls => NoCall :: NoCall :: calls
  | c :: calls => c :: shift_calls calls
  end.
Fixpoint remove_call (u : list Z) (meth : Z) calls : outcome (Z * list call_ptr) :=
  match calls with
  | [] => Ok (ESP_ERR_NOT_FOUND, [])
  | NoCall :: calls => Ok (ESP_ERR_NOT_FOUND, NoCall :: calls)
  | FreedCall :: _ => Fault
  | Call h :: calls =>
      if (method h =? meth) && (strcmp (uri h) u =? 0) then Ok (ESP_OK, shift_calls calls)
      else '(err, calls) ← remove_call u meth calls; Ok (err, Call h :: calls)
  end.
Definition httpd_unregister_uri_handler (u : option (list Z)) (meth : Z) hd : outcome (Z * httpd_data) :=
  match u with
  | None => Ok (ESP_ERR_INVALID_ARG, hd)
  | Some u =>
      let n := Z.to_nat (max_uri_handlers (config hd)) in
      '(err, calls) ← remove_call u meth (take n (hd_calls hd));
      Ok (err, hd <| hd_calls := calls ++ drop n (hd_calls hd) |>)
  end.

(** [calls] from the place [i] on, of a table [tbl]; [j] entries were removed. The
    places from [i - j] to [i] are nullified in the end. *)
Definition nullify (i j : nat) (tbl : list call_ptr) : list call_ptr :=
  foldl (fun tbl k => <[k := NoCall]> tbl) tbl (seq (i - j) j).
Fixpoint remove_uri (u : list Z) calls (i j : nat) (tbl : list call_ptr) : outcome (bool * list call_ptr) :=
  match calls with
  | [] => Ok (negb (Nat.eqb j 0), nullify i j tbl)
  | NoCall :: _ => Ok (negb (Nat.eqb j 0), nullify i j tbl)
  | FreedCall :: _ => Fault
  | Call h :: calls =>
      if strcmp (uri h) u =? 0 then remove_uri u calls (S i) (S j) (<[i := NoCall]> tbl)
      else remove_uri u calls (S i) j (<[(i - j)%nat := Call h]> tbl)
  end.
Definition httpd_unregister_uri (u : option (list Z)) hd : outcome (Z * httpd_data) :=
  match u with
  | None => Ok (ESP_ERR_INVALID_ARG, hd)
  | Some u =>
      '(found, calls) ← remove_uri u (take (Z.to_nat (max_uri_handlers (config hd))) (hd_calls hd)) 0 0 (hd_calls hd);
      Ok (if (found : bool) then ESP_OK else ESP_ERR_NOT_FOUND, hd <| hd_calls := calls |>)
  end.

Fixpoint remove_all calls : outcome (list call_ptr) :=
  match calls with
  | [] => Ok []
  | NoCall :: calls => Ok (NoCall :: calls)
  | FreedCall :: _ => Fault
  | Call _ :: calls => calls ← remove_all calls; Ok (NoCall :: calls)
  end.
Definition httpd_unregister_all_uri_handlers hd : outcome httpd_data :=
  let n := Z.to_nat (max_uri_handlers (config hd)) in
  calls ← remove_all (take n (hd_calls hd));
  Ok (hd <| hd_calls := calls ++ drop n (hd_calls hd) |>).

(** ** Dispatch *)
Definition url_field (f : Z) hd : option (Z * Z) :=
  let res := url_parse_res (hd_req_aux hd) in
  if Z.testbit (field_set res) f then field_data res !! Z.to_nat f else None.

Definition httpd_uri hd : outcome (Z * httpd_data) :=
  '(found, err) ←
    (match url_field UF_PATH hd with
     | Some (off, len) => httpd_find_uri_handler (drop (Z.to_nat off) (req_uri (hd_req hd))) len (req_method (hd_req hd)) hd
     | None => Ok (None, 0)
     end);
  match found with
  | None =>
      if err =? HTTPD_404_NOT_FOUND then httpd_req_handle_err fuel HTTPD_404_NOT_FOUND hd
      else if err =? HTTPD_405_METHOD_NOT_ALLOWED then httpd_req_handle_err fuel HTTPD_405_METHOD_NOT_ALLOWED hd
      else Ok (ESP_FAIL, hd)
  | Some h =>
      '(ret, hd) ← app_handler (handler h) (set_req ((hd_req hd) <| req_user_ctx := user_ctx h |>) hd);
      Ok (if ret =? ESP_OK then ESP_OK else ESP_FAIL, hd)
  end.
End uri.
