(* ===== verification/HttpdUriProofs.v ===== *)
(** * HTTP server: what the table of URI handlers does

    The templates that a request matches, and every history of registrations and
    requests against the list of the handlers. *)
From S2P Require Import Prelude EspFlash CString Httpd HttpdTxrx HttpdUri.

(** ** Templates

    What [esp_http_server.h] says of them: a plain one matches itself; a star at the
    end stands for any characters; a question mark makes the character before it
    optional, and with a star, in either order, anything may follow that character. *)
Inductive template := Plain (t : list Z) | Star (p : list Z) | Optional (p : list Z) (c : Z) | OptionalStar (p : list Z) (c : Z) (star_last : bool).

Definition written (k : template) : list Z :=
  match k with
  | Plain t => t
  | Star p => p ++ [42]
  | Optional p c => p ++ [c; 63]
  | OptionalStar p c star_last => p ++ c :: (if star_last then [63; 42] else [42; 63])
  end.
Definition unambiguous (k : template) : Prop :=
  match k with
  | Plain t => last t <> Some 42 /\ last t <> Some 63
  | Star p => last p <> Some 63
  | Optional p c => c <> 42
  | OptionalStar _ _ _ => True
  end.
Definition stands_for (k : template) (u : list Z) : Prop :=
  match k with
  | Plain t => u = t
  | Star p => p `prefix_of` u
  | Optional p c => u = p \/ u = p ++ [c]
  | OptionalStar p c _ => u = p \/ p ++ [c] `prefix_of` u
  end.
(** There is no character before the question mark. *)
Definition meaningless : list (list Z) := [[63]; [63; 42]; [42; 63]].

Section templates.
Implicit Types (p s t u uri : list Z).

(** The comparison of the mandatory part. *)
Lemma match_prefix p s uri len : 0 <= len <= lenZ uri -> lenZ p <= len ->
  strncmp (p ++ s) uri (Z.to_nat (lenZ p)) = 0 <-> p `prefix_of` take (Z.to_nat len) uri.
Proof.
  unfold lenZ. intros Hl Hp. rewrite Nat2Z.id, strncmp_take by (rewrite ?length_app; lia).
  rewrite take_app_length. split.
  - intros E. rewrite E. exists (drop (length p) (take (Z.to_nat len) uri)).
    replace (take (length p) uri) with (take (length p) (take (Z.to_nat len) uri)) by (rewrite take_take; f_equal; lia).
    by rewrite take_drop.
  - intros [w E]. replace (take (length p) uri) with (take (length p) (take (Z.to_nat len) uri)) by (rewrite take_take; f_equal; lia).
    by rewrite E, take_app_length.
Qed.
Lemma match_short p uri len : 0 <= len <= lenZ uri -> len < lenZ p -> ~ p `prefix_of` take (Z.to_nat len) uri.
Proof. unfold lenZ. intros ? ? [w E]. apply (f_equal length) in E. rewrite length_app, length_take in E. lia. Qed.

Lemma char_at_app p c s : char_at (p ++ c :: s) (lenZ p) = c.
Proof. unfold char_at, lenZ. by rewrite Nat2Z.id, list_lookup_middle. Qed.

(** The branch without a question mark. *)
Lemma star_branch p s uri len : 0 <= len <= lenZ uri ->
  (if len <? lenZ p then false else strncmp (p ++ s) uri (Z.to_nat (lenZ p)) =? 0) = true <-> p `prefix_of` take (Z.to_nat len) uri.
Proof.
  intros Hl. destruct (Z.ltb_spec len (lenZ p)); [split; [done|intros []%match_short; done]|].
  rewrite Z.eqb_eq. by apply match_prefix.
Qed.
(** The branch with one, which makes [c] optional. *)
Lemma quest_branch p c s uri len (ast : bool) : 0 <= len <= lenZ uri ->
  (if len <? lenZ p then false
   else if (lenZ p <? len) && negb (char_at (p ++ c :: s) (lenZ p) =? char_at uri (lenZ p)) then false
   else if negb (strncmp (p ++ c :: s) uri (Z.to_nat (lenZ p)) =? 0) then false
   else ast || (len <=? lenZ p + 1)) = true <->
  take (Z.to_nat len) uri = p \/ exists w, take (Z.to_nat len) uri = p ++ c :: w /\ (ast = true \/ w = []).
Proof.
  intros Hl. pose proof (lenZ_nonneg p) as Hp0. rewrite char_at_app. assert (Hu : lenZ (take (Z.to_nat len) uri) = len) by (unfold lenZ in *; rewrite length_take; lia).
  destruct (Z.ltb_spec len (lenZ p)) as [Hp|Hp].
  { split; [done|]. intros [E|(w & E & _)]; rewrite E in Hu; [lia|]. rewrite lenZ_app in Hu. pose proof (lenZ_nonneg (c :: w)). lia. }
  pose proof (match_prefix p (c :: s) uri len Hl Hp) as M.
  destruct (Z.eqb_spec (strncmp (p ++ c :: s) uri (Z.to_nat (lenZ p))) 0) as [E|E]; cycle 1.
  { cbn [negb]. split; [by destruct (_ && _)|]. intros Hw. exfalso. apply E, M. destruct Hw as [->|(w & -> & _)]; [done|]. by eexists. }
  apply M in E as [w E]. clear M. cbn [negb].
  destruct (Z.ltb_spec (lenZ p) len) as [Hlt|Hge]; cbn [andb]; cycle 1.
  { rewrite (proj2 (Z.leb_le _ _)), orb_true_r by lia. split; [|done]. intros _. left. rewrite E in Hu |- *. rewrite lenZ_app in Hu.
    destruct w; [by rewrite app_nil_r|]. rewrite lenZ_cons in Hu. pose proof (lenZ_nonneg w). lia. }
  assert (exists d w', w = d :: w') as (d & w' & ->).
  { destruct w as [|d w']; [|eauto]. rewrite E, app_nil_r in Hu. lia. }
  assert (Ec : char_at uri (lenZ p) = d).
  { rewrite <- (take_drop (Z.to_nat len) uri), E, <- app_assoc. simpl. apply char_at_app. }
  rewrite Ec. destruct (Z.eqb_spec c d) as [->|Hd]; cbn [negb].
  - rewrite E. rewrite E, lenZ_app, lenZ_cons in Hu. rewrite orb_true_iff, Z.leb_le. split.
    + intros Hw. right. exists w'. split; [done|]. destruct Hw as [->|?]; [by left|]. right.
      destruct w'; [done|]. rewrite lenZ_cons in Hu. pose proof (lenZ_nonneg w'). lia.
    + intros [Hw|(w & Hw & Ha)]; [apply (f_equal length) in Hw; rewrite length_app in Hw; simpl in Hw; lia|].
      apply app_inj_1 in Hw as [_ Hw]; [|done]. injection Hw as ->. destruct Ha as [Ha|Ha]; [by left|]; subst w. right. unfold lenZ in *. simpl in *. lia.
  - split; [done|]. rewrite E. intros [Hw|(w & Hw & Ha)].
    + apply (f_equal length) in Hw; rewrite length_app in Hw; simpl in Hw; lia.
    + apply app_inj_1 in Hw as [_ Hw]; [|done]. congruence.
Qed.

(** Every template is of one kind. *)
Lemma template_kinds t : t ∈ meaningless \/ exists k, unambiguous k /\ written k = t.
Proof.
  destruct t as [|b r _] using rev_ind; [right; by exists (Plain [])|].
  destruct (decide (b = 63)) as [->|Hb]; [|destruct (decide (b = 42)) as [->|Hb2]].
  - destruct r as [|a r _] using rev_ind; [left; simpl; unfold meaningless; in_list|]. rewrite <- app_assoc. simpl.
    destruct (decide (a = 42)) as [->|Ha]; [|right; by exists (Optional r a)].
    destruct r as [|c r _] using rev_ind; [left; simpl; unfold meaningless; in_list|]. right. exists (OptionalStar r c false). split; [done|]. by rewrite <- app_assoc.
  - destruct (decide (last r = Some 63)) as [Hr|Hr]; [|right; by exists (Star r)].
    apply last_Some in Hr as [r' ->]. rewrite <- app_assoc. simpl.
    destruct r' as [|c r' _] using rev_ind; [left; simpl; unfold meaningless; in_list|]. right. exists (OptionalStar r' c true). split; [done|]. by rewrite <- app_assoc.
  - right. exists (Plain (r ++ [b])). split; [|done]. simpl. rewrite last_snoc. split; congruence.
Qed.

(** The last two characters, as the code reads them. *)
Lemma last_char t : (if 0 <? lenZ t then char_at t (lenZ t - 1) else 0) = default 0 (last t).
Proof.
  destruct t as [|b r _] using rev_ind; [done|]. rewrite last_snoc, lenZ_app, (proj2 (Z.ltb_lt _ _)) by (pose proof (lenZ_nonneg r); unfold lenZ at 2; simpl; lia).
  replace (lenZ r + lenZ [b] - 1) with (lenZ r) by (unfold lenZ at 3; simpl; lia). apply char_at_app.
Qed.
Lemma prevlast_char t b : (if 1 <? lenZ (t ++ [b]) then char_at (t ++ [b]) (lenZ (t ++ [b]) - 2) else 0) = default 0 (last t).
Proof.
  rewrite lenZ_app. replace (lenZ [b]) with 1 by done. destruct t as [|a r _] using rev_ind; [done|].
  rewrite last_snoc, lenZ_app. replace (lenZ [a]) with 1 by done. pose proof (lenZ_nonneg r). rewrite (proj2 (Z.ltb_lt _ _)) by lia.
  replace (lenZ r + 1 + 1 - 2) with (lenZ r) by lia. rewrite <- app_assoc. apply char_at_app.
Qed.

Lemma snoc2 p (a b : Z) : p ++ [a; b] = (p ++ [a]) ++ [b].
Proof. by rewrite <- app_assoc. Qed.
Lemma snoc3 p (a b c : Z) : p ++ [a; b; c] = ((p ++ [a]) ++ [b]) ++ [c].
Proof. by rewrite <- !app_assoc. Qed.

Lemma wildcard_snoc r b uri len : httpd_uri_match_wildcard (r ++ [b]) uri len =
  let a := default 0 (last r) in
  let asterisk := (b =? 42) || ((a =? 42) && (b =? 63)) in
  let quest := (b =? 63) || ((a =? 63) && (b =? 42)) in
  let n := lenZ r + 1 - (Z.b2z asterisk + Z.b2z quest * 2) in
  if n <? 0 then false
  else if len <? n then false
  else if negb quest then
    if negb asterisk && negb (len =? n) then false else strncmp (r ++ [b]) uri (Z.to_nat n) =? 0
  else if (n <? len) && negb (char_at (r ++ [b]) n =? char_at uri n) then false
  else if negb (strncmp (r ++ [b]) uri (Z.to_nat n) =? 0) then false
  else asterisk || (len <=? n + 1).
Proof.
  unfold httpd_uri_match_wildcard. rewrite last_char, prevlast_char, last_snoc, lenZ_app. replace (lenZ [b]) with 1 by done. simpl default.
  set (ast := (b =? 42) || _). set (q := (b =? 63) || _). cbv zeta.
  replace (lenZ r + 1 <? Z.b2z ast + Z.b2z q * 2) with (lenZ r + 1 - (Z.b2z ast + Z.b2z q * 2) <? 0); [done|].
  apply eq_true_iff_eq. rewrite !Z.ltb_lt. lia.
Qed.

Lemma wildcard_meaningless t uri len : t ∈ meaningless -> httpd_uri_match_wildcard t uri len = false.
Proof. unfold meaningless. rewrite !elem_of_cons. intros [->|[->|[->|[]%elem_of_nil]]]; reflexivity. Qed.

Lemma wildcard_kind k uri len : unambiguous k -> 0 <= len <= lenZ uri ->
  httpd_uri_match_wildcard (written k) uri len = true <-> stands_for k (take (Z.to_nat len) uri).
Proof.
  intros Hk Hl. destruct k as [t|p|p c|p c sl]; cbn [written unambiguous stands_for] in *.
  - destruct t as [|b r _] using rev_ind.
    + unfold httpd_uri_match_wildcard. change (lenZ []) with 0. cbv zeta. simpl. change (0 - (0 + 0 * 2)) with 0.
      destruct (Z.ltb_spec len 0); [lia|]. destruct (Z.eqb_spec len 0) as [->|]; [split; reflexivity|]. split; [done|].
      intros E%(f_equal length). rewrite length_take in E. unfold lenZ in *. simpl in E. lia.
    + rewrite last_snoc in Hk. rewrite wildcard_snoc. cbv zeta. rewrite (proj2 (Z.eqb_neq b 42)), (proj2 (Z.eqb_neq b 63)), !andb_false_r by naive_solver. simpl.
      rewrite Z.sub_0_r. pose proof (lenZ_nonneg r). destruct (Z.ltb_spec (lenZ r + 1) 0); [lia|].
      pose proof (star_branch (r ++ [b]) [] uri len Hl) as S. rewrite lenZ_app, app_nil_r in S. change (lenZ [b]) with 1 in S.
      destruct (Z.eqb_spec len (lenZ r + 1)) as [Hn|Hn]; cbn [negb].
      * rewrite S. split; [|by intros ->]. intros [w E]. rewrite E.
        apply (f_equal length) in E as El. rewrite length_take, !length_app in El. unfold lenZ in *. simpl in El.
        destruct w; [by rewrite app_nil_r|simpl in El; lia].
      * replace (if len <? lenZ r + 1 then false else false) with false by (by case_match). split; [done|].
        intros E%(f_equal length). rewrite length_take, length_app in E. unfold lenZ in *. simpl in E. lia.
  - rewrite wildcard_snoc. cbv zeta. assert (E : (default 0 (last p) =? 63) = false).
    { apply Z.eqb_neq. intros E. apply Hk. destruct (last p); simplify_eq/=; congruence. }
    rewrite E, !andb_false_r. cbn -[Z.sub Z.add Z.mul]. pose proof (lenZ_nonneg p). replace (lenZ p + 1 - (1 + 0 * 2)) with (lenZ p) by lia.
    destruct (Z.ltb_spec (lenZ p) 0); [lia|]. by apply star_branch.
  - rewrite snoc2, wildcard_snoc. cbv zeta. rewrite last_snoc. simpl default. rewrite (proj2 (Z.eqb_neq c 42)), andb_false_r by done. cbn -[Z.sub Z.add Z.mul].
    rewrite lenZ_app. change (lenZ [c]) with 1. pose proof (lenZ_nonneg p). replace (lenZ p + 1 + 1 - (0 + 1 * 2)) with (lenZ p) by lia.
    destruct (Z.ltb_spec (lenZ p) 0); [lia|]. rewrite <- app_assoc. pose proof (quest_branch p c [63] uri len false Hl) as Q. simpl orb in Q. rewrite Q.
    split; [intros [?|(w & ? & [?| ->])]; [by left|done|by right]|]. intros [?|?]; [by left|]. right. exists []. auto.
  - assert (E : httpd_uri_match_wildcard (p ++ c :: (if sl then [63; 42] else [42; 63])) uri len =
      if len <? lenZ p then false
      else if (lenZ p <? len) && negb (char_at (p ++ c :: (if sl then [63; 42] else [42; 63])) (lenZ p) =? char_at uri (lenZ p)) then false
      else if negb (strncmp (p ++ c :: (if sl then [63; 42] else [42; 63])) uri (Z.to_nat (lenZ p)) =? 0) then false
      else true || (len <=? lenZ p + 1)).
    { pose proof (lenZ_nonneg p). destruct sl.
      all: rewrite snoc3, wildcard_snoc; cbv zeta; rewrite last_snoc; cbn -[Z.sub Z.add Z.mul]; rewrite !lenZ_app.
      all: change (lenZ [c]) with 1; replace (lenZ p + 1 + _ + 1 - _) with (lenZ p) by (unfold lenZ; simpl; lia).
      all: destruct (Z.ltb_spec (lenZ p) 0); [lia|]; by rewrite <- !app_assoc. }
    rewrite E, quest_branch by done. split.
    + intros [?|(w & -> & _)]; [by left|]. right. exists w. by rewrite <- app_assoc.
    + intros [?|[w ->]]; [by left|]. right. exists w. split; [by rewrite <- app_assoc|by left].
Qed.

(** C32. A URI template matches exactly what its description says: a star at the end
    stands for any characters, a question mark makes the character before it
    optional, both in either order allow anything behind that character, and these
    characters stand for themselves elsewhere; only templates with a question mark
    and nothing before it match nothing.  What lies behind the [len] characters of
    the URI (its query) does not count. *)
Theorem wildcard_exact t uri len : 0 <= len <= lenZ uri ->
  (t ∈ meaningless /\ httpd_uri_match_wildcard t uri len = false) \/
  exists k, unambiguous k /\ written k = t /\
    (httpd_uri_match_wildcard t uri len = true <-> stands_for k (take (Z.to_nat len) uri)).
Proof.
  intros Hl. destruct (template_kinds t) as [Hm|(k & Hk & <-)]; [left; split; [done|by apply wildcard_meaningless]|].
  right. exists k. split; [done|]. split; [done|]. by apply wildcard_kind.
Qed.
End templates.
