(* ===== verification/HttpdUriHistory.v ===== *)
(** * HTTP server: every history of registrations

    The table of handlers against the list of the registered ones, and what becomes
    of a request. *)
From S2P Require Import Prelude EspFlash CString Httpd HttpdTxrx HttpdUri.

Section history.
Context `{HttpdConfig} `{HttpdEnv}.
Implicit Types (hd : httpd_data) (hs : list httpd_uri_t) (h : httpd_uri_t).

(** ** The list of handlers *)

(** The first handler that matches with the method; otherwise whether any matches. *)
Definition route (m : list Z -> bool) (meth : Z) hs : option httpd_uri_t * Z :=
  match find (fun h => m (uri h) && (method h =? meth)) hs with
  | Some h => (Some h, 0)
  | None => (None, if existsb (fun h => m (uri h)) hs then HTTPD_405_METHOD_NOT_ALLOWED else HTTPD_404_NOT_FOUND)
  end.

Fixpoint without_first (p : httpd_uri_t -> bool) hs : list httpd_uri_t :=
  match hs with
  | [] => []
  | h :: hs => if p h then hs else h :: without_first p hs
  end.

Inductive uri_call :=
  | URegister (alloc dup : bool) (h : httpd_uri_t)
  | UUnregister (u : list Z) (meth : Z)
  | UUnregisterUri (u : list Z)
  | UUnregisterAll
  | UFind (u : list Z) (len meth : Z).
Inductive uri_answer := UErr (err : Z) | UFound (h : option httpd_uri_t) (err : Z).

(** The answers of the server [hd], whose handlers are [hs], and its new handlers. *)
Definition uri_spec hd (c : uri_call) hs : uri_answer * list httpd_uri_t :=
  match c with
  | URegister alloc dup h =>
      if existsb (fun h' => uri_match hd (uri h') (uri h) (lenZ (uri h)) && (method h' =? method h)) hs
      then (UErr ESP_ERR_HTTPD_HANDLER_EXISTS, hs)
      else if max_uri_handlers (config hd) <=? lenZ hs then (UErr ESP_ERR_HTTPD_HANDLERS_FULL, hs)
      else if alloc && dup then (UErr ESP_OK, hs ++ [h]) else (UErr ESP_ERR_HTTPD_ALLOC_MEM, hs)
  | UUnregister u meth =>
      let p h := (method h =? meth) && bool_decide (uri h = u) in
      (UErr (if existsb p hs then ESP_OK else ESP_ERR_NOT_FOUND), without_first p hs)
  | UUnregisterUri u =>
      (UErr (if existsb (fun h => bool_decide (uri h = u)) hs then ESP_OK else ESP_ERR_NOT_FOUND), filter (fun h => uri h <> u) hs)
  | UUnregisterAll => (UErr ESP_OK, [])
  | UFind u len meth => let '(h, err) := route (fun t => uri_match hd t u len) meth hs in (UFound h err, hs)
  end.

Definition uri_run (c : uri_call) hd : outcome (uri_answer * httpd_data) :=
  match c with
  | URegister alloc dup h => '(err, hd) ← httpd_register_uri_handler alloc dup (Some h) hd; Ok (UErr err, hd)
  | UUnregister u meth => '(err, hd) ← httpd_unregister_uri_handler (Some u) meth hd; Ok (UErr err, hd)
  | UUnregisterUri u => '(err, hd) ← httpd_unregister_uri (Some u) hd; Ok (UErr err, hd)
  | UUnregisterAll => hd ← httpd_unregister_all_uri_handlers hd; Ok (UErr ESP_OK, hd)
  | UFind u len meth => '(h, err) ← httpd_find_uri_handler u len meth hd; Ok (UFound h err, hd)
  end.

Fixpoint uri_runs (cs : list uri_call) hd : outcome (list uri_answer * httpd_data) :=
  match cs with
  | [] => Ok ([], hd)
  | c :: cs => '(a, hd) ← uri_run c hd; '(l, hd) ← uri_runs cs hd; Ok (a :: l, hd)
  end.
Fixpoint uri_specs hd (cs : list uri_call) hs : list uri_answer * list httpd_uri_t :=
  match cs with
  | [] => ([], hs)
  | c :: cs => let '(a, hs) := uri_spec hd c hs in let '(l, hs) := uri_specs hd cs hs in (a :: l, hs)
  end.

(** ** The table represents the list *)
Definition capacity hd : nat := Z.to_nat (max_uri_handlers (config hd)).
Definition table (n : nat) hs : list call_ptr := map Call hs ++ repeat NoCall (n - length hs).
Record Rep hd hs : Prop := {
  rep_calls : hd_calls hd = table (capacity hd) hs;
  rep_room : (length hs <= capacity hd)%nat;
  rep_strings : Forall (fun h => is_string (uri h)) hs
}.

Lemma find_call_table m meth hs n err : find_call m meth (table n hs) err =
  Ok (match find (fun h => m (uri h) && (method h =? meth)) hs with
      | Some h => (Some h, 0)
      | None => (None, if existsb (fun h => m (uri h)) hs then HTTPD_405_METHOD_NOT_ALLOWED else err)
      end).
Proof.
  unfold table. generalize (n - length hs)%nat as k. intros k. revert err. induction hs as [|h hs IH]; intros err; [by destruct k|].
  simpl. destruct (m (uri h)) eqn:E; simpl; [|apply IH]. destruct (method h =? meth); [done|]. rewrite IH. destruct (find _ hs); [done|]. by destruct (existsb _ hs).
Qed.

Lemma install_table h hs k : install true true h (map Call hs ++ repeat NoCall k) =
  Ok (if (k =? 0)%nat then (ESP_ERR_HTTPD_HANDLERS_FULL, map Call hs) else (ESP_OK, map Call (hs ++ [h]) ++ repeat NoCall (k - 1))).
Proof.
  induction hs as [|g hs IH]; [destruct k; simpl; by rewrite ?Nat.sub_0_r|]. simpl. rewrite IH. by destruct k.
Qed.
Lemma install_no_mem h hs k dup : install false dup h (map Call hs ++ repeat NoCall k) =
  Ok (if (k =? 0)%nat then ESP_ERR_HTTPD_HANDLERS_FULL else ESP_ERR_HTTPD_ALLOC_MEM, map Call hs ++ repeat NoCall k).
Proof. induction hs as [|g hs IH]; [by destruct k|]. simpl. rewrite IH. by destruct k. Qed.

Lemma shift_table hs k : shift_calls (map Call hs ++ repeat NoCall k) = map Call hs ++ repeat NoCall (S k).
Proof. induction hs as [|g hs IH]; [by destruct k|]. simpl. by rewrite IH. Qed.

Lemma remove_call_table u meth hs k : is_string u -> Forall (fun h => is_string (uri h)) hs ->
  let p h := (method h =? meth) && bool_decide (uri h = u) in
  remove_call u meth (map Call hs ++ repeat NoCall k) =
  Ok (if existsb p hs then (ESP_OK, map Call (without_first p hs) ++ repeat NoCall (S k)) else (ESP_ERR_NOT_FOUND, map Call hs ++ repeat NoCall k)).
Proof.
  intros Hu Hs p. induction Hs as [|h hs Hh _ IH]; [by destruct k|]. cbn [map app remove_call existsb without_first].
  replace (strcmp (uri h) u =? 0) with (bool_decide (uri h = u)).
  2:{ apply eq_true_iff_eq. by rewrite bool_decide_eq_true, Z.eqb_eq, strcmp_eq. }
  fold (p h). destruct (p h); simpl orb; cbv iota; [by rewrite shift_table|]. rewrite IH. by destruct (existsb p hs).
Qed.

Lemma remove_all_table hs k : remove_all (map Call hs ++ repeat NoCall k) = Ok (repeat NoCall (length hs + k)).
Proof. induction hs as [|g hs IH]; [by destruct k|]. simpl. by rewrite IH. Qed.

(** The places from [length kept] on, [j] of them, are nullified. *)
Lemma nullify_junk (kept junk rest : list call_ptr) :
  nullify (length kept + length junk) (length junk) (kept ++ junk ++ rest) = kept ++ repeat NoCall (length junk) ++ rest.
Proof.
  unfold nullify. replace (length kept + length junk - length junk)%nat with (length kept) by lia.
  revert kept. induction junk as [|x junk IH]; intros kept; [done|]. cbn [length seq foldl app repeat].
  rewrite insert_app_r_alt, Nat.sub_diag by lia. simpl. specialize (IH (kept ++ [NoCall])). rewrite length_app in IH. simpl in IH.
  rewrite Nat.add_1_r, <- !app_assoc in IH. exact IH.
Qed.
Lemma remove_uri_table u rest k : is_string u -> Forall (fun h => is_string (uri h)) rest -> forall (kept junk : list call_ptr),
  let keep := filter (fun h => uri h <> u) rest in
  let j := (length junk + (length rest - length keep))%nat in
  remove_uri u (map Call rest ++ repeat NoCall k) (length kept + length junk) (length junk) (kept ++ junk ++ map Call rest ++ repeat NoCall k) =
  Ok (negb (j =? 0)%nat, kept ++ map Call keep ++ repeat NoCall j ++ repeat NoCall k).
Proof.
  intros Hu Hs. induction Hs as [|h rest Hh _ IH]; intros kept junk keep j.
  - subst keep j. cbn [filter list_filter]. rewrite Nat.add_0_r. cbn [map app]. rewrite <- (nullify_junk kept junk (repeat NoCall k)). by destruct k.
  - cbn [map app remove_uri].
    assert (E : (strcmp (uri h) u =? 0) = bool_decide (uri h = u)).
    { apply eq_true_iff_eq. by rewrite bool_decide_eq_true, Z.eqb_eq, strcmp_eq. }
    rewrite E. subst keep j. rewrite filter_cons. case_bool_decide as Eu.
    + rewrite decide_False by tauto. rewrite insert_app_r_alt, insert_app_r_alt by lia.
      replace (length kept + length junk - length kept - length junk)%nat with 0%nat by lia.
      change (<[0%nat := NoCall]> (Call h :: map Call rest ++ repeat NoCall k)) with (NoCall :: map Call rest ++ repeat NoCall k).
      specialize (IH kept (junk ++ [NoCall])). rewrite length_app in IH. simpl length in IH.
      replace (length kept + (length junk + 1))%nat with (S (length kept + length junk)) in IH by lia.
      rewrite Nat.add_1_r, <- app_assoc in IH. cbn [app] in IH. cbn zeta in IH. rewrite IH.
      pose proof (length_filter (fun h => uri h <> u) rest) as L. simpl length.
      replace (S (length junk) + (length rest - length (filter (fun h => uri h <> u) rest)))%nat
        with (length junk + (S (length rest) - length (filter (fun h => uri h <> u) rest)))%nat by lia. done.
    + rewrite decide_True by tauto. replace (length kept + length junk - length junk)%nat with (length kept) by lia.
      rewrite insert_app_r_alt, Nat.sub_diag by lia.
      assert (J : exists junk', <[0%nat := Call h]> (junk ++ Call h :: map Call rest ++ repeat NoCall k) = Call h :: junk' ++ map Call rest ++ repeat NoCall k /\ length junk' = length junk).
      { destruct junk as [|x junk]; [by exists []|]. exists (junk ++ [Call h]). change (<[0%nat := Call h]> ((x :: junk) ++ ?l)) with (Call h :: junk ++ l) || simpl. rewrite <- app_assoc, length_app. split; [done|simpl; lia]. }
      destruct J as (junk' & -> & Lj). specialize (IH (kept ++ [Call h]) junk'). rewrite length_app, Lj, <- app_assoc in IH. simpl length in IH.
      replace (length kept + 1 + length junk)%nat with (S (length kept + length junk)) in IH by lia. cbn zeta in IH. rewrite <- !app_assoc in IH. cbn [app] in IH. rewrite IH.
      simpl length. rewrite Nat.sub_succ. done.
Qed.

(** ** Each call *)
Lemma rep_take hd hs : Rep hd hs -> take (capacity hd) (hd_calls hd) = table (capacity hd) hs /\ drop (capacity hd) (hd_calls hd) = [].
Proof.
  intros [E L _]. assert (Hl : length (hd_calls hd) = capacity hd).
  { rewrite E. unfold table. rewrite length_app, length_map, repeat_length. lia. }
  rewrite take_ge, drop_ge by lia. by rewrite <- E.
Qed.
Lemma rep_set hd hs hs' : Rep hd hs -> (length hs' <= capacity hd)%nat -> Forall (fun h => is_string (uri h)) hs' ->
  Rep (hd <| hd_calls := table (capacity hd) hs' |>) hs'.
Proof. by intros R L S. Qed.

Lemma find_spec hd hs u len meth : Rep hd hs ->
  httpd_find_uri_handler u len meth hd = Ok (route (fun t => uri_match hd t u len) meth hs).
Proof. intros R. unfold httpd_find_uri_handler. fold (capacity hd). rewrite (proj1 (rep_take hd hs R)). apply find_call_table. Qed.

Definition call_ok (c : uri_call) : Prop :=
  match c with
  | URegister _ dup h => dup = true /\ is_string (uri h)
  | UUnregister u _ | UUnregisterUri u => is_string u
  | _ => True
  end.

(** The server, with another table. *)
Definition with_calls hd hs : httpd_data := hd <| hd_calls := table (capacity hd) hs |>.
Lemma rep_with hd hs : Rep hd hs -> with_calls hd hs = hd.
Proof. intros [E _ _]. unfold with_calls. rewrite <- E. by destruct hd. Qed.
Lemma rep_with_calls hd hs hs' : Rep hd hs -> (length hs' <= capacity hd)%nat -> Forall (fun h => is_string (uri h)) hs' -> Rep (with_calls hd hs') hs'.
Proof. by intros R L S. Qed.

Lemma find_existsb {A} (p : A -> bool) l : match find p l with Some _ => true | None => false end = existsb p l.
Proof. induction l as [|x l IH]; [done|]. simpl. by destruct (p x). Qed.
Lemma without_first_none p hs : existsb p hs = false -> without_first p hs = hs.
Proof. induction hs as [|h hs IH]; [done|]. simpl. destruct (p h); [done|]. intros E. by rewrite IH. Qed.
Lemma without_first_length p hs : existsb p hs = true -> length hs = S (length (without_first p hs)).
Proof. induction hs as [|h hs IH]; [done|]. simpl. destruct (p h); [done|]. intros E. simpl. by rewrite <- IH. Qed.
Lemma without_first_ok p hs (P : httpd_uri_t -> Prop) : Forall P hs -> Forall P (without_first p hs) /\ (length (without_first p hs) <= length hs)%nat.
Proof.
  induction 1 as [|h hs Hh Hs [IH L]]; [done|]. simpl. destruct (p h); [split; [done|lia]|]. split; [by constructor|simpl; lia].
Qed.

Lemma set_table hd hs' l : l = table (capacity hd) hs' -> hd <| hd_calls := l ++ [] |> = with_calls hd hs'.
Proof. intros ->. by rewrite app_nil_r. Qed.

Lemma table_app n hs hs' k : (length hs + k = n)%nat -> length hs' = length hs -> map Call hs' ++ repeat NoCall k = table n hs'.
Proof. intros <- E. unfold table. do 2 f_equal. lia. Qed.

Lemma register_table_run alloc h hd hs : Rep hd hs -> let '(a, hs') := uri_spec hd (URegister alloc true h) hs in
  uri_run (URegister alloc true h) hd = Ok (a, with_calls hd hs').
Proof.
  intros R. destruct (rep_take hd hs R) as [Et Ed]. cbn [uri_spec uri_run]. unfold httpd_register_uri_handler.
  rewrite (find_spec hd hs) by done. ostep. unfold route. rewrite <- find_existsb. destruct (find _ hs); [by rewrite (rep_with hd hs R)|].
  fold (capacity hd). rewrite Et, Ed, andb_true_r. pose proof (rep_room _ _ R) as Lr.
  assert (Ek : (capacity hd - length hs =? 0)%nat = (max_uri_handlers (config hd) <=? lenZ hs)).
  { apply eq_true_iff_eq. rewrite Nat.eqb_eq, Z.leb_le. unfold capacity, lenZ in *. lia. }
  unfold table at 1. destruct alloc; rewrite ?install_table, ?install_no_mem, <- Ek; destruct (Nat.eqb_spec (capacity hd - length hs) 0) as [E0|E0]; ostep; ostep.
  - rewrite (set_table hd hs); [done|]. unfold table. by rewrite E0, app_nil_r.
  - rewrite (set_table hd (hs ++ [h])); [done|]. unfold table. rewrite length_app. do 2 f_equal. simpl. lia.
  - rewrite (set_table hd hs); done.
  - rewrite (set_table hd hs); done.
Qed.

Lemma unregister_run u meth hd hs : Rep hd hs -> is_string u -> let '(a, hs') := uri_spec hd (UUnregister u meth) hs in
  uri_run (UUnregister u meth) hd = Ok (a, with_calls hd hs').
Proof.
  intros R Hu. destruct (rep_take hd hs R) as [Et Ed]. cbn [uri_spec uri_run]. unfold httpd_unregister_uri_handler.
  fold (capacity hd). rewrite Et, Ed. unfold table. rewrite remove_call_table by (try done; apply R). pose proof (rep_room _ _ R) as Lr.
  set (p := fun h => (method h =? meth) && bool_decide (uri h = u)). destruct (existsb p hs) eqn:E; ostep; ostep.
  - rewrite (set_table hd (without_first p hs)); [done|]. unfold table. pose proof (without_first_length p hs E). do 2 f_equal. lia.
  - rewrite (set_table hd hs), without_first_none by done. done.
Qed.

Lemma existsb_filter u hs : negb (length hs - length (filter (fun h => uri h <> u) hs) =? 0)%nat = existsb (fun h => bool_decide (uri h = u)) hs.
Proof.
  induction hs as [|h hs IH]; [done|]. rewrite filter_cons. simpl existsb. pose proof (length_filter (fun h => uri h <> u) hs).
  case_bool_decide as Eu; [rewrite decide_False by tauto|rewrite decide_True by tauto]; simpl length; [|exact IH].
  rewrite (proj2 (Nat.eqb_neq _ _)) by lia. done.
Qed.
Lemma unregister_uri_run u hd hs : Rep hd hs -> is_string u -> let '(a, hs') := uri_spec hd (UUnregisterUri u) hs in
  uri_run (UUnregisterUri u) hd = Ok (a, with_calls hd hs').
Proof.
  intros R Hu. destruct (rep_take hd hs R) as [Et Ed]. cbn [uri_spec uri_run]. unfold httpd_unregister_uri.
  fold (capacity hd). rewrite Et, (rep_calls _ _ R). unfold table.
  pose proof (remove_uri_table u hs (capacity hd - length hs) Hu (rep_strings _ _ R) [] []) as L. cbn [length app Nat.add] in L.
  cbv zeta in L. rewrite L, existsb_filter. ostep. ostep. rewrite <- repeat_app.
  pose proof (length_filter (fun h => uri h <> u) hs). pose proof (rep_room _ _ R).
  replace (length hs - length (filter (fun h => uri h <> u) hs) + (capacity hd - length hs))%nat
    with (capacity hd - length (filter (fun h => uri h <> u) hs))%nat by lia. done.
Qed.

Lemma unregister_all_run hd hs : Rep hd hs -> httpd_unregister_all_uri_handlers hd = Ok (with_calls hd []).
Proof.
  intros R. destruct (rep_take hd hs R) as [Et Ed]. unfold httpd_unregister_all_uri_handlers. fold (capacity hd). rewrite Et, Ed.
  unfold table. rewrite remove_all_table. ostep. f_equal. apply set_table. unfold table. simpl. f_equal. pose proof (rep_room _ _ R). lia.
Qed.

Lemma uri_call_run c hd hs : Rep hd hs -> call_ok c -> let '(a, hs') := uri_spec hd c hs in
  uri_run c hd = Ok (a, with_calls hd hs') /\ Rep (with_calls hd hs') hs'.
Proof.
  intros R Hc. destruct (uri_spec hd c hs) as [a hs'] eqn:E.
  assert (Run : uri_run c hd = Ok (a, with_calls hd hs')).
  { destruct c as [alloc dup h|u meth|u| |u len meth].
    - destruct Hc as [-> _]. pose proof (register_table_run alloc h hd hs R) as L. by rewrite E in L.
    - pose proof (unregister_run u meth hd hs R Hc) as L. by rewrite E in L.
    - pose proof (unregister_uri_run u hd hs R Hc) as L. by rewrite E in L.
    - injection E as <- <-. cbn [uri_run]. by rewrite (unregister_all_run hd hs R).
    - cbn [uri_run uri_spec] in *. rewrite (find_spec hd hs) by done. destruct (route _ _ _). ostep. injection E as <- <-. by rewrite (rep_with hd hs R). }
  split; [done|]. pose proof (rep_room _ _ R) as Lr. pose proof (rep_strings _ _ R) as Sr.
  assert (Sub : (length hs' <= capacity hd)%nat /\ Forall (fun h => is_string (uri h)) hs'); [|destruct Sub; by apply (rep_with_calls hd hs)].
  destruct c as [alloc dup h|u meth|u| |u len meth]; cbn [uri_spec] in E.
  - repeat case_match; simplify_eq/=; try done. split; [|by apply Forall_app; split; [|apply Forall_singleton; apply Hc]].
    rewrite length_app. simpl. unfold capacity, lenZ in *. lia.
  - injection E as <- <-. destruct (without_first_ok (fun h => (method h =? meth) && bool_decide (uri h = u)) hs _ Sr) as [S1 L1].
    split; [lia|done].
  - injection E as <- <-. split; [pose proof (length_filter (fun h => uri h <> u) hs); lia|]. apply Forall_forall. intros h [_ Hh]%list_elem_of_filter. by apply (proj1 (Forall_forall _ _) Sr).
  - injection E as <- <-. simpl. split; [lia|constructor].
  - destruct (route _ _ _). by injection E as <- <-.
Qed.

(** ** Every history *)
Lemma uri_spec_calls hd hs' c hs : uri_spec (with_calls hd hs') c hs = uri_spec hd c hs.
Proof. by destruct c. Qed.
Lemma uri_specs_calls hd hs' cs hs : uri_specs (with_calls hd hs') cs hs = uri_specs hd cs hs.
Proof. revert hs. induction cs as [|c cs IH]; intros hs; [done|]. simpl. rewrite uri_spec_calls. destruct (uri_spec hd c hs) as [a hs2]. by rewrite IH. Qed.
Lemma with_calls_twice hd hs hs' : with_calls (with_calls hd hs) hs' = with_calls hd hs'.
Proof. done. Qed.

Lemma uri_runs_exact cs hd hs : Rep hd hs -> Forall call_ok cs -> let '(l, hs') := uri_specs hd cs hs in
  uri_runs cs hd = Ok (l, with_calls hd hs') /\ Rep (with_calls hd hs') hs'.
Proof.
  revert hd hs. induction cs as [|c cs IH]; intros hd hs R Hc; cbn [uri_specs uri_runs].
  { by rewrite (rep_with hd hs R). }
  apply Forall_cons in Hc as [Hc Hcs]. pose proof (uri_call_run c hd hs R Hc) as Run.
  destruct (uri_spec hd c hs) as [a hs1]. destruct Run as [-> R1]. ostep.
  pose proof (IH _ _ R1 Hcs) as Runs. rewrite uri_specs_calls in Runs. destruct (uri_specs hd cs hs1) as [l hs2].
  destruct Runs as [-> R2]. ostep. by rewrite with_calls_twice in *.
Qed.

(** A server that has just been created. *)
Definition no_handlers hd : Prop := hd_calls hd = repeat NoCall (capacity hd).
Lemma no_handlers_rep hd : no_handlers hd -> Rep hd [].
Proof. intros E. split; [rewrite E; unfold table; by rewrite Nat.sub_0_r|simpl; lia|constructor]. Qed.

(** What becomes of a request for a path: the first handler that matches it with its
    method is called with its context, and a failure closes the connection. *)
Definition dispatch (fuel : nat) hs (u : list Z) (len : Z) hd : outcome (Z * httpd_data) :=
  match route (fun t => uri_match hd t u len) (req_method (hd_req hd)) hs with
  | (Some h, _) =>
      '(ret, hd) ← app_handler (handler h) (set_req ((hd_req hd) <| req_user_ctx := user_ctx h |>) hd);
      Ok (if ret =? ESP_OK then ESP_OK else ESP_FAIL, hd)
  | (None, err) => httpd_req_handle_err fuel err hd
  end.

Lemma route_err m meth hs (h : option httpd_uri_t) err : route m meth hs = (h, err) -> h = None -> err = HTTPD_404_NOT_FOUND \/ err = HTTPD_405_METHOD_NOT_ALLOWED.
Proof. unfold route. destruct (find _ hs); intros E Eh; injection E as <- <-; [done|]. destruct (existsb _ hs); auto. Qed.

Lemma httpd_uri_dispatch fuel hd hs off len : Rep hd hs -> url_field UF_PATH hd = Some (off, len) ->
  httpd_uri fuel hd = dispatch fuel hs (drop (Z.to_nat off) (req_uri (hd_req hd))) len hd.
Proof.
  intros R E. unfold httpd_uri, dispatch. rewrite E, (find_spec hd hs) by done. ostep.
  destruct (route _ _ _) as [[h|] err] eqn:Er; [done|].
  destruct (route_err _ _ _ _ _ Er eq_refl) as [-> | ->]; done.
Qed.

(** C30. Every history of registering and unregistering handlers in which the string of
    a new handler can always be copied is answered as by a list of handlers in the order
    of their registration: one whose template, taken as a path, an earlier one matches
    with the same method is refused, as is one too many or one whose entry cannot be
    allocated (a template that does not match itself, such as one that ends in a question mark,
    can thus be registered twice); unregistering keeps the order of the others.  Afterwards a request runs the
    first handler that matches its path with its method; without one it gets error
    405 if any handler matches the path, and error 404 otherwise. *)
Theorem uri_history_exact cs hd : no_handlers hd -> Forall call_ok cs ->
  let '(answers, hs) := uri_specs hd cs [] in
  exists hd', uri_runs cs hd = Ok (answers, hd') /\
    forall fuel r a off len, url_field UF_PATH (set_req r (set_aux a hd')) = Some (off, len) ->
      httpd_uri fuel (set_req r (set_aux a hd')) = dispatch fuel hs (drop (Z.to_nat off) (req_uri r)) len (set_req r (set_aux a hd')).
Proof.
  intros H0' Hc. pose proof (uri_runs_exact cs hd [] (no_handlers_rep hd H0') Hc) as Run.
  destruct (uri_specs hd cs []) as [l hs]. destruct Run as [Run R]. exists (with_calls hd hs). split; [done|].
  intros fuel r a off len E. apply httpd_uri_dispatch; [|done]. destruct R as [Rc Rr Rs]. by split.
Qed.
End history.
