(* ===== verification/HttpdParse.v ===== *)
(** * HTTP server: receiving a request ([httpd_parse.c])

    The callbacks of the HTTP parser, the loop that feeds it from the scratch buffer,
    the life of a request, and the searches in its query and headers.

    The parser is vendored code ([nghttp/port/http_parser.c]): a value of type
    [parser] that, run on a block from a position, goes on to its next callback or to
    its end.  Pointers into the scratch buffer are offsets.  [fuel] bounds each loop
    whose length the peer or the application decides. *)
From S2P Require Import Prelude EspFlash CString Httpd HttpdTxrx HttpdUri.

(** ** The HTTP parser *)

(** What a callback reads of the parser. *)
Record http_parser := mkParser { p_method : Z; http_major : Z; http_minor : Z; content_length : Z; upgrade : bool }.
(** The callbacks with the place, from the start of the block, and the length. *)
Inductive parser_event :=
  | on_url (at_ len : Z) | on_header_field (at_ len : Z) | on_header_value (at_ len : Z)
  | on_headers_complete | on_body (at_ len : Z) | on_message_complete.

(** [parser_next p block pos] runs the parser on [block] from [pos] to its next
    callback or to its end, and gives the position reached. *)
Class HttpParser := {
  parser : Type;
  http_parser_init : parser;
  parser_next : parser -> list Z -> Z -> parser * Z * option (parser_event * http_parser);
  http_parser_parse_url : list Z -> bool -> option http_parser_url
}.
Definition HTTP_CONNECT := 5.

Inductive parser_status :=
  | PARSING_IDLE | PARSING_URL | PARSING_HDR_FIELD | PARSING_HDR_VALUE | PARSING_BODY | PARSING_COMPLETE | PARSING_FAILED.
#[export] Instance parser_status_eq : EqDecision parser_status.
Proof. solve_decision. Defined.

Record parser_data_t := mkData {
  p_status : parser_status; error : Z; last_at : Z; last_length : Z; paused : bool; pre_parsed : Z; raw_datalen : Z
}.
#[export] Instance rebuild_data : Rebuild parser_data_t :=
  fun d => mkData (p_status d) (error d) (last_at d) (last_length d) (paused d) (pre_parsed d) (raw_datalen d).

Section parse.
Context `{HttpdConfig} `{HttpdEnv} `{HttpParser} (fuel : nat).
Implicit Types (hd : httpd_data) (d : parser_data_t) (p : http_parser).

(** What the buffer holds from an offset on, up to a zero. *)
Fixpoint upto_zero (l : list Z) : list Z := match l with [] => [] | c :: l => if c =? 0 then [] else c :: upto_zero l end.
Definition scratch_from (at_ : Z) hd : list Z := drop (Z.to_nat at_) (scratch (hd_req_aux hd)).
Definition set_scratch (l : list Z) hd : httpd_data := set_aux ((hd_req_aux hd) <| scratch := l |>) hd.

Definition parse_fail (err : Z) d : parser_data_t := d <| error := err |> <| p_status := PARSING_FAILED |>.

(** ** Callbacks: their value, and the new state *)
Definition verify_url p d hd : Z * parser_data_t * httpd_data :=
  let length := last_length d in
  let hd := set_req ((hd_req hd) <| req_method := p_method p |>) hd in
  if p_method p <? 0 then (ESP_FAIL, d <| error := HTTPD_501_METHOD_NOT_IMPLEMENTED |>, hd)
  else if HTTPD_MAX_URI_LEN + 1 <? length + 1 then (ESP_FAIL, d <| error := HTTPD_414_URI_TOO_LONG |>, hd)
  else
    let text := take (Z.to_nat length) (upto_zero (scratch_from (last_at d) hd)) in
    let hd := set_req ((hd_req hd) <| req_uri := text |>) hd in
    if negb (http_major p =? 1) && negb (http_minor p =? 1) then (ESP_FAIL, d <| error := HTTPD_505_VERSION_NOT_SUPPORTED |>, hd)
    else
      match http_parser_parse_url text (req_method (hd_req hd) =? HTTP_CONNECT) with
      | None => (ESP_FAIL, d <| error := HTTPD_400_BAD_REQUEST |>, hd)
      | Some res => (ESP_OK, d, set_aux ((hd_req_aux hd) <| url_parse_res := res |>) hd)
      end.

Definition cb_url (at_ length : Z) d hd : outcome (Z * parser_data_t * httpd_data) :=
  let go d :=
    let d := d <| last_length := last_length d + length |> in
    if HTTPD_MAX_URI_LEN <? last_length d then Ok (ESP_FAIL, parse_fail HTTPD_414_URI_TOO_LONG d, hd)
    else Ok (ESP_OK, d, hd) in
  match p_status d with
  | PARSING_IDLE => go (d <| last_at := at_ |> <| last_length := 0 |> <| p_status := PARSING_URL |>)
  | PARSING_URL => go d
  | _ => Ok (ESP_FAIL, parse_fail HTTPD_500_INTERNAL_SERVER_ERROR d, hd)
  end.

Definition pause_parsing (at_ : Z) d hd : outcome (Z * parser_data_t * httpd_data) :=
  let unparsed := raw_datalen d - at_ in
  if unparsed <? 0 then Ok (ESP_ERR_INVALID_STATE, d, hd)
  else
    '(back, hd) ← (if unparsed =? 0 then Ok (0, hd) else httpd_unrecv (take (Z.to_nat unparsed) (scratch_from at_ hd)) hd);
    if negb (unparsed =? 0) && negb (back =? unparsed) then Ok (ESP_FAIL, d, hd)
    else Ok (ESP_OK, d <| pre_parsed := unparsed |> <| paused := true |>, hd).

(** The length to skip. *)
Definition continue_parsing (length : Z) d : Z * parser_data_t :=
  let length := Z.min length (pre_parsed d) in
  (length, d <| pre_parsed := pre_parsed d - length |> <| paused := false |>).

(** [memset] in the scratch buffer. *)
Definition clear_scratch (from to : Z) hd : outcome httpd_data :=
  let l := scratch (hd_req_aux hd) in
  if (from <=? to) && (to <=? lenZ l)
  then Ok (set_scratch (take (Z.to_nat from) l ++ repeat 0 (Z.to_nat (to - from)) ++ drop (Z.to_nat to) l) hd)
  else Fault.

Definition count_header hd : httpd_data := set_aux ((hd_req_aux hd) <| req_hdrs_count := req_hdrs_count (hd_req_aux hd) + 1 |>) hd.

Definition cb_header_field p (at_ length : Z) d hd : outcome (Z * parser_data_t * httpd_data) :=
  let go d hd := Ok (ESP_OK, d <| last_length := last_length d + length |>, hd) in
  match p_status d with
  | PARSING_URL =>
      let '(r, d, hd) := verify_url p d hd in
      if negb (r =? ESP_OK) then Ok (ESP_FAIL, d <| p_status := PARSING_FAILED |>, hd)
      else
        let d := d <| last_at := 0 |> <| last_length := 0 |> <| p_status := PARSING_HDR_FIELD |> in
        '(r, d, hd) ← pause_parsing at_ d hd;
        if negb (r =? ESP_OK) then Ok (ESP_FAIL, parse_fail HTTPD_500_INTERNAL_SERVER_ERROR d, hd)
        else go d hd
  | PARSING_HDR_VALUE =>
      hd ← clear_scratch (last_at d + last_length d) at_ hd;
      go (d <| last_at := at_ |> <| last_length := 0 |> <| p_status := PARSING_HDR_FIELD |>) (count_header hd)
  | PARSING_HDR_FIELD => go d hd
  | _ => Ok (ESP_FAIL, parse_fail HTTPD_500_INTERNAL_SERVER_ERROR d, hd)
  end.

(** The last colon in front of the [n] first characters' end. *)
Fixpoint back_to_colon (l : list Z) (n : nat) : outcome nat :=
  match n with
  | O => Fault
  | S n =>
      match l !! n with
      | Some c => if c =? 58 then Ok n else back_to_colon l n
      | None => Fault
      end
  end.
Fixpoint skip_spaces (l : list Z) : outcome nat :=
  match l with
  | [] => Fault
  | c :: l => if c =? 32 then n ← skip_spaces l; Ok (S n) else Ok O
  end.

Definition cb_header_value (at_ length : Z) d hd : outcome (Z * parser_data_t * httpd_data) :=
  let go d := Ok (ESP_OK, d <| last_length := last_length d + length |>, hd) in
  match p_status d with
  | PARSING_HDR_FIELD =>
      at_ ← (if length =? 0 then
               let l := scratch (hd_req_aux hd) in
               k ← back_to_colon l (Z.to_nat at_);
               n ← skip_spaces (drop (S k) l);
               Ok (Z.of_nat (S k + n))
             else Ok at_);
      go (d <| last_at := at_ |> <| last_length := 0 |> <| p_status := PARSING_HDR_VALUE |>)
  | PARSING_HDR_VALUE => go d
  | _ => Ok (ESP_FAIL, parse_fail HTTPD_500_INTERNAL_SERVER_ERROR d, hd)
  end.

(** The terminators are overwritten: what is missing of them, the place behind
    them, and the new buffer. *)
Fixpoint clear_terminators (n : nat) (at_ : nat) (remaining_terminators : Z) (l : list Z) : outcome (Z * nat * list Z) :=
  match n with
  | O => Ok (remaining_terminators, at_, l)
  | S n =>
      if remaining_terminators =? 0 then Ok (remaining_terminators, at_, l)
      else
        match l !! at_ with
        | None => Fault
        | Some c => clear_terminators n (S at_) (if c =? 10 then remaining_terminators - 1 else remaining_terminators) (<[at_ := 0]> l)
        end
  end.

Definition headers_done p d hd : Z * parser_data_t * httpd_data :=
  let len := if s32 (content_length p) =? -1 then 0 else u32 (content_length p) in
  let hd := set_req ((hd_req hd) <| content_len := len |>) hd in
  if upgrade p then (ESP_FAIL, parse_fail HTTPD_400_BAD_REQUEST d, hd)
  else (ESP_OK, d <| p_status := PARSING_BODY |>, set_aux ((hd_req_aux hd) <| remaining_len := len |>) hd).

Definition cb_headers_complete p d hd : outcome (Z * parser_data_t * httpd_data) :=
  match p_status d with
  | PARSING_URL =>
      let '(r, d, hd) := verify_url p d hd in
      if negb (r =? ESP_OK) then Ok (ESP_FAIL, d <| p_status := PARSING_FAILED |>, hd) else Ok (headers_done p d hd)
  | PARSING_HDR_VALUE =>
      let at_ := last_at d + last_length d in
      let remaining_length := raw_datalen d - at_ in
      if remaining_length <? 2 then Ok (ESP_FAIL, parse_fail HTTPD_500_INTERNAL_SERVER_ERROR d, hd)
      else
        '(missing, at_, l) ← clear_terminators (Z.to_nat remaining_length) (Z.to_nat at_) 2 (scratch (hd_req_aux hd));
        let hd := set_scratch l hd in
        if negb (missing =? 0) then Ok (ESP_FAIL, parse_fail HTTPD_400_BAD_REQUEST d, hd)
        else Ok (headers_done p (d <| last_at := Z.of_nat at_ |>) (count_header hd))
  | _ => Ok (ESP_FAIL, parse_fail HTTPD_500_INTERNAL_SERVER_ERROR d, hd)
  end.

Definition message_complete (at_ : Z) d hd : outcome (Z * parser_data_t * httpd_data) :=
  '(r, d, hd) ← pause_parsing at_ d hd;
  if negb (r =? ESP_OK) then Ok (ESP_FAIL, parse_fail HTTPD_500_INTERNAL_SERVER_ERROR d, hd)
  else Ok (ESP_OK, d <| last_at := 0 |> <| last_length := 0 |> <| p_status := PARSING_COMPLETE |>, hd).

Definition cb_on_body (at_ length : Z) d hd : outcome (Z * parser_data_t * httpd_data) :=
  match p_status d with
  | PARSING_BODY => message_complete at_ d hd
  | _ => Ok (ESP_FAIL, parse_fail HTTPD_500_INTERNAL_SERVER_ERROR d, hd)
  end.

Definition cb_no_body p d hd : outcome (Z * parser_data_t * httpd_data) :=
  match p_status d with
  | PARSING_URL =>
      let '(r, d, hd) := verify_url p d hd in
      if negb (r =? ESP_OK) then Ok (ESP_FAIL, d <| p_status := PARSING_FAILED |>, hd) else message_complete (last_at d) d hd
  | PARSING_BODY => message_complete (last_at d) d hd
  | _ => Ok (ESP_FAIL, parse_fail HTTPD_500_INTERNAL_SERVER_ERROR d, hd)
  end.

(** ** The loop *)

(** The block starts at [offset] of the buffer. *)
Definition callback (offset : Z) (ev : parser_event) p d hd : outcome (Z * parser_data_t * httpd_data) :=
  match ev with
  | on_url a n => cb_url (offset + a) n d hd
  | on_header_field a n => cb_header_field p (offset + a) n d hd
  | on_header_value a n => cb_header_value (offset + a) n d hd
  | on_headers_complete => cb_headers_complete p d hd
  | on_body a n => cb_on_body (offset + a) n d hd
  | on_message_complete => cb_no_body p d hd
  end.

(** The parser runs until a callback fails or pauses it, or to the end of the block;
    callbacks may change what follows in the buffer, which it reads as it goes. *)
Fixpoint http_parser_execute (n : nat) (ps : parser) (offset length pos : Z) d hd : outcome (Z * parser * parser_data_t * httpd_data) :=
  match n with
  | O => OutOfFuel
  | S n =>
      let '(ps, pos, stop) := parser_next ps (take (Z.to_nat length) (scratch_from offset hd)) pos in
      match stop with
      | None => Ok (pos, ps, d, hd)
      | Some (ev, p) =>
          '(r, d, hd) ← callback offset ev p d hd;
          if negb (r =? ESP_OK) || paused d then Ok (pos, ps, d, hd)
          else http_parser_execute n ps offset length pos d hd
      end
  end.

Definition read_block (offset length : Z) hd : outcome (Z * httpd_data) :=
  let buf_len := Z.min length (scratch_size - offset) in
  if buf_len <=? 0 then Ok (0, hd)
  else
    '(r, hd) ← httpd_recv_with_opt buf_len true hd;
    match r with
    | RecvErr code =>
        if code =? HTTPD_SOCK_ERR_TIMEOUT then
          '(ret, hd) ← httpd_req_handle_err fuel HTTPD_408_REQ_TIMEOUT hd;
          Ok (if ret =? ESP_OK then HTTPD_SOCK_ERR_TIMEOUT else HTTPD_SOCK_ERR_FAIL, hd)
        else Ok (HTTPD_SOCK_ERR_FAIL, hd)
    | RecvData data =>
        if lenZ data =? 0 then Ok (HTTPD_SOCK_ERR_FAIL, hd)
        else
          let l := scratch (hd_req_aux hd) in
          Ok (lenZ data, set_scratch (take (Z.to_nat offset) l ++ data ++ drop (Z.to_nat (offset + lenZ data)) l) hd)
    end.

Definition parse_block (ps : parser) (offset length : Z) d hd : outcome (Z * parser * parser_data_t * httpd_data) :=
  if length =? 0 then
    let err := match p_status d with
               | PARSING_URL => HTTPD_414_URI_TOO_LONG
               | PARSING_HDR_FIELD | PARSING_HDR_VALUE => HTTPD_431_REQ_HDR_FIELDS_TOO_LARGE
               | _ => HTTPD_500_INTERNAL_SERVER_ERROR
               end in
    Ok (-1, ps, parse_fail err d, hd)
  else
    let '(skip, d) := if paused d then continue_parsing length d else (0, d) in
    let length := length - skip in
    let offset := offset + skip in
    if length =? 0 then Ok (skip, ps, d, hd)
    else
      '(nparsed, ps, d, hd) ← http_parser_execute fuel ps offset length 0 d hd;
      if decide (p_status d = PARSING_FAILED) then Ok (-1, ps, d, hd)
      else if paused d then Ok (0, ps, d <| pre_parsed := pre_parsed d - (length - nparsed) |>, hd)
      else if negb (nparsed =? length) then Ok (-1, ps, parse_fail HTTPD_400_BAD_REQUEST d, hd)
      else Ok (offset + nparsed, ps, d, hd).

Definition parse_init : parser_data_t := mkData PARSING_IDLE 0 0 0 false 0 0.

Fixpoint parse_loop (n : nat) (ps : parser) (offset : Z) d hd : outcome (Z * httpd_data) :=
  match n with
  | O => OutOfFuel
  | S n =>
      let next ps offset d hd := if decide (p_status d = PARSING_COMPLETE) then httpd_uri fuel hd else parse_loop n ps offset d hd in
      '(blk_len, hd) ← read_block offset PARSER_BLOCK_SIZE hd;
      if blk_len <? 0 then
        if blk_len =? HTTPD_SOCK_ERR_TIMEOUT then next ps offset d hd else Ok (ESP_FAIL, hd)
      else
        '(offset, ps, d, hd) ← parse_block ps offset blk_len (d <| raw_datalen := blk_len + offset |>) hd;
        if offset <? 0 then httpd_req_handle_err fuel (error d) hd else next ps offset d hd
  end.
Definition httpd_parse_req hd : outcome (Z * httpd_data) := parse_loop fuel http_parser_init 0 parse_init hd.

(** ** The life of a request *)
Definition init_req : httpd_req := mkReq false 0 [] 0 false 0 0 0 false.
Definition init_req_aux (ra : httpd_req_aux) : httpd_req_aux :=
  mkAux None (repeat 0 (Z.to_nat scratch_size)) 0 [] [] false 0 [] (url_parse_res ra).

Definition httpd_req_cleanup hd : outcome httpd_data :=
  let r := hd_req hd in
  if negb (aux r) then Fault
  else
    '(i, s) ← req_sd hd;
    let hd := if negb (ignore_sess_ctx_changes r) && negb (ctx s =? sess_ctx r) then httpd_sess_free_ctx (ctx s) (sd_free_ctx s) hd else hd in
    let hd := set_sd i (s <| ctx := sess_ctx r |> <| sd_free_ctx := free_ctx r |> <| sd_ignore_sess_ctx_changes := ignore_sess_ctx_changes r |>) hd in
    let hd := set_aux ((hd_req_aux hd) <| sd := None |>) hd in
    Ok (set_req ((hd_req hd) <| handle := false |> <| aux := false |>) hd).

Definition httpd_req_new (i : nat) hd : outcome (Z * httpd_data) :=
  s ← sd_at hd i;
  let a := init_req_aux (hd_req_aux hd) in
  let hd := set_aux (a <| sd := Some i |> <| status := chars "200 OK" |> <| content_type := chars "text/html" |>) hd in
  let hd := set_req (init_req <| handle := true |> <| aux := true |> <| sess_ctx := ctx s |> <| free_ctx := sd_free_ctx s |>
                       <| ignore_sess_ctx_changes := sd_ignore_sess_ctx_changes s |>) hd in
  '(err, hd) ← httpd_parse_req hd;
  if err =? ESP_OK then Ok (err, hd)
  else hd ← httpd_req_cleanup hd; Ok (err, hd).

Fixpoint purge (n : nat) hd : outcome (Z * httpd_data) :=
  let a := hd_req_aux hd in
  if remaining_len a =? 0 then hd ← httpd_req_cleanup hd; Ok (ESP_OK, hd)
  else
    match n with
    | O => OutOfFuel
    | S n =>
        '(r, hd) ← httpd_req_recv (Z.min CONFIG_HTTPD_PURGE_BUF_LEN (remaining_len a)) hd;
        match r with
        | RecvErr _ => hd ← httpd_req_cleanup hd; Ok (ESP_FAIL, hd)
        | RecvData _ => purge n hd
        end
    end.
Definition httpd_req_delete hd : outcome (Z * httpd_data) := if negb (aux (hd_req hd)) then Fault else purge fuel hd.

(** ** Query and headers *)

(** The loop over the parameters from [qry_ptr] on. *)
Fixpoint query_loop (n : nat) (qry_ptr key val : list Z) (buf_len : Z) : outcome (Z * list Z) :=
  match n with
  | O => OutOfFuel
  | S n =>
      if lenZ qry_ptr =? 0 then Ok (ESP_ERR_NOT_FOUND, val)
      else
        match strchr qry_ptr 61 with
        | None => Ok (ESP_ERR_NOT_FOUND, val)
        | Some (name, val_ptr) =>
            let offset := length name in
            if negb (Nat.eqb offset (length key)) || negb (strncasecmp qry_ptr key offset =? 0) then
              match strchr val_ptr 38 with
              | None => Ok (ESP_ERR_NOT_FOUND, val)
              | Some (_, qry_ptr) => query_loop n qry_ptr key val buf_len
              end
            else
              let text := match strchr val_ptr 38 with Some (text, _) => text | None => val_ptr end in
              let val_size := lenZ text + 1 in
              val ← strlcpy val val_ptr (Z.min val_size buf_len);
              Ok (if buf_len <? val_size then ESP_ERR_HTTPD_RESULT_TRUNC else ESP_OK, val)
        end
  end.
Definition httpd_query_key_value (qry_str key val : option (list Z)) (val_size : Z) : outcome (Z * option (list Z)) :=
  match qry_str, key, val with
  | Some q, Some k, Some v => '(err, v) ← query_loop (S (length q)) q k v val_size; Ok (err, Some v)
  | _, _, _ => Ok (ESP_ERR_INVALID_ARG, val)
  end.

Definition httpd_req_get_url_query_len hd : Z := match url_field UF_QUERY hd with Some (_, len) => len | None => 0 end.
Definition httpd_req_get_url_query_str (buf : list Z) (buf_len : Z) hd : outcome (Z * list Z) :=
  match url_field UF_QUERY hd with
  | None => Ok (ESP_ERR_NOT_FOUND, buf)
  | Some (off, len) =>
      let min_buf_len := len + 1 in
      buf ← strlcpy buf (drop (Z.to_nat off) (req_uri (hd_req hd))) (Z.min buf_len min_buf_len);
      Ok (if buf_len <? min_buf_len then ESP_ERR_HTTPD_RESULT_TRUNC else ESP_OK, buf)
  end.

Fixpoint skip_zeros (l : list Z) : outcome (list Z) :=
  match l with
  | [] => Fault
  | c :: l' => if c =? 0 then skip_zeros l' else Ok l
  end.
Fixpoint skip_blanks (l : list Z) : list Z := match l with c :: l' => if c =? 32 then skip_blanks l' else l | [] => [] end.

(** The value of the field, by the loop over [count] headers in a buffer. *)
Fixpoint find_hdr (count : nat) (hdr_ptr field : list Z) : outcome (option (list Z)) :=
  match count with
  | O => Ok None
  | S count =>
      s ← c_str hdr_ptr;
      match strchr s 58 with
      | None => Ok None
      | Some (name, val_ptr) =>
          if negb (Nat.eqb (length name) (length field)) || negb (strncasecmp s field (length field) =? 0) then
            if (count =? 0)%nat then Ok None
            else next ← skip_zeros (drop (S (length s)) hdr_ptr); find_hdr count next field
          else Ok (Some (skip_blanks val_ptr))
      end
  end.
Definition req_hdr (field : list Z) hd : outcome (option (list Z)) :=
  find_hdr (Z.to_nat (req_hdrs_count (hd_req_aux hd))) (scratch (hd_req_aux hd)) field.

Definition httpd_req_get_hdr_value_len (field : list Z) hd : outcome Z :=
  v ← req_hdr field hd; Ok (match v with Some v => lenZ v | None => 0 end).
Definition httpd_req_get_hdr_value_str (field val : list Z) (val_size : Z) hd : outcome (Z * list Z) :=
  v ← req_hdr field hd;
  match v with
  | None => Ok (ESP_ERR_NOT_FOUND, val)
  | Some v =>
      val ← strlcpy val v val_size;
      Ok (if val_size <? lenZ v + 1 then ESP_ERR_HTTPD_RESULT_TRUNC else ESP_OK, val)
  end.
End parse.
