(* ===== verification/HttpdResponse.v ===== *)
(** * HTTP server: what a response is on the wire

    The calls that send a response put exactly its bytes on the connection, however
    the network cuts them; and chunks of any sizes are read back by a receiver of the
    chunked encoding. *)
From S2P Require Import Prelude EspFlash CString Httpd HttpdTxrx.

(** What [send] promises: it takes some of the bytes of a buffer that is not empty,
    in order, or fails and takes none. *)
Class SendsInOrder `{HttpdEnv} := {
  sent : Z -> net -> list Z;
  net_send_takes : forall f buf w n w', buf <> [] -> net_send f buf w = (inl n, w') ->
    0 < n <= lenZ buf /\ sent f w' = sent f w ++ take (Z.to_nat n) buf;
  net_send_fails : forall f buf w e w', net_send f buf w = (inr e, w') -> sent f w' = sent f w
}.

Section response.
Context `{HttpdConfig} `{HttpdEnv} `{!SendsInOrder} (fuel : nat).
Implicit Types (hd : httpd_data) (buf text : list Z) (w : net).

(** A request on the session with the descriptor [f], which sends by the network. *)
Definition serving (f : Z) hd : Prop := exists i s, req_sd hd = Ok (i, s) /\ fd s = f /\ send_fn s = DefaultFn.

(** A call delivers [text] behind [base], or fails with a part of it delivered; only
    [ok] states are left by a success. *)
Definition delivers (f : Z) (base text : list Z) (ok : httpd_data -> Prop) (m : outcome (Z * httpd_data)) : Prop :=
  exists ret hd', m = Ok (ret, hd') /\
    ((ret = ESP_OK /\ sent f (world hd') = base ++ text /\ ok hd') \/
     (ret = ESP_ERR_HTTPD_RESP_SEND /\ exists pre, pre `prefix_of` text /\ sent f (world hd') = base ++ pre)).

Lemma sock_err_neg e : httpd_sock_err e < 0.
Proof. unfold httpd_sock_err. repeat case_match; done. Qed.

Lemma send_all_delivers f buf n hd : serving f hd -> (length buf <= n)%nat ->
  exists ret w, send_all n buf hd = Ok (ret, set_world w hd) /\
    ((ret = ESP_OK /\ sent f w = sent f (world hd) ++ buf) \/
     (ret = ESP_FAIL /\ exists pre, pre `prefix_of` buf /\ sent f w = sent f (world hd) ++ pre)).
Proof.
  revert buf hd. induction n as [|n IH]; intros buf hd S Hn.
  { destruct buf; [|simpl in Hn; lia]. exists ESP_OK, (world hd). split; [by destruct hd|]. left. by rewrite app_nil_r. }
  destruct buf as [|c buf'] eqn:Eb.
  { exists ESP_OK, (world hd). split; [by destruct hd|]. left. by rewrite app_nil_r. }
  rewrite <- Eb in *. assert (Hb : (lenZ buf =? 0) = false) by (subst buf; apply Z.eqb_neq; unfold lenZ; simpl; lia).
  destruct S as (i & s & Es & Ef & Esf). cbn [send_all]. rewrite Hb, Es. ostep. rewrite Esf. cbn [call_send]. unfold httpd_default_send. rewrite Ef.
  destruct (net_send f buf (world hd)) as [[r|e] w] eqn:En; ostep; cycle 1.
  { rewrite (proj2 (Z.ltb_lt _ _) (sock_err_neg e)). exists ESP_FAIL, w. split; [done|]. right. split; [done|].
    exists []. split; [apply prefix_nil|]. rewrite app_nil_r. exact (net_send_fails _ _ _ _ _ En). }
  apply net_send_takes in En as [Hr Hw]; [|by subst buf].
  rewrite (proj2 (Z.ltb_ge _ _)), (proj2 (Z.ltb_ge _ _)) by lia.
  destruct (IH (drop (Z.to_nat r) buf) (set_world w hd)) as (ret & w' & -> & D).
  { exists i, s. by split; [exact Es|]. } { rewrite length_drop. unfold lenZ in *. lia. }
  exists ret, w'. split; [done|]. change (world (set_world w hd)) with w in D. rewrite Hw in D. destruct D as [[-> D]|(-> & pre & Hp & D)].
  - left. split; [done|]. by rewrite D, <- app_assoc, take_drop.
  - right. split; [done|]. exists (take (Z.to_nat r) buf ++ pre). rewrite app_assoc. split; [|done].
    rewrite <- (take_drop (Z.to_nat r) buf) at 2. by apply prefix_app.
Qed.

Lemma serving_world f hd w : serving f hd -> serving f (set_world w hd).
Proof. intros (i & s & Es & E). exists i, s. split; [exact Es|done]. Qed.

Lemma send_then_delivers f base buf text ok hd k : serving f hd -> (length buf <= fuel)%nat -> sent f (world hd) = base ->
  (forall w, sent f w = base ++ buf -> delivers f (base ++ buf) text ok (k (set_world w hd))) ->
  delivers f base (buf ++ text) ok (send_then fuel buf hd k).
Proof.
  intros S Hn Hb Hk. unfold send_then, httpd_send_all. destruct (send_all_delivers f buf fuel hd S Hn) as (ret & w & -> & D). ostep.
  rewrite Hb in D. destruct D as [[-> D]|(-> & pre & Hp & D)]; cbn [Z.eqb ESP_OK ESP_FAIL].
  - destruct (Hk w D) as (r & hd' & -> & [(-> & Hs & Ho)|(-> & pre & Hp & Hs)]); eexists _, _; (split; [done|]).
    + left. split; [done|]. by rewrite Hs, <- app_assoc.
    + right. split; [done|]. exists (buf ++ pre). split; [by apply prefix_app|]. by rewrite Hs, <- app_assoc.
  - eexists _, _. split; [done|]. right. split; [done|]. exists pre. split; [by apply prefix_app_r|done].
Qed.

(** ** The bytes *)
Definition header_line (h : list Z * list Z) : list Z := h.1 ++ colon_separator ++ h.2 ++ CRLF.
Definition header_lines (hdrs : list (list Z * list Z)) : list Z := concat (map header_line hdrs).
Definition headers_fit (hdrs : list (list Z * list Z)) : Prop := Forall (fun h => (length h.1 <= fuel /\ length h.2 <= fuel)%nat) hdrs.

Lemma send_hdrs_delivers f hdrs base text ok hd k : serving f hd -> (2 <= fuel)%nat -> headers_fit hdrs -> sent f (world hd) = base ->
  (forall w, sent f w = base ++ header_lines hdrs -> delivers f (base ++ header_lines hdrs) text ok (k (set_world w hd))) ->
  delivers f base (header_lines hdrs ++ text) ok (send_hdrs fuel hdrs hd k).
Proof.
  intros S Hf2 Hf. revert base hd S. induction Hf as [|[field value] hdrs [Hl1 Hl2] _ IH]; intros base hd S Hb Hk.
  { unfold header_lines. simpl. rewrite <- (app_nil_r base). replace hd with (set_world (world hd) hd) by (by destruct hd). apply Hk.
    unfold header_lines. simpl. by rewrite app_nil_r. }
  cbn [send_hdrs]. unfold header_lines. cbn [map concat]. fold (header_lines hdrs). unfold header_line at 1. cbn [fst snd] in *.
  rewrite <- !app_assoc. apply send_then_delivers; [done|done|done|]. intros w1 E1.
  apply send_then_delivers; [by apply serving_world|done|done|]. intros w2 E2.
  apply send_then_delivers; [by apply serving_world|done|done|]. intros w3 E3.
  apply send_then_delivers; [by apply serving_world|done|done|]. intros w4 E4.
  apply IH; [by apply serving_world|done|]. intros w5 E5.
  assert (Eh : ((((base ++ field) ++ colon_separator) ++ value) ++ CRLF) ++ header_lines hdrs = base ++ header_lines ((field, value) :: hdrs)).
  { unfold header_lines. cbn [map concat]. unfold header_line at 2. cbn [fst snd]. by rewrite <- !app_assoc. }
  rewrite Eh in *. exact (Hk w5 E5).
Qed.

Lemma send_head_delivers f base text rest ok hd k : serving f hd -> (2 <= fuel)%nat -> headers_fit (resp_hdrs (hd_req_aux hd)) ->
  sent f (world hd) = base -> is_string text -> lenZ text < scratch_size -> (length text <= fuel)%nat ->
  (forall hd', serving f hd' -> hd_req_aux hd' = (hd_req_aux hd) <| scratch := scratch (hd_req_aux hd') |> ->
    sent f (world hd') = base ++ text ++ header_lines (resp_hdrs (hd_req_aux hd)) ++ CRLF ->
    delivers f (base ++ text ++ header_lines (resp_hdrs (hd_req_aux hd)) ++ CRLF) rest ok (k hd')) ->
  delivers f base (text ++ header_lines (resp_hdrs (hd_req_aux hd)) ++ CRLF ++ rest) ok (send_head fuel text hd k).
Proof.
  intros S Hf2 Hf Hb Ht Hl Hn Hk. unfold send_head, snprintf_scratch. cbv zeta beta iota.
  rewrite (proj2 (Z.leb_gt _ _)) by lia.
  set (hd1 := set_aux _ hd). assert (S1 : serving f hd1) by (destruct S as (i & s & Es & E); exists i, s; split; [exact Es|done]).
  assert (Ec : c_str (scratch (hd_req_aux hd1)) = Ok text).
  { subst hd1. cbn. rewrite take_ge by (unfold lenZ in *; lia). rewrite <- app_assoc. by apply c_str_app. }
  rewrite Ec. ostep. apply send_then_delivers; [done|done|done|]. intros w1 E1.
  apply send_hdrs_delivers; [by apply serving_world|done|done|done|]. intros w2 E2.
  apply send_then_delivers; [by apply serving_world|done|done|]. intros w3 E3.
  rewrite <- !app_assoc in *. apply Hk; [by apply serving_world|done|done].
Qed.

(** ** A response *)
Definition head_text (a : httpd_req_aux) (n : Z) : list Z :=
  chars "HTTP/1.1 " ++ status a ++ CRLF ++ chars "Content-Type: " ++ content_type a ++ CRLF ++ chars "Content-Length: " ++ printf_d n ++ CRLF.
Definition response hd (body : list Z) : list Z :=
  head_text (hd_req_aux hd) (lenZ body) ++ header_lines (resp_hdrs (hd_req_aux hd)) ++ CRLF ++ body.

Lemma is_string_chars (s : list Z) : forallb (fun c => 0 <? c) s = true -> is_string s.
Proof. intros E. apply Forall_forall. intros c Hc. apply Z.ltb_lt. by apply (proj1 (forallb_forall _ _) E), list_elem_of_In. Qed.
Lemma digits_string n base k acc : 0 < base -> 0 <= k -> is_string acc -> is_string (digits n base k acc).
Proof.
  intros Hb. assert (Hd : forall d, 0 <= d -> 0 < digit d) by (intros d Hd; unfold digit; case_match; lia).
  revert k acc. induction n as [|n IH]; intros k acc Hk Ha; simpl; [done|]. destruct (k <? base); [constructor; auto|].
  apply IH; [apply Z.div_pos; lia|]. constructor; [|done]. apply Hd. apply Z.mod_pos_bound. lia.
Qed.
Lemma printf_d_string n : 0 <= n -> is_string (printf_d n).
Proof. intros Hn. unfold printf_d. rewrite (proj2 (Z.ltb_ge _ _)) by done. apply digits_string; [done|done|constructor]. Qed.
Lemma head_text_string a n : is_string (status a) -> is_string (content_type a) -> 0 <= n -> is_string (head_text a n).
Proof.
  intros Hs Hc Hn. unfold head_text, is_string. rewrite !Forall_app. split_and!;
    first [exact Hs | exact Hc | exact (printf_d_string n Hn) | apply is_string_chars; vm_compute; reflexivity].
Qed.

Lemma lines_fit hdrs n : (length (header_lines hdrs) <= n)%nat -> n = fuel -> headers_fit hdrs.
Proof.
  intros Hn ->. unfold headers_fit. induction hdrs as [|[f v] hdrs IH]; [constructor|]. unfold header_lines in Hn. cbn [map concat] in Hn.
  rewrite length_app in Hn. constructor; [|apply IH; unfold header_lines; lia]. unfold header_line in Hn. rewrite !length_app in Hn. cbn [fst snd] in *. lia.
Qed.

Lemma buf_bytes_all (body : list Z) : lenZ body < 2 ^ 31 -> buf_bytes body (lenZ body) = Ok body.
Proof.
  intros Hb. pose proof (lenZ_nonneg body). unfold buf_bytes. rewrite u32_small by (unfold is_u32; lia). rewrite Z.leb_refl.
  f_equal. apply take_ge. unfold lenZ. lia.
Qed.
Lemma resp_len_plain (buf : option (list Z)) n : 0 <= n -> resp_len buf n = Ok n.
Proof. intros Hn. unfold resp_len. by rewrite (proj2 (Z.eqb_neq n (-1))) by lia. Qed.

Lemma delivers_end f base ok hd : sent f (world hd) = base -> ok hd -> delivers f base [] ok (Ok (ESP_OK, hd)).
Proof. intros Hb Ho. eexists _, _. split; [done|]. left. by rewrite app_nil_r. Qed.

Lemma send_last_delivers f base buf (ok : httpd_data -> Prop) hd : serving f hd -> (length buf <= fuel)%nat -> sent f (world hd) = base ->
  (forall w, ok (set_world w hd)) -> delivers f base buf ok (send_then fuel buf hd (fun hd => Ok (ESP_OK, hd))).
Proof.
  intros S Hn Hb Ho. rewrite <- (app_nil_r buf) at 1. apply send_then_delivers; [done|done|done|]. intros w Ew. by apply delivers_end.
Qed.

(** C34. A response is sent as its status line, its type and length, the additional
    headers in the order in which they were set, an empty line and the body, byte
    for byte, however few of the bytes the network takes at a time; and when the
    connection fails the call reports it, and what was sent is a beginning of this. *)
Theorem response_exact f hd body : serving f hd -> (length (response hd body) <= fuel)%nat ->
  is_string (status (hd_req_aux hd)) -> is_string (content_type (hd_req_aux hd)) ->
  lenZ (head_text (hd_req_aux hd) (lenZ body)) < scratch_size -> lenZ body < 2 ^ 31 ->
  delivers f (sent f (world hd)) (response hd body) (fun _ => True) (httpd_resp_send fuel (Some body) (lenZ body) hd).
Proof.
  intros S Hn Hs Hc Hl Hb. pose proof (lenZ_nonneg body) as Hb0. unfold httpd_resp_send. rewrite resp_len_plain by done. ostep.
  set (hd1 := set_aux _ hd). assert (S1 : serving f hd1) by (destruct S as (i & s & Es & E); exists i, s; split; [exact Es|done]).
  unfold response in *. change (head_text (hd_req_aux hd) (lenZ body)) with (head_text (hd_req_aux hd1) (lenZ body)) in *.
  change (resp_hdrs (hd_req_aux hd)) with (resp_hdrs (hd_req_aux hd1)) in *. change (world hd) with (world hd1).
  rewrite !length_app in Hn. assert (H3 : (2 <= length CRLF)%nat) by (simpl; lia).
  apply (send_head_delivers f _ (head_text (hd_req_aux hd1) (lenZ body))); [done|lia|by eapply lines_fit; [|done]; lia|done|by apply head_text_string|done|lia|].
  intros hd2 S2 _ E2. destruct (Z.eqb_spec (lenZ body) 0) as [E|E].
  - assert (body = []) as -> by (destruct body; [done|unfold lenZ in E; simpl in E; lia]). by apply delivers_end.
  - rewrite buf_bytes_all by done. ostep. by apply send_last_delivers; [|lia|..].
Qed.

(** ** Chunks *)
Definition chunk_text (body : list Z) : list Z := printf_x (lenZ body) ++ CRLF ++ body ++ CRLF.
Definition chunked_head (a : httpd_req_aux) : list Z :=
  chars "HTTP/1.1 " ++ status a ++ CRLF ++ chars "Content-Type: " ++ content_type a ++ CRLF ++ chars "Transfer-Encoding: chunked" ++ CRLF.

(** The calls for the chunks of a body, up to the first that fails. *)
Fixpoint send_chunks (bodies : list (list Z)) hd : outcome (Z * httpd_data) :=
  match bodies with
  | [] => Ok (ESP_OK, hd)
  | body :: bodies =>
      '(ret, hd) ← httpd_resp_send_chunk fuel (Some body) (lenZ body) hd;
      if ret =? ESP_OK then send_chunks bodies hd else Ok (ret, hd)
  end.

(** A receiver: lines with the size in hexadecimal, the bytes, and an empty line, up
    to a size of zero; it returns the body and what follows. *)
Definition hex_digit (c : Z) : option Z :=
  if (48 <=? c) && (c <=? 57) then Some (c - 48) else if (97 <=? c) && (c <=? 102) then Some (c - 87) else None.
Definition hex_step (o : option Z) (c : Z) : option Z := n ← o; d ← hex_digit c; Some (n * 16 + d).
Fixpoint unchunk (n : nat) (wire : list Z) : option (list Z * list Z) :=
  match n with
  | O => None
  | S n =>
      match strchr wire 13 with
      | Some (line, 10 :: rest) =>
          size ← foldl hex_step (Some 0) line;
          let body := take (Z.to_nat size) rest in
          match drop (Z.to_nat size) rest with
          | 13 :: 10 :: after =>
              if negb (lenZ body =? size) then None
              else if size =? 0 then Some ([], after)
              else '(more, after) ← unchunk n after; Some (body ++ more, after)
          | _ => None
          end
      | _ => None
      end
  end.

Lemma hex_digit_digit d : 0 <= d < 16 -> hex_digit (digit d) = Some d.
Proof. intros Hd. unfold hex_digit, digit. destruct (Z.ltb_spec d 10); case_cmp; simpl; try lia; f_equal; lia. Qed.
Lemma digits_S k base n acc : digits (S k) base n acc = if n <? base then digit n :: acc else digits k base (n / base) (digit (n mod base) :: acc).
Proof. done. Qed.
(** The digits of a number are read back; there are at most [k] below [16 ^ k]. *)
Lemma digits_hex k n acc : 0 <= n < 16 ^ Z.of_nat (S k) -> exists ds, digits (S k) 16 n acc = ds ++ acc /\
  foldl hex_step (Some 0) ds = Some n /\ Forall (fun c => 48 <= c) ds /\ (1 <= length ds)%nat /\
  forall j, n < 16 ^ Z.of_nat (S j) -> (length ds <= S j)%nat.
Proof.
  revert n acc. induction k as [|k IH]; intros n acc Hn; rewrite digits_S.
  - rewrite (proj2 (Z.ltb_lt n 16)) by (simpl in Hn; lia). exists [digit n]. split; [done|]. split; [|split].
    + simpl. rewrite hex_digit_digit by (simpl in Hn; lia). done.
    + apply Forall_singleton. unfold digit. case_match; lia.
    + simpl. split; [lia|]. intros. lia.
  - destruct (Z.ltb_spec n 16) as [Hs|Hs].
    + exists [digit n]. split; [done|]. split; [|split].
      * simpl. rewrite hex_digit_digit by lia. done.
      * apply Forall_singleton. unfold digit. case_match; lia.
      * simpl. split; [lia|]. intros. lia.
    + assert (Hq : 0 <= n / 16 < 16 ^ Z.of_nat (S k)).
      { rewrite (Nat2Z.inj_succ (S k)), Z.pow_succ_r in Hn by lia. split; [apply Z.div_pos; lia|]. apply Z.div_lt_upper_bound; lia. }
      destruct (IH (n / 16) (digit (n mod 16) :: acc) Hq) as (ds & Ed & Ef & Es & El & Ej). exists (ds ++ [digit (n mod 16)]).
      pose proof (Z.mod_pos_bound n 16 ltac:(lia)). split; [by rewrite Ed, <- app_assoc|]. split; [|split].
      * rewrite foldl_app, Ef. simpl. rewrite hex_digit_digit by done. simpl. f_equal. rewrite (Z.div_mod n 16) at 3 by lia. lia.
      * apply Forall_app. split; [done|]. apply Forall_singleton. unfold digit. case_match; lia.
      * rewrite length_app. cbn [length]. split; [lia|]. intros j Hj. destruct j as [|j].
        { change (16 ^ Z.of_nat 1) with 16 in Hj. lia. }
        assert (n / 16 < 16 ^ Z.of_nat (S j)). { rewrite (Nat2Z.inj_succ (S j)), Z.pow_succ_r in Hj by lia. apply Z.div_lt_upper_bound; lia. }
        specialize (Ej j ltac:(done)). lia.
Qed.
Lemma printf_x_hex n : 0 <= n < 2 ^ 28 -> foldl hex_step (Some 0) (printf_x n) = Some n /\ (13 ∉ printf_x n) /\ (length (printf_x n) <= 7)%nat.
Proof.
  intros Hn. unfold printf_x. rewrite u32_small by (unfold is_u32; lia).
  destruct (digits_hex 31 n []) as (ds & -> & Ef & Es & _ & Ej); [split; [lia|]; transitivity (2 ^ 28); [lia|reflexivity]|].
  rewrite app_nil_r. split; [done|]. split; [|apply (Ej 6%nat); lia].
  intros Hc. apply (proj1 (Forall_forall _ _) Es) in Hc. lia.
Qed.

Lemma unchunk_chunk n body after : lenZ body < 2 ^ 28 ->
  unchunk (S n) (chunk_text body ++ after) =
  if lenZ body =? 0 then Some ([], after) else '(more, after) ← unchunk n after; Some (body ++ more, after).
Proof.
  intros Hb. pose proof (lenZ_nonneg body) as Hb0. destruct (printf_x_hex (lenZ body) ltac:(lia)) as (Ef & Hc & _).
  unfold chunk_text. rewrite <- !app_assoc. cbn [unchunk]. change CRLF with [13; 10]. cbn [app].
  rewrite (proj2 (strchr_some _ 13 (printf_x (lenZ body)) (10 :: body ++ 13 :: 10 :: after)) (conj eq_refl Hc)), Ef. cbn [mbind option_bind].
  assert (El : Z.to_nat (lenZ body) = length body) by (unfold lenZ; lia).
  rewrite El, take_app_length, drop_app_length. rewrite Z.eqb_refl. done.
Qed.
Lemma unchunk_chunks bodies n after : Forall (fun b => lenZ b < 2 ^ 28 /\ b <> []) bodies -> (length bodies < n)%nat ->
  unchunk n (concat (map chunk_text bodies) ++ chunk_text [] ++ after) = Some (concat bodies, after).
Proof.
  intros Hb. revert n. induction Hb as [|b bodies [Hl Hne] _ IH]; intros n Hn; (destruct n as [|n]; [simpl in Hn; lia|]).
  - cbn [map concat app]. rewrite unchunk_chunk by done. done.
  - cbn [map concat]. rewrite <- app_assoc, unchunk_chunk by done.
    rewrite (proj2 (Z.eqb_neq (lenZ b) 0)) by (destruct b; [done|unfold lenZ; simpl; lia]). rewrite IH by (simpl in Hn; lia). done.
Qed.

(** The state in which chunks are sent. *)
Definition chunking (f : Z) hd : Prop := serving f hd /\ first_chunk_sent (hd_req_aux hd) = true.

Lemma chunk_delivers f hd body : chunking f hd -> (length body <= fuel)%nat -> (9 <= fuel)%nat -> lenZ body < 2 ^ 28 ->
  delivers f (sent f (world hd)) (chunk_text body) (chunking f) (httpd_resp_send_chunk fuel (Some body) (lenZ body) hd).
Proof.
  intros [S Hfc] Hn H9 Hb. pose proof (lenZ_nonneg body) as Hb0. unfold httpd_resp_send_chunk. rewrite resp_len_plain by done. ostep.
  set (hd1 := set_aux _ hd). assert (S1 : serving f hd1) by (destruct S as (i & s & Es & E); exists i, s; split; [exact Es|done]).
  change (first_chunk_sent (hd_req_aux hd1)) with (first_chunk_sent (hd_req_aux hd)). rewrite Hfc.
  change (world hd) with (world hd1). destruct (printf_x_hex (lenZ body) ltac:(lia)) as (_ & _ & L7).
  unfold chunk_text. rewrite app_assoc, take_ge by (rewrite length_app; simpl; lia).
  apply send_then_delivers; [done|rewrite length_app; simpl; lia|done|]. intros w E. rewrite buf_bytes_all by lia. ostep.
  apply send_then_delivers; [by apply serving_world|done|done|]. intros w2 E2.
  apply send_last_delivers; [by apply serving_world|simpl; lia|done|]. intros w3. split; [by apply serving_world|done].
Qed.

(** The response before its chunks. *)
Definition chunked_response hd : list Z := chunked_head (hd_req_aux hd) ++ header_lines (resp_hdrs (hd_req_aux hd)) ++ CRLF.

Lemma chunked_head_string a : is_string (status a) -> is_string (content_type a) -> is_string (chunked_head a).
Proof.
  intros Hs Hc. unfold chunked_head, is_string. rewrite !Forall_app. split_and!;
    first [exact Hs | exact Hc | apply is_string_chars; vm_compute; reflexivity].
Qed.

Lemma first_chunk_delivers f hd body : serving f hd -> first_chunk_sent (hd_req_aux hd) = false ->
  (length (chunked_response hd) + length body + 9 <= fuel)%nat -> lenZ body < 2 ^ 28 ->
  is_string (status (hd_req_aux hd)) -> is_string (content_type (hd_req_aux hd)) -> lenZ (chunked_head (hd_req_aux hd)) < scratch_size ->
  delivers f (sent f (world hd)) (chunked_response hd ++ chunk_text body) (chunking f) (httpd_resp_send_chunk fuel (Some body) (lenZ body) hd).
Proof.
  intros S Hfc Hn Hb Hs Hc Hl. pose proof (lenZ_nonneg body) as Hb0. unfold httpd_resp_send_chunk. rewrite resp_len_plain by done. ostep.
  set (hd1 := set_aux _ hd). assert (S1 : serving f hd1) by (destruct S as (i & s & Es & E); exists i, s; split; [exact Es|done]).
  change (first_chunk_sent (hd_req_aux hd1)) with (first_chunk_sent (hd_req_aux hd)). rewrite Hfc.
  unfold chunked_response in *. change (chunked_head (hd_req_aux hd)) with (chunked_head (hd_req_aux hd1)) in *.
  change (resp_hdrs (hd_req_aux hd)) with (resp_hdrs (hd_req_aux hd1)) in *. change (world hd) with (world hd1).
  rewrite !length_app in Hn. rewrite <- !app_assoc. destruct (printf_x_hex (lenZ body) ltac:(lia)) as (_ & _ & L7).
  apply (send_head_delivers f _ (chunked_head (hd_req_aux hd1))); [done|lia|by eapply lines_fit; [|done]; lia|done|by apply chunked_head_string|done|lia|].
  intros hd2 S2 _ E2. set (hd3 := set_aux _ hd2). assert (S3 : serving f hd3) by (destruct S2 as (i & s & Es & E); exists i, s; split; [exact Es|done]).
  unfold chunk_text. rewrite (app_assoc (printf_x _)), take_ge by (rewrite length_app; simpl; lia).
  apply send_then_delivers; [done|rewrite length_app; simpl; lia|done|]. intros w E. rewrite buf_bytes_all by lia. ostep.
  apply send_then_delivers; [by apply serving_world|lia|done|]. intros w2 E3.
  apply send_last_delivers; [by apply serving_world|simpl; lia|done|]. intros w3. split; [by apply serving_world|done].
Qed.

(** The failures of a call are those of the rest of a sequence. *)
Lemma delivers_then f base text text' ok ok' m (k : httpd_data -> outcome (Z * httpd_data)) : delivers f base text ok m ->
  (forall hd, ok hd -> sent f (world hd) = base ++ text -> delivers f (base ++ text) text' ok' (k hd)) ->
  delivers f base (text ++ text') ok' ('(ret, hd) ← m; if ret =? ESP_OK then k hd else Ok (ret, hd)).
Proof.
  intros (ret & hd1 & -> & [(-> & Es & Ho)|(-> & pre & Hp & Es)]) Hk; ostep; cbn.
  - destruct (Hk hd1 Ho Es) as (ret & hd2 & -> & [(-> & E2 & Ho2)|(-> & pre & Hp & E2)]); eexists _, _; (split; [done|]).
    + left. split; [done|]. by rewrite E2, <- app_assoc.
    + right. split; [done|]. exists (text ++ pre). split; [by apply prefix_app|]. by rewrite E2, <- app_assoc.
  - eexists _, _. split; [done|]. right. split; [done|]. exists pre. split; [by apply prefix_app_r|done].
Qed.
Lemma send_chunks_delivers f bodies hd : chunking f hd -> (9 <= fuel)%nat ->
  Forall (fun b => lenZ b < 2 ^ 28 /\ (length b <= fuel)%nat) bodies ->
  delivers f (sent f (world hd)) (concat (map chunk_text bodies)) (chunking f) (send_chunks bodies hd).
Proof.
  intros S H9 Hb. revert hd S. induction Hb as [|b bodies [Hl Hn] _ IH]; intros hd S; cbn [map concat send_chunks]; [by apply delivers_end|].
  apply (delivers_then f _ _ _ _ _ _ _ (chunk_delivers f hd b S Hn H9 Hl)). intros hd1 S1 E1. rewrite <- E1. by apply IH.
Qed.

(** C35. A response in chunks: the calls for the parts of a body, none of them empty,
    and a last one with no bytes put on the connection the head of the response once
    and then what a receiver of the chunked encoding reads back as the parts one
    behind the other, and nothing more, however few bytes the network takes at a
    time; when the connection fails the sequence ends with the error. *)
Theorem chunked_roundtrip f hd first bodies : serving f hd -> first_chunk_sent (hd_req_aux hd) = false ->
  is_string (status (hd_req_aux hd)) -> is_string (content_type (hd_req_aux hd)) -> lenZ (chunked_head (hd_req_aux hd)) < scratch_size ->
  Forall (fun b => lenZ b < 2 ^ 28 /\ b <> [] /\ (length (chunked_response hd) + length b + 9 <= fuel)%nat) (first :: bodies) ->
  exists wire, delivers f (sent f (world hd)) (chunked_response hd ++ wire) (chunking f) (send_chunks (first :: bodies ++ [[]]) hd) /\
    forall after, unchunk (S (S (length bodies))) (wire ++ after) = Some (concat (first :: bodies), after).
Proof.
  intros S Hfc Hs Hc Hl Hb. exists (concat (map chunk_text (first :: bodies)) ++ chunk_text []). split.
  - apply Forall_cons in Hb as [(Hf1 & _ & Hf3) Hb]. cbn [map concat send_chunks]. rewrite <- app_assoc, app_assoc.
    eapply delivers_then; [by apply first_chunk_delivers|]. intros hd1 S1 E1. rewrite <- E1.
    replace (concat (map chunk_text bodies) ++ chunk_text []) with (concat (map chunk_text (bodies ++ [[]]))) by (rewrite map_app, concat_app; reflexivity).
    apply send_chunks_delivers; [done|lia|]. apply Forall_app. split; [|apply Forall_singleton; split; [done|simpl; lia]].
    eapply Forall_impl; [exact Hb|]. intros b (? & _ & ?). split; [done|lia].
  - intros after. rewrite <- app_assoc. apply unchunk_chunks; [|simpl; lia]. eapply Forall_impl; [exact Hb|]. by intros b (? & ? & _).
Qed.
End response.
