(* ===== verification/HttpdHeaders.v ===== *)
(** * HTTP server: parameters and headers of a request

    The search in a query string, and the headers: what the callbacks of the parser
    leave in the scratch buffer and what the searches find there. *)
From S2P Require Import Prelude EspFlash CString Httpd HttpdTxrx HttpdUri HttpdParse.

(** Names are compared without case. *)
Definition same_name (a b : list Z) : bool := bool_decide (map tolower a = map tolower b).

Lemma tolower_pos c : 0 < c -> 0 < tolower c.
Proof. intros Hc. unfold tolower. destruct (_ && _); lia. Qed.
Lemma lower_string l : is_string l -> is_string (map tolower l).
Proof. induction 1; constructor; [by apply tolower_pos|done]. Qed.
(** The test of the code: the lengths, and the first characters. *)
Lemma name_test name key rest n : n = length name \/ n = length key ->
  negb (Nat.eqb (length name) (length key)) || negb (strncasecmp (name ++ rest) key n =? 0) = negb (same_name name key).
Proof.
  intros Hn. unfold same_name, strncasecmp. destruct (Nat.eqb_spec (length name) (length key)) as [El|El]; cbn [negb orb].
  - assert (E : strncmp (map tolower (name ++ rest)) (map tolower key) n = 0 <-> map tolower name = map tolower key).
    { rewrite map_app, strncmp_take by (rewrite ?length_app, !length_map; lia).
      rewrite take_app_le, !take_ge by (rewrite ?length_map; lia). done. }
    case_bool_decide as Hs; [by rewrite (proj2 E Hs)|]. by rewrite (proj2 (Z.eqb_neq _ _)) by tauto.
  - rewrite bool_decide_eq_false_2; [done|]. intros E%(f_equal length). rewrite !length_map in E. done.
Qed.

(** ** Copying a value to the caller *)

(** The buffer after a value was copied: it is cut to the buffer, with a zero. *)
Definition copied (v buf : list Z) (size : Z) : Z * list Z :=
  if size =? 0 then (ESP_ERR_HTTPD_RESULT_TRUNC, buf)
  else
    let w := take (Z.to_nat (size - 1)) v ++ [0] in
    (if lenZ v <? size then ESP_OK else ESP_ERR_HTTPD_RESULT_TRUNC, w ++ drop (length w) buf).

Lemma strlcpy_copied v rest buf size : 0 <= size <= lenZ buf ->
  strlcpy buf (v ++ rest) (Z.min (lenZ v + 1) size) = Ok (snd (copied v buf size)).
Proof.
  intros Hs. pose proof (lenZ_nonneg v). unfold strlcpy, copied. destruct (Z.eqb_spec size 0) as [->|Hn].
  - by rewrite Z.min_r by lia.
  - rewrite (proj2 (Z.eqb_neq (Z.min _ _) 0)) by lia.
    assert (Et : take (Z.to_nat (Z.min (lenZ v + 1) size - 1)) (v ++ rest) = take (Z.to_nat (size - 1)) v).
    { rewrite take_app_le by (unfold lenZ in *; lia). destruct (decide (lenZ v + 1 <= size)); [rewrite !take_ge by (unfold lenZ in *; lia); done|].
      f_equal. lia. }
    rewrite Et. rewrite (proj2 (Z.leb_le _ _)); [done|]. unfold lenZ in *. rewrite length_app, length_take. simpl. lia.
Qed.

(** ** The query *)
Definition param_text (p : list Z * list Z) : list Z := p.1 ++ 61 :: p.2.
Fixpoint query_text (ps : list (list Z * list Z)) : list Z :=
  match ps with
  | [] => []
  | [p] => param_text p
  | p :: ps => param_text p ++ 38 :: query_text ps
  end.
Definition param_ok (p : list Z * list Z) : Prop := (61 ∉ p.1) /\ (38 ∉ p.1) /\ (38 ∉ p.2).

Definition query_rest (ps : list (list Z * list Z)) : list Z := match ps with [] => [] | _ => 38 :: query_text ps end.
Lemma query_text_cons p ps : query_text (p :: ps) = p.1 ++ 61 :: p.2 ++ query_rest ps.
Proof. destruct ps; unfold query_text, param_text; [by rewrite app_nil_r|]. by rewrite <- app_assoc. Qed.

Lemma query_loop_exact n ps key buf size : (length ps < n)%nat -> Forall param_ok ps -> 0 <= size <= lenZ buf ->
  query_loop n (query_text ps) key buf size =
  Ok (match find (fun p => same_name p.1 key) ps with Some p => copied p.2 buf size | None => (ESP_ERR_NOT_FOUND, buf) end).
Proof.
  intros Hn Hp Hs. revert ps Hn Hp. induction n as [|n IH]; intros ps Hn Hp; [lia|]. cbn [query_loop].
  destruct ps as [|p ps]; [done|]. apply Forall_cons in Hp as [(Hn1 & _ & Hv1) Hp].
  rewrite query_text_cons. rewrite (proj2 (Z.eqb_neq _ 0)) by (unfold lenZ; rewrite length_app; simpl; lia).
  rewrite (proj2 (strchr_some _ 61 p.1 (p.2 ++ query_rest ps)) (conj eq_refl Hn1)). cbv zeta.
  rewrite name_test by (by left). cbn [find].
  assert (Er : strchr (p.2 ++ query_rest ps) 38 = match ps with [] => None | _ => Some (p.2, query_text ps) end).
  { destruct ps; cbn [query_rest]; [rewrite app_nil_r; by apply strchr_none|by apply strchr_some]. }
  rewrite Er. destruct (same_name p.1 key); cbn [negb].
  - replace (match match ps with [] => None | _ => Some (p.2, query_text ps) end with Some (text, _) => text | None => p.2 ++ query_rest ps end) with p.2
      by (destruct ps; [by rewrite app_nil_r|done]).
    rewrite strlcpy_copied by done. ostep. unfold copied. pose proof (lenZ_nonneg p.2).
    destruct (Z.eqb_spec size 0) as [->|]; cbn [fst snd]; [by rewrite (proj2 (Z.ltb_lt _ _)) by lia|].
    do 2 f_equal. destruct (Z.ltb_spec size (lenZ p.2 + 1)), (Z.ltb_spec (lenZ p.2) size); try lia; done.
  - destruct ps as [|q ps']; [done|]. apply IH; [simpl in *; lia|done].
Qed.

(** The value of a parameter of a query "name=value&name=value..." is the value of
    the first parameter with that name, compared without case: it is copied with its
    zero, or cut to the buffer and reported as truncated, and without such a
    parameter the buffer is left alone. *)
Theorem query_value_exact ps key buf size : Forall param_ok ps -> 0 <= size <= lenZ buf ->
  httpd_query_key_value (Some (query_text ps)) (Some key) (Some buf) size =
  Ok (match find (fun p => same_name p.1 key) ps with
      | Some p => let '(err, buf) := copied p.2 buf size in (err, Some buf)
      | None => (ESP_ERR_NOT_FOUND, Some buf)
      end).
Proof.
  intros Hp Hs. unfold httpd_query_key_value. rewrite query_loop_exact; [|..]; try done.
  - ostep. destruct (find _ ps) as [p|]; [|done]. by destruct (copied p.2 buf size).
  - clear. assert (L : forall ps, (length ps <= length (query_text ps))%nat); [|specialize (L ps); lia].
    intros qs. induction qs as [|p qs IH]; [done|]. rewrite query_text_cons, length_app. simpl. rewrite length_app.
    destruct qs; simpl in *; lia.
Qed.

(** ** Headers *)
Record header := mkHeader { h_name : list Z; h_blanks : nat; h_value : list Z; h_eol : list Z }.
Definition header_ok (h : header) : Prop :=
  is_string (h_name h) /\ (58 ∉ h_name h) /\ is_string (h_value h) /\ head (h_value h) <> Some 32 /\ (h_eol h = [13; 10] \/ h_eol h = [10]).
(** The line without its end. *)
Definition line_text (h : header) : list Z := h_name h ++ 58 :: repeat 32 (h_blanks h) ++ h_value h.
Definition raw_text (h : header) : list Z := line_text h ++ h_eol h.
(** The line in the buffer after the callbacks. *)
Definition kept_text (h : header) : list Z := line_text h ++ repeat 0 (length (h_eol h)).

Lemma line_string h : header_ok h -> is_string (line_text h).
Proof.
  intros (Hn & _ & Hv & _). unfold line_text. apply Forall_app. split; [done|]. constructor; [done|]. apply Forall_app. split; [|done].
  apply Forall_forall. intros c Hc. apply list_elem_of_In in Hc. apply repeat_spec in Hc. lia.
Qed.
Lemma kept_zero h : header_ok h -> exists n, kept_text h = line_text h ++ 0 :: repeat 0 n.
Proof. intros (_ & _ & _ & _ & [E|E]); unfold kept_text; rewrite E; [by exists 1%nat|by exists 0%nat]. Qed.

Lemma skip_blanks_repeat n v : head v <> Some 32 -> skip_blanks (repeat 32 n ++ v) = v.
Proof. intros Hv. induction n as [|n IH]; [|done]. destruct v as [|c v]; [done|]. simpl in *. by rewrite (proj2 (Z.eqb_neq c 32)) by congruence. Qed.
Lemma skip_zeros_line n h rest : header_ok h -> skip_zeros (repeat 0 n ++ line_text h ++ rest) = Ok (line_text h ++ rest).
Proof.
  intros Hh. induction n as [|n IH]; [|done]. pose proof (line_string h Hh) as L. unfold line_text in *. simpl.
  destruct (h_name h) as [|c nm]; [done|]. simpl in *. apply Forall_cons in L as [Hc _]. by rewrite (proj2 (Z.eqb_neq c 0)) by lia.
Qed.

Lemma drop_behind {A} (l : list A) x k : drop (S (length l)) (l ++ x :: k) = k.
Proof. induction l; [done|]. simpl. done. Qed.

(** The value of a field, by the names. *)
Definition header_value (field : list Z) (hs : list header) : option (list Z) := h_value <$> find (fun h => same_name (h_name h) field) hs.

Lemma find_hdr_kept hs field rest : Forall header_ok hs ->
  find_hdr (length hs) (concat (map kept_text hs) ++ rest) field = Ok (header_value field hs).
Proof.
  intros Hh. unfold header_value. induction Hh as [|h hs Hh Hhs IH]; [done|]. cbn [length map concat find_hdr find].
  destruct (kept_zero h Hh) as [n En]. pose proof (line_string h Hh) as L. pose proof Hh as (Hn & Hc & Hv & Hb & He).
  rewrite <- app_assoc, En, <- app_assoc. cbn [app]. rewrite c_str_app by done. ostep.
  unfold line_text at 1. rewrite (proj2 (strchr_some _ 58 (h_name h) (repeat 32 (h_blanks h) ++ h_value h)) (conj eq_refl Hc)).
  unfold line_text at 1. rewrite name_test by (by right). destruct (same_name (h_name h) field); cbn [negb].
  - by rewrite skip_blanks_repeat.
  - destruct hs as [|h2 hs2]; [done|]. cbn [length Nat.eqb].
    replace (drop (S (length (line_text h))) (line_text h ++ 0 :: repeat 0 n ++ concat (map kept_text (h2 :: hs2)) ++ rest))
      with (repeat 0 n ++ concat (map kept_text (h2 :: hs2)) ++ rest).
    2:{ by rewrite drop_behind. }
    apply Forall_cons in Hhs as [Hh2 Hhs2]. cbn [map concat]. unfold kept_text at 1. rewrite <- !app_assoc, skip_zeros_line by done. ostep.
    rewrite <- IH. cbn [map concat]. unfold kept_text at 2. by rewrite <- !app_assoc.
Qed.

(** ** The callbacks over the headers *)

(** A name or a value is reported in one or more pieces. *)
Fixpoint pieces (mk : Z -> Z -> parser_event) (pos : Z) (ns : list Z) : list parser_event :=
  match ns with [] => [] | n :: ns => mk pos n :: pieces mk (pos + n) ns end.
Definition sumZ (ns : list Z) : Z := foldr Z.add 0 ns.
(** The pieces of a text: none of them is empty. *)
Definition cuts (text : list Z) (ns : list Z) : Prop := sumZ ns = lenZ text /\ Forall (fun n => 0 < n) ns.

(** What the parser reports of a line at [pos]: an empty value is reported with no
    length, behind the end of the line. *)
Definition header_events (pos : Z) (h : header) (ns vs : list Z) : list parser_event :=
  pieces on_header_field pos ns ++
  match h_value h with
  | [] => [on_header_value (pos + lenZ (raw_text h)) 0]
  | _ => pieces on_header_value (pos + lenZ (h_name h) + 1 + Z.of_nat (h_blanks h)) vs
  end.
Fixpoint headers_events (pos : Z) (hs : list (header * list Z * list Z)) : list parser_event :=
  match hs with
  | [] => []
  | (h, ns, vs) :: hs => header_events pos h ns vs ++ headers_events (pos + lenZ (raw_text h)) hs
  end.
Definition reported_ok (x : header * list Z * list Z) : Prop :=
  let '(h, ns, vs) := x in header_ok h /\ h_name h <> [] /\ cuts (h_name h) ns /\ cuts (h_value h) vs.

Section callbacks.
Context `{HttpdConfig} `{HttpdEnv} `{HttpParser}.
Implicit Types (hd : httpd_data) (d : parser_data_t) (p : http_parser).

Fixpoint run_events p (evs : list parser_event) d hd : outcome (Z * parser_data_t * httpd_data) :=
  match evs with
  | [] => Ok (ESP_OK, d, hd)
  | ev :: evs => '(r, d, hd) ← callback 0 ev p d hd; if r =? ESP_OK then run_events p evs d hd else Ok (r, d, hd)
  end.
Lemma run_events_app p evs evs' d hd d' hd' : run_events p evs d hd = Ok (ESP_OK, d', hd') ->
  run_events p (evs ++ evs') d hd = run_events p evs' d' hd'.
Proof.
  revert d hd. induction evs as [|ev evs IH]; intros d hd R; [by injection R as <- <-|]. cbn [run_events app] in *.
  destruct (callback 0 ev p d hd) as [[[r d1] hd1]| | |]; try done. rewrite outcome_bind_Ok in *. destruct (r =? ESP_OK) eqn:E; [by apply IH|].
  injection R as -> _ _. done.
Qed.

(** A state with another buffer and count of headers. *)
Definition put (l : list Z) (k : Z) hd : httpd_data := set_aux ((hd_req_aux hd) <| scratch := l |> <| req_hdrs_count := k |>) hd.
Lemma put_scratch l l' k hd : set_scratch l' (put l k hd) = put l' k hd.
Proof. done. Qed.
Lemma put_count l k hd : count_header (put l k hd) = put l (k + 1) hd.
Proof. done. Qed.

(** Further pieces only add their lengths. *)
Lemma field_pieces p ns pos d hd : p_status d = PARSING_HDR_FIELD ->
  run_events p (pieces on_header_field pos ns) d hd = Ok (ESP_OK, d <| last_length := last_length d + sumZ ns |>, hd).
Proof.
  revert pos d. induction ns as [|n ns IH]; intros pos d E; cbn [pieces run_events].
  - do 3 f_equal. destruct d; unfold sumZ; cbn. f_equal. lia.
  - cbn [callback]. unfold cb_header_field. rewrite E. ostep. cbn [Z.eqb ESP_OK]. rewrite IH by done. change (sumZ (n :: ns)) with (n + sumZ ns). do 3 f_equal. destruct d; cbn. f_equal. lia.
Qed.
Lemma value_pieces p ns pos d hd : p_status d = PARSING_HDR_VALUE ->
  run_events p (pieces on_header_value pos ns) d hd = Ok (ESP_OK, d <| last_length := last_length d + sumZ ns |>, hd).
Proof.
  revert pos d. induction ns as [|n ns IH]; intros pos d E; cbn [pieces run_events].
  - do 3 f_equal. destruct d; unfold sumZ; cbn. f_equal. lia.
  - cbn [callback]. unfold cb_header_value. rewrite E. ostep. cbn [Z.eqb ESP_OK]. rewrite IH by done. change (sumZ (n :: ns)) with (n + sumZ ns). do 3 f_equal. destruct d; cbn. f_equal. lia.
Qed.

(** The state behind a line: the parser is at its end. *)
Definition behind (pos : Z) d : Prop := p_status d = PARSING_HDR_VALUE /\ last_at d + last_length d = pos.

Lemma back_to_colon_at l j k : (j < k <= length l)%nat -> l !! j = Some 58 -> (forall i, (j < i < k)%nat -> l !! i <> Some 58) ->
  back_to_colon l k = Ok j.
Proof.
  intros Hk Hj Hn. induction k as [|k IH]; [lia|]. cbn [back_to_colon].
  destruct (decide (k = j)) as [->|Hne]; [by rewrite Hj|].
  destruct (lookup_lt_is_Some_2 l k) as [c Ec]; [lia|]. rewrite Ec.
  rewrite (proj2 (Z.eqb_neq c 58)); [apply IH; [lia|]; intros i Hi; apply Hn; lia|].
  intros ->. apply (Hn k); [lia|done].
Qed.
Lemma skip_spaces_repeat n c rest : c <> 32 -> skip_spaces (repeat 32 n ++ c :: rest) = Ok n.
Proof. intros Hc. induction n as [|n IH]; simpl; [by rewrite (proj2 (Z.eqb_neq c 32))|]. by rewrite IH. Qed.

Lemma eol_chars h c : header_ok h -> c ∈ h_eol h -> c = 13 \/ c = 10.
Proof. intros (_ & _ & _ & _ & [E|E]) Hc; rewrite E in Hc; rewrite !elem_of_cons, elem_of_nil in Hc; tauto. Qed.
Lemma raw_line h : raw_text h = h_name h ++ 58 :: (repeat 32 (h_blanks h) ++ h_value h ++ h_eol h).
Proof. unfold raw_text, line_text. by rewrite <- !app_assoc; simpl; rewrite <- app_assoc. Qed.
Lemma line_len h : lenZ (line_text h) = lenZ (h_name h) + 1 + Z.of_nat (h_blanks h) + lenZ (h_value h).
Proof. unfold line_text, lenZ. rewrite length_app. simpl. rewrite length_app, repeat_length. lia. Qed.
Lemma raw_len h : lenZ (raw_text h) = lenZ (line_text h) + lenZ (h_eol h).
Proof. unfold raw_text. apply lenZ_app. Qed.
Lemma kept_len h : lenZ (kept_text h) = lenZ (raw_text h).
Proof. unfold kept_text, raw_text. rewrite !lenZ_app. unfold lenZ. by rewrite repeat_length. Qed.

(** The colon in front of an empty value. *)
Lemma empty_value_at C h X : header_ok h -> h_value h = [] ->
  back_to_colon (C ++ raw_text h ++ X) (Z.to_nat (lenZ C + lenZ (raw_text h))) = Ok (length C + length (h_name h))%nat.
Proof.
  intros Hh Hv. replace (Z.to_nat (lenZ C + lenZ (raw_text h))) with (length C + length (raw_text h))%nat by (unfold lenZ; lia).
  pose proof (raw_line h) as Er. rewrite Hv in Er. cbn [app] in Er.
  apply back_to_colon_at.
  - rewrite !length_app, Er, length_app. simpl. lia.
  - rewrite lookup_app_r by lia. replace (length C + length (h_name h) - length C)%nat with (length (h_name h)) by lia.
    rewrite Er, <- app_assoc. by apply list_lookup_middle.
  - intros i Hi. rewrite lookup_app_r by lia. rewrite lookup_app_l by lia. rewrite Er, lookup_app_r by lia.
    destruct (i - length C - length (h_name h))%nat as [|j] eqn:Ej; [lia|]. cbn [lookup list_lookup]. intros E%list_elem_of_lookup_2.
    apply elem_of_app in E as [E|E]; [apply list_elem_of_In, repeat_spec in E; done|]. by apply (eol_chars h) in E as [E|E].
Qed.

(** The value of a line whose name has been reported. *)
Lemma value_events p C h X vs k hd d : header_ok h -> cuts (h_value h) vs -> p_status d = PARSING_HDR_FIELD ->
  exists d', run_events p
    (match h_value h with
     | [] => [on_header_value (lenZ C + lenZ (raw_text h)) 0]
     | _ => pieces on_header_value (lenZ C + lenZ (h_name h) + 1 + Z.of_nat (h_blanks h)) vs
     end) d (put (C ++ raw_text h ++ X) k hd) = Ok (ESP_OK, d', put (C ++ raw_text h ++ X) k hd) /\
    behind (lenZ C + lenZ (line_text h)) d' /\ raw_datalen d' = raw_datalen d.
Proof.
  intros Hh [Hs Hp] E. destruct (h_value h) as [|c v] eqn:Ev.
  - cbn [run_events callback]. unfold cb_header_value. rewrite E, Z.add_0_l. cbn [Z.eqb].
    change (scratch (hd_req_aux (put (C ++ raw_text h ++ X) k hd))) with (C ++ raw_text h ++ X).
    rewrite empty_value_at by done. ostep.
    replace (drop (S (length C + length (h_name h))) (C ++ raw_text h ++ X)) with (repeat 32 (h_blanks h) ++ h_eol h ++ X).
    2:{ rewrite raw_line, Ev, <- length_app. cbn [app].
      replace (C ++ (h_name h ++ 58 :: repeat 32 (h_blanks h) ++ h_eol h) ++ X) with ((C ++ h_name h) ++ 58 :: (repeat 32 (h_blanks h) ++ h_eol h ++ X))
        by (rewrite <- !app_assoc; simpl; by rewrite <- app_assoc).
      by rewrite drop_behind. }
    assert (Hsk : skip_spaces (repeat 32 (h_blanks h) ++ h_eol h ++ X) = Ok (h_blanks h)).
    { destruct Hh as (_ & _ & _ & _ & [->| ->]); by apply skip_spaces_repeat. }
    rewrite Hsk. ostep. ostep. cbn [Z.eqb ESP_OK]. eexists. split; [done|]. split; [|done]. split; [done|]. cbn. rewrite line_len, Ev. unfold lenZ. simpl. lia.
  - destruct vs as [|v1 vs]; [exfalso; unfold sumZ, lenZ in Hs; simpl in Hs; lia|]. apply Forall_cons in Hp as [Hv1 Hp]. cbn [pieces run_events callback].
    unfold cb_header_value. rewrite E, (proj2 (Z.eqb_neq v1 0)) by lia. ostep. ostep. cbn [Z.eqb ESP_OK].
    rewrite value_pieces by done. eexists. split; [done|]. split; [|done]. split; [done|]. cbn. rewrite line_len, Ev, <- Hs. cbn. unfold sumZ. lia.
Qed.

(** The state after some headers: [K] is what the buffer holds of them when the end
    of the last line is cleared, [X] what follows. *)
Definition after_headers (K : list Z) (k : Z) (X : list Z) hd0 d hd : Prop :=
  exists C g, header_ok g /\ C ++ kept_text g = K /\ hd = put (C ++ raw_text g ++ X) k hd0 /\ behind (lenZ C + lenZ (line_text g)) d.

Lemma clear_line C g X k hd : clear_scratch (lenZ C + lenZ (line_text g)) (lenZ C + lenZ (raw_text g)) (put (C ++ raw_text g ++ X) k hd) =
  Ok (put (C ++ kept_text g ++ X) k hd).
Proof.
  pose proof (raw_len g) as El. pose proof (lenZ_nonneg (h_eol g)). pose proof (lenZ_nonneg (line_text g)). pose proof (lenZ_nonneg C).
  unfold clear_scratch. change (scratch (hd_req_aux (put (C ++ raw_text g ++ X) k hd))) with (C ++ raw_text g ++ X).
  rewrite (proj2 (andb_true_iff _ _)).
  2:{ split; apply Z.leb_le; [lia|]. rewrite !lenZ_app. pose proof (lenZ_nonneg X). lia. }
  rewrite put_scratch. do 2 f_equal.
  replace (take (Z.to_nat (lenZ C + lenZ (line_text g))) (C ++ raw_text g ++ X)) with (C ++ line_text g).
  2:{ unfold raw_text. rewrite <- app_assoc, app_assoc. rewrite take_app_length'; [done|]. rewrite length_app. unfold lenZ. lia. }
  replace (drop (Z.to_nat (lenZ C + lenZ (raw_text g))) (C ++ raw_text g ++ X)) with X.
  2:{ rewrite app_assoc, drop_app_length'; [done|]. rewrite length_app. unfold lenZ. lia. }
  unfold kept_text. rewrite <- !app_assoc. do 4 f_equal. unfold lenZ in *. lia.
Qed.

Lemma header_step p K k X hd0 d hd h ns vs : after_headers K k (raw_text h ++ X) hd0 d hd -> reported_ok (h, ns, vs) ->
  exists d' hd', run_events p (header_events (lenZ K) h ns vs) d hd = Ok (ESP_OK, d', hd') /\
    after_headers (K ++ kept_text h) (k + 1) X hd0 d' hd' /\ raw_datalen d' = raw_datalen d.
Proof.
  intros (C & g & Hg & HK & -> & [Es Ea]) (Hh & Hne & [Hn1 Hn2] & Hv).
  assert (EK : lenZ K = lenZ C + lenZ (raw_text g)) by (by rewrite <- HK, lenZ_app, kept_len).
  destruct ns as [|n ns]; [exfalso; destruct (h_name h); [done|]; unfold sumZ, lenZ in Hn1; simpl in Hn1; lia|].
  unfold header_events. cbn [pieces].
  assert (R1 : exists d1, run_events p (on_header_field (lenZ K) n :: pieces on_header_field (lenZ K + n) ns) d (put (C ++ raw_text g ++ raw_text h ++ X) k hd0) =
    Ok (ESP_OK, d1, put (K ++ raw_text h ++ X) (k + 1) hd0) /\ p_status d1 = PARSING_HDR_FIELD /\ raw_datalen d1 = raw_datalen d).
  { cbn [run_events callback]. unfold cb_header_field. rewrite Es, Ea, Z.add_0_l, EK, clear_line. ostep. ostep. cbn [Z.eqb ESP_OK].
    rewrite field_pieces by done. eexists. split; [rewrite put_count, app_assoc, HK; done|done]. }
  destruct R1 as (d1 & R1 & Es1 & El1). rewrite (run_events_app _ _ _ _ _ _ _ R1).
  destruct (value_events p K h X vs (k + 1) hd0 d1 Hh Hv Es1) as (d2 & R2 & Hb & El2). rewrite R2.
  eexists _, _. split; [done|]. split; [|congruence]. exists K, h. done.
Qed.
Lemma headers_steps p hs : forall K k X hd0 d hd, after_headers K k (concat (map (fun x => raw_text x.1.1) hs) ++ X) hd0 d hd -> Forall reported_ok hs ->
  exists d' hd', run_events p (headers_events (lenZ K) hs) d hd = Ok (ESP_OK, d', hd') /\
    after_headers (K ++ concat (map (fun x => kept_text x.1.1) hs)) (k + lenZ hs) X hd0 d' hd' /\ raw_datalen d' = raw_datalen d.
Proof.
  induction hs as [|[[h ns] vs] hs IH]; intros K k X hd0 d hd A Hr.
  - exists d, hd. split; [done|]. split; [|done]. cbn [map concat] in *. by rewrite app_nil_r, Z.add_0_r.
  - apply Forall_cons in Hr as [Hh Hr]. cbn [map concat fst headers_events] in *. rewrite <- app_assoc in A.
    destruct (header_step p _ _ _ _ _ _ h ns vs A Hh) as (d1 & hd1 & R1 & A1 & L1). rewrite (run_events_app _ _ _ _ _ _ _ R1).
    replace (lenZ K + lenZ (raw_text h)) with (lenZ (K ++ kept_text h)) by (by rewrite lenZ_app, kept_len).
    destruct (IH _ _ _ _ _ _ A1 Hr) as (d2 & hd2 & R2 & A2 & L2). exists d2, hd2. split; [done|]. split; [|congruence].
    rewrite <- app_assoc in A2. rewrite lenZ_cons. by replace (k + (1 + lenZ hs)) with (k + 1 + lenZ hs) by lia.
Qed.

(** The first header: its first piece was reported before the parser was paused. *)
Lemma first_header p X hd0 d h ns vs : reported_ok (h, ns, vs) -> p_status d = PARSING_HDR_FIELD ->
  exists d', run_events p (tail (header_events 0 h ns vs)) d (put (raw_text h ++ X) 0 hd0) = Ok (ESP_OK, d', put (raw_text h ++ X) 0 hd0) /\
    after_headers (kept_text h) 0 X hd0 d' (put (raw_text h ++ X) 0 hd0) /\ raw_datalen d' = raw_datalen d.
Proof.
  intros (Hh & Hne & [Hn1 Hn2] & Hv) E.
  destruct ns as [|n ns]; [exfalso; destruct (h_name h); [done|]; unfold sumZ, lenZ in Hn1; simpl in Hn1; lia|].
  unfold header_events. cbn [pieces app tail]. pose proof (field_pieces p ns (0 + n) d (put (raw_text h ++ X) 0 hd0) E) as R1.
  rewrite (run_events_app _ _ _ _ _ _ _ R1). match type of R1 with _ = Ok (_, ?d', _) => set (d1 := d') in * end.
  destruct (value_events p [] h X vs 0 hd0 d1 Hh Hv E) as (d2 & R2 & Hb & El2).
  change (lenZ []) with 0 in R2. cbn [app] in R2. exists d2. split; [exact R2|]. split; [|done]. by exists [], h.
Qed.

(** A line end that is overwritten. *)
Definition line_end (eol : list Z) : Prop := eol = [13; 10] \/ eol = [10].
Lemma clear_terminators_eol n A eol Y rt : line_end eol -> 0 < rt ->
  clear_terminators (length eol + n) (length A) rt (A ++ eol ++ Y) =
  clear_terminators n (length (A ++ repeat 0 (length eol))) (rt - 1) ((A ++ repeat 0 (length eol)) ++ Y).
Proof.
  assert (Step : forall m B c Z0, clear_terminators (S m) (length B) rt (B ++ c :: Z0) =
    if rt =? 0 then Ok (rt, length B, B ++ c :: Z0) else clear_terminators m (S (length B)) (if c =? 10 then rt - 1 else rt) (B ++ 0 :: Z0)).
  { intros m B c Z0. cbn [clear_terminators]. rewrite list_lookup_middle by done.
    replace (<[length B := 0]> (B ++ c :: Z0)) with (B ++ 0 :: Z0) by (rewrite insert_app_r_alt, Nat.sub_diag by lia; done). done. }
  intros [->| ->] Hr; cbn [length Nat.add repeat app]; rewrite Step, (proj2 (Z.eqb_neq rt 0)) by lia; cbn [Z.eqb].
  - change (13 =? 10) with false. cbv iota. replace (A ++ 0 :: 10 :: Y) with ((A ++ [0]) ++ 10 :: Y) by (by rewrite <- app_assoc).
    replace (S (length A)) with (length (A ++ [0%Z])) by (rewrite length_app; simpl; lia).
    rewrite Step, (proj2 (Z.eqb_neq rt 0)) by lia. change (10 =? 10) with true. cbv iota.
    f_equal; [rewrite !length_app; simpl; lia|by rewrite <- !app_assoc].
  - change (10 =? 10) with true. cbv iota. f_equal; [rewrite !length_app; simpl; lia|by rewrite <- !app_assoc].
Qed.
Lemma clear_terminators_none n a l : clear_terminators n a 0 l = Ok (0, a, l).
Proof. by destruct n. Qed.

(** The length of the body that a request announces; the largest value stands for
    none. *)
Definition body_len p : Z := if content_length p =? 2 ^ 64 - 1 then 0 else content_length p.
Definition length_ok p : Prop := content_length p = 2 ^ 64 - 1 \/ 0 <= content_length p < 2 ^ 32 - 1.
Lemma body_len_exact p : length_ok p -> (if s32 (content_length p) =? -1 then 0 else u32 (content_length p)) = body_len p.
Proof.
  unfold body_len. intros [->|Hl]; [reflexivity|]. rewrite (proj2 (Z.eqb_neq (content_length p) _)) by lia.
  rewrite u32_small by (unfold is_u32; lia). rewrite (proj2 (Z.eqb_neq _ (-1))); [done|].
  unfold s32. rewrite u32_small by (unfold is_u32; lia). destruct (_ <? _); lia.
Qed.

Lemma complete_step p K k final X hd0 d hd : after_headers K k (final ++ X) hd0 d hd -> line_end final ->
  lenZ K + lenZ final <= raw_datalen d -> upgrade p = false -> length_ok p ->
  exists d' hd', run_events p [on_headers_complete] d hd = Ok (ESP_OK, d', hd') /\ p_status d' = PARSING_BODY /\ last_at d' = lenZ K + lenZ final /\
    scratch (hd_req_aux hd') = K ++ repeat 0 (length final) ++ X /\ req_hdrs_count (hd_req_aux hd') = k + 1 /\
    content_len (hd_req hd') = body_len p /\ remaining_len (hd_req_aux hd') = body_len p.
Proof.
  intros (C & g & Hg & HK & -> & [Es Ea]) Hf Hr Hu Hl. pose proof Hg as (_ & _ & _ & _ & He).
  assert (EK : lenZ K = lenZ C + lenZ (line_text g) + lenZ (h_eol g)) by (rewrite <- HK, lenZ_app, kept_len, raw_len; lia).
  assert (Hge : 1 <= lenZ (h_eol g) /\ 1 <= lenZ final) by (destruct He as [->| ->], Hf as [->| ->]; unfold lenZ; simpl; lia).
  cbn [run_events callback]. unfold cb_headers_complete. rewrite Es, Ea. rewrite (proj2 (Z.ltb_ge _ _)) by lia.
  change (scratch (hd_req_aux (put (C ++ raw_text g ++ final ++ X) k hd0))) with (C ++ raw_text g ++ final ++ X).
  set (m := (Z.to_nat (raw_datalen d - (lenZ C + lenZ (line_text g))) - length (h_eol g) - length final)%nat).
  replace (Z.to_nat (raw_datalen d - (lenZ C + lenZ (line_text g)))) with (length (h_eol g) + (length final + m))%nat by (unfold m, lenZ in *; lia).
  replace (Z.to_nat (lenZ C + lenZ (line_text g))) with (length (C ++ line_text g)) by (rewrite length_app; unfold lenZ; lia).
  replace (C ++ raw_text g ++ final ++ X) with ((C ++ line_text g) ++ h_eol g ++ final ++ X) by (unfold raw_text; by rewrite <- !app_assoc).
  rewrite clear_terminators_eol, clear_terminators_eol, clear_terminators_none by (done || lia). ostep. cbn [Z.eqb negb].
  assert (EK2 : (C ++ line_text g) ++ repeat 0 (length (h_eol g)) = K) by (rewrite <- HK; unfold kept_text; by rewrite <- app_assoc).
  rewrite EK2. unfold headers_done. rewrite Hu. ostep. cbn [Z.eqb ESP_OK]. eexists _, _. split; [done|].
  cbn. rewrite (body_len_exact p Hl). split; [done|]. split; [rewrite length_app, repeat_length; unfold lenZ; lia|]. by rewrite <- app_assoc.
Qed.

(** ** The request as the application sees it *)
Definition lines (hs : list (header * list Z * list Z)) : list header := map (fun x => x.1.1) hs.
Lemma concat_lines (f : header -> list Z) hs : concat (map (fun x => f x.1.1) hs) = concat (map f (lines hs)).
Proof. unfold lines. by rewrite map_map. Qed.

Lemma strlcpy_value v buf size : 0 <= size <= lenZ buf -> strlcpy buf v size = Ok (snd (copied v buf size)).
Proof.
  intros Hs. unfold strlcpy, copied. destruct (size =? 0) eqn:E; [done|]. apply Z.eqb_neq in E. rewrite (proj2 (Z.leb_le _ _)); [done|].
  unfold lenZ in *. rewrite length_app, length_take. simpl. lia.
Qed.
Lemma hdr_value_copied field val size hd v : req_hdr field hd = Ok v -> 0 <= size <= lenZ val ->
  httpd_req_get_hdr_value_str field val size hd = Ok (match v with Some v => copied v val size | None => (ESP_ERR_NOT_FOUND, val) end).
Proof.
  intros E Hs. unfold httpd_req_get_hdr_value_str. rewrite E. ostep. destruct v as [v|]; [|done]. rewrite strlcpy_value by done. ostep.
  unfold copied. pose proof (lenZ_nonneg v). destruct (Z.eqb_spec size 0) as [->|]; cbn [snd]; [by rewrite (proj2 (Z.ltb_lt _ _)) by lia|].
  do 2 f_equal. destruct (Z.ltb_spec size (lenZ v + 1)), (Z.ltb_spec (lenZ v) size); try lia; done.
Qed.

(** C33. When the parser reports the lines of a request, each name and value in any
    number of pieces, and the end of the headers, then the request is ready for its
    body, whose length it knows, and a search for a header finds the value of the
    first line with that name, compared without case and without the blanks in
    front of it: its length is exact, and the value is copied with its zero, or cut
    to the buffer and reported as truncated. *)
Theorem headers_exact p h ns vs hs final X hd0 d : reported_ok (h, ns, vs) -> Forall reported_ok hs -> line_end final ->
  p_status d = PARSING_HDR_FIELD -> upgrade p = false -> length_ok p ->
  let all := h :: lines hs in
  let text := concat (map raw_text all) ++ final in
  lenZ text <= raw_datalen d ->
  exists d' hd',
    run_events p (tail (header_events 0 h ns vs) ++ headers_events (lenZ (raw_text h)) hs ++ [on_headers_complete]) d (put (text ++ X) 0 hd0) = Ok (ESP_OK, d', hd') /\
    p_status d' = PARSING_BODY /\ last_at d' = lenZ text /\ content_len (hd_req hd') = body_len p /\ remaining_len (hd_req_aux hd') = body_len p /\
    forall field,
      httpd_req_get_hdr_value_len field hd' = Ok (match header_value field all with Some v => lenZ v | None => 0 end) /\
      forall val size, 0 <= size <= lenZ val ->
        httpd_req_get_hdr_value_str field val size hd' =
        Ok (match header_value field all with Some v => copied v val size | None => (ESP_ERR_NOT_FOUND, val) end).
Proof.
  intros Hr Hrs Hf Es Hu Hl all text Ht.
  assert (Etext : text ++ X = raw_text h ++ concat (map raw_text (lines hs)) ++ final ++ X) by (unfold text, all; cbn [map concat]; by rewrite <- !app_assoc).
  rewrite Etext. destruct (first_header p (concat (map raw_text (lines hs)) ++ final ++ X) hd0 d h ns vs Hr Es) as (d1 & R1 & A1 & L1).
  rewrite (run_events_app _ _ _ _ _ _ _ R1). rewrite <- concat_lines in A1 at 1.
  destruct (headers_steps p hs _ _ _ _ _ _ A1 Hrs) as (d2 & hd2 & R2 & A2 & L2). rewrite kept_len in R2.
  rewrite (run_events_app _ _ _ _ _ _ _ R2). rewrite concat_lines in A2.
  assert (EK : lenZ (kept_text h ++ concat (map kept_text (lines hs))) = lenZ (concat (map raw_text all))).
  { unfold all. cbn [map concat]. rewrite !lenZ_app, kept_len. f_equal. clear. induction (lines hs) as [|x l IH]; [done|]. cbn [map concat]. by rewrite !lenZ_app, kept_len, IH. }
  destruct (complete_step p _ _ final X hd0 d2 hd2 A2 Hf) as (d3 & hd3 & R3 & P1 & P2 & P3 & P4 & P5 & P6); [|done|done|].
  { rewrite EK, <- lenZ_app. fold text. lia. }
  exists d3, hd3. split; [exact R3|]. split; [done|]. split; [by rewrite P2, EK, <- lenZ_app|]. split; [done|]. split; [done|].
  assert (F : forall field, req_hdr field hd3 = Ok (header_value field all)).
  { intros field. unfold req_hdr. rewrite P3, P4. replace (Z.to_nat (0 + lenZ hs + 1)) with (length all) by (unfold all, lines, lenZ; simpl; rewrite length_map; lia).
    change (kept_text h ++ concat (map kept_text (lines hs))) with (concat (map kept_text all)). apply find_hdr_kept.
    unfold all. constructor; [by destruct Hr|]. unfold lines. apply Forall_map. eapply Forall_impl; [exact Hrs|]. intros [[x xn] xv] (Hx & _). exact Hx. }
  intros field. split; [unfold httpd_req_get_hdr_value_len; by rewrite F|]. intros val size Hs. by apply hdr_value_copied.
Qed.
End callbacks.
