(* ===== verification/HttpdSess.v ===== *)
(** * HTTP server: sessions and the main loop ([httpd_sess.c], [httpd_main.c])

    The table of sessions, the closing of the least recently used one through the
    control socket, one round of the server, and its life. *)
From S2P Require Import Prelude EspFlash CString Httpd HttpdTxrx HttpdUri HttpdParse.

Section sess.
Context `{HttpdConfig} `{HttpdEnv} `{HttpParser} (fuel : nat).
Implicit Types (hd : httpd_data) (s : sock_db).

(** ** The table *)
Definition httpd_is_sess_available hd : bool := existsb (fun s => fd s =? -1) (hd_sd hd).

(** The function of the application, 0 is [NULL]. *)
Definition call_close (sockfd : Z) hd : outcome httpd_data :=
  if close_fn (config hd) =? 0 then Ok hd else app_close (close_fn (config hd)) sockfd hd.
Definition free_sess_ctx (i : nat) hd : outcome httpd_data :=
  s ← sd_at hd i;
  if ctx s =? 0 then Ok hd
  else Ok (set_sd i (s <| ctx := 0 |> <| sd_free_ctx := 0 |>) (httpd_sess_free_ctx (ctx s) (sd_free_ctx s) hd)).
Definition free_sess_transport_ctx (i : nat) hd : outcome httpd_data :=
  s ← sd_at hd i;
  if transport_ctx s =? 0 then Ok hd
  else Ok (set_sd i (s <| transport_ctx := 0 |> <| free_transport_ctx := 0 |>) (httpd_sess_free_ctx (transport_ctx s) (free_transport_ctx s) hd)).
Definition release_sess (i : nat) (sockfd : Z) hd : outcome httpd_data :=
  hd ← call_close sockfd hd;
  hd ← free_sess_ctx i hd;
  hd ← free_sess_transport_ctx i hd;
  s ← sd_at hd i;
  Ok (set_sd i (s <| fd := -1 |>) hd).

(** The last descriptor in front of the place. *)
Definition preceding_fd (l : list sock_db) : Z := default (-1) (last (filter (fun f => f <> -1) (map fd l))).
Definition httpd_sess_delete (sockfd : Z) hd : outcome (Z * httpd_data) :=
  match find_fd (hd_sd hd) sockfd with
  | None => Ok (preceding_fd (hd_sd hd), hd)
  | Some i => let pre_sess_fd := preceding_fd (take i (hd_sd hd)) in hd ← release_sess i sockfd hd; Ok (pre_sess_fd, hd)
  end.

Definition httpd_sess_new (newfd : Z) hd : outcome (Z * httpd_data) :=
  match httpd_sess_get hd newfd with
  | Some _ => Ok (ESP_FAIL, hd)
  | None =>
      match find_fd (hd_sd hd) (-1) with
      | None => Ok (ESP_FAIL, hd)
      | Some i =>
          let hd := set_sd i (sock_zero <| fd := newfd |> <| send_fn := DefaultFn |> <| recv_fn := DefaultFn |>) hd in
          if open_fn (config hd) =? 0 then Ok (ESP_OK, hd)
          else
            '(ret, hd) ← app_open (open_fn (config hd)) newfd hd;
            if ret =? ESP_OK then Ok (ESP_OK, hd)
            else
              s ← sd_at hd i;
              '(_, hd) ← httpd_sess_delete (fd s) hd;
              Ok (ret, hd)
      end
  end.

(** The descriptors in use, and the greatest. *)
Definition httpd_sess_set_descriptors hd : list Z * Z :=
  let fds := filter (fun f => f <> -1) (map fd (hd_sd hd)) in
  (fds, foldl (fun m f => if m <? f then f else m) (-1) fds).

Definition httpd_sess_get_lru_counter hd : Z * httpd_data :=
  let n := (lru_count hd + 1) mod 2 ^ 64 in (n, hd <| lru_count := n |>).

Definition httpd_sess_delete_invalid hd : outcome httpd_data :=
  foldl (fun o i =>
    hd ← o;
    s ← sd_at hd i;
    if negb (fd s =? -1) && negb (net_fd_is_valid (fd s) (world hd)) then '(_, hd) ← httpd_sess_delete (fd s) hd; Ok hd else Ok hd)
    (Ok hd) (seq 0 (length (hd_sd hd))).

Definition httpd_sess_init hd : httpd_data := hd <| hd_sd := map (fun s => s <| fd := -1 |> <| ctx := 0 |>) (hd_sd hd) |>.

(** A session that is not found is reported as [ESP_FAIL], which is true. *)
Definition httpd_sess_pending (sockfd : Z) hd : outcome (bool * httpd_data) :=
  match httpd_sess_get hd sockfd with
  | None => Ok (true, hd)
  | Some i =>
      s ← sd_at hd i;
      '(n, hd) ← (if pending_fn s =? 0 then Ok (0, hd)
                  else let '(n, w) := app_pending (pending_fn s) sockfd hd in Ok (n, set_world w hd));
      if 0 <? n then Ok (true, hd) else s ← sd_at hd i; Ok (negb (pending_len s =? 0), hd)
  end.

Definition httpd_sess_process (newfd : Z) hd : outcome (Z * httpd_data) :=
  match httpd_sess_get hd newfd with
  | None => Ok (ESP_FAIL, hd)
  | Some i =>
      '(err, hd) ← httpd_req_new fuel i hd;
      if negb (err =? ESP_OK) then Ok (ESP_FAIL, hd)
      else
        '(err, hd) ← httpd_req_delete fuel hd;
        if negb (err =? ESP_OK) then Ok (ESP_FAIL, hd)
        else
          let '(n, hd) := httpd_sess_get_lru_counter hd in
          s ← sd_at hd i;
          Ok (ESP_OK, set_sd i (s <| lru_counter := n |>) hd)
  end.

Definition httpd_sess_update_lru_counter (sockfd : Z) hd : outcome (Z * httpd_data) :=
  match find_fd (hd_sd hd) sockfd with
  | None => Ok (ESP_ERR_NOT_FOUND, hd)
  | Some i => let '(n, hd) := httpd_sess_get_lru_counter hd in s ← sd_at hd i; Ok (ESP_OK, set_sd i (s <| lru_counter := n |>) hd)
  end.

(** ** The control socket *)
Definition httpd_queue_work (work : httpd_work_fn_t) hd : Z * httpd_data :=
  let '(ret, w) := ctrl_send (msg_fd hd) (HTTPD_CTRL_WORK work) (world hd) in
  (if ret <? 0 then ESP_FAIL else ESP_OK, set_world w hd).

Definition httpd_sess_trigger_close (sockfd : Z) hd : Z * httpd_data :=
  match httpd_sess_get hd sockfd with
  | Some i => httpd_queue_work (sess_close_work (Some i)) hd
  | None => (ESP_ERR_NOT_FOUND, hd)
  end.

(** The loop: [None] when a place is free, otherwise the descriptor of the first
    session with the least counter. *)
Fixpoint find_lru (l : list sock_db) (counter lru_fd : Z) : option Z :=
  match l with
  | [] => Some lru_fd
  | s :: l =>
      if fd s =? -1 then None
      else if lru_counter s <? counter then find_lru l (lru_counter s) (fd s)
      else find_lru l counter lru_fd
  end.
Definition httpd_sess_close_lru hd : outcome (Z * httpd_data) :=
  match find_lru (hd_sd hd) (2 ^ 64 - 1) (-1) with
  | None => Ok (ESP_OK, hd)
  | Some lru_fd =>
      match httpd_sess_get hd lru_fd with
      | None => Fault
      | Some i => s ← sd_at hd i; Ok (httpd_sess_trigger_close lru_fd (set_sd i (s <| lru_socket := true |>) hd))
      end
  end.

(** The first session in use from a place on. *)
Definition first_fd (l : list sock_db) : Z := default (-1) (head (filter (fun f => f <> -1) (map fd l))).
Definition httpd_sess_iterate (start_fd : Z) hd : Z :=
  let start_index := if start_fd =? -1 then O else match find_fd (hd_sd hd) start_fd with Some i => S i | None => O end in
  first_fd (drop start_index (hd_sd hd)).

Definition close_socket (sockfd : Z) hd : httpd_data := set_world (net_close sockfd (world hd)) hd.

Definition httpd_sess_close (arg : option nat) hd : outcome httpd_data :=
  match arg with
  | None => Ok hd
  | Some i =>
      s ← sd_at hd i;
      if (lru_counter s =? 0) && negb (lru_socket s) then Ok hd
      else
        '(_, hd) ← httpd_sess_delete (fd s) (set_sd i (s <| lru_socket := false |>) hd);
        Ok (close_socket (fd s) hd)
  end.

(** ** The server *)
Definition httpd_accept_conn hd : outcome (Z * httpd_data) :=
  if lru_purge_enable (config hd) && negb (httpd_is_sess_available hd) then httpd_sess_close_lru hd
  else
    let '(new_fd, w) := net_accept (listen_fd hd) (world hd) in
    let hd := set_world w hd in
    if new_fd <? 0 then Ok (ESP_FAIL, hd)
    else
      '(ret, hd) ← httpd_sess_new new_fd hd;
      if negb (ret =? ESP_OK) then Ok (ESP_FAIL, close_socket new_fd hd) else Ok (ESP_OK, hd).

Fixpoint close_all (n : nat) (sockfd : Z) hd : outcome httpd_data :=
  let sockfd := httpd_sess_iterate sockfd hd in
  if sockfd =? -1 then Ok hd
  else
    match n with
    | O => OutOfFuel
    | S n => '(_, hd) ← httpd_sess_delete sockfd hd; close_all n sockfd (close_socket sockfd hd)
    end.
Definition httpd_close_all_sessions hd : outcome httpd_data := close_all fuel (-1) hd.

(** [None] is a failed or incomplete message. *)
Definition httpd_process_ctrl_msg hd : outcome httpd_data :=
  let '(msg, w) := ctrl_recv (ctrl_fd hd) (world hd) in
  let hd := set_world w hd in
  match msg with
  | None => Ok hd
  | Some HTTPD_CTRL_SHUTDOWN => Ok (hd <| td_status := THREAD_STOPPING |>)
  | Some (HTTPD_CTRL_WORK (sess_close_work arg)) => httpd_sess_close arg hd
  | Some (HTTPD_CTRL_WORK (app_work_fn f arg)) => if f =? 0 then Ok hd else app_work f arg hd
  end.

(** The sessions after [sockfd], of which the ones in [read_set] or with pending data
    are processed. *)
Fixpoint process_sessions (n : nat) (read_set : list Z) (sockfd : Z) hd : outcome httpd_data :=
  let sockfd := httpd_sess_iterate sockfd hd in
  if sockfd =? -1 then Ok hd
  else
    match n with
    | O => OutOfFuel
    | S n =>
        '(go, hd) ← (if bool_decide (sockfd ∈ read_set) then Ok (true, hd) else httpd_sess_pending sockfd hd);
        if (go : bool) then
          '(err, hd) ← httpd_sess_process sockfd hd;
          if negb (err =? ESP_OK) then
            '(sockfd, hd) ← httpd_sess_delete sockfd (close_socket sockfd hd);
            process_sessions n read_set sockfd hd
          else process_sessions n read_set sockfd hd
        else process_sessions n read_set sockfd hd
    end.

Definition httpd_server hd : outcome (Z * httpd_data) :=
  let listen := if lru_purge_enable (config hd) || httpd_is_sess_available hd then [listen_fd hd] else [] in
  let '(ready, w) := net_select (listen ++ ctrl_fd hd :: fst (httpd_sess_set_descriptors hd)) (world hd) in
  let hd := set_world w hd in
  match ready with
  | None => hd ← httpd_sess_delete_invalid hd; Ok (ESP_OK, hd)
  | Some read_set =>
      hd ← (if bool_decide (ctrl_fd hd ∈ read_set) then httpd_process_ctrl_msg hd else Ok hd);
      if bool_decide (ctrl_fd hd ∈ read_set) && (match td_status hd with THREAD_STOPPING => true | _ => false end) then Ok (ESP_FAIL, hd)
      else
        hd ← process_sessions fuel read_set (-1) hd;
        if bool_decide (listen_fd hd ∈ read_set) then '(_, hd) ← httpd_accept_conn hd; Ok (ESP_OK, hd) else Ok (ESP_OK, hd)
  end.

(** The rounds of the server task, and its end. *)
Fixpoint server_rounds (n : nat) hd : outcome httpd_data :=
  match n with
  | O => OutOfFuel
  | S n => '(ret, hd) ← httpd_server hd; if ret =? ESP_OK then server_rounds n hd else Ok hd
  end.
Definition httpd_thread_loop hd : outcome httpd_data :=
  hd ← server_rounds fuel hd;
  let hd := close_socket (ctrl_fd hd) (close_socket (msg_fd hd) hd) in
  hd ← httpd_close_all_sessions hd;
  Ok ((close_socket (listen_fd hd) hd) <| td_status := THREAD_STOPPED |>).
Definition httpd_thread hd : outcome httpd_data := httpd_thread_loop (hd <| td_status := THREAD_RUNNING |>).

(** ** Starting and stopping *)
Definition ESP_SOCK_STREAM := 1.
Definition ESP_SOCK_DGRAM := 2.
Definition httpd_server_init hd : Z * httpd_data :=
  let '(fd, w) := net_socket ESP_SOCK_STREAM (world hd) in
  if fd <? 0 then (ESP_FAIL, set_world w hd)
  else
    let '(ret, w) := net_bind fd w in
    if ret <? 0 then (ESP_FAIL, set_world (net_close fd w) hd)
    else
      let '(ret, w) := net_listen fd w in
      if ret <? 0 then (ESP_FAIL, set_world (net_close fd w) hd)
      else
        let '(cfd, w) := cs_create_ctrl_sock w in
        if cfd <? 0 then (ESP_FAIL, set_world (net_close fd w) hd)
        else
          let '(mfd, w) := net_socket ESP_SOCK_DGRAM w in
          if mfd <? 0 then (ESP_FAIL, set_world (net_close cfd (net_close fd w)) hd)
          else (ESP_OK, (set_world w hd) <| listen_fd := fd |> <| ctrl_fd := cfd |> <| msg_fd := mfd |>).

(** [alloc] says for each of the five blocks whether there is memory. *)
Definition httpd_create (alloc : list bool) (c : httpd_config_t) (w : net) : option httpd_data :=
  if forallb id alloc then
    Some (mkHttpd c 0 0 0 THREAD_IDLE (repeat sock_zero (Z.to_nat (max_open_sockets c))) (repeat NoCall (Z.to_nat (max_uri_handlers c)))
      init_req (mkAux None (repeat 0 (Z.to_nat scratch_size)) 0 [] [] false 0 [] (mkUrl 0 (repeat (0, 0) 7)))
      (repeat 0 (Z.to_nat HTTPD_ERR_CODE_MAX)) 0 [] w)
  else None.
(** The memory of the server is gone; what it freed and the network are left. *)
Definition httpd_delete hd : outcome (list (Z * Z) * net) :=
  hd ← httpd_unregister_all_uri_handlers hd; Ok (freed hd, world hd).

(** The error, the server, which its task runs, and the network. *)
Definition httpd_start (CONFIG_LWIP_MAX_SOCKETS : Z) (alloc : list bool) (thread_ok : bool) (config : option httpd_config_t) (w : net) : outcome (Z * option httpd_data * net) :=
  match config with
  | None => Ok (ESP_ERR_INVALID_ARG, None, w)
  | Some c =>
      if CONFIG_LWIP_MAX_SOCKETS <? max_open_sockets c + 3 then Ok (ESP_ERR_INVALID_ARG, None, w)
      else
        match httpd_create alloc c w with
        | None => Ok (ESP_ERR_HTTPD_ALLOC_MEM, None, w)
        | Some hd =>
            let '(ret, hd) := httpd_server_init hd in
            if negb (ret =? ESP_OK) then '(_, w) ← httpd_delete hd; Ok (ESP_FAIL, None, w)
            else
              let hd := httpd_sess_init hd in
              if negb thread_ok then '(_, w) ← httpd_delete hd; Ok (ESP_ERR_HTTPD_TASK, None, w)
              else Ok (ESP_OK, Some hd, world hd)
        end
  end.

(** The caller waits until the task of the server has run to its end. *)
Definition httpd_stop hd : outcome (Z * list (Z * Z) * net) :=
  let '(_, w) := ctrl_send (msg_fd hd) HTTPD_CTRL_SHUTDOWN (world hd) in
  hd ← httpd_thread_loop (set_world w hd);
  let c := config hd in
  let hd := httpd_sess_free_ctx (global_user_ctx c) (global_user_ctx_free_fn c) hd in
  let hd := hd <| config := (config hd) <| global_user_ctx := 0 |> |> in
  let hd := httpd_sess_free_ctx (global_transport_ctx c) (global_transport_ctx_free_fn c) hd in
  let hd := hd <| config := (config hd) <| global_transport_ctx := 0 |> |> in
  '(fr, w) ← httpd_delete hd;
  Ok (ESP_OK, fr, w).
End sess.
