(* ===== verification/HttpdRound.v ===== *)
(** * HTTP server: one round over the sessions

    Serving a session leaves the descriptors of the others alone, and the loop of
    [httpd_server] serves each session once, in the order of the table, although it
    removes those that fail on its way. *)
From S2P Require Import Prelude EspFlash CString Httpd HttpdTxrx HttpdUri HttpdParse HttpdSess.

(** What the application may not do in its functions: change the table of the
    descriptors. *)
Class AppKeepsFds `{HttpdEnv} := {
  keep_handler : forall f hd x hd', app_handler f hd = Ok (x, hd') -> map fd (hd_sd hd') = map fd (hd_sd hd);
  keep_err_handler : forall f e hd x hd', app_err_handler f e hd = Ok (x, hd') -> map fd (hd_sd hd') = map fd (hd_sd hd);
  keep_close : forall f s hd hd', app_close f s hd = Ok hd' -> map fd (hd_sd hd') = map fd (hd_sd hd);
  keep_open : forall f s hd x hd', app_open f s hd = Ok (x, hd') -> map fd (hd_sd hd') = map fd (hd_sd hd);
  keep_work : forall f a hd hd', app_work f a hd = Ok hd' -> map fd (hd_sd hd') = map fd (hd_sd hd)
}.

Section keeps.
Context `{HttpdConfig} `{HttpdEnv} `{HttpParser} (fuel : nat).
Implicit Types (hd : httpd_data) (s : sock_db) (l : list Z).

Definition fds hd : list Z := map fd (hd_sd hd).

(** A computation that ends with the descriptors [l]. *)
Definition keeps {A} l (m : outcome (A * httpd_data)) : Prop := forall a hd, m = Ok (a, hd) -> fds hd = l.
Definition keeps_state l (m : outcome httpd_data) : Prop := forall hd, m = Ok hd -> fds hd = l.

Lemma keeps_ok {A} l (a : A) hd : fds hd = l -> keeps l (Ok (a, hd)).
Proof. by intros E b hd' [= <- <-]. Qed.
Lemma keeps_state_ok l hd : fds hd = l -> keeps_state l (Ok hd).
Proof. by intros E hd' [= <-]. Qed.

Lemma keeps_bind {A B} l (m : outcome (A * httpd_data)) (k : A * httpd_data -> outcome (B * httpd_data)) :
  keeps l m -> (forall a hd, fds hd = l -> keeps l (k (a, hd))) -> keeps l (m ≫= k).
Proof. intros Hm Hk b hd E. destruct m as [[a hd1]| | |]; try done. by apply (Hk a hd1 (Hm a hd1 eq_refl) b hd). Qed.
Lemma keeps_bind_state {B} l (m : outcome httpd_data) (k : httpd_data -> outcome (B * httpd_data)) :
  keeps_state l m -> (forall hd, fds hd = l -> keeps l (k hd)) -> keeps l (m ≫= k).
Proof. intros Hm Hk b hd E. destruct m as [hd1| | |]; try done. by apply (Hk hd1 (Hm hd1 eq_refl) b hd). Qed.
Lemma keeps_bind_pure {A B} l (m : outcome A) (k : A -> outcome (B * httpd_data)) :
  (forall a, keeps l (k a)) -> keeps l (m ≫= k).
Proof. intros Hk b hd E. destruct m as [a| | |]; try done. by apply (Hk a b hd). Qed.
Lemma keeps_state_bind {A} l (m : outcome (A * httpd_data)) (k : A * httpd_data -> outcome httpd_data) :
  keeps l m -> (forall a hd, fds hd = l -> keeps_state l (k (a, hd))) -> keeps_state l (m ≫= k).
Proof. intros Hm Hk hd E. destruct m as [[a hd1]| | |]; try done. by apply (Hk a hd1 (Hm a hd1 eq_refl) hd). Qed.
Lemma keeps_state_bind_state l (m : outcome httpd_data) (k : httpd_data -> outcome httpd_data) :
  keeps_state l m -> (forall hd, fds hd = l -> keeps_state l (k hd)) -> keeps_state l (m ≫= k).
Proof. intros Hm Hk hd E. destruct m as [hd1| | |]; try done. by apply (Hk hd1 (Hm hd1 eq_refl) hd). Qed.
Lemma keeps_state_bind_pure {A} l (m : outcome A) (k : A -> outcome httpd_data) :
  (forall a, keeps_state l (k a)) -> keeps_state l (m ≫= k).
Proof. intros Hk hd E. destruct m as [a| | |]; try done. by apply (Hk a hd). Qed.

(** The place of a session is known from [sd_at]; its descriptor is not changed. *)
Lemma fds_set_sd i s' hd : (forall s, hd_sd hd !! i = Some s -> fd s' = fd s) -> fds (set_sd i s' hd) = fds hd.
Proof.
  intros E. unfold fds, set_sd. simpl. change (@map sock_db Z) with (@fmap list _ sock_db Z). rewrite list_fmap_insert.
  destruct (hd_sd hd !! i) as [s|] eqn:Es.
  - apply list_insert_id. rewrite list_lookup_fmap, Es. simpl. by rewrite (E s).
  - apply list_insert_ge. rewrite length_fmap. by apply lookup_ge_None.
Qed.
Lemma keeps_set_sd {A} l (a : A) i s s' hd : hd_sd hd !! i = Some s -> fd s' = fd s -> fds hd = l -> keeps l (Ok (a, set_sd i s' hd)).
Proof. intros Es E El. apply keeps_ok. rewrite fds_set_sd; [done|]. by intros t Et; simplify_eq. Qed.

Lemma sd_at_Ok hd i s : sd_at hd i = Ok s <-> hd_sd hd !! i = Some s.
Proof. unfold sd_at. case_match; naive_solver. Qed.
Lemma keeps_sd_at {A} l hd i (k : sock_db -> outcome (A * httpd_data)) :
  (forall s, hd_sd hd !! i = Some s -> keeps l (k s)) -> keeps l (sd_at hd i ≫= k).
Proof. intros Hk b hd' E. destruct (sd_at hd i) as [s| | |] eqn:Es; try done. apply sd_at_Ok in Es. by apply (Hk s Es b hd'). Qed.
Lemma req_sd_Ok hd i s : req_sd hd = Ok (i, s) -> hd_sd hd !! i = Some s.
Proof. unfold req_sd. destruct (sd _) as [j|]; [|done]. destruct (sd_at hd j) as [t| | |] eqn:E; try done. intros [= <- <-]. by apply sd_at_Ok. Qed.
Lemma keeps_req_sd {A} l hd (k : nat * sock_db -> outcome (A * httpd_data)) :
  (forall i s, hd_sd hd !! i = Some s -> keeps l (k (i, s))) -> keeps l (req_sd hd ≫= k).
Proof. intros Hk b hd' E. destruct (req_sd hd) as [[i s]| | |] eqn:Es; try done. apply req_sd_Ok in Es. by apply (Hk i s Es b hd'). Qed.
End keeps.

(** One step through a computation. *)
Create HintDb keeps.
Ltac keep_end := first [assumption | reflexivity | rewrite fds_set_sd; [assumption|naive_solver]].
Ltac keep_step :=
  lazymatch goal with
  | |- forall _, _ => intro
  | |- keeps _ (let _ := _ in _) => cbv zeta
  | |- keeps _ (Ok (match ?c with _ => _ end)) => destruct c eqn:?
  | |- keeps _ (Ok _) => apply keeps_ok
  | |- keeps _ Fault => intros ? ? [=]
  | |- keeps _ OutOfFuel => intros ? ? [=]
  | |- keeps_state _ (Ok _) => apply keeps_state_ok
  | |- keeps _ (sd_at _ _ ≫= _) => apply keeps_sd_at; intros ? ?
  | |- keeps _ (req_sd _ ≫= _) => apply keeps_req_sd; intros ? ? ?
  | |- keeps _ (_ ≫= _) =>
      first [ eapply keeps_bind; [solve [eauto with keeps] | intros ? ? ?; cbv beta iota]
            | eapply keeps_bind_state; [solve [eauto with keeps] | intros ? ?]
            | eapply keeps_bind; [| intros ? ? ?; cbv beta iota]
            | apply keeps_bind_pure; intros ? ]
  | |- keeps _ (match (_, _) with _ => _ end) => cbv beta iota
  | |- keeps _ (match ?c with _ => _ end) => destruct c eqn:?
  | |- keeps _ _ => solve [eauto with keeps]
  | |- fds _ = _ => keep_end
  end.
Ltac keep := repeat keep_step.

Section calls.
Context `{HttpdConfig} `{HttpdEnv} `{HttpParser} `{!AppKeepsFds} (fuel : nat).
Implicit Types (hd : httpd_data) (s : sock_db) (l : list Z).

Lemma call_send_keeps l f sockfd buf hd : fds hd = l -> keeps l (call_send f sockfd buf hd).
Proof. intros E. unfold call_send, httpd_default_send. keep. Qed.
#[local] Hint Resolve call_send_keeps : keeps.
Lemma call_recv_keeps l f sockfd n hd : fds hd = l -> keeps l (call_recv f sockfd n hd).
Proof. intros E. unfold call_recv, httpd_default_recv. keep. Qed.
#[local] Hint Resolve call_recv_keeps : keeps.

Lemma set_override_keeps l set sockfd hd : (forall s, fd (set s) = fd s) -> fds hd = l -> keeps l (set_override set sockfd hd).
Proof. intros Hs E. unfold set_override. keep. Qed.
Lemma httpd_recv_with_opt_keeps l n b hd : fds hd = l -> keeps l (httpd_recv_with_opt n b hd).
Proof. intros E. unfold httpd_recv_with_opt, httpd_recv_pending. keep. Qed.
#[local] Hint Resolve httpd_recv_with_opt_keeps : keeps.
Lemma httpd_unrecv_keeps l buf hd : fds hd = l -> keeps l (httpd_unrecv buf hd).
Proof. intros E. unfold httpd_unrecv. keep. Qed.
#[local] Hint Resolve httpd_unrecv_keeps : keeps.
Lemma httpd_req_recv_keeps l n hd : fds hd = l -> keeps l (httpd_req_recv n hd).
Proof. intros E. unfold httpd_req_recv, httpd_recv. keep. Qed.
#[local] Hint Resolve httpd_req_recv_keeps : keeps.
Lemma send_all_keeps l n buf hd : fds hd = l -> keeps l (send_all n buf hd).
Proof. revert buf hd. induction n as [|n IH]; intros buf hd E; simpl; keep. Qed.
#[local] Hint Resolve send_all_keeps : keeps.

(** Responses.  What follows a part that was sent is a continuation. *)
Lemma send_then_keeps l buf hd k : fds hd = l -> (forall hd, fds hd = l -> keeps l (k hd)) -> keeps l (send_then fuel buf hd k).
Proof. intros E Hk. unfold send_then, httpd_send_all. keep. Qed.
Lemma send_hdrs_keeps l hdrs hd k : fds hd = l -> (forall hd, fds hd = l -> keeps l (k hd)) -> keeps l (send_hdrs fuel hdrs hd k).
Proof.
  revert hd. induction hdrs as [|[f v] hdrs IH]; intros hd E Hk; simpl; [by apply Hk|].
  repeat (apply send_then_keeps; [done|clear E hd; intros hd E]). by apply IH.
Qed.
Lemma send_head_keeps l text hd k : fds hd = l -> (forall hd, fds hd = l -> keeps l (k hd)) -> keeps l (send_head fuel text hd k).
Proof.
  intros E Hk. unfold send_head, snprintf_scratch. keep. apply send_then_keeps; [done|]. intros. apply send_hdrs_keeps; [done|].
  intros. by apply send_then_keeps.
Qed.
Lemma httpd_resp_send_keeps l buf n hd : fds hd = l -> keeps l (httpd_resp_send fuel buf n hd).
Proof.
  intros E. unfold httpd_resp_send. keep. apply send_head_keeps; [done|]. intros. keep. apply send_then_keeps; [done|]. intros. keep.
Qed.
#[local] Hint Resolve httpd_resp_send_keeps : keeps.
Lemma httpd_resp_send_err_keeps l e msg hd : fds hd = l -> keeps l (httpd_resp_send_err fuel e msg hd).
Proof. intros E. unfold httpd_resp_send_err, set_nodelay, httpd_resp_set_status, httpd_resp_set_type. keep. Qed.
#[local] Hint Resolve httpd_resp_send_err_keeps : keeps.
Lemma app_err_handler_keeps l f e hd : fds hd = l -> keeps l (app_err_handler f e hd).
Proof. intros <- a hd' R. exact (keep_err_handler _ _ _ _ _ R). Qed.
Lemma app_handler_keeps l f hd : fds hd = l -> keeps l (app_handler f hd).
Proof. intros <- a hd' R. exact (keep_handler _ _ _ _ R). Qed.
#[local] Hint Resolve app_err_handler_keeps app_handler_keeps : keeps.
Lemma httpd_req_handle_err_keeps l e hd : fds hd = l -> keeps l (httpd_req_handle_err fuel e hd).
Proof. intros E. unfold httpd_req_handle_err. keep. Qed.
#[local] Hint Resolve httpd_req_handle_err_keeps : keeps.
Lemma httpd_uri_keeps l hd : fds hd = l -> keeps l (httpd_uri fuel hd).
Proof. intros E. unfold httpd_uri. keep. Qed.
#[local] Hint Resolve httpd_uri_keeps : keeps.

(** The callbacks of the parser. *)
Lemma verify_url_fds p d hd : fds (snd (verify_url p d hd)) = fds hd.
Proof. unfold verify_url. repeat case_match; done. Qed.
Lemma pause_parsing_keeps l a d hd : fds hd = l -> keeps l (pause_parsing a d hd).
Proof. intros E. unfold pause_parsing. keep. Qed.
#[local] Hint Resolve pause_parsing_keeps : keeps.
Lemma message_complete_keeps l a d hd : fds hd = l -> keeps l (message_complete a d hd).
Proof. intros E. unfold message_complete. keep. Qed.
#[local] Hint Resolve message_complete_keeps : keeps.
Lemma headers_done_keeps l p d hd : fds hd = l -> keeps l (Ok (headers_done p d hd)).
Proof. intros E. unfold headers_done. keep. Qed.
#[local] Hint Resolve headers_done_keeps : keeps.
Lemma clear_scratch_keeps l a b hd : fds hd = l -> keeps_state l (clear_scratch a b hd).
Proof. intros E. unfold clear_scratch. case_match; [by apply keeps_state_ok|by intros ? [=]]. Qed.
#[local] Hint Resolve clear_scratch_keeps : keeps.
Ltac keep_verify :=
  match goal with |- keeps ?l ?g => match g with context [verify_url ?p ?d ?hd] =>
    let V := fresh in assert (V : fds (snd (verify_url p d hd)) = l) by (rewrite verify_url_fds; assumption); destruct (verify_url p d hd) as [[? ?] ?]; cbn [snd] in V; cbv beta iota
  end end.

Lemma callback_keeps l offset ev p d hd : fds hd = l -> keeps l (callback offset ev p d hd).
Proof.
  intros E. destruct ev; unfold callback, cb_url, cb_header_field, cb_header_value, cb_headers_complete, cb_on_body, cb_no_body; destruct (p_status d);
    try keep_verify; repeat first [apply headers_done_keeps | keep_step].
Qed.
#[local] Hint Resolve callback_keeps : keeps.
Lemma http_parser_execute_keeps l n ps off len pos d hd : fds hd = l -> keeps l (http_parser_execute n ps off len pos d hd).
Proof. revert ps pos d hd. induction n as [|n IH]; intros ps pos d hd E; simpl; keep. Qed.
#[local] Hint Resolve http_parser_execute_keeps : keeps.
Lemma read_block_keeps l off len hd : fds hd = l -> keeps l (read_block fuel off len hd).
Proof. intros E. unfold read_block. keep. Qed.
#[local] Hint Resolve read_block_keeps : keeps.
Lemma parse_block_keeps l ps off len d hd : fds hd = l -> keeps l (parse_block fuel ps off len d hd).
Proof. intros E. unfold parse_block. keep. Qed.
#[local] Hint Resolve parse_block_keeps : keeps.
Lemma parse_loop_keeps l n ps off d hd : fds hd = l -> keeps l (parse_loop fuel n ps off d hd).
Proof. revert ps off d hd. induction n as [|n IH]; intros ps off d hd E; simpl; keep. Qed.
#[local] Hint Resolve parse_loop_keeps : keeps.

(** A request, and the serving of a session. *)
Lemma httpd_req_cleanup_keeps l hd : fds hd = l -> keeps_state l (httpd_req_cleanup hd).
Proof.
  intros E hd' R. unfold httpd_req_cleanup in R. destruct (negb (aux (hd_req hd))); [done|].
  destruct (req_sd hd) as [[i s]| | |] eqn:Es; try done. apply req_sd_Ok in Es. rewrite outcome_bind_Ok in R. injection R as <-.
  set (hd1 := if _ && _ then _ else hd). assert (E1 : hd_sd hd1 = hd_sd hd) by (subst hd1; destruct (_ && _); [unfold httpd_sess_free_ctx; by destruct (_ =? _)|done]).
  change (fds (set_sd i (s <| ctx := sess_ctx (hd_req hd) |> <| sd_free_ctx := free_ctx (hd_req hd) |>
    <| sd_ignore_sess_ctx_changes := ignore_sess_ctx_changes (hd_req hd) |>) hd1) = l).
  rewrite fds_set_sd; [unfold fds in *; by rewrite E1|]. intros t Et. rewrite E1, Es in Et. by injection Et as <-.
Qed.
#[local] Hint Resolve httpd_req_cleanup_keeps : keeps.
Lemma httpd_req_new_keeps l i hd : fds hd = l -> keeps l (httpd_req_new fuel i hd).
Proof. intros E. unfold httpd_req_new, httpd_parse_req. keep. Qed.
#[local] Hint Resolve httpd_req_new_keeps : keeps.
Lemma purge_keeps l n hd : fds hd = l -> keeps l (purge n hd).
Proof. revert hd. induction n as [|n IH]; intros hd E; simpl; keep. Qed.
#[local] Hint Resolve purge_keeps : keeps.
Lemma httpd_sess_process_keeps l f hd : fds hd = l -> keeps l (httpd_sess_process fuel f hd).
Proof. intros E. unfold httpd_sess_process, httpd_req_delete, httpd_sess_get_lru_counter. keep. Qed.
Lemma httpd_sess_pending_keeps l f hd : fds hd = l -> keeps l (httpd_sess_pending f hd).
Proof. intros E. unfold httpd_sess_pending. keep. Qed.
End calls.

(** ** The loop over the sessions *)
Section round.
Context `{HttpdConfig} `{HttpdEnv} `{HttpParser} `{!AppKeepsFds} (fuel : nat).
Implicit Types (hd : httpd_data) (l : list Z).

Definition active l : list Z := filter (fun f => f <> -1) l.
Definition last_active l : Z := default (-1) (last (active l)).

Lemma active_app l k : active (l ++ k) = active l ++ active k.
Proof. apply filter_app. Qed.
Lemma active_tail k : active k = [] -> forall l, active (l ++ k) = active l.
Proof. intros E l. by rewrite active_app, E, app_nil_r. Qed.
Lemma last_active_snoc l f : f <> -1 -> last_active (l ++ [f]) = f.
Proof. intros Hf. unfold last_active. rewrite active_app. unfold active at 2. rewrite filter_cons_True, filter_nil by done. by rewrite last_snoc. Qed.
Lemma last_active_free l : last_active (l ++ [-1]) = last_active l.
Proof. unfold last_active. rewrite active_app. unfold active at 2. rewrite filter_cons_False, filter_nil, app_nil_r by tauto. done. Qed.
Lemma preceding_fd_active (k : list sock_db) : preceding_fd k = last_active (map fd k).
Proof. done. Qed.

Lemma find_fd_at (k : list sock_db) a f b : map fd k = a ++ f :: b -> f ∉ a -> find_fd k f = Some (length a).
Proof.
  revert a. induction k as [|s k IH]; intros a E Ha; [by destruct a|]. destruct a as [|x a]; injection E as Ex E; simpl.
  - by rewrite Ex, Z.eqb_refl.
  - rewrite Ex, (proj2 (Z.eqb_neq x f)) by set_solver. by rewrite (IH a) by set_solver.
Qed.
Lemma first_fd_active (k : list sock_db) : first_fd k = default (-1) (head (active (map fd k))).
Proof. done. Qed.

Lemma last_active_split a :
  (active a = [] /\ last_active a = -1) \/ exists a1 f a2, a = a1 ++ f :: a2 /\ f <> -1 /\ active a2 = [] /\ last_active a = f.
Proof.
  induction a as [|x a IH] using rev_ind; [by left|]. destruct (decide (x = -1)) as [->|Hx].
  - rewrite last_active_free, active_app. destruct IH as [[Ea El]|(a1 & f & a2 & -> & Hf & Ea & El)].
    + left. by rewrite Ea.
    + right. exists a1, f, (a2 ++ [-1]). split; [by rewrite <- app_assoc|]. split; [done|]. split; [|done]. by rewrite active_app, Ea.
  - right. exists a, x, []. by rewrite last_active_snoc.
Qed.
Lemma active_elem f l : f <> -1 -> f ∈ l -> f ∈ active l.
Proof. intros Hf Hl. by apply list_elem_of_filter. Qed.
Lemma nodup_before a f b : f <> -1 -> NoDup (active (a ++ f :: b)) -> f ∉ a.
Proof.
  intros Hf N Ha. rewrite active_app in N. apply NoDup_app in N as (_ & N & _). apply (N f); [by apply active_elem|].
  apply active_elem; [done|]. apply list_elem_of_here.
Qed.

(** The next session behind the places [a], of which the last in use is known. *)
Lemma iterate_from hd a b : fds hd = a ++ b -> NoDup (active (a ++ b)) ->
  httpd_sess_iterate (last_active a) hd = default (-1) (head (active b)).
Proof.
  intros E N. unfold httpd_sess_iterate. rewrite first_fd_active. unfold fds in E.
  assert (Ed : forall n, map fd (drop n (hd_sd hd)) = drop n (a ++ b)) by (intros n; rewrite <- E; apply (fmap_drop fd)).
  rewrite Ed. clear Ed. destruct (last_active_split a) as [[Ea ->]|(a1 & f & a2 & -> & Hf & Ea & ->)].
  - simpl. by rewrite drop_0, active_app, Ea.
  - rewrite (proj2 (Z.eqb_neq f (-1))) by done. rewrite <- app_assoc in E, N. cbn [app] in E, N.
    rewrite (find_fd_at _ _ _ _ E) by (by eapply nodup_before). rewrite <- app_assoc. cbn [app].
    replace (S (length a1)) with (length (a1 ++ [f]))%nat by (rewrite length_app; simpl; lia).
    replace (a1 ++ f :: a2 ++ b) with ((a1 ++ [f]) ++ a2 ++ b) by (by rewrite <- app_assoc).
    rewrite drop_app_length. by rewrite active_app, Ea.
Qed.

(** ** Removing a session *)
Lemma release_fds l i f hd : fds hd = l -> (i < length l)%nat -> keeps_state (<[i := -1]> l) (release_sess i f hd).
Proof.
  intros E Hi hd' R. unfold release_sess in R.
  destruct (call_close f hd) as [h1| | |] eqn:E1; try done. rewrite outcome_bind_Ok in R.
  assert (F1 : fds h1 = l).
  { unfold call_close in E1. destruct (_ =? 0); [by injection E1 as <-|]. rewrite <- E. exact (keep_close _ _ _ _ E1). }
  destruct (free_sess_ctx i h1) as [h2| | |] eqn:E2; try done. rewrite outcome_bind_Ok in R.
  assert (F2 : fds h2 = l).
  { unfold free_sess_ctx in E2. destruct (sd_at h1 i) as [s| | |] eqn:Es; try done. apply sd_at_Ok in Es. rewrite outcome_bind_Ok in E2.
    unfold httpd_sess_free_ctx in E2. destruct (ctx s =? 0); injection E2 as <-; [done|]. rewrite fds_set_sd; [done|].
    intros t Et. simpl in Et. rewrite Es in Et. by injection Et as <-. }
  destruct (free_sess_transport_ctx i h2) as [h3| | |] eqn:E3; try done. rewrite outcome_bind_Ok in R.
  assert (F3 : fds h3 = l).
  { unfold free_sess_transport_ctx in E3. destruct (sd_at h2 i) as [s| | |] eqn:Es; try done. apply sd_at_Ok in Es. rewrite outcome_bind_Ok in E3.
    unfold httpd_sess_free_ctx in E3. destruct (transport_ctx s =? 0); injection E3 as <-; [done|]. rewrite fds_set_sd; [done|].
    intros t Et. simpl in Et. rewrite Es in Et. by injection Et as <-. }
  destruct (sd_at h3 i) as [s| | |] eqn:Es; try done. rewrite outcome_bind_Ok in R. injection R as <-.
  unfold fds, set_sd. simpl. rewrite <- F3. apply (list_fmap_insert fd).
Qed.

Lemma delete_at hd a f b : fds hd = a ++ f :: b -> NoDup (active (a ++ f :: b)) -> f <> -1 ->
  forall r hd', httpd_sess_delete f hd = Ok (r, hd') -> r = last_active a /\ fds hd' = a ++ -1 :: b.
Proof.
  intros E N Hf r hd' R. unfold httpd_sess_delete in R. rewrite (find_fd_at _ _ _ _ E) in R by (by eapply nodup_before).
  destruct (release_sess (length a) f hd) as [h| | |] eqn:Er; try done. rewrite outcome_bind_Ok in R. injection R as <- <-.
  split.
  - rewrite preceding_fd_active. change (map fd (take (length a) (hd_sd hd))) with (fd <$> take (length a) (hd_sd hd)).
    rewrite fmap_take. change (fd <$> hd_sd hd) with (fds hd). by rewrite E, take_app_length.
  - assert (Hi : (length a < length (a ++ f :: b))%nat) by (rewrite length_app; simpl; lia).
    rewrite (release_fds _ _ _ hd E Hi h Er). rewrite insert_app_r_alt, Nat.sub_diag by lia. done.
Qed.

(** ** The round *)

(** Serve a session that is readable or has data pending; a failure closes it. *)
Definition serve (read_set : list Z) (f : Z) hd : outcome httpd_data :=
  '(go, hd) ← (if bool_decide (f ∈ read_set) then Ok (true, hd) else httpd_sess_pending f hd);
  if (go : bool) then
    '(err, hd) ← httpd_sess_process fuel f hd;
    if err =? ESP_OK then Ok hd else '(_, hd) ← httpd_sess_delete f (close_socket f hd); Ok hd
  else Ok hd.
Fixpoint serve_all (read_set fs : list Z) hd : outcome httpd_data :=
  match fs with
  | [] => Ok hd
  | f :: fs => hd ← serve read_set f hd; serve_all read_set fs hd
  end.

Lemma active_cons_inv f fs b : active b = f :: fs -> exists z b', b = z ++ f :: b' /\ f <> -1 /\ active z = [] /\ active b' = fs.
Proof.
  induction b as [|x b IH]; [done|]. unfold active. rewrite filter_cons. case_decide as Hx.
  - intros E. injection E as -> <-. by exists [], b.
  - intros E. destruct (IH E) as (z & b' & -> & Hf & Ez & Eb). exists (x :: z), b'. split; [done|]. split; [done|]. split; [|done].
    unfold active. rewrite filter_cons_False by tauto. exact Ez.
Qed.

Lemma round_from read_set b : forall n a hd, fds hd = a ++ b -> NoDup (active (a ++ b)) -> (length (active b) <= n)%nat ->
  process_sessions fuel n read_set (last_active a) hd = serve_all read_set (active b) hd.
Proof.
  remember (active b) as fs eqn:Eb. revert b Eb. induction fs as [|f fs IH]; intros b Eb n a hd E N Hn.
  { destruct n; simpl; rewrite (iterate_from hd a b E N), <- Eb; done. }
  symmetry in Eb. destruct (active_cons_inv _ _ _ Eb) as (z & b' & -> & Hf & Ez & Eb').
  destruct n as [|n]; [simpl in Hn; lia|]. cbn [process_sessions serve_all]. rewrite (iterate_from hd a _ E N), Eb. simpl default.
  rewrite (proj2 (Z.eqb_neq f (-1))) by done.
  replace (a ++ z ++ f :: b') with ((a ++ z) ++ f :: b') in * by (by rewrite <- app_assoc).
  assert (Hz : last_active (a ++ z) = last_active a) by (unfold last_active; by rewrite active_tail).
  assert (Done : forall hd', fds hd' = (a ++ z) ++ f :: b' -> process_sessions fuel n read_set f hd' = serve_all read_set fs hd').
  { intros hd' E'. rewrite <- (last_active_snoc (a ++ z) f) by done. apply (IH b'); [done|by rewrite E', <- (app_assoc _ [f])|by rewrite <- (app_assoc _ [f])|simpl in Hn; lia]. }
  unfold serve at 1.
  assert (K : keeps ((a ++ z) ++ f :: b') (if bool_decide (f ∈ read_set) then Ok (true, hd) else httpd_sess_pending f hd)).
  { destruct (bool_decide _); [by apply keeps_ok|by apply httpd_sess_pending_keeps]. }
  destruct (if bool_decide (f ∈ read_set) then Ok (true, hd) else httpd_sess_pending f hd) as [[go hd1]| | |] eqn:Eg; try done.
  pose proof (K _ _ eq_refl) as E1. rewrite !outcome_bind_Ok. destruct go; [|by apply Done].
  destruct (httpd_sess_process fuel f hd1) as [[err hd2]| | |] eqn:Ep; try done. rewrite !outcome_bind_Ok.
  pose proof (httpd_sess_process_keeps fuel _ f hd1 E1 _ _ Ep) as E2. destruct (err =? ESP_OK); cbn [negb]; [by apply Done|].
  destruct (httpd_sess_delete f (close_socket f hd2)) as [[r hd3]| | |] eqn:Ed; try done. rewrite !outcome_bind_Ok.
  destruct (delete_at (close_socket f hd2) (a ++ z) f b' E2 N Hf _ _ Ed) as [-> E3].
  rewrite <- (last_active_free (a ++ z)). apply (IH b'); [done|by rewrite E3, <- (app_assoc _ [-1])| |simpl in Hn; lia].
  rewrite <- (app_assoc _ [-1]). cbn [app]. rewrite active_app in N |- *. unfold active at 2. rewrite filter_cons_False by tauto. fold (active b').
  unfold active at 2 in N. rewrite filter_cons_True in N by done. fold (active b') in N. apply NoDup_app in N as (N1 & N2 & N3).
  apply NoDup_app. split; [done|]. split; [|by apply NoDup_cons in N3 as [_ ?]]. intros x Hx Hb. apply (N2 x Hx). by right.
Qed.

Lemma sessions_served read_set n hd : NoDup (active (fds hd)) -> (length (active (fds hd)) <= n)%nat ->
  process_sessions fuel n read_set (-1) hd = serve_all read_set (active (fds hd)) hd.
Proof. intros N Hn. exact (round_from read_set (fds hd) n [] hd eq_refl N Hn). Qed.

(** ** The descriptors stay different *)
Definition distinct hd : Prop := forall i j f, fds hd !! i = Some f -> fds hd !! j = Some f -> f <> -1 -> i = j.
Definition stays_state (m : outcome httpd_data) : Prop := forall hd, m = Ok hd -> distinct hd.
Definition stays {A} (m : outcome (A * httpd_data)) : Prop := forall a hd, m = Ok (a, hd) -> distinct hd.

Lemma distinct_active hd : distinct hd -> NoDup (active (fds hd)).
Proof.
  unfold distinct. induction (fds hd) as [|x l IH]; intros D; [constructor|]. unfold active. rewrite filter_cons.
  assert (N : NoDup (active l)). { apply IH. intros i j f Hi Hj Hf. specialize (D (S i) (S j) f Hi Hj Hf). lia. }
  case_decide as Hx; [|done]. constructor; [|done]. intros [_ Hl]%list_elem_of_filter.
  apply list_elem_of_lookup_1 in Hl as [j Hj]. specialize (D O (S j) x eq_refl Hj Hx). lia.
Qed.
Lemma distinct_same hd hd' : fds hd' = fds hd -> distinct hd -> distinct hd'.
Proof. unfold distinct. by intros ->. Qed.
Lemma distinct_clear hd hd' i : fds hd' = <[i := -1]> (fds hd) -> distinct hd -> distinct hd'.
Proof.
  unfold distinct. intros -> D j k f Hj Hk Hf.
  assert (L : forall j, <[i := -1]> (fds hd) !! j = Some f -> fds hd !! j = Some f).
  { intros j0 H0'. destruct (decide (i = j0)) as [<-|Hn]; [|by rewrite list_lookup_insert_ne in H0' by done].
    apply lookup_lt_Some in H0' as Hl. rewrite length_insert in Hl. rewrite list_lookup_insert_eq in H0' by done. congruence. }
  by apply (D j k f); auto.
Qed.
Lemma distinct_set hd hd' i g : fds hd' = <[i := g]> (fds hd) -> g ∉ fds hd -> distinct hd -> distinct hd'.
Proof.
  unfold distinct. intros -> Hg D j k f Hj Hk Hf.
  assert (L : forall j, <[i := g]> (fds hd) !! j = Some f -> (j = i /\ f = g) \/ fds hd !! j = Some f).
  { intros j0 H0'. destruct (decide (i = j0)) as [<-|Hn]; [|right; by rewrite list_lookup_insert_ne in H0' by done].
    apply lookup_lt_Some in H0' as Hl. rewrite length_insert in Hl. rewrite list_lookup_insert_eq in H0' by done. left. by injection H0' as ->. }
  apply L in Hj, Hk. destruct Hj as [[-> Ef]|Hj], Hk as [[-> Ef']|Hk]; [done|subst f..|by apply (D j k f)].
  - destruct Hg. by apply list_elem_of_lookup_2 in Hk.
  - destruct Hg. by apply list_elem_of_lookup_2 in Hj.
Qed.

Lemma keeps_stays {A} hd (m : outcome (A * httpd_data)) : keeps (fds hd) m -> distinct hd -> stays m.
Proof. intros K D a hd' R. by apply (distinct_same hd); [exact (K _ _ R)|]. Qed.

Lemma delete_stays f hd : distinct hd -> stays (httpd_sess_delete f hd).
Proof.
  intros D r hd' R. unfold httpd_sess_delete in R. destruct (find_fd (hd_sd hd) f) as [i|] eqn:Ei; [|by injection R as <- <-].
  destruct (release_sess i f hd) as [h| | |] eqn:Er; try done. rewrite outcome_bind_Ok in R. injection R as <- <-.
  apply (distinct_clear hd h i); [|done]. apply (release_fds (fds hd) i f hd eq_refl); [|done].
  clear -Ei. unfold fds. rewrite length_map. revert i Ei. induction (hd_sd hd) as [|s l IH]; intros i; simpl; [done|].
  destruct (fd s =? f); [intros [= <-]; lia|]. destruct (find_fd l f) as [j|]; [|done]. intros [= <-]. specialize (IH j eq_refl). lia.
Qed.

Lemma find_fd_none (k : list sock_db) f : find_fd k f = None -> f ∉ map fd k.
Proof.
  induction k as [|s k IH]; simpl; [intros _; apply not_elem_of_nil|]. destruct (Z.eqb_spec (fd s) f); [done|].
  destruct (find_fd k f); [done|]. intros _. apply not_elem_of_cons. split; [congruence|by apply IH].
Qed.
Lemma sess_get_none hd f : httpd_sess_get hd f = None -> f ∉ fds hd.
Proof.
  unfold httpd_sess_get. destruct (sd (hd_req_aux hd)) as [i|]; [|apply find_fd_none].
  destruct (hd_sd hd !! i) as [s|]; [|apply find_fd_none]. destruct (fd s =? f); [done|apply find_fd_none].
Qed.

Lemma sess_new_stays f hd : distinct hd -> stays (httpd_sess_new f hd).
Proof.
  intros D r hd' R. unfold httpd_sess_new in R. destruct (httpd_sess_get hd f) eqn:Eg; [by injection R as <- <-|].
  destruct (find_fd (hd_sd hd) (-1)) as [i|]; [|by injection R as <- <-].
  set (hd1 := set_sd i _ hd) in R. assert (D1 : distinct hd1).
  { apply (distinct_set hd hd1 i f); [|by apply sess_get_none|done]. unfold fds, hd1, set_sd. simpl. apply (list_fmap_insert fd). }
  destruct (open_fn (config hd1) =? 0); [by injection R as <- <-|].
  destruct (app_open _ f hd1) as [[ret hd2]| | |] eqn:Eo; try done. rewrite outcome_bind_Ok in R.
  assert (D2 : distinct hd2) by (apply (distinct_same hd1); [exact (keep_open _ _ _ _ _ Eo)|done]).
  destruct (ret =? ESP_OK); [by injection R as <- <-|]. destruct (sd_at hd2 i) as [s| | |]; try done. rewrite outcome_bind_Ok in R.
  destruct (httpd_sess_delete (fd s) hd2) as [[r' hd3]| | |] eqn:Ed; try done. rewrite outcome_bind_Ok in R. injection R as <- <-.
  by apply (delete_stays _ _ D2 _ _ Ed).
Qed.

Lemma close_lru_stays hd : distinct hd -> stays (httpd_sess_close_lru hd).
Proof.
  intros D r hd' R. apply (distinct_same hd); [|done]. revert R. unfold httpd_sess_close_lru. destruct (find_lru _ _ _) as [f|]; [|by intros [= <- <-]].
  destruct (httpd_sess_get hd f) as [i|]; [|done]. destruct (sd_at hd i) as [s| | |] eqn:Es; try done. rewrite outcome_bind_Ok. apply sd_at_Ok in Es.
  assert (E1 : fds (set_sd i (s <| lru_socket := true |>) hd) = fds hd) by (apply fds_set_sd; intros t Et; by simplify_eq).
  unfold httpd_sess_trigger_close, httpd_queue_work. destruct (httpd_sess_get _ f) as [j|]; [destruct (ctrl_send _ _ _)|]; intros [= <- <-]; exact E1.
Qed.

Lemma accept_stays hd : distinct hd -> stays (httpd_accept_conn hd).
Proof.
  intros D. unfold httpd_accept_conn. destruct (_ && _); [by apply close_lru_stays|]. destruct (net_accept _ _) as [f w].
  destruct (f <? 0); [by intros ? ? [= <- <-]|]. intros r hd' R.
  destruct (httpd_sess_new f (set_world w hd)) as [[ret hd1]| | |] eqn:En; try done. rewrite outcome_bind_Ok in R.
  assert (D1 : distinct hd1) by (by apply (sess_new_stays f (set_world w hd) D _ _ En)). destruct (negb _); by injection R as <- <-.
Qed.

Lemma ctrl_stays hd : distinct hd -> stays_state (httpd_process_ctrl_msg hd).
Proof.
  intros D. unfold httpd_process_ctrl_msg. destruct (ctrl_recv _ _) as [[[|[[i|]|f a]]|] w]; intros hd' R; try (by injection R as <-).
  - unfold httpd_sess_close in R. destruct (sd_at _ i) as [s| | |] eqn:Es; try done. rewrite outcome_bind_Ok in R. apply sd_at_Ok in Es.
    destruct (_ && _); [by injection R as <-|]. destruct (httpd_sess_delete _ _) as [[r hd1]| | |] eqn:Ed; try done. rewrite outcome_bind_Ok in R. injection R as <-.
    refine (delete_stays _ _ _ _ _ Ed). apply (distinct_same hd); [|done]. rewrite fds_set_sd; [done|]. intros t Et. by simplify_eq.
  - destruct (f =? 0); [by injection R as <-|]. apply (distinct_same hd); [|done]. exact (keep_work _ _ _ _ R).
Qed.

Lemma process_sessions_stays read_set n f hd : distinct hd -> stays_state (process_sessions fuel n read_set f hd).
Proof.
  revert f hd. induction n as [|n IH]; intros f hd D hd' R; cbn [process_sessions] in R; set (g := httpd_sess_iterate f hd) in R;
    (destruct (g =? -1); [by injection R as <-|]); [done|].
  assert (K : keeps (fds hd) (if bool_decide (g ∈ read_set) then Ok (true, hd) else httpd_sess_pending g hd)).
  { destruct (bool_decide _); [by apply keeps_ok|by apply httpd_sess_pending_keeps]. }
  destruct (if bool_decide (g ∈ read_set) then Ok (true, hd) else httpd_sess_pending g hd) as [[go hd1]| | |]; try done.
  pose proof (K _ _ eq_refl) as E1. rewrite !outcome_bind_Ok in R. destruct go; [|by apply (IH g hd1 (distinct_same hd hd1 E1 D))].
  destruct (httpd_sess_process fuel g hd1) as [[err hd2]| | |] eqn:Ep; try done. rewrite !outcome_bind_Ok in R.
  pose proof (httpd_sess_process_keeps fuel _ g hd1 E1 _ _ Ep) as E2. assert (D2 : distinct hd2) by (by apply (distinct_same hd)).
  destruct (negb (err =? ESP_OK)); [|by apply (IH g hd2 D2)].
  destruct (httpd_sess_delete g (close_socket g hd2)) as [[r hd3]| | |] eqn:Ed; try done. rewrite outcome_bind_Ok in R.
  exact (IH r hd3 (delete_stays g (close_socket g hd2) D2 _ _ Ed) _ R).
Qed.
Lemma delete_invalid_stays hd : distinct hd -> stays_state (httpd_sess_delete_invalid hd).
Proof.
  intros D. unfold httpd_sess_delete_invalid. generalize (seq 0 (length (hd_sd hd))) as ks. intros ks.
  assert (G : forall o, stays_state o -> stays_state (foldl (fun o i => hd ← o; s ← sd_at hd i;
    if negb (fd s =? -1) && negb (net_fd_is_valid (fd s) (world hd)) then '(_, hd) ← httpd_sess_delete (fd s) hd; Ok hd else Ok hd) o ks)).
  { induction ks as [|k ks IH]; intros o Ho; [done|]. cbn [foldl]. apply IH. intros hd' R. destruct o as [hd1| | |]; try done.
    rewrite outcome_bind_Ok in R. destruct (sd_at hd1 k) as [s| | |]; try done. rewrite outcome_bind_Ok in R. specialize (Ho hd1 eq_refl).
    destruct (_ && _); [|by injection R as <-]. destruct (httpd_sess_delete (fd s) hd1) as [[r hd2]| | |] eqn:Ed; try done.
    rewrite outcome_bind_Ok in R. injection R as <-. exact (delete_stays _ _ Ho _ _ Ed). }
  apply G. by intros ? [= <-].
Qed.

Lemma server_stays hd : distinct hd -> stays (httpd_server fuel hd).
Proof.
  intros D r hd' R. unfold httpd_server in R. destruct (net_select _ _) as [[rs|] w]; cycle 1.
  { destruct (httpd_sess_delete_invalid _) as [h| | |] eqn:E; try done. rewrite outcome_bind_Ok in R. injection R as <- <-.
    exact (delete_invalid_stays (set_world w hd) D _ E). }
  destruct (if bool_decide (ctrl_fd (set_world w hd) ∈ rs) then httpd_process_ctrl_msg (set_world w hd) else Ok (set_world w hd)) as [hd1| | |] eqn:Ec; try done.
  rewrite outcome_bind_Ok in R. assert (D1 : distinct hd1).
  { destruct (bool_decide _); [exact (ctrl_stays (set_world w hd) D _ Ec)|by injection Ec as <-]. }
  destruct (_ && _) in R; [by injection R as <- <-|].
  destruct (process_sessions fuel fuel rs (-1) hd1) as [hd2| | |] eqn:Ep; try done. rewrite outcome_bind_Ok in R.
  pose proof (process_sessions_stays _ _ _ _ D1 _ Ep) as D2. destruct (bool_decide _) in R; [|by injection R as <- <-].
  destruct (httpd_accept_conn hd2) as [[a hd3]| | |] eqn:Ea; try done. rewrite outcome_bind_Ok in R. injection R as <- <-.
  exact (accept_stays hd2 D2 _ _ Ea).
Qed.

(** [k] rounds of a server. *)
Fixpoint rounds (k : nat) hd : outcome httpd_data :=
  match k with
  | O => Ok hd
  | S k => '(_, hd) ← httpd_server fuel hd; rounds k hd
  end.
Lemma rounds_stay k hd : distinct hd -> stays_state (rounds k hd).
Proof.
  revert hd. induction k as [|k IH]; intros hd D hd' R; [by injection R as <-|]. cbn [rounds] in R.
  destruct (httpd_server fuel hd) as [[r hd1]| | |] eqn:E; try done. rewrite outcome_bind_Ok in R. exact (IH hd1 (server_stays hd D _ _ E) _ R).
Qed.

(** A server without sessions, as [httpd_start] leaves it. *)
Definition no_sessions hd : Prop := Forall (fun s => fd s = -1) (hd_sd hd).
Lemma no_sessions_distinct hd : no_sessions hd -> distinct hd.
Proof.
  intros N i j f Hi _ Hf. unfold fds in Hi. change (map fd (hd_sd hd)) with (fd <$> hd_sd hd) in Hi.
  rewrite list_lookup_fmap in Hi. destruct (hd_sd hd !! i) as [s|] eqn:Es; [|done]. injection Hi as <-.
  by apply (Forall_lookup_1 _ _ _ _ N) in Es.
Qed.

(** ** A round ends

    [P] holds in the states of the server in which serving a session comes to an
    end: asking for pending data, processing the session and closing it return, in
    a state where [P] holds again. *)
Record service_returns (P : httpd_data -> Prop) : Prop := {
  ret_pending f hd : P hd -> f ∈ active (fds hd) -> exists b hd', httpd_sess_pending f hd = Ok (b, hd') /\ P hd';
  ret_process f hd : P hd -> f ∈ active (fds hd) -> exists err hd', httpd_sess_process fuel f hd = Ok (err, hd') /\ P hd';
  ret_delete f hd : P hd -> f ∈ active (fds hd) -> exists r hd', httpd_sess_delete f (close_socket f hd) = Ok (r, hd') /\ P hd'
}.

Lemma active_remove a f b g : g ∈ active (a ++ f :: b) -> g <> f -> g ∈ active (a ++ -1 :: b).
Proof.
  rewrite !active_app. intros [Hy|Hy]%elem_of_app Hg; apply elem_of_app; [by left|right]. unfold active in *.
  rewrite filter_cons_False by tauto. rewrite filter_cons in Hy. case_decide; [|done]. by apply elem_of_cons in Hy as [->|Hy].
Qed.
Lemma NoDup_active_remove a f b : NoDup (active (a ++ f :: b)) -> NoDup (active (a ++ -1 :: b)).
Proof.
  rewrite !active_app. unfold active. rewrite !filter_cons. case_decide as Hf; case_decide; try done. intros (N1 & N2 & N3%NoDup_cons)%NoDup_app. apply NoDup_app. split; [done|]. split; [|apply N3].
  intros x Hx Hb. apply (N2 x Hx). by right.
Qed.

Lemma serve_returns P read_set f hd : service_returns P -> P hd -> NoDup (active (fds hd)) -> f ∈ active (fds hd) ->
  exists hd', serve read_set f hd = Ok hd' /\ P hd' /\ NoDup (active (fds hd')) /\
    forall g, g ∈ active (fds hd) -> g <> f -> g ∈ active (fds hd').
Proof.
  intros S HP N Hf. unfold serve.
  destruct (if bool_decide (f ∈ read_set) then Ok (true, hd) else httpd_sess_pending f hd) as [[go h1]| | |] eqn:Eg.
  2-4: case_bool_decide; [done|]; destruct (ret_pending P S f hd HP Hf) as (b & h & E & _); congruence.
  assert (PF : P h1 /\ fds h1 = fds hd).
  { case_bool_decide; [by simplify_eq|]. destruct (ret_pending P S f hd HP Hf) as (b & h & E & Ph).
    rewrite Eg in E. injection E as <- <-. split; [done|]. exact (httpd_sess_pending_keeps _ f hd eq_refl _ _ Eg). }
  destruct PF as [P1 F1]. rewrite outcome_bind_Ok. destruct go; [|exists h1; by rewrite F1].
  destruct (ret_process P S f h1 P1) as (err & h2 & E2 & P2); [by rewrite F1|]. rewrite E2, outcome_bind_Ok.
  pose proof (httpd_sess_process_keeps fuel _ f h1 F1 _ _ E2) as F2.
  destruct (err =? ESP_OK); [exists h2; by rewrite F2|].
  destruct (ret_delete P S f h2 P2) as (r & h3 & E3 & P3); [by rewrite F2|]. rewrite E3, outcome_bind_Ok.
  apply list_elem_of_filter in Hf as Hx. destruct Hx as [Hne (a & b & Hab)%list_elem_of_split].
  rewrite Hab in F2, N |- *. destruct (delete_at (close_socket f h2) a f b F2 N Hne _ _ E3) as [_ F3].
  exists h3. rewrite F3. split; [done|]. split; [done|]. split; [by eapply NoDup_active_remove|].
  intros g Hg Hgf. by eapply active_remove.
Qed.

Lemma serve_all_returns P read_set fs : forall hd, service_returns P -> P hd -> NoDup (active (fds hd)) -> NoDup fs ->
  (forall f, f ∈ fs -> f ∈ active (fds hd)) -> exists hd', serve_all read_set fs hd = Ok hd' /\ P hd'.
Proof.
  induction fs as [|f fs IH]; intros hd S HP N Nf Hfs; [by exists hd|]. apply NoDup_cons in Nf as [Hn Nf].
  destruct (serve_returns P read_set f hd S HP N) as (h1 & E & P1 & N1 & K); [apply Hfs; by left|].
  cbn [serve_all]. rewrite E, outcome_bind_Ok. apply IH; [done..|]. intros g Hg. apply K; [apply Hfs; by right|].
  intros ->. done.
Qed.

(** C31. In every state that the server reaches from its start in any number of
    rounds, with whatever the network and the application do, the sessions have
    different descriptors; and, provided that serving a session comes to an end, the
    next pass over the sessions ends and has served every session with data, from the
    socket or left from its last request, exactly once, in the order of the table.  A
    session that fails is closed and removed, and this makes the server neither skip
    another session nor serve one twice. *)
Theorem sessions_served_once P k hd0 hd read_set n : no_sessions hd0 -> rounds k hd0 = Ok hd ->
  (length (active (fds hd)) <= n)%nat -> service_returns P -> P hd ->
  NoDup (active (fds hd)) /\
  exists hd', process_sessions fuel n read_set (-1) hd = Ok hd' /\ serve_all read_set (active (fds hd)) hd = Ok hd'.
Proof.
  intros N R Hn S HP. assert (D : NoDup (active (fds hd))).
  { apply distinct_active. exact (rounds_stay k hd0 (no_sessions_distinct _ N) _ R). }
  split; [done|]. rewrite sessions_served by done.
  destruct (serve_all_returns P read_set _ hd S HP D D (fun f Hf => Hf)) as (hd' & E & _). eauto.
Qed.
End round.
