(* ===== verification/HttpdExamples.v ===== *)
(** * HTTP server: a small network, and what goes wrong

    An instance of the network and the application: it takes three bytes at a time,
    delivers scripted data and messages, and its handlers do nothing.  The theorems
    hold at it, and the histories in which the code goes wrong are runs of it. *)
From S2P Require Import Prelude EspFlash CString Httpd HttpdTxrx HttpdUri HttpdUriProofs HttpdUriHistory.
From S2P Require Import HttpdParse HttpdResponse HttpdHeaders HttpdSess HttpdRound.

(** [w_in]: the data to arrive; [w_out]: what was sent; [w_ready]: the answers of
    [select]; [w_ctrl]: the messages in the control socket; [w_closed]: the closed
    sockets and, negated, the sessions that [close_fn] was called for. *)
Record wire := mkWire {
  w_in : list (list Z); w_out : list (Z * list Z); w_ready : list (list Z); w_accept : list Z;
  w_ctrl : list httpd_ctrl_data; w_closed : list Z; w_open : Z
}.
#[export] Instance rebuild_wire : Rebuild wire :=
  fun w => mkWire (w_in w) (w_out w) (w_ready w) (w_accept w) (w_ctrl w) (w_closed w) (w_open w).
#[export] Instance small_net : HttpdNet := {| net := wire |}.

Definition pop {A} (d : A) (l : list A) : A * list A := match l with x :: l => (x, l) | [] => (d, []) end.
Definition open_socket (w : wire) : Z * wire := (w_open w, w <| w_open := w_open w + 1 |>).
Definition receive (len : Z) (w : wire) : list Z * wire :=
  let '(data, rest) := pop [] (w_in w) in (take (Z.to_nat len) data, w <| w_in := rest |>).

#[export] Instance small_env : HttpdEnv := {|
  app_uri_match := fun _ _ _ _ => false;
  app_handler := fun _ hd => Ok (ESP_OK, hd);
  app_err_handler := fun _ _ hd => Ok (ESP_FAIL, hd);
  app_open := fun _ _ hd => Ok (ESP_OK, hd);
  app_close := fun _ f hd => Ok (set_world ((world hd : wire) <| w_closed := w_closed (world hd) ++ [- f] |>) hd);
  app_work := fun _ _ hd => Ok hd;
  app_send := fun _ _ buf hd => (lenZ buf, world hd);
  app_recv := fun _ _ _ hd => (RecvErr HTTPD_SOCK_ERR_FAIL, world hd);
  app_pending := fun _ _ hd => (0, world hd);
  net_select := fun _ w => let '(r, rest) := pop [] (w_ready w) in (Some r, (w : wire) <| w_ready := rest |>);
  net_socket := fun _ w => open_socket w;
  net_bind := fun _ w => (0, w);
  net_listen := fun _ w => (0, w);
  cs_create_ctrl_sock := fun w => open_socket w;
  net_accept := fun _ w => let '(f, rest) := pop (-1) (w_accept w) in (f, (w : wire) <| w_accept := rest |>);
  net_close := fun f w => (w : wire) <| w_closed := w_closed w ++ [f] |>;
  net_fd_is_valid := fun _ _ => true;
  net_send := fun f buf w => (inl (lenZ (take 3 buf)), (w : wire) <| w_out := w_out w ++ [(f, take 3 buf)] |>);
  net_recv := fun _ len w => let '(data, w) := receive len w in (inl data, w);
  net_set_nodelay := fun _ _ w => (0, w);
  ctrl_send := fun _ m w => (1, (w : wire) <| w_ctrl := w_ctrl w ++ [m] |>);
  ctrl_recv := fun _ w => match w_ctrl w with m :: rest => (Some m, (w : wire) <| w_ctrl := rest |>) | [] => (None, w) end
|}.
#[export] Instance small_config : HttpdConfig := {|
  HTTPD_MAX_REQ_HDR_LEN := 200; HTTPD_MAX_URI_LEN := 100; CONFIG_HTTPD_PURGE_BUF_LEN := 32; CONFIG_HTTPD_ERR_RESP_NO_DELAY := true |}.
(** A parser that follows a script: a request "GET /a" with one header, no body. *)
Definition get_parser : http_parser := mkParser 1 1 1 (2 ^ 64 - 1) false.
Definition small_script : list (Z * parser_event) :=
  [(6, on_url 4 2); (19, on_header_field 17 1); (3, on_header_value 1 1); (6, on_headers_complete); (6, on_message_complete)].
#[export] Instance small_parser : HttpParser := {|
  parser := list (Z * parser_event); http_parser_init := small_script;
  parser_next := fun ps block _ => match ps with (pos, ev) :: ps => (ps, pos, Some (ev, get_parser)) | [] => (ps, lenZ block, None) end;
  http_parser_parse_url := fun u _ => Some (mkUrl 8 (repeat (0, lenZ u) 7)) |}.

#[export] Instance small_keeps : AppKeepsFds.
Proof. split; intros; by simplify_eq/=. Qed.

Definition small_sent (f : Z) (w : @net small_net) : list Z := concat (map snd (filter (fun x => fst x = f) (w_out w))).
#[export] Instance small_sends : SendsInOrder.
Proof.
  refine (@Build_SendsInOrder small_net small_env small_sent _ _); unfold small_sent.
  - intros f buf w n w' Hb E. injection E as <- <-. destruct buf as [|c buf]; [done|]. split.
    + unfold lenZ. simpl. rewrite length_take. lia.
    + cbn [w_out]. cbn. rewrite filter_app, map_app, concat_app. rewrite filter_cons_True, filter_nil by done. simpl.
      rewrite app_nil_r. do 2 f_equal. unfold lenZ. simpl. rewrite length_take.
      destruct buf as [|c2 [|c3 buf]]; done.
  - intros f buf w e w' E. discriminate.
Defined.

(** ** A server *)
Definition one_session : sock_db := sock_zero <| fd := 5 |> <| send_fn := DefaultFn |> <| recv_fn := DefaultFn |> <| lru_counter := 3 |>.
Definition small_wire := mkWire [] [] [] [] [] [] 10.
Definition small_cfg (match_fn : Z) := mkConfig 1 3 2 true 0 0 0 0 0 0 match_fn.
Definition small_server (match_fn : Z) (w : wire) : httpd_data :=
  default (mkHttpd (small_cfg 0) 0 0 0 THREAD_IDLE [] [] init_req (mkAux None [] 0 [] [] false 0 [] (mkUrl 0 [])) [] 0 [] w)
    (httpd_create [true] (small_cfg match_fn) w).
(** It serves a request on its only session. *)
Definition busy_server (w : wire) : httpd_data :=
  let hd := small_server 0 w in
  set_req (init_req <| handle := true |> <| aux := true |>)
    (set_aux ((hd_req_aux hd) <| sd := Some O |> <| status := chars "200 OK" |> <| content_type := chars "text/html" |> <| resp_hdrs := [(chars "X", chars "1")] |>)
       (set_sd 0 one_session (hd <| hd_sd := [sock_zero] |>))).

(** ** Witnesses *)
Lemma wildcard_exact_witness : 0 <= 4 <= lenZ (chars "/foo?q") /\
  ((chars "/foo/?*" ∈ meaningless /\ httpd_uri_match_wildcard (chars "/foo/?*") (chars "/foo?q") 4 = false) \/
   exists k, unambiguous k /\ written k = chars "/foo/?*" /\
     (httpd_uri_match_wildcard (chars "/foo/?*") (chars "/foo?q") 4 = true <-> stands_for k (take (Z.to_nat 4) (chars "/foo?q")))).
Proof. assert (H : 0 <= 4 <= lenZ (chars "/foo?q")) by (split; vm_compute; discriminate). split; [exact H|]. exact (wildcard_exact (chars "/foo/?*") (chars "/foo?q") 4 H). Defined.

Definition get_a := mkUri (chars "/a") 1 11 7.
Definition put_a := mkUri (chars "/a") 4 12 0.
Definition get_b := mkUri (chars "/b") 1 13 0.
Definition some_calls : list uri_call :=
  [URegister true true get_a; URegister true true put_a; URegister true true get_a; URegister false true get_b;
   URegister true true get_b; UUnregisterUri (chars "/a"); UFind (chars "/a") 2 1; UFind (chars "/b") 2 4].
Lemma some_calls_ok : Forall call_ok some_calls.
Proof. repeat constructor; vm_compute; reflexivity. Qed.
Lemma uri_history_exact_witness : no_handlers (small_server 0 small_wire) /\
  exists hd', uri_runs some_calls (small_server 0 small_wire) = Ok (fst (uri_specs (small_server 0 small_wire) some_calls []), hd') /\
    forall fuel r a off len, url_field UF_PATH (set_req r (set_aux a hd')) = Some (off, len) ->
      httpd_uri fuel (set_req r (set_aux a hd')) =
      dispatch fuel (snd (uri_specs (small_server 0 small_wire) some_calls [])) (drop (Z.to_nat off) (req_uri r)) len (set_req r (set_aux a hd')).
Proof.
  assert (H : no_handlers (small_server 0 small_wire)) by reflexivity. split; [exact H|].
  pose proof (uri_history_exact some_calls (small_server 0 small_wire) H some_calls_ok) as T.
  destruct (uri_specs (small_server 0 small_wire) some_calls []) as [l hs]. exact T.
Defined.

Definition started (w : wire) : httpd_data :=
  match httpd_start 10 [true] true (Some (small_cfg 1)) w with Ok (_, Some hd, _) => hd | _ => small_server 0 w end.
Definition run_ok (hd : httpd_data) (o : outcome httpd_data) : httpd_data := match o with Ok hd => hd | _ => hd end.
Definition hello := chars "hello".
Lemma busy_serving w : serving 5 (busy_server w).
Proof. exists O, one_session. by split. Qed.
Lemma response_exact_witness : serving 5 (busy_server small_wire) /\
  delivers 5 (sent 5 (world (busy_server small_wire))) (response (busy_server small_wire) hello) (fun _ => True)
    (httpd_resp_send 200 (Some hello) (lenZ hello) (busy_server small_wire)).
Proof.
  split; [exact (busy_serving small_wire)|]. refine (response_exact 200 5 (busy_server small_wire) hello (busy_serving small_wire) _ _ _ _ _).
  - vm_compute. lia.
  - apply is_string_chars. reflexivity.
  - apply is_string_chars. reflexivity.
  - vm_compute. reflexivity.
  - vm_compute. reflexivity.
Defined.
Lemma chunked_roundtrip_witness : serving 5 (busy_server small_wire) /\
  exists wire, delivers 5 (sent 5 (world (busy_server small_wire))) (chunked_response (busy_server small_wire) ++ wire) (chunking 5)
      (send_chunks 200 (hello :: [chars "ab"] ++ [[]]) (busy_server small_wire)) /\
    forall after, unchunk 3 (wire ++ after) = Some (concat [hello; chars "ab"], after).
Proof.
  split; [exact (busy_serving small_wire)|].
  refine (chunked_roundtrip 200 5 (busy_server small_wire) hello [chars "ab"] (busy_serving small_wire) eq_refl _ _ _ _).
  - apply is_string_chars. reflexivity.
  - apply is_string_chars. reflexivity.
  - vm_compute. reflexivity.
  - repeat constructor; try discriminate; vm_compute; lia.
Defined.

Definition some_params : list (list Z * list Z) := [(chars "id", chars "7"); (chars "Name", chars "a=b"); (chars "name", chars "c")].
Definition params_okb (ps : list (list Z * list Z)) : bool := forallb (fun p => bool_decide (61 ∉ p.1) && bool_decide (38 ∉ p.1) && bool_decide (38 ∉ p.2)) ps.
Lemma params_okb_ok ps : params_okb ps = true -> Forall param_ok ps.
Proof. unfold params_okb. rewrite forallb_forall, Forall_forall. intros H p Hp%list_elem_of_In%H. rewrite !andb_true_iff, !bool_decide_eq_true in Hp. by destruct Hp as [[? ?] ?]. Qed.
Lemma query_value_exact_witness : Forall param_ok some_params /\ 0 <= 3 <= lenZ [9; 9; 9; 9] /\
  httpd_query_key_value (Some (query_text some_params)) (Some (chars "NAME")) (Some [9; 9; 9; 9]) 3 =
  Ok (match find (fun p => same_name p.1 (chars "NAME")) some_params with
      | Some p => let '(err, buf) := copied p.2 [9; 9; 9; 9] 3 in (err, Some buf)
      | None => (ESP_ERR_NOT_FOUND, Some [9; 9; 9; 9])
      end).
Proof.
  assert (P : Forall param_ok some_params) by (apply params_okb_ok; reflexivity).
  assert (S : 0 <= 3 <= lenZ [9; 9; 9; 9]) by (split; vm_compute; discriminate).
  split; [exact P|]. split; [exact S|]. exact (query_value_exact some_params (chars "NAME") [9; 9; 9; 9] 3 P S).
Defined.

Definition host := mkHeader (chars "Host") 1 (chars "a") [13; 10].
Definition accept := mkHeader (chars "Accept") 2 [] [10].
Definition request_text : list Z := concat (map raw_text [host; accept]) ++ [13; 10].
Definition in_headers : parser_data_t := mkData PARSING_HDR_FIELD 0 0 2 false 0 (lenZ request_text).
Lemma headers_exact_witness :
  reported_ok (host, [2; 2], [1]) /\ Forall reported_ok [(accept, [6], [])] /\ line_end [13; 10] /\ lenZ request_text <= raw_datalen in_headers /\
  exists d' hd',
    run_events get_parser (tail (header_events 0 host [2; 2] [1]) ++ headers_events (lenZ (raw_text host)) [(accept, [6], [])] ++ [on_headers_complete])
      in_headers (put (request_text ++ repeat 0 40) 0 (busy_server small_wire)) = Ok (ESP_OK, d', hd') /\
    p_status d' = PARSING_BODY /\ last_at d' = lenZ request_text /\ content_len (hd_req hd') = body_len get_parser /\
    remaining_len (hd_req_aux hd') = body_len get_parser /\
    forall field,
      httpd_req_get_hdr_value_len field hd' = Ok (match header_value field [host; accept] with Some v => lenZ v | None => 0 end) /\
      forall val size, 0 <= size <= lenZ val ->
        httpd_req_get_hdr_value_str field val size hd' =
        Ok (match header_value field [host; accept] with Some v => copied v val size | None => (ESP_ERR_NOT_FOUND, val) end).
Proof.
  assert (A : reported_ok (host, [2; 2], [1])).
  { split_and!; try (apply is_string_chars; reflexivity); try discriminate; try (by left); try reflexivity; try (apply (bool_decide_unpack _); vm_compute; exact I); repeat constructor. }
  assert (B : Forall reported_ok [(accept, [6], [])]).
  { apply Forall_cons_2; [|apply Forall_nil_2].
    split_and!; try (apply is_string_chars; reflexivity); try discriminate; try (by right); try reflexivity; try (apply (bool_decide_unpack _); vm_compute; exact I); repeat constructor. }
  assert (E : line_end [13; 10]) by (by left). assert (L : length_ok get_parser) by (by left).
  assert (T : lenZ request_text <= raw_datalen in_headers) by (vm_compute; discriminate).
  split; [exact A|]. split; [exact B|]. split; [exact E|]. split; [exact T|].
  exact (headers_exact get_parser host [2; 2] [1] [(accept, [6], [])] [13; 10] (repeat 0 40) (busy_server small_wire) in_headers A B E eq_refl eq_refl L T).
Defined.

(** ** A request *)
Definition get_request : list Z := chars "GET /a HTTP/1.1" ++ CRLF ++ chars "X: 1" ++ CRLF ++ CRLF.
Definition session_server (s : sock_db) (w : wire) : httpd_data := set_sd 0 s ((small_server 0 w) <| hd_sd := [sock_zero] |>).
Definition with_handler (h : httpd_uri_t) (hd : httpd_data) : httpd_data := hd <| hd_calls := [Call h; NoCall; NoCall] |>.
Definition input (l : list (list Z)) : wire := mkWire l [] [] [] [] [] 10.
Definition result {A} (d : A) (o : outcome A) : A := match o with Ok x => x | _ => d end.

Example request_served :
  let hd := with_handler get_a (session_server one_session (input [get_request])) in
  let '(err, hd') := result (0, hd) (httpd_sess_process 400 5 hd) in
  err = ESP_OK /\ small_sent 5 (world hd') = [] /\ map lru_counter (hd_sd hd') = [1] /\ req_uri (hd_req hd') = chars "/a".
Proof. vm_compute. by split_and!. Qed.

(** A client connects, sends a request and closes: its session is accepted, answered,
    and fails when it is served again. *)
Definition before_accept : httpd_data := with_handler get_a (started (mkWire [get_request] [] [[10]] [5] [] [] 10)).
Definition after_accept : httpd_data := run_ok before_accept (rounds 400 1 before_accept).
Definition processed (hd : httpd_data) : httpd_data := match httpd_sess_process 400 5 hd with Ok (_, hd) => hd | _ => hd end.
Definition after_request : httpd_data := processed after_accept.
Definition after_closing : httpd_data := processed after_request.
Definition deleted (hd : httpd_data) : httpd_data := match httpd_sess_delete 5 (close_socket 5 hd) with Ok (_, hd) => hd | _ => hd end.
Definition accepted_states (hd : httpd_data) : Prop :=
  hd = after_accept \/ hd = after_request \/ hd = after_closing \/ active (fds hd) = [].

Lemma accepted_active : active (fds after_accept) = [5] /\ active (fds after_request) = [5] /\ active (fds after_closing) = [5].
Proof. split_and!; vm_compute; reflexivity. Qed.
Lemma accepted_one hd f : accepted_states hd -> f ∈ active (fds hd) ->
  f = 5 /\ (hd = after_accept \/ hd = after_request \/ hd = after_closing).
Proof.
  intros S Hf. destruct accepted_active as (E1 & E2 & E3).
  assert (D : active (fds hd) = [5] /\ (hd = after_accept \/ hd = after_request \/ hd = after_closing)).
  { destruct S as [-> |[-> |[-> |E]]].
    - exact (conj E1 (or_introl eq_refl)).
    - exact (conj E2 (or_intror (or_introl eq_refl))).
    - exact (conj E3 (or_intror (or_intror eq_refl))).
    - rewrite E in Hf. destruct (not_elem_of_nil f Hf). }
  destruct D as [E D]. rewrite E in Hf. apply list_elem_of_singleton in Hf. exact (conj Hf D).
Qed.

Lemma accepted_returns : service_returns 400 accepted_states.
Proof.
  split; intros f hd S Hf; destruct (accepted_one hd f S Hf) as [-> E]; clear Hf S.
  - exists false, hd. split; [|exact (match E with or_introl e => or_introl e | or_intror (or_introl e) => or_intror (or_introl e) | or_intror (or_intror e) => or_intror (or_intror (or_introl e)) end)]. destruct E as [-> |[-> | ->]]; vm_compute; reflexivity.
  - destruct E as [-> |[-> | ->]].
    + exists ESP_OK, after_request. split; [vm_compute; reflexivity|exact (or_intror (or_introl eq_refl))].
    + exists ESP_FAIL, after_closing. split; [vm_compute; reflexivity|exact (or_intror (or_intror (or_introl eq_refl)))].
    + exists ESP_FAIL, after_closing. split; [vm_compute; reflexivity|exact (or_intror (or_intror (or_introl eq_refl)))].
  - assert (D : exists r, httpd_sess_delete 5 (close_socket 5 hd) = Ok (r, deleted hd) /\ active (fds (deleted hd)) = []).
    { destruct E as [-> |[-> | ->]]; exists (-1); split; vm_compute; reflexivity. }
    destruct D as (r & D & E'). exists r, (deleted hd). split; [exact D|exact (or_intror (or_intror (or_intror E')))].
Qed.

Lemma sessions_served_once_witness : no_sessions before_accept /\ rounds 400 1 before_accept = Ok after_accept /\
  (length (active (fds after_accept)) <= 1)%nat /\ active (fds after_accept) = [5] /\ NoDup (active (fds after_accept)) /\
  exists hd', process_sessions 400 1 [5] (-1) after_accept = Ok hd' /\ serve_all 400 [5] (active (fds after_accept)) after_accept = Ok hd'.
Proof.
  assert (N : no_sessions before_accept) by (repeat constructor). assert (R : rounds 400 1 before_accept = Ok after_accept) by (vm_compute; reflexivity).
  assert (L : (length (active (fds after_accept)) <= 1)%nat) by (vm_compute; lia).
  split; [exact N|]. split; [exact R|]. split; [exact L|]. split; [vm_compute; reflexivity|].
  refine (sessions_served_once 400 accepted_states 1 before_accept after_accept [5] 1 N R L accepted_returns (or_introl eq_refl)).
Defined.

Example request_not_found :
  let hd := session_server one_session (input [get_request]) in
  let '(err, hd') := result (0, hd) (httpd_sess_process 400 5 hd) in
  err = ESP_FAIL /\ take 22 (small_sent 5 (world hd')) = chars "HTTP/1.1 404 Not Found" /\ map fd (hd_sd hd') = [5].
Proof. vm_compute. by split_and!. Qed.

(** ** Where the code goes wrong *)

(** Without memory for the string, the entry that was freed stays in the table. *)
Example dup_failure_leaves_entry :
  let '(err, hd) := result (0, small_server 0 small_wire) (httpd_register_uri_handler true false (Some get_a) (small_server 0 small_wire)) in
  err = ESP_ERR_HTTPD_ALLOC_MEM /\ httpd_find_uri_handler (chars "/a") 2 1 hd = Fault.
Proof. vm_compute. by split. Qed.

(** A template with an optional end does not stand for itself: it is registered twice. *)
Example optional_registered_twice :
  let h := mkUri (chars "/foo/?") 1 11 0 in
  let '(err, hd) := result (0, small_server 1 small_wire) (httpd_register_uri_handler true true (Some h) (small_server 1 small_wire)) in
  let '(err', hd') := result (0, hd) (httpd_register_uri_handler true true (Some h) hd) in
  err = ESP_OK /\ err' = ESP_OK /\ hd_calls hd' = [Call h; Call h; NoCall].
Proof. vm_compute. by split_and!. Qed.

(** When the peer closes the connection before the body has come, the loop that
    discards the rest of the body never ends. *)
Lemma purge_never_ends n : let hd := busy_server small_wire in
  purge n (set_aux ((hd_req_aux hd) <| remaining_len := 5 |>) hd) = OutOfFuel.
Proof.
  intros hd. set (hd1 := set_aux _ hd).
  assert (E : httpd_req_recv 5 hd1 = Ok (RecvData [], hd1)) by (vm_compute; reflexivity).
  induction n as [|n IH]; [done|]. cbn [purge]. change (remaining_len (hd_req_aux hd1)) with 5. cbn [Z.eqb].
  change (Z.min CONFIG_HTTPD_PURGE_BUF_LEN 5) with 5. rewrite E. exact IH.
Qed.

(** A request without headers: the URL is taken for the data that follows the
    request, and is pushed back. *)
Example no_headers_pushes_url_back :
  let hd := set_scratch (chars "GET /a HTTP/1.1" ++ CRLF ++ CRLF ++ repeat 0 40) (busy_server small_wire) in
  let d := parse_init <| raw_datalen := 19 |> in
  let '(r, d, hd) := result (0, d, hd) (run_events get_parser [on_url 4 2; on_headers_complete; on_message_complete] d hd) in
  r = ESP_OK /\ p_status d = PARSING_COMPLETE /\
  map (fun s => drop 113 (pending_data s)) (hd_sd hd) = [chars "/a HTTP/1.1" ++ CRLF ++ CRLF].
Proof. vm_compute. by split_and!. Qed.

(** Version 1.0, and any version with one right digit, is accepted. *)
Example version_1_0_accepted :
  let hd := set_scratch (chars "/a" ++ repeat 0 40) (busy_server small_wire) in
  let d := parse_init <| last_length := 2 |> in
  (verify_url (mkParser 1 1 0 0 false) d hd).1.1 = ESP_OK /\ (verify_url (mkParser 1 2 1 0 false) d hd).1.1 = ESP_OK.
Proof. vm_compute. by split. Qed.

(** A parameter without a value hides the one behind it. *)
Example flag_hides_next : httpd_query_key_value (Some (chars "flag&b=1")) (Some (chars "b")) (Some (repeat 0 4)) 4 = Ok (ESP_ERR_NOT_FOUND, Some (repeat 0 4)).
Proof. vm_compute. reflexivity. Qed.

(** The length of a body is cut to 32 bits. *)
Example body_length_cut :
  let len l := content_len (hd_req (headers_done (mkParser 1 1 1 l false) parse_init (busy_server small_wire)).2) in
  len (2 ^ 32 + 5) = 5 /\ len (2 ^ 32 - 1) = 0.
Proof. vm_compute. by split. Qed.

(** Without memory for the task, three sockets stay open. *)
Example start_leaks_sockets :
  let '(err, hd, w) := result (0, None, small_wire) (httpd_start 10 [true] false (Some (small_cfg 0)) small_wire) in
  err = ESP_ERR_HTTPD_TASK /\ hd = None /\ w_open w = 13 /\ w_closed w = [].
Proof. vm_compute. by split_and!. Qed.

(** [close_fn] is called when the socket is closed already. *)
Definition with_close_fn (hd : httpd_data) : httpd_data := hd <| config := mkConfig 1 3 2 true 0 0 0 0 0 1 0 |>.
Example socket_closed_before_close_fn :
  let hd := with_close_fn (session_server one_session (input [[]])) in
  w_closed (world (result hd (process_sessions 5 1 [5] (-1) hd))) = [5; -5].
Proof. vm_compute. reflexivity. Qed.

(** A queued close of a session that has ended closes the next session in its place,
    when that has served a request. *)
Definition two_works : list httpd_ctrl_data := repeat (HTTPD_CTRL_WORK (app_work_fn 0 0)) 2.
Definition closing_server : httpd_data :=
  let w := mkWire [[]; get_request] [] [[11; 5; 10]; [11; 6]; [11]] [6] two_works [] 10 in
  (httpd_sess_trigger_close 5 (with_handler get_a (session_server one_session w) <| listen_fd := 10 |> <| ctrl_fd := 11 |>)).2.
Example stale_close_hits_next_session :
  let rounds2 := result closing_server (rounds 400 2 closing_server) in
  let rounds3 := result closing_server (rounds 400 3 closing_server) in
  map fd (hd_sd rounds2) = [6] /\ map lru_counter (hd_sd rounds2) = [1] /\ map fd (hd_sd rounds3) = [-1] /\ w_closed (world rounds3) = [5; 6].
Proof. vm_compute. by split_and!. Qed.
